(* ===== verification/_CoqProject ===== *)
-Q . S2P
Prelude.v
Configuration.v
Bytes.v
Wire.v
Handshake.v
Membership.v
PeerSet.v
Transition.v
Window.v
Ring.v
Vec.v
Log.v
CoreState.v
WireBinding.v
WireTheorems.v
WireMessage.v
WireLittle.v
Transport.v
TransportFeed.v
TransportTheorems.v
GroupQueue.v
GroupQueueTheorems.v
Digest.v
Os.v
Ram.v
SnapshotSender.v
SnapshotReceiver.v
Wal.v
WalCodec.v
WalRead.v
WalRecovery.v
WalReplay.v
WalWrite.v
WalCommit.v
WalLog.v
WalTransaction.v
WalOpen.v
WalTheorems.v
WalReopen.v
WalExamples.v
SnapshotReceive.v
SnapshotSend.v
CoreEmit.v
CoreElection.v
CoreSteps.v
CoreApi.v
SnapshotManager.v
SnapshotTransfer.v
SnapshotProgress.v
CoreFrame.v
CoreInvariant.v
CoreSafety.v
CoreFollower.v
CoreCalls.v
CoreTime.v
CoreReach.v
CoreFlow.v
CoreReport.v
CoreRefused.v
CoreTheorems.v
Cluster.v
CoreTraces.v
Runtime.v
Service.v
RuntimeApply.v
RuntimeProcess.v
Node.v
NodeExamples.v
NodeLog.v
NodeDurable.v
NodeLogExamples.v
ServiceDelivery.v
ServiceDrain.v
ServiceNode.v
ServiceTheorems.v
ServiceExamples.v
