(* ===== verification/Prelude.v ===== *)
(** * TurboRaft: a verification library

    TurboRaft is a Raft library in C. A deterministic core decides elections,
    replication, membership changes and reads; it is driven by calls and hands
    out its effects in a buffer, the ready. Around the core are a wire codec,
    an authenticated peer session, an outbound queue, the transfer of snapshots
    and of data, storage, a service that connects them, and tools.

    The development translates the C functions into Rocq functions of the same
    names and proves what the callers rely on. Paths below are relative to
    [src/], the root of the repository.

    ** Conventions

    - A machine word is a [Z] in its range; [+64], [-64] and [u64] are the
      wrapped operations of [uint64_t], written where a wrap can occur.
    - A status code is [SALTS_OK] or [SALTS_ERR e]. A function that fails
      returns its status together with the state it leaves.
    - A fixed array with a count is the list of its elements in use; a buffer
      is a list of bytes. Records have the fields of the C structures; a field
      update is written with the notation of this file.
    - State is passed explicitly. A callback is a function on the state it
      closes over; a null pointer is [None]. What an allocator returns is an
      argument, so every theorem covers its failure.
    - Arguments whose null pointers the code refuses with [SALTS_EINVAL] are
      values; that refusal is not modelled.
    - Loops that are not structural have fuel; a theorem shows for each of them
      that the fuel given is enough ([replication_loops_terminate],
      [fill_window_terminates], [feed_split]).
    - Code of third parties is a class of operations with a class of laws that
      state what the code relies on, and has an instance in the development:
      vectors ([Vec]), the data binding of the wire formats ([WireBinding],
      [WireLittle]), SHA-256 and XXH3 ([Digest]) and the file system ([Os],
      whose instance is [Ram]).

    ** Files

    Foundations
    - [Prelude]: words, statuses, field updates, lists, tactics and hints.
    - [Bytes]: big-endian words in byte strings ([src/wire/raft_wire_codec.c]).
    - [Vec], [Digest], [Os]: the vector and digest libraries and the file
      system as classes; [Ram]: files in memory that short writes, failures and
      losses of power can hit.

    The core, [src/core/]
    - [Configuration] ([raft_configuration.c]): committed configurations, their
      validator and codec.
    - [Membership] ([raft_membership.c]): stable and joint memberships, quorums.
    - [PeerSet] ([raft_peer_set.c]): sorted union of the members.
    - [Transition] ([raft_membership_transition.c]): committed and pending
      configurations.
    - [Window] (the append windows of [raft_core.c]): rings refined to queues.
    - [Log] ([raft_log.c]): the bounded log above a snapshot.
    - [CoreState], [CoreEmit], [CoreElection], [CoreSteps], [CoreApi]
      ([raft_core.c], [raft_core.h]): state, effects, handlers and every call.
    - [CoreFrame], [CoreInvariant], [CoreSafety], [CoreFollower], [CoreCalls],
      [CoreTime], [CoreReach], [CoreFlow]: the invariant of a core, that every
      call keeps it, and the termination of the loops.
    - [CoreReport]: what a ready reports of the log and the commit index;
      [CoreRefused]: what a refused call leaves alone.
    - [CoreTheorems]: the promises of the calls; [Cluster] and [CoreTraces]:
      executable clusters, examples and runs that exhibit defects.

    Wire and transport, [src/wire/] and [src/transport/]
    - [Wire], [WireBinding] ([raft_wire_codec.c] and [generated/]): envelopes
      and the five payloads; [WireTheorems], [WireMessage]: encoders and
      decoders are inverse.
    - [Handshake] ([raft_peer_handshake.c]): negotiation of a session.
    - [Transport] ([raft_transport.c]): framing, reassembly and dispatch;
      [TransportFeed], [TransportTheorems]: what a session delivers.
    - [GroupQueue] ([raft_group_queue.c]), [GroupQueueTheorems]: the outbound
      queue, a fair scheduler over one queue per group.

    Snapshots, [src/snapshot/] and [src/service/]
    - [SnapshotSender] ([raft_snapshot_sender.c]), [SnapshotSend]: the chunks
      of an outgoing snapshot.
    - [SnapshotReceiver] ([raft_snapshot_receiver.c]), [SnapshotReceive]: the
      assembly of an incoming one.
    - [SnapshotManager] ([raft_snapshot_coordinator.c], [raft_snapshot_peer.c],
      [raft_snapshot_manager.c]): windows, peers and requests.
    - [SnapshotTransfer], [SnapshotProgress]: both ends together.

    The write-ahead log, [src/storage/raft_wal_storage.c]
    - [Wal]: the storage, its recovery and its snapshots, every operation.
    - [WalCodec], [WalRead]: words, file names and reading; [WalRecovery]: what
      recovery returns is well formed; [WalReplay]: replay of what the log has
      written; [WalWrite], [WalCommit]: files, segments and frames under losses
      of power; [WalLog], [WalTransaction]: the calls of a transaction and the
      state they describe; [WalOpen]: opening.
    - [WalTheorems], [WalReopen]: the life of a log; [WalExamples]: runs.

    The runtime, [src/runtime/raft_runtime.c]
    - [Runtime]: the calls that hand a ready to the storage, the transport and
      the state machine; [RuntimeApply], [RuntimeProcess]: what each stage
      does; [Node], [NodeExamples]: a core with its runtime; [NodeLog],
      [NodeDurable], [NodeLogExamples]: the runtime over the write-ahead log.

    The service, [src/service/raft_service.c]
    - [Ring]: rings refined to queues.
    - [Service]: every call of the service, over arbitrary callbacks;
      [ServiceDelivery], [ServiceDrain]: what is staged for the peers;
      [ServiceNode]: that the calls are runs of a node; [ServiceTheorems],
      [ServiceExamples]: the promises of a service and runs of two.

    ** What the theorems show

    - A core: every call keeps the invariant, the message buffer is never
      overrun, changes of the hard state are reported, and a node never takes
      back its term, its vote within a term, its commit index or a committed
      entry. A node votes once in a term; a leader commits by counting only
      entries of its own term; quorums of consecutive configurations intersect;
      reconciliation adopts the entries of the leader and never removes a
      committed one; committed entries are delivered once, in order.
    - Frames: encoding and decoding are inverse in both directions; two
      sessions deliver the payloads sent, in order and once, however the bytes
      are split; nothing but valid payloads of the authenticated peer is
      delivered; a handshake that ends agrees on the limits of both sides.
    - The outbound queue is a bounded FIFO for each group, and no group waits
      for more than one payload of every other group.
    - A snapshot that is installed is the one that was sent; a transfer over a
      working link completes, also after interruptions; sources are released
      once.
    - The write-ahead log: a transaction is all or nothing; whatever calls fail
      and whenever power is lost, a log is opened with the effect of all
      transactions that were acknowledged, and perhaps of one that failed; on a
      system that works it is always opened; what it loads is well formed
      whatever the files hold. The theorems on losses of power are about
      transactions of the core, and assume that the calls that read do not
      fail and that the first transaction after an opening that cut a torn
      frame fits its segment; [cut_not_durable] shows that the code needs the
      latter.
    - A node, a core with its runtime: whatever callbacks fail or refuse, the
      state machine gets every committed command once, in the order of the
      log. Over the write-ahead log, what a node has told others is durable: a
      log that has lost power opens with the state of the core at a moment not
      before its last messages. That theorem starts from a log without a torn
      tail and supposes readies whose fields have the widths of their types.
    - A service, over its whole life with failures and reloads: the state
      machine gets every committed command once, in order; the messages of a
      peer are kept in order while the transport has no room; completed reads
      are a queue; a service that is faulted or frozen changes nothing; the log
      is compacted only after the snapshot is stored. The callbacks of the owner
      are supposed to act on their own contexts ([outer_ok], [policy_ok]).
    - Defects: [CoreTraces] runs clusters of the modelled cores into states the
      protocol excludes (a heartbeat that commits stale entries, a pre-vote
      round that is lost, an overrun that the capacity check misses, a refused
      tick that changes the core); [PeerSet] and [SnapshotReceive] hold two
      more, [WalExamples] four of the log, and [ServiceTheorems] two of the
      snapshots of a service.

    ** Not modelled

    - Network peers and event loops ([src/transport/raft_cnet_peer.c],
      [raft_flowmq_*.c]), the runtimes with threads
      ([src/runtime/raft_apply_runtime.c], [raft_multicore.c]): threads,
      sockets and timers of libraries that are not part of the sources.
    - The fault injection hooks of the storage and of the service, which only
      tests set.
    - Data streams, the control plane and the snapshot installer: not yet.
    - The text syntax, the tools, benchmarks and examples: diagnostic programs,
      parsers generated at build time and a copy of the Lemon generator.
    - The allocation of memory beyond its success, pointers, and concurrent
      calls, which the interfaces exclude. *)

From Stdlib Require Import ZArith Lia Sorting.Sorted.
From stdpp Require Import base numbers list tactics.

(** ** Scopes *)

Declare Scope raft_scope.
Delimit Scope raft_scope with raft.
Open Scope Z_scope.
Open Scope raft_scope.

(** ** Unsigned machine integers

    A C unsigned integer is a [Z]; an arithmetic result is reduced to its
    width where the source computes it. *)

Definition UINT64_MAX : Z := 2 ^ 64 - 1.
Definition UINT32_MAX : Z := 2 ^ 32 - 1.

Definition u64 (x : Z) : Z := x mod 2 ^ 64.
Definition u32 (x : Z) : Z := x mod 2 ^ 32.
Definition u8 (x : Z) : Z := x mod 2 ^ 8.

Notation "a +64 b" := (u64 (a + b)) (at level 50, left associativity) : raft_scope.
Notation "a -64 b" := (u64 (a - b)) (at level 50, left associativity) : raft_scope.
Notation "a +32 b" := (u32 (a + b)) (at level 50, left associativity) : raft_scope.
Notation "a -32 b" := (u32 (a - b)) (at level 50, left associativity) : raft_scope.

(** [UINT32_C(1) << (uint32_t) i]. A shift count outside [0, 31] is undefined
    in C; the invariants of the components show that it never happens, and the
    model gives the empty mask there. *)
Definition bit32 (i : Z) : Z :=
  if (0 <=? i) && (i <? 32) then Z.shiftl 1 i else 0.

(** [(mask & (UINT32_C(1) << i)) != 0U] *)
Definition has_bit (mask i : Z) : bool := negb (Z.land mask (bit32 i) =? 0).

(** ** Status codes

    The names of the Salts error codes the sources return. *)

Inductive errno : Set :=
| EINVAL
| EPROTO
| ENOSPC
| ENOENT
| ENOMEM
| EBUSY
| EPERM
| EALREADY
| EFBIG
| ESHUTDOWN
| ECANCELED
| EPROTONOSUPPORT
| EIO
| ENOTSUP
| ERANGE
| ENOBUFS
| ENAMETOOLONG
| ETIMEDOUT
| ENOTCONN.

Inductive status : Set :=
| SALTS_OK
| SALTS_ERR (error : errno).

Abbreviation SALTS_EINVAL := (SALTS_ERR EINVAL).
Abbreviation SALTS_EPROTO := (SALTS_ERR EPROTO).
Abbreviation SALTS_ENOSPC := (SALTS_ERR ENOSPC).
Abbreviation SALTS_ENOENT := (SALTS_ERR ENOENT).
Abbreviation SALTS_ENOMEM := (SALTS_ERR ENOMEM).
Abbreviation SALTS_EBUSY := (SALTS_ERR EBUSY).
Abbreviation SALTS_EPERM := (SALTS_ERR EPERM).
Abbreviation SALTS_EALREADY := (SALTS_ERR EALREADY).
Abbreviation SALTS_EFBIG := (SALTS_ERR EFBIG).
Abbreviation SALTS_ESHUTDOWN := (SALTS_ERR ESHUTDOWN).
Abbreviation SALTS_ECANCELED := (SALTS_ERR ECANCELED).
Abbreviation SALTS_EPROTONOSUPPORT := (SALTS_ERR EPROTONOSUPPORT).
Abbreviation SALTS_EIO := (SALTS_ERR EIO).
Abbreviation SALTS_ENOTSUP := (SALTS_ERR ENOTSUP).
Abbreviation SALTS_ERANGE := (SALTS_ERR ERANGE).
Abbreviation SALTS_ENOBUFS := (SALTS_ERR ENOBUFS).
Abbreviation SALTS_ENAMETOOLONG := (SALTS_ERR ENAMETOOLONG).
Abbreviation SALTS_ETIMEDOUT := (SALTS_ERR ETIMEDOUT).
Abbreviation SALTS_ENOTCONN := (SALTS_ERR ENOTCONN).

#[export] Instance errno_eq_dec : EqDecision errno.
Proof. solve_decision. Defined.
#[export] Instance status_eq_dec : EqDecision status.
Proof. solve_decision. Defined.

Definition ok (s : status) : bool :=
  match s with SALTS_OK => true | _ => false end.
Definition failed (s : status) : bool := negb (ok s).

(** ** Record update *)

Class Setter {R T : Type} (proj : R -> T) : Type := set_field : T -> R -> R.
Arguments set_field {R T} proj {_} _ _ : assert.

Notation "r <| proj := v |>" := (set_field proj v r)
  (at level 1, left associativity, v at level 99,
   format "r <| proj  :=  v |>") : raft_scope.

(** Builds [fun v r => {| ... proj := v ... |}] from the record's eta
    expansion. *)
Ltac setter eta proj :=
  let v := fresh "v" in
  let r := fresh "r" in
  intros v r;
  let e := eval hnf in (eta r) in
  let p := eval pattern (proj r) in e in
  lazymatch p with
  | ?f _ => let b := eval cbv beta in (f v) in exact b
  end.

(** ** Loops

    [for_n n body s] is [for (i = 0; i < n; ++i) s = body(i, s);]. *)

Definition for_n {S : Type} (n : nat) (body : nat -> S -> S) (s : S) : S :=
  fold_left (fun s i => body i s) (seq 0 n) s.

(** ** C arrays passed as pointer and length

    [array_elems p n] are the elements [p[0] .. p[n - 1]]; [None] is the null
    pointer. *)
Definition array_elems {A : Type} (p : option (list A)) (n : Z) : list A :=
  take (Z.to_nat n) (default [] p).

(** ** Arrays of a fixed length

    [array_get d a i] is [a[i]] and [array_set a i v] is [a[i] = v]. Out of
    range, where C leaves the access undefined, they read [d] and write
    nothing. *)
Definition array_get {A : Type} (d : A) (a : list A) (i : Z) : A :=
  if i <? 0 then d else nth (Z.to_nat i) a d.
Definition array_set {A : Type} (a : list A) (i : Z) (v : A) : list A :=
  if i <? 0 then a else <[Z.to_nat i := v]> a.

Definition is_null {A : Type} (p : option A) : bool :=
  match p with Some _ => false | None => true end.

(** The loop every validator of node identifiers runs: each is non-zero and
    greater than the one before it. [prev] is the element at [index - 1]. *)
Fixpoint ids_ascending_from (prev : option Z) (ids : list Z) : bool :=
  match ids with
  | [] => true
  | id :: rest =>
      negb (id =? 0) &&
      match prev with None => true | Some p => p <? id end &&
      ids_ascending_from (Some id) rest
  end.

(** What that loop decides. *)
Definition ids_wf (ids : list Z) : Prop :=
  Forall (fun id => id <> 0) ids /\ StronglySorted Z.lt ids.

(** How many elements satisfy a test. *)
Fixpoint countb {A : Type} (f : A -> bool) (l : list A) : Z :=
  match l with
  | [] => 0
  | x :: rest => Z.b2z (f x) + countb f rest
  end.

(** ** Lemmas on machine integers *)

Lemma u64_small (x : Z) : 0 <= x < 2 ^ 64 -> u64 x = x.
Proof. apply Z.mod_small. Qed.

Lemma u32_small (x : Z) : 0 <= x < 2 ^ 32 -> u32 x = x.
Proof. apply Z.mod_small. Qed.

Lemma u8_small (x : Z) : 0 <= x < 2 ^ 8 -> u8 x = x.
Proof. apply Z.mod_small. Qed.

Lemma u64_range (x : Z) : 0 <= u64 x < 2 ^ 64.
Proof. apply Z.mod_pos_bound. lia. Qed.

Lemma u32_range (x : Z) : 0 <= u32 x < 2 ^ 32.
Proof. apply Z.mod_pos_bound. lia. Qed.

Lemma u64_sub_idemp (x y : Z) : u64 (u64 x - y) = u64 (x - y).
Proof. apply Zminus_mod_idemp_l. Qed.

Lemma u64_add_idemp (x y : Z) : u64 (u64 x + y) = u64 (x + y).
Proof. apply Zplus_mod_idemp_l. Qed.

(** Removes the reductions that do nothing, then calls [lia]. *)
Ltac word_simpl :=
  unfold UINT64_MAX, UINT32_MAX in *;
  rewrite ?u64_sub_idemp, ?u64_add_idemp in *;
  repeat first
    [ rewrite u64_small in * by lia
    | rewrite u32_small in * by lia
    | rewrite u8_small in * by lia ].
Ltac word := unfold UINT64_MAX, UINT32_MAX in *; word_simpl; lia.

(** Boolean tests as propositions. *)
Ltac bprop :=
  repeat first
    [ rewrite negb_true_iff in * | rewrite negb_false_iff in *
    | rewrite andb_true_iff in * | rewrite andb_false_iff in *
    | rewrite orb_true_iff in * | rewrite orb_false_iff in *
    | rewrite Z.eqb_eq in * | rewrite Z.eqb_neq in *
    | rewrite Z.ltb_lt in * | rewrite Z.ltb_ge in *
    | rewrite Z.leb_le in * | rewrite Z.leb_gt in * ].
Ltac blia := first [ lia | bprop; lia | symmetry; bprop; lia ].

Lemma testbit_bit32 (i j : Z) :
  0 <= i < 32 -> Z.testbit (bit32 i) j = (i =? j).
Proof.
  intros Hi. unfold bit32.
  replace ((0 <=? i) && (i <? 32)) with true by lia.
  destruct (Z.ltb_spec j 0) as [Hj | Hj].
  - rewrite Z.testbit_neg_r by lia. lia.
  - rewrite Z.shiftl_1_l, Z.pow2_bits_eqb by lia. done.
Qed.

Lemma has_bit_testbit (mask i : Z) :
  0 <= i < 32 -> has_bit mask i = Z.testbit mask i.
Proof.
  intros Hi. unfold has_bit.
  destruct (Z.testbit mask i) eqn:Hb.
  - apply negb_true_iff, Z.eqb_neq. intros H0.
    assert (Z.testbit (Z.land mask (bit32 i)) i = false) as H
      by (rewrite H0; apply Z.bits_0).
    rewrite Z.land_spec, testbit_bit32, Hb in H by lia. lia.
  - apply negb_false_iff, Z.eqb_eq, Z.bits_inj'. intros j Hj.
    rewrite Z.land_spec, testbit_bit32, Z.bits_0 by lia.
    destruct (Z.eqb_spec i j) as [<- | _]; [by rewrite Hb | apply andb_false_r].
Qed.

Lemma has_bit_out (mask i : Z) : ~ (0 <= i < 32) -> has_bit mask i = false.
Proof.
  intros Hi. unfold has_bit, bit32.
  replace ((0 <=? i) && (i <? 32)) with false by lia.
  by rewrite Z.land_0_r.
Qed.

Lemma has_bit_lor (m1 m2 i : Z) :
  has_bit (Z.lor m1 m2) i = has_bit m1 i || has_bit m2 i.
Proof.
  destruct (decide (0 <= i < 32)) as [Hi | Hi].
  - by rewrite !has_bit_testbit, Z.lor_spec by done.
  - by rewrite !has_bit_out by done.
Qed.

Lemma has_bit_0 (i : Z) : has_bit 0 i = false.
Proof. done. Qed.

Lemma has_bit_bit32 (i j : Z) :
  0 <= i < 32 -> has_bit (bit32 i) j = (i =? j).
Proof.
  intros Hi. destruct (decide (0 <= j < 32)) as [Hj | Hj].
  - by rewrite has_bit_testbit, testbit_bit32 by done.
  - rewrite has_bit_out by done. lia.
Qed.

Lemma has_bit_ldiff (mask i j : Z) :
  0 <= i < 32 ->
  has_bit (Z.ldiff mask (bit32 i)) j = has_bit mask j && negb (i =? j).
Proof.
  intros Hi. destruct (decide (0 <= j < 32)) as [Hj | Hj].
  - by rewrite !has_bit_testbit, Z.ldiff_spec, testbit_bit32 by done.
  - by rewrite !has_bit_out by done.
Qed.

(** ** Lemmas on loops and lists *)

Lemma for_n_0 {S : Type} (body : nat -> S -> S) (s : S) : for_n 0 body s = s.
Proof. done. Qed.

Lemma for_n_S {S : Type} (n : nat) (body : nat -> S -> S) (s : S) :
  for_n (Datatypes.S n) body s = body n (for_n n body s).
Proof.
  unfold for_n. rewrite seq_S, fold_left_app. done.
Qed.

(** The loop rule: an indexed invariant established before the loop and kept
    by each iteration holds after it. *)
Lemma for_n_inv {S : Type} (I : nat -> S -> Prop) (n : nat)
    (body : nat -> S -> S) (s : S) :
  I 0%nat s ->
  (forall i s', (i < n)%nat -> I i s' -> I (Datatypes.S i) (body i s')) ->
  I n (for_n n body s).
Proof.
  intros H0 Hstep. induction n as [|n IH]; [done|].
  rewrite for_n_S. apply Hstep; [lia|]. apply IH. eauto with lia.
Qed.

Lemma ids_ascending_from_spec (prev : option Z) (ids : list Z) :
  ids_ascending_from prev ids = true <->
  ids_wf ids /\ (forall p, prev = Some p -> Forall (Z.lt p) ids).
Proof.
  unfold ids_wf. revert prev. induction ids as [|x ids IH]; intros prev; cbn.
  { split; [|done]. intros _. repeat split; constructor. }
  rewrite !andb_true_iff, IH. split.
  - intros [[Hx Hp] [[Hnz Hs] Hlt]]. specialize (Hlt x eq_refl).
    repeat split; try (constructor; [lia|done]); [by constructor|].
    intros p ->. constructor; [lia|].
    eapply list.Forall_impl; [apply Hlt|]. cbn. lia.
  - intros [[Hnz Hs] Hp]. inversion Hnz; inversion Hs; subst.
    repeat split; [lia| |done|done|].
    + destruct prev as [p|]; [|done].
      specialize (Hp p eq_refl). apply Forall_inv in Hp. lia.
    + intros p [= <-]. done.
Qed.

Lemma ids_ascending_spec (ids : list Z) :
  ids_ascending_from None ids = true <-> ids_wf ids.
Proof. rewrite ids_ascending_from_spec. naive_solver. Qed.

Lemma length_array_elems (p : option (list Z)) (n : Z) :
  0 <= n -> Z.of_nat (length (array_elems p n)) <= n.
Proof.
  intros Hn. unfold array_elems. rewrite length_take. lia.
Qed.

Lemma StronglySorted_lt_NoDup (l : list Z) : StronglySorted Z.lt l -> NoDup l.
Proof.
  induction 1 as [|x l Hs IH Hx]; constructor; [|done].
  rewrite list.Forall_forall in Hx. intros Hin.
  apply Hx in Hin. lia.
Qed.

(** Two lists ascending for the same asymmetric order, with the same elements,
    are equal. *)
Lemma StronglySorted_ext {A : Type} (R : A -> A -> Prop) (l1 l2 : list A) :
  (forall x y, R x y -> R y x -> False) ->
  StronglySorted R l1 -> StronglySorted R l2 ->
  (forall x, x ∈ l1 <-> x ∈ l2) -> l1 = l2.
Proof.
  intros Hasym H1. revert l2. induction H1 as [|x l1 Hs1 IH Hx]; intros l2 H2 Heq.
  - destruct l2 as [|y l2]; [done|].
    exfalso. apply (not_elem_of_nil y), Heq. left.
  - destruct H2 as [|y l2 Hs2 Hy].
    { exfalso. apply (not_elem_of_nil x), Heq. left. }
    rewrite list.Forall_forall in Hx, Hy.
    assert (x = y) as ->.
    { assert (x ∈ y :: l2) as Hxin by (apply Heq; left).
      assert (y ∈ x :: l1) as Hyin by (apply Heq; left).
      apply elem_of_cons in Hxin as [|Hxin]; [done|].
      apply elem_of_cons in Hyin as [|Hyin]; [done|].
      destruct (Hasym x y); auto. }
    f_equal. apply IH; [done|]. intros z. specialize (Heq z).
    rewrite !elem_of_cons in Heq. split; intros Hz.
    + destruct (proj1 Heq (or_intror Hz)) as [->|]; [|done].
      destruct (Hasym y y); auto.
    + destruct (proj2 Heq (or_intror Hz)) as [->|]; [|done].
      destruct (Hasym y y); auto.
Qed.

Lemma StronglySorted_lt_ext (l1 l2 : list Z) :
  StronglySorted Z.lt l1 -> StronglySorted Z.lt l2 ->
  (forall x, x ∈ l1 <-> x ∈ l2) -> l1 = l2.
Proof. apply StronglySorted_ext. lia. Qed.

Lemma elem_of_List_filter {A : Type} (f : A -> bool) (l : list A) (x : A) :
  x ∈ List.filter f l <-> x ∈ l /\ f x = true.
Proof. by rewrite !list_elem_of_In, filter_In. Qed.

(** Selecting and mapping monotonically keeps a list sorted. *)
Lemma StronglySorted_map_filter {A B : Type} (R : A -> A -> Prop)
    (R' : B -> B -> Prop) (p : A -> bool) (f : A -> B) (l : list A) :
  (forall x y, R x y -> R' (f x) (f y)) ->
  StronglySorted R l -> StronglySorted R' (f <$> List.filter p l).
Proof.
  intros Hf. induction 1 as [|x l Hs IH Hx]; cbn; [constructor|].
  destruct (p x); [|done]. cbn. constructor; [done|].
  rewrite list.Forall_forall in Hx. apply list.Forall_forall. intros y (z & -> & Hz)%list_elem_of_fmap.
  apply elem_of_List_filter in Hz as [Hz _]. by apply Hf, Hx.
Qed.

Lemma countb_nonneg {A : Type} (f : A -> bool) (l : list A) : 0 <= countb f l.
Proof. induction l as [|x l IH]; cbn; [lia|]. destruct (f x); cbn; lia. Qed.

Lemma countb_le_length {A : Type} (f : A -> bool) (l : list A) :
  countb f l <= Z.of_nat (length l).
Proof. induction l as [|x l IH]; cbn; [lia|]. destruct (f x); cbn; lia. Qed.

Lemma countb_app {A : Type} (f : A -> bool) (l1 l2 : list A) :
  countb f (l1 ++ l2) = countb f l1 + countb f l2.
Proof. induction l1 as [|x l IH]; cbn; lia. Qed.

Lemma countb_mono {A : Type} (f g : A -> bool) (l : list A) :
  (forall x, x ∈ l -> f x = true -> g x = true) -> countb f l <= countb g l.
Proof.
  induction l as [|x l IH]; intros H; cbn; [lia|].
  assert (countb f l <= countb g l) as Hl
    by (apply IH; intros y Hy; apply H; by right).
  assert (f x = true -> g x = true) as Hx by (apply H; left).
  destruct (f x), (g x); cbn; naive_solver lia.
Qed.

Lemma countb_ext {A : Type} (f g : A -> bool) (l : list A) :
  (forall x, x ∈ l -> f x = g x) -> countb f l = countb g l.
Proof.
  intros H. apply Z.le_antisymm; apply countb_mono; intros x Hx; by rewrite H.
Qed.

Lemma countb_pos {A : Type} (f : A -> bool) (l : list A) :
  0 < countb f l <-> exists x, x ∈ l /\ f x = true.
Proof.
  induction l as [|x l IH]; cbn.
  - split; [lia|]. intros (x & Hx & _). by apply elem_of_nil in Hx.
  - setoid_rewrite elem_of_cons. pose proof (countb_nonneg f l).
    destruct (f x) eqn:E; cbn; split.
    + eauto.
    + lia.
    + intros Hl. destruct (proj1 IH) as (y & ? & ?); [lia|]. eauto.
    + intros (y & [->|Hy] & Hf); [congruence|].
      enough (0 < countb f l) by lia. apply IH. eauto.
Qed.

(** Inclusion and exclusion: what makes two majorities meet. *)
Lemma countb_meet {A : Type} (v f g : A -> bool) (l : list A) :
  countb v l < countb (fun x => v x && f x) l + countb (fun x => v x && g x) l ->
  exists x, x ∈ l /\ v x = true /\ f x = true /\ g x = true.
Proof.
  intros H.
  assert (0 < countb (fun x => v x && f x && g x) l) as Hpos.
  { induction l as [|x l IH]; cbn in *; [lia|].
    pose proof (countb_nonneg (fun x => v x && f x && g x) l).
    destruct (v x), (f x), (g x); cbn in *; lia. }
  apply countb_pos in Hpos as (x & Hx & Hf).
  rewrite !andb_true_iff in Hf. naive_solver.
Qed.

Lemma length_array_set {A : Type} (a : list A) (i : Z) (v : A) :
  length (array_set a i v) = length a.
Proof. unfold array_set. case_match; [done|]. apply length_insert. Qed.

Lemma array_get_nat {A : Type} (d : A) (a : list A) (k : nat) :
  array_get d a (Z.of_nat k) = nth k a d.
Proof.
  unfold array_get. replace (_ <? 0) with false by blia. by rewrite Nat2Z.id.
Qed.

Lemma array_get_set_eq {A : Type} (d : A) (a : list A) (i : Z) (v : A) :
  0 <= i < Z.of_nat (length a) -> array_get d (array_set a i v) i = v.
Proof.
  intros Hi. unfold array_get, array_set. replace (_ <? 0) with false by blia.
  erewrite nth_lookup, list_lookup_insert_eq by lia. done.
Qed.

Lemma array_get_set_ne {A : Type} (d : A) (a : list A) (i j : Z) (v : A) :
  i <> j -> array_get d (array_set a i v) j = array_get d a j.
Proof.
  intros Hne. unfold array_get, array_set.
  destruct (Z.ltb_spec i 0), (Z.ltb_spec j 0); try done.
  rewrite !nth_lookup, list_lookup_insert_ne by lia. done.
Qed.

Create Rewrite HintDb raft_len.

#[export] Hint Rewrite @length_insert @length_replicate @length_app
  @length_take @length_drop @length_fmap @length_array_set : raft_len.

Create HintDb raft discriminated.
