(* ===== verification/Configuration.v ===== *)
(** * Committed configurations: [src/core/raft_configuration.c]

    The membership record, its validator, its canonical byte encoding and the
    log entries that carry it. *)

From S2P Require Import Prelude.
From Stdlib Require Import ZArith Lia Sorting.Sorted.
From stdpp Require Import base numbers list tactics.
Open Scope Z_scope.
Open Scope raft_scope.

(** ** Data *)

Definition TR_RAFT_MAX_MEMBERS : Z := 31.
Definition TR_RAFT_MAX_ENTRY_BYTES : Z := 512.
Definition TR_RAFT_CONF_CODEC_VERSION : Z := 1.
Definition TR_RAFT_CONF_HEADER_SIZE : Z := 16.
Definition TR_RAFT_CONF_MEMBER_SIZE : Z := 9.

(** [tr_raft_conf_phase_t]. The decoder casts an arbitrary byte to this
    enumeration, so a phase is an integer. *)
Definition TR_RAFT_CONF_JOINT : Z := 1.
Definition TR_RAFT_CONF_FINAL : Z := 2.

(** [tr_raft_conf_role_t], flags of a [uint8_t]. *)
Definition TR_RAFT_CONF_OLD_VOTER : Z := 1.
Definition TR_RAFT_CONF_NEW_VOTER : Z := 2.
Definition TR_RAFT_CONF_LEARNER : Z := 4.

Record tr_raft_conf_member := Member {
  member_node_id : Z;
  member_roles : Z
}.

(** [members] holds [members[0] .. members[member_count - 1]]. *)
Record tr_raft_conf := Conf {
  conf_phase : Z;
  conf_transition_id : Z;
  conf_members : list tr_raft_conf_member
}.

Definition conf_member_count (c : tr_raft_conf) : Z :=
  Z.of_nat (length (conf_members c)).

(** The configuration after [memset] to zero. *)
Definition zero_conf : tr_raft_conf := Conf 0 0 [].

(** [entry_data] holds the bytes of [data]; those at or beyond
    [entry_data_length] are never read. *)
Record tr_raft_entry := Entry {
  entry_index : Z;
  entry_term : Z;
  entry_command_id : Z;
  entry_data_length : Z;
  entry_data : list Z
}.

Definition zero_entry : tr_raft_entry := Entry 0 0 0 0 [].

#[export] Instance member_eq_dec : EqDecision tr_raft_conf_member.
Proof. solve_decision. Defined.
#[export] Instance conf_eq_dec : EqDecision tr_raft_conf.
Proof. solve_decision. Defined.
#[export] Instance entry_eq_dec : EqDecision tr_raft_entry.
Proof. solve_decision. Defined.
#[export] Instance entry_inhabited : Inhabited tr_raft_entry :=
  populate zero_entry.

(** [(roles & flag) != 0U] *)
Definition has_role (roles flag : Z) : bool := negb (Z.land roles flag =? 0).

(** [TR_RAFT_CONF_OLD_VOTER | TR_RAFT_CONF_NEW_VOTER] *)
Definition voter_roles : Z :=
  Z.lor TR_RAFT_CONF_OLD_VOTER TR_RAFT_CONF_NEW_VOTER.

(** ** Validation *)

Definition tr_raft_conf_roles_valid (phase roles : Z) : bool :=
  let all_roles := Z.lor voter_roles TR_RAFT_CONF_LEARNER in
  if (roles =? 0) || has_role roles (u8 (Z.lnot all_roles)) ||
     (has_role roles TR_RAFT_CONF_NEW_VOTER &&
      has_role roles TR_RAFT_CONF_LEARNER)
  then false
  else if phase =? TR_RAFT_CONF_FINAL
  then (roles =? voter_roles) || (roles =? TR_RAFT_CONF_LEARNER)
  else phase =? TR_RAFT_CONF_JOINT.

(** The member loop of the validator: [None] on the first bad member, else
    the numbers of old and of new voters. [prev] is the identifier of the
    member before. *)
Fixpoint conf_validate_members (phase : Z) (prev : option Z)
    (members : list tr_raft_conf_member) (old_voters new_voters : Z)
    : option (Z * Z) :=
  match members with
  | [] => Some (old_voters, new_voters)
  | m :: rest =>
      if (member_node_id m =? 0) ||
         match prev with None => false | Some p => member_node_id m <=? p end ||
         negb (tr_raft_conf_roles_valid phase (member_roles m))
      then None
      else conf_validate_members phase (Some (member_node_id m)) rest
             (old_voters +
              Z.b2z (has_role (member_roles m) TR_RAFT_CONF_OLD_VOTER))
             (new_voters +
              Z.b2z (has_role (member_roles m) TR_RAFT_CONF_NEW_VOTER))
  end.

Definition tr_raft_conf_validate (c : tr_raft_conf) : status :=
  if ((conf_phase c =? TR_RAFT_CONF_JOINT) && (conf_transition_id c =? 0)) ||
     (conf_member_count c =? 0) ||
     (TR_RAFT_MAX_MEMBERS <? conf_member_count c) ||
     (negb (conf_phase c =? TR_RAFT_CONF_JOINT) &&
      negb (conf_phase c =? TR_RAFT_CONF_FINAL))
  then SALTS_EINVAL
  else match conf_validate_members (conf_phase c) None (conf_members c) 0 0 with
       | None => SALTS_EINVAL
       | Some (old_voters, new_voters) =>
           if negb (old_voters =? 0) && negb (new_voters =? 0)
           then SALTS_OK else SALTS_EINVAL
       end.

(** ** Byte codec *)

(** ['T', 'R', 'C', 'F'] *)
Definition tr_raft_conf_magic : list Z := [84; 82; 67; 70].

(** The bytes already written are [output], those after the next one. *)
Fixpoint put_u64_loop (count : nat) (value : Z) (output : list Z) : list Z :=
  match count with
  | O => output
  | S count' =>
      put_u64_loop count' (Z.shiftr value 8) (u8 (Z.land value 255) :: output)
  end.

(** The eight bytes the loop stores at [output[0] .. output[7]]. *)
Definition tr_raft_conf_put_u64 (value : Z) : list Z :=
  put_u64_loop 8 value [].
#[global] Arguments tr_raft_conf_put_u64 : simpl never.

(** Reads [input[0] .. input[7]]. *)
Definition tr_raft_conf_get_u64 (input : list Z) : Z :=
  fold_left (fun value byte => Z.lor (u64 (Z.shiftl value 8)) byte)
    (take 8 input) 0.

(** A store of [bytes] at [buffer + offset]. *)
Definition store (offset : nat) (bytes buffer : list Z) : list Z :=
  take offset buffer ++ bytes ++ drop (offset + length bytes) buffer.

Fixpoint encode_members (offset : nat) (members : list tr_raft_conf_member)
    (output : list Z) : list Z :=
  match members with
  | [] => output
  | m :: rest =>
      encode_members (offset + Z.to_nat TR_RAFT_CONF_MEMBER_SIZE) rest
        (store (offset + 8) [member_roles m]
           (store offset (tr_raft_conf_put_u64 (member_node_id m)) output))
  end.

(** Status, [*output_length], and the bytes written to [output] ([None] when
    the call leaves it untouched). *)
Definition tr_raft_conf_encode (c : tr_raft_conf) (output_capacity : Z)
    : status * Z * option (list Z) :=
  if failed (tr_raft_conf_validate c) then (SALTS_EINVAL, 0, None)
  else
    let required :=
      TR_RAFT_CONF_HEADER_SIZE + TR_RAFT_CONF_MEMBER_SIZE * conf_member_count c in
    if output_capacity <? required then (SALTS_ENOSPC, required, None)
    else
      let output := replicate (Z.to_nat required) 0 in
      let output := store 0 tr_raft_conf_magic output in
      let output := store 4 [TR_RAFT_CONF_CODEC_VERSION] output in
      let output := store 5 [u8 (conf_phase c)] output in
      let output := store 6 [u8 (conf_member_count c)] output in
      let output := store 8 (tr_raft_conf_put_u64 (conf_transition_id c)) output in
      (SALTS_OK, required,
       Some (encode_members (Z.to_nat TR_RAFT_CONF_HEADER_SIZE)
               (conf_members c) output)).

(** [input[i]] *)
Definition byte_at (input : list Z) (i : nat) : Z := nth i input 0.

Fixpoint decode_members (count : nat) (offset : nat) (input : list Z)
    : list tr_raft_conf_member :=
  match count with
  | O => []
  | S count' =>
      Member (tr_raft_conf_get_u64 (drop offset input))
             (byte_at input (offset + 8))
      :: decode_members count' (offset + Z.to_nat TR_RAFT_CONF_MEMBER_SIZE) input
  end.

(** [input] holds [input_length] bytes. *)
Definition tr_raft_conf_decode (input : list Z) : status * tr_raft_conf :=
  let input_length := Z.of_nat (length input) in
  if (input_length <? TR_RAFT_CONF_HEADER_SIZE) ||
     negb (bool_decide (take 4 input = tr_raft_conf_magic)) ||
     negb (byte_at input 4 =? TR_RAFT_CONF_CODEC_VERSION) ||
     negb (byte_at input 7 =? 0)
  then (SALTS_EPROTO, zero_conf)
  else
    let member_count := byte_at input 6 in
    if (member_count =? 0) || (TR_RAFT_MAX_MEMBERS <? member_count)
    then (SALTS_EPROTO, zero_conf)
    else if negb (input_length =?
                  TR_RAFT_CONF_HEADER_SIZE +
                  TR_RAFT_CONF_MEMBER_SIZE * member_count)
    then (SALTS_EPROTO, zero_conf)
    else
      let c := Conf (byte_at input 5)
                 (tr_raft_conf_get_u64 (drop 8 input))
                 (decode_members (Z.to_nat member_count)
                    (Z.to_nat TR_RAFT_CONF_HEADER_SIZE) input) in
      if failed (tr_raft_conf_validate c) then (SALTS_EPROTO, zero_conf)
      else (SALTS_OK, c).

(** ** Configuration entries of the log *)

Definition tr_raft_conf_entry_is_configuration (e : tr_raft_entry) : bool :=
  entry_command_id e =? 0.

Definition tr_raft_conf_entry_encode (c : tr_raft_conf) (index term : Z)
    : status * tr_raft_entry :=
  if (index =? 0) || (term =? 0) then (SALTS_EINVAL, zero_entry)
  else match tr_raft_conf_encode c TR_RAFT_MAX_ENTRY_BYTES with
       | (SALTS_OK, encoded_length, Some data) =>
           (SALTS_OK, Entry index term 0 encoded_length data)
       | (result, _, _) => (result, zero_entry)
       end.

Definition tr_raft_conf_entry_decode (e : tr_raft_entry)
    : status * tr_raft_conf :=
  if negb (tr_raft_conf_entry_is_configuration e) then (SALTS_ENOENT, zero_conf)
  else if (entry_index e =? 0) || (entry_term e =? 0) ||
          (TR_RAFT_MAX_ENTRY_BYTES <? entry_data_length e)
  then (SALTS_EPROTO, zero_conf)
  else tr_raft_conf_decode (take (Z.to_nat (entry_data_length e)) (entry_data e)).

(** ** Specification *)

Definition conf_ids (c : tr_raft_conf) : list Z :=
  member_node_id <$> conf_members c.

Definition is_old_voter (m : tr_raft_conf_member) : bool :=
  has_role (member_roles m) TR_RAFT_CONF_OLD_VOTER.
Definition is_new_voter (m : tr_raft_conf_member) : bool :=
  has_role (member_roles m) TR_RAFT_CONF_NEW_VOTER.

(** What [tr_raft_conf_validate] accepts. *)
Record conf_wf (c : tr_raft_conf) : Prop := {
  wf_phase : conf_phase c = TR_RAFT_CONF_JOINT \/ conf_phase c = TR_RAFT_CONF_FINAL;
  wf_transition :
    conf_phase c = TR_RAFT_CONF_JOINT -> conf_transition_id c <> 0;
  wf_bound : conf_member_count c <= TR_RAFT_MAX_MEMBERS;
  wf_ids : ids_wf (conf_ids c);
  wf_roles : Forall (fun m => tr_raft_conf_roles_valid (conf_phase c)
                                (member_roles m) = true) (conf_members c);
  wf_old : exists m, m ∈ conf_members c /\ is_old_voter m = true;
  wf_new : exists m, m ∈ conf_members c /\ is_new_voter m = true
}.

(** The values of the C types: identifiers are 64 bits wide, roles 8. *)
Definition member_in_range (m : tr_raft_conf_member) : Prop :=
  0 <= member_node_id m < 2 ^ 64 /\ 0 <= member_roles m < 2 ^ 8.

Definition conf_in_range (c : tr_raft_conf) : Prop :=
  0 <= conf_transition_id c < 2 ^ 64 /\
  Forall member_in_range (conf_members c).

Definition is_byte (b : Z) : Prop := 0 <= b < 2 ^ 8.

(** The encoding of a configuration as one concatenation. *)
Definition member_image (m : tr_raft_conf_member) : list Z :=
  tr_raft_conf_put_u64 (member_node_id m) ++ [member_roles m].

Definition conf_image (c : tr_raft_conf) : list Z :=
  tr_raft_conf_magic ++
  [TR_RAFT_CONF_CODEC_VERSION; u8 (conf_phase c); u8 (conf_member_count c); 0] ++
  tr_raft_conf_put_u64 (conf_transition_id c) ++
  concat (member_image <$> conf_members c).

(** ** The validator *)

Lemma conf_validate_members_Some phase prev ms o n o' n' :
  conf_validate_members phase prev ms o n = Some (o', n') <->
  ids_ascending_from prev (member_node_id <$> ms) = true /\
  Forall (fun m => tr_raft_conf_roles_valid phase (member_roles m) = true) ms /\
  o' = o + countb is_old_voter ms /\ n' = n + countb is_new_voter ms.
Proof.
  revert prev o n. induction ms as [|m ms IH]; intros prev o n.
  { cbn. rewrite !Z.add_0_r. split; [intros [= <- <-]|intros (_ & _ & -> & ->)];
      repeat split; constructor. }
  cbn [conf_validate_members countb fmap list_fmap ids_ascending_from].
  rewrite list.Forall_cons.
  fold (member_node_id <$> ms). fold (is_old_voter m) (is_new_voter m).
  assert (((member_node_id m =? 0) ||
     match prev with None => false | Some p => member_node_id m <=? p end)
     = negb (negb (member_node_id m =? 0) &&
         match prev with None => true | Some p => p <? member_node_id m end))
    as -> by (destruct prev, (_ =? 0); cbn; lia).
  destruct (negb (member_node_id m =? 0) && _); cbn [negb orb andb].
  2: { split; [done|]. by intros [? _]. }
  destruct (tr_raft_conf_roles_valid phase (member_roles m)); cbn [negb].
  2: { split; [done|]. by intros (_ & [? _] & _). }
  rewrite IH, <- !Z.add_assoc. naive_solver.
Qed.

Lemma conf_validate_wf (c : tr_raft_conf) :
  tr_raft_conf_validate c = SALTS_OK <-> conf_wf c.
Proof.
  unfold tr_raft_conf_validate.
  unfold TR_RAFT_CONF_JOINT, TR_RAFT_CONF_FINAL in *. split.
  - intros H. case_match eqn:Hg; [done|].
    destruct (conf_validate_members _ _ _ _ _) as [[o n]|] eqn:E; [|done].
    case_match eqn:Hc; [|done].
    apply conf_validate_members_Some in E as (Hids & Hr & -> & ->).
    pose proof (countb_nonneg is_old_voter (conf_members c)).
    pose proof (countb_nonneg is_new_voter (conf_members c)).
    constructor; unfold TR_RAFT_CONF_JOINT, TR_RAFT_CONF_FINAL;
      try done; try lia.
    + by apply ids_ascending_spec.
    + apply countb_pos. lia.
    + apply countb_pos. lia.
  - intros [Hp Ht Hb Hi Hr Ho Hn]. unfold TR_RAFT_CONF_JOINT, TR_RAFT_CONF_FINAL in *.
    apply countb_pos in Ho, Hn.
    assert (conf_member_count c <> 0).
    { unfold conf_member_count. pose proof (countb_le_length is_old_voter (conf_members c)).
      lia. }
    replace (_ || _) with false by lia.
    rewrite (proj2 (conf_validate_members_Some (conf_phase c) None
      (conf_members c) 0 0 _ _)) by (repeat split; [by apply ids_ascending_spec|done]).
    replace (_ && _) with true by lia. done.
Qed.

(** ** Big-endian words *)

Definition combine_be (bytes : list Z) : Z :=
  fold_left (fun value byte => Z.lor (u64 (Z.shiftl value 8)) byte) bytes 0.

Lemma put_u64_loop_app (n : nat) (value : Z) (acc : list Z) :
  put_u64_loop n value acc = put_u64_loop n value [] ++ acc.
Proof.
  revert value acc. induction n as [|n IH]; intros value acc; cbn; [done|].
  rewrite IH. rewrite (IH _ [_]), <- (assoc_L (++)). done.
Qed.

Lemma put_u64_loop_S (n : nat) (value : Z) :
  0 <= value ->
  put_u64_loop (S n) value [] = put_u64_loop n (value / 256) [] ++ [value mod 256].
Proof.
  intros Hv. cbn [put_u64_loop]. rewrite put_u64_loop_app.
  rewrite Z.shiftr_div_pow2 by lia. change (2 ^ 8) with 256.
  change 255 with (Z.ones 8). rewrite Z.land_ones by lia.
  change (2 ^ 8) with 256.
  rewrite u8_small by (pose proof (Z.mod_pos_bound value 256); lia). done.
Qed.

Lemma length_put_u64_loop (n : nat) (value : Z) (acc : list Z) :
  length (put_u64_loop n value acc) = (n + length acc)%nat.
Proof.
  revert value acc. induction n as [|n IH]; intros value acc; cbn; [done|].
  rewrite IH. cbn. lia.
Qed.

Lemma length_put_u64 (value : Z) : length (tr_raft_conf_put_u64 value) = 8%nat.
Proof. apply length_put_u64_loop. Qed.

Lemma lor_shifted_byte (v b : Z) :
  is_byte b -> Z.lor (v * 2 ^ 8) b = v * 2 ^ 8 + b.
Proof.
  intros Hb. assert (Z.land (v * 2 ^ 8) b = 0) as Hland.
  { apply Z.bits_inj'. intros i Hi. rewrite Z.land_spec, Z.bits_0.
    destruct (Z.ltb_spec i 8).
    - rewrite Z.mul_pow2_bits_low by lia. done.
    - rewrite <- (Z.mod_small b (2 ^ 8)) by done.
      rewrite Z.mod_pow2_bits_high by lia. apply andb_false_r. }
  by rewrite Z.add_nocarry_lxor, Z.lxor_lor by done.
Qed.

Lemma combine_be_snoc (bytes : list Z) (b : Z) :
  0 <= combine_be bytes < 2 ^ 56 -> is_byte b ->
  combine_be (bytes ++ [b]) = combine_be bytes * 256 + b.
Proof.
  intros Hv Hb. unfold combine_be. rewrite fold_left_app. cbn [fold_left].
  fold (combine_be bytes).
  rewrite Z.shiftl_mul_pow2 by lia.
  rewrite u64_small by lia. by apply lor_shifted_byte.
Qed.

Lemma pow2_bytes_S (n : nat) :
  2 ^ (8 * Z.of_nat (S n)) = 2 ^ (8 * Z.of_nat n) * 256.
Proof.
  replace (8 * Z.of_nat (S n)) with (8 * Z.of_nat n + 8) by lia.
  rewrite Z.pow_add_r by lia. done.
Qed.

Lemma pow2_bytes_le (n : nat) : (n < 8)%nat -> 2 ^ (8 * Z.of_nat n) <= 2 ^ 56.
Proof. intros. apply Z.pow_le_mono_r; lia. Qed.

Lemma combine_put_loop (n : nat) (value : Z) :
  (n <= 8)%nat -> 0 <= value < 2 ^ (8 * Z.of_nat n) ->
  combine_be (put_u64_loop n value []) = value.
Proof.
  revert value. induction n as [|n IH]; intros value Hn Hv.
  { change (2 ^ (8 * Z.of_nat 0)) with 1 in Hv. cbn. lia. }
  rewrite pow2_bytes_S in Hv. pose proof (pow2_bytes_le n ltac:(lia)).
  pose proof (Z.mod_pos_bound value 256 ltac:(lia)).
  assert (0 <= value / 256 < 2 ^ (8 * Z.of_nat n)).
  { split; [apply Z.div_pos; lia|apply Z.div_lt_upper_bound; lia]. }
  rewrite put_u64_loop_S, combine_be_snoc; rewrite ?IH; try lia; [|done].
  pose proof (Z.div_mod value 256). lia.
Qed.

Lemma combine_be_bound (bytes : list Z) :
  (length bytes <= 8)%nat -> Forall is_byte bytes ->
  0 <= combine_be bytes < 2 ^ (8 * Z.of_nat (length bytes)) /\
  put_u64_loop (length bytes) (combine_be bytes) [] = bytes.
Proof.
  induction bytes as [|b bytes IH] using rev_ind; intros Hlen Hb; [done|].
  rewrite length_app in *. cbn [length] in *.
  apply Forall_app in Hb as [Hbs Hb]. apply Forall_inv in Hb.
  destruct IH as [IH1 IH2]; [lia|done|].
  pose proof (pow2_bytes_le (length bytes) ltac:(lia)).
  rewrite Nat.add_1_r, pow2_bytes_S, combine_be_snoc by (done || lia).
  unfold is_byte in Hb. change (2 ^ 8) with 256 in Hb. split; [lia|].
  rewrite put_u64_loop_S by lia.
  rewrite Z.div_add_l, Z.div_small, Z.add_0_r by lia.
  rewrite Z.add_comm, Z.mod_add, Z.mod_small by lia. by rewrite IH2.
Qed.

Lemma get_u64_combine (input : list Z) :
  tr_raft_conf_get_u64 input = combine_be (take 8 input).
Proof. done. Qed.

Lemma put_u64_unfold (value : Z) :
  tr_raft_conf_put_u64 value = put_u64_loop 8 value [].
Proof. done. Qed.

Lemma get_put_u64 (value : Z) (rest : list Z) :
  0 <= value < 2 ^ 64 ->
  tr_raft_conf_get_u64 (tr_raft_conf_put_u64 value ++ rest) = value.
Proof.
  intros Hv. rewrite get_u64_combine.
  rewrite take_app_length' by (by rewrite length_put_u64).
  rewrite put_u64_unfold. apply combine_put_loop; [lia|].
  by change (8 * Z.of_nat 8) with 64.
Qed.

Lemma put_get_u64 (input : list Z) :
  (8 <= length input)%nat -> Forall is_byte input ->
  tr_raft_conf_put_u64 (tr_raft_conf_get_u64 input) = take 8 input.
Proof.
  intros Hlen Hb. rewrite get_u64_combine, put_u64_unfold.
  destruct (combine_be_bound (take 8 input)) as [_ H];
    rewrite ?length_take; [lia|by apply Forall_take|].
  rewrite length_take_le in H by lia. exact H.
Qed.

Lemma get_u64_range (input : list Z) :
  Forall is_byte input -> 0 <= tr_raft_conf_get_u64 input < 2 ^ 64.
Proof.
  intros Hb. rewrite get_u64_combine.
  destruct (combine_be_bound (take 8 input)) as [H _];
    rewrite ?length_take in *; [lia|by apply Forall_take|].
  assert (2 ^ (8 * Z.of_nat (8 `min` length input)) <= 2 ^ 64)
    by (apply Z.pow_le_mono_r; lia). lia.
Qed.

(** ** The encoder writes [conf_image] *)

Lemma store_middle (pre old new post : list Z) :
  length old = length new ->
  store (length pre) new (pre ++ old ++ post) = pre ++ new ++ post.
Proof.
  intros Hlen. unfold store. rewrite take_app_length.
  rewrite (assoc_L (++) pre old post), drop_app_length'; [done|].
  rewrite length_app. lia.
Qed.

Lemma length_member_image (m : tr_raft_conf_member) :
  length (member_image m) = 9%nat.
Proof. unfold member_image. by rewrite length_app, length_put_u64. Qed.

Lemma length_member_images (ms : list tr_raft_conf_member) :
  length (concat (member_image <$> ms)) = (9 * length ms)%nat.
Proof.
  induction ms as [|m ms IH]; [done|].
  cbn [fmap list_fmap concat]. rewrite length_app, length_member_image, IH.
  cbn [length]. lia.
Qed.

Lemma encode_members_image (ms : list tr_raft_conf_member) (pre : list Z) :
  encode_members (length pre) ms (pre ++ replicate (9 * length ms) 0) =
  pre ++ concat (member_image <$> ms).
Proof.
  revert pre. induction ms as [|m ms IH]; intros pre; [done|].
  cbn [encode_members length fmap list_fmap concat].
  replace (9 * S (length ms))%nat with (8 + (1 + 9 * length ms))%nat by lia.
  rewrite replicate_add, store_middle by (by rewrite length_put_u64).
  rewrite replicate_add, (assoc_L (++) pre).
  replace (length pre + 8)%nat
    with (length (pre ++ tr_raft_conf_put_u64 (member_node_id m)))
    by (by rewrite length_app, length_put_u64).
  rewrite store_middle by done.
  rewrite <- (assoc_L (++) pre), (assoc_L (++) (tr_raft_conf_put_u64 _)).
  fold (member_image m). rewrite (assoc_L (++) pre).
  replace (length pre + Z.to_nat TR_RAFT_CONF_MEMBER_SIZE)%nat
    with (length (pre ++ member_image m))
    by (rewrite length_app, length_member_image; done).
  rewrite IH. by rewrite <- (assoc_L (++)).
Qed.

Definition conf_header (c : tr_raft_conf) : list Z :=
  tr_raft_conf_magic ++
  [TR_RAFT_CONF_CODEC_VERSION; u8 (conf_phase c); u8 (conf_member_count c); 0] ++
  tr_raft_conf_put_u64 (conf_transition_id c).

Lemma conf_image_header (c : tr_raft_conf) :
  conf_image c = conf_header c ++ concat (member_image <$> conf_members c).
Proof. unfold conf_image, conf_header. by rewrite <- !(assoc_L (++)). Qed.

Lemma length_conf_header (c : tr_raft_conf) : length (conf_header c) = 16%nat.
Proof. unfold conf_header. rewrite !length_app, length_put_u64. done. Qed.

Lemma encode_header (c : tr_raft_conf) (tail : list Z) :
  store 8 (tr_raft_conf_put_u64 (conf_transition_id c))
    (store 6 [u8 (conf_member_count c)]
       (store 5 [u8 (conf_phase c)]
          (store 4 [TR_RAFT_CONF_CODEC_VERSION]
             (store 0 tr_raft_conf_magic (replicate 16 0 ++ tail))))) =
  conf_header c ++ tail.
Proof.
  transitivity (store 8 (tr_raft_conf_put_u64 (conf_transition_id c))
    ((tr_raft_conf_magic ++ [TR_RAFT_CONF_CODEC_VERSION; u8 (conf_phase c);
      u8 (conf_member_count c); 0]) ++ replicate 8 0 ++ tail)).
  - f_equal.
  - set (pre := tr_raft_conf_magic ++ _).
    change 8%nat with (length pre).
    rewrite store_middle by (by rewrite length_put_u64).
    unfold conf_header, pre. by rewrite <- !(assoc_L (++)).
Qed.

Lemma conf_encode_image (c : tr_raft_conf) (capacity : Z) :
  tr_raft_conf_validate c = SALTS_OK ->
  16 + 9 * conf_member_count c <= capacity ->
  tr_raft_conf_encode c capacity =
    (SALTS_OK, 16 + 9 * conf_member_count c, Some (conf_image c)).
Proof.
  intros Hv Hcap. unfold tr_raft_conf_encode. rewrite Hv. cbn [failed ok negb].
  unfold TR_RAFT_CONF_HEADER_SIZE, TR_RAFT_CONF_MEMBER_SIZE.
  replace (capacity <? _) with false by lia.
  replace (Z.to_nat (16 + 9 * conf_member_count c))
    with (16 + 9 * length (conf_members c))%nat
    by (unfold conf_member_count; lia).
  rewrite replicate_add, encode_header.
  replace (Z.to_nat 16) with (length (conf_header c))
    by (by rewrite length_conf_header).
  by rewrite encode_members_image, conf_image_header.
Qed.

(** ** The decoder reads it back *)

Lemma decode_members_image (ms : list tr_raft_conf_member) (pre post : list Z) :
  Forall member_in_range ms ->
  decode_members (length ms) (length pre)
    (pre ++ concat (member_image <$> ms) ++ post) = ms.
Proof.
  revert pre. induction ms as [|m ms IH]; intros pre Hr; [done|].
  apply list.Forall_cons in Hr as [[Hid Hroles] Hr].
  cbn [decode_members length fmap list_fmap concat].
  rewrite <- (assoc_L (++) (member_image m)). f_equal.
  - destruct m as [id roles]. unfold member_image. cbn in *. f_equal.
    + rewrite drop_app_length, <- !(assoc_L (++)). by apply get_put_u64.
    + unfold byte_at. rewrite app_nth2 by lia.
      replace (length pre + 8 - length pre)%nat with 8%nat by lia.
      rewrite <- !(assoc_L (++)).
      rewrite app_nth2 by (rewrite length_put_u64; lia).
      by rewrite length_put_u64.
  - rewrite (assoc_L (++) pre).
    replace (length pre + Z.to_nat TR_RAFT_CONF_MEMBER_SIZE)%nat
      with (length (pre ++ member_image m))
      by (rewrite length_app, length_member_image; done).
    by apply IH.
Qed.

Lemma conf_decode_image (c : tr_raft_conf) :
  tr_raft_conf_validate c = SALTS_OK -> conf_in_range c ->
  tr_raft_conf_decode (conf_image c) = (SALTS_OK, c).
Proof.
  intros Hv [Htid Hms]. apply conf_validate_wf in Hv as Hwf.
  assert (0 < conf_member_count c <= 31) as Hcount.
  { destruct Hwf as [_ _ Hb _ _ (m & Hm & _) _]. unfold conf_member_count in *.
    destruct (conf_members c); [by apply elem_of_nil in Hm|].
    cbn in *. unfold TR_RAFT_MAX_MEMBERS in Hb. lia. }
  assert (u8 (conf_phase c) = conf_phase c) as Hphase.
  { apply u8_small. destruct Hwf as [[-> | ->] _ _ _ _ _ _]; done. }
  assert (u8 (conf_member_count c) = conf_member_count c) as Hu8.
  { apply u8_small. lia. }
  unfold tr_raft_conf_decode.
  assert (length (conf_image c) = 16 + 9 * length (conf_members c))%nat as Hlen.
  { by rewrite conf_image_header, length_app, length_conf_header,
      length_member_images. }
  rewrite Hlen. rewrite conf_image_header.
  assert (forall i, (i < 16)%nat ->
    byte_at (conf_header c ++ concat (member_image <$> conf_members c)) i =
    byte_at (conf_header c) i) as Hbyte.
  { intros i Hi. apply app_nth1. by rewrite length_conf_header. }
  rewrite !Hbyte by lia.
  rewrite take_app_le by (rewrite length_conf_header; lia).
  change (byte_at (conf_header c) 4) with 1.
  change (byte_at (conf_header c) 7) with 0.
  change (byte_at (conf_header c) 5) with (u8 (conf_phase c)).
  change (byte_at (conf_header c) 6) with (u8 (conf_member_count c)).
  rewrite Hu8, Hphase.
  rewrite bool_decide_eq_true_2 by done.
  unfold TR_RAFT_CONF_HEADER_SIZE, TR_RAFT_CONF_MEMBER_SIZE,
    TR_RAFT_CONF_CODEC_VERSION, TR_RAFT_MAX_MEMBERS.
  change (negb true) with false. change (negb (1 =? 1)) with false.
  change (negb (0 =? 0)) with false. rewrite !orb_false_r.
  replace (_ <? 16) with false by blia.
  replace (_ || _) with false by lia.
  replace (negb _) with false by (unfold conf_member_count; blia).
  assert (Conf (conf_phase c)
    (tr_raft_conf_get_u64 (drop 8 (conf_header c ++
       concat (member_image <$> conf_members c))))
    (decode_members (Z.to_nat (conf_member_count c)) (Z.to_nat 16)
       (conf_header c ++ concat (member_image <$> conf_members c))) = c) as ->.
  { unfold conf_member_count. rewrite Nat2Z.id.
    replace (Z.to_nat 16) with (length (conf_header c))
      by (by rewrite length_conf_header).
    pose proof (decode_members_image (conf_members c) (conf_header c) []) as Hd.
    rewrite app_nil_r in Hd. rewrite Hd by done.
    unfold conf_header. rewrite <- !(assoc_L (++)).
    rewrite (assoc_L (++) tr_raft_conf_magic), drop_app_length' by done.
    rewrite get_put_u64 by done. by destruct c. }
  by rewrite Hv.
Qed.

(** ** Canonicity: the decoder accepts only what the encoder writes *)

Lemma decode_members_inv (count offset : nat) (input : list Z) :
  Forall is_byte input -> length input = (offset + 9 * count)%nat ->
  concat (member_image <$> decode_members count offset input) =
    drop offset input /\
  length (decode_members count offset input) = count /\
  Forall member_in_range (decode_members count offset input).
Proof.
  intros Hb. revert offset. induction count as [|count IH]; intros offset Hlen.
  { cbn. rewrite drop_ge by lia. repeat split; constructor. }
  cbn [decode_members fmap list_fmap concat length].
  destruct (IH (offset + Z.to_nat TR_RAFT_CONF_MEMBER_SIZE)%nat)
    as (IH1 & IH2 & IH3); [change (Z.to_nat TR_RAFT_CONF_MEMBER_SIZE) with 9%nat; lia|].
  rewrite IH1, IH2. change (Z.to_nat TR_RAFT_CONF_MEMBER_SIZE) with 9%nat.
  assert (Forall is_byte (drop offset input)) as Hbd by (by apply Forall_drop).
  assert (is_byte (byte_at input (offset + 8))) as Hrole.
  { unfold byte_at. rewrite list.Forall_forall in Hb. apply Hb.
    apply list_elem_of_In, nth_In. lia. }
  repeat split; [|constructor; [|done]].
  - unfold member_image. cbn [member_node_id member_roles].
    rewrite put_get_u64 by (rewrite ?length_drop; (done || lia)).
    rewrite <- (take_drop 9 (drop offset input)) at 2.
    rewrite drop_drop. f_equal.
    rewrite (take_S_r _ 8 (byte_at input (offset + 8))); [done|].
    rewrite lookup_drop. unfold byte_at.
    destruct (nth_lookup_or_length input (offset + 8) 0) as [H|H]; [done|lia].
  - split; [by apply get_u64_range|apply Hrole].
Qed.

Lemma conf_decode_ok (input : list Z) (c : tr_raft_conf) :
  tr_raft_conf_decode input = (SALTS_OK, c) -> Forall is_byte input ->
  tr_raft_conf_validate c = SALTS_OK /\ conf_in_range c /\ conf_image c = input.
Proof.
  unfold tr_raft_conf_decode, TR_RAFT_CONF_HEADER_SIZE, TR_RAFT_CONF_MEMBER_SIZE,
    TR_RAFT_MAX_MEMBERS, TR_RAFT_CONF_CODEC_VERSION.
  intros H Hb.
  case_match eqn:H1; [done|]. case_match eqn:H2; [done|].
  case_match eqn:H3; [done|]. case_match eqn:H4; [done|].
  rewrite !orb_false_iff, !negb_false_iff, bool_decide_eq_true in H1.
  destruct H1 as [[[H1 Hmagic] Hver] Hrsv].
  injection H as <-. unfold failed in H4. apply negb_false_iff in H4.
  assert (length input = 16 + 9 * Z.to_nat (byte_at input 6))%nat as Hlen by blia.
  change (Z.to_nat 16) with 16%nat in *.
  destruct (decode_members_inv (Z.to_nat (byte_at input 6)) 16 input)
    as (Himg & Hcount & Hrange); [done|done|].
  split; [by destruct (tr_raft_conf_validate _)|].
  split; [split; [apply get_u64_range; by apply Forall_drop|done]|].
  unfold conf_image, conf_member_count.
  cbn [conf_phase conf_transition_id conf_members].
  rewrite Himg, Hcount.
  rewrite put_get_u64 by (rewrite ?length_drop; (by apply Forall_drop) || lia).
  clear - Hb Hlen H2 Hmagic Hver Hrsv.
  do 16 (destruct input as [|? input]; [cbn in Hlen; lia|]).
  repeat (apply list.Forall_cons in Hb as [? Hb]). unfold is_byte in *.
  cbn in Hmagic, Hver, Hrsv, H2 |- *. injection Hmagic as -> -> -> ->.
  rewrite Z2Nat.id by lia. rewrite !u8_small by lia.
  unfold TR_RAFT_CONF_CODEC_VERSION. repeat (f_equal; try lia).
Qed.

(** ** Configuration entries *)

Lemma conf_entry_encode_total (c : tr_raft_conf) (index term : Z) :
  conf_wf c -> index <> 0 -> term <> 0 ->
  exists e, tr_raft_conf_entry_encode c index term = (SALTS_OK, e) /\
    entry_data_length e <= TR_RAFT_MAX_ENTRY_BYTES.
Proof.
  intros Hwf Hi Ht. unfold tr_raft_conf_entry_encode.
  replace (_ || _) with false by lia. pose proof (wf_bound c Hwf) as Hb.
  unfold TR_RAFT_MAX_MEMBERS, TR_RAFT_MAX_ENTRY_BYTES in *.
  rewrite conf_encode_image by (lia || by apply conf_validate_wf).
  eexists. split; [done|]. cbn [entry_data_length]. lia.
Qed.

Lemma conf_entry_encode_decode (c : tr_raft_conf) (index term : Z)
    (e : tr_raft_entry) :
  conf_in_range c -> tr_raft_conf_entry_encode c index term = (SALTS_OK, e) ->
  tr_raft_conf_entry_decode e = (SALTS_OK, c) /\
  entry_index e = index /\ entry_term e = term /\
  tr_raft_conf_entry_is_configuration e = true.
Proof.
  intros Hr. unfold tr_raft_conf_entry_encode, TR_RAFT_MAX_ENTRY_BYTES.
  case_match eqn:Hi; [done|].
  destruct (tr_raft_conf_validate c) eqn:Hv;
    try (unfold tr_raft_conf_encode; rewrite Hv; done).
  apply conf_validate_wf in Hv as Hwf. pose proof (wf_bound c Hwf) as Hbound.
  unfold TR_RAFT_MAX_MEMBERS in Hbound.
  rewrite conf_encode_image by (done || lia). intros [= <-].
  unfold tr_raft_conf_entry_decode, tr_raft_conf_entry_is_configuration.
  cbn [entry_index entry_term entry_command_id entry_data_length entry_data
       Z.eqb negb]. rewrite Hi. unfold TR_RAFT_MAX_ENTRY_BYTES.
  replace (512 <? _) with false by lia. cbn [orb].
  rewrite take_ge.
  - by rewrite conf_decode_image.
  - rewrite conf_image_header, length_app, length_conf_header,
      length_member_images. unfold conf_member_count. lia.
Qed.

(** ** Properties *)

(** Round trip of the configuration codec: every valid configuration is
    encoded into a buffer of the documented size, the length reported is the
    number of bytes written, and decoding these bytes gives the configuration
    back. *)
Theorem conf_codec_roundtrip (c : tr_raft_conf) (capacity : Z)
    (Hvalid : tr_raft_conf_validate c = SALTS_OK)
    (Hrange : conf_in_range c)
    (Hcap : TR_RAFT_CONF_HEADER_SIZE +
            TR_RAFT_CONF_MEMBER_SIZE * conf_member_count c <= capacity) :
  exists bytes,
    tr_raft_conf_encode c capacity =
      (SALTS_OK, Z.of_nat (length bytes), Some bytes) /\
    tr_raft_conf_decode bytes = (SALTS_OK, c).
Proof.
  exists (conf_image c). split; [|by apply conf_decode_image].
  rewrite conf_encode_image by done.
  by rewrite conf_image_header, length_app, length_conf_header,
    length_member_images, Nat2Z.inj_add, Nat2Z.inj_mul.
Qed.

Definition example_conf : tr_raft_conf :=
  Conf TR_RAFT_CONF_FINAL 7 [Member 1 3; Member 2 3; Member (2 ^ 63) 4].

Lemma conf_codec_roundtrip_witness :
  exists bytes, tr_raft_conf_encode example_conf 512 =
    (SALTS_OK, Z.of_nat (length bytes), Some bytes) /\
    tr_raft_conf_decode bytes = (SALTS_OK, example_conf).
Proof.
  apply (conf_codec_roundtrip example_conf 512).
  - reflexivity.
  - split; [cbn; lia|]. repeat constructor; cbn; lia.
  - vm_compute. discriminate.
Defined.

(** The encoding is canonical: bytes the decoder accepts are exactly the
    bytes the encoder writes for the configuration it returns, and that
    configuration is valid; so two byte strings never decode to the same
    configuration. *)
Theorem conf_codec_canonical (input : list Z) (c : tr_raft_conf)
    (Hbytes : Forall is_byte input)
    (Hdecode : tr_raft_conf_decode input = (SALTS_OK, c)) :
  conf_wf c /\
  forall capacity, Z.of_nat (length input) <= capacity ->
    tr_raft_conf_encode c capacity =
      (SALTS_OK, Z.of_nat (length input), Some input).
Proof.
  destruct (conf_decode_ok input c Hdecode Hbytes) as (Hv & Hr & <-).
  split; [by apply conf_validate_wf|]. intros capacity.
  rewrite conf_image_header, length_app, length_conf_header,
    length_member_images. intros Hcap.
  rewrite conf_encode_image by (done || (unfold conf_member_count; lia)).
  rewrite conf_image_header. do 2 f_equal. unfold conf_member_count. lia.
Qed.

Definition example_bytes : list Z :=
  [84; 82; 67; 70; 1; 2; 1; 0; 0; 0; 0; 0; 0; 0; 0; 9;
   0; 0; 0; 0; 0; 0; 0; 5; 3].

Lemma conf_codec_canonical_witness :
  conf_wf (Conf 2 9 [Member 5 3]) /\
  tr_raft_conf_encode (Conf 2 9 [Member 5 3]) 25 =
    (SALTS_OK, 25, Some example_bytes).
Proof.
  destruct (conf_codec_canonical example_bytes (Conf 2 9 [Member 5 3]))
    as [Hwf Henc].
  - repeat constructor; cbn; lia.
  - reflexivity.
  - split; [exact Hwf|]. apply (Henc 25). cbn. lia.
Defined.
