(* ===== verification/Bytes.v ===== *)
(** * Byte strings: the big-endian words of [src/wire/raft_wire_codec.c] and
      [src/transport/raft_transport.c]

    A buffer is a list of bytes; [buffer + n] is [drop n buffer]. The layouts
    of the frames are concatenations, and the rewriting database [wire] reads
    a field back from such a concatenation. *)

From S2P Require Import Prelude Configuration.
From Stdlib Require Import ZArith Lia.
From stdpp Require Import base numbers list tactics.
Open Scope Z_scope.
Open Scope raft_scope.

Definition tr_put_u16 (value : Z) : list Z := [u8 (Z.shiftr value 8); u8 value].

Definition tr_put_u32 (value : Z) : list Z :=
  [u8 (Z.shiftr value 24); u8 (Z.shiftr value 16); u8 (Z.shiftr value 8); u8 value].

Definition tr_put_u64 (value : Z) : list Z :=
  (fun index => u8 (Z.shiftr value (56 - 8 * Z.of_nat index))) <$> seq 0 8.

Definition tr_get_u16 (input : list Z) : Z :=
  Z.lor (Z.shiftl (byte_at input 0) 8) (byte_at input 1) mod 2 ^ 16.

Definition tr_get_u32 (input : list Z) : Z :=
  Z.lor
    (Z.lor (Z.lor (u32 (Z.shiftl (byte_at input 0) 24)) (u32 (Z.shiftl (byte_at input 1) 16)))
       (u32 (Z.shiftl (byte_at input 2) 8)))
    (byte_at input 3).

Definition tr_get_u64 (input : list Z) : Z :=
  fold_left (fun value byte => Z.lor (u64 (Z.shiftl value 8)) byte) (take 8 input) 0.

#[global] Arguments tr_put_u16 : simpl never.
#[global] Arguments tr_put_u32 : simpl never.
#[global] Arguments tr_put_u64 : simpl never.
#[global] Arguments tr_get_u16 : simpl never.
#[global] Arguments tr_get_u32 : simpl never.
#[global] Arguments tr_get_u64 : simpl never.
#[global] Arguments byte_at : simpl never.

(** ** Words as loops over bytes *)

Lemma u8_shiftr v k : 0 <= v -> 0 <= k -> u8 (Z.shiftr v k) = (v / 2 ^ k) mod 256.
Proof. intros. unfold u8. by rewrite Z.shiftr_div_pow2 by lia. Qed.

Lemma put_u16_loop v : 0 <= v -> tr_put_u16 v = put_u64_loop 2 v [].
Proof.
  intros. rewrite !put_u64_loop_S by (try apply Z.div_pos; lia). unfold tr_put_u16.
  rewrite u8_shiftr by lia. by change (2 ^ 8) with 256.
Qed.

Lemma put_u32_loop v : 0 <= v -> tr_put_u32 v = put_u64_loop 4 v [].
Proof.
  intros. rewrite !put_u64_loop_S by (repeat (apply Z.div_pos; [|lia]); lia).
  unfold tr_put_u32. rewrite !u8_shiftr by lia. rewrite !Z.div_div by lia. done.
Qed.

Lemma put_u64_be v : 0 <= v -> tr_put_u64 v = put_u64_loop 8 v [].
Proof.
  intros. rewrite !put_u64_loop_S by (repeat (apply Z.div_pos; [|lia]); lia).
  unfold tr_put_u64. cbn [seq fmap list_fmap]. rewrite !u8_shiftr by lia.
  rewrite !Z.div_div by lia. rewrite (Z.div_1_r v : v / 2 ^ (56 - 8 * Z.of_nat 7) = v). done.
Qed.

Lemma length_put_u16 v : length (tr_put_u16 v) = 2%nat.
Proof. done. Qed.
Lemma length_put_u32 v : length (tr_put_u32 v) = 4%nat.
Proof. done. Qed.
Lemma length_put_u64_be v : length (tr_put_u64 v) = 8%nat.
Proof. done. Qed.

Lemma lor_bytes a b k :
  is_byte b -> 0 <= k -> Z.lor (Z.shiftl a (k + 8)) (Z.shiftl b k) =
  Z.shiftl (a * 256 + b) k.
Proof.
  intros Hb Hk. rewrite Z.add_comm, <- Z.shiftl_shiftl, <- Z.shiftl_lor by lia.
  rewrite (Z.shiftl_mul_pow2 a) by lia. by rewrite lor_shifted_byte.
Qed.

Lemma get_u16_combine input :
  (2 <= length input)%nat -> Forall is_byte input ->
  tr_get_u16 input = combine_be (take 2 input).
Proof.
  destruct input as [|a [|b rest]]; cbn [length]; try lia. intros _ [Ha [Hb _]%Forall_cons_1]%Forall_cons_1.
  unfold tr_get_u16, byte_at. cbn [nth]. change (take 2 _) with ([a] ++ [b]).
  assert (combine_be [a] = a) as Hc by done.
  unfold is_byte in *. rewrite combine_be_snoc by (rewrite ?Hc; (done || lia)).
  rewrite Hc. rewrite Z.shiftl_mul_pow2 by lia. rewrite lor_shifted_byte by done.
  apply Z.mod_small. lia.
Qed.

Lemma get_u32_combine input :
  (4 <= length input)%nat -> Forall is_byte input ->
  tr_get_u32 input = combine_be (take 4 input).
Proof.
  destruct input as [|a [|b [|c [|d rest]]]]; cbn [length]; try lia.
  intros _ (Ha & (Hb & (Hc & (Hd & _)%Forall_cons_1)%Forall_cons_1)%Forall_cons_1)%Forall_cons_1.
  unfold tr_get_u32, byte_at. cbn [nth]. change (take 4 _) with ([a; b; c] ++ [d]).
  assert (combine_be [a] = a) as H1 by done. unfold is_byte in *.
  assert (combine_be [a; b] = a * 256 + b) as H2.
  { change [a; b] with ([a] ++ [b]). rewrite combine_be_snoc; rewrite ?H1; (done || lia). }
  assert (combine_be [a; b; c] = (a * 256 + b) * 256 + c) as H3.
  { change [a; b; c] with ([a; b] ++ [c]).
    rewrite combine_be_snoc; rewrite ?H2; (done || lia). }

  rewrite combine_be_snoc; rewrite ?H3; [|lia|done].
  rewrite !u32_small by (rewrite Z.shiftl_mul_pow2 by lia; lia).
  pose proof (lor_bytes a b 16 Hb ltac:(lia)) as E1.
  change (16 + 8) with 24 in E1. rewrite E1.
  pose proof (lor_bytes (a * 256 + b) c 8 Hc ltac:(lia)) as E2.
  change (8 + 8) with 16 in E2. rewrite E2.
  rewrite Z.shiftl_mul_pow2 by lia. by apply lor_shifted_byte.
Qed.

Lemma get_u64_be input : tr_get_u64 input = combine_be (take 8 input).
Proof. done. Qed.

Lemma bytes_put_loop n v : Forall is_byte (put_u64_loop n v []).
Proof.
  revert v. induction n as [|n IH]; intros v; [constructor|].
  cbn [put_u64_loop]. rewrite put_u64_loop_app. apply Forall_app. split; [apply IH|].
  constructor; [|constructor]. apply Z.mod_pos_bound. lia.
Qed.

(** ** Round trips of words *)

Lemma get_put_u16 v rest :
  0 <= v < 2 ^ 16 -> tr_get_u16 (tr_put_u16 v ++ rest) = v.
Proof.
  intros Hv. change (tr_get_u16 (tr_put_u16 v ++ rest)) with (tr_get_u16 (tr_put_u16 v)).
  rewrite put_u16_loop by lia.
  rewrite get_u16_combine; [|rewrite length_put_u64_loop; cbn; lia|apply bytes_put_loop].
  rewrite take_ge by (rewrite length_put_u64_loop; cbn; lia).
  apply combine_put_loop; [lia|done].
Qed.

Lemma get_put_u32 v rest :
  0 <= v < 2 ^ 32 -> tr_get_u32 (tr_put_u32 v ++ rest) = v.
Proof.
  intros Hv. change (tr_get_u32 (tr_put_u32 v ++ rest)) with (tr_get_u32 (tr_put_u32 v)).
  rewrite put_u32_loop by lia.
  rewrite get_u32_combine; [|rewrite length_put_u64_loop; cbn; lia|apply bytes_put_loop].
  rewrite take_ge by (rewrite length_put_u64_loop; cbn; lia).
  apply combine_put_loop; [lia|done].
Qed.

Lemma get_put_u64_be v rest :
  0 <= v < 2 ^ 64 -> tr_get_u64 (tr_put_u64 v ++ rest) = v.
Proof.
  intros Hv. rewrite get_u64_be, take_app_length' by (by rewrite length_put_u64_be).
  rewrite put_u64_be by lia. apply combine_put_loop; [lia|].
  by change (8 * Z.of_nat 8) with 64.
Qed.

Lemma put_get_loop n input :
  (n <= 8)%nat -> (n <= length input)%nat -> Forall is_byte input ->
  0 <= combine_be (take n input) < 2 ^ (8 * Z.of_nat n) /\
  put_u64_loop n (combine_be (take n input)) [] = take n input.
Proof.
  intros Hn Hlen Hb. destruct (combine_be_bound (take n input)) as [H1 H2];
    rewrite ?length_take; [lia|by apply Forall_take|].
  rewrite length_take_le in * by lia. done.
Qed.

Lemma put_get_u16 input :
  (2 <= length input)%nat -> Forall is_byte input ->
  tr_put_u16 (tr_get_u16 input) = take 2 input.
Proof.
  intros. rewrite get_u16_combine by done.
  destruct (put_get_loop 2 input) as [? Hput]; [lia|done|done|].
  rewrite put_u16_loop by lia. done.
Qed.

Lemma put_get_u32 input :
  (4 <= length input)%nat -> Forall is_byte input ->
  tr_put_u32 (tr_get_u32 input) = take 4 input.
Proof.
  intros. rewrite get_u32_combine by done.
  destruct (put_get_loop 4 input) as [? Hput]; [lia|done|done|].
  rewrite put_u32_loop by lia. done.
Qed.

Lemma put_get_u64_be input :
  (8 <= length input)%nat -> Forall is_byte input ->
  tr_put_u64 (tr_get_u64 input) = take 8 input.
Proof.
  intros. destruct (put_get_loop 8 input) as [? Hput]; [lia|done|done|].
  rewrite get_u64_be. rewrite put_u64_be by lia. done.
Qed.

(** ** Ranges *)

Lemma get_u16_range input :
  (2 <= length input)%nat -> Forall is_byte input -> 0 <= tr_get_u16 input < 2 ^ 16.
Proof. intros. apply Z.mod_pos_bound. lia. Qed.

Lemma get_u32_range input :
  (4 <= length input)%nat -> Forall is_byte input -> 0 <= tr_get_u32 input < 2 ^ 32.
Proof.
  intros. rewrite get_u32_combine by done. destruct (put_get_loop 4 input); (done || lia).
Qed.

Lemma get_u64_be_range input :
  (8 <= length input)%nat -> Forall is_byte input -> 0 <= tr_get_u64 input < 2 ^ 64.
Proof.
  intros. rewrite get_u64_be. destruct (put_get_loop 8 input); (done || lia).
Qed.

Lemma bytes_put_u16 v : Forall is_byte (tr_put_u16 v).
Proof. repeat constructor; apply Z.mod_pos_bound; lia. Qed.
Lemma bytes_put_u32 v : Forall is_byte (tr_put_u32 v).
Proof. repeat constructor; apply Z.mod_pos_bound; lia. Qed.
Lemma bytes_put_u64 v : Forall is_byte (tr_put_u64 v).
Proof. repeat constructor; apply Z.mod_pos_bound; lia. Qed.

(** ** Little-endian words *)

Fixpoint le_bytes (n : nat) (v : Z) : list Z :=
  match n with
  | O => []
  | S n => v mod 256 :: le_bytes n (v / 256)
  end.

Fixpoint le_value (bytes : list Z) : Z :=
  match bytes with
  | [] => 0
  | b :: rest => b + 256 * le_value rest
  end.

Lemma length_le_bytes n v : length (le_bytes n v) = n.
Proof. revert v. induction n as [|n IH]; intros v; [done|]. cbn. by rewrite IH. Qed.

Lemma le_bytes_range n v : Forall is_byte (le_bytes n v).
Proof.
  revert v. induction n as [|n IH]; intros v; constructor; [|apply IH].
  unfold is_byte. pose proof (Z.mod_pos_bound v 256). lia.
Qed.

Lemma pow_bytes n : 2 ^ (8 * Z.of_nat (S n)) = 256 * 2 ^ (8 * Z.of_nat n).
Proof.
  replace (8 * Z.of_nat (S n)) with (8 + 8 * Z.of_nat n) by lia. by rewrite Z.pow_add_r by lia.
Qed.

Lemma le_value_bytes n v : 0 <= v < 2 ^ (8 * Z.of_nat n) -> le_value (le_bytes n v) = v.
Proof.
  revert v. induction n as [|n IH]; intros v Hv; [cbn in *; lia|].
  rewrite pow_bytes in Hv. cbn [le_bytes le_value].
  rewrite IH by (split; [apply Z.div_pos; lia|apply Z.div_lt_upper_bound; lia]).
  pose proof (Z.div_mod v 256). lia.
Qed.

Lemma le_bytes_value bytes :
  Forall is_byte bytes ->
  0 <= le_value bytes < 2 ^ (8 * Z.of_nat (length bytes)) /\
  le_bytes (length bytes) (le_value bytes) = bytes.
Proof.
  induction 1 as [|b bytes Hb _ [IH1 IH2]]; [done|]. cbn [length le_value le_bytes].
  rewrite pow_bytes. unfold is_byte in Hb. split; [lia|].
  rewrite (Z.add_comm b), Z.mul_comm, Z.div_add_l, Z.add_comm, Z.mod_add by lia.
  rewrite (Z.mod_small b), (Z.div_small b), Z.add_0_r by lia. by rewrite IH2.
Qed.

Lemma le_value_take n v rest :
  0 <= v < 2 ^ (8 * Z.of_nat n) -> le_value (take n (le_bytes n v ++ rest)) = v.
Proof.
  intros Hv. rewrite take_app_length' by (by rewrite length_le_bytes). by apply le_value_bytes.
Qed.

(** ** Reading a field of a layout *)

Lemma drop_skip {A : Type} (m : nat) (a rest : list A) :
  (length a <= m)%nat -> drop m (a ++ rest) = drop (m - length a) rest.
Proof. intros. by rewrite drop_app_ge by lia. Qed.

Lemma take_field {A : Type} (a rest : list A) : take (length a) (a ++ rest) = a.
Proof. apply take_app_length. Qed.

(** The field of [n] bytes at [a] and what follows it. *)
Lemma join_at {A : Type} (a n b : nat) (l : list A) :
  b = (a + n)%nat -> take n (drop a l) ++ drop b l = drop a l.
Proof. intros ->. rewrite <- drop_drop. apply take_drop. Qed.

Lemma byte_at_app (a rest : list Z) (i : nat) :
  (length a <= i)%nat -> byte_at (a ++ rest) i = byte_at rest (i - length a).
Proof. intros. unfold byte_at. by rewrite app_nth2 by lia. Qed.

Lemma byte_at_drop (l : list Z) (n : nat) : byte_at (drop n l) 0 = byte_at l n.
Proof.
  unfold byte_at. revert l. induction n as [|n IH]; intros [|x l]; try done. apply IH.
Qed.

Create Rewrite HintDb wire.
#[export] Hint Rewrite length_put_u16 length_put_u32 length_put_u64_be
  @length_app @length_cons @length_nil : wire.

(** The length of a layout, with the known lengths in the context. *)
Ltac wire_len :=
  autorewrite with wire;
  repeat match goal with
         | H : length ?l = _ |- context [length ?l] => rewrite H
         end;
  cbn [length].

(** Moves over the fields before an offset. *)
Ltac seek :=
  repeat (rewrite drop_skip by (wire_len; lia); wire_len; cbn [Nat.sub]);
  rewrite ?drop_0.
