(* ===== verification/Wire.v ===== *)
(** * Wire frames: the envelope and the data stream payloads of
      [src/wire/raft_wire_codec.c]

    The records of [include/turboraft/raft_wire_codec.h], their validity, the
    envelope of every frame, and the hand-written codecs of data chunks and
    data acknowledgements. The payloads encoded through generated code are in
    [WireBinding]. An encoder returns its status, the value of
    [*output_length] and, on success, the bytes of the frame. Arrays of a
    fixed size are lists of that size, and the bytes a chunk points to are a
    list of length [data_length]; pointers are not null. *)

From S2P Require Import Prelude Configuration Bytes.
From Stdlib Require Import ZArith Lia.
From stdpp Require Import base numbers list tactics.
Open Scope Z_scope.
Open Scope raft_scope.

Definition TR_RAFT_WIRE_VERSION : Z := 6.
Definition TR_RAFT_WIRE_HEADER_SIZE : Z := 48.
Definition TR_RAFT_WIRE_MAX_RAFT_PAYLOAD_SIZE : Z := 8192.
Definition TR_RAFT_WIRE_SNAPSHOT_DIGEST_SIZE : Z := 32.
Definition TR_RAFT_WIRE_MAX_SNAPSHOT_CHUNK_BYTES : Z := 64 * 1024.
Definition TR_RAFT_WIRE_MAX_SNAPSHOT_PAYLOAD_SIZE : Z :=
  TR_RAFT_WIRE_MAX_SNAPSHOT_CHUNK_BYTES + 4096.
Definition TR_RAFT_WIRE_MAX_PAYLOAD_SIZE : Z := TR_RAFT_WIRE_MAX_SNAPSHOT_PAYLOAD_SIZE.
Definition TR_RAFT_WIRE_DATA_DIGEST_SIZE : Z := 32.
Definition TR_RAFT_WIRE_MAX_DATA_CHUNK_BYTES : Z := 64 * 1024.
Definition TR_RAFT_WIRE_MAX_DATA_STREAM_BYTES : Z := UINT64_MAX.
Definition TR_RAFT_WIRE_MAX_DATA_PAYLOAD_SIZE : Z :=
  TR_RAFT_WIRE_MAX_DATA_CHUNK_BYTES + 128.
Definition TR_RAFT_WIRE_MAX_FRAME_SIZE : Z :=
  TR_RAFT_WIRE_HEADER_SIZE + TR_RAFT_WIRE_MAX_PAYLOAD_SIZE.

(** ['T', 'R', 'F', 'T'] *)
Definition TR_RAFT_WIRE_MAGIC : list Z := [84; 82; 70; 84].

(** [tr_raft_wire_payload_kind_t]; the envelope carries it as a [uint32_t]. *)
Definition TR_RAFT_WIRE_PAYLOAD_RAFT : Z := 1.
Definition TR_RAFT_WIRE_PAYLOAD_SNAPSHOT_CHUNK : Z := 2.
Definition TR_RAFT_WIRE_PAYLOAD_SNAPSHOT_ACK : Z := 3.
Definition TR_RAFT_WIRE_PAYLOAD_DATA_CHUNK : Z := 4.
Definition TR_RAFT_WIRE_PAYLOAD_DATA_ACK : Z := 5.

Record tr_raft_wire_metadata := Metadata {
  md_cluster_id : list Z;
  md_group_id : Z;
  md_message_id : Z
}.

Record tr_raft_data_chunk := DataChunk {
  dc_from : Z;
  dc_to : Z;
  dc_term : Z;
  dc_stream_id : Z;
  dc_stream_offset : Z;
  dc_stream_size : Z;
  dc_stream_digest : list Z;
  dc_data : list Z;
  dc_done : bool
}.

Record tr_raft_data_ack := DataAck {
  da_from : Z;
  da_to : Z;
  da_term : Z;
  da_stream_id : Z;
  da_stream_size : Z;
  da_next_offset : Z;
  da_stream_digest : list Z;
  da_accepted : bool;
  da_durable : bool
}.

Record tr_raft_snapshot_chunk := SnapshotChunk {
  sc_from : Z;
  sc_to : Z;
  sc_term : Z;
  sc_snapshot_index : Z;
  sc_snapshot_term : Z;
  sc_snapshot_offset : Z;
  sc_snapshot_size : Z;
  sc_snapshot_digest : list Z;
  sc_has_configuration : bool;
  sc_configuration : tr_raft_conf;
  sc_data : list Z;
  sc_done : bool
}.

Record tr_raft_snapshot_ack := SnapshotAck {
  sa_from : Z;
  sa_to : Z;
  sa_term : Z;
  sa_snapshot_index : Z;
  sa_snapshot_size : Z;
  sa_next_offset : Z;
  sa_snapshot_digest : list Z;
  sa_accepted : bool
}.

Definition dc_data_length (c : tr_raft_data_chunk) : Z := Z.of_nat (length (dc_data c)).
Definition sc_data_length (c : tr_raft_snapshot_chunk) : Z :=
  Z.of_nat (length (sc_data c)).

(** ** Validity *)

Definition tr_wire_metadata_valid (md : tr_raft_wire_metadata) : bool :=
  negb (md_group_id md =? 0).

Definition tr_snapshot_chunk_valid (c : tr_raft_snapshot_chunk) : bool :=
  if (sc_from c =? 0) || (sc_to c =? 0) || (sc_term c =? 0) ||
     (sc_snapshot_index c =? 0) || (sc_snapshot_term c =? 0) ||
     (sc_term c <? sc_snapshot_term c) ||
     (sc_snapshot_size c <? sc_snapshot_offset c) ||
     (TR_RAFT_WIRE_MAX_SNAPSHOT_CHUNK_BYTES <? sc_data_length c) ||
     (sc_snapshot_size c -64 sc_snapshot_offset c <? sc_data_length c)
  then false
  else if ((sc_snapshot_offset c =? 0) &&
           (negb (sc_has_configuration c) ||
            failed (tr_raft_conf_validate (sc_configuration c)))) ||
          (negb (sc_snapshot_offset c =? 0) && sc_has_configuration c)
  then false
  else Bool.eqb (sc_done c)
         (sc_snapshot_offset c +64 sc_data_length c =? sc_snapshot_size c) &&
       (sc_done c || negb (sc_data_length c =? 0)).

Definition tr_wire_payload_limit (payload_kind : Z) : Z :=
  if payload_kind =? TR_RAFT_WIRE_PAYLOAD_RAFT then TR_RAFT_WIRE_MAX_RAFT_PAYLOAD_SIZE
  else if (payload_kind =? TR_RAFT_WIRE_PAYLOAD_SNAPSHOT_CHUNK) ||
          (payload_kind =? TR_RAFT_WIRE_PAYLOAD_SNAPSHOT_ACK)
  then TR_RAFT_WIRE_MAX_SNAPSHOT_PAYLOAD_SIZE
  else if (payload_kind =? TR_RAFT_WIRE_PAYLOAD_DATA_CHUNK) ||
          (payload_kind =? TR_RAFT_WIRE_PAYLOAD_DATA_ACK)
  then TR_RAFT_WIRE_MAX_DATA_PAYLOAD_SIZE
  else 0.

Definition tr_data_chunk_valid (c : tr_raft_data_chunk) : bool :=
  negb (dc_from c =? 0) && negb (dc_to c =? 0) && negb (dc_term c =? 0) &&
  negb (dc_stream_id c =? 0) &&
  (dc_stream_size c <=? TR_RAFT_WIRE_MAX_DATA_STREAM_BYTES) &&
  (dc_stream_offset c <=? dc_stream_size c) &&
  (dc_data_length c <=? TR_RAFT_WIRE_MAX_DATA_CHUNK_BYTES) &&
  (dc_data_length c <=? dc_stream_size c -64 dc_stream_offset c) &&
  Bool.eqb (dc_done c) (dc_stream_offset c +64 dc_data_length c =? dc_stream_size c) &&
  (dc_done c || negb (dc_data_length c =? 0)).

Definition tr_data_ack_valid (a : tr_raft_data_ack) : bool :=
  negb (da_from a =? 0) && negb (da_to a =? 0) && negb (da_term a =? 0) &&
  negb (da_stream_id a =? 0) &&
  (da_stream_size a <=? TR_RAFT_WIRE_MAX_DATA_STREAM_BYTES) &&
  (da_next_offset a <=? da_stream_size a) &&
  (negb (da_durable a) || (da_accepted a && (da_next_offset a =? da_stream_size a))).

Definition tr_snapshot_ack_valid (a : tr_raft_snapshot_ack) : bool :=
  negb (sa_from a =? 0) && negb (sa_to a =? 0) && negb (sa_term a =? 0) &&
  negb (sa_snapshot_index a =? 0) && (sa_next_offset a <=? sa_snapshot_size a).

(** ** The envelope *)

(** The stores fill the 48 bytes of the header in order. *)
Definition tr_wire_write_envelope (payload_kind payload_length : Z)
    (md : tr_raft_wire_metadata) : list Z :=
  TR_RAFT_WIRE_MAGIC ++ tr_put_u16 TR_RAFT_WIRE_VERSION ++
  tr_put_u16 TR_RAFT_WIRE_HEADER_SIZE ++ tr_put_u32 (u32 payload_length) ++
  tr_put_u32 payload_kind ++ md_cluster_id md ++ tr_put_u64 (md_group_id md) ++
  tr_put_u64 (md_message_id md).

Definition frame_length (frame : list Z) : Z := Z.of_nat (length frame).

(** The metadata and the payload length. *)
Definition tr_wire_read_envelope (frame : list Z) (expected_payload_kind : Z)
    : status * option (tr_raft_wire_metadata * Z) :=
  if frame_length frame <? TR_RAFT_WIRE_HEADER_SIZE then (SALTS_EPROTO, None)
  else if negb (bool_decide (take 4 frame = TR_RAFT_WIRE_MAGIC)) ||
          negb (tr_get_u16 (drop 4 frame) =? TR_RAFT_WIRE_VERSION) ||
          negb (tr_get_u16 (drop 6 frame) =? TR_RAFT_WIRE_HEADER_SIZE) ||
          negb (tr_get_u32 (drop 12 frame) =? expected_payload_kind)
  then (SALTS_EPROTO, None)
  else
    let payload_length := tr_get_u32 (drop 8 frame) in
    if (tr_wire_payload_limit expected_payload_kind <? payload_length) ||
       negb (frame_length frame =? TR_RAFT_WIRE_HEADER_SIZE +32 payload_length)
    then (SALTS_EPROTO, None)
    else
      let md := Metadata (take 16 (drop 16 frame)) (tr_get_u64 (drop 32 frame))
                  (tr_get_u64 (drop 40 frame)) in
      if md_group_id md =? 0 then (SALTS_EPROTO, None)
      else (SALTS_OK, Some (md, payload_length)).

(** [tr_raft_wire_peek_version], which only returns [TR_RAFT_WIRE_VERSION]. *)
Definition tr_raft_wire_peek_version (frame : list Z) : status :=
  if frame_length frame <? TR_RAFT_WIRE_HEADER_SIZE then SALTS_EINVAL
  else if negb (bool_decide (take 4 frame = TR_RAFT_WIRE_MAGIC)) ||
          negb (tr_get_u16 (drop 4 frame) =? TR_RAFT_WIRE_VERSION) ||
          negb (tr_get_u16 (drop 6 frame) =? TR_RAFT_WIRE_HEADER_SIZE)
  then SALTS_EPROTO
  else
    let payload_length := tr_get_u32 (drop 8 frame) in
    let payload_kind := tr_get_u32 (drop 12 frame) in
    if (tr_wire_payload_limit payload_kind <? payload_length) ||
       negb (frame_length frame =? TR_RAFT_WIRE_HEADER_SIZE +32 payload_length)
    then SALTS_EPROTO else SALTS_OK.

Definition tr_raft_wire_peek_payload_kind (frame : list Z) : status * option Z :=
  if failed (tr_raft_wire_peek_version frame)
  then (if frame_length frame <? TR_RAFT_WIRE_HEADER_SIZE
        then SALTS_EINVAL else SALTS_EPROTO, None)
  else
    let payload_kind := tr_get_u32 (drop 12 frame) in
    if (payload_kind <? TR_RAFT_WIRE_PAYLOAD_RAFT) ||
       (TR_RAFT_WIRE_PAYLOAD_DATA_ACK <? payload_kind)
    then (SALTS_EPROTO, None) else (SALTS_OK, Some payload_kind).

(** ** Data chunks *)

Definition TR_DATA_CHUNK_FIXED_SIZE : Z := 85.
Definition TR_DATA_ACK_FIXED_SIZE : Z := 82.

(** [flag ? 1U : 0U] *)
Definition flag (b : bool) : Z := if b then 1 else 0.

(** The 85 bytes before the data, in the order of their offsets. *)
Definition data_chunk_fixed (c : tr_raft_data_chunk) : list Z :=
  tr_put_u64 (dc_from c) ++ tr_put_u64 (dc_to c) ++ tr_put_u64 (dc_term c) ++
  tr_put_u64 (dc_stream_id c) ++ tr_put_u64 (dc_stream_offset c) ++
  tr_put_u64 (dc_stream_size c) ++ dc_stream_digest c ++ [flag (dc_done c)] ++
  tr_put_u32 (u32 (dc_data_length c)).

(** Status, [*out_prefix_length], [*out_frame_length] and the prefix. *)
Definition tr_raft_wire_encode_data_chunk_prefix (md : tr_raft_wire_metadata)
    (c : tr_raft_data_chunk) (output_capacity : Z)
    : status * Z * Z * option (list Z) :=
  let prefix_length := TR_RAFT_WIRE_HEADER_SIZE + TR_DATA_CHUNK_FIXED_SIZE in
  if negb (tr_wire_metadata_valid md) || negb (tr_data_chunk_valid c)
  then (SALTS_EINVAL, 0, 0, None)
  else
    let payload_length := TR_DATA_CHUNK_FIXED_SIZE + dc_data_length c in
    let frame_length := TR_RAFT_WIRE_HEADER_SIZE + payload_length in
    if output_capacity <? prefix_length
    then (SALTS_ENOSPC, prefix_length, frame_length, None)
    else (SALTS_OK, prefix_length, frame_length,
          Some (tr_wire_write_envelope TR_RAFT_WIRE_PAYLOAD_DATA_CHUNK payload_length md ++
                data_chunk_fixed c)).

Definition tr_raft_wire_encode_data_chunk (md : tr_raft_wire_metadata)
    (c : tr_raft_data_chunk) (output_capacity : Z) : status * Z * option (list Z) :=
  if negb (tr_wire_metadata_valid md) || negb (tr_data_chunk_valid c)
  then (SALTS_EINVAL, 0, None)
  else
    let frame_length :=
      TR_RAFT_WIRE_HEADER_SIZE + TR_DATA_CHUNK_FIXED_SIZE + dc_data_length c in
    if output_capacity <? frame_length then (SALTS_ENOSPC, frame_length, None)
    else
      match tr_raft_wire_encode_data_chunk_prefix md c output_capacity with
      | (SALTS_OK, _, frame_length, Some prefix) =>
          (SALTS_OK, frame_length, Some (prefix ++ dc_data c))
      | (result, _, frame_length, _) => (result, frame_length, None)
      end.

Definition tr_raft_wire_decode_data_chunk (frame : list Z)
    : status * option (tr_raft_wire_metadata * tr_raft_data_chunk) :=
  if frame_length frame <? TR_RAFT_WIRE_HEADER_SIZE then (SALTS_EINVAL, None)
  else
    match tr_wire_read_envelope frame TR_RAFT_WIRE_PAYLOAD_DATA_CHUNK with
    | (SALTS_OK, Some (md, payload_length)) =>
        if payload_length <? TR_DATA_CHUNK_FIXED_SIZE then (SALTS_EPROTO, None)
        else
          let payload := drop 48 frame in
          let data_length := tr_get_u32 (drop 81 payload) in
          if negb (data_length =? payload_length - TR_DATA_CHUNK_FIXED_SIZE)
          then (SALTS_EPROTO, None)
          else if 1 <? byte_at payload 80 then (SALTS_EPROTO, None)
          else
            let c := DataChunk (tr_get_u64 payload) (tr_get_u64 (drop 8 payload))
                       (tr_get_u64 (drop 16 payload)) (tr_get_u64 (drop 24 payload))
                       (tr_get_u64 (drop 32 payload)) (tr_get_u64 (drop 40 payload))
                       (take 32 (drop 48 payload)) (take (Z.to_nat data_length) (drop 85 payload))
                       (negb (byte_at payload 80 =? 0)) in
            if tr_data_chunk_valid c then (SALTS_OK, Some (md, c))
            else (SALTS_EPROTO, None)
    | _ => (SALTS_EPROTO, None)
    end.

(** ** Data acknowledgements *)

Definition data_ack_fixed (a : tr_raft_data_ack) : list Z :=
  tr_put_u64 (da_from a) ++ tr_put_u64 (da_to a) ++ tr_put_u64 (da_term a) ++
  tr_put_u64 (da_stream_id a) ++ tr_put_u64 (da_stream_size a) ++
  tr_put_u64 (da_next_offset a) ++ da_stream_digest a ++
  [flag (da_accepted a); flag (da_durable a)].

Definition tr_raft_wire_encode_data_ack (md : tr_raft_wire_metadata)
    (a : tr_raft_data_ack) (output_capacity : Z) : status * Z * option (list Z) :=
  if negb (tr_wire_metadata_valid md) || negb (tr_data_ack_valid a)
  then (SALTS_EINVAL, 0, None)
  else
    let frame_length := TR_RAFT_WIRE_HEADER_SIZE + TR_DATA_ACK_FIXED_SIZE in
    if output_capacity <? frame_length then (SALTS_ENOSPC, frame_length, None)
    else (SALTS_OK, frame_length,
          Some (tr_wire_write_envelope TR_RAFT_WIRE_PAYLOAD_DATA_ACK
                  TR_DATA_ACK_FIXED_SIZE md ++ data_ack_fixed a)).

Definition tr_raft_wire_decode_data_ack (frame : list Z)
    : status * option (tr_raft_wire_metadata * tr_raft_data_ack) :=
  if frame_length frame <? TR_RAFT_WIRE_HEADER_SIZE then (SALTS_EINVAL, None)
  else
    match tr_wire_read_envelope frame TR_RAFT_WIRE_PAYLOAD_DATA_ACK with
    | (SALTS_OK, Some (md, payload_length)) =>
        if negb (payload_length =? TR_DATA_ACK_FIXED_SIZE) then (SALTS_EPROTO, None)
        else
          let payload := drop 48 frame in
          if (1 <? byte_at payload 80) || (1 <? byte_at payload 81)
          then (SALTS_EPROTO, None)
          else
            let a := DataAck (tr_get_u64 payload) (tr_get_u64 (drop 8 payload))
                       (tr_get_u64 (drop 16 payload)) (tr_get_u64 (drop 24 payload))
                       (tr_get_u64 (drop 32 payload)) (tr_get_u64 (drop 40 payload))
                       (take 32 (drop 48 payload)) (negb (byte_at payload 80 =? 0))
                       (negb (byte_at payload 81 =? 0)) in
            if tr_data_ack_valid a then (SALTS_OK, Some (md, a)) else (SALTS_EPROTO, None)
    | _ => (SALTS_EPROTO, None)
    end.

(** ** Well-formed records

    The ranges and array sizes the C types guarantee. *)

Definition is_u64 (x : Z) : Prop := 0 <= x < 2 ^ 64.

Definition bytes_of (n : nat) (l : list Z) : Prop := length l = n /\ Forall is_byte l.

Record metadata_wf (md : tr_raft_wire_metadata) : Prop := {
  mw_cluster_id : bytes_of 16 (md_cluster_id md);
  mw_group_id : is_u64 (md_group_id md);
  mw_message_id : is_u64 (md_message_id md)
}.

Record data_chunk_wf (c : tr_raft_data_chunk) : Prop := {
  dcw_from : is_u64 (dc_from c);
  dcw_to : is_u64 (dc_to c);
  dcw_term : is_u64 (dc_term c);
  dcw_stream_id : is_u64 (dc_stream_id c);
  dcw_stream_offset : is_u64 (dc_stream_offset c);
  dcw_stream_size : is_u64 (dc_stream_size c);
  dcw_digest : bytes_of 32 (dc_stream_digest c);
  dcw_data : Forall is_byte (dc_data c)
}.

Record data_ack_wf (a : tr_raft_data_ack) : Prop := {
  daw_from : is_u64 (da_from a);
  daw_to : is_u64 (da_to a);
  daw_term : is_u64 (da_term a);
  daw_stream_id : is_u64 (da_stream_id a);
  daw_stream_size : is_u64 (da_stream_size a);
  daw_next_offset : is_u64 (da_next_offset a);
  daw_digest : bytes_of 32 (da_stream_digest a)
}.

(** ** The envelope round trip *)

Lemma payload_limit_bound kind : 0 <= tr_wire_payload_limit kind <= 69632.
Proof.
  unfold tr_wire_payload_limit, TR_RAFT_WIRE_MAX_RAFT_PAYLOAD_SIZE,
    TR_RAFT_WIRE_MAX_SNAPSHOT_PAYLOAD_SIZE, TR_RAFT_WIRE_MAX_SNAPSHOT_CHUNK_BYTES,
    TR_RAFT_WIRE_MAX_DATA_PAYLOAD_SIZE, TR_RAFT_WIRE_MAX_DATA_CHUNK_BYTES.
  repeat case_match; lia.
Qed.

Lemma length_envelope kind len md :
  metadata_wf md -> length (tr_wire_write_envelope kind len md) = 48%nat.
Proof.
  intros [[Hc _] _ _]. unfold tr_wire_write_envelope. autorewrite with wire.
  rewrite Hc. done.
Qed.

(** The header is as long as the decoders require, and the payload follows. *)
Lemma envelope_payload kind len md payload :
  metadata_wf md ->
  let frame := tr_wire_write_envelope kind len md ++ payload in
  drop 48 frame = payload /\ (frame_length frame <? TR_RAFT_WIRE_HEADER_SIZE) = false.
Proof.
  intros Hmd. pose proof (length_envelope kind len md Hmd) as Hlen. cbv zeta. split.
  - by rewrite drop_app_length' by (by rewrite Hlen).
  - unfold frame_length, TR_RAFT_WIRE_HEADER_SIZE. rewrite length_app, Hlen. blia.
Qed.

Section Envelope.
Context (kind len : Z) (md : tr_raft_wire_metadata) (payload : list Z).
Context (Hkind : 0 <= kind < 2 ^ 32) (Hmd : metadata_wf md).
Context (Hgroup : md_group_id md <> 0).
Context (Hlen : Z.of_nat (length payload) = len).
Context (Hlimit : len <= tr_wire_payload_limit kind).

Lemma envelope_fields :
  let frame := tr_wire_write_envelope kind len md ++ payload in
  take 4 frame = TR_RAFT_WIRE_MAGIC /\
  tr_get_u16 (drop 4 frame) = TR_RAFT_WIRE_VERSION /\
  tr_get_u16 (drop 6 frame) = TR_RAFT_WIRE_HEADER_SIZE /\
  tr_get_u32 (drop 8 frame) = len /\ tr_get_u32 (drop 12 frame) = kind /\
  take 16 (drop 16 frame) = md_cluster_id md /\
  tr_get_u64 (drop 32 frame) = md_group_id md /\
  tr_get_u64 (drop 40 frame) = md_message_id md /\ drop 48 frame = payload.
Proof.
  destruct Hmd as [[Hc _] Hg Hm]. pose proof (payload_limit_bound kind).
  cbv zeta. unfold tr_wire_write_envelope, TR_RAFT_WIRE_MAGIC. rewrite <- !(assoc_L (++)).
  split; [done|].
  do 2 (split; [seek; by apply get_put_u16|]). repeat split; seek.
  - rewrite get_put_u32; rewrite u32_small; lia.
  - by apply get_put_u32.
  - rewrite <- Hc at 1. apply take_field.
  - by apply get_put_u64_be.
  - by apply get_put_u64_be.
  - done.
Qed.

Lemma read_write_envelope :
  tr_wire_read_envelope (tr_wire_write_envelope kind len md ++ payload) kind =
  (SALTS_OK, Some (md, len)).
Proof.
  destruct envelope_fields as (H1 & H2 & H3 & H4 & H5 & H6 & H7 & H8 & H9).
  pose proof (payload_limit_bound kind). unfold tr_wire_read_envelope.
  rewrite H1, H2, H3, H4, H5, H6, H7, H8. rewrite bool_decide_true by done.
  rewrite !Z.eqb_refl. cbn [negb orb].
  assert (frame_length (tr_wire_write_envelope kind len md ++ payload) = 48 + len) as ->
    by (unfold frame_length; rewrite length_app, length_envelope by done; lia).
  unfold TR_RAFT_WIRE_HEADER_SIZE. rewrite u32_small by lia. rewrite Z.eqb_refl.
  replace (48 + len <? 48) with false by blia.
  replace (tr_wire_payload_limit kind <? len) with false by blia. cbn [negb orb md_group_id].
  replace (md_group_id md =? 0) with false by blia. by destruct md.
Qed.

Lemma peek_write_envelope :
  TR_RAFT_WIRE_PAYLOAD_RAFT <= kind <= TR_RAFT_WIRE_PAYLOAD_DATA_ACK ->
  tr_raft_wire_peek_payload_kind (tr_wire_write_envelope kind len md ++ payload) =
  (SALTS_OK, Some kind).
Proof.
  intros Hk. destruct envelope_fields as (H1 & H2 & H3 & H4 & H5 & _).
  pose proof (payload_limit_bound kind).
  unfold tr_raft_wire_peek_payload_kind, tr_raft_wire_peek_version.
  rewrite H1, H2, H3, H4, H5. rewrite bool_decide_true by done.
  rewrite !Z.eqb_refl. cbn [negb orb].
  assert (frame_length (tr_wire_write_envelope kind len md ++ payload) = 48 + len) as ->
    by (unfold frame_length; rewrite length_app, length_envelope by done; lia).
  unfold TR_RAFT_WIRE_HEADER_SIZE. rewrite u32_small by lia. rewrite Z.eqb_refl.
  replace (48 + len <? 48) with false by blia.
  replace (tr_wire_payload_limit kind <? len) with false by blia. cbn [negb orb].
  unfold failed. cbn [ok negb].
  by replace ((kind <? _) || _) with false by blia.
Qed.
End Envelope.

(** What the envelope reader accepts is what the writer produces. *)
Lemma read_envelope_canonical kind frame md len :
  Forall is_byte frame -> tr_wire_read_envelope frame kind = (SALTS_OK, Some (md, len)) ->
  frame = tr_wire_write_envelope kind len md ++ drop 48 frame /\
  Z.of_nat (length (drop 48 frame)) = len /\ 0 <= len <= tr_wire_payload_limit kind /\
  metadata_wf md /\ md_group_id md <> 0.
Proof.
  intros Hb. unfold tr_wire_read_envelope, TR_RAFT_WIRE_HEADER_SIZE.
  destruct (frame_length frame <? 48) eqn:Hlong; [done|].
  assert (48 <= length frame)%nat as Hlen by (unfold frame_length in Hlong; lia).
  assert (forall n, Forall is_byte (drop n frame)) as Hd by (intros; by apply Forall_drop).
  destruct (negb (bool_decide _) || _ || _ || _) eqn:Hguard; [done|].
  apply orb_false_iff in Hguard as [[[Hmagic Hver]%orb_false_iff Hhead]%orb_false_iff Hkind].
  apply negb_false_iff, bool_decide_eq_true in Hmagic.
  apply negb_false_iff, Z.eqb_eq in Hver, Hhead, Hkind.
  destruct (_ || _) eqn:Hsize; [done|]. apply orb_false_iff in Hsize as [Hlimit Hexact].
  destruct (md_group_id _ =? 0) eqn:Hg; [done|]. intros [= <- <-].
  pose proof (payload_limit_bound kind).
  pose proof (get_u32_range (drop 8 frame) ltac:(rewrite length_drop; lia) (Hd _)) as Hr.
  rewrite u32_small in Hexact by lia. unfold frame_length in Hexact.
  split; [|split; [rewrite length_drop; lia|]; split; [lia|]; split; [constructor|]; cbn].
  - unfold tr_wire_write_envelope, TR_RAFT_WIRE_HEADER_SIZE. cbn [md_cluster_id md_group_id md_message_id].
    rewrite <- Hmagic, <- Hver, <- Hhead, <- Hkind. rewrite u32_small by lia.
    rewrite !put_get_u16, !put_get_u32, !put_get_u64_be by (rewrite ?length_drop; (lia || apply Hd)).
    rewrite <- !(assoc_L (++)).
    rewrite (join_at 40 8 48), (join_at 32 8 40), (join_at 16 16 32), (join_at 12 4 16),
      (join_at 8 4 12), (join_at 6 2 8), (join_at 4 2 6) by done.
    by rewrite take_drop.
  - split; [rewrite length_take, length_drop; lia|]. by apply Forall_take.
  - apply get_u64_be_range; [rewrite length_drop; lia|done].
  - apply get_u64_be_range; [rewrite length_drop; lia|done].
  - cbn in Hg. lia.
Qed.

(** ** Data chunks and acknowledgements *)

Lemma byte_at_field (l : list Z) (n : nat) (b : Z) (rest : list Z) :
  drop n l = b :: rest -> byte_at l n = b.
Proof. intros Hd. rewrite <- byte_at_drop, Hd. done. Qed.

Lemma flag_le b : (1 <? flag b) = false.
Proof. by destruct b. Qed.
Lemma flag_bool b : negb (flag b =? 0) = b.
Proof. by destruct b. Qed.
Lemma bool_flag x : 0 <= x <= 1 -> flag (negb (x =? 0)) = x.
Proof. intros Hx. destruct (Z.eqb_spec x 0); cbn; lia. Qed.

Lemma length_data_chunk_fixed c :
  length (dc_stream_digest c) = 32%nat -> length (data_chunk_fixed c) = 85%nat.
Proof. intros Hd. unfold data_chunk_fixed. by wire_len. Qed.

Lemma data_chunk_fields c rest :
  data_chunk_wf c -> dc_data_length c < 2 ^ 32 ->
  let payload := data_chunk_fixed c ++ rest in
  tr_get_u64 payload = dc_from c /\ tr_get_u64 (drop 8 payload) = dc_to c /\
  tr_get_u64 (drop 16 payload) = dc_term c /\ tr_get_u64 (drop 24 payload) = dc_stream_id c /\
  tr_get_u64 (drop 32 payload) = dc_stream_offset c /\
  tr_get_u64 (drop 40 payload) = dc_stream_size c /\
  take 32 (drop 48 payload) = dc_stream_digest c /\
  byte_at payload 80 = flag (dc_done c) /\
  tr_get_u32 (drop 81 payload) = dc_data_length c /\ drop 85 payload = rest.
Proof.
  intros [H1 H2 H3 H4 H5 H6 [Hd _] _] Hl. cbv zeta. unfold data_chunk_fixed.
  rewrite <- !(assoc_L (++)).
  do 6 (split; [seek; by apply get_put_u64_be|]).
  split; [seek; rewrite <- Hd at 1; apply take_field|].
  split; [eapply byte_at_field; by seek|].
  unfold dc_data_length in *.
  split; [seek; rewrite get_put_u32; rewrite u32_small; lia|by seek].
Qed.

Lemma data_chunk_valid_length c :
  data_chunk_wf c -> tr_data_chunk_valid c = true -> dc_data_length c <= 65536.
Proof.
  unfold tr_data_chunk_valid, TR_RAFT_WIRE_MAX_DATA_CHUNK_BYTES. intros _ Hv. bprop. lia.
Qed.

(** The frame of a valid chunk. *)
Definition data_chunk_frame (md : tr_raft_wire_metadata) (c : tr_raft_data_chunk) : list Z :=
  tr_wire_write_envelope TR_RAFT_WIRE_PAYLOAD_DATA_CHUNK
    (TR_DATA_CHUNK_FIXED_SIZE + dc_data_length c) md ++ data_chunk_fixed c ++ dc_data c.

Lemma encode_data_chunk_frame md c capacity :
  tr_wire_metadata_valid md = true -> tr_data_chunk_valid c = true ->
  48 + 85 + dc_data_length c <= capacity ->
  tr_raft_wire_encode_data_chunk md c capacity =
  (SALTS_OK, 48 + (85 + dc_data_length c), Some (data_chunk_frame md c)).
Proof.
  intros Hmd Hc Hcap. assert (0 <= dc_data_length c) by (unfold dc_data_length; lia).
  unfold tr_raft_wire_encode_data_chunk, tr_raft_wire_encode_data_chunk_prefix.
  rewrite Hmd, Hc. cbn [negb orb].
  unfold TR_RAFT_WIRE_HEADER_SIZE, TR_DATA_CHUNK_FIXED_SIZE.
  replace (capacity <? 48 + 85 + dc_data_length c) with false by blia.
  replace (capacity <? 48 + 85) with false by blia.
  unfold data_chunk_frame. by rewrite <- !(assoc_L (++)).
Qed.

Lemma decode_data_chunk_frame md c :
  metadata_wf md -> tr_wire_metadata_valid md = true ->
  data_chunk_wf c -> tr_data_chunk_valid c = true ->
  tr_raft_wire_decode_data_chunk (data_chunk_frame md c) = (SALTS_OK, Some (md, c)).
Proof.
  intros Hmd Hmv Hc Hcv. pose proof (data_chunk_valid_length c Hc Hcv) as Hl.
  assert (0 <= dc_data_length c) by (unfold dc_data_length; lia).
  pose proof (length_data_chunk_fixed c (proj1 (dcw_digest _ Hc))) as Hf.
  assert (md_group_id md <> 0) as Hg by (unfold tr_wire_metadata_valid in Hmv; bprop; lia).
  assert (Z.of_nat (length (data_chunk_fixed c ++ dc_data c)) =
          TR_DATA_CHUNK_FIXED_SIZE + dc_data_length c) as Hlen
    by (rewrite length_app, Hf; unfold dc_data_length, TR_DATA_CHUNK_FIXED_SIZE; lia).
  unfold data_chunk_frame, tr_raft_wire_decode_data_chunk.
  rewrite (read_write_envelope TR_RAFT_WIRE_PAYLOAD_DATA_CHUNK _ md _ ltac:(done) Hmd Hg Hlen)
    by (unfold TR_DATA_CHUNK_FIXED_SIZE; change (tr_wire_payload_limit _) with 65664; lia).
  destruct (envelope_payload TR_RAFT_WIRE_PAYLOAD_DATA_CHUNK
    (TR_DATA_CHUNK_FIXED_SIZE + dc_data_length c) md (data_chunk_fixed c ++ dc_data c) Hmd)
    as [-> ->].
  replace (_ <? TR_DATA_CHUNK_FIXED_SIZE) with false by blia.
  destruct (data_chunk_fields c (dc_data c) Hc ltac:(lia))
    as (-> & -> & -> & -> & -> & -> & -> & -> & -> & ->).
  rewrite flag_le, flag_bool.
  replace (dc_data_length c =? _) with true by blia. cbn [negb].
  unfold dc_data_length. rewrite Nat2Z.id, take_ge by lia.
  destruct c as [f t tm id off sz dg d dn]. cbn [dc_from dc_to dc_term dc_stream_id
    dc_stream_offset dc_stream_size dc_stream_digest dc_data dc_done] in *.
  by rewrite Hcv.
Qed.

Lemma byte_at_is_byte (l : list Z) (n : nat) :
  (n < length l)%nat -> Forall is_byte l ->
  is_byte (byte_at l n) /\ take 1 (drop n l) = [byte_at l n].
Proof.
  intros Hn Hb. assert (exists b, l !! n = Some b) as [b E] by (by apply lookup_lt_is_Some).
  rewrite (drop_S l b n E). erewrite byte_at_field by (apply drop_S; exact E).
  split; [|done]. by eapply Forall_lookup_1 in E.
Qed.

Lemma decode_data_chunk_canonical frame md c :
  Forall is_byte frame ->
  tr_raft_wire_decode_data_chunk frame = (SALTS_OK, Some (md, c)) ->
  frame = data_chunk_frame md c /\ metadata_wf md /\ tr_wire_metadata_valid md = true /\
  data_chunk_wf c /\ tr_data_chunk_valid c = true.
Proof.
  intros Hb. unfold tr_raft_wire_decode_data_chunk.
  destruct (_ <? TR_RAFT_WIRE_HEADER_SIZE); [done|].
  destruct (tr_wire_read_envelope _ _) as [[|] [[md' len]|]] eqn:Henv; try done.
  apply read_envelope_canonical in Henv as (Hframe & Hlen & Hlimit & Hmd & Hg); [|done].
  change (tr_wire_payload_limit _) with 65664 in Hlimit.
  set (payload := drop 48 frame) in *.
  assert (Forall is_byte payload) as Hp by (by apply Forall_drop).
  assert (forall n, Forall is_byte (drop n payload)) as Hd by (intros; by apply Forall_drop).
  unfold TR_DATA_CHUNK_FIXED_SIZE. destruct (len <? 85) eqn:Hlong; [done|].
  destruct (negb (_ =? _)) eqn:Hdata; [done|]. destruct (1 <? _) eqn:Hflag; [done|].
  destruct (tr_data_chunk_valid _) eqn:Hv; [|done]. intros [= <- <-].
  assert (tr_get_u32 (drop 81 payload) = len - 85) as Hdl by blia.
  assert (take (Z.to_nat (tr_get_u32 (drop 81 payload))) (drop 85 payload) = drop 85 payload)
    as Ht by (apply take_ge; rewrite length_drop; lia).
  rewrite Ht in *.
  destruct (byte_at_is_byte payload 80) as [Hb80 Ht80]; [lia|done|].
  unfold is_byte in Hb80.
  split; [|do 2 (split; [done || (unfold tr_wire_metadata_valid; blia)|]); split; [constructor|done]];
    try (apply get_u64_be_range; [rewrite ?length_drop; lia|auto]).
  - rewrite Hframe. unfold data_chunk_frame, data_chunk_fixed, dc_data_length.
    cbn [dc_from dc_to dc_term dc_stream_id dc_stream_offset dc_stream_size dc_stream_digest
         dc_data dc_done]. unfold TR_DATA_CHUNK_FIXED_SIZE.
    replace (Z.of_nat (length (drop 85 payload))) with (len - 85) by (rewrite length_drop; lia).
    replace (85 + (len - 85)) with len by lia. f_equal. rewrite bool_flag by lia.
    rewrite u32_small by lia. rewrite <- Hdl, put_get_u32 by (rewrite ?length_drop; (lia || apply Hd)).
    rewrite <- Ht80. change (tr_get_u64 payload) with (tr_get_u64 (drop 0 payload)).
    rewrite !put_get_u64_be by (rewrite ?length_drop; (lia || apply Hd)).
    rewrite <- !(assoc_L (++)).
    by rewrite (join_at 81 4 85), (join_at 80 1 81), (join_at 48 32 80), (join_at 40 8 48),
      (join_at 32 8 40), (join_at 24 8 32), (join_at 16 8 24), (join_at 8 8 16),
      (join_at 0 8 8) by done.
  - split; [cbn; rewrite length_take, length_drop; lia|]. by apply Forall_take.
  - apply Hd.
Qed.

(** ** Acknowledgements *)

Definition data_ack_frame (md : tr_raft_wire_metadata) (a : tr_raft_data_ack) : list Z :=
  tr_wire_write_envelope TR_RAFT_WIRE_PAYLOAD_DATA_ACK TR_DATA_ACK_FIXED_SIZE md ++
  data_ack_fixed a.

Lemma encode_data_ack_frame md a capacity :
  tr_wire_metadata_valid md = true -> tr_data_ack_valid a = true -> 48 + 82 <= capacity ->
  tr_raft_wire_encode_data_ack md a capacity =
  (SALTS_OK, 48 + 82, Some (data_ack_frame md a)).
Proof.
  intros Hmd Ha Hcap. unfold tr_raft_wire_encode_data_ack. rewrite Hmd, Ha. cbn [negb orb].
  unfold TR_RAFT_WIRE_HEADER_SIZE, TR_DATA_ACK_FIXED_SIZE.
  by replace (capacity <? 48 + 82) with false by blia.
Qed.

Lemma data_ack_fields a :
  data_ack_wf a ->
  let payload := data_ack_fixed a in
  tr_get_u64 payload = da_from a /\ tr_get_u64 (drop 8 payload) = da_to a /\
  tr_get_u64 (drop 16 payload) = da_term a /\ tr_get_u64 (drop 24 payload) = da_stream_id a /\
  tr_get_u64 (drop 32 payload) = da_stream_size a /\
  tr_get_u64 (drop 40 payload) = da_next_offset a /\
  take 32 (drop 48 payload) = da_stream_digest a /\
  byte_at payload 80 = flag (da_accepted a) /\ byte_at payload 81 = flag (da_durable a).
Proof.
  intros [H1 H2 H3 H4 H5 H6 [Hd _]]. cbv zeta. unfold data_ack_fixed.
  do 6 (split; [seek; by apply get_put_u64_be|]).
  split; [seek; rewrite <- Hd at 1; apply take_field|].
  split; eapply byte_at_field; seek; done.
Qed.

Lemma decode_data_ack_frame md a :
  metadata_wf md -> tr_wire_metadata_valid md = true ->
  data_ack_wf a -> tr_data_ack_valid a = true ->
  tr_raft_wire_decode_data_ack (data_ack_frame md a) = (SALTS_OK, Some (md, a)).
Proof.
  intros Hmd Hmv Ha Hav.
  assert (md_group_id md <> 0) as Hg by (unfold tr_wire_metadata_valid in Hmv; bprop; lia).
  assert (Z.of_nat (length (data_ack_fixed a)) = TR_DATA_ACK_FIXED_SIZE) as Hlen.
  { destruct (daw_digest _ Ha) as [Hd _]. unfold data_ack_fixed. by wire_len. }
  unfold data_ack_frame, tr_raft_wire_decode_data_ack.
  rewrite (read_write_envelope TR_RAFT_WIRE_PAYLOAD_DATA_ACK _ md _ ltac:(done) Hmd Hg Hlen)
    by done.
  destruct (envelope_payload TR_RAFT_WIRE_PAYLOAD_DATA_ACK TR_DATA_ACK_FIXED_SIZE md
    (data_ack_fixed a) Hmd) as [-> ->]. rewrite Z.eqb_refl. cbn [negb].
  destruct (data_ack_fields a Ha) as (-> & -> & -> & -> & -> & -> & -> & -> & ->).
  rewrite !flag_le, !flag_bool. cbn [orb]. destruct a. cbn in *. by rewrite Hav.
Qed.

Lemma decode_data_ack_canonical frame md a :
  Forall is_byte frame ->
  tr_raft_wire_decode_data_ack frame = (SALTS_OK, Some (md, a)) ->
  frame = data_ack_frame md a /\ metadata_wf md /\ tr_wire_metadata_valid md = true /\
  data_ack_wf a /\ tr_data_ack_valid a = true.
Proof.
  intros Hb. unfold tr_raft_wire_decode_data_ack.
  destruct (_ <? TR_RAFT_WIRE_HEADER_SIZE); [done|].
  destruct (tr_wire_read_envelope _ _) as [[|] [[md' len]|]] eqn:Henv; try done.
  apply read_envelope_canonical in Henv as (Hframe & Hlen & _ & Hmd & Hg); [|done].
  set (payload := drop 48 frame) in *.
  assert (Forall is_byte payload) as Hp by (by apply Forall_drop).
  assert (forall n, Forall is_byte (drop n payload)) as Hd by (intros; by apply Forall_drop).
  destruct (negb (len =? _)) eqn:Hsize; [done|]. destruct (_ || _) eqn:Hflag; [done|].
  destruct (tr_data_ack_valid _) eqn:Hv; [|done]. intros [= <- <-].
  assert (len = 82) as Hlen82 by (unfold TR_DATA_ACK_FIXED_SIZE in Hsize; blia).
  destruct (byte_at_is_byte payload 80) as [Hb80 Ht80]; [lia|done|].
  destruct (byte_at_is_byte payload 81) as [Hb81 Ht81]; [lia|done|].
  apply orb_false_iff in Hflag as [Hf80 Hf81]. unfold is_byte in Hb80, Hb81.
  split; [|do 2 (split; [done || (unfold tr_wire_metadata_valid; blia)|]); split; [constructor|done]];
    try (apply get_u64_be_range; [rewrite ?length_drop; lia|auto]).
  - rewrite Hframe. unfold data_ack_frame, data_ack_fixed.
    cbn [da_from da_to da_term da_stream_id da_stream_size da_next_offset da_stream_digest
         da_accepted da_durable].
    change TR_DATA_ACK_FIXED_SIZE with 82. rewrite <- Hlen82. f_equal.
    rewrite !bool_flag by lia.
    change [byte_at payload 80; byte_at payload 81]
      with ([byte_at payload 80] ++ [byte_at payload 81]).
    rewrite <- Ht80, <- Ht81. rewrite (take_ge (drop 81 payload)) by (rewrite length_drop; lia).
    change (tr_get_u64 payload) with (tr_get_u64 (drop 0 payload)).
    rewrite !put_get_u64_be by (rewrite ?length_drop; (lia || apply Hd)).
    by rewrite (join_at 80 1 81), (join_at 48 32 80), (join_at 40 8 48),
      (join_at 32 8 40), (join_at 24 8 32), (join_at 16 8 24), (join_at 8 8 16),
      (join_at 0 8 8) by done.
  - split; [cbn; rewrite length_take, length_drop; lia|]. by apply Forall_take.
Qed.
