(* ===== verification/Handshake.v ===== *)
(** * The peer handshake: [src/transport/raft_peer_handshake.c]

    Two nodes that have authenticated each other exchange a HELLO and an
    acknowledgement of fixed size and agree on the limits of the session. The
    words of a packet are the big-endian words of [Bytes]; arrays of a fixed
    size are lists of that size, and pointers are not null. *)

From S2P Require Import Prelude Configuration Bytes Wire.
From Stdlib Require Import ZArith Lia.
From stdpp Require Import base numbers list tactics.
Open Scope Z_scope.
Open Scope raft_scope.

Definition TR_RAFT_HANDSHAKE_FORMAT_VERSION : Z := 1.
Definition TR_RAFT_HANDSHAKE_RECORD_SIZE : Z := 84.
Definition TR_RAFT_HANDSHAKE_LENGTH_PREFIX_SIZE : nat := 4.
Definition TR_RAFT_HANDSHAKE_PACKET_SIZE : nat := 88.
Definition TR_RAFT_HANDSHAKE_WIRE_MAJOR : Z := 1.
Definition TR_RAFT_HANDSHAKE_WIRE_MINOR : Z := 0.

(** [tr_raft_handshake_message_type_t]; a packet may carry any [uint16_t]. *)
Definition TR_RAFT_HANDSHAKE_HELLO : Z := 1.
Definition TR_RAFT_HANDSHAKE_HELLO_ACK : Z := 2.

(** ['T', 'R', 'H', 'S'] *)
Definition tr_raft_handshake_magic : list Z := [84; 82; 72; 83].

Record tr_raft_handshake_config := HandshakeConfig {
  hc_cluster_id : list Z;
  hc_local_node_id : Z;
  hc_process_incarnation : list Z;
  hc_config_epoch : Z;
  hc_feature_bits : Z;
  hc_wire_major_min : Z;
  hc_wire_major_max : Z;
  hc_wire_minor_min : Z;
  hc_wire_minor_max : Z;
  hc_max_frame_size : Z;
  hc_max_snapshot_chunk_size : Z
}.

Record tr_raft_handshake_message := HandshakeMessage {
  hm_type : Z;
  hm_wire_major_min : Z;
  hm_wire_major_max : Z;
  hm_wire_minor_min : Z;
  hm_wire_minor_max : Z;
  hm_feature_bits : Z;
  hm_cluster_id : list Z;
  hm_node_id : Z;
  hm_process_incarnation : list Z;
  hm_config_epoch : Z;
  hm_max_frame_size : Z;
  hm_max_snapshot_chunk_size : Z
}.

Record tr_raft_handshake_result := HandshakeResult {
  hr_complete : bool;
  hr_cluster_id : list Z;
  hr_local_node_id : Z;
  hr_peer_node_id : Z;
  hr_peer_process_incarnation : list Z;
  hr_peer_config_epoch : Z;
  hr_feature_bits : Z;
  hr_wire_major : Z;
  hr_wire_minor : Z;
  hr_max_frame_size : Z;
  hr_max_snapshot_chunk_size : Z
}.

Inductive tr_raft_handshake_exchange_state :=
| TR_RAFT_HANDSHAKE_EXCHANGE_NEW
| TR_RAFT_HANDSHAKE_EXCHANGE_WAIT_HELLO
| TR_RAFT_HANDSHAKE_EXCHANGE_WAIT_ACK
| TR_RAFT_HANDSHAKE_EXCHANGE_COMPLETE
| TR_RAFT_HANDSHAKE_EXCHANGE_FAULTED.

(** [ex_packet] are the [packet_used] bytes received of the next packet. *)
Record tr_raft_handshake_exchange := Exchange {
  ex_local : tr_raft_handshake_config;
  ex_authenticated_peer_node_id : Z;
  ex_state : tr_raft_handshake_exchange_state;
  ex_result : tr_raft_handshake_result;
  ex_packet : list Z
}.

Definition eta_exchange (e : tr_raft_handshake_exchange) : tr_raft_handshake_exchange :=
  Exchange (ex_local e) (ex_authenticated_peer_node_id e) (ex_state e) (ex_result e)
    (ex_packet e).
#[export] Instance set_ex_state : Setter ex_state := ltac:(setter eta_exchange ex_state).
#[export] Instance set_ex_result : Setter ex_result := ltac:(setter eta_exchange ex_result).
#[export] Instance set_ex_packet : Setter ex_packet := ltac:(setter eta_exchange ex_packet).

(** ** Messages

    [tr_raft_handshake_read_u16], [_read_u32], [_read_u64], [_write_u16] and
    [_write_u32] are the words of [Bytes]; [_write_u64] fills its bytes from
    the last one. *)

(** The bytes already written are [output], those after the next one. *)
Fixpoint handshake_write_loop (count : nat) (value : Z) (output : list Z) : list Z :=
  match count with
  | O => output
  | S count => handshake_write_loop count (Z.shiftr value 8) (u8 value :: output)
  end.

Definition tr_raft_handshake_write_u64 (value : Z) : list Z := handshake_write_loop 8 value [].
#[global] Arguments tr_raft_handshake_write_u64 : simpl never.

Definition tr_raft_handshake_bytes_nonzero (bytes : list Z) : bool :=
  existsb (fun byte => negb (byte =? 0)) bytes.

Definition tr_raft_handshake_message_validate (m : tr_raft_handshake_message) : status :=
  if (negb (hm_type m =? TR_RAFT_HANDSHAKE_HELLO) &&
      negb (hm_type m =? TR_RAFT_HANDSHAKE_HELLO_ACK)) ||
     (hm_wire_major_min m =? 0) ||
     (hm_wire_major_max m <? hm_wire_major_min m) ||
     (hm_wire_minor_max m <? hm_wire_minor_min m) ||
     negb (hm_wire_major_min m =? TR_RAFT_HANDSHAKE_WIRE_MAJOR) ||
     negb (hm_wire_major_max m =? TR_RAFT_HANDSHAKE_WIRE_MAJOR) ||
     negb (hm_wire_minor_min m =? TR_RAFT_HANDSHAKE_WIRE_MINOR) ||
     negb (hm_wire_minor_max m =? TR_RAFT_HANDSHAKE_WIRE_MINOR) ||
     negb (hm_feature_bits m =? 0) ||
     negb (tr_raft_handshake_bytes_nonzero (hm_cluster_id m)) ||
     (hm_node_id m =? 0) ||
     negb (tr_raft_handshake_bytes_nonzero (hm_process_incarnation m)) ||
     (hm_max_frame_size m <? TR_RAFT_WIRE_MAX_FRAME_SIZE) ||
     (hm_max_snapshot_chunk_size m <? TR_RAFT_WIRE_MAX_SNAPSHOT_CHUNK_BYTES)
  then SALTS_EPROTO
  else if (hm_type m =? TR_RAFT_HANDSHAKE_HELLO_ACK) &&
          (negb (hm_wire_major_min m =? hm_wire_major_max m) ||
           negb (hm_wire_minor_min m =? hm_wire_minor_max m))
  then SALTS_EPROTO
  else SALTS_OK.

(** The HELLO that both [tr_raft_handshake_config_validate] and
    [tr_raft_handshake_make_hello] fill in. *)
Definition hello_of_config (config : tr_raft_handshake_config) : tr_raft_handshake_message :=
  HandshakeMessage TR_RAFT_HANDSHAKE_HELLO (hc_wire_major_min config)
    (hc_wire_major_max config) (hc_wire_minor_min config) (hc_wire_minor_max config)
    (hc_feature_bits config) (hc_cluster_id config) (hc_local_node_id config)
    (hc_process_incarnation config) (hc_config_epoch config) (hc_max_frame_size config)
    (hc_max_snapshot_chunk_size config).

Definition tr_raft_handshake_config_validate (config : tr_raft_handshake_config) : status :=
  tr_raft_handshake_message_validate (hello_of_config config).

Definition tr_raft_handshake_make_hello (config : tr_raft_handshake_config)
    : status * option tr_raft_handshake_message :=
  match tr_raft_handshake_config_validate config with
  | SALTS_OK => (SALTS_OK, Some (hello_of_config config))
  | result => (result, None)
  end.

(** The length, the 80 bytes of the fields and the four reserved bytes, which
    the [memset] cleared. *)
Definition tr_raft_handshake_encode (m : tr_raft_handshake_message) (output_capacity : Z)
    : status * option (list Z) :=
  if output_capacity <? Z.of_nat TR_RAFT_HANDSHAKE_PACKET_SIZE then (SALTS_EINVAL, None)
  else
    match tr_raft_handshake_message_validate m with
    | SALTS_OK =>
        (SALTS_OK,
         Some (tr_put_u32 TR_RAFT_HANDSHAKE_RECORD_SIZE ++
               tr_raft_handshake_magic ++ tr_put_u16 TR_RAFT_HANDSHAKE_FORMAT_VERSION ++
               tr_put_u16 (hm_type m mod 2 ^ 16) ++
               tr_put_u16 (hm_wire_major_min m) ++ tr_put_u16 (hm_wire_major_max m) ++
               tr_put_u16 (hm_wire_minor_min m) ++ tr_put_u16 (hm_wire_minor_max m) ++
               tr_raft_handshake_write_u64 (hm_feature_bits m) ++ hm_cluster_id m ++
               tr_raft_handshake_write_u64 (hm_node_id m) ++ hm_process_incarnation m ++
               tr_raft_handshake_write_u64 (hm_config_epoch m) ++
               tr_put_u32 (hm_max_frame_size m) ++
               tr_put_u32 (hm_max_snapshot_chunk_size m) ++ replicate 4 0))
    | result => (result, None)
    end.

Definition tr_raft_handshake_decode (packet : list Z)
    : status * option tr_raft_handshake_message :=
  if negb (length packet =? TR_RAFT_HANDSHAKE_PACKET_SIZE)%nat ||
     negb (tr_get_u32 packet =? TR_RAFT_HANDSHAKE_RECORD_SIZE)
  then (SALTS_EPROTO, None)
  else
    let record := drop TR_RAFT_HANDSHAKE_LENGTH_PREFIX_SIZE packet in
    if negb (bool_decide (take 4 record = tr_raft_handshake_magic)) ||
       negb (tr_get_u16 (drop 4 record) =? TR_RAFT_HANDSHAKE_FORMAT_VERSION) ||
       negb (tr_get_u32 (drop 80 record) =? 0)
    then (SALTS_EPROTO, None)
    else
      let m := HandshakeMessage (tr_get_u16 (drop 6 record)) (tr_get_u16 (drop 8 record))
                 (tr_get_u16 (drop 10 record)) (tr_get_u16 (drop 12 record))
                 (tr_get_u16 (drop 14 record)) (tr_get_u64 (drop 16 record))
                 (take 16 (drop 24 record)) (tr_get_u64 (drop 40 record))
                 (take 16 (drop 48 record)) (tr_get_u64 (drop 64 record))
                 (tr_get_u32 (drop 72 record)) (tr_get_u32 (drop 76 record)) in
      match tr_raft_handshake_message_validate m with
      | SALTS_OK => (SALTS_OK, Some m)
      | result => (result, None)
      end.

(** ** Negotiation *)

(** The local acknowledgement and the result. *)
Definition tr_raft_handshake_negotiate (local : tr_raft_handshake_config)
    (authenticated_peer_node_id : Z) (remote_hello : tr_raft_handshake_message)
    : status * option (tr_raft_handshake_message * tr_raft_handshake_result) :=
  if authenticated_peer_node_id =? 0 then (SALTS_EINVAL, None)
  else
    match tr_raft_handshake_config_validate local with
    | SALTS_OK =>
        if failed (tr_raft_handshake_message_validate remote_hello) ||
           negb (hm_type remote_hello =? TR_RAFT_HANDSHAKE_HELLO) ||
           negb (hm_node_id remote_hello =? authenticated_peer_node_id) ||
           (hm_node_id remote_hello =? hc_local_node_id local) ||
           negb (bool_decide (hm_cluster_id remote_hello = hc_cluster_id local))
        then (SALTS_EPROTO, None)
        else
          let major_min := if hm_wire_major_min remote_hello <? hc_wire_major_min local
                           then hc_wire_major_min local else hm_wire_major_min remote_hello in
          let major_max := if hc_wire_major_max local <? hm_wire_major_max remote_hello
                           then hc_wire_major_max local else hm_wire_major_max remote_hello in
          let minor_min := if hm_wire_minor_min remote_hello <? hc_wire_minor_min local
                           then hc_wire_minor_min local else hm_wire_minor_min remote_hello in
          let minor_max := if hc_wire_minor_max local <? hm_wire_minor_max remote_hello
                           then hc_wire_minor_max local else hm_wire_minor_max remote_hello in
          if (major_max <? major_min) || (minor_max <? minor_min)
          then (SALTS_EPROTONOSUPPORT, None)
          else
            let r := HandshakeResult false (hc_cluster_id local) (hc_local_node_id local)
                       (hm_node_id remote_hello) (hm_process_incarnation remote_hello)
                       (hm_config_epoch remote_hello)
                       (Z.land (hc_feature_bits local) (hm_feature_bits remote_hello))
                       major_max minor_max
                       (if hc_max_frame_size local <? hm_max_frame_size remote_hello
                        then hc_max_frame_size local else hm_max_frame_size remote_hello)
                       (if hc_max_snapshot_chunk_size local <?
                           hm_max_snapshot_chunk_size remote_hello
                        then hc_max_snapshot_chunk_size local
                        else hm_max_snapshot_chunk_size remote_hello) in
            (SALTS_OK,
             Some (HandshakeMessage TR_RAFT_HANDSHAKE_HELLO_ACK (hr_wire_major r)
                     (hr_wire_major r) (hr_wire_minor r) (hr_wire_minor r)
                     (hr_feature_bits r) (hc_cluster_id local) (hc_local_node_id local)
                     (hc_process_incarnation local) (hc_config_epoch local)
                     (hr_max_frame_size r) (hr_max_snapshot_chunk_size r), r))
    | result => (result, None)
    end.

Definition result_completed (r : tr_raft_handshake_result) : tr_raft_handshake_result :=
  HandshakeResult true (hr_cluster_id r) (hr_local_node_id r) (hr_peer_node_id r)
    (hr_peer_process_incarnation r) (hr_peer_config_epoch r) (hr_feature_bits r)
    (hr_wire_major r) (hr_wire_minor r) (hr_max_frame_size r) (hr_max_snapshot_chunk_size r).

Definition tr_raft_handshake_validate_ack (r : tr_raft_handshake_result)
    (remote_ack : tr_raft_handshake_message) : status * tr_raft_handshake_result :=
  if hr_complete r then (SALTS_EINVAL, r)
  else if failed (tr_raft_handshake_message_validate remote_ack) ||
          negb (hm_type remote_ack =? TR_RAFT_HANDSHAKE_HELLO_ACK) ||
          negb (hm_node_id remote_ack =? hr_peer_node_id r) ||
          negb (bool_decide (hm_cluster_id remote_ack = hr_cluster_id r)) ||
          negb (bool_decide (hm_process_incarnation remote_ack =
                             hr_peer_process_incarnation r)) ||
          negb (hm_config_epoch remote_ack =? hr_peer_config_epoch r) ||
          negb (hm_wire_major_min remote_ack =? hr_wire_major r) ||
          negb (hm_wire_minor_min remote_ack =? hr_wire_minor r) ||
          negb (hm_feature_bits remote_ack =? hr_feature_bits r) ||
          negb (hm_max_frame_size remote_ack =? hr_max_frame_size r) ||
          negb (hm_max_snapshot_chunk_size remote_ack =? hr_max_snapshot_chunk_size r)
  then (SALTS_EPROTO, r)
  else (SALTS_OK, result_completed r).

Definition tr_raft_handshake_result_validate (r : tr_raft_handshake_result)
    (cluster_id : list Z) (local_node_id peer_node_id : Z) : status :=
  if negb (hr_complete r) || negb (hr_local_node_id r =? local_node_id) ||
     negb (hr_peer_node_id r =? peer_node_id) ||
     negb (bool_decide (hr_cluster_id r = cluster_id)) ||
     negb (tr_raft_handshake_bytes_nonzero (hr_peer_process_incarnation r))
  then SALTS_EPROTO
  else if negb (hr_feature_bits r =? 0) ||
          negb (hr_wire_major r =? TR_RAFT_HANDSHAKE_WIRE_MAJOR) ||
          negb (hr_wire_minor r =? TR_RAFT_HANDSHAKE_WIRE_MINOR) ||
          (hr_max_frame_size r <? TR_RAFT_WIRE_MAX_FRAME_SIZE) ||
          (hr_max_snapshot_chunk_size r <? TR_RAFT_WIRE_MAX_SNAPSHOT_CHUNK_BYTES)
  then SALTS_EPROTONOSUPPORT
  else SALTS_OK.

(** ** The exchange

    [tr_raft_handshake_exchange_create], with what [calloc] returns. *)

Definition zero_result : tr_raft_handshake_result :=
  HandshakeResult false (replicate 16 0) 0 0 (replicate 16 0) 0 0 0 0 0 0.

Definition tr_raft_handshake_exchange_create (local : tr_raft_handshake_config)
    (authenticated_peer_node_id : Z) (allocated : bool)
    : status * option tr_raft_handshake_exchange :=
  if authenticated_peer_node_id =? 0 then (SALTS_EINVAL, None)
  else
    match tr_raft_handshake_config_validate local with
    | SALTS_OK =>
        if authenticated_peer_node_id =? hc_local_node_id local then (SALTS_EPROTO, None)
        else if negb allocated then (SALTS_ENOMEM, None)
        else (SALTS_OK, Some (Exchange local authenticated_peer_node_id
                                TR_RAFT_HANDSHAKE_EXCHANGE_NEW zero_result []))
    | result => (result, None)
    end.

Definition tr_raft_handshake_exchange_fault (e : tr_raft_handshake_exchange)
    : tr_raft_handshake_exchange :=
  e <| ex_state := TR_RAFT_HANDSHAKE_EXCHANGE_FAULTED |>.

Definition tr_raft_handshake_exchange_start (e : tr_raft_handshake_exchange)
    (output_capacity : Z) : status * tr_raft_handshake_exchange * option (list Z) :=
  match ex_state e with
  | TR_RAFT_HANDSHAKE_EXCHANGE_NEW =>
      let '(result, output) :=
        match tr_raft_handshake_make_hello (ex_local e) with
        | (SALTS_OK, Some hello) => tr_raft_handshake_encode hello output_capacity
        | (result, _) => (result, None)
        end in
      match result with
      | SALTS_OK =>
          (SALTS_OK, e <| ex_state := TR_RAFT_HANDSHAKE_EXCHANGE_WAIT_HELLO |>, output)
      | _ => (result, tr_raft_handshake_exchange_fault e, None)
      end
  | _ => (SALTS_EPROTO, e, None)
  end.

(** The block that handles a complete packet; the last component is the
    output it writes, if any. *)
Definition exchange_packet (e : tr_raft_handshake_exchange) (output_capacity : Z)
    : status * tr_raft_handshake_exchange * option (list Z) :=
  match tr_raft_handshake_decode (ex_packet e) with
  | (SALTS_OK, Some message) =>
      let e := e <| ex_packet := [] |> in
      match ex_state e with
      | TR_RAFT_HANDSHAKE_EXCHANGE_WAIT_HELLO =>
          match tr_raft_handshake_negotiate (ex_local e) (ex_authenticated_peer_node_id e)
                  message with
          | (SALTS_OK, Some (ack, r)) =>
              let e := e <| ex_result := r |> in
              match tr_raft_handshake_encode ack output_capacity with
              | (SALTS_OK, output) =>
                  (SALTS_OK, e <| ex_state := TR_RAFT_HANDSHAKE_EXCHANGE_WAIT_ACK |>, output)
              | (result, _) => (result, tr_raft_handshake_exchange_fault e, None)
              end
          | (result, _) => (result, tr_raft_handshake_exchange_fault e, None)
          end
      | _ =>
          match tr_raft_handshake_validate_ack (ex_result e) message with
          | (SALTS_OK, r) =>
              (SALTS_OK,
               e <| ex_result := r |> <| ex_state := TR_RAFT_HANDSHAKE_EXCHANGE_COMPLETE |>,
               None)
          | (result, _) => (result, tr_raft_handshake_exchange_fault e, None)
          end
      end
  | (result, _) => (result, tr_raft_handshake_exchange_fault e, None)
  end.

(** The [while] loop: [data] is what is left to read and [output] what
    [*output_size] bytes of the output hold. It returns the status, the
    exchange, the data not consumed and the output. *)
Fixpoint exchange_loop (fuel : nat) (e : tr_raft_handshake_exchange) (data : list Z)
    (output_capacity : Z) (output : list Z)
    : status * tr_raft_handshake_exchange * list Z * list Z :=
  match fuel with
  | O => (SALTS_OK, e, data, output)
  | S fuel =>
      match data, ex_state e with
      | [], _ | _, TR_RAFT_HANDSHAKE_EXCHANGE_COMPLETE => (SALTS_OK, e, data, output)
      | _, _ =>
          let required := (TR_RAFT_HANDSHAKE_PACKET_SIZE - length (ex_packet e))%nat in
          let copied := Nat.min required (length data) in
          let e := e <| ex_packet := ex_packet e ++ take copied data |> in
          let data := drop copied data in
          if (TR_RAFT_HANDSHAKE_LENGTH_PREFIX_SIZE <=? length (ex_packet e))%nat &&
             negb (tr_get_u32 (ex_packet e) =? TR_RAFT_HANDSHAKE_RECORD_SIZE)
          then (SALTS_EPROTO, tr_raft_handshake_exchange_fault e, data, output)
          else if negb (length (ex_packet e) =? TR_RAFT_HANDSHAKE_PACKET_SIZE)%nat
          then exchange_loop fuel e data output_capacity output
          else
            match exchange_packet e output_capacity with
            | (SALTS_OK, e, written) =>
                exchange_loop fuel e data output_capacity (default output written)
            | (result, e, written) => (result, e, data, default output written)
            end
      end
  end.

(** An iteration reads at least one byte. *)
Definition tr_raft_handshake_exchange_feed (e : tr_raft_handshake_exchange) (data : list Z)
    (output_capacity : Z) : status * tr_raft_handshake_exchange * list Z * list Z :=
  if output_capacity <? Z.of_nat TR_RAFT_HANDSHAKE_PACKET_SIZE
  then (SALTS_EINVAL, e, data, [])
  else
    match ex_state e with
    | TR_RAFT_HANDSHAKE_EXCHANGE_WAIT_HELLO | TR_RAFT_HANDSHAKE_EXCHANGE_WAIT_ACK =>
        exchange_loop (length data) e data output_capacity []
    | _ => (SALTS_EPROTO, e, data, [])
    end.

Definition tr_raft_handshake_exchange_get_result (e : tr_raft_handshake_exchange)
    : status * option tr_raft_handshake_result :=
  match ex_state e with
  | TR_RAFT_HANDSHAKE_EXCHANGE_COMPLETE =>
      if hr_complete (ex_result e) then (SALTS_OK, Some (ex_result e)) else (SALTS_EPROTO, None)
  | _ => (SALTS_EPROTO, None)
  end.

(** ** Packets *)

Record handshake_message_wf (m : tr_raft_handshake_message) : Prop := {
  hmw_type : 0 <= hm_type m < 2 ^ 16;
  hmw_feature_bits : is_u64 (hm_feature_bits m);
  hmw_cluster_id : bytes_of 16 (hm_cluster_id m);
  hmw_node_id : is_u64 (hm_node_id m);
  hmw_process : bytes_of 16 (hm_process_incarnation m);
  hmw_epoch : is_u64 (hm_config_epoch m);
  hmw_frame : 0 <= hm_max_frame_size m < 2 ^ 32;
  hmw_chunk : 0 <= hm_max_snapshot_chunk_size m < 2 ^ 32
}.

Definition handshake_packet (m : tr_raft_handshake_message) : list Z :=
  tr_put_u32 TR_RAFT_HANDSHAKE_RECORD_SIZE ++
  tr_raft_handshake_magic ++ tr_put_u16 TR_RAFT_HANDSHAKE_FORMAT_VERSION ++
  tr_put_u16 (hm_type m) ++
  tr_put_u16 (hm_wire_major_min m) ++ tr_put_u16 (hm_wire_major_max m) ++
  tr_put_u16 (hm_wire_minor_min m) ++ tr_put_u16 (hm_wire_minor_max m) ++
  tr_put_u64 (hm_feature_bits m) ++ hm_cluster_id m ++
  tr_put_u64 (hm_node_id m) ++ hm_process_incarnation m ++
  tr_put_u64 (hm_config_epoch m) ++ tr_put_u32 (hm_max_frame_size m) ++
  tr_put_u32 (hm_max_snapshot_chunk_size m) ++ replicate 4 0.

Lemma write_u64_put v : 0 <= v -> tr_raft_handshake_write_u64 v = tr_put_u64 v.
Proof.
  intros Hv. transitivity (put_u64_loop 8 v []); [|symmetry; by apply put_u64_be].
  unfold tr_raft_handshake_write_u64. generalize (@nil Z). clear Hv. revert v. generalize 8%nat.
  induction n as [|n IH]; intros v output; [done|]. cbn. rewrite IH. do 2 f_equal.
  unfold u8. change 255 with (Z.ones 8). rewrite Z.land_ones by lia. by rewrite Zmod_mod.
Qed.

(** What [tr_raft_handshake_message_validate] says. *)
Lemma message_validate_spec m :
  tr_raft_handshake_message_validate m = SALTS_OK ->
  hm_wire_major_min m = 1 /\ hm_wire_major_max m = 1 /\ hm_wire_minor_min m = 0 /\
  hm_wire_minor_max m = 0 /\ hm_feature_bits m = 0 /\ hm_node_id m <> 0 /\
  TR_RAFT_WIRE_MAX_FRAME_SIZE <= hm_max_frame_size m /\
  TR_RAFT_WIRE_MAX_SNAPSHOT_CHUNK_BYTES <= hm_max_snapshot_chunk_size m /\
  tr_raft_handshake_bytes_nonzero (hm_cluster_id m) = true /\
  tr_raft_handshake_bytes_nonzero (hm_process_incarnation m) = true.
Proof.
  unfold tr_raft_handshake_message_validate, TR_RAFT_HANDSHAKE_WIRE_MAJOR,
    TR_RAFT_HANDSHAKE_WIRE_MINOR.
  destruct (_ || _) eqn:Hg; [done|]. intros _. bprop. intuition lia.
Qed.

Lemma encode_packet m capacity :
  handshake_message_wf m -> tr_raft_handshake_message_validate m = SALTS_OK -> 88 <= capacity ->
  tr_raft_handshake_encode m capacity = (SALTS_OK, Some (handshake_packet m)).
Proof.
  intros Hm Hv Hc. unfold tr_raft_handshake_encode, TR_RAFT_HANDSHAKE_PACKET_SIZE.
  replace (capacity <? _) with false by blia. rewrite Hv. destruct Hm.
  rewrite Z.mod_small, !write_u64_put by (done || (unfold is_u64 in *; lia)). done.
Qed.

Lemma length_packet m : handshake_message_wf m -> length (handshake_packet m) = 88%nat.
Proof.
  intros Hm. destruct (hmw_cluster_id _ Hm) as [Hc _], (hmw_process _ Hm) as [Hp _].
  unfold handshake_packet. wire_len. rewrite length_replicate. done.
Qed.

Lemma packet_prefix m :
  handshake_message_wf m -> tr_get_u32 (handshake_packet m) = TR_RAFT_HANDSHAKE_RECORD_SIZE.
Proof. intros _. unfold handshake_packet. by apply get_put_u32. Qed.

Lemma packet_fields m :
  handshake_message_wf m -> tr_raft_handshake_message_validate m = SALTS_OK ->
  let record := drop 4 (handshake_packet m) in
  take 4 record = tr_raft_handshake_magic /\
  tr_get_u16 (drop 4 record) = TR_RAFT_HANDSHAKE_FORMAT_VERSION /\
  tr_get_u32 (drop 80 record) = 0 /\
  HandshakeMessage (tr_get_u16 (drop 6 record)) (tr_get_u16 (drop 8 record))
    (tr_get_u16 (drop 10 record)) (tr_get_u16 (drop 12 record))
    (tr_get_u16 (drop 14 record)) (tr_get_u64 (drop 16 record))
    (take 16 (drop 24 record)) (tr_get_u64 (drop 40 record))
    (take 16 (drop 48 record)) (tr_get_u64 (drop 64 record))
    (tr_get_u32 (drop 72 record)) (tr_get_u32 (drop 76 record)) = m.
Proof.
  intros Hm Hv. pose proof (message_validate_spec m Hv) as (H1 & H2 & H3 & H4 & _).
  destruct Hm as [Ht Hf [Hc Hcb] Hn [Hp Hpb] He Hfr Hch]. cbv zeta.
  unfold handshake_packet, tr_raft_handshake_magic. rewrite drop_app_length' by done.
  split; [done|]. split; [seek; by apply get_put_u16|]. split; [by seek|].
  destruct m as [ty mi ma ni na fb cl no pr ep fr ch]. cbn in *. f_equal; seek;
    try (apply get_put_u16; lia); try (apply get_put_u32; lia); try (by apply get_put_u64_be).
  - rewrite <- Hc at 1. apply take_field.
  - rewrite <- Hp at 1. apply take_field.
Qed.

Lemma decode_packet m :
  handshake_message_wf m -> tr_raft_handshake_message_validate m = SALTS_OK ->
  tr_raft_handshake_decode (handshake_packet m) = (SALTS_OK, Some m).
Proof.
  intros Hm Hv. destruct (packet_fields m Hm Hv) as (H1 & H2 & H3 & H4).
  unfold tr_raft_handshake_decode. rewrite packet_prefix, length_packet by done.
  cbn [negb orb Nat.eqb TR_RAFT_HANDSHAKE_PACKET_SIZE]. rewrite Z.eqb_refl.
  unfold TR_RAFT_HANDSHAKE_LENGTH_PREFIX_SIZE. rewrite H1, H2, H3, H4, Hv.
  by rewrite bool_decide_true.
Qed.

(** ** Reading byte by byte

    [byte_run] reads one byte at a time and never fails; the loop reads as much
    as it can at once, with the same outcome. *)

Section Run.
Context (capacity : Z).

Definition exchange_byte (e : tr_raft_handshake_exchange) (b : Z)
    : status * tr_raft_handshake_exchange * option (list Z) :=
  let e := e <| ex_packet := ex_packet e ++ [b] |> in
  if (4 <=? length (ex_packet e))%nat && negb (tr_get_u32 (ex_packet e) =? 84)
  then (SALTS_EPROTO, tr_raft_handshake_exchange_fault e, None)
  else if negb (length (ex_packet e) =? 88)%nat then (SALTS_OK, e, None)
  else exchange_packet e capacity.

Definition last_write (w1 w2 : option (list Z)) : option (list Z) :=
  match w2 with Some _ => w2 | None => w1 end.

Inductive byte_run : tr_raft_handshake_exchange -> list Z -> tr_raft_handshake_exchange ->
    option (list Z) -> Prop :=
| run_nil e : byte_run e [] e None
| run_cons e b data e1 e' w1 w2 :
    ex_state e <> TR_RAFT_HANDSHAKE_EXCHANGE_COMPLETE ->
    exchange_byte e b = (SALTS_OK, e1, w1) -> byte_run e1 data e' w2 ->
    byte_run e (b :: data) e' (last_write w1 w2).

Lemma get_u32_app (l rest : list Z) :
  (4 <= length l)%nat -> tr_get_u32 (l ++ rest) = tr_get_u32 l.
Proof.
  destruct l as [|a [|b [|c [|d l]]]]; cbn [length]; try lia. done.
Qed.

Lemma run_app e a b e' w :
  byte_run e (a ++ b) e' w <->
  exists e1 w1 w2, byte_run e a e1 w1 /\ byte_run e1 b e' w2 /\ w = last_write w1 w2.
Proof.
  revert e w. induction a as [|x a IH]; intros e w; cbn [app].
  - split.
    + intros Hr. exists e, None, w. split; [constructor|]. split; [done|]. by destruct w.
    + intros (e1 & w1 & w2 & H1 & H2 & ->). inversion H1; subst. by destruct w2.
  - split.
    + inversion 1 as [|? ? ? e1 ? w1 w2 Hs Hb Hr]; subst.
      apply IH in Hr as (e2 & v1 & v2 & R1 & R2 & ->). exists e2, (last_write w1 v1), v2.
      split; [by econstructor|]. split; [done|]. by destruct v2.
    + intros (e1 & w1 & w2 & H1 & H2 & ->). inversion H1 as [|? ? ? e2 ? v1 v2 Hs Hb Hr]; subst.
      replace (last_write (last_write v1 v2) w2) with (last_write v1 (last_write v2 w2))
        by (by destruct w2).
      econstructor; [done|done|]. apply IH. eauto 10.
Qed.

(** Bytes that do not complete a packet are stored. *)
Lemma run_store e l e' w :
  byte_run e l e' w -> (length (ex_packet e) + length l < 88)%nat ->
  e' = e <| ex_packet := ex_packet e ++ l |> /\ w = None /\
  (l <> [] -> (4 <= length (ex_packet e) + length l)%nat ->
   tr_get_u32 (ex_packet e ++ l) = 84).
Proof.
  induction 1 as [e|e b data e1 e' w1 w2 Hs Hb Hr IH]; intros Hlen.
  - rewrite app_nil_r. split; [by destruct e|]. done.
  - unfold exchange_byte in Hb. cbn [ex_packet set_field set_ex_packet length] in *.
    rewrite length_app in Hb. cbn [length] in Hb.
    destruct ((4 <=? _)%nat && _) eqn:Hg in Hb; [done|].
    replace (_ =? 88)%nat with false in Hb by (symmetry; apply Nat.eqb_neq; lia).
    cbn [negb] in Hb. injection Hb as <- <-.
    cbn [ex_packet set_field set_ex_packet] in *. rewrite length_app in IH. cbn [length] in IH.
    destruct IH as (-> & -> & Hu); [lia|]. cbn. rewrite <- (assoc_L (++)) in *.
    split; [done|]. split; [done|]. intros _ H4. destruct data as [|x data].
    + apply andb_false_iff in Hg as [Hg|Hg]; [apply Nat.leb_gt in Hg; cbn in *; lia|].
      apply negb_false_iff in Hg. by apply Z.eqb_eq in Hg.
    + apply Hu; [done|]. cbn in *. lia.
Qed.

(** Bytes that complete a packet have it handled. *)
Lemma run_packet e l e' w :
  byte_run e l e' w -> (length (ex_packet e) < 88)%nat ->
  (length (ex_packet e) + length l = 88)%nat ->
  tr_get_u32 (ex_packet e ++ l) = 84 /\
  exchange_packet (e <| ex_packet := ex_packet e ++ l |>) capacity = (SALTS_OK, e', w).
Proof.
  intros Hr Hlt Hlen. destruct l as [|b l] using rev_ind; [cbn in *; lia|]. clear IHl.
  rewrite length_app in Hlen. cbn [length] in Hlen.
  apply run_app in Hr as (e1 & w1 & w2 & R1 & R2 & ->).
  apply run_store in R1 as (-> & -> & _); [|lia].
  inversion R2 as [|? ? ? e2 ? v1 v2 Hs Hb Hn]; subst. inversion Hn; subst.
  unfold exchange_byte in Hb. cbn [ex_packet set_field set_ex_packet] in Hb.
  rewrite <- (assoc_L (++)) in Hb. rewrite !length_app in Hb. cbn [length] in Hb.
  replace (_ =? 88)%nat with true in Hb by (symmetry; apply Nat.eqb_eq; lia).
  replace (4 <=? _)%nat with true in Hb by (symmetry; apply Nat.leb_le; lia).
  destruct (tr_get_u32 _ =? 84) eqn:Hu; [|done]. cbn [andb negb] in Hb.
  split; [lia|]. by destruct v1.
Qed.

Lemma decode_some packet : tr_raft_handshake_decode packet <> (SALTS_OK, None).
Proof. unfold tr_raft_handshake_decode. by repeat case_match. Qed.

Lemma negotiate_some local peer hello :
  tr_raft_handshake_negotiate local peer hello <> (SALTS_OK, None).
Proof.
  unfold tr_raft_handshake_negotiate. destruct (_ =? 0); [done|].
  destruct (tr_raft_handshake_config_validate local); [|done].
  by destruct (_ || _); [|destruct (_ || _)].
Qed.

Lemma exchange_packet_reset e e' w :
  exchange_packet e capacity = (SALTS_OK, e', w) -> ex_packet e' = [].
Proof.
  unfold exchange_packet.
  pose proof (decode_some (ex_packet e)).
  destruct (tr_raft_handshake_decode _) as [[|] [m|]]; try done.
  destruct (ex_state _) eqn:Hs;
    try (destruct (tr_raft_handshake_validate_ack _ _) as [[|] ?]; [by intros [= <- <-]|done]).
  destruct (tr_raft_handshake_negotiate _ _ _) as [[|] [[? ?]|]] eqn:Hn; try done;
    [|by apply negotiate_some in Hn].
  destruct (tr_raft_handshake_encode _ _) as [[|] ?]; [by intros [= <- <-]|done].
Qed.

Lemma loop_run fuel e data e' w output :
  byte_run e data e' w -> (length (ex_packet e) < 88)%nat -> (length data <= fuel)%nat ->
  exchange_loop fuel e data capacity output = (SALTS_OK, e', [], default output w).
Proof.
  revert e data e' w output. induction fuel as [|fuel IH]; intros e data e' w output Hr Hp Hf.
  { destruct data; [|cbn in Hf; lia]. by inversion Hr. }
  destruct data as [|b data]; [by inversion Hr|]. cbn [exchange_loop].
  assert (ex_state e <> TR_RAFT_HANDSHAKE_EXCHANGE_COMPLETE) as Hs by (by inversion Hr).
  set (copied := Nat.min _ _).
  assert (forall A (x y : A), match ex_state e with
    | TR_RAFT_HANDSHAKE_EXCHANGE_COMPLETE => x | _ => y end = y) as -> by (by destruct (ex_state e)).
  unfold TR_RAFT_HANDSHAKE_PACKET_SIZE in copied. cbn [ex_packet set_field set_ex_packet].
  set (l := take copied (b :: data)) in *. set (rest := drop copied (b :: data)).
  assert (length l = copied) as Hl by (unfold l; rewrite length_take; lia).
  assert (length rest = length (b :: data) - copied)%nat as Hrest by apply length_drop.
  rewrite <- (take_drop copied (b :: data)) in Hr. fold l rest in Hr.
  apply run_app in Hr as (e1 & w1 & w2 & R1 & R2 & ->). cbn [length] in *.
  destruct (decide (length (ex_packet e) + copied < 88)%nat) as [Hshort|Hfull].
  - apply run_store in R1 as (-> & -> & Hu); [|lia].
    assert (rest = []) as Hnil by (apply nil_length_inv; lia). rewrite Hnil in *.
    destruct ((TR_RAFT_HANDSHAKE_LENGTH_PREFIX_SIZE <=? _)%nat && _) eqn:Hg.
    { apply andb_true_iff in Hg as [H4%Nat.leb_le Hn]. rewrite length_app in H4.
      rewrite Hu in Hn; [done| |unfold TR_RAFT_HANDSHAKE_LENGTH_PREFIX_SIZE in H4; lia].
      intros El. rewrite El in Hl. cbn in Hl. lia. }
    rewrite length_app. replace (_ =? _)%nat with false
      by (symmetry; apply Nat.eqb_neq; unfold TR_RAFT_HANDSHAKE_PACKET_SIZE; lia).
    cbn [negb]. rewrite (IH _ _ _ _ _ R2); [by inversion R2| |cbn; lia].
    cbn. rewrite length_app. lia.
  - apply run_packet in R1 as (Hu & Hx); [|lia|lia]. rewrite Hu. unfold TR_RAFT_HANDSHAKE_RECORD_SIZE.
    rewrite Z.eqb_refl, andb_false_r. rewrite length_app. replace (_ =? _)%nat with true
      by (symmetry; apply Nat.eqb_eq; unfold TR_RAFT_HANDSHAKE_PACKET_SIZE; lia). cbn [negb].
    rewrite Hx. rewrite (IH _ _ _ _ _ R2); [by destruct w2| |lia].
    rewrite (exchange_packet_reset _ _ _ Hx). cbn. lia.
Qed.

Lemma run_length e data e' w :
  byte_run e data e' w -> (length (ex_packet e) < 88)%nat -> (length (ex_packet e') < 88)%nat.
Proof.
  induction 1 as [e|e b data e1 e' w1 w2 Hs Hb Hr IH]; intros Hp; [done|]. apply IH. clear IH.
  unfold exchange_byte in Hb. destruct (_ && _); [done|].
  destruct (negb _) eqn:Hn; [|by rewrite (exchange_packet_reset _ _ _ Hb); cbn; lia].
  injection Hb as <- _. apply negb_true_iff, Nat.eqb_neq in Hn.
  cbn [ex_packet set_field set_ex_packet] in *. rewrite length_app in *. cbn in *. lia.
Qed.

(** A whole packet is read and handled. *)
Lemma run_full_packet e l e' w :
  ex_state e <> TR_RAFT_HANDSHAKE_EXCHANGE_COMPLETE -> l <> [] ->
  (length (ex_packet e) + length l = 88)%nat -> tr_get_u32 (ex_packet e ++ l) = 84 ->
  exchange_packet (e <| ex_packet := ex_packet e ++ l |>) capacity = (SALTS_OK, e', w) ->
  byte_run e l e' w.
Proof.
  revert e. induction l as [|b l IH]; intros e Hs Hl Hlen Hu Hx; [done|]. clear Hl.
  cbn [length] in Hlen. change (b :: l) with ([b] ++ l) in Hu, Hx. rewrite (assoc_L (++)) in Hu, Hx.
  destruct l as [|x l].
  - rewrite app_nil_r in Hu, Hx. replace w with (last_write w None) by (by destruct w).
    apply (run_cons e b [] e'); [done| |constructor]. unfold exchange_byte.
    cbn [ex_packet set_field set_ex_packet]. rewrite Hu, length_app. cbn [length] in *.
    replace (_ =? 88)%nat with true by (symmetry; apply Nat.eqb_eq; lia).
    by rewrite Z.eqb_refl, andb_false_r.
  - replace w with (last_write None w) by (by destruct w).
    apply (run_cons e b (x :: l) (e <| ex_packet := ex_packet e ++ [b] |>)); [done| |].
    + unfold exchange_byte. cbn [ex_packet set_field set_ex_packet]. rewrite length_app.
      cbn [length] in *. replace (_ =? 88)%nat with false by (symmetry; apply Nat.eqb_neq; lia).
      destruct (4 <=? _)%nat eqn:H4; cbn [andb negb]; [|done]. apply Nat.leb_le in H4.
      rewrite get_u32_app in Hu by (rewrite length_app; cbn; lia). by rewrite Hu.
    + apply IH; [done|done| |done|done]. cbn. rewrite length_app. cbn in *. lia.
Qed.
End Run.

(** ** Fragments

    A stream arrives in fragments, none of them empty, each passed to
    [tr_raft_handshake_exchange_feed]; the outputs are sent in order. *)

Definition fragments (frags : list (list Z)) (stream : list Z) : Prop :=
  Forall (fun f => f <> []) frags /\ concat frags = stream.

Fixpoint exchange_feed_all (e : tr_raft_handshake_exchange) (frags : list (list Z))
    (capacity : Z) : status * tr_raft_handshake_exchange * list Z :=
  match frags with
  | [] => (SALTS_OK, e, [])
  | f :: frags =>
      match tr_raft_handshake_exchange_feed e f capacity with
      | (SALTS_OK, e, _, output) =>
          let '(result, e, outputs) := exchange_feed_all e frags capacity in
          (result, e, output ++ outputs)
      | (result, e, _, output) => (result, e, output)
      end
  end.

(** How far an exchange that has not failed has come. *)
Definition stage (e : tr_raft_handshake_exchange) : nat :=
  match ex_state e with
  | TR_RAFT_HANDSHAKE_EXCHANGE_WAIT_HELLO => 0
  | TR_RAFT_HANDSHAKE_EXCHANGE_WAIT_ACK => 1
  | TR_RAFT_HANDSHAKE_EXCHANGE_COMPLETE => 2
  | _ => 3
  end.

(** A handled packet moves the exchange on, and only the HELLO is answered. *)
Lemma exchange_packet_stage capacity e e' w :
  (stage e < 2)%nat -> exchange_packet e capacity = (SALTS_OK, e', w) ->
  stage e' = S (stage e) /\ (w <> None -> stage e = 0%nat).
Proof.
  unfold exchange_packet, stage. pose proof (decode_some (ex_packet e)).
  destruct (tr_raft_handshake_decode _) as [[|] [m|]]; try done.
  change (ex_state (e <| ex_packet := [] |>)) with (ex_state e).
  destruct (ex_state e) eqn:Hs; try lia; intros _.
  - destruct (tr_raft_handshake_negotiate _ _ _) as [[|] [[? ?]|]] eqn:Hn; try done;
      [|by apply negotiate_some in Hn].
    destruct (tr_raft_handshake_encode _ _) as [[|] ?]; [|done]. by intros [= <- <-].
  - destruct (tr_raft_handshake_validate_ack _ _) as [[|] ?]; [|done]. by intros [= <- <-].
Qed.

Lemma exchange_byte_stage capacity e b e' w :
  (stage e < 2)%nat -> exchange_byte capacity e b = (SALTS_OK, e', w) ->
  (stage e <= stage e' <= 2)%nat /\ (w <> None -> stage e = 0%nat /\ stage e' = 1%nat).
Proof.
  intros Hw. unfold exchange_byte. destruct (_ && _); [done|]. destruct (negb _).
  - intros [= <- <-]. change (stage (e <| ex_packet := _ |>)) with (stage e). by split; [lia|].
  - intros Hx. apply exchange_packet_stage in Hx; [|exact Hw].
    change (stage (e <| ex_packet := _ |>)) with (stage e) in Hx. destruct Hx as [-> Hn].
    split; [lia|]. intros E. by rewrite (Hn E).
Qed.

Lemma run_stage capacity e data e' w :
  byte_run capacity e data e' w -> (stage e <= 2)%nat ->
  (stage e <= stage e' <= 2)%nat /\ (w <> None -> stage e = 0%nat /\ stage e' <> 0%nat).
Proof.
  induction 1 as [e|e b data e1 e' w1 w2 Hs Hb Hr IH]; intros Hw; [done|].
  assert (stage e < 2)%nat as Hlt.
  { unfold stage in *. destruct (ex_state e); (done || lia). }
  apply exchange_byte_stage in Hb as [H1 H2]; [|done].
  destruct IH as [I1 I2]; [lia|]. split; [lia|]. destruct w2 as [x|]; cbn [last_write].
  - intros _. destruct I2; [done|]. lia.
  - intros E. destruct (H2 E). lia.
Qed.

Lemma feed_all_run capacity e frags e' w :
  88 <= capacity -> byte_run capacity e (concat frags) e' w -> Forall (fun f => f <> []) frags ->
  (length (ex_packet e) < 88)%nat -> (stage e <= 2)%nat ->
  exchange_feed_all e frags capacity = (SALTS_OK, e', default [] w).
Proof.
  intros Hc. revert e w. induction frags as [|f frags IH]; intros e w Hr Hne Hp Hs;
    [by inversion Hr|]. apply Forall_cons_1 in Hne as [Hf Hne]. cbn [concat] in Hr.
  apply run_app in Hr as (e1 & w1 & w2 & R1 & R2 & ->). cbn [exchange_feed_all].
  unfold tr_raft_handshake_exchange_feed, TR_RAFT_HANDSHAKE_PACKET_SIZE.
  replace (capacity <? _) with false by blia. rewrite (loop_run _ _ _ _ _ _ [] R1) by (done || lia).
  assert (ex_state e <> TR_RAFT_HANDSHAKE_EXCHANGE_COMPLETE) as Hnc
    by (destruct f; [done|by inversion R1]).
  destruct (run_stage _ _ _ _ _ R1 Hs) as [S1 W1].
  destruct (run_stage _ _ _ _ _ R2 ltac:(lia)) as [S2 W2].
  assert (default [] w1 ++ default [] w2 = default [] (last_write w1 w2)) as Hout.
  { destruct w2 as [x|]; [|by rewrite app_nil_r]. destruct w1 as [y|]; [|done].
    destruct (W1 ltac:(done)), (W2 ltac:(done)). done. }
  assert (length (ex_packet e1) < 88)%nat as Hp1 by (by eapply run_length).
  unfold stage in Hs at 1. destruct (ex_state e) eqn:E; try done; try lia;
    by rewrite (IH _ _ R2), Hout by (done || lia).
Qed.

(** ** Agreement *)

Record handshake_config_wf (c : tr_raft_handshake_config) : Prop := {
  hcw_message : handshake_message_wf (hello_of_config c);
  hcw_valid : tr_raft_handshake_config_validate c = SALTS_OK
}.

Definition result_of (a b : tr_raft_handshake_config) : tr_raft_handshake_result :=
  HandshakeResult false (hc_cluster_id a) (hc_local_node_id a) (hc_local_node_id b)
    (hc_process_incarnation b) (hc_config_epoch b) 0 1 0
    (Z.min (hc_max_frame_size a) (hc_max_frame_size b))
    (Z.min (hc_max_snapshot_chunk_size a) (hc_max_snapshot_chunk_size b)).

Definition ack_of (a b : tr_raft_handshake_config) : tr_raft_handshake_message :=
  HandshakeMessage TR_RAFT_HANDSHAKE_HELLO_ACK 1 1 0 0 0 (hc_cluster_id a)
    (hc_local_node_id a) (hc_process_incarnation a) (hc_config_epoch a)
    (Z.min (hc_max_frame_size a) (hc_max_frame_size b))
    (Z.min (hc_max_snapshot_chunk_size a) (hc_max_snapshot_chunk_size b)).

Section Agreement.
Context (a b : tr_raft_handshake_config) (capacity : Z).
Context (Ha : handshake_config_wf a) (Hb : handshake_config_wf b).
Context (Hcluster : hc_cluster_id a = hc_cluster_id b).
Context (Hids : hc_local_node_id a <> hc_local_node_id b).
Context (Hcapacity : 88 <= capacity).

Lemma config_spec c :
  handshake_config_wf c ->
  hc_wire_major_min c = 1 /\ hc_wire_major_max c = 1 /\ hc_wire_minor_min c = 0 /\
  hc_wire_minor_max c = 0 /\ hc_feature_bits c = 0 /\ hc_local_node_id c <> 0 /\
  TR_RAFT_WIRE_MAX_FRAME_SIZE <= hc_max_frame_size c /\
  TR_RAFT_WIRE_MAX_SNAPSHOT_CHUNK_BYTES <= hc_max_snapshot_chunk_size c /\
  tr_raft_handshake_bytes_nonzero (hc_cluster_id c) = true /\
  tr_raft_handshake_bytes_nonzero (hc_process_incarnation c) = true.
Proof. intros Hc. apply (message_validate_spec _ (hcw_valid _ Hc)). Qed.

Lemma ack_wf : handshake_message_wf (ack_of a b).
Proof.
  destruct Ha as [[] _], Hb as [[] _]. split; cbn in *; try done; unfold is_u64 in *; lia.
Qed.

Lemma ack_valid : tr_raft_handshake_message_validate (ack_of a b) = SALTS_OK.
Proof.
  destruct (config_spec a Ha) as (_ & _ & _ & _ & _ & A1 & A2 & A3 & A4 & A5).
  destruct (config_spec b Hb) as (_ & _ & _ & _ & _ & _ & B2 & B3 & _ & _).
  unfold tr_raft_handshake_message_validate. cbn [ack_of hm_type hm_wire_major_min
    hm_wire_major_max hm_wire_minor_min hm_wire_minor_max hm_feature_bits hm_cluster_id
    hm_node_id hm_process_incarnation hm_max_frame_size hm_max_snapshot_chunk_size].
  rewrite A4, A5. cbn [Z.eqb negb orb andb]. 
  replace (hc_local_node_id a =? 0) with false by blia.
  replace (Z.min _ _ <? _) with false by blia.
  by replace (Z.min _ _ <? _) with false by blia.
Qed.

Lemma negotiate_result :
  tr_raft_handshake_negotiate a (hc_local_node_id b) (hello_of_config b) =
  (SALTS_OK, Some (ack_of a b, result_of a b)).
Proof.
  destruct (config_spec a Ha) as (A1 & A2 & A3 & A4 & A5 & A6 & _).
  destruct (config_spec b Hb) as (B1 & B2 & B3 & B4 & B5 & B6 & _).
  unfold tr_raft_handshake_negotiate. replace (_ =? 0) with false by blia.
  rewrite (hcw_valid _ Ha). pose proof (hcw_valid _ Hb) as Hv.
  unfold tr_raft_handshake_config_validate in Hv. rewrite Hv.
  cbn [hello_of_config hm_type hm_wire_major_min hm_wire_major_max hm_wire_minor_min
    hm_wire_minor_max hm_feature_bits hm_cluster_id hm_node_id hm_process_incarnation
    hm_config_epoch hm_max_frame_size hm_max_snapshot_chunk_size failed ok negb orb].
  rewrite !Z.eqb_refl, A1, A2, A3, A4, A5, B1, B2, B3, B4, B5.
  rewrite bool_decide_true by done. replace (_ =? hc_local_node_id a) with false by blia.
  cbn. unfold ack_of, result_of. 
  replace (if _ <? _ then hc_max_frame_size a else _)
    with (Z.min (hc_max_frame_size a) (hc_max_frame_size b)) by (case_match; lia).
  by replace (if _ <? _ then hc_max_snapshot_chunk_size a else _)
    with (Z.min (hc_max_snapshot_chunk_size a) (hc_max_snapshot_chunk_size b))
    by (case_match; lia).
Qed.
End Agreement.

(** The two sides of a handshake between [a] and [b], seen from [a]. *)
Definition peers (a b : tr_raft_handshake_config) : Prop :=
  handshake_config_wf a /\ handshake_config_wf b /\ hc_cluster_id a = hc_cluster_id b /\
  hc_local_node_id a <> hc_local_node_id b.

Lemma peers_sym a b : peers a b -> peers b a.
Proof. intros (H1 & H2 & H3 & H4). by repeat split; try apply H1; try apply H2. Qed.

Section Side.
Context (a b : tr_raft_handshake_config) (capacity : Z).
Context (Hpeers : peers a b) (Hcapacity : 88 <= capacity).

Let hello := handshake_packet (hello_of_config b).
Let ack := handshake_packet (ack_of b a).
Let waiting_hello : tr_raft_handshake_exchange :=
  Exchange a (hc_local_node_id b) TR_RAFT_HANDSHAKE_EXCHANGE_WAIT_HELLO zero_result [].
Let waiting_ack : tr_raft_handshake_exchange :=
  Exchange a (hc_local_node_id b) TR_RAFT_HANDSHAKE_EXCHANGE_WAIT_ACK (result_of a b) [].
Let completed : tr_raft_handshake_exchange :=
  Exchange a (hc_local_node_id b) TR_RAFT_HANDSHAKE_EXCHANGE_COMPLETE
    (result_completed (result_of a b)) [].

Lemma exchange_starts :
  exists e,
    tr_raft_handshake_exchange_create a (hc_local_node_id b) true = (SALTS_OK, Some e) /\
    tr_raft_handshake_exchange_start e capacity =
    (SALTS_OK, waiting_hello, Some (handshake_packet (hello_of_config a))).
Proof.
  destruct Hpeers as (Ha & Hb & _ & Hids). destruct (config_spec b Hb) as (_ & _ & _ & _ & _ & Hid & _).
  unfold tr_raft_handshake_exchange_create. rewrite (hcw_valid _ Ha).
  replace (_ =? 0) with false by blia. replace (_ =? hc_local_node_id a) with false by blia.
  eexists. split; [done|]. unfold tr_raft_handshake_exchange_start. cbn [ex_state ex_local].
  unfold tr_raft_handshake_make_hello. rewrite (hcw_valid _ Ha).
  by rewrite encode_packet by (done || apply Ha).
Qed.

Lemma run_hello :
  byte_run capacity waiting_hello hello waiting_ack (Some (handshake_packet (ack_of a b))).
Proof.
  destruct Hpeers as (Ha & Hb & Hc & Hids). pose proof (hcw_message _ Hb) as Hm.
  pose proof (length_packet _ Hm) as Hl. apply run_full_packet; cbn [ex_state ex_packet waiting_hello].
  - done.
  - intros E. unfold hello in E. rewrite E in Hl. done.
  - exact Hl.
  - exact (packet_prefix _ Hm).
  - unfold exchange_packet, hello, waiting_hello. cbn [ex_packet ex_state ex_local
      ex_authenticated_peer_node_id set_field set_ex_packet app].
    rewrite decode_packet by (done || apply Hb). rewrite negotiate_result by done.
    by rewrite encode_packet by (done || by apply ack_wf || by apply ack_valid).
Qed.

Lemma ack_accepted :
  tr_raft_handshake_validate_ack (result_of a b) (ack_of b a) =
  (SALTS_OK, result_completed (result_of a b)).
Proof.
  destruct Hpeers as (Ha & Hb & Hc & Hids). unfold tr_raft_handshake_validate_ack.
  rewrite ack_valid by done. cbn [result_of hr_complete ack_of hm_type hm_wire_major_min
    hm_wire_minor_min hm_feature_bits hm_cluster_id hm_node_id hm_process_incarnation
    hm_config_epoch hm_max_frame_size hm_max_snapshot_chunk_size hr_peer_node_id hr_cluster_id
    hr_peer_process_incarnation hr_peer_config_epoch hr_wire_major hr_wire_minor
    hr_feature_bits hr_max_frame_size hr_max_snapshot_chunk_size failed ok negb orb].
  rewrite !Z.eqb_refl, (bool_decide_true _ (eq_sym Hc)), bool_decide_true by done.
  rewrite (Z.min_comm (hc_max_frame_size b)), (Z.min_comm (hc_max_snapshot_chunk_size b)).
  by rewrite !Z.eqb_refl.
Qed.

Lemma run_ack : byte_run capacity waiting_ack ack completed None.
Proof.
  destruct Hpeers as (Ha & Hb & Hc & Hids). pose proof (ack_wf b a Hb Ha) as Hm.
  pose proof (length_packet _ Hm) as Hl. apply run_full_packet; cbn [ex_state ex_packet waiting_ack].
  - done.
  - intros E. unfold ack in E. rewrite E in Hl. done.
  - exact Hl.
  - exact (packet_prefix _ Hm).
  - unfold exchange_packet, ack, waiting_ack.
    cbn [ex_packet ex_state ex_result set_field set_ex_packet app]. rewrite decode_packet by (done || by apply ack_valid).
    by rewrite ack_accepted.
Qed.

(** A side answers the HELLO, and completes with the acknowledgement, however
    the stream is cut. *)
Lemma side_feeds frags :
  (fragments frags hello ->
   exchange_feed_all waiting_hello frags capacity =
   (SALTS_OK, waiting_ack, handshake_packet (ack_of a b))) /\
  (fragments frags (hello ++ ack) ->
   exchange_feed_all waiting_hello frags capacity =
   (SALTS_OK, completed, handshake_packet (ack_of a b))).
Proof.
  split; intros [Hne Hcat].
  - rewrite (feed_all_run capacity _ _ waiting_ack (Some (handshake_packet (ack_of a b))));
      rewrite ?Hcat; try done; [apply run_hello|cbn; lia..].
  - rewrite (feed_all_run capacity _ _ completed (Some (handshake_packet (ack_of a b))));
      rewrite ?Hcat; try done; [|cbn; lia..].
    apply run_app. eexists _, _, _. split; [apply run_hello|]. split; [apply run_ack|done].
Qed.

Lemma result_accepted :
  tr_raft_handshake_result_validate (result_completed (result_of a b)) (hc_cluster_id a)
    (hc_local_node_id a) (hc_local_node_id b) = SALTS_OK.
Proof.
  destruct Hpeers as (Ha & Hb & Hc & Hids).
  destruct (config_spec a Ha) as (_ & _ & _ & _ & _ & _ & A2 & A3 & _).
  destruct (config_spec b Hb) as (_ & _ & _ & _ & _ & _ & B2 & B3 & _ & B5).
  unfold tr_raft_handshake_result_validate. cbn [result_completed result_of hr_complete
    hr_local_node_id hr_peer_node_id hr_cluster_id hr_peer_process_incarnation hr_feature_bits
    hr_wire_major hr_wire_minor hr_max_frame_size hr_max_snapshot_chunk_size].
  rewrite !Z.eqb_refl, B5, bool_decide_true by done. cbn [negb orb].
  replace (Z.min _ _ <? _) with false by blia.
  by replace (Z.min _ _ <? _) with false by blia.
Qed.
End Side.

(** C20. Two nodes of the same cluster whose configurations are valid and which
    have authenticated each other agree: each side's HELLO and acknowledgement
    take the other side to completion, however the byte stream is cut into
    fragments; the acknowledgement does not wait for the other one; the results
    pass the check of the session; and both sides hold the same version, frame
    size and chunk size, the smaller of what the two offered. *)
Theorem handshake_agreement (a b : tr_raft_handshake_config) (capacity : Z) :
  peers a b -> 88 <= capacity ->
  exists ea eb hello_a hello_b ack_a ack_b done_a done_b ra rb,
    (exists e, tr_raft_handshake_exchange_create a (hc_local_node_id b) true =
               (SALTS_OK, Some e) /\
               tr_raft_handshake_exchange_start e capacity = (SALTS_OK, ea, Some hello_a)) /\
    (exists e, tr_raft_handshake_exchange_create b (hc_local_node_id a) true =
               (SALTS_OK, Some e) /\
               tr_raft_handshake_exchange_start e capacity = (SALTS_OK, eb, Some hello_b)) /\
    (forall frags, fragments frags hello_b ->
       exists e, exchange_feed_all ea frags capacity = (SALTS_OK, e, ack_a)) /\
    (forall frags, fragments frags hello_a ->
       exists e, exchange_feed_all eb frags capacity = (SALTS_OK, e, ack_b)) /\
    (forall frags, fragments frags (hello_b ++ ack_b) ->
       exchange_feed_all ea frags capacity = (SALTS_OK, done_a, ack_a)) /\
    (forall frags, fragments frags (hello_a ++ ack_a) ->
       exchange_feed_all eb frags capacity = (SALTS_OK, done_b, ack_b)) /\
    tr_raft_handshake_exchange_get_result done_a = (SALTS_OK, Some ra) /\
    tr_raft_handshake_exchange_get_result done_b = (SALTS_OK, Some rb) /\
    tr_raft_handshake_result_validate ra (hc_cluster_id a) (hc_local_node_id a)
      (hc_local_node_id b) = SALTS_OK /\
    tr_raft_handshake_result_validate rb (hc_cluster_id b) (hc_local_node_id b)
      (hc_local_node_id a) = SALTS_OK /\
    hr_wire_major ra = hr_wire_major rb /\ hr_wire_minor ra = hr_wire_minor rb /\
    hr_max_frame_size ra = Z.min (hc_max_frame_size a) (hc_max_frame_size b) /\
    hr_max_frame_size rb = hr_max_frame_size ra /\
    hr_max_snapshot_chunk_size rb = hr_max_snapshot_chunk_size ra /\
    hr_peer_process_incarnation ra = hc_process_incarnation b /\
    hr_peer_process_incarnation rb = hc_process_incarnation a.
Proof.
  intros Hp Hc. pose proof (peers_sym a b Hp) as Hq.
  pose proof (exchange_starts a b capacity Hp Hc) as Sa.
  pose proof (exchange_starts b a capacity Hq Hc) as Sb.
  pose proof (side_feeds a b capacity Hp Hc) as Fa.
  pose proof (side_feeds b a capacity Hq Hc) as Fb.
  eexists _, _, _, _, _, _, _, _, (result_completed (result_of a b)),
    (result_completed (result_of b a)).
  split; [exact Sa|]. split; [exact Sb|].
  split; [intros frags Hf; eexists; exact (proj1 (Fa frags) Hf)|].
  split; [intros frags Hf; eexists; exact (proj1 (Fb frags) Hf)|].
  split; [intros frags Hf; exact (proj2 (Fa frags) Hf)|].
  split; [intros frags Hf; exact (proj2 (Fb frags) Hf)|].
  do 2 (split; [done|]). split; [by apply result_accepted|]. split; [by apply result_accepted|].
  cbn. repeat split; lia.
Qed.

Definition config_1 : tr_raft_handshake_config :=
  HandshakeConfig (replicate 16 9) 1 (replicate 16 7) 3 0 1 1 0 0 70000 65536.
Definition config_2 : tr_raft_handshake_config :=
  HandshakeConfig (replicate 16 9) 2 (replicate 16 8) 4 0 1 1 0 0 80000 65536.

Lemma handshake_agreement_witness :
  peers config_1 config_2 /\
  exists ra, hr_max_frame_size ra = 70000 /\
    tr_raft_handshake_result_validate ra (hc_cluster_id config_1) 1 2 = SALTS_OK.
Proof.
  assert (peers config_1 config_2) as Hp.
  { assert (forall n, is_byte n -> bytes_of 16 (replicate 16 n)) as Hb.
    { intros n Hn. split; [done|]. by apply Forall_replicate. }
    repeat split; try done; apply Hb; done. }
  split; [exact Hp|].
  destruct (handshake_agreement config_1 config_2 88 Hp ltac:(done))
    as (ea & eb & ha & hb & aa & ab & da & db & ra & rb & H).
  exists ra. destruct H as (_ & _ & _ & _ & _ & _ & _ & _ & Hv & _ & _ & _ & Hm & _).
  split; [exact Hm|exact Hv].
Defined.

(** ** Any input *)

(** What a negotiated result says of the local configuration and the
    authenticated peer. *)
Record negotiated (e : tr_raft_handshake_exchange) : Prop := {
  ng_cluster : hr_cluster_id (ex_result e) = hc_cluster_id (ex_local e);
  ng_local : hr_local_node_id (ex_result e) = hc_local_node_id (ex_local e);
  ng_peer : hr_peer_node_id (ex_result e) = ex_authenticated_peer_node_id e;
  ng_process :
    tr_raft_handshake_bytes_nonzero (hr_peer_process_incarnation (ex_result e)) = true;
  ng_features : hr_feature_bits (ex_result e) = 0;
  ng_major : hr_wire_major (ex_result e) = 1;
  ng_minor : hr_wire_minor (ex_result e) = 0;
  ng_frame : TR_RAFT_WIRE_MAX_FRAME_SIZE <= hr_max_frame_size (ex_result e) <=
             hc_max_frame_size (ex_local e);
  ng_chunk : TR_RAFT_WIRE_MAX_SNAPSHOT_CHUNK_BYTES <= hr_max_snapshot_chunk_size (ex_result e)
             <= hc_max_snapshot_chunk_size (ex_local e)
}.

Definition exchange_inv (e : tr_raft_handshake_exchange) : Prop :=
  match ex_state e with
  | TR_RAFT_HANDSHAKE_EXCHANGE_WAIT_ACK => negotiated e
  | TR_RAFT_HANDSHAKE_EXCHANGE_COMPLETE => negotiated e /\ hr_complete (ex_result e) = true
  | _ => True
  end.

Lemma negotiate_spec local peer hello ack r :
  tr_raft_handshake_negotiate local peer hello = (SALTS_OK, Some (ack, r)) ->
  forall state packet, negotiated (Exchange local peer state r packet).
Proof.
  unfold tr_raft_handshake_negotiate. destruct (_ =? 0); [done|].
  destruct (tr_raft_handshake_config_validate local) eqn:Hl; [|done].
  apply message_validate_spec in Hl as (L1 & L2 & L3 & L4 & L5 & L6 & L7 & L8 & _).
  cbn [hello_of_config hm_wire_major_min hm_wire_major_max hm_wire_minor_min hm_wire_minor_max
    hm_feature_bits hm_node_id hm_max_frame_size hm_max_snapshot_chunk_size] in *.
  destruct (failed _) eqn:Hf; [done|]. cbn [orb].
  destruct (tr_raft_handshake_message_validate hello) eqn:Hm; [|done].
  apply message_validate_spec in Hm as (M1 & M2 & M3 & M4 & M5 & M6 & M7 & M8 & _ & M10).
  destruct (_ || _) eqn:Hg; [done|]. rewrite L1, L2, L3, L4, M1, M2, M3, M4, L5, M5.
  cbn. intros [= <- <-] state packet. bprop. split; cbn; try done; try lia; case_match; lia.
Qed.

Lemma exchange_packet_inv capacity e result e' w :
  (stage e < 2)%nat -> exchange_inv e -> exchange_packet e capacity = (result, e', w) ->
  exchange_inv e' /\ ex_local e' = ex_local e /\
  ex_authenticated_peer_node_id e' = ex_authenticated_peer_node_id e.
Proof.
  intros Hs Hi. unfold exchange_packet.
  destruct (tr_raft_handshake_decode _) as [[|?] [m|]]; try (by intros [= <- <- <-]).
  change (ex_state (e <| ex_packet := [] |>)) with (ex_state e).
  destruct (ex_state e) eqn:Hst; try (unfold stage in Hs; rewrite Hst in Hs; lia).
  - destruct (tr_raft_handshake_negotiate _ _ _) as [[|?] [[ack r]|]] eqn:Hn;
      try (by intros [= <- <- <-]).
    destruct (tr_raft_handshake_encode _ _) as [[|?] ?]; intros [= <- <- <-]; [|done].
    split; [|done]. unfold exchange_inv. cbn. by eapply negotiate_spec.
  - unfold tr_raft_handshake_validate_ack.
    destruct (hr_complete _); [by intros [= <- <- <-]|].
    destruct (_ || _); [by intros [= <- <- <-]|]. intros [= <- <- <-]. split; [|done].
    unfold exchange_inv in *. rewrite Hst in Hi. cbn. split; [|done]. destruct Hi. by split.
Qed.

Definition kept (e e' : tr_raft_handshake_exchange) : Prop :=
  exchange_inv e' /\ ex_local e' = ex_local e /\
  ex_authenticated_peer_node_id e' = ex_authenticated_peer_node_id e.

Lemma store_inv e packet : exchange_inv e -> exchange_inv (e <| ex_packet := packet |>).
Proof.
  unfold exchange_inv. cbn. destruct (ex_state e); try done; [by intros []|by intros [[] ?]].
Qed.

Lemma exchange_loop_inv capacity fuel e data output :
  (stage e <= 2)%nat -> exchange_inv e ->
  let '(_, e', _, _) := exchange_loop fuel e data capacity output in kept e e'.
Proof.
  revert e data output. induction fuel as [|fuel IH]; intros e data output Hs Hi; [done|].
  cbn [exchange_loop]. destruct data as [|b data]; [done|].
  assert (ex_state e = TR_RAFT_HANDSHAKE_EXCHANGE_COMPLETE \/ (stage e < 2)%nat) as [->|Hlt]
    by (unfold stage in *; destruct (ex_state e); (by left) || (right; lia)); [done|].
  assert (forall A (x y : A), match ex_state e with
    | TR_RAFT_HANDSHAKE_EXCHANGE_COMPLETE => x | _ => y end = y) as ->
    by (unfold stage in Hlt; destruct (ex_state e); (done || lia)).
  set (copied := Nat.min _ _). set (e1 := e <| ex_packet := _ |>).
  assert (exchange_inv e1) as Hi1 by (by apply store_inv).
  destruct (_ && _); [done|]. destruct (negb _); [by apply (IH e1)|].
  destruct (exchange_packet e1 capacity) as [[[|err] e2] w] eqn:Hx.
  - assert (stage e2 = S (stage e)) as Hs2 by (by apply exchange_packet_stage in Hx as [-> _]).
    apply exchange_packet_inv in Hx as (H1 & H2 & H3); [|done|done].
    specialize (IH e2 (drop copied (b :: data)) (default output w) ltac:(lia) H1).
    destruct (exchange_loop _ _ _ _ _) as [[[? ?] ?] ?].
    destruct IH as (I1 & I2 & I3). unfold kept. by rewrite I2, I3.
  - by apply exchange_packet_inv in Hx.
Qed.

(** The feeds of a connection, whatever arrives and whatever they return. *)
Fixpoint exchange_inputs (e : tr_raft_handshake_exchange) (inputs : list (list Z))
    (capacity : Z) : tr_raft_handshake_exchange :=
  match inputs with
  | [] => e
  | data :: inputs =>
      let '(_, e, _, _) := tr_raft_handshake_exchange_feed e data capacity in
      exchange_inputs e inputs capacity
  end.

Lemma exchange_inputs_inv e inputs capacity :
  exchange_inv e -> kept e (exchange_inputs e inputs capacity).
Proof.
  revert e. induction inputs as [|data inputs IH]; intros e Hi; [done|].
  cbn [exchange_inputs].
  assert (let '(_, e', _, _) := tr_raft_handshake_exchange_feed e data capacity in kept e e')
    as Hk.
  { unfold tr_raft_handshake_exchange_feed. destruct (_ <? _); [done|].
    destruct (ex_state e) eqn:Hst; try done;
      (apply exchange_loop_inv; [unfold stage; rewrite Hst; lia|done]). }
  destruct (tr_raft_handshake_exchange_feed _ _ _) as [[[? e1] ?] ?].
  destruct Hk as (H1 & H2 & H3), (IH e1 H1) as (I1 & I2 & I3).
  unfold kept. by rewrite <- H2, <- H3.
Qed.

(** Whatever bytes arrive on the connection, in whatever fragments, an
    exchange that yields a result yields one that passes the check of the
    session for the local cluster and node and for the peer that was
    authenticated, with limits no larger than the local ones. *)
Theorem handshake_sound (local : tr_raft_handshake_config) (peer capacity : Z)
    (e0 e1 : tr_raft_handshake_exchange) (hello : option (list Z))
    (inputs : list (list Z)) (r : tr_raft_handshake_result) :
  tr_raft_handshake_exchange_create local peer true = (SALTS_OK, Some e0) ->
  tr_raft_handshake_exchange_start e0 capacity = (SALTS_OK, e1, hello) ->
  tr_raft_handshake_exchange_get_result (exchange_inputs e1 inputs capacity) =
  (SALTS_OK, Some r) ->
  tr_raft_handshake_result_validate r (hc_cluster_id local) (hc_local_node_id local) peer =
  SALTS_OK /\
  hr_max_frame_size r <= hc_max_frame_size local /\
  hr_max_snapshot_chunk_size r <= hc_max_snapshot_chunk_size local.
Proof.
  unfold tr_raft_handshake_exchange_create. destruct (_ =? 0); [done|].
  destruct (tr_raft_handshake_config_validate local); [|done].
  destruct (_ =? _); [done|]. cbn [negb]. intros [= <-].
  unfold tr_raft_handshake_exchange_start. cbn [ex_state].
  destruct (match tr_raft_handshake_make_hello _ with (SALTS_OK, Some _) => _ | _ => _ end)
    as [[|] ?]; [|done]. intros [= <- <-].
  set (e1 := set_field _ _ _). pose proof (exchange_inputs_inv e1 inputs capacity I) as (Hi & Hl & Hp).
  unfold tr_raft_handshake_exchange_get_result, exchange_inv in *.
  destruct (ex_state (exchange_inputs _ _ _)); try done.
  destruct Hi as [[N1 N2 N3 N4 N5 N6 N7 N8 N9] Hc]. rewrite Hc. intros [= <-].
  rewrite Hl in *. rewrite Hp in *. cbn [e1 ex_local ex_authenticated_peer_node_id] in *.
  split; [|cbn in *; lia]. unfold tr_raft_handshake_result_validate.
  rewrite Hc, N1, N2, N3, N4, N5, N6, N7. cbn [set_field set_ex_state ex_local
    ex_authenticated_peer_node_id e1] in *. rewrite !Z.eqb_refl, bool_decide_true by done.
  cbn [negb orb]. by replace (_ || _) with false by (symmetry; cbn in *; lia).
Qed.

Definition exchange_1 : tr_raft_handshake_exchange :=
  Exchange config_1 2 TR_RAFT_HANDSHAKE_EXCHANGE_NEW zero_result [].

(** The HELLO and acknowledgement of the second node, cut in the middle of a
    packet and followed by the first bytes of the session. *)
Definition inputs_1 : list (list Z) :=
  [handshake_packet (hello_of_config config_2) ++
     take 9 (handshake_packet (ack_of config_2 config_1));
   drop 9 (handshake_packet (ack_of config_2 config_1)) ++ [1; 2; 3]].

Lemma handshake_sound_witness :
  hr_max_frame_size (result_completed (result_of config_1 config_2)) <= 70000.
Proof.
  refine (proj1 (proj2 (handshake_sound config_1 2 88 exchange_1
    (exchange_1 <| ex_state := TR_RAFT_HANDSHAKE_EXCHANGE_WAIT_HELLO |>)
    (Some (handshake_packet (hello_of_config config_1))) inputs_1
    (result_completed (result_of config_1 config_2)) _ _ _)));
    vm_compute; reflexivity.
Defined.
