(* ===== verification/Membership.v ===== *)
(** * Memberships and quorums: [src/core/raft_membership.c]

    Building a stable membership, the joint configuration of a transition and
    its final configuration; looking members up; deciding quorums. A cursor of
    the source, [array[index]] for [index] up to the count, is the list of the
    elements from [index] on. *)

From S2P Require Import Prelude Configuration.
From Stdlib Require Import ZArith Lia Sorting.Sorted.
From stdpp Require Import base numbers list tactics.
Open Scope Z_scope.
Open Scope raft_scope.

(** ** Validation of a target set *)

(** The loop that walks both sorted sets and fails on a common element. *)
Fixpoint sets_disjoint (fuel : nat) (voters learners : list Z) : bool :=
  match fuel with
  | O => true
  | S fuel' =>
      match voters, learners with
      | v :: voters', l :: learners' =>
          if v =? l then false
          else if v <? l then sets_disjoint fuel' voters' learners
          else sets_disjoint fuel' voters learners'
      | _, _ => true
      end
  end.

Definition tr_raft_membership_validate_set
    (voters : option (list Z)) (voter_count : Z)
    (learners : option (list Z)) (learner_count : Z) : status :=
  if is_null voters || (voter_count =? 0) ||
     (TR_RAFT_MAX_MEMBERS <? voter_count) ||
     (TR_RAFT_MAX_MEMBERS - voter_count <? learner_count) ||
     (negb (learner_count =? 0) && is_null learners) ||
     ((learner_count =? 0) && negb (is_null learners))
  then SALTS_EINVAL
  else
    let vs := array_elems voters voter_count in
    let ls := array_elems learners learner_count in
    if negb (ids_ascending_from None vs) then SALTS_EINVAL
    else if negb (ids_ascending_from None ls) then SALTS_EINVAL
    else if sets_disjoint (length vs + length ls) vs ls then SALTS_OK
    else SALTS_EINVAL.

(** The member loop of [tr_raft_membership_stable_valid]; counts voters. *)
Fixpoint stable_members_valid (prev : option Z)
    (members : list tr_raft_conf_member) (voter_count : Z) : bool :=
  match members with
  | [] => negb (voter_count =? 0)
  | m :: rest =>
      if (member_node_id m =? 0) ||
         match prev with None => false | Some p => member_node_id m <=? p end ||
         (negb (member_roles m =? voter_roles) &&
          negb (member_roles m =? TR_RAFT_CONF_LEARNER))
      then false
      else stable_members_valid (Some (member_node_id m)) rest
             (voter_count + Z.b2z (member_roles m =? voter_roles))
  end.

Definition tr_raft_membership_stable_valid (m : tr_raft_conf) : bool :=
  if negb (conf_phase m =? TR_RAFT_CONF_FINAL) || (conf_member_count m =? 0) ||
     (TR_RAFT_MAX_MEMBERS <? conf_member_count m)
  then false
  else stable_members_valid None (conf_members m) 0.

(** ** Merging sorted identifier lists *)

(** [if (index < count && array[index] < next) next = array[index];] *)
Definition min_head (cursor : list Z) (next : Z) : Z :=
  match cursor with
  | x :: _ => if x <? next then x else next
  | [] => next
  end.

(** [if (index < count && array[index] == next) ++index;] *)
Definition advance_if (next : Z) (cursor : list Z) : list Z :=
  match cursor with
  | x :: rest => if x =? next then rest else cursor
  | [] => []
  end.

Definition head_is (next : Z) (cursor : list Z) : bool :=
  match cursor with
  | x :: _ => x =? next
  | [] => false
  end.

Fixpoint union_count_loop (fuel : nat) (current voters learners : list Z)
    (count : Z) : Z :=
  match fuel with
  | O => count
  | S fuel' =>
      match current, voters, learners with
      | [], [], [] => count
      | _, _, _ =>
          let next :=
            min_head learners (min_head voters (min_head current UINT64_MAX)) in
          union_count_loop fuel' (advance_if next current)
            (advance_if next voters) (advance_if next learners) (count + 1)
      end
  end.

Definition tr_raft_membership_union_count (current : tr_raft_conf)
    (target_voters target_learners : list Z) : Z :=
  union_count_loop
    (length (conf_members current) + length target_voters +
     length target_learners)
    (conf_ids current) target_voters target_learners 0.

(** ** Building memberships *)

Fixpoint stable_loop (fuel : nat) (voters learners : list Z)
    : list tr_raft_conf_member :=
  match fuel with
  | O => []
  | S fuel' =>
      match voters, learners with
      | [], [] => []
      | v :: voters', [] =>
          Member v voter_roles :: stable_loop fuel' voters' learners
      | v :: voters', l :: learners' =>
          if v <? l then Member v voter_roles :: stable_loop fuel' voters' learners
          else Member l TR_RAFT_CONF_LEARNER :: stable_loop fuel' voters learners'
      | [], l :: learners' =>
          Member l TR_RAFT_CONF_LEARNER :: stable_loop fuel' voters learners'
      end
  end.

(** [None] when the output is left untouched. *)
Definition tr_raft_membership_stable
    (voters : option (list Z)) (voter_count : Z)
    (learners : option (list Z)) (learner_count : Z)
    : status * option tr_raft_conf :=
  if failed (tr_raft_membership_validate_set voters voter_count learners
               learner_count)
  then (SALTS_EINVAL, None)
  else
    let vs := array_elems voters voter_count in
    let ls := array_elems learners learner_count in
    (SALTS_OK,
     Some (Conf TR_RAFT_CONF_FINAL 0 (stable_loop (length vs + length ls) vs ls))).

(** The inner loop that skips the learners of the current configuration. *)
Fixpoint skip_learners (members : list tr_raft_conf_member)
    : list tr_raft_conf_member :=
  match members with
  | m :: rest =>
      if member_roles m =? TR_RAFT_CONF_LEARNER then skip_learners rest
      else members
  | [] => []
  end.

Definition advance_member_if (next : Z) (cursor : list tr_raft_conf_member)
    : list tr_raft_conf_member :=
  match cursor with
  | m :: rest => if member_node_id m =? next then rest else cursor
  | [] => []
  end.

Fixpoint joint_loop (fuel : nat) (current : list tr_raft_conf_member)
    (voters learners : list Z) (members : list tr_raft_conf_member)
    : list tr_raft_conf_member :=
  match fuel with
  | O => members
  | S fuel' =>
      match current, voters, learners with
      | [], [], [] => members
      | _, _, _ =>
          let current := skip_learners current in
          let current_ids := member_node_id <$> current in
          let next :=
            min_head learners (min_head voters (min_head current_ids UINT64_MAX)) in
          if next =? UINT64_MAX then members
          else
            let current_voter := head_is next current_ids in
            let roles := 0 in
            let roles :=
              if current_voter then Z.lor roles TR_RAFT_CONF_OLD_VOTER
              else roles in
            let roles :=
              if head_is next voters then Z.lor roles TR_RAFT_CONF_NEW_VOTER
              else roles in
            let roles :=
              if head_is next learners then Z.lor roles TR_RAFT_CONF_LEARNER
              else roles in
            joint_loop fuel' (advance_member_if next current)
              (advance_if next voters) (advance_if next learners)
              (if current_voter || negb (roles =? 0)
               then members ++ [Member next roles] else members)
      end
  end.

Definition tr_raft_membership_joint (current : tr_raft_conf)
    (target_voters : option (list Z)) (target_voter_count : Z)
    (target_learners : option (list Z)) (target_learner_count : Z)
    (transition_id : Z) : status * option tr_raft_conf :=
  if (transition_id =? 0) || negb (tr_raft_membership_stable_valid current) ||
     failed (tr_raft_membership_validate_set target_voters target_voter_count
               target_learners target_learner_count)
  then (SALTS_EINVAL, None)
  else
    let vs := array_elems target_voters target_voter_count in
    let ls := array_elems target_learners target_learner_count in
    if TR_RAFT_MAX_MEMBERS <? tr_raft_membership_union_count current vs ls
    then (SALTS_ENOSPC, None)
    else
      let joint :=
        Conf TR_RAFT_CONF_JOINT transition_id
          (joint_loop (length (conf_members current) + length vs + length ls)
             (conf_members current) vs ls []) in
      if failed (tr_raft_conf_validate joint) then (SALTS_EINVAL, Some zero_conf)
      else (SALTS_OK, Some joint).

(** The loop of [tr_raft_membership_final]. *)
Fixpoint final_members (members : list tr_raft_conf_member)
    : list tr_raft_conf_member :=
  match members with
  | [] => []
  | source :: rest =>
      if Z.land (member_roles source)
           (Z.lor TR_RAFT_CONF_NEW_VOTER TR_RAFT_CONF_LEARNER) =? 0
      then final_members rest
      else Member (member_node_id source)
             (if has_role (member_roles source) TR_RAFT_CONF_NEW_VOTER
              then voter_roles else TR_RAFT_CONF_LEARNER)
           :: final_members rest
  end.

Definition tr_raft_membership_final (joint : tr_raft_conf)
    : status * option tr_raft_conf :=
  if negb (conf_phase joint =? TR_RAFT_CONF_JOINT) ||
     failed (tr_raft_conf_validate joint)
  then (SALTS_EINVAL, None)
  else
    let final_membership :=
      Conf TR_RAFT_CONF_FINAL (conf_transition_id joint)
        (final_members (conf_members joint)) in
    (tr_raft_conf_validate final_membership, Some final_membership).

(** ** Lookup *)

(** The search loop over sorted identifiers, which stops at a larger one;
    [index] is the position of the head. *)
Fixpoint find_id (index : Z) (ids : list Z) (node_id : Z) : Z :=
  match ids with
  | [] => -1
  | id :: rest =>
      if id =? node_id then index
      else if node_id <? id then -1
      else find_id (index + 1) rest node_id
  end.

Definition tr_raft_membership_index (m : tr_raft_conf) (node_id : Z) : Z :=
  if node_id =? 0 then -1 else find_id 0 (conf_ids m) node_id.

Definition tr_raft_membership_roles (m : tr_raft_conf) (node_id : Z) : Z :=
  let index := tr_raft_membership_index m node_id in
  if index <? 0 then 0
  else member_roles (nth (Z.to_nat index) (conf_members m) (Member 0 0)).

Definition tr_raft_membership_is_voter (m : tr_raft_conf) (node_id : Z) : bool :=
  has_role (tr_raft_membership_roles m node_id) voter_roles.

(** ** Quorums *)

Record quorum_counts := Counts {
  old_count : Z;
  old_acks : Z;
  new_count : Z;
  new_acks : Z
}.

Fixpoint quorum_loop (index : Z) (members : list tr_raft_conf_member)
    (acknowledgements : Z) (q : quorum_counts) : quorum_counts :=
  match members with
  | [] => q
  | m :: rest =>
      let acknowledged := has_bit acknowledgements index in
      let q :=
        if has_role (member_roles m) TR_RAFT_CONF_OLD_VOTER
        then Counts (old_count q + 1) (old_acks q + Z.b2z acknowledged)
               (new_count q) (new_acks q)
        else q in
      let q :=
        if has_role (member_roles m) TR_RAFT_CONF_NEW_VOTER
        then Counts (old_count q) (old_acks q)
               (new_count q + 1) (new_acks q + Z.b2z acknowledged)
        else q in
      quorum_loop (index + 1) rest acknowledgements q
  end.

Definition tr_raft_membership_has_quorum (m : tr_raft_conf)
    (acknowledgements : Z) : bool :=
  if (conf_member_count m =? 0) || (TR_RAFT_MAX_MEMBERS <? conf_member_count m)
  then false
  else
    let q := quorum_loop 0 (conf_members m) acknowledgements (Counts 0 0 0 0) in
    negb (old_count q =? 0) && negb (new_count q =? 0) &&
    (old_count q / 2 + 1 <=? old_acks q) && (new_count q / 2 + 1 <=? new_acks q).

(** The mask of the positions whose match index reaches the candidate. *)
Fixpoint match_mask (index : Z) (count : nat) (match_indices : list Z)
    (candidate_index : Z) (acknowledgements : Z) : Z :=
  match count with
  | O => acknowledgements
  | S count' =>
      match_mask (index + 1) count' match_indices candidate_index
        (if candidate_index <=? nth (Z.to_nat index) match_indices 0
         then Z.lor acknowledgements (bit32 index) else acknowledgements)
  end.

Definition tr_raft_membership_match_quorum (m : tr_raft_conf)
    (match_indices : list Z) (candidate_index : Z) : bool :=
  if (candidate_index =? 0) || (TR_RAFT_MAX_MEMBERS <? conf_member_count m)
  then false
  else tr_raft_membership_has_quorum m
         (match_mask 0 (length (conf_members m)) match_indices candidate_index 0).

(** ** Specification *)

Definition voters_by (f : tr_raft_conf_member -> bool)
    (members : list tr_raft_conf_member) : list Z :=
  member_node_id <$> List.filter f members.

(** The voters of the outgoing and of the incoming majority. They are the same
    in a stable configuration. *)
Definition old_voters (c : tr_raft_conf) : list Z :=
  voters_by is_old_voter (conf_members c).
Definition new_voters (c : tr_raft_conf) : list Z :=
  voters_by is_new_voter (conf_members c).

(** [f] holds of more than half of [ids]. *)
Definition majority (ids : list Z) (f : Z -> bool) : Prop :=
  ids <> [] /\ Z.of_nat (length ids) / 2 + 1 <= countb f ids.

(** Member [id] of [c] is in the mask. *)
Definition acked (c : tr_raft_conf) (acknowledgements id : Z) : bool :=
  has_bit acknowledgements (tr_raft_membership_index c id).

Definition member_lt (m1 m2 : tr_raft_conf_member) : Prop :=
  member_node_id m1 < member_node_id m2.

(** A target set the code accepts. *)
Record target_wf (voters learners : list Z) : Prop := {
  target_voters_wf : ids_wf voters;
  target_learners_wf : ids_wf learners;
  target_nonempty : voters <> [];
  target_disjoint : forall id, id ∈ voters -> id ∈ learners -> False
}.

Definition ids_below_max (ids : list Z) : Prop :=
  Forall (fun id => 0 <= id < UINT64_MAX) ids.

(** ** Lookup in a sorted list *)

Lemma find_id_spec (ids : list Z) (base id : Z) :
  StronglySorted Z.lt ids -> 0 <= base ->
  (exists k, ids !! k = Some id /\ find_id base ids id = base + Z.of_nat k) \/
  ((id ∉ ids) /\ find_id base ids id = -1).
Proof.
  intros Hs. revert base. induction Hs as [|x ids Hs IH Hx]; intros base Hb.
  { right. split; [apply not_elem_of_nil|done]. }
  cbn. destruct (Z.eqb_spec x id) as [->|Hne].
  { left. exists 0%nat. cbn. split; [done|lia]. }
  destruct (Z.ltb_spec id x) as [Hlt|Hge].
  { right. split; [|done]. rewrite list.Forall_forall in Hx.
    rewrite elem_of_cons. intros [->|Hin]; [lia|]. apply Hx in Hin. lia. }
  destruct (IH (base + 1)) as [(k & Hk & ->)|[Hn ->]]; [lia| |].
  - left. exists (S k). cbn. split; [done|lia].
  - right. split; [|done]. rewrite elem_of_cons. naive_solver.
Qed.

Lemma find_id_lookup (ids : list Z) (k : nat) (id : Z) :
  StronglySorted Z.lt ids -> ids !! k = Some id ->
  find_id 0 ids id = Z.of_nat k.
Proof.
  intros Hs Hk. destruct (find_id_spec ids 0 id Hs) as [(k' & Hk' & ->)|[Hn _]].
  - done.
  - apply StronglySorted_lt_NoDup in Hs.
    rewrite (NoDup_lookup _ _ _ _ Hs Hk Hk'). lia.
  - destruct Hn. by apply list_elem_of_lookup_2 in Hk.
Qed.

Lemma membership_index_lookup (c : tr_raft_conf) (k : nat)
    (m : tr_raft_conf_member) :
  ids_wf (conf_ids c) -> conf_members c !! k = Some m ->
  tr_raft_membership_index c (member_node_id m) = Z.of_nat k.
Proof.
  intros [Hnz Hs] Hk. unfold tr_raft_membership_index.
  assert (conf_ids c !! k = Some (member_node_id m)) as Hid
    by (unfold conf_ids; by rewrite list_lookup_fmap, Hk).
  rewrite list.Forall_forall in Hnz.
  assert (member_node_id m <> 0) by (eapply Hnz, list_elem_of_lookup_2; done).
  replace (_ =? 0) with false by lia. by apply find_id_lookup.
Qed.

Lemma membership_roles_lookup (c : tr_raft_conf) (m : tr_raft_conf_member) :
  ids_wf (conf_ids c) -> m ∈ conf_members c ->
  tr_raft_membership_roles c (member_node_id m) = member_roles m.
Proof.
  intros Hwf Hm. apply list_elem_of_lookup in Hm as [k Hk].
  unfold tr_raft_membership_roles.
  rewrite (membership_index_lookup c k m) by done.
  replace (_ <? 0) with false by blia. rewrite Nat2Z.id.
  by rewrite (nth_lookup_Some _ _ _ _ Hk).
Qed.

Lemma membership_index_none (c : tr_raft_conf) (id : Z) :
  ids_wf (conf_ids c) ->
  ~ id ∈ conf_ids c <-> tr_raft_membership_index c id = -1.
Proof.
  intros [Hnz Hs]. unfold tr_raft_membership_index.
  destruct (Z.eqb_spec id 0) as [->|Hne].
  - split; [done|]. rewrite list.Forall_forall in Hnz. intros _ Hin.
    by apply (Hnz 0 Hin).
  - destruct (find_id_spec (conf_ids c) 0 id Hs) as [(k & Hk & ->)|[Hn ->]];
      [done| |].
    + apply list_elem_of_lookup_2 in Hk. split; [done|lia].
    + done.
Qed.

Lemma membership_roles_none (c : tr_raft_conf) (id : Z) :
  ids_wf (conf_ids c) -> id ∉ conf_ids c -> tr_raft_membership_roles c id = 0.
Proof.
  intros Hwf Hn. apply membership_index_none in Hn; [|done].
  unfold tr_raft_membership_roles. by rewrite Hn.
Qed.

Lemma has_role_voter (roles : Z) :
  has_role roles voter_roles =
  has_role roles TR_RAFT_CONF_OLD_VOTER || has_role roles TR_RAFT_CONF_NEW_VOTER.
Proof.
  unfold has_role, voter_roles. rewrite Z.land_lor_distr_r.
  destruct (Z.eqb_spec (Z.land roles TR_RAFT_CONF_OLD_VOTER) 0) as [->|H1];
    destruct (Z.eqb_spec (Z.land roles TR_RAFT_CONF_NEW_VOTER) 0) as [->|H2];
    cbn; [done|..]; rewrite negb_true_iff, Z.eqb_neq, Z.lor_eq_0_iff; naive_solver.
Qed.

Lemma is_voter_spec (c : tr_raft_conf) (id : Z) :
  ids_wf (conf_ids c) ->
  tr_raft_membership_is_voter c id = true <->
  exists m, m ∈ conf_members c /\ member_node_id m = id /\
    (is_old_voter m = true \/ is_new_voter m = true).
Proof.
  intros Hwf. unfold tr_raft_membership_is_voter. rewrite has_role_voter.
  destruct (decide (id ∈ conf_ids c)) as [Hin|Hn].
  - apply list_elem_of_fmap in Hin as (m & -> & Hm).
    rewrite membership_roles_lookup by done. rewrite orb_true_iff. split.
    + eauto.
    + intros (m' & Hm' & Heq & Hv).
      enough (m' = m) by naive_solver.
      apply list_elem_of_lookup in Hm as [k Hk], Hm' as [k' Hk'].
      pose proof (membership_index_lookup c k m Hwf Hk) as H1.
      pose proof (membership_index_lookup c k' m' Hwf Hk') as H2.
      rewrite Heq, H1 in H2. replace k' with k in Hk' by lia. congruence.
  - rewrite membership_roles_none by done. split; [done|].
    intros (m & Hm & <- & _). destruct Hn. by apply list_elem_of_fmap_2.
Qed.

(** ** Quorums are majorities of both voter sets *)

Lemma quorum_loop_counts (ms : list tr_raft_conf_member) (acks : Z)
    (index : nat) (f : Z -> bool) (q : quorum_counts) :
  (forall k m, ms !! k = Some m ->
     f (member_node_id m) = has_bit acks (Z.of_nat (index + k))) ->
  quorum_loop (Z.of_nat index) ms acks q =
  Counts (old_count q + Z.of_nat (length (voters_by is_old_voter ms)))
         (old_acks q + countb f (voters_by is_old_voter ms))
         (new_count q + Z.of_nat (length (voters_by is_new_voter ms)))
         (new_acks q + countb f (voters_by is_new_voter ms)).
Proof.
  revert index q. induction ms as [|m ms IH]; intros index q Hf.
  { destruct q. cbn. by rewrite !Z.add_0_r. }
  assert (f (member_node_id m) = has_bit acks (Z.of_nat index)) as Hm.
  { rewrite (Hf 0%nat m) by done. by rewrite Nat.add_0_r. }
  cbn [quorum_loop].
  replace (Z.of_nat index + 1) with (Z.of_nat (S index)) by lia.
  rewrite IH.
  2: { intros k x Hk. rewrite (Hf (S k) x) by done. f_equal. lia. }
  unfold voters_by in *. cbn [List.filter].
  fold (is_old_voter m) (is_new_voter m).
  destruct (is_old_voter m), (is_new_voter m); cbn [fmap list_fmap length countb
    old_count old_acks new_count new_acks]; rewrite ?Hm, ?Nat2Z.inj_succ;
    f_equal; lia.
Qed.

Lemma has_quorum_spec (c : tr_raft_conf) (acks : Z) :
  ids_wf (conf_ids c) -> conf_member_count c <= TR_RAFT_MAX_MEMBERS ->
  tr_raft_membership_has_quorum c acks = true <->
  majority (old_voters c) (acked c acks) /\
  majority (new_voters c) (acked c acks).
Proof.
  intros Hwf Hb. unfold tr_raft_membership_has_quorum.
  destruct (Z.eqb_spec (conf_member_count c) 0) as [H0|Hne].
  { split; [done|]. intros [[Hn _] _]. destruct Hn.
    unfold conf_member_count in H0. unfold old_voters, voters_by.
    by destruct (conf_members c). }
  replace (TR_RAFT_MAX_MEMBERS <? conf_member_count c) with false by lia.
  cbn [orb].
  rewrite (quorum_loop_counts _ acks 0 (acked c acks)).
  2: { intros k m Hk. unfold acked. by rewrite (membership_index_lookup c k m). }
  cbn [old_count old_acks new_count new_acks].
  fold (old_voters c) (new_voters c). rewrite !Z.add_0_l.
  unfold majority. rewrite !andb_true_iff, !negb_true_iff, !Z.eqb_neq, !Z.leb_le.
  rewrite <- !length_zero_iff_nil. lia.
Qed.

Lemma majority_meet (ids : list Z) (f g : Z -> bool) :
  majority ids f -> majority ids g ->
  exists id, id ∈ ids /\ f id = true /\ g id = true.
Proof.
  intros [_ Hf] [_ Hg].
  destruct (countb_meet (fun _ => true) f g ids) as (id & Hid & _ & ?).
  - change (countb (fun _ => true) ids < countb f ids + countb g ids).
    pose proof (countb_le_length (fun _ => true) ids).
    pose proof (Z.div_mod (Z.of_nat (length ids)) 2).
    pose proof (Z.mod_pos_bound (Z.of_nat (length ids)) 2). lia.
  - eauto.
Qed.

(** ** Merging *)

Lemma min_head_spec (cursor : list Z) (next : Z) :
  StronglySorted Z.lt cursor ->
  min_head cursor next <= next /\
  (forall x, x ∈ cursor -> min_head cursor next <= x) /\
  (min_head cursor next = next \/ min_head cursor next ∈ cursor).
Proof.
  intros Hs. destruct Hs as [|y cursor Hs Hy]; cbn.
  { split; [lia|]. split; [|by left]. intros x Hx. by apply elem_of_nil in Hx. }
  rewrite list.Forall_forall in Hy.
  destruct (Z.ltb_spec y next); (split; [lia|]); split.
  - intros x [->|Hx]%elem_of_cons; [lia|]. apply Hy in Hx. lia.
  - right. left.
  - intros x [->|Hx]%elem_of_cons; [lia|]. apply Hy in Hx. lia.
  - by left.
Qed.

Lemma advance_if_spec (cursor : list Z) (next : Z) :
  StronglySorted Z.lt cursor -> (forall x, x ∈ cursor -> next <= x) ->
  StronglySorted Z.lt (advance_if next cursor) /\
  (forall x, x ∈ advance_if next cursor <-> x ∈ cursor /\ next < x) /\
  (head_is next cursor = true <-> next ∈ cursor) /\
  (length (advance_if next cursor) + (if head_is next cursor then 1 else 0) =
   length cursor)%nat.
Proof.
  intros Hs Hle. destruct Hs as [|y cursor Hs Hy]; cbn.
  { split; [constructor|]. setoid_rewrite elem_of_nil. naive_solver. }
  rewrite list.Forall_forall in Hy. assert (next <= y) by (apply Hle; left).
  destruct (Z.eqb_spec y next) as [->|Hne].
  - split; [done|]. split; [|split; [split; [by left|done]|lia]].
    intros x. rewrite elem_of_cons. split.
    + intros Hx. split; [by right|by apply Hy].
    + intros [[->|Hx] Hlt]; [lia|done].
  - split; [by constructor; [|apply list.Forall_forall]|].
    split; [|split; [|cbn; lia]].
    + intros x. rewrite elem_of_cons. split; [|naive_solver].
      intros Hx. split; [done|]. destruct Hx as [->|Hx]; [lia|].
      apply Hy in Hx. lia.
    + rewrite elem_of_cons. split; [done|]. intros [->|Hx]; [done|].
      apply Hy in Hx. lia.
Qed.

(** The next identifier of three cursors. *)
Definition next3 (a b c : list Z) : Z :=
  min_head c (min_head b (min_head a UINT64_MAX)).

Lemma next3_spec (a b c : list Z) :
  StronglySorted Z.lt a -> StronglySorted Z.lt b -> StronglySorted Z.lt c ->
  next3 a b c <= UINT64_MAX /\
  (forall x, x ∈ a \/ x ∈ b \/ x ∈ c -> next3 a b c <= x) /\
  (next3 a b c = UINT64_MAX \/
   next3 a b c ∈ a \/ next3 a b c ∈ b \/ next3 a b c ∈ c).
Proof.
  intros Ha Hb Hc. unfold next3.
  destruct (min_head_spec a UINT64_MAX Ha) as (A1 & A2 & A3).
  destruct (min_head_spec b (min_head a UINT64_MAX) Hb) as (B1 & B2 & B3).
  destruct (min_head_spec c (min_head b (min_head a UINT64_MAX)) Hc)
    as (C1 & C2 & C3).
  split; [lia|]. split.
  - intros x [Hx|[Hx|Hx]]; [apply A2 in Hx|apply B2 in Hx|apply C2 in Hx]; lia.
  - destruct C3 as [->|]; [|by auto]. destruct B3 as [->|]; [|by auto].
    destruct A3 as [->|]; auto.
Qed.

(** What one iteration of a three-way merge does to the cursors. *)
Lemma merge_step (a b c : list Z) :
  StronglySorted Z.lt a -> StronglySorted Z.lt b -> StronglySorted Z.lt c ->
  ids_below_max a -> ids_below_max b -> ids_below_max c ->
  a <> [] \/ b <> [] \/ c <> [] ->
  let n := next3 a b c in
  n < UINT64_MAX /\
  (n ∈ a \/ n ∈ b \/ n ∈ c) /\
  (forall x, x ∈ a \/ x ∈ b \/ x ∈ c -> n <= x) /\
  (length (advance_if n a) + length (advance_if n b) + length (advance_if n c) <
   length a + length b + length c)%nat.
Proof.
  intros Ha Hb Hc Ma Mb Mc Hne n.
  unfold ids_below_max in *. rewrite list.Forall_forall in Ma, Mb, Mc.
  destruct (next3_spec a b c Ha Hb Hc) as (Hmax & Hmin & Hin). fold n in Hmax, Hmin, Hin.
  assert (n <> UINT64_MAX) as Hnm.
  { intros Heq.
    assert (exists x, x < UINT64_MAX /\ (x ∈ a \/ x ∈ b \/ x ∈ c)) as (x & Hx & Hxin).
    { destruct a as [|x a]; [destruct b as [|x b]; [destruct c as [|x c]|]|].
      - naive_solver.
      - exists x. split; [apply Mc; left|]. do 2 right. left.
      - exists x. split; [apply Mb; left|]. right; left. left.
      - exists x. split; [apply Ma; left|]. left. left. }
    apply Hmin in Hxin. lia. }
  destruct Hin as [|Hin]; [done|].
  split; [lia|]. split; [done|]. split; [done|].
  destruct (advance_if_spec a n Ha) as (_ & _ & Hha & Hla); [eauto|].
  destruct (advance_if_spec b n Hb) as (_ & _ & Hhb & Hlb); [eauto|].
  destruct (advance_if_spec c n Hc) as (_ & _ & Hhc & Hlc); [eauto|].
  destruct (head_is n a), (head_is n b), (head_is n c); try lia.
  exfalso. destruct Hin as [H|[H|H]]; [apply Hha in H|apply Hhb in H|apply Hhc in H];
    done.
Qed.

Lemma advance_if_below_max (n : Z) (l : list Z) :
  ids_below_max l -> ids_below_max (advance_if n l).
Proof.
  intros H. destruct l as [|x l]; cbn; [done|].
  case_match; [by apply list.Forall_cons in H as [_ H]|done].
Qed.

Lemma union_count_loop_spec (fuel : nat) (a b c : list Z) (count : Z) :
  StronglySorted Z.lt a -> StronglySorted Z.lt b -> StronglySorted Z.lt c ->
  ids_below_max a -> ids_below_max b -> ids_below_max c ->
  (length a + length b + length c <= fuel)%nat ->
  exists u, union_count_loop fuel a b c count = count + Z.of_nat (length u) /\
    NoDup u /\ (forall x, x ∈ u <-> x ∈ a \/ x ∈ b \/ x ∈ c).
Proof.
  revert a b c count. induction fuel as [|fuel IH];
    intros a b c count Ha Hb Hc Ma Mb Mc Hf.
  { destruct a, b, c; cbn in Hf; try lia. exists []. cbn.
    split; [lia|]. split; [constructor|]. setoid_rewrite elem_of_nil. naive_solver. }
  destruct (decide (a = [] /\ b = [] /\ c = [])) as [(-> & -> & ->)|Hne].
  { exists []. cbn. split; [lia|]. split; [constructor|].
    setoid_rewrite elem_of_nil. naive_solver. }
  destruct (merge_step a b c) as (Hmax & Hin & Hmin & Hlen); try done.
  { destruct a, b, c; naive_solver. }
  set (n := next3 a b c) in *.
  destruct (advance_if_spec a n Ha) as (Sa & Ea & _ & _); [naive_solver|].
  destruct (advance_if_spec b n Hb) as (Sb & Eb & _ & _); [naive_solver|].
  destruct (advance_if_spec c n Hc) as (Sc & Ec & _ & _); [naive_solver|].
  destruct (IH (advance_if n a) (advance_if n b) (advance_if n c) (count + 1))
    as (u & Hu & Hnd & Hel); eauto using advance_if_below_max; [lia|].
  exists (n :: u). split; [|split].
  - transitivity (union_count_loop fuel (advance_if n a) (advance_if n b)
      (advance_if n c) (count + 1)).
    + destruct a, b, c; done.
    + rewrite Hu. cbn [length]. lia.
  - constructor; [|done]. rewrite Hel, Ea, Eb, Ec. lia.
  - intros x. rewrite elem_of_cons, Hel, Ea, Eb, Ec. split.
    + intros [->|H]; naive_solver.
    + intros H. destruct (decide (x = n)); [by left|right].
      assert (n < x) by (apply Hmin in H; lia). tauto.
Qed.

(** ** The joint configuration *)

Definition is_not_learner (m : tr_raft_conf_member) : bool :=
  negb (member_roles m =? TR_RAFT_CONF_LEARNER).

(** The roles the joint loop gives an identifier. *)
Definition joint_roles (old voter learner : bool) : Z :=
  let roles := 0 in
  let roles := if old then Z.lor roles TR_RAFT_CONF_OLD_VOTER else roles in
  let roles := if voter then Z.lor roles TR_RAFT_CONF_NEW_VOTER else roles in
  if learner then Z.lor roles TR_RAFT_CONF_LEARNER else roles.

Definition joint_member (a v l : list Z) (id : Z) : tr_raft_conf_member :=
  Member id (joint_roles (bool_decide (id ∈ a)) (bool_decide (id ∈ v))
               (bool_decide (id ∈ l))).

Lemma skip_learners_spec (ms : list tr_raft_conf_member) :
  voters_by is_not_learner (skip_learners ms) = voters_by is_not_learner ms /\
  (length (skip_learners ms) <= length ms)%nat /\
  (skip_learners ms = [] \/
   exists m rest, skip_learners ms = m :: rest /\ is_not_learner m = true).
Proof.
  unfold voters_by, is_not_learner.
  induction ms as [|m ms (IH1 & IH2 & IH3)]; cbn; [auto|].
  destruct (member_roles m =? TR_RAFT_CONF_LEARNER) eqn:E; cbn.
  - rewrite IH1. split; [done|]. split; [lia|done].
  - rewrite E. cbn. split; [done|]. split; [lia|]. right.
    exists m, ms. by rewrite E.
Qed.

(** The cursor of members acts as the cursor of the voters left in it. *)
Lemma skip_learners_cursor (ms : list tr_raft_conf_member) (n : Z) :
  let cur := skip_learners ms in
  let a := voters_by is_not_learner ms in
  min_head (member_node_id <$> cur) UINT64_MAX = min_head a UINT64_MAX /\
  head_is n (member_node_id <$> cur) = head_is n a /\
  voters_by is_not_learner (advance_member_if n cur) = advance_if n a.
Proof.
  intros cur a. destruct (skip_learners_spec ms) as (Ha & _ & H).
  unfold a. rewrite <- Ha. fold cur in H |- *.
  destruct H as [->|(m & rest & -> & Hm)]; [done|].
  unfold voters_by. cbn [List.filter]. rewrite Hm. cbn.
  split; [done|]. split; [done|]. case_match; [done|].
  cbn. by rewrite Hm.
Qed.

(** One iteration, in terms of the voters left in the current cursor. *)
Lemma joint_loop_S (fuel : nat) (ms : list tr_raft_conf_member)
    (v l : list Z) (acc : list tr_raft_conf_member) :
  ~ (ms = [] /\ v = [] /\ l = []) ->
  let a := voters_by is_not_learner ms in
  let n := next3 a v l in
  let roles := joint_roles (head_is n a) (head_is n v) (head_is n l) in
  joint_loop (S fuel) ms v l acc =
  if n =? UINT64_MAX then acc
  else joint_loop fuel (advance_member_if n (skip_learners ms))
         (advance_if n v) (advance_if n l)
         (if head_is n a || negb (roles =? 0) then acc ++ [Member n roles] else acc).
Proof.
  intros Hne a n roles. subst roles.
  destruct (skip_learners_cursor ms n) as (Hmin & Hhead & _). fold a in Hmin, Hhead.
  subst n. unfold next3, joint_roles in *. rewrite <- Hmin, <- Hhead in *.
  destruct ms, v, l; done || (exfalso; by apply Hne).
Qed.

Lemma joint_member_advance (a v l : list Z) (n id : Z) :
  StronglySorted Z.lt a -> StronglySorted Z.lt v -> StronglySorted Z.lt l ->
  (forall x, x ∈ a \/ x ∈ v \/ x ∈ l -> n <= x) -> n < id ->
  joint_member (advance_if n a) (advance_if n v) (advance_if n l) id =
  joint_member a v l id.
Proof.
  intros Ha Hv Hl Hmin Hlt. unfold joint_member.
  destruct (advance_if_spec a n Ha) as (_ & Ea & _); [eauto|].
  destruct (advance_if_spec v n Hv) as (_ & Ev & _); [eauto|].
  destruct (advance_if_spec l n Hl) as (_ & El & _); [eauto|].
  f_equal. f_equal; apply bool_decide_ext; rewrite ?Ea, ?Ev, ?El; tauto.
Qed.

Lemma head_is_decide (cursor : list Z) (n : Z) :
  StronglySorted Z.lt cursor -> (forall x, x ∈ cursor -> n <= x) ->
  head_is n cursor = bool_decide (n ∈ cursor).
Proof.
  intros Hs Hmin. apply eq_true_iff_eq. rewrite bool_decide_eq_true.
  by apply advance_if_spec.
Qed.

Lemma length_advance_member (n : Z) (cur : list tr_raft_conf_member) :
  (length (advance_member_if n cur) +
   (if head_is n (member_node_id <$> cur) then 1 else 0) = length cur)%nat.
Proof. destruct cur as [|m cur]; cbn; [done|]. case_match; cbn; lia. Qed.

Lemma joint_roles_nonzero (old voter learner : bool) :
  old = true \/ voter = true \/ learner = true ->
  joint_roles old voter learner <> 0.
Proof. destruct old, voter, learner; naive_solver. Qed.

(** The members left after taking the smallest identifier [n]. *)
Definition joint_spec (a v l : list Z) (members : list tr_raft_conf_member) : Prop :=
  StronglySorted member_lt members /\
  forall m, m ∈ members <->
    (member_node_id m ∈ a \/ member_node_id m ∈ v \/ member_node_id m ∈ l) /\
    m = joint_member a v l (member_node_id m).

Lemma joint_spec_nil : joint_spec [] [] [] [].
Proof. split; [constructor|]. intros m. rewrite !elem_of_nil. tauto. Qed.

Lemma joint_spec_cons (a v l : list Z) (n : Z) rest :
  StronglySorted Z.lt a -> StronglySorted Z.lt v -> StronglySorted Z.lt l ->
  (n ∈ a \/ n ∈ v \/ n ∈ l) ->
  (forall x, x ∈ a \/ x ∈ v \/ x ∈ l -> n <= x) ->
  joint_spec (advance_if n a) (advance_if n v) (advance_if n l) rest ->
  joint_spec a v l (joint_member a v l n :: rest).
Proof.
  intros Ha Hv Hl Hin Hmin [Hs Hel].
  destruct (advance_if_spec a n Ha) as (_ & Ea & _); [eauto|].
  destruct (advance_if_spec v n Hv) as (_ & Ev & _); [eauto|].
  destruct (advance_if_spec l n Hl) as (_ & El & _); [eauto|].
  assert (forall m, m ∈ rest -> n < member_node_id m) as Hgt.
  { intros m Hm. apply Hel in Hm as [Hm _]. rewrite Ea, Ev, El in Hm. tauto. }
  split.
  { constructor; [done|]. apply list.Forall_forall. intros m Hm. by apply Hgt. }
  intros m. rewrite elem_of_cons. split.
  - intros [->|Hm]; [done|]. specialize (Hgt m Hm).
    apply Hel in Hm as [Hm Heq]. rewrite joint_member_advance in Heq by done.
    split; [|done]. rewrite Ea, Ev, El in Hm. tauto.
  - intros [Hm Heq]. destruct (decide (member_node_id m = n)) as [Hid|Hid].
    + left. rewrite Heq, Hid. done.
    + right. apply Hel. apply Hmin in Hm as Hle.
      rewrite joint_member_advance by (done || lia).
      split; [|done]. rewrite Ea, Ev, El. assert (n < member_node_id m) by lia. tauto.
Qed.

Lemma joint_loop_spec (fuel : nat) (ms : list tr_raft_conf_member)
    (v l : list Z) (acc : list tr_raft_conf_member) :
  let a := voters_by is_not_learner ms in
  StronglySorted Z.lt a -> StronglySorted Z.lt v -> StronglySorted Z.lt l ->
  ids_below_max a -> ids_below_max v -> ids_below_max l ->
  (length ms + length v + length l <= fuel)%nat ->
  exists rest, joint_loop fuel ms v l acc = acc ++ rest /\ joint_spec a v l rest.
Proof.
  revert ms v l acc. induction fuel as [|fuel IH];
    intros ms v l acc a Ha Hv Hl Ma Mv Ml Hf.
  { destruct ms, v, l; cbn in Hf; try lia. exists []. rewrite app_nil_r.
    split; [done|apply joint_spec_nil]. }
  destruct (decide (a = [] /\ v = [] /\ l = [])) as [(Ha0 & -> & ->)|Hne].
  { exists []. rewrite app_nil_r, Ha0. split; [|apply joint_spec_nil].
    destruct ms as [|m ms]; [done|].
    rewrite joint_loop_S by naive_solver. fold a. by rewrite Ha0. }
  destruct (merge_step a v l) as (Hmax & Hin & Hmin & _); try done.
  { destruct a, v, l; naive_solver. }
  set (n := next3 a v l) in *.
  destruct (advance_if_spec a n Ha) as (Sa & _ & _ & _); [eauto|].
  destruct (advance_if_spec v n Hv) as (Sv & _ & _ & Cv); [eauto|].
  destruct (advance_if_spec l n Hl) as (Sl & _ & _ & Cl); [eauto|].
  destruct (skip_learners_cursor ms n) as (_ & Hhead & Hadv). fold a in Hhead, Hadv.
  destruct (skip_learners_spec ms) as (_ & Hsk & _).
  pose proof (length_advance_member n (skip_learners ms)) as Cm.
  rewrite Hhead in Cm.
  assert (head_is n a = true \/ head_is n v = true \/ head_is n l = true) as Hany.
  { rewrite !head_is_decide, !bool_decide_eq_true by eauto. done. }
  destruct (IH (advance_member_if n (skip_learners ms)) (advance_if n v)
    (advance_if n l) (acc ++ [joint_member a v l n])) as (rest & Hrest & Hspec);
    rewrite ?Hadv; eauto using advance_if_below_max.
  { destruct (head_is n a), (head_is n v), (head_is n l); try lia; naive_solver. }
  exists (joint_member a v l n :: rest). rewrite Hadv in Hspec. split.
  - rewrite joint_loop_S by (intros (-> & -> & ->); by apply Hne).
    fold a. fold n. replace (n =? UINT64_MAX) with false by lia.
    apply joint_roles_nonzero in Hany.
    replace (head_is n a || _) with true
      by (symmetry; apply orb_true_iff; right; lia).
    unfold joint_member in Hrest. rewrite <- !head_is_decide in Hrest by eauto.
    rewrite Hrest, <- (assoc_L (++)). unfold joint_member.
    by rewrite <- !head_is_decide by eauto.
  - by apply joint_spec_cons.
Qed.

(** ** Target sets and stable memberships *)

Lemma sets_disjoint_spec (fuel : nat) (vs ls : list Z) :
  StronglySorted Z.lt vs -> StronglySorted Z.lt ls ->
  (length vs + length ls <= fuel)%nat ->
  sets_disjoint fuel vs ls = true <->
  (forall id, id ∈ vs -> id ∈ ls -> False).
Proof.
  intros Hv. revert vs ls Hv. induction fuel as [|fuel IH]; intros vs ls Hv Hl Hf.
  { destruct vs, ls; cbn in Hf; try lia. split; [|done].
    intros _ id Hid. by apply elem_of_nil in Hid. }
  destruct Hv as [|v vs Hv Hvx].
  { split; [|done]. intros _ id Hid. by apply elem_of_nil in Hid. }
  destruct Hl as [|l ls Hl Hlx].
  { split; [|done]. intros _ id _ Hid. by apply elem_of_nil in Hid. }
  cbn in *. rewrite list.Forall_forall in Hvx, Hlx.
  destruct (Z.eqb_spec v l) as [->|Hne].
  { split; [done|]. intros H. exfalso. apply (H l); left. }
  destruct (Z.ltb_spec v l) as [Hlt|Hge].
  - rewrite IH by (done || (by constructor; [|apply list.Forall_forall]) || (cbn; lia)).
    setoid_rewrite elem_of_cons. split; intros H id.
    + intros [->|Hid] Hid'; [|by apply (H id); [|]].
      destruct Hid' as [?|Hid']; [lia|]. apply Hlx in Hid'. lia.
    + intros Hid Hid'. by apply (H id); [right|].
  - rewrite IH by (done || (by constructor; [|apply list.Forall_forall]) || (cbn; lia)).
    setoid_rewrite elem_of_cons. split; intros H id.
    + intros Hid [->|Hid']; [|by apply (H id)].
      destruct Hid as [?|Hid]; [lia|]. apply Hvx in Hid. lia.
    + intros Hid Hid'. by apply (H id); [|right].
Qed.

Lemma validate_set_spec voters vc learners lc :
  tr_raft_membership_validate_set voters vc learners lc = SALTS_OK ->
  let vs := array_elems voters vc in
  let ls := array_elems learners lc in
  ids_wf vs /\ ids_wf ls /\ (forall id, id ∈ vs -> id ∈ ls -> False) /\
  vc <> 0 /\ vc <= TR_RAFT_MAX_MEMBERS /\ vc + lc <= TR_RAFT_MAX_MEMBERS.
Proof.
  intros H vs ls. unfold tr_raft_membership_validate_set in H. fold vs ls in H.
  case_match eqn:Hg; [done|].
  destruct (ids_ascending_from None vs) eqn:Hvs; [|done].
  destruct (ids_ascending_from None ls) eqn:Hls; [|done]. cbn [negb] in H.
  case_match eqn:Hd; [|done].
  apply ids_ascending_spec in Hvs, Hls.
  rewrite sets_disjoint_spec in Hd by (lia || (by destruct Hvs) || by destruct Hls).
  rewrite !orb_false_iff in Hg. destruct Hg as [[[[[_ Hg2] Hg3] Hg4] _] _].
  split; [done|]. split; [done|]. split; [done|]. lia.
Qed.

(** The members of a stable configuration. *)
Definition stable_spec (v l : list Z) (members : list tr_raft_conf_member) : Prop :=
  StronglySorted member_lt members /\
  forall m, m ∈ members <->
    (member_node_id m ∈ v /\ member_roles m = voter_roles) \/
    (member_node_id m ∈ l /\ member_roles m = TR_RAFT_CONF_LEARNER).

Lemma stable_spec_voter (id : Z) (v l : list Z) rest :
  (forall x, x ∈ v -> id < x) -> (forall x, x ∈ l -> id < x) ->
  stable_spec v l rest -> stable_spec (id :: v) l (Member id voter_roles :: rest).
Proof.
  intros Hv Hl [Hs Hel]. split.
  - constructor; [done|]. apply list.Forall_forall. intros m Hm.
    apply Hel in Hm as [[Hm _]|[Hm _]]; unfold member_lt; cbn; eauto.
  - intros [i roles]. rewrite elem_of_cons, Hel, elem_of_cons. cbn.
    naive_solver.
Qed.

Lemma stable_spec_learner (id : Z) (v l : list Z) rest :
  (forall x, x ∈ v -> id < x) -> (forall x, x ∈ l -> id < x) ->
  stable_spec v l rest ->
  stable_spec v (id :: l) (Member id TR_RAFT_CONF_LEARNER :: rest).
Proof.
  intros Hv Hl [Hs Hel]. split.
  - constructor; [done|]. apply list.Forall_forall. intros m Hm.
    apply Hel in Hm as [[Hm _]|[Hm _]]; unfold member_lt; cbn; eauto.
  - intros [i roles]. rewrite elem_of_cons, Hel, elem_of_cons. cbn.
    naive_solver.
Qed.

Lemma stable_loop_spec (fuel : nat) (vs ls : list Z) :
  StronglySorted Z.lt vs -> StronglySorted Z.lt ls ->
  (forall id, id ∈ vs -> id ∈ ls -> False) ->
  (length vs + length ls <= fuel)%nat ->
  stable_spec vs ls (stable_loop fuel vs ls).
Proof.
  assert (stable_spec [] [] []) as Hnil.
  { split; [constructor|]. intros m. rewrite !elem_of_nil. tauto. }
  revert vs ls. induction fuel as [|fuel IH]; intros vs ls Hv Hl Hd Hf.
  { by destruct vs, ls; cbn in Hf; try lia. }
  destruct vs as [|v vs], ls as [|l ls]; [done|..].
  - inversion_clear Hl as [|? ? Hl' Hlx]. rewrite list.Forall_forall in Hlx.
    apply stable_spec_learner; [by intros x Hx%elem_of_nil|done|].
    apply IH; [done|done|by intros ? Hx%elem_of_nil|cbn in *; lia].
  - inversion_clear Hv as [|? ? Hv' Hvx]. rewrite list.Forall_forall in Hvx.
    apply stable_spec_voter; [done|by intros x Hx%elem_of_nil|].
    apply IH; [done|done|by intros ? _ Hx%elem_of_nil|cbn in *; lia].
  - inversion Hv as [|? ? Hv' Hvx]; inversion Hl as [|? ? Hl' Hlx]; subst.
    rewrite list.Forall_forall in Hvx, Hlx. cbn [stable_loop].
    destruct (Z.ltb_spec v l) as [Hlt|Hge].
    + apply stable_spec_voter; [done| |].
      * intros x [->|Hx]%elem_of_cons; [lia|]. apply Hlx in Hx. lia.
      * apply IH; [done|done| |cbn in *; lia].
        intros id Hid. apply Hd. by right.
    + assert (v <> l) by (intros ->; apply (Hd l); left).
      apply stable_spec_learner; [|done|].
      * intros x [->|Hx]%elem_of_cons; [lia|]. apply Hvx in Hx. lia.
      * apply IH; [done|done| |cbn in *; lia].
        intros id Hid Hid'. apply (Hd id Hid). by right.
Qed.

Lemma stable_spec_unique (v l : list Z) ms1 ms2 :
  stable_spec v l ms1 -> stable_spec v l ms2 -> ms1 = ms2.
Proof.
  intros [Hs1 H1] [Hs2 H2]. apply (StronglySorted_ext member_lt); try done.
  - unfold member_lt. lia.
  - intros m. by rewrite H1, H2.
Qed.

(** The final configuration of a joint one keeps exactly its targets. *)
Definition final_keep (m : tr_raft_conf_member) : bool :=
  negb (Z.land (member_roles m)
          (Z.lor TR_RAFT_CONF_NEW_VOTER TR_RAFT_CONF_LEARNER) =? 0).
Definition final_member (m : tr_raft_conf_member) : tr_raft_conf_member :=
  Member (member_node_id m) (if is_new_voter m then voter_roles
                             else TR_RAFT_CONF_LEARNER).

Lemma final_members_filter (ms : list tr_raft_conf_member) :
  final_members ms = final_member <$> List.filter final_keep ms.
Proof.
  induction ms as [|m ms IH]; [done|].
  cbn [final_members List.filter]. rewrite IH. unfold final_keep.
  by destruct (Z.land (member_roles m) _ =? 0).
Qed.

(** The flags of a member of a joint configuration. *)
Lemma joint_member_flags (a v l : list Z) (id : Z) :
  let m := joint_member a v l id in
  is_old_voter m = bool_decide (id ∈ a) /\
  is_new_voter m = bool_decide (id ∈ v) /\
  final_keep m = bool_decide (id ∈ v) || bool_decide (id ∈ l).
Proof.
  unfold is_old_voter, is_new_voter, final_keep, joint_member. cbn.
  by destruct (bool_decide (id ∈ a)), (bool_decide (id ∈ v)),
    (bool_decide (id ∈ l)).
Qed.

Lemma joint_spec_flags (a v l : list Z) ms m :
  joint_spec a v l ms -> m ∈ ms ->
  is_old_voter m = bool_decide (member_node_id m ∈ a) /\
  is_new_voter m = bool_decide (member_node_id m ∈ v) /\
  final_keep m =
    bool_decide (member_node_id m ∈ v) || bool_decide (member_node_id m ∈ l).
Proof.
  intros [_ Hel] Hm. apply Hel in Hm as [_ Heq]. rewrite Heq.
  apply joint_member_flags.
Qed.

Lemma joint_spec_member (a v l : list Z) ms id :
  joint_spec a v l ms -> id ∈ a \/ id ∈ v \/ id ∈ l ->
  joint_member a v l id ∈ ms.
Proof. intros [_ Hel] Hid. by apply Hel. Qed.

Lemma final_members_spec (a v l : list Z) ms :
  (forall id, id ∈ v -> id ∈ l -> False) ->
  joint_spec a v l ms -> stable_spec v l (final_members ms).
Proof.
  intros Hd Hspec. rewrite final_members_filter. split.
  { eapply StronglySorted_map_filter; [|apply Hspec]. done. }
  intros m. rewrite list_elem_of_fmap. split.
  - intros (s & -> & [Hs Hk]%elem_of_List_filter).
    destruct (joint_spec_flags a v l ms s) as (_ & Hn & Hf); [done|done|].
    rewrite Hf, orb_true_iff, !bool_decide_eq_true in Hk.
    unfold final_member. cbn. rewrite Hn.
    case_bool_decide; [by left|right]. naive_solver.
  - intros Hm. exists (joint_member a v l (member_node_id m)).
    destruct (joint_member_flags a v l (member_node_id m)) as (_ & Hn & Hf).
    rewrite elem_of_List_filter, Hf. unfold final_member. rewrite Hn. cbn.
    rewrite orb_true_iff, !bool_decide_eq_true.
    split; [|split; [apply (joint_spec_member a v l ms); [done|]|]].
    + destruct m as [id roles]. cbn in *. case_bool_decide; [|naive_solver].
      destruct Hm as [[_ ->]|[Hl _]]; [done|]. by destruct (Hd id).
    + naive_solver.
    + naive_solver.
Qed.

(** ** Stable configurations *)

Definition is_stable_roles (m : tr_raft_conf_member) : Prop :=
  member_roles m = voter_roles \/ member_roles m = TR_RAFT_CONF_LEARNER.

Lemma stable_members_valid_spec prev ms count :
  0 <= count ->
  stable_members_valid prev ms count = true <->
  ids_ascending_from prev (member_node_id <$> ms) = true /\
  Forall is_stable_roles ms /\
  0 < count + countb (fun m => member_roles m =? voter_roles) ms.
Proof.
  revert prev count. induction ms as [|m ms IH]; intros prev count Hc.
  { cbn. split.
    - intros H. split; [done|]. split; [constructor|lia].
    - intros (_ & _ & H). lia. }
  cbn [stable_members_valid fmap list_fmap ids_ascending_from countb].
  fold (member_node_id <$> ms). rewrite list.Forall_cons.
  assert (((member_node_id m =? 0) ||
     match prev with None => false | Some p => member_node_id m <=? p end)
     = negb (negb (member_node_id m =? 0) &&
         match prev with None => true | Some p => p <? member_node_id m end))
    as -> by (destruct prev, (_ =? 0); cbn; lia).
  destruct (negb (member_node_id m =? 0) && _); cbn [negb orb andb].
  2: { split; [done|]. by intros [? _]. }
  unfold is_stable_roles.
  destruct (Z.eqb_spec (member_roles m) voter_roles) as [Hv|Hv]; cbn [negb andb].
  { rewrite IH by (cbn; lia). cbn [Z.b2z]. rewrite <- Z.add_assoc. naive_solver. }
  destruct (Z.eqb_spec (member_roles m) TR_RAFT_CONF_LEARNER) as [Hl|Hl];
    cbn [negb].
  - rewrite IH by (cbn; lia). cbn [Z.b2z]. rewrite <- Z.add_assoc. naive_solver.
  - split; [done|]. naive_solver.
Qed.

Lemma stable_valid_spec (c : tr_raft_conf) :
  tr_raft_membership_stable_valid c = true ->
  conf_phase c = TR_RAFT_CONF_FINAL /\ ids_wf (conf_ids c) /\
  conf_member_count c <= TR_RAFT_MAX_MEMBERS /\
  Forall is_stable_roles (conf_members c) /\
  exists m, m ∈ conf_members c /\ member_roles m = voter_roles.
Proof.
  unfold tr_raft_membership_stable_valid. case_match eqn:Hg; [done|].
  intros (Hids & Hroles & Hv)%stable_members_valid_spec; [|lia].
  rewrite Z.add_0_l in Hv. apply countb_pos in Hv as (m & Hm & Hr).
  apply ids_ascending_spec in Hids.
  rewrite !orb_false_iff, negb_false_iff in Hg.
  split; [lia|]. split; [done|]. split; [lia|]. split; [done|].
  exists m. split; [done|lia].
Qed.

Lemma voters_by_ext (f g : tr_raft_conf_member -> bool) ms :
  (forall m, m ∈ ms -> f m = g m) -> voters_by f ms = voters_by g ms.
Proof.
  intros H. unfold voters_by. f_equal. apply filter_ext_in.
  intros m Hm. apply H. by apply list_elem_of_In.
Qed.

Lemma stable_voters (ms : list tr_raft_conf_member) :
  Forall is_stable_roles ms ->
  voters_by is_old_voter ms = voters_by is_not_learner ms /\
  voters_by is_new_voter ms = voters_by is_not_learner ms.
Proof.
  intros H. rewrite list.Forall_forall in H.
  split; apply voters_by_ext; intros m Hm; destruct (H m Hm) as [Hr|Hr];
    unfold is_old_voter, is_new_voter, is_not_learner; by rewrite Hr.
Qed.

Lemma elem_of_voters_by (f : tr_raft_conf_member -> bool) ms id :
  id ∈ voters_by f ms <-> exists m, m ∈ ms /\ f m = true /\ member_node_id m = id.
Proof.
  unfold voters_by. rewrite list_elem_of_fmap.
  setoid_rewrite elem_of_List_filter. naive_solver.
Qed.

Lemma member_lt_ids (ms : list tr_raft_conf_member) :
  StronglySorted member_lt ms <-> StronglySorted Z.lt (member_node_id <$> ms).
Proof.
  split.
  - induction 1 as [|m ms Hs IH Hm]; cbn; constructor; [done|].
    rewrite list.Forall_forall in Hm. apply list.Forall_forall.
    intros id (m' & -> & Hm')%list_elem_of_fmap. by apply Hm.
  - induction ms as [|m ms IH]; intros H; [constructor|].
    inversion_clear H as [|? ? Hs Hm]. constructor; [by apply IH|].
    rewrite list.Forall_forall in Hm. apply list.Forall_forall.
    intros m' Hm'. apply Hm. by apply list_elem_of_fmap_2.
Qed.

Lemma voters_by_sorted (f : tr_raft_conf_member -> bool) ms :
  StronglySorted member_lt ms -> StronglySorted Z.lt (voters_by f ms).
Proof. by apply StronglySorted_map_filter. Qed.

(** The majorities of a joint configuration are the two sets it joins. *)
Lemma joint_spec_voters (a v l : list Z) ms :
  StronglySorted Z.lt a -> StronglySorted Z.lt v -> joint_spec a v l ms ->
  voters_by is_old_voter ms = a /\ voters_by is_new_voter ms = v.
Proof.
  intros Ha Hv Hspec. split; apply StronglySorted_lt_ext; try done;
    try (apply voters_by_sorted, Hspec); intros id; rewrite elem_of_voters_by.
  - split.
    + intros (m & Hm & Ho & <-).
      destruct (joint_spec_flags a v l ms m) as (Hf & _); [done|done|].
      rewrite Hf in Ho. by apply bool_decide_eq_true in Ho.
    + intros Hid. exists (joint_member a v l id).
      split; [apply (joint_spec_member a v l ms); auto|].
      split; [|done]. destruct (joint_member_flags a v l id) as (-> & _).
      by apply bool_decide_eq_true.
  - split.
    + intros (m & Hm & Ho & <-).
      destruct (joint_spec_flags a v l ms m) as (_ & Hf & _); [done|done|].
      rewrite Hf in Ho. by apply bool_decide_eq_true in Ho.
    + intros Hid. exists (joint_member a v l id).
      split; [apply (joint_spec_member a v l ms); auto|].
      split; [|done]. destruct (joint_member_flags a v l id) as (_ & -> & _).
      by apply bool_decide_eq_true.
Qed.

Lemma stable_spec_voters (v l : list Z) ms :
  StronglySorted Z.lt v -> stable_spec v l ms ->
  voters_by is_old_voter ms = v /\ voters_by is_new_voter ms = v.
Proof.
  intros Hv [Hs Hel].
  assert (Forall is_stable_roles ms) as Hroles.
  { apply list.Forall_forall. intros m Hm. apply Hel in Hm. unfold is_stable_roles.
    naive_solver. }
  destruct (stable_voters ms Hroles) as [-> ->].
  split; apply StronglySorted_lt_ext; try done;
    try (by apply voters_by_sorted); intros id; rewrite elem_of_voters_by; split.
  1, 3: intros (m & Hm & Hn & <-); apply Hel in Hm; unfold is_not_learner in Hn;
    destruct Hm as [[Hm _]|[_ Hm]]; [done|]; rewrite Hm in Hn; done.
  1, 2: intros Hid; exists (Member id voter_roles); rewrite Hel; cbn; auto.
Qed.

(** ** Transitions *)

Lemma ids_wf_members_sorted (c : tr_raft_conf) :
  ids_wf (conf_ids c) -> StronglySorted member_lt (conf_members c).
Proof. intros [_ Hs]. by apply member_lt_ids. Qed.

Lemma voters_by_incl (f : tr_raft_conf_member -> bool) c id :
  id ∈ voters_by f (conf_members c) -> id ∈ conf_ids c.
Proof.
  rewrite elem_of_voters_by. intros (m & Hm & _ & <-).
  by apply list_elem_of_fmap_2.
Qed.

Lemma joint_spec_wf (a v l : list Z) ms (tid : Z) :
  (forall id, id ∈ a \/ id ∈ v \/ id ∈ l -> id <> 0) ->
  (forall id, id ∈ v -> id ∈ l -> False) ->
  a <> [] -> v <> [] -> tid <> 0 ->
  Z.of_nat (length ms) <= TR_RAFT_MAX_MEMBERS -> joint_spec a v l ms ->
  conf_wf (Conf TR_RAFT_CONF_JOINT tid ms).
Proof.
  intros Hnz Hd Ha Hv Ht Hlen Hspec.
  assert (forall (x : list Z), x <> [] -> exists id, id ∈ x) as Hne.
  { intros [|id x] H; [done|]. exists id. left. }
  constructor; cbn [conf_phase conf_transition_id conf_members]; auto.
  - split.
    + unfold conf_ids. apply list.Forall_forall.
      intros id (m & -> & Hm)%list_elem_of_fmap. apply Hspec in Hm as [Hm _]. eauto.
    + apply member_lt_ids, Hspec.
  - apply list.Forall_forall. intros m Hm.
    apply Hspec in Hm as [Hm Heq]. rewrite Heq. unfold joint_member. cbn.
    specialize (Hd (member_node_id m)).
    repeat case_bool_decide; (done || naive_solver).
  - destruct (Hne a Ha) as [id Hid]. exists (joint_member a v l id).
    split; [apply (joint_spec_member a v l ms); auto|].
    destruct (joint_member_flags a v l id) as (-> & _). by apply bool_decide_eq_true.
  - destruct (Hne v Hv) as [id Hid]. exists (joint_member a v l id).
    split; [apply (joint_spec_member a v l ms); auto|].
    destruct (joint_member_flags a v l id) as (_ & -> & _). by apply bool_decide_eq_true.
Qed.

Section Joint.
Context (cur : tr_raft_conf) (tv : option (list Z)) (tvc : Z)
  (tl : option (list Z)) (tlc tid : Z).
Abbreviation vs := (array_elems tv tvc).
Abbreviation ls := (array_elems tl tlc).
Context (Mcur : ids_below_max (conf_ids cur)) (Mvs : ids_below_max vs)
  (Mls : ids_below_max ls).
Context (Hstable : tr_raft_membership_stable_valid cur = true)
  (Htarget : tr_raft_membership_validate_set tv tvc tl tlc = SALTS_OK).

Lemma union_count_bound (ids : list Z) :
  NoDup ids -> (forall x, x ∈ ids -> x ∈ conf_ids cur \/ x ∈ vs \/ x ∈ ls) ->
  Z.of_nat (length ids) <= tr_raft_membership_union_count cur vs ls.
Proof.
  intros Hnd Hin.
  destruct (stable_valid_spec cur Hstable) as (_ & [_ Hcs] & _).
  destruct (validate_set_spec _ _ _ _ Htarget) as ([_ Hvs] & [_ Hls] & _).
  unfold tr_raft_membership_union_count.
  edestruct (union_count_loop_spec (length (conf_members cur) + length vs + length ls)
    (conf_ids cur) vs ls 0) as (u & -> & Hu & Hel); try done.
  { unfold conf_ids. by rewrite length_fmap. }
  enough (length ids <= length u)%nat by lia.
  apply submseteq_length, NoDup_submseteq; [done|].
  intros x Hx. apply Hel. auto.
Qed.

Lemma joint_members_exist :
  exists ms,
    joint_loop (length (conf_members cur) + length vs + length ls)
      (conf_members cur) vs ls [] = ms /\
    joint_spec (old_voters cur) vs ls ms.
Proof.
  destruct (stable_valid_spec cur Hstable) as (_ & Hids & _ & Hroles & _).
  destruct (validate_set_spec _ _ _ _ Htarget) as ([_ Hvs] & [_ Hls] & _).
  apply ids_wf_members_sorted in Hids.
  destruct (stable_voters _ Hroles) as [Hold _].
  destruct (joint_loop_spec (length (conf_members cur) + length vs + length ls)
    (conf_members cur) vs ls []) as (rest & Hrest & Hspec); try done.
  - by apply voters_by_sorted.
  - unfold ids_below_max in *. rewrite list.Forall_forall in Mcur.
    apply list.Forall_forall. intros id Hid. by eapply Mcur, voters_by_incl.
  - exists rest. split; [done|]. unfold old_voters. by rewrite Hold.
Qed.

Lemma old_voters_nonempty : old_voters cur <> [].
Proof.
  destruct (stable_valid_spec cur Hstable) as (_ & _ & _ & _ & m & Hm & Hr).
  intros H0. apply (not_elem_of_nil (member_node_id m)). rewrite <- H0.
  apply elem_of_voters_by. exists m. split; [done|]. split; [|done].
  unfold is_old_voter. by rewrite Hr.
Qed.

(** Past its guards the construction always succeeds. *)
Lemma membership_joint_ok :
  tid <> 0 -> vs <> [] ->
  tr_raft_membership_union_count cur vs ls <= TR_RAFT_MAX_MEMBERS ->
  exists ms,
    tr_raft_membership_joint cur tv tvc tl tlc tid =
      (SALTS_OK, Some (Conf TR_RAFT_CONF_JOINT tid ms)) /\
    joint_spec (old_voters cur) vs ls ms /\
    conf_wf (Conf TR_RAFT_CONF_JOINT tid ms).
Proof.
  intros Ht Hvne Hbound.
  destruct joint_members_exist as (ms & Hms & Hspec).
  destruct (stable_valid_spec cur Hstable) as (_ & Hids & _).
  destruct (validate_set_spec _ _ _ _ Htarget) as (Hvs & Hls & Hd & _).
  assert (forall id, id ∈ old_voters cur \/ id ∈ vs \/ id ∈ ls ->
    (id ∈ conf_ids cur \/ id ∈ vs \/ id ∈ ls) /\ id <> 0) as Hin.
  { destruct Hids as [Hz _], Hvs as [Hz1 _], Hls as [Hz2 _].
    rewrite list.Forall_forall in Hz, Hz1, Hz2.
    intros id [H%voters_by_incl|[H|H]]; auto. }
  assert (Z.of_nat (length ms) <= TR_RAFT_MAX_MEMBERS) as Hlen.
  { rewrite <- (length_fmap member_node_id). etrans; [|apply Hbound].
    apply union_count_bound.
    - apply StronglySorted_lt_NoDup, member_lt_ids, Hspec.
    - intros x (m & -> & Hm)%list_elem_of_fmap. apply Hspec in Hm as [Hm _].
      by apply Hin. }
  assert (conf_wf (Conf TR_RAFT_CONF_JOINT tid ms)) as Hwf.
  { apply (joint_spec_wf (old_voters cur) vs ls); try done.
    - intros id Hid. by apply Hin.
    - apply old_voters_nonempty. }
  exists ms. split; [|done]. unfold tr_raft_membership_joint.
  replace (tid =? 0) with false by lia. rewrite Hstable, Htarget. cbn [negb orb failed ok].
  replace (TR_RAFT_MAX_MEMBERS <? _) with false by lia.
  rewrite Hms. by rewrite (proj2 (conf_validate_wf _) Hwf).
Qed.
End Joint.

(** What a successful construction returned. *)
Lemma membership_joint_inv cur tv tvc tl tlc tid j :
  ids_below_max (conf_ids cur) -> ids_below_max (array_elems tv tvc) ->
  ids_below_max (array_elems tl tlc) ->
  tr_raft_membership_joint cur tv tvc tl tlc tid = (SALTS_OK, Some j) ->
  tr_raft_membership_stable_valid cur = true /\
  tr_raft_membership_validate_set tv tvc tl tlc = SALTS_OK /\
  tid <> 0 /\ conf_wf j /\
  exists ms, j = Conf TR_RAFT_CONF_JOINT tid ms /\
    joint_spec (old_voters cur) (array_elems tv tvc) (array_elems tl tlc) ms.
Proof.
  intros Mc Mv Ml. unfold tr_raft_membership_joint.
  destruct (Z.eqb_spec tid 0); [done|].
  destruct (tr_raft_membership_stable_valid cur) eqn:Hs; [|done].
  destruct (tr_raft_membership_validate_set tv tvc tl tlc) eqn:Ht; try done.
  cbn [negb orb failed ok]. case_match; [done|].
  destruct (joint_members_exist cur tv tvc tl tlc) as (ms & -> & Hspec); try done.
  destruct (tr_raft_conf_validate _) eqn:Hv; cbn; try done. intros [= <-].
  apply conf_validate_wf in Hv. eauto 10.
Qed.

Lemma majority_acked_voter (f : tr_raft_conf_member -> bool) c id :
  (forall m, f m = true -> is_old_voter m = true \/ is_new_voter m = true) ->
  ids_wf (conf_ids c) -> id ∈ voters_by f (conf_members c) ->
  tr_raft_membership_is_voter c id = true.
Proof.
  intros Hf Hwf (m & Hm & Hv & <-)%elem_of_voters_by.
  apply is_voter_spec; [done|]. eauto.
Qed.

Lemma old_voter_is_voter c id :
  ids_wf (conf_ids c) -> id ∈ old_voters c ->
  tr_raft_membership_is_voter c id = true.
Proof. apply majority_acked_voter. auto. Qed.

Lemma new_voter_is_voter c id :
  ids_wf (conf_ids c) -> id ∈ new_voters c ->
  tr_raft_membership_is_voter c id = true.
Proof. apply majority_acked_voter. auto. Qed.

Lemma conf_wf_quorum c acks :
  conf_wf c -> tr_raft_membership_has_quorum c acks = true ->
  majority (old_voters c) (acked c acks) /\ majority (new_voters c) (acked c acks).
Proof. intros [_ _ Hb Hi _ _ _]. by apply has_quorum_spec. Qed.

(** Two configurations that share a voter set of their majorities: any two of
    their quorums have a voter of both in common. *)
Lemma shared_majority_overlap (c1 c2 : tr_raft_conf) (ids : list Z) a1 a2 :
  (forall id, id ∈ ids -> tr_raft_membership_is_voter c1 id = true /\
                          tr_raft_membership_is_voter c2 id = true) ->
  majority ids (acked c1 a1) -> majority ids (acked c2 a2) ->
  exists id, tr_raft_membership_is_voter c1 id = true /\
    tr_raft_membership_is_voter c2 id = true /\
    acked c1 a1 id = true /\ acked c2 a2 id = true.
Proof.
  intros Hids H1 H2. destruct (majority_meet ids _ _ H1 H2) as (id & Hid & ? & ?).
  destruct (Hids id Hid). eauto.
Qed.

Lemma membership_final_of_joint cur tv tvc tl tlc tid j :
  ids_below_max (conf_ids cur) -> ids_below_max (array_elems tv tvc) ->
  ids_below_max (array_elems tl tlc) ->
  tr_raft_membership_joint cur tv tvc tl tlc tid = (SALTS_OK, Some j) ->
  exists ms, tr_raft_membership_stable tv tvc tl tlc =
      (SALTS_OK, Some (Conf TR_RAFT_CONF_FINAL 0 ms)) /\
    conf_members j <> [] /\
    final_members (conf_members j) = ms /\
    stable_spec (array_elems tv tvc) (array_elems tl tlc) ms.
Proof.
  intros Mc Mv Ml Hj.
  destruct (membership_joint_inv _ _ _ _ _ _ _ Mc Mv Ml Hj)
    as (Hs & Ht & Htid & Hwf & ms & -> & Hspec).
  destruct (validate_set_spec _ _ _ _ Ht) as ([_ Hvs] & [_ Hls] & Hd & _).
  eexists. unfold tr_raft_membership_stable. rewrite Ht. cbn [failed ok negb].
  split; [done|]. cbn [conf_members] in *. split; [|split].
  - destruct (wf_old _ Hwf) as (m & Hm & _). intros H0. cbn in Hm.
    rewrite H0 in Hm. by apply elem_of_nil in Hm.
  - eapply stable_spec_unique; [by eapply final_members_spec|].
    by apply stable_loop_spec.
  - by apply stable_loop_spec.
Qed.

Lemma stable_spec_wf (v l : list Z) ms (tid : Z) :
  (forall id, id ∈ v \/ id ∈ l -> id <> 0) -> v <> [] ->
  Z.of_nat (length ms) <= TR_RAFT_MAX_MEMBERS -> stable_spec v l ms ->
  conf_wf (Conf TR_RAFT_CONF_FINAL tid ms).
Proof.
  intros Hnz Hv Hlen [Hs Hel].
  assert (exists m, m ∈ ms /\ member_roles m = voter_roles) as (m & Hm & Hr).
  { destruct v as [|id v]; [done|]. exists (Member id voter_roles).
    split; [|done]. apply Hel. left. split; [left|done]. }
  constructor; cbn [conf_phase conf_transition_id conf_members]; auto; try done.
  - split; [|by apply member_lt_ids]. unfold conf_ids. apply list.Forall_forall.
    intros id (x & -> & Hx)%list_elem_of_fmap. apply Hel in Hx. naive_solver.
  - apply list.Forall_forall. intros x Hx. apply Hel in Hx as [[_ Hx]|[_ Hx]];
      by rewrite Hx.
  - exists m. split; [done|]. unfold is_old_voter. by rewrite Hr.
  - exists m. split; [done|]. unfold is_new_voter. by rewrite Hr.
Qed.

Lemma length_final_members (ms : list tr_raft_conf_member) :
  (length (final_members ms) <= length ms)%nat.
Proof.
  rewrite final_members_filter, length_fmap. apply filter_length_le.
Qed.

(** ** Ranges *)

Definition ids_nonneg (ids : list Z) : Prop := Forall (fun id => 0 <= id) ids.

Lemma min_head_range (ids : list Z) (x : Z) :
  ids_nonneg ids -> 0 <= x -> 0 <= min_head ids x <= x.
Proof.
  intros Hids Hx. destruct ids as [|id ids]; cbn; [lia|].
  apply list.Forall_cons in Hids as [? _]. case_match; lia.
Qed.

Lemma advance_if_nonneg (n : Z) (ids : list Z) :
  ids_nonneg ids -> ids_nonneg (advance_if n ids).
Proof.
  intros Hids. destruct ids as [|id ids]; cbn; [done|]. case_match; [|done].
  by apply list.Forall_cons in Hids as [_ ?].
Qed.

Lemma skip_learners_nonneg (ms : list tr_raft_conf_member) :
  ids_nonneg (member_node_id <$> ms) ->
  ids_nonneg (member_node_id <$> skip_learners ms).
Proof.
  induction ms as [|m ms IH]; [done|]. cbn [skip_learners]. intros Hm.
  case_match; [|done]. apply IH. by apply list.Forall_cons in Hm as [_ ?].
Qed.

Lemma advance_member_nonneg (n : Z) (ms : list tr_raft_conf_member) :
  ids_nonneg (member_node_id <$> ms) ->
  ids_nonneg (member_node_id <$> advance_member_if n ms).
Proof.
  destruct ms as [|m ms]; [done|]. cbn [advance_member_if]. intros Hm.
  case_match; [|done]. by apply list.Forall_cons in Hm as [_ ?].
Qed.

Lemma joint_loop_in_range (fuel : nat) (ms : list tr_raft_conf_member)
    (v l : list Z) (acc : list tr_raft_conf_member) :
  ids_nonneg (member_node_id <$> ms) -> ids_nonneg v -> ids_nonneg l ->
  Forall member_in_range acc -> Forall member_in_range (joint_loop fuel ms v l acc).
Proof.
  revert ms v l acc. induction fuel as [|fuel IH]; intros ms v l acc Hm Hv Hl Ha; [done|].
  destruct (decide (ms = [] /\ v = [] /\ l = [])) as [(-> & -> & ->)|Hne]; [done|].
  rewrite joint_loop_S by done. set (a := voters_by is_not_learner ms).
  assert (ids_nonneg a) as Hnn.
  { apply Forall_fmap. rewrite list.Forall_forall. intros m Hin.
    apply list_elem_of_In, filter_In in Hin as [Hin%list_elem_of_In _].
    unfold ids_nonneg in Hm. rewrite Forall_fmap, list.Forall_forall in Hm. by apply Hm. }
  set (n := next3 a v l).
  assert (0 <= n <= UINT64_MAX) as Hn.
  { unfold n, next3. pose proof (min_head_range a UINT64_MAX Hnn ltac:(done)) as H1.
    pose proof (min_head_range v _ Hv (proj1 H1)) as H2.
    pose proof (min_head_range l _ Hl (proj1 H2)) as H3. lia. }
  case_match; [done|].
  apply IH; [by apply advance_member_nonneg, skip_learners_nonneg
    |by apply advance_if_nonneg|by apply advance_if_nonneg|].
  case_match; [|done]. apply Forall_app. split; [done|]. constructor; [|constructor].
  split; cbn [member_node_id member_roles]; [unfold UINT64_MAX in *; lia|].
  by destruct (head_is n a), (head_is n v), (head_is n l).
Qed.

Lemma conf_in_range_nonneg (c : tr_raft_conf) :
  conf_in_range c -> ids_nonneg (conf_ids c).
Proof.
  intros [_ Hm]. apply Forall_fmap, (list.Forall_impl _ _ _ Hm). by intros m [[? _] _].
Qed.

Lemma joint_in_range (current : tr_raft_conf) vs vc ls lc tid j :
  conf_in_range current -> ids_nonneg (array_elems vs vc) ->
  ids_nonneg (array_elems ls lc) -> 0 <= tid < 2 ^ 64 ->
  tr_raft_membership_joint current vs vc ls lc tid = (SALTS_OK, Some j) ->
  conf_in_range j /\ conf_wf j.
Proof.
  intros Hc Hv Hl Ht. unfold tr_raft_membership_joint. case_match; [done|].
  case_match; [done|]. case_match eqn:Hval; [done|]. intros [= <-].
  split; [split; [done|]|].
  - apply joint_loop_in_range; try done. by apply conf_in_range_nonneg.
  - apply conf_validate_wf. unfold failed in Hval.
    by destruct (tr_raft_conf_validate _).
Qed.

Lemma stable_loop_in_range (fuel : nat) (vs ls : list Z) :
  Forall (fun id => 0 <= id < 2 ^ 64) vs -> Forall (fun id => 0 <= id < 2 ^ 64) ls ->
  Forall member_in_range (stable_loop fuel vs ls).
Proof.
  revert vs ls. induction fuel as [|fuel IH]; intros vs ls Hv Hl; [constructor|].
  assert (forall id roles, 0 <= id < 2 ^ 64 -> roles = voter_roles \/
    roles = TR_RAFT_CONF_LEARNER -> member_in_range (Member id roles)) as Hm.
  { intros id roles Hid [->| ->]; by split. }
  destruct Hv as [|v vs Hv Hvs], Hl as [|l ls Hl Hls]; cbn [stable_loop].
  - constructor.
  - constructor; [by apply Hm; auto|]. by apply IH.
  - constructor; [by apply Hm; auto|]. by apply IH.
  - case_match; (constructor; [by apply Hm; auto|]; apply IH; auto).
Qed.

Lemma stable_in_range vs vc ls lc c :
  Forall (fun id => 0 <= id < 2 ^ 64) (array_elems vs vc) ->
  Forall (fun id => 0 <= id < 2 ^ 64) (array_elems ls lc) ->
  tr_raft_membership_stable vs vc ls lc = (SALTS_OK, Some c) -> conf_in_range c.
Proof.
  intros Hv Hl. unfold tr_raft_membership_stable. case_match; [done|]. intros [= <-].
  split; [done|]. by apply stable_loop_in_range.
Qed.

Lemma final_in_range (j f : tr_raft_conf) :
  conf_in_range j -> tr_raft_membership_final j = (SALTS_OK, Some f) -> conf_in_range f.
Proof.
  intros [Ht Hm]. unfold tr_raft_membership_final. case_match; [done|].
  intros [= _ <-]. split; [done|]. cbn [conf_members].
  induction Hm as [|m ms [Hid _] _ IH]; [constructor|]. cbn [final_members].
  case_match; [done|]. constructor; [|done]. split; [done|]. cbn [member_roles].
  by case_match.
Qed.

(** ** Properties *)

(** C4. Any two acknowledgement masks that form a quorum of one valid
    configuration, stable or joint, acknowledge a common voter. *)
Theorem quorum_intersection (c : tr_raft_conf) (acks1 acks2 : Z)
    (Hvalid : tr_raft_conf_validate c = SALTS_OK)
    (H1 : tr_raft_membership_has_quorum c acks1 = true)
    (H2 : tr_raft_membership_has_quorum c acks2 = true) :
  exists id, tr_raft_membership_is_voter c id = true /\
    acked c acks1 id = true /\ acked c acks2 id = true.
Proof.
  apply conf_validate_wf in Hvalid as Hwf.
  apply conf_wf_quorum in H1 as [H1 _], H2 as [H2 _]; try done.
  destruct (shared_majority_overlap c c (old_voters c) acks1 acks2)
    as (id & ? & _ & ? & ?); eauto.
  intros id Hid. apply (old_voter_is_voter c id (wf_ids c Hwf)) in Hid. done.
Qed.

Definition example_members : tr_raft_conf :=
  Conf TR_RAFT_CONF_FINAL 0 [Member 1 3; Member 2 3; Member 3 3; Member 9 4].

Lemma quorum_intersection_witness :
  exists id, tr_raft_membership_is_voter example_members id = true /\
    acked example_members 3 id = true /\ acked example_members 14 id = true.
Proof. apply (quorum_intersection example_members 3 14); reflexivity. Defined.

(** C23. Quorums of consecutive configurations of a transition overlap: a quorum
    of the stable configuration and one of the joint configuration built from
    it, and a quorum of the joint configuration and one of the final
    configuration built from that, acknowledge a common voter. So no two of
    them can elect or commit independently. *)
Theorem transition_quorums_overlap (cur j f : tr_raft_conf)
    (tv tl : option (list Z)) (tvc tlc tid : Z)
    (Mcur : ids_below_max (conf_ids cur))
    (Mtv : ids_below_max (array_elems tv tvc))
    (Mtl : ids_below_max (array_elems tl tlc))
    (Hjoint : tr_raft_membership_joint cur tv tvc tl tlc tid = (SALTS_OK, Some j))
    (Hfinal : tr_raft_membership_final j = (SALTS_OK, Some f)) :
  (forall acks1 acks2,
     tr_raft_membership_has_quorum cur acks1 = true ->
     tr_raft_membership_has_quorum j acks2 = true ->
     exists id, tr_raft_membership_is_voter cur id = true /\
       tr_raft_membership_is_voter j id = true /\
       acked cur acks1 id = true /\ acked j acks2 id = true) /\
  (forall acks2 acks3,
     tr_raft_membership_has_quorum j acks2 = true ->
     tr_raft_membership_has_quorum f acks3 = true ->
     exists id, tr_raft_membership_is_voter j id = true /\
       tr_raft_membership_is_voter f id = true /\
       acked j acks2 id = true /\ acked f acks3 id = true).
Proof.
  destruct (membership_joint_inv _ _ _ _ _ _ _ Mcur Mtv Mtl Hjoint)
    as (Hs & Ht & _ & Hwf & ms & -> & Hspec).
  destruct (membership_final_of_joint _ _ _ _ _ _ _ Mcur Mtv Mtl Hjoint)
    as (fms & _ & _ & Hfms & Hstable).
  destruct (stable_valid_spec cur Hs) as (_ & Hids & Hbound & _).
  destruct (validate_set_spec _ _ _ _ Ht) as ([_ Hvs] & _).
  destruct (joint_spec_voters _ _ _ _ (voters_by_sorted is_old_voter _
    (ids_wf_members_sorted cur Hids)) Hvs Hspec) as [Hold Hnew].
  destruct (stable_spec_voters _ _ _ Hvs Hstable) as [Hfold _].
  split; intros acks1 acks2 H1 H2.
  - apply has_quorum_spec in H1 as [H1 _]; try done.
    apply conf_wf_quorum in H2 as [H2 _]; [|done].
    apply (shared_majority_overlap _ _ (old_voters cur)); try done.
    + intros id Hid. split; [by apply old_voter_is_voter|].
      apply old_voter_is_voter; [apply (wf_ids _ Hwf)|].
      unfold old_voters. cbn [conf_members]. by rewrite Hold.
    + unfold old_voters in H2. cbn [conf_members] in H2. by rewrite Hold in H2.
  - unfold tr_raft_membership_final in Hfinal. case_match; [done|].
    injection Hfinal as Hv <-. cbn [conf_members conf_transition_id] in *.
    apply conf_validate_wf in Hv as Hfwf. rewrite Hfms in *.
    apply conf_wf_quorum in H1 as [_ H1]; [|done].
    apply conf_wf_quorum in H2 as [H2 _]; [|done].
    apply (shared_majority_overlap _ _ (array_elems tv tvc)); try done.
    + intros id Hid. split.
      * apply new_voter_is_voter; [apply (wf_ids _ Hwf)|].
        unfold new_voters. cbn [conf_members]. by rewrite Hnew.
      * apply old_voter_is_voter; [apply (wf_ids _ Hfwf)|].
        unfold old_voters. cbn [conf_members]. by rewrite Hfold.
    + unfold new_voters in H1. cbn [conf_members] in H1. by rewrite Hnew in H1.
    + unfold old_voters in H2. cbn [conf_members] in H2. by rewrite Hfold in H2.
Qed.

Definition example_joint : tr_raft_conf :=
  Conf TR_RAFT_CONF_JOINT 7
    [Member 1 1; Member 2 3; Member 3 3; Member 4 2; Member 9 4].
Definition example_final : tr_raft_conf :=
  Conf TR_RAFT_CONF_FINAL 7 [Member 2 3; Member 3 3; Member 4 3; Member 9 4].

Lemma transition_quorums_overlap_witness :
  (exists id, tr_raft_membership_is_voter example_members id = true /\
     tr_raft_membership_is_voter example_joint id = true /\
     acked example_members 5 id = true /\ acked example_joint 6 id = true) /\
  (exists id, tr_raft_membership_is_voter example_joint id = true /\
     tr_raft_membership_is_voter example_final id = true /\
     acked example_joint 6 id = true /\ acked example_final 5 id = true).
Proof.
  destruct (transition_quorums_overlap example_members example_joint example_final
    (Some [2; 3; 4]) (Some [9]) 3 1 7) as [H1 H2].
  - repeat constructor; vm_compute; congruence.
  - repeat constructor; vm_compute; congruence.
  - repeat constructor; vm_compute; congruence.
  - reflexivity.
  - reflexivity.
  - split; [apply H1; reflexivity|apply H2; reflexivity].
Defined.

(** A transition ends in the target: when a joint configuration is built
    towards a set of voters and learners, its final configuration is accepted
    and has exactly the members that a stable configuration of that set has,
    under the identifier of the transition. *)
Theorem joint_final_is_target (cur j : tr_raft_conf)
    (tv tl : option (list Z)) (tvc tlc tid : Z)
    (Mcur : ids_below_max (conf_ids cur))
    (Mtv : ids_below_max (array_elems tv tvc))
    (Mtl : ids_below_max (array_elems tl tlc))
    (Hjoint : tr_raft_membership_joint cur tv tvc tl tlc tid = (SALTS_OK, Some j)) :
  exists s, tr_raft_membership_stable tv tvc tl tlc = (SALTS_OK, Some s) /\
    tr_raft_membership_final j =
      (SALTS_OK, Some (Conf TR_RAFT_CONF_FINAL tid (conf_members s))).
Proof.
  destruct (membership_final_of_joint _ _ _ _ _ _ _ Mcur Mtv Mtl Hjoint)
    as (ms & Hst & Hne & Hms & Hspec).
  destruct (membership_joint_inv _ _ _ _ _ _ _ Mcur Mtv Mtl Hjoint)
    as (_ & Ht & _ & Hwf & jms & -> & Hjspec).
  exists (Conf TR_RAFT_CONF_FINAL 0 ms). split; [done|].
  unfold tr_raft_membership_final.
  rewrite (proj2 (conf_validate_wf _) Hwf). cbn [conf_phase conf_members
    conf_transition_id negb orb failed ok Z.eqb Pos.eqb] in *.
  change (negb (TR_RAFT_CONF_JOINT =? TR_RAFT_CONF_JOINT)) with false. cbn [orb].
  rewrite Hms. destruct (validate_set_spec _ _ _ _ Ht) as (Hvs & Hls & _).
  assert (conf_wf (Conf TR_RAFT_CONF_FINAL tid ms)) as Hfwf.
  { apply (stable_spec_wf (array_elems tv tvc) (array_elems tl tlc)); try done.
    - destruct Hvs as [Hz1 _], Hls as [Hz2 _].
      rewrite list.Forall_forall in Hz1, Hz2. intros id [H|H]; auto.
    - destruct (wf_new _ Hwf) as (m & Hm & Hn). cbn [conf_members] in Hm.
      destruct (joint_spec_flags _ _ _ _ _ Hjspec Hm) as (_ & Hf & _).
      rewrite Hf in Hn. apply bool_decide_eq_true in Hn. intros H0.
      rewrite H0 in Hn. by apply elem_of_nil in Hn.
    - pose proof (wf_bound _ Hwf) as Hb. unfold conf_member_count in Hb.
      cbn [conf_members] in Hb. pose proof (length_final_members jms).
      rewrite <- Hms. lia. }
  by rewrite (proj2 (conf_validate_wf _) Hfwf).
Qed.

Lemma joint_final_is_target_witness :
  exists s, tr_raft_membership_stable (Some [2; 3; 4]) 3 (Some [9]) 1 =
      (SALTS_OK, Some s) /\
    tr_raft_membership_final example_joint =
      (SALTS_OK, Some (Conf TR_RAFT_CONF_FINAL 7 (conf_members s))).
Proof.
  apply (joint_final_is_target example_members example_joint
           (Some [2; 3; 4]) (Some [9]) 3 1 7).
  - repeat constructor; vm_compute; congruence.
  - repeat constructor; vm_compute; congruence.
  - repeat constructor; vm_compute; congruence.
  - reflexivity.
Defined.
