(* ===== verification/PeerSet.v ===== *)
(** * Peer sets: [src/core/raft_peer_set.c]

    The sorted union of the identifiers of up to three memberships, and the
    lookup of an identifier in it. A peer set is the list
    [node_ids[0] .. node_ids[count - 1]]; the array is zero beyond it. *)

From S2P Require Import Prelude Configuration Membership.
From Stdlib Require Import ZArith Lia Sorting.Sorted.
From stdpp Require Import base numbers list tactics.
Open Scope Z_scope.
Open Scope raft_scope.

Definition TR_RAFT_PEER_SET_MAX_SOURCES : Z := 3.

Abbreviation tr_raft_peer_set := (list Z).

Definition tr_raft_peer_set_membership_valid (m : tr_raft_conf) : bool :=
  if (conf_member_count m =? 0) || (TR_RAFT_MAX_MEMBERS <? conf_member_count m)
  then false
  else ids_ascending_from None (conf_ids m).

(** One pass over the sources: the smallest next identifier and whether one
    was found. *)
Definition peer_set_next (sources : list (list Z)) : Z * bool :=
  fold_left
    (fun '(next, available) cursor =>
       match cursor with
       | x :: _ => if x <? next then (x, true) else (next, available)
       | [] => (next, available)
       end)
    sources (UINT64_MAX, false).

Fixpoint peer_set_loop (fuel : nat) (sources : list (list Z))
    (peers : tr_raft_peer_set) : status * tr_raft_peer_set :=
  match fuel with
  | O => (SALTS_OK, peers)
  | S fuel' =>
      let '(next, available) := peer_set_next sources in
      if negb available then (SALTS_OK, peers)
      else if Z.of_nat (length peers) =? TR_RAFT_MAX_MEMBERS
      then (SALTS_ENOSPC, [])
      else peer_set_loop fuel' (advance_if next <$> sources) (peers ++ [next])
  end.

(** The iterations consume at least one identifier each, so the total length
    of the sources plus one is enough fuel ([peer_set_loop_spec]). *)
Definition tr_raft_peer_set_build (memberships : list tr_raft_conf)
    : status * tr_raft_peer_set :=
  let count := Z.of_nat (length memberships) in
  if (count =? 0) || (TR_RAFT_PEER_SET_MAX_SOURCES <? count)
  then (SALTS_EINVAL, [])
  else if negb (forallb tr_raft_peer_set_membership_valid memberships)
  then (SALTS_EINVAL, [])
  else
    let sources := conf_ids <$> memberships in
    peer_set_loop (S (length (concat sources))) sources [].

Definition tr_raft_peer_set_index (peers : tr_raft_peer_set) (node_id : Z) : Z :=
  if node_id =? 0 then -1 else find_id 0 peers node_id.

(** ** Specification *)

(** Identifier [id] is in one of the sources. *)
Definition in_sources (sources : list (list Z)) (id : Z) : Prop :=
  exists s, s ∈ sources /\ id ∈ s.

(** The sorted identifiers below [UINT64_MAX] of the sources. *)
Definition is_union (sources : list (list Z)) (ids : list Z) : Prop :=
  StronglySorted Z.lt ids /\
  forall id, id ∈ ids <-> in_sources sources id /\ id < UINT64_MAX.

Definition ids_u64 (ids : list Z) : Prop :=
  Forall (fun id => 0 <= id <= UINT64_MAX) ids.

(** ** Lemmas *)

Lemma peer_set_next_spec (sources : list (list Z)) :
  Forall (StronglySorted Z.lt) sources ->
  let '(next, available) := peer_set_next sources in
  next <= UINT64_MAX /\
  (forall x, in_sources sources x -> next <= x) /\
  (if available then next < UINT64_MAX /\ in_sources sources next
   else next = UINT64_MAX).
Proof.
  intros Hs. unfold peer_set_next.
  induction sources as [|s sources IH] using rev_ind.
  { cbn. split; [lia|]. split; [|done]. intros x (s & Hin & _).
    by apply elem_of_nil in Hin. }
  apply Forall_app in Hs as [Hs Hsn]. apply Forall_inv in Hsn.
  rewrite fold_left_app. cbn [fold_left].
  destruct (fold_left _ sources (UINT64_MAX, false)) as [next available].
  destruct (IH Hs) as (IH1 & IH2 & IH3).
  assert (forall x, in_sources (sources ++ [s]) x <-> in_sources sources x \/ x ∈ s)
    as Hin.
  { intros x. unfold in_sources. setoid_rewrite elem_of_app.
    setoid_rewrite list_elem_of_singleton. naive_solver. }
  destruct s as [|y s].
  { split; [done|]. split.
    - intros x [Hx|Hx]%Hin; [auto|by apply elem_of_nil in Hx].
    - destruct available; [|done]. rewrite Hin. naive_solver. }
  inversion_clear Hsn as [|? ? _ Hy]. rewrite list.Forall_forall in Hy.
  assert (forall x, x ∈ y :: s -> y <= x) as Hge.
  { intros x [->|Hx]%elem_of_cons; [lia|]. apply Hy in Hx. lia. }
  destruct (Z.ltb_spec y next) as [Hlt|Hle].
  - split; [lia|]. split.
    + intros x [Hx|Hx]%Hin; [apply IH2 in Hx; lia|auto].
    + split; [lia|]. apply Hin. right. left.
  - split; [done|]. split.
    + intros x [Hx|Hx]%Hin; [auto|apply Hge in Hx; lia].
    + destruct available; [|done]. rewrite Hin. naive_solver.
Qed.

Lemma length_advance_if (n : Z) (s : list Z) :
  (length (advance_if n s) + (if head_is n s then 1 else 0) = length s)%nat.
Proof. destruct s as [|x s]; cbn; [done|]. case_match; cbn; lia. Qed.

Lemma advance_sources_length (sources : list (list Z)) (n : Z) (s : list Z) :
  s ∈ sources -> head_is n s = true ->
  (length (concat (advance_if n <$> sources)) < length (concat sources))%nat.
Proof.
  assert (forall l, length (concat (advance_if n <$> l)) <= length (concat l))%nat
    as Hle.
  { intros l. induction l as [|s0 l IH]; cbn; [lia|]. rewrite !length_app.
    pose proof (length_advance_if n s0). unfold fmap in *. lia. }
  intros H Hn. induction sources as [|s0 sources IH]; [by apply elem_of_nil in H|].
  cbn. rewrite !length_app. pose proof (length_advance_if n s0) as Hlen.
  specialize (Hle sources).
  apply elem_of_cons in H as [->|H]; [rewrite Hn in Hlen|specialize (IH H)];
    unfold fmap in *; lia.
Qed.

Lemma advance_sources_spec (sources : list (list Z)) (n : Z) :
  Forall (StronglySorted Z.lt) sources ->
  (forall x, in_sources sources x -> n <= x) -> in_sources sources n ->
  Forall (StronglySorted Z.lt) (advance_if n <$> sources) /\
  (forall x, in_sources (advance_if n <$> sources) x <->
             in_sources sources x /\ n < x) /\
  (length (concat (advance_if n <$> sources)) < length (concat sources))%nat.
Proof.
  intros Hs Hmin Hin.
  assert (forall s, s ∈ sources ->
    StronglySorted Z.lt s /\ (forall x, x ∈ s -> n <= x)) as Hall.
  { rewrite list.Forall_forall in Hs. intros s H. split; [auto|].
    intros x Hx. apply Hmin. by exists s. }
  split; [|split].
  - apply list.Forall_forall. intros s (s0 & -> & H)%list_elem_of_fmap.
    destruct (Hall s0 H). by apply advance_if_spec.
  - intros x. split.
    + intros (s & (s0 & -> & H)%list_elem_of_fmap & Hx).
      destruct (Hall s0 H) as [H1 H2].
      destruct (advance_if_spec s0 n H1 H2) as (_ & He & _).
      apply He in Hx as [Hx Hlt]. split; [by exists s0|done].
    + intros [(s & H & Hx) Hlt]. destruct (Hall s H) as [H1 H2].
      destruct (advance_if_spec s n H1 H2) as (_ & He & _).
      exists (advance_if n s). split; [by apply list_elem_of_fmap_2|].
      by apply He.
  - destruct Hin as (s & H & Hn). eapply advance_sources_length; [done|].
    destruct (Hall s H) as [H1 H2]. by apply (advance_if_spec s n H1 H2).
Qed.

Lemma is_union_cons (sources : list (list Z)) (n : Z) (rest : list Z) :
  Forall (StronglySorted Z.lt) sources ->
  (forall x, in_sources sources x -> n <= x) -> in_sources sources n ->
  n < UINT64_MAX -> is_union (advance_if n <$> sources) rest ->
  is_union sources (n :: rest).
Proof.
  intros Hs Hmin Hin Hlt [Hsr Her].
  destruct (advance_sources_spec sources n Hs Hmin Hin) as (_ & Hel & _). split.
  - constructor; [done|]. apply list.Forall_forall. intros x Hx.
    apply Her in Hx as [Hx _]. by apply Hel in Hx as [_ Hx].
  - intros id. rewrite elem_of_cons, Her, Hel. split; [naive_solver|].
    intros [Hid Hm]. apply Hmin in Hid as Hge.
    destruct (decide (id = n)); [by left|right].
    split; [split; [done|lia]|done].
Qed.

Lemma peer_set_loop_spec (fuel : nat) (sources : list (list Z)) (peers : list Z) :
  Forall (StronglySorted Z.lt) sources ->
  (length (concat sources) < fuel)%nat ->
  Z.of_nat (length peers) <= TR_RAFT_MAX_MEMBERS ->
  exists rest, is_union sources rest /\
    peer_set_loop fuel sources peers =
    if Z.of_nat (length peers + length rest) <=? TR_RAFT_MAX_MEMBERS
    then (SALTS_OK, peers ++ rest) else (SALTS_ENOSPC, []).
Proof.
  revert sources peers. induction fuel as [|fuel IH]; intros sources peers Hs Hf Hp;
    [lia|].
  cbn [peer_set_loop]. pose proof (peer_set_next_spec sources Hs) as Hn.
  destruct (peer_set_next sources) as [n available].
  destruct Hn as (Hmax & Hmin & Hav). destruct available; cbn [negb].
  2: { exists []. rewrite app_nil_r, Nat.add_0_r. split.
    - split; [constructor|]. intros id. rewrite elem_of_nil. split; [done|].
      intros [Hid Hlt]. apply Hmin in Hid. lia.
    - by replace (_ <=? _) with true by lia. }
  destruct Hav as [Hlt Hin].
  destruct (advance_sources_spec sources n Hs Hmin Hin) as (Hs' & Hel & Hlen).
  destruct (Z.eqb_spec (Z.of_nat (length peers)) TR_RAFT_MAX_MEMBERS) as [Hfull|Hroom].
  - destruct (IH (advance_if n <$> sources) []) as (rest & Hu & _);
      [done|lia|cbn; unfold TR_RAFT_MAX_MEMBERS; lia|].
    exists (n :: rest). split.
    + by apply is_union_cons.
    + replace (_ <=? _) with false; [done|]. symmetry. apply Z.leb_gt. cbn [length]. lia.
  - destruct (IH (advance_if n <$> sources) (peers ++ [n])) as (rest & Hu & Hr);
      [done|lia|rewrite length_app; cbn; lia|].
    exists (n :: rest). split.
    + by apply is_union_cons.
    + rewrite Hr, length_app, <- (assoc_L (++)). cbn [length app].
      by replace (length peers + 1 + length rest)%nat
        with (length peers + S (length rest))%nat by lia.
Qed.

Lemma peer_set_membership_valid_spec (m : tr_raft_conf) :
  tr_raft_peer_set_membership_valid m = true <->
  ids_wf (conf_ids m) /\ 0 < conf_member_count m <= TR_RAFT_MAX_MEMBERS.
Proof.
  unfold tr_raft_peer_set_membership_valid.
  assert (0 <= conf_member_count m) by (unfold conf_member_count; lia).
  case_match eqn:Hg; [split; [done|]; lia|].
  rewrite ids_ascending_spec. split; [|tauto]. intros Hids. split; [done|lia].
Qed.

Lemma conf_wf_peer_valid (c : tr_raft_conf) :
  conf_wf c -> tr_raft_peer_set_membership_valid c = true.
Proof.
  intros [_ _ Hb Hi _ (m & Hm & _) _]. apply peer_set_membership_valid_spec.
  split; [done|]. split; [|done]. unfold conf_member_count.
  destruct (conf_members c); [by apply elem_of_nil in Hm|]. cbn. lia.
Qed.

Lemma peer_set_build_spec (ms : list tr_raft_conf) :
  0 < Z.of_nat (length ms) <= TR_RAFT_PEER_SET_MAX_SOURCES ->
  Forall (fun m => tr_raft_peer_set_membership_valid m = true) ms ->
  exists u, is_union (conf_ids <$> ms) u /\
    tr_raft_peer_set_build ms =
    if Z.of_nat (length u) <=? TR_RAFT_MAX_MEMBERS then (SALTS_OK, u)
    else (SALTS_ENOSPC, []).
Proof.
  intros Hlen Hv. unfold tr_raft_peer_set_build.
  replace (_ || _) with false by lia.
  replace (forallb _ ms) with true.
  2: { symmetry. apply forallb_forall. intros m Hm.
    rewrite list.Forall_forall in Hv. apply Hv. by apply list_elem_of_In. }
  cbn [negb].
  destruct (peer_set_loop_spec (S (length (concat (conf_ids <$> ms))))
    (conf_ids <$> ms) []) as (u & Hu & ->); [|lia|cbn; unfold TR_RAFT_MAX_MEMBERS; lia|].
  - apply list.Forall_forall. intros s (m & -> & Hm)%list_elem_of_fmap.
    rewrite list.Forall_forall in Hv.
    by apply Hv, peer_set_membership_valid_spec in Hm as [[_ ?] _].
  - by exists u.
Qed.

Lemma peer_set_build_ok (ms : list tr_raft_conf) (peers : list Z) :
  tr_raft_peer_set_build ms = (SALTS_OK, peers) ->
  is_union (conf_ids <$> ms) peers /\
  Z.of_nat (length peers) <= TR_RAFT_MAX_MEMBERS /\
  Forall (fun m => tr_raft_peer_set_membership_valid m = true) ms.
Proof.
  intros H.
  assert (0 < Z.of_nat (length ms) <= TR_RAFT_PEER_SET_MAX_SOURCES /\
    Forall (fun m => tr_raft_peer_set_membership_valid m = true) ms) as [Hlen Hv].
  { unfold tr_raft_peer_set_build in H. case_match eqn:Hg; [done|].
    destruct (forallb _ ms) eqn:Hall; [|done].
    split; [lia|]. apply list.Forall_forall. intros m Hm.
    rewrite forallb_forall in Hall. apply Hall. by apply list_elem_of_In. }
  destruct (peer_set_build_spec ms Hlen Hv) as (u & Hu & Heq).
  rewrite H in Heq. case_match eqn:Hb; [|done]. injection Heq as ->.
  split; [done|]. split; [lia|done].
Qed.

Lemma peer_set_build_count (ms : list tr_raft_conf) (peers : list Z) :
  tr_raft_peer_set_build ms = (SALTS_OK, peers) ->
  0 < Z.of_nat (length ms) <= TR_RAFT_PEER_SET_MAX_SOURCES.
Proof. unfold tr_raft_peer_set_build. case_match eqn:Hg; [done|]. lia. Qed.

(** The union fits when its identifiers are among at most 31. *)
Lemma peer_set_build_fits (ms : list tr_raft_conf) (u : list Z) :
  0 < Z.of_nat (length ms) <= TR_RAFT_PEER_SET_MAX_SOURCES ->
  Forall conf_wf ms -> Z.of_nat (length u) <= TR_RAFT_MAX_MEMBERS ->
  (forall id m, m ∈ ms -> id ∈ conf_ids m -> id < UINT64_MAX -> id ∈ u) ->
  fst (tr_raft_peer_set_build ms) = SALTS_OK.
Proof.
  intros Hlen Hwf Hb Hin.
  destruct (peer_set_build_spec ms) as (u' & [Hs' Hu'] & ->); [done| |].
  { apply (list.Forall_impl _ _ _ Hwf). apply conf_wf_peer_valid. }
  replace (_ <=? _) with true; [done|]. symmetry. apply Z.leb_le.
  enough (length u' <= length u)%nat by lia.
  apply submseteq_length, NoDup_submseteq; [by apply StronglySorted_lt_NoDup|].
  intros id Hid. apply Hu' in Hid as [(s & Hs & Hid) Hlt].
  apply list_elem_of_fmap in Hs as (m & -> & Hm). eauto.
Qed.

Lemma peer_set_index_spec (peers : list Z) (id : Z) :
  ids_wf peers ->
  (exists k, peers !! k = Some id /\ tr_raft_peer_set_index peers id = Z.of_nat k) \/
  (~ id ∈ peers /\ tr_raft_peer_set_index peers id = -1).
Proof.
  intros [Hnz Hs]. unfold tr_raft_peer_set_index.
  destruct (Z.eqb_spec id 0) as [->|Hne].
  { right. split; [|done]. rewrite list.Forall_forall in Hnz. intros Hin.
    by apply (Hnz 0). }
  destruct (find_id_spec peers 0 id Hs) as [(k & Hk & ->)|?]; [done| |by right].
  left. exists k. split; [done|lia].
Qed.

(** ** Properties *)

(** The peer set of up to three valid memberships is the sorted union of
    their identifiers without repetition, or the call fails with
    [SALTS_ENOSPC] exactly when that union has more than 31 elements. The
    identifier [UINT64_MAX], which the validators accept, is the one
    identifier the union leaves out. *)
Theorem peer_set_build_is_union (ms : list tr_raft_conf)
    (Hlen : 0 < Z.of_nat (length ms) <= TR_RAFT_PEER_SET_MAX_SOURCES)
    (Hvalid : Forall (fun m => tr_raft_conf_validate m = SALTS_OK) ms) :
  exists u, StronglySorted Z.lt u /\
    (forall id, id ∈ u <-> id < UINT64_MAX /\ exists m, m ∈ ms /\ id ∈ conf_ids m) /\
    tr_raft_peer_set_build ms =
      if Z.of_nat (length u) <=? TR_RAFT_MAX_MEMBERS then (SALTS_OK, u)
      else (SALTS_ENOSPC, []).
Proof.
  destruct (peer_set_build_spec ms Hlen) as (u & [Hs Hu] & Heq).
  { eapply list.Forall_impl; [apply Hvalid|]. intros m Hm.
    by apply conf_wf_peer_valid, conf_validate_wf. }
  exists u. split; [done|]. split; [|done]. intros id. rewrite Hu.
  split.
  - intros [(s & (m & -> & Hm)%list_elem_of_fmap & Hid) Hlt]. eauto.
  - intros [Hlt (m & Hm & Hid)]. split; [|done]. exists (conf_ids m).
    split; [by apply list_elem_of_fmap_2|done].
Qed.

Lemma peer_set_build_is_union_witness :
  exists u, StronglySorted Z.lt u /\
    (forall id, id ∈ u <-> id < UINT64_MAX /\
       exists m, m ∈ [example_members; example_joint; example_final] /\
         id ∈ conf_ids m) /\
    tr_raft_peer_set_build [example_members; example_joint; example_final] =
      if Z.of_nat (length u) <=? TR_RAFT_MAX_MEMBERS then (SALTS_OK, u)
      else (SALTS_ENOSPC, []).
Proof.
  apply (peer_set_build_is_union [example_members; example_joint; example_final]).
  - vm_compute. split; congruence.
  - repeat constructor.
Defined.

(** A configuration with a voter whose identifier is [UINT64_MAX] is
    accepted by the validator, but that voter is not in the peer set built from
    it, so the node never finds it as a peer. *)
Theorem peer_set_omits_max_id :
  exists c, tr_raft_conf_validate c = SALTS_OK /\
    tr_raft_membership_is_voter c UINT64_MAX = true /\
    tr_raft_peer_set_build [c] = (SALTS_OK, [1]) /\
    tr_raft_peer_set_index [1] UINT64_MAX = -1.
Proof.
  exists (Conf TR_RAFT_CONF_FINAL 0 [Member 1 3; Member UINT64_MAX 3]).
  repeat split; reflexivity.
Qed.
