(* ===== verification/Transition.v ===== *)
(** * Membership transitions: [src/core/raft_membership_transition.c]

    The committed configuration and the configurations staged in the log after
    it, each with the log index of its entry. *)

From S2P Require Import Prelude Configuration Membership PeerSet.
From Stdlib Require Import ZArith Lia Sorting.Sorted.
From stdpp Require Import base numbers list sets sorting tactics.
Open Scope Z_scope.
Open Scope raft_scope.

Definition TR_RAFT_MEMBERSHIP_MAX_PENDING : Z := 2.

(** [mt_pending] holds [pending[i]] with [pending_indices[i]] for [i] below
    [pending_count]; the arrays are zero beyond it. *)
Record tr_raft_membership_transition := Transition {
  mt_committed : tr_raft_conf;
  mt_pending : list (tr_raft_conf * Z)
}.

Definition mt_pending_count (t : tr_raft_membership_transition) : Z :=
  Z.of_nat (length (mt_pending t)).

Definition zero_transition : tr_raft_membership_transition :=
  Transition zero_conf [].

#[export] Instance transition_eq_dec : EqDecision tr_raft_membership_transition.
Proof. solve_decision. Defined.

(** ** Comparisons *)

Fixpoint members_equal (left right : list tr_raft_conf_member) : bool :=
  match left, right with
  | l :: left', r :: right' =>
      (member_node_id l =? member_node_id r) &&
      (member_roles l =? member_roles r) && members_equal left' right'
  | _, _ => true
  end.

Definition tr_raft_membership_equal (left right : tr_raft_conf) : bool :=
  if negb (conf_phase left =? conf_phase right) ||
     negb (conf_transition_id left =? conf_transition_id right) ||
     negb (conf_member_count left =? conf_member_count right)
  then false
  else members_equal (conf_members left) (conf_members right).

(** [while (index < count && !stop(members[index])) ++index;] *)
Fixpoint skip_until (stop : tr_raft_conf_member -> bool)
    (cursor : list tr_raft_conf_member) : list tr_raft_conf_member :=
  match cursor with
  | m :: rest => if stop m then cursor else skip_until stop rest
  | [] => []
  end.

Definition skip_nonvoters (stable : tr_raft_conf) :=
  skip_until (fun m => tr_raft_membership_is_voter stable (member_node_id m)).

Definition skip_not_old :=
  skip_until (fun m => has_role (member_roles m) TR_RAFT_CONF_OLD_VOTER).

Fixpoint old_voters_match_loop (fuel : nat) (stable : tr_raft_conf)
    (stable_cursor joint_cursor : list tr_raft_conf_member) : bool :=
  match fuel with
  | O => true
  | S fuel' =>
      match stable_cursor, joint_cursor with
      | [], [] => true
      | _, _ =>
          match skip_nonvoters stable stable_cursor, skip_not_old joint_cursor with
          | s :: stable_cursor', j :: joint_cursor' =>
              if negb (member_node_id s =? member_node_id j) then false
              else old_voters_match_loop fuel' stable stable_cursor' joint_cursor'
          | [], [] => true
          | _, _ => false
          end
      end
  end.

Definition tr_raft_joint_old_voters_match (stable joint : tr_raft_conf) : bool :=
  old_voters_match_loop
    (length (conf_members stable) + length (conf_members joint))
    stable (conf_members stable) (conf_members joint).

(** ** Staging *)

(** [&transition->pending[pending_count - 1]], or the committed configuration. *)
Definition transition_base (t : tr_raft_membership_transition) : tr_raft_conf :=
  match list.last (mt_pending t) with
  | Some (c, _) => c
  | None => mt_committed t
  end.

Definition tr_raft_membership_transition_validate_next
    (t : tr_raft_membership_transition) (configuration : tr_raft_conf) : status :=
  if failed (tr_raft_conf_validate configuration) then SALTS_EPROTO
  else if TR_RAFT_PEER_SET_MAX_SOURCES - 2 <? mt_pending_count t then SALTS_EPROTO
  else if failed (fst (tr_raft_peer_set_build
                         (mt_committed t :: (fst <$> mt_pending t) ++ [configuration])))
  then SALTS_EPROTO
  else
    let base := transition_base t in
    if conf_phase configuration =? TR_RAFT_CONF_JOINT then
      if negb (mt_pending_count t =? 0) ||
         negb (conf_phase (mt_committed t) =? TR_RAFT_CONF_FINAL) ||
         negb (tr_raft_joint_old_voters_match (mt_committed t) configuration)
      then SALTS_EPROTO else SALTS_OK
    else if (conf_phase configuration =? TR_RAFT_CONF_FINAL) &&
            (conf_phase base =? TR_RAFT_CONF_JOINT) then
      match tr_raft_membership_final base with
      | (SALTS_OK, Some expected) =>
          if tr_raft_membership_equal expected configuration then SALTS_OK
          else SALTS_EPROTO
      | _ => SALTS_EPROTO
      end
    else SALTS_EPROTO.

Definition tr_raft_membership_transition_init
    (voters : option (list Z)) (voter_count : Z)
    (learners : option (list Z)) (learner_count : Z)
    : status * tr_raft_membership_transition :=
  match tr_raft_membership_stable voters voter_count learners learner_count with
  | (SALTS_OK, Some committed) => (SALTS_OK, Transition committed [])
  | (result, _) => (result, zero_transition)
  end.

(** [None] when the output is left untouched. *)
Definition tr_raft_membership_transition_init_configuration
    (configuration : tr_raft_conf)
    : status * option tr_raft_membership_transition :=
  if failed (tr_raft_conf_validate configuration) then (SALTS_EINVAL, None)
  else (SALTS_OK, Some (Transition configuration [])).

Definition tr_raft_membership_transition_propose
    (t : tr_raft_membership_transition)
    (target_voters : option (list Z)) (target_voter_count : Z)
    (target_learners : option (list Z)) (target_learner_count : Z)
    (transition_id : Z) : status * option tr_raft_conf :=
  if negb (conf_phase (mt_committed t) =? TR_RAFT_CONF_FINAL) ||
     negb (mt_pending_count t =? 0)
  then (SALTS_EBUSY, None)
  else tr_raft_membership_joint (mt_committed t) target_voters target_voter_count
         target_learners target_learner_count transition_id.

(** The search for an entry already staged at [log_index]. *)
Fixpoint staged_at (pending : list (tr_raft_conf * Z)) (log_index : Z)
    : option tr_raft_conf :=
  match pending with
  | [] => None
  | (c, index) :: rest =>
      if index =? log_index then Some c else staged_at rest log_index
  end.

Definition tr_raft_membership_transition_stage
    (t : tr_raft_membership_transition) (configuration : tr_raft_conf)
    (log_index : Z) : status * tr_raft_membership_transition :=
  if log_index =? 0 then (SALTS_EINVAL, t)
  else if TR_RAFT_MEMBERSHIP_MAX_PENDING <? mt_pending_count t then (SALTS_EPROTO, t)
  else
    match staged_at (mt_pending t) log_index with
    | Some staged =>
        (if tr_raft_membership_equal staged configuration then SALTS_OK
         else SALTS_EPROTO, t)
    | None =>
        if (mt_pending_count t =? TR_RAFT_MEMBERSHIP_MAX_PENDING) ||
           match list.last (mt_pending t) with
           | Some (_, last_index) => log_index <=? last_index
           | None => false
           end
        then (SALTS_EPROTO, t)
        else
          match tr_raft_membership_transition_validate_next t configuration with
          | SALTS_OK =>
              (SALTS_OK,
               Transition (mt_committed t) (mt_pending t ++ [(configuration, log_index)]))
          | result => (result, t)
          end
    end.

Definition tr_raft_membership_transition_stage_entry
    (t : tr_raft_membership_transition) (e : tr_raft_entry)
    : status * tr_raft_membership_transition :=
  match tr_raft_conf_entry_decode e with
  | (SALTS_OK, configuration) =>
      tr_raft_membership_transition_stage t configuration (entry_index e)
  | (result, _) => (result, t)
  end.

(** ** Commitment *)

Definition tr_raft_membership_transition_commit_limit
    (t : tr_raft_membership_transition) (candidate_index : Z) : Z :=
  match mt_pending t with
  | [] => candidate_index
  | (_, index) :: _ =>
      if candidate_index <? index then candidate_index else index
  end.

(** The loop: the first pending configuration becomes the committed one while
    its entry is committed. *)
Fixpoint transition_apply_loop (committed : tr_raft_conf)
    (pending : list (tr_raft_conf * Z)) (commit_index : Z)
    : tr_raft_membership_transition :=
  match pending with
  | (c, index) :: rest =>
      if index <=? commit_index then transition_apply_loop c rest commit_index
      else Transition committed pending
  | [] => Transition committed []
  end.

Definition tr_raft_membership_transition_apply
    (t : tr_raft_membership_transition) (commit_index : Z)
    : status * tr_raft_membership_transition :=
  (SALTS_OK, transition_apply_loop (mt_committed t) (mt_pending t) commit_index).

Definition tr_raft_membership_transition_needs_final
    (t : tr_raft_membership_transition) : bool :=
  (conf_phase (mt_committed t) =? TR_RAFT_CONF_JOINT) && (mt_pending_count t =? 0).

Definition tr_raft_membership_transition_final
    (t : tr_raft_membership_transition) : status * option tr_raft_conf :=
  if negb (tr_raft_membership_transition_needs_final t) then (SALTS_EINVAL, None)
  else tr_raft_membership_final (mt_committed t).

Definition tr_raft_membership_transition_committed
    (t : tr_raft_membership_transition) : tr_raft_conf := mt_committed t.

Definition tr_raft_membership_transition_next
    (t : tr_raft_membership_transition) : option tr_raft_conf :=
  fst <$> list.head (mt_pending t).

(** ** Specification *)

(** [c] is a legal successor of [base]: a joint configuration whose outgoing
    voters are those of the stable [base], or the final configuration of the
    joint [base]. *)
Definition follows (base c : tr_raft_conf) : Prop :=
  conf_wf c /\
  ((conf_phase base = TR_RAFT_CONF_FINAL /\ conf_phase c = TR_RAFT_CONF_JOINT /\
    old_voters base = old_voters c) \/
   (conf_phase base = TR_RAFT_CONF_JOINT /\ conf_phase c = TR_RAFT_CONF_FINAL /\
    tr_raft_membership_final base = (SALTS_OK, Some c))).

Fixpoint chain (base : tr_raft_conf) (cs : list tr_raft_conf) : Prop :=
  match cs with
  | [] => True
  | c :: rest => follows base c /\ chain c rest
  end.

Record transition_wf (t : tr_raft_membership_transition) : Prop := {
  tw_committed : conf_wf (mt_committed t);
  tw_chain : chain (mt_committed t) (fst <$> mt_pending t);
  tw_indices : ids_wf (snd <$> mt_pending t);
  tw_bound : mt_pending_count t <= TR_RAFT_MEMBERSHIP_MAX_PENDING;
  tw_peers : fst (tr_raft_peer_set_build
                    (mt_committed t :: (fst <$> mt_pending t))) = SALTS_OK
}.

(** ** Comparisons *)

Lemma members_equal_spec l r :
  length l = length r -> members_equal l r = true <-> l = r.
Proof.
  revert r. induction l as [|[i1 r1] l IH]; intros [|[i2 r2] r] Hlen; try done.
  cbn in *. rewrite !andb_true_iff, IH by lia. rewrite !Z.eqb_eq. naive_solver.
Qed.

Lemma membership_equal_spec (l r : tr_raft_conf) :
  tr_raft_membership_equal l r = true <-> l = r.
Proof.
  unfold tr_raft_membership_equal, conf_member_count.
  destruct l as [p1 t1 m1], r as [p2 t2 m2]; cbn. case_match eqn:Hg.
  - split; [done|]. intros [= -> -> ->]. exfalso. lia.
  - rewrite members_equal_spec by lia. split; [|congruence].
    intros ->. f_equal; lia.
Qed.

Lemma skip_until_spec f ms :
  voters_by f (skip_until f ms) = voters_by f ms /\
  (length (skip_until f ms) <= length ms)%nat /\
  (skip_until f ms = [] \/
   exists m rest, skip_until f ms = m :: rest /\ f m = true).
Proof.
  unfold voters_by. induction ms as [|m ms IH]; [auto|]. cbn.
  destruct (f m) eqn:E; cbn; [rewrite E; eauto 10|].
  destruct IH as (-> & ? & ?). auto with lia.
Qed.

Lemma old_voters_match_loop_spec fuel stable s j :
  (length s + length j <= fuel)%nat ->
  let f m := tr_raft_membership_is_voter stable (member_node_id m) in
  old_voters_match_loop fuel stable s j = true <->
  voters_by f s = voters_by is_old_voter j.
Proof.
  intros Hf f. revert s j Hf. induction fuel as [|fuel IH]; intros s j Hf.
  { by destruct s, j; cbn in *; try lia. }
  destruct (skip_until_spec f s) as (Hs & Hls & Hs').
  destruct (skip_until_spec is_old_voter j) as (Hj & Hlj & Hj').
  rewrite <- Hs, <- Hj. cbn [old_voters_match_loop].
  change (skip_nonvoters stable s) with (skip_until f s).
  change (skip_not_old j) with (skip_until is_old_voter j).
  destruct s as [|s0 s]; [destruct j as [|j0 j]; [done|]|];
  (destruct Hs' as [Es|(m & rest & Es & Hm)], Hj' as [Ej|(n & rest' & Ej & Hn)];
   rewrite Es, Ej in *; unfold voters_by in *; cbn in *;
   rewrite ?Hm, ?Hn in *; try done; try lia).
  cbn. destruct (Z.eqb_spec (member_node_id m) (member_node_id n)) as [->|Hne].
  - cbn [negb]. rewrite IH by lia. split; [by intros ->|by intros [= ->]].
  - split; [done|]. by intros [= ? _].
Qed.

(** In a stable configuration every voter is in both majorities. *)
Lemma final_voter_old c m :
  conf_wf c -> conf_phase c = TR_RAFT_CONF_FINAL -> m ∈ conf_members c ->
  tr_raft_membership_is_voter c (member_node_id m) = is_old_voter m.
Proof.
  intros Hwf Hp Hm. unfold tr_raft_membership_is_voter.
  rewrite membership_roles_lookup by (done || apply Hwf).
  pose proof (wf_roles _ Hwf) as Hr. rewrite list.Forall_forall in Hr.
  specialize (Hr m Hm). rewrite Hp in Hr. unfold is_old_voter.
  unfold tr_raft_conf_roles_valid in Hr. cbn in Hr.
  repeat (case_match; try done);
    apply orb_true_iff in Hr as [Hr|Hr]; apply Z.eqb_eq in Hr; by rewrite Hr.
Qed.

Lemma joint_old_voters_match_spec stable joint :
  conf_wf stable -> conf_phase stable = TR_RAFT_CONF_FINAL ->
  tr_raft_joint_old_voters_match stable joint = true <->
  old_voters stable = old_voters joint.
Proof.
  intros Hwf Hp. unfold tr_raft_joint_old_voters_match.
  rewrite old_voters_match_loop_spec by lia. unfold old_voters.
  replace (voters_by is_old_voter (conf_members stable)) with
    (voters_by (fun m => tr_raft_membership_is_voter stable (member_node_id m))
       (conf_members stable)); [done|].
  unfold voters_by. f_equal. apply filter_ext_in. intros m Hm%list_elem_of_In.
  by apply final_voter_old.
Qed.

(** ** Staging *)

Lemma transition_base_last t :
  transition_base t = default (mt_committed t) (list.last (fst <$> mt_pending t)).
Proof.
  unfold transition_base. rewrite fmap_last.
  by destruct (list.last (mt_pending t)) as [[c i]|].
Qed.

Lemma chain_snoc base cs c :
  chain base (cs ++ [c]) <-> chain base cs /\ follows (default base (list.last cs)) c.
Proof.
  revert base. induction cs as [|d cs IH]; intros base; cbn [chain app]; [cbn; tauto|].
  rewrite IH. replace (default base (list.last (d :: cs)))
    with (default d (list.last cs)); [tauto|].
  rewrite last_cons. by destruct (list.last cs).
Qed.

(** Configurations of a chain alternate in phase: a base other than the
    committed configuration is joint when the committed one is not. *)
Lemma validate_next_follows t c :
  transition_wf t ->
  tr_raft_membership_transition_validate_next t c = SALTS_OK ->
  follows (transition_base t) c /\
  fst (tr_raft_peer_set_build
         (mt_committed t :: (fst <$> mt_pending t) ++ [c])) = SALTS_OK.
Proof.
  intros Hwf. unfold tr_raft_membership_transition_validate_next.
  destruct (tr_raft_conf_validate c) eqn:Hv; cbn; try done.
  apply conf_validate_wf in Hv.
  case_match; [done|]. destruct (fst (tr_raft_peer_set_build _)); try done. cbn.
  destruct (Z.eqb_spec (conf_phase c) TR_RAFT_CONF_JOINT) as [Hj|Hj].
  - case_match eqn:Hg; [done|]. intros _. split; [|done]. split; [done|]. left.
    apply orb_false_iff in Hg as [[Hg1 Hg2]%orb_false_iff Hg3].
    apply negb_false_iff in Hg1, Hg2, Hg3. apply Z.eqb_eq in Hg1, Hg2.
    unfold mt_pending_count in Hg1. unfold transition_base.
    destruct (mt_pending t); [cbn|cbn in *; lia].
    apply joint_old_voters_match_spec in Hg3; [done|apply Hwf|done].
  - case_match eqn:Hg; [|done]. apply andb_true_iff in Hg as [Hg1 Hg2].
    apply Z.eqb_eq in Hg1, Hg2.
    destruct (tr_raft_membership_final (transition_base t)) as [[] [e|]] eqn:Hf; try done.
    case_match eqn:He; [|done]. apply membership_equal_spec in He as ->.
    intros _. repeat split; try apply Hv. right. auto.
Qed.

Lemma staged_at_Some pending i c :
  staged_at pending i = Some c -> (c, i) ∈ pending.
Proof.
  induction pending as [|[d j] pending IH]; cbn; [done|].
  destruct (Z.eqb_spec j i) as [->|_]; [intros [= ->]; left|]. right. auto.
Qed.

Lemma staged_at_None pending i :
  staged_at pending i = None <-> ~ i ∈ (snd <$> pending).
Proof.
  induction pending as [|[d j] pending IH]; cbn.
  { split; [|done]. intros _ H. by apply elem_of_nil in H. }
  rewrite elem_of_cons. destruct (Z.eqb_spec j i) as [->|Hne]; [naive_solver|].
  rewrite IH. naive_solver.
Qed.

(** A stage that adds something appends a legal successor. *)
Lemma stage_inv t c i t' result :
  transition_wf t -> tr_raft_membership_transition_stage t c i = (result, t') ->
  (result <> SALTS_OK /\ t' = t) \/
  (result = SALTS_OK /\ (c, i) ∈ mt_pending t /\ t' = t) \/
  (result = SALTS_OK /\ i <> 0 /\ Forall (fun j => j < i) (snd <$> mt_pending t) /\
   mt_pending_count t < TR_RAFT_MEMBERSHIP_MAX_PENDING /\
   follows (transition_base t) c /\
   fst (tr_raft_peer_set_build
          (mt_committed t :: (fst <$> mt_pending t) ++ [c])) = SALTS_OK /\
   t' = Transition (mt_committed t) (mt_pending t ++ [(c, i)])).
Proof.
  intros Hwf. unfold tr_raft_membership_transition_stage.
  destruct (Z.eqb_spec i 0) as [->|Hi]; [intros [= <- <-]; by left|].
  destruct (Z.ltb_spec TR_RAFT_MEMBERSHIP_MAX_PENDING (mt_pending_count t)) as [|Hb];
    [intros [= <- <-]; by left|].
  destruct (staged_at (mt_pending t) i) as [d|] eqn:Hs.
  { intros [= <- <-]. destruct (tr_raft_membership_equal d c) eqn:He; [|by left].
    apply membership_equal_spec in He as ->. apply staged_at_Some in Hs. auto. }
  case_match eqn:Hg; [intros [= <- <-]; by left|].
  apply orb_false_iff in Hg as [Hg1 Hg2].
  destruct (tr_raft_membership_transition_validate_next t c) eqn:Hv;
    intros [= <- <-]; try (by left). right; right.
  apply validate_next_follows in Hv as [Hf Hp]; [|done].
  repeat split; try done; try apply Hf; [|lia].
  pose proof (tw_indices _ Hwf) as [_ Hsort].
  destruct (mt_pending t) as [|p ps _] using rev_ind; [by constructor|].
  rewrite last_snoc in Hg2. destruct p as [d j]. rewrite fmap_app in Hsort |- *.
  apply StronglySorted_app in Hsort as (Hsort & _ & _).
  apply Forall_app. split; [|constructor; [cbn in *; lia|constructor]].
  apply list.Forall_forall. intros x Hx.
  assert (x < j); [|lia]. apply (Hsort x j); [done|left].
Qed.

(** ** Preservation *)

Lemma length_stable_loop fuel vs ls :
  (length (stable_loop fuel vs ls) <= length vs + length ls)%nat.
Proof.
  revert vs ls. induction fuel as [|fuel IH]; intros vs ls; cbn; [lia|].
  destruct vs as [|v vs], ls as [|l ls]; cbn [length]; [lia| | |].
  - pose proof (IH [] ls). cbn in *. lia.
  - pose proof (IH vs []). cbn in *. lia.
  - case_match; cbn [length].
    + pose proof (IH vs (l :: ls)). cbn in *. lia.
    + pose proof (IH (v :: vs) ls). cbn in *. lia.
Qed.

Lemma membership_stable_wf vs vc ls lc c :
  array_elems vs vc <> [] -> 0 <= vc -> 0 <= lc ->
  tr_raft_membership_stable vs vc ls lc = (SALTS_OK, Some c) ->
  conf_wf c /\ conf_phase c = TR_RAFT_CONF_FINAL.
Proof.
  intros Hne Hvc Hlc. unfold tr_raft_membership_stable.
  destruct (tr_raft_membership_validate_set vs vc ls lc) eqn:Hv; cbn; try done.
  apply validate_set_spec in Hv as (Hvs & Hls & Hd & _ & _ & Hb).
  intros [= <-]. split; [|done].
  eapply (stable_spec_wf (array_elems vs vc) (array_elems ls lc)).
  - destruct Hvs as [Hvs _], Hls as [Hls _]. rewrite list.Forall_forall in Hvs, Hls.
    intros id [Hid|Hid]; auto.
  - done.
  - pose proof (length_stable_loop (length (array_elems vs vc) +
      length (array_elems ls lc)) (array_elems vs vc) (array_elems ls lc)).
    pose proof (length_array_elems vs vc). pose proof (length_array_elems ls lc). lia.
  - apply stable_loop_spec; [apply Hvs|apply Hls|done|lia].
Qed.

(** The peer sets of fewer sources are no larger. *)
Lemma peer_set_build_sublist ms ms' :
  ms' <> [] -> ms' ⊆ ms -> (length ms' <= length ms)%nat ->
  fst (tr_raft_peer_set_build ms) = SALTS_OK ->
  fst (tr_raft_peer_set_build ms') = SALTS_OK.
Proof.
  intros Hne Hsub Hlen H. destruct (tr_raft_peer_set_build ms) as [r u] eqn:E.
  cbn in H. subst r. apply peer_set_build_count in E as Hc.
  apply peer_set_build_ok in E as ([Hs Hu] & Hb & Hv).
  destruct (peer_set_build_spec ms') as (u' & [Hs' Hu'] & ->).
  - destruct ms'; [done|]. cbn in *. lia.
  - rewrite list.Forall_forall in Hv |- *. auto.
  - replace (_ <=? _) with true; [done|]. symmetry. apply Z.leb_le.
    enough (length u' <= length u)%nat by lia.
    apply submseteq_length, NoDup_submseteq; [by apply StronglySorted_lt_NoDup|].
    intros id. rewrite Hu, Hu'. unfold in_sources.
    setoid_rewrite list_elem_of_fmap. naive_solver.
Qed.

Lemma transition_wf_init c : conf_wf c -> transition_wf (Transition c []).
Proof.
  intros Hwf. constructor; try done.
  - by repeat constructor.
  - cbn [mt_committed mt_pending fmap list_fmap].
    destruct (peer_set_build_spec [c]) as (u & [Hs Hu] & ->); [done| |].
    { apply list.Forall_forall. intros x [->|H]%elem_of_cons;
        [by apply conf_wf_peer_valid|by apply elem_of_nil in H]. }
    replace (_ <=? _) with true; [done|]. symmetry. apply Z.leb_le.
    pose proof (wf_bound _ Hwf) as Hb. unfold conf_member_count in Hb.
    enough (length u <= length (conf_ids c))%nat as Hle
      by (unfold conf_ids in Hle; rewrite length_fmap in Hle; lia).
    apply submseteq_length, NoDup_submseteq; [by apply StronglySorted_lt_NoDup|].
    intros id. rewrite Hu. intros [(s & Hin & Hid) _].
    cbn in Hin. apply list_elem_of_singleton in Hin. by subst.
Qed.

Lemma transition_wf_stage t c i result t' :
  transition_wf t -> tr_raft_membership_transition_stage t c i = (result, t') ->
  transition_wf t'.
Proof.
  intros Hwf H. apply stage_inv in H as [[_ ->]|[(_ & _ & ->)|H]]; try done.
  destruct H as (_ & Hi & Hlt & Hb & Hf & Hp & ->). destruct Hwf as [Hw Hc [Hz Hs] Hn _].
  constructor; cbn [mt_committed mt_pending].
  - done.
  - rewrite fmap_app. cbn. apply chain_snoc. split; [done|].
    by rewrite transition_base_last in Hf.
  - rewrite fmap_app. split; [apply Forall_app; by repeat constructor|].
    apply StronglySorted_app. repeat split; [|done|by repeat constructor].
    intros x y Hx Hy%list_elem_of_singleton. rewrite list.Forall_forall in Hlt.
    subst y. by apply Hlt.
  - unfold mt_pending_count in *. cbn. rewrite length_app. cbn. lia.
  - by rewrite fmap_app.
Qed.

(** ** Commitment *)

Lemma apply_loop_split committed pending commit :
  exists done rest, pending = done ++ rest /\
    Forall (fun p => snd p <= commit) done /\
    (forall p, list.head rest = Some p -> commit < snd p) /\
    transition_apply_loop committed pending commit =
      Transition (default committed (list.last (fst <$> done))) rest.
Proof.
  revert committed. induction pending as [|[c i] pending IH]; intros committed; cbn.
  { exists [], []. by repeat split; try constructor. }
  destruct (Z.leb_spec i commit) as [Hle|Hlt].
  - destruct (IH c) as (done & rest & -> & Hd & Hr & ->).
    exists ((c, i) :: done), rest. repeat split; [by constructor|done|].
    cbn [fmap list_fmap fst]. rewrite last_cons. by destruct (list.last (fst <$> done)).
  - exists [], ((c, i) :: pending). repeat split; [constructor|].
    intros p [= <-]. done.
Qed.

Lemma chain_app base cs ds :
  chain base (cs ++ ds) -> chain (default base (list.last cs)) ds.
Proof.
  revert base. induction cs as [|c cs IH]; intros base; [done|].
  cbn [app chain]. intros [_ H]. apply IH in H. rewrite last_cons.
  by destruct (list.last cs).
Qed.

Lemma chain_wf base cs : chain base cs -> Forall conf_wf cs.
Proof.
  revert base. induction cs as [|c cs IH]; intros base; [constructor|].
  intros [[Hc _] H]. constructor; eauto.
Qed.

Lemma transition_wf_apply t commit t' :
  transition_wf t -> tr_raft_membership_transition_apply t commit = (SALTS_OK, t') ->
  transition_wf t'.
Proof.
  intros [Hw Hc [Hz Hs] Hn Hp] [= <-].
  destruct (apply_loop_split (mt_committed t) (mt_pending t) commit)
    as (done & rest & Hsplit & _ & _ & ->).
  rewrite Hsplit, fmap_app in Hc, Hp. rewrite Hsplit, fmap_app in Hz, Hs. unfold mt_pending_count in Hn.
  rewrite Hsplit, length_app in Hn.
  set (base := default (mt_committed t) (list.last (fst <$> done))).
  assert (base ∈ mt_committed t :: (fst <$> done)) as Hbase.
  { unfold base. destruct (list.last (fst <$> done)) as [c|] eqn:E; [|left].
    right. by apply last_Some_elem_of. }
  constructor; cbn [mt_committed mt_pending].
  - pose proof (chain_wf _ _ Hc) as Hwf. apply Forall_app in Hwf as [Hwf _].
    rewrite list.Forall_forall in Hwf.
    apply elem_of_cons in Hbase as [->|Hbase]; [done|auto].
  - by apply chain_app in Hc.
  - split; [by apply Forall_app in Hz as [_ Hz]|].
    by apply StronglySorted_app_1_r in Hs.
  - unfold mt_pending_count. cbn. lia.
  - eapply peer_set_build_sublist; [done| | |done].
    + intros c [->|Hin]%elem_of_cons; set_solver.
    + cbn. rewrite length_app. lia.
Qed.

(** ** Reachable transitions *)

Inductive transition_reachable : tr_raft_membership_transition -> Prop :=
| reach_init vs vc ls lc t :
    array_elems vs vc <> [] -> 0 <= vc -> 0 <= lc ->
    tr_raft_membership_transition_init vs vc ls lc = (SALTS_OK, t) ->
    transition_reachable t
| reach_init_configuration c t :
    tr_raft_membership_transition_init_configuration c = (SALTS_OK, Some t) ->
    transition_reachable t
| reach_stage t c index result t' :
    transition_reachable t ->
    tr_raft_membership_transition_stage t c index = (result, t') ->
    transition_reachable t'
| reach_stage_entry t e result t' :
    transition_reachable t ->
    tr_raft_membership_transition_stage_entry t e = (result, t') ->
    transition_reachable t'
| reach_apply t commit result t' :
    transition_reachable t ->
    tr_raft_membership_transition_apply t commit = (result, t') ->
    transition_reachable t'.

Lemma transition_wf_init_voters vs vc ls lc t :
  array_elems vs vc <> [] -> 0 <= vc -> 0 <= lc ->
  tr_raft_membership_transition_init vs vc ls lc = (SALTS_OK, t) ->
  transition_wf t.
Proof.
  intros Hne Hvc Hlc. unfold tr_raft_membership_transition_init.
  destruct (tr_raft_membership_stable vs vc ls lc) as [[] [c|]] eqn:E; try done.
  - intros [= <-]. apply transition_wf_init. by eapply membership_stable_wf.
  - unfold tr_raft_membership_stable in E. by case_match.
Qed.

Lemma transition_wf_init_configuration c t :
  tr_raft_membership_transition_init_configuration c = (SALTS_OK, Some t) ->
  transition_wf t.
Proof.
  unfold tr_raft_membership_transition_init_configuration.
  destruct (tr_raft_conf_validate c) eqn:E; cbn; try done. intros [= <-].
  by apply transition_wf_init, conf_validate_wf.
Qed.

Lemma transition_wf_stage_entry t e result t' :
  transition_wf t ->
  tr_raft_membership_transition_stage_entry t e = (result, t') ->
  transition_wf t'.
Proof.
  intros Hwf. unfold tr_raft_membership_transition_stage_entry.
  destruct (tr_raft_conf_entry_decode e) as [[] c]; try (by intros [= _ <-]).
  by apply transition_wf_stage.
Qed.

#[export] Hint Resolve transition_wf_init transition_wf_stage transition_wf_apply
  transition_wf_stage_entry transition_wf_init_configuration : raft.

Lemma reachable_wf t : transition_reachable t -> transition_wf t.
Proof.
  induction 1; eauto using transition_wf_init_voters with raft.
  match goal with H : tr_raft_membership_transition_apply _ _ = _ |- _ =>
    pose proof H; injection H as <- _ end.
  eauto with raft.
Qed.

(** ** Consecutive configurations *)

Lemma final_members_voters ms :
  voters_by is_old_voter (final_members ms) = voters_by is_new_voter ms.
Proof.
  unfold voters_by. induction ms as [|m ms IH]; [done|]. cbn [final_members].
  assert (has_role (member_roles m) TR_RAFT_CONF_NEW_VOTER = is_new_voter m) as Hn
    by done.
  destruct (Z.eqb_spec (Z.land (member_roles m)
    (Z.lor TR_RAFT_CONF_NEW_VOTER TR_RAFT_CONF_LEARNER)) 0) as [Hz|_].
  - assert (is_new_voter m = false) as Hf.
    { unfold is_new_voter, has_role. rewrite Z.land_lor_distr_r in Hz.
      apply Z.lor_eq_0_iff in Hz as [-> _]. done. }
    cbn. by rewrite Hf, IH.
  - rewrite Hn. destruct (is_new_voter m) eqn:E; cbn [List.filter]; rewrite E.
    + change (is_old_voter (Member _ _)) with true. cbn. f_equal. apply IH.
    + change (is_old_voter (Member _ _)) with false. apply IH.
Qed.

(** A voter set of both configurations of a legal succession is a majority of
    each quorum of either. *)
Lemma follows_overlap c1 c2 a1 a2 :
  conf_wf c1 -> follows c1 c2 ->
  tr_raft_membership_has_quorum c1 a1 = true ->
  tr_raft_membership_has_quorum c2 a2 = true ->
  exists id, tr_raft_membership_is_voter c1 id = true /\
    tr_raft_membership_is_voter c2 id = true /\
    acked c1 a1 id = true /\ acked c2 a2 id = true.
Proof.
  intros Hw1 [Hw2 Hf] H1 H2.
  apply conf_wf_quorum in H1 as [H1o H1n]; [|done].
  apply conf_wf_quorum in H2 as [H2o H2n]; [|done].
  destruct Hf as [(_ & _ & Heq)|(_ & _ & Hf)].
  - apply (shared_majority_overlap _ _ (old_voters c1)); [|done|by rewrite Heq].
    intros id Hid. split; [apply old_voter_is_voter; [apply Hw1|done]|].
    apply old_voter_is_voter; [apply Hw2|by rewrite <- Heq].
  - assert (old_voters c2 = new_voters c1) as Heq.
    { unfold tr_raft_membership_final in Hf. case_match; [done|].
      injection Hf as _ <-. apply final_members_voters. }
    apply (shared_majority_overlap _ _ (new_voters c1)); [|done|by rewrite <- Heq].
    intros id Hid. split; [apply new_voter_is_voter; [apply Hw1|done]|].
    apply old_voter_is_voter; [apply Hw2|by rewrite Heq].
Qed.

Lemma chain_lookup base cs k c1 c2 :
  chain base cs -> (base :: cs) !! k = Some c1 -> cs !! k = Some c2 ->
  follows c1 c2.
Proof.
  revert base k. induction cs as [|c cs IH]; intros base k Hc H1 H2; [done|].
  destruct Hc as [Hf Hc]. destruct k as [|k]; cbn in H1, H2; [naive_solver|].
  by apply (IH c k).
Qed.

(** ** The life of a transition *)

Lemma membership_final_ok j :
  conf_wf j -> conf_phase j = TR_RAFT_CONF_JOINT ->
  exists f, tr_raft_membership_final j = (SALTS_OK, Some f) /\ conf_wf f /\
    conf_phase f = TR_RAFT_CONF_FINAL /\ conf_ids f ⊆ conf_ids j /\
    conf_members f = final_members (conf_members j).
Proof.
  intros Hwf Hp. unfold tr_raft_membership_final.
  assert (tr_raft_conf_validate j = SALTS_OK) as -> by by apply conf_validate_wf.
  rewrite Hp. cbn [negb orb failed ok Z.eqb].
  set (f := Conf TR_RAFT_CONF_FINAL (conf_transition_id j) (final_members (conf_members j))).
  assert (conf_ids f ⊆ conf_ids j) as Hsub.
  { unfold conf_ids. cbn [f conf_members]. rewrite final_members_filter.
    intros id (m & -> & Hm)%list_elem_of_fmap.
    apply list_elem_of_fmap in Hm as (m' & -> & [Hm _]%elem_of_List_filter).
    apply list_elem_of_fmap. by exists m'. }
  assert (conf_wf f) as Hf; [|].
  2: { apply conf_validate_wf in Hf as Hv. exists f. rewrite Hv. auto. }
  destruct (wf_new _ Hwf) as (m & Hm & Hn).
  assert (final_member m ∈ conf_members f /\ member_roles (final_member m) = voter_roles)
    as [Hfm Hr].
  { unfold final_member. rewrite Hn. split; [|done]. cbn [f conf_members].
    rewrite final_members_filter. apply list_elem_of_fmap. exists m.
    split; [unfold final_member; by rewrite Hn|]. apply elem_of_List_filter.
    split; [done|]. unfold final_keep, is_new_voter, has_role in *.
    rewrite Z.land_lor_distr_r. apply negb_true_iff, Z.eqb_neq.
    apply negb_true_iff, Z.eqb_neq in Hn. intros [H _]%Z.lor_eq_0_iff. done. }
  constructor; cbn [f conf_phase conf_transition_id conf_members]; auto; try done.
  - pose proof (wf_bound _ Hwf) as Hb. pose proof (length_final_members (conf_members j)).
    unfold conf_member_count in *. cbn [f conf_members]. lia.
  - destruct (wf_ids _ Hwf) as [Hz Hs]. split.
    + rewrite list.Forall_forall in Hz |- *. intros id Hid. auto.
    + unfold conf_ids in *. cbn [f conf_members]. rewrite final_members_filter.
      apply member_lt_ids. eapply StronglySorted_map_filter;
        [|apply member_lt_ids, Hs]. done.
  - rewrite final_members_filter. apply list.Forall_forall.
    intros x (y & -> & _)%list_elem_of_fmap. unfold final_member.
    by destruct (is_new_voter y).
  - exists (final_member m). split; [done|]. unfold is_old_voter. by rewrite Hr.
  - exists (final_member m). split; [done|]. unfold is_new_voter. by rewrite Hr.
Qed.

Lemma stage_first_joint t j i :
  transition_wf t -> mt_pending t = [] -> i <> 0 ->
  conf_phase (mt_committed t) = TR_RAFT_CONF_FINAL -> conf_wf j ->
  conf_phase j = TR_RAFT_CONF_JOINT -> old_voters (mt_committed t) = old_voters j ->
  fst (tr_raft_peer_set_build [mt_committed t; j]) = SALTS_OK ->
  tr_raft_membership_transition_stage t j i =
    (SALTS_OK, Transition (mt_committed t) [(j, i)]).
Proof.
  intros Hwf Hpend Hi Hfin Hj Hjp Hv Hp. destruct t as [c pending]. cbn in *. subst pending.
  unfold tr_raft_membership_transition_stage.
  destruct (Z.eqb_spec i 0); [done|]. cbn.
  unfold tr_raft_membership_transition_validate_next.
  assert (tr_raft_conf_validate j = SALTS_OK) as -> by by apply conf_validate_wf.
  cbn [mt_committed mt_pending fmap list_fmap app]. rewrite Hp, Hjp, Hfin.
  assert (tr_raft_joint_old_voters_match c j = true) as ->; [|done].
  apply joint_old_voters_match_spec; try done. apply Hwf.
Qed.

Lemma stage_final j f i :
  conf_wf j -> conf_phase j = TR_RAFT_CONF_JOINT -> i <> 0 ->
  tr_raft_membership_final j = (SALTS_OK, Some f) ->
  tr_raft_membership_transition_stage (Transition j []) f i =
    (SALTS_OK, Transition j [(f, i)]).
Proof.
  intros Hj Hjp Hi Hf.
  destruct (membership_final_ok j Hj Hjp) as (f' & Hf' & Hw & Hp & Hsub & _).
  assert (f' = f) as -> by congruence.
  unfold tr_raft_membership_transition_stage.
  destruct (Z.eqb_spec i 0); [done|]. cbn.
  unfold tr_raft_membership_transition_validate_next.
  assert (tr_raft_conf_validate f = SALTS_OK) as -> by by apply conf_validate_wf.
  cbn [mt_committed mt_pending fmap list_fmap app].
  assert (fst (tr_raft_peer_set_build [j; f]) = SALTS_OK) as ->.
  { destruct (transition_wf_init j Hj) as [_ _ _ _ Hb].
    cbn [mt_committed mt_pending fmap list_fmap] in Hb.
    destruct (tr_raft_peer_set_build [j]) as [r u] eqn:E. cbn in Hb. subst r.
    apply peer_set_build_ok in E as ([Hs Hu] & Hlen & _).
    apply (peer_set_build_fits _ u); [done|by rewrite !list.Forall_cons|done|].
    intros id c Hc Hid Hlt. apply Hu. split; [|done]. exists (conf_ids j).
    split; [left|]. set_solver. }
  unfold transition_base. cbn [mt_pending list.last mt_committed fst failed ok].
  rewrite Hp, Hjp, Hf. cbn.
  assert (tr_raft_membership_equal f f = true) as -> by by apply membership_equal_spec.
  done.
Qed.

(** The joint configuration the leader proposes can be staged: the limit of 31
    members it was built under covers the peers of both configurations. *)
Lemma propose_stage t tv tvc tl tlc tid j i :
  transition_wf t -> ids_below_max (conf_ids (mt_committed t)) ->
  ids_below_max (array_elems tv tvc) -> ids_below_max (array_elems tl tlc) ->
  tr_raft_membership_transition_propose t tv tvc tl tlc tid = (SALTS_OK, Some j) ->
  i <> 0 ->
  tr_raft_membership_transition_stage t j i =
    (SALTS_OK, Transition (mt_committed t) [(j, i)]) /\
  conf_wf j /\ conf_phase j = TR_RAFT_CONF_JOINT.
Proof.
  intros Hwf Mc Mv Ml Hprop Hi. unfold tr_raft_membership_transition_propose in Hprop.
  case_match eqn:Hg; [done|]. apply orb_false_iff in Hg as [Hg1 Hg2].
  assert (mt_pending t = []) as Hpend.
  { unfold mt_pending_count in Hg2. apply nil_length_inv. lia. }
  pose proof Hprop as Hunion. unfold tr_raft_membership_joint in Hunion.
  apply membership_joint_inv in Hprop
    as (Hst & Hvalid & Htid & Hj & ms & -> & Hspec); try done.
  apply validate_set_spec in Hvalid as ([_ Hvs] & [_ Hls] & _).
  pose proof (wf_ids _ (tw_committed _ Hwf)) as Hids.
  pose proof (joint_spec_voters _ _ _ _ (voters_by_sorted is_old_voter _
    (ids_wf_members_sorted _ Hids)) Hvs Hspec) as [Hold _].
  split; [|done]. apply negb_false_iff, Z.eqb_eq in Hg1.
  apply stage_first_joint; try done.
  case_match; [done|]. case_match eqn:Hu; [done|].
  destruct (union_count_loop_spec (length (conf_members (mt_committed t)) +
    length (array_elems tv tvc) + length (array_elems tl tlc))
    (conf_ids (mt_committed t)) (array_elems tv tvc) (array_elems tl tlc) 0)
    as (u & Hu' & _ & Hin); try done; [by destruct Hids| |].
  { unfold conf_ids. rewrite length_fmap. lia. }
  unfold tr_raft_membership_union_count in Hu. rewrite Hu' in Hu.
  apply (peer_set_build_fits _ u); [done| |lia|].
  { rewrite !list.Forall_cons. split; [apply Hwf|done]. }
  intros id m [->|[->|[]%elem_of_nil]%elem_of_cons]%elem_of_cons Hid _;
    apply Hin; [by left|].
  apply list_elem_of_fmap in Hid as (x & -> & Hx). apply Hspec in Hx as [Hx _].
  destruct Hx as [Hx|Hx]; [left|by right].
  by apply voters_by_incl in Hx.
Qed.

(** ** Properties *)

(** Every transition state reached from an initialisation by staging
    configurations or log entries and applying commits, in any order and with
    any arguments, is well formed: the committed configuration is valid, each
    pending one is a legal successor of the one before it at a larger log
    index, there are at most two, and the union of their members fits the peer
    table. *)
Theorem transition_reachable_wf (t : tr_raft_membership_transition)
    (Hreach : transition_reachable t) : transition_wf t.
Proof. by apply reachable_wf. Qed.

(** In a reachable transition state, quorums of any two consecutive
    configurations, the committed one or a pending one and the next pending
    one, acknowledge a common voter. This covers configurations that arrive in
    log entries and were not proposed by this node. *)
Theorem pending_quorums_overlap (t : tr_raft_membership_transition) (k : nat)
    (c1 c2 : tr_raft_conf) (acks1 acks2 : Z)
    (Hreach : transition_reachable t)
    (Hc1 : (mt_committed t :: (fst <$> mt_pending t)) !! k = Some c1)
    (Hc2 : (fst <$> mt_pending t) !! k = Some c2)
    (H1 : tr_raft_membership_has_quorum c1 acks1 = true)
    (H2 : tr_raft_membership_has_quorum c2 acks2 = true) :
  exists id, tr_raft_membership_is_voter c1 id = true /\
    tr_raft_membership_is_voter c2 id = true /\
    acked c1 acks1 id = true /\ acked c2 acks2 id = true.
Proof.
  destruct (reachable_wf t Hreach) as [Hw Hc _ _ _].
  apply follows_overlap; try done; [|by eapply chain_lookup].
  assert (Forall conf_wf (mt_committed t :: (fst <$> mt_pending t))) as Hall.
  { constructor; [done|by eapply chain_wf]. }
  rewrite list.Forall_forall in Hall. apply Hall.
  by eapply list_elem_of_lookup_2.
Qed.

(** The commit limit stops at the first pending configuration, so
    applying a commit bounded by it installs at most that configuration. *)
Theorem commit_limit_single_step (t : tr_raft_membership_transition)
    (candidate : Z) (Hreach : transition_reachable t) :
  let limit := tr_raft_membership_transition_commit_limit t candidate in
  limit <= candidate /\
  (candidate <= limit \/
   (snd <$> list.head (mt_pending t)) = Some limit) /\
  exists t', tr_raft_membership_transition_apply t limit = (SALTS_OK, t') /\
    ((t' = t /\ forall p, list.head (mt_pending t) = Some p -> limit < snd p) \/
     exists c rest, mt_pending t = (c, limit) :: rest /\
       t' = Transition c rest).
Proof.
  destruct (reachable_wf t Hreach) as [_ _ [_ Hs] _ _].
  unfold tr_raft_membership_transition_commit_limit, tr_raft_membership_transition_apply.
  destruct t as [committed [|[c i] rest]]; cbn in *.
  { split; [lia|]. split; [by left|]. eexists. split; [done|]. by left. }
  destruct (Z.ltb_spec candidate i) as [Hlt|Hle].
  - split; [lia|]. split; [by left|]. eexists. split; [done|]. left.
    replace (i <=? candidate) with false by lia. split; [done|].
    intros p [= <-]. cbn. lia.
  - split; [lia|]. split; [by right|]. eexists. split; [done|]. right.
    exists c, rest. split; [done|]. rewrite Z.leb_refl.
    destruct rest as [|[d k] rest]; [done|]. cbn in *.
    inversion_clear Hs as [|? ? _ Hlt]. apply Forall_inv in Hlt.
    by replace (k <=? i) with false by lia.
Qed.

(** A proposed membership change runs to its end: the proposed joint
    configuration can be staged, committing it makes the final configuration
    due, that one can be staged in turn, and committing it leaves exactly the
    proposed members with nothing pending. *)
Theorem transition_lifecycle (t : tr_raft_membership_transition)
    (tv tl : option (list Z)) (tvc tlc tid : Z) (j : tr_raft_conf) (i k : Z)
    (Hreach : transition_reachable t)
    (Mcur : ids_below_max (conf_ids (mt_committed t)))
    (Mtv : ids_below_max (array_elems tv tvc))
    (Mtl : ids_below_max (array_elems tl tlc))
    (Hprop : tr_raft_membership_transition_propose t tv tvc tl tlc tid =
               (SALTS_OK, Some j))
    (Hi : i <> 0) (Hk : k <> 0) :
  exists t1 t2 f t3 t4 target,
    tr_raft_membership_transition_stage t j i = (SALTS_OK, t1) /\
    tr_raft_membership_transition_apply t1 i = (SALTS_OK, t2) /\
    tr_raft_membership_transition_final t2 = (SALTS_OK, Some f) /\
    tr_raft_membership_transition_stage t2 f k = (SALTS_OK, t3) /\
    tr_raft_membership_transition_apply t3 k = (SALTS_OK, t4) /\
    tr_raft_membership_stable tv tvc tl tlc = (SALTS_OK, Some target) /\
    mt_committed t4 = f /\ mt_pending t4 = [] /\
    conf_phase f = TR_RAFT_CONF_FINAL /\ conf_members f = conf_members target.
Proof.
  apply reachable_wf in Hreach as Hwf.
  destruct (propose_stage t tv tvc tl tlc tid j i) as (Hs & Hj & Hjp); try done.
  destruct (membership_final_ok j Hj Hjp) as (f & Hf & _ & Hfp & _ & Hfm).
  unfold tr_raft_membership_transition_propose in Hprop. case_match; [done|].
  apply membership_final_of_joint in Hprop as (ms & Htarget & _ & Hms & _); try done.
  exists (Transition (mt_committed t) [(j, i)]), (Transition j []), f,
    (Transition j [(f, k)]), (Transition f []), (Conf TR_RAFT_CONF_FINAL 0 ms).
  unfold tr_raft_membership_transition_apply, tr_raft_membership_transition_final,
    tr_raft_membership_transition_needs_final.
  cbn [transition_apply_loop mt_committed mt_pending conf_members].
  rewrite !Z.leb_refl, Hjp. cbn [negb andb Z.eqb]. rewrite Hfm, Hms.
  repeat split; try done. by apply stage_final.
Qed.

Definition example_transition : tr_raft_membership_transition :=
  Transition example_members [(example_joint, 5); (example_final, 7)].

(** [example_transition] is reached by staging the joint and then the final
    configuration. *)
Lemma example_transition_reachable : transition_reachable example_transition.
Proof.
  apply (reach_stage (Transition example_members [(example_joint, 5)])
    example_final 7 SALTS_OK); [|reflexivity].
  apply (reach_stage (Transition example_members []) example_joint 5 SALTS_OK);
    [|reflexivity].
  by apply (reach_init_configuration example_members).
Qed.

Lemma transition_reachable_wf_witness : transition_wf example_transition.
Proof.
  apply (transition_reachable_wf example_transition), example_transition_reachable.
Defined.

Lemma pending_quorums_overlap_witness :
  exists id, tr_raft_membership_is_voter example_joint id = true /\
    tr_raft_membership_is_voter example_final id = true /\
    acked example_joint 15 id = true /\ acked example_final 7 id = true.
Proof.
  apply (pending_quorums_overlap example_transition 1);
    [apply example_transition_reachable|reflexivity..].
Defined.

Lemma commit_limit_single_step_witness :
  tr_raft_membership_transition_commit_limit example_transition 9 <= 9.
Proof.
  apply (commit_limit_single_step example_transition 9), example_transition_reachable.
Defined.

Lemma transition_lifecycle_witness :
  exists j t1 t2 f t3 t4,
    tr_raft_membership_transition_stage (Transition example_members []) j 5 =
      (SALTS_OK, t1) /\
    tr_raft_membership_transition_apply t1 5 = (SALTS_OK, t2) /\
    tr_raft_membership_transition_final t2 = (SALTS_OK, Some f) /\
    tr_raft_membership_transition_stage t2 f 7 = (SALTS_OK, t3) /\
    tr_raft_membership_transition_apply t3 7 = (SALTS_OK, t4) /\
    mt_committed t4 = f.
Proof.
  exists example_joint.
  edestruct (transition_lifecycle (Transition example_members [])
    (Some [2; 3; 4]) (Some [9]) 3 1 7 example_joint 5 7) as
    (t1 & t2 & f & t3 & t4 & target & ? & ? & ? & ? & ? & ? & ? & _).
  - by apply (reach_init_configuration example_members).
  - repeat constructor; vm_compute; congruence.
  - repeat constructor; vm_compute; congruence.
  - repeat constructor; vm_compute; congruence.
  - reflexivity.
  - lia.
  - lia.
  - exists t1, t2, f, t3, t4. auto 10.
Defined.
