(* ===== verification/Window.v ===== *)
(** * Append windows: the ring buffers of [src/core/raft_core.c]

    Each peer has a window of at most 64 append requests in flight, kept in a
    ring of 64 slots. [window_queue] is the queue a window stands for; the
    operations refine the queue operations. *)

From S2P Require Import Prelude.
From Stdlib Require Import ZArith Lia.
From stdpp Require Import base numbers list tactics.
Open Scope Z_scope.
Open Scope raft_scope.

Definition TR_RAFT_MAX_INFLIGHT_APPEND_REQUESTS : Z := 64.

Record tr_raft_append_inflight := Inflight {
  inf_previous_index : Z;
  inf_last_index : Z;
  inf_elapsed_ticks : Z
}.

Definition zero_inflight : tr_raft_append_inflight := Inflight 0 0 0.

Record tr_raft_append_window := Window {
  w_items : list tr_raft_append_inflight;
  w_head : Z;
  w_count : Z;
  w_probe : bool
}.

Definition empty_items : list tr_raft_append_inflight :=
  replicate (Z.to_nat TR_RAFT_MAX_INFLIGHT_APPEND_REQUESTS) zero_inflight.

Definition zero_window : tr_raft_append_window := Window empty_items 0 0 false.

(** [memset] and [window->probe = probe]. *)
Definition tr_append_window_reset (probe : bool) : tr_raft_append_window :=
  Window empty_items 0 0 probe.

Definition window_slot (w : tr_raft_append_window) (logical_index : Z) : Z :=
  (w_head w + logical_index) mod TR_RAFT_MAX_INFLIGHT_APPEND_REQUESTS.

(** [*tr_append_window_at(window, i)] read, and written. *)
Definition tr_append_window_at_const (w : tr_raft_append_window) (logical_index : Z)
    : tr_raft_append_inflight :=
  array_get zero_inflight (w_items w) (window_slot w logical_index).

Definition tr_append_window_at_set (w : tr_raft_append_window) (logical_index : Z)
    (item : tr_raft_append_inflight) : tr_raft_append_window :=
  Window (array_set (w_items w) (window_slot w logical_index) item)
    (w_head w) (w_count w) (w_probe w).

Definition tr_append_window_push (w : tr_raft_append_window)
    (previous_index last_index : Z) : bool * tr_raft_append_window :=
  if TR_RAFT_MAX_INFLIGHT_APPEND_REQUESTS <=? w_count w then (false, w)
  else
    let w := tr_append_window_at_set w (w_count w)
               (Inflight previous_index last_index 0) in
    (true, Window (w_items w) (w_head w) (w_count w + 1) (w_probe w)).

Fixpoint window_find_from (n : nat) (index : Z) (w : tr_raft_append_window)
    (previous_index : Z) : Z :=
  match n with
  | O => -1
  | S n' =>
      if inf_previous_index (tr_append_window_at_const w index) =? previous_index
      then index
      else window_find_from n' (index + 1) w previous_index
  end.

Definition tr_append_window_find (w : tr_raft_append_window) (previous_index : Z) : Z :=
  window_find_from (Z.to_nat (w_count w)) 0 w previous_index.

(** The loop runs [count] times at most: each iteration lowers [count]. *)
Fixpoint window_release_loop (n : nat) (w : tr_raft_append_window)
    (match_index : Z) : tr_raft_append_window :=
  match n with
  | O => w
  | S n' =>
      if w_count w =? 0 then w
      else
        let front := tr_append_window_at_const w 0 in
        if match_index <? inf_last_index front then w
        else
          window_release_loop n'
            (Window (array_set (w_items w) (w_head w) zero_inflight)
               ((w_head w + 1) mod TR_RAFT_MAX_INFLIGHT_APPEND_REQUESTS)
               (w_count w - 1) (w_probe w))
            match_index
  end.

Definition tr_append_window_release_through (w : tr_raft_append_window)
    (match_index : Z) : tr_raft_append_window :=
  let w := window_release_loop (Z.to_nat (w_count w)) w match_index in
  if w_count w =? 0 then Window (w_items w) 0 (w_count w) (w_probe w) else w.

Definition tr_append_window_oldest_elapsed (w : tr_raft_append_window) : Z :=
  if w_count w =? 0 then 0 else inf_elapsed_ticks (tr_append_window_at_const w 0).

(** ** The queue of a window *)

Definition window_queue (w : tr_raft_append_window) : list tr_raft_append_inflight :=
  (fun k => tr_append_window_at_const w (Z.of_nat k)) <$> seq 0 (Z.to_nat (w_count w)).

Record window_wf (w : tr_raft_append_window) : Prop := {
  ww_items : length (w_items w) = 64%nat;
  ww_head : 0 <= w_head w < TR_RAFT_MAX_INFLIGHT_APPEND_REQUESTS;
  ww_count : 0 <= w_count w <= TR_RAFT_MAX_INFLIGHT_APPEND_REQUESTS
}.

Lemma length_window_queue w : length (window_queue w) = Z.to_nat (w_count w).
Proof. unfold window_queue. by rewrite length_fmap, length_seq. Qed.

Lemma window_queue_lookup w k :
  (k < Z.to_nat (w_count w))%nat ->
  window_queue w !! k = Some (tr_append_window_at_const w (Z.of_nat k)).
Proof.
  intros Hk. unfold window_queue. rewrite list_lookup_fmap, lookup_seq_lt by done. done.
Qed.

Lemma window_slot_range w i :
  0 <= window_slot w i < TR_RAFT_MAX_INFLIGHT_APPEND_REQUESTS.
Proof. apply Z.mod_pos_bound. done. Qed.

(** Two logical positions of a window never share a slot. *)
Lemma window_slot_inj w i j :
  0 <= i < 64 -> 0 <= j < 64 -> window_slot w i = window_slot w j -> i = j.
Proof.
  unfold window_slot, TR_RAFT_MAX_INFLIGHT_APPEND_REQUESTS. intros Hi Hj H.
  pose proof (Z.div_mod (w_head w + i) 64). pose proof (Z.div_mod (w_head w + j) 64).
  lia.
Qed.

Lemma window_wf_reset probe : window_wf (tr_append_window_reset probe).
Proof. by constructor. Qed.

Lemma window_queue_reset probe : window_queue (tr_append_window_reset probe) = [].
Proof. done. Qed.

Lemma window_at_set w i j item :
  window_wf w -> 0 <= i < 64 -> 0 <= j < 64 ->
  tr_append_window_at_const (tr_append_window_at_set w i item) j =
  if i =? j then item else tr_append_window_at_const w j.
Proof.
  intros Hwf Hi Hj. unfold tr_append_window_at_const, tr_append_window_at_set.
  cbn [w_items]. change (window_slot (Window _ _ _ _) j) with (window_slot w j).
  pose proof (window_slot_range w i) as Hr. pose proof (ww_items _ Hwf).
  unfold TR_RAFT_MAX_INFLIGHT_APPEND_REQUESTS in Hr.
  destruct (Z.eqb_spec i j) as [->|Hne].
  - apply array_get_set_eq. lia.
  - apply array_get_set_ne. intros Hs. by apply window_slot_inj in Hs.
Qed.

Lemma window_push_spec w previous last :
  window_wf w ->
  let '(pushed, w') := tr_append_window_push w previous last in
  pushed = (w_count w <? TR_RAFT_MAX_INFLIGHT_APPEND_REQUESTS) /\
  window_wf w' /\ w_probe w' = w_probe w /\
  window_queue w' = window_queue w ++ if pushed then [Inflight previous last 0] else [].
Proof.
  intros Hwf. pose proof Hwf as [Hl Hh Hc]. unfold tr_append_window_push.
  unfold TR_RAFT_MAX_INFLIGHT_APPEND_REQUESTS in *.
  destruct (Z.leb_spec 64 (w_count w)) as [Hge|Hlt].
  { rewrite app_nil_r. split; [symmetry; blia|]. done. }
  split; [symmetry; blia|]. split; [|split; [done|]].
  { constructor; cbn; unfold TR_RAFT_MAX_INFLIGHT_APPEND_REQUESTS;
      rewrite ?length_array_set; lia. }
  set (item := Inflight previous last 0).
  set (w' := tr_append_window_at_set w (w_count w) item).
  unfold window_queue. cbn [w_count]. change (w_count w') with (w_count w).
  replace (Z.to_nat (w_count w + 1)) with (Z.to_nat (w_count w) + 1)%nat by lia.
  rewrite seq_app, fmap_app. f_equal.
  - apply list_fmap_ext. intros k x Hx. apply lookup_seq in Hx as [-> Hx]. cbn.
    change (tr_append_window_at_const (Window _ _ _ _)) with (tr_append_window_at_const w').
    unfold w'. rewrite window_at_set by (done || lia).
    by replace (_ =? _) with false by blia.
  - cbn. f_equal.
    change (tr_append_window_at_const (Window _ _ _ _)) with (tr_append_window_at_const w').
    unfold w'. rewrite window_at_set by (done || lia).
    by replace (_ =? _) with true by blia.
Qed.

Lemma window_find_from_spec n index w previous :
  let r := window_find_from n index w previous in
  (exists k, (k < n)%nat /\ r = index + Z.of_nat k /\
     inf_previous_index (tr_append_window_at_const w r) = previous /\
     forall j, (j < k)%nat ->
       inf_previous_index (tr_append_window_at_const w (index + Z.of_nat j)) <> previous) \/
  (r = -1 /\ forall j, (j < n)%nat ->
     inf_previous_index (tr_append_window_at_const w (index + Z.of_nat j)) <> previous).
Proof.
  revert index. induction n as [|n IH]; intros index; cbn [window_find_from].
  { right. split; [done|]. intros j Hj. lia. }
  destruct (Z.eqb_spec (inf_previous_index (tr_append_window_at_const w index)) previous)
    as [Heq|Hne].
  { left. exists 0%nat. rewrite Z.add_0_r. repeat split; try lia; try done. }
  assert (forall m, (forall j, (j < m)%nat ->
      inf_previous_index (tr_append_window_at_const w (index + 1 + Z.of_nat j)) <> previous) ->
    forall j, (j < S m)%nat ->
      inf_previous_index (tr_append_window_at_const w (index + Z.of_nat j)) <> previous)
    as Hext.
  { intros m Hm [|j] Hj; [by rewrite Z.add_0_r|].
    replace (index + Z.of_nat (S j)) with (index + 1 + Z.of_nat j) by lia. apply Hm. lia. }
  destruct (IH (index + 1)) as [(k & Hk & Hr & Hp & Hbefore)|[Hr Hall]].
  - left. exists (S k). repeat split; [lia|lia|done|]. by apply Hext.
  - right. split; [done|]. by apply Hext.
Qed.

Lemma window_find_spec w previous :
  window_wf w ->
  let r := tr_append_window_find w previous in
  (exists k item, r = Z.of_nat k /\ window_queue w !! k = Some item /\
     inf_previous_index item = previous /\ tr_append_window_at_const w r = item) \/
  (r = -1 /\ Forall (fun item => inf_previous_index item <> previous) (window_queue w)).
Proof.
  intros Hwf. unfold tr_append_window_find.
  destruct (window_find_from_spec (Z.to_nat (w_count w)) 0 w previous)
    as [(k & Hk & -> & Hp & _)|[-> Hall]].
  - left. exists k, (tr_append_window_at_const w (Z.of_nat k)).
    rewrite Z.add_0_l in *. by rewrite window_queue_lookup.
  - right. split; [done|]. apply Forall_lookup. intros k item Hk.
    apply lookup_lt_Some in Hk as Hlt. rewrite length_window_queue in Hlt.
    rewrite window_queue_lookup in Hk by done. injection Hk as <-.
    by apply (Hall k).
Qed.

(** Releasing a confirmed prefix of a queue. *)
Fixpoint release_queue (q : list tr_raft_append_inflight) (match_index : Z)
    : list tr_raft_append_inflight :=
  match q with
  | item :: rest =>
      if match_index <? inf_last_index item then q else release_queue rest match_index
  | [] => []
  end.

(** The window after its front is dropped. *)
Definition window_pop (w : tr_raft_append_window) : tr_raft_append_window :=
  Window (array_set (w_items w) (w_head w) zero_inflight)
    ((w_head w + 1) mod TR_RAFT_MAX_INFLIGHT_APPEND_REQUESTS)
    (w_count w - 1) (w_probe w).

Lemma window_pop_spec w :
  window_wf w -> 0 < w_count w ->
  window_wf (window_pop w) /\
  window_queue w = tr_append_window_at_const w 0 :: window_queue (window_pop w).
Proof.
  intros Hwf Hpos. destruct Hwf as [Hl Hh Hc].
  unfold TR_RAFT_MAX_INFLIGHT_APPEND_REQUESTS in *. split.
  { constructor; cbn; unfold TR_RAFT_MAX_INFLIGHT_APPEND_REQUESTS.
    - by rewrite length_array_set.
    - apply Z.mod_pos_bound. lia.
    - lia. }
  unfold window_queue. cbn [window_pop w_count].
  replace (Z.to_nat (w_count w)) with (S (Z.to_nat (w_count w - 1))) by lia.
  cbn [seq fmap list_fmap]. f_equal. rewrite <- fmap_S_seq, <- list_fmap_compose.
  apply list_fmap_ext. intros k x Hx. apply lookup_seq in Hx as [-> Hx]. cbn.
  unfold tr_append_window_at_const, window_pop. cbn [w_items].
  assert (window_slot (Window (array_set (w_items w) (w_head w) zero_inflight)
    ((w_head w + 1) mod 64) (w_count w - 1) (w_probe w)) (Z.of_nat k)
    = window_slot w (Z.of_nat (S k))) as Hs.
  { unfold window_slot. cbn [w_head]. unfold TR_RAFT_MAX_INFLIGHT_APPEND_REQUESTS.
    rewrite Zplus_mod_idemp_l. f_equal. lia. }
  unfold TR_RAFT_MAX_INFLIGHT_APPEND_REQUESTS. rewrite Hs.
  rewrite array_get_set_ne; [done|].
  replace (w_head w) with (window_slot w 0).
  - intros H0. apply window_slot_inj in H0; lia.
  - unfold window_slot, TR_RAFT_MAX_INFLIGHT_APPEND_REQUESTS.
    rewrite Z.add_0_r. apply Z.mod_small. lia.
Qed.

Lemma window_release_loop_spec n w m :
  window_wf w -> (Z.to_nat (w_count w) <= n)%nat ->
  let w' := window_release_loop n w m in
  window_wf w' /\ w_probe w' = w_probe w /\
  window_queue w' = release_queue (window_queue w) m.
Proof.
  revert w. induction n as [|n IH]; intros w Hwf Hn; cbn [window_release_loop].
  { split; [done|]. split; [done|]. unfold window_queue.
    by replace (Z.to_nat (w_count w)) with 0%nat by lia. }
  pose proof (ww_count _ Hwf). destruct (Z.eqb_spec (w_count w) 0) as [H0|Hpos].
  { split; [done|]. split; [done|]. unfold window_queue. by rewrite H0. }
  fold (window_pop w). destruct (window_pop_spec w Hwf) as [Hwf' Hq]; [lia|].
  rewrite Hq. cbn [release_queue].
  destruct (m <? inf_last_index (tr_append_window_at_const w 0)).
  - by rewrite Hq.
  - apply (IH (window_pop w) Hwf'). cbn. lia.
Qed.

Lemma window_release_spec w m :
  window_wf w ->
  let w' := tr_append_window_release_through w m in
  window_wf w' /\ w_probe w' = w_probe w /\
  window_queue w' = release_queue (window_queue w) m.
Proof.
  intros Hwf. unfold tr_append_window_release_through.
  destruct (window_release_loop_spec (Z.to_nat (w_count w)) w m Hwf) as (Hwf' & Hp & Hq);
    [lia|].
  set (w' := window_release_loop _ _ _) in *.
  destruct (Z.eqb_spec (w_count w') 0) as [H0|]; [|done].
  rewrite <- Hq. repeat split; try done; cbn; try apply Hwf'.
  unfold window_queue. cbn [w_count]. by rewrite H0.
Qed.

Lemma release_queue_suffix q m :
  exists released, q = released ++ release_queue q m /\
    Forall (fun item => inf_last_index item <= m) released.
Proof.
  induction q as [|item q (rel & Hq & Hr)]; [by exists []|]. cbn.
  destruct (Z.ltb_spec m (inf_last_index item)); [by exists []|].
  exists (item :: rel). cbn. rewrite <- Hq. by repeat constructor.
Qed.

(** ** Refinement *)

(** The operations of a window on the queue it stands for. *)
Inductive window_op :=
| OpPush (previous_index last_index : Z)
| OpRelease (match_index : Z)
| OpReset (probe : bool).

Definition run_window (w : tr_raft_append_window) (op : window_op)
    : tr_raft_append_window :=
  match op with
  | OpPush previous last => snd (tr_append_window_push w previous last)
  | OpRelease m => tr_append_window_release_through w m
  | OpReset probe => tr_append_window_reset probe
  end.

Definition run_queue (q : list tr_raft_append_inflight) (op : window_op)
    : list tr_raft_append_inflight :=
  match op with
  | OpPush previous last =>
      if Z.of_nat (length q) <? TR_RAFT_MAX_INFLIGHT_APPEND_REQUESTS
      then q ++ [Inflight previous last 0] else q
  | OpRelease m => release_queue q m
  | OpReset _ => []
  end.

Lemma run_window_refines w op :
  window_wf w ->
  window_wf (run_window w op) /\
  window_queue (run_window w op) = run_queue (window_queue w) op.
Proof.
  intros Hwf. destruct op as [previous last|m|probe]; cbn [run_window run_queue].
  - pose proof (window_push_spec w previous last Hwf) as Hp.
    destruct (tr_append_window_push w previous last) as [b w'].
    destruct Hp as (-> & Hwf' & _ & Hq). split; [done|]. cbn [snd]. rewrite Hq.
    rewrite length_window_queue. pose proof (ww_count _ Hwf).
    rewrite Z2Nat.id by lia. case_match; [done|]. by rewrite app_nil_r.
  - by destruct (window_release_spec w m Hwf) as (? & _ & ?).
  - split; [apply window_wf_reset|done].
Qed.

Lemma window_find_first w previous k :
  Z.of_nat k < w_count w ->
  inf_previous_index (tr_append_window_at_const w (Z.of_nat k)) = previous ->
  (forall j, (j < k)%nat ->
     inf_previous_index (tr_append_window_at_const w (Z.of_nat j)) <> previous) ->
  tr_append_window_find w previous = Z.of_nat k.
Proof.
  intros Hk Hp Hbefore. unfold tr_append_window_find.
  destruct (window_find_from_spec (Z.to_nat (w_count w)) 0 w previous)
    as [(k' & Hk' & Hr & Hp' & Hb')|[_ Hall]].
  - rewrite Hr in Hp' |- *. rewrite Z.add_0_l in *.
    destruct (decide (k = k')) as [->|]; [done|]. exfalso.
    destruct (decide (k < k')%nat); [by apply (Hb' k)|].
    apply (Hbefore k'); [lia|done].
  - exfalso. apply (Hall k); [lia|done].
Qed.

(** The ring buffer of a peer is a FIFO queue of at most 64 requests: after
    any sequence of pushes, releases and resets it holds what a plain queue
    would, it is never overfull, and a lookup by previous index finds the
    first match of the queue or reports that there is none. *)
Theorem window_refines_queue (probe : bool) (ops : list window_op) (previous : Z) :
  let w := fold_left run_window ops (tr_append_window_reset probe) in
  let q := fold_left run_queue ops [] in
  window_wf w /\ window_queue w = q /\ w_count w = Z.of_nat (length q) /\
  Z.of_nat (length q) <= TR_RAFT_MAX_INFLIGHT_APPEND_REQUESTS /\
  match list_find (fun item => inf_previous_index item = previous) q with
  | Some (k, item) =>
      tr_append_window_find w previous = Z.of_nat k /\
      tr_append_window_at_const w (Z.of_nat k) = item
  | None => tr_append_window_find w previous = -1
  end.
Proof.
  intros w q.
  assert (window_wf w /\ window_queue w = q) as [Hwf Hq].
  { unfold w, q. induction ops as [|op ops [IHw IHq]] using rev_ind.
    { split; [apply window_wf_reset|done]. }
    rewrite !fold_left_app. cbn [fold_left]. rewrite <- IHq.
    apply run_window_refines, IHw. }
  pose proof (length_window_queue w) as Hlen. pose proof (ww_count _ Hwf).
  rewrite Hq in Hlen. split; [done|]. split; [done|]. split; [lia|]. split; [lia|].
  rewrite <- Hq. destruct (list_find _ _) as [[k item]|] eqn:Hf.
  - apply list_find_Some in Hf as (Hk & Hp & Hbefore).
    apply lookup_lt_Some in Hk as Hlt. rewrite length_window_queue in Hlt.
    rewrite window_queue_lookup in Hk by done. injection Hk as Hk.
    split; [|done]. apply window_find_first; [lia|congruence|].
    intros j Hj. apply (Hbefore j (tr_append_window_at_const w (Z.of_nat j))); [|done].
    apply window_queue_lookup. lia.
  - apply list_find_None in Hf.
    destruct (window_find_spec w previous Hwf) as [(k & item & _ & Hk & Hp & _)|[-> _]];
      [|done].
    rewrite list.Forall_forall in Hf. exfalso. apply (Hf item); [|done].
    by eapply list_elem_of_lookup_2.
Qed.
