(* ===== verification/Ring.v ===== *)
(** * Rings

    A ring is an array of which [size] slots are used, with the slot of the
    oldest item and the number of items; the slots wrap around. [ring_items]
    is the queue it stands for. *)

From S2P Require Import Prelude.
From Stdlib Require Import ZArith Lia.
From stdpp Require Import base numbers list tactics.
Open Scope Z_scope.
Open Scope raft_scope.

Section Ring.
Context {A : Type} (zero : A).
Implicit Types (slots : list A) (size head count : Z).

Definition ring_slot size head (i : Z) : Z := (head + i) mod size.

Definition ring_items slots size head count : list A :=
  (fun k => array_get zero slots (ring_slot size head (Z.of_nat k))) <$> seq 0 (Z.to_nat count).

Record ring_ok slots size head count : Prop := {
  rg_slots : size <= Z.of_nat (length slots);
  rg_head : 0 <= head < size;
  rg_count : 0 <= count <= size
}.

Lemma length_ring_items slots size head count :
  length (ring_items slots size head count) = Z.to_nat count.
Proof. unfold ring_items. by rewrite length_fmap, length_seq. Qed.

Lemma ring_items_nil slots size head : ring_items slots size head 0 = [].
Proof. done. Qed.

Lemma ring_slot_range size head i : 0 < size -> 0 <= ring_slot size head i < size.
Proof. intros Hs. by apply Z.mod_pos_bound. Qed.

(** Two items of a ring never share a slot. *)
Lemma ring_slot_inj size head i j :
  0 <= i < size -> 0 <= j < size -> ring_slot size head i = ring_slot size head j -> i = j.
Proof.
  unfold ring_slot. intros Hi Hj He.
  pose proof (Z.div_mod (head + i) size). pose proof (Z.div_mod (head + j) size).
  assert (i - j = size * ((head + i) / size - (head + j) / size)) as Hd by lia.
  assert ((head + i) / size - (head + j) / size = 0) by nia. nia.
Qed.

Lemma ring_first size head : 0 <= head < size -> ring_slot size head 0 = head.
Proof. intros Hh. unfold ring_slot. rewrite Z.add_0_r. by apply Z.mod_small. Qed.

Lemma ring_slot_next size head i :
  0 < size -> ring_slot size ((head + 1) mod size) i = ring_slot size head (i + 1).
Proof.
  intros Hs. unfold ring_slot. rewrite Zplus_mod_idemp_l. f_equal. lia.
Qed.

(** Writing the slot after the newest item appends an item. *)
Lemma ring_items_push slots size head count x :
  ring_ok slots size head count -> count < size ->
  ring_items (array_set slots (ring_slot size head count) x) size head (count + 1) =
    ring_items slots size head count ++ [x] /\
  ring_ok (array_set slots (ring_slot size head count) x) size head (count + 1).
Proof.
  intros [Hs Hh Hc] Hlt.
  pose proof (ring_slot_range size head count ltac:(lia)) as Hr.
  split; [|split; [rewrite length_array_set|..]; lia].
  unfold ring_items. replace (Z.to_nat (count + 1)) with (S (Z.to_nat count)) by lia.
  rewrite seq_S, fmap_app. f_equal.
  - apply list_fmap_ext. intros i k Hk%lookup_seq. cbn in Hk. rewrite array_get_set_ne; [done|].
    intros He%ring_slot_inj; lia.
  - cbn. rewrite Z2Nat.id by lia. f_equal. apply array_get_set_eq. lia.
Qed.

(** Moving the head forward removes the oldest item. *)
Lemma ring_items_pop slots size head count :
  ring_ok slots size head count -> 0 < count ->
  ring_items slots size head count =
    array_get zero slots head :: ring_items slots size ((head + 1) mod size) (count - 1) /\
  ring_ok slots size ((head + 1) mod size) (count - 1).
Proof.
  intros [Hs Hh Hc] Hpos. split; [|split; [done|apply Z.mod_pos_bound; lia|lia]].
  unfold ring_items. replace (Z.to_nat count) with (S (Z.to_nat (count - 1))) by lia.
  cbn [seq fmap list_fmap]. f_equal; [by rewrite ring_first|].
  rewrite <- fmap_S_seq, <- list_fmap_compose. apply list_fmap_ext. intros i k _. cbn.
  rewrite ring_slot_next by lia. f_equal. f_equal. lia.
Qed.

(** Clearing the slot of an item that has been removed. *)
Lemma ring_items_clear slots size head count x :
  ring_ok slots size ((head + 1) mod size) count -> 0 <= head < size -> count < size ->
  ring_items (array_set slots head x) size ((head + 1) mod size) count =
    ring_items slots size ((head + 1) mod size) count.
Proof.
  intros [Hs Hh Hc] Hr Hlt. unfold ring_items. apply list_fmap_ext. intros i k Hk%lookup_seq.
  cbn in Hk. apply array_get_set_ne. rewrite ring_slot_next by lia.
  rewrite <- (ring_first size head) at 1 by done. intros He%ring_slot_inj; lia.
Qed.
End Ring.
