(* ===== verification/Vec.v ===== *)
(** * The vector the log is stored in

    [cstl/vec.h] belongs to the Salts library and is not part of the sources.
    [VecOps] are the operations the log calls, [VecLaws] what the log relies
    on: a vector holds a sequence of entries, a call that fails leaves them
    alone, and calls within the reserved capacity do not fail. Nothing is said
    of writes out of range. [list_vec] is an instance. Also here: the status
    mapping of [src/turboraft_stl_status.h]. *)

From S2P Require Import Prelude Configuration.
From Stdlib Require Import ZArith Lia.
From stdpp Require Import base numbers list tactics.
Open Scope Z_scope.
Open Scope raft_scope.

(** [stl_status]; [STL_OTHER] stands for the values the switch does not name. *)
Inductive stl_status :=
| STL_OK
| STL_OUT_OF_MEMORY
| STL_CAPACITY_EXCEEDED
| STL_EMPTY
| STL_NOT_FOUND
| STL_INVALID_ARGUMENT
| STL_TYPE_MISMATCH
| STL_TRAIT_MISSING
| STL_OTHER.

#[export] Instance stl_status_eq_dec : EqDecision stl_status.
Proof. solve_decision. Defined.

Definition tr_raft_stl_status_to_error (s : stl_status) : status :=
  match s with
  | STL_OK => SALTS_OK
  | STL_OUT_OF_MEMORY => SALTS_ENOMEM
  | STL_CAPACITY_EXCEEDED => SALTS_ENOSPC
  | STL_EMPTY | STL_NOT_FOUND => SALTS_ENOENT
  | STL_INVALID_ARGUMENT | STL_TYPE_MISMATCH | STL_TRAIT_MISSING
  | STL_OTHER => SALTS_EINVAL
  end.

(** [vec_write v i e] is [*vec_at(&v, i) = e]; [vec_zero] is a vector after
    [memset]. *)
Class VecOps (V : Type) := {
  vec_zero : V;
  vec_init_bytes : Z -> stl_status * V;
  vec_reserve : V -> Z -> stl_status * V;
  vec_destroy : V -> V;
  vec_size : V -> Z;
  vec_at_const : V -> Z -> option tr_raft_entry;
  vec_write : V -> Z -> tr_raft_entry -> V;
  vec_push : V -> tr_raft_entry -> stl_status * V;
  vec_resize : V -> Z -> stl_status * V
}.

(** [vec_elems] and [vec_capacity] are the contents and the reserved capacity
    of the specification. *)
Class VecLaws (V : Type) `{VecOps V} := {
  vec_elems : V -> list tr_raft_entry;
  vec_capacity : V -> Z;
  vec_size_elems v : vec_size v = Z.of_nat (length (vec_elems v));
  vec_at_const_elems v i :
    vec_at_const v i = if i <? 0 then None else vec_elems v !! Z.to_nat i;
  vec_init_elems n v : vec_init_bytes n = (STL_OK, v) -> vec_elems v = [];
  vec_reserve_elems v n r v' :
    vec_reserve v n = (r, v') -> vec_elems v' = vec_elems v;
  vec_reserve_capacity v n v' :
    vec_reserve v n = (STL_OK, v') -> n <= vec_capacity v';
  vec_write_elems v i e :
    0 <= i < vec_size v ->
    vec_elems (vec_write v i e) = <[Z.to_nat i := e]> (vec_elems v);
  vec_write_capacity v i e :
    0 <= i < vec_size v -> vec_capacity (vec_write v i e) = vec_capacity v;
  vec_push_elems v e r v' :
    vec_push v e = (r, v') ->
    vec_elems v' = (if decide (r = STL_OK) then vec_elems v ++ [e] else vec_elems v);
  vec_push_capacity v e r v' :
    vec_push v e = (r, v') -> vec_capacity v <= vec_capacity v';
  vec_push_ok v e : vec_size v < vec_capacity v -> fst (vec_push v e) = STL_OK;
  vec_resize_elems v n r v' :
    0 <= n -> vec_resize v n = (r, v') ->
    if decide (r = STL_OK)
    then length (vec_elems v') = Z.to_nat n /\
         take (length (vec_elems v)) (vec_elems v') =
         take (Z.to_nat n) (vec_elems v)
    else vec_elems v' = vec_elems v;
  vec_resize_capacity v n r v' :
    vec_resize v n = (r, v') -> vec_capacity v <= vec_capacity v';
  vec_resize_ok v n :
    0 <= n <= vec_capacity v -> fst (vec_resize v n) = STL_OK
}.

(** ** A list-based vector *)

Record list_vec := ListVec {
  lv_elems : list tr_raft_entry;
  lv_capacity : Z
}.

#[export] Instance list_vec_ops : VecOps list_vec := {|
  vec_zero := ListVec [] 0;
  vec_init_bytes _ := (STL_OK, ListVec [] 0);
  vec_reserve v n := (STL_OK, ListVec (lv_elems v) (Z.max n (lv_capacity v)));
  vec_destroy _ := ListVec [] 0;
  vec_size v := Z.of_nat (length (lv_elems v));
  vec_at_const v i := if i <? 0 then None else lv_elems v !! Z.to_nat i;
  vec_write v i e := ListVec (<[Z.to_nat i := e]> (lv_elems v)) (lv_capacity v);
  vec_push v e := (STL_OK, ListVec (lv_elems v ++ [e]) (lv_capacity v));
  vec_resize v n :=
    (STL_OK, ListVec (resize (Z.to_nat n) zero_entry (lv_elems v)) (lv_capacity v))
|}.

#[export] Instance list_vec_laws : VecLaws list_vec.
Proof.
  refine {| vec_elems := lv_elems; vec_capacity := lv_capacity |}; cbn; intros;
    simplify_eq; cbn; try done; try lia.
  split; [apply length_resize|].
  destruct (decide (length (lv_elems v) <= Z.to_nat n)%nat).
  - rewrite resize_ge by done. rewrite take_app_length. by rewrite take_ge by lia.
  - rewrite resize_le by lia. by rewrite take_take, Nat.min_r by lia.
Defined.
