(* ===== verification/Log.v ===== *)
(** * The replicated log: [src/core/raft_log.c]

    A bounded vector of entries above a base, the last entry covered by the
    snapshot. [log_wf] is its invariant; [log_term] and [log_at] are what a
    log says of an index. *)

From S2P Require Import Prelude Configuration Vec.
From Stdlib Require Import ZArith Lia.
From stdpp Require Import base numbers list tactics.
Open Scope Z_scope.
Open Scope raft_scope.

Definition TR_RAFT_LOG_MAX_ENTRY_BYTES : Z := TR_RAFT_MAX_ENTRY_BYTES.
Definition TR_RAFT_MAX_PROPOSAL_BATCH : Z := 16.

Record tr_raft_log (V : Type) := Log {
  log_entries : V;
  log_max_entries : Z;
  log_base_index : Z;
  log_base_term : Z
}.
Arguments Log {V} _ _ _ _ : assert.
Arguments log_entries {V} _ : assert.
Arguments log_max_entries {V} _ : assert.
Arguments log_base_index {V} _ : assert.
Arguments log_base_term {V} _ : assert.

(** The result of [tr_raft_log_reconcile]. *)
Record tr_raft_log_reconcile_result := Reconcile {
  rc_matched : bool;
  rc_changed : bool;
  rc_reject_hint : Z;
  rc_truncate_from : Z;
  rc_append_from : Z;
  rc_append_count : Z
}.

Definition zero_reconcile : tr_raft_log_reconcile_result :=
  Reconcile false false 0 0 0 0.

(** [data] is [None] when the pointer is null. *)
Record tr_raft_proposal := Proposal {
  prop_command_id : Z;
  prop_data : option (list Z);
  prop_data_length : Z
}.

Definition tr_raft_log_base_valid (index term : Z) : bool :=
  ((index =? 0) && (term =? 0)) || (negb (index =? 0) && negb (term =? 0)).

Definition tr_raft_log_entry_equal (left right : tr_raft_entry) : bool :=
  (entry_index left =? entry_index right) &&
  (entry_term left =? entry_term right) &&
  (entry_command_id left =? entry_command_id right) &&
  (entry_data_length left =? entry_data_length right) &&
  bool_decide (take (Z.to_nat (entry_data_length left)) (entry_data left) =
               take (Z.to_nat (entry_data_length left)) (entry_data right)).

Section Log.
Context {V : Type} `{VecOps V}.
Implicit Types log : tr_raft_log V.

Definition log_zero : tr_raft_log V := Log vec_zero 0 0 0.

(** ** Reading *)

Definition tr_raft_log_count log : Z := vec_size (log_entries log).

Definition tr_raft_log_last_index log : Z :=
  log_base_index log +64 tr_raft_log_count log.

Definition tr_raft_log_last_term log : Z :=
  if tr_raft_log_count log =? 0 then log_base_term log
  else match vec_at_const (log_entries log) (tr_raft_log_count log - 1) with
       | Some e => entry_term e
       | None => 0
       end.

Definition tr_raft_log_get log (index : Z) : option tr_raft_entry :=
  if (index <=? log_base_index log) || (tr_raft_log_last_index log <? index)
  then None
  else vec_at_const (log_entries log) (index -64 log_base_index log -64 1).

Definition tr_raft_log_matches log (index term : Z) : bool :=
  if index =? log_base_index log then term =? log_base_term log
  else match tr_raft_log_get log index with
       | Some e => entry_term e =? term
       | None => false
       end.

(** The term of the entry a pointer of [tr_raft_log_get] refers to. *)
Definition term_at (e : option tr_raft_entry) : Z :=
  match e with Some e => entry_term e | None => 0 end.

(** Each iteration lowers [previous_index], so [previous_index - base_index]
    iterations are enough ([reject_hint_spec]). *)
Fixpoint reject_hint_loop (fuel : nat) log (conflict_term previous_index : Z) : Z :=
  match fuel with
  | O => previous_index
  | S fuel' =>
      if log_base_index log +64 1 <? previous_index then
        if negb (term_at (tr_raft_log_get log (previous_index -64 1)) =? conflict_term)
        then previous_index
        else reject_hint_loop fuel' log conflict_term (previous_index -64 1)
      else previous_index
  end.

Definition tr_raft_log_reject_hint log (previous_index : Z) : Z :=
  let last_index := tr_raft_log_last_index log in
  if last_index <? previous_index then last_index +64 1
  else if previous_index <=? log_base_index log then log_base_index log +64 1
  else
    let conflict_term := term_at (tr_raft_log_get log previous_index) in
    reject_hint_loop (Z.to_nat (previous_index - log_base_index log)) log
      conflict_term previous_index.

(** ** Creation *)

Definition tr_raft_log_init (max_entries base_index base_term : Z)
    : status * tr_raft_log V :=
  if (max_entries =? 0) || negb (tr_raft_log_base_valid base_index base_term) ||
     (UINT64_MAX - base_index <? max_entries)
  then (SALTS_EINVAL, log_zero)
  else
    let '(result, entries) := vec_init_bytes max_entries in
    match tr_raft_stl_status_to_error result with
    | SALTS_OK =>
        let '(result, entries) := vec_reserve entries max_entries in
        match tr_raft_stl_status_to_error result with
        | SALTS_OK => (SALTS_OK, Log entries max_entries base_index base_term)
        | result => (result, log_zero)
        end
    | result => (result, Log entries 0 0 0)
    end.

Definition tr_raft_log_destroy log : tr_raft_log V := log_zero.

(** ** Compaction *)

(** [memmove(entries, entries + removed, retained * sizeof entry)] towards
    lower addresses, from slot [k] on. *)
Fixpoint move_down (retained : nat) (k removed : Z) (v : V) : V :=
  match retained with
  | O => v
  | S retained' =>
      move_down retained' (k + 1) removed
        match vec_at_const v (k + removed) with
        | Some e => vec_write v k e
        | None => v
        end
  end.

Definition tr_raft_log_compact log (index term : Z) : status * tr_raft_log V :=
  if (index <=? log_base_index log) || (term =? 0) ||
     (tr_raft_log_last_index log <? index)
  then (SALTS_EINVAL, log)
  else if negb (tr_raft_log_matches log index term) then (SALTS_EPROTO, log)
  else
    let removed_count := index -64 log_base_index log in
    let retained_count := tr_raft_log_count log -64 removed_count in
    let entries := move_down (Z.to_nat retained_count) 0 removed_count
                     (log_entries log) in
    let '(result, entries) := vec_resize entries retained_count in
    match tr_raft_stl_status_to_error result with
    | SALTS_OK => (SALTS_OK, Log entries (log_max_entries log) index term)
    | result =>
        (result, Log entries (log_max_entries log) (log_base_index log)
                   (log_base_term log))
    end.

(** ** Appending

    The last component is [*out_entry], or the first slot of [*out_entries]. *)

Definition log_with_entries log (entries : V) : tr_raft_log V :=
  Log entries (log_max_entries log) (log_base_index log) (log_base_term log).

Definition tr_raft_log_append_local log (term command_id : Z)
    (data : option (list Z)) (data_length : Z)
    : status * tr_raft_log V * option tr_raft_entry :=
  if (term =? 0) || (command_id =? 0) ||
     (negb (data_length =? 0) && is_null data)
  then (SALTS_EINVAL, log, None)
  else if (TR_RAFT_LOG_MAX_ENTRY_BYTES <? data_length) ||
          (log_max_entries log <=? tr_raft_log_count log)
  then (SALTS_ENOSPC, log, None)
  else
    let e := Entry (tr_raft_log_last_index log +64 1) term command_id data_length
               (array_elems data data_length) in
    let '(result, entries) := vec_push (log_entries log) e in
    match tr_raft_stl_status_to_error result with
    | SALTS_OK =>
        let log := log_with_entries log entries in
        (SALTS_OK, log, tr_raft_log_get log (entry_index e))
    | result => (result, log_with_entries log entries, None)
    end.

Definition proposal_valid (p : tr_raft_proposal) : bool :=
  negb ((prop_command_id p =? 0) ||
        (TR_RAFT_LOG_MAX_ENTRY_BYTES <? prop_data_length p) ||
        (negb (prop_data_length p =? 0) && is_null (prop_data p))).

Definition proposal_entry (index term : Z) (p : tr_raft_proposal) : tr_raft_entry :=
  Entry index term (prop_command_id p) (prop_data_length p)
    (array_elems (prop_data p) (prop_data_length p)).

Fixpoint write_proposals (slot index term : Z) (proposals : list tr_raft_proposal)
    (v : V) : V :=
  match proposals with
  | [] => v
  | p :: rest =>
      write_proposals (slot + 1) (index +64 1) term rest
        (vec_write v slot (proposal_entry index term p))
  end.

Definition tr_raft_log_append_local_batch log (term : Z)
    (proposals : list tr_raft_proposal) : status * tr_raft_log V * option Z :=
  let proposal_count := Z.of_nat (length proposals) in
  if (term =? 0) || (proposal_count =? 0) ||
     (TR_RAFT_MAX_PROPOSAL_BATCH <? proposal_count)
  then (SALTS_EINVAL, log, None)
  else
    let old_count := tr_raft_log_count log in
    if (log_max_entries log <? old_count) ||
       (log_max_entries log - old_count <? proposal_count)
    then (SALTS_ENOSPC, log, None)
    else if negb (forallb proposal_valid proposals) then (SALTS_EINVAL, log, None)
    else
      let first_index := tr_raft_log_last_index log +64 1 in
      let '(result, entries) :=
        vec_resize (log_entries log) (old_count +64 proposal_count) in
      match tr_raft_stl_status_to_error result with
      | SALTS_OK =>
          if is_null (vec_at_const entries old_count)
          then (SALTS_EPROTO,
                log_with_entries log (snd (vec_resize entries old_count)), None)
          else (SALTS_OK,
                log_with_entries log
                  (write_proposals old_count first_index term proposals entries),
                Some old_count)
      | result => (result, log_with_entries log entries, None)
      end.

Definition tr_raft_log_append_configuration log (term : Z)
    (configuration : tr_raft_conf)
    : status * tr_raft_log V * option tr_raft_entry :=
  if term =? 0 then (SALTS_EINVAL, log, None)
  else if log_max_entries log <=? tr_raft_log_count log
  then (SALTS_ENOSPC, log, None)
  else
    match tr_raft_conf_entry_encode configuration
            (tr_raft_log_last_index log +64 1) term with
    | (SALTS_OK, e) =>
        let '(result, entries) := vec_push (log_entries log) e in
        match tr_raft_stl_status_to_error result with
        | SALTS_OK =>
            let log := log_with_entries log entries in
            (SALTS_OK, log, tr_raft_log_get log (entry_index e))
        | result => (result, log_with_entries log entries, None)
        end
    | (result, _) => (result, log, None)
    end.

(** ** Reconciliation with a leader's entries *)

(** How the scan of the incoming entries ends: an error, no difference, or the
    first entry that differs from the log. *)
Inductive scan :=
| ScanError (result : status)
| ScanSame
| ScanChange (first_change : Z) (truncates_existing : bool).

Fixpoint reconcile_scan log (previous_index index : Z)
    (incoming : list tr_raft_entry) : scan :=
  match incoming with
  | [] => ScanSame
  | e :: rest =>
      let expected_index := previous_index +64 index +64 1 in
      if negb (entry_index e =? expected_index) || (entry_term e =? 0) ||
         (TR_RAFT_LOG_MAX_ENTRY_BYTES <? entry_data_length e)
      then ScanError SALTS_EINVAL
      else if (entry_command_id e =? 0) && failed (fst (tr_raft_conf_entry_decode e))
      then ScanError SALTS_EPROTO
      else
        match tr_raft_log_get log expected_index with
        | None => ScanChange index false
        | Some local =>
            if negb (entry_term local =? entry_term e) then ScanChange index true
            else if negb (tr_raft_log_entry_equal local e)
            then ScanError SALTS_EPROTO
            else reconcile_scan log previous_index (index + 1) rest
        end
  end.

Fixpoint write_entries (base_index : Z) (incoming : list tr_raft_entry) (v : V) : V :=
  match incoming with
  | [] => v
  | e :: rest =>
      write_entries base_index rest
        (vec_write v (entry_index e -64 base_index -64 1) e)
  end.

Definition tr_raft_log_reconcile log (previous_index previous_term : Z)
    (incoming : list tr_raft_entry) (protected_index : Z)
    : status * tr_raft_log V * tr_raft_log_reconcile_result :=
  let incoming_count := Z.of_nat (length incoming) in
  if UINT64_MAX - previous_index <? incoming_count
  then (SALTS_EINVAL, log, zero_reconcile)
  else if negb (tr_raft_log_matches log previous_index previous_term)
  then (SALTS_OK, log,
        Reconcile false false (tr_raft_log_reject_hint log previous_index) 0 0 0)
  else
    let matched := Reconcile true false 0 0 0 0 in
    match reconcile_scan log previous_index 0 incoming with
    | ScanError result => (result, log, matched)
    | ScanSame => (SALTS_OK, log, matched)
    | ScanChange first_change truncates_existing =>
        let retained_count :=
          (previous_index -64 log_base_index log) +64 first_change in
        let changed := drop (Z.to_nat first_change) incoming in
        let change_index := entry_index (nth 0 changed zero_entry) in
        if truncates_existing && (change_index <=? protected_index)
        then (SALTS_EPROTO, log, matched)
        else if (log_max_entries log <? retained_count) ||
                (log_max_entries log - retained_count <?
                 incoming_count - first_change)
        then (SALTS_ENOSPC, log, matched)
        else
          let final_count := retained_count +64 incoming_count -64 first_change in
          let '(result, entries) := vec_resize (log_entries log) final_count in
          match tr_raft_stl_status_to_error result with
          | SALTS_OK =>
              (SALTS_OK,
               log_with_entries log
                 (write_entries (log_base_index log) changed entries),
               Reconcile true true 0
                 (if truncates_existing then change_index else 0)
                 change_index (incoming_count - first_change))
          | result => (result, log_with_entries log entries, matched)
          end
    end.

End Log.

(** ** Specification *)

(** An entry a log may hold. *)
Record entry_ok (e : tr_raft_entry) : Prop := {
  eo_term : entry_term e <> 0;
  eo_length : entry_data_length e <= TR_RAFT_LOG_MAX_ENTRY_BYTES;
  eo_configuration :
    entry_command_id e = 0 -> fst (tr_raft_conf_entry_decode e) = SALTS_OK
}.

(** Entries that continue a log after [previous_index]. *)
Definition entries_follow (previous_index : Z) (es : list tr_raft_entry) : Prop :=
  forall k e, es !! k = Some e ->
    entry_index e = previous_index + Z.of_nat k + 1 /\ entry_ok e.

(** Entries that agree on everything the code reads of them. *)
Definition entry_eqv (e1 e2 : tr_raft_entry) : Prop :=
  tr_raft_log_entry_equal e1 e2 = true.

#[export] Instance entry_eqv_equiv : Equivalence entry_eqv.
Proof.
  unfold entry_eqv, tr_raft_log_entry_equal. split.
  - intros e. rewrite !Z.eqb_refl. by apply bool_decide_eq_true.
  - intros [] []. cbn. rewrite !andb_true_iff, !bool_decide_eq_true, !Z.eqb_eq.
    intros ((((-> & ->) & ->) & ->) & ->). done.
  - intros [] [] []. cbn. rewrite !andb_true_iff, !bool_decide_eq_true, !Z.eqb_eq.
    intros ((((-> & ->) & ->) & ->) & ->) ((((-> & ->) & ->) & ->) & ->). done.
Qed.

Section Spec.
Context {V : Type} `{VecLaws V}.
Implicit Types log : tr_raft_log V.

Definition elems log : list tr_raft_entry := vec_elems (log_entries log).

Record log_wf log : Prop := {
  lw_max : 0 < log_max_entries log;
  lw_base : 0 <= log_base_index log;
  lw_base_valid : log_base_index log = 0 <-> log_base_term log = 0;
  lw_width : log_base_index log + Z.of_nat (length (elems log)) <= UINT64_MAX;
  lw_count : Z.of_nat (length (elems log)) <= log_max_entries log;
  lw_capacity : log_max_entries log <= vec_capacity (log_entries log);
  lw_entries : entries_follow (log_base_index log) (elems log)
}.

(** The entry at an index above the base. *)
Definition log_at log (index : Z) : option tr_raft_entry :=
  if log_base_index log <? index
  then elems log !! Z.to_nat (index - log_base_index log - 1) else None.

(** The term at an index from the base on. *)
Definition log_term log (index : Z) : option Z :=
  if index =? log_base_index log then Some (log_base_term log)
  else entry_term <$> log_at log index.

Definition log_last log : Z := log_base_index log + Z.of_nat (length (elems log)).

(** ** Reading *)

Lemma log_at_lookup log k :
  log_at log (log_base_index log + Z.of_nat k + 1) = elems log !! k.
Proof.
  unfold log_at. replace (_ <? _) with true by blia. f_equal. lia.
Qed.

Lemma log_at_is_Some log i :
  is_Some (log_at log i) <-> log_base_index log < i <= log_last log.
Proof.
  unfold log_at, log_last. destruct (Z.ltb_spec (log_base_index log) i).
  - rewrite lookup_lt_is_Some. lia.
  - split; [by intros []|lia].
Qed.

Lemma log_at_Some_index log i e :
  log_wf log -> log_at log i = Some e -> entry_index e = i /\ entry_ok e.
Proof.
  intros Hwf Hat. assert (is_Some (log_at log i)) as Hi by eauto.
  apply log_at_is_Some in Hi. unfold log_at in Hat.
  replace (_ <? _) with true in Hat by blia.
  apply (lw_entries _ Hwf) in Hat as [-> ?]. split; [lia|done].
Qed.

Lemma log_count_spec log : tr_raft_log_count log = Z.of_nat (length (elems log)).
Proof. apply vec_size_elems. Qed.

Lemma log_last_index_spec log :
  log_wf log -> tr_raft_log_last_index log = log_last log.
Proof.
  intros [? ? _ ? ? _ _]. unfold tr_raft_log_last_index, log_last.
  rewrite log_count_spec. rewrite u64_small; [done|]. unfold UINT64_MAX in *. lia.
Qed.

Lemma log_last_bounds log :
  log_wf log -> 0 <= log_base_index log <= log_last log /\ log_last log <= UINT64_MAX.
Proof. intros [? ? _ ? ? _ _]. unfold log_last. lia. Qed.

Lemma log_get_spec log i : log_wf log -> tr_raft_log_get log i = log_at log i.
Proof.
  intros Hwf. unfold tr_raft_log_get. rewrite log_last_index_spec by done.
  pose proof (log_last_bounds log Hwf).
  destruct (Z.leb_spec i (log_base_index log)) as [Hle|Hlt]; cbn [orb].
  { unfold log_at. by replace (_ <? _) with false by blia. }
  destruct (Z.ltb_spec (log_last log) i) as [Hgt|Hle].
  { symmetry. apply eq_None_not_Some. rewrite log_at_is_Some. lia. }
  rewrite vec_at_const_elems. unfold log_at.
  word_simpl.
  replace (_ <? 0) with false by blia. by replace (_ <? i) with true by blia.
Qed.

Lemma log_matches_spec log i t :
  log_wf log -> tr_raft_log_matches log i t = true <-> log_term log i = Some t.
Proof.
  intros Hwf. unfold tr_raft_log_matches, log_term. rewrite log_get_spec by done.
  destruct (i =? log_base_index log).
  - rewrite Z.eqb_eq. naive_solver.
  - destruct (log_at log i); cbn; [rewrite Z.eqb_eq; naive_solver|done].
Qed.

Lemma log_last_term_spec log :
  log_wf log -> log_term log (log_last log) = Some (tr_raft_log_last_term log).
Proof.
  intros Hwf. unfold tr_raft_log_last_term, log_term. rewrite log_count_spec.
  unfold log_last, elems. set (es := vec_elems (log_entries log)).
  destruct (Z.eqb_spec (Z.of_nat (length es)) 0) as [->|Hne].
  { by rewrite Z.add_0_r, Z.eqb_refl. }
  replace (_ =? _) with false by blia.
  replace (log_base_index log + Z.of_nat (length es)) with
    (log_base_index log + Z.of_nat (length es - 1) + 1) by lia.
  rewrite log_at_lookup. unfold elems. fold es.
  rewrite vec_at_const_elems. fold es. replace (_ <? 0) with false by blia.
  replace (Z.to_nat (Z.of_nat (length es) - 1)) with (length es - 1)%nat by lia.
  destruct (lookup_lt_is_Some_2 es (length es - 1)) as [e ->]; [lia|done].
Qed.

(** ** Reject hints *)

(** Indices [lo .. hi] hold entries of one term. *)
Definition same_term log (lo hi t : Z) : Prop :=
  forall i, lo <= i <= hi -> log_term log i = Some t.

Lemma term_at_log_term log i :
  log_wf log -> log_base_index log < i <= log_last log ->
  log_term log i = Some (term_at (tr_raft_log_get log i)).
Proof.
  intros Hwf Hi. rewrite log_get_spec by done. unfold log_term.
  replace (_ =? _) with false by blia.
  apply log_at_is_Some in Hi as [e ->]. done.
Qed.

Lemma reject_hint_loop_spec fuel log t prev top :
  log_wf log -> log_base_index log < prev <= top -> top <= log_last log ->
  (Z.to_nat (prev - log_base_index log) <= S fuel)%nat ->
  same_term log prev top t ->
  let h := reject_hint_loop fuel log t prev in
  log_base_index log < h <= prev /\ same_term log h top t /\
  (h = log_base_index log + 1 \/ log_term log (h - 1) <> Some t).
Proof.
  intros Hwf. pose proof (log_last_bounds log Hwf) as Hb.
  revert prev. induction fuel as [|fuel IH]; intros prev Hp Ht Hf Hs; cbn.
  { split; [lia|]. split; [done|]. left. lia. }
  word_simpl.
  destruct (Z.ltb_spec (log_base_index log + 1) prev) as [Hlt|Hle].
  2: { split; [lia|]. split; [done|]. left. lia. }
  pose proof (term_at_log_term log (prev - 1) Hwf) as Hterm.
  destruct (Z.eqb_spec (term_at (tr_raft_log_get log (prev - 1))) t) as [Heq|Hne];
    cbn [negb].
  - destruct (IH (prev - 1)) as (? & ? & ?); [lia|lia|lia| |auto with lia].
    intros i Hi. destruct (decide (i = prev - 1)) as [->|]; [|apply Hs; lia].
    rewrite Hterm by lia. by rewrite Heq.
  - split; [lia|]. split; [done|]. right. rewrite Hterm by lia. congruence.
Qed.

(** ** Creation and appending *)

Lemma stl_status_ok r : tr_raft_stl_status_to_error r = SALTS_OK <-> r = STL_OK.
Proof. by destruct r. Qed.

Lemma entries_follow_nil prev : entries_follow prev [].
Proof. by intros k e. Qed.

Lemma entries_follow_app prev es1 es2 :
  entries_follow prev (es1 ++ es2) <->
  entries_follow prev es1 /\ entries_follow (prev + Z.of_nat (length es1)) es2.
Proof.
  unfold entries_follow. split.
  - intros Hf. split; intros k e Hk.
    + apply Hf. by apply lookup_app_l_Some.
    + destruct (Hf (length es1 + k)%nat e) as [-> ?].
      { rewrite lookup_app_r by lia. by replace (_ + k - _)%nat with k by lia. }
      split; [lia|done].
  - intros [H1 H2] k e [Hk|[Hle Hk]]%lookup_app_Some; [auto|].
    apply H2 in Hk as [-> ?]. split; [lia|done].
Qed.

Lemma entries_follow_singleton prev e :
  entry_index e = prev + 1 -> entry_ok e -> entries_follow prev [e].
Proof.
  intros He Hok k x Hk. apply list_lookup_singleton_Some in Hk as [-> <-].
  split; [lia|done].
Qed.

(** A log whose entries are replaced by ones that follow its base. *)
Lemma log_wf_with_entries log v :
  log_wf log -> Z.of_nat (length (vec_elems v)) <= log_max_entries log ->
  log_base_index log + Z.of_nat (length (vec_elems v)) <= UINT64_MAX ->
  log_max_entries log <= vec_capacity v ->
  entries_follow (log_base_index log) (vec_elems v) ->
  log_wf (log_with_entries log v).
Proof. intros [] ? ? ? ?. by constructor. Qed.

Lemma log_init_spec max base bt log :
  0 <= max -> 0 <= base -> tr_raft_log_init max base bt = (SALTS_OK, log) ->
  log_wf log /\ elems log = [] /\ log_max_entries log = max /\
  log_base_index log = base /\ log_base_term log = bt.
Proof.
  intros Hmax Hbase. unfold tr_raft_log_init. case_match eqn:Hg; [done|].
  destruct (vec_init_bytes max) as [r v] eqn:Hi.
  destruct (tr_raft_stl_status_to_error r) eqn:Hr; try done.
  apply stl_status_ok in Hr as ->. apply vec_init_elems in Hi.
  destruct (vec_reserve v max) as [r' v'] eqn:Hv.
  destruct (tr_raft_stl_status_to_error r') eqn:Hr'; try done.
  apply stl_status_ok in Hr' as ->. intros [= <-].
  apply vec_reserve_elems in Hv as He. apply vec_reserve_capacity in Hv.
  unfold tr_raft_log_base_valid in Hg.
  assert (elems (Log v' max base bt) = []) as Hnil.
  { unfold elems. cbn. congruence. }
  split; [|done]. constructor; rewrite ?Hnil; try apply entries_follow_nil;
    cbn; lia.
Qed.


(** One more entry always fits below [max_entries]. *)
Lemma log_push_spec log e r v :
  log_wf log -> Z.of_nat (length (elems log)) < log_max_entries log ->
  log_last log < UINT64_MAX ->
  entry_index e = log_last log + 1 -> entry_ok e ->
  vec_push (log_entries log) e = (r, v) ->
  r = STL_OK /\ elems (log_with_entries log v) = elems log ++ [e] /\
  log_wf (log_with_entries log v).
Proof.
  intros Hwf Hlt Hw Hi Hok Hpush.
  assert (r = STL_OK) as ->.
  { change r with (fst (r, v)). rewrite <- Hpush. apply vec_push_ok.
    rewrite vec_size_elems. pose proof (lw_capacity _ Hwf). unfold elems in Hlt. lia. }
  apply vec_push_elems in Hpush as He. apply vec_push_capacity in Hpush.
  rewrite decide_True in He by done. split; [done|]. split; [done|].
  apply log_wf_with_entries; try done; rewrite ?He.
  - rewrite length_app. cbn. unfold elems in Hlt. lia.
  - rewrite length_app. cbn. unfold log_last, elems in Hw. lia.
  - pose proof (lw_capacity _ Hwf). lia.
  - apply entries_follow_app. split; [apply Hwf|].
    by apply entries_follow_singleton.
Qed.

Lemma log_at_snoc log v e :
  elems (log_with_entries log v) = elems log ++ [e] ->
  log_at (log_with_entries log v) (log_last log + 1) = Some e.
Proof.
  intros He. unfold log_last. pose proof (log_at_lookup (log_with_entries log v)
    (length (elems log))) as Hl. cbn [log_with_entries log_base_index] in Hl.
  rewrite Hl, He. apply list_lookup_middle. done.
Qed.

(** Appending never changes what is already there. *)
Lemma log_at_app log v es i :
  elems (log_with_entries log v) = elems log ++ es -> i <= log_last log ->
  log_at (log_with_entries log v) i = log_at log i.
Proof.
  intros He Hi. unfold log_at, log_last in *. cbn [log_with_entries log_base_index].
  destruct (Z.ltb_spec (log_base_index log) i); [|done].
  rewrite He. apply lookup_app_l. lia.
Qed.

Lemma append_local_spec log t cmd data len :
  log_wf log -> log_last log < UINT64_MAX -> 0 <= len ->
  tr_raft_log_append_local log t cmd data len =
  if (t =? 0) || (cmd =? 0) || (negb (len =? 0) && is_null data)
  then (SALTS_EINVAL, log, None)
  else if (TR_RAFT_LOG_MAX_ENTRY_BYTES <? len) ||
          (log_max_entries log <=? Z.of_nat (length (elems log)))
  then (SALTS_ENOSPC, log, None)
  else
    let e := Entry (log_last log + 1) t cmd len (array_elems data len) in
    (SALTS_OK, log_with_entries log (snd (vec_push (log_entries log) e)), Some e).
Proof.
  intros Hwf Hw Hlen. unfold tr_raft_log_append_local. rewrite log_count_spec.
  case_match eqn:Hg; [done|]. case_match eqn:Hg2; [done|].
  rewrite log_last_index_spec by done.
  pose proof (log_last_bounds log Hwf).
  assert (log_last log +64 1 = log_last log + 1) as ->.
  { apply u64_small. unfold UINT64_MAX in *. lia. }
  set (e := Entry _ _ _ _ _).
  destruct (vec_push (log_entries log) e) as [r v] eqn:Hp. cbn [snd].
  destruct (log_push_spec log e r v) as (-> & He & Hwf'); try done; [lia| |].
  { constructor; cbn; lia. }
  cbn [tr_raft_stl_status_to_error entry_index e].
  rewrite log_get_spec by done. by rewrite (log_at_snoc log v e).
Qed.

Lemma append_configuration_spec log t c :
  log_wf log -> log_last log < UINT64_MAX ->
  t <> 0 -> conf_wf c -> conf_in_range c ->
  Z.of_nat (length (elems log)) < log_max_entries log ->
  exists e v, tr_raft_log_append_configuration log t c =
      (SALTS_OK, log_with_entries log v, Some e) /\
    elems (log_with_entries log v) = elems log ++ [e] /\
    log_wf (log_with_entries log v) /\
    entry_index e = log_last log + 1 /\ entry_term e = t /\
    entry_command_id e = 0 /\ tr_raft_conf_entry_decode e = (SALTS_OK, c).
Proof.
  intros Hwf Hw Ht Hc Hr Hlt. unfold tr_raft_log_append_configuration.
  rewrite log_count_spec, log_last_index_spec by done.
  replace (t =? 0) with false by lia. replace (_ <=? _) with false by blia.
  pose proof (log_last_bounds log Hwf).
  assert (log_last log +64 1 = log_last log + 1) as ->.
  { apply u64_small. unfold UINT64_MAX in *. lia. }
  destruct (conf_entry_encode_total c (log_last log + 1) t) as (e & He & Hlen);
    [done|lia|done|].
  rewrite He. apply conf_entry_encode_decode in He as (Hd & Hi & Het & Hcmd); [|done].
  apply Z.eqb_eq in Hcmd.
  destruct (vec_push (log_entries log) e) as [r v] eqn:Hp.
  destruct (log_push_spec log e r v) as (-> & Hel & Hwf'); try done.
  { constructor; [congruence|done|]. intros _. by rewrite Hd. }
  exists e, v. cbn [tr_raft_stl_status_to_error]. rewrite log_get_spec, Hi by done.
  by rewrite (log_at_snoc log v e).
Qed.


(** ** Bulk writes *)

(** Storing [es] in consecutive slots; the loops that fill resized vectors do
    this. *)
Fixpoint write_seq (slot : Z) (es : list tr_raft_entry) (v : V) : V :=
  match es with
  | [] => v
  | e :: rest => write_seq (slot + 1) rest (vec_write v slot e)
  end.

Lemma write_seq_spec (slot : nat) es v :
  (slot + length es <= length (vec_elems v))%nat ->
  vec_elems (write_seq (Z.of_nat slot) es v) =
    take slot (vec_elems v) ++ es ++ drop (slot + length es) (vec_elems v) /\
  vec_capacity (write_seq (Z.of_nat slot) es v) = vec_capacity v.
Proof.
  revert slot v. induction es as [|e es IH]; intros slot v Hlen; cbn [write_seq].
  { rewrite Nat.add_0_r. cbn. by rewrite take_drop. }
  cbn [length] in Hlen.
  assert (0 <= Z.of_nat slot < vec_size v) as Hslot by (rewrite vec_size_elems; lia).
  replace (Z.of_nat slot + 1) with (Z.of_nat (S slot)) by lia.
  destruct (IH (S slot) (vec_write v (Z.of_nat slot) e)) as [-> ->];
    rewrite vec_write_elems by done; rewrite Nat2Z.id.
  { rewrite length_insert. lia. }
  rewrite vec_write_capacity by done. split; [|done].
  rewrite drop_insert_lt by (cbn; lia).
  rewrite (take_S_r _ _ e) by (rewrite list_lookup_insert_eq; [done|lia]).
  rewrite take_insert_ge by lia. rewrite <- app_assoc. cbn.
  by replace (slot + S (length es))%nat with (S (slot + length es)) by lia.
Qed.

Lemma write_entries_seq base prev es v :
  entries_follow prev es -> 0 <= base <= prev ->
  prev + Z.of_nat (length es) <= UINT64_MAX ->
  write_entries base es v = write_seq (prev - base) es v.
Proof.
  revert prev v. induction es as [|e es IH]; intros prev v Hf Hb Hw; [done|].
  change (e :: es) with ([e] ++ es) in Hf.
  apply entries_follow_app in Hf as [He Hf]. destruct (He 0%nat e) as [Hi _]; [done|].
  cbn [write_entries write_seq length] in *.
  replace (entry_index e -64 base -64 1) with (prev - base).
  2: { rewrite Hi. word_simpl. lia. }
  rewrite (IH (prev + 1)) by (try done; lia). by replace (prev + 1 - base) with
    (prev - base + 1) by lia.
Qed.

Definition proposal_entries (index term : Z) (ps : list tr_raft_proposal)
    : list tr_raft_entry :=
  imap (fun k p => proposal_entry (index + Z.of_nat k) term p) ps.

Lemma proposal_entries_cons index term p ps :
  proposal_entries index term (p :: ps) =
  proposal_entry index term p :: proposal_entries (index + 1) term ps.
Proof.
  unfold proposal_entries. cbn [imap]. rewrite Z.add_0_r. f_equal.
  apply imap_ext. intros k q _. cbn. f_equal. lia.
Qed.

Lemma write_proposals_seq slot index term ps v :
  0 <= index -> index + Z.of_nat (length ps) <= UINT64_MAX + 1 ->
  write_proposals slot index term ps v =
  write_seq slot (proposal_entries index term ps) v.
Proof.
  revert slot index v. induction ps as [|p ps IH]; intros slot index v H1 H2; [done|].
  rewrite proposal_entries_cons. cbn [write_proposals write_seq length] in *.
  destruct ps as [|q ps]; [done|]. cbn [length] in *.
  replace (index +64 1) with (index + 1) by (symmetry; apply u64_small; word_simpl; lia).
  apply IH; lia.
Qed.

Lemma proposal_entries_follow prev term ps :
  term <> 0 -> forallb proposal_valid ps = true ->
  entries_follow prev (proposal_entries (prev + 1) term ps).
Proof.
  intros Ht Hps k e Hk. unfold proposal_entries in Hk.
  rewrite list_lookup_imap in Hk. apply fmap_Some in Hk as (p & Hp & ->).
  cbn [proposal_entry entry_index]. split; [lia|].
  rewrite forallb_forall in Hps.
  assert (proposal_valid p = true) as Hv.
  { apply Hps, list_elem_of_In. by eapply list_elem_of_lookup_2. }
  unfold proposal_valid in Hv. constructor; cbn; lia.
Qed.

Lemma move_down_spec retained k removed v :
  0 <= k -> 0 < removed ->
  k + removed + Z.of_nat retained <= Z.of_nat (length (vec_elems v)) ->
  let v' := move_down retained k removed v in
  length (vec_elems v') = length (vec_elems v) /\
  vec_capacity v' = vec_capacity v /\
  forall j, vec_elems v' !! j =
    if (k <=? Z.of_nat j) && (Z.of_nat j <? k + Z.of_nat retained)
    then vec_elems v !! (j + Z.to_nat removed)%nat else vec_elems v !! j.
Proof.
  intros Hk Hr. revert k v Hk. induction retained as [|n IH]; intros k v Hk Hlen; cbn.
  { split; [done|]. split; [done|]. intros j. by replace (_ && _) with false by blia. }
  rewrite vec_at_const_elems. replace (_ <? 0) with false by blia.
  destruct (lookup_lt_is_Some_2 (vec_elems v) (Z.to_nat (k + removed))) as [e He]; [lia|].
  rewrite He. set (w := vec_write v k e).
  assert (0 <= k < vec_size v) as Hkv by (rewrite vec_size_elems; lia).
  assert (vec_elems w = <[Z.to_nat k := e]> (vec_elems v)) as Hw
    by by apply vec_write_elems.
  destruct (IH (k + 1) w) as (Hl & Hc & Hj); [lia|rewrite Hw, length_insert; lia|].
  rewrite Hl, Hc. unfold w at 2. rewrite vec_write_capacity by done.
  rewrite Hw, length_insert. split; [done|]. split; [done|]. intros j.
  rewrite Hj, Hw. destruct (decide (j = Z.to_nat k)) as [->|Hne].
  - replace (_ && _) with false by blia. rewrite list_lookup_insert_eq by lia.
    replace (_ && _) with true by blia. rewrite <- He. f_equal. lia.
  - replace (k + 1 + Z.of_nat n) with (k + Z.of_nat (S n)) by lia.
    destruct (Z.leb_spec (k + 1) (Z.of_nat j)), (Z.leb_spec k (Z.of_nat j));
      try lia; cbn [andb]; [case_match|]; by rewrite list_lookup_insert_ne by lia.
Qed.


(** A resize within [max_entries] succeeds and keeps the common prefix. *)
Lemma log_resize_spec v n r v' :
  0 <= n <= vec_capacity v -> vec_resize v n = (r, v') ->
  r = STL_OK /\ length (vec_elems v') = Z.to_nat n /\
  vec_capacity v <= vec_capacity v' /\
  forall k, (k <= length (vec_elems v))%nat -> (k <= Z.to_nat n)%nat ->
    take k (vec_elems v') = take k (vec_elems v).
Proof.
  intros Hn Hr.
  assert (r = STL_OK) as ->.
  { change r with (fst (r, v')). rewrite <- Hr. by apply vec_resize_ok. }
  apply vec_resize_elems in Hr as He; [|lia]. rewrite decide_True in He by done.
  destruct He as [Hlen Htake]. apply vec_resize_capacity in Hr.
  split; [done|]. split; [done|]. split; [done|]. intros k H1 H2.
  apply (f_equal (take k)) in Htake. rewrite !take_take in Htake.
  by rewrite !Nat.min_l in Htake by lia.
Qed.

Lemma compact_spec log i t :
  log_wf log ->
  exists log', tr_raft_log_compact log i t =
    (if (i <=? log_base_index log) || (t =? 0) || (log_last log <? i)
     then (SALTS_EINVAL, log)
     else if bool_decide (log_term log i = Some t) then (SALTS_OK, log')
     else (SALTS_EPROTO, log)) /\
    (log_base_index log < i <= log_last log -> t <> 0 -> log_wf log' /\
     log_base_index log' = i /\ log_base_term log' = t /\
     log_max_entries log' = log_max_entries log /\
     elems log' = drop (Z.to_nat (i - log_base_index log)) (elems log)).
Proof.
  intros Hwf. pose proof (log_last_bounds log Hwf) as Hb.
  pose proof (lw_capacity _ Hwf). pose proof (lw_count _ Hwf). pose proof (lw_width _ Hwf).
  unfold tr_raft_log_compact. rewrite log_last_index_spec, log_count_spec by done.
  case_match eqn:Hg. { exists log. split; [done|]. lia. }
  apply orb_false_iff in Hg as [[Hg1 Hg2]%orb_false_iff Hg3].
  apply Z.leb_gt in Hg1. apply Z.ltb_ge in Hg3. rename Hg1 into Hi.
  unfold log_last in *. unfold elems in *. set (es := vec_elems (log_entries log)) in *.
  assert (i -64 log_base_index log = i - log_base_index log) as ->.
  { apply u64_small. unfold UINT64_MAX in *. lia. }
  rewrite u64_small by (unfold UINT64_MAX in *; lia).
  set (rem := i - log_base_index log). set (ret := Z.of_nat (length es) - rem).
  destruct (move_down_spec (Z.to_nat ret) 0 rem (log_entries log)) as (Hl & Hc & Hj);
    [lia|lia|fold es; lia|].
  set (w := move_down _ _ _ _) in *.
  destruct (vec_resize w ret) as [r v] eqn:Hr.
  apply log_resize_spec in Hr as (-> & Hlv & Hcv & Htk); [|lia].
  exists (Log v (log_max_entries log) i t). cbn [tr_raft_stl_status_to_error].
  assert (negb (tr_raft_log_matches log i t) =
    negb (bool_decide (log_term log i = Some t))) as ->.
  { f_equal. apply eq_true_iff_eq. rewrite bool_decide_eq_true.
    by apply log_matches_spec. }
  split; [by destruct (bool_decide _)|]. intros _ Ht.
  assert (vec_elems v = drop (Z.to_nat rem) es) as Hv.
  { rewrite <- (take_ge (vec_elems v) (Z.to_nat ret)) by lia.
    fold es in Hl. rewrite Htk by lia.
    apply list_eq. intros k. rewrite lookup_drop, lookup_take, Hj. fold es.
    destruct (decide (k < Z.to_nat ret)%nat).
    - replace (_ && _) with true by blia. f_equal. lia.
    - symmetry. apply lookup_ge_None. lia. }
  split; [|done]. constructor; cbn; unfold elems; cbn; rewrite ?Hv, ?length_drop;
    try lia.
  pose proof (lw_entries _ Hwf) as Hf. unfold elems in Hf. fold es in Hf.
  rewrite <- (take_drop (Z.to_nat rem) es) in Hf.
  apply entries_follow_app in Hf as [_ Hf]. rewrite length_take in Hf.
  by replace (log_base_index log + _) with i in Hf by lia.
Qed.


Lemma log_last_with_entries log v es :
  elems (log_with_entries log v) = elems log ++ es ->
  log_last (log_with_entries log v) = log_last log + Z.of_nat (length es).
Proof.
  intros He. unfold log_last. rewrite He, length_app. cbn. lia.
Qed.

(** Replacing everything from slot [s] on by [es], as the resizing operations
    do. *)
Lemma log_overwrite_spec log (s : nat) es r v :
  log_wf log -> (s <= length (elems log))%nat ->
  Z.of_nat (s + length es) <= log_max_entries log ->
  log_base_index log + Z.of_nat (s + length es) <= UINT64_MAX ->
  entries_follow (log_base_index log + Z.of_nat s) es ->
  vec_resize (log_entries log) (Z.of_nat (s + length es)) = (r, v) ->
  let v' := write_seq (Z.of_nat s) es v in
  r = STL_OK /\ length (vec_elems v) = (s + length es)%nat /\
  elems (log_with_entries log v') = take s (elems log) ++ es /\
  log_wf (log_with_entries log v').
Proof.
  intros Hwf Hs Hmax Hw Hf Hr v'. pose proof (lw_capacity _ Hwf).
  apply log_resize_spec in Hr as (-> & Hlen & Hcap & Htake); [|lia].
  rewrite Nat2Z.id in Hlen, Htake.
  destruct (write_seq_spec s es v) as [He Hc]; [lia|]. fold v' in He, Hc.
  rewrite drop_ge, app_nil_r, Htake in He by (unfold elems in *; lia).
  split; [done|]. split; [done|]. split; [done|].
  apply log_wf_with_entries; try done; rewrite ?He, ?length_app, ?length_take;
    unfold elems in *; try lia.
  apply entries_follow_app. split.
  - pose proof (lw_entries _ Hwf) as Hall. unfold elems in Hall.
    rewrite <- (take_drop s (vec_elems (log_entries log))) in Hall.
    by apply entries_follow_app in Hall as [Hall _].
  - rewrite length_take. by replace (s `min` _)%nat with s by lia.
Qed.

(** What a batch must satisfy to be appended. *)
Definition batch_fits log (t : Z) (ps : list tr_raft_proposal) : bool :=
  negb (t =? 0) && (1 <=? Z.of_nat (length ps)) &&
  (Z.of_nat (length ps) <=? TR_RAFT_MAX_PROPOSAL_BATCH) &&
  (Z.of_nat (length (elems log) + length ps) <=? log_max_entries log) &&
  forallb proposal_valid ps.

Lemma append_batch_spec log t ps r log' slot :
  log_wf log -> log_last log + Z.of_nat (length ps) <= UINT64_MAX ->
  tr_raft_log_append_local_batch log t ps = (r, log', slot) ->
  if batch_fits log t ps
  then r = SALTS_OK /\ slot = Some (Z.of_nat (length (elems log))) /\
       log_wf log' /\ (exists v, log' = log_with_entries log v) /\
       elems log' = elems log ++ proposal_entries (log_last log + 1) t ps
  else r <> SALTS_OK /\ log' = log /\ slot = None.
Proof.
  intros Hwf Hw. pose proof (log_last_bounds log Hwf) as Hb. pose proof (lw_count _ Hwf).
  unfold tr_raft_log_append_local_batch, batch_fits. rewrite log_count_spec.
  rewrite log_last_index_spec by done.
  case_match eqn:Hg. { intros [= <- <- <-]. by replace (_ && _) with false by blia. }
  case_match eqn:Hg2. { intros [= <- <- <-]. by replace (_ && _) with false by blia. }
  destruct (forallb proposal_valid ps) eqn:Hps; cbn [negb].
  2: { intros [= <- <- <-]. by rewrite andb_false_r. }
  replace (_ && true) with true by blia.
  assert (t <> 0) as Ht by lia.
  assert (0 < Z.of_nat (length ps)) as Hpos by blia.
  set (es := proposal_entries (log_last log + 1) t ps).
  assert (length es = length ps) as Hes by apply length_imap.
  assert (log_last log +64 1 = log_last log + 1) as ->.
  { apply u64_small. unfold UINT64_MAX in *. lia. }
  unfold log_last in Hb, Hw.
  rewrite u64_small by (unfold UINT64_MAX in *; lia).
  rewrite <- Nat2Z.inj_add, <- Hes. destruct (vec_resize _ _) as [rr v] eqn:Hr.
  apply (log_overwrite_spec log (length (elems log)) es) in Hr
    as (-> & Hlen & Hel & Hwf'); try done; try lia.
  2: { by apply proposal_entries_follow. }
  cbn [tr_raft_stl_status_to_error]. rewrite vec_at_const_elems.
  replace (_ <? 0) with false by blia. rewrite Nat2Z.id.
  destruct (lookup_lt_is_Some_2 (vec_elems v) (length (elems log))) as [e ->];
    [lia|].
  cbn [is_null]. intros [= <- <- <-].
  rewrite write_proposals_seq by (unfold log_last; lia).
  rewrite take_ge in Hel by done. eauto 10.
Qed.

(** ** Reconciliation *)

(** The log holds the first [n] of [es] after [prev]. *)
Definition agrees log (prev : Z) (es : list tr_raft_entry) (n : nat) : Prop :=
  forall k e, (k < n)%nat -> es !! k = Some e ->
    exists l, log_at log (prev + Z.of_nat k + 1) = Some l /\ entry_eqv l e.

(** Entry [n] is the first of [es] the log does not hold: the log ends there,
    or [truncates] and it has an entry of another term. *)
Definition differs_at log (prev : Z) (es : list tr_raft_entry) (n : nat)
    (truncates : bool) : Prop :=
  agrees log prev es n /\
  exists e, es !! n = Some e /\ entry_index e = prev + Z.of_nat n + 1 /\
    if truncates
    then exists l, log_at log (prev + Z.of_nat n + 1) = Some l /\
           entry_term l <> entry_term e
    else log_at log (prev + Z.of_nat n + 1) = None.

(** An entry of the same term that differs: two leaders of one term, or a
    corrupt log. *)
Definition clash log (prev : Z) (es : list tr_raft_entry) : Prop :=
  exists k e l, es !! k = Some e /\ log_at log (prev + Z.of_nat k + 1) = Some l /\
    entry_term l = entry_term e /\ ~ entry_eqv l e.

Lemma agrees_cons log prev e es n l :
  log_at log (prev + 1) = Some l -> entry_eqv l e -> agrees log (prev + 1) es n ->
  agrees log prev (e :: es) (S n).
Proof.
  intros Hl He Ha [|k] x Hk Hx; cbn in Hx.
  - injection Hx as <-. exists l. by rewrite Z.add_0_r.
  - destruct (Ha k x) as (l' & Hl' & ?); [lia|done|]. exists l'. split; [|done].
    rewrite <- Hl'. f_equal. lia.
Qed.

Lemma reconcile_scan_spec log prev (j : Z) es :
  log_wf log -> 0 <= prev -> 0 <= j ->
  prev + j + Z.of_nat (length es) <= UINT64_MAX ->
  match reconcile_scan log prev j es with
  | ScanSame => agrees log (prev + j) es (length es)
  | ScanChange first_change truncates =>
      exists n, first_change = j + Z.of_nat n /\ differs_at log (prev + j) es n truncates
  | ScanError r =>
      r <> SALTS_OK /\ (entries_follow (prev + j) es -> clash log (prev + j) es)
  end.
Proof.
  intros Hwf Hp. revert j. induction es as [|e es IH]; intros j Hj Hw.
  { intros k e Hk. cbn in Hk. lia. }
  cbn [reconcile_scan length] in *.
  replace (prev +64 j +64 1) with (prev + j + 1) by word.
  rewrite log_get_spec by done.
  assert (forall P : Prop, (entries_follow (prev + j) (e :: es) ->
    entry_index e = prev + j + 1 /\ entry_ok e -> P) ->
    entries_follow (prev + j) (e :: es) -> P) as Hhead.
  { intros P HP Hf. apply HP; [done|]. destruct (Hf 0%nat e) as [-> ?]; [done|].
    split; [lia|done]. }
  destruct (negb (_ =? _) || _ || _) eqn:Hg.
  { split; [done|]. apply Hhead. intros _ [? [? ? _]]. lia. }
  destruct ((entry_command_id e =? 0) && _) eqn:Hg2.
  { split; [done|]. apply Hhead. intros _ [_ [_ _ Hok]].
    apply andb_true_iff in Hg2 as [Hc Hd]. rewrite Hok in Hd by lia. done. }
  assert (entry_index e = prev + j + 1) as Hi by lia.
  destruct (log_at log (prev + j + 1)) as [l|] eqn:Hl.
  2: { exists 0%nat. split; [lia|]. split; [intros k ? ?; lia|].
       exists e. rewrite Z.add_0_r. auto. }
  destruct (Z.eqb_spec (entry_term l) (entry_term e)) as [Ht|Ht]; cbn [negb].
  2: { exists 0%nat. split; [lia|]. split; [intros k ? ?; lia|].
       exists e. rewrite Z.add_0_r. eauto 10. }
  destruct (tr_raft_log_entry_equal l e) eqn:He; cbn [negb].
  2: { split; [done|]. intros _. exists 0%nat, e, l. rewrite Z.add_0_r.
       unfold entry_eqv. rewrite He. auto. }
  specialize (IH (j + 1)). rewrite Z.add_assoc in IH.
  destruct (reconcile_scan log prev (j + 1) es) as [r| |fc tr].
  - destruct IH as [Hr Hcl]; [lia|lia|]. split; [done|]. intros Hf.
    change (e :: es) with ([e] ++ es) in Hf. apply entries_follow_app in Hf as [_ Hf].
    destruct (Hcl Hf) as (k & x & l' & Hx & Hl' & ?). exists (S k), x, l'.
    split; [done|]. split; [|done]. rewrite <- Hl'. f_equal. lia.
  - eapply agrees_cons; [done|done|]. apply IH; lia.
  - destruct IH as (n & -> & Ha & x & Hx & Hxi & Hd); [lia|lia|].
    exists (S n). split; [lia|]. split; [by eapply agrees_cons|].
    exists x. replace (prev + j + Z.of_nat (S n) + 1) with
      (prev + j + 1 + Z.of_nat n + 1) by lia. auto.
Qed.


Lemma log_term_bounds log i t :
  log_term log i = Some t -> log_base_index log <= i <= log_last log.
Proof.
  unfold log_term. destruct (Z.eqb_spec i (log_base_index log)) as [->|_].
  - unfold log_last. lia.
  - intros Ht. apply fmap_Some in Ht as (e & He & _).
    assert (is_Some (log_at log i)) as Hi by eauto. apply log_at_is_Some in Hi. lia.
Qed.

Lemma agrees_last log prev es n :
  prev <= log_last log -> agrees log prev es n -> (n <= length es)%nat ->
  prev + Z.of_nat n <= log_last log.
Proof.
  intros Hp Ha Hn. destruct n as [|n]; [lia|].
  destruct (lookup_lt_is_Some_2 es n) as [e He]; [lia|].
  destruct (Ha n e) as (l & Hl & _); [lia|done|].
  assert (is_Some (log_at log (prev + Z.of_nat n + 1))) as Hi by eauto.
  apply log_at_is_Some in Hi. lia.
Qed.

(** What a successful reconciliation does to the log: nothing, or it replaces
    everything after the entries that agree. *)
Inductive reconciled log (prev : Z) (es : list tr_raft_entry) (protected : Z)
    : tr_raft_log V -> tr_raft_log_reconcile_result -> Prop :=
| reconciled_same :
    agrees log prev es (length es) ->
    reconciled log prev es protected log (Reconcile true false 0 0 0 0)
| reconciled_change n truncates v :
    differs_at log prev es n truncates ->
    (truncates = true -> protected < prev + Z.of_nat n + 1) ->
    elems (log_with_entries log v) =
      take (Z.to_nat (prev + Z.of_nat n - log_base_index log)) (elems log) ++ drop n es ->
    reconciled log prev es protected (log_with_entries log v)
      (Reconcile true true 0 (if truncates then prev + Z.of_nat n + 1 else 0)
         (prev + Z.of_nat n + 1) (Z.of_nat (length es) - Z.of_nat n)).

Lemma reconcile_change log prev es n tr pt :
  log_wf log -> 0 <= prev -> prev + Z.of_nat (length es) <= UINT64_MAX ->
  entries_follow prev es -> log_term log prev = Some pt ->
  differs_at log prev es n tr ->
  (prev -64 log_base_index log) +64 Z.of_nat n =
    prev + Z.of_nat n - log_base_index log /\
  entry_index (nth 0 (drop n es) zero_entry) = prev + Z.of_nat n + 1 /\
  (n < length es)%nat /\
  (Z.to_nat (prev + Z.of_nat n - log_base_index log) <= length (elems log))%nat.
Proof.
  intros Hwf Hp Hw Hf Ht [Ha (e & He & Hi & _)].
  pose proof (log_last_bounds log Hwf). apply log_term_bounds in Ht.
  apply lookup_lt_Some in He as Hn.
  pose proof (agrees_last log prev es n ltac:(lia) Ha ltac:(lia)) as Hl.
  split; [unfold UINT64_MAX in *; rewrite u64_add_idemp; word_simpl; lia|].
  split; [|split; [done|unfold log_last in *; lia]].
  by rewrite (drop_S _ e _ He).
Qed.

Lemma reconcile_spec log prev pt es protected r log' rc :
  log_wf log -> 0 <= prev -> entries_follow prev es ->
  tr_raft_log_reconcile log prev pt es protected = (r, log', rc) ->
  log_wf log' /\
  if decide (r = SALTS_OK)
  then (log_term log prev <> Some pt /\ log' = log /\
        rc = Reconcile false false (tr_raft_log_reject_hint log prev) 0 0 0) \/
       (log_term log prev = Some pt /\ reconciled log prev es protected log' rc)
  else log' = log /\ rc_changed rc = false.
Proof.
  intros Hwf Hp Hf. unfold tr_raft_log_reconcile.
  case_match eqn:Hg; [by intros [= <- <- <-]|]. apply Z.ltb_ge in Hg.
  destruct (tr_raft_log_matches log prev pt) eqn:Hm; cbn [negb].
  2: { intros [= <- <- <-]. split; [done|]. left. split; [|done].
       rewrite <- log_matches_spec by done. by rewrite Hm. }
  apply log_matches_spec in Hm; [|done].
  pose proof (reconcile_scan_spec log prev 0 es Hwf Hp) as Hscan.
  rewrite Z.add_0_r in Hscan. specialize (Hscan ltac:(lia) ltac:(lia)).
  destruct (reconcile_scan log prev 0 es) as [rs| |fc tr].
  { intros [= <- <- <-]. destruct Hscan as [Hne _]. by rewrite decide_False. }
  { intros [= <- <- <-]. split; [done|]. right. split; [done|]. by constructor. }
  destruct Hscan as (n & -> & Hd). rewrite Z.add_0_l, Nat2Z.id.
  destruct (reconcile_change log prev es n tr pt) as (-> & -> & Hn & Hs); try done; [lia|].
  set (s := prev + Z.of_nat n - log_base_index log) in *.
  apply log_term_bounds in Hm as Hb. pose proof (log_last_bounds log Hwf).
  destruct (tr && _) eqn:Htr; [by intros [= <- <- <-]|].
  destruct ((log_max_entries log <? s) || _) eqn:Hroom; [by intros [= <- <- <-]|].
  apply orb_false_iff in Hroom as [Hr1 Hr2]. apply Z.ltb_ge in Hr1, Hr2.
  replace (s +64 Z.of_nat (length es) -64 Z.of_nat n) with
    (Z.of_nat (Z.to_nat s + length (drop n es))).
  2: { rewrite length_drop. word_simpl. lia. }
  assert (entries_follow (prev + Z.of_nat n) (drop n es)) as Hfd.
  { rewrite <- (take_drop n es) in Hf. apply entries_follow_app in Hf as [_ Hf].
    rewrite length_take in Hf. by rewrite Nat.min_l in Hf by lia. }
  destruct (vec_resize _ _) as [rr v] eqn:Hres.
  apply (log_overwrite_spec log (Z.to_nat s) (drop n es)) in Hres
    as (-> & Hlen & Hel & Hwf'); try done; rewrite ?length_drop; try lia.
  2: { by replace (log_base_index log + _) with (prev + Z.of_nat n) by lia. }
  cbn [tr_raft_stl_status_to_error]. intros [= <- <- <-].
  rewrite (write_entries_seq _ (prev + Z.of_nat n)) by
    (done || rewrite ?length_drop; lia).
  rewrite Z2Nat.id in Hel, Hwf' by lia. split; [done|].
  right. split; [done|]. apply reconciled_change; [done| |done].
  intros ->. cbn [andb] in Htr. lia.
Qed.

(** *** What reconciliation keeps and adds *)

Lemma reconciled_keeps log prev es protected log' rc i :
  log_wf log -> reconciled log prev es protected log' rc ->
  log_base_index log <= prev <= log_last log ->
  i <= prev \/ i <= protected -> i <= log_last log ->
  log_at log' i = log_at log i.
Proof.
  intros Hwf Hrc Hb Hi Hlast. destruct Hrc as [|n tr v [Ha (e & He & _ & Hd)] Hprot Hel];
    [done|].
  unfold log_at. cbn [log_with_entries log_base_index].
  destruct (Z.ltb_spec (log_base_index log) i); [|done].
  rewrite Hel. assert (i <= prev + Z.of_nat n) as Hin.
  { destruct Hi as [Hi|Hi]; [lia|]. destruct tr; [specialize (Hprot eq_refl); lia|].
    destruct (decide (i <= prev + Z.of_nat n)) as [|Hn]; [done|].
    assert (is_Some (log_at log (prev + Z.of_nat n + 1))) as [x Hx].
    { apply log_at_is_Some. lia. }
    congruence. }
  apply lookup_lt_Some in He.
  pose proof (agrees_last log prev es n ltac:(lia) Ha ltac:(lia)) as Hl.
  unfold log_last in *. rewrite lookup_app_l by (rewrite length_take; lia).
  apply lookup_take_lt. lia.
Qed.

Lemma reconciled_base log prev es protected log' rc :
  reconciled log prev es protected log' rc ->
  log_base_index log' = log_base_index log /\
  log_base_term log' = log_base_term log /\
  log_max_entries log' = log_max_entries log.
Proof. by destruct 1. Qed.

Lemma reconciled_holds log prev es protected log' rc :
  log_wf log -> reconciled log prev es protected log' rc ->
  log_base_index log <= prev <= log_last log ->
  agrees log' prev es (length es).
Proof.
  intros Hwf Hrc Hb. destruct Hrc as [|n tr v [Ha (e & He & _ & _)] _ Hel]; [done|].
  apply lookup_lt_Some in He as Hn.
  pose proof (agrees_last log prev es n ltac:(lia) Ha ltac:(lia)) as Hl.
  assert (length (take (Z.to_nat (prev + Z.of_nat n - log_base_index log)) (elems log))
    = Z.to_nat (prev + Z.of_nat n - log_base_index log)) as Hlen.
  { rewrite length_take. unfold log_last in *. lia. }
  intros k x Hk Hx. unfold log_at. cbn [log_with_entries log_base_index].
  replace (_ <? _) with true by blia. rewrite Hel.
  destruct (decide (k < n)%nat) as [Hkn|Hkn].
  - destruct (Ha k x Hkn Hx) as (l & Hat & Heq). exists l. split; [|done].
    unfold log_at in Hat. replace (_ <? _) with true in Hat by blia.
    rewrite lookup_app_l by lia. by rewrite lookup_take_lt by lia.
  - exists x. split; [|done]. rewrite lookup_app_r by lia.
    rewrite Hlen, lookup_drop, <- Hx. f_equal. lia.
Qed.

Lemma reconciled_last log prev es protected log' rc :
  log_wf log -> reconciled log prev es protected log' rc ->
  log_base_index log <= prev <= log_last log ->
  prev + Z.of_nat (length es) <= log_last log'.
Proof.
  intros Hwf Hrc Hb. destruct Hrc as [Ha|n tr v [Ha (e & He & _)] _ Hel].
  - apply (agrees_last log prev es (length es)); [lia|done|done].
  - apply lookup_lt_Some in He as Hn.
    pose proof (agrees_last log prev es n ltac:(lia) Ha ltac:(lia)) as Hl.
    unfold log_last in *. rewrite Hel, length_app, length_take, length_drop.
    cbn [log_with_entries log_base_index]. lia.
Qed.

(** The protected prefix stays in the log. *)
Lemma reconciled_protected log prev es protected log' rc :
  log_wf log -> reconciled log prev es protected log' rc ->
  log_base_index log <= prev <= log_last log -> protected <= log_last log ->
  protected <= log_last log'.
Proof.
  intros Hwf Hrc Hb Hp. destruct (reconciled_base _ _ _ _ _ _ Hrc) as (Hbase & _).
  destruct (decide (protected <= log_base_index log)).
  { unfold log_last. rewrite Hbase. lia. }
  assert (is_Some (log_at log' protected)) as Hs.
  { rewrite (reconciled_keeps log prev es protected log' rc) by (done || lia).
    apply log_at_is_Some. lia. }
  apply log_at_is_Some in Hs. lia.
Qed.

Lemma reconciled_slot log prev es v n i :
  log_wf log -> log_base_index log <= prev <= log_last log ->
  agrees log prev es n -> (n <= length es)%nat ->
  elems (log_with_entries log v) =
    take (Z.to_nat (prev + Z.of_nat n - log_base_index log)) (elems log) ++ drop n es ->
  log_at (log_with_entries log v) i =
  if i <=? prev + Z.of_nat n then log_at log i
  else es !! Z.to_nat (i - prev - 1).
Proof.
  intros Hwf Hb Ha Hn Hel. pose proof (agrees_last log prev es n ltac:(lia) Ha Hn) as Hl.
  unfold log_at, log_last in *. cbn [log_with_entries log_base_index]. rewrite Hel.
  destruct (Z.ltb_spec (log_base_index log) i) as [Hi|Hi].
  - destruct (Z.leb_spec i (prev + Z.of_nat n)).
    + rewrite lookup_app_l by (rewrite length_take; lia). apply lookup_take_lt. lia.
    + rewrite lookup_app_r by (rewrite length_take; lia).
      rewrite length_take, lookup_drop. f_equal. lia.
  - by replace (_ <=? _) with true by blia.
Qed.

(** ** Log matching

    Raft's Log Matching property between two logs: entries of one index and
    term are equal, and so are all before them. *)
Definition log_matching (l1 l2 : tr_raft_log V) : Prop :=
  forall i e1 e2, log_at l1 i = Some e1 -> log_at l2 i = Some e2 ->
    entry_term e1 = entry_term e2 ->
    forall j x1 x2, j <= i -> log_at l1 j = Some x1 -> log_at l2 j = Some x2 ->
      entry_eqv x1 x2.

(** [es] is what [leader] holds after [prev]. *)
Definition sent_from (leader : tr_raft_log V) (prev pt : Z)
    (es : list tr_raft_entry) : Prop :=
  log_term leader prev = Some pt /\
  forall k e, es !! k = Some e -> log_at leader (prev + Z.of_nat k + 1) = Some e.

Lemma matching_below log leader prev pt j x1 x2 :
  log_matching log leader -> log_term log prev = Some pt ->
  log_term leader prev = Some pt -> j <= prev ->
  log_at log j = Some x1 -> log_at leader j = Some x2 -> entry_eqv x1 x2.
Proof.
  intros Hm Ht1 Ht2 Hj H1 H2.
  assert (log_base_index log < j) as Hb1 by (apply log_at_is_Some; eauto).
  assert (log_base_index leader < j) as Hb2 by (apply log_at_is_Some; eauto).
  unfold log_term in Ht1, Ht2.
  replace (_ =? _) with false in Ht1 by blia. replace (_ =? _) with false in Ht2 by blia.
  apply fmap_Some in Ht1 as (e1 & He1 & Hte1), Ht2 as (e2 & He2 & Hte2).
  apply (Hm prev e1 e2) with j; try done. congruence.
Qed.

Lemma agrees_sent log leader prev pt es n :
  log_matching log leader -> sent_from leader prev pt es ->
  log_term log prev = Some pt -> agrees log prev es n -> (n <= length es)%nat ->
  forall j x1 x2, j <= prev + Z.of_nat n ->
    log_at log j = Some x1 -> log_at leader j = Some x2 -> entry_eqv x1 x2.
Proof.
  intros Hm [Ht Hs] Ht' Ha Hn j x1 x2 Hj H1 H2.
  destruct (decide (j <= prev)); [by eapply matching_below|].
  set (k := Z.to_nat (j - prev - 1)).
  destruct (lookup_lt_is_Some_2 es k) as [e He]; [lia|].
  destruct (Ha k e) as (l & Hl & Heq); [lia|done|]. apply Hs in He.
  replace (prev + Z.of_nat k + 1) with j in Hl, He by lia. congruence.
Qed.

End Spec.

Arguments log_wf {V _ _} log : assert.

(** ** Properties *)

Section Properties.
Context {V : Type} `{VecLaws V}.
Implicit Types log : tr_raft_log V.

(** The operations on a log, with arguments of their C types. The indices of a
    64-bit log run out at [UINT64_MAX]. *)
Inductive log_reachable : tr_raft_log V -> Prop :=
| reach_log_init max base bt log :
    0 <= max -> 0 <= base -> tr_raft_log_init max base bt = (SALTS_OK, log) ->
    log_reachable log
| reach_append_local log t cmd data len r log' e :
    log_reachable log -> log_last log < UINT64_MAX -> 0 <= len ->
    tr_raft_log_append_local log t cmd data len = (r, log', e) ->
    log_reachable log'
| reach_append_batch log t ps r log' slot :
    log_reachable log -> log_last log + Z.of_nat (length ps) <= UINT64_MAX ->
    tr_raft_log_append_local_batch log t ps = (r, log', slot) ->
    log_reachable log'
| reach_append_configuration log t c r log' e :
    log_reachable log -> log_last log < UINT64_MAX -> conf_in_range c ->
    tr_raft_log_append_configuration log t c = (r, log', e) ->
    log_reachable log'
| reach_reconcile log prev pt es protected r log' rc :
    log_reachable log -> 0 <= prev -> entries_follow prev es ->
    tr_raft_log_reconcile log prev pt es protected = (r, log', rc) ->
    log_reachable log'
| reach_compact log index t r log' :
    log_reachable log -> tr_raft_log_compact log index t = (r, log') ->
    log_reachable log'.

Lemma append_local_wf log t cmd data len r log' e :
  log_wf log -> log_last log < UINT64_MAX -> 0 <= len ->
  tr_raft_log_append_local log t cmd data len = (r, log', e) -> log_wf log'.
Proof.
  intros Hwf Hw Hlen. rewrite append_local_spec by done.
  case_match eqn:Hg; [by intros [= _ <- _]|]. case_match eqn:Hg2; [by intros [= _ <- _]|].
  intros [= _ <- _]. set (x := Entry _ _ _ _ _).
  destruct (vec_push (log_entries log) x) as [rr v] eqn:Hp.
  apply (log_push_spec log x rr v); try done; [lia|]. constructor; cbn; lia.
Qed.

Lemma append_configuration_wf log t c r log' e :
  log_wf log -> log_last log < UINT64_MAX -> conf_in_range c ->
  tr_raft_log_append_configuration log t c = (r, log', e) -> log_wf log'.
Proof.
  intros Hwf Hw Hc.
  destruct (decide (t <> 0 /\ tr_raft_conf_validate c = SALTS_OK /\
    Z.of_nat (length (elems log)) < log_max_entries log)) as [(Ht & Hv & Hlt)|Hn].
  - apply conf_validate_wf in Hv.
    destruct (append_configuration_spec log t c) as (x & v & -> & _ & Hwf' & _); try done.
    by intros [= _ <- _].
  - unfold tr_raft_log_append_configuration. rewrite log_count_spec.
    case_match eqn:Hg; [by intros [= _ <- _]|].
    case_match eqn:Hg2; [by intros [= _ <- _]|].
    unfold tr_raft_conf_entry_encode.
    destruct (_ || _); [by intros [= _ <- _]|]. unfold tr_raft_conf_encode.
    destruct (tr_raft_conf_validate c) eqn:Hv; cbn [failed ok negb];
      try (by intros [= _ <- _]).
    exfalso. apply Hn. split; [lia|]. split; [done|]. lia.
Qed.

Lemma compact_wf log i t r log' :
  log_wf log -> tr_raft_log_compact log i t = (r, log') -> log_wf log'.
Proof.
  intros Hwf. destruct (compact_spec log i t Hwf) as (l & -> & Hl).
  case_match eqn:Hg; [by intros [= _ <-]|].
  case_match; intros [= _ <-]; [|done]. apply Hl; blia.
Qed.

Lemma log_reachable_inv log : log_reachable log -> log_wf log.
Proof.
  induction 1 as [max base bt log Hm Hb Hi| | log t ps r log' slot _ IH Hw Hop
    | | log prev pt es prot r log' rc _ IH Hp Hf Hop |].
  - by apply log_init_spec in Hi as [? _].
  - by eapply append_local_wf.
  - apply append_batch_spec in Hop; [|done|done].
    destruct (batch_fits log t ps); [tauto|by destruct Hop as (_ & -> & _)].
  - by eapply append_configuration_wf.
  - by apply reconcile_spec in Hop as [? _].
  - by eapply compact_wf.
Qed.

(** Every log reached from an initialisation by appends, batches,
    configuration entries, reconciliations and compactions keeps the invariant
    of a log: it holds at most [max_entries] entries, the entry in slot [k]
    has index [base + k + 1], and every entry has a term, a bounded payload
    and, if it is a configuration, one that decodes. *)
Theorem log_reachable_wf log (Hreach : log_reachable log) : log_wf log.
Proof. by apply log_reachable_inv. Qed.

(** Reconciliation never changes a committed entry: whatever it is sent and
    however it ends, an entry of the log at or below the protected index is
    still there afterwards. *)
Theorem reconcile_protects_committed log prev pt es protected r log' rc i
    (Hwf : log_wf log) (Hprev : 0 <= prev) (Hes : entries_follow prev es)
    (Hop : tr_raft_log_reconcile log prev pt es protected = (r, log', rc))
    (Hi : i <= protected) (Hlast : i <= log_last log) :
  log_at log' i = log_at log i.
Proof.
  apply reconcile_spec in Hop as [_ Hop]; try done.
  case_decide; [|by destruct Hop as [-> _]].
  destruct Hop as [(_ & -> & _)|[Ht Hrc]]; [done|].
  apply log_term_bounds in Ht as Hb. eapply reconciled_keeps; eauto.
Qed.

(** A reconciliation that matches makes the log hold the leader's entries: all
    of them, after the unchanged prefix up to [previous_index]. *)
Theorem reconcile_adopts_entries log prev pt es protected log' rc
    (Hwf : log_wf log) (Hprev : 0 <= prev) (Hes : entries_follow prev es)
    (Hop : tr_raft_log_reconcile log prev pt es protected = (SALTS_OK, log', rc))
    (Hmatched : rc_matched rc = true) :
  tr_raft_log_matches log prev pt = true /\
  (forall i, i <= prev -> log_at log' i = log_at log i) /\
  (forall k e, es !! k = Some e -> exists l,
     tr_raft_log_get log' (prev + Z.of_nat k + 1) = Some l /\
     tr_raft_log_entry_equal l e = true) /\
  prev + Z.of_nat (length es) <= tr_raft_log_last_index log'.
Proof.
  apply reconcile_spec in Hop as [Hwf' Hop]; try done.
  rewrite decide_True in Hop by done.
  destruct Hop as [(_ & _ & ->)|[Ht Hrc]]; [done|].
  apply log_term_bounds in Ht as Hb.
  split; [by apply log_matches_spec|]. split; [|split].
  - intros i Hi. eapply reconciled_keeps; eauto. lia.
  - intros k e Hk. rewrite log_get_spec by done.
    apply (reconciled_holds _ _ _ _ _ _ Hwf Hrc Hb k e); [|done].
    by eapply lookup_lt_Some.
  - rewrite log_last_index_spec by done.
    by apply (reconciled_last _ _ _ _ _ _ Hwf Hrc Hb).
Qed.

(** Reconciliation preserves Log Matching with the leader: if the log and
    the leader's log agree up to every entry they have of one index and term,
    and the entries sent are the leader's, they still do, and the log agrees
    with the leader's up to the last entry sent. *)
Theorem reconcile_log_matching log (leader : tr_raft_log V) prev pt es protected log' rc
    (Hwf : log_wf log) (Hprev : 0 <= prev) (Hes : entries_follow prev es)
    (Hop : tr_raft_log_reconcile log prev pt es protected = (SALTS_OK, log', rc))
    (Hmatched : rc_matched rc = true)
    (Hmatching : log_matching log leader) (Hsent : sent_from leader prev pt es) :
  log_matching log' leader /\
  forall j x1 x2, j <= prev + Z.of_nat (length es) ->
    log_at log' j = Some x1 -> log_at leader j = Some x2 -> entry_eqv x1 x2.
Proof.
  apply reconcile_spec in Hop as [_ Hop]; try done.
  rewrite decide_True in Hop by done.
  destruct Hop as [(_ & _ & ->)|[Ht Hrc]]; [done|].
  apply log_term_bounds in Ht as Hb.
  destruct Hrc as [Ha|n tr v [Ha (e & He & _)] _ Hel].
  { split; [done|]. by eapply agrees_sent. }
  apply lookup_lt_Some in He as Hn.
  assert (forall j x1 x2, j <= prev + Z.of_nat n ->
    log_at log j = Some x1 -> log_at leader j = Some x2 -> entry_eqv x1 x2) as Hlow.
  { eapply agrees_sent; try done. lia. }
  assert (forall j x1 x2, prev + Z.of_nat n < j ->
    log_at (log_with_entries log v) j = Some x1 -> log_at leader j = Some x2 ->
    entry_eqv x1 x2) as Hhigh.
  { intros j x1 x2 Hj H1 H2. rewrite (reconciled_slot log prev es v n) in H1 by (done || lia).
    replace (_ <=? _) with false in H1 by blia. apply Hsent in H1.
    replace (prev + _ + 1) with j in H1 by lia. by simplify_eq. }
  assert (forall j x1 x2, log_at (log_with_entries log v) j = Some x1 ->
    log_at leader j = Some x2 -> entry_eqv x1 x2) as Hany.
  { intros j x1 x2 H1 H2. destruct (decide (j <= prev + Z.of_nat n)) as [Hj|Hj].
    - rewrite (reconciled_slot log prev es v n) in H1 by (done || lia).
      replace (_ <=? _) with true in H1 by blia. by apply (Hlow j).
    - apply (Hhigh j); [lia|done|done]. }
  split; [|by eauto]. intros i e1 e2 _ _ _ j x1 x2 _. apply Hany.
Qed.

(** Compaction removes exactly the entries up to the snapshot point: entries
    above it and the term at it are what they were; a point the log does not
    hold is refused and changes nothing. *)
Theorem compact_keeps_suffix log index term r log'
    (Hwf : log_wf log)
    (Hop : tr_raft_log_compact log index term = (r, log')) :
  (r = SALTS_OK <->
     log_base_index log < index /\ term <> 0 /\ log_term log index = Some term) /\
  (r <> SALTS_OK -> log' = log) /\
  (r = SALTS_OK ->
     (forall i, index < i -> tr_raft_log_get log' i = tr_raft_log_get log i) /\
     (forall i, index <= i -> log_term log' i = log_term log i) /\
     tr_raft_log_last_index log' = tr_raft_log_last_index log /\
     tr_raft_log_count log' = tr_raft_log_last_index log - index).
Proof.
  destruct (compact_spec log index term Hwf) as (l & Hl & Hprop). rewrite Hl in Hop.
  case_match eqn:Hg.
  { injection Hop as <- <-. split; [|by split].
    split; [done|]. intros (? & ? & Ht). apply log_term_bounds in Ht. blia. }
  apply orb_false_iff in Hg as [[Hg1 Hg2]%orb_false_iff Hg3].
  apply Z.leb_gt in Hg1. apply Z.eqb_neq in Hg2. apply Z.ltb_ge in Hg3.
  case_bool_decide as Ht; injection Hop as <- <-.
  2: { split; [|by split]. split; [done|tauto]. }
  split; [tauto|]. split; [done|]. intros _.
  destruct Hprop as (Hwf' & Hbase & Hbt & _ & Hel); [lia|done|].
  assert (forall i, index < i -> log_at l i = log_at log i) as Hat.
  { intros i Hi. unfold log_at. rewrite Hbase, Hel, lookup_drop.
    replace (_ <? _) with true by blia. replace (_ <? _) with true by blia.
    f_equal. lia. }
  rewrite !log_last_index_spec, log_count_spec by done. unfold log_last in *.
  rewrite Hbase, Hel, length_drop. repeat split; try lia.
  - intros i Hi. rewrite !log_get_spec by done. auto.
  - intros i Hi. unfold log_term. rewrite Hbase, Hbt.
    destruct (Z.eqb_spec i index) as [->|Hne].
    + unfold log_term in Ht. replace (_ =? _) with false in * by blia. congruence.
    + replace (_ =? _) with false by blia. by rewrite Hat by lia.
Qed.

(** A batch of proposals is appended as a whole or not at all: on success the
    entries follow the log in order with consecutive indices, and nothing
    before them changes. *)
Theorem append_batch_atomic log term ps r log' slot
    (Hwf : log_wf log)
    (Hroom : log_last log + Z.of_nat (length ps) <= UINT64_MAX)
    (Hop : tr_raft_log_append_local_batch log term ps = (r, log', slot)) :
  (r = SALTS_OK <-> batch_fits log term ps = true) /\
  (r <> SALTS_OK -> log' = log) /\
  (r = SALTS_OK ->
     tr_raft_log_last_index log' = tr_raft_log_last_index log + Z.of_nat (length ps) /\
     (forall i, i <= tr_raft_log_last_index log ->
        tr_raft_log_get log' i = tr_raft_log_get log i) /\
     (forall k p, ps !! k = Some p ->
        let index := tr_raft_log_last_index log + 1 + Z.of_nat k in
        tr_raft_log_get log' index = Some (proposal_entry index term p))).
Proof.
  pose proof (append_batch_spec log term ps r log' slot Hwf Hroom Hop) as H1.
  destruct (batch_fits log term ps); [|naive_solver].
  destruct H1 as (-> & _ & Hwf' & (v & ->) & Hel).
  split; [done|]. split; [done|]. intros _.
  rewrite !log_last_index_spec by done. split; [|split].
  - erewrite log_last_with_entries by done. unfold proposal_entries.
    by rewrite length_imap.
  - intros i Hi. rewrite !log_get_spec by done. by eapply log_at_app.
  - intros k p Hk. cbn zeta. rewrite log_get_spec by done.
    pose proof (log_at_lookup (log_with_entries log v) (length (elems log) + k)) as Hat.
    cbn [log_with_entries log_base_index] in Hat. unfold log_last.
    replace (log_base_index log + Z.of_nat (length (elems log)) + 1 + Z.of_nat k)
      with (log_base_index log + Z.of_nat (length (elems log) + k) + 1) by lia.
    rewrite Hat, Hel, lookup_app_r by lia. unfold proposal_entries.
    rewrite list_lookup_imap. replace (_ + k - _)%nat with k by lia. rewrite Hk. cbn.
    do 2 f_equal. unfold log_last. lia.
Qed.

(** The hint a follower returns for a mismatch at [prev] is the first index
    of its run of entries with the term found there, so every index it makes
    the leader skip holds that same mismatching term. A log that ends before
    [prev] asks for its first missing entry. *)
Theorem reject_hint_skips_conflict log prev
    (Hwf : log_wf log) (Hprev : log_base_index log < prev)
    (Hwidth : log_last log < UINT64_MAX) :
  let h := tr_raft_log_reject_hint log prev in
  if tr_raft_log_last_index log <? prev
  then h = tr_raft_log_last_index log + 1
  else log_base_index log < h <= prev /\
       (forall i, h <= i <= prev -> log_term log i = log_term log prev) /\
       (h = log_base_index log + 1 \/ log_term log (h - 1) <> log_term log prev).
Proof.
  pose proof (log_last_bounds log Hwf). unfold tr_raft_log_reject_hint.
  rewrite log_last_index_spec by done.
  destruct (Z.ltb_spec (log_last log) prev) as [Hlt|Hle]; [word|].
  replace (_ <=? _) with false by blia. rewrite (term_at_log_term log prev) by (done || lia).
  apply reject_hint_loop_spec; try done; try lia.
  intros i Hi. replace i with prev by lia. apply term_at_log_term; [done|lia].
Qed.

End Properties.

(** ** Examples *)

Definition example_log : tr_raft_log list_vec :=
  Log (ListVec [Entry 1 1 11 0 []; Entry 2 1 12 2 [5; 6]; Entry 3 2 13 0 []] 8) 8 0 0.

Definition example_entries : list tr_raft_entry :=
  [Entry 2 1 12 2 [5; 6]; Entry 3 3 14 0 []; Entry 4 3 15 1 [9]].

Definition example_leader : tr_raft_log list_vec :=
  Log (ListVec (Entry 1 1 11 0 [] :: example_entries) 8) 8 0 0.

Lemma example_log_reachable : log_reachable example_log.
Proof.
  apply (reach_append_local
    (Log (ListVec [Entry 1 1 11 0 []; Entry 2 1 12 2 [5; 6]] 8) 8 0 0) 2 13 None 0
    SALTS_OK _ (Some (Entry 3 2 13 0 []))); [|done|lia|reflexivity].
  eapply (reach_append_batch (Log (ListVec [] 8) 8 0 0) 1
    [Proposal 11 None 0; Proposal 12 (Some [5; 6; 7]) 2] SALTS_OK); [|done|reflexivity].
  by apply (reach_log_init 8 0 0).
Qed.

Lemma example_log_wf : log_wf example_log.
Proof. apply log_reachable_inv, example_log_reachable. Qed.

Lemma example_entries_follow : entries_follow 1 example_entries.
Proof.
  intros k e Hk. do 3 (destruct k as [|k]; [injection Hk as <-;
    split; [done|constructor; [done|vm_compute; congruence|done]]|]). done.
Qed.

Lemma log_reachable_wf_witness : log_wf example_log.
Proof. apply (log_reachable_wf example_log), example_log_reachable. Defined.

(** Entry 3 of term 2 is not committed and is replaced; 1 and 2 are kept. *)
Lemma reconcile_protects_committed_witness :
  log_at (snd (fst (tr_raft_log_reconcile example_log 1 1 example_entries 2))) 2 =
  log_at example_log 2.
Proof.
  eapply (reconcile_protects_committed example_log 1 1 example_entries 2);
    [apply example_log_wf|lia|apply example_entries_follow|reflexivity|lia|].
  vm_compute. congruence.
Defined.

Lemma reconcile_adopts_entries_witness :
  exists l, tr_raft_log_get
      (snd (fst (tr_raft_log_reconcile example_log 1 1 example_entries 2))) 4 = Some l /\
    tr_raft_log_entry_equal l (Entry 4 3 15 1 [9]) = true.
Proof.
  eapply (reconcile_adopts_entries example_log 1 1 example_entries 2) with (k := 2%nat);
    [apply example_log_wf|lia|apply example_entries_follow|reflexivity|reflexivity|done].
Defined.

Lemma example_matching : log_matching example_log example_leader.
Proof.
  assert (forall j x1 x2, j <> 3 -> log_at example_log j = Some x1 ->
    log_at example_leader j = Some x2 -> entry_eqv x1 x2) as Hall.
  { intros j x1 x2 Hj H1 H2. assert (is_Some (log_at example_log j)) as Hb by eauto.
    apply log_at_is_Some in Hb. cbn in Hb. unfold log_last in Hb. cbn in Hb.
    assert (j = 1 \/ j = 2) as [-> | ->] by lia;
      vm_compute in H1, H2; simplify_eq; reflexivity. }
  intros i e1 e2 H1 H2 Ht j x1 x2 Hj Hx1 Hx2.
  destruct (decide (i = 3)) as [->|Hi]; [vm_compute in H1, H2; by simplify_eq|].
  destruct (decide (j = 3)) as [->|Hj3]; [|by eapply (Hall j)].
  assert (is_Some (log_at example_log i)) as Hb by eauto.
  apply log_at_is_Some in Hb. unfold log_last in Hb. cbn in Hb. lia.
Qed.

Lemma reconcile_log_matching_witness :
  log_matching (snd (fst (tr_raft_log_reconcile example_log 1 1 example_entries 2)))
    example_leader.
Proof.
  eapply (reconcile_log_matching example_log example_leader 1 1 example_entries 2);
    [apply example_log_wf|lia|apply example_entries_follow|reflexivity|reflexivity
    |apply example_matching|].
  split; [reflexivity|]. intros k e Hk.
  do 3 (destruct k as [|k]; [by injection Hk as <-|]). done.
Defined.

Lemma compact_keeps_suffix_witness :
  tr_raft_log_get (snd (tr_raft_log_compact example_log 2 1)) 3 =
  tr_raft_log_get example_log 3.
Proof.
  eapply (compact_keeps_suffix example_log 2 1 SALTS_OK);
    [apply example_log_wf|reflexivity|reflexivity|lia].
Defined.

Lemma append_batch_atomic_witness :
  tr_raft_log_get (snd (fst (tr_raft_log_append_local_batch example_log 2
    [Proposal 20 None 0; Proposal 21 None 0]))) 5 = Some (Entry 5 2 21 0 []).
Proof.
  destruct (append_batch_atomic example_log 2 [Proposal 20 None 0; Proposal 21 None 0]
    SALTS_OK (snd (fst (tr_raft_log_append_local_batch example_log 2
      [Proposal 20 None 0; Proposal 21 None 0]))) (Some 3)) as (_ & _ & Hok);
    [apply example_log_wf|vm_compute; congruence|reflexivity|].
  destruct Hok as (_ & _ & Hget); [reflexivity|].
  exact (Hget 1%nat (Proposal 21 None 0) eq_refl).
Defined.

Lemma reject_hint_skips_conflict_witness :
  log_term example_log 1 = log_term example_log 2.
Proof.
  apply (reject_hint_skips_conflict example_log 2 example_log_wf);
    [reflexivity|reflexivity|vm_compute; split; congruence].
Defined.
