(* ===== verification/CoreState.v ===== *)
(** * The state of a Raft core: [src/core/raft_core.c] and
    [include/turboraft/raft_core.h]

    The records of messages, ready effects and the core, and the functions that
    read the core: peers, quorums, pauses, logs. The fixed arrays of C are
    lists: the peers, the read contexts, the messages and the other arrays with
    a count are lists of that length, the arrays indexed by peer are lists of
    31. Pointers to core, ready, configuration and message are not null. *)

From S2P Require Import Prelude Configuration Membership PeerSet Transition Window Vec.
From S2P Require Import Log.
From Stdlib Require Import ZArith Lia.
From stdpp Require Import base numbers list tactics.
Open Scope Z_scope.
Open Scope raft_scope.

Definition TR_RAFT_MAX_VOTERS : Z := 31.
Definition TR_RAFT_MAX_APPEND_ENTRIES : Z := 8.
Definition TR_RAFT_DEFAULT_MAX_INFLIGHT_APPEND_REQUESTS : Z := 1.
Definition TR_RAFT_DEFAULT_MAX_LOG_ENTRIES : Z := 1024.
Definition TR_RAFT_DEFAULT_MAX_PENDING_READS : Z := 16.
Definition TR_RAFT_MAX_PENDING_READS : Z := 64.

Inductive tr_raft_role :=
| TR_RAFT_FOLLOWER
| TR_RAFT_PRE_CANDIDATE
| TR_RAFT_CANDIDATE
| TR_RAFT_LEADER.

#[export] Instance role_eq_dec : EqDecision tr_raft_role.
Proof. solve_decision. Defined.

Definition role_eqb (r1 r2 : tr_raft_role) : bool := bool_decide (r1 = r2).

(** [TR_RAFT_MSG_INVALID] stands for the values the enumeration does not
    name. *)
Inductive tr_raft_message_type :=
| TR_RAFT_MSG_PRE_VOTE_REQUEST
| TR_RAFT_MSG_PRE_VOTE_RESPONSE
| TR_RAFT_MSG_VOTE_REQUEST
| TR_RAFT_MSG_VOTE_RESPONSE
| TR_RAFT_MSG_HEARTBEAT_REQUEST
| TR_RAFT_MSG_HEARTBEAT_RESPONSE
| TR_RAFT_MSG_APPEND_REQUEST
| TR_RAFT_MSG_APPEND_RESPONSE
| TR_RAFT_MSG_TIMEOUT_NOW
| TR_RAFT_MSG_READ_INDEX_REQUEST
| TR_RAFT_MSG_READ_INDEX_RESPONSE
| TR_RAFT_MSG_INVALID.

#[export] Instance message_type_eq_dec : EqDecision tr_raft_message_type.
Proof. solve_decision. Defined.

Definition type_eqb (t1 t2 : tr_raft_message_type) : bool := bool_decide (t1 = t2).

(** [m_entries] holds [entries[0] .. entries[entry_count - 1]]. *)
Record tr_raft_message := Message {
  m_type : tr_raft_message_type;
  m_from : Z;
  m_to : Z;
  m_term : Z;
  m_campaign_term : Z;
  m_last_log_index : Z;
  m_last_log_term : Z;
  m_leader_commit : Z;
  m_previous_log_index : Z;
  m_previous_log_term : Z;
  m_match_index : Z;
  m_reject_hint : Z;
  m_entries : list tr_raft_entry;
  m_granted : bool;
  m_context_id : Z
}.

Record tr_raft_read_state := ReadState {
  rs_context_id : Z;
  rs_index : Z
}.

Record tr_raft_snapshot_request := SnapshotRequest {
  sr_peer_id : Z;
  sr_leader_term : Z;
  sr_snapshot_index : Z;
  sr_snapshot_term : Z
}.

(** [r_has_buffer] tells whether [messages] is not null. [r_log_entries] and
    [r_committed_entries] are the entries in the log the pointers refer to. *)
Record tr_raft_ready := Ready {
  r_has_buffer : bool;
  r_messages : list tr_raft_message;
  r_message_capacity : Z;
  r_hard_state_changed : bool;
  r_term : Z;
  r_voted_for : Z;
  r_role_changed : bool;
  r_role : tr_raft_role;
  r_log_changed : bool;
  r_log_truncate_from : Z;
  r_log_entries : list tr_raft_entry;
  r_log_entry_count : Z;
  r_commit_changed : bool;
  r_commit_index : Z;
  r_committed_entries : list tr_raft_entry;
  r_committed_entry_count : Z;
  r_read_state_ready : bool;
  r_read_state : tr_raft_read_state;
  r_read_states : list tr_raft_read_state;
  r_snapshot_requests : list tr_raft_snapshot_request
}.

(** [struct tr_raft_core]. *)
Record tr_raft_core (V : Type) := Core {
  c_self_id : Z;
  c_membership_transition : tr_raft_membership_transition;
  c_peers : tr_raft_peer_set;
  c_self_is_voter : bool;
  c_role : tr_raft_role;
  c_leader_id : Z;
  c_term : Z;
  c_voted_for : Z;
  c_log : tr_raft_log V;
  c_commit_index : Z;
  c_applied_index : Z;
  c_apply_admitted_index : Z;
  c_pending_apply_index : Z;
  c_campaign_term : Z;
  c_heartbeat_ticks : Z;
  c_election_min_ticks : Z;
  c_election_max_ticks : Z;
  c_election_timeout_ticks : Z;
  c_election_elapsed_ticks : Z;
  c_heartbeat_elapsed_ticks : Z;
  c_check_quorum_elapsed_ticks : Z;
  c_recent_active : Z;
  c_paused_peers : Z;
  c_leadership_transfer_target : Z;
  c_leadership_transfer_elapsed_ticks : Z;
  c_leadership_transfer_sent : bool;
  c_pending_read_context_id : Z;
  c_pending_read_contexts : list Z;
  c_pending_read_index : Z;
  c_pending_read_acks : Z;
  c_waiting_read_contexts : list Z;
  c_max_pending_reads : Z;
  c_pre_votes : Z;
  c_votes : Z;
  c_next_index : list Z;
  c_match_index : list Z;
  c_append_windows : list tr_raft_append_window;
  c_max_inflight_append_requests : Z;
  c_ready_outstanding : bool;
  c_in_call : bool
}.
Arguments Core {V} _ _ _ _ _ _ _ _ _ _ _ _ _ _ _ _ _ _ _ _ _ _ _ _ _ _ _ _ _ _ _ _ _ _ _ _ _ _ _ _ : assert.
Arguments c_self_id {V} _ : assert.
Arguments c_membership_transition {V} _ : assert.
Arguments c_peers {V} _ : assert.
Arguments c_self_is_voter {V} _ : assert.
Arguments c_role {V} _ : assert.
Arguments c_leader_id {V} _ : assert.
Arguments c_term {V} _ : assert.
Arguments c_voted_for {V} _ : assert.
Arguments c_log {V} _ : assert.
Arguments c_commit_index {V} _ : assert.
Arguments c_applied_index {V} _ : assert.
Arguments c_apply_admitted_index {V} _ : assert.
Arguments c_pending_apply_index {V} _ : assert.
Arguments c_campaign_term {V} _ : assert.
Arguments c_heartbeat_ticks {V} _ : assert.
Arguments c_election_min_ticks {V} _ : assert.
Arguments c_election_max_ticks {V} _ : assert.
Arguments c_election_timeout_ticks {V} _ : assert.
Arguments c_election_elapsed_ticks {V} _ : assert.
Arguments c_heartbeat_elapsed_ticks {V} _ : assert.
Arguments c_check_quorum_elapsed_ticks {V} _ : assert.
Arguments c_recent_active {V} _ : assert.
Arguments c_paused_peers {V} _ : assert.
Arguments c_leadership_transfer_target {V} _ : assert.
Arguments c_leadership_transfer_elapsed_ticks {V} _ : assert.
Arguments c_leadership_transfer_sent {V} _ : assert.
Arguments c_pending_read_context_id {V} _ : assert.
Arguments c_pending_read_contexts {V} _ : assert.
Arguments c_pending_read_index {V} _ : assert.
Arguments c_pending_read_acks {V} _ : assert.
Arguments c_waiting_read_contexts {V} _ : assert.
Arguments c_max_pending_reads {V} _ : assert.
Arguments c_pre_votes {V} _ : assert.
Arguments c_votes {V} _ : assert.
Arguments c_next_index {V} _ : assert.
Arguments c_match_index {V} _ : assert.
Arguments c_append_windows {V} _ : assert.
Arguments c_max_inflight_append_requests {V} _ : assert.
Arguments c_ready_outstanding {V} _ : assert.
Arguments c_in_call {V} _ : assert.

(** The hard state at the start of a call. *)
Record tr_raft_before := Before {
  before_role : tr_raft_role;
  before_term : Z;
  before_voted_for : Z
}.

Definition message_eta (r : tr_raft_message) : tr_raft_message :=
  Message
    (m_type r) (m_from r) (m_to r) (m_term r) (m_campaign_term r)
    (m_last_log_index r) (m_last_log_term r) (m_leader_commit r)
    (m_previous_log_index r) (m_previous_log_term r) (m_match_index r)
    (m_reject_hint r) (m_entries r) (m_granted r) (m_context_id r).

#[export] Instance set_m_type : Setter m_type :=
  ltac:(setter message_eta m_type).
#[export] Instance set_m_from : Setter m_from :=
  ltac:(setter message_eta m_from).
#[export] Instance set_m_to : Setter m_to :=
  ltac:(setter message_eta m_to).
#[export] Instance set_m_term : Setter m_term :=
  ltac:(setter message_eta m_term).
#[export] Instance set_m_campaign_term : Setter m_campaign_term :=
  ltac:(setter message_eta m_campaign_term).
#[export] Instance set_m_last_log_index : Setter m_last_log_index :=
  ltac:(setter message_eta m_last_log_index).
#[export] Instance set_m_last_log_term : Setter m_last_log_term :=
  ltac:(setter message_eta m_last_log_term).
#[export] Instance set_m_leader_commit : Setter m_leader_commit :=
  ltac:(setter message_eta m_leader_commit).
#[export] Instance set_m_previous_log_index : Setter m_previous_log_index :=
  ltac:(setter message_eta m_previous_log_index).
#[export] Instance set_m_previous_log_term : Setter m_previous_log_term :=
  ltac:(setter message_eta m_previous_log_term).
#[export] Instance set_m_match_index : Setter m_match_index :=
  ltac:(setter message_eta m_match_index).
#[export] Instance set_m_reject_hint : Setter m_reject_hint :=
  ltac:(setter message_eta m_reject_hint).
#[export] Instance set_m_entries : Setter m_entries :=
  ltac:(setter message_eta m_entries).
#[export] Instance set_m_granted : Setter m_granted :=
  ltac:(setter message_eta m_granted).
#[export] Instance set_m_context_id : Setter m_context_id :=
  ltac:(setter message_eta m_context_id).

Definition ready_eta (r : tr_raft_ready) : tr_raft_ready :=
  Ready
    (r_has_buffer r) (r_messages r) (r_message_capacity r)
    (r_hard_state_changed r) (r_term r) (r_voted_for r) (r_role_changed r)
    (r_role r) (r_log_changed r) (r_log_truncate_from r) (r_log_entries r)
    (r_log_entry_count r) (r_commit_changed r) (r_commit_index r)
    (r_committed_entries r) (r_committed_entry_count r)
    (r_read_state_ready r) (r_read_state r) (r_read_states r)
    (r_snapshot_requests r).

#[export] Instance set_r_has_buffer : Setter r_has_buffer :=
  ltac:(setter ready_eta r_has_buffer).
#[export] Instance set_r_messages : Setter r_messages :=
  ltac:(setter ready_eta r_messages).
#[export] Instance set_r_message_capacity : Setter r_message_capacity :=
  ltac:(setter ready_eta r_message_capacity).
#[export] Instance set_r_hard_state_changed : Setter r_hard_state_changed :=
  ltac:(setter ready_eta r_hard_state_changed).
#[export] Instance set_r_term : Setter r_term :=
  ltac:(setter ready_eta r_term).
#[export] Instance set_r_voted_for : Setter r_voted_for :=
  ltac:(setter ready_eta r_voted_for).
#[export] Instance set_r_role_changed : Setter r_role_changed :=
  ltac:(setter ready_eta r_role_changed).
#[export] Instance set_r_role : Setter r_role :=
  ltac:(setter ready_eta r_role).
#[export] Instance set_r_log_changed : Setter r_log_changed :=
  ltac:(setter ready_eta r_log_changed).
#[export] Instance set_r_log_truncate_from : Setter r_log_truncate_from :=
  ltac:(setter ready_eta r_log_truncate_from).
#[export] Instance set_r_log_entries : Setter r_log_entries :=
  ltac:(setter ready_eta r_log_entries).
#[export] Instance set_r_log_entry_count : Setter r_log_entry_count :=
  ltac:(setter ready_eta r_log_entry_count).
#[export] Instance set_r_commit_changed : Setter r_commit_changed :=
  ltac:(setter ready_eta r_commit_changed).
#[export] Instance set_r_commit_index : Setter r_commit_index :=
  ltac:(setter ready_eta r_commit_index).
#[export] Instance set_r_committed_entries : Setter r_committed_entries :=
  ltac:(setter ready_eta r_committed_entries).
#[export] Instance set_r_committed_entry_count : Setter r_committed_entry_count :=
  ltac:(setter ready_eta r_committed_entry_count).
#[export] Instance set_r_read_state_ready : Setter r_read_state_ready :=
  ltac:(setter ready_eta r_read_state_ready).
#[export] Instance set_r_read_state : Setter r_read_state :=
  ltac:(setter ready_eta r_read_state).
#[export] Instance set_r_read_states : Setter r_read_states :=
  ltac:(setter ready_eta r_read_states).
#[export] Instance set_r_snapshot_requests : Setter r_snapshot_requests :=
  ltac:(setter ready_eta r_snapshot_requests).

Definition core_eta {V : Type} (r : tr_raft_core V) : tr_raft_core V :=
  Core
    (c_self_id r) (c_membership_transition r) (c_peers r) (c_self_is_voter r)
    (c_role r) (c_leader_id r) (c_term r) (c_voted_for r) (c_log r)
    (c_commit_index r) (c_applied_index r) (c_apply_admitted_index r)
    (c_pending_apply_index r) (c_campaign_term r) (c_heartbeat_ticks r)
    (c_election_min_ticks r) (c_election_max_ticks r)
    (c_election_timeout_ticks r) (c_election_elapsed_ticks r)
    (c_heartbeat_elapsed_ticks r) (c_check_quorum_elapsed_ticks r)
    (c_recent_active r) (c_paused_peers r) (c_leadership_transfer_target r)
    (c_leadership_transfer_elapsed_ticks r) (c_leadership_transfer_sent r)
    (c_pending_read_context_id r) (c_pending_read_contexts r)
    (c_pending_read_index r) (c_pending_read_acks r)
    (c_waiting_read_contexts r) (c_max_pending_reads r) (c_pre_votes r)
    (c_votes r) (c_next_index r) (c_match_index r) (c_append_windows r)
    (c_max_inflight_append_requests r) (c_ready_outstanding r) (c_in_call r).

#[export] Instance set_c_self_id {V : Type} : Setter (@c_self_id V) :=
  ltac:(setter (@core_eta V) (@c_self_id V)).
#[export] Instance set_c_membership_transition {V : Type} : Setter (@c_membership_transition V) :=
  ltac:(setter (@core_eta V) (@c_membership_transition V)).
#[export] Instance set_c_peers {V : Type} : Setter (@c_peers V) :=
  ltac:(setter (@core_eta V) (@c_peers V)).
#[export] Instance set_c_self_is_voter {V : Type} : Setter (@c_self_is_voter V) :=
  ltac:(setter (@core_eta V) (@c_self_is_voter V)).
#[export] Instance set_c_role {V : Type} : Setter (@c_role V) :=
  ltac:(setter (@core_eta V) (@c_role V)).
#[export] Instance set_c_leader_id {V : Type} : Setter (@c_leader_id V) :=
  ltac:(setter (@core_eta V) (@c_leader_id V)).
#[export] Instance set_c_term {V : Type} : Setter (@c_term V) :=
  ltac:(setter (@core_eta V) (@c_term V)).
#[export] Instance set_c_voted_for {V : Type} : Setter (@c_voted_for V) :=
  ltac:(setter (@core_eta V) (@c_voted_for V)).
#[export] Instance set_c_log {V : Type} : Setter (@c_log V) :=
  ltac:(setter (@core_eta V) (@c_log V)).
#[export] Instance set_c_commit_index {V : Type} : Setter (@c_commit_index V) :=
  ltac:(setter (@core_eta V) (@c_commit_index V)).
#[export] Instance set_c_applied_index {V : Type} : Setter (@c_applied_index V) :=
  ltac:(setter (@core_eta V) (@c_applied_index V)).
#[export] Instance set_c_apply_admitted_index {V : Type} : Setter (@c_apply_admitted_index V) :=
  ltac:(setter (@core_eta V) (@c_apply_admitted_index V)).
#[export] Instance set_c_pending_apply_index {V : Type} : Setter (@c_pending_apply_index V) :=
  ltac:(setter (@core_eta V) (@c_pending_apply_index V)).
#[export] Instance set_c_campaign_term {V : Type} : Setter (@c_campaign_term V) :=
  ltac:(setter (@core_eta V) (@c_campaign_term V)).
#[export] Instance set_c_heartbeat_ticks {V : Type} : Setter (@c_heartbeat_ticks V) :=
  ltac:(setter (@core_eta V) (@c_heartbeat_ticks V)).
#[export] Instance set_c_election_min_ticks {V : Type} : Setter (@c_election_min_ticks V) :=
  ltac:(setter (@core_eta V) (@c_election_min_ticks V)).
#[export] Instance set_c_election_max_ticks {V : Type} : Setter (@c_election_max_ticks V) :=
  ltac:(setter (@core_eta V) (@c_election_max_ticks V)).
#[export] Instance set_c_election_timeout_ticks {V : Type} : Setter (@c_election_timeout_ticks V) :=
  ltac:(setter (@core_eta V) (@c_election_timeout_ticks V)).
#[export] Instance set_c_election_elapsed_ticks {V : Type} : Setter (@c_election_elapsed_ticks V) :=
  ltac:(setter (@core_eta V) (@c_election_elapsed_ticks V)).
#[export] Instance set_c_heartbeat_elapsed_ticks {V : Type} : Setter (@c_heartbeat_elapsed_ticks V) :=
  ltac:(setter (@core_eta V) (@c_heartbeat_elapsed_ticks V)).
#[export] Instance set_c_check_quorum_elapsed_ticks {V : Type} : Setter (@c_check_quorum_elapsed_ticks V) :=
  ltac:(setter (@core_eta V) (@c_check_quorum_elapsed_ticks V)).
#[export] Instance set_c_recent_active {V : Type} : Setter (@c_recent_active V) :=
  ltac:(setter (@core_eta V) (@c_recent_active V)).
#[export] Instance set_c_paused_peers {V : Type} : Setter (@c_paused_peers V) :=
  ltac:(setter (@core_eta V) (@c_paused_peers V)).
#[export] Instance set_c_leadership_transfer_target {V : Type} : Setter (@c_leadership_transfer_target V) :=
  ltac:(setter (@core_eta V) (@c_leadership_transfer_target V)).
#[export] Instance set_c_leadership_transfer_elapsed_ticks {V : Type} : Setter (@c_leadership_transfer_elapsed_ticks V) :=
  ltac:(setter (@core_eta V) (@c_leadership_transfer_elapsed_ticks V)).
#[export] Instance set_c_leadership_transfer_sent {V : Type} : Setter (@c_leadership_transfer_sent V) :=
  ltac:(setter (@core_eta V) (@c_leadership_transfer_sent V)).
#[export] Instance set_c_pending_read_context_id {V : Type} : Setter (@c_pending_read_context_id V) :=
  ltac:(setter (@core_eta V) (@c_pending_read_context_id V)).
#[export] Instance set_c_pending_read_contexts {V : Type} : Setter (@c_pending_read_contexts V) :=
  ltac:(setter (@core_eta V) (@c_pending_read_contexts V)).
#[export] Instance set_c_pending_read_index {V : Type} : Setter (@c_pending_read_index V) :=
  ltac:(setter (@core_eta V) (@c_pending_read_index V)).
#[export] Instance set_c_pending_read_acks {V : Type} : Setter (@c_pending_read_acks V) :=
  ltac:(setter (@core_eta V) (@c_pending_read_acks V)).
#[export] Instance set_c_waiting_read_contexts {V : Type} : Setter (@c_waiting_read_contexts V) :=
  ltac:(setter (@core_eta V) (@c_waiting_read_contexts V)).
#[export] Instance set_c_max_pending_reads {V : Type} : Setter (@c_max_pending_reads V) :=
  ltac:(setter (@core_eta V) (@c_max_pending_reads V)).
#[export] Instance set_c_pre_votes {V : Type} : Setter (@c_pre_votes V) :=
  ltac:(setter (@core_eta V) (@c_pre_votes V)).
#[export] Instance set_c_votes {V : Type} : Setter (@c_votes V) :=
  ltac:(setter (@core_eta V) (@c_votes V)).
#[export] Instance set_c_next_index {V : Type} : Setter (@c_next_index V) :=
  ltac:(setter (@core_eta V) (@c_next_index V)).
#[export] Instance set_c_match_index {V : Type} : Setter (@c_match_index V) :=
  ltac:(setter (@core_eta V) (@c_match_index V)).
#[export] Instance set_c_append_windows {V : Type} : Setter (@c_append_windows V) :=
  ltac:(setter (@core_eta V) (@c_append_windows V)).
#[export] Instance set_c_max_inflight_append_requests {V : Type} : Setter (@c_max_inflight_append_requests V) :=
  ltac:(setter (@core_eta V) (@c_max_inflight_append_requests V)).
#[export] Instance set_c_ready_outstanding {V : Type} : Setter (@c_ready_outstanding V) :=
  ltac:(setter (@core_eta V) (@c_ready_outstanding V)).
#[export] Instance set_c_in_call {V : Type} : Setter (@c_in_call V) :=
  ltac:(setter (@core_eta V) (@c_in_call V)).

(** Reads of updated records. *)
Ltac record_simpl :=
  cbn [
    set_field m_type m_from m_to m_term m_campaign_term m_last_log_index
    m_last_log_term m_leader_commit m_previous_log_index m_previous_log_term
    m_match_index m_reject_hint m_entries m_granted m_context_id set_m_type
    set_m_from set_m_to set_m_term set_m_campaign_term set_m_last_log_index
    set_m_last_log_term set_m_leader_commit set_m_previous_log_index
    set_m_previous_log_term set_m_match_index set_m_reject_hint set_m_entries
    set_m_granted set_m_context_id r_has_buffer r_messages r_message_capacity
    r_hard_state_changed r_term r_voted_for r_role_changed r_role
    r_log_changed r_log_truncate_from r_log_entries r_log_entry_count
    r_commit_changed r_commit_index r_committed_entries
    r_committed_entry_count r_read_state_ready r_read_state r_read_states
    r_snapshot_requests set_r_has_buffer set_r_messages
    set_r_message_capacity set_r_hard_state_changed set_r_term
    set_r_voted_for set_r_role_changed set_r_role set_r_log_changed
    set_r_log_truncate_from set_r_log_entries set_r_log_entry_count
    set_r_commit_changed set_r_commit_index set_r_committed_entries
    set_r_committed_entry_count set_r_read_state_ready set_r_read_state
    set_r_read_states set_r_snapshot_requests c_self_id
    c_membership_transition c_peers c_self_is_voter c_role c_leader_id c_term
    c_voted_for c_log c_commit_index c_applied_index c_apply_admitted_index
    c_pending_apply_index c_campaign_term c_heartbeat_ticks
    c_election_min_ticks c_election_max_ticks c_election_timeout_ticks
    c_election_elapsed_ticks c_heartbeat_elapsed_ticks
    c_check_quorum_elapsed_ticks c_recent_active c_paused_peers
    c_leadership_transfer_target c_leadership_transfer_elapsed_ticks
    c_leadership_transfer_sent c_pending_read_context_id
    c_pending_read_contexts c_pending_read_index c_pending_read_acks
    c_waiting_read_contexts c_max_pending_reads c_pre_votes c_votes
    c_next_index c_match_index c_append_windows
    c_max_inflight_append_requests c_ready_outstanding c_in_call
    set_c_self_id set_c_membership_transition set_c_peers set_c_self_is_voter
    set_c_role set_c_leader_id set_c_term set_c_voted_for set_c_log
    set_c_commit_index set_c_applied_index set_c_apply_admitted_index
    set_c_pending_apply_index set_c_campaign_term set_c_heartbeat_ticks
    set_c_election_min_ticks set_c_election_max_ticks
    set_c_election_timeout_ticks set_c_election_elapsed_ticks
    set_c_heartbeat_elapsed_ticks set_c_check_quorum_elapsed_ticks
    set_c_recent_active set_c_paused_peers set_c_leadership_transfer_target
    set_c_leadership_transfer_elapsed_ticks set_c_leadership_transfer_sent
    set_c_pending_read_context_id set_c_pending_read_contexts
    set_c_pending_read_index set_c_pending_read_acks
    set_c_waiting_read_contexts set_c_max_pending_reads set_c_pre_votes
    set_c_votes set_c_next_index set_c_match_index set_c_append_windows
    set_c_max_inflight_append_requests set_c_ready_outstanding set_c_in_call] in *.

Definition zero_message : tr_raft_message :=
  Message TR_RAFT_MSG_PRE_VOTE_REQUEST 0 0 0 0 0 0 0 0 0 0 0 [] false 0.

(** [memset] of everything but the message buffer. *)
Definition tr_reset_ready (r : tr_raft_ready) : tr_raft_ready :=
  Ready (r_has_buffer r) [] (r_message_capacity r) false 0 0 false TR_RAFT_FOLLOWER
    false 0 [] 0 false 0 [] 0 false (ReadState 0 0) [] [].

Definition r_message_count (r : tr_raft_ready) : Z := Z.of_nat (length (r_messages r)).
Definition r_snapshot_request_count (r : tr_raft_ready) : Z :=
  Z.of_nat (length (r_snapshot_requests r)).

(** [ready->messages[message_count - 1]] changed by [f]. *)
Definition update_last (f : tr_raft_message -> tr_raft_message) (r : tr_raft_ready)
    : tr_raft_ready :=
  r <| r_messages := alter f (pred (length (r_messages r))) (r_messages r) |>.

Section Core.
Context {V : Type} `{VecOps V}.
Implicit Types c : tr_raft_core V.

(** ** Reading the core *)

Definition tr_timeout_valid c (timeout : Z) : bool :=
  (c_election_min_ticks c <=? timeout) && (timeout <=? c_election_max_ticks c).

Definition tr_core_membership c : tr_raft_conf :=
  tr_raft_membership_transition_committed (c_membership_transition c).

Definition tr_voter_index c (node_id : Z) : Z :=
  let index := tr_raft_peer_set_index (c_peers c) node_id in
  if (0 <=? index) && tr_raft_membership_is_voter (tr_core_membership c) node_id
  then index else -1.

Definition tr_peer_count c : Z := Z.of_nat (length (c_peers c)).

(** [0 .. peer_count - 1] *)
Definition peer_indices c : list Z := Z.of_nat <$> seq 0 (length (c_peers c)).

Definition tr_peer_id c (peer_index : Z) : Z := array_get 0 (c_peers c) peer_index.

Definition tr_peer_index c (node_id : Z) : Z :=
  tr_raft_peer_set_index (c_peers c) node_id.

Definition tr_peer_index_paused c (peer_index : Z) : bool :=
  (peer_index <? tr_peer_count c) && has_bit (c_paused_peers c) peer_index.

Definition tr_peer_paused c (node_id : Z) : bool :=
  let peer_index := tr_peer_index c node_id in
  (0 <=? peer_index) && tr_peer_index_paused c peer_index.

Definition tr_unpaused_remote_peer_count c : Z :=
  countb (fun index => negb (tr_peer_id c index =? c_self_id c) &&
                       negb (tr_peer_index_paused c index))
    (peer_indices c).

Definition tr_unpaused_remote_voter_count c : Z :=
  countb (fun index =>
            let node_id := tr_peer_id c index in
            negb (node_id =? c_self_id c) &&
            tr_raft_membership_is_voter (tr_core_membership c) node_id &&
            negb (tr_peer_index_paused c index))
    (peer_indices c).

Definition tr_peer_set_unpaused_remote_count c (peers : tr_raft_peer_set) : Z :=
  countb (fun node_id => negb (node_id =? c_self_id c) && negb (tr_peer_paused c node_id))
    peers.

Definition tr_core_voter_count c : Z :=
  let membership := tr_core_membership c in
  countb (fun m => tr_raft_membership_is_voter membership (member_node_id m))
    (conf_members membership).

Definition tr_core_learner_count c : Z :=
  countb (fun m => member_roles m =? TR_RAFT_CONF_LEARNER)
    (conf_members (tr_core_membership c)).

(** The masks of [tr_core_has_quorum] and the matches of
    [tr_core_match_quorum], over the members from position [index] on. *)
Fixpoint membership_mask c (acks index : Z) (members : list tr_raft_conf_member)
    (mask : Z) : Z :=
  match members with
  | [] => mask
  | m :: rest =>
      let peer_index := tr_peer_index c (member_node_id m) in
      membership_mask c acks (index + 1) rest
        (if (0 <=? peer_index) && has_bit acks peer_index
         then Z.lor mask (bit32 index) else mask)
  end.

Definition tr_core_has_quorum c (peer_acknowledgements : Z) : bool :=
  let membership := tr_core_membership c in
  tr_raft_membership_has_quorum membership
    (membership_mask c peer_acknowledgements 0 (conf_members membership) 0).

Definition membership_matches c (members : list tr_raft_conf_member) : list Z :=
  (fun m => let peer_index := tr_peer_index c (member_node_id m) in
            if 0 <=? peer_index then array_get 0 (c_match_index c) peer_index else 0)
  <$> members.

Definition tr_core_match_quorum c (candidate_index : Z) : bool :=
  let membership := tr_core_membership c in
  tr_raft_membership_match_quorum membership
    (membership_matches c (conf_members membership)) candidate_index.

Definition tr_core_build_peer_set (t : tr_raft_membership_transition)
    : status * tr_raft_peer_set :=
  tr_raft_peer_set_build
    (tr_raft_membership_transition_committed t :: (fst <$> mt_pending t)).

Definition tr_log_is_up_to_date c (m : tr_raft_message) : bool :=
  let last_term := tr_raft_log_last_term (c_log c) in
  if negb (m_last_log_term m =? last_term) then last_term <? m_last_log_term m
  else tr_raft_log_last_index (c_log c) <=? m_last_log_index m.

(** ** Peer progress *)

Definition window_at c (peer_index : Z) : tr_raft_append_window :=
  array_get zero_window (c_append_windows c) peer_index.
Definition next_at c (peer_index : Z) : Z := array_get 0 (c_next_index c) peer_index.
Definition match_at c (peer_index : Z) : Z := array_get 0 (c_match_index c) peer_index.

Definition set_window c (peer_index : Z) (w : tr_raft_append_window) : tr_raft_core V :=
  c <| c_append_windows := array_set (c_append_windows c) peer_index w |>.
Definition set_next c (peer_index index : Z) : tr_raft_core V :=
  c <| c_next_index := array_set (c_next_index c) peer_index index |>.
Definition set_match c (peer_index index : Z) : tr_raft_core V :=
  c <| c_match_index := array_set (c_match_index c) peer_index index |>.

Definition max_voters : nat := Z.to_nat TR_RAFT_MAX_VOTERS.

(** One iteration of the loop of [tr_core_refresh_peers]. *)
Definition refresh_peer (old_peers : tr_raft_peer_set) (old_match : list Z)
    (old_recent_active old_paused_peers last_index : Z) (index : Z) c : tr_raft_core V :=
  let old_index := tr_raft_peer_set_index old_peers (tr_peer_id c index) in
  let c := set_next c index (last_index +64 1) in
  let w := window_at c index in
  let c := set_window c index (Window (w_items w) (w_head w) (w_count w) true) in
  if old_index <? 0 then c
  else
    let c := set_match c index (array_get 0 old_match old_index) in
    let c := set_next c index (array_get 0 old_match old_index +64 1) in
    let c := if has_bit old_recent_active old_index
             then c <| c_recent_active := Z.lor (c_recent_active c) (bit32 index) |>
             else c in
    if has_bit old_paused_peers old_index
    then c <| c_paused_peers := Z.lor (c_paused_peers c) (bit32 index) |>
    else c.

Definition tr_core_refresh_peers c (next_peers : tr_raft_peer_set) : tr_raft_core V :=
  let last_index := tr_raft_log_last_index (c_log c) in
  if bool_decide (c_peers c = next_peers) then c
  else
    let old := c in
    let c := c <| c_next_index := replicate max_voters 0 |>
               <| c_match_index := replicate max_voters 0 |>
               <| c_append_windows := replicate max_voters zero_window |>
               <| c_recent_active := 0 |> <| c_paused_peers := 0 |>
               <| c_peers := next_peers |> in
    let c := fold_left
               (fun c index =>
                  refresh_peer (c_peers old) (c_match_index old)
                    (c_recent_active old) (c_paused_peers old) last_index index c)
               (peer_indices c) c in
    if role_eqb (c_role c) TR_RAFT_LEADER then
      let self_index := tr_peer_index c (c_self_id c) in
      if 0 <=? self_index then
        let c := set_match c self_index last_index in
        let c := set_next c self_index (last_index +64 1) in
        let c := set_window c self_index (tr_append_window_reset false) in
        c <| c_recent_active := Z.lor (c_recent_active c) (bit32 self_index) |>
      else c
    else c.

(** ** Reads *)

Definition c_pending_read_count c : Z := Z.of_nat (length (c_pending_read_contexts c)).
Definition c_waiting_read_count c : Z := Z.of_nat (length (c_waiting_read_contexts c)).

Definition tr_read_total_count c : Z := c_pending_read_count c + c_waiting_read_count c.

Definition tr_read_context_exists c (context_id : Z) : bool :=
  existsb (Z.eqb context_id) (c_pending_read_contexts c) ||
  existsb (Z.eqb context_id) (c_waiting_read_contexts c).

Definition tr_read_clear_active c : tr_raft_core V :=
  c <| c_pending_read_context_id := 0 |> <| c_pending_read_index := 0 |>
    <| c_pending_read_acks := 0 |> <| c_pending_read_contexts := [] |>.

Definition tr_read_reset_all c : tr_raft_core V :=
  (tr_read_clear_active c) <| c_waiting_read_contexts := [] |>.

(** ** Stepping down *)

Definition tr_become_follower c (term : Z) : tr_raft_core V :=
  let c := if c_term c <? term
           then c <| c_term := term |> <| c_voted_for := 0 |> else c in
  let c := c <| c_role := TR_RAFT_FOLLOWER |> <| c_leader_id := 0 |>
             <| c_campaign_term := 0 |> <| c_pre_votes := 0 |> <| c_votes := 0 |>
             <| c_election_elapsed_ticks := 0 |> <| c_heartbeat_elapsed_ticks := 0 |>
             <| c_check_quorum_elapsed_ticks := 0 |> <| c_recent_active := 0 |>
             <| c_leadership_transfer_target := 0 |>
             <| c_leadership_transfer_elapsed_ticks := 0 |>
             <| c_leadership_transfer_sent := false |> in
  let c := tr_read_reset_all c in
  c <| c_append_windows := replicate max_voters (tr_append_window_reset true) |>.

(** ** Following the membership *)

Definition tr_core_sync_membership c : status * tr_raft_core V :=
  match tr_core_build_peer_set (c_membership_transition c) with
  | (SALTS_OK, peers) =>
      let c := tr_core_refresh_peers c peers in
      let c := c <| c_self_is_voter :=
                      tr_raft_membership_is_voter (tr_core_membership c) (c_self_id c) |> in
      let c := if negb (c_self_is_voter c) && role_eqb (c_role c) TR_RAFT_LEADER
               then tr_become_follower c (c_term c) else c in
      (SALTS_OK, c)
  | (result, _) => (result, c)
  end.

(** The entries at indices [first .. first + count - 1] of the log. *)
Definition log_range (log : tr_raft_log V) (first : Z) (count : nat)
    : list (option tr_raft_entry) :=
  (fun k => tr_raft_log_get log (first + Z.of_nat k)) <$> seq 0 count.

(** Stages the configuration entries of [entries], as the loops over the log
    and over the incoming entries do. A null entry is skipped. *)
Fixpoint stage_entries (t : tr_raft_membership_transition)
    (entries : list (option tr_raft_entry)) : status * tr_raft_membership_transition :=
  match entries with
  | [] => (SALTS_OK, t)
  | Some e :: rest =>
      if tr_raft_conf_entry_is_configuration e then
        match tr_raft_membership_transition_stage_entry t e with
        | (SALTS_OK, t) => stage_entries t rest
        | (result, t) => (result, t)
        end
      else stage_entries t rest
  | None :: rest => stage_entries t rest
  end.

Definition tr_core_replay_membership_log c : status * tr_raft_core V :=
  let first := log_base_index (c_log c) + 1 in
  let entries := log_range (c_log c) first
                   (Z.to_nat (tr_raft_log_last_index (c_log c) - first + 1)) in
  match stage_entries (c_membership_transition c) entries with
  | (SALTS_OK, t) =>
      match tr_raft_membership_transition_apply t (c_commit_index c) with
      | (SALTS_OK, t) => tr_core_sync_membership (c <| c_membership_transition := t |>)
      | (result, t) => (result, c <| c_membership_transition := t |>)
      end
  | (result, t) => (result, c <| c_membership_transition := t |>)
  end.

Definition tr_core_rebuild_pending_transition c (retained_through : Z)
    (incoming : list tr_raft_entry) : status * tr_raft_membership_transition :=
  let rebuilt := Transition (mt_committed (c_membership_transition c)) [] in
  let first := c_commit_index c + 1 in
  let last := Z.min retained_through (tr_raft_log_last_index (c_log c)) in
  match stage_entries rebuilt
          (log_range (c_log c) first (Z.to_nat (last - first + 1))) with
  | (SALTS_OK, rebuilt) =>
      stage_entries rebuilt
        (Some <$> List.filter (fun e => c_commit_index c <? entry_index e) incoming)
  | (result, rebuilt) => (result, rebuilt)
  end.

End Core.
