(* ===== verification/WireBinding.v ===== *)
(** * Wire frames through generated code: [src/wire/raft_wire_codec.c] over
      [src/wire/generated/]

    Raft messages, snapshot chunks and snapshot acknowledgements are encoded
    with the accessors generated from [schema/*.schema]. These are offsets into
    a buffer; they call the DataBind library, which is not part of the sources:
    [WireLib] are the calls, [WireLaws] what the codec relies on (words of a
    fixed width, bytes with a 32-bit length before them, and the serializer of
    a whole message). [WireLittle.little_wire] is an instance. *)

From S2P Require Import Prelude Configuration Bytes Vec CoreState Wire.
From Stdlib Require Import ZArith Lia.
From stdpp Require Import base numbers list tactics.
Open Scope Z_scope.
Open Scope raft_scope.

(** ** The generated message *)

(** One of the eight entry slots of [RaftWireMessageV3_t]. *)
Record wire_entry := WireEntry {
  we_index : Z;
  we_term : Z;
  we_command_id : Z;
  we_data : list Z
}.

Definition zero_wire_entry : wire_entry := WireEntry 0 0 0 [].

(** [RaftWireMessageV3_t]; [w_entries] are the eight slots. *)
Record RaftWireMessageV3 := WireMessage {
  w_message_type : Z;
  w_granted : Z;
  w_reserved : Z;
  w_entry_count : Z;
  w_from_node : Z;
  w_to_node : Z;
  w_term : Z;
  w_campaign_term : Z;
  w_last_log_index : Z;
  w_last_log_term : Z;
  w_leader_commit : Z;
  w_previous_log_index : Z;
  w_previous_log_term : Z;
  w_match_index : Z;
  w_reject_hint : Z;
  w_entries : list wire_entry
}.

(** ** The library

    [wl_write n v] and [wl_read n input] are the [write] and [read] calls for
    words of [n] bytes. [wl_write_var capacity data] returns the bytes written;
    [wl_read_var input] returns the data and the distance to its end.
    [wl_resize] is the status of [vec_resize] on the bytes of a slot, and
    [wl_to_bin w capacity] the status, length and bytes of
    [RaftWireMessageV3_to_bin_into]. *)
Class WireLib := {
  wl_write : nat -> Z -> list Z;
  wl_read : nat -> list Z -> Z;
  wl_write_var : Z -> list Z -> option (list Z);
  wl_read_var : list Z -> option (list Z * nat);
  wl_resize : Z -> stl_status;
  wl_to_bin : RaftWireMessageV3 -> Z -> bool * Z * list Z
}.

Definition word_width (n : nat) : Prop := (n = 1 \/ n = 2 \/ n = 4 \/ n = 8)%nat.

(** Bytes with their length before them. *)
Definition var_field `{WireLib} (data : list Z) : list Z :=
  wl_write 4 (Z.of_nat (length data)) ++ data.

(** The fields of a slot in the block of fixed size. *)
Definition wire_slot `{WireLib} (e : wire_entry) : list Z :=
  wl_write 8 (we_index e) ++ wl_write 8 (we_term e) ++ wl_write 8 (we_command_id e).

(** The canonical binary form of a message: the block of 288 bytes, then the
    data of the slots. *)
Definition wire_layout `{WireLib} (w : RaftWireMessageV3) : list Z :=
  wl_write 1 (w_message_type w) ++ wl_write 1 (w_granted w) ++ wl_write 2 (w_reserved w) ++
  wl_write 4 (w_entry_count w) ++ wl_write 8 (w_from_node w) ++ wl_write 8 (w_to_node w) ++
  wl_write 8 (w_term w) ++ wl_write 8 (w_campaign_term w) ++ wl_write 8 (w_last_log_index w) ++
  wl_write 8 (w_last_log_term w) ++ wl_write 8 (w_leader_commit w) ++
  wl_write 8 (w_previous_log_index w) ++ wl_write 8 (w_previous_log_term w) ++
  wl_write 8 (w_match_index w) ++ wl_write 8 (w_reject_hint w) ++
  concat (wire_slot <$> w_entries w) ++ concat (var_field <$> (we_data <$> w_entries w)).

Class WireLaws `{WireLib} := {
  wl_write_length n v : word_width n -> length (wl_write n v) = n;
  wl_write_bytes n v : word_width n -> Forall is_byte (wl_write n v);
  wl_read_write n v rest :
    word_width n -> 0 <= v < 2 ^ (8 * Z.of_nat n) -> wl_read n (wl_write n v ++ rest) = v;
  wl_write_read n input :
    word_width n -> (n <= length input)%nat -> Forall is_byte input ->
    0 <= wl_read n input < 2 ^ (8 * Z.of_nat n) /\ wl_write n (wl_read n input) = take n input;
  wl_write_var_fits capacity data :
    4 + Z.of_nat (length data) <= capacity -> Z.of_nat (length data) < 2 ^ 32 ->
    wl_write_var capacity data = Some (var_field data);
  wl_read_var_field data rest :
    Z.of_nat (length data) < 2 ^ 32 ->
    wl_read_var (var_field data ++ rest) = Some (data, (4 + length data)%nat);
  wl_read_var_inv input data n :
    Forall is_byte input -> wl_read_var input = Some (data, n) ->
    n = (4 + length data)%nat /\ Z.of_nat (length data) < 2 ^ 32 /\
    input = var_field data ++ drop n input;
  wl_to_bin_fits w capacity :
    length (w_entries w) = 8%nat -> Z.of_nat (length (wire_layout w)) <= capacity ->
    wl_to_bin w capacity = (true, Z.of_nat (length (wire_layout w)), wire_layout w)
}.

Section Binding.
Context `{WireLib}.

(** ** Accessors

    A builder is the buffer it writes; a setter fails when the buffer is too
    short for the field. *)

Definition builder_set (offset width : nat) (value : Z) (buffer : list Z)
    : option (list Z) :=
  if Z.of_nat (length buffer) <? Z.of_nat (offset + width) then None
  else Some (store offset (wl_write width value) buffer).

(** The setter of the bytes at [offset]. *)
Definition builder_set_var (offset : nat) (data buffer : list Z) : option (list Z) :=
  if (length buffer <? offset)%nat then None
  else
    match wl_write_var (Z.of_nat (length buffer) - Z.of_nat offset) data with
    | Some bytes => Some (store offset bytes buffer)
    | None => None
    end.

(** The bytes at [offset] and the offset of their end. *)
Definition view_var (view : list Z) (offset : nat) : option (list Z * nat) :=
  if (length view <? offset)%nat then None
  else
    match wl_read_var (drop offset view) with
    | Some (data, n) => Some (data, (offset + n)%nat)
    | None => None
    end.

Definition view_get (view : list Z) (offset width : nat) : Z :=
  wl_read width (drop offset view).

(** *** [InstallSnapshotChunk] *)

Definition InstallSnapshotChunk_BLOCK_LENGTH : nat := 57.

Definition InstallSnapshotChunk_view_bind (data : list Z) : bool :=
  negb (length data <? InstallSnapshotChunk_BLOCK_LENGTH)%nat.

Definition InstallSnapshotChunk_snapshot_configuration (view : list Z) :=
  view_var view InstallSnapshotChunk_BLOCK_LENGTH.

Definition InstallSnapshotChunk_snapshot_digest (view : list Z) :=
  match InstallSnapshotChunk_snapshot_configuration view with
  | Some (_, payload_offset) => view_var view payload_offset
  | None => None
  end.

Definition InstallSnapshotChunk_chunk_data (view : list Z) :=
  match InstallSnapshotChunk_snapshot_digest view with
  | Some (_, payload_offset) => view_var view payload_offset
  | None => None
  end.

Definition InstallSnapshotChunk_snapshot_configuration_set (data buffer : list Z) :=
  builder_set_var InstallSnapshotChunk_BLOCK_LENGTH data buffer.

Definition InstallSnapshotChunk_snapshot_digest_set (data buffer : list Z) :=
  match InstallSnapshotChunk_snapshot_configuration buffer with
  | Some (_, payload_offset) => builder_set_var payload_offset data buffer
  | None => None
  end.

(** *** [InstallSnapshotAck] *)

Definition InstallSnapshotAck_BLOCK_LENGTH : nat := 49.

Definition InstallSnapshotAck_view_bind (data : list Z) : bool :=
  negb (length data <? InstallSnapshotAck_BLOCK_LENGTH)%nat.

Definition InstallSnapshotAck_snapshot_digest (view : list Z) :=
  view_var view InstallSnapshotAck_BLOCK_LENGTH.

Definition InstallSnapshotAck_snapshot_digest_set (data buffer : list Z) :=
  builder_set_var InstallSnapshotAck_BLOCK_LENGTH data buffer.

(** ** Snapshot acknowledgements *)

(** The setters of the block, in order. *)
Definition snapshot_ack_block_set (a : tr_raft_snapshot_ack) (buffer : list Z)
    : option (list Z) :=
  buffer ← builder_set 0 8 (sa_from a) buffer;
  buffer ← builder_set 8 8 (sa_to a) buffer;
  buffer ← builder_set 16 8 (sa_term a) buffer;
  buffer ← builder_set 24 8 (sa_snapshot_index a) buffer;
  buffer ← builder_set 32 8 (sa_snapshot_size a) buffer;
  buffer ← builder_set 40 8 (sa_next_offset a) buffer;
  builder_set 48 1 (flag (sa_accepted a)) buffer.

(** [output] are the bytes of the buffer before the call. *)
Definition tr_raft_wire_encode_snapshot_ack (md : tr_raft_wire_metadata)
    (a : tr_raft_snapshot_ack) (output : list Z) : status * Z * option (list Z) :=
  let payload_length :=
    Z.of_nat InstallSnapshotAck_BLOCK_LENGTH + 4 + TR_RAFT_WIRE_SNAPSHOT_DIGEST_SIZE in
  if negb (tr_wire_metadata_valid md) || negb (tr_snapshot_ack_valid a)
  then (SALTS_EINVAL, 0, None)
  else
    let output_length := TR_RAFT_WIRE_HEADER_SIZE + payload_length in
    if (tr_wire_payload_limit TR_RAFT_WIRE_PAYLOAD_SNAPSHOT_ACK <? payload_length) ||
       (frame_length output <? output_length)
    then (SALTS_ENOSPC, output_length, None)
    else
      let payload := drop 48 output in
      if negb (InstallSnapshotAck_view_bind payload) then (SALTS_EPROTO, output_length, None)
      else
        match (payload ← snapshot_ack_block_set a payload;
               InstallSnapshotAck_snapshot_digest_set (sa_snapshot_digest a) payload) with
        | None => (SALTS_EPROTO, output_length, None)
        | Some payload =>
            (SALTS_OK, output_length,
             Some (take (Z.to_nat output_length)
                     (tr_wire_write_envelope TR_RAFT_WIRE_PAYLOAD_SNAPSHOT_ACK
                        payload_length md ++ payload)))
        end.

Definition tr_raft_wire_decode_snapshot_ack (frame : list Z)
    : status * option (tr_raft_wire_metadata * tr_raft_snapshot_ack) :=
  if frame_length frame <? TR_RAFT_WIRE_HEADER_SIZE then (SALTS_EINVAL, None)
  else
    match tr_wire_read_envelope frame TR_RAFT_WIRE_PAYLOAD_SNAPSHOT_ACK with
    | (SALTS_OK, Some (md, payload_length)) =>
        let wire := take (Z.to_nat payload_length) (drop 48 frame) in
        if negb (InstallSnapshotAck_view_bind wire) then (SALTS_EPROTO, None)
        else
          match InstallSnapshotAck_snapshot_digest wire with
          | Some (digest, digest_end) =>
              if negb (digest_end =? length wire)%nat || (1 <? view_get wire 48 1) ||
                 negb (Z.of_nat (length digest) =? TR_RAFT_WIRE_SNAPSHOT_DIGEST_SIZE)
              then (SALTS_EPROTO, None)
              else
                let a := SnapshotAck (view_get wire 0 8) (view_get wire 8 8)
                           (view_get wire 16 8) (view_get wire 24 8) (view_get wire 32 8)
                           (view_get wire 40 8) digest (negb (view_get wire 48 1 =? 0)) in
                if tr_snapshot_ack_valid a then (SALTS_OK, Some (md, a))
                else (SALTS_EPROTO, None)
          | None => (SALTS_EPROTO, None)
          end
    | _ => (SALTS_EPROTO, None)
    end.

(** ** Snapshot chunks *)

Definition SIZE_MAX : Z := UINT64_MAX.

Definition snapshot_chunk_block_set (c : tr_raft_snapshot_chunk) (buffer : list Z)
    : option (list Z) :=
  buffer ← builder_set 0 8 (sc_from c) buffer;
  buffer ← builder_set 8 8 (sc_to c) buffer;
  buffer ← builder_set 16 8 (sc_term c) buffer;
  buffer ← builder_set 24 8 (sc_snapshot_index c) buffer;
  buffer ← builder_set 32 8 (sc_snapshot_term c) buffer;
  buffer ← builder_set 40 8 (sc_snapshot_offset c) buffer;
  buffer ← builder_set 48 8 (sc_snapshot_size c) buffer;
  builder_set 56 1 (flag (sc_done c)) buffer.

(** The configuration bytes of a chunk: status and bytes. *)
Definition snapshot_chunk_configuration (c : tr_raft_snapshot_chunk) : status * list Z :=
  if sc_has_configuration c then
    match tr_raft_conf_encode (sc_configuration c)
            (TR_RAFT_CONF_HEADER_SIZE + TR_RAFT_CONF_MEMBER_SIZE * TR_RAFT_MAX_MEMBERS) with
    | (SALTS_OK, _, Some bytes) => (SALTS_OK, bytes)
    | (result, _, _) => (result, [])
    end
  else (SALTS_OK, []).

(** Status, [*out_prefix_length], [*out_frame_length] and the prefix. *)
Definition tr_raft_wire_encode_snapshot_chunk_prefix (md : tr_raft_wire_metadata)
    (c : tr_raft_snapshot_chunk) (output : list Z) : status * Z * Z * option (list Z) :=
  if negb (tr_wire_metadata_valid md) || negb (tr_snapshot_chunk_valid c)
  then (SALTS_EINVAL, 0, 0, None)
  else
    match snapshot_chunk_configuration c with
    | (SALTS_OK, encoded_configuration) =>
        let expected :=
          Z.of_nat InstallSnapshotChunk_BLOCK_LENGTH + 12 +
          Z.of_nat (length encoded_configuration) + TR_RAFT_WIRE_SNAPSHOT_DIGEST_SIZE in
        if (SIZE_MAX - TR_RAFT_WIRE_HEADER_SIZE <? expected) ||
           (SIZE_MAX - TR_RAFT_WIRE_HEADER_SIZE - expected <? sc_data_length c)
        then (SALTS_EPROTO, 0, 0, None)
        else
          let prefix_length := TR_RAFT_WIRE_HEADER_SIZE + expected in
          let total_length := prefix_length + sc_data_length c in
          if frame_length output <? prefix_length
          then (SALTS_ENOSPC, prefix_length, total_length, None)
          else
            let fail := (SALTS_EPROTO, prefix_length, total_length, None) in
            let payload := drop 48 output in
            if negb (InstallSnapshotChunk_view_bind payload) then fail
            else
              match (payload ← snapshot_chunk_block_set c payload;
                     payload ← InstallSnapshotChunk_snapshot_configuration_set
                                 encoded_configuration payload;
                     InstallSnapshotChunk_snapshot_digest_set (sc_snapshot_digest c)
                       payload) with
              | None => fail
              | Some payload =>
                  match InstallSnapshotChunk_snapshot_digest payload with
                  | None => fail
                  | Some (_, chunk_length_prefix) =>
                      let limit :=
                        tr_wire_payload_limit TR_RAFT_WIRE_PAYLOAD_SNAPSHOT_CHUNK in
                      let prefix_payload_length := Z.of_nat chunk_length_prefix + 4 in
                      if (length payload <? chunk_length_prefix)%nat ||
                         (SIZE_MAX - 4 <? Z.of_nat chunk_length_prefix) ||
                         negb (prefix_payload_length =? expected) ||
                         (limit <? prefix_payload_length) ||
                         (limit - prefix_payload_length <? sc_data_length c)
                      then fail
                      else
                        let payload :=
                          store chunk_length_prefix (wl_write 4 (u32 (sc_data_length c)))
                            payload in
                        (SALTS_OK, prefix_length, total_length,
                         Some (take (Z.to_nat prefix_length)
                                 (tr_wire_write_envelope TR_RAFT_WIRE_PAYLOAD_SNAPSHOT_CHUNK
                                    (prefix_payload_length + sc_data_length c) md ++ payload)))
                  end
              end
    | (result, _) => (result, 0, 0, None)
    end.

Definition tr_raft_wire_encode_snapshot_chunk (md : tr_raft_wire_metadata)
    (c : tr_raft_snapshot_chunk) (output : list Z) : status * Z * option (list Z) :=
  if negb (tr_wire_metadata_valid md) || negb (tr_snapshot_chunk_valid c)
  then (SALTS_EINVAL, 0, None)
  else if frame_length output <? TR_RAFT_WIRE_HEADER_SIZE
  then (SALTS_ENOSPC, TR_RAFT_WIRE_HEADER_SIZE, None)
  else
    match tr_raft_wire_encode_snapshot_chunk_prefix md c output with
    | (SALTS_OK, _, total_length, Some prefix) =>
        if frame_length output <? total_length then (SALTS_ENOSPC, total_length, None)
        else (SALTS_OK, total_length, Some (prefix ++ sc_data c))
    | (result, _, total_length, _) => (result, total_length, None)
    end.

Definition tr_raft_wire_decode_snapshot_chunk (frame : list Z)
    : status * option (tr_raft_wire_metadata * tr_raft_snapshot_chunk) :=
  if frame_length frame <? TR_RAFT_WIRE_HEADER_SIZE then (SALTS_EINVAL, None)
  else
    match tr_wire_read_envelope frame TR_RAFT_WIRE_PAYLOAD_SNAPSHOT_CHUNK with
    | (SALTS_OK, Some (md, payload_length)) =>
        let wire := take (Z.to_nat payload_length) (drop 48 frame) in
        if negb (InstallSnapshotChunk_view_bind wire) then (SALTS_EPROTO, None)
        else
          match InstallSnapshotChunk_snapshot_configuration wire,
                InstallSnapshotChunk_snapshot_digest wire,
                InstallSnapshotChunk_chunk_data wire with
          | Some (configuration, _), Some (digest, _), Some (data, data_end) =>
              if negb (data_end =? length wire)%nat || (1 <? view_get wire 56 1) ||
                 negb (Z.of_nat (length digest) =? TR_RAFT_WIRE_SNAPSHOT_DIGEST_SIZE) ||
                 (TR_RAFT_CONF_HEADER_SIZE + TR_RAFT_CONF_MEMBER_SIZE * TR_RAFT_MAX_MEMBERS
                  <? Z.of_nat (length configuration)) ||
                 (TR_RAFT_WIRE_MAX_SNAPSHOT_CHUNK_BYTES <? Z.of_nat (length data)) ||
                 (view_get wire 48 8 <? view_get wire 40 8)
              then (SALTS_EPROTO, None)
              else
                let chunk has_configuration conf :=
                  SnapshotChunk (view_get wire 0 8) (view_get wire 8 8) (view_get wire 16 8)
                    (view_get wire 24 8) (view_get wire 32 8) (view_get wire 40 8)
                    (view_get wire 48 8) digest has_configuration conf data
                    (negb (view_get wire 56 1 =? 0)) in
                let finish c := if tr_snapshot_chunk_valid c then (SALTS_OK, Some (md, c))
                                else (SALTS_EPROTO, None) in
                if negb (Z.of_nat (length configuration) =? 0) then
                  match tr_raft_conf_decode configuration with
                  | (SALTS_OK, conf) => finish (chunk true conf)
                  | _ => (SALTS_EPROTO, None)
                  end
                else finish (chunk false zero_conf)
          | _, _, _ => (SALTS_EPROTO, None)
          end
    | _ => (SALTS_EPROTO, None)
    end.

(** ** Raft messages *)

(** The numbers of [tr_raft_message_type_t]; any other number is invalid. *)
Definition type_code (t : tr_raft_message_type) : Z :=
  match t with
  | TR_RAFT_MSG_PRE_VOTE_REQUEST => 0
  | TR_RAFT_MSG_PRE_VOTE_RESPONSE => 1
  | TR_RAFT_MSG_VOTE_REQUEST => 2
  | TR_RAFT_MSG_VOTE_RESPONSE => 3
  | TR_RAFT_MSG_HEARTBEAT_REQUEST => 4
  | TR_RAFT_MSG_HEARTBEAT_RESPONSE => 5
  | TR_RAFT_MSG_APPEND_REQUEST => 6
  | TR_RAFT_MSG_APPEND_RESPONSE => 7
  | TR_RAFT_MSG_TIMEOUT_NOW => 8
  | TR_RAFT_MSG_READ_INDEX_REQUEST => 9
  | TR_RAFT_MSG_READ_INDEX_RESPONSE => 10
  | TR_RAFT_MSG_INVALID => 11
  end.

Definition type_of_code (code : Z) : tr_raft_message_type :=
  nth (Z.to_nat code)
    [TR_RAFT_MSG_PRE_VOTE_REQUEST; TR_RAFT_MSG_PRE_VOTE_RESPONSE; TR_RAFT_MSG_VOTE_REQUEST;
     TR_RAFT_MSG_VOTE_RESPONSE; TR_RAFT_MSG_HEARTBEAT_REQUEST;
     TR_RAFT_MSG_HEARTBEAT_RESPONSE; TR_RAFT_MSG_APPEND_REQUEST;
     TR_RAFT_MSG_APPEND_RESPONSE; TR_RAFT_MSG_TIMEOUT_NOW; TR_RAFT_MSG_READ_INDEX_REQUEST;
     TR_RAFT_MSG_READ_INDEX_RESPONSE] TR_RAFT_MSG_INVALID.

Definition is_read_message (m : tr_raft_message) : bool :=
  type_eqb (m_type m) TR_RAFT_MSG_READ_INDEX_REQUEST ||
  type_eqb (m_type m) TR_RAFT_MSG_READ_INDEX_RESPONSE.

Definition m_entry_count (m : tr_raft_message) : Z := Z.of_nat (length (m_entries m)).

(** The loop over the entries of [tr_message_valid] from [index] on. *)
Fixpoint message_entries_valid (previous_log_index index : Z)
    (entries : list tr_raft_entry) : bool :=
  match entries with
  | [] => true
  | e :: rest =>
      if (entry_index e =? 0) || (entry_term e =? 0) ||
         (TR_RAFT_MAX_ENTRY_BYTES <? entry_data_length e) ||
         negb (entry_index e =? previous_log_index +64 index +64 1)
      then false
      else if tr_raft_conf_entry_is_configuration e &&
              failed (fst (tr_raft_conf_entry_decode e))
      then false
      else message_entries_valid previous_log_index (index + 1) rest
  end.

(** The unused entry slots of a message are zero. *)
Definition tr_message_valid (m : tr_raft_message) : bool :=
  if (10 <? type_code (m_type m)) || (m_from m =? 0) || (m_to m =? 0) ||
     (TR_RAFT_MAX_APPEND_ENTRIES <? m_entry_count m)
  then false
  else if is_read_message m then
    negb (m_context_id m =? 0) && negb (m_term m =? 0) && (m_entry_count m =? 0)
  else if negb (m_context_id m =? 0) then false
  else if m_entry_count m =? 0 then true
  else if negb (type_eqb (m_type m) TR_RAFT_MSG_APPEND_REQUEST) then false
  else message_entries_valid (m_previous_log_index m) 0 (m_entries m).

(** The loop that fills the slots; it stops at the first failed resize. *)
Fixpoint fill_slots (entries : list tr_raft_entry) (slots : list wire_entry)
    : status * list wire_entry :=
  match entries, slots with
  | e :: entries, slot :: slots =>
      match tr_raft_stl_status_to_error (wl_resize (entry_data_length e)) with
      | SALTS_OK =>
          let '(result, slots) := fill_slots entries slots in
          (result,
           WireEntry (entry_index e) (entry_term e) (entry_command_id e)
             (take (Z.to_nat (entry_data_length e)) (entry_data e)) :: slots)
      | result =>
          (result,
           WireEntry (entry_index e) (entry_term e) (entry_command_id e) (we_data slot)
           :: slots)
      end
  | _, _ => (SALTS_OK, slots)
  end.

(** From the zero message of [RaftWireMessageV3_init]. *)
Definition tr_wire_v3_from_message (m : tr_raft_message) : status * RaftWireMessageV3 :=
  let '(result, slots) := fill_slots (m_entries m) (replicate 8 zero_wire_entry) in
  (result,
   WireMessage (type_code (m_type m)) (flag (m_granted m)) 0 (u32 (m_entry_count m))
     (m_from m) (m_to m) (m_term m)
     (if is_read_message m then m_context_id m else m_campaign_term m)
     (m_last_log_index m) (m_last_log_term m) (m_leader_commit m)
     (m_previous_log_index m) (m_previous_log_term m) (m_match_index m) (m_reject_hint m)
     slots).

Definition tr_raft_wire_encode_current (md : tr_raft_wire_metadata) (m : tr_raft_message)
    (output_capacity : Z) : status * Z * option (list Z) :=
  match tr_wire_v3_from_message m with
  | (SALTS_OK, wire) =>
      let '(done, payload_length, payload) :=
        wl_to_bin wire (output_capacity - TR_RAFT_WIRE_HEADER_SIZE) in
      let output_length := TR_RAFT_WIRE_HEADER_SIZE + payload_length in
      if negb done
      then (if output_capacity <? output_length then SALTS_ENOSPC else SALTS_EPROTO,
            output_length, None)
      else if TR_RAFT_WIRE_MAX_RAFT_PAYLOAD_SIZE <? payload_length
      then (SALTS_EPROTO, output_length, None)
      else (SALTS_OK, output_length,
            Some (tr_wire_write_envelope TR_RAFT_WIRE_PAYLOAD_RAFT payload_length md ++
                  payload))
  | (result, _) => (result, 0, None)
  end.

Definition tr_raft_wire_encode (md : tr_raft_wire_metadata) (m : tr_raft_message)
    (output_capacity : Z) : status * Z * option (list Z) :=
  if negb (tr_wire_metadata_valid md) || negb (tr_message_valid m)
  then (SALTS_EINVAL, 0, None)
  else if output_capacity <? TR_RAFT_WIRE_HEADER_SIZE
  then (SALTS_ENOSPC, TR_RAFT_WIRE_HEADER_SIZE, None)
  else tr_raft_wire_encode_current md m output_capacity.

(** The getters of slot [k] read 24 bytes from offset [96 + 24 k]. *)
Definition slot_offset (k : nat) : nat := (96 + 24 * k)%nat.

(** [RaftWireMessageV3_entry<k>_data] for the slots from [offset] on. *)
Fixpoint view_slots_data (view : list Z) (count : nat) (offset : nat)
    : option (list (list Z) * nat) :=
  match count with
  | O => Some ([], offset)
  | S count' =>
      match view_var view offset with
      | Some (data, next) =>
          match view_slots_data view count' next with
          | Some (rest, last) => Some (data :: rest, last)
          | None => None
          end
      | None => None
      end
  end.

Definition RaftWireMessageV3_BLOCK_LENGTH : nat := 288.

(** The fields read from a payload, as a wire message; the data of the last
    slot must end where the payload ends. *)
Definition tr_wire_v3_read_fields (payload : list Z) : option RaftWireMessageV3 :=
  if (length payload <? RaftWireMessageV3_BLOCK_LENGTH)%nat then None
  else
    match view_slots_data payload 8 RaftWireMessageV3_BLOCK_LENGTH with
    | Some (data, last) =>
        if (last =? length payload)%nat then
          Some (WireMessage (view_get payload 0 1) (view_get payload 1 1)
                  (view_get payload 2 2) (view_get payload 4 4) (view_get payload 8 8)
                  (view_get payload 16 8) (view_get payload 24 8) (view_get payload 32 8)
                  (view_get payload 40 8) (view_get payload 48 8) (view_get payload 56 8)
                  (view_get payload 64 8) (view_get payload 72 8) (view_get payload 80 8)
                  (view_get payload 88 8)
                  (imap (fun k d =>
                     WireEntry (view_get payload (slot_offset k) 8)
                       (view_get payload (slot_offset k + 8) 8)
                       (view_get payload (slot_offset k + 16) 8) d) data))
        else None
    | None => None
    end.

(** The loop over the slots of [tr_wire_v3_fields_valid]. *)
Fixpoint slots_valid (previous_log_index entry_count index : Z) (slots : list wire_entry)
    : bool :=
  match slots with
  | [] => true
  | e :: rest =>
      let active := index <? entry_count in
      if (TR_RAFT_MAX_ENTRY_BYTES <? Z.of_nat (length (we_data e))) ||
         (active && ((we_index e =? 0) || (we_term e =? 0) ||
                     negb (we_index e =? previous_log_index +64 index +64 1))) ||
         (negb active && (negb (we_index e =? 0) || negb (we_term e =? 0) ||
                          negb (we_command_id e =? 0) ||
                          negb (Z.of_nat (length (we_data e)) =? 0)))
      then false
      else if active && (we_command_id e =? 0) &&
              failed (fst (tr_raft_conf_decode (we_data e)))
      then false
      else slots_valid previous_log_index entry_count (index + 1) rest
  end.

Definition tr_wire_v3_fields_valid (w : RaftWireMessageV3) : bool :=
  if negb (w_reserved w =? 0) || (1 <? w_granted w) || (10 <? w_message_type w) ||
     (w_from_node w =? 0) || (w_to_node w =? 0) ||
     (TR_RAFT_MAX_APPEND_ENTRIES <? w_entry_count w)
  then false
  else if ((w_message_type w =? 9) || (w_message_type w =? 10)) &&
          ((w_campaign_term w =? 0) || (w_term w =? 0) || negb (w_entry_count w =? 0))
  then false
  else if negb (w_entry_count w =? 0) && negb (w_message_type w =? 6) then false
  else slots_valid (w_previous_log_index w) (w_entry_count w) 0 (w_entries w).

Definition slot_entry (e : wire_entry) : tr_raft_entry :=
  Entry (we_index e) (we_term e) (we_command_id e) (Z.of_nat (length (we_data e))) (we_data e).

Definition tr_raft_wire_decode_v3 (payload : list Z) : status * option tr_raft_message :=
  match tr_wire_v3_read_fields payload with
  | Some w =>
      if tr_wire_v3_fields_valid w then
        let type := type_of_code (w_message_type w) in
        let read := type_eqb type TR_RAFT_MSG_READ_INDEX_REQUEST ||
                    type_eqb type TR_RAFT_MSG_READ_INDEX_RESPONSE in
        (SALTS_OK,
         Some (Message type (w_from_node w) (w_to_node w) (w_term w)
                 (if read then 0 else w_campaign_term w)
                 (w_last_log_index w) (w_last_log_term w) (w_leader_commit w)
                 (w_previous_log_index w) (w_previous_log_term w) (w_match_index w)
                 (w_reject_hint w)
                 (slot_entry <$> take (Z.to_nat (w_entry_count w)) (w_entries w))
                 (negb (w_granted w =? 0)) (if read then w_campaign_term w else 0)))
      else (SALTS_EPROTO, None)
  | None => (SALTS_EPROTO, None)
  end.

Definition tr_raft_wire_decode (frame : list Z)
    : status * option (tr_raft_wire_metadata * tr_raft_message) :=
  if frame_length frame <? TR_RAFT_WIRE_HEADER_SIZE then (SALTS_EINVAL, None)
  else
    match tr_wire_read_envelope frame TR_RAFT_WIRE_PAYLOAD_RAFT with
    | (SALTS_OK, Some (md, payload_length)) =>
        match tr_raft_wire_decode_v3 (take (Z.to_nat payload_length) (drop 48 frame)) with
        | (SALTS_OK, Some m) => (SALTS_OK, Some (md, m))
        | (result, _) => (result, None)
        end
    | _ => (SALTS_EPROTO, None)
    end.

End Binding.
