(* ===== verification/WireTheorems.v ===== *)
(** * The wire codecs are inverse to each other

    For each kind of payload: the bytes of the frame of a valid record, that
    the encoder produces them, that the decoder reads the record back, and that
    the decoder accepts nothing else. *)

From S2P Require Import Prelude Configuration Bytes Vec CoreState Wire WireBinding.
From Stdlib Require Import ZArith Lia.
From stdpp Require Import base numbers list tactics.
Open Scope Z_scope.
Open Scope raft_scope.

Section Laws.
Context `{WireLaws}.

Lemma w1 : word_width 1. Proof. unfold word_width. lia. Qed.
Lemma w2 : word_width 2. Proof. unfold word_width. lia. Qed.
Lemma w4 : word_width 4. Proof. unfold word_width. lia. Qed.
Lemma w8 : word_width 8. Proof. unfold word_width. lia. Qed.

Lemma length_write1 v : length (wl_write 1 v) = 1%nat.
Proof. apply wl_write_length, w1. Qed.
Lemma length_write2 v : length (wl_write 2 v) = 2%nat.
Proof. apply wl_write_length, w2. Qed.
Lemma length_write4 v : length (wl_write 4 v) = 4%nat.
Proof. apply wl_write_length, w4. Qed.
Lemma length_write8 v : length (wl_write 8 v) = 8%nat.
Proof. apply wl_write_length, w8. Qed.

Lemma length_var_field data : length (var_field data) = (4 + length data)%nat.
Proof. unfold var_field. by rewrite length_app, length_write4. Qed.

Hint Rewrite length_write1 length_write2 length_write4 length_write8 length_var_field : wire.

Lemma read_write8 v rest : is_u64 v -> wl_read 8 (wl_write 8 v ++ rest) = v.
Proof. intros. by apply wl_read_write; [apply w8|]. Qed.

Lemma read_write1 v rest : 0 <= v < 2 ^ 8 -> wl_read 1 (wl_write 1 v ++ rest) = v.
Proof. intros. by apply wl_read_write; [apply w1|]. Qed.

Lemma write_read8 input :
  (8 <= length input)%nat -> Forall is_byte input ->
  wl_write 8 (wl_read 8 input) = take 8 input /\ is_u64 (wl_read 8 input).
Proof. intros Hl Hb. by destruct (wl_write_read 8 input w8 Hl Hb). Qed.

Lemma write_read1 input :
  (1 <= length input)%nat -> Forall is_byte input ->
  wl_write 1 (wl_read 1 input) = take 1 input /\ 0 <= wl_read 1 input < 2 ^ 8.
Proof. intros Hl Hb. by destruct (wl_write_read 1 input w1 Hl Hb). Qed.

Lemma flag_range b : 0 <= flag b < 2 ^ 8.
Proof. by destruct b. Qed.

(** ** Builders

    A setter at the end of what has been written. *)

Lemma store_end (pre bytes rest : list Z) :
  store (length pre) bytes (pre ++ rest) = (pre ++ bytes) ++ drop (length bytes) rest.
Proof.
  unfold store. rewrite take_app_length, <- drop_drop, drop_app_length.
  by rewrite <- (assoc_L (++)).
Qed.

Lemma builder_set_end off width v pre rest :
  word_width width -> length pre = off -> (width <= length rest)%nat ->
  builder_set off width v (pre ++ rest) =
  Some ((pre ++ wl_write width v) ++ drop width rest).
Proof.
  intros Hw <- Hl. unfold builder_set. rewrite length_app.
  replace (_ <? _) with false by blia. rewrite store_end. by rewrite wl_write_length.
Qed.

Lemma builder_set_var_end off data pre rest :
  length pre = off -> (4 + length data <= length rest)%nat ->
  Z.of_nat (length data) < 2 ^ 32 ->
  builder_set_var off data (pre ++ rest) =
  Some ((pre ++ var_field data) ++ drop (4 + length data) rest).
Proof.
  intros <- Hl Hd. unfold builder_set_var. rewrite length_app.
  replace (_ <? _)%nat with false by (symmetry; apply Nat.ltb_ge; lia).
  rewrite wl_write_var_fits by (try done; lia).
  rewrite store_end. by rewrite length_var_field.
Qed.

Lemma view_var_at off data pre rest :
  length pre = off -> Z.of_nat (length data) < 2 ^ 32 ->
  view_var (pre ++ var_field data ++ rest) off = Some (data, (off + (4 + length data))%nat).
Proof.
  intros <- Hd. unfold view_var. rewrite length_app.
  replace (_ <? _)%nat with false by (symmetry; apply Nat.ltb_ge; lia).
  by rewrite drop_app_length, wl_read_var_field by done.
Qed.

Lemma view_var_inv view off data last :
  Forall is_byte view -> view_var view off = Some (data, last) ->
  last = (off + (4 + length data))%nat /\ (off <= length view)%nat /\
  Z.of_nat (length data) < 2 ^ 32 /\ drop off view = var_field data ++ drop last view.
Proof.
  intros Hb. unfold view_var. destruct (_ <? _)%nat eqn:Ho; [done|].
  apply Nat.ltb_ge in Ho.
  destruct (wl_read_var _) as [[d n]|] eqn:Hr; [|done]. intros [= <- <-].
  apply wl_read_var_inv in Hr as (-> & Hd & Heq); [|by apply Forall_drop].
  by rewrite drop_drop in Heq.
Qed.

(** ** Snapshot acknowledgements *)

Record snapshot_ack_wf (a : tr_raft_snapshot_ack) : Prop := {
  saw_from : is_u64 (sa_from a);
  saw_to : is_u64 (sa_to a);
  saw_term : is_u64 (sa_term a);
  saw_index : is_u64 (sa_snapshot_index a);
  saw_size : is_u64 (sa_snapshot_size a);
  saw_next_offset : is_u64 (sa_next_offset a);
  saw_digest : bytes_of 32 (sa_snapshot_digest a)
}.

Definition snapshot_ack_layout (a : tr_raft_snapshot_ack) : list Z :=
  wl_write 8 (sa_from a) ++ wl_write 8 (sa_to a) ++ wl_write 8 (sa_term a) ++
  wl_write 8 (sa_snapshot_index a) ++ wl_write 8 (sa_snapshot_size a) ++
  wl_write 8 (sa_next_offset a) ++ wl_write 1 (flag (sa_accepted a)) ++
  var_field (sa_snapshot_digest a).

Definition snapshot_ack_frame (md : tr_raft_wire_metadata) (a : tr_raft_snapshot_ack)
    : list Z :=
  tr_wire_write_envelope TR_RAFT_WIRE_PAYLOAD_SNAPSHOT_ACK 85 md ++ snapshot_ack_layout a.

Lemma length_snapshot_ack_layout a :
  length (sa_snapshot_digest a) = 32%nat -> length (snapshot_ack_layout a) = 85%nat.
Proof. intros Hd. unfold snapshot_ack_layout. by wire_len. Qed.

(** The setters fill the block and leave the rest of the buffer. *)
Lemma snapshot_ack_block a buffer :
  (49 <= length buffer)%nat ->
  exists block, snapshot_ack_block_set a buffer = Some (block ++ drop 49 buffer) /\
    length block = 49%nat /\
    block ++ var_field (sa_snapshot_digest a) = snapshot_ack_layout a.
Proof.
  intros Hl. unfold snapshot_ack_block_set, snapshot_ack_layout.
  rewrite <- (app_nil_l buffer). 
  repeat (rewrite builder_set_end by
    (first [apply w8 | apply w1 | (rewrite ?length_drop; wire_len; lia)]); cbn [mbind option_bind]).
  rewrite !drop_drop. cbn [Nat.add app]. eexists. split; [reflexivity|].
  split; [by wire_len|]. by rewrite <- !(assoc_L (++)).
Qed.

Lemma encode_snapshot_ack_frame md a output :
  metadata_wf md -> tr_wire_metadata_valid md = true ->
  snapshot_ack_wf a -> tr_snapshot_ack_valid a = true -> (133 <= length output)%nat ->
  tr_raft_wire_encode_snapshot_ack md a output =
  (SALTS_OK, 133, Some (snapshot_ack_frame md a)).
Proof.
  intros Hmd Hmv Ha Hav Hlen. unfold tr_raft_wire_encode_snapshot_ack.
  destruct (saw_digest _ Ha) as [Hdl _]. rewrite Hmv, Hav. cbn [negb orb].
  change (Z.of_nat InstallSnapshotAck_BLOCK_LENGTH + 4 + TR_RAFT_WIRE_SNAPSHOT_DIGEST_SIZE)
    with 85. change (TR_RAFT_WIRE_HEADER_SIZE + 85) with 133.
  change (tr_wire_payload_limit _ <? 85) with false.
  replace (frame_length output <? 133) with false by (unfold frame_length; blia).
  cbn [orb]. unfold InstallSnapshotAck_view_bind, InstallSnapshotAck_BLOCK_LENGTH.
  replace (length (drop 48 output) <? 49)%nat with false
    by (symmetry; apply Nat.ltb_ge; rewrite length_drop; lia). cbn [negb].
  destruct (snapshot_ack_block a (drop 48 output)) as (block & -> & Hb & Hlayout);
    [rewrite length_drop; lia|]. cbn [mbind option_bind].
  unfold InstallSnapshotAck_snapshot_digest_set, InstallSnapshotAck_BLOCK_LENGTH.
  rewrite builder_set_var_end by (try done; rewrite ?length_drop; lia).
  rewrite Hlayout. unfold snapshot_ack_frame. do 3 f_equal.
  rewrite (assoc_L (++)). apply take_app_length'.
  rewrite length_app, length_envelope, length_snapshot_ack_layout by done. done.
Qed.

(** The fields of an acknowledgement, read where the accessors look. *)
Lemma snapshot_ack_fields a :
  snapshot_ack_wf a ->
  let wire := snapshot_ack_layout a in
  view_get wire 0 8 = sa_from a /\ view_get wire 8 8 = sa_to a /\
  view_get wire 16 8 = sa_term a /\ view_get wire 24 8 = sa_snapshot_index a /\
  view_get wire 32 8 = sa_snapshot_size a /\ view_get wire 40 8 = sa_next_offset a /\
  view_get wire 48 1 = flag (sa_accepted a) /\
  InstallSnapshotAck_snapshot_digest wire = Some (sa_snapshot_digest a, 85%nat).
Proof.
  intros [H1 H2 H3 H4 H5 H6 [Hd _]]. cbv zeta. unfold snapshot_ack_layout, view_get.
  do 6 (split; [seek; by apply read_write8|]).
  split; [seek; apply read_write1, flag_range|].
  unfold InstallSnapshotAck_snapshot_digest, InstallSnapshotAck_BLOCK_LENGTH.
  rewrite <- (app_nil_r (var_field _)). rewrite !(assoc_L (++)), <- (assoc_L (++) _ (var_field _)).
  rewrite (view_var_at 49) by (try (wire_len; lia)). by rewrite Hd.
Qed.

Lemma decode_snapshot_ack_frame md a :
  metadata_wf md -> tr_wire_metadata_valid md = true ->
  snapshot_ack_wf a -> tr_snapshot_ack_valid a = true ->
  tr_raft_wire_decode_snapshot_ack (snapshot_ack_frame md a) = (SALTS_OK, Some (md, a)).
Proof.
  intros Hmd Hmv Ha Hav. destruct (saw_digest _ Ha) as [Hdl _].
  assert (md_group_id md <> 0) as Hg by (unfold tr_wire_metadata_valid in Hmv; bprop; lia).
  pose proof (length_snapshot_ack_layout a Hdl) as Hlen.
  unfold snapshot_ack_frame, tr_raft_wire_decode_snapshot_ack.
  rewrite (read_write_envelope TR_RAFT_WIRE_PAYLOAD_SNAPSHOT_ACK 85 md _
    ltac:(done) Hmd Hg ltac:(by rewrite Hlen)) by done.
  destruct (envelope_payload TR_RAFT_WIRE_PAYLOAD_SNAPSHOT_ACK 85 md
    (snapshot_ack_layout a) Hmd) as [-> ->].
  rewrite take_ge by (rewrite Hlen; done).
  unfold InstallSnapshotAck_view_bind. rewrite Hlen. cbn [negb Nat.ltb Nat.leb].
  destruct (snapshot_ack_fields a Ha) as (-> & -> & -> & -> & -> & -> & -> & ->).
  rewrite flag_le, flag_bool, Hdl. destruct a. cbn in *. by rewrite Hav.
Qed.

Lemma decode_snapshot_ack_canonical frame md a :
  Forall is_byte frame ->
  tr_raft_wire_decode_snapshot_ack frame = (SALTS_OK, Some (md, a)) ->
  frame = snapshot_ack_frame md a /\ metadata_wf md /\ tr_wire_metadata_valid md = true /\
  snapshot_ack_wf a /\ tr_snapshot_ack_valid a = true.
Proof.
  intros Hb. unfold tr_raft_wire_decode_snapshot_ack.
  destruct (_ <? TR_RAFT_WIRE_HEADER_SIZE); [done|].
  destruct (tr_wire_read_envelope _ _) as [[|] [[md' len]|]] eqn:Henv; try done.
  apply read_envelope_canonical in Henv as (Hframe & Hlen & _ & Hmd & Hg); [|done].
  rewrite take_ge by lia. set (wire := drop 48 frame) in *.
  assert (Forall is_byte wire) as Hp by (by apply Forall_drop).
  assert (forall n, Forall is_byte (drop n wire)) as Hd by (intros; by apply Forall_drop).
  destruct (InstallSnapshotAck_view_bind wire); [|done]. cbn [negb].
  destruct (InstallSnapshotAck_snapshot_digest wire) as [[digest last]|] eqn:Hv; [|done].
  apply view_var_inv in Hv as (-> & Hoff & _ & Hdig); [|done].
  destruct (_ || _) eqn:Hguard; [done|].
  apply orb_false_iff in Hguard as [[Hend Hflag]%orb_false_iff Hsize].
  apply negb_false_iff, Nat.eqb_eq in Hend. apply negb_false_iff, Z.eqb_eq in Hsize.
  change TR_RAFT_WIRE_SNAPSHOT_DIGEST_SIZE with 32 in Hsize.
  unfold InstallSnapshotAck_BLOCK_LENGTH in *.
  rewrite (drop_ge wire (49 + _)), app_nil_r in Hdig by lia.
  destruct (tr_snapshot_ack_valid _) eqn:Hvalid; [|done]. intros [= <- <-].
  assert (forall n, (n + 8 <= 48)%nat ->
    wl_write 8 (view_get wire n 8) = take 8 (drop n wire) /\ is_u64 (view_get wire n 8)) as H8
    by (intros; apply write_read8; [rewrite length_drop; lia|done]).
  destruct (write_read1 (drop 48 wire)) as [H1 Hr1]; [rewrite length_drop; lia|done|].
  fold (view_get wire 48 1) in H1, Hr1.
  split; [|do 2 (split; [done || (unfold tr_wire_metadata_valid; blia)|]); split; [constructor|done]];
    try (apply H8; lia).
  - rewrite Hframe. unfold snapshot_ack_frame, snapshot_ack_layout.
    cbn [sa_from sa_to sa_term sa_snapshot_index sa_snapshot_size sa_next_offset
         sa_snapshot_digest sa_accepted].
    replace len with 85 by lia. f_equal. rewrite bool_flag by lia.
    rewrite H1, <- Hdig.
    rewrite (proj1 (H8 0%nat ltac:(lia))), (proj1 (H8 8%nat ltac:(lia))),
      (proj1 (H8 16%nat ltac:(lia))), (proj1 (H8 24%nat ltac:(lia))),
      (proj1 (H8 32%nat ltac:(lia))), (proj1 (H8 40%nat ltac:(lia))).
    by rewrite (join_at 48 1 49), (join_at 40 8 48), (join_at 32 8 40), (join_at 24 8 32),
      (join_at 16 8 24), (join_at 8 8 16), (join_at 0 8 8) by done.
  - cbn. split; [lia|]. specialize (Hd 49%nat). rewrite Hdig in Hd.
    unfold var_field in Hd. by apply Forall_app in Hd as [_ ?].
Qed.

(** ** Snapshot chunks *)

Record snapshot_chunk_wf (c : tr_raft_snapshot_chunk) : Prop := {
  scw_from : is_u64 (sc_from c);
  scw_to : is_u64 (sc_to c);
  scw_term : is_u64 (sc_term c);
  scw_index : is_u64 (sc_snapshot_index c);
  scw_snapshot_term : is_u64 (sc_snapshot_term c);
  scw_offset : is_u64 (sc_snapshot_offset c);
  scw_size : is_u64 (sc_snapshot_size c);
  scw_digest : bytes_of 32 (sc_snapshot_digest c);
  scw_configuration : conf_in_range (sc_configuration c);
  scw_no_configuration :
    sc_has_configuration c = false -> sc_configuration c = zero_conf;
  scw_data : Forall is_byte (sc_data c)
}.

Definition conf_bytes (c : tr_raft_snapshot_chunk) : list Z :=
  if sc_has_configuration c then conf_image (sc_configuration c) else [].

Definition snapshot_chunk_block (c : tr_raft_snapshot_chunk) : list Z :=
  wl_write 8 (sc_from c) ++ wl_write 8 (sc_to c) ++ wl_write 8 (sc_term c) ++
  wl_write 8 (sc_snapshot_index c) ++ wl_write 8 (sc_snapshot_term c) ++
  wl_write 8 (sc_snapshot_offset c) ++ wl_write 8 (sc_snapshot_size c) ++
  wl_write 1 (flag (sc_done c)).

Definition snapshot_chunk_layout (c : tr_raft_snapshot_chunk) : list Z :=
  snapshot_chunk_block c ++ var_field (conf_bytes c) ++ var_field (sc_snapshot_digest c) ++
  var_field (sc_data c).

Definition snapshot_chunk_frame (md : tr_raft_wire_metadata) (c : tr_raft_snapshot_chunk)
    : list Z :=
  tr_wire_write_envelope TR_RAFT_WIRE_PAYLOAD_SNAPSHOT_CHUNK
    (Z.of_nat (length (snapshot_chunk_layout c))) md ++ snapshot_chunk_layout c.

Lemma length_chunk_block c : length (snapshot_chunk_block c) = 57%nat.
Proof. unfold snapshot_chunk_block. by wire_len. Qed.
Hint Rewrite length_chunk_block : wire.

Lemma snapshot_chunk_valid_spec c :
  tr_snapshot_chunk_valid c = true ->
  Z.of_nat (length (sc_data c)) <= 65536 /\
  (sc_has_configuration c = true -> tr_raft_conf_validate (sc_configuration c) = SALTS_OK).
Proof.
  unfold tr_snapshot_chunk_valid, TR_RAFT_WIRE_MAX_SNAPSHOT_CHUNK_BYTES, sc_data_length.
  destruct (_ || _) eqn:H1; [done|]. destruct ((_ && _) || _) eqn:H2; [done|]. intros _.
  split; [lia|]. intros Hh. rewrite Hh in H2. cbn [negb orb] in H2. unfold failed in H2.
  destruct (tr_raft_conf_validate (sc_configuration c)); [done|].
  destruct (sc_snapshot_offset c =? 0); cbn in H2; done.
Qed.

Lemma snapshot_chunk_valid_offset c :
  tr_snapshot_chunk_valid c = true -> sc_snapshot_offset c <= sc_snapshot_size c.
Proof.
  unfold tr_snapshot_chunk_valid. destruct (_ || _) eqn:H1; [done|]. intros _. lia.
Qed.

Lemma conf_image_length c :
  tr_raft_conf_validate c = SALTS_OK -> (25 <= length (conf_image c) <= 295)%nat.
Proof.
  intros Hv. apply conf_validate_wf in Hv as [_ _ Hb _ _ (m & Hm & _) _].
  unfold TR_RAFT_MAX_MEMBERS, conf_member_count in Hb.
  rewrite conf_image_header, length_app, length_conf_header, length_member_images.
  destruct (conf_members c); [by apply elem_of_nil in Hm|]. cbn in *. lia.
Qed.

Lemma conf_bytes_length c :
  tr_snapshot_chunk_valid c = true -> (length (conf_bytes c) <= 295)%nat.
Proof.
  intros [_ Hv]%snapshot_chunk_valid_spec. unfold conf_bytes.
  destruct (sc_has_configuration c); [|cbn; lia]. by apply conf_image_length, Hv.
Qed.

Lemma chunk_configuration_bytes c :
  tr_snapshot_chunk_valid c = true ->
  snapshot_chunk_configuration c = (SALTS_OK, conf_bytes c).
Proof.
  intros [_ Hv]%snapshot_chunk_valid_spec.
  unfold snapshot_chunk_configuration, conf_bytes. destruct (sc_has_configuration c); [|done].
  specialize (Hv eq_refl). rewrite conf_encode_image; [done|done|].
  apply conf_validate_wf in Hv as [_ _ Hb _ _ _ _].
  unfold TR_RAFT_CONF_HEADER_SIZE, TR_RAFT_CONF_MEMBER_SIZE, TR_RAFT_MAX_MEMBERS in *. lia.
Qed.

Lemma length_chunk_layout c :
  length (sc_snapshot_digest c) = 32%nat ->
  length (snapshot_chunk_layout c) =
    (57 + (4 + length (conf_bytes c)) + 36 + (4 + length (sc_data c)))%nat.
Proof. intros Hd. unfold snapshot_chunk_layout. wire_len. lia. Qed.

Lemma snapshot_chunk_block_end c buffer :
  (57 <= length buffer)%nat ->
  snapshot_chunk_block_set c buffer = Some (snapshot_chunk_block c ++ drop 57 buffer).
Proof.
  intros Hl. unfold snapshot_chunk_block_set, snapshot_chunk_block.
  rewrite <- (app_nil_l buffer).
  repeat (rewrite builder_set_end by
    (first [apply w8 | apply w1 | (rewrite ?length_drop; wire_len; lia)]); cbn [mbind option_bind]).
  rewrite !drop_drop. cbn [Nat.add app]. by rewrite <- !(assoc_L (++)).
Qed.

(** The part of the layout before the data. *)
Definition snapshot_chunk_head (c : tr_raft_snapshot_chunk) : list Z :=
  snapshot_chunk_block c ++ var_field (conf_bytes c) ++ var_field (sc_snapshot_digest c).

Lemma length_chunk_head c :
  length (sc_snapshot_digest c) = 32%nat ->
  length (snapshot_chunk_head c) = (97 + length (conf_bytes c))%nat.
Proof. intros Hd. unfold snapshot_chunk_head. wire_len. lia. Qed.

Lemma chunk_head_views c rest :
  length (sc_snapshot_digest c) = 32%nat -> (length (conf_bytes c) <= 295)%nat ->
  InstallSnapshotChunk_snapshot_configuration (snapshot_chunk_head c ++ rest) =
    Some (conf_bytes c, (61 + length (conf_bytes c))%nat) /\
  InstallSnapshotChunk_snapshot_digest (snapshot_chunk_head c ++ rest) =
    Some (sc_snapshot_digest c, length (snapshot_chunk_head c)).
Proof.
  intros Hdl Hconf. rewrite length_chunk_head by done.
  assert (InstallSnapshotChunk_snapshot_configuration (snapshot_chunk_head c ++ rest) =
    Some (conf_bytes c, (61 + length (conf_bytes c))%nat)) as Hview.
  { unfold InstallSnapshotChunk_snapshot_configuration, InstallSnapshotChunk_BLOCK_LENGTH,
      snapshot_chunk_head. rewrite <- !(assoc_L (++)).
    by rewrite view_var_at by (rewrite ?length_chunk_block; (done || lia)). }
  split; [exact Hview|]. unfold InstallSnapshotChunk_snapshot_digest. rewrite Hview.
  unfold snapshot_chunk_head. rewrite <- !(assoc_L (++)).
  rewrite (assoc_L (++) (snapshot_chunk_block c)), view_var_at by (wire_len; lia).
  rewrite Hdl. do 2 f_equal. lia.
Qed.

Lemma chunk_head_set c buffer :
  length (sc_snapshot_digest c) = 32%nat -> (length (conf_bytes c) <= 295)%nat ->
  (97 + length (conf_bytes c) <= length buffer)%nat ->
  (payload ← snapshot_chunk_block_set c buffer;
   payload ← InstallSnapshotChunk_snapshot_configuration_set (conf_bytes c) payload;
   InstallSnapshotChunk_snapshot_digest_set (sc_snapshot_digest c) payload) =
  Some (snapshot_chunk_head c ++ drop (length (snapshot_chunk_head c)) buffer).
Proof.
  intros Hdl Hconf Hlen. rewrite length_chunk_head by done.
  rewrite snapshot_chunk_block_end by lia. cbn [mbind option_bind].
  unfold InstallSnapshotChunk_snapshot_configuration_set, InstallSnapshotChunk_BLOCK_LENGTH.
  rewrite builder_set_var_end by (rewrite ?length_chunk_block, ?length_drop; (done || lia)).
  cbn [mbind option_bind].
  unfold InstallSnapshotChunk_snapshot_digest_set, InstallSnapshotChunk_snapshot_configuration,
    InstallSnapshotChunk_BLOCK_LENGTH.
  rewrite <- (assoc_L (++)), view_var_at by (rewrite ?length_chunk_block; (done || lia)).
  rewrite (assoc_L (++) (snapshot_chunk_block c)).
  rewrite builder_set_var_end by (rewrite ?length_drop; wire_len; lia).
  unfold snapshot_chunk_head. rewrite !drop_drop, <- !(assoc_L (++)), Hdl.
  do 4 f_equal. f_equal. lia.
Qed.

(** The prefix up to the length of the data, in a buffer that can hold it. *)
Lemma encode_snapshot_chunk_prefix_frame md c output :
  metadata_wf md -> tr_wire_metadata_valid md = true ->
  snapshot_chunk_wf c -> tr_snapshot_chunk_valid c = true ->
  (149 + length (conf_bytes c) <= length output)%nat ->
  tr_raft_wire_encode_snapshot_chunk_prefix md c output =
  (SALTS_OK, 149 + Z.of_nat (length (conf_bytes c)),
   Z.of_nat (length (snapshot_chunk_frame md c)),
   Some (tr_wire_write_envelope TR_RAFT_WIRE_PAYLOAD_SNAPSHOT_CHUNK
           (Z.of_nat (length (snapshot_chunk_layout c))) md ++
         snapshot_chunk_head c ++ wl_write 4 (sc_data_length c))).
Proof.
  intros Hmd Hmv Hc Hcv Hlen. pose proof (conf_bytes_length c Hcv) as Hconf.
  destruct (snapshot_chunk_valid_spec c Hcv) as [Hdata _].
  destruct (scw_digest _ Hc) as [Hdl _]. pose proof (length_chunk_head c Hdl) as Hhead.
  unfold snapshot_chunk_frame. rewrite length_app, length_envelope, length_chunk_layout by done.
  unfold tr_raft_wire_encode_snapshot_chunk_prefix.
  rewrite Hmv, Hcv, chunk_configuration_bytes by done. cbn [negb orb].
  unfold InstallSnapshotChunk_BLOCK_LENGTH, TR_RAFT_WIRE_SNAPSHOT_DIGEST_SIZE,
    TR_RAFT_WIRE_HEADER_SIZE, SIZE_MAX, UINT64_MAX, sc_data_length in *.
  replace ((_ <? _) || _) with false by blia.
  replace (frame_length output <? _) with false by (unfold frame_length; blia).
  unfold InstallSnapshotChunk_view_bind, InstallSnapshotChunk_BLOCK_LENGTH.
  replace (length (drop 48 output) <? 57)%nat with false
    by (symmetry; apply Nat.ltb_ge; rewrite length_drop; lia). cbn [negb].
  rewrite chunk_head_set by (rewrite ?length_drop; (done || lia)).
  destruct (chunk_head_views c (drop (length (snapshot_chunk_head c)) (drop 48 output)) Hdl Hconf)
    as [_ ->].
  rewrite length_app. replace (_ <? length (snapshot_chunk_head c))%nat with false
    by (symmetry; apply Nat.ltb_ge; lia).
  rewrite store_end, length_write4. change (tr_wire_payload_limit _) with 69632. rewrite Hhead.
  replace (false || _ || _ || _ || _) with false by blia. rewrite u32_small by lia.
  f_equal; [f_equal; [f_equal; lia|lia]|]. do 2 f_equal.
  rewrite !(assoc_L (++)). rewrite take_app_le, take_ge;
    rewrite ?length_app, ?length_envelope, ?length_write4, ?Hhead by done; try lia.
  do 3 f_equal. lia.
Qed.

Lemma encode_snapshot_chunk_frame md c output :
  metadata_wf md -> tr_wire_metadata_valid md = true ->
  snapshot_chunk_wf c -> tr_snapshot_chunk_valid c = true ->
  (length (snapshot_chunk_frame md c) <= length output)%nat ->
  tr_raft_wire_encode_snapshot_chunk md c output =
  (SALTS_OK, Z.of_nat (length (snapshot_chunk_frame md c)), Some (snapshot_chunk_frame md c)).
Proof.
  intros Hmd Hmv Hc Hcv Hlen. unfold tr_raft_wire_encode_snapshot_chunk.
  destruct (scw_digest _ Hc) as [Hdl _].
  assert (length (snapshot_chunk_frame md c) =
    (149 + length (conf_bytes c) + length (sc_data c))%nat) as Hframe
    by (unfold snapshot_chunk_frame; rewrite length_app, length_envelope,
          length_chunk_layout by done; lia).
  rewrite encode_snapshot_chunk_prefix_frame by (done || lia).
  rewrite Hmv, Hcv. cbn [negb orb]. unfold frame_length, TR_RAFT_WIRE_HEADER_SIZE.
  replace (_ <? 48) with false by blia.
  replace (Z.of_nat (length output) <? _) with false by blia. do 2 f_equal.
  unfold snapshot_chunk_frame, snapshot_chunk_layout, snapshot_chunk_head.
  change (var_field (sc_data c)) with (wl_write 4 (sc_data_length c) ++ sc_data c).
  by rewrite <- !(assoc_L (++)).
Qed.

Lemma snapshot_chunk_fields c :
  snapshot_chunk_wf c ->
  let wire := snapshot_chunk_layout c in
  view_get wire 0 8 = sc_from c /\ view_get wire 8 8 = sc_to c /\
  view_get wire 16 8 = sc_term c /\ view_get wire 24 8 = sc_snapshot_index c /\
  view_get wire 32 8 = sc_snapshot_term c /\ view_get wire 40 8 = sc_snapshot_offset c /\
  view_get wire 48 8 = sc_snapshot_size c /\ view_get wire 56 1 = flag (sc_done c).
Proof.
  intros [H1 H2 H3 H4 H5 H6 H7 _ _ _ _]. cbv zeta.
  unfold snapshot_chunk_layout, snapshot_chunk_block, view_get.
  rewrite <- !(assoc_L (++)). do 7 (split; [seek; by apply read_write8|]).
  seek; apply read_write1, flag_range.
Qed.

(** The variable parts of a chunk. *)
Lemma snapshot_chunk_views c :
  length (sc_snapshot_digest c) = 32%nat -> (length (conf_bytes c) <= 295)%nat ->
  Z.of_nat (length (sc_data c)) <= 65536 ->
  let wire := snapshot_chunk_layout c in
  (exists n, InstallSnapshotChunk_snapshot_configuration wire = Some (conf_bytes c, n)) /\
  (exists n, InstallSnapshotChunk_snapshot_digest wire = Some (sc_snapshot_digest c, n)) /\
  InstallSnapshotChunk_chunk_data wire = Some (sc_data c, length wire).
Proof.
  intros Hdl Hconf Hdata. cbv zeta.
  assert (snapshot_chunk_layout c = snapshot_chunk_head c ++ var_field (sc_data c)) as ->
    by (unfold snapshot_chunk_layout, snapshot_chunk_head; by rewrite <- !(assoc_L (++))).
  destruct (chunk_head_views c (var_field (sc_data c)) Hdl Hconf) as [Hc Hd].
  split; [by eexists|]. split; [by eexists|]. unfold InstallSnapshotChunk_chunk_data.
  rewrite Hd. pose proof (view_var_at (length (snapshot_chunk_head c)) (sc_data c)
    (snapshot_chunk_head c) [] eq_refl ltac:(lia)) as Hv. rewrite app_nil_r in Hv. rewrite Hv.
  by rewrite length_app, length_var_field.
Qed.

Lemma decode_snapshot_chunk_frame md c :
  metadata_wf md -> tr_wire_metadata_valid md = true ->
  snapshot_chunk_wf c -> tr_snapshot_chunk_valid c = true ->
  tr_raft_wire_decode_snapshot_chunk (snapshot_chunk_frame md c) = (SALTS_OK, Some (md, c)).
Proof.
  intros Hmd Hmv Hc Hcv. pose proof (conf_bytes_length c Hcv) as Hconf.
  destruct (scw_digest _ Hc) as [Hdl _]. pose proof (length_chunk_layout c Hdl) as Hlen.
  destruct (snapshot_chunk_valid_spec c Hcv) as [Hdata Hvalid].
  assert (md_group_id md <> 0) as Hg by (unfold tr_wire_metadata_valid in Hmv; bprop; lia).
  unfold snapshot_chunk_frame, tr_raft_wire_decode_snapshot_chunk.
  rewrite (read_write_envelope TR_RAFT_WIRE_PAYLOAD_SNAPSHOT_CHUNK _ md _
    ltac:(done) Hmd Hg eq_refl) by (change (tr_wire_payload_limit _) with 69632; lia).
  destruct (envelope_payload TR_RAFT_WIRE_PAYLOAD_SNAPSHOT_CHUNK
    (Z.of_nat (length (snapshot_chunk_layout c))) md (snapshot_chunk_layout c) Hmd) as [-> ->].
  rewrite Nat2Z.id, firstn_all. unfold InstallSnapshotChunk_view_bind.
  replace (_ <? _)%nat with false
    by (symmetry; apply Nat.ltb_ge; unfold InstallSnapshotChunk_BLOCK_LENGTH; lia).
  cbn [negb].
  destruct (snapshot_chunk_views c Hdl Hconf Hdata) as ((n1 & ->) & (n2 & ->) & ->).
  destruct (snapshot_chunk_fields c Hc)
    as (-> & -> & -> & -> & -> & -> & -> & ->).
  rewrite Nat.eqb_refl, flag_le, flag_bool, Hdl.
  pose proof (snapshot_chunk_valid_offset c Hcv) as Hoff.
  unfold TR_RAFT_CONF_HEADER_SIZE, TR_RAFT_CONF_MEMBER_SIZE, TR_RAFT_MAX_MEMBERS,
    TR_RAFT_WIRE_MAX_SNAPSHOT_CHUNK_BYTES, TR_RAFT_WIRE_SNAPSHOT_DIGEST_SIZE.
  replace (negb true || _ || _ || _ || _ || _) with false by blia.
  pose proof (scw_no_configuration _ Hc) as Hzero. pose proof (scw_configuration _ Hc) as Hrange.
  unfold conf_bytes. destruct c as [f t tm ix st off sz dg hc cf d dn].
  cbn [sc_from sc_to sc_term sc_snapshot_index sc_snapshot_term sc_snapshot_offset
    sc_snapshot_size sc_snapshot_digest sc_has_configuration sc_configuration sc_data
    sc_done] in *. destruct hc.
  - pose proof (conf_image_length cf (Hvalid eq_refl)) as Hil.
    replace (Z.of_nat (length (conf_image cf)) =? 0) with false by blia. cbn [negb].
    rewrite conf_decode_image by auto. by rewrite Hcv.
  - rewrite Hzero in * by done. cbn [length]. change (negb (_ =? 0)) with false.
    by rewrite Hcv.
Qed.

(** A chunk whose fields are those of [wire] is laid out as [wire]. *)
Lemma chunk_layout_of_wire wire c d1 d2 d3 n1 n2 :
  Forall is_byte wire -> (57 <= length wire)%nat ->
  InstallSnapshotChunk_snapshot_configuration wire = Some (d1, n1) ->
  InstallSnapshotChunk_snapshot_digest wire = Some (d2, n2) ->
  InstallSnapshotChunk_chunk_data wire = Some (d3, length wire) ->
  0 <= view_get wire 56 1 <= 1 ->
  sc_from c = view_get wire 0 8 -> sc_to c = view_get wire 8 8 ->
  sc_term c = view_get wire 16 8 -> sc_snapshot_index c = view_get wire 24 8 ->
  sc_snapshot_term c = view_get wire 32 8 -> sc_snapshot_offset c = view_get wire 40 8 ->
  sc_snapshot_size c = view_get wire 48 8 -> sc_done c = negb (view_get wire 56 1 =? 0) ->
  conf_bytes c = d1 -> sc_snapshot_digest c = d2 -> sc_data c = d3 ->
  snapshot_chunk_layout c = wire.
Proof.
  intros Hb Hlong Hv1 Hv2 Hv3 Hflag E1 E2 E3 E4 E5 E6 E7 E8 E9 E10 E11.
  unfold InstallSnapshotChunk_chunk_data in Hv3. rewrite Hv2 in Hv3.
  unfold InstallSnapshotChunk_snapshot_digest in Hv2. rewrite Hv1 in Hv2.
  apply view_var_inv in Hv1 as (-> & _ & _ & D1); [|done].
  apply view_var_inv in Hv2 as (-> & _ & _ & D2); [|done].
  apply view_var_inv in Hv3 as (Hend & _ & _ & D3); [|done].
  rewrite (drop_ge wire (length wire)), app_nil_r in D3 by lia.
  unfold snapshot_chunk_layout. rewrite E9, E10, E11, <- D3, <- D2, <- D1.
  unfold snapshot_chunk_block, InstallSnapshotChunk_BLOCK_LENGTH.
  rewrite E1, E2, E3, E4, E5, E6, E7, E8, bool_flag by lia. unfold view_get.
  assert (forall n, (n + 8 <= 56)%nat ->
    wl_write 8 (wl_read 8 (drop n wire)) = take 8 (drop n wire)) as H8
    by (intros; apply write_read8; [rewrite length_drop; lia|by apply Forall_drop]).
  rewrite !H8 by lia.
  rewrite (proj1 (write_read1 (drop 56 wire) ltac:(rewrite length_drop; lia)
    ltac:(by apply Forall_drop))).
  rewrite <- !(assoc_L (++)).
  by rewrite (join_at 56 1 57), (join_at 48 8 56), (join_at 40 8 48), (join_at 32 8 40),
    (join_at 24 8 32), (join_at 16 8 24), (join_at 8 8 16), (join_at 0 8 8) by done.
Qed.

Lemma Forall_var_field data rest :
  Forall is_byte (var_field data ++ rest) -> Forall is_byte data.
Proof. unfold var_field. by intros [[_ ?]%Forall_app _]%Forall_app. Qed.

Lemma chunk_views_bytes wire d1 n1 d2 n2 d3 n3 :
  Forall is_byte wire ->
  InstallSnapshotChunk_snapshot_configuration wire = Some (d1, n1) ->
  InstallSnapshotChunk_snapshot_digest wire = Some (d2, n2) ->
  InstallSnapshotChunk_chunk_data wire = Some (d3, n3) ->
  Forall is_byte d1 /\ Forall is_byte d2 /\ Forall is_byte d3.
Proof.
  intros Hb Hv1 Hv2 Hv3.
  assert (forall n, Forall is_byte (drop n wire)) as Hd by (intros; by apply Forall_drop).
  unfold InstallSnapshotChunk_chunk_data in Hv3. rewrite Hv2 in Hv3.
  unfold InstallSnapshotChunk_snapshot_digest in Hv2. rewrite Hv1 in Hv2.
  apply view_var_inv in Hv1 as (_ & _ & _ & D1), Hv2 as (_ & _ & _ & D2),
    Hv3 as (_ & _ & _ & D3); try done.
  repeat split; eapply Forall_var_field; [rewrite <- D1|rewrite <- D2|rewrite <- D3]; done.
Qed.

Lemma decode_snapshot_chunk_canonical frame md c :
  Forall is_byte frame ->
  tr_raft_wire_decode_snapshot_chunk frame = (SALTS_OK, Some (md, c)) ->
  frame = snapshot_chunk_frame md c /\ metadata_wf md /\ tr_wire_metadata_valid md = true /\
  snapshot_chunk_wf c /\ tr_snapshot_chunk_valid c = true.
Proof.
  intros Hb. unfold tr_raft_wire_decode_snapshot_chunk.
  destruct (_ <? TR_RAFT_WIRE_HEADER_SIZE); [done|].
  destruct (tr_wire_read_envelope _ _) as [[|] [[md' len]|]] eqn:Henv; try done.
  apply read_envelope_canonical in Henv as (Hframe & Hlen & _ & Hmd & Hg); [|done].
  rewrite take_ge by lia. set (wire := drop 48 frame) in *.
  assert (Forall is_byte wire) as Hp by (by apply Forall_drop).
  assert (forall n, Forall is_byte (drop n wire)) as Hd by (intros; by apply Forall_drop).
  unfold InstallSnapshotChunk_view_bind.
  destruct (_ <? _)%nat eqn:Hlong; [done|]. apply Nat.ltb_ge in Hlong.
  unfold InstallSnapshotChunk_BLOCK_LENGTH in Hlong. cbn [negb].
  destruct (InstallSnapshotChunk_snapshot_configuration wire) as [[d1 n1]|] eqn:Hv1; [|done].
  destruct (InstallSnapshotChunk_snapshot_digest wire) as [[d2 n2]|] eqn:Hv2; [|done].
  destruct (InstallSnapshotChunk_chunk_data wire) as [[d3 n3]|] eqn:Hv3; [|done].
  destruct (_ || _) eqn:Hguard; [done|].
  apply orb_false_iff in Hguard as [[[[[Hend Hflag]%orb_false_iff Hdig]%orb_false_iff
    _]%orb_false_iff _]%orb_false_iff _].
  apply negb_false_iff, Nat.eqb_eq in Hend. apply negb_false_iff, Z.eqb_eq in Hdig. subst n3.
  change TR_RAFT_WIRE_SNAPSHOT_DIGEST_SIZE with 32 in Hdig.
  assert (forall n, (n + 8 <= 56)%nat -> is_u64 (view_get wire n 8)) as H8
    by (intros; apply write_read8; [rewrite length_drop; lia|done]).
  destruct (write_read1 (drop 56 wire)) as [_ Hr]; [rewrite length_drop; lia|done|].
  fold (view_get wire 56 1) in Hr.
  destruct (chunk_views_bytes wire d1 n1 d2 n2 d3 (length wire)) as (Hb1 & Hb2 & Hb3); try done.
  assert (forall hc cf, let c := SnapshotChunk (view_get wire 0 8) (view_get wire 8 8)
      (view_get wire 16 8) (view_get wire 24 8) (view_get wire 32 8) (view_get wire 40 8)
      (view_get wire 48 8) d2 hc cf d3 (negb (view_get wire 56 1 =? 0)) in
    conf_bytes c = d1 -> conf_in_range cf -> (hc = false -> cf = zero_conf) ->
    frame = snapshot_chunk_frame md' c /\ snapshot_chunk_wf c) as Hfinish.
  { intros hc cf c' E1 Hr1 Hr2. split.
    - unfold snapshot_chunk_frame.
      rewrite (chunk_layout_of_wire wire c' d1 d2 d3 n1 n2) by (done || lia).
      by rewrite Hlen.
    - constructor; try (apply H8; lia); try done. cbn. split; [lia|done]. }
  assert (tr_wire_metadata_valid md' = true) as Hmv by (unfold tr_wire_metadata_valid; blia).
  destruct (negb (Z.of_nat (length d1) =? 0)) eqn:Hc1.
  - destruct (tr_raft_conf_decode d1) as [[|] cf] eqn:Hcf; [|done].
    destruct (tr_snapshot_chunk_valid _) eqn:Hvalid; [|done]. intros [= <- <-].
    apply conf_decode_ok in Hcf as (Hcv & Hcr & Hci); [|done].
    destruct (Hfinish true cf) as [? ?]; [exact Hci|done|done|]. done.
  - destruct (tr_snapshot_chunk_valid _) eqn:Hvalid; [|done]. intros [= <- <-].
    assert (d1 = []) as -> by (apply nil_length_inv; apply negb_false_iff in Hc1; lia).
    destruct (Hfinish false zero_conf) as [? ?]; [done| |done|done].
    split; [cbn; lia|constructor].
Qed.
End Laws.
