(* ===== verification/WireMessage.v ===== *)
(** * The codec of Raft messages

    The layout of [RaftWireMessageV3] and its reader are inverse, and so are
    the conversions between Raft messages and wire messages. A message comes
    back in its normal form: of an entry only the first [data_length] bytes
    travel, and a read message has no campaign term. *)

From S2P Require Import Prelude Configuration Bytes Vec CoreState Wire WireBinding.
From S2P Require Import WireTheorems.
From Stdlib Require Import ZArith Lia.
From stdpp Require Import base numbers list tactics.
Open Scope Z_scope.
Open Scope raft_scope.

(** ** Well-formed messages *)

Record entry_fields_wf (e : tr_raft_entry) : Prop := {
  efw_index : is_u64 (entry_index e);
  efw_term : is_u64 (entry_term e);
  efw_command : is_u64 (entry_command_id e);
  efw_length : 0 <= entry_data_length e <= Z.of_nat (length (entry_data e));
  efw_data : Forall is_byte (entry_data e)
}.

Record message_wf (m : tr_raft_message) : Prop := {
  mmw_from : is_u64 (m_from m);
  mmw_to : is_u64 (m_to m);
  mmw_term : is_u64 (m_term m);
  mmw_campaign : is_u64 (m_campaign_term m);
  mmw_last_index : is_u64 (m_last_log_index m);
  mmw_last_term : is_u64 (m_last_log_term m);
  mmw_commit : is_u64 (m_leader_commit m);
  mmw_previous_index : is_u64 (m_previous_log_index m);
  mmw_previous_term : is_u64 (m_previous_log_term m);
  mmw_match : is_u64 (m_match_index m);
  mmw_hint : is_u64 (m_reject_hint m);
  mmw_context : is_u64 (m_context_id m);
  mmw_entries : Forall entry_fields_wf (m_entries m)
}.

Definition entry_payload (e : tr_raft_entry) : list Z :=
  take (Z.to_nat (entry_data_length e)) (entry_data e).

Definition entry_normal (e : tr_raft_entry) : tr_raft_entry :=
  Entry (entry_index e) (entry_term e) (entry_command_id e) (entry_data_length e)
    (entry_payload e).

Definition message_normal (m : tr_raft_message) : tr_raft_message :=
  Message (m_type m) (m_from m) (m_to m) (m_term m)
    (if is_read_message m then 0 else m_campaign_term m)
    (m_last_log_index m) (m_last_log_term m) (m_leader_commit m) (m_previous_log_index m)
    (m_previous_log_term m) (m_match_index m) (m_reject_hint m)
    (entry_normal <$> m_entries m) (m_granted m) (m_context_id m).

(** ** Types *)

Lemma type_of_type_code t : t <> TR_RAFT_MSG_INVALID -> type_of_code (type_code t) = t.
Proof. by destruct t. Qed.

Lemma type_code_of_type code :
  0 <= code <= 10 -> type_code (type_of_code code) = code.
Proof.
  intros Hc. assert (code = 0 \/ code = 1 \/ code = 2 \/ code = 3 \/ code = 4 \/ code = 5 \/
    code = 6 \/ code = 7 \/ code = 8 \/ code = 9 \/ code = 10) as Hcases by lia.
  by destruct_or! Hcases; subst code.
Qed.

Lemma type_code_range t : 0 <= type_code t <= 11.
Proof. destruct t; cbn; lia. Qed.

Lemma type_eqb_code t1 t2 :
  type_eqb t1 t2 = (type_code t1 =? type_code t2).
Proof. by destruct t1, t2. Qed.

Section Message.
Context `{WireLaws}.

Hint Rewrite length_write1 length_write2 length_write4 length_write8 length_var_field : wire.

(** ** Slots *)

Definition slot_of (e : tr_raft_entry) : wire_entry :=
  WireEntry (entry_index e) (entry_term e) (entry_command_id e) (entry_payload e).

Record slot_wf (e : wire_entry) : Prop := {
  sw_index : is_u64 (we_index e);
  sw_term : is_u64 (we_term e);
  sw_command : is_u64 (we_command_id e);
  sw_data : Forall is_byte (we_data e);
  sw_length : Z.of_nat (length (we_data e)) < 2 ^ 32
}.

(** Every resize succeeds. *)
Definition resizes : Prop := forall n, wl_resize n = STL_OK.

Lemma fill_slots_spec es slots :
  resizes -> (length es <= length slots)%nat ->
  fill_slots es slots = (SALTS_OK, (slot_of <$> es) ++ drop (length es) slots).
Proof.
  intros Hr. revert slots. induction es as [|e es IH]; intros [|s slots] Hl; cbn in *; try done.
  - lia.
  - rewrite Hr. cbn. rewrite IH by lia. done.
Qed.

Lemma length_wire_slot e : length (wire_slot e) = 24%nat.
Proof. unfold wire_slot. by wire_len. Qed.

Lemma length_slots es : length (concat (wire_slot <$> es)) = (24 * length es)%nat.
Proof.
  induction es as [|e es IH]; [done|]. rewrite fmap_cons. cbn [concat].
  rewrite length_app, length_wire_slot, IH. cbn. lia.
Qed.

Lemma drop_slots k es rest :
  (k <= length es)%nat ->
  drop (24 * k) (concat (wire_slot <$> es) ++ rest) = concat (wire_slot <$> drop k es) ++ rest.
Proof.
  revert es. induction k as [|k IH]; intros es Hk; [by rewrite !drop_0|].
  destruct es as [|e es]; [cbn in Hk; lia|]. cbn [length] in Hk.
  rewrite fmap_cons, skipn_cons. cbn [concat]. rewrite <- (assoc_L (++)).
  rewrite drop_skip by (rewrite length_wire_slot; lia). rewrite length_wire_slot.
  replace (24 * S k - 24)%nat with (24 * k)%nat by lia. apply IH. lia.
Qed.

(** The fixed block before the slots. *)
Definition wire_block (w : RaftWireMessageV3) : list Z :=
  wl_write 1 (w_message_type w) ++ wl_write 1 (w_granted w) ++ wl_write 2 (w_reserved w) ++
  wl_write 4 (w_entry_count w) ++ wl_write 8 (w_from_node w) ++ wl_write 8 (w_to_node w) ++
  wl_write 8 (w_term w) ++ wl_write 8 (w_campaign_term w) ++ wl_write 8 (w_last_log_index w) ++
  wl_write 8 (w_last_log_term w) ++ wl_write 8 (w_leader_commit w) ++
  wl_write 8 (w_previous_log_index w) ++ wl_write 8 (w_previous_log_term w) ++
  wl_write 8 (w_match_index w) ++ wl_write 8 (w_reject_hint w).

Lemma wire_layout_block w :
  wire_layout w = wire_block w ++ concat (wire_slot <$> w_entries w) ++
    concat (var_field <$> (we_data <$> w_entries w)).
Proof. unfold wire_layout, wire_block. by rewrite <- !(assoc_L (++)). Qed.

Lemma length_wire_block w : length (wire_block w) = 96%nat.
Proof. unfold wire_block. by wire_len. Qed.

Lemma slot_fields w k e :
  w_entries w !! k = Some e -> slot_wf e ->
  view_get (wire_layout w) (slot_offset k) 8 = we_index e /\
  view_get (wire_layout w) (slot_offset k + 8) 8 = we_term e /\
  view_get (wire_layout w) (slot_offset k + 16) 8 = we_command_id e.
Proof.
  intros Hk [H1 H2 H3 _ _]. unfold view_get, slot_offset. rewrite wire_layout_block.
  rewrite <- !drop_drop. rewrite (drop_app_length' (wire_block w)) by (by rewrite length_wire_block).
  apply lookup_lt_Some in Hk as Hlt. rewrite drop_slots by lia.
  rewrite (drop_S _ e k Hk), fmap_cons. cbn [concat]. unfold wire_slot at 1 3 5.
  rewrite <- !(assoc_L (++)).
  split; [by apply read_write8|]. split; seek; by apply read_write8.
Qed.

Lemma view_slots_data_at ds pre rest off :
  length pre = off -> Forall (fun d => Z.of_nat (length d) < 2 ^ 32) ds ->
  view_slots_data (pre ++ concat (var_field <$> ds) ++ rest) (length ds) off =
  Some (ds, (off + length (concat (var_field <$> ds)))%nat).
Proof.
  revert pre off. induction ds as [|d ds IH]; intros pre off Hoff Hds.
  { cbn. do 2 f_equal. lia. }
  apply Forall_cons_1 in Hds as [Hd Hds]. rewrite fmap_cons.
  cbn [concat length view_slots_data].
  rewrite <- (assoc_L (++)), view_var_at by done.
  rewrite (assoc_L (++) pre), IH; [|rewrite length_app, length_var_field; lia|done].
  do 2 f_equal. rewrite length_app, length_var_field. lia.
Qed.

(** ** Reading the fields *)

Record wire_wf (w : RaftWireMessageV3) : Prop := {
  ww_type : 0 <= w_message_type w < 2 ^ 8;
  ww_granted : 0 <= w_granted w < 2 ^ 8;
  ww_reserved : 0 <= w_reserved w < 2 ^ 16;
  ww_count : 0 <= w_entry_count w < 2 ^ 32;
  ww_from : is_u64 (w_from_node w);
  ww_to : is_u64 (w_to_node w);
  ww_term : is_u64 (w_term w);
  ww_campaign : is_u64 (w_campaign_term w);
  ww_last_index : is_u64 (w_last_log_index w);
  ww_last_term : is_u64 (w_last_log_term w);
  ww_commit : is_u64 (w_leader_commit w);
  ww_previous_index : is_u64 (w_previous_log_index w);
  ww_previous_term : is_u64 (w_previous_log_term w);
  ww_match : is_u64 (w_match_index w);
  ww_hint : is_u64 (w_reject_hint w);
  ww_slots : length (w_entries w) = 8%nat;
  ww_entries : Forall slot_wf (w_entries w)
}.

Lemma wire_block_fields w rest :
  wire_wf w ->
  let payload := wire_block w ++ rest in
  view_get payload 0 1 = w_message_type w /\ view_get payload 1 1 = w_granted w /\
  view_get payload 2 2 = w_reserved w /\ view_get payload 4 4 = w_entry_count w /\
  view_get payload 8 8 = w_from_node w /\ view_get payload 16 8 = w_to_node w /\
  view_get payload 24 8 = w_term w /\ view_get payload 32 8 = w_campaign_term w /\
  view_get payload 40 8 = w_last_log_index w /\ view_get payload 48 8 = w_last_log_term w /\
  view_get payload 56 8 = w_leader_commit w /\
  view_get payload 64 8 = w_previous_log_index w /\
  view_get payload 72 8 = w_previous_log_term w /\ view_get payload 80 8 = w_match_index w /\
  view_get payload 88 8 = w_reject_hint w.
Proof.
  intros []. cbv zeta. unfold wire_block, view_get. rewrite <- !(assoc_L (++)).
  do 2 (split; [seek; by apply read_write1|]).
  split; [seek; by apply wl_read_write; [apply w2|]|].
  split; [seek; by apply wl_read_write; [apply w4|]|].
  do 10 (split; [seek; by apply read_write8|]). seek; by apply read_write8.
Qed.

Lemma read_fields_layout w :
  wire_wf w -> tr_wire_v3_read_fields (wire_layout w) = Some w.
Proof.
  intros Hw. pose proof Hw as []. unfold tr_wire_v3_read_fields.
  pose proof (wire_layout_block w) as Hlay.
  pose proof (length_wire_block w) as Hblk. pose proof (length_slots (w_entries w)) as Hsl.
  rewrite ww_slots0 in Hsl.
  assert (view_slots_data (wire_layout w) 8 288 =
    Some (we_data <$> w_entries w, length (wire_layout w))) as Hdata.
  { pose proof (view_slots_data_at (we_data <$> w_entries w)
      (wire_block w ++ concat (wire_slot <$> w_entries w)) [] 288) as Hv.
    rewrite length_fmap, ww_slots0, app_nil_r, <- (assoc_L (++)), <- Hlay in Hv.
    rewrite Hv; [|by rewrite length_app, Hblk, Hsl|].
    - do 2 f_equal. rewrite Hlay, !length_app, Hblk, Hsl. lia.
    - apply Forall_fmap. eapply list.Forall_impl; [exact ww_entries0|].
      intros e He. by apply sw_length. }
  unfold RaftWireMessageV3_BLOCK_LENGTH.
  replace (length (wire_layout w) <? 288)%nat with false
    by (symmetry; apply Nat.ltb_ge; rewrite Hlay, !length_app, Hblk, Hsl; lia).
  rewrite Hdata, Nat.eqb_refl.
  assert (imap (fun k d => WireEntry (view_get (wire_layout w) (slot_offset k) 8)
      (view_get (wire_layout w) (slot_offset k + 8) 8)
      (view_get (wire_layout w) (slot_offset k + 16) 8) d) (we_data <$> w_entries w) =
    w_entries w) as Hslots.
  { apply list_eq. intros k. rewrite list_lookup_imap, list_lookup_fmap.
    destruct (w_entries w !! k) as [e|] eqn:Hk; [|done]. cbn [fmap option_fmap option_map].
    rewrite list.Forall_forall in ww_entries0.
    destruct (slot_fields w k e Hk) as (-> & -> & ->);
      [apply ww_entries0, list_elem_of_lookup; by exists k|]. by destruct e. }
  rewrite Hslots. rewrite Hlay at 1 2 3 4 5 6 7 8 9 10 11 12 13 14 15.
  destruct (wire_block_fields w (concat (wire_slot <$> w_entries w) ++
    concat (var_field <$> (we_data <$> w_entries w))) Hw)
    as (-> & -> & -> & -> & -> & -> & -> & -> & -> & -> & -> & -> & -> & -> & ->).
  by destruct w.
Qed.

(** ** From messages to wire messages *)

Definition wire_of (m : tr_raft_message) : RaftWireMessageV3 :=
  WireMessage (type_code (m_type m)) (flag (m_granted m)) 0 (m_entry_count m)
    (m_from m) (m_to m) (m_term m)
    (if is_read_message m then m_context_id m else m_campaign_term m)
    (m_last_log_index m) (m_last_log_term m) (m_leader_commit m)
    (m_previous_log_index m) (m_previous_log_term m) (m_match_index m) (m_reject_hint m)
    ((slot_of <$> m_entries m) ++
     replicate (8 - length (m_entries m)) zero_wire_entry).

(** What [tr_message_valid] says of the entries. *)
Lemma message_valid_spec m :
  tr_message_valid m = true ->
  type_code (m_type m) <= 10 /\ m_from m <> 0 /\ m_to m <> 0 /\
  (length (m_entries m) <= 8)%nat /\
  (is_read_message m = true ->
   m_context_id m <> 0 /\ m_term m <> 0 /\ m_entries m = []) /\
  (is_read_message m = false -> m_context_id m = 0) /\
  (m_entries m <> [] -> m_type m = TR_RAFT_MSG_APPEND_REQUEST) /\
  message_entries_valid (m_previous_log_index m) 0 (m_entries m) = true.
Proof.
  unfold tr_message_valid, m_entry_count, TR_RAFT_MAX_APPEND_ENTRIES.
  destruct (_ || _) eqn:Hg; [done|]. intros Hv.
  assert (type_code (m_type m) <= 10 /\ m_from m <> 0 /\ m_to m <> 0 /\
    (length (m_entries m) <= 8)%nat) as (? & ? & ? & ?) by lia.
  do 4 (split; [done|]). destruct (is_read_message m) eqn:Hr.
  - assert (m_entries m = []) as Hnil by (apply nil_length_inv; bprop; lia).
    rewrite Hnil in *. bprop. split; [intros _; split_and!; (done || lia)|].
    by split; [|split].
  - destruct (negb (m_context_id m =? 0)) eqn:Hc; [done|].
    split; [done|]. split; [intros _; bprop; lia|].
    destruct (Z.of_nat (length (m_entries m)) =? 0) eqn:He; [assert (m_entries m = []) as -> by (apply nil_length_inv; lia); done|].
    destruct (type_eqb _ _) eqn:Ht; [|done]. split; [|done]. intros _.
    unfold type_eqb in Ht. by apply bool_decide_eq_true in Ht.
Qed.

Lemma v3_from_message m :
  resizes -> (length (m_entries m) <= 8)%nat ->
  tr_wire_v3_from_message m = (SALTS_OK, wire_of m).
Proof.
  intros Hr Hl. unfold tr_wire_v3_from_message.
  rewrite fill_slots_spec by (try done; rewrite length_replicate; lia).
  unfold wire_of, m_entry_count. rewrite u32_small by lia. by rewrite drop_replicate.
Qed.

Lemma zero_slot_wf : slot_wf zero_wire_entry.
Proof. by repeat constructor. Qed.

Lemma length_entry_payload e :
  entry_fields_wf e -> Z.of_nat (length (entry_payload e)) = entry_data_length e.
Proof. intros []. unfold entry_payload. rewrite length_take. lia. Qed.

Lemma slot_of_wf e : entry_fields_wf e -> entry_data_length e < 2 ^ 32 -> slot_wf (slot_of e).
Proof.
  intros He Hl. pose proof (length_entry_payload e He) as Hp. destruct He. constructor; try done.
  - by apply Forall_take.
  - cbn. lia.
Qed.

Lemma entries_valid_lengths prev k es :
  message_entries_valid prev k es = true -> Forall (fun e => entry_data_length e <= 512) es.
Proof.
  revert k. induction es as [|e es IH]; intros k; [constructor|]. cbn [message_entries_valid].
  destruct (_ || _) eqn:Hg; [done|]. destruct (_ && _); [done|]. intros Hv.
  constructor; [unfold TR_RAFT_MAX_ENTRY_BYTES in Hg; lia|by eapply IH].
Qed.

Lemma wire_of_wf m : message_wf m -> tr_message_valid m = true -> wire_wf (wire_of m).
Proof.
  intros Hm Hv. apply message_valid_spec in Hv as (Ht & _ & _ & Hl & _ & _ & _ & Hes).
  apply entries_valid_lengths in Hes. pose proof (type_code_range (m_type m)).
  destruct Hm. constructor; cbn; unfold is_u64, m_entry_count in *;
    try (by destruct (m_granted m)); try (lia || done).
  - by destruct (is_read_message m).
  - rewrite length_app, length_fmap, length_replicate. lia.
  - apply Forall_app. split.
    + apply Forall_fmap, list.Forall_forall. intros e He. rewrite list.Forall_forall in *.
      apply slot_of_wf; [auto|]. specialize (Hes e He). cbn in Hes. lia.
    + apply list.Forall_forall. intros e ->%elem_of_replicate_inv. apply zero_slot_wf.
Qed.

Lemma length_var_fields ds n :
  Forall (fun d => (length d <= n)%nat) ds ->
  (length (concat (var_field <$> ds)) <= (4 + n) * length ds)%nat.
Proof.
  induction 1 as [|d ds Hd _ IH]; [cbn; lia|]. rewrite fmap_cons. cbn [concat length].
  rewrite length_app, length_var_field. lia.
Qed.

Lemma length_wire_layout w :
  wire_wf w -> Forall (fun e => (length (we_data e) <= 512)%nat) (w_entries w) ->
  (length (wire_layout w) <= 4416)%nat.
Proof.
  intros Hw Hd. rewrite wire_layout_block, !length_app, length_wire_block, length_slots.
  pose proof (length_var_fields (we_data <$> w_entries w) 512) as Hl.
  rewrite Forall_fmap, length_fmap in Hl. specialize (Hl Hd). rewrite (ww_slots _ Hw) in *. lia.
Qed.

Definition message_frame (md : tr_raft_wire_metadata) (m : tr_raft_message) : list Z :=
  tr_wire_write_envelope TR_RAFT_WIRE_PAYLOAD_RAFT
    (Z.of_nat (length (wire_layout (wire_of m)))) md ++ wire_layout (wire_of m).

Lemma wire_of_size m :
  message_wf m -> tr_message_valid m = true -> (length (wire_layout (wire_of m)) <= 4416)%nat.
Proof.
  intros Hm Hv. apply length_wire_layout; [by apply wire_of_wf|].
  apply message_valid_spec in Hv as (_ & _ & _ & _ & _ & _ & _ & Hes).
  apply entries_valid_lengths in Hes. cbn. apply Forall_app. split.
  - apply Forall_fmap. eapply list.Forall_impl; [exact Hes|]. intros e He. cbn in He |- *.
    unfold entry_payload. rewrite length_take. lia.
  - apply list.Forall_forall. intros e ->%elem_of_replicate_inv. cbn. lia.
Qed.

Lemma encode_message_frame md m capacity :
  resizes -> metadata_wf md -> tr_wire_metadata_valid md = true ->
  message_wf m -> tr_message_valid m = true ->
  Z.of_nat (length (message_frame md m)) <= capacity ->
  tr_raft_wire_encode md m capacity =
  (SALTS_OK, Z.of_nat (length (message_frame md m)), Some (message_frame md m)).
Proof.
  intros Hr Hmd Hmv Hm Hv Hcap. pose proof (wire_of_size m Hm Hv) as Hsize.
  pose proof (ww_slots _ (wire_of_wf m Hm Hv)) as Hslots.
  unfold message_frame in *. rewrite length_app, length_envelope in * by done.
  unfold tr_raft_wire_encode, tr_raft_wire_encode_current. rewrite Hmv, Hv. cbn [negb orb].
  unfold TR_RAFT_WIRE_HEADER_SIZE. replace (capacity <? 48) with false by blia.
  apply message_valid_spec in Hv as (_ & _ & _ & Hl & _). rewrite v3_from_message by done.
  rewrite wl_to_bin_fits by (done || lia). cbn [negb].
  unfold TR_RAFT_WIRE_MAX_RAFT_PAYLOAD_SIZE. replace (8192 <? _) with false by blia.
  do 3 f_equal. lia.
Qed.

(** ** Reading messages *)

Lemma zero_slots_valid prev count k n :
  count <= k -> slots_valid prev count k (replicate n zero_wire_entry) = true.
Proof.
  revert k. induction n as [|n IH]; intros k Hk; [done|]. cbn [replicate slots_valid].
  replace (k <? count) with false by blia. cbn. apply IH. lia.
Qed.

Lemma slots_of_entries_valid prev count k es n :
  Forall entry_fields_wf es -> message_entries_valid prev k es = true ->
  k + Z.of_nat (length es) = count ->
  slots_valid prev count k ((slot_of <$> es) ++ replicate n zero_wire_entry) = true.
Proof.
  revert k. induction es as [|e es IH]; intros k Hes Hv Hk.
  { apply zero_slots_valid. cbn in Hk. lia. }
  apply Forall_cons_1 in Hes as [He Hes]. rewrite fmap_cons. cbn [length] in Hk.
  cbn [message_entries_valid] in Hv. cbn [app slots_valid].
  destruct (_ || _) eqn:Hg in Hv; [done|]. destruct (_ && _) eqn:Hc in Hv; [done|].
  pose proof (length_entry_payload e He) as Hlen.
  replace (k <? count) with true by blia.
  cbn [slot_of we_index we_term we_command_id we_data]. rewrite Hlen. cbn [negb andb orb].
  rewrite orb_false_r. replace (_ || _) with false by (symmetry; lia).
  assert ((entry_command_id e =? 0) && failed (fst (tr_raft_conf_decode (entry_payload e))) =
    false) as ->; [|apply IH; (done || lia)].
  unfold tr_raft_conf_entry_is_configuration in Hc.
  unfold tr_raft_conf_entry_decode, tr_raft_conf_entry_is_configuration in Hc.
  destruct (entry_command_id e =? 0); [|done]. cbn [negb andb] in *.
  replace ((entry_index e =? 0) || _ || _) with false in Hc by (symmetry; lia). done.
Qed.

Lemma read_message_codes m :
  is_read_message m = (type_code (m_type m) =? 9) || (type_code (m_type m) =? 10).
Proof. unfold is_read_message. by rewrite !type_eqb_code. Qed.

Lemma wire_of_valid m :
  message_wf m -> tr_message_valid m = true -> tr_wire_v3_fields_valid (wire_of m) = true.
Proof.
  intros Hm Hv. apply message_valid_spec in Hv as (Ht & Hf & Hto & Hl & Hread & _ & Happ & Hes).
  unfold tr_wire_v3_fields_valid. cbn [wire_of w_reserved w_granted w_message_type w_from_node
    w_to_node w_entry_count w_campaign_term w_term w_previous_log_index w_entries].
  rewrite flag_le, <- read_message_codes. unfold m_entry_count, TR_RAFT_MAX_APPEND_ENTRIES.
  replace (negb (0 =? 0) || _ || _ || _ || _ || _) with false by (symmetry; lia).
  assert (is_read_message m && ((((if is_read_message m then m_context_id m
    else m_campaign_term m) =? 0) || (m_term m =? 0)) ||
    negb (Z.of_nat (length (m_entries m)) =? 0)) = false) as ->.
  { destruct (is_read_message m) eqn:Hr; [|done].
    destruct (Hread eq_refl) as (? & ? & ->). cbn [length].
    replace (m_context_id m =? 0) with false by blia.
    by replace (m_term m =? 0) with false by blia. }
  assert (negb (Z.of_nat (length (m_entries m)) =? 0) && negb (type_code (m_type m) =? 6) = false)
    as ->.
  { destruct (m_entries m) as [|e es]; [done|]. by rewrite Happ by done. }
  apply slots_of_entries_valid; [apply Hm|done|lia].
Qed.

Lemma slot_entry_of e : entry_fields_wf e -> slot_entry (slot_of e) = entry_normal e.
Proof.
  intros He. unfold slot_entry, entry_normal. cbn.
  by rewrite (length_entry_payload e He).
Qed.

Lemma decode_v3_layout m :
  message_wf m -> tr_message_valid m = true ->
  tr_raft_wire_decode_v3 (wire_layout (wire_of m)) = (SALTS_OK, Some (message_normal m)).
Proof.
  intros Hm Hv. unfold tr_raft_wire_decode_v3.
  rewrite read_fields_layout by (by apply wire_of_wf). rewrite wire_of_valid by done.
  apply message_valid_spec in Hv as (Ht & _ & _ & Hl & Hread & Hctx & _ & _).
  cbn [wire_of w_message_type w_granted w_entry_count w_from_node w_to_node w_term
    w_campaign_term w_last_log_index w_last_log_term w_leader_commit w_previous_log_index
    w_previous_log_term w_match_index w_reject_hint w_entries].
  rewrite type_of_type_code by (intros E; rewrite E in Ht; cbn in Ht; lia).
  fold (is_read_message m). rewrite flag_bool. unfold m_entry_count.
  rewrite Nat2Z.id, take_app_length' by (by rewrite length_fmap).
  unfold message_normal. do 2 f_equal. 
  assert (slot_entry <$> (slot_of <$> m_entries m) = entry_normal <$> m_entries m) as ->.
  { rewrite <- list_fmap_compose. apply list_fmap_ext. intros k e Hk. apply slot_entry_of.
    eapply Forall_lookup_1; [apply Hm|exact Hk]. }
  destruct (is_read_message m); [done|]. by rewrite Hctx.
Qed.

Lemma decode_message_frame md m :
  metadata_wf md -> tr_wire_metadata_valid md = true ->
  message_wf m -> tr_message_valid m = true ->
  tr_raft_wire_decode (message_frame md m) = (SALTS_OK, Some (md, message_normal m)).
Proof.
  intros Hmd Hmv Hm Hv. pose proof (wire_of_size m Hm Hv) as Hsize.
  assert (md_group_id md <> 0) as Hg by (unfold tr_wire_metadata_valid in Hmv; bprop; lia).
  unfold message_frame, tr_raft_wire_decode.
  rewrite (read_write_envelope TR_RAFT_WIRE_PAYLOAD_RAFT _ md _
    ltac:(done) Hmd Hg eq_refl) by (change (tr_wire_payload_limit _) with 8192; lia).
  destruct (envelope_payload TR_RAFT_WIRE_PAYLOAD_RAFT
    (Z.of_nat (length (wire_layout (wire_of m)))) md (wire_layout (wire_of m)) Hmd) as [-> ->].
  by rewrite Nat2Z.id, firstn_all, decode_v3_layout by done.
Qed.

(** ** The decoder accepts nothing else *)

Lemma view_slots_data_inv view count off ds last :
  Forall is_byte view -> view_slots_data view count off = Some (ds, last) ->
  (off <= length view)%nat ->
  length ds = count /\ Forall (fun d => Forall is_byte d /\ Z.of_nat (length d) < 2 ^ 32) ds /\
  (last <= length view)%nat /\
  drop off view = concat (var_field <$> ds) ++ drop last view.
Proof.
  intros Hb. revert off ds last. induction count as [|count IH]; intros off ds last; cbn [view_slots_data].
  { intros [= <- <-] Ho. by split. }
  destruct (view_var view off) as [[d next]|] eqn:Hv; [|done].
  destruct (view_slots_data view count next) as [[rest last']|] eqn:Hr; [|done].
  intros [= <- <-] Ho. apply view_var_inv in Hv as (Hn & _ & Hd & Heq); [|done].
  assert (length (drop off view) = length (var_field d ++ drop next view)) as Hlen by (by rewrite Heq).
  rewrite length_app, !length_drop, length_var_field in Hlen.
  apply IH in Hr as (Hc & Hds & Hl & Heq'); [|lia].
  cbn [length]. split; [lia|]. split; [constructor; [|done]|].
  - split; [|done]. eapply Forall_var_field. rewrite <- Heq. by apply Forall_drop.
  - split; [done|]. rewrite fmap_cons. cbn [concat]. by rewrite <- (assoc_L (++)), <- Heq'.
Qed.

Definition slots_at (payload : list Z) (o : nat) (ds : list (list Z)) : list wire_entry :=
  imap (fun k d => WireEntry (view_get payload (o + 24 * k) 8)
    (view_get payload (o + 24 * k + 8) 8) (view_get payload (o + 24 * k + 16) 8) d) ds.

Lemma slots_at_cons payload o d ds :
  slots_at payload o (d :: ds) =
  WireEntry (view_get payload o 8) (view_get payload (o + 8) 8) (view_get payload (o + 16) 8) d
  :: slots_at payload (o + 24) ds.
Proof.
  unfold slots_at. rewrite imap_cons. f_equal.
  - by replace (o + 24 * 0)%nat with o by lia.
  - apply imap_ext. intros k x _. unfold compose. cbv beta.
    by replace (o + 24 * S k)%nat with (o + 24 + 24 * k)%nat by lia.
Qed.

Lemma slots_at_layout payload o ds :
  Forall is_byte payload -> (o + 24 * length ds <= length payload)%nat ->
  Forall (fun d => Forall is_byte d /\ Z.of_nat (length d) < 2 ^ 32) ds ->
  concat (wire_slot <$> slots_at payload o ds) = take (24 * length ds) (drop o payload) /\
  we_data <$> slots_at payload o ds = ds /\ Forall slot_wf (slots_at payload o ds).
Proof.
  intros Hb. revert o. induction ds as [|d ds IH]; intros o Hl Hds; [done|].
  cbn [length] in Hl. apply Forall_cons_1 in Hds as [[Hd1 Hd2] Hds].
  rewrite slots_at_cons, !fmap_cons. cbn [concat we_data].
  destruct (IH (o + 24)%nat) as (E1 & E2 & E3); [lia|done|].
  assert (forall n, (n + 8 <= length payload)%nat ->
    wl_write 8 (view_get payload n 8) = take 8 (drop n payload) /\
    is_u64 (view_get payload n 8)) as H8
    by (intros; apply write_read8; [rewrite length_drop; lia|by apply Forall_drop]).
  split; [|split; [by rewrite E2|constructor; [constructor; try done; apply H8; lia|done]]].
  rewrite E1. unfold wire_slot. cbn [we_index we_term we_command_id].
  rewrite (proj1 (H8 o ltac:(lia))), (proj1 (H8 (o + 8)%nat ltac:(lia))),
    (proj1 (H8 (o + 16)%nat ltac:(lia))).
  replace (24 * length (d :: ds))%nat with (8 + (8 + (8 + 24 * length ds)))%nat by (cbn; lia).
  rewrite <- !take_take_drop, !drop_drop, <- !(assoc_L (++)). do 4 f_equal.
  all: f_equal; lia.
Qed.

Lemma read_fields_inv payload w :
  Forall is_byte payload -> tr_wire_v3_read_fields payload = Some w ->
  wire_wf w /\ payload = wire_layout w.
Proof.
  intros Hb. unfold tr_wire_v3_read_fields, RaftWireMessageV3_BLOCK_LENGTH.
  destruct (_ <? _)%nat eqn:Hlong; [done|]. apply Nat.ltb_ge in Hlong.
  destruct (view_slots_data payload 8 288) as [[ds last]|] eqn:Hv; [|done].
  destruct (last =? length payload)%nat eqn:Hend; [|done]. apply Nat.eqb_eq in Hend.
  apply view_slots_data_inv in Hv as (Hds & Hwf & _ & Heq); [|done|done].
  rewrite (drop_ge payload last), app_nil_r in Heq by lia. intros [= <-].
  change (imap _ ds) with (slots_at payload 96 ds).
  destruct (slots_at_layout payload 96 ds) as (Hs1 & Hs2 & Hs3); [done|lia|done|].
  assert (forall n, Forall is_byte (drop n payload)) as Hd by (intros; by apply Forall_drop).
  assert (forall n width, word_width width -> (n + width <= 96)%nat ->
    0 <= view_get payload n width < 2 ^ (8 * Z.of_nat width) /\
    wl_write width (view_get payload n width) = take width (drop n payload)) as Hg
    by (intros; apply wl_write_read; [done|rewrite length_drop; lia|done]).
  split.
  - constructor; cbn [w_message_type w_granted w_reserved w_entry_count w_from_node w_to_node
      w_term w_campaign_term w_last_log_index w_last_log_term w_leader_commit
      w_previous_log_index w_previous_log_term w_match_index w_reject_hint w_entries];
      try (apply (Hg _ _ w8); lia); try (apply (Hg _ _ w1); lia).
    + apply (Hg _ _ w2). lia.
    + apply (Hg _ _ w4). lia.
    + unfold slots_at. by rewrite length_imap.
    + done.
  - rewrite wire_layout_block. unfold wire_block. cbn [w_message_type w_granted w_reserved
      w_entry_count w_from_node w_to_node w_term w_campaign_term w_last_log_index
      w_last_log_term w_leader_commit w_previous_log_index w_previous_log_term w_match_index
      w_reject_hint w_entries].
    rewrite Hs1, Hs2, <- Heq, Hds.
    assert (forall n, (n + 8 <= 96)%nat ->
      wl_write 8 (view_get payload n 8) = take 8 (drop n payload)) as H8
      by (intros; by apply Hg; [apply w8|]).
    assert (forall n, (n + 1 <= 96)%nat ->
      wl_write 1 (view_get payload n 1) = take 1 (drop n payload)) as H1
      by (intros; by apply Hg; [apply w1|]).
    rewrite !H8, !H1 by lia. rewrite (proj2 (Hg 2%nat 2%nat w2 ltac:(lia))),
      (proj2 (Hg 4%nat 4%nat w4 ltac:(lia))).
    change (24 * 8)%nat with 192%nat. rewrite <- !(assoc_L (++)).
    by rewrite (join_at 96 192 288), (join_at 88 8 96), (join_at 80 8 88), (join_at 72 8 80),
      (join_at 64 8 72), (join_at 56 8 64), (join_at 48 8 56), (join_at 40 8 48),
      (join_at 32 8 40), (join_at 24 8 32), (join_at 16 8 24), (join_at 8 8 16),
      (join_at 4 4 8), (join_at 2 2 4), (join_at 1 1 2), (join_at 0 1 1) by done.
Qed.

Lemma inactive_slots prev count k slots :
  count <= k -> slots_valid prev count k slots = true ->
  slots = replicate (length slots) zero_wire_entry.
Proof.
  revert k. induction slots as [|e slots IH]; intros k Hk; [done|]. cbn [slots_valid].
  replace (k <? count) with false by blia. cbn [andb negb]. rewrite orb_false_r.
  destruct (_ || _) eqn:Hg; [done|]. intros Hv. cbn [length replicate].
  rewrite <- (IH (k + 1)) by (done || lia). f_equal.
  destruct e as [i t cid d]. cbn [we_index we_term we_command_id we_data] in Hg. bprop.
  unfold zero_wire_entry. f_equal; [lia..|]. apply nil_length_inv. lia.
Qed.

Lemma active_slots prev count k slots :
  slots_valid prev count k slots = true -> 0 <= count - k <= Z.of_nat (length slots) ->
  Forall slot_wf slots ->
  let es := slot_entry <$> take (Z.to_nat (count - k)) slots in
  message_entries_valid prev k es = true /\ Forall entry_fields_wf es /\
  slots = (slot_of <$> es) ++ replicate (length slots - length es) zero_wire_entry.
Proof.
  revert k. induction slots as [|e slots IH]; intros k Hv Hc Hwf; cbv zeta.
  { rewrite take_nil. done. }
  destruct (decide (count = k)) as [->|Hne].
  { rewrite Z.sub_diag. cbn [Z.to_nat take fmap list_fmap app length]. rewrite Nat.sub_0_r.
    split; [done|]. split; [constructor|]. by eapply inactive_slots. }
  apply Forall_cons_1 in Hwf as [[H1 H2 H3 H4 H5] Hwf]. cbn [slots_valid] in Hv.
  destruct (_ || _) eqn:Hg in Hv; [done|]. destruct (_ && _) eqn:Hconf in Hv; [done|].
  cbn [length] in Hc. destruct (IH (k + 1)) as (E1 & E2 & E3); [done|lia|done|].
  replace (Z.to_nat (count - k)) with (S (Z.to_nat (count - (k + 1)))) by lia.
  rewrite firstn_cons, fmap_cons. set (es := slot_entry <$> take _ slots) in *.
  replace (k <? count) with true in * by blia. cbn [andb negb orb] in Hg, Hconf.
  rewrite orb_false_r in Hg. destruct e as [i t cid d].
  cbn [we_index we_term we_command_id we_data slot_entry] in *.
  split; [|split].
  - cbn [message_entries_valid]. unfold slot_entry.
    cbn [we_index we_term we_command_id we_data entry_index entry_term entry_data_length].
    apply orb_false_iff in Hg as [HL Hg]. apply orb_false_iff in Hg as [Hit Hnext].
    rewrite HL, Hit. cbn [orb]. rewrite Hnext.
    unfold tr_raft_conf_entry_decode, tr_raft_conf_entry_is_configuration.
    cbn [entry_command_id entry_index entry_term entry_data_length entry_data].
    destruct (cid =? 0); [|done]. cbn [negb andb] in *.
    rewrite Hit, HL. cbn [orb]. by rewrite Nat2Z.id, firstn_all, Hconf.
  - constructor; [|done]. constructor; cbn; (done || lia).
  - rewrite E3 at 1. cbn [length fmap list_fmap app Nat.sub]. f_equal.
    unfold slot_of, entry_payload. cbn. by rewrite Nat2Z.id, firstn_all.
Qed.

(** A valid wire message is the image of the message it decodes to. *)
Lemma decode_v3_canonical payload m :
  Forall is_byte payload -> tr_raft_wire_decode_v3 payload = (SALTS_OK, Some m) ->
  payload = wire_layout (wire_of m) /\ message_wf m /\ tr_message_valid m = true.
Proof.
  intros Hb. unfold tr_raft_wire_decode_v3.
  destruct (tr_wire_v3_read_fields payload) as [w|] eqn:Hw; [|done].
  apply read_fields_inv in Hw as [Hwf ->]; [|done].
  unfold tr_wire_v3_fields_valid, TR_RAFT_MAX_APPEND_ENTRIES.
  destruct (_ || _) eqn:Hg; [done|]. destruct (_ && _) eqn:Hread; [done|].
  destruct (_ && _) eqn:Happ in |- *; [done|].
  destruct (slots_valid _ _ _ _) eqn:Hslots; [|done].
  destruct Hwf as [W1 W2 W3 W4 ? ? ? ? ? ? ? ? ? ? ? Wn Ws].
  assert (w_reserved w = 0 /\ w_granted w <= 1 /\ w_message_type w <= 10 /\ w_from_node w <> 0 /\
    w_to_node w <> 0 /\ w_entry_count w <= 8) as (G1 & G2 & G3 & G4 & G5 & G6) by (bprop; lia).
  clear Hg. apply active_slots in Hslots as (E1 & E2 & E3); [|lia|done]. rewrite Z.sub_0_r in *.
  set (es := slot_entry <$> take (Z.to_nat (w_entry_count w)) (w_entries w)) in *.
  assert (Z.of_nat (length es) = w_entry_count w) as Hes.
  { unfold es. rewrite length_fmap, length_take. lia. }
  pose proof (type_code_of_type (w_message_type w) ltac:(lia)) as Hcode.
  intros [= <-]. set (t := type_of_code (w_message_type w)) in *.
  assert (type_eqb t TR_RAFT_MSG_READ_INDEX_REQUEST = (w_message_type w =? 9) /\
    type_eqb t TR_RAFT_MSG_READ_INDEX_RESPONSE = (w_message_type w =? 10) /\
    type_eqb t TR_RAFT_MSG_APPEND_REQUEST = (w_message_type w =? 6)) as (T1 & T2 & T3)
    by (rewrite <- Hcode; by destruct t).
  clearbody t es. split; [|split].
  - f_equal. destruct w as [ty gr re co fr to te ca li lt lc pi pt ma rh en]. cbn in *.
    unfold wire_of, is_read_message, m_entry_count. cbn. rewrite T1, T2. subst re. rewrite Hcode, Hes. f_equal.
    + assert (gr = 0 \/ gr = 1) as [-> | ->] by lia; done.
    + by destruct ((ty =? 9) || (ty =? 10)).
    + by rewrite <- Wn.
  - rewrite T1, T2. split; cbn; try done; destruct ((_ =? 9) || _); done.
  - unfold tr_message_valid, is_read_message, m_entry_count.
    cbn [m_type m_from m_to m_entries m_context_id m_term m_previous_log_index].
    rewrite T1, T2, T3, Hcode, Hes. unfold TR_RAFT_MAX_APPEND_ENTRIES.
    destruct (_ || _) eqn:Hg in |- *; [exfalso; bprop; lia|].
    destruct (_ || _) eqn:Hr in |- *; [rewrite Hr in Hread; bprop; blia|]. cbn [negb Z.eqb].
    destruct (w_entry_count w =? 0) eqn:Hz; [done|]. cbn [negb andb] in Happ.
    by rewrite Happ.
Qed.

Lemma decode_message_canonical frame md m :
  Forall is_byte frame -> tr_raft_wire_decode frame = (SALTS_OK, Some (md, m)) ->
  frame = message_frame md m /\ metadata_wf md /\ tr_wire_metadata_valid md = true /\
  message_wf m /\ tr_message_valid m = true.
Proof.
  intros Hb. unfold tr_raft_wire_decode.
  destruct (_ <? TR_RAFT_WIRE_HEADER_SIZE); [done|].
  destruct (tr_wire_read_envelope _ _) as [[|] [[md' len]|]] eqn:Henv; try done.
  apply read_envelope_canonical in Henv as (Hframe & Hlen & _ & Hmd & Hg); [|done].
  rewrite take_ge by lia.
  destruct (tr_raft_wire_decode_v3 _) as [[|] [m'|]] eqn:Hv; try done. intros [= <- <-].
  apply decode_v3_canonical in Hv as (Hp & Hm & Hmv); [|by apply Forall_drop].
  split; [|split_and!; try done; unfold tr_wire_metadata_valid; blia].
  rewrite Hframe at 1. unfold message_frame. by rewrite <- Hp, Hlen.
Qed.
End Message.
