(* ===== verification/WireLittle.v ===== *)
(** * A little-endian instance of the wire library

    Words least significant byte first, byte strings after a 32-bit length: the
    laws of [WireLaws] hold of it, so the theorems stated over them are not
    empty. *)

From S2P Require Import Prelude Configuration Bytes Vec CoreState Wire WireBinding.
From Stdlib Require Import ZArith Lia.
From stdpp Require Import base numbers list tactics.
Open Scope Z_scope.
Open Scope raft_scope.

Definition le_var (data : list Z) : list Z := le_bytes 4 (Z.of_nat (length data)) ++ data.

Definition le_slot (e : wire_entry) : list Z :=
  le_bytes 8 (we_index e) ++ le_bytes 8 (we_term e) ++ le_bytes 8 (we_command_id e).

Definition le_message (w : RaftWireMessageV3) : list Z :=
  le_bytes 1 (w_message_type w) ++ le_bytes 1 (w_granted w) ++ le_bytes 2 (w_reserved w) ++
  le_bytes 4 (w_entry_count w) ++
  concat (le_bytes 8 <$> [w_from_node w; w_to_node w; w_term w; w_campaign_term w;
    w_last_log_index w; w_last_log_term w; w_leader_commit w; w_previous_log_index w;
    w_previous_log_term w; w_match_index w; w_reject_hint w]) ++
  concat (le_slot <$> w_entries w) ++ concat (le_var <$> (we_data <$> w_entries w)).

#[global] Instance little_wire : WireLib := {|
  wl_write := le_bytes;
  wl_read n input := le_value (take n input);
  wl_write_var capacity data :=
    if (capacity <? 4 + Z.of_nat (length data)) || (2 ^ 32 <=? Z.of_nat (length data))
    then None else Some (le_var data);
  wl_read_var input :=
    let size := Z.to_nat (le_value (take 4 input)) in
    if (length input <? 4 + size)%nat then None
    else Some (take size (drop 4 input), (4 + size)%nat);
  wl_resize _ := STL_OK;
  wl_to_bin w capacity :=
    let bytes := le_message w in
    (negb (capacity <? Z.of_nat (length bytes)), Z.of_nat (length bytes), bytes)
|}.

Lemma le_message_layout w : le_message w = wire_layout w.
Proof.
  unfold le_message, wire_layout. cbn [wl_write little_wire fmap list_fmap concat].
  rewrite <- !(assoc_L (++)). by rewrite (left_id_L [] (++)).
Qed.

Lemma le_read_var_inv input data n :
  Forall is_byte input -> wl_read_var input = Some (data, n) ->
  n = (4 + length data)%nat /\ Z.of_nat (length data) < 2 ^ 32 /\
  input = var_field data ++ drop n input.
Proof.
  intros Hb. cbn [wl_read_var little_wire]. destruct (_ <? _)%nat eqn:Hlong; [done|].
  apply Nat.ltb_ge in Hlong. intros [= <- <-]. set (size := le_value (take 4 input)) in *.
  destruct (le_bytes_value (take 4 input)) as [Hr Hw]; [by apply Forall_take|].
  rewrite length_take, Nat.min_l in Hr, Hw by lia. fold size in Hr, Hw.
  rewrite length_take, length_drop, Nat.min_l by lia. split; [done|]. split; [lia|].
  unfold var_field. cbn [wl_write little_wire]. rewrite length_take, length_drop, Nat.min_l by lia.
  rewrite Z2Nat.id, Hw by lia. rewrite <- (assoc_L (++)).
  change (drop _ input) with (drop (4 + Z.to_nat size) input) at 2.
  by rewrite <- drop_drop, take_drop, take_drop.
Qed.

#[global] Instance little_wire_laws : WireLaws.
Proof.
  split.
  - intros n v _. apply length_le_bytes.
  - intros n v _. apply le_bytes_range.
  - intros n v rest _ Hv. by apply le_value_take.
  - intros n input _ Hlen Hb. destruct (le_bytes_value (take n input)) as [Hr Hw];
      [by apply Forall_take|]. by rewrite length_take, Nat.min_l in Hr, Hw by lia.
  - intros capacity data Hc Hd. cbn [wl_write_var little_wire].
    by replace (_ || _) with false by (symmetry; lia).
  - intros data rest Hd. unfold var_field. cbn [wl_write wl_read_var little_wire].
    rewrite <- (assoc_L (++)), le_value_take by (cbn; lia). rewrite Nat2Z.id.
    rewrite !length_app, length_le_bytes, drop_app_length', take_app_length'
      by (by rewrite ?length_le_bytes).
    by replace (_ <? _)%nat with false by (symmetry; apply Nat.ltb_ge; lia).
  - apply le_read_var_inv.
  - intros w capacity _ Hc. cbn [wl_to_bin little_wire]. rewrite le_message_layout.
    by replace (_ <? _) with false by (symmetry; lia).
Qed.
