(* ===== verification/Transport.v ===== *)
(** * The transport session: [src/transport/raft_transport.c]

    A session frames payloads for one peer: a packet is a 32-bit length and a
    wire frame. Outbound, a session numbers the frames; inbound, it reassembles
    the byte stream, checks cluster, nodes and number and calls the handler.

    [on_payload] is a parameter: it maps the context it is registered with and
    a payload to the new context, its status and whether it has asked for the
    destruction of the session, the one call on the session a handler makes. A
    session that has been freed is [None]. The read and write of the length are
    the 32-bit words of [Bytes]; allocations are arguments of the constructor. *)

From S2P Require Import Prelude Configuration Bytes Wire CoreState WireBinding Handshake.
From Stdlib Require Import ZArith Lia.
From stdpp Require Import base numbers list tactics.
Open Scope Z_scope.
Open Scope raft_scope.

Definition TR_RAFT_TRANSPORT_LENGTH_PREFIX_SIZE : nat := 4.
Definition TR_RAFT_TRANSPORT_MAX_PACKET_SIZE : Z := 4 + TR_RAFT_WIRE_MAX_FRAME_SIZE.

Inductive tr_raft_transport_state :=
| TR_RAFT_TRANSPORT_STATE_READY
| TR_RAFT_TRANSPORT_STATE_FAULTED.

(** The tagged union of [tr_raft_transport_payload_t]; [Payload_invalid] is a
    kind that is none of the five. *)
Inductive tr_raft_payload_data :=
| Payload_raft (raft : tr_raft_message)
| Payload_snapshot_chunk (snapshot_chunk : tr_raft_snapshot_chunk)
| Payload_snapshot_ack (snapshot_ack : tr_raft_snapshot_ack)
| Payload_data_chunk (data_chunk : tr_raft_data_chunk)
| Payload_data_ack (data_ack : tr_raft_data_ack)
| Payload_invalid.

Record tr_raft_transport_payload := Payload {
  pl_group_id : Z;
  pl_data : tr_raft_payload_data
}.

Record tr_raft_transport_status := TransportStatus {
  st_state : tr_raft_transport_state;
  st_last_outbound_message_id : Z;
  st_last_inbound_message_id : Z;
  st_frames_encoded : Z;
  st_frames_decoded : Z;
  st_bytes_encoded : Z;
  st_bytes_decoded : Z;
  st_group_routing_rejections : Z;
  st_last_rejected_group_id : Z;
  st_last_group_routing_error : status
}.

Definition eta_status (s : tr_raft_transport_status) : tr_raft_transport_status :=
  TransportStatus (st_state s) (st_last_outbound_message_id s) (st_last_inbound_message_id s)
    (st_frames_encoded s) (st_frames_decoded s) (st_bytes_encoded s) (st_bytes_decoded s)
    (st_group_routing_rejections s) (st_last_rejected_group_id s)
    (st_last_group_routing_error s).
#[export] Instance set_st_state : Setter st_state := ltac:(setter eta_status st_state).
#[export] Instance set_st_last_outbound : Setter st_last_outbound_message_id :=
  ltac:(setter eta_status st_last_outbound_message_id).
#[export] Instance set_st_last_inbound : Setter st_last_inbound_message_id :=
  ltac:(setter eta_status st_last_inbound_message_id).
#[export] Instance set_st_frames_encoded : Setter st_frames_encoded :=
  ltac:(setter eta_status st_frames_encoded).
#[export] Instance set_st_frames_decoded : Setter st_frames_decoded :=
  ltac:(setter eta_status st_frames_decoded).
#[export] Instance set_st_bytes_encoded : Setter st_bytes_encoded :=
  ltac:(setter eta_status st_bytes_encoded).
#[export] Instance set_st_bytes_decoded : Setter st_bytes_decoded :=
  ltac:(setter eta_status st_bytes_decoded).
#[export] Instance set_st_rejections : Setter st_group_routing_rejections :=
  ltac:(setter eta_status st_group_routing_rejections).
#[export] Instance set_st_rejected_group : Setter st_last_rejected_group_id :=
  ltac:(setter eta_status st_last_rejected_group_id).
#[export] Instance set_st_routing_error : Setter st_last_group_routing_error :=
  ltac:(setter eta_status st_last_group_routing_error).

(** [ts_length_prefix] and [ts_frame] are the bytes received of the two
    buffers, [length_prefix_used] and [frame_used] of them. *)
Record tr_raft_transport_session := Session {
  ts_callback_active : bool;
  ts_destroy_pending : bool;
  ts_cluster_id : list Z;
  ts_local_node_id : Z;
  ts_peer_node_id : Z;
  ts_snapshot_chunk_size : Z;
  ts_max_frame_size : Z;
  ts_next_outbound_message_id : Z;
  ts_last_inbound_message_id : Z;
  ts_outbound_ids_exhausted : bool;
  ts_status : tr_raft_transport_status;
  ts_length_prefix : list Z;
  ts_frame : list Z;
  ts_expected_frame_size : Z
}.

Definition eta_session (s : tr_raft_transport_session) : tr_raft_transport_session :=
  Session (ts_callback_active s) (ts_destroy_pending s) (ts_cluster_id s) (ts_local_node_id s) (ts_peer_node_id s)
    (ts_snapshot_chunk_size s) (ts_max_frame_size s) (ts_next_outbound_message_id s)
    (ts_last_inbound_message_id s) (ts_outbound_ids_exhausted s) (ts_status s)
    (ts_length_prefix s) (ts_frame s) (ts_expected_frame_size s).
#[export] Instance set_ts_callback : Setter ts_callback_active :=
  ltac:(setter eta_session ts_callback_active).
#[export] Instance set_ts_destroy : Setter ts_destroy_pending :=
  ltac:(setter eta_session ts_destroy_pending).
#[export] Instance set_ts_next_outbound : Setter ts_next_outbound_message_id :=
  ltac:(setter eta_session ts_next_outbound_message_id).
#[export] Instance set_ts_last_inbound : Setter ts_last_inbound_message_id :=
  ltac:(setter eta_session ts_last_inbound_message_id).
#[export] Instance set_ts_exhausted : Setter ts_outbound_ids_exhausted :=
  ltac:(setter eta_session ts_outbound_ids_exhausted).
#[export] Instance set_ts_status : Setter ts_status := ltac:(setter eta_session ts_status).
#[export] Instance set_ts_length_prefix : Setter ts_length_prefix :=
  ltac:(setter eta_session ts_length_prefix).
#[export] Instance set_ts_frame : Setter ts_frame := ltac:(setter eta_session ts_frame).
#[export] Instance set_ts_expected : Setter ts_expected_frame_size :=
  ltac:(setter eta_session ts_expected_frame_size).

(** ** The session *)

Definition tr_raft_transport_is_active (s : tr_raft_transport_session) : bool :=
  match st_state (ts_status s) with
  | TR_RAFT_TRANSPORT_STATE_READY => true
  | TR_RAFT_TRANSPORT_STATE_FAULTED => false
  end.

Definition tr_raft_transport_fault (s : tr_raft_transport_session)
    : tr_raft_transport_session :=
  s <| ts_status := (ts_status s) <| st_state := TR_RAFT_TRANSPORT_STATE_FAULTED |> |>.

Definition tr_raft_transport_group_routing_rejection (error : status) : bool :=
  bool_decide (error = SALTS_ENOENT) || bool_decide (error = SALTS_ESHUTDOWN).

Definition tr_raft_transport_cluster_id_is_valid (cluster_id : list Z) : bool :=
  existsb (fun byte => negb (byte =? 0)) cluster_id.

Definition zero_status : tr_raft_transport_status :=
  TransportStatus TR_RAFT_TRANSPORT_STATE_READY 0 0 0 0 0 0 0 0 SALTS_OK.

(** [codec] is the status of [tr_raft_wire_codec_create]. *)
Definition tr_raft_transport_session_create (cluster_id : list Z)
    (local_node_id peer_node_id first_outbound_message_id : Z)
    (handshake : tr_raft_handshake_result) (allocated : bool) (codec : status)
    : status * option tr_raft_transport_session :=
  if negb (tr_raft_transport_cluster_id_is_valid cluster_id) ||
     (local_node_id =? 0) || (peer_node_id =? 0) || (local_node_id =? peer_node_id) ||
     (first_outbound_message_id =? 0)
  then (SALTS_EINVAL, None)
  else
    match tr_raft_handshake_result_validate handshake cluster_id local_node_id
            peer_node_id with
    | SALTS_OK =>
        if negb (hr_feature_bits handshake =? 0) ||
           negb (hr_wire_major handshake =? TR_RAFT_HANDSHAKE_WIRE_MAJOR) ||
           negb (hr_wire_minor handshake =? TR_RAFT_HANDSHAKE_WIRE_MINOR) ||
           (hr_max_frame_size handshake <? TR_RAFT_WIRE_MAX_FRAME_SIZE) ||
           (hr_max_snapshot_chunk_size handshake <? TR_RAFT_WIRE_MAX_SNAPSHOT_CHUNK_BYTES)
        then (SALTS_EPROTONOSUPPORT, None)
        else if negb allocated then (SALTS_ENOMEM, None)
        else
          match codec with
          | SALTS_OK =>
              (SALTS_OK,
               Some (Session false false cluster_id local_node_id peer_node_id
                       TR_RAFT_WIRE_MAX_SNAPSHOT_CHUNK_BYTES (hr_max_frame_size handshake)
                       first_outbound_message_id 0 false zero_status [] [] 0))
          | result => (result, None)
          end
    | result => (result, None)
    end.

(** ** Outbound *)

Definition tr_raft_transport_payload_nodes (data : tr_raft_payload_data)
    : status * (Z * Z) :=
  match data with
  | Payload_raft m => (SALTS_OK, (m_from m, m_to m))
  | Payload_snapshot_chunk c => (SALTS_OK, (sc_from c, sc_to c))
  | Payload_snapshot_ack a => (SALTS_OK, (sa_from a, sa_to a))
  | Payload_data_chunk c => (SALTS_OK, (dc_from c, dc_to c))
  | Payload_data_ack a => (SALTS_OK, (da_from a, da_to a))
  | Payload_invalid => (SALTS_EPROTO, (0, 0))
  end.

Definition tr_raft_transport_prepare_outbound (s : tr_raft_transport_session)
    (payload : tr_raft_transport_payload) : status * option tr_raft_wire_metadata :=
  if pl_group_id payload =? 0 then (SALTS_EINVAL, None)
  else
    match tr_raft_transport_payload_nodes (pl_data payload) with
    | (SALTS_OK, (from, to)) =>
        if negb (tr_raft_transport_is_active s) || ts_outbound_ids_exhausted s ||
           negb (from =? ts_local_node_id s) || negb (to =? ts_peer_node_id s)
        then (SALTS_EPROTO, None)
        else (SALTS_OK, Some (Metadata (ts_cluster_id s) (pl_group_id payload)
                                (ts_next_outbound_message_id s)))
    | (result, _) => (result, None)
    end.

Definition tr_raft_transport_commit_outbound (s : tr_raft_transport_session)
    (packet_size : Z) : tr_raft_transport_session :=
  let s := s <| ts_status := (ts_status s)
                  <| st_last_outbound_message_id := ts_next_outbound_message_id s |> |> in
  let s := if ts_next_outbound_message_id s =? UINT64_MAX
           then s <| ts_outbound_ids_exhausted := true |>
           else s <| ts_next_outbound_message_id := ts_next_outbound_message_id s +64 1 |> in
  s <| ts_status := (ts_status s)
         <| st_frames_encoded := st_frames_encoded (ts_status s) +64 1 |>
         <| st_bytes_encoded := st_bytes_encoded (ts_status s) +64 packet_size |> |>.

Section Session.
Context `{WireLib}.

(** The encoding [switch]; [output] is the buffer after the length. *)
Definition encode_frame (snapshot_chunk_size : Z) (md : tr_raft_wire_metadata)
    (data : tr_raft_payload_data) (output : list Z) : status * Z * option (list Z) :=
  let capacity := Z.of_nat (length output) in
  match data with
  | Payload_raft m => tr_raft_wire_encode md m capacity
  | Payload_snapshot_chunk c =>
      if snapshot_chunk_size <? sc_data_length c then (SALTS_EPROTONOSUPPORT, 0, None)
      else tr_raft_wire_encode_snapshot_chunk md c output
  | Payload_snapshot_ack a => tr_raft_wire_encode_snapshot_ack md a output
  | Payload_data_chunk c => tr_raft_wire_encode_data_chunk md c capacity
  | Payload_data_ack a => tr_raft_wire_encode_data_ack md a capacity
  | Payload_invalid => (SALTS_EPROTO, 0, None)
  end.

(** The capacity is the length of [output]; on success the packet and the
    session after it. *)
Definition tr_raft_transport_encode_payload (s : tr_raft_transport_session)
    (payload : tr_raft_transport_payload) (output : list Z)
    : status * tr_raft_transport_session * option (list Z) :=
  if (length output <? TR_RAFT_TRANSPORT_LENGTH_PREFIX_SIZE)%nat then (SALTS_EINVAL, s, None)
  else
    match tr_raft_transport_prepare_outbound s payload with
    | (SALTS_OK, Some md) =>
        match encode_frame (ts_snapshot_chunk_size s) md (pl_data payload)
                (drop TR_RAFT_TRANSPORT_LENGTH_PREFIX_SIZE output) with
        | (SALTS_OK, frame_size, frame) =>
            if UINT32_MAX <? frame_size then (SALTS_EPROTO, s, None)
            else (SALTS_OK, tr_raft_transport_commit_outbound s (frame_size + 4),
                  Some (tr_put_u32 (u32 frame_size) ++ default [] frame))
        | (result, _, _) => (result, s, None)
        end
    | (result, _) => (result, s, None)
    end.

Definition tr_raft_transport_encode (s : tr_raft_transport_session) (group_id : Z)
    (message : tr_raft_message) (output : list Z)
    : status * tr_raft_transport_session * option (list Z) :=
  if group_id =? 0 then (SALTS_EINVAL, s, None)
  else tr_raft_transport_encode_payload s (Payload group_id (Payload_raft message)) output.

(** The length and the fixed part of the frame; [*out_prefix_size] and
    [*out_packet_size] come before the bytes. *)
Definition tr_raft_transport_encode_data_chunk_prefix (s : tr_raft_transport_session)
    (payload : tr_raft_transport_payload) (output_capacity : Z)
    : status * tr_raft_transport_session * Z * Z * option (list Z) :=
  match pl_data payload with
  | Payload_data_chunk c =>
      if output_capacity <? 4 then (SALTS_EINVAL, s, 0, 0, None)
      else
        match tr_raft_transport_prepare_outbound s payload with
        | (SALTS_OK, Some md) =>
            match tr_raft_wire_encode_data_chunk_prefix md c (output_capacity - 4) with
            | (SALTS_OK, frame_prefix_size, frame_size, prefix) =>
                if (UINT32_MAX <? frame_size) || (SIZE_MAX - 4 <? frame_prefix_size) ||
                   (SIZE_MAX - 4 <? frame_size)
                then (SALTS_EPROTO, s, 0, 0, None)
                else (SALTS_OK, tr_raft_transport_commit_outbound s (frame_size + 4),
                      frame_prefix_size + 4, frame_size + 4,
                      Some (tr_put_u32 (u32 frame_size) ++ default [] prefix))
            | (result, _, _, _) => (result, s, 0, 0, None)
            end
        | (result, _) => (result, s, 0, 0, None)
        end
  | _ => (SALTS_EINVAL, s, 0, 0, None)
  end.

Definition tr_raft_transport_encode_snapshot_chunk_prefix (s : tr_raft_transport_session)
    (payload : tr_raft_transport_payload) (output : list Z)
    : status * tr_raft_transport_session * Z * Z * option (list Z) :=
  match pl_data payload with
  | Payload_snapshot_chunk c =>
      if (length output <? TR_RAFT_TRANSPORT_LENGTH_PREFIX_SIZE)%nat
      then (SALTS_EINVAL, s, 0, 0, None)
      else if ts_snapshot_chunk_size s <? sc_data_length c
      then (SALTS_EPROTONOSUPPORT, s, 0, 0, None)
      else
        match tr_raft_transport_prepare_outbound s payload with
        | (SALTS_OK, Some md) =>
            match tr_raft_wire_encode_snapshot_chunk_prefix md c
                    (drop TR_RAFT_TRANSPORT_LENGTH_PREFIX_SIZE output) with
            | (SALTS_OK, frame_prefix_size, frame_size, prefix) =>
                if (UINT32_MAX <? frame_size) || (SIZE_MAX - 4 <? frame_prefix_size) ||
                   (SIZE_MAX - 4 <? frame_size)
                then (SALTS_EPROTO, s, 0, 0, None)
                else (SALTS_OK, tr_raft_transport_commit_outbound s (frame_size + 4),
                      frame_prefix_size + 4, frame_size + 4,
                      Some (tr_put_u32 (u32 frame_size) ++ default [] prefix))
            | (result, _, _, _) => (result, s, 0, 0, None)
            end
        | (result, _) => (result, s, 0, 0, None)
        end
  | _ => (SALTS_EINVAL, s, 0, 0, None)
  end.

(** ** Inbound *)

(** The decoding [switch]. *)
Definition decode_payload (snapshot_chunk_size kind : Z) (frame : list Z)
    : status * option (tr_raft_wire_metadata * tr_raft_payload_data) :=
  if kind =? TR_RAFT_WIRE_PAYLOAD_RAFT then
    match tr_raft_wire_decode frame with
    | (SALTS_OK, Some (md, m)) => (SALTS_OK, Some (md, Payload_raft m))
    | (result, _) => (result, None)
    end
  else if kind =? TR_RAFT_WIRE_PAYLOAD_SNAPSHOT_CHUNK then
    match tr_raft_wire_decode_snapshot_chunk frame with
    | (SALTS_OK, Some (md, c)) =>
        if snapshot_chunk_size <? sc_data_length c then (SALTS_EPROTO, None)
        else (SALTS_OK, Some (md, Payload_snapshot_chunk c))
    | (result, _) => (result, None)
    end
  else if kind =? TR_RAFT_WIRE_PAYLOAD_SNAPSHOT_ACK then
    match tr_raft_wire_decode_snapshot_ack frame with
    | (SALTS_OK, Some (md, a)) => (SALTS_OK, Some (md, Payload_snapshot_ack a))
    | (result, _) => (result, None)
    end
  else if kind =? TR_RAFT_WIRE_PAYLOAD_DATA_CHUNK then
    match tr_raft_wire_decode_data_chunk frame with
    | (SALTS_OK, Some (md, c)) => (SALTS_OK, Some (md, Payload_data_chunk c))
    | (result, _) => (result, None)
    end
  else if kind =? TR_RAFT_WIRE_PAYLOAD_DATA_ACK then
    match tr_raft_wire_decode_data_ack frame with
    | (SALTS_OK, Some (md, a)) => (SALTS_OK, Some (md, Payload_data_ack a))
    | (result, _) => (result, None)
    end
  else (SALTS_EPROTO, None).

(** [tr_raft_transport_session_destroy]; [None] is the session freed. *)
Definition tr_raft_transport_session_destroy (s : tr_raft_transport_session)
    : option tr_raft_transport_session :=
  if ts_callback_active s
  then Some (tr_raft_transport_fault (s <| ts_destroy_pending := true |>))
  else None.

Context {C : Type} (on_payload : C -> tr_raft_transport_payload -> C * status * bool).

(** The call of the handler and what follows it. *)
Definition deliver (s : tr_raft_transport_session) (context : C) (message_id : Z)
    (payload : tr_raft_transport_payload)
    : status * option tr_raft_transport_session * C :=
  let s := s <| ts_last_inbound_message_id := message_id |> in
  let s := s <| ts_status := (ts_status s)
                  <| st_last_inbound_message_id := message_id |>
                  <| st_frames_decoded := st_frames_decoded (ts_status s) +64 1 |> |> in
  let s := s <| ts_callback_active := true |> in
  let '(context, result, destroys) := on_payload context payload in
  match (if destroys then tr_raft_transport_session_destroy s else Some s) with
  | None => (SALTS_ECANCELED, None, context)
  | Some s =>
      let s := s <| ts_callback_active := false |> in
      if ts_destroy_pending s then (SALTS_ECANCELED, None, context)
      else if tr_raft_transport_group_routing_rejection result then
        let s := s <| ts_status := (ts_status s)
                        <| st_group_routing_rejections :=
                             st_group_routing_rejections (ts_status s) +64 1 |>
                        <| st_last_rejected_group_id := pl_group_id payload |>
                        <| st_last_group_routing_error := result |> |> in
        (SALTS_OK, Some s, context)
      else
        match result with
        | SALTS_OK => (SALTS_OK, Some s, context)
        | _ => (result, Some (tr_raft_transport_fault s), context)
        end
  end.

Definition tr_raft_transport_dispatch_frame (s : tr_raft_transport_session) (context : C)
    : status * option tr_raft_transport_session * C :=
  match tr_raft_wire_peek_payload_kind (ts_frame s) with
  | (SALTS_OK, Some kind) =>
      match decode_payload (ts_snapshot_chunk_size s) kind (ts_frame s) with
      | (SALTS_OK, Some (md, data)) =>
          let '(from, to) := snd (tr_raft_transport_payload_nodes data) in
          if negb (bool_decide (md_cluster_id md = ts_cluster_id s)) ||
             (md_group_id md =? 0) || (md_message_id md =? 0) ||
             (md_message_id md <=? ts_last_inbound_message_id s) ||
             negb (from =? ts_peer_node_id s) || negb (to =? ts_local_node_id s)
          then (SALTS_EPROTO, Some (tr_raft_transport_fault s), context)
          else deliver s context (md_message_id md) (Payload (md_group_id md) data)
      | (result, _) => (result, Some (tr_raft_transport_fault s), context)
      end
  | (result, _) => (result, Some (tr_raft_transport_fault s), context)
  end.

(** The resets after a frame. *)
Definition next_frame (s : tr_raft_transport_session) : tr_raft_transport_session :=
  s <| ts_length_prefix := [] |> <| ts_expected_frame_size := 0 |> <| ts_frame := [] |>.

Definition frame_size_valid (s : tr_raft_transport_session) : bool :=
  negb ((ts_expected_frame_size s <? TR_RAFT_WIRE_HEADER_SIZE) ||
        (ts_max_frame_size s <? ts_expected_frame_size s) ||
        (TR_RAFT_WIRE_MAX_FRAME_SIZE <? ts_expected_frame_size s)).

(** The end of an iteration, which reads into the frame; [continue] is the next
    iteration. *)
Definition feed_frame
    (continue : tr_raft_transport_session -> C -> list Z ->
                status * option tr_raft_transport_session * C)
    (s : tr_raft_transport_session) (context : C) (data : list Z)
    : status * option tr_raft_transport_session * C :=
  let required := (Z.to_nat (ts_expected_frame_size s) - length (ts_frame s))%nat in
  let copied := Nat.min required (length data) in
  let s := s <| ts_frame := ts_frame s ++ take copied data |> in
  let data := drop copied data in
  if Z.of_nat (length (ts_frame s)) <? ts_expected_frame_size s then continue s context data
  else
    match tr_raft_transport_dispatch_frame s context with
    | (SALTS_OK, Some s, context) => continue (next_frame s) context data
    | (result, s, context) => (result, s, context)
    end.

(** The [while] loop over the data not read yet. An iteration reads the length
    first, if it is not complete. *)
Fixpoint feed_loop (fuel : nat) (s : tr_raft_transport_session) (context : C)
    (data : list Z) : status * option tr_raft_transport_session * C :=
  match fuel, data with
  | O, _ | _, [] => (SALTS_OK, Some s, context)
  | S fuel, _ =>
      if (length (ts_length_prefix s) <? TR_RAFT_TRANSPORT_LENGTH_PREFIX_SIZE)%nat then
        let required :=
          (TR_RAFT_TRANSPORT_LENGTH_PREFIX_SIZE - length (ts_length_prefix s))%nat in
        let copied := Nat.min required (length data) in
        let s := s <| ts_length_prefix := ts_length_prefix s ++ take copied data |> in
        let data := drop copied data in
        if (length (ts_length_prefix s) <? TR_RAFT_TRANSPORT_LENGTH_PREFIX_SIZE)%nat
        then feed_loop fuel s context data
        else
          let s := s <| ts_expected_frame_size := tr_get_u32 (ts_length_prefix s) |> in
          if frame_size_valid s then feed_frame (feed_loop fuel) s context data
          else (SALTS_EPROTO, Some (tr_raft_transport_fault s), context)
      else feed_frame (feed_loop fuel) s context data
  end.

(** An iteration reads at least one byte. *)
Definition tr_raft_transport_feed (s : tr_raft_transport_session) (context : C)
    (data : list Z) : status * option tr_raft_transport_session * C :=
  if negb (tr_raft_transport_is_active s) then (SALTS_EPROTO, Some s, context)
  else
    let s := s <| ts_status := (ts_status s)
                    <| st_bytes_decoded :=
                         st_bytes_decoded (ts_status s) +64 Z.of_nat (length data) |> |> in
    feed_loop (length data) s context data.
End Session.
