(* ===== verification/TransportFeed.v ===== *)
(** * Reassembly of the byte stream

    The loop of [tr_raft_transport_feed] has the effect of reading one byte at
    a time, so the fragments a stream arrives in do not matter. *)

From S2P Require Import Prelude Configuration Bytes Wire CoreState WireBinding Handshake.
From S2P Require Import Transport.
From Stdlib Require Import ZArith Lia.
From stdpp Require Import base numbers list tactics.
Open Scope Z_scope.
Open Scope raft_scope.

Section Feed.
Context `{WireLib} {C : Type}.
Context (on_payload : C -> tr_raft_transport_payload -> C * status * bool).

Abbreviation result := (status * option tr_raft_transport_session * C)%type.
Abbreviation dispatch := (tr_raft_transport_dispatch_frame on_payload).

(** One byte. *)
Definition feed_byte (s : tr_raft_transport_session) (context : C) (b : Z) : result :=
  if (length (ts_length_prefix s) <? 4)%nat then
    let s := s <| ts_length_prefix := ts_length_prefix s ++ [b] |> in
    if (length (ts_length_prefix s) <? 4)%nat then (SALTS_OK, Some s, context)
    else
      let s := s <| ts_expected_frame_size := tr_get_u32 (ts_length_prefix s) |> in
      if frame_size_valid s then (SALTS_OK, Some s, context)
      else (SALTS_EPROTO, Some (tr_raft_transport_fault s), context)
  else
    let s := s <| ts_frame := ts_frame s ++ [b] |> in
    if Z.of_nat (length (ts_frame s)) <? ts_expected_frame_size s
    then (SALTS_OK, Some s, context)
    else
      match dispatch s context with
      | (SALTS_OK, Some s, context) => (SALTS_OK, Some (next_frame s), context)
      | r => r
      end.

Fixpoint feed_bytes (s : tr_raft_transport_session) (context : C) (data : list Z) : result :=
  match data with
  | [] => (SALTS_OK, Some s, context)
  | b :: data =>
      match feed_byte s context b with
      | (SALTS_OK, Some s, context) => feed_bytes s context data
      | r => r
      end
  end.

(** Between two bytes, either the length or the frame is incomplete. *)
Definition feeding (s : tr_raft_transport_session) : Prop :=
  ((length (ts_length_prefix s) < 4)%nat /\ ts_frame s = []) \/
  (length (ts_length_prefix s) = 4%nat /\
   Z.of_nat (length (ts_frame s)) < ts_expected_frame_size s).

Lemma feed_bytes_app s context a b :
  feed_bytes s context (a ++ b) =
  match feed_bytes s context a with
  | (SALTS_OK, Some s, context) => feed_bytes s context b
  | r => r
  end.
Proof.
  revert s context. induction a as [|x a IH]; intros s context; [done|]. cbn.
  by destruct (feed_byte s context x) as [[[|] [s1|]] c1].
Qed.

Lemma store_prefix s context l rest :
  (length (ts_length_prefix s) + length l < 4)%nat ->
  feed_bytes s context (l ++ rest) =
  feed_bytes (s <| ts_length_prefix := ts_length_prefix s ++ l |>) context rest.
Proof.
  revert s. induction l as [|b l IH]; intros s Hl; cbn [app length] in *.
  { rewrite app_nil_r. by destruct s. }
  cbn [feed_bytes]. unfold feed_byte. cbn [ts_length_prefix set_field set_ts_length_prefix].
  rewrite length_app. cbn [length].
  replace (length (ts_length_prefix s) <? 4)%nat with true by (symmetry; apply Nat.ltb_lt; lia).
  replace (_ + 1 <? 4)%nat with true by (symmetry; apply Nat.ltb_lt; lia).
  rewrite IH by (cbn; rewrite length_app; cbn; lia). cbn. by rewrite <- (assoc_L (++)).
Qed.

Lemma complete_prefix s context l rest :
  l <> [] -> (length (ts_length_prefix s) + length l = 4)%nat ->
  feed_bytes s context (l ++ rest) =
  let s := s <| ts_length_prefix := ts_length_prefix s ++ l |> in
  let s := s <| ts_expected_frame_size := tr_get_u32 (ts_length_prefix s) |> in
  if frame_size_valid s then feed_bytes s context rest
  else (SALTS_EPROTO, Some (tr_raft_transport_fault s), context).
Proof.
  intros Hne Hl. destruct l as [|b l] using rev_ind; [done|]. clear IHl.
  rewrite length_app in Hl. cbn [length] in Hl. rewrite <- (assoc_L (++)), store_prefix by lia.
  cbn [app feed_bytes]. unfold feed_byte. cbn [ts_length_prefix set_field set_ts_length_prefix].
  rewrite <- (assoc_L (++)), !length_app. cbn [length].
  replace (_ + length l <? 4)%nat with true by (symmetry; apply Nat.ltb_lt; lia).
  replace (_ + (length l + 1) <? 4)%nat with false by (symmetry; apply Nat.ltb_ge; lia).
  cbv zeta. by destruct (frame_size_valid _).
Qed.

Lemma store_frame s context l rest :
  length (ts_length_prefix s) = 4%nat ->
  Z.of_nat (length (ts_frame s) + length l) < ts_expected_frame_size s ->
  feed_bytes s context (l ++ rest) =
  feed_bytes (s <| ts_frame := ts_frame s ++ l |>) context rest.
Proof.
  intros Hp. revert s Hp. induction l as [|b l IH]; intros s Hp Hl; cbn [app length] in *.
  { rewrite app_nil_r. by destruct s. }
  cbn [feed_bytes]. unfold feed_byte. rewrite Hp. cbn [Nat.ltb Nat.leb].
  cbn [ts_frame ts_expected_frame_size set_field set_ts_frame].
  rewrite length_app. cbn [length]. replace (_ <? _) with true by blia.
  rewrite IH; [|done|cbn; rewrite length_app; cbn; lia]. cbn. by rewrite <- (assoc_L (++)).
Qed.

Lemma complete_frame s context l rest :
  length (ts_length_prefix s) = 4%nat -> l <> [] ->
  Z.of_nat (length (ts_frame s) + length l) = ts_expected_frame_size s ->
  feed_bytes s context (l ++ rest) =
  match dispatch (s <| ts_frame := ts_frame s ++ l |>) context with
  | (SALTS_OK, Some s, context) => feed_bytes (next_frame s) context rest
  | r => r
  end.
Proof.
  intros Hp Hne Hl. destruct l as [|b l] using rev_ind; [done|]. clear IHl.
  rewrite length_app in Hl. cbn [length] in Hl. rewrite <- (assoc_L (++)), store_frame by (done || lia).
  cbn [app feed_bytes]. unfold feed_byte. cbn [ts_length_prefix ts_frame ts_expected_frame_size
    set_field set_ts_frame]. rewrite Hp. cbn [Nat.ltb Nat.leb].
  rewrite <- (assoc_L (++)), !length_app. cbn [length]. replace (_ <? _) with false by blia.
  change (s <| ts_frame := ts_frame s ++ l |> <| ts_frame := ts_frame s ++ l ++ [b] |>)
    with (s <| ts_frame := ts_frame s ++ l ++ [b] |>).
  by destruct (dispatch _ context) as [[[|] [s1|]] c1].
Qed.

(** ** The loop reads bytes *)

Lemma next_frame_feeding s : feeding (next_frame s).
Proof. left. cbn. split; [lia|done]. Qed.

Lemma feed_frame_bytes continue s context data :
  length (ts_length_prefix s) = 4%nat ->
  Z.of_nat (length (ts_frame s)) < ts_expected_frame_size s ->
  (forall s context rest, feeding s -> (length rest <= length data)%nat ->
     (length rest < length data)%nat \/ rest = [] ->
     continue s context rest = feed_bytes s context rest) ->
  feed_frame on_payload continue s context data = feed_bytes s context data.
Proof.
  intros Hp Hf Hc. unfold feed_frame.
  set (copied := Nat.min (Z.to_nat (ts_expected_frame_size s) - length (ts_frame s)) (length data)).
  set (l := take copied data). set (rest := drop copied data).
  assert (length l = copied) as Hl by (unfold l; rewrite length_take; lia).
  assert (length rest = length data - copied)%nat as Hrest by apply length_drop.
  assert (feed_bytes s context data = feed_bytes s context (l ++ rest)) as ->
    by (unfold l, rest; by rewrite take_drop).
  cbn [ts_frame ts_expected_frame_size set_field set_ts_frame]. rewrite length_app, Hl.
  destruct (_ <? _) eqn:Hshort; bprop.
  - rewrite store_frame by (rewrite ?Hl; done). apply Hc; [right; cbn; rewrite length_app; lia|lia|].
    right. apply nil_length_inv. lia.
  - destruct data as [|b data]; [cbn in *; lia|]. cbn [length] in *.
    rewrite complete_frame; [|done|intros El; rewrite El in Hl; cbn in Hl; lia|lia].
    destruct (dispatch _ context) as [[[|] [s1|]] c1]; try done.
    apply Hc; [apply next_frame_feeding|lia|left; lia].
Qed.

Lemma feed_loop_bytes fuel s context data :
  feeding s -> (length data <= fuel)%nat ->
  feed_loop on_payload fuel s context data = feed_bytes s context data.
Proof.
  revert s context data. induction fuel as [|fuel IH]; intros s context data Hs Hf.
  { destruct data; [done|cbn in Hf; lia]. }
  destruct data as [|b data]; [done|]. cbn [feed_loop].
  unfold TR_RAFT_TRANSPORT_LENGTH_PREFIX_SIZE.
  destruct Hs as [[Hp Hn]|[Hp Hn]].
  - replace (_ <? 4)%nat with true by (symmetry; apply Nat.ltb_lt; lia).
    set (copied := Nat.min (4 - length (ts_length_prefix s)) (length (b :: data))).
    set (l := take copied (b :: data)). set (rest := drop copied (b :: data)).
    assert (length l = copied) as Hl by (unfold l; rewrite length_take; lia).
    assert (length rest = length (b :: data) - copied)%nat as Hrest by apply length_drop.
    assert (feed_bytes s context (b :: data) = feed_bytes s context (l ++ rest)) as ->
      by (unfold l, rest; by rewrite take_drop).
    cbn [ts_length_prefix set_field set_ts_length_prefix length] in *.
    rewrite length_app, Hl. destruct (_ + copied <? 4)%nat eqn:Hshort.
    + apply Nat.ltb_lt in Hshort. rewrite store_prefix by lia. apply IH; [|lia].
      left. cbn. rewrite length_app. split; [lia|done].
    + apply Nat.ltb_ge in Hshort. rewrite complete_prefix;
        [|intros El; rewrite El in Hl; cbn in Hl; lia|lia]. cbv zeta.
      destruct (frame_size_valid _) eqn:Hv; [|done].
      apply feed_frame_bytes; cbn [ts_length_prefix ts_frame ts_expected_frame_size set_field
        set_ts_length_prefix set_ts_expected].
      * rewrite length_app. lia.
      * rewrite Hn. unfold frame_size_valid, TR_RAFT_WIRE_HEADER_SIZE in Hv. cbn in Hv |- *. lia.
      * intros s2 c2 r Hs2 Hr _. apply IH; [done|lia].
  - replace (_ <? 4)%nat with false by (symmetry; apply Nat.ltb_ge; lia).
    apply feed_frame_bytes; [done|done|]. intros s2 c2 r Hs2 Hr [Hlt| ->]; [|by destruct fuel].
    apply IH; [done|]. cbn [length] in *. lia.
Qed.

(** ** Fragments *)

(** [session->status.bytes_decoded += n] *)
Definition count_bytes (n : nat) (s : tr_raft_transport_session) : tr_raft_transport_session :=
  s <| ts_status := (ts_status s)
         <| st_bytes_decoded := st_bytes_decoded (ts_status s) +64 Z.of_nat n |> |>.

Definition counted (n : nat) (r : result) : result :=
  let '(status, s, context) := r in (status, count_bytes n <$> s, context).

Lemma deliver_count n s context id payload :
  deliver on_payload (count_bytes n s) context id payload =
  counted n (deliver on_payload s context id payload).
Proof.
  unfold deliver. destruct (on_payload context payload) as [[c r] d].
  destruct s as [? [] ? ? ? ? ? ? ? ? [] ? ? ?], d; cbn; [done..| |]; try done.
  - destruct (tr_raft_transport_group_routing_rejection r); [done|]. by destruct r.
Qed.

Lemma dispatch_count n s context :
  dispatch (count_bytes n s) context = counted n (dispatch s context).
Proof.
  unfold tr_raft_transport_dispatch_frame.
  cbn [ts_frame ts_snapshot_chunk_size ts_cluster_id ts_last_inbound_message_id ts_peer_node_id
    ts_local_node_id count_bytes set_field set_ts_status].
  destruct (tr_raft_wire_peek_payload_kind _) as [[|] [kind|]]; try done.
  destruct (decode_payload _ _ _) as [[|] [[md data]|]]; try done.
  destruct (snd _) as [from to]. destruct (_ || _); [done|]. apply deliver_count.
Qed.

Lemma feed_byte_count n s context b :
  feed_byte (count_bytes n s) context b = counted n (feed_byte s context b).
Proof.
  unfold feed_byte. change (ts_length_prefix (count_bytes n s)) with (ts_length_prefix s).
  change (ts_frame (count_bytes n s)) with (ts_frame s). destruct (_ <? 4)%nat.
  - cbn [ts_length_prefix set_field set_ts_length_prefix].
    destruct (_ <? 4)%nat; [done|]. unfold frame_size_valid. cbn. by destruct (negb _).
  - change (set_field ts_frame (ts_frame s ++ [b]) (count_bytes n s))
      with (count_bytes n (s <| ts_frame := ts_frame s ++ [b] |>)).
    set (s1 := s <| ts_frame := _ |>). cbn [ts_frame ts_expected_frame_size s1].
    change (ts_frame (count_bytes n s1)) with (ts_frame s1).
    change (ts_expected_frame_size (count_bytes n s1)) with (ts_expected_frame_size s1).
    destruct (_ <? _); [done|]. rewrite dispatch_count. by destruct (dispatch s1 context) as [[[|] [s2|]] c1].
Qed.

Lemma feed_bytes_count n s context data :
  feed_bytes (count_bytes n s) context data = counted n (feed_bytes s context data).
Proof.
  revert s context. induction data as [|b data IH]; intros s context; [done|]. cbn [feed_bytes].
  rewrite feed_byte_count. destruct (feed_byte s context b) as [[[|] [s1|]] c1]; try done.
  apply IH.
Qed.

Lemma count_count n m s : count_bytes n (count_bytes m s) = count_bytes (m + n) s.
Proof.
  unfold count_bytes. destruct s as [? ? ? ? ? ? ? ? ? ? [] ? ? ?]. cbn.
  by rewrite u64_add_idemp, Nat2Z.inj_add, Z.add_assoc.
Qed.

(** ** What a feed keeps *)

Lemma deliver_ok s context id payload s' context' :
  deliver on_payload s context id payload = (SALTS_OK, Some s', context') ->
  st_state (ts_status s') = st_state (ts_status s).
Proof.
  unfold deliver. destruct (on_payload context payload) as [[c r] d]. destruct d; [done|].
  cbn [ts_destroy_pending set_field set_ts_callback set_ts_status set_ts_last_inbound].
  destruct (ts_destroy_pending s); [done|].
  destruct (tr_raft_transport_group_routing_rejection r); [by intros [= <- <-]|].
  destruct r; [by intros [= <- <-]|done].
Qed.

Lemma decode_payload_some size kind frame :
  decode_payload size kind frame <> (SALTS_OK, None).
Proof.
  unfold decode_payload, tr_raft_wire_decode, tr_raft_wire_decode_v3,
    tr_raft_wire_decode_snapshot_chunk, tr_raft_wire_decode_snapshot_ack,
    tr_raft_wire_decode_data_chunk, tr_raft_wire_decode_data_ack.
  repeat case_match; simplify_eq; done.
Qed.

Lemma dispatch_ok s context s' context' :
  dispatch s context = (SALTS_OK, Some s', context') ->
  st_state (ts_status s') = st_state (ts_status s).
Proof.
  unfold tr_raft_transport_dispatch_frame, tr_raft_wire_peek_payload_kind.
  destruct (failed _); [by destruct (_ <? _)|]. destruct (_ || _); [done|].
  destruct (decode_payload _ _ _) as [[|] [[md data]|]] eqn:Hd; try done;
    [|by apply decode_payload_some in Hd].
  destruct (snd _) as [from to]. destruct (_ || _); [done|]. apply deliver_ok.
Qed.

Lemma feed_byte_ok s context b s' context' :
  feeding s -> feed_byte s context b = (SALTS_OK, Some s', context') ->
  feeding s' /\ st_state (ts_status s') = st_state (ts_status s).
Proof.
  intros Hs. unfold feed_byte. destruct (_ <? 4)%nat eqn:Hp.
  - cbn [ts_length_prefix set_field set_ts_length_prefix].
    assert (ts_frame s = []) as Hn.
    { destruct Hs as [[_ Hn]|[Hn _]]; [done|]. rewrite Hn in Hp. done. }
    destruct (length (_ ++ [b]) <? 4)%nat eqn:Hp'; [|destruct (frame_size_valid _) eqn:Hv; [|done]];
      intros [= <- <-]; (split; [|done]).
    + left. apply Nat.ltb_lt in Hp'. done.
    + right. apply Nat.ltb_lt in Hp. apply Nat.ltb_ge in Hp'.
      unfold frame_size_valid, TR_RAFT_WIRE_HEADER_SIZE in Hv. cbn in *.
      rewrite length_app in *. cbn in *. rewrite Hn. cbn in *. lia.
  - destruct Hs as [[Hs _]|[Hs _]]; [apply Nat.ltb_ge in Hp; lia|].
    destruct (Z.of_nat _ <? _) eqn:Hf.
    + intros [= <- <-]. split; [|done]. right. cbn in *. split; [done|lia].
    + destruct (dispatch _ context) as [[[|] [s1|]] c1] eqn:Hd; try done.
      intros [= <- <-]. split; [apply next_frame_feeding|]. by apply dispatch_ok in Hd.
Qed.

Lemma feed_bytes_ok s context data s' context' :
  feeding s -> feed_bytes s context data = (SALTS_OK, Some s', context') ->
  feeding s' /\ st_state (ts_status s') = st_state (ts_status s).
Proof.
  revert s context. induction data as [|b data IH]; intros s context Hs; cbn [feed_bytes].
  { by intros [= <- <-]. }
  destruct (feed_byte s context b) as [[[|] [s1|]] c1] eqn:Hb; try done.
  apply feed_byte_ok in Hb as [H1 H2]; [|done]. intros Hd. apply IH in Hd as [H3 H4]; [|done].
  by rewrite H4.
Qed.

Lemma feed_feed_bytes s context data :
  feeding s ->
  tr_raft_transport_feed on_payload s context data =
  if tr_raft_transport_is_active s
  then counted (length data) (feed_bytes s context data)
  else (SALTS_EPROTO, Some s, context).
Proof.
  intros Hs. unfold tr_raft_transport_feed.
  destruct (tr_raft_transport_is_active s); [|done]. cbn [negb].
  change (set_field ts_status _ s) with (count_bytes (length data) s).
  rewrite feed_loop_bytes by (done || exact Hs). apply feed_bytes_count.
Qed.

(** A session at the start of a packet is between two bytes. *)
Definition at_boundary (s : tr_raft_transport_session) : Prop :=
  ts_length_prefix s = [] /\ ts_frame s = [].

Lemma boundary_feeding s : at_boundary s -> feeding s.
Proof. intros [Hp Hf]. left. rewrite Hp. split; [cbn; lia|done]. Qed.

(** Fragmentation does not matter. Feeding a stream in one call has the
    effect of feeding its first part and then, if that succeeds, the rest: the
    same status, the same session and the same handler calls. If the first
    part fails, so does the whole stream, with the same status and calls; the
    sessions differ in the count of bytes received alone. *)
Theorem feed_split (s : tr_raft_transport_session) (context : C) (a b : list Z) :
  feeding s -> tr_raft_transport_is_active s = true ->
  tr_raft_transport_feed on_payload s context (a ++ b) =
  match tr_raft_transport_feed on_payload s context a with
  | (SALTS_OK, Some s1, context1) => tr_raft_transport_feed on_payload s1 context1 b
  | r => counted (length b) r
  end.
Proof.
  intros Hs Ha. rewrite !feed_feed_bytes, Ha by done. rewrite feed_bytes_app, length_app.
  destruct (feed_bytes s context a) as [[[|err] [s1|]] c1] eqn:Hb; cbn [counted fmap option_fmap option_map];
    rewrite ?count_count; try done.
  apply feed_bytes_ok in Hb as [H1 H2]; [|done]. rewrite feed_feed_bytes by exact H1.
  unfold tr_raft_transport_is_active in *. 
  change (st_state (ts_status (count_bytes (length a) s1))) with (st_state (ts_status s1)).
  rewrite H2, Ha, feed_bytes_count.
  destruct (feed_bytes s1 c1 b) as [[st [s2|]] c2]; cbn [counted fmap option_fmap option_map]; [|done].
  by rewrite count_count.
Qed.
End Feed.
