(* ===== verification/TransportTheorems.v ===== *)
(** * What a session delivers

    The payloads one session encodes are the payloads the session of the peer
    delivers, in order and once; and a session delivers nothing but valid
    payloads of its peer, whatever bytes arrive. *)

From S2P Require Import Prelude Configuration Bytes Wire CoreState WireBinding Handshake.
From S2P Require Import WireTheorems WireMessage WireLittle Transport TransportFeed.
From Stdlib Require Import ZArith Lia.
From stdpp Require Import base numbers list tactics.
Open Scope Z_scope.
Open Scope raft_scope.

(** ** Payloads *)

Definition payload_kind (data : tr_raft_payload_data) : Z :=
  match data with
  | Payload_raft _ => TR_RAFT_WIRE_PAYLOAD_RAFT
  | Payload_snapshot_chunk _ => TR_RAFT_WIRE_PAYLOAD_SNAPSHOT_CHUNK
  | Payload_snapshot_ack _ => TR_RAFT_WIRE_PAYLOAD_SNAPSHOT_ACK
  | Payload_data_chunk _ => TR_RAFT_WIRE_PAYLOAD_DATA_CHUNK
  | Payload_data_ack _ => TR_RAFT_WIRE_PAYLOAD_DATA_ACK
  | Payload_invalid => 0
  end.

(** The ranges and array sizes the C types guarantee. *)
Definition payload_wf (data : tr_raft_payload_data) : Prop :=
  match data with
  | Payload_raft m => message_wf m
  | Payload_snapshot_chunk c => snapshot_chunk_wf c
  | Payload_snapshot_ack a => snapshot_ack_wf a
  | Payload_data_chunk c => data_chunk_wf c
  | Payload_data_ack a => data_ack_wf a
  | Payload_invalid => False
  end.

(** The validity the codec checks. *)
Definition payload_valid (data : tr_raft_payload_data) : bool :=
  match data with
  | Payload_raft m => tr_message_valid m
  | Payload_snapshot_chunk c => tr_snapshot_chunk_valid c
  | Payload_snapshot_ack a => tr_snapshot_ack_valid a
  | Payload_data_chunk c => tr_data_chunk_valid c
  | Payload_data_ack a => tr_data_ack_valid a
  | Payload_invalid => false
  end.

(** What the decoder returns: for a message, the bytes after the data of an
    entry are not sent, nor is the campaign term of a read message. *)
Definition payload_normal (data : tr_raft_payload_data) : tr_raft_payload_data :=
  match data with
  | Payload_raft m => Payload_raft (message_normal m)
  | data => data
  end.

Section Payloads.
Context `{WireLaws}.

Definition payload_body (data : tr_raft_payload_data) : list Z :=
  match data with
  | Payload_raft m => wire_layout (wire_of m)
  | Payload_snapshot_chunk c => snapshot_chunk_layout c
  | Payload_snapshot_ack a => snapshot_ack_layout a
  | Payload_data_chunk c => data_chunk_fixed c ++ dc_data c
  | Payload_data_ack a => data_ack_fixed a
  | Payload_invalid => []
  end.

Definition payload_frame (md : tr_raft_wire_metadata) (data : tr_raft_payload_data) : list Z :=
  tr_wire_write_envelope (payload_kind data) (Z.of_nat (length (payload_body data))) md ++
  payload_body data.

Lemma payload_body_limit data :
  payload_wf data -> payload_valid data = true ->
  Z.of_nat (length (payload_body data)) <= tr_wire_payload_limit (payload_kind data).
Proof.
  destruct data as [m|c|a|c|a|]; cbn [payload_wf payload_valid payload_body payload_kind];
    intros Hw Hv; [| | | | |done].
  - pose proof (wire_of_size m Hw Hv). change (tr_wire_payload_limit _) with 8192. lia.
  - destruct (scw_digest _ Hw) as [Hd _]. rewrite length_chunk_layout by done.
    pose proof (conf_bytes_length c Hv). destruct (snapshot_chunk_valid_spec c Hv) as [? _].
    change (tr_wire_payload_limit _) with 69632. lia.
  - destruct (saw_digest _ Hw) as [Hd _]. rewrite length_snapshot_ack_layout by done. done.
  - destruct (dcw_digest _ Hw) as [Hd _]. rewrite length_app, length_data_chunk_fixed by done.
    pose proof (data_chunk_valid_length c Hw Hv). unfold dc_data_length in *.
    change (tr_wire_payload_limit _) with 65664. lia.
  - destruct (daw_digest _ Hw) as [Hd _]. unfold data_ack_fixed. wire_len. done.
Qed.

Lemma payload_frame_length md data :
  metadata_wf md -> payload_wf data -> payload_valid data = true ->
  Z.of_nat (length (payload_frame md data)) = 48 + Z.of_nat (length (payload_body data)) /\
  Z.of_nat (length (payload_frame md data)) <= TR_RAFT_WIRE_MAX_FRAME_SIZE.
Proof.
  intros Hmd Hw Hv. unfold payload_frame. rewrite length_app, length_envelope by done.
  pose proof (payload_body_limit data Hw Hv). pose proof (payload_limit_bound (payload_kind data)).
  unfold TR_RAFT_WIRE_MAX_FRAME_SIZE, TR_RAFT_WIRE_HEADER_SIZE, TR_RAFT_WIRE_MAX_PAYLOAD_SIZE,
    TR_RAFT_WIRE_MAX_SNAPSHOT_PAYLOAD_SIZE, TR_RAFT_WIRE_MAX_SNAPSHOT_CHUNK_BYTES. lia.
Qed.

(** The frames of the five codecs. *)
Lemma payload_frame_cases md data :
  payload_wf data ->
  payload_frame md data =
  match data with
  | Payload_raft m => message_frame md m
  | Payload_snapshot_chunk c => snapshot_chunk_frame md c
  | Payload_snapshot_ack a => snapshot_ack_frame md a
  | Payload_data_chunk c => data_chunk_frame md c
  | Payload_data_ack a => data_ack_frame md a
  | Payload_invalid => []
  end.
Proof.
  destruct data as [m|c|a|c|a|]; intros Hw; cbn in Hw; try done; unfold payload_frame;
    cbn [payload_kind payload_body].
  - destruct (saw_digest _ Hw) as [Hd _]. by rewrite length_snapshot_ack_layout.
  - destruct (dcw_digest _ Hw) as [Hd _]. unfold data_chunk_frame.
    by rewrite length_app, length_data_chunk_fixed, Nat2Z.inj_add.
  - destruct (daw_digest _ Hw) as [Hd _]. unfold data_ack_frame.
    assert (length (data_ack_fixed a) = 82%nat) as -> by (unfold data_ack_fixed; by wire_len).
    done.
Qed.

Lemma encode_payload_frame size md data output :
  resizes -> metadata_wf md -> tr_wire_metadata_valid md = true ->
  payload_wf data -> payload_valid data = true ->
  TR_RAFT_WIRE_MAX_SNAPSHOT_CHUNK_BYTES <= size ->
  (length (payload_frame md data) <= length output)%nat ->
  encode_frame size md data output =
  (SALTS_OK, Z.of_nat (length (payload_frame md data)), Some (payload_frame md data)).
Proof.
  intros Hr Hmd Hmv Hw Hv Hsize Hlen. destruct (payload_frame_length md data Hmd Hw Hv) as [Hl _].
  rewrite payload_frame_cases in * by done.
  destruct data as [m|c|a|c|a|]; cbn [payload_wf payload_valid] in *; try done;
    cbn [encode_frame payload_body] in *.
  - apply encode_message_frame; (done || lia).
  - destruct (snapshot_chunk_valid_spec c Hv) as [Hd _].
    unfold TR_RAFT_WIRE_MAX_SNAPSHOT_CHUNK_BYTES in Hsize. unfold sc_data_length.
    replace (size <? _) with false by blia. by apply encode_snapshot_chunk_frame.
  - destruct (saw_digest _ Hw) as [Hd _]. rewrite length_snapshot_ack_layout in Hl by done.
    rewrite encode_snapshot_ack_frame by (done || lia). by rewrite Hl.
  - destruct (dcw_digest _ Hw) as [Hd _]. rewrite length_app, length_data_chunk_fixed in Hl by done.
    rewrite encode_data_chunk_frame by (unfold dc_data_length; (done || lia)).
    rewrite Hl. unfold dc_data_length. do 2 f_equal. lia.
  - destruct (daw_digest _ Hw) as [Hd _].
    assert (length (data_ack_fixed a) = 82%nat) as Hf by (unfold data_ack_fixed; by wire_len).
    rewrite encode_data_ack_frame by (done || lia). rewrite Hl, Hf. done.
Qed.

Lemma decode_payload_frame size md data :
  metadata_wf md -> tr_wire_metadata_valid md = true ->
  payload_wf data -> payload_valid data = true ->
  TR_RAFT_WIRE_MAX_SNAPSHOT_CHUNK_BYTES <= size ->
  decode_payload size (payload_kind data) (payload_frame md data) =
  (SALTS_OK, Some (md, payload_normal data)).
Proof.
  intros Hmd Hmv Hw Hv Hsize. rewrite payload_frame_cases by done.
  destruct data as [m|c|a|c|a|]; cbn [payload_wf payload_valid] in *; try done;
    unfold decode_payload; cbn [payload_kind payload_normal Z.eqb Pos.eqb
      TR_RAFT_WIRE_PAYLOAD_RAFT TR_RAFT_WIRE_PAYLOAD_SNAPSHOT_CHUNK
      TR_RAFT_WIRE_PAYLOAD_SNAPSHOT_ACK TR_RAFT_WIRE_PAYLOAD_DATA_CHUNK
      TR_RAFT_WIRE_PAYLOAD_DATA_ACK].
  - by rewrite decode_message_frame.
  - rewrite decode_snapshot_chunk_frame by done.
    destruct (snapshot_chunk_valid_spec c Hv) as [Hd _].
    unfold TR_RAFT_WIRE_MAX_SNAPSHOT_CHUNK_BYTES in Hsize. unfold sc_data_length.
    by replace (size <? _) with false by blia.
  - by rewrite decode_snapshot_ack_frame.
  - by rewrite decode_data_chunk_frame.
  - by rewrite decode_data_ack_frame.
Qed.

Lemma decode_payload_canonical size kind frame md data :
  Forall is_byte frame -> decode_payload size kind frame = (SALTS_OK, Some (md, data)) ->
  kind = payload_kind data /\ frame = payload_frame md data /\ metadata_wf md /\
  tr_wire_metadata_valid md = true /\ payload_wf data /\ payload_valid data = true.
Proof.
  intros Hb. unfold decode_payload.
  destruct (kind =? TR_RAFT_WIRE_PAYLOAD_RAFT) eqn:K1; [apply Z.eqb_eq in K1|clear K1].
  { destruct (tr_raft_wire_decode frame) as [[|] [[md' m]|]] eqn:Hd; try done.
    intros [= <- <-]. apply decode_message_canonical in Hd as (H1 & H2 & H3 & H4 & H5); [|done].
    by rewrite payload_frame_cases. }
  destruct (kind =? TR_RAFT_WIRE_PAYLOAD_SNAPSHOT_CHUNK) eqn:K2; [apply Z.eqb_eq in K2|clear K2].
  { destruct (tr_raft_wire_decode_snapshot_chunk frame) as [[|] [[md' m]|]] eqn:Hd; try done.
    destruct (size <? _); [done|].
    intros [= <- <-]. apply decode_snapshot_chunk_canonical in Hd as (H1 & H2 & H3 & H4 & H5); [|done].
    by rewrite payload_frame_cases. }
  destruct (kind =? TR_RAFT_WIRE_PAYLOAD_SNAPSHOT_ACK) eqn:K3; [apply Z.eqb_eq in K3|clear K3].
  { destruct (tr_raft_wire_decode_snapshot_ack frame) as [[|] [[md' m]|]] eqn:Hd; try done.
    intros [= <- <-]. apply decode_snapshot_ack_canonical in Hd as (H1 & H2 & H3 & H4 & H5); [|done].
    by rewrite payload_frame_cases. }
  destruct (kind =? TR_RAFT_WIRE_PAYLOAD_DATA_CHUNK) eqn:K4; [apply Z.eqb_eq in K4|clear K4].
  { destruct (tr_raft_wire_decode_data_chunk frame) as [[|] [[md' m]|]] eqn:Hd; try done.
    intros [= <- <-]. apply decode_data_chunk_canonical in Hd as (H1 & H2 & H3 & H4 & H5); [|done].
    by rewrite payload_frame_cases. }
  destruct (kind =? TR_RAFT_WIRE_PAYLOAD_DATA_ACK) eqn:K5; [apply Z.eqb_eq in K5|done].
  destruct (tr_raft_wire_decode_data_ack frame) as [[|] [[md' m]|]] eqn:Hd; try done.
  intros [= <- <-]. apply decode_data_ack_canonical in Hd as (H1 & H2 & H3 & H4 & H5); [|done].
  by rewrite payload_frame_cases.
Qed.
End Payloads.

(** ** Sessions *)

Record session_wf (s : tr_raft_transport_session) : Prop := {
  tsw_cluster : bytes_of 16 (ts_cluster_id s);
  tsw_next : 0 < ts_next_outbound_message_id s < 2 ^ 64;
  tsw_last : 0 <= ts_last_inbound_message_id s < 2 ^ 64;
  tsw_chunk : ts_snapshot_chunk_size s = TR_RAFT_WIRE_MAX_SNAPSHOT_CHUNK_BYTES;
  tsw_frame : TR_RAFT_WIRE_MAX_FRAME_SIZE <= ts_max_frame_size s;
  tsw_active : tr_raft_transport_is_active s = true;
  tsw_pending : ts_destroy_pending s = false
}.

(** A session is well-formed from its creation. *)
Lemma session_create_wf cluster local peer first handshake codec s :
  bytes_of 16 cluster -> 0 <= first < 2 ^ 64 ->
  tr_raft_transport_session_create cluster local peer first handshake true codec =
  (SALTS_OK, Some s) ->
  session_wf s /\ at_boundary s /\ ts_cluster_id s = cluster /\ ts_local_node_id s = local /\
  ts_peer_node_id s = peer /\ ts_next_outbound_message_id s = first /\
  ts_last_inbound_message_id s = 0 /\ ts_outbound_ids_exhausted s = false.
Proof.
  intros Hc Hf. unfold tr_raft_transport_session_create. destruct (_ || _) eqn:Hg; [done|].
  destruct (tr_raft_handshake_result_validate _ _ _ _); [|done].
  destruct (_ || _) eqn:Hh in |- *; [done|]. cbn [negb]. destruct codec; [|done].
  intros [= <-]. bprop. split; [|done]. split; cbn; (done || lia).
Qed.

(** What the packets of a session leave alone. *)
Record same_link (s s' : tr_raft_transport_session) : Prop := {
  sl_cluster : ts_cluster_id s' = ts_cluster_id s;
  sl_local : ts_local_node_id s' = ts_local_node_id s;
  sl_peer : ts_peer_node_id s' = ts_peer_node_id s;
  sl_chunk : ts_snapshot_chunk_size s' = ts_snapshot_chunk_size s;
  sl_frame : ts_max_frame_size s' = ts_max_frame_size s;
  sl_state : st_state (ts_status s') = st_state (ts_status s);
  sl_pending : ts_destroy_pending s' = ts_destroy_pending s
}.

(** [sender] and [receiver] are the two ends of a connection, and the receiver
    has seen no number the sender has yet to use. *)
Record linked (sender receiver : tr_raft_transport_session) : Prop := {
  lk_sender : session_wf sender;
  lk_receiver : session_wf receiver;
  lk_cluster : ts_cluster_id receiver = ts_cluster_id sender;
  lk_local : ts_local_node_id receiver = ts_peer_node_id sender;
  lk_peer : ts_peer_node_id receiver = ts_local_node_id sender;
  lk_boundary : at_boundary receiver;
  lk_ids : ts_outbound_ids_exhausted sender = true \/
           ts_last_inbound_message_id receiver < ts_next_outbound_message_id sender
}.

(** A payload the sender may send. *)
Record sendable (s : tr_raft_transport_session) (p : tr_raft_transport_payload) : Prop := {
  sp_group : 0 < pl_group_id p < 2 ^ 64;
  sp_wf : payload_wf (pl_data p);
  sp_valid : payload_valid (pl_data p) = true;
  sp_nodes : tr_raft_transport_payload_nodes (pl_data p) =
             (SALTS_OK, (ts_local_node_id s, ts_peer_node_id s))
}.

Section Delivery.
Context `{WireLaws} (Hresize : resizes).
Context {C : Type} (on_payload : C -> tr_raft_transport_payload -> C * status * bool).

Definition metadata_of (s : tr_raft_transport_session) (p : tr_raft_transport_payload)
    : tr_raft_wire_metadata :=
  Metadata (ts_cluster_id s) (pl_group_id p) (ts_next_outbound_message_id s).

Definition packet_of (s : tr_raft_transport_session) (p : tr_raft_transport_payload)
    : list Z :=
  let frame := payload_frame (metadata_of s p) (pl_data p) in
  tr_put_u32 (Z.of_nat (length frame)) ++ frame.

Lemma metadata_of_wf s p :
  session_wf s -> sendable s p ->
  metadata_wf (metadata_of s p) /\ tr_wire_metadata_valid (metadata_of s p) = true.
Proof.
  intros [] [Hg _ _ _]. split; [split; cbn; [done|unfold is_u64; lia..]|].
  unfold tr_wire_metadata_valid. cbn. lia.
Qed.

Lemma encode_payload_packet s p output :
  session_wf s -> ts_outbound_ids_exhausted s = false -> sendable s p ->
  TR_RAFT_TRANSPORT_MAX_PACKET_SIZE <= Z.of_nat (length output) ->
  tr_raft_transport_encode_payload s p output =
  (SALTS_OK, tr_raft_transport_commit_outbound s (Z.of_nat (length (packet_of s p))),
   Some (packet_of s p)).
Proof.
  intros Hs He Hp Hout. destruct (metadata_of_wf s p Hs Hp) as [Hmd Hmv].
  destruct (payload_frame_length (metadata_of s p) (pl_data p) Hmd) as [Hl Hmax];
    [apply Hp|apply Hp|].
  unfold TR_RAFT_TRANSPORT_MAX_PACKET_SIZE in Hout.
  change TR_RAFT_WIRE_MAX_FRAME_SIZE with 69680 in *.
  unfold tr_raft_transport_encode_payload, TR_RAFT_TRANSPORT_LENGTH_PREFIX_SIZE.
  replace (_ <? 4)%nat with false by (symmetry; apply Nat.ltb_ge; lia).
  unfold tr_raft_transport_prepare_outbound. rewrite (sp_nodes _ _ Hp), (tsw_active _ Hs), He.
  rewrite !Z.eqb_refl. replace (_ =? 0) with false by (pose proof (sp_group _ _ Hp); blia).
  cbn [negb orb]. fold (metadata_of s p). rewrite encode_payload_frame; try done;
    [|apply Hp|apply Hp|rewrite (tsw_chunk _ Hs); lia|rewrite length_drop; lia].
  unfold UINT32_MAX. replace (_ <? Z.of_nat _) with false by blia.
  rewrite u32_small by lia. cbn [default]. unfold packet_of. rewrite length_app, length_put_u32.
  do 3 f_equal. lia.
Qed.

(** The handler takes every payload: it accepts it or says that the group is
    not there, and does not ask for the end of the session. *)
Definition accepting : Prop :=
  forall context p, let '(_, result, destroys) := on_payload context p in
  destroys = false /\
  (result = SALTS_OK \/ tr_raft_transport_group_routing_rejection result = true).

Definition handle (context : C) (p : tr_raft_transport_payload) : C :=
  fst (fst (on_payload context p)).

Lemma deliver_accepted s context id p :
  accepting -> ts_destroy_pending s = false ->
  exists s', deliver on_payload s context id p = (SALTS_OK, Some s', handle context p) /\
    same_link s s' /\ ts_last_inbound_message_id s' = id /\
    ts_next_outbound_message_id s' = ts_next_outbound_message_id s.
Proof.
  intros Ha Hd. specialize (Ha context p). unfold deliver, handle.
  destruct (on_payload context p) as [[c r] d]. destruct Ha as [-> Hr].
  cbn [ts_destroy_pending set_field set_ts_callback set_ts_status set_ts_last_inbound].
  rewrite Hd. destruct (tr_raft_transport_group_routing_rejection r) eqn:Hj.
  - eexists. split; [done|]. by repeat split.
  - destruct Hr as [-> |]; [|done]. eexists. split; [done|]. by repeat split.
Qed.

(** A frame of the peer is delivered. *)
Lemma dispatch_payload s context md data :
  metadata_wf md -> tr_wire_metadata_valid md = true -> payload_wf data ->
  payload_valid data = true -> session_wf s -> ts_frame s = payload_frame md data ->
  md_cluster_id md = ts_cluster_id s -> ts_last_inbound_message_id s < md_message_id md ->
  tr_raft_transport_payload_nodes data = (SALTS_OK, (ts_peer_node_id s, ts_local_node_id s)) ->
  tr_raft_transport_dispatch_frame on_payload s context =
  deliver on_payload s context (md_message_id md) (Payload (md_group_id md) (payload_normal data)).
Proof.
  intros Hmd Hmv Hw Hv Hs Hf Hc Hid Hn. unfold tr_raft_transport_dispatch_frame. rewrite Hf.
  assert (md_group_id md <> 0) as Hg by (unfold tr_wire_metadata_valid in Hmv; bprop; lia).
  assert (TR_RAFT_WIRE_PAYLOAD_RAFT <= payload_kind data <= TR_RAFT_WIRE_PAYLOAD_DATA_ACK) as Hk
    by (by destruct data).
  unfold payload_frame at 1. rewrite peek_write_envelope;
    [|unfold TR_RAFT_WIRE_PAYLOAD_RAFT, TR_RAFT_WIRE_PAYLOAD_DATA_ACK in Hk; lia|done..
     |by apply payload_body_limit|done].
  rewrite decode_payload_frame by (done || (rewrite (tsw_chunk _ Hs); done)).
  assert (tr_raft_transport_payload_nodes (payload_normal data) =
    tr_raft_transport_payload_nodes data) as -> by (by destruct data).
  rewrite Hn. cbn [snd]. rewrite Hc, bool_decide_true, !Z.eqb_refl by done.
  pose proof (tsw_last _ Hs). by replace (_ || _) with false by (symmetry; cbn [negb]; lia).
Qed.

(** A packet of the sender, read by the receiver. *)
Lemma feed_packet sender receiver context p :
  accepting -> linked sender receiver -> ts_outbound_ids_exhausted sender = false ->
  sendable sender p ->
  exists receiver',
    feed_bytes on_payload receiver context (packet_of sender p) =
    (SALTS_OK, Some receiver',
     handle context (Payload (pl_group_id p) (payload_normal (pl_data p)))) /\
    same_link receiver receiver' /\ at_boundary receiver' /\
    ts_last_inbound_message_id receiver' = ts_next_outbound_message_id sender /\
    ts_next_outbound_message_id receiver' = ts_next_outbound_message_id receiver.
Proof.
  intros Ha [Hs Hr Lc Ll Lp [Lb1 Lb2] Li] He Hp. destruct Li as [?|Li]; [congruence|].
  destruct (metadata_of_wf sender p Hs Hp) as [Hmd Hmv].
  destruct (payload_frame_length (metadata_of sender p) (pl_data p) Hmd) as [Hl Hmax];
    [apply Hp|apply Hp|].
  pose proof (tsw_frame _ Hr) as Hfr. change TR_RAFT_WIRE_MAX_FRAME_SIZE with 69680 in *.
  unfold packet_of. set (md := metadata_of sender p) in *.
  set (frame := payload_frame md (pl_data p)) in *.
  rewrite complete_prefix by (rewrite ?Lb1; done). rewrite Lb1. cbv zeta. cbn [app].
  cbn [ts_length_prefix set_field set_ts_length_prefix].
  assert (tr_get_u32 (tr_put_u32 (Z.of_nat (length frame))) = Z.of_nat (length frame)) as ->
    by (apply (get_put_u32 _ []); lia).
  set (r1 := set_field ts_expected_frame_size _ _). assert (frame_size_valid r1 = true) as ->.
  { unfold frame_size_valid, TR_RAFT_WIRE_HEADER_SIZE.
    change TR_RAFT_WIRE_MAX_FRAME_SIZE with 69680.
    cbn [r1 ts_expected_frame_size ts_max_frame_size set_field set_ts_expected
      set_ts_length_prefix]. lia. }
  rewrite <- (app_nil_r frame).
  rewrite complete_frame; [|done|intros E; rewrite E in Hl; cbn in Hl; lia|].
  2: { cbn [r1 ts_frame set_field set_ts_length_prefix set_ts_expected ts_expected_frame_size].
    rewrite Lb2. done. }
  set (r2 := r1 <| ts_frame := _ |>).
  assert (session_wf r2) as Hr2 by (destruct Hr; by split).
  rewrite (dispatch_payload r2 context md (pl_data p)); try done; try apply Hp.
  - destruct (deliver_accepted r2 context (md_message_id md)
      (Payload (md_group_id md) (payload_normal (pl_data p))) Ha (tsw_pending _ Hr))
      as (r3 & -> & Hsl & Hid & Hnx).
    eexists. cbn [feed_bytes]. split; [done|]. split; [by destruct Hsl; split|]. done.
  - cbn [r2 r1 ts_frame set_field set_ts_frame set_ts_length_prefix set_ts_expected].
    by rewrite Lb2.
  - rewrite (sp_nodes _ _ Hp). cbn. by rewrite Lp, Ll.
Qed.

(** ** Streams *)

(** The packets of several payloads, one after the other. *)
Fixpoint encode_all (s : tr_raft_transport_session) (ps : list tr_raft_transport_payload)
    (output : list Z) : status * tr_raft_transport_session * list Z :=
  match ps with
  | [] => (SALTS_OK, s, [])
  | p :: ps =>
      match tr_raft_transport_encode_payload s p output with
      | (SALTS_OK, s, Some packet) =>
          let '(result, s, stream) := encode_all s ps output in (result, s, packet ++ stream)
      | (result, s, _) => (result, s, [])
      end
  end.

(** The fragments of a stream, as long as the session takes them. *)
Fixpoint feed_all (s : tr_raft_transport_session) (context : C) (frags : list (list Z))
    : status * option tr_raft_transport_session * C :=
  match frags with
  | [] => (SALTS_OK, Some s, context)
  | f :: frags =>
      match tr_raft_transport_feed on_payload s context f with
      | (SALTS_OK, Some s, context) => feed_all s context frags
      | r => r
      end
  end.

(** Two sessions that differ in the count of bytes alone. *)
Definition same_but_count (s s' : tr_raft_transport_session) : Prop :=
  s' = s \/ exists n, s' = count_bytes n s.

Lemma feed_all_bytes s context frags s' context' :
  feeding s -> tr_raft_transport_is_active s = true ->
  feed_bytes on_payload s context (concat frags) = (SALTS_OK, Some s', context') ->
  exists s'', feed_all s context frags = (SALTS_OK, Some s'', context') /\ same_but_count s' s''.
Proof.
  revert s s' context. induction frags as [|f frags IH]; intros s s' context Hs Ha.
  { intros [= <- <-]. exists s. split; [done|by left]. }
  cbn [concat feed_all]. rewrite feed_bytes_app, feed_feed_bytes, Ha by done.
  destruct (feed_bytes on_payload s context f) as [[[|] [s1|]] c1] eqn:Hb; try done.
  apply feed_bytes_ok in Hb as [H1 H2]; [|done]. cbn [counted fmap option_fmap option_map].
  intros Hrest. destruct (IH (count_bytes (length f) s1) (count_bytes (length f) s') c1)
    as (s2 & Hf & Hc); [exact H1| | |].
  - unfold tr_raft_transport_is_active in *. cbn. by rewrite H2.
  - by rewrite feed_bytes_count, Hrest.
  - exists s2. split; [done|]. right. destruct Hc as [-> |[n ->]]; [by eexists|].
    rewrite count_count. by eexists.
Qed.

Lemma same_link_wf s s' :
  session_wf s -> same_link s s' ->
  ts_next_outbound_message_id s' = ts_next_outbound_message_id s ->
  0 <= ts_last_inbound_message_id s' < 2 ^ 64 -> session_wf s'.
Proof.
  intros [H1 H2 H3 H4 H5 H6 H7] [L1 L2 L3 L4 L5 L6 L7] Hn Hl.
  split; unfold tr_raft_transport_is_active in *; by rewrite ?L1, ?L4, ?L5, ?L6, ?L7, ?Hn.
Qed.

Lemma commit_wf s n :
  session_wf s -> session_wf (tr_raft_transport_commit_outbound s n).
Proof.
  intros [H1 H2 H3 H4 H5 H6 H7]. unfold tr_raft_transport_commit_outbound.
  cbn [ts_next_outbound_message_id set_field set_ts_status].
  destruct (_ =? UINT64_MAX) eqn:E; split; cbn; try done. unfold UINT64_MAX in E. word.
Qed.

Lemma commit_ids s n :
  session_wf s -> ts_outbound_ids_exhausted s = false ->
  let s' := tr_raft_transport_commit_outbound s n in
  (ts_outbound_ids_exhausted s' = true /\ ts_next_outbound_message_id s = UINT64_MAX) \/
  (ts_outbound_ids_exhausted s' = false /\
   ts_next_outbound_message_id s' = ts_next_outbound_message_id s + 1).
Proof.
  intros [_ H2 _ _ _ _ _] He. cbv zeta. unfold tr_raft_transport_commit_outbound.
  cbn [ts_next_outbound_message_id set_field set_ts_status].
  destruct (_ =? UINT64_MAX) eqn:E; [left; split; [done|lia]|right].
  cbn. split; [done|]. unfold UINT64_MAX in E. word.
Qed.

Lemma sendable_commit s n p :
  sendable s p -> sendable (tr_raft_transport_commit_outbound s n) p.
Proof.
  intros [H1 H2 H3 H4]. split; [done..|]. rewrite H4.
  unfold tr_raft_transport_commit_outbound. by destruct (_ =? UINT64_MAX).
Qed.

Lemma linked_step sender receiver receiver' n :
  linked sender receiver -> ts_outbound_ids_exhausted sender = false ->
  same_link receiver receiver' -> at_boundary receiver' ->
  ts_last_inbound_message_id receiver' = ts_next_outbound_message_id sender ->
  ts_next_outbound_message_id receiver' = ts_next_outbound_message_id receiver ->
  linked (tr_raft_transport_commit_outbound sender n) receiver'.
Proof.
  intros [Hs Hr Lc Ll Lp Lb Li] He Hl Hb Hid Hn.
  assert (ts_cluster_id (tr_raft_transport_commit_outbound sender n) = ts_cluster_id sender /\
    ts_peer_node_id (tr_raft_transport_commit_outbound sender n) = ts_peer_node_id sender /\
    ts_local_node_id (tr_raft_transport_commit_outbound sender n) = ts_local_node_id sender)
    as (E1 & E2 & E3)
    by (unfold tr_raft_transport_commit_outbound; by destruct (_ =? UINT64_MAX)).
  pose proof (tsw_next _ Hs). split.
  - by apply commit_wf.
  - eapply same_link_wf; [done|done|done|]. lia.
  - rewrite E1, (sl_cluster _ _ Hl). done.
  - rewrite E2, (sl_local _ _ Hl). done.
  - rewrite E3, (sl_peer _ _ Hl). done.
  - done.
  - destruct (commit_ids sender n Hs He) as [[? _]|[_ ?]]; [by left|right; lia].
Qed.

Definition normal (p : tr_raft_transport_payload) : tr_raft_transport_payload :=
  Payload (pl_group_id p) (payload_normal (pl_data p)).

Lemma stream_delivery sender receiver context ps output :
  accepting -> linked sender receiver -> ts_outbound_ids_exhausted sender = false \/ ps = [] ->
  Forall (sendable sender) ps ->
  ts_next_outbound_message_id sender + Z.of_nat (length ps) <= 2 ^ 64 ->
  TR_RAFT_TRANSPORT_MAX_PACKET_SIZE <= Z.of_nat (length output) ->
  exists sender' receiver' stream,
    encode_all sender ps output = (SALTS_OK, sender', stream) /\
    feed_bytes on_payload receiver context stream =
    (SALTS_OK, Some receiver', fold_left handle (normal <$> ps) context) /\
    linked sender' receiver'.
Proof.
  intros Ha. revert sender receiver context.
  induction ps as [|p ps IH]; intros sender receiver context Hl He Hps Hid Hout.
  { exists sender, receiver, []. done. }
  destruct He as [He|]; [|done]. apply Forall_cons_1 in Hps as [Hp Hps]. cbn [length] in Hid.
  destruct (feed_packet sender receiver context p Ha Hl He Hp)
    as (r1 & Hf & Hsl & Hb & Hlast & Hnext).
  set (n := Z.of_nat (length (packet_of sender p))).
  pose proof (linked_step sender receiver r1 n Hl He Hsl Hb Hlast Hnext) as Hl1.
  destruct (commit_ids sender n (lk_sender _ _ Hl) He) as [[Hx Hm]|[Hx Hm]].
  - destruct ps as [|q ps]; [|unfold UINT64_MAX in Hm; cbn [length] in Hid; lia].
    exists (tr_raft_transport_commit_outbound sender n), r1, (packet_of sender p).
    cbn [encode_all]. rewrite encode_payload_packet by (done || apply Hl).
    rewrite app_nil_r. done.
  - destruct (IH (tr_raft_transport_commit_outbound sender n) r1
      (handle context (normal p))) as (s' & r' & stream & E1 & E2 & E3);
      [done|by left| |lia|done|].
    { eapply list.Forall_impl; [exact Hps|]. intros q. apply sendable_commit. }
    exists s', r', (packet_of sender p ++ stream).
    cbn [encode_all]. rewrite encode_payload_packet by (done || apply Hl). fold n. rewrite E1.
    split; [done|]. split; [|done]. by rewrite feed_bytes_app, Hf.
Qed.

Lemma linked_count sender receiver receiver' :
  linked sender receiver -> same_but_count receiver receiver' -> linked sender receiver'.
Proof.
  intros Hl [-> |[n ->]]; [done|]. destruct Hl as [H1 [] H3 H4 H5 H6 H7].
  by split.
Qed.

(** C18. Delivery. Valid payloads addressed to the peer all encode, as long as
    there are numbers left, into a buffer of the maximum packet size; and when
    the bytes reach the session of the peer, in whatever fragments, its handler
    is called with exactly these payloads, in this order and once each. The two
    sessions are then linked again, so more payloads can follow. *)
Theorem transport_delivery (sender receiver : tr_raft_transport_session) (context : C)
    (ps : list tr_raft_transport_payload) (output : list Z) :
  accepting -> linked sender receiver -> ts_outbound_ids_exhausted sender = false ->
  Forall (sendable sender) ps ->
  ts_next_outbound_message_id sender + Z.of_nat (length ps) <= 2 ^ 64 ->
  TR_RAFT_TRANSPORT_MAX_PACKET_SIZE <= Z.of_nat (length output) ->
  exists sender' stream,
    encode_all sender ps output = (SALTS_OK, sender', stream) /\
    forall frags, concat frags = stream ->
    exists receiver',
      feed_all receiver context frags =
      (SALTS_OK, Some receiver', fold_left handle (normal <$> ps) context) /\
      linked sender' receiver'.
Proof.
  intros Ha Hl He Hps Hid Hout.
  destruct (stream_delivery sender receiver context ps output) as (s' & r' & stream & E1 & E2 & E3);
    [done|done|by left|done|done|done|].
  exists s', stream. split; [done|]. intros frags Hcat. rewrite <- Hcat in E2.
  apply feed_all_bytes in E2 as (r2 & Hf & Hc); [|apply boundary_feeding, Hl|apply Hl].
  exists r2. split; [done|]. by eapply linked_count.
Qed.

(** ** Any input *)

(** A payload that comes from the peer, for the local node, and that the codec
    accepts. *)
Record genuine (s : tr_raft_transport_session) (p : tr_raft_transport_payload) : Prop := {
  gp_group : pl_group_id p <> 0;
  gp_wf : payload_wf (pl_data p);
  gp_valid : payload_valid (pl_data p) = true;
  gp_nodes : tr_raft_transport_payload_nodes (pl_data p) =
             (SALTS_OK, (ts_peer_node_id s, ts_local_node_id s))
}.

Context (I : Z -> C -> Prop) (base : tr_raft_transport_session).
Context (Hhandle : forall id id' context p,
  id < id' -> genuine base p -> I id context -> I id' (handle context p)).

(** A session of the same link as [base] whose frame holds bytes. *)
Definition on_link (s : tr_raft_transport_session) : Prop :=
  ts_peer_node_id s = ts_peer_node_id base /\ ts_local_node_id s = ts_local_node_id base /\
  Forall is_byte (ts_frame s).

Definition post (last : Z) (r : status * option tr_raft_transport_session * C) : Prop :=
  let '(_, s, context) := r in
  exists id, last <= id /\ I id context /\
    forall s', s = Some s' -> ts_last_inbound_message_id s' = id /\ on_link s'.

Lemma deliver_post s context id p :
  on_link s -> genuine base p -> ts_last_inbound_message_id s < id ->
  I (ts_last_inbound_message_id s) context ->
  post (ts_last_inbound_message_id s) (deliver on_payload s context id p).
Proof.
  intros Hs Hg Hid Hi. pose proof (Hhandle _ _ context p Hid Hg Hi) as Hi'.
  unfold deliver, handle in *. destruct (on_payload context p) as [[c r] d]. cbn [fst] in Hi'.
  destruct d; cbn; [exists id; split; [lia|done]|].
  destruct (ts_destroy_pending s); [exists id; split; [lia|done]|].
  destruct (tr_raft_transport_group_routing_rejection r); [|destruct r];
    (exists id; split; [lia|]; split; [done|]; by intros s' [= <-]).
Qed.

Lemma frame_dispatch_post s context :
  on_link s -> I (ts_last_inbound_message_id s) context ->
  post (ts_last_inbound_message_id s) (tr_raft_transport_dispatch_frame on_payload s context).
Proof.
  intros Hs Hi.
  assert (forall e, post (ts_last_inbound_message_id s)
    (e, Some (tr_raft_transport_fault s), context)) as Hfault.
  { intros e. exists (ts_last_inbound_message_id s). split; [lia|]. split; [done|].
    by intros s' [= <-]. }
  unfold tr_raft_transport_dispatch_frame.
  destruct (tr_raft_wire_peek_payload_kind _) as [[|e1] [kind|]]; try apply Hfault.
  destruct (decode_payload _ _ _) as [[|e2] [[md data]|]] eqn:Hd; try apply Hfault.
  apply decode_payload_canonical in Hd as (_ & _ & _ & _ & Hw & Hv); [|apply Hs].
  destruct (tr_raft_transport_payload_nodes data) as [st [from to]] eqn:Hn. cbn [snd].
  assert (st = SALTS_OK) as -> by (destruct data; by inversion Hn).
  destruct (_ || _) eqn:Hg; [apply Hfault|].
  destruct Hs as (Hp & Hl & Hb). apply deliver_post; [done| |bprop; lia|done].
  split; cbn; [bprop; lia|done|done|]. rewrite Hn, <- Hp, <- Hl. bprop. repeat f_equal; lia.
Qed.

Lemma feed_byte_post s context b :
  on_link s -> is_byte b -> I (ts_last_inbound_message_id s) context ->
  post (ts_last_inbound_message_id s) (feed_byte on_payload s context b).
Proof.
  intros Hs Hb Hi. assert (forall e s1, ts_last_inbound_message_id s1 =
    ts_last_inbound_message_id s -> on_link s1 ->
    post (ts_last_inbound_message_id s) (e, Some s1, context)) as Hsame.
  { intros e s1 E Hl. exists (ts_last_inbound_message_id s). split; [lia|]. split; [done|].
    by intros s' [= <-]. }
  unfold feed_byte. destruct (_ <? 4)%nat.
  { destruct (length (ts_length_prefix (set_field _ _ _)) <? 4)%nat; [by apply Hsame|].
    destruct (frame_size_valid _); by apply Hsame. }
  set (s1 := s <| ts_frame := _ |>). assert (on_link s1) as Hs1.
  { destruct Hs as (H1 & H2 & H3). split; [done|]. split; [done|]. cbn.
    apply Forall_app. by split; [|constructor]. }
  destruct (_ <? ts_expected_frame_size s1); [by apply Hsame|].
  pose proof (frame_dispatch_post s1 context Hs1 Hi) as Hp.
  destruct (tr_raft_transport_dispatch_frame on_payload s1 context) as [[[|e] [s2|]] c2];
    try exact Hp.
  destruct Hp as (id & H1 & H2 & H3). exists id. split; [done|]. split; [done|].
  intros s' [= <-]. destruct (H3 s2 eq_refl) as (E & H4 & H5 & _). by repeat split.
Qed.

Lemma feed_bytes_post s context data :
  on_link s -> Forall is_byte data -> I (ts_last_inbound_message_id s) context ->
  post (ts_last_inbound_message_id s) (feed_bytes on_payload s context data).
Proof.
  revert s context. induction data as [|b data IH]; intros s context Hs Hd Hi; cbn [feed_bytes].
  { exists (ts_last_inbound_message_id s). split; [lia|]. split; [done|]. by intros s' [= <-]. }
  apply Forall_cons_1 in Hd as [Hb Hd].
  pose proof (feed_byte_post s context b Hs Hb Hi) as Hp.
  destruct (feed_byte on_payload s context b) as [[[|e] [s1|]] c1]; try exact Hp.
  destruct Hp as (id & H1 & H2 & H3). destruct (H3 s1 eq_refl) as [<- H4].
  specialize (IH s1 c1 H4 Hd H2). destruct (feed_bytes on_payload s1 c1 data) as [[r s2] c2].
  destruct IH as (id' & I1 & I2 & I3). exists id'. split; [lia|done].
Qed.

Lemma feed_all_post s context frags :
  on_link s -> feeding s -> Forall (Forall is_byte) frags ->
  I (ts_last_inbound_message_id s) context ->
  post (ts_last_inbound_message_id s) (feed_all s context frags).
Proof.
  revert s context. induction frags as [|f frags IH]; intros s context Hs Hf Hd Hi; cbn [feed_all].
  { exists (ts_last_inbound_message_id s). split; [lia|]. split; [done|]. by intros s' [= <-]. }
  apply Forall_cons_1 in Hd as [Hb Hd]. rewrite feed_feed_bytes by done.
  destruct (tr_raft_transport_is_active s) eqn:Ha.
  2: { exists (ts_last_inbound_message_id s). split; [lia|]. split; [done|]. by intros s' [= <-]. }
  pose proof (feed_bytes_post s context f Hs Hb Hi) as Hp.
  destruct (feed_bytes on_payload s context f) as [[[|e] [s1|]] c1] eqn:Hr; cbn [counted fmap
    option_fmap option_map].
  2, 4: destruct Hp as (id & H1 & H2 & _); by exists id.
  2: { destruct Hp as (id & H1 & H2 & H3). exists id. split; [done|]. split; [done|].
    intros s' [= <-]. by destruct (H3 s1 eq_refl). }
  destruct Hp as (id & H1 & H2 & H3). destruct (H3 s1 eq_refl) as [<- H4].
  apply feed_bytes_ok in Hr as [H5 _]; [|done].
  specialize (IH (count_bytes (length f) s1) c1 H4 H5 Hd H2).
  destruct (feed_all _ c1 frags) as [[r s2] c2].
  destruct IH as (id' & I1 & I2 & I3). exists id'. split; [cbn in *; lia|done].
Qed.
End Delivery.


(** C21. Round trip of the wire codec, over the five kinds of payload: a valid
    payload encodes into any buffer that has room, and its frame decodes to the
    same metadata and payload. *)
Theorem wire_roundtrip `{WireLaws} (size : Z) (md : tr_raft_wire_metadata)
    (data : tr_raft_payload_data) (output : list Z) :
  resizes -> metadata_wf md -> tr_wire_metadata_valid md = true ->
  payload_wf data -> payload_valid data = true ->
  TR_RAFT_WIRE_MAX_SNAPSHOT_CHUNK_BYTES <= size ->
  TR_RAFT_WIRE_MAX_FRAME_SIZE <= Z.of_nat (length output) ->
  exists frame,
    encode_frame size md data output = (SALTS_OK, Z.of_nat (length frame), Some frame) /\
    Z.of_nat (length frame) <= TR_RAFT_WIRE_MAX_FRAME_SIZE /\
    tr_raft_wire_peek_payload_kind frame = (SALTS_OK, Some (payload_kind data)) /\
    decode_payload size (payload_kind data) frame = (SALTS_OK, Some (md, payload_normal data)).
Proof.
  intros Hr Hmd Hmv Hw Hv Hs Ho.
  destruct (payload_frame_length md data Hmd Hw Hv) as [_ Hl].
  exists (payload_frame md data). rewrite encode_payload_frame by (done || lia).
  split; [done|]. split; [done|]. split; [|by apply decode_payload_frame].
  unfold tr_wire_metadata_valid in Hmv. bprop. apply peek_write_envelope; try done.
  - by destruct data.
  - by apply payload_body_limit.
  - by destruct data.
Qed.

(** C22. The decoder is the inverse of the encoder: a frame it accepts, of any
    kind and from any source, holds a valid payload, and encoding that payload
    again gives the frame, byte for byte. *)
Theorem wire_canonical `{WireLaws} (size kind : Z) (frame : list Z)
    (md : tr_raft_wire_metadata) (data : tr_raft_payload_data) (output : list Z) :
  resizes -> Forall is_byte frame ->
  decode_payload size kind frame = (SALTS_OK, Some (md, data)) ->
  TR_RAFT_WIRE_MAX_SNAPSHOT_CHUNK_BYTES <= size -> (length frame <= length output)%nat ->
  kind = payload_kind data /\ payload_wf data /\ payload_valid data = true /\
  encode_frame size md data output = (SALTS_OK, Z.of_nat (length frame), Some frame).
Proof.
  intros Hr Hb Hd Hs Hl.
  apply decode_payload_canonical in Hd as (-> & -> & Hmd & Hmv & Hw & Hv); [|done].
  by rewrite encode_payload_frame.
Qed.

Lemma prepare_sendable s p :
  session_wf s -> ts_outbound_ids_exhausted s = false -> sendable s p ->
  tr_raft_transport_prepare_outbound s p = (SALTS_OK, Some (metadata_of s p)).
Proof.
  intros Hs He Hp. unfold tr_raft_transport_prepare_outbound.
  rewrite (sp_nodes _ _ Hp), (tsw_active _ Hs), He, !Z.eqb_refl.
  by replace (_ =? 0) with false by (pose proof (sp_group _ _ Hp); blia).
Qed.

(** A prefix of the packet, with the sizes the encoders return. *)
Definition prefix_of_packet `{WireLib} (s : tr_raft_transport_session)
    (p : tr_raft_transport_payload) (prefix data : list Z)
    (r : status * tr_raft_transport_session * Z * Z * option (list Z)) : Prop :=
  prefix ++ data = packet_of s p /\
  r = (SALTS_OK, tr_raft_transport_commit_outbound s (Z.of_nat (length (packet_of s p))),
       Z.of_nat (length prefix), Z.of_nat (length (packet_of s p)), Some prefix).

Lemma data_chunk_prefix_packet `{WireLaws} s p c capacity :
  session_wf s -> ts_outbound_ids_exhausted s = false -> sendable s p ->
  pl_data p = Payload_data_chunk c -> TR_RAFT_TRANSPORT_MAX_PACKET_SIZE <= capacity ->
  exists prefix, prefix_of_packet s p prefix (dc_data c)
    (tr_raft_transport_encode_data_chunk_prefix s p capacity).
Proof.
  intros Hs He Hp Hd Ho. destruct (metadata_of_wf s p Hs Hp) as [Hmd Hmv].
  pose proof (sp_wf _ _ Hp) as Hw. pose proof (sp_valid _ _ Hp) as Hv.
  destruct (payload_frame_length (metadata_of s p) (pl_data p) Hmd Hw Hv) as [Hl Hmax].
  unfold TR_RAFT_TRANSPORT_MAX_PACKET_SIZE in Ho.
  change TR_RAFT_WIRE_MAX_FRAME_SIZE with 69680 in *.
  unfold tr_raft_transport_encode_data_chunk_prefix, prefix_of_packet, packet_of.
  rewrite prepare_sendable by done. rewrite Hd in *. cbn [payload_wf payload_valid] in Hw, Hv.
  destruct (dcw_digest _ Hw) as [Hdig _]. pose proof (length_data_chunk_fixed c Hdig) as Hfix.
  unfold tr_raft_wire_encode_data_chunk_prefix. rewrite Hmv, Hv. cbn [negb orb].
  cbn [payload_body] in Hl. rewrite length_app, Hfix in Hl.
  unfold TR_RAFT_WIRE_HEADER_SIZE, TR_DATA_CHUNK_FIXED_SIZE, SIZE_MAX, UINT32_MAX, UINT64_MAX,
    dc_data_length in *. replace (capacity <? 4) with false by blia.
  replace (capacity - 4 <? _) with false by blia. replace (_ || _) with false by blia.
  rewrite u32_small by lia. cbn [default].
  exists (tr_put_u32 (48 + (85 + Z.of_nat (length (dc_data c)))) ++
    tr_wire_write_envelope TR_RAFT_WIRE_PAYLOAD_DATA_CHUNK
      (85 + Z.of_nat (length (dc_data c))) (metadata_of s p) ++ data_chunk_fixed c).
  split.
  - rewrite <- !(assoc_L (++)). rewrite Hl. f_equal; [f_equal; lia|].
    rewrite payload_frame_cases by done. done.
  - rewrite !length_app, !length_put_u32, !length_envelope, Hfix by done.
    repeat f_equal; lia.
Qed.

Lemma snapshot_chunk_prefix_packet `{WireLaws} s p c output :
  session_wf s -> ts_outbound_ids_exhausted s = false -> sendable s p ->
  pl_data p = Payload_snapshot_chunk c ->
  TR_RAFT_TRANSPORT_MAX_PACKET_SIZE <= Z.of_nat (length output) ->
  exists prefix, prefix_of_packet s p prefix (sc_data c)
    (tr_raft_transport_encode_snapshot_chunk_prefix s p output).
Proof.
  intros Hs He Hp Hd Ho. destruct (metadata_of_wf s p Hs Hp) as [Hmd Hmv].
  pose proof (sp_wf _ _ Hp) as Hw. pose proof (sp_valid _ _ Hp) as Hv.
  destruct (payload_frame_length (metadata_of s p) (pl_data p) Hmd Hw Hv) as [Hl Hmax].
  unfold TR_RAFT_TRANSPORT_MAX_PACKET_SIZE in Ho.
  change TR_RAFT_WIRE_MAX_FRAME_SIZE with 69680 in *.
  unfold tr_raft_transport_encode_snapshot_chunk_prefix, prefix_of_packet, packet_of,
    TR_RAFT_TRANSPORT_LENGTH_PREFIX_SIZE. rewrite prepare_sendable by done.
  rewrite Hd in *. rewrite payload_frame_cases in * by done.
  cbn [payload_wf payload_valid payload_body] in *.
  destruct (scw_digest _ Hw) as [Hdig _]. pose proof (conf_bytes_length c Hv) as Hconf.
  destruct (snapshot_chunk_valid_spec c Hv) as [Hdata _]. unfold sc_data_length.
  rewrite (tsw_chunk _ Hs). change TR_RAFT_WIRE_MAX_SNAPSHOT_CHUNK_BYTES with 65536.
  replace (_ <? 4)%nat with false by (symmetry; apply Nat.ltb_ge; lia).
  replace (65536 <? _) with false by blia.
  rewrite encode_snapshot_chunk_prefix_frame by (done || (rewrite length_drop; lia)).
  unfold SIZE_MAX, UINT32_MAX, UINT64_MAX. replace (_ || _) with false by blia.
  rewrite u32_small by lia. cbn [default].
  exists (tr_put_u32 (Z.of_nat (length (snapshot_chunk_frame (metadata_of s p) c))) ++
    tr_wire_write_envelope TR_RAFT_WIRE_PAYLOAD_SNAPSHOT_CHUNK
      (Z.of_nat (length (snapshot_chunk_layout c))) (metadata_of s p) ++
    snapshot_chunk_head c ++ wl_write 4 (sc_data_length c)).
  split.
  - rewrite <- !(assoc_L (++)). unfold snapshot_chunk_frame, snapshot_chunk_layout,
      snapshot_chunk_head, var_field, sc_data_length. by rewrite <- !(assoc_L (++)).
  - rewrite !length_app, !length_put_u32, !length_envelope, length_chunk_head, length_write4 by done.
    rewrite ?length_chunk_layout by done. repeat f_equal; lia.
Qed.

(** The encoders that write a chunk's frame up to its data and leave the
    data to a second buffer agree with [tr_raft_transport_encode_payload]: the
    same session afterwards, and the same packet when the data is appended. *)
Theorem prefix_encoders_agree `{WireLaws} (s : tr_raft_transport_session)
    (p : tr_raft_transport_payload) (output : list Z) :
  resizes -> session_wf s -> ts_outbound_ids_exhausted s = false -> sendable s p ->
  TR_RAFT_TRANSPORT_MAX_PACKET_SIZE <= Z.of_nat (length output) ->
  match pl_data p with
  | Payload_data_chunk c =>
      exists s' prefix,
        tr_raft_transport_encode_data_chunk_prefix s p (Z.of_nat (length output)) =
        (SALTS_OK, s', Z.of_nat (length prefix),
         Z.of_nat (length (prefix ++ dc_data c)), Some prefix) /\
        tr_raft_transport_encode_payload s p output = (SALTS_OK, s', Some (prefix ++ dc_data c))
  | Payload_snapshot_chunk c =>
      exists s' prefix,
        tr_raft_transport_encode_snapshot_chunk_prefix s p output =
        (SALTS_OK, s', Z.of_nat (length prefix),
         Z.of_nat (length (prefix ++ sc_data c)), Some prefix) /\
        tr_raft_transport_encode_payload s p output = (SALTS_OK, s', Some (prefix ++ sc_data c))
  | _ => True
  end.
Proof.
  intros Hr Hs He Hp Ho. rewrite encode_payload_packet by done.
  destruct (pl_data p) as [m|c|a|c|a|] eqn:Hd; try done.
  - destruct (snapshot_chunk_prefix_packet s p c output) as (prefix & E & ->); try done.
    rewrite <- E. by eexists _, _.
  - destruct (data_chunk_prefix_packet s p c (Z.of_nat (length output))) as (prefix & E & ->);
      try done. rewrite <- E. by eexists _, _.
Qed.

(** ** Two sessions

    The sessions of nodes 1 and 2 after the handshake of [Handshake.config_1]
    and [Handshake.config_2], with the little-endian wire library and a handler
    that records the payloads. *)

Definition session_1 : tr_raft_transport_session :=
  Session false false (replicate 16 9) 1 2 65536 70000 5 0 false zero_status [] [] 0.
Definition session_2 : tr_raft_transport_session :=
  Session false false (replicate 16 9) 2 1 65536 70000 1 0 false zero_status [] [] 0.

Definition recording (log : list tr_raft_transport_payload) (p : tr_raft_transport_payload)
    : list tr_raft_transport_payload * status * bool := (log ++ [p], SALTS_OK, false).

Definition append_1 : tr_raft_transport_payload :=
  Payload 3 (Payload_raft (Message TR_RAFT_MSG_APPEND_REQUEST 1 2 4 0 0 0 6 6 3 0 0
    [Entry 7 4 11 2 [1; 255]] false 0)).

Definition chunk_1 : tr_raft_transport_payload :=
  Payload 3 (Payload_data_chunk (DataChunk 1 2 4 9 0 3 (replicate 32 1) [5; 6; 7] true)).

Definition packet_buffer : list Z := replicate (Z.to_nat TR_RAFT_TRANSPORT_MAX_PACKET_SIZE) 0.

Lemma length_packet_buffer :
  Z.of_nat (length packet_buffer) = TR_RAFT_TRANSPORT_MAX_PACKET_SIZE.
Proof. unfold packet_buffer. rewrite length_replicate. by apply Z2Nat.id. Qed.

Lemma sessions_linked : linked session_1 session_2.
Proof.
  assert (bytes_of 16 (replicate 16 9)) as Hb by (split; [done|by apply Forall_replicate]).
  split; try done; [split; cbn; (done || lia)..|right; cbn; lia].
Qed.

Lemma append_sendable : sendable session_1 append_1.
Proof. split; [done| |done|done]. repeat constructor; try done; unfold is_u64; cbn; lia. Qed.

Lemma chunk_sendable : sendable session_1 chunk_1.
Proof.
  split; [done| |done|done]. split; cbn; try (unfold is_u64; lia); try done.
  - split; [done|by repeat constructor].
  - by repeat constructor.
Qed.

Lemma little_resizes : resizes.
Proof. done. Qed.

Lemma recording_accepts : accepting recording.
Proof. intros log p. cbn. auto. Qed.

Lemma transport_delivery_witness :
  exists sender' stream,
    encode_all session_1 [append_1; chunk_1] packet_buffer = (SALTS_OK, sender', stream) /\
    forall frags, concat frags = stream ->
    exists receiver',
      feed_all recording session_2 [] frags = (SALTS_OK, Some receiver', [append_1; chunk_1]) /\
      linked sender' receiver'.
Proof.
  refine (transport_delivery little_resizes recording session_1 session_2 []
    [append_1; chunk_1] packet_buffer recording_accepts sessions_linked eq_refl _ _ _).
  - constructor; [exact append_sendable|]. constructor; [exact chunk_sendable|constructor].
  - cbn. lia.
  - rewrite length_packet_buffer. done.
Defined.

Lemma feed_split_witness :
  tr_raft_transport_feed recording session_2 []
    (take 30 (packet_of session_1 append_1) ++ drop 30 (packet_of session_1 append_1)) =
  match tr_raft_transport_feed recording session_2 [] (take 30 (packet_of session_1 append_1)) with
  | (SALTS_OK, Some s1, log) =>
      tr_raft_transport_feed recording s1 log (drop 30 (packet_of session_1 append_1))
  | r => counted (length (drop 30 (packet_of session_1 append_1))) r
  end.
Proof.
  exact (feed_split recording session_2 [] (take 30 (packet_of session_1 append_1))
    (drop 30 (packet_of session_1 append_1)) (boundary_feeding session_2 (conj eq_refl eq_refl))
    eq_refl).
Defined.


Lemma wire_roundtrip_witness :
  exists frame,
    encode_frame 65536 (metadata_of session_1 append_1) (pl_data append_1) packet_buffer =
    (SALTS_OK, Z.of_nat (length frame), Some frame) /\
    Z.of_nat (length frame) <= TR_RAFT_WIRE_MAX_FRAME_SIZE /\
    tr_raft_wire_peek_payload_kind frame = (SALTS_OK, Some TR_RAFT_WIRE_PAYLOAD_RAFT) /\
    decode_payload 65536 TR_RAFT_WIRE_PAYLOAD_RAFT frame =
    (SALTS_OK, Some (metadata_of session_1 append_1, pl_data append_1)).
Proof.
  destruct (metadata_of_wf session_1 append_1 (lk_sender _ _ sessions_linked) append_sendable)
    as [Hmd Hmv].
  exact (wire_roundtrip 65536 (metadata_of session_1 append_1) (pl_data append_1)
    packet_buffer little_resizes Hmd Hmv (sp_wf _ _ append_sendable)
    (sp_valid _ _ append_sendable) ltac:(done) ltac:(rewrite length_packet_buffer; done)).
Defined.

Lemma wire_canonical_witness :
  exists frame : list Z,
    encode_frame 65536 (metadata_of session_1 chunk_1) (pl_data chunk_1) (replicate 200 0) =
    (SALTS_OK, Z.of_nat (length frame), Some frame).
Proof.
  exists (payload_frame (metadata_of session_1 chunk_1) (pl_data chunk_1)).
  refine (proj2 (proj2 (proj2 (wire_canonical 65536 TR_RAFT_WIRE_PAYLOAD_DATA_CHUNK
    (payload_frame (metadata_of session_1 chunk_1) (pl_data chunk_1))
    (metadata_of session_1 chunk_1) (pl_data chunk_1) (replicate 200 0)
    little_resizes _ _ _ _)))).
  - vm_compute. by repeat constructor.
  - vm_compute. reflexivity.
  - done.
  - vm_compute. lia.
Defined.

Lemma prefix_encoders_agree_witness :
  exists s' prefix,
    tr_raft_transport_encode_data_chunk_prefix session_1 chunk_1
      (Z.of_nat (length packet_buffer)) =
    (SALTS_OK, s', Z.of_nat (length prefix), Z.of_nat (length (prefix ++ [5; 6; 7])),
     Some prefix) /\
    tr_raft_transport_encode_payload session_1 chunk_1 packet_buffer =
    (SALTS_OK, s', Some (prefix ++ [5; 6; 7])).
Proof.
  exact (prefix_encoders_agree session_1 chunk_1 packet_buffer little_resizes
    (lk_sender _ _ sessions_linked) eq_refl chunk_sendable
    ltac:(rewrite length_packet_buffer; done)).
Defined.
