(* ===== verification/GroupQueue.v ===== *)
(** * The outbound queue of a peer: [src/transport/raft_group_queue.c]

    One ring buffer of payloads per Raft group, a bounded number of groups,
    items and bytes, and a cursor that serves the groups in turn. [release] and
    [free] have no effect on the state; whether [calloc] succeeds is an
    argument. A token is the index of a slot. The initialized flag is the
    existence of the record. The sizes of the two structures, which bound the
    configuration, are parameters. *)

From S2P Require Import Prelude Configuration Bytes Wire CoreState WireBinding Handshake.
From S2P Require Import Transport.
From Stdlib Require Import ZArith Lia.
From stdpp Require Import base numbers list tactics.
Open Scope Z_scope.
Open Scope raft_scope.

Record tr_raft_group_queue_entry := QueueEntry {
  qe_owned : tr_raft_transport_payload;
  qe_data_bytes : Z
}.

(** What [memset] leaves. *)
Definition zero_queue_entry : tr_raft_group_queue_entry :=
  QueueEntry (Payload 0 Payload_invalid) 0.

(** [qs_entries] is [None] until the first use of the slot. *)
Record tr_raft_group_queue_slot := QueueSlot {
  qs_group_id : Z;
  qs_entries : option (list tr_raft_group_queue_entry);
  qs_head : Z;
  qs_count : Z;
  qs_queued_data_bytes : Z
}.

Record tr_raft_group_queue_config := QueueConfig {
  qc_max_groups : Z;
  qc_total_item_capacity : Z;
  qc_total_data_bytes : Z;
  qc_per_group_item_capacity : Z;
  qc_per_group_data_bytes : Z
}.

Record tr_raft_group_queue := Queue {
  q_config : tr_raft_group_queue_config;
  q_slots : list tr_raft_group_queue_slot;
  q_active_group_count : Z;
  q_queued_item_count : Z;
  q_queued_data_bytes : Z;
  q_cursor : Z
}.

Definition eta_slot (s : tr_raft_group_queue_slot) : tr_raft_group_queue_slot :=
  QueueSlot (qs_group_id s) (qs_entries s) (qs_head s) (qs_count s) (qs_queued_data_bytes s).
#[export] Instance set_qs_group_id : Setter qs_group_id := ltac:(setter eta_slot qs_group_id).
#[export] Instance set_qs_entries : Setter qs_entries := ltac:(setter eta_slot qs_entries).
#[export] Instance set_qs_head : Setter qs_head := ltac:(setter eta_slot qs_head).
#[export] Instance set_qs_count : Setter qs_count := ltac:(setter eta_slot qs_count).
#[export] Instance set_qs_bytes : Setter qs_queued_data_bytes :=
  ltac:(setter eta_slot qs_queued_data_bytes).

Definition eta_queue (q : tr_raft_group_queue) : tr_raft_group_queue :=
  Queue (q_config q) (q_slots q) (q_active_group_count q) (q_queued_item_count q)
    (q_queued_data_bytes q) (q_cursor q).
#[export] Instance set_q_slots : Setter q_slots := ltac:(setter eta_queue q_slots).
#[export] Instance set_q_active : Setter q_active_group_count :=
  ltac:(setter eta_queue q_active_group_count).
#[export] Instance set_q_items : Setter q_queued_item_count :=
  ltac:(setter eta_queue q_queued_item_count).
#[export] Instance set_q_bytes : Setter q_queued_data_bytes :=
  ltac:(setter eta_queue q_queued_data_bytes).
#[export] Instance set_q_cursor : Setter q_cursor := ltac:(setter eta_queue q_cursor).

Definition zero_slot : tr_raft_group_queue_slot := QueueSlot 0 None 0 0 0.

(** [queue->slots[index]] *)
Definition slot_at (q : tr_raft_group_queue) (index : Z) : tr_raft_group_queue_slot :=
  array_get zero_slot (q_slots q) index.

Definition set_slot (q : tr_raft_group_queue) (index : Z) (s : tr_raft_group_queue_slot)
    : tr_raft_group_queue :=
  q <| q_slots := array_set (q_slots q) index s |>.

(** [slot->entries[slot->head]] *)
Definition head_entry (s : tr_raft_group_queue_slot) : tr_raft_group_queue_entry :=
  array_get zero_queue_entry (default [] (qs_entries s)) (qs_head s).

Section Queue.
Context (sizeof_entry sizeof_slot : Z).

Definition tr_raft_group_queue_config_valid (c : tr_raft_group_queue_config) : bool :=
  negb (qc_max_groups c =? 0) && negb (qc_total_item_capacity c =? 0) &&
  negb (qc_total_data_bytes c =? 0) && negb (qc_per_group_item_capacity c =? 0) &&
  negb (qc_per_group_data_bytes c =? 0) &&
  (qc_max_groups c <=? qc_total_item_capacity c) &&
  (qc_per_group_item_capacity c <=? qc_total_item_capacity c) &&
  (qc_per_group_data_bytes c <=? qc_total_data_bytes c) &&
  (qc_per_group_item_capacity c <=? SIZE_MAX / sizeof_entry) &&
  (qc_max_groups c <=? SIZE_MAX / sizeof_slot).

(** The two loops that search the slots from index 0. *)
Fixpoint find_slot (f : tr_raft_group_queue_slot -> bool) (index : Z)
    (slots : list tr_raft_group_queue_slot) : option Z :=
  match slots with
  | [] => None
  | s :: slots => if f s then Some index else find_slot f (index + 1) slots
  end.

Definition tr_raft_group_queue_find_group (q : tr_raft_group_queue) (group_id : Z)
    : option Z :=
  find_slot (fun s => qs_group_id s =? group_id) 0 (q_slots q).

Definition tr_raft_group_queue_find_free (q : tr_raft_group_queue) : option Z :=
  find_slot (fun s => qs_group_id s =? 0) 0 (q_slots q).

Definition tr_raft_group_queue_prepare_slot (q : tr_raft_group_queue) (index group_id : Z)
    (allocated : bool) : status * tr_raft_group_queue :=
  let slot := slot_at q index in
  if is_null (qs_entries slot) && negb allocated then (SALTS_ENOMEM, q)
  else
    let entries :=
      match qs_entries slot with
      | Some entries => entries
      | None => replicate (Z.to_nat (qc_per_group_item_capacity (q_config q))) zero_queue_entry
      end in
    let q := set_slot q index (QueueSlot group_id (Some entries) 0 0 0) in
    (SALTS_OK, q <| q_active_group_count := q_active_group_count q +64 1 |>).

Definition tr_raft_group_queue_init (c : tr_raft_group_queue_config) (allocated : bool)
    : status * option tr_raft_group_queue :=
  if negb (tr_raft_group_queue_config_valid c) then (SALTS_EINVAL, None)
  else if negb allocated then (SALTS_ENOMEM, None)
  else (SALTS_OK, Some (Queue c (replicate (Z.to_nat (qc_max_groups c)) zero_slot) 0 0 0 0)).

(** The inner loop of [tr_raft_group_queue_clear], [count] times. *)
Fixpoint clear_entries (capacity : Z) (count : nat) (s : tr_raft_group_queue_slot)
    : tr_raft_group_queue_slot :=
  match count with
  | O => s
  | S count =>
      let entries := array_set (default [] (qs_entries s)) (qs_head s) zero_queue_entry in
      let s := s <| qs_entries := Some entries |> in
      let s := s <| qs_head := (qs_head s +64 1) mod capacity |> in
      clear_entries capacity count (s <| qs_count := qs_count s -64 1 |>)
  end.

Definition tr_raft_group_queue_clear (q : tr_raft_group_queue) : tr_raft_group_queue :=
  let clear_slot s :=
    let s := clear_entries (qc_per_group_item_capacity (q_config q))
               (Z.to_nat (qs_count s)) s in
    s <| qs_group_id := 0 |> <| qs_head := 0 |> <| qs_queued_data_bytes := 0 |> in
  Queue (q_config q) (clear_slot <$> q_slots q) 0 0 0 0.

Definition tr_raft_group_queue_enqueue (q : tr_raft_group_queue)
    (owned : tr_raft_transport_payload) (data_bytes : Z) (allocated : bool)
    : status * tr_raft_group_queue :=
  let c := q_config q in
  if pl_group_id owned =? 0 then (SALTS_EINVAL, q)
  else if (qc_total_item_capacity c <=? q_queued_item_count q) ||
          (qc_total_data_bytes c -64 q_queued_data_bytes q <? data_bytes)
  then (SALTS_ENOSPC, q)
  else
    let '(result, q, slot_index) :=
      match tr_raft_group_queue_find_group q (pl_group_id owned) with
      | Some index => (SALTS_OK, q, index)
      | None =>
          if qc_max_groups c <=? q_active_group_count q then (SALTS_ENOSPC, q, 0)
          else
            match tr_raft_group_queue_find_free q with
            | None => (SALTS_EPROTO, q, 0)
            | Some index =>
                let '(result, q) :=
                  tr_raft_group_queue_prepare_slot q index (pl_group_id owned) allocated in
                (result, q, index)
            end
      end in
    match result with
    | SALTS_OK =>
        let slot := slot_at q slot_index in
        if (qc_per_group_item_capacity c <=? qs_count slot) ||
           (qc_per_group_data_bytes c -64 qs_queued_data_bytes slot <? data_bytes)
        then
          (SALTS_ENOSPC,
           if (qs_count slot =? 0) && (qs_queued_data_bytes slot =? 0)
           then (set_slot q slot_index (slot <| qs_group_id := 0 |>))
                  <| q_active_group_count := q_active_group_count q -64 1 |>
           else q)
        else
          let tail := (qs_head slot +64 qs_count slot) mod qc_per_group_item_capacity c in
          let entries :=
            array_set (default [] (qs_entries slot)) tail (QueueEntry owned data_bytes) in
          let slot := slot <| qs_entries := Some entries |>
                           <| qs_count := qs_count slot +64 1 |>
                           <| qs_queued_data_bytes :=
                                qs_queued_data_bytes slot +64 data_bytes |> in
          (SALTS_OK,
           (set_slot q slot_index slot)
             <| q_queued_item_count := q_queued_item_count q +64 1 |>
             <| q_queued_data_bytes := q_queued_data_bytes q +64 data_bytes |>)
    | _ => (result, q)
    end.

(** The loop of [tr_raft_group_queue_peek_next] over the offsets left. *)
Fixpoint peek_loop (q : tr_raft_group_queue) (offset : Z) (remaining : nat) : option Z :=
  match remaining with
  | O => None
  | S remaining =>
      let index := (q_cursor q +64 offset) mod qc_max_groups (q_config q) in
      let slot := slot_at q index in
      if negb (qs_group_id slot =? 0) && negb (qs_count slot =? 0) then Some index
      else peek_loop q (offset + 1) remaining
  end.

(** The token and the payload it stands for. *)
Definition tr_raft_group_queue_peek_next (q : tr_raft_group_queue)
    : status * option (Z * tr_raft_transport_payload) :=
  if q_queued_item_count q =? 0 then (SALTS_EBUSY, None)
  else
    match peek_loop q 0 (Z.to_nat (qc_max_groups (q_config q))) with
    | Some index => (SALTS_OK, Some (index, qe_owned (head_entry (slot_at q index))))
    | None => (SALTS_EPROTO, None)
    end.

(** The payload and its bytes. *)
Definition tr_raft_group_queue_pop (q : tr_raft_group_queue) (token : Z)
    : status * tr_raft_group_queue * option (tr_raft_transport_payload * Z) :=
  let c := q_config q in
  if qc_max_groups c <=? token then (SALTS_EINVAL, q, None)
  else
    let slot := slot_at q token in
    if (qs_group_id slot =? 0) || (qs_count slot =? 0) then (SALTS_EPROTO, q, None)
    else
      let entry := head_entry slot in
      let data_bytes := qe_data_bytes entry in
      let entries := array_set (default [] (qs_entries slot)) (qs_head slot) zero_queue_entry in
      let slot := slot <| qs_entries := Some entries |> in
      let slot := slot <| qs_head := (qs_head slot +64 1) mod qc_per_group_item_capacity c |>
                       <| qs_count := qs_count slot -64 1 |>
                       <| qs_queued_data_bytes := qs_queued_data_bytes slot -64 data_bytes |> in
      let q := q <| q_queued_item_count := q_queued_item_count q -64 1 |>
                 <| q_queued_data_bytes := q_queued_data_bytes q -64 data_bytes |>
                 <| q_cursor := (token +64 1) mod qc_max_groups c |> in
      let '(slot, q) :=
        if qs_count slot =? 0
        then (slot <| qs_group_id := 0 |> <| qs_head := 0 |> <| qs_queued_data_bytes := 0 |>,
              q <| q_active_group_count := q_active_group_count q -64 1 |>)
        else (slot, q) in
      (SALTS_OK, set_slot q token slot, Some (qe_owned entry, data_bytes)).

Definition tr_raft_group_queue_get_group_status (q : tr_raft_group_queue) (group_id : Z)
    : status * option (Z * Z) :=
  if group_id =? 0 then (SALTS_EINVAL, None)
  else
    match tr_raft_group_queue_find_group q group_id with
    | None => (SALTS_ENOENT, None)
    | Some index =>
        (SALTS_OK, Some (qs_count (slot_at q index), qs_queued_data_bytes (slot_at q index)))
    end.
End Queue.
