(* ===== verification/GroupQueueTheorems.v ===== *)
(** * The queue is a FIFO per group, served in turn

    The ring buffers are read as lists of entries. The invariant says that the
    counters are the sums of what the slots hold and stay within the limits of
    the configuration; the operations act on the lists as on queues. *)

From S2P Require Import Prelude Configuration Bytes Wire CoreState WireBinding Handshake.
From S2P Require Import Transport GroupQueue.
From Stdlib Require Import ZArith Lia.
From stdpp Require Import base numbers list tactics.
Open Scope Z_scope.
Open Scope raft_scope.

(** ** Ring buffers *)

(** The [count] entries from [head] on. *)
Definition ring (capacity : Z) (entries : list tr_raft_group_queue_entry) (head : Z)
    (count : nat) : list tr_raft_group_queue_entry :=
  (fun i => array_get zero_queue_entry entries ((head + Z.of_nat i) mod capacity)) <$> seq 0 count.

Lemma ring_index capacity head i :
  0 < capacity -> 0 <= head -> 0 <= (head + Z.of_nat i) mod capacity < capacity.
Proof. intros. apply Z.mod_pos_bound. lia. Qed.

Lemma mod_distinct capacity a b :
  0 < capacity -> 0 <= a < b -> b - a < capacity -> a mod capacity <> b mod capacity.
Proof.
  intros Hc Hab Hlt Heq.
  assert ((b - a) mod capacity = 0) as H0.
  { rewrite Zminus_mod, Heq, Z.sub_diag. by rewrite Z.mod_0_l by lia. }
  rewrite Z.mod_small in H0 by lia. lia.
Qed.

Lemma ring_S capacity entries head n :
  ring capacity entries head (S n) =
  ring capacity entries head n ++
  [array_get zero_queue_entry entries ((head + Z.of_nat n) mod capacity)].
Proof. unfold ring. by rewrite seq_S, fmap_app. Qed.

Lemma ring_set capacity entries head n i e :
  0 <= head -> 0 < capacity ->
  (forall j, (j < n)%nat -> (head + Z.of_nat j) mod capacity <> i) ->
  ring capacity (array_set entries i e) head n = ring capacity entries head n.
Proof.
  intros Hh Hc Hne. apply list_fmap_ext. intros k x Hk. apply lookup_seq in Hk as [-> Hk].
  apply array_get_set_ne. specialize (Hne (0 + k)%nat). cbn in *. intros E. by apply Hne.
Qed.

Lemma ring_push capacity entries head n e :
  0 <= head -> Z.of_nat n < capacity -> Z.of_nat (length entries) = capacity ->
  ring capacity (array_set entries ((head + Z.of_nat n) mod capacity) e) head (S n) =
  ring capacity entries head n ++ [e].
Proof.
  intros Hh Hn Hl. rewrite ring_S, ring_set; [|lia|lia|].
  - by rewrite array_get_set_eq by (rewrite Hl; apply ring_index; lia).
  - intros j Hj. apply mod_distinct; lia.
Qed.

Lemma ring_pop capacity entries head n e :
  0 <= head < capacity -> Z.of_nat (S n) <= capacity ->
  ring capacity entries head (S n) =
  array_get zero_queue_entry entries head ::
  ring capacity (array_set entries head e) ((head + 1) mod capacity) n.
Proof.
  intros Hh Hn. unfold ring at 1. cbn [seq fmap list_fmap]. f_equal.
  - by rewrite Z.add_0_r, Z.mod_small by lia.
  - rewrite <- (fmap_S_seq 0 n), <- list_fmap_compose. apply list_fmap_ext. intros k x Hk.
    apply lookup_seq in Hk as [-> Hk]. cbn [compose].
    rewrite Zplus_mod_idemp_l. replace (head + 1 + Z.of_nat (0 + k)) with (head + Z.of_nat (S (0 + k))) by lia.
    symmetry. apply array_get_set_ne. rewrite <- (Z.mod_small head capacity) at 1 by lia.
    apply mod_distinct; lia.
Qed.

Lemma length_ring capacity entries head n : length (ring capacity entries head n) = n.
Proof. unfold ring. by rewrite length_fmap, length_seq. Qed.

(** ** Sums *)

Definition sum {A : Type} (f : A -> Z) (l : list A) : Z := foldr (fun x acc => f x + acc) 0 l.

Lemma sum_cons {A : Type} (f : A -> Z) x l : sum f (x :: l) = f x + sum f l.
Proof. done. Qed.

Lemma sum_app {A : Type} (f : A -> Z) l1 l2 : sum f (l1 ++ l2) = sum f l1 + sum f l2.
Proof. unfold sum. induction l1 as [|x l1 IH]; cbn in *; lia. Qed.

Lemma sum_insert {A : Type} (f : A -> Z) l i x y :
  l !! i = Some x -> sum f (<[i := y]> l) = sum f l - f x + f y.
Proof.
  revert i. induction l as [|z l IH]; intros [|i] Hi; try done.
  - injection Hi as ->. cbn. lia.
  - change (<[S i := y]> (z :: l)) with (z :: <[i := y]> l). cbn [sum foldr].
    fold (sum f (<[i := y]> l)) (sum f l). rewrite (IH i) by done. lia.
Qed.

Lemma sum_fmap_zero {A B : Type} (f : B -> Z) (g : A -> B) l :
  Forall (fun x => f (g x) = 0) l -> sum f (g <$> l) = 0.
Proof. induction 1 as [|x l Hx _ IH]; [done|]. by rewrite fmap_cons, sum_cons, Hx, IH. Qed.

Lemma sum_nonneg {A : Type} (f : A -> Z) l : Forall (fun x => 0 <= f x) l -> 0 <= sum f l.
Proof. unfold sum. induction 1; cbn; lia. Qed.

Lemma sum_lookup {A : Type} (f : A -> Z) l i x :
  Forall (fun x => 0 <= f x) l -> l !! i = Some x -> f x <= sum f l.
Proof.
  intros Hf. revert i. unfold sum. induction Hf as [|z l Hz Hf IH]; intros i Hi; [done|].
  pose proof (sum_nonneg f l Hf) as Hn. unfold sum in Hn.
  destruct i as [|i]; cbn in *; [injection Hi as ->; lia|]. specialize (IH i Hi). lia.
Qed.

Lemma sum_le {A : Type} (f g : A -> Z) l :
  Forall (fun x => f x <= g x) l -> sum f l <= sum g l.
Proof. unfold sum. induction 1; cbn; lia. Qed.

Lemma sum_zero {A : Type} (f : A -> Z) l :
  Forall (fun x => 0 <= f x) l -> sum f l = 0 -> Forall (fun x => f x = 0) l.
Proof.
  unfold sum. induction 1 as [|x l Hx Hl IH]; [constructor|]. cbn. intros H0.
  pose proof (sum_nonneg f l Hl) as Hn. unfold sum in Hn.
  constructor; [lia|apply IH; lia].
Qed.

(** ** The invariant *)

(** What [tr_raft_group_queue_config_valid] guarantees, for structures of at
    least two bytes. *)
Record config_ok (c : tr_raft_group_queue_config) : Prop := {
  co_groups : 0 < qc_max_groups c < 2 ^ 63;
  co_items : qc_max_groups c <= qc_total_item_capacity c < 2 ^ 64;
  co_capacity : 0 < qc_per_group_item_capacity c < 2 ^ 63;
  co_group_bytes : 0 < qc_per_group_data_bytes c <= qc_total_data_bytes c;
  co_bytes : qc_total_data_bytes c < 2 ^ 64
}.

(** The entries of a slot, the oldest first. *)
Definition items (c : tr_raft_group_queue_config) (s : tr_raft_group_queue_slot)
    : list tr_raft_group_queue_entry :=
  ring (qc_per_group_item_capacity c) (default [] (qs_entries s)) (qs_head s)
    (Z.to_nat (qs_count s)).

Record slot_inv (c : tr_raft_group_queue_config) (s : tr_raft_group_queue_slot) : Prop := {
  si_entries : match qs_entries s with
               | Some entries => Z.of_nat (length entries) = qc_per_group_item_capacity c
               | None => qs_group_id s = 0
               end;
  si_head : 0 <= qs_head s < qc_per_group_item_capacity c;
  si_count : 0 <= qs_count s <= qc_per_group_item_capacity c;
  si_live : qs_count s = 0 <-> qs_group_id s = 0;
  si_bytes : qs_queued_data_bytes s = sum qe_data_bytes (items c s);
  si_limit : qs_queued_data_bytes s <= qc_per_group_data_bytes c;
  si_items : Forall (fun e => 0 <= qe_data_bytes e /\ pl_group_id (qe_owned e) = qs_group_id s)
               (items c s)
}.

Definition live (s : tr_raft_group_queue_slot) : Z := if qs_group_id s =? 0 then 0 else 1.

Definition groups_unique (slots : list tr_raft_group_queue_slot) : Prop :=
  forall i j s t, slots !! i = Some s -> slots !! j = Some t ->
  qs_group_id s = qs_group_id t -> qs_group_id s <> 0 -> i = j.

Record queue_inv (q : tr_raft_group_queue) : Prop := {
  qi_config : config_ok (q_config q);
  qi_length : Z.of_nat (length (q_slots q)) = qc_max_groups (q_config q);
  qi_slots : Forall (slot_inv (q_config q)) (q_slots q);
  qi_unique : groups_unique (q_slots q);
  qi_active : q_active_group_count q = sum live (q_slots q);
  qi_items : q_queued_item_count q = sum qs_count (q_slots q);
  qi_items_limit : q_queued_item_count q <= qc_total_item_capacity (q_config q);
  qi_bytes : q_queued_data_bytes q = sum qs_queued_data_bytes (q_slots q);
  qi_bytes_limit : q_queued_data_bytes q <= qc_total_data_bytes (q_config q);
  qi_cursor : 0 <= q_cursor q < qc_max_groups (q_config q)
}.

(** The queue of a group. *)
Definition group_items (q : tr_raft_group_queue) (group_id : Z)
    : list tr_raft_group_queue_entry :=
  match tr_raft_group_queue_find_group q group_id with
  | Some index => items (q_config q) (slot_at q index)
  | None => []
  end.

(** ** Slots *)

Lemma find_slot_some f k slots z :
  find_slot f k slots = Some z ->
  exists i s, z = k + Z.of_nat i /\ slots !! i = Some s /\ f s = true.
Proof.
  revert k. induction slots as [|s slots IH]; intros k; [done|]. cbn.
  destruct (f s) eqn:Hf.
  - intros [= <-]. exists 0%nat, s. split; [lia|done].
  - intros (i & t & -> & Hi & Ht)%IH. exists (S i), t. split; [lia|done].
Qed.

Lemma find_slot_none f k slots :
  find_slot f k slots = None -> Forall (fun s => f s = false) slots.
Proof.
  revert k. induction slots as [|s slots IH]; intros k; [constructor|]. cbn.
  destruct (f s) eqn:Hf; [done|]. intros Hn. constructor; [done|by eapply IH].
Qed.

Lemma slot_at_lookup q i s : q_slots q !! i = Some s -> slot_at q (Z.of_nat i) = s.
Proof. intros Hi. unfold slot_at. rewrite array_get_nat. by apply nth_lookup_Some. Qed.

Lemma array_set_insert {A : Type} (l : list A) i x : array_set l (Z.of_nat i) x = <[i := x]> l.
Proof. unfold array_set. replace (_ <? 0) with false by blia. by rewrite Nat2Z.id. Qed.

Lemma group_items_at q i s :
  queue_inv q -> q_slots q !! i = Some s -> qs_group_id s <> 0 ->
  tr_raft_group_queue_find_group q (qs_group_id s) = Some (Z.of_nat i) /\
  group_items q (qs_group_id s) = items (q_config q) s.
Proof.
  intros Hq Hi Hg. unfold group_items, tr_raft_group_queue_find_group.
  destruct (find_slot _ _ _) as [z|] eqn:Hf.
  - apply find_slot_some in Hf as (j & t & -> & Hj & Ht).
    cbn in Ht. assert (j = i) as -> by (apply (qi_unique _ Hq j i t s Hj Hi); lia).
    rewrite Z.add_0_l. by rewrite (slot_at_lookup q i s).
  - apply find_slot_none in Hf. rewrite list.Forall_forall in Hf.
    specialize (Hf s (list_elem_of_lookup_2 _ _ _ Hi)). cbn in Hf. lia.
Qed.

Lemma group_items_absent q g :
  Forall (fun s => qs_group_id s <> g) (q_slots q) ->
  tr_raft_group_queue_find_group q g = None /\ group_items q g = [].
Proof.
  intros Hn. unfold group_items, tr_raft_group_queue_find_group.
  destruct (find_slot _ _ _) as [z|] eqn:Hf; [|done].
  apply find_slot_some in Hf as (j & t & -> & Hj & Ht).
  rewrite list.Forall_forall in Hn. specialize (Hn t (list_elem_of_lookup_2 _ _ _ Hj)). cbn in *. lia.
Qed.

(** The counts that are zero in a free slot, and those that are bounded. *)
Lemma slot_inv_ranges c s :
  config_ok c -> slot_inv c s -> 0 <= qs_queued_data_bytes s /\ 0 <= qs_count s /\ 0 <= live s <= 1 /\
  (qs_group_id s = 0 -> qs_queued_data_bytes s = 0).
Proof.
  intros Hc [H1 H2 H3 H4 H5 H6 H7]. split; [|split; [lia|split; [unfold live; destruct (_ =? 0); lia|]]].
  - rewrite H5. apply sum_nonneg. eapply list.Forall_impl; [exact H7|]. cbn. naive_solver.
  - intros Hg. apply H4 in Hg. rewrite H5. unfold items. by rewrite Hg.
Qed.

Lemma queue_ranges q :
  queue_inv q ->
  Forall (fun s => 0 <= qs_queued_data_bytes s /\ 0 <= qs_count s /\ 0 <= live s <= 1) (q_slots q) /\
  0 <= q_active_group_count q <= qc_max_groups (q_config q) /\
  0 <= q_queued_item_count q /\ 0 <= q_queued_data_bytes q.
Proof.
  intros [H1 H2 H3 H4 H5 H6 H7 H8 H9 H10].
  assert (Forall (fun s => 0 <= qs_queued_data_bytes s /\ 0 <= qs_count s /\ 0 <= live s <= 1)
    (q_slots q)) as Hr.
  { eapply list.Forall_impl; [exact H3|]. intros s Hs.
    destruct (slot_inv_ranges _ s H1 Hs) as (? & ? & ? & _). done. }
  split; [done|]. rewrite H5, H6, H8.
  assert (sum live (q_slots q) <= sum (fun _ => 1) (q_slots q)) as Hle.
  { apply sum_le. eapply list.Forall_impl; [exact Hr|]. cbn. lia. }
  assert (sum (fun _ => 1) (q_slots q) = Z.of_nat (length (q_slots q))) as Hlen.
  { clear. unfold sum. induction (q_slots q) as [|s l IH]; cbn [foldr length]; lia. }
  assert (0 <= sum live (q_slots q)).
  { apply sum_nonneg. eapply list.Forall_impl; [exact Hr|]. cbn. lia. }
  split; [lia|]. split; apply sum_nonneg; (eapply list.Forall_impl; [exact Hr|]); cbn; lia.
Qed.

(** ** Replacing a slot *)

Lemma queue_update q i s s' active' items' bytes' cursor' :
  queue_inv q -> q_slots q !! i = Some s -> slot_inv (q_config q) s' ->
  qs_group_id s' = 0 \/ qs_group_id s' = qs_group_id s \/
  Forall (fun t => qs_group_id t <> qs_group_id s') (q_slots q) ->
  active' = q_active_group_count q - live s + live s' ->
  items' = q_queued_item_count q - qs_count s + qs_count s' ->
  items' <= qc_total_item_capacity (q_config q) ->
  bytes' = q_queued_data_bytes q - qs_queued_data_bytes s + qs_queued_data_bytes s' ->
  bytes' <= qc_total_data_bytes (q_config q) ->
  0 <= cursor' < qc_max_groups (q_config q) ->
  queue_inv (Queue (q_config q) (<[i := s']> (q_slots q)) active' items' bytes' cursor').
Proof.
  intros [H1 H2 H3 H4 H5 H6 H7 H8 H9 H10] Hi Hs' Hg -> -> Hil -> Hbl Hc.
  split; cbn; try done.
  - by rewrite length_insert.
  - by apply Forall_insert.
  - intros a b x y Ha Hb Hxy Hx.
    destruct (decide (a = i)) as [->|Hai], (decide (b = i)) as [->|Hbi]; try done.
    + rewrite list_lookup_insert_eq in Ha by (by eapply lookup_lt_Some). injection Ha as <-.
      rewrite list_lookup_insert_ne in Hb by done. destruct Hg as [?|[Hg|Hg]]; [done| |].
      * eapply H4; [exact Hi|exact Hb|congruence|congruence].
      * rewrite list.Forall_forall in Hg. exfalso.
        apply (Hg y); [by eapply list_elem_of_lookup_2|done].
    + rewrite list_lookup_insert_eq in Hb by (by eapply lookup_lt_Some). injection Hb as <-.
      rewrite list_lookup_insert_ne in Ha by done. destruct Hg as [?|[Hg|Hg]]; [congruence| |].
      * eapply H4; [exact Ha|exact Hi|congruence|congruence].
      * rewrite list.Forall_forall in Hg. exfalso.
        apply (Hg x); [by eapply list_elem_of_lookup_2|done].
    + rewrite list_lookup_insert_ne in Ha, Hb by done. by eapply H4.
  - rewrite H5. symmetry. by apply sum_insert.
  - rewrite H6. symmetry. by apply sum_insert.
  - rewrite H8. symmetry. by apply sum_insert.
Qed.

(** The queues of the groups after it. *)
Lemma group_items_update q q' i s s' g :
  queue_inv q -> queue_inv q' -> q_config q' = q_config q ->
  q_slots q !! i = Some s -> q_slots q' = <[i := s']> (q_slots q) -> g <> 0 ->
  group_items q' g =
  if g =? qs_group_id s' then items (q_config q) s'
  else if g =? qs_group_id s then [] else group_items q g.
Proof.
  intros Hq Hq' Hc Hi Hs Hg.
  assert (q_slots q' !! i = Some s') as Hi'.
  { rewrite Hs. apply list_lookup_insert_eq. by eapply lookup_lt_Some. }
  destruct (g =? qs_group_id s') eqn:E1.
  { assert (g = qs_group_id s') as -> by lia.
    destruct (group_items_at q' i s' Hq' Hi') as [_ ->]; [lia|]. by rewrite Hc. }
  assert (forall j t, j <> i -> q_slots q' !! j = Some t <-> q_slots q !! j = Some t) as Hj.
  { intros j t Hji. rewrite Hs. by rewrite list_lookup_insert_ne. }
  destruct (tr_raft_group_queue_find_group q' g) as [z|] eqn:Hf'.
  - unfold tr_raft_group_queue_find_group in Hf'.
    apply find_slot_some in Hf' as (j & t & -> & Ht & Htg). cbn in Htg.
    assert (g = qs_group_id t) as -> by lia.
    assert (j <> i) as Hji by (intros ->; rewrite Hi' in Ht; injection Ht as ->; lia).
    destruct (group_items_at q' j t Hq' Ht Hg) as [_ ->]. apply Hj in Ht; [|done].
    destruct (group_items_at q j t Hq Ht Hg) as [_ ->].
    destruct (qs_group_id t =? qs_group_id s) eqn:E2; [|by rewrite Hc].
    exfalso. apply Hji. apply (qi_unique _ Hq j i t s Ht Hi); lia.
  - unfold group_items at 1. rewrite Hf'. unfold tr_raft_group_queue_find_group in Hf'.
    apply find_slot_none in Hf'. destruct (g =? qs_group_id s) eqn:E2; [done|].
    destruct (group_items_absent q g) as [_ ->]; [|done].
    apply list.Forall_forall. intros t (j & Ht)%list_elem_of_lookup_1.
    destruct (decide (j = i)) as [->|Hji]; [rewrite Hi in Ht; injection Ht as ->; lia|].
    apply Hj in Ht; [|done]. rewrite list.Forall_forall in Hf'.
    specialize (Hf' t (list_elem_of_lookup_2 _ _ _ Ht)). cbn in Hf'. lia.
Qed.

(** ** Push and pop of a slot *)

(** A slot in use, perhaps still empty. *)
Record slot_used (c : tr_raft_group_queue_config) (s : tr_raft_group_queue_slot)
    (entries : list tr_raft_group_queue_entry) : Prop := {
  su_entries : qs_entries s = Some entries;
  su_length : Z.of_nat (length entries) = qc_per_group_item_capacity c;
  su_head : 0 <= qs_head s < qc_per_group_item_capacity c;
  su_count : 0 <= qs_count s <= qc_per_group_item_capacity c;
  su_group : qs_group_id s <> 0;
  su_bytes : qs_queued_data_bytes s = sum qe_data_bytes (items c s);
  su_limit : qs_queued_data_bytes s <= qc_per_group_data_bytes c;
  su_items : Forall (fun e => 0 <= qe_data_bytes e /\ pl_group_id (qe_owned e) = qs_group_id s)
               (items c s)
}.

Lemma slot_inv_used c s :
  slot_inv c s -> qs_group_id s <> 0 -> exists entries, slot_used c s entries.
Proof.
  intros [H1 H2 H3 H4 H5 H6 H7] Hg. destruct (qs_entries s) as [entries|] eqn:He; [|done].
  exists entries. by split.
Qed.

Definition push_slot (c : tr_raft_group_queue_config) (s : tr_raft_group_queue_slot)
    (e : tr_raft_group_queue_entry) : tr_raft_group_queue_slot :=
  s <| qs_entries := Some (array_set (default [] (qs_entries s))
         ((qs_head s +64 qs_count s) mod qc_per_group_item_capacity c) e) |>
    <| qs_count := qs_count s +64 1 |>
    <| qs_queued_data_bytes := qs_queued_data_bytes s +64 qe_data_bytes e |>.

Lemma push_slot_spec c s entries e :
  config_ok c -> slot_used c s entries -> qs_count s < qc_per_group_item_capacity c ->
  pl_group_id (qe_owned e) = qs_group_id s -> 0 <= qe_data_bytes e ->
  qs_queued_data_bytes s + qe_data_bytes e <= qc_per_group_data_bytes c ->
  items c (push_slot c s e) = items c s ++ [e] /\ slot_inv c (push_slot c s e) /\
  qs_group_id (push_slot c s e) = qs_group_id s /\
  qs_count (push_slot c s e) = qs_count s + 1 /\
  qs_queued_data_bytes (push_slot c s e) = qs_queued_data_bytes s + qe_data_bytes e.
Proof.
  intros [C1 C2 C3 C4 C5] [H1 H2 H3 H4 H5 H6 H7 H8] Hcount Hg Hb Hlimit.
  assert (0 <= qs_queued_data_bytes s).
  { rewrite H6. apply sum_nonneg. eapply list.Forall_impl; [exact H8|]. cbn. naive_solver. }
  assert (qs_count s +64 1 = qs_count s + 1) as Hc1 by word.
  assert (qs_queued_data_bytes s +64 qe_data_bytes e =
    qs_queued_data_bytes s + qe_data_bytes e) as Hb1 by word.
  assert (qs_head s +64 qs_count s = qs_head s + qs_count s) as Hh1 by word.
  assert (items c (push_slot c s e) = items c s ++ [e]) as Hit.
  { unfold items, push_slot. cbn. rewrite Hc1, Hh1, H1. cbn [default id].
    replace (Z.to_nat (qs_count s + 1)) with (S (Z.to_nat (qs_count s))) by lia.
    rewrite <- (ring_push _ entries (qs_head s) (Z.to_nat (qs_count s)) e) by lia.
    by rewrite Z2Nat.id by lia. }
  split; [done|]. split; [|unfold push_slot; cbn; rewrite Hc1, Hb1; done].
  split; rewrite ?Hit; unfold push_slot; cbn; rewrite ?Hc1, ?Hb1, ?H1.
  - cbn. by rewrite length_array_set.
  - done.
  - lia.
  - split; [lia|]. intros E. lia.
  - rewrite sum_app, <- H6. cbn. lia.
  - done.
  - apply Forall_app. split; [done|]. by constructor.
Qed.

(** The slot after a pop: the entry is cleared, and an empty slot is freed. *)
Definition pop_slot (c : tr_raft_group_queue_config) (s : tr_raft_group_queue_slot)
    : tr_raft_group_queue_slot :=
  let e := head_entry s in
  let s := s <| qs_entries := Some (array_set (default [] (qs_entries s)) (qs_head s)
                                      zero_queue_entry) |>
             <| qs_head := (qs_head s +64 1) mod qc_per_group_item_capacity c |>
             <| qs_count := qs_count s -64 1 |>
             <| qs_queued_data_bytes := qs_queued_data_bytes s -64 qe_data_bytes e |> in
  if qs_count s =? 0
  then s <| qs_group_id := 0 |> <| qs_head := 0 |> <| qs_queued_data_bytes := 0 |>
  else s.

Lemma pop_slot_spec c s :
  config_ok c -> slot_inv c s -> qs_group_id s <> 0 ->
  items c s = head_entry s :: items c (pop_slot c s) /\ slot_inv c (pop_slot c s) /\
  (qs_group_id (pop_slot c s) = 0 /\ items c (pop_slot c s) = [] \/
   qs_group_id (pop_slot c s) = qs_group_id s) /\
  qs_count (pop_slot c s) = qs_count s - 1 /\
  qs_queued_data_bytes (pop_slot c s) = qs_queued_data_bytes s - qe_data_bytes (head_entry s) /\
  qs_count s -64 1 = qs_count s - 1 /\ 0 <= qe_data_bytes (head_entry s).
Proof.
  intros [C1 C2 C3 C4 C5] Hs Hg. pose proof Hs as [S1 S2 S3 S4 S5 S6 S7].
  destruct (slot_inv_used c s Hs Hg) as (entries & [H1 H2 H3 H4 H5 H6 H7 H8]).
  assert (0 < qs_count s) as Hpos by (destruct (Z.eq_dec (qs_count s) 0) as [E|]; [apply S4 in E; done|lia]).
  set (s1 := s <| qs_entries := Some (array_set entries (qs_head s) zero_queue_entry) |>
               <| qs_head := (qs_head s + 1) mod qc_per_group_item_capacity c |>
               <| qs_count := qs_count s - 1 |>
               <| qs_queued_data_bytes :=
                    qs_queued_data_bytes s - qe_data_bytes (head_entry s) |>).
  assert (items c s = head_entry s :: items c s1) as Hit.
  { unfold items, s1, head_entry. cbn. rewrite H1. cbn [default id].
    replace (Z.to_nat (qs_count s)) with (S (Z.to_nat (qs_count s - 1))) by lia.
    apply ring_pop; lia. }
  rewrite Hit in H6, H8. apply Forall_cons_1 in H8 as [[He Heg] H8].
  assert (0 <= sum qe_data_bytes (items c s1)).
  { apply sum_nonneg. eapply list.Forall_impl; [exact H8|]. cbn. naive_solver. }
  change (sum qe_data_bytes (head_entry s :: items c s1)) with
    (qe_data_bytes (head_entry s) + sum qe_data_bytes (items c s1)) in H6.
  assert (qs_count s -64 1 = qs_count s - 1) as Hc1 by word.
  assert (qs_queued_data_bytes s -64 qe_data_bytes (head_entry s) =
    qs_queued_data_bytes s - qe_data_bytes (head_entry s)) as Hb1 by word.
  assert (qs_head s +64 1 = qs_head s + 1) as Hh1 by word.
  assert (pop_slot c s = if qs_count s - 1 =? 0
    then s1 <| qs_group_id := 0 |> <| qs_head := 0 |> <| qs_queued_data_bytes := 0 |>
    else s1) as ->.
  { unfold pop_slot, s1. cbn. by rewrite Hc1, Hb1, Hh1, H1. }
  destruct (qs_count s - 1 =? 0) eqn:Hlast.
  - assert (items c s1 = []) as Hnil.
    { apply nil_length_inv. unfold items. rewrite length_ring. cbn. lia. }
    assert (forall t, qs_count t = qs_count s1 -> items c t = []) as Hnil'.
    { intros t Ht. apply nil_length_inv. unfold items. rewrite length_ring, Ht. cbn. lia. }
    rewrite Hnil in *. cbn in H6.
    split; [rewrite Hit; f_equal; symmetry; by apply Hnil'|].
    split; [|split; [left; split; [done|by apply Hnil']|cbn; lia]].
    split; rewrite ?Hnil' by done; cbn; rewrite ?length_array_set; (done || lia).
  - split; [done|]. split; [|split; [by right|split; [done|split; [done|split; done]]]].
    split; cbn [s1 qs_entries qs_head qs_count qs_group_id qs_queued_data_bytes set_field
      set_qs_entries set_qs_head set_qs_count set_qs_bytes]; rewrite ?length_array_set;
      try done; try lia.
    apply Z.mod_pos_bound. lia.
Qed.

(** ** Enqueue *)

(** The room for a payload of [data_bytes] bytes. *)
Definition room (q : tr_raft_group_queue) (group_id data_bytes : Z) : Prop :=
  let c := q_config q in
  q_queued_item_count q < qc_total_item_capacity c /\
  q_queued_data_bytes q + data_bytes <= qc_total_data_bytes c /\
  Z.of_nat (length (group_items q group_id)) < qc_per_group_item_capacity c /\
  sum qe_data_bytes (group_items q group_id) + data_bytes <= qc_per_group_data_bytes c /\
  (group_items q group_id = [] -> q_active_group_count q < qc_max_groups c).

(** Same configuration, same counters and same queues. *)
Definition same_queues (q q' : tr_raft_group_queue) : Prop :=
  q_config q' = q_config q /\ q_active_group_count q' = q_active_group_count q /\
  q_queued_item_count q' = q_queued_item_count q /\
  q_queued_data_bytes q' = q_queued_data_bytes q /\ q_cursor q' = q_cursor q /\
  forall g, g <> 0 -> group_items q' g = group_items q g.

(** [q'] is [q] with a payload at the end of the queue of its group. *)
Definition enqueued (q q' : tr_raft_group_queue) (e : tr_raft_group_queue_entry) : Prop :=
  q_config q' = q_config q /\ q_queued_item_count q' = q_queued_item_count q + 1 /\
  q_queued_data_bytes q' = q_queued_data_bytes q + qe_data_bytes e /\
  q_cursor q' = q_cursor q /\
  forall g, g <> 0 ->
  group_items q' g =
  group_items q g ++ (if g =? pl_group_id (qe_owned e) then [e] else []).

Lemma same_queues_refl q : same_queues q q.
Proof. by repeat split. Qed.

Section Enqueue.
Context (q : tr_raft_group_queue) (p : tr_raft_transport_payload) (n : Z).
Context (Hq : queue_inv q) (Hgroup : pl_group_id p <> 0) (Hn : 0 <= n).
Abbreviation c := (q_config q).
Abbreviation e := (QueueEntry p n).

(** Replacing the slot of the group, or a free slot, by one with the payload. *)
Lemma push_queue i s s0 entries :
  q_slots q !! i = Some s -> slot_used c s0 entries -> qs_group_id s0 = pl_group_id p ->
  (s0 = s \/ (qs_group_id s = 0 /\ qs_count s0 = 0 /\ qs_queued_data_bytes s0 = 0 /\
              Forall (fun t => qs_group_id t <> pl_group_id p) (q_slots q))) ->
  qs_count s0 < qc_per_group_item_capacity c ->
  qs_queued_data_bytes s0 + n <= qc_per_group_data_bytes c ->
  q_queued_item_count q < qc_total_item_capacity c ->
  q_queued_data_bytes q + n <= qc_total_data_bytes c ->
  let q' := Queue c (<[i := push_slot c s0 e]> (q_slots q))
              (q_active_group_count q - live s + 1) (q_queued_item_count q +64 1)
              (q_queued_data_bytes q +64 n) (q_cursor q) in
  queue_inv q' /\ enqueued q q' e.
Proof.
  intros Hi Hu Hg Hs Hcount Hbytes Hitems Htotal. cbv zeta.
  pose proof (qi_config _ Hq) as Hc. destruct (queue_ranges q Hq) as (_ & Ha & Hr1 & Hr2).
  destruct (push_slot_spec c s0 entries e Hc Hu) as (P1 & P2 & P3 & P4 & P5); try done.
  pose proof (co_items _ Hc). pose proof (co_bytes _ Hc).
  rewrite !u64_small by lia.
  assert (qs_count s0 = qs_count s /\ qs_queued_data_bytes s0 = qs_queued_data_bytes s) as [Es Eb].
  { destruct Hs as [-> |(Hf & H1 & H2 & _)]; [done|]. rewrite H1, H2.
    pose proof (qi_slots _ Hq) as Hsl. rewrite Forall_lookup in Hsl. specialize (Hsl i s Hi).
    destruct (slot_inv_ranges _ s Hc Hsl) as (_ & _ & _ & Hz). rewrite (Hz Hf).
    split; [|done]. symmetry. by apply (si_live _ _ Hsl). }
  assert (live (push_slot c s0 e) = 1) as Hlive.
  { unfold live. rewrite P3, Hg. by replace (_ =? 0) with false by blia. }
  match goal with |- queue_inv ?x /\ _ => assert (queue_inv x) as Hq' end.
  { apply (queue_update q i s); try done; try (rewrite ?P4, ?P5, ?Hlive; cbn; lia).
    - rewrite P3, Hg. destruct Hs as [-> |(_ & _ & _ & Hs)]; [right; left; congruence|by right; right].
    - apply Hq. }
  split; [done|]. repeat split; [cbn..|]. intros g Hg0.
  rewrite (group_items_update q _ i s (push_slot c s0 e) g Hq Hq' eq_refl Hi eq_refl Hg0).
  rewrite P3, Hg. cbn [qe_owned]. rewrite P1. destruct (g =? pl_group_id p) eqn:E.
  - assert (g = pl_group_id p) as -> by lia. f_equal. destruct Hs as [-> |(Hf & Hc0 & _ & Hab)].
    + rewrite <- Hg. by destruct (group_items_at q i s Hq Hi) as [_ ->]; [lia|].
    + destruct (group_items_absent q _ Hab) as [_ ->]. unfold items. by rewrite Hc0.
  - rewrite app_nil_r. destruct (g =? qs_group_id s) eqn:E2; [|done]. exfalso.
    destruct Hs as [-> |(Hf & _)]; lia.
Qed.

Definition enqueue_outcome (allocated : bool) (r : status) (q' : tr_raft_group_queue) : Prop :=
  queue_inv q' /\
  ((r = SALTS_OK /\ room q (pl_group_id p) n /\ enqueued q q' e) \/
   (r = SALTS_ENOSPC /\ ~ room q (pl_group_id p) n /\ same_queues q q') \/
   (r = SALTS_ENOMEM /\ allocated = false /\ same_queues q q')).

Lemma outcome_full allocated :
  ~ room q (pl_group_id p) n -> enqueue_outcome allocated SALTS_ENOSPC q.
Proof.
  intros Hr. split; [done|]. right. left. split; [done|]. split; [done|apply same_queues_refl].
Qed.

(** The group is in the queue. *)
Lemma enqueue_present allocated i s :
  q_slots q !! i = Some s -> qs_group_id s = pl_group_id p ->
  q_queued_item_count q < qc_total_item_capacity c ->
  q_queued_data_bytes q + n <= qc_total_data_bytes c ->
  let slot := slot_at q (Z.of_nat i) in
  let '(r, q') :=
    if (qc_per_group_item_capacity c <=? qs_count slot) ||
       (qc_per_group_data_bytes c -64 qs_queued_data_bytes slot <? n)
    then
      (SALTS_ENOSPC,
       if (qs_count slot =? 0) && (qs_queued_data_bytes slot =? 0)
       then (set_slot q (Z.of_nat i) (slot <| qs_group_id := 0 |>))
              <| q_active_group_count := q_active_group_count q -64 1 |>
       else q)
    else
      (SALTS_OK,
       (set_slot q (Z.of_nat i) (push_slot c slot e))
         <| q_queued_item_count := q_queued_item_count q +64 1 |>
         <| q_queued_data_bytes := q_queued_data_bytes q +64 n |>) in
  enqueue_outcome allocated r q'.
Proof.
  intros Hi Hg Hitems Htotal. cbv zeta. rewrite (slot_at_lookup q i s Hi).
  pose proof (qi_config _ Hq) as Hc. pose proof (qi_slots _ Hq) as Hs.
  rewrite Forall_lookup in Hs. specialize (Hs i s Hi).
  destruct (slot_inv_used c s Hs) as (entries & Hu); [lia|].
  destruct (slot_inv_ranges c s Hc Hs) as (Hb0 & Hc0 & _ & _).
  destruct (group_items_at q i s Hq Hi) as [_ Hgi]; [lia|]. rewrite Hg in Hgi.
  assert (qs_count s <> 0) as Hpos by (intros E; apply (si_live _ _ Hs) in E; lia).
  assert (qc_per_group_data_bytes c -64 qs_queued_data_bytes s =
    qc_per_group_data_bytes c - qs_queued_data_bytes s) as ->
    by (pose proof (si_limit _ _ Hs); destruct Hc; word).
  assert (Z.of_nat (length (items c s)) = qs_count s) as Hlen
    by (unfold items; rewrite length_ring; lia).
  destruct (_ || _) eqn:Hfull.
  - replace (qs_count s =? 0) with false by blia. cbn [andb]. apply outcome_full.
    unfold room. rewrite Hgi, Hlen, <- (si_bytes _ _ Hs). intros (_ & _ & H1 & H2 & _). bprop. lia.
  - bprop. destruct (push_queue i s s entries Hi Hu Hg) as [Hq' He]; try done; try lia; [by left|].
    assert (live s = 1) as Hl by (unfold live; by replace (_ =? 0) with false by blia).
    rewrite Hl in *. unfold set_slot. rewrite array_set_insert.
    replace (q_active_group_count q - 1 + 1) with (q_active_group_count q) in * by lia.
    split; [exact Hq'|]. left. split; [done|]. split; [|exact He].
    unfold room. rewrite Hgi, Hlen, <- (si_bytes _ _ Hs). repeat split; try lia.
    intros E. rewrite E in Hlen. cbn in Hlen. lia.
Qed.

(** A free slot exists as long as fewer groups than slots are in use. *)
Lemma free_slot : q_active_group_count q < qc_max_groups c ->
  tr_raft_group_queue_find_free q <> None.
Proof.
  intros Ha Hf. apply find_slot_none in Hf. rewrite (qi_active _ Hq), <- (qi_length _ Hq) in Ha.
  clear -Ha Hf. induction Hf as [|s l Hs Hf IH]; [cbn in Ha; lia|]. apply IH.
  cbn [length] in Ha. change (sum live (s :: l)) with (live s + sum live l) in Ha.
  unfold live in Ha at 1. cbn in Hs. rewrite Hs in Ha. lia.
Qed.

(** The group is not in the queue: a free slot is prepared for it. *)
Lemma enqueue_absent allocated :
  Forall (fun t => qs_group_id t <> pl_group_id p) (q_slots q) ->
  q_queued_item_count q < qc_total_item_capacity c ->
  q_queued_data_bytes q + n <= qc_total_data_bytes c ->
  tr_raft_group_queue_find_group q (pl_group_id p) = None ->
  let '(r, q') := tr_raft_group_queue_enqueue q p n allocated in enqueue_outcome allocated r q'.
Proof.
  intros Hab Hitems Htotal Hf. pose proof (qi_config _ Hq) as Hc.
  destruct (queue_ranges q Hq) as (_ & Ha & Hr1 & Hr2). destruct (group_items_absent q _ Hab) as [_ Hgi].
  pose proof Hc as [C1 C2 C3 C4 C5].
  unfold tr_raft_group_queue_enqueue. replace (pl_group_id p =? 0) with false by blia.
  rewrite (u64_small (_ - _)) by lia. replace (_ || _) with false by blia. rewrite Hf.
  destruct (_ <=? q_active_group_count q) eqn:Hact.
  { apply outcome_full. unfold room. intros (_ & _ & _ & _ & H). specialize (H Hgi). lia. }
  destruct (tr_raft_group_queue_find_free q) as [z|] eqn:Hfree; [|by apply free_slot in Hfree; [|lia]].
  apply find_slot_some in Hfree as (i & s & -> & Hi & Hs0). rewrite Z.add_0_l.
  unfold tr_raft_group_queue_prepare_slot. rewrite (slot_at_lookup q i s Hi). cbn in Hs0.
  pose proof (qi_slots _ Hq) as Hs. rewrite Forall_lookup in Hs. specialize (Hs i s Hi).
  destruct (_ && _) eqn:Halloc.
  { split; [done|]. right. right. destruct allocated; [by rewrite andb_false_r in Halloc|].
    split; [done|]. split; [done|apply same_queues_refl]. }
  set (entries := match qs_entries s with Some l => l | None => _ end).
  assert (Z.of_nat (length entries) = qc_per_group_item_capacity c) as Hlen.
  { unfold entries. pose proof (si_entries _ _ Hs) as He. destruct (qs_entries s); [done|].
    rewrite length_replicate. lia. }
  set (s0 := QueueSlot (pl_group_id p) (Some entries) 0 0 0).
  set (q1 := (set_slot q (Z.of_nat i) s0) <| q_active_group_count := _ |>).
  assert (slot_at q1 (Z.of_nat i) = s0) as Hs1.
  { apply slot_at_lookup. cbn. rewrite array_set_insert. apply list_lookup_insert_eq.
    by eapply lookup_lt_Some. }
  assert (q_active_group_count q +64 1 = q_active_group_count q + 1) as Ha1 by word.
  assert (live s = 0) as Hl by (unfold live; by rewrite Hs0).
  cbn [slot_at]. rewrite Hs1. cbn [s0 qs_count qs_queued_data_bytes qs_head qs_entries].
  rewrite Z.sub_0_r, (u64_small (qc_per_group_data_bytes c)) by lia.
  replace (_ <=? 0) with false by blia. cbn [orb Z.eqb andb].
  destruct (_ <? n) eqn:Hbig.
  - set (s2 := set_field qs_group_id 0 s0).
    assert (slot_inv c s2) as Hs2 by (split; cbn; try done; lia).
    pose proof (queue_update q i s s2 (q_active_group_count q) (q_queued_item_count q)
      (q_queued_data_bytes q) (q_cursor q) Hq Hi Hs2 ltac:(by left)) as Hup.
    assert (qs_count s = 0) as Hcs by (apply (si_live _ _ Hs); lia).
    destruct (slot_inv_ranges c s Hc Hs) as (_ & _ & _ & Hbs). specialize (Hbs ltac:(lia)).
    rewrite Hcs, Hbs, Hl in Hup. cbn in Hup.
    specialize (Hup ltac:(lia) ltac:(lia) ltac:(lia) ltac:(lia) ltac:(lia) (qi_cursor _ Hq)).
    assert (set_field q_active_group_count (q_active_group_count q1 -64 1)
      (set_slot q1 (Z.of_nat i) s2) = Queue c (<[i := s2]> (q_slots q)) (q_active_group_count q)
      (q_queued_item_count q) (q_queued_data_bytes q) (q_cursor q)) as ->.
    { unfold q1, set_slot. cbn. rewrite Ha1, !array_set_insert, list_insert_insert_eq.
      by replace (q_active_group_count q + 1 -64 1) with (q_active_group_count q) by word. }
    split; [done|]. right. left. split; [done|]. split.
    + unfold room. rewrite Hgi. intros (_ & _ & _ & H & _). cbn in H. lia.
    + repeat split. intros g Hg0.
      rewrite (group_items_update q _ i s s2 g Hq Hup eq_refl Hi eq_refl Hg0).
      change (qs_group_id s2) with 0. replace (g =? 0) with false by blia.
      assert (qs_group_id s = 0) as -> by lia. by replace (g =? 0) with false by blia.
  - destruct (push_queue i s s0 entries Hi) as [Hq' He]; try done; try (cbn; lia).
    { split; cbn; try done; lia. }
    { right. cbn. repeat split; (done || lia). }
    rewrite Hl in *. rewrite Z.sub_0_r in *.
    match goal with |- enqueue_outcome _ _ ?x => assert (x =
      Queue c (<[i := push_slot c s0 e]> (q_slots q)) (q_active_group_count q + 1)
        (q_queued_item_count q +64 1) (q_queued_data_bytes q +64 n) (q_cursor q)) as -> end.
    { unfold q1, set_slot. cbn. by rewrite Ha1, !array_set_insert, list_insert_insert_eq. }
    split; [done|]. left. split; [done|]. split; [|done].
    unfold room. rewrite Hgi. cbn. repeat split; lia.
Qed.

Lemma enqueue_cases allocated :
  let '(r, q') := tr_raft_group_queue_enqueue q p n allocated in enqueue_outcome allocated r q'.
Proof.
  pose proof (qi_config _ Hq) as Hc. destruct (queue_ranges q Hq) as (_ & Ha & Hr1 & Hr2).
  pose proof Hc as [C1 C2 C3 C4 C5]. pose proof (qi_bytes_limit _ Hq).
  assert (qc_total_data_bytes c -64 q_queued_data_bytes q =
    qc_total_data_bytes c - q_queued_data_bytes q) as Htotal by word.
  destruct ((qc_total_item_capacity c <=? q_queued_item_count q) ||
    (qc_total_data_bytes c - q_queued_data_bytes q <? n)) eqn:Hfull.
  - unfold tr_raft_group_queue_enqueue. replace (pl_group_id p =? 0) with false by blia.
    rewrite Htotal, Hfull. apply outcome_full. intros (H1 & H2 & _). bprop. lia.
  - destruct (tr_raft_group_queue_find_group q (pl_group_id p)) as [z|] eqn:Hf.
    + pose proof Hf as Hz. apply find_slot_some in Hz as (i & s & -> & Hi & Hg). cbn in Hg.
      rewrite Z.add_0_l in Hf. unfold tr_raft_group_queue_enqueue.
      replace (pl_group_id p =? 0) with false by blia. rewrite Htotal, Hfull, Hf.
      apply (enqueue_present allocated i s Hi); bprop; lia.
    + apply enqueue_absent; [|bprop; lia|bprop; lia|done].
      apply find_slot_none in Hf. eapply list.Forall_impl; [exact Hf|]. cbn. lia.
Qed.
End Enqueue.

(** ** Peek and pop *)

(** How far a slot is after the cursor. *)
Definition distance (q : tr_raft_group_queue) (i : Z) : Z :=
  (i - q_cursor q) mod qc_max_groups (q_config q).

Lemma peek_loop_spec q offset remaining :
  queue_inv q -> 0 <= offset ->
  offset + Z.of_nat remaining = qc_max_groups (q_config q) ->
  match peek_loop q offset remaining with
  | Some t => exists i s, t = Z.of_nat i /\ q_slots q !! i = Some s /\ qs_group_id s <> 0 /\
      forall j u, q_slots q !! j = Some u -> qs_group_id u <> 0 ->
        offset <= distance q (Z.of_nat j) -> distance q t <= distance q (Z.of_nat j)
  | None => forall j u, q_slots q !! j = Some u -> offset <= distance q (Z.of_nat j) ->
      qs_group_id u = 0
  end.
Proof.
  intros Hq. revert offset. induction remaining as [|remaining IH]; intros offset Ho Hsum;
    cbn [peek_loop].
  { intros j u Hj Hd. exfalso. unfold distance in Hd.
    pose proof (Z.mod_pos_bound (Z.of_nat j - q_cursor q) (qc_max_groups (q_config q))).
    pose proof (co_groups _ (qi_config _ Hq)). lia. }
  pose proof (co_groups _ (qi_config _ Hq)) as Hm. pose proof (qi_cursor _ Hq) as Hcur.
  pose proof (qi_length _ Hq) as Hlen.
  rewrite u64_small by lia. set (m := qc_max_groups (q_config q)) in *.
  set (index := (q_cursor q + offset) mod m).
  assert (0 <= index < m) as Hix by (apply Z.mod_pos_bound; lia).
  destruct (lookup_lt_is_Some_2 (q_slots q) (Z.to_nat index)) as [s Hs]; [lia|].
  pose proof (slot_at_lookup q _ s Hs) as Hat. rewrite Z2Nat.id in Hat by lia. rewrite Hat.
  pose proof (qi_slots _ Hq) as Hsl. rewrite Forall_lookup in Hsl. specialize (Hsl _ _ Hs).
  assert (distance q index = offset) as Hdist.
  { unfold distance. fold m. unfold index. rewrite Zminus_mod_idemp_l.
    replace (q_cursor q + offset - q_cursor q) with offset by lia. apply Z.mod_small. lia. }
  assert (forall j, (j < length (q_slots q))%nat -> distance q (Z.of_nat j) = offset ->
    j = Z.to_nat index) as Hinj.
  { intros j Hj Hd. unfold distance in Hd. fold m in Hd.
    assert (Z.of_nat j = index); [|lia]. unfold index. rewrite <- Hd, Zplus_mod_idemp_r.
    replace (q_cursor q + (Z.of_nat j - q_cursor q)) with (Z.of_nat j) by lia.
    symmetry. apply Z.mod_small. lia. }
  destruct (_ && _) eqn:Hlive.
  - exists (Z.to_nat index), s. split; [lia|]. split; [done|]. split; [bprop; lia|].
    intros j u Hj Hu Hd. by rewrite Hdist.
  - specialize (IH (offset + 1) ltac:(lia) ltac:(lia)).
    assert (qs_group_id s = 0) as Hfree.
    { destruct (si_live _ _ Hsl) as [L1 L2]. destruct (qs_count s =? 0) eqn:E; [apply L1; lia|].
      rewrite andb_true_r in Hlive. bprop. lia. }
    assert (forall j u, q_slots q !! j = Some u -> qs_group_id u <> 0 ->
      offset <= distance q (Z.of_nat j) -> offset + 1 <= distance q (Z.of_nat j)) as Hnext.
    { intros j u Hj Hu Hd. destruct (Z.eq_dec (distance q (Z.of_nat j)) offset) as [E|]; [|lia].
      apply Hinj in E; [|by eapply lookup_lt_Some]. subst j. congruence. }
    destruct (peek_loop q (offset + 1) remaining) as [t|].
    + destruct IH as (i & v & -> & Hi & Hv & Hmin). exists i, v. split; [done|]. split; [done|].
      split; [done|]. intros j u Hj Hu Hd. apply (Hmin j u Hj Hu). by eapply Hnext.
    + intros j u Hj Hd. destruct (Z.eq_dec (qs_group_id u) 0) as [|Hu]; [done|].
      apply (IH j u Hj). by eapply Hnext.
Qed.

(** What a pop of the slot [i], which holds [s], does. *)
Record popped (q q' : tr_raft_group_queue) (i : nat) (s : tr_raft_group_queue_slot) : Prop := {
  pp_inv : queue_inv q';
  pp_config : q_config q' = q_config q;
  pp_slots : q_slots q' = <[i := pop_slot (q_config q) s]> (q_slots q);
  pp_items : q_queued_item_count q' = q_queued_item_count q - 1;
  pp_bytes : q_queued_data_bytes q' = q_queued_data_bytes q - qe_data_bytes (head_entry s);
  pp_cursor : q_cursor q' = (Z.of_nat i + 1) mod qc_max_groups (q_config q);
  pp_queue : group_items q (qs_group_id s) = head_entry s :: group_items q' (qs_group_id s);
  pp_others : forall g, g <> 0 -> g <> qs_group_id s -> group_items q' g = group_items q g
}.

Lemma pop_spec q i s :
  queue_inv q -> q_slots q !! i = Some s -> qs_group_id s <> 0 ->
  exists q',
    tr_raft_group_queue_pop q (Z.of_nat i) =
    (SALTS_OK, q', Some (qe_owned (head_entry s), qe_data_bytes (head_entry s))) /\
    popped q q' i s.
Proof.
  intros Hq Hi Hg. pose proof (qi_config _ Hq) as Hc. pose proof Hc as [C1 C2 C3 C4 C5].
  pose proof (qi_slots _ Hq) as Hs. rewrite Forall_lookup in Hs. specialize (Hs i s Hi).
  destruct (pop_slot_spec _ s Hc Hs Hg) as (P1 & P2 & P3 & P4 & P5 & P6 & P7).
  destruct (queue_ranges q Hq) as (Hr & Ha & Hr1 & Hr2).
  assert (Z.of_nat i < qc_max_groups (q_config q)) as Hlt.
  { rewrite <- (qi_length _ Hq). apply lookup_lt_Some in Hi. lia. }
  assert (qs_count s <= q_queued_item_count q) as Hci.
  { rewrite (qi_items _ Hq). eapply sum_lookup; [|exact Hi].
    eapply list.Forall_impl; [exact Hr|]. cbn. lia. }
  assert (qs_queued_data_bytes s <= q_queued_data_bytes q) as Hbi.
  { rewrite (qi_bytes _ Hq). eapply sum_lookup; [|exact Hi].
    eapply list.Forall_impl; [exact Hr|]. cbn. lia. }
  assert (live s <= q_active_group_count q) as Hai.
  { rewrite (qi_active _ Hq). eapply sum_lookup; [|exact Hi].
    eapply list.Forall_impl; [exact Hr|]. cbn. lia. }
  pose proof (qi_items_limit _ Hq). pose proof (qi_bytes_limit _ Hq).
  destruct (slot_inv_ranges _ _ Hc P2) as (Hb' & Hc' & Hl' & _).
  assert (live s = 1) as Hl by (unfold live; by replace (_ =? 0) with false by blia).
  set (q' := Queue (q_config q) (<[i := pop_slot (q_config q) s]> (q_slots q))
    (q_active_group_count q - live s + live (pop_slot (q_config q) s))
    (q_queued_item_count q - 1) (q_queued_data_bytes q - qe_data_bytes (head_entry s))
    ((Z.of_nat i + 1) mod qc_max_groups (q_config q))).
  assert (queue_inv q') as Hq'.
  { apply (queue_update q i s); try done; try lia.
    apply Z.mod_pos_bound. lia. }
  exists q'. split.
  - unfold tr_raft_group_queue_pop. rewrite (slot_at_lookup q i s Hi).
    replace (_ <=? Z.of_nat i) with false by blia.
    replace ((_ =? 0) || _) with false by blia.
    cbn [qs_head qs_count qs_entries qs_queued_data_bytes
      set_field set_qs_entries set_qs_head set_qs_count set_qs_bytes].
    rewrite P6. unfold q', pop_slot, live in *. cbn [qs_head qs_count qs_entries qs_group_id
      qs_queued_data_bytes set_field set_qs_entries set_qs_head set_qs_count set_qs_bytes] in *.
    rewrite P6 in *.
    assert (q_queued_item_count q -64 1 = q_queued_item_count q - 1) as E1 by word.
    assert (q_queued_data_bytes q -64 qe_data_bytes (head_entry s) =
      q_queued_data_bytes q - qe_data_bytes (head_entry s)) as E2 by word.
    assert (Z.of_nat i +64 1 = Z.of_nat i + 1) as E3 by word.
    assert (q_active_group_count q -64 1 = q_active_group_count q - 1) as E4 by word.
    unfold set_slot. destruct (qs_count s - 1 =? 0) eqn:Elast; cbn; rewrite array_set_insert;
      rewrite E1, E2, E3, ?E4, Hl; cbn; by rewrite ?Z.add_0_r, ?Z.sub_add.
  - split; try done.
    + rewrite (group_items_update q q' i s (pop_slot (q_config q) s) _ Hq Hq' eq_refl Hi eq_refl Hg).
      destruct (group_items_at q i s Hq Hi Hg) as [_ ->]. rewrite P1. f_equal.
      destruct P3 as [[E En]| ->]; [|by rewrite Z.eqb_refl]. rewrite E.
      replace (_ =? 0) with false by blia. by rewrite Z.eqb_refl.
    + intros g Hg0 Hgs.
      rewrite (group_items_update q q' i s (pop_slot (q_config q) s) _ Hq Hq' eq_refl Hi eq_refl Hg0).
      replace (g =? qs_group_id s) with false by blia.
      destruct P3 as [[E _]| ->]; [rewrite E|]; by replace (g =? _) with false by blia.
Qed.

(** ** The queue as a whole *)

(** The sender of a peer takes the next payload with a peek and a pop. *)
Definition dequeue (q : tr_raft_group_queue)
    : option (tr_raft_transport_payload * tr_raft_group_queue) :=
  match tr_raft_group_queue_peek_next q with
  | (SALTS_OK, Some (token, _)) =>
      match tr_raft_group_queue_pop q token with
      | (SALTS_OK, q', Some (p, _)) => Some (p, q')
      | _ => None
      end
  | _ => None
  end.

Fixpoint drain (n : nat) (q : tr_raft_group_queue)
    : list tr_raft_transport_payload * tr_raft_group_queue :=
  match n with
  | O => ([], q)
  | S n =>
      match dequeue q with
      | Some (p, q) => let '(ps, q) := drain n q in (p :: ps, q)
      | None => ([], q)
      end
  end.

(** A payload that is queued is in a slot that is in use. *)
Lemma peek_spec q :
  queue_inv q -> 0 < q_queued_item_count q ->
  exists i s, q_slots q !! i = Some s /\ qs_group_id s <> 0 /\
    tr_raft_group_queue_peek_next q =
    (SALTS_OK, Some (Z.of_nat i, qe_owned (head_entry s))) /\
    forall j u, q_slots q !! j = Some u -> qs_group_id u <> 0 ->
      distance q (Z.of_nat i) <= distance q (Z.of_nat j).
Proof.
  intros Hq Hpos. unfold tr_raft_group_queue_peek_next. replace (_ =? 0) with false by blia.
  pose proof (co_groups _ (qi_config _ Hq)) as Hm.
  pose proof (peek_loop_spec q 0 (Z.to_nat (qc_max_groups (q_config q))) Hq ltac:(lia) ltac:(lia))
    as Hp.
  assert (forall j, 0 <= distance q (Z.of_nat j)) as Hd
    by (intros j; apply Z.mod_pos_bound; lia).
  destruct (peek_loop q 0 _) as [t|].
  - destruct Hp as (i & s & -> & Hi & Hg & Hmin). exists i, s. split; [done|]. split; [done|].
    rewrite (slot_at_lookup q i s Hi). split; [done|]. intros j u Hj Hu. by apply (Hmin j u Hj Hu).
  - exfalso. rewrite (qi_items _ Hq) in Hpos.
    assert (sum qs_count (q_slots q) <= sum (fun _ => 0) (q_slots q)) as Hle.
    { apply sum_le. apply list.Forall_forall. intros s (j & Hj)%list_elem_of_lookup_1.
      pose proof (qi_slots _ Hq) as Hs. rewrite Forall_lookup in Hs. specialize (Hs j s Hj).
      apply Z.eq_le_incl. apply (si_live _ _ Hs). by apply (Hp j s Hj). }
    assert (sum (fun _ : tr_raft_group_queue_slot => 0) (q_slots q) = 0) as H0
      by (clear; unfold sum; induction (q_slots q); cbn in *; lia). lia.
Qed.

Lemma dequeue_spec q :
  queue_inv q -> 0 < q_queued_item_count q ->
  exists i s q', q_slots q !! i = Some s /\ qs_group_id s <> 0 /\
    dequeue q = Some (qe_owned (head_entry s), q') /\ popped q q' i s /\
    forall j u, q_slots q !! j = Some u -> qs_group_id u <> 0 ->
      distance q (Z.of_nat i) <= distance q (Z.of_nat j).
Proof.
  intros Hq Hpos. destruct (peek_spec q Hq Hpos) as (i & s & Hi & Hg & Hp & Hmin).
  destruct (pop_spec q i s Hq Hi Hg) as (q' & Hpop & Hpp).
  exists i, s, q'. split; [done|]. split; [done|]. split; [|done].
  unfold dequeue. by rewrite Hp, Hpop.
Qed.

(** A pop brings the slots it does not take nearer to the cursor. *)
Lemma distance_decreases q q' i s j u :
  queue_inv q -> popped q q' i s -> q_slots q !! i = Some s -> q_slots q !! j = Some u ->
  i <> j -> distance q (Z.of_nat i) <= distance q (Z.of_nat j) ->
  distance q' (Z.of_nat j) < distance q (Z.of_nat j).
Proof.
  intros Hq Hp Hi Hj Hij Hd. unfold distance in *. rewrite (pp_config _ _ _ _ Hp), (pp_cursor _ _ _ _ Hp).
  pose proof (co_groups _ (qi_config _ Hq)) as Hm. pose proof (qi_cursor _ Hq) as Hc.
  pose proof (qi_length _ Hq) as Hlen. apply lookup_lt_Some in Hi, Hj.
  set (m := qc_max_groups (q_config q)) in *. set (c := q_cursor q) in *.
  assert (forall x, 0 <= x < m -> (x - c) mod m = if c <=? x then x - c else x - c + m) as Hmod.
  { intros x Hx. destruct (c <=? x) eqn:E; [apply Z.mod_small; lia|].
    rewrite <- (Z.mod_add (x - c) 1 m), Z.mul_1_l by lia. apply Z.mod_small. lia. }
  rewrite Zminus_mod_idemp_r. rewrite !Hmod in * by lia.
  assert ((Z.of_nat j - (Z.of_nat i + 1)) mod m =
    if Z.of_nat i <? Z.of_nat j then Z.of_nat j - Z.of_nat i - 1
    else Z.of_nat j - Z.of_nat i - 1 + m) as ->.
  { destruct (Z.of_nat i <? Z.of_nat j) eqn:E.
    - rewrite Z.mod_small by lia. lia.
    - rewrite <- (Z.mod_add _ 1 m), Z.mul_1_l by lia. rewrite Z.mod_small by lia. lia. }
  destruct (c <=? Z.of_nat i) eqn:E1, (c <=? Z.of_nat j) eqn:E2, (Z.of_nat i <? Z.of_nat j) eqn:E3; lia.
Qed.

Lemma init_inv sizeof_entry sizeof_slot c q :
  2 <= sizeof_entry -> 2 <= sizeof_slot ->
  0 <= qc_max_groups c -> 0 <= qc_per_group_item_capacity c -> 0 <= qc_per_group_data_bytes c ->
  qc_total_item_capacity c < 2 ^ 64 -> qc_total_data_bytes c < 2 ^ 64 ->
  tr_raft_group_queue_init sizeof_entry sizeof_slot c true = (SALTS_OK, Some q) ->
  queue_inv q /\ (forall g, g <> 0 -> group_items q g = []) /\ q_config q = c.
Proof.
  intros He Hs H1 H2 H3 H4 H5. unfold tr_raft_group_queue_init.
  destruct (tr_raft_group_queue_config_valid _ _ c) eqn:Hv; [|done]. cbn [negb]. intros [= <-].
  unfold tr_raft_group_queue_config_valid, SIZE_MAX, UINT64_MAX in Hv. bprop.
  assert (forall k, 2 <= k -> (2 ^ 64 - 1) / k < 2 ^ 63) as Hdiv
    by (intros k Hk; apply Z.div_lt_upper_bound; lia).
  pose proof (Hdiv _ He). pose proof (Hdiv _ Hs).
  assert (forall (f : tr_raft_group_queue_slot -> Z) k,
    f zero_slot = 0 -> sum f (replicate k zero_slot) = 0) as Hsum
    by (intros f k Hf; unfold sum; induction k; cbn in *; lia).
  assert (config_ok c) as Hc by (split; lia). split; [|split; [|done]].
  - split; cbn [q_config q_slots q_active_group_count q_queued_item_count q_queued_data_bytes
      q_cursor]; rewrite ?Hsum by done; try done; try lia.
    + rewrite length_replicate. lia.
    + apply Forall_replicate. split; cbn; try done; lia.
    + intros i j s t Hi _ _ Hg. apply lookup_replicate in Hi as [-> _]. done.
  - intros g Hg. apply group_items_absent. cbn. apply Forall_replicate. done.
Qed.

(** ** Any sequence of operations *)

Inductive queue_op :=
| Op_enqueue (p : tr_raft_transport_payload) (data_bytes : Z) (allocated : bool)
| Op_dequeue
| Op_clear.

Definition op_ok (op : queue_op) : Prop :=
  match op with
  | Op_enqueue _ data_bytes _ => 0 <= data_bytes
  | Op_dequeue | Op_clear => True
  end.

(** The queue, the payloads accepted and those taken or cleared. *)
Definition queue_step (q : tr_raft_group_queue) (op : queue_op)
    : tr_raft_group_queue * list tr_raft_transport_payload * list tr_raft_transport_payload :=
  match op with
  | Op_enqueue p data_bytes allocated =>
      match tr_raft_group_queue_enqueue q p data_bytes allocated with
      | (SALTS_OK, q) => (q, [p], [])
      | (_, q) => (q, [], [])
      end
  | Op_dequeue =>
      match dequeue q with
      | Some (p, q) => (q, [], [p])
      | None => (q, [], [])
      end
  | Op_clear =>
      (tr_raft_group_queue_clear q, [],
       concat ((fun s => qe_owned <$> items (q_config q) s) <$> q_slots q))
  end.

Fixpoint queue_run (q : tr_raft_group_queue) (ops : list queue_op)
    : tr_raft_group_queue * list tr_raft_transport_payload * list tr_raft_transport_payload :=
  match ops with
  | [] => (q, [], [])
  | op :: ops =>
      let '(q, accepted, taken) := queue_step q op in
      let '(q, accepted', taken') := queue_run q ops in
      (q, accepted ++ accepted', taken ++ taken')
  end.

(** The payloads of a group in a list of payloads. *)
Definition of_group (g : Z) (ps : list tr_raft_transport_payload)
    : list tr_raft_transport_payload := List.filter (fun p => pl_group_id p =? g) ps.

Definition queued (q : tr_raft_group_queue) (g : Z) : list tr_raft_transport_payload :=
  qe_owned <$> group_items q g.

Lemma of_group_app g a b : of_group g (a ++ b) = of_group g a ++ of_group g b.
Proof. apply filter_app. Qed.

Lemma clear_entries_count capacity n s :
  0 <= qs_count s < 2 ^ 64 -> n = Z.to_nat (qs_count s) ->
  qs_count (clear_entries capacity n s) = 0 /\
  length (default [] (qs_entries (clear_entries capacity n s))) =
    length (default [] (qs_entries s)) /\
  (qs_entries s = None -> n = 0%nat -> qs_entries (clear_entries capacity n s) = None).
Proof.
  revert s. induction n as [|n IH]; intros s Hc Hn; cbn [clear_entries].
  - split; [lia|done].
  - set (s1 := set_field qs_count _ _).
    assert (qs_count s1 = qs_count s - 1) as H1 by (cbn; word).
    destruct (IH s1) as (I1 & I2 & I3); [lia|lia|]. split; [done|]. split; [|done].
    rewrite I2. cbn. apply length_array_set.
Qed.

Lemma clear_spec q :
  queue_inv q ->
  queue_inv (tr_raft_group_queue_clear q) /\
  forall g, g <> 0 -> group_items (tr_raft_group_queue_clear q) g = [].
Proof.
  intros Hq. pose proof (qi_config _ Hq) as Hc. pose proof Hc as [C1 C2 C3 C4 C5].
  set (clear := fun s => (clear_entries (qc_per_group_item_capacity (q_config q))
    (Z.to_nat (qs_count s)) s) <| qs_group_id := 0 |> <| qs_head := 0 |>
    <| qs_queued_data_bytes := 0 |>).
  change (tr_raft_group_queue_clear q) with (Queue (q_config q) (clear <$> q_slots q) 0 0 0 0).
  assert (Forall (fun s => slot_inv (q_config q) (clear s) /\ qs_group_id (clear s) = 0 /\
    qs_count (clear s) = 0) (q_slots q)) as Hclear.
  { eapply list.Forall_impl; [apply (qi_slots _ Hq)|]. intros s Hs.
    destruct Hs as [S1 S2 S3 S4 S5 S6 S7].
    destruct (clear_entries_count (qc_per_group_item_capacity (q_config q))
      (Z.to_nat (qs_count s)) s) as (K1 & K2 & K3); [lia|done|].
    split; [|done]. assert (items (q_config q) (clear s) = []) as Hnil.
    { apply nil_length_inv. unfold items. rewrite length_ring. cbn. rewrite K1. done. }
    split; rewrite ?Hnil; cbn; try done; try lia.
    destruct (qs_entries s) as [l'|] eqn:El.
    - destruct (qs_entries (clear_entries _ _ _)) as [l|]; [|done]. cbn in K2. by rewrite K2.
    - rewrite K3; [done|done|]. apply S4 in S1. lia. }
  assert (forall f : tr_raft_group_queue_slot -> Z,
    Forall (fun s => f (clear s) = 0) (q_slots q) -> sum f (clear <$> q_slots q) = 0) as Hsum.
  { intros f Hf. by apply sum_fmap_zero. }
  split.
  - split; cbn [q_config q_slots q_active_group_count q_queued_item_count q_queued_data_bytes
      q_cursor]; try done; try lia.
    + rewrite length_fmap. apply Hq.
    + apply Forall_fmap. eapply list.Forall_impl; [exact Hclear|]. by intros s [? _].
    + intros i j s t Hi _ _ Hg. apply list_lookup_fmap_Some_1 in Hi as (u & -> & Hu).
      rewrite Forall_lookup in Hclear. destruct (Hclear i u Hu) as (_ & ? & _). done.
    + symmetry. apply Hsum. eapply list.Forall_impl; [exact Hclear|].
      intros s (_ & Hg & _). unfold live. by rewrite Hg.
    + symmetry. apply Hsum. eapply list.Forall_impl; [exact Hclear|]. by intros s (_ & _ & ?).
    + symmetry. apply Hsum. eapply list.Forall_impl; [exact Hclear|]. done.
  - intros g Hg. apply group_items_absent. cbn. apply Forall_fmap.
    eapply list.Forall_impl; [exact Hclear|]. intros s (_ & Hz & _).
    change (qs_group_id (clear s) <> g). by rewrite Hz.
Qed.

(** The payloads of a group among those of a slot. *)
Lemma of_group_slot c s g :
  slot_inv c s ->
  of_group g (qe_owned <$> items c s) =
  if qs_group_id s =? g then qe_owned <$> items c s else [].
Proof.
  intros Hs. pose proof (si_items _ _ Hs) as Hi. unfold of_group.
  induction Hi as [|e l [_ He] _ IH]; [by destruct (_ =? g)|].
  rewrite fmap_cons. cbn [List.filter]. rewrite He, IH. by destruct (qs_group_id s =? g).
Qed.

Lemma of_group_none c slots g :
  Forall (slot_inv c) slots -> Forall (fun s => qs_group_id s <> g) slots ->
  of_group g (concat ((fun s => qe_owned <$> items c s) <$> slots)) = [].
Proof.
  induction 1 as [|s slots Hs _ IH]; intros Hg; [done|]. apply Forall_cons_1 in Hg as [Hsg Hg].
  rewrite fmap_cons. cbn [concat]. rewrite of_group_app, of_group_slot, IH by done.
  by replace (_ =? g) with false by blia.
Qed.

Lemma of_group_all q g :
  queue_inv q -> g <> 0 ->
  of_group g (concat ((fun s => qe_owned <$> items (q_config q) s) <$> q_slots q)) = queued q g.
Proof.
  intros Hq Hg. unfold queued, group_items.
  destruct (tr_raft_group_queue_find_group q g) as [z|] eqn:Hf.
  - apply find_slot_some in Hf as (i & s & -> & Hi & Hs). cbn in Hs.
    rewrite Z.add_0_l, (slot_at_lookup q i s Hi).
    assert (forall j t, q_slots q !! j = Some t -> j <> i -> qs_group_id t <> g) as Hother.
    { intros j t Hj Hji E. apply Hji. apply (qi_unique _ Hq j i t s Hj Hi); lia. }
    pose proof (qi_slots _ Hq) as Hsl. rewrite <- (take_drop_middle _ _ _ Hi) in Hsl |- *.
    apply Forall_app in Hsl as [H1 [H2 H3]%Forall_cons_1].
    rewrite fmap_app, concat_app, fmap_cons. cbn [concat]. rewrite !of_group_app.
    rewrite of_group_none, of_group_slot, of_group_none; try done.
    + replace (_ =? g) with true by blia. by rewrite app_nil_r.
    + apply list.Forall_forall. intros t (j & Hj)%list_elem_of_lookup_1.
      rewrite lookup_drop in Hj. apply (Hother _ _ Hj). lia.
    + apply list.Forall_forall. intros t (j & Hj)%list_elem_of_lookup_1.
      apply lookup_take_Some in Hj as [Hj Hlt]. apply (Hother _ _ Hj). lia.
  - apply find_slot_none in Hf. apply of_group_none; [apply Hq|].
    eapply list.Forall_impl; [exact Hf|]. cbn. lia.
Qed.

Lemma step_fifo q op :
  queue_inv q -> op_ok op ->
  let '(q', accepted, taken) := queue_step q op in
  queue_inv q' /\ q_config q' = q_config q /\
  forall g, g <> 0 -> queued q g ++ of_group g accepted = of_group g taken ++ queued q' g.
Proof.
  intros Hq Hop. destruct op as [p n allocated| |]; cbn [queue_step op_ok] in *.
  - destruct (Z.eq_dec (pl_group_id p) 0) as [Hz|Hz].
    { unfold tr_raft_group_queue_enqueue. rewrite Hz. cbn. split; [done|]. split; [done|].
      intros g _. by rewrite app_nil_r. }
    pose proof (enqueue_cases q p n Hq Hz Hop allocated) as He.
    destruct (tr_raft_group_queue_enqueue q p n allocated) as [r q'].
    destruct He as [Hq' [(-> & _ & Hc & _ & _ & _ & Hi)|
      [(-> & _ & Hc & _ & _ & _ & _ & Hi)|(-> & _ & Hc & _ & _ & _ & _ & Hi)]]];
      (split; [done|]; split; [done|]); intros g Hg; unfold queued; rewrite (Hi g Hg).
    + rewrite fmap_app. cbn [of_group List.filter app qe_owned].
      rewrite (Z.eqb_sym g). by destruct (_ =? g).
    + by rewrite app_nil_r.
    + by rewrite app_nil_r.
  - destruct (Z_lt_le_dec 0 (q_queued_item_count q)) as [Hpos|Hnone].
    + destruct (dequeue_spec q Hq Hpos) as (i & s & q' & Hi & Hg & -> & Hp & _).
      split; [apply Hp|]. split; [apply Hp|]. intros g Hg0. rewrite app_nil_r. unfold queued.
      pose proof (qi_slots _ Hq) as Hs. rewrite Forall_lookup in Hs. specialize (Hs i s Hi).
      assert (pl_group_id (qe_owned (head_entry s)) = qs_group_id s) as He.
      { destruct (pop_slot_spec _ s (qi_config _ Hq) Hs Hg) as (P1 & _).
        pose proof (si_items _ _ Hs) as Hit. rewrite P1 in Hit.
        by apply Forall_cons_1 in Hit as [[_ ?] _]. }
      cbn [of_group List.filter]. rewrite He. destruct (qs_group_id s =? g) eqn:E.
      * assert (g = qs_group_id s) as -> by lia. by rewrite (pp_queue _ _ _ _ Hp).
      * rewrite (pp_others _ _ _ _ Hp) by (done || lia). done.
    + assert (dequeue q = None) as ->.
      { unfold dequeue, tr_raft_group_queue_peek_next.
        destruct (queue_ranges q Hq) as (_ & _ & ? & _). by replace (_ =? 0) with true by blia. }
      split; [done|]. split; [done|]. intros g _. by rewrite app_nil_r.
  - destruct (clear_spec q Hq) as [Hq' Hnil]. split; [done|]. split; [done|]. intros g Hg.
    rewrite of_group_all by done. unfold queued at 3. rewrite Hnil by done. done.
Qed.

Lemma run_fifo q ops :
  queue_inv q -> Forall op_ok ops ->
  let '(q', accepted, taken) := queue_run q ops in
  queue_inv q' /\ q_config q' = q_config q /\
  forall g, g <> 0 -> queued q g ++ of_group g accepted = of_group g taken ++ queued q' g.
Proof.
  revert q. induction ops as [|op ops IH]; intros q Hq Hops; cbn [queue_run].
  { split; [done|]. split; [done|]. intros g _. by rewrite app_nil_r. }
  apply Forall_cons_1 in Hops as [Hop Hops]. pose proof (step_fifo q op Hq Hop) as Hs.
  destruct (queue_step q op) as [[q1 a1] t1]. destruct Hs as (Hq1 & Hc1 & H1).
  specialize (IH q1 Hq1 Hops). destruct (queue_run q1 ops) as [[q2 a2] t2].
  destruct IH as (Hq2 & Hc2 & H2). split; [done|]. split; [congruence|]. intros g Hg.
  rewrite !of_group_app, (assoc_L (++)), H1, <- (assoc_L (++)), H2 by done.
  by rewrite (assoc_L (++)).
Qed.

Lemma drain_first q i s n :
  queue_inv q -> q_slots q !! i = Some s -> qs_group_id s <> 0 ->
  distance q (Z.of_nat i) < Z.of_nat n ->
  qe_owned (head_entry s) ∈ fst (drain n q).
Proof.
  revert q. induction n as [|n IH]; intros q Hq Hi Hg Hd.
  { exfalso. unfold distance in Hd. pose proof (co_groups _ (qi_config _ Hq)).
    pose proof (Z.mod_pos_bound (Z.of_nat i - q_cursor q) (qc_max_groups (q_config q))). lia. }
  pose proof (qi_slots _ Hq) as Hs. rewrite Forall_lookup in Hs. specialize (Hs i s Hi).
  assert (0 < q_queued_item_count q) as Hpos.
  { destruct (queue_ranges q Hq) as (Hr & _). rewrite (qi_items _ Hq).
    assert (qs_count s <= sum qs_count (q_slots q)) as Hle.
    { eapply sum_lookup; [|exact Hi]. eapply list.Forall_impl; [exact Hr|]. cbn. lia. }
    pose proof (si_count _ _ Hs). pose proof (si_live _ _ Hs) as [L _].
    destruct (Z.eq_dec (qs_count s) 0) as [E|]; [by apply L in E|lia]. }
  destruct (dequeue_spec q Hq Hpos) as (j & u & q' & Hj & Hu & Hdq & Hp & Hmin).
  cbn [drain]. rewrite Hdq. destruct (decide (j = i)) as [->|Hne].
  - rewrite Hi in Hj. injection Hj as <-. destruct (drain n q') as [ps q2]. cbn. left.
  - assert (q_slots q' !! i = Some s) as Hi'.
    { rewrite (pp_slots _ _ _ _ Hp). by rewrite list_lookup_insert_ne. }
    pose proof (distance_decreases q q' j u i s Hq Hp Hj Hi Hne (Hmin i s Hi Hg)) as Hdec.
    specialize (IH q' (pp_inv _ _ _ _ Hp) Hi' Hg ltac:(lia)).
    destruct (drain n q') as [ps q2]. cbn in *. by right.
Qed.

(** FIFO. From the creation of the queue, whatever payloads are enqueued,
    dequeued or cleared and whatever is refused: for every group, the payloads
    accepted are the payloads taken followed by the payloads still queued, in
    the same order. None is lost, repeated or overtaken within its group. *)
Theorem queue_fifo (sizeof_entry sizeof_slot : Z) (c : tr_raft_group_queue_config)
    (q q' : tr_raft_group_queue) (ops : list queue_op)
    (accepted taken : list tr_raft_transport_payload) (g : Z) :
  2 <= sizeof_entry -> 2 <= sizeof_slot ->
  0 <= qc_max_groups c -> 0 <= qc_per_group_item_capacity c -> 0 <= qc_per_group_data_bytes c ->
  qc_total_item_capacity c < 2 ^ 64 -> qc_total_data_bytes c < 2 ^ 64 ->
  tr_raft_group_queue_init sizeof_entry sizeof_slot c true = (SALTS_OK, Some q) ->
  Forall op_ok ops -> queue_run q ops = (q', accepted, taken) -> g <> 0 ->
  of_group g accepted = of_group g taken ++ (qe_owned <$> group_items q' g).
Proof.
  intros H1 H2 H3 H4 H5 H6 H7 Hi Hops Hrun Hg.
  destruct (init_inv sizeof_entry sizeof_slot c q) as (Hq & Hnil & _); try done.
  pose proof (run_fifo q ops Hq Hops) as Hr. rewrite Hrun in Hr. destruct Hr as (_ & _ & Hr).
  specialize (Hr g Hg). unfold queued in Hr. rewrite Hnil in Hr by done. done.
Qed.

(** The queue stays within its limits, and its counters are exact, after
    any operations: the number of items and of bytes are those of the queues of
    the groups in use, no more than the totals of the configuration; no group
    holds more than its share; and no more than [max_groups] are in use. *)
Theorem queue_limits (sizeof_entry sizeof_slot : Z) (c : tr_raft_group_queue_config)
    (q q' : tr_raft_group_queue) (ops : list queue_op)
    (accepted taken : list tr_raft_transport_payload) :
  2 <= sizeof_entry -> 2 <= sizeof_slot ->
  0 <= qc_max_groups c -> 0 <= qc_per_group_item_capacity c -> 0 <= qc_per_group_data_bytes c ->
  qc_total_item_capacity c < 2 ^ 64 -> qc_total_data_bytes c < 2 ^ 64 ->
  tr_raft_group_queue_init sizeof_entry sizeof_slot c true = (SALTS_OK, Some q) ->
  Forall op_ok ops -> queue_run q ops = (q', accepted, taken) ->
  q_queued_item_count q' = sum (fun s => Z.of_nat (length (items c s))) (q_slots q') /\
  q_queued_item_count q' <= qc_total_item_capacity c /\
  q_queued_data_bytes q' = sum (fun s => sum qe_data_bytes (items c s)) (q_slots q') /\
  q_queued_data_bytes q' <= qc_total_data_bytes c /\
  0 <= q_active_group_count q' <= qc_max_groups c /\
  forall g, g <> 0 ->
    Z.of_nat (length (group_items q' g)) <= qc_per_group_item_capacity c /\
    sum qe_data_bytes (group_items q' g) <= qc_per_group_data_bytes c.
Proof.
  intros H1 H2 H3 H4 H5 H6 H7 Hi Hops Hrun.
  destruct (init_inv sizeof_entry sizeof_slot c q) as (Hq & _ & Hc); try done.
  pose proof (run_fifo q ops Hq Hops) as Hr. rewrite Hrun in Hr. destruct Hr as (Hq' & Hc' & _).
  rewrite Hc in Hc'. pose proof (qi_slots _ Hq') as Hs. rewrite Hc' in Hs.
  destruct (queue_ranges q' Hq') as (_ & Ha & _). rewrite Hc' in Ha.
  pose proof (qi_items_limit _ Hq') as L1. pose proof (qi_bytes_limit _ Hq') as L2.
  rewrite Hc' in L1, L2.
  assert (forall f h : tr_raft_group_queue_slot -> Z,
    (forall s, slot_inv c s -> f s = h s) -> sum f (q_slots q') = sum h (q_slots q')) as Hsum.
  { intros f h Hfh. unfold sum. clear -Hfh Hs. induction Hs as [|s l Hs _ IH]; cbn; [done|].
    rewrite IH, (Hfh s Hs). done. }
  split; [|split; [done|split; [|split; [done|split; [done|]]]]].
  - rewrite (qi_items _ Hq'). apply Hsum. intros s Hsi. unfold items. rewrite length_ring.
    pose proof (si_count _ _ Hsi). lia.
  - rewrite (qi_bytes _ Hq'). apply Hsum. intros s Hsi. apply (si_bytes _ _ Hsi).
  - intros g Hg. unfold group_items. pose proof (co_capacity _ (qi_config _ Hq')).
    pose proof (co_group_bytes _ (qi_config _ Hq')). rewrite Hc' in *.
    destruct (tr_raft_group_queue_find_group q' g) as [z|] eqn:Hf; [|cbn; lia].
    apply find_slot_some in Hf as (i & s & -> & His & _). rewrite Z.add_0_l, (slot_at_lookup q' i s His).
    rewrite Forall_lookup in Hs. specialize (Hs i s His). rewrite <- (si_bytes _ _ Hs).
    pose proof (si_limit _ _ Hs). pose proof (si_count _ _ Hs). unfold items. rewrite length_ring. lia.
Qed.

(** An enqueue is refused only for want of room: with memory, it succeeds
    exactly when the totals, the share of the group and the number of groups
    allow it, and then appends the payload; a refusal changes no queue. *)
Theorem enqueue_exact (q q' : tr_raft_group_queue) (p : tr_raft_transport_payload) (n : Z)
    (r : status) :
  queue_inv q -> pl_group_id p <> 0 -> 0 <= n ->
  tr_raft_group_queue_enqueue q p n true = (r, q') ->
  (r = SALTS_OK <-> room q (pl_group_id p) n) /\
  (r = SALTS_OK \/ r = SALTS_ENOSPC) /\
  (r = SALTS_OK -> enqueued q q' (QueueEntry p n)) /\
  (r = SALTS_ENOSPC -> same_queues q q').
Proof.
  intros Hq Hg Hn He. pose proof (enqueue_cases q p n Hq Hg Hn true) as H. rewrite He in H.
  destruct H as [_ [(-> & ? & ?)|[(-> & ? & ?)|(_ & ? & _)]]]; [..|done]; naive_solver.
Qed.


(** ** A queue of two groups *)

Definition queue_config_1 : tr_raft_group_queue_config := QueueConfig 2 3 100 2 60.
Definition queue_1 : tr_raft_group_queue := Queue queue_config_1 [zero_slot; zero_slot] 0 0 0 0.

Definition ack_to (group next : Z) : tr_raft_transport_payload :=
  Payload group (Payload_data_ack (DataAck 1 2 4 9 30 next (replicate 32 1) true false)).

(** The third payload of group 7 exceeds its share, and its ring wraps. *)
Definition ops_1 : list queue_op :=
  [Op_enqueue (ack_to 7 1) 30 true; Op_enqueue (ack_to 7 2) 30 true;
   Op_enqueue (ack_to 7 3) 1 true; Op_enqueue (ack_to 8 4) 40 true; Op_dequeue;
   Op_enqueue (ack_to 7 5) 10 true].

Lemma queue_fifo_witness :
  of_group 7 [ack_to 7 1; ack_to 7 2; ack_to 8 4; ack_to 7 5] =
  of_group 7 [ack_to 7 1] ++ (qe_owned <$> group_items (fst (fst (queue_run queue_1 ops_1))) 7).
Proof.
  refine (queue_fifo 8 8 queue_config_1 queue_1 _ ops_1 _ _ 7 _ _ _ _ _ _ _ _ _ _ _);
    [done..| | |done].
  - by repeat constructor.
  - vm_compute. reflexivity.
Defined.

Lemma queue_limits_witness :
  q_queued_data_bytes (fst (fst (queue_run queue_1 ops_1))) <= 100.
Proof.
  refine (proj1 (proj2 (proj2 (proj2 (queue_limits 8 8 queue_config_1 queue_1 _ ops_1
    (snd (fst (queue_run queue_1 ops_1))) (snd (queue_run queue_1 ops_1))
    _ _ _ _ _ _ _ _ _ _))))); [done..| |].
  - by repeat constructor.
  - vm_compute. reflexivity.
Defined.

Lemma queue_1_inv : queue_inv (fst (fst (queue_run queue_1 ops_1))).
Proof.
  destruct (init_inv 8 8 queue_config_1 queue_1) as (Hq & _); [done..|].
  pose proof (run_fifo queue_1 ops_1 Hq ltac:(by repeat constructor)) as Hr.
  destruct (queue_run queue_1 ops_1) as [[q a] t]. apply Hr.
Qed.

Lemma enqueue_exact_witness :
  SALTS_ENOSPC = SALTS_OK <-> room (fst (fst (queue_run queue_1 ops_1))) 8 1.
Proof.
  refine (proj1 (enqueue_exact (fst (fst (queue_run queue_1 ops_1)))
    (snd (tr_raft_group_queue_enqueue (fst (fst (queue_run queue_1 ops_1))) (ack_to 8 6) 1 true))
    (ack_to 8 6) 1 SALTS_ENOSPC queue_1_inv _ _ _)).
  - done.
  - done.
  - vm_compute. reflexivity.
Defined.

