(* ===== verification/Digest.v ===== *)
(** * The digest library

    [cmeta_crypto.h] belongs to the Salts library and is not part of the
    sources. [Sha256] are the calls the snapshot and data streams make:
    [cmeta_sha256] on a whole buffer, and a stream that is reset, fed and
    finished. [Sha256Laws] say what the code relies on: a stream that has been
    reset holds no bytes, an update that succeeds appends its bytes, and the
    end of a stream yields the digest of the bytes it holds. Nothing is said of
    collisions. [checksum] is an instance. *)

From S2P Require Import Prelude Configuration Bytes.
From Stdlib Require Import ZArith Lia.
From stdpp Require Import base numbers list tactics.
Open Scope Z_scope.
Open Scope raft_scope.

Class Sha256 := {
  sha_stream : Type;
  sha256 : list Z -> list Z;
  cmeta_sha256 : list Z -> status * list Z;
  cmeta_sha256_stream_reset : sha_stream -> status * sha_stream;
  cmeta_sha256_stream_update : sha_stream -> list Z -> status * sha_stream;
  cmeta_sha256_stream_finish : sha_stream -> status * sha_stream * list Z
}.

Class Sha256Laws `{Sha256} := {
  sha_holds : sha_stream -> list Z -> Prop;
  sha256_length data : length (sha256 data) = 32%nat;
  sha256_bytes data : Forall is_byte (sha256 data);
  sha_whole data digest : cmeta_sha256 data = (SALTS_OK, digest) -> digest = sha256 data;
  sha_reset_holds s s' : cmeta_sha256_stream_reset s = (SALTS_OK, s') -> sha_holds s' [];
  sha_update_holds s s' held data :
    sha_holds s held -> cmeta_sha256_stream_update s data = (SALTS_OK, s') ->
    sha_holds s' (held ++ data);
  sha_finish_digest s s' held digest :
    sha_holds s held -> cmeta_sha256_stream_finish s = (SALTS_OK, s', digest) ->
    digest = sha256 held
}.

(** A digest library whose calls do not fail. *)
Class Sha256Total `{Sha256Laws} := {
  sha_whole_total data : fst (cmeta_sha256 data) = SALTS_OK;
  sha_reset_total s : fst (cmeta_sha256_stream_reset s) = SALTS_OK;
  sha_update_total s data : fst (cmeta_sha256_stream_update s data) = SALTS_OK;
  sha_finish_total s : fst (fst (cmeta_sha256_stream_finish s)) = SALTS_OK
}.

(** ** A checksum

    The number of bytes and their weighted sum: not SHA-256, but an instance of
    its interface, on which the examples run. *)

Definition checksum_of (data : list Z) : list Z :=
  tr_put_u64 (Z.of_nat (length data)) ++
  tr_put_u64 (foldr (fun b acc => (b + 257 * acc) mod 2 ^ 64) 0 data) ++ replicate 16 0.

#[global] Instance checksum : Sha256 := {|
  sha_stream := list Z;
  sha256 := checksum_of;
  cmeta_sha256 data := (SALTS_OK, checksum_of data);
  cmeta_sha256_stream_reset _ := (SALTS_OK, []);
  cmeta_sha256_stream_update held data := (SALTS_OK, held ++ data);
  cmeta_sha256_stream_finish held := (SALTS_OK, held, checksum_of held)
|}.

#[global] Instance checksum_laws : Sha256Laws.
Proof.
  refine {| sha_holds (s : @sha_stream checksum) held := s = held |}; cbn.
  - intros data. unfold checksum_of. by rewrite !length_app, !length_put_u64_be, length_replicate.
  - intros data. unfold checksum_of. rewrite !Forall_app. split_and!;
      [apply bytes_put_u64..|]. apply list.Forall_forall. intros x Hx.
    apply elem_of_replicate_inv in Hx as ->. unfold is_byte. lia.
  - by intros ?? [= <-].
  - by intros ?? [= <-].
  - intros ???? -> [= <-]. done.
  - by intros ???? -> [= <- <-].
Defined.

#[global] Instance checksum_total : Sha256Total.
Proof. by split. Qed.

(** ** The XXH3 checksum

    [xxhash.h]: checksums of 64 bits, of a whole buffer, with a seed, or of a
    stream. *)

Class Xxh3 := {
  xxh_state : Type;
  XXH3_createState : xxh_state;
  XXH3_64bits : list Z -> Z;
  XXH3_64bits_withSeed : list Z -> Z -> Z;
  XXH3_64bits_reset : xxh_state -> bool * xxh_state;
  XXH3_64bits_update : xxh_state -> list Z -> bool * xxh_state;
  XXH3_64bits_digest : xxh_state -> Z
}.

Class Xxh3Laws `{Xxh3} := {
  xxh_holds : xxh_state -> list Z -> Prop;
  xxh_range data : 0 <= XXH3_64bits data < 2 ^ 64;
  xxh_seed_range data seed : 0 <= XXH3_64bits_withSeed data seed < 2 ^ 64;
  xxh_reset_holds s s' : XXH3_64bits_reset s = (true, s') -> xxh_holds s' [];
  xxh_update_holds s s' held data :
    xxh_holds s held -> XXH3_64bits_update s data = (true, s') -> xxh_holds s' (held ++ data);
  xxh_digest_whole s held : xxh_holds s held -> XXH3_64bits_digest s = XXH3_64bits held
}.

(** The calls on a stream do not fail. *)
Class Xxh3Total `{Xxh3Laws} := {
  xxh_reset_total s : fst (XXH3_64bits_reset s) = true;
  xxh_update_total s data : fst (XXH3_64bits_update s data) = true
}.

Definition weighted_sum (seed : Z) (data : list Z) : Z :=
  foldr (fun b acc => Z.land (b + 257 * acc + 1) 65535) (seed mod 2 ^ 64) data.

#[global] Instance xxsum : Xxh3 := {|
  xxh_state := list Z;
  XXH3_createState := [];
  XXH3_64bits := weighted_sum 0;
  XXH3_64bits_withSeed data seed := weighted_sum seed data;
  XXH3_64bits_reset _ := (true, []);
  XXH3_64bits_update held data := (true, held ++ data);
  XXH3_64bits_digest held := weighted_sum 0 held
|}.

Lemma weighted_sum_range seed data : 0 <= weighted_sum seed data < 2 ^ 64.
Proof.
  destruct data as [|b data]; cbn [weighted_sum foldr]; [apply Z.mod_pos_bound; lia|].
  change 65535 with (Z.ones 16). rewrite Z.land_ones by lia.
  set (x := b + _ + 1). pose proof (Z.mod_pos_bound x (2 ^ 16)). lia.
Qed.

#[global] Instance xxsum_laws : Xxh3Laws.
Proof.
  refine {| xxh_holds (s : @xxh_state xxsum) held := s = held |}; cbn.
  - intros. apply weighted_sum_range.
  - intros. apply weighted_sum_range.
  - by intros ?? [= <-].
  - by intros ???? -> [= <-].
  - by intros ?? ->.
Defined.

#[global] Instance xxsum_total : Xxh3Total.
Proof. by split. Qed.
