(* ===== verification/Os.v ===== *)
(** * The operating system: files and memory

    [cmeta_fs.h] belongs to the Salts library and is not part of the sources.
    [Os] are the calls the storage makes, each on the state of the system:
    files, memory and the creation of digest streams. A call may fail whenever
    it likes. [OsLaws] say what the storage relies on, in terms of a view of
    the system: what a file holds now, what it may hold after a loss of power,
    and where the open files stand.

    - Appended bytes reach the disk in order: after a loss of power a file
      holds what it held before, with some of the bytes appended since.
    - [fsync] makes what a file holds durable.
    - [cmeta_fs_replace_durable] replaces a file at once and durably, or
      reports that it has not, or that it does not know.

    [Ram] is an instance. *)

From S2P Require Import Prelude Configuration Bytes Digest.
From Stdlib Require Import ZArith Lia.
From stdpp Require Import base numbers list tactics.
Open Scope Z_scope.
Open Scope raft_scope.

Abbreviation path := (list Z).

(** The flags the storage opens files with. *)
Inductive open_mode := RDONLY | RDWR | RDWR_CREAT | RDWR_CREAT_TRUNC.

Record cmeta_fs_stat_t := FsStat {
  fs_is_file : bool;
  fs_size : Z
}.

Inductive cmeta_fs_replace_state :=
| REPLACE_NOT_PUBLISHED
| REPLACE_DURABLE
| REPLACE_DURABILITY_UNKNOWN.

(** A count of bytes, or the bytes read, or an error code. *)
Class Os `{Sha256} := {
  os : Type;
  os_file : Type;
  SALTS_FS_MAX_PATH : Z;
  cmeta_fs_access : os -> path -> os * status;
  cmeta_fs_stat : os -> path -> os * status * cmeta_fs_stat_t;
  cmeta_fs_open : os -> path -> open_mode -> os * option os_file;
  cmeta_fs_close : os -> os_file -> os * status;
  cmeta_fs_write : os -> os_file -> list Z -> os * (Z + errno);
  cmeta_fs_pwrite : os -> os_file -> list Z -> Z -> os * (Z + errno);
  cmeta_fs_pread : os -> os_file -> Z -> Z -> os * (list Z + errno);
  cmeta_fs_fsync : os -> os_file -> os * status;
  cmeta_fs_ftruncate : os -> os_file -> Z -> os * status;
  cmeta_fs_seek : os -> os_file -> Z -> os * bool;
  cmeta_fs_unlink : os -> path -> os * status;
  cmeta_fs_replace_durable : os -> path -> path -> os * status * cmeta_fs_replace_state;
  cmeta_fs_lock : os -> os_file -> os * status;
  cmeta_fs_unlock : os -> os_file -> os * status;
  os_malloc : os -> os * bool;
  cmeta_sha256_stream_create : os -> os * (status * sha_stream)
}.

(** ** Views *)

Record view {F : Type} := View {
  v_now : path -> option (list Z);
  v_after : path -> option (list Z) -> Prop;
  v_handle : F -> option (path * Z)
}.
Arguments view F : clear implicits.
Arguments View {F} _ _ _.

Section View.
Context {F : Type}.
Implicit Types v : view F.

(** Only the files in [touched] change. *)
Definition files_kept (touched : path -> Prop) v v' : Prop :=
  forall p, ~ touched p ->
    v_now v' p = v_now v p /\ forall x, v_after v' p x -> v_after v p x.

Definition handles_kept (touched : F -> Prop) v v' : Prop :=
  forall f, ~ touched f -> v_handle v' f = v_handle v f.

Definition nothing {A : Type} (_ : A) : Prop := False.

Definition same v v' : Prop := files_kept nothing v v' /\ handles_kept nothing v v'.

(** A loss of power: every file holds what it may hold, and no more is
    pending. *)
Definition crashed v v' : Prop :=
  forall p, v_after v p (v_now v' p) /\ forall x, v_after v' p x -> x = v_now v' p.

#[global] Instance same_preorder : PreOrder same.
Proof.
  split.
  - intros v. split; [intros p _; split; auto|by intros f _].
  - intros v1 v2 v3 [F1 H1] [F2 H2]. split.
    + intros p Hp. destruct (F1 p Hp) as [E1 A1], (F2 p Hp) as [E2 A2].
      split; [congruence|auto].
    + intros f Hf. rewrite (H2 f Hf). by apply H1.
Qed.

Lemma files_kept_refl touched v : files_kept touched v v.
Proof. intros p _. auto. Qed.

Lemma files_kept_trans t v1 v2 v3 :
  files_kept t v1 v2 -> files_kept t v2 v3 -> files_kept t v1 v3.
Proof.
  intros F1 F2 p Hp. destruct (F1 p Hp) as [E1 A1], (F2 p Hp) as [E2 A2].
  split; [congruence|auto].
Qed.

Lemma files_kept_weaken (t t' : path -> Prop) v v' :
  files_kept t v v' -> (forall p, t p -> t' p) -> files_kept t' v v'.
Proof. intros Hf Ht p Hp. apply Hf. auto. Qed.

Lemma handles_kept_refl touched v : handles_kept touched v v.
Proof. by intros f _. Qed.

Lemma handles_kept_trans t v1 v2 v3 :
  handles_kept t v1 v2 -> handles_kept t v2 v3 -> handles_kept t v1 v3.
Proof. intros H1 H2 f Hf. rewrite (H2 f Hf). by apply H1. Qed.

Lemma same_files t v v' : same v v' -> files_kept t v v'.
Proof. intros [Hf _]. apply (files_kept_weaken nothing); [done|]. by intros p []. Qed.

Lemma same_handles t v v' : same v v' -> handles_kept t v v'.
Proof. intros [_ Hh] f _. apply Hh. by intros []. Qed.

Lemma same_now v v' p : same v v' -> v_now v' p = v_now v p.
Proof. intros [Hf _]. apply Hf. by intros []. Qed.

Lemma same_after v v' p x : same v v' -> v_after v' p x -> v_after v p x.
Proof. intros [Hf _]. apply Hf. by intros []. Qed.

Lemma same_handle v v' f : same v v' -> v_handle v' f = v_handle v f.
Proof. intros [_ Hh]. apply Hh. by intros []. Qed.
End View.

(** ** Laws *)

(** Opening a file yields a handle at its start that was not in use. *)
Definition opened {F : Type} (v v' : view F) (p : path) (r : option F) : Prop :=
  match r with
  | None => handles_kept nothing v v'
  | Some f => v_handle v f = None /\ v_handle v' f = Some (p, 0) /\ handles_kept (eq f) v v'
  end.

Definition creates (m : open_mode) : bool :=
  match m with RDONLY | RDWR => false | RDWR_CREAT | RDWR_CREAT_TRUNC => true end.

Abbreviation Zlength_ c := (Z.of_nat (length c)).

(** The bytes [take k data] have been appended to [c], the content of [p]. *)
Record appended {F : Type} (v v' : view F) (f : F) (p : path) (c data : list Z) (k : nat)
    : Prop := {
  ap_count : (k <= length data)%nat;
  ap_now : v_now v' p = Some (c ++ take k data);
  ap_handle : v_handle v' f = Some (p, Zlength_ c + Z.of_nat k);
  ap_after x : v_after v' p x ->
    v_after v p x \/ exists j, (j <= k)%nat /\ x = Some (c ++ take j data);
  ap_files : files_kept (eq p) v v';
  ap_handles : handles_kept (eq f) v v'
}.

(** What a replacement has done. *)
Definition replaced {F : Type} (v v' : view F) (temporary p : path) (r : status)
    (state : cmeta_fs_replace_state) : Prop :=
  files_kept (fun q => q = temporary \/ q = p) v v' /\ handles_kept nothing v v' /\
  match r, state with
  | SALTS_OK, _ => v_now v' p = v_now v temporary /\
                   forall x, v_after v' p x -> x = v_now v temporary
  | _, REPLACE_NOT_PUBLISHED => v_now v' p = v_now v p /\
                                forall x, v_after v' p x -> v_after v p x
  | _, _ => (v_now v' p = v_now v p \/ v_now v' p = v_now v temporary) /\
            forall x, v_after v' p x -> v_after v p x \/ x = v_now v temporary
  end.

Class OsLaws `{Os} `{!Sha256Laws} := {
  os_view : os -> view os_file;
  law_access e p e' r :
    cmeta_fs_access e p = (e', r) ->
    same (os_view e) (os_view e') /\ (r = SALTS_OK <-> v_now (os_view e) p <> None);
  law_stat e p e' r st :
    cmeta_fs_stat e p = (e', r, st) ->
    same (os_view e) (os_view e') /\
    (r = SALTS_OK -> fs_is_file st = true ->
     exists c, v_now (os_view e) p = Some c /\ fs_size st = Zlength_ c);
  law_open e p m e' r :
    cmeta_fs_open e p m = (e', r) ->
    opened (os_view e) (os_view e') p r /\
    files_kept (fun q => creates m = true /\ q = p) (os_view e) (os_view e') /\
    (m = RDWR_CREAT_TRUNC -> r <> None -> v_now (os_view e') p = Some []) /\
    (creates m = false -> r <> None -> v_now (os_view e) p <> None);
  law_close e f e' r :
    cmeta_fs_close e f = (e', r) ->
    files_kept nothing (os_view e) (os_view e') /\
    handles_kept (eq f) (os_view e) (os_view e');
  law_write e f data e' r p c :
    cmeta_fs_write e f data = (e', r) ->
    v_handle (os_view e) f = Some (p, Zlength_ c) -> v_now (os_view e) p = Some c ->
    exists k, appended (os_view e) (os_view e') f p c data k /\
      forall n, r = inl n -> n = Z.of_nat k;
  law_pwrite e f data offset e' r p pos c :
    cmeta_fs_pwrite e f data offset = (e', r) ->
    v_handle (os_view e) f = Some (p, pos) -> v_now (os_view e) p = Some c ->
    0 <= offset -> offset + Zlength_ data <= Zlength_ c ->
    files_kept (eq p) (os_view e) (os_view e') /\
    handles_kept nothing (os_view e) (os_view e') /\
    (r = inl (Zlength_ data) ->
     v_now (os_view e') p = Some (store (Z.to_nat offset) data c));
  law_pread e f n offset e' r :
    cmeta_fs_pread e f n offset = (e', r) ->
    same (os_view e) (os_view e') /\
    forall bytes p pos c, r = inl bytes -> v_handle (os_view e) f = Some (p, pos) ->
      v_now (os_view e) p = Some c -> 0 <= n -> 0 <= offset ->
      exists k, (k <= Z.to_nat n)%nat /\ bytes = take k (drop (Z.to_nat offset) c);
  law_fsync e f e' r p pos :
    cmeta_fs_fsync e f = (e', r) -> v_handle (os_view e) f = Some (p, pos) ->
    files_kept nothing (os_view e) (os_view e') /\
    handles_kept nothing (os_view e) (os_view e') /\
    (r = SALTS_OK -> forall x, v_after (os_view e') p x -> x = v_now (os_view e) p);
  law_ftruncate e f n e' r p pos c :
    cmeta_fs_ftruncate e f n = (e', r) -> v_handle (os_view e) f = Some (p, pos) ->
    v_now (os_view e) p = Some c -> 0 <= n <= Zlength_ c ->
    files_kept (eq p) (os_view e) (os_view e') /\
    handles_kept nothing (os_view e) (os_view e') /\
    (r = SALTS_OK -> v_now (os_view e') p = Some (take (Z.to_nat n) c)) /\
    (forall x, v_after (os_view e') p x ->
       v_after (os_view e) p x \/ x = Some (take (Z.to_nat n) c));
  law_seek e f n e' r p pos :
    cmeta_fs_seek e f n = (e', r) -> v_handle (os_view e) f = Some (p, pos) ->
    files_kept nothing (os_view e) (os_view e') /\
    handles_kept (eq f) (os_view e) (os_view e') /\
    (r = true -> v_handle (os_view e') f = Some (p, n));
  law_unlink e p e' r :
    cmeta_fs_unlink e p = (e', r) ->
    files_kept (eq p) (os_view e) (os_view e') /\
    handles_kept nothing (os_view e) (os_view e') /\
    (r = SALTS_OK -> v_now (os_view e') p = None);
  law_replace e temporary p e' r state :
    cmeta_fs_replace_durable e temporary p = (e', r, state) -> temporary <> p ->
    v_now (os_view e) temporary <> None ->
    replaced (os_view e) (os_view e') temporary p r state;
  law_lock e f e' r : cmeta_fs_lock e f = (e', r) -> same (os_view e) (os_view e');
  law_unlock e f e' r : cmeta_fs_unlock e f = (e', r) -> same (os_view e) (os_view e');
  law_malloc e e' r : os_malloc e = (e', r) -> same (os_view e) (os_view e');
  law_sha_create e e' r s :
    cmeta_sha256_stream_create e = (e', (r, s)) ->
    same (os_view e) (os_view e') /\ (r = SALTS_OK -> sha_holds s [])
}.

(** A system in which the calls that reading needs do not fail. *)
Class OsReadable `{OsLaws} := {
  readable_stat e p c :
    v_now (os_view e) p = Some c ->
    exists e' st, cmeta_fs_stat e p = (e', SALTS_OK, st) /\ fs_is_file st = true;
  readable_open e p m :
    creates m = false -> v_now (os_view e) p <> None -> snd (cmeta_fs_open e p m) <> None;
  readable_close e f : snd (cmeta_fs_close e f) = SALTS_OK;
  readable_pread e f p pos c n offset :
    v_handle (os_view e) f = Some (p, pos) -> v_now (os_view e) p = Some c ->
    0 < n -> 0 <= offset < Zlength_ c ->
    exists e' b bytes, cmeta_fs_pread e f n offset = (e', inl (b :: bytes));
  readable_malloc e : snd (os_malloc e) = true;
  readable_sha e : fst (snd (cmeta_sha256_stream_create e)) = SALTS_OK
}.

(** A system in which the calls that opening a log needs do not fail either:
    the lock file can be created and locked, and files can be cut. *)
Class OsSteady `{OsReadable} := {
  steady_create e p : snd (cmeta_fs_open e p RDWR_CREAT) <> None;
  steady_lock e f p pos :
    v_handle (os_view e) f = Some (p, pos) -> snd (cmeta_fs_lock e f) = SALTS_OK;
  steady_ftruncate e f n p pos c :
    v_handle (os_view e) f = Some (p, pos) -> v_now (os_view e) p = Some c ->
    0 <= n <= Zlength_ c -> snd (cmeta_fs_ftruncate e f n) = SALTS_OK;
  steady_seek e f n p pos :
    v_handle (os_view e) f = Some (p, pos) -> snd (cmeta_fs_seek e f n) = true
}.
