(* ===== verification/Ram.v ===== *)
(** * Files in memory

    An instance of [Os] on which the examples run: files are a finite map,
    together with what each may hold after a loss of power. A budget says how
    many writing calls succeed before all of them fail, and [ra_chunk] how many
    bytes a call writes at most, so the examples meet short writes and
    failures. After a loss of power a file holds what it held between two of
    the calls since it was flushed. *)

From S2P Require Import Prelude Configuration Bytes Digest Os.
From Stdlib Require Import ZArith Lia.
From stdpp Require Import base numbers list gmap tactics.
Open Scope Z_scope.
Open Scope raft_scope.

Record ram := Ram {
  ra_files : gmap (list Z) (list Z);
  ra_after : gmap (list Z) (list (option (list Z)));
  ra_handles : list (option (path * Z));
  ra_budget : nat;
  ra_chunk : nat
}.

Definition ra_possible (r : ram) (p : path) : list (option (list Z)) :=
  default [] (ra_after r !! p).

(** Changes a file; [others] may be found in its place after a loss of power,
    as may what was there before. *)
Definition change (r : ram) (p : path) (content : option (list Z))
    (others : list (option (list Z))) : ram :=
  Ram (partial_alter (fun _ => content) p (ra_files r))
    (<[p := ra_files r !! p :: others ++ ra_possible r p]> (ra_after r))
    (ra_handles r) (ra_budget r) (ra_chunk r).

Definition settle (r : ram) (p : path) : ram :=
  Ram (ra_files r) (delete p (ra_after r)) (ra_handles r) (ra_budget r) (ra_chunk r).

Definition set_handle (r : ram) (f : nat) (h : option (path * Z)) : ram :=
  Ram (ra_files r) (ra_after r) (<[f := h]> (ra_handles r)) (ra_budget r) (ra_chunk r).

Definition add_handle (r : ram) (h : path * Z) : ram * nat :=
  (Ram (ra_files r) (ra_after r) (ra_handles r ++ [Some h]) (ra_budget r) (ra_chunk r),
   length (ra_handles r)).

Definition get_handle (r : ram) (f : nat) : option (path * Z) :=
  default None (ra_handles r !! f).

(** One writing call, which fails when the budget is spent. *)
Definition spend {A : Type} (r : ram) (out : A) (act : ram -> A) : A :=
  match ra_budget r with
  | O => out
  | S n => act (Ram (ra_files r) (ra_after r) (ra_handles r) n (ra_chunk r))
  end.

(** The content of [p] and the position of an open file. *)
Definition on_file {A : Type} (r : ram) (f : nat) (out : A) (act : path -> Z -> list Z -> A) : A :=
  match get_handle r f with
  | Some (p, pos) => match ra_files r !! p with Some c => act p pos c | None => out end
  | None => out
  end.

Definition ram_write (r : ram) (f : nat) (data : list Z) : ram * (Z + errno) :=
  spend r (r, inr EIO) (fun r =>
    on_file r f (r, inr EIO) (fun p pos c =>
      let n := Z.to_nat pos in
      let k := Nat.min (ra_chunk r) (length data) in
      let at_ j := Some (take n c ++ take j data ++ drop (n + j) c) in
      (set_handle (change r p (at_ k) []) f (Some (p, pos + Z.of_nat k)),
       inl (Z.of_nat k)))).

#[global] Instance ram_os : Os := {|
  os := ram;
  os_file := nat;
  SALTS_FS_MAX_PATH := 1024;
  cmeta_fs_access r p := (r, match ra_files r !! p with Some _ => SALTS_OK | None => SALTS_ENOENT end);
  cmeta_fs_stat r p :=
    match ra_files r !! p with
    | Some c => (r, SALTS_OK, FsStat true (Z.of_nat (length c)))
    | None => (r, SALTS_ENOENT, FsStat false 0)
    end;
  cmeta_fs_open r p m :=
    match m, ra_files r !! p with
    | RDWR_CREAT_TRUNC, _ =>
        spend r (r, None) (fun r => let '(r, f) := add_handle (change r p (Some []) []) (p, 0) in (r, Some f))
    | RDWR_CREAT, None =>
        spend r (r, None) (fun r => let '(r, f) := add_handle (change r p (Some []) []) (p, 0) in (r, Some f))
    | _, Some _ => let '(r, f) := add_handle r (p, 0) in (r, Some f)
    | _, None => (r, None)
    end;
  cmeta_fs_close r f := (set_handle r f None, SALTS_OK);
  cmeta_fs_write := ram_write;
  cmeta_fs_pwrite r f data offset :=
    spend r (r, inr EIO) (fun r =>
      on_file r f (r, inr EIO) (fun p _ c =>
        (change r p (Some (store (Z.to_nat offset) data c)) [], inl (Z.of_nat (length data)))));
  cmeta_fs_pread r f n offset :=
    on_file r f (r, inr EIO) (fun _ _ c =>
      (r, inl (take (Z.to_nat n) (drop (Z.to_nat offset) c))));
  cmeta_fs_fsync r f :=
    spend r (r, SALTS_EIO) (fun r =>
      match get_handle r f with
      | Some (p, _) => (settle r p, SALTS_OK)
      | None => (r, SALTS_EIO)
      end);
  cmeta_fs_ftruncate r f n :=
    spend r (r, SALTS_EIO) (fun r =>
      on_file r f (r, SALTS_EIO) (fun p _ c =>
        (change r p (Some (take (Z.to_nat n) c)) [], SALTS_OK)));
  cmeta_fs_seek r f n :=
    match get_handle r f with
    | Some (p, _) => (set_handle r f (Some (p, n)), true)
    | None => (r, false)
    end;
  cmeta_fs_unlink r p :=
    spend r (r, SALTS_EIO) (fun r =>
      match ra_files r !! p with
      | Some _ => (change r p None [], SALTS_OK)
      | None => (r, SALTS_ENOENT)
      end);
  cmeta_fs_replace_durable r temporary p :=
    spend r (r, SALTS_EIO, REPLACE_NOT_PUBLISHED) (fun r =>
      match ra_files r !! temporary with
      | Some c =>
          (change (settle (change r p (Some c) []) p) temporary None [], SALTS_OK, REPLACE_DURABLE)
      | None => (r, SALTS_ENOENT, REPLACE_NOT_PUBLISHED)
      end);
  cmeta_fs_lock r f := (r, SALTS_OK);
  cmeta_fs_unlock r f := (r, SALTS_OK);
  os_malloc r := (r, true);
  cmeta_sha256_stream_create r := (r, cmeta_sha256_stream_reset [])
|}.

Definition lookup_file (r : ram) (p : path) : option (list Z) := ra_files r !! p.

Definition ram_view (r : ram) : view nat :=
  View (lookup_file r) (fun p x => x = lookup_file r p \/ x ∈ ra_possible r p) (get_handle r).

(** ** The laws hold *)

Lemma change_now r p x others q :
  lookup_file (change r p x others) q = if decide (q = p) then x else lookup_file r q.
Proof.
  unfold lookup_file, change. cbn. destruct (decide (q = p)) as [->|Hne].
  - apply lookup_partial_alter_eq.
  - by apply lookup_partial_alter_ne.
Qed.

Lemma change_possible r p x others q :
  ra_possible (change r p x others) q =
  if decide (q = p) then lookup_file r p :: others ++ ra_possible r p else ra_possible r q.
Proof.
  unfold ra_possible, change. cbn. destruct (decide (q = p)) as [->|Hne].
  - by rewrite lookup_insert_eq.
  - by rewrite lookup_insert_ne by done.
Qed.

Lemma change_files r p x others : files_kept (eq p) (ram_view r) (ram_view (change r p x others)).
Proof.
  intros q Hq. unfold ram_view. cbn [v_now v_after]. rewrite change_now, change_possible.
  by rewrite !decide_False by (intros ->; done).
Qed.

Lemma change_after r p x others y :
  v_after (ram_view (change r p x others)) p y ->
  v_after (ram_view r) p y \/ y = x \/ y ∈ others.
Proof.
  cbn. rewrite change_now, change_possible, !decide_True by done.
  rewrite elem_of_cons, elem_of_app. naive_solver.
Qed.

Lemma settle_now r p q : lookup_file (settle r p) q = lookup_file r q.
Proof. done. Qed.

Lemma settle_possible r p q :
  ra_possible (settle r p) q = if decide (q = p) then [] else ra_possible r q.
Proof.
  unfold ra_possible, settle. cbn. destruct (decide (q = p)) as [->|Hne].
  - by rewrite lookup_delete_eq.
  - by rewrite lookup_delete_ne by done.
Qed.

Lemma settle_files r p : files_kept nothing (ram_view r) (ram_view (settle r p)).
Proof.
  intros q _. cbn [v_now v_after ram_view]. split; [done|]. intros x.
  rewrite settle_now, settle_possible. destruct (decide (q = p)); [|done].
  intros [?|Hx]; [by left|]. by apply elem_of_nil in Hx.
Qed.

Lemma set_handle_kept r f h : handles_kept (eq f) (ram_view r) (ram_view (set_handle r f h)).
Proof.
  intros g Hg. cbn. unfold get_handle, set_handle. cbn. by rewrite list_lookup_insert_ne.
Qed.

Lemma set_handle_get r f h h' :
  get_handle r f = Some h' -> get_handle (set_handle r f h) f = h.
Proof.
  unfold get_handle, set_handle. cbn. intros Hf. destruct (ra_handles r !! f) eqn:E; [|done].
  apply lookup_lt_Some in E. by rewrite list_lookup_insert_eq.
Qed.

Lemma add_handle_opened r h r' f :
  add_handle r h = (r', f) ->
  get_handle r f = None /\ get_handle r' f = Some h /\
  handles_kept (eq f) (ram_view r) (ram_view r').
Proof.
  intros [= <- <-]. unfold get_handle. cbn. split_and!.
  - by rewrite lookup_ge_None_2 by lia.
  - by rewrite list_lookup_middle.
  - intros g Hg. cbn. unfold get_handle. cbn.
    destruct (decide (g < length (ra_handles r))%nat) as [Hlt|Hge].
    + by rewrite lookup_app_l by done.
    + rewrite !lookup_ge_None_2; [done|lia|]. rewrite length_app. cbn. lia.
Qed.

(** A call that succeeds or does nothing. *)
Lemma spend_cases {A : Type} (r : ram) (out : A) act res :
  spend r out act = res ->
  res = out \/ exists r1, ram_view r1 = ram_view r /\ ra_files r1 = ra_files r /\ res = act r1.
Proof.
  unfold spend. destruct (ra_budget r) as [|n]; intros <-; [by left|right].
  by exists (Ram (ra_files r) (ra_after r) (ra_handles r) n (ra_chunk r)).
Qed.

Lemma on_file_cases {A : Type} (r : ram) (f : nat) (out : A) act :
  on_file r f out act = out \/
  exists p pos c, v_handle (ram_view r) f = Some (p, pos) /\ v_now (ram_view r) p = Some c /\
    on_file r f out act = act p pos c.
Proof.
  unfold on_file. cbn. destruct (get_handle r f) as [[p pos]|] eqn:Hf; [|by left].
  destruct (ra_files r !! p) as [c|] eqn:Hp; [|by left]. right. by exists p, pos, c.
Qed.

(** Nothing has happened. *)
Ltac ram_idle := split_and!; try reflexivity; try (by intros ?); try done.

Lemma ram_law_open (r : ram) p m r' h :
  cmeta_fs_open r p m = (r', h) ->
  opened (ram_view r) (ram_view r') p h /\
  files_kept (fun q => creates m = true /\ q = p) (ram_view r) (ram_view r') /\
  (m = RDWR_CREAT_TRUNC -> h <> None -> v_now (ram_view r') p = Some []) /\
  (creates m = false -> h <> None -> v_now (ram_view r) p <> None).
Proof.
  assert (forall r0 r' f h, ram_view r0 = ram_view r -> creates m = true ->
    add_handle (change r0 p (Some []) []) (p, 0) = (r', f) -> h = Some f ->
    opened (ram_view r) (ram_view r') p h /\
    files_kept (fun q => creates m = true /\ q = p) (ram_view r) (ram_view r') /\
    (m = RDWR_CREAT_TRUNC -> h <> None -> v_now (ram_view r') p = Some []) /\
    (creates m = false -> h <> None -> v_now (ram_view r) p <> None)) as Hnew.
  { intros r0 r1 f h1 Hv Hm Ha ->. destruct (add_handle_opened _ _ _ _ Ha) as (A1 & A2 & A3).
    injection Ha as <- <-. rewrite <- Hv. split_and!; try done.
    - pose proof (change_files r0 p (Some []) []) as Hc.
      intros q Hq. apply Hc. intros ->. by apply Hq.
    - intros _ _. cbn. change (lookup_file (change r0 p (Some []) []) p = Some []).
      by rewrite change_now, decide_True.
    - by rewrite Hm. }
  assert (forall r' f, add_handle r (p, 0) = (r', f) ->
    opened (ram_view r) (ram_view r') p (Some f) /\ files_kept nothing (ram_view r) (ram_view r'))
    as Hold.
  { intros r1 f Ha. destruct (add_handle_opened _ _ _ _ Ha) as (A1 & A2 & A3).
    split; [done|]. injection Ha as <- <-. intros q _. done. }
  assert (forall r' f, add_handle r (p, 0) = (r', f) -> m <> RDWR_CREAT_TRUNC -> 
    ra_files r !! p <> None ->
    opened (ram_view r) (ram_view r') p (Some f) /\
    files_kept (fun q => creates m = true /\ q = p) (ram_view r) (ram_view r') /\
    (m = RDWR_CREAT_TRUNC -> Some f <> None -> v_now (ram_view r') p = Some []) /\
    (creates m = false -> Some f <> None -> v_now (ram_view r) p <> None)) as Hold'.
  { intros r1 f Ha Hm Hp. destruct (Hold r1 f Ha) as [Ho Hf]. split_and!; try done.
    apply (files_kept_weaken nothing); [done|by intros q []]. }
  assert (opened (ram_view r) (ram_view r) p None /\
    files_kept (fun q => creates m = true /\ q = p) (ram_view r) (ram_view r)) as [N1 N2].
  { split; [apply handles_kept_refl|apply files_kept_refl]. }
  cbn. destruct m; cbn; [| | |].
  - destruct (ra_files r !! p) eqn:E; intros [= <- <-]; [|done]. apply Hold'; [done|done|congruence].
  - destruct (ra_files r !! p) eqn:E; intros [= <- <-]; [|done]. apply Hold'; [done|done|congruence].
  - destruct (ra_files r !! p) eqn:E; [intros [= <- <-]; apply Hold'; [done|done|congruence]|].
    intros [[= -> ->]|(r1 & Hv & _ & [= -> ->])]%spend_cases; [done|]. by eapply Hnew.
  - intros [[= -> ->]|(r1 & Hv & _ & [= -> ->])]%spend_cases; [done|]. by eapply Hnew.
Qed.

Lemma ram_law_write (r : ram) f data r' n p c :
  ram_write r f data = (r', n) ->
  v_handle (ram_view r) f = Some (p, Z.of_nat (length c)) -> v_now (ram_view r) p = Some c ->
  exists k, appended (ram_view r) (ram_view r') f p c data k /\
    forall m, n = inl m -> m = Z.of_nat k.
Proof.
  intros Hw Hf Hc. assert (appended (ram_view r) (ram_view r) f p c data 0) as H0.
  { split; [lia| | | |apply files_kept_refl|apply handles_kept_refl].
    - by rewrite Hc, take_0, app_nil_r.
    - rewrite Hf. do 2 f_equal. lia.
    - by left. }
  unfold ram_write in Hw. apply spend_cases in Hw as [[= -> ->]|(r1 & Hv & Hfs & Hw)].
  { exists 0%nat. split; [done|]. by intros m [=]. }
  unfold on_file in Hw. rewrite Hfs in Hw.
  assert (get_handle r1 f = Some (p, Z.of_nat (length c))) as Hg.
  { rewrite <- Hf. change (v_handle (ram_view r1) f = v_handle (ram_view r) f). by rewrite Hv. }
  change (ra_files r !! p = Some c) in Hc. rewrite Hg, Hc, Nat2Z.id in Hw.
  set (k := Nat.min (ra_chunk r1) (length data)) in *. injection Hw as Hr' Hn. subst r' n.
  assert (forall j, take (length c) c ++ take j data ++ drop (length c + j) c = c ++ take j data) as E.
  { intros j. rewrite take_ge, (drop_ge c), app_nil_r by lia. done. }
  set (x := Some _).
  exists k. split; [|by intros m [= <-]]. rewrite <- Hv. split.
  - unfold k. lia.
  - cbn. change (lookup_file (change r1 p x []) p = Some (c ++ take k data)).
    rewrite change_now, decide_True by done. unfold x. by rewrite E.
  - cbn. by rewrite (set_handle_get (change r1 p x []) f _ (p, Z.of_nat (length c))).
  - intros y Hy.
    destruct (change_after r1 p x [] y Hy) as [?|[->|Hin]]; [by left|right|by apply elem_of_nil in Hin].
    exists k. split; [done|]. unfold x. by rewrite E.
  - apply change_files.
  - apply (set_handle_kept (change r1 p x [])).
Qed.

Lemma ram_law_replace (r : ram) temporary p r' res state :
  cmeta_fs_replace_durable r temporary p = (r', res, state) -> temporary <> p ->
  v_now (ram_view r) temporary <> None ->
  replaced (ram_view r) (ram_view r') temporary p res state.
Proof.
  cbn. intros Hr Hne Htmp. assert (replaced (ram_view r) (ram_view r) temporary p SALTS_EIO
    REPLACE_NOT_PUBLISHED) as H0.
  { split; [apply files_kept_refl|]. split; [apply handles_kept_refl|]. split; auto. }
  apply spend_cases in Hr as [[= -> -> ->]|(r1 & Hv & Hfs & Hr)]; [done|].
  rewrite Hfs in Hr. cbn in Htmp. unfold lookup_file in Htmp.
  destruct (ra_files r !! temporary) as [c|] eqn:Hc; [|done]. injection Hr as -> -> ->.
  rewrite <- Hv. split; [|split; [by intros g _|]].
  - intros q Hq. assert (q <> temporary /\ q <> p) as [Hq1 Hq2] by tauto. cbn.
    rewrite !change_now, !change_possible, !decide_False by done.
    rewrite settle_now, settle_possible, change_now, change_possible, !decide_False by done. auto.
  - cbn. rewrite change_now, change_possible, !decide_False by congruence.
    rewrite settle_now, settle_possible, change_now, !decide_True by done.
    change (lookup_file r1 temporary) with (ra_files r1 !! temporary). rewrite Hfs, Hc.
    split; [done|]. intros x [->|Hx]; [done|]. by apply elem_of_nil in Hx.
Qed.

#[global] Instance ram_laws : OsLaws.
Proof.
  refine {| os_view := ram_view |}.
  - intros r p r' res [= <- <-]. split; [reflexivity|]. cbn. unfold lookup_file.
    by destruct (ra_files r !! p).
  - intros r p r' res st. cbn. destruct (ra_files r !! p) as [c|] eqn:E;
      intros [= <- <- <-]; (split; [reflexivity|]); [|done]. intros _ _. by exists c.
  - apply ram_law_open.
  - intros r f r' res [= <- <-]. split; [by intros p _|]. apply set_handle_kept.
  - apply ram_law_write.
  - intros r f data offset r' res p pos c. cbn. intros Hw Hf Hc Ho Hl.
    apply spend_cases in Hw as [[= -> ->]|(r1 & Hv & Hfs & Hw)].
    { split_and!; [apply files_kept_refl|apply handles_kept_refl|done]. }
    unfold on_file in Hw. rewrite Hfs in Hw.
    assert (get_handle r1 f = Some (p, pos)) as Hg.
    { rewrite <- Hf. change (v_handle (ram_view r1) f = v_handle (ram_view r) f). by rewrite Hv. }
    change (ra_files r !! p = Some c) in Hc. rewrite Hg, Hc in Hw. injection Hw as Hr' Hres. subst r' res.
    rewrite <- Hv. split_and!; [apply change_files|by intros g _|]. intros _. cbn.
    by rewrite change_now, decide_True.
  - intros r f n offset r' res Hr. cbn in Hr. unfold on_file in Hr.
    split; [destruct (get_handle r f) as [[p pos]|]; [destruct (ra_files r !! p)|];
            injection Hr as <- _; reflexivity|].
    intros bytes p pos c -> Hf Hc Hn Ho. cbn in Hf. change (ra_files r !! p = Some c) in Hc.
    rewrite Hf, Hc in Hr. injection Hr as _ <-. by exists (Z.to_nat n).
  - intros r f r' res p pos. cbn. intros Hs Hf.
    apply spend_cases in Hs as [[= -> ->]|(r1 & Hv & Hfs & Hs)].
    { split_and!; [apply files_kept_refl|apply handles_kept_refl|done]. }
    assert (get_handle r1 f = Some (p, pos)) as Hg.
    { rewrite <- Hf. change (v_handle (ram_view r1) f = v_handle (ram_view r) f). by rewrite Hv. }
    rewrite Hg in Hs. injection Hs as Hr' Hres. subst r' res. rewrite <- Hv.
    split_and!; [apply settle_files|by intros g _|]. intros _ x. cbn.
    rewrite settle_now, settle_possible, decide_True by done.
    intros [->|Hx]; [unfold lookup_file; by rewrite Hfs|]. by apply elem_of_nil in Hx.
  - intros r f n r' res p pos c. cbn. intros Ht Hf Hc Hn.
    apply spend_cases in Ht as [[= -> ->]|(r1 & Hv & Hfs & Ht)].
    { split_and!; [apply files_kept_refl|apply handles_kept_refl|done|by left]. }
    unfold on_file in Ht. rewrite Hfs in Ht.
    assert (get_handle r1 f = Some (p, pos)) as Hg.
    { rewrite <- Hf. change (v_handle (ram_view r1) f = v_handle (ram_view r) f). by rewrite Hv. }
    change (ra_files r !! p = Some c) in Hc. rewrite Hg, Hc in Ht. injection Ht as Hr' Hres. subst r' res.
    rewrite <- Hv. split_and!; [apply change_files|by intros g _| |].
    + intros _. cbn. by rewrite change_now, decide_True.
    + intros x Hx. destruct (change_after _ _ _ _ _ Hx) as [Ho|[->|Hin]]; [left|by right|].
      * change (v_after (ram_view r) p x). by rewrite <- Hv.
      * by apply elem_of_nil in Hin.
  - intros r f n r' res p pos. cbn. intros Hs Hf. rewrite Hf in Hs. injection Hs as Hr' Hres. subst r' res.
    split_and!; [by intros q _|apply set_handle_kept|]. intros _. by eapply set_handle_get.
  - intros r p r' res. cbn. intros Hu.
    apply spend_cases in Hu as [[= -> ->]|(r1 & Hv & Hfs & Hu)].
    { split_and!; [apply files_kept_refl|apply handles_kept_refl|done]. }
    rewrite <- Hv. destruct (ra_files r1 !! p); injection Hu as Hr' Hres; subst r' res.
    + split_and!; [apply change_files|by intros g _|]. intros _. cbn.
      by rewrite change_now, decide_True.
    + split_and!; [apply files_kept_refl|apply handles_kept_refl|done].
  - apply ram_law_replace.
  - intros r f r' res [= <- <-]. reflexivity.
  - intros r f r' res [= <- <-]. reflexivity.
  - intros r r' res [= <- <-]. reflexivity.
  - intros r r' res s [= <- <- <-]. split; [reflexivity|done].
Defined.

#[global] Instance ram_readable : OsReadable.
Proof.
  split; cbn.
  - intros r p c Hc. change (ra_files r !! p = Some c) in Hc. rewrite Hc. by eexists _, _.
  - intros r p m Hm Hc. change (ra_files r !! p <> None) in Hc.
    by destruct m, (ra_files r !! p).
  - done.
  - intros r f p pos c n offset Hf Hc Hn Ho. change (ra_files r !! p = Some c) in Hc.
    unfold on_file. rewrite Hf, Hc. exists r.
    destruct (take (Z.to_nat n) (drop (Z.to_nat offset) c)) as [|b bytes] eqn:E; [|by eexists _, _].
    apply (f_equal length) in E. rewrite length_take, length_drop in E. cbn in E. lia.
  - done.
  - done.
Qed.

(** ** A loss of power *)

(** One file holds something it may hold; all others what they held last. *)
Definition power_loss (r : ram) (p : path) (c : list Z) (budget chunk : nat) : ram :=
  Ram (<[p := c]> (ra_files r)) ∅ [] budget chunk.

Lemma power_loss_crashed r p c budget chunk :
  v_after (ram_view r) p (Some c) ->
  crashed (ram_view r) (ram_view (power_loss r p c budget chunk)).
Proof.
  intros Hc q. cbn. unfold lookup_file, ra_possible, power_loss. cbn.
  rewrite lookup_empty. cbn. destruct (decide (p = q)) as [->|Hne].
  - rewrite lookup_insert_eq. split; [done|]. intros x [->|Hx]; [done|]. by apply elem_of_nil in Hx.
  - rewrite lookup_insert_ne by done. split; [by left|].
    intros x [->|Hx]; [done|]. by apply elem_of_nil in Hx.
Qed.

(** ** A system that does not fail *)

(** The budget is filled up before every call. *)
Definition refill (r : ram) : ram :=
  Ram (ra_files r) (ra_after r) (ra_handles r) 1 (ra_chunk r).

Definition steady_os : Os := {|
  os := ram;
  os_file := nat;
  SALTS_FS_MAX_PATH := 1024;
  cmeta_fs_access r := cmeta_fs_access (refill r);
  cmeta_fs_stat r := cmeta_fs_stat (refill r);
  cmeta_fs_open r := cmeta_fs_open (refill r);
  cmeta_fs_close r := cmeta_fs_close (refill r);
  cmeta_fs_write r := cmeta_fs_write (refill r);
  cmeta_fs_pwrite r := cmeta_fs_pwrite (refill r);
  cmeta_fs_pread r := cmeta_fs_pread (refill r);
  cmeta_fs_fsync r := cmeta_fs_fsync (refill r);
  cmeta_fs_ftruncate r := cmeta_fs_ftruncate (refill r);
  cmeta_fs_seek r := cmeta_fs_seek (refill r);
  cmeta_fs_unlink r := cmeta_fs_unlink (refill r);
  cmeta_fs_replace_durable r := cmeta_fs_replace_durable (refill r);
  cmeta_fs_lock r := cmeta_fs_lock (refill r);
  cmeta_fs_unlock r := cmeta_fs_unlock (refill r);
  os_malloc r := os_malloc (refill r);
  cmeta_sha256_stream_create r := cmeta_sha256_stream_create (refill r)
|}.

(** The laws of [ram_os] in the state that has been filled up, whose view is
    the same. *)
Definition steady_laws : @OsLaws _ steady_os _.
Proof.
  refine (@Build_OsLaws _ steady_os _ ram_view _ _ _ _ _ _ _ _ _ _ _ _ _ _ _ _);
    intros r.
  - exact (law_access (refill r)).
  - exact (law_stat (refill r)).
  - exact (law_open (refill r)).
  - exact (law_close (refill r)).
  - exact (law_write (refill r)).
  - exact (law_pwrite (refill r)).
  - exact (law_pread (refill r)).
  - exact (law_fsync (refill r)).
  - exact (law_ftruncate (refill r)).
  - exact (law_seek (refill r)).
  - exact (law_unlink (refill r)).
  - exact (law_replace (refill r)).
  - exact (law_lock (refill r)).
  - exact (law_unlock (refill r)).
  - exact (law_malloc (refill r)).
  - exact (law_sha_create (refill r)).
Defined.

Definition steady_readable : @OsReadable _ steady_os _ steady_laws.
Proof.
  refine (@Build_OsReadable _ steady_os _ steady_laws _ _ _ _ _ _); intros r.
  - exact (readable_stat (refill r)).
  - exact (readable_open (refill r)).
  - exact (readable_close (refill r)).
  - exact (readable_pread (refill r)).
  - exact (readable_malloc (refill r)).
  - exact (readable_sha (refill r)).
Qed.

Definition steady_steady : @OsSteady _ steady_os _ steady_laws steady_readable.
Proof.
  split.
  - intros r p. cbn. by destruct (ra_files r !! p).
  - done.
  - intros r f n p pos c Hf Hc _. change (get_handle r f = Some (p, pos)) in Hf.
    change (ra_files r !! p = Some c) in Hc. cbn. unfold on_file. cbn.
    change (get_handle _ f) with (get_handle r f). by rewrite Hf, Hc.
  - intros r f n p pos Hf. change (get_handle r f = Some (p, pos)) in Hf. cbn.
    change (get_handle (refill r) f) with (get_handle r f). by rewrite Hf.
Qed.
