(* ===== verification/SnapshotSender.v ===== *)
(** * Outgoing snapshots: [src/snapshot/raft_snapshot_sender.c]

    A sender cuts one snapshot into chunks, keeps a bounded window of chunks in
    flight and advances with the acknowledgements of its peer. The bytes come
    from a source, a record of callbacks: [src_read_at w offset capacity] is
    the state of the callbacks after the call, its status and the bytes it has
    written, whose number it reports; [src_release] gives the source back. A
    callback closes over its context, and [None] is a null pointer. The bytes
    of a chunk point into [sn_chunk_storage], where every chunk in flight has a
    slot of its own. [sn_claims] are the first [claim_count] elements of the
    array. Pointers to the sender, a chunk or an acknowledgement are not null;
    what the allocators return is an argument. *)

From S2P Require Import Prelude Configuration Bytes Wire.
From Stdlib Require Import ZArith Lia.
From stdpp Require Import base numbers list tactics.
Open Scope Z_scope.
Open Scope raft_scope.

Definition TR_RAFT_SNAPSHOT_MAX_INFLIGHT_CHUNKS : Z := 4.

Record tr_snapshot_claim := Claim {
  cl_offset : Z;
  cl_length : Z;
  cl_slot : Z
}.

Definition zero_claim : tr_snapshot_claim := Claim 0 0 0.

Record tr_raft_snapshot_sender_config := SenderConfig {
  sg_self_id : Z;
  sg_peer_id : Z;
  sg_max_snapshot_bytes : Z;
  sg_chunk_size : Z;
  sg_max_inflight_chunks : Z
}.

Record tr_raft_snapshot_sender_status := SenderStatus {
  ss_active : bool;
  ss_complete : bool;
  ss_leader_term : Z;
  ss_snapshot_index : Z;
  ss_snapshot_term : Z;
  ss_snapshot_size : Z;
  ss_acknowledged_offset : Z;
  ss_next_offset : Z;
  ss_inflight_chunks : Z;
  ss_max_inflight_chunks : Z
}.

Definition zero_digest : list Z := replicate 32 0.

Section Sender.
Context {W : Type}.

Record tr_raft_snapshot_source := SnapshotSource {
  src_size : Z;
  src_digest : list Z;
  src_read_at : option (W -> Z -> Z -> W * status * list Z);
  src_release : option (W -> W)
}.

Definition zero_source : tr_raft_snapshot_source := SnapshotSource 0 zero_digest None None.

Record tr_raft_snapshot_sender := SnapshotSender {
  sn_config : tr_raft_snapshot_sender_config;
  sn_source : tr_raft_snapshot_source;
  sn_chunk_storage : list Z;
  sn_size : Z;
  sn_chunk_size : Z;
  sn_max_inflight_chunks : Z;
  sn_digest : list Z;
  sn_leader_term : Z;
  sn_snapshot_index : Z;
  sn_snapshot_term : Z;
  sn_configuration : tr_raft_conf;
  sn_acknowledged_offset : Z;
  sn_next_offset : Z;
  sn_claims : list tr_snapshot_claim;
  sn_source_owned : bool;
  sn_active : bool;
  sn_complete : bool
}.

Definition eta_sender (s : tr_raft_snapshot_sender) : tr_raft_snapshot_sender :=
  SnapshotSender (sn_config s) (sn_source s) (sn_chunk_storage s) (sn_size s)
    (sn_chunk_size s) (sn_max_inflight_chunks s) (sn_digest s) (sn_leader_term s)
    (sn_snapshot_index s) (sn_snapshot_term s) (sn_configuration s)
    (sn_acknowledged_offset s) (sn_next_offset s) (sn_claims s) (sn_source_owned s)
    (sn_active s) (sn_complete s).

#[export] Instance set_sn_source : Setter sn_source := ltac:(setter eta_sender sn_source).
#[export] Instance set_sn_storage : Setter sn_chunk_storage :=
  ltac:(setter eta_sender sn_chunk_storage).
#[export] Instance set_sn_size : Setter sn_size := ltac:(setter eta_sender sn_size).
#[export] Instance set_sn_digest : Setter sn_digest := ltac:(setter eta_sender sn_digest).
#[export] Instance set_sn_leader_term : Setter sn_leader_term :=
  ltac:(setter eta_sender sn_leader_term).
#[export] Instance set_sn_index : Setter sn_snapshot_index :=
  ltac:(setter eta_sender sn_snapshot_index).
#[export] Instance set_sn_term : Setter sn_snapshot_term :=
  ltac:(setter eta_sender sn_snapshot_term).
#[export] Instance set_sn_configuration : Setter sn_configuration :=
  ltac:(setter eta_sender sn_configuration).
#[export] Instance set_sn_acknowledged : Setter sn_acknowledged_offset :=
  ltac:(setter eta_sender sn_acknowledged_offset).
#[export] Instance set_sn_next : Setter sn_next_offset :=
  ltac:(setter eta_sender sn_next_offset).
#[export] Instance set_sn_claims : Setter sn_claims := ltac:(setter eta_sender sn_claims).
#[export] Instance set_sn_owned : Setter sn_source_owned :=
  ltac:(setter eta_sender sn_source_owned).
#[export] Instance set_sn_active : Setter sn_active := ltac:(setter eta_sender sn_active).
#[export] Instance set_sn_complete : Setter sn_complete :=
  ltac:(setter eta_sender sn_complete).

Definition sn_claim_count (s : tr_raft_snapshot_sender) : Z :=
  Z.of_nat (length (sn_claims s)).

(** ** The source of a snapshot in memory *)

Definition tr_snapshot_memory_read_at (data : list Z) (offset capacity : Z)
    : status * list Z :=
  let size := Z.of_nat (length data) in
  if (size <? offset) || (size -64 offset <? capacity) then (SALTS_EINVAL, [])
  else (SALTS_OK, take (Z.to_nat capacity) (drop (Z.to_nat offset) data)).

(** [tr_snapshot_memory_release] frees the copy. *)
Definition memory_source (digest data : list Z) : tr_raft_snapshot_source :=
  SnapshotSource (Z.of_nat (length data)) digest
    (Some (fun w offset capacity =>
             let '(r, bytes) := tr_snapshot_memory_read_at data offset capacity in
             (w, r, bytes)))
    (Some (fun w => w)).

(** ** Transfers *)

Definition tr_raft_snapshot_sender_release_source (s : tr_raft_snapshot_sender) (w : W)
    : tr_raft_snapshot_sender * W :=
  let w := if sn_source_owned s
           then match src_release (sn_source s) with Some release => release w | None => w end
           else w in
  (s <| sn_source := zero_source |> <| sn_source_owned := false |>, w).

Definition tr_raft_snapshot_sender_clear_transfer (s : tr_raft_snapshot_sender) (w : W)
    : tr_raft_snapshot_sender * W :=
  let '(s, w) := tr_raft_snapshot_sender_release_source s w in
  (s <| sn_size := 0 |> <| sn_digest := zero_digest |> <| sn_leader_term := 0 |>
     <| sn_snapshot_index := 0 |> <| sn_snapshot_term := 0 |>
     <| sn_configuration := zero_conf |> <| sn_acknowledged_offset := 0 |>
     <| sn_next_offset := 0 |> <| sn_claims := [] |> <| sn_active := false |>
     <| sn_complete := false |>, w).

Definition tr_raft_snapshot_sender_slot_in_use (s : tr_raft_snapshot_sender) (slot : Z)
    : bool :=
  existsb (fun claim => cl_slot claim =? slot) (sn_claims s).

(** The loop of [tr_raft_snapshot_sender_find_free_slot], [remaining] slots
    before its end. *)
Fixpoint find_free_slot (s : tr_raft_snapshot_sender) (slot : Z) (remaining : nat)
    : option Z :=
  match remaining with
  | O => None
  | S remaining =>
      if negb (tr_raft_snapshot_sender_slot_in_use s slot) then Some slot
      else find_free_slot s (slot + 1) remaining
  end.

Definition tr_raft_snapshot_sender_find_free_slot (s : tr_raft_snapshot_sender)
    : status * Z :=
  match find_free_slot s 0 (Z.to_nat (sn_max_inflight_chunks s)) with
  | Some slot => (SALTS_OK, slot)
  | None => (SALTS_EBUSY, 0)
  end.

(** The bytes of a slot of the chunk storage. *)
Definition slot_bytes (s : tr_raft_snapshot_sender) (slot length : Z) : list Z :=
  take (Z.to_nat length) (drop (Z.to_nat (slot * sn_chunk_size s)) (sn_chunk_storage s)).

Definition tr_raft_snapshot_sender_fill_chunk (s : tr_raft_snapshot_sender)
    (claim : tr_snapshot_claim) : tr_raft_snapshot_chunk :=
  SnapshotChunk (sg_self_id (sn_config s)) (sg_peer_id (sn_config s)) (sn_leader_term s)
    (sn_snapshot_index s) (sn_snapshot_term s) (cl_offset claim) (sn_size s) (sn_digest s)
    (cl_offset claim =? 0)
    (if cl_offset claim =? 0 then sn_configuration s else zero_conf)
    (slot_bytes s (cl_slot claim) (cl_length claim))
    (cl_offset claim +64 cl_length claim =? sn_size s).

(** [allocated] is whether [calloc] succeeds, [storage] what [malloc] returns. *)
Definition tr_raft_snapshot_sender_create (config : tr_raft_snapshot_sender_config)
    (allocated : bool) (storage : option (list Z))
    : status * option tr_raft_snapshot_sender :=
  if (sg_self_id config =? 0) || (sg_peer_id config =? 0) ||
     (sg_self_id config =? sg_peer_id config) || (sg_max_snapshot_bytes config =? 0)
  then (SALTS_EINVAL, None)
  else
    let chunk_size := sg_chunk_size config in
    let inflight := sg_max_inflight_chunks config in
    if (chunk_size =? 0) || (TR_RAFT_WIRE_MAX_SNAPSHOT_CHUNK_BYTES <? chunk_size) ||
       (inflight =? 0) || (TR_RAFT_SNAPSHOT_MAX_INFLIGHT_CHUNKS <? inflight) ||
       (UINT64_MAX / inflight <? chunk_size)
    then (SALTS_EINVAL, None)
    else if negb allocated then (SALTS_ENOMEM, None)
    else
      match storage with
      | None => (SALTS_ENOMEM, None)
      | Some storage =>
          (SALTS_OK,
           Some (SnapshotSender config zero_source storage 0 chunk_size inflight zero_digest
                   0 0 0 zero_conf 0 0 [] false false false))
      end.

Definition tr_raft_snapshot_sender_destroy (s : tr_raft_snapshot_sender) (w : W) : W :=
  snd (tr_raft_snapshot_sender_clear_transfer s w).

Definition tr_raft_snapshot_sender_reset (s : tr_raft_snapshot_sender) (w : W)
    : tr_raft_snapshot_sender * W :=
  tr_raft_snapshot_sender_clear_transfer s w.

Definition tr_raft_snapshot_sender_begin_source (s : tr_raft_snapshot_sender)
    (leader_term snapshot_index snapshot_term : Z) (configuration : tr_raft_conf)
    (source : tr_raft_snapshot_source) (w : W) : status * tr_raft_snapshot_sender * W :=
  if is_null (src_read_at source) || failed (tr_raft_conf_validate configuration) ||
     (leader_term =? 0) || (snapshot_index =? 0) || (snapshot_term =? 0) ||
     (leader_term <? snapshot_term) ||
     (sg_max_snapshot_bytes (sn_config s) <? src_size source)
  then (SALTS_EINVAL, s, w)
  else if sn_active s && negb (sn_complete s) then (SALTS_EBUSY, s, w)
  else
    let '(s, w) := tr_raft_snapshot_sender_clear_transfer s w in
    (SALTS_OK,
     s <| sn_source := source |> <| sn_source_owned := true |> <| sn_size := src_size source |>
       <| sn_digest := src_digest source |> <| sn_leader_term := leader_term |>
       <| sn_snapshot_index := snapshot_index |> <| sn_snapshot_term := snapshot_term |>
       <| sn_configuration := configuration |> <| sn_active := true |>, w).

(** [hash] is the call [cmeta_sha256] on the copy of the data; [allocated] is
    whether the two allocations of the copy succeed. *)
Definition tr_raft_snapshot_sender_begin (hash : list Z -> status * list Z)
    (s : tr_raft_snapshot_sender) (leader_term snapshot_index snapshot_term : Z)
    (configuration : tr_raft_conf) (data : list Z) (allocated : bool) (w : W)
    : status * tr_raft_snapshot_sender * W :=
  if sg_max_snapshot_bytes (sn_config s) <? Z.of_nat (length data) then (SALTS_EINVAL, s, w)
  else if negb allocated then (SALTS_ENOMEM, s, w)
  else
    match hash data with
    | (SALTS_OK, digest) =>
        tr_raft_snapshot_sender_begin_source s leader_term snapshot_index snapshot_term
          configuration (memory_source digest data) w
    | (result, _) => (result, s, w)
    end.

(** ** Chunks and acknowledgements *)

(** A call of [read_at]; [tr_raft_snapshot_sender_begin_source] has refused a
    null pointer. *)
Definition source_read (source : tr_raft_snapshot_source) (offset length : Z) (w : W)
    : W * status * list Z :=
  match src_read_at source with
  | Some read_at => read_at w offset length
  | None => (w, SALTS_EINVAL, [])
  end.

Definition tr_raft_snapshot_sender_next_chunk (s : tr_raft_snapshot_sender) (w : W)
    : status * tr_raft_snapshot_sender * W * option tr_raft_snapshot_chunk :=
  if negb (sn_active s) || sn_complete s then (SALTS_EBUSY, s, w, None)
  else if sn_max_inflight_chunks s <=? sn_claim_count s then
    if negb (sn_max_inflight_chunks s =? 1) then (SALTS_EBUSY, s, w, None)
    else (SALTS_OK, s, w,
          Some (tr_raft_snapshot_sender_fill_chunk s (array_get zero_claim (sn_claims s) 0)))
  else if (sn_next_offset s =? sn_size s) && negb (sn_claim_count s =? 0)
  then (SALTS_EBUSY, s, w, None)
  else
    let remaining := sn_size s -64 sn_next_offset s in
    let length := if remaining <? sn_chunk_size s then remaining else sn_chunk_size s in
    match tr_raft_snapshot_sender_find_free_slot s with
    | (SALTS_OK, slot) =>
        let claimed s w :=
          let claim := Claim (sn_next_offset s) length slot in
          let s := s <| sn_claims := sn_claims s ++ [claim] |>
                     <| sn_next_offset := sn_next_offset s +64 length |> in
          (SALTS_OK, s, w, Some (tr_raft_snapshot_sender_fill_chunk s claim)) in
        if negb (length =? 0) then
          let '(w, result, bytes) := source_read (sn_source s) (sn_next_offset s) length w in
          let s := s <| sn_chunk_storage :=
                        store (Z.to_nat (slot * sn_chunk_size s)) bytes (sn_chunk_storage s) |> in
          match result with
          | SALTS_OK =>
              if negb (Z.of_nat (List.length bytes) =? length) then (SALTS_EPROTO, s, w, None)
              else claimed s w
          | _ => (result, s, w, None)
          end
        else claimed s w
    | (result, _) => (result, s, w, None)
    end.

Definition tr_raft_snapshot_sender_cancel_chunk (s : tr_raft_snapshot_sender)
    (snapshot_offset : Z) : status * tr_raft_snapshot_sender :=
  if sn_claim_count s =? 0 then (SALTS_EINVAL, s)
  else
    let claim := array_get zero_claim (sn_claims s) (sn_claim_count s - 1) in
    if negb (cl_offset claim =? snapshot_offset) then (SALTS_EPROTO, s)
    else
      (SALTS_OK,
       s <| sn_next_offset := cl_offset claim |>
         <| sn_claims := take (length (sn_claims s) - 1) (sn_claims s) |>).

Definition tr_raft_snapshot_sender_prepare_resume (s : tr_raft_snapshot_sender)
    : status * tr_raft_snapshot_sender :=
  if negb (sn_active s) || sn_complete s then (SALTS_EBUSY, s)
  else
    (SALTS_OK, s <| sn_next_offset := sn_acknowledged_offset s |> <| sn_claims := [] |>).

Definition claim_end (claim : tr_snapshot_claim) : Z := cl_offset claim +64 cl_length claim.

(** The number of claims that end at or before an offset, from the oldest. *)
Fixpoint released_claims (next_offset : Z) (claims : list tr_snapshot_claim) : nat :=
  match claims with
  | [] => O
  | claim :: rest =>
      if claim_end claim <=? next_offset then S (released_claims next_offset rest) else O
  end.

Definition ack_matches (s : tr_raft_snapshot_sender) (ack : tr_raft_snapshot_ack) : bool :=
  (sa_from ack =? sg_peer_id (sn_config s)) && (sa_to ack =? sg_self_id (sn_config s)) &&
  (sa_term ack =? sn_leader_term s) && (sa_snapshot_index ack =? sn_snapshot_index s) &&
  (sa_snapshot_size ack =? sn_size s) && bool_decide (sa_snapshot_digest ack = sn_digest s).

Definition tr_raft_snapshot_sender_acknowledge (s : tr_raft_snapshot_sender)
    (ack : tr_raft_snapshot_ack) (w : W) : status * tr_raft_snapshot_sender * W :=
  let next_offset := sa_next_offset ack in
  if negb (sn_active s) then (SALTS_EBUSY, s, w)
  else if negb (ack_matches s ack) then (SALTS_EPROTO, s, w)
  else if sn_complete s then
    (if sa_accepted ack && (next_offset =? sn_size s) then SALTS_OK else SALTS_EPROTO, s, w)
  else if (sn_next_offset s <? next_offset) ||
          (negb (next_offset =? sn_size s) && negb (next_offset mod sn_chunk_size s =? 0))
  then (SALTS_EPROTO, s, w)
  else if negb (sa_accepted ack) then
    if sn_acknowledged_offset s <? next_offset then (SALTS_EPROTO, s, w)
    else
      (SALTS_OK,
       s <| sn_acknowledged_offset := next_offset |> <| sn_next_offset := next_offset |>
         <| sn_claims := [] |>, w)
  else if next_offset <? sn_acknowledged_offset s then (SALTS_EPROTO, s, w)
  else if negb ((next_offset =? sn_acknowledged_offset s) ||
                existsb (fun claim => claim_end claim =? next_offset) (sn_claims s))
  then (SALTS_EPROTO, s, w)
  else
    let s := s <| sn_acknowledged_offset := next_offset |>
               <| sn_claims := drop (released_claims next_offset (sn_claims s)) (sn_claims s) |>
               <| sn_complete := next_offset =? sn_size s |> in
    if sn_complete s then
      let '(s, w) := tr_raft_snapshot_sender_release_source s w in (SALTS_OK, s, w)
    else (SALTS_OK, s, w).

Definition tr_raft_snapshot_sender_get_status (s : tr_raft_snapshot_sender)
    : tr_raft_snapshot_sender_status :=
  SenderStatus (sn_active s) (sn_complete s) (sn_leader_term s) (sn_snapshot_index s)
    (sn_snapshot_term s) (sn_size s) (sn_acknowledged_offset s) (sn_next_offset s)
    (sn_claim_count s) (sn_max_inflight_chunks s).

End Sender.

Arguments tr_raft_snapshot_source W : clear implicits.
Arguments tr_raft_snapshot_sender W : clear implicits.
