(* ===== verification/SnapshotReceiver.v ===== *)
(** * Incoming snapshots: [src/snapshot/raft_snapshot_receiver.c]

    A receiver assembles one snapshot from its chunks, checks its digest and
    installs it: either it buffers the bytes and calls [install], or it passes
    them to a sink as they arrive and commits them. The callbacks act on a
    state [W]; they close over their context, and [None] is a null pointer.
    [malloc n] is the block of [n] bytes of unknown content, or [None].
    Pointers to the receiver, a chunk or the result are not null. *)

From S2P Require Import Prelude Configuration Bytes Wire Digest SnapshotSender.
From Stdlib Require Import ZArith Lia.
From stdpp Require Import base numbers list tactics.
Open Scope Z_scope.
Open Scope raft_scope.

Section Receiver.
Context {W : Type}.

(** The arguments after the state: leader term, snapshot index, snapshot term,
    configuration and the bytes. *)
Definition tr_raft_snapshot_install_fn : Type :=
  W -> Z -> Z -> Z -> tr_raft_conf -> list Z -> W * status.

Record tr_raft_snapshot_stream_sink := StreamSink {
  sk_begin : option (W -> Z -> Z -> Z -> tr_raft_conf -> Z -> W * status);
  sk_write : option (W -> Z -> list Z -> W * status);
  sk_commit : option (W -> W * status);
  sk_abort : option (W -> W)
}.

Record tr_raft_snapshot_receiver_config := ReceiverConfig {
  rg_self_id : Z;
  rg_max_snapshot_bytes : Z;
  rg_max_buffered_snapshot_bytes : Z;
  rg_install : option tr_raft_snapshot_install_fn;
  rg_stream : tr_raft_snapshot_stream_sink
}.

Context `{Sha256}.

(** The fields copied from the configuration are [rv_config]. *)
Record tr_raft_snapshot_receiver := SnapshotReceiver {
  rv_config : tr_raft_snapshot_receiver_config;
  rv_leader_id : Z;
  rv_leader_term : Z;
  rv_snapshot_index : Z;
  rv_snapshot_term : Z;
  rv_configuration : tr_raft_conf;
  rv_snapshot_size : Z;
  rv_next_offset : Z;
  rv_digest : list Z;
  rv_data : option (list Z);
  rv_sha256 : sha_stream;
  rv_stream_started : bool;
  rv_active : bool;
  rv_completed : bool
}.

Definition eta_receiver (r : tr_raft_snapshot_receiver) : tr_raft_snapshot_receiver :=
  SnapshotReceiver (rv_config r) (rv_leader_id r) (rv_leader_term r) (rv_snapshot_index r)
    (rv_snapshot_term r) (rv_configuration r) (rv_snapshot_size r) (rv_next_offset r)
    (rv_digest r) (rv_data r) (rv_sha256 r) (rv_stream_started r) (rv_active r)
    (rv_completed r).

#[export] Instance set_rv_leader_id : Setter rv_leader_id :=
  ltac:(setter eta_receiver rv_leader_id).
#[export] Instance set_rv_leader_term : Setter rv_leader_term :=
  ltac:(setter eta_receiver rv_leader_term).
#[export] Instance set_rv_index : Setter rv_snapshot_index :=
  ltac:(setter eta_receiver rv_snapshot_index).
#[export] Instance set_rv_term : Setter rv_snapshot_term :=
  ltac:(setter eta_receiver rv_snapshot_term).
#[export] Instance set_rv_configuration : Setter rv_configuration :=
  ltac:(setter eta_receiver rv_configuration).
#[export] Instance set_rv_size : Setter rv_snapshot_size :=
  ltac:(setter eta_receiver rv_snapshot_size).
#[export] Instance set_rv_next : Setter rv_next_offset :=
  ltac:(setter eta_receiver rv_next_offset).
#[export] Instance set_rv_digest : Setter rv_digest := ltac:(setter eta_receiver rv_digest).
#[export] Instance set_rv_data : Setter rv_data := ltac:(setter eta_receiver rv_data).
#[export] Instance set_rv_sha256 : Setter rv_sha256 := ltac:(setter eta_receiver rv_sha256).
#[export] Instance set_rv_started : Setter rv_stream_started :=
  ltac:(setter eta_receiver rv_stream_started).
#[export] Instance set_rv_active : Setter rv_active := ltac:(setter eta_receiver rv_active).
#[export] Instance set_rv_completed : Setter rv_completed :=
  ltac:(setter eta_receiver rv_completed).

(** ** Calls of the callbacks

    [tr_raft_snapshot_receiver_create] has refused null pointers. *)

Definition sink_write (r : tr_raft_snapshot_receiver) (w : W) (data : list Z) : W * status :=
  match sk_write (rg_stream (rv_config r)) with
  | Some write => write w (rv_next_offset r) data
  | None => (w, SALTS_EINVAL)
  end.

Definition sink_commit (r : tr_raft_snapshot_receiver) (w : W) : W * status :=
  match sk_commit (rg_stream (rv_config r)) with
  | Some commit => commit w
  | None => (w, SALTS_EINVAL)
  end.

Definition sink_abort (r : tr_raft_snapshot_receiver) (w : W) : W :=
  match sk_abort (rg_stream (rv_config r)) with Some abort => abort w | None => w end.

Definition call_install (r : tr_raft_snapshot_receiver) (w : W) : W * status :=
  match rg_install (rv_config r) with
  | Some install =>
      install w (rv_leader_term r) (rv_snapshot_index r) (rv_snapshot_term r)
        (rv_configuration r) (default [] (rv_data r))
  | None => (w, SALTS_EINVAL)
  end.

(** ** Transfers *)

Definition tr_snapshot_receiver_clear_transfer (r : tr_raft_snapshot_receiver) (w : W)
    : tr_raft_snapshot_receiver * W :=
  let '(r, w) := if rv_stream_started r
                 then (r <| rv_stream_started := false |>, sink_abort r w)
                 else (r, w) in
  (r <| rv_data := None |> <| rv_leader_id := 0 |> <| rv_leader_term := 0 |>
     <| rv_snapshot_index := 0 |> <| rv_snapshot_term := 0 |>
     <| rv_configuration := zero_conf |> <| rv_snapshot_size := 0 |>
     <| rv_next_offset := 0 |> <| rv_digest := zero_digest |> <| rv_active := false |>
     <| rv_completed := false |>, w).

Definition tr_snapshot_receiver_chunk_valid (r : tr_raft_snapshot_receiver)
    (c : tr_raft_snapshot_chunk) : bool :=
  if (sc_from c =? 0) || negb (sc_to c =? rg_self_id (rv_config r)) || (sc_term c =? 0) ||
     (sc_snapshot_index c =? 0) || (sc_snapshot_term c =? 0) ||
     (sc_term c <? sc_snapshot_term c) ||
     (rg_max_snapshot_bytes (rv_config r) <? sc_snapshot_size c) ||
     (sc_snapshot_size c <? sc_snapshot_offset c) ||
     (TR_RAFT_WIRE_MAX_SNAPSHOT_CHUNK_BYTES <? sc_data_length c) ||
     (sc_snapshot_size c -64 sc_snapshot_offset c <? sc_data_length c) ||
     ((sc_snapshot_offset c =? 0) &&
      (negb (sc_has_configuration c) ||
       failed (tr_raft_conf_validate (sc_configuration c)))) ||
     (negb (sc_snapshot_offset c =? 0) && sc_has_configuration c)
  then false
  else Bool.eqb (sc_done c)
         (sc_snapshot_offset c +64 sc_data_length c =? sc_snapshot_size c) &&
       (sc_done c || negb (sc_data_length c =? 0)).

(** The loop over the members, up to the count of the receiver's. *)
Fixpoint members_match (ms ns : list tr_raft_conf_member) : bool :=
  match ms, ns with
  | [], _ => true
  | m :: ms, n :: ns =>
      (member_node_id m =? member_node_id n) && (member_roles m =? member_roles n) &&
      members_match ms ns
  | _ :: _, [] => false
  end.

Definition tr_snapshot_receiver_identity_matches (r : tr_raft_snapshot_receiver)
    (c : tr_raft_snapshot_chunk) : bool :=
  if (sc_snapshot_offset c =? 0) &&
     (negb (sc_has_configuration c) ||
      negb (conf_phase (rv_configuration r) =? conf_phase (sc_configuration c)) ||
      negb (conf_transition_id (rv_configuration r) =?
            conf_transition_id (sc_configuration c)) ||
      negb (conf_member_count (rv_configuration r) =?
            conf_member_count (sc_configuration c)) ||
      negb (members_match (conf_members (rv_configuration r))
              (conf_members (sc_configuration c))))
  then false
  else (rv_leader_id r =? sc_from c) && (rv_leader_term r =? sc_term c) &&
       (rv_snapshot_index r =? sc_snapshot_index c) &&
       (rv_snapshot_term r =? sc_snapshot_term c) &&
       (rv_snapshot_size r =? sc_snapshot_size c) &&
       bool_decide (rv_digest r = sc_snapshot_digest c).

Context (malloc : Z -> option (list Z)).

(** The allocation of the buffer. *)
Definition start_buffer (r : tr_raft_snapshot_receiver) (c : tr_raft_snapshot_chunk)
    : status * option (list Z) :=
  if is_null (sk_begin (rg_stream (rv_config r))) && negb (sc_snapshot_size c =? 0) then
    if (rg_max_buffered_snapshot_bytes (rv_config r) <? sc_snapshot_size c) ||
       (UINT64_MAX <? sc_snapshot_size c)
    then (SALTS_EFBIG, None)
    else
      match malloc (sc_snapshot_size c) with
      | Some data => (SALTS_OK, Some data)
      | None => (SALTS_ENOMEM, None)
      end
  else (SALTS_OK, None).

Definition tr_snapshot_receiver_start (r : tr_raft_snapshot_receiver)
    (c : tr_raft_snapshot_chunk) (w : W) : status * tr_raft_snapshot_receiver * W :=
  match start_buffer r c with
  | (SALTS_OK, data) =>
      let '(r, w) := tr_snapshot_receiver_clear_transfer r w in
      let r := r <| rv_leader_id := sc_from c |> <| rv_leader_term := sc_term c |>
                 <| rv_snapshot_index := sc_snapshot_index c |>
                 <| rv_snapshot_term := sc_snapshot_term c |>
                 <| rv_configuration := sc_configuration c |>
                 <| rv_snapshot_size := sc_snapshot_size c |>
                 <| rv_digest := sc_snapshot_digest c |> <| rv_data := data |>
                 <| rv_active := true |> <| rv_completed := false |> in
      let '(result, sha) := cmeta_sha256_stream_reset (rv_sha256 r) in
      let r := r <| rv_sha256 := sha |> in
      match result with
      | SALTS_OK =>
          match sk_begin (rg_stream (rv_config r)) with
          | Some begin =>
              let '(w, result) :=
                begin w (rv_leader_term r) (rv_snapshot_index r) (rv_snapshot_term r)
                  (rv_configuration r) (rv_snapshot_size r) in
              match result with
              | SALTS_OK => (SALTS_OK, r <| rv_stream_started := true |>, w)
              | _ => let '(r, w) := tr_snapshot_receiver_clear_transfer r w in (result, r, w)
              end
          | None => (SALTS_OK, r, w)
          end
      | _ => let '(r, w) := tr_snapshot_receiver_clear_transfer r w in (SALTS_EPROTO, r, w)
      end
  | (result, _) => (result, r, w)
  end.

(** The acknowledgement of [tr_snapshot_receiver_prepare_ack], with the two
    fields the handler fills in. *)
Definition tr_snapshot_receiver_prepare_ack (r : tr_raft_snapshot_receiver)
    (c : tr_raft_snapshot_chunk) (next_offset : Z) (accepted : bool)
    : tr_raft_snapshot_ack :=
  SnapshotAck (rg_self_id (rv_config r)) (sc_from c) (sc_term c) (sc_snapshot_index c)
    (sc_snapshot_size c) next_offset (sc_snapshot_digest c) accepted.

(** [sha] is the digest stream [cmeta_sha256_stream_create] returns, or its
    error; [allocated] is whether [calloc] succeeds. *)
Definition tr_raft_snapshot_receiver_create (config : tr_raft_snapshot_receiver_config)
    (allocated : bool) (sha : status * sha_stream)
    : status * option tr_raft_snapshot_receiver :=
  if (rg_self_id config =? 0) || (rg_max_snapshot_bytes config =? 0)
  then (SALTS_EINVAL, None)
  else if Bool.eqb (is_null (rg_install config)) (is_null (sk_begin (rg_stream config)))
  then (SALTS_EINVAL, None)
  else if negb (is_null (rg_install config)) &&
          ((rg_max_buffered_snapshot_bytes config =? 0) ||
           (rg_max_snapshot_bytes config <? rg_max_buffered_snapshot_bytes config))
  then (SALTS_EINVAL, None)
  else if negb (is_null (sk_begin (rg_stream config))) &&
          (negb (rg_max_buffered_snapshot_bytes config =? 0) ||
           is_null (sk_write (rg_stream config)) || is_null (sk_commit (rg_stream config)) ||
           is_null (sk_abort (rg_stream config)))
  then (SALTS_EINVAL, None)
  else if negb allocated then (SALTS_ENOMEM, None)
  else
    match sha with
    | (SALTS_OK, sha) =>
        (SALTS_OK,
         Some (SnapshotReceiver config 0 0 0 0 zero_conf 0 0 zero_digest None sha false false
                 false))
    | (result, _) => (result, None)
    end.

Definition tr_raft_snapshot_receiver_destroy (r : tr_raft_snapshot_receiver) (w : W) : W :=
  snd (tr_snapshot_receiver_clear_transfer r w).

Definition tr_raft_snapshot_receiver_reset (r : tr_raft_snapshot_receiver) (w : W)
    : tr_raft_snapshot_receiver * W :=
  tr_snapshot_receiver_clear_transfer r w.

(** ** The handler

    The result of a call: its status, the acknowledgement and whether the
    snapshot has been installed. *)

Definition receive_result : Type :=
  status * tr_raft_snapshot_receiver * W * tr_raft_snapshot_ack * bool.

(** The end of the snapshot: its digest, then its installation. *)
Definition finish_transfer (r : tr_raft_snapshot_receiver) (c : tr_raft_snapshot_chunk) (w : W)
    : receive_result :=
  let rejected result r w :=
    let '(r, w) := tr_snapshot_receiver_clear_transfer r w in
    (result, r, w, tr_snapshot_receiver_prepare_ack r c 0 false, false) in
  let '(result, sha, digest) := cmeta_sha256_stream_finish (rv_sha256 r) in
  let r := r <| rv_sha256 := sha |> in
  if failed result || negb (bool_decide (digest = rv_digest r)) then
    rejected SALTS_EPROTO r w
  else
    let '(w, result) := if rv_stream_started r then sink_commit r w else call_install r w in
    match result with
    | SALTS_OK =>
        (SALTS_OK,
         r <| rv_stream_started := false |> <| rv_data := None |> <| rv_completed := true |>, w,
         tr_snapshot_receiver_prepare_ack r c (rv_next_offset r) true, true)
    | _ => rejected result r w
    end.

(** The bytes of the chunk: the digest, then the sink or the buffer. *)
Definition absorb (r : tr_raft_snapshot_receiver) (c : tr_raft_snapshot_chunk) (w : W)
    : status * tr_raft_snapshot_receiver * W :=
  if negb (sc_data_length c =? 0) then
    let '(result, sha) := cmeta_sha256_stream_update (rv_sha256 r) (sc_data c) in
    let r := r <| rv_sha256 := sha |> in
    match result with
    | SALTS_OK =>
        if rv_stream_started r then
          let '(w, result) := sink_write r w (sc_data c) in (result, r, w)
        else
          (SALTS_OK,
           r <| rv_data := Some (store (Z.to_nat (rv_next_offset r)) (sc_data c)
                                   (default [] (rv_data r))) |>, w)
    | _ => (SALTS_EPROTO, r, w)
    end
  else (SALTS_OK, r, w).

(** What follows the check of the identity. *)
Definition receive (r : tr_raft_snapshot_receiver) (c : tr_raft_snapshot_chunk) (w : W)
    : receive_result :=
  let ack := tr_snapshot_receiver_prepare_ack r c in
  if rv_completed r then (SALTS_OK, r, w, ack (rv_next_offset r) true, false)
  else if sc_snapshot_offset c <? rv_next_offset r
  then (SALTS_OK, r, w, ack (rv_next_offset r) true, false)
  else if negb (sc_snapshot_offset c =? rv_next_offset r)
  then (SALTS_EPROTO, r, w, ack (rv_next_offset r) false, false)
  else
    let '(result, r, w) := absorb r c w in
    match result with
    | SALTS_OK =>
        let r := r <| rv_next_offset := rv_next_offset r +64 sc_data_length c |> in
        if negb (sc_done c) then (SALTS_OK, r, w, ack (rv_next_offset r) true, false)
        else finish_transfer r c w
    | _ =>
        let '(r, w) := tr_snapshot_receiver_clear_transfer r w in
        (result, r, w, ack 0 false, false)
    end.

Definition tr_raft_snapshot_receiver_handle (r : tr_raft_snapshot_receiver)
    (c : tr_raft_snapshot_chunk) (w : W) : receive_result :=
  let ack := tr_snapshot_receiver_prepare_ack r c in
  let started :=
    match tr_snapshot_receiver_start r c w with
    | (SALTS_OK, r, w) => receive r c w
    | (result, r, w) => (result, r, w, ack 0 false, false)
    end in
  if negb (tr_snapshot_receiver_chunk_valid r c) then (SALTS_EPROTO, r, w, ack 0 false, false)
  else if negb (rv_active r) then
    if negb (sc_snapshot_offset c =? 0) then (SALTS_EPROTO, r, w, ack 0 false, false)
    else started
  else if negb (tr_snapshot_receiver_identity_matches r c) then
    if negb (sc_snapshot_offset c =? 0) || (sc_snapshot_index c <=? rv_snapshot_index r) ||
       (sc_term c <? rv_leader_term r)
    then (SALTS_EPROTO, r, w, ack (rv_next_offset r) false, false)
    else started
  else receive r c w.

End Receiver.

Arguments tr_raft_snapshot_stream_sink W : clear implicits.
Arguments tr_raft_snapshot_receiver_config W : clear implicits.
Arguments tr_raft_snapshot_receiver W {_}.
