(* ===== verification/Wal.v ===== *)
(** * The write-ahead log: [src/storage/raft_wal_storage.c]

    The log is a range of segment files, a manifest that names the range, and
    one file for the snapshot. A transaction is a frame in the last segment;
    opening the storage replays the frames. The calls of the system are those
    of [Os]; the state [e] of the system is passed along.

    The buffer [transaction] is the list [wl_payload] of the bytes after the
    header of the frame, so that [transaction_used] is their number plus the
    size of the header while a transaction is active. The first [entry_count]
    elements of [entries] are the list [rc_entries]; the deprecated field
    [snapshot_data] is always null. The functions for tests, the fault hooks
    they install and the hooks' null checks are left out: in production both
    hooks have their defaults. Pointers are not null. *)

From S2P Require Import Prelude Configuration Bytes Wire Digest Os SnapshotSender.
From Stdlib Require Import ZArith Lia.
From stdpp Require Import base numbers list tactics strings.
Open Scope Z_scope.
Open Scope raft_scope.

(** ** Constants *)

Definition bytes_of (s : string) : list Z :=
  (fun a => Z.of_nat (Ascii.nat_of_ascii a)) <$> String.list_ascii_of_string s.

Definition TR_RAFT_WAL_MIN_SEGMENT_BYTES : Z := 64 * 1024.
Definition TR_RAFT_WAL_DEFAULT_SEGMENT_BYTES : Z := 64 * 1024 * 1024.
Definition TR_RAFT_WAL_DEFAULT_TRANSACTION_BYTES : Z := 256 * 1024.
Definition TR_RAFT_WAL_MAX_LIVE_SEGMENTS : Z := 65535.
Definition TR_RAFT_WAL_DEFAULT_MAX_SNAPSHOT_BYTES : Z := 256 * 1024 * 1024.

Definition TR_WAL_FORMAT_VERSION : Z := 1.
Definition TR_WAL_SEGMENT_HEADER_SIZE : Z := 32.
Definition TR_WAL_TRANSACTION_HEADER_SIZE : Z := 48.
Definition TR_WAL_OPERATION_HEADER_SIZE : Z := 8.
Definition TR_WAL_SEGMENT_MAGIC : list Z := bytes_of "TRSEG001".
Definition TR_WAL_TRANSACTION_MAGIC : list Z := bytes_of "TRWAL001".
Definition TR_WAL_SNAPSHOT_MAGIC : list Z := bytes_of "TRSNP001".
Definition TR_WAL_SNAPSHOT_HEADER_SIZE : Z := 48.
Definition TR_WAL_MANIFEST_MAGIC : list Z := bytes_of "TRMAN001".
Definition TR_WAL_MANIFEST_HEADER_SIZE : Z := 40.

Definition TR_WAL_OP_HARD_STATE : Z := 1.
Definition TR_WAL_OP_TRUNCATE : Z := 2.
Definition TR_WAL_OP_ENTRY : Z := 3.
Definition TR_WAL_OP_COMMIT_INDEX : Z := 4.
Definition TR_WAL_OP_SNAPSHOT : Z := 5.

Definition TR_RAFT_CONF_MAX_ENCODED_SIZE : Z :=
  TR_RAFT_CONF_HEADER_SIZE + TR_RAFT_MAX_MEMBERS * TR_RAFT_CONF_MEMBER_SIZE.

Definition INT_MAX : Z := 2 ^ 31 - 1.

(** ** Little-endian words *)

Definition tr_wal_put_u32 (value : Z) : list Z :=
  [u8 value; u8 (Z.shiftr value 8); u8 (Z.shiftr value 16); u8 (Z.shiftr value 24)].

Definition tr_wal_put_u64 (value : Z) : list Z :=
  (fun index => u8 (Z.shiftr value (8 * Z.of_nat index))) <$> seq 0 8.

Definition tr_wal_get_u32 (input : list Z) : Z :=
  Z.lor
    (Z.lor (Z.lor (byte_at input 0) (u32 (Z.shiftl (byte_at input 1) 8)))
       (u32 (Z.shiftl (byte_at input 2) 16)))
    (u32 (Z.shiftl (byte_at input 3) 24)).

Definition tr_wal_get_u64 (input : list Z) : Z :=
  fold_left (fun value index =>
    Z.lor value (u64 (Z.shiftl (byte_at input index) (8 * Z.of_nat index)))) (seq 0 8) 0.

#[global] Arguments tr_wal_put_u32 : simpl never.
#[global] Arguments tr_wal_put_u64 : simpl never.
#[global] Arguments tr_wal_get_u32 : simpl never.
#[global] Arguments tr_wal_get_u64 : simpl never.

(** ** File names *)

(** The conversions [%llu] and [%08llu] of [snprintf]; 64 bits have at most
    twenty digits. *)
Fixpoint print_loop (fuel : nat) (n : Z) (digits : list Z) : list Z :=
  let digits := 48 + n mod 10 :: digits in
  match fuel with
  | O => digits
  | S fuel => if n / 10 =? 0 then digits else print_loop fuel (n / 10) digits
  end.

Definition print_llu (n : Z) : list Z := print_loop 19 n [].

Definition print_08llu (n : Z) : list Z :=
  let digits := print_llu n in replicate (8 - length digits) 48 ++ digits.

(** ** Data *)

Record tr_raft_wal_storage_config := WalConfig {
  wc_path_prefix : list Z;
  wc_segment_bytes : Z;
  wc_max_transaction_bytes : Z;
  wc_max_live_segments : Z;
  wc_max_log_entries : Z;
  wc_max_snapshot_bytes : Z;
  wc_create_if_missing : bool
}.

Section Wal.
Context `{Os} `{Xxh3}.

Record tr_raft_wal_storage := WalStorage {
  wl_path_prefix : list Z;
  wl_transaction_capacity : Z;
  wl_segment_bytes : Z;
  wl_max_live_segments : Z;
  wl_max_log_entries : Z;
  wl_max_snapshot_bytes : Z;
  wl_current_path : list Z;
  wl_lock_file : option os_file;
  wl_current_file : option os_file;
  wl_payload : list Z;
  wl_first_live_segment : Z;
  wl_current_segment : Z;
  wl_current_offset : Z;
  wl_last_transaction_id : Z;
  wl_process_lock_registered : bool;
  wl_term : Z;
  wl_voted_for : Z;
  wl_commit_index : Z;
  wl_last_log_index : Z;
  wl_snapshot_index : Z;
  wl_snapshot_term : Z;
  wl_pending_term : Z;
  wl_pending_voted_for : Z;
  wl_pending_commit_index : Z;
  wl_pending_last_log_index : Z;
  wl_transaction_active : bool;
  wl_faulted : bool
}.

Definition eta_wal (s : tr_raft_wal_storage) : tr_raft_wal_storage :=
  WalStorage (wl_path_prefix s) (wl_transaction_capacity s) (wl_segment_bytes s)
    (wl_max_live_segments s) (wl_max_log_entries s) (wl_max_snapshot_bytes s)
    (wl_current_path s) (wl_lock_file s) (wl_current_file s) (wl_payload s)
    (wl_first_live_segment s) (wl_current_segment s) (wl_current_offset s)
    (wl_last_transaction_id s) (wl_process_lock_registered s) (wl_term s) (wl_voted_for s)
    (wl_commit_index s) (wl_last_log_index s) (wl_snapshot_index s) (wl_snapshot_term s)
    (wl_pending_term s) (wl_pending_voted_for s) (wl_pending_commit_index s)
    (wl_pending_last_log_index s) (wl_transaction_active s) (wl_faulted s).

#[export] Instance set_wl_path : Setter wl_current_path := ltac:(setter eta_wal wl_current_path).
#[export] Instance set_wl_lock : Setter wl_lock_file := ltac:(setter eta_wal wl_lock_file).
#[export] Instance set_wl_file : Setter wl_current_file := ltac:(setter eta_wal wl_current_file).
#[export] Instance set_wl_payload : Setter wl_payload := ltac:(setter eta_wal wl_payload).
#[export] Instance set_wl_first : Setter wl_first_live_segment :=
  ltac:(setter eta_wal wl_first_live_segment).
#[export] Instance set_wl_segment : Setter wl_current_segment :=
  ltac:(setter eta_wal wl_current_segment).
#[export] Instance set_wl_offset : Setter wl_current_offset :=
  ltac:(setter eta_wal wl_current_offset).
#[export] Instance set_wl_last_id : Setter wl_last_transaction_id :=
  ltac:(setter eta_wal wl_last_transaction_id).
#[export] Instance set_wl_registered : Setter wl_process_lock_registered :=
  ltac:(setter eta_wal wl_process_lock_registered).
#[export] Instance set_wl_term : Setter wl_term := ltac:(setter eta_wal wl_term).
#[export] Instance set_wl_voted : Setter wl_voted_for := ltac:(setter eta_wal wl_voted_for).
#[export] Instance set_wl_commit : Setter wl_commit_index := ltac:(setter eta_wal wl_commit_index).
#[export] Instance set_wl_last : Setter wl_last_log_index := ltac:(setter eta_wal wl_last_log_index).
#[export] Instance set_wl_sindex : Setter wl_snapshot_index :=
  ltac:(setter eta_wal wl_snapshot_index).
#[export] Instance set_wl_sterm : Setter wl_snapshot_term := ltac:(setter eta_wal wl_snapshot_term).
#[export] Instance set_wl_pterm : Setter wl_pending_term := ltac:(setter eta_wal wl_pending_term).
#[export] Instance set_wl_pvoted : Setter wl_pending_voted_for :=
  ltac:(setter eta_wal wl_pending_voted_for).
#[export] Instance set_wl_pcommit : Setter wl_pending_commit_index :=
  ltac:(setter eta_wal wl_pending_commit_index).
#[export] Instance set_wl_plast : Setter wl_pending_last_log_index :=
  ltac:(setter eta_wal wl_pending_last_log_index).
#[export] Instance set_wl_active : Setter wl_transaction_active :=
  ltac:(setter eta_wal wl_transaction_active).
#[export] Instance set_wl_faulted : Setter wl_faulted := ltac:(setter eta_wal wl_faulted).

Record tr_raft_wal_recovery := WalRecovery {
  rc_term : Z;
  rc_voted_for : Z;
  rc_commit_index : Z;
  rc_snapshot_index : Z;
  rc_snapshot_term : Z;
  rc_has_snapshot_configuration : bool;
  rc_snapshot_configuration : tr_raft_conf;
  rc_snapshot_size : Z;
  rc_snapshot_source : tr_raft_snapshot_source os;
  rc_entries : list tr_raft_entry
}.

Definition eta_recovery (r : tr_raft_wal_recovery) : tr_raft_wal_recovery :=
  WalRecovery (rc_term r) (rc_voted_for r) (rc_commit_index r) (rc_snapshot_index r)
    (rc_snapshot_term r) (rc_has_snapshot_configuration r) (rc_snapshot_configuration r)
    (rc_snapshot_size r) (rc_snapshot_source r) (rc_entries r).

#[export] Instance set_rc_term : Setter rc_term := ltac:(setter eta_recovery rc_term).
#[export] Instance set_rc_voted : Setter rc_voted_for := ltac:(setter eta_recovery rc_voted_for).
#[export] Instance set_rc_commit : Setter rc_commit_index :=
  ltac:(setter eta_recovery rc_commit_index).
#[export] Instance set_rc_sindex : Setter rc_snapshot_index :=
  ltac:(setter eta_recovery rc_snapshot_index).
#[export] Instance set_rc_sterm : Setter rc_snapshot_term :=
  ltac:(setter eta_recovery rc_snapshot_term).
#[export] Instance set_rc_has : Setter rc_has_snapshot_configuration :=
  ltac:(setter eta_recovery rc_has_snapshot_configuration).
#[export] Instance set_rc_conf : Setter rc_snapshot_configuration :=
  ltac:(setter eta_recovery rc_snapshot_configuration).
#[export] Instance set_rc_size : Setter rc_snapshot_size :=
  ltac:(setter eta_recovery rc_snapshot_size).
#[export] Instance set_rc_source : Setter rc_snapshot_source :=
  ltac:(setter eta_recovery rc_snapshot_source).
#[export] Instance set_rc_entries : Setter rc_entries := ltac:(setter eta_recovery rc_entries).

Definition rc_entry_count (r : tr_raft_wal_recovery) : Z := Z.of_nat (length (rc_entries r)).

(** The recovery after [memset] to zero. *)
Definition zero_recovery : tr_raft_wal_recovery :=
  WalRecovery 0 0 0 0 0 false zero_conf 0 zero_source [].

(** ** Locks within the process

    [tr_wal_process_locks] is the list of the prefixes in use. *)

Definition tr_wal_process_lock_acquire (path_prefix : list Z) (locks : list (list Z)) (e : os)
    : os * list (list Z) * status :=
  if SALTS_FS_MAX_PATH <=? Z.of_nat (length path_prefix)
  then (e, locks, SALTS_ENAMETOOLONG)
  else
    let '(e, allocated) := os_malloc e in
    if negb allocated then (e, locks, SALTS_ENOMEM)
    else if bool_decide (path_prefix ∈ locks) then (e, locks, SALTS_EBUSY)
    else (e, path_prefix :: locks, SALTS_OK).

Fixpoint tr_wal_process_lock_release (path_prefix : list Z) (locks : list (list Z))
    : list (list Z) :=
  match locks with
  | [] => []
  | lock :: locks =>
      if bool_decide (lock = path_prefix) then locks
      else lock :: tr_wal_process_lock_release path_prefix locks
  end.

(** ** Paths *)

(** [snprintf] into a buffer of [SALTS_FS_MAX_PATH] bytes. *)
Definition fitting_path (p : path) : status * path :=
  (if SALTS_FS_MAX_PATH <=? Z.of_nat (length p) then SALTS_ENAMETOOLONG else SALTS_OK, p).

Definition tr_wal_segment_path (prefix : list Z) (sequence : Z) : status * path :=
  fitting_path (prefix ++ bytes_of "." ++ print_08llu sequence ++ bytes_of ".wal").

Definition tr_wal_manifest_path (prefix suffix : list Z) : status * path :=
  fitting_path (prefix ++ bytes_of ".manifest" ++ suffix).

Definition tr_wal_snapshot_path (prefix : list Z) (index term : Z) (suffix : list Z)
    : status * path :=
  fitting_path (prefix ++ bytes_of ".snapshot." ++ print_llu index ++ bytes_of "." ++
                print_llu term ++ suffix).

Definition lock_path (prefix : list Z) : path := prefix ++ bytes_of ".lock".

(** ** Reading and writing *)

(** Every call that goes on writes a byte, so the bytes bound the loop. *)
Fixpoint write_loop (fuel : nat) (e : os) (f : os_file) (data : list Z) : os * status :=
  match data with
  | [] => (e, SALTS_OK)
  | _ =>
      match fuel with
      | O => (e, SALTS_EIO)
      | S fuel =>
          match cmeta_fs_write e f data with
          | (e, inr error) => (e, SALTS_ERR error)
          | (e, inl written) =>
              if written <=? 0 then (e, SALTS_EIO)
              else write_loop fuel e f (drop (Z.to_nat written) data)
          end
      end
  end.

Definition tr_wal_write_all (e : os) (f : os_file) (data : list Z) : os * status :=
  write_loop (length data) e f data.

Definition tr_wal_pwrite_exact (e : os) (f : os_file) (data : list Z) (offset : Z)
    : os * status :=
  match cmeta_fs_pwrite e f data offset with
  | (e, inl written) =>
      (e, if written =? Z.of_nat (length data) then SALTS_OK else SALTS_EIO)
  | (e, inr _) => (e, SALTS_EIO)
  end.

(** Every call that goes on reads a byte. The bytes read so far are [used]. *)
Fixpoint read_loop (fuel : nat) (e : os) (f : os_file) (offset size : Z) (used : list Z)
    : os * status * list Z :=
  if size <=? Z.of_nat (length used) then (e, SALTS_OK, used)
  else
    match fuel with
    | O => (e, SALTS_EIO, used)
    | S fuel =>
        match cmeta_fs_pread e f (size - Z.of_nat (length used))
                (offset + Z.of_nat (length used)) with
        | (e, inr error) => (e, SALTS_ERR error, used)
        | (e, inl []) => (e, SALTS_EIO, used)
        | (e, inl bytes) => read_loop fuel e f offset size (used ++ bytes)
        end
    end.

Definition tr_wal_read_exact (e : os) (f : os_file) (offset size : Z) : os * status * list Z :=
  read_loop (Z.to_nat size) e f offset size [].

(** Closing a file after an operation with this result. *)
Definition close_after (e : os) (f : os_file) (result : status) : os * status :=
  let '(e, close_result) := cmeta_fs_close e f in
  (e, if ok result then close_result else result).

(** Publishing a temporary file that has been written with this result. *)
Definition publish (s : tr_raft_wal_storage) (e : os) (temporary_path final_path : path)
    (result : status) : os * status * tr_raft_wal_storage :=
  let '(e, result, state) :=
    if ok result then cmeta_fs_replace_durable e temporary_path final_path
    else (e, result, REPLACE_NOT_PUBLISHED) in
  if ok result then (e, result, s)
  else
    match state with
    | REPLACE_NOT_PUBLISHED => let '(e, _) := cmeta_fs_unlink e temporary_path in (e, result, s)
    | _ => (e, result, s <| wl_faulted := true |>)
    end.

(** ** The manifest *)

Definition tr_wal_manifest_checksum (header : list Z) : Z := XXH3_64bits (take 32 header).

Definition manifest_header (first_live last_live : Z) : list Z :=
  let header := TR_WAL_MANIFEST_MAGIC ++ tr_wal_put_u32 TR_WAL_FORMAT_VERSION ++
                tr_wal_put_u32 TR_WAL_MANIFEST_HEADER_SIZE ++
                tr_wal_put_u64 first_live ++ tr_wal_put_u64 last_live in
  header ++ tr_wal_put_u64 (tr_wal_manifest_checksum header).

Definition tr_wal_live_range_valid (s : tr_raft_wal_storage) (first_live last_live : Z) : bool :=
  if (first_live =? 0) || (last_live <? first_live) || (wl_max_live_segments s =? 0) then false
  else last_live -64 first_live <? wl_max_live_segments s.

(** The live range, when there is a manifest. *)
Definition tr_wal_read_manifest (s : tr_raft_wal_storage) (e : os)
    : os * status * option (Z * Z) :=
  let '(result, path) := tr_wal_manifest_path (wl_path_prefix s) [] in
  if failed result then (e, result, None)
  else
    let '(e, access) := cmeta_fs_access e path in
    if failed access then (e, SALTS_OK, None)
    else
      let '(e, result, stat) := cmeta_fs_stat e path in
      if failed result || negb (fs_is_file stat) ||
         negb (fs_size stat =? TR_WAL_MANIFEST_HEADER_SIZE)
      then (e, SALTS_EPROTO, None)
      else
        match cmeta_fs_open e path RDONLY with
        | (e, None) => (e, SALTS_EIO, None)
        | (e, Some f) =>
            let '(e, result, header) := tr_wal_read_exact e f 0 TR_WAL_MANIFEST_HEADER_SIZE in
            let '(e, result) := close_after e f result in
            if failed result then (e, result, None)
            else if negb (bool_decide (take 8 header = TR_WAL_MANIFEST_MAGIC)) ||
                    negb (tr_wal_get_u32 (drop 8 header) =? TR_WAL_FORMAT_VERSION) ||
                    negb (tr_wal_get_u32 (drop 12 header) =? TR_WAL_MANIFEST_HEADER_SIZE) ||
                    negb (tr_wal_get_u64 (drop 32 header) =? tr_wal_manifest_checksum header)
            then (e, SALTS_EPROTO, None)
            else
              let first_live := tr_wal_get_u64 (drop 16 header) in
              let last_live := tr_wal_get_u64 (drop 24 header) in
              if negb (tr_wal_live_range_valid s first_live last_live)
              then (e, SALTS_EPROTO, None)
              else (e, SALTS_OK, Some (first_live, last_live))
        end.

Definition tr_wal_write_manifest (s : tr_raft_wal_storage) (first_live last_live : Z) (e : os)
    : os * status * tr_raft_wal_storage :=
  if negb (tr_wal_live_range_valid s first_live last_live) then (e, SALTS_EINVAL, s)
  else
    let '(result, path) := tr_wal_manifest_path (wl_path_prefix s) [] in
    let '(result', temporary_path) :=
      tr_wal_manifest_path (wl_path_prefix s) (bytes_of ".tmp") in
    let result := if ok result then result' else result in
    if failed result then (e, result, s)
    else
      match cmeta_fs_open e temporary_path RDWR_CREAT_TRUNC with
      | (e, None) => (e, SALTS_EIO, s)
      | (e, Some f) =>
          let '(e, result) := tr_wal_write_all e f (manifest_header first_live last_live) in
          let '(e, result) := close_after e f result in
          publish s e temporary_path path result
      end.

(** ** Snapshot files *)

Definition snapshot_header (index term size checksum : Z) : list Z :=
  TR_WAL_SNAPSHOT_MAGIC ++ tr_wal_put_u32 TR_WAL_FORMAT_VERSION ++
  tr_wal_put_u32 TR_WAL_SNAPSHOT_HEADER_SIZE ++ tr_wal_put_u64 index ++ tr_wal_put_u64 term ++
  tr_wal_put_u64 size ++ tr_wal_put_u64 checksum.

Definition tr_wal_memory_snapshot_read (data : list Z) (offset capacity : Z)
    : status * list Z :=
  let size := Z.of_nat (length data) in
  if (size <? offset) || (size -64 offset <? capacity) then (SALTS_EINVAL, [])
  else (SALTS_OK, take (Z.to_nat capacity) (drop (Z.to_nat offset) data)).

(** A source that reads the file of a snapshot; its release frees its path. *)
Definition tr_wal_snapshot_file_source_read (file_path : path) (size : Z) (e : os)
    (offset capacity : Z) : os * status * list Z :=
  if (size <? offset) || (size -64 offset <? capacity) then (e, SALTS_EINVAL, [])
  else if capacity =? 0 then (e, SALTS_OK, [])
  else
    match cmeta_fs_open e file_path RDONLY with
    | (e, None) => (e, SALTS_EIO, [])
    | (e, Some f) =>
        let '(e, result, bytes) :=
          tr_wal_read_exact e f (TR_WAL_SNAPSHOT_HEADER_SIZE + offset) capacity in
        let '(e, result) := close_after e f result in
        (e, result, if ok result then bytes else [])
    end.

Definition snapshot_file_source (file_path : path) (size : Z) (digest : list Z)
    : tr_raft_snapshot_source os :=
  SnapshotSource size digest (Some (tr_wal_snapshot_file_source_read file_path size))
    (Some (fun e => e)).

(** The checksum in the header of a snapshot file, and its path. *)
Definition tr_wal_snapshot_file_header (s : tr_raft_wal_storage)
    (index term expected_size : Z) (e : os) : os * status * Z * path :=
  let '(result, path) := tr_wal_snapshot_path (wl_path_prefix s) index term [] in
  if failed result then (e, result, 0, path)
  else
    let '(e, result, stat) := cmeta_fs_stat e path in
    if failed result || negb (fs_is_file stat) ||
       negb (fs_size stat =? TR_WAL_SNAPSHOT_HEADER_SIZE +64 expected_size)
    then (e, SALTS_EPROTO, 0, path)
    else
      match cmeta_fs_open e path RDONLY with
      | (e, None) => (e, SALTS_EIO, 0, path)
      | (e, Some f) =>
          let '(e, result, header) := tr_wal_read_exact e f 0 TR_WAL_SNAPSHOT_HEADER_SIZE in
          let '(e, result) := close_after e f result in
          if failed result then (e, result, 0, path)
          else if negb (bool_decide (take 8 header = TR_WAL_SNAPSHOT_MAGIC)) ||
                  negb (tr_wal_get_u32 (drop 8 header) =? TR_WAL_FORMAT_VERSION) ||
                  negb (tr_wal_get_u32 (drop 12 header) =? TR_WAL_SNAPSHOT_HEADER_SIZE) ||
                  negb (tr_wal_get_u64 (drop 16 header) =? index) ||
                  negb (tr_wal_get_u64 (drop 24 header) =? term) ||
                  negb (tr_wal_get_u64 (drop 32 header) =? expected_size)
          then (e, SALTS_EPROTO, 0, path)
          else (e, SALTS_OK, tr_wal_get_u64 (drop 40 header), path)
      end.

(** The loop that reads the bytes of a snapshot file into the two digests. *)
Fixpoint digest_loop (fuel : nat) (e : os) (path : path) (size offset : Z)
    (xxh : xxh_state) (sha : sha_stream) : os * status * xxh_state * sha_stream :=
  if size <=? offset then (e, SALTS_OK, xxh, sha)
  else
    match fuel with
    | O => (e, SALTS_EIO, xxh, sha)
    | S fuel =>
        let request := Z.min TR_RAFT_WIRE_MAX_SNAPSHOT_CHUNK_BYTES (size - offset) in
        match cmeta_fs_open e path RDONLY with
        | (e, None) => (e, SALTS_EIO, xxh, sha)
        | (e, Some f) =>
            let '(e, result, bytes) :=
              tr_wal_read_exact e f (TR_WAL_SNAPSHOT_HEADER_SIZE + offset) request in
            let '(e, result) := close_after e f result in
            if failed result then (e, result, xxh, sha)
            else
              let '(updated, xxh) := XXH3_64bits_update xxh bytes in
              if negb updated then (e, SALTS_EIO, xxh, sha)
              else
                let '(result, sha) := cmeta_sha256_stream_update sha bytes in
                if failed result then (e, SALTS_EIO, xxh, sha)
                else digest_loop fuel e path size (offset + request) xxh sha
        end
    end.

Definition tr_wal_read_snapshot_file (s : tr_raft_wal_storage) (recovery : tr_raft_wal_recovery)
    (expected_checksum : Z) (expected_digest : option (list Z)) (e : os)
    : os * status * tr_raft_wal_recovery :=
  let size := rc_snapshot_size recovery in
  let '(e, result, header_checksum, path) :=
    tr_wal_snapshot_file_header s (rc_snapshot_index recovery) (rc_snapshot_term recovery)
      size e in
  if failed result then (e, result, recovery)
  else if negb (header_checksum =? expected_checksum) then (e, SALTS_EPROTO, recovery)
  else
    let '(e, buffer) := os_malloc e in
    let '(e, state) := os_malloc e in
    if negb buffer || negb state then (e, SALTS_ENOMEM, recovery)
    else
      let '(e, (result, sha)) := cmeta_sha256_stream_create e in
      if failed result then (e, result, recovery)
      else
        let '(reset, xxh) := XXH3_64bits_reset XXH3_createState in
        if negb reset then (e, SALTS_EIO, recovery)
        else
          let '(e, result, xxh, sha) := digest_loop (Z.to_nat size) e path size 0 xxh sha in
          if failed result then (e, result, recovery)
          else if negb (XXH3_64bits_digest xxh =? expected_checksum)
          then (e, SALTS_EPROTO, recovery)
          else
            let '(result, sha, digest) := cmeta_sha256_stream_finish sha in
            if failed result then (e, SALTS_EPROTO, recovery)
            else if match expected_digest with
                    | Some expected => negb (bool_decide (digest = expected))
                    | None => false
                    end
            then (e, SALTS_EPROTO, recovery)
            else
              let '(e, context) := os_malloc e in
              if negb context then (e, SALTS_ENOMEM, recovery)
              else (e, SALTS_OK,
                    recovery <| rc_snapshot_source := snapshot_file_source path size digest |>).

(** The loop that copies a source into a file. A source that reports no byte
    ends it, so the size bounds it. *)
Fixpoint copy_loop (fuel : nat) (e : os) (f : os_file) (source : tr_raft_snapshot_source os)
    (offset : Z) (xxh : xxh_state) (sha : sha_stream)
    : os * status * xxh_state * sha_stream :=
  if src_size source <=? offset
  then (e, if offset =? src_size source then SALTS_OK else SALTS_EPROTO, xxh, sha)
  else
    match fuel with
    | O => (e, SALTS_EPROTO, xxh, sha)
    | S fuel =>
        let request := Z.min TR_RAFT_WIRE_MAX_SNAPSHOT_CHUNK_BYTES (src_size source - offset) in
        let '(e, result, bytes) := source_read source offset request e in
        if failed result then (e, result, xxh, sha)
        else
          let read_size := Z.of_nat (length bytes) in
          if (read_size =? 0) || (request <? read_size) then (e, SALTS_EPROTO, xxh, sha)
          else
            let '(updated, xxh) := XXH3_64bits_update xxh bytes in
            if negb updated then (e, SALTS_EIO, xxh, sha)
            else
              let '(result, sha) := cmeta_sha256_stream_update sha bytes in
              if failed result then (e, SALTS_EIO, xxh, sha)
              else
                let '(e, result) := tr_wal_write_all e f bytes in
                if failed result then (e, result, xxh, sha)
                else copy_loop fuel e f source (offset + read_size) xxh sha
    end.

(** The temporary file of a snapshot: a blank header, the bytes, and the header
    once their checksum is known. *)
Definition write_snapshot_body (e : os) (f : os_file) (index term : Z)
    (source : tr_raft_snapshot_source os) : os * status * Z :=
  let '(e, buffer) := os_malloc e in
  let '(e, state) := os_malloc e in
  let '(reset, xxh) := XXH3_64bits_reset XXH3_createState in
  if negb buffer || negb state || negb reset then (e, SALTS_ENOMEM, 0)
  else
    let '(e, (result, sha)) := cmeta_sha256_stream_create e in
    if failed result then (e, result, 0)
    else
      let '(e, result) :=
        tr_wal_write_all e f (replicate (Z.to_nat TR_WAL_SNAPSHOT_HEADER_SIZE) 0) in
      if failed result then (e, result, 0)
      else
        let '(e, result, xxh, sha) :=
          copy_loop (Z.to_nat (src_size source)) e f source 0 xxh sha in
        if failed result then (e, result, 0)
        else
          let checksum := XXH3_64bits_digest xxh in
          let '(result, _, digest) := cmeta_sha256_stream_finish sha in
          if failed result || negb (bool_decide (digest = src_digest source))
          then (e, SALTS_EPROTO, 0)
          else
            let '(e, result) :=
              tr_wal_pwrite_exact e f
                (snapshot_header index term (src_size source) checksum) 0 in
            (e, result, checksum).

(** Writes the snapshot, or checks the file that is there already; returns the
    checksum of the bytes. *)
Definition tr_wal_write_snapshot_source_file (s : tr_raft_wal_storage) (index term : Z)
    (source : tr_raft_snapshot_source os) (e : os)
    : os * status * tr_raft_wal_storage * Z :=
  if is_null (src_read_at source) || (wl_max_snapshot_bytes s <? src_size source)
  then (e, SALTS_EINVAL, s, 0)
  else
    let '(result, temporary_path) :=
      tr_wal_snapshot_path (wl_path_prefix s) index term (bytes_of ".tmp") in
    let '(result', final_path) := tr_wal_snapshot_path (wl_path_prefix s) index term [] in
    let result := if ok result then result' else result in
    if failed result then (e, result, s, 0)
    else
      let '(e, access) := cmeta_fs_access e final_path in
      if ok access then
        let '(e, result, checksum, _) :=
          tr_wal_snapshot_file_header s index term (src_size source) e in
        if failed result then (e, result, s, 0)
        else
          let existing := zero_recovery <| rc_snapshot_index := index |>
                            <| rc_snapshot_term := term |>
                            <| rc_snapshot_size := src_size source |> in
          let '(e, result, _) :=
            tr_wal_read_snapshot_file s existing checksum (Some (src_digest source)) e in
          (e, result, s, if ok result then checksum else 0)
      else
        match cmeta_fs_open e temporary_path RDWR_CREAT_TRUNC with
        | (e, None) => (e, SALTS_EIO, s, 0)
        | (e, Some f) =>
            let '(e, result, checksum) := write_snapshot_body e f index term source in
            let '(e, result) := close_after e f result in
            let '(e, result, s) := publish s e temporary_path final_path result in
            (e, result, s, if ok result then checksum else 0)
        end.

(** ** Segments *)

Definition tr_wal_segment_checksum (header : list Z) : Z := XXH3_64bits (take 24 header).

Definition segment_header (sequence : Z) : list Z :=
  let header := TR_WAL_SEGMENT_MAGIC ++ tr_wal_put_u32 TR_WAL_FORMAT_VERSION ++
                tr_wal_put_u32 TR_WAL_SEGMENT_HEADER_SIZE ++ tr_wal_put_u64 sequence in
  header ++ tr_wal_put_u64 (tr_wal_segment_checksum header).

Definition tr_wal_create_segment (s : tr_raft_wal_storage) (sequence : Z) (e : os)
    : os * status * tr_raft_wal_storage :=
  let '(result, current_path) := tr_wal_segment_path (wl_path_prefix s) sequence in
  let s := s <| wl_current_path := current_path |> in
  if failed result then (e, result, s)
  else
    let '(result, temporary_path) := fitting_path (current_path ++ bytes_of ".tmp") in
    if failed result then (e, result, s)
    else
      match cmeta_fs_open e temporary_path RDWR_CREAT_TRUNC with
      | (e, None) => (e, SALTS_EIO, s)
      | (e, Some f) =>
          let '(e, result) := tr_wal_write_all e f (segment_header sequence) in
          let '(e, result) := close_after e f result in
          let '(e, result, s) := publish s e temporary_path current_path result in
          if failed result then (e, result, s)
          else
            match cmeta_fs_open e current_path RDWR with
            | (e, None) => (e, SALTS_EIO, s <| wl_current_file := None |>)
            | (e, Some f) =>
                let '(e, sought) := cmeta_fs_seek e f TR_WAL_SEGMENT_HEADER_SIZE in
                if negb sought then
                  let '(e, _) := cmeta_fs_close e f in
                  (e, SALTS_EIO, s <| wl_current_file := None |>)
                else
                  (e, SALTS_OK,
                   s <| wl_current_file := Some f |> <| wl_current_segment := sequence |>
                     <| wl_current_offset := TR_WAL_SEGMENT_HEADER_SIZE |>)
            end
      end.

(** ** Transactions *)

Definition transaction_used (s : tr_raft_wal_storage) : Z :=
  TR_WAL_TRANSACTION_HEADER_SIZE + Z.of_nat (length (wl_payload s)).

Definition operation_bytes (type : Z) (payload : list Z) : list Z :=
  [type; 0; 0; 0] ++ tr_wal_put_u32 (Z.of_nat (length payload)) ++ payload.

Definition tr_wal_append_operation (s : tr_raft_wal_storage) (type : Z) (payload : list Z)
    : status * tr_raft_wal_storage :=
  let payload_size := Z.of_nat (length payload) in
  if negb (wl_transaction_active s) || wl_faulted s then (SALTS_EPROTO, s)
  else if (UINT32_MAX <? payload_size) ||
          (UINT64_MAX - TR_WAL_OPERATION_HEADER_SIZE <? payload_size) ||
          (wl_transaction_capacity s - TR_WAL_OPERATION_HEADER_SIZE <? transaction_used s) ||
          (wl_transaction_capacity s - transaction_used s - TR_WAL_OPERATION_HEADER_SIZE <?
             payload_size)
  then (SALTS_ENOSPC, s)
  else (SALTS_OK, s <| wl_payload := wl_payload s ++ operation_bytes type payload |>).

Definition tr_wal_begin (s : tr_raft_wal_storage) : status * tr_raft_wal_storage :=
  if wl_faulted s then (SALTS_EIO, s)
  else if wl_transaction_active s then (SALTS_EBUSY, s)
  else
    (SALTS_OK,
     s <| wl_payload := [] |> <| wl_pending_term := wl_term s |>
       <| wl_pending_voted_for := wl_voted_for s |>
       <| wl_pending_commit_index := wl_commit_index s |>
       <| wl_pending_last_log_index := wl_last_log_index s |>
       <| wl_transaction_active := true |>).

Definition hard_state_payload (term voted_for : Z) : list Z :=
  tr_wal_put_u64 term ++ tr_wal_put_u64 voted_for.

Definition tr_wal_write_hard_state (s : tr_raft_wal_storage) (term voted_for : Z)
    : status * tr_raft_wal_storage :=
  if term <? wl_pending_term s then (SALTS_EINVAL, s)
  else
    match tr_wal_append_operation s TR_WAL_OP_HARD_STATE (hard_state_payload term voted_for) with
    | (SALTS_OK, s) =>
        (SALTS_OK, s <| wl_pending_term := term |> <| wl_pending_voted_for := voted_for |>)
    | (result, s) => (result, s)
    end.

Definition tr_wal_truncate_log (s : tr_raft_wal_storage) (from_index : Z)
    : status * tr_raft_wal_storage :=
  if (from_index =? 0) || (wl_pending_last_log_index s +64 1 <? from_index) ||
     (from_index <=? wl_pending_commit_index s) || (from_index <=? wl_snapshot_index s)
  then (SALTS_EPROTO, s)
  else
    match tr_wal_append_operation s TR_WAL_OP_TRUNCATE (tr_wal_put_u64 from_index) with
    | (SALTS_OK, s) => (SALTS_OK, s <| wl_pending_last_log_index := from_index -64 1 |>)
    | (result, s) => (result, s)
    end.

Definition entry_operation (entry : tr_raft_entry) : list Z :=
  tr_wal_put_u64 (entry_index entry) ++ tr_wal_put_u64 (entry_term entry) ++
  tr_wal_put_u64 (entry_command_id entry) ++ tr_wal_put_u32 (entry_data_length entry) ++
  tr_wal_put_u32 0 ++ take (Z.to_nat (entry_data_length entry)) (entry_data entry).

Fixpoint tr_wal_append_log (s : tr_raft_wal_storage) (entries : list tr_raft_entry)
    : status * tr_raft_wal_storage :=
  match entries with
  | [] => (SALTS_OK, s)
  | entry :: entries =>
      if negb (entry_index entry =? wl_pending_last_log_index s +64 1) ||
         (entry_term entry =? 0) || (TR_RAFT_MAX_ENTRY_BYTES <? entry_data_length entry) ||
         (wl_max_log_entries s <=? wl_pending_last_log_index s -64 wl_snapshot_index s)
      then (SALTS_EPROTO, s)
      else
        match tr_wal_append_operation s TR_WAL_OP_ENTRY (entry_operation entry) with
        | (SALTS_OK, s) =>
            tr_wal_append_log (s <| wl_pending_last_log_index := entry_index entry |>) entries
        | (result, s) => (result, s)
        end
  end.

Definition tr_wal_write_commit_index (s : tr_raft_wal_storage) (commit_index : Z)
    : status * tr_raft_wal_storage :=
  if (commit_index <? wl_pending_commit_index s) || (wl_pending_last_log_index s <? commit_index)
  then (SALTS_EPROTO, s)
  else
    match tr_wal_append_operation s TR_WAL_OP_COMMIT_INDEX (tr_wal_put_u64 commit_index) with
    | (SALTS_OK, s) => (SALTS_OK, s <| wl_pending_commit_index := commit_index |>)
    | (result, s) => (result, s)
    end.

Definition tr_wal_transaction_checksum (frame : list Z) (payload_size : Z) : Z :=
  let seed := Z.lxor (Z.lxor (tr_wal_get_u64 (drop 16 frame)) (tr_wal_get_u64 (drop 24 frame)))
                (tr_wal_get_u64 (drop 32 frame)) in
  XXH3_64bits_withSeed
    (take (Z.to_nat payload_size) (drop (Z.to_nat TR_WAL_TRANSACTION_HEADER_SIZE) frame)) seed.

(** The header of a frame before and after its checksum is filled in. *)
Definition transaction_header (transaction_id previous_id payload_size checksum : Z) : list Z :=
  TR_WAL_TRANSACTION_MAGIC ++ tr_wal_put_u32 TR_WAL_FORMAT_VERSION ++
  tr_wal_put_u32 TR_WAL_TRANSACTION_HEADER_SIZE ++ tr_wal_put_u64 transaction_id ++
  tr_wal_put_u64 previous_id ++ tr_wal_put_u64 payload_size ++ tr_wal_put_u64 checksum.

Definition transaction_frame (transaction_id previous_id : Z) (payload : list Z) : list Z :=
  let payload_size := Z.of_nat (length payload) in
  transaction_header transaction_id previous_id payload_size
    (tr_wal_transaction_checksum
       (transaction_header transaction_id previous_id payload_size 0 ++ payload) payload_size) ++
  payload.

(** A frame that does not fit into the current segment goes into a new one. *)
Definition rotate_segment (s : tr_raft_wal_storage) (frame_size : Z) (e : os)
    : os * status * tr_raft_wal_storage * bool :=
  if wl_segment_bytes s - wl_current_offset s <? frame_size then
    if (wl_current_segment s =? UINT64_MAX) ||
       negb (tr_wal_live_range_valid s (wl_first_live_segment s) (wl_current_segment s)) ||
       (wl_max_live_segments s - 1 <=? wl_current_segment s -64 wl_first_live_segment s)
    then (e, SALTS_ENOSPC, s, false)
    else
      let '(e, result) :=
        match wl_current_file s with
        | Some f => cmeta_fs_close e f
        | None => (e, SALTS_EINVAL)
        end in
      let s := s <| wl_current_file := None |> in
      let '(e, result, s) :=
        if ok result then tr_wal_create_segment s (wl_current_segment s +64 1) e
        else (e, result, s) in
      if failed result then (e, result, s <| wl_faulted := true |>, false)
      else (e, SALTS_OK, s, true)
  else (e, SALTS_OK, s, false).

Definition write_frame (e : os) (f : os_file) (frame : list Z) : os * status :=
  let '(e, result) := tr_wal_write_all e f frame in
  if ok result then cmeta_fs_fsync e f else (e, result).

(** The frame, the manifest when there is a new segment, and what is pending
    becomes current. *)
Definition commit_frame (s : tr_raft_wal_storage) (rotated : bool) (transaction_id frame_size : Z)
    (frame : list Z) (e : os) : os * status * tr_raft_wal_storage :=
  let '(e, result) :=
    match wl_current_file s with
    | Some f => write_frame e f frame
    | None => (e, SALTS_EINVAL)
    end in
  if failed result then (e, result, s <| wl_faulted := true |>)
  else
    let '(e, result, s) :=
      if rotated
      then tr_wal_write_manifest s (wl_first_live_segment s) (wl_current_segment s) e
      else (e, SALTS_OK, s) in
    if failed result then (e, result, s <| wl_faulted := true |>)
    else
      (e, SALTS_OK,
       s <| wl_current_offset := wl_current_offset s +64 frame_size |>
         <| wl_last_transaction_id := transaction_id |>
         <| wl_term := wl_pending_term s |> <| wl_voted_for := wl_pending_voted_for s |>
         <| wl_commit_index := wl_pending_commit_index s |>
         <| wl_last_log_index := wl_pending_last_log_index s |>
         <| wl_transaction_active := false |> <| wl_payload := [] |>).

Definition tr_wal_commit (s : tr_raft_wal_storage) (e : os)
    : os * status * tr_raft_wal_storage :=
  if negb (wl_transaction_active s) then (e, SALTS_EINVAL, s)
  else if wl_faulted s then (e, SALTS_EIO, s)
  else
    let frame_size := transaction_used s in
    let transaction_id := wl_last_transaction_id s +64 1 in
    let frame := transaction_frame transaction_id (wl_last_transaction_id s) (wl_payload s) in
    if wl_segment_bytes s - TR_WAL_SEGMENT_HEADER_SIZE <? frame_size then (e, SALTS_ENOSPC, s)
    else
      let '(e, result, s, rotated) := rotate_segment s frame_size e in
      if failed result then (e, result, s)
      else commit_frame s rotated transaction_id frame_size frame e.

Definition tr_wal_rollback (s : tr_raft_wal_storage) : status * tr_raft_wal_storage :=
  (if wl_faulted s then SALTS_EIO else SALTS_OK,
   s <| wl_transaction_active := false |> <| wl_payload := [] |>).

(** ** Replay *)

(** The index after the last entry. *)
Definition next_log_index (r : tr_raft_wal_recovery) : Z :=
  rc_snapshot_index r +64 rc_entry_count r +64 1.

Definition last_recovered_index (r : tr_raft_wal_recovery) : Z :=
  rc_snapshot_index r +64 rc_entry_count r.

Definition apply_hard_state (r : tr_raft_wal_recovery) (data : list Z)
    : status * tr_raft_wal_recovery :=
  if negb (Z.of_nat (length data) =? 16) then (SALTS_EPROTO, r)
  else
    let term := tr_wal_get_u64 data in
    if term <? rc_term r then (SALTS_EPROTO, r)
    else (SALTS_OK, r <| rc_term := term |> <| rc_voted_for := tr_wal_get_u64 (drop 8 data) |>).

Definition apply_truncate (r : tr_raft_wal_recovery) (data : list Z)
    : status * tr_raft_wal_recovery :=
  if negb (Z.of_nat (length data) =? 8) then (SALTS_EPROTO, r)
  else
    let from_index := tr_wal_get_u64 data in
    if (from_index =? 0) || (from_index <=? rc_commit_index r) ||
       (from_index <=? rc_snapshot_index r) || (next_log_index r <? from_index)
    then (SALTS_EPROTO, r)
    else
      (SALTS_OK,
       r <| rc_entries := take (Z.to_nat (from_index -64 rc_snapshot_index r -64 1))
                            (rc_entries r) |>).

Definition apply_entry (max_log_entries : Z) (r : tr_raft_wal_recovery) (data : list Z)
    : status * tr_raft_wal_recovery :=
  let size := Z.of_nat (length data) in
  if size <? 32 then (SALTS_EPROTO, r)
  else
    let data_length := tr_wal_get_u32 (drop 24 data) in
    if negb (tr_wal_get_u32 (drop 28 data) =? 0) || (TR_RAFT_MAX_ENTRY_BYTES <? data_length) ||
       negb (size =? 32 + data_length) || (max_log_entries <=? rc_entry_count r)
    then (SALTS_EPROTO, r)
    else
      let entry := Entry (tr_wal_get_u64 data) (tr_wal_get_u64 (drop 8 data))
                     (tr_wal_get_u64 (drop 16 data)) data_length
                     (take (Z.to_nat data_length) (drop 32 data)) in
      if negb (entry_index entry =? next_log_index r) || (entry_term entry =? 0)
      then (SALTS_EPROTO, r)
      else (SALTS_OK, r <| rc_entries := rc_entries r ++ [entry] |>).

Definition apply_commit_index (r : tr_raft_wal_recovery) (data : list Z)
    : status * tr_raft_wal_recovery :=
  if negb (Z.of_nat (length data) =? 8) then (SALTS_EPROTO, r)
  else
    let commit_index := tr_wal_get_u64 data in
    if (commit_index <? rc_commit_index r) || (last_recovered_index r <? commit_index)
    then (SALTS_EPROTO, r)
    else (SALTS_OK, r <| rc_commit_index := commit_index |>).

(** The entries kept above a snapshot: those after an entry that matches it. *)
Definition snapshot_suffix (r : tr_raft_wal_recovery) (snapshot_index snapshot_term : Z)
    : list tr_raft_entry :=
  if (rc_snapshot_index r <? snapshot_index) && (snapshot_index <=? last_recovered_index r) then
    let match_ := Z.to_nat (snapshot_index -64 rc_snapshot_index r -64 1) in
    if entry_term (nth match_ (rc_entries r) zero_entry) =? snapshot_term
    then drop (S match_) (rc_entries r) else []
  else [].

Definition apply_snapshot (s : tr_raft_wal_storage) (r : tr_raft_wal_recovery) (data : list Z)
    (e : os) : os * status * tr_raft_wal_recovery :=
  let size := Z.of_nat (length data) in
  if size <? 64 then (e, SALTS_EPROTO, r)
  else
    let leader_term := tr_wal_get_u64 data in
    let snapshot_index := tr_wal_get_u64 (drop 8 data) in
    let snapshot_term := tr_wal_get_u64 (drop 16 data) in
    let snapshot_size := tr_wal_get_u64 (drop 24 data) in
    let snapshot_checksum := tr_wal_get_u64 (drop 32 data) in
    let commit_index := tr_wal_get_u64 (drop 40 data) in
    let voted_for := tr_wal_get_u64 (drop 48 data) in
    let configuration_size := tr_wal_get_u32 (drop 56 data) in
    let digest_size := tr_wal_get_u32 (drop 60 data) in
    if (negb (digest_size =? 0) && negb (digest_size =? TR_RAFT_WIRE_SNAPSHOT_DIGEST_SIZE)) ||
       (size - 64 <? configuration_size) || (size - 64 - configuration_size <? digest_size) ||
       negb (size =? 64 + configuration_size + digest_size) || (leader_term =? 0) ||
       (snapshot_index =? 0) || (snapshot_term =? 0) || (leader_term <? snapshot_term) ||
       (leader_term <? rc_term r) || (snapshot_index <=? rc_snapshot_index r) ||
       (wl_max_snapshot_bytes s <? snapshot_size) || (commit_index <? snapshot_index) ||
       (negb (commit_index =? snapshot_index) && (last_recovered_index r <? commit_index))
    then (e, SALTS_EPROTO, r)
    else
      let digest := if digest_size =? 0 then None
                    else Some (take (Z.to_nat digest_size)
                                 (drop (Z.to_nat (64 + configuration_size)) data)) in
      let suffix := snapshot_suffix r snapshot_index snapshot_term in
      match tr_raft_conf_decode (take (Z.to_nat configuration_size) (drop 64 data)) with
      | (SALTS_OK, configuration) =>
          let r := r <| rc_snapshot_configuration := configuration |>
                     <| rc_entries := suffix |> <| rc_snapshot_source := zero_source |>
                     <| rc_snapshot_index := snapshot_index |>
                     <| rc_snapshot_term := snapshot_term |>
                     <| rc_snapshot_size := snapshot_size |>
                     <| rc_has_snapshot_configuration := true |>
                     <| rc_voted_for := voted_for |> <| rc_term := leader_term |>
                     <| rc_commit_index := commit_index |> in
          tr_wal_read_snapshot_file s r snapshot_checksum digest e
      | (_, configuration) =>
          (e, SALTS_EPROTO, r <| rc_snapshot_configuration := configuration |>)
      end.

Definition apply_operation (s : tr_raft_wal_storage) (r : tr_raft_wal_recovery) (type : Z)
    (data : list Z) (e : os) : os * status * tr_raft_wal_recovery :=
  if type =? TR_WAL_OP_HARD_STATE then
    let '(result, r) := apply_hard_state r data in (e, result, r)
  else if type =? TR_WAL_OP_TRUNCATE then
    let '(result, r) := apply_truncate r data in (e, result, r)
  else if type =? TR_WAL_OP_ENTRY then
    let '(result, r) := apply_entry (wl_max_log_entries s) r data in (e, result, r)
  else if type =? TR_WAL_OP_COMMIT_INDEX then
    let '(result, r) := apply_commit_index r data in (e, result, r)
  else if type =? TR_WAL_OP_SNAPSHOT then apply_snapshot s r data e
  else (e, SALTS_EPROTO, r).

(** The operations of a frame. Every iteration consumes the header of an
    operation, so the bytes bound the loop. *)
Fixpoint apply_loop (fuel : nat) (s : tr_raft_wal_storage) (r : tr_raft_wal_recovery)
    (payload : list Z) (e : os) : os * status * tr_raft_wal_recovery :=
  match payload with
  | [] => (e, SALTS_OK, r)
  | _ =>
      match fuel with
      | O => (e, SALTS_EPROTO, r)
      | S fuel =>
          if Z.of_nat (length payload) <? TR_WAL_OPERATION_HEADER_SIZE then (e, SALTS_EPROTO, r)
          else if negb (byte_at payload 1 =? 0) || negb (byte_at payload 2 =? 0) ||
                  negb (byte_at payload 3 =? 0)
          then (e, SALTS_EPROTO, r)
          else
            let size := tr_wal_get_u32 (drop 4 payload) in
            let rest := drop (Z.to_nat TR_WAL_OPERATION_HEADER_SIZE) payload in
            if Z.of_nat (length rest) <? size then (e, SALTS_EPROTO, r)
            else
              let '(e, result, r) :=
                apply_operation s r (byte_at payload 0) (take (Z.to_nat size) rest) e in
              if failed result then (e, result, r)
              else apply_loop fuel s r (drop (Z.to_nat size) rest) e
      end
  end.

Definition tr_wal_apply_payload (s : tr_raft_wal_storage) (payload : list Z)
    (r : tr_raft_wal_recovery) (e : os) : os * status * tr_raft_wal_recovery :=
  apply_loop (length payload) s r payload e.

(** What replay carries from frame to frame: the recovery, the identifier of
    the last transaction and the end of the last complete frame. *)
Record replay_state := ReplayState {
  rs_recovery : tr_raft_wal_recovery;
  rs_last_id : Z;
  rs_valid_size : Z
}.

(** The frame at the end of the last one, and whether the loop goes on: it
    stops at a torn frame, which only the last segment may have. *)
Definition replay_frame (s : tr_raft_wal_storage) (is_first is_last : bool) (f : os_file)
    (size : Z) (rs : replay_state) (e : os) : os * status * replay_state * bool :=
  let offset := rs_valid_size rs in
  let torn := if is_last then SALTS_OK else SALTS_EPROTO in
  if size - offset <? TR_WAL_TRANSACTION_HEADER_SIZE then (e, torn, rs, false)
  else
    let '(e, result, header) := tr_wal_read_exact e f offset TR_WAL_TRANSACTION_HEADER_SIZE in
    if failed result then (e, result, rs, false)
    else if negb (bool_decide (take 8 header = TR_WAL_TRANSACTION_MAGIC)) ||
            negb (tr_wal_get_u32 (drop 8 header) =? TR_WAL_FORMAT_VERSION) ||
            negb (tr_wal_get_u32 (drop 12 header) =? TR_WAL_TRANSACTION_HEADER_SIZE)
    then (e, SALTS_EPROTO, rs, false)
    else
      let transaction_id := tr_wal_get_u64 (drop 16 header) in
      let previous_id := tr_wal_get_u64 (drop 24 header) in
      let payload_size := tr_wal_get_u64 (drop 32 header) in
      let at_start := is_first && (offset =? TR_WAL_SEGMENT_HEADER_SIZE) in
      let last_id := if at_start && (rs_last_id rs =? 0) && negb (previous_id =? 0)
                     then previous_id else rs_last_id rs in
      let rs := ReplayState (rs_recovery rs) last_id offset in
      if negb (transaction_id =? last_id +64 1) || negb (previous_id =? last_id) ||
         (wl_transaction_capacity s - TR_WAL_TRANSACTION_HEADER_SIZE <? payload_size)
      then (e, SALTS_EPROTO, rs, false)
      else if size - offset - TR_WAL_TRANSACTION_HEADER_SIZE <? payload_size
      then (e, torn, rs, false)
      else
        let '(e, result, payload) :=
          tr_wal_read_exact e f (offset + TR_WAL_TRANSACTION_HEADER_SIZE) payload_size in
        if failed result then (e, result, rs, false)
        else if negb (tr_wal_get_u64 (drop 40 header) =?
                      tr_wal_transaction_checksum (header ++ payload) payload_size)
        then (e, SALTS_EPROTO, rs, false)
        else
          let '(e, result, r) := tr_wal_apply_payload s payload (rs_recovery rs) e in
          if failed result then (e, result, ReplayState r last_id offset, false)
          else if at_start && negb (previous_id =? 0) && (rc_snapshot_index r =? 0)
          then (e, SALTS_EPROTO, ReplayState r last_id offset, false)
          else (e, SALTS_OK,
                ReplayState r transaction_id
                  (offset + TR_WAL_TRANSACTION_HEADER_SIZE + payload_size), true).

(** Every frame has a header, so the size of the file bounds the loop. *)
Fixpoint replay_loop (fuel : nat) (s : tr_raft_wal_storage) (is_first is_last : bool)
    (f : os_file) (size : Z) (rs : replay_state) (e : os) : os * status * replay_state :=
  if size <=? rs_valid_size rs then (e, SALTS_OK, rs)
  else
    match fuel with
    | O => (e, SALTS_EPROTO, rs)
    | S fuel =>
        let '(e, result, rs, next) := replay_frame s is_first is_last f size rs e in
        if next then replay_loop fuel s is_first is_last f size rs e else (e, result, rs)
    end.

Definition tr_wal_replay_segment (s : tr_raft_wal_storage) (sequence : Z)
    (is_first is_last : bool) (rs : replay_state) (e : os) : os * status * replay_state :=
  let '(result, path) := tr_wal_segment_path (wl_path_prefix s) sequence in
  if failed result then (e, result, rs)
  else
    let '(e, result, stat) := cmeta_fs_stat e path in
    if failed result || negb (fs_is_file stat) ||
       (fs_size stat <? TR_WAL_SEGMENT_HEADER_SIZE) || (wl_segment_bytes s <? fs_size stat)
    then (e, SALTS_EPROTO, rs)
    else
      match cmeta_fs_open e path RDONLY with
      | (e, None) => (e, SALTS_EIO, rs)
      | (e, Some f) =>
          let '(e, result, header) := tr_wal_read_exact e f 0 TR_WAL_SEGMENT_HEADER_SIZE in
          let result :=
            if ok result &&
               (negb (bool_decide (take 8 header = TR_WAL_SEGMENT_MAGIC)) ||
                negb (tr_wal_get_u32 (drop 8 header) =? TR_WAL_FORMAT_VERSION) ||
                negb (tr_wal_get_u32 (drop 12 header) =? TR_WAL_SEGMENT_HEADER_SIZE) ||
                negb (tr_wal_get_u64 (drop 16 header) =? sequence) ||
                negb (tr_wal_get_u64 (drop 24 header) =? tr_wal_segment_checksum header))
            then SALTS_EPROTO else result in
          let rs := ReplayState (rs_recovery rs) (rs_last_id rs) TR_WAL_SEGMENT_HEADER_SIZE in
          let '(e, result, rs) :=
            if ok result
            then replay_loop (Z.to_nat (fs_size stat)) s is_first is_last f (fs_size stat) rs e
            else (e, result, rs) in
          let '(e, _) := cmeta_fs_close e f in
          (e, result, rs)
      end.

(** The first segment that exists, of [count] from [sequence] on. *)
Fixpoint scan_first (s : tr_raft_wal_storage) (count : nat) (sequence : Z) (e : os)
    : os * status * Z :=
  match count with
  | O => (e, SALTS_OK, 0)
  | S count =>
      let '(result, path) := tr_wal_segment_path (wl_path_prefix s) sequence in
      if failed result then (e, result, 0)
      else
        let '(e, access) := cmeta_fs_access e path in
        if ok access then (e, SALTS_OK, sequence) else scan_first s count (sequence + 1) e
  end.

(** The last of the segments that follow each other. *)
Fixpoint scan_last (s : tr_raft_wal_storage) (count : nat) (sequence last : Z) (e : os)
    : os * status * Z :=
  match count with
  | O => (e, SALTS_OK, last)
  | S count =>
      let '(result, path) := tr_wal_segment_path (wl_path_prefix s) sequence in
      if failed result then (e, result, last)
      else
        let '(e, access) := cmeta_fs_access e path in
        if failed access then (e, SALTS_OK, last)
        else scan_last s count (sequence + 1) sequence e
  end.

(** The range of a log from before there were manifests. *)
Definition scan_segments (s : tr_raft_wal_storage) (e : os) : os * status * (Z * Z) :=
  let count := wl_max_live_segments s in
  let '(e, result, first) := scan_first s (Z.to_nat count) 1 e in
  if failed result then (e, result, (0, 0))
  else if first =? 0 then (e, SALTS_OK, (0, 0))
  else
    let '(e, result, last) := scan_last s (Z.to_nat (count - first)) (first + 1) first e in
    if failed result then (e, result, (0, 0)) else (e, SALTS_OK, (first, last)).

(** The segments from [sequence] on, [count] of them. *)
Fixpoint replay_segments (s : tr_raft_wal_storage) (first_segment : Z) (count : nat)
    (sequence : Z) (rs : replay_state) (e : os) : os * status * replay_state :=
  match count with
  | O => (e, SALTS_OK, rs)
  | S count =>
      let '(result, path) := tr_wal_segment_path (wl_path_prefix s) sequence in
      let '(e, access) := if ok result then cmeta_fs_access e path else (e, result) in
      if failed access then (e, SALTS_EPROTO, rs)
      else
        let '(e, result, rs) :=
          tr_wal_replay_segment s sequence (sequence =? first_segment)
            (match count with O => true | _ => false end) rs e in
        if failed result then (e, result, rs)
        else replay_segments s first_segment count (sequence + 1) rs e
  end.

(** What replay reports. *)
Record replay_result := ReplayResult {
  rp_recovery : tr_raft_wal_recovery;
  rp_first_segment : Z;
  rp_last_segment : Z;
  rp_valid_size : Z;
  rp_last_transaction_id : Z;
  rp_manifest_present : bool
}.

Definition tr_wal_replay (s : tr_raft_wal_storage) (e : os)
    : os * status * option replay_result :=
  let '(e, allocated) := os_malloc e in
  if negb allocated then (e, SALTS_ENOMEM, None)
  else
    let '(e, result, manifest) := tr_wal_read_manifest s e in
    if failed result then (e, result, None)
    else
      let present := negb (is_null manifest) in
      let '(e, result, (first_segment, last_segment)) :=
        match manifest with
        | Some range => (e, SALTS_OK, range)
        | None => scan_segments s e
        end in
      if failed result then (e, result, None)
      else if first_segment =? 0
      then (e, SALTS_OK, Some (ReplayResult zero_recovery 0 0 0 0 present))
      else if negb (tr_wal_live_range_valid s first_segment last_segment)
      then (e, SALTS_EPROTO, None)
      else
        let '(e, result, rs) :=
          replay_segments s first_segment (Z.to_nat (last_segment - first_segment + 1))
            first_segment (ReplayState zero_recovery 0 0) e in
        if failed result then (e, result, None)
        else (e, SALTS_OK,
              Some (ReplayResult (rs_recovery rs) first_segment last_segment
                      (rs_valid_size rs) (rs_last_id rs) present)).

(** ** Opening and closing *)

Definition tr_raft_wal_storage_close (s : tr_raft_wal_storage) (locks : list (list Z)) (e : os)
    : os * list (list Z) * status :=
  let '(e, result) :=
    match wl_current_file s with Some f => cmeta_fs_close e f | None => (e, SALTS_OK) end in
  let '(e, result) :=
    match wl_lock_file s with
    | Some f =>
        let '(e, unlock_result) := cmeta_fs_unlock e f in
        let '(e, close_result) := cmeta_fs_close e f in
        let result := if ok result then unlock_result else result in
        (e, if ok result then close_result else result)
    | None => (e, result)
    end in
  (e, if wl_process_lock_registered s
      then tr_wal_process_lock_release (wl_path_prefix s) locks else locks, result).

(** The storage before anything is read. *)
Definition blank_storage (config : tr_raft_wal_storage_config) (segment_bytes transaction_bytes : Z)
    : tr_raft_wal_storage :=
  WalStorage (wc_path_prefix config) transaction_bytes segment_bytes
    (wc_max_live_segments config) (wc_max_log_entries config)
    (if wc_max_snapshot_bytes config =? 0 then TR_RAFT_WAL_DEFAULT_MAX_SNAPSHOT_BYTES
     else wc_max_snapshot_bytes config)
    [] None None [] 0 0 0 0 false 0 0 0 0 0 0 0 0 0 0 false false.

(** What the replay has found. *)
Definition recovered_storage (s : tr_raft_wal_storage) (p : replay_result)
    : tr_raft_wal_storage :=
  let r := rp_recovery p in
  s <| wl_term := rc_term r |> <| wl_voted_for := rc_voted_for r |>
    <| wl_commit_index := rc_commit_index r |> <| wl_snapshot_index := rc_snapshot_index r |>
    <| wl_snapshot_term := rc_snapshot_term r |>
    <| wl_last_log_index := last_recovered_index r |>
    <| wl_last_transaction_id := rp_last_transaction_id p |>.

(** Creates the first segment of a new log. *)
Definition open_fresh (s : tr_raft_wal_storage) (e : os) : os * status * tr_raft_wal_storage :=
  let '(e, result, s) := tr_wal_create_segment s 1 e in
  if failed result then (e, result, s)
  else
    let '(e, result, s) := tr_wal_write_manifest s 1 1 e in
    (e, result, if ok result then s <| wl_first_live_segment := 1 |> else s).

(** Opens the last segment of a log and cuts its torn end off. *)
Definition cut_last (s : tr_raft_wal_storage) (path : path) (valid_size : Z) (e : os)
    : os * status * tr_raft_wal_storage :=
  match cmeta_fs_open e path RDWR with
  | (e, None) => (e, SALTS_EIO, s)
  | (e, Some f) =>
      let s := s <| wl_current_file := Some f |> in
      let '(e, result) := cmeta_fs_ftruncate e f valid_size in
      if failed result then (e, result, s)
      else
        let '(e, sought) := cmeta_fs_seek e f valid_size in
        (e, if sought then SALTS_OK else SALTS_EIO, s)
  end.

Definition open_last (s : tr_raft_wal_storage) (p : replay_result) (e : os)
    : os * status * tr_raft_wal_storage :=
  let '(e, result, s) :=
    if negb (rp_manifest_present p)
    then tr_wal_write_manifest s (rp_first_segment p) (rp_last_segment p) e
    else (e, SALTS_OK, s) in
  if failed result then (e, result, s)
  else
    let '(result, path) := tr_wal_segment_path (wl_path_prefix s) (rp_last_segment p) in
    let s := s <| wl_first_live_segment := rp_first_segment p |>
               <| wl_current_path := path |>
               <| wl_current_segment := rp_last_segment p |>
               <| wl_current_offset := rp_valid_size p |> in
    if failed result then (e, result, s) else cut_last s path (rp_valid_size p) e.

(** Replays the log, and opens or creates its last segment. *)
Definition open_log (config : tr_raft_wal_storage_config) (s : tr_raft_wal_storage) (e : os)
    : os * status * tr_raft_wal_storage :=
  match tr_wal_replay s e with
  | (e, SALTS_OK, Some p) =>
      let s := recovered_storage s p in
      if rp_last_segment p =? 0 then
        if negb (wc_create_if_missing config) then (e, SALTS_ENOENT, s) else open_fresh s e
      else open_last s p e
  | (e, result, _) => (e, result, s)
  end.

Definition tr_raft_wal_storage_open (config : tr_raft_wal_storage_config)
    (locks : list (list Z)) (e : os)
    : os * list (list Z) * status * option tr_raft_wal_storage :=
  let prefix_length := Z.of_nat (length (wc_path_prefix config)) in
  let segment_bytes := if wc_segment_bytes config =? 0 then TR_RAFT_WAL_DEFAULT_SEGMENT_BYTES
                       else wc_segment_bytes config in
  let transaction_bytes :=
    if wc_max_transaction_bytes config =? 0 then TR_RAFT_WAL_DEFAULT_TRANSACTION_BYTES
    else wc_max_transaction_bytes config in
  if (prefix_length =? 0) || (wc_max_log_entries config =? 0) ||
     (wc_max_live_segments config =? 0) ||
     (TR_RAFT_WAL_MAX_LIVE_SEGMENTS <? wc_max_live_segments config)
  then (e, locks, SALTS_EINVAL, None)
  else if (segment_bytes <? TR_RAFT_WAL_MIN_SEGMENT_BYTES) || (INT_MAX <? segment_bytes) ||
          (transaction_bytes <? TR_WAL_TRANSACTION_HEADER_SIZE) ||
          (segment_bytes - TR_WAL_SEGMENT_HEADER_SIZE <? transaction_bytes)
  then (e, locks, SALTS_EINVAL, None)
  else if SALTS_FS_MAX_PATH <=? prefix_length + 64 then (e, locks, SALTS_ENAMETOOLONG, None)
  else
    let '(e, allocated) := os_malloc e in
    if negb allocated then (e, locks, SALTS_ENOMEM, None)
    else
      let s := blank_storage config segment_bytes transaction_bytes in
      let '(e, buffer) := os_malloc e in
      if negb buffer then (e, locks, SALTS_ENOMEM, None)
      else
        let '(e, locks, result) := tr_wal_process_lock_acquire (wl_path_prefix s) locks e in
        if failed result then (e, locks, result, None)
        else
          let s := s <| wl_process_lock_registered := true |> in
          let refuse s e result :=
            let '(e, locks, _) := tr_raft_wal_storage_close s locks e in
            (e, locks, result, None) in
          let '(e, lock_file) := cmeta_fs_open e (lock_path (wl_path_prefix s)) RDWR_CREAT in
          let s := s <| wl_lock_file := lock_file |> in
          let '(e, locked) :=
            match lock_file with
            | Some f => cmeta_fs_lock e f
            | None => (e, SALTS_EBUSY)
            end in
          if failed locked then refuse s e SALTS_EBUSY
          else
            let '(e, result, s) := open_log config s e in
            if failed result then refuse s e result else (e, locks, SALTS_OK, Some s).

Definition tr_raft_wal_storage_load (s : tr_raft_wal_storage) (e : os)
    : os * status * option replay_result :=
  if wl_transaction_active s then (e, SALTS_EBUSY, None) else tr_wal_replay s e.

(** ** Snapshots *)

Definition snapshot_payload (leader_term snapshot_index snapshot_term size checksum
    committed_index voted_for : Z) (configuration digest : list Z) : list Z :=
  tr_wal_put_u64 leader_term ++ tr_wal_put_u64 snapshot_index ++ tr_wal_put_u64 snapshot_term ++
  tr_wal_put_u64 size ++ tr_wal_put_u64 checksum ++ tr_wal_put_u64 committed_index ++
  tr_wal_put_u64 voted_for ++ tr_wal_put_u32 (Z.of_nat (length configuration)) ++
  tr_wal_put_u32 TR_RAFT_WIRE_SNAPSHOT_DIGEST_SIZE ++ configuration ++ digest.

(** A snapshot of the whole log goes into a segment of its own. *)
Definition checkpoint_rotate (s : tr_raft_wal_storage) (e : os)
    : os * status * tr_raft_wal_storage * bool :=
  if wl_current_segment s =? UINT64_MAX then (e, SALTS_ENOSPC, s, false)
  else
    let '(e, result) :=
      match wl_current_file s with
      | Some f => cmeta_fs_close e f
      | None => (e, SALTS_EINVAL)
      end in
    let s := s <| wl_current_file := None |> in
    let '(e, result, s) :=
      if ok result then tr_wal_create_segment s (wl_current_segment s +64 1) e
      else (e, result, s) in
    if failed result then (e, result, s <| wl_faulted := true |>, false)
    else (e, SALTS_OK, s, true).

(** The transaction that records the snapshot. *)
Definition commit_snapshot (s : tr_raft_wal_storage) (leader_term committed_index
    retained_last_index : Z) (payload : list Z) (e : os) : os * status * tr_raft_wal_storage :=
  let term := wl_term s in
  let '(result, s) := tr_wal_begin s in
  let '(result, s) :=
    if ok result then tr_wal_append_operation s TR_WAL_OP_SNAPSHOT payload else (result, s) in
  if ok result then
    let s := s <| wl_pending_term := leader_term |> in
    let s := if term <? leader_term then s <| wl_pending_voted_for := 0 |> else s in
    let s := s <| wl_pending_commit_index := committed_index |>
               <| wl_pending_last_log_index := retained_last_index |> in
    tr_wal_commit s e
  else if wl_transaction_active s then (e, result, snd (tr_wal_rollback s))
  else (e, result, s).

(** Removes the segments from [sequence] on, [count] of them. *)
Fixpoint unlink_segments (s : tr_raft_wal_storage) (count : nat) (sequence : Z) (e : os)
    : os * status * tr_raft_wal_storage :=
  match count with
  | O => (e, SALTS_OK, s)
  | S count =>
      let '(result, path) := tr_wal_segment_path (wl_path_prefix s) sequence in
      let '(e, result) :=
        if ok result then
          let '(e, access) := cmeta_fs_access e path in
          if ok access then cmeta_fs_unlink e path else (e, SALTS_OK)
        else (e, result) in
      if failed result then (e, result, s <| wl_faulted := true |>)
      else unlink_segments s count (sequence + 1) e
  end.

(** After the transaction: the manifest of a checkpoint, and the files that are
    no longer needed. *)
Definition reclaim (s : tr_raft_wal_storage) (checkpoint_compaction : bool)
    (previous_first previous_index previous_term : Z) (e : os)
    : os * status * tr_raft_wal_storage :=
  let checkpoint_segment := wl_current_segment s in
  let '(e, result, s) :=
    if checkpoint_compaction then
      let '(e, result, s) := tr_wal_write_manifest s checkpoint_segment checkpoint_segment e in
      if ok result then (e, result, s <| wl_first_live_segment := checkpoint_segment |>)
      else (e, result, s <| wl_faulted := true |>)
    else (e, SALTS_OK, s) in
  let '(e, result, s) :=
    if ok result && checkpoint_compaction && negb (previous_first =? 0)
    then unlink_segments s (Z.to_nat (checkpoint_segment - previous_first)) previous_first e
    else (e, result, s) in
  if ok result && negb (previous_index =? 0) then
    let '(result, path) :=
      tr_wal_snapshot_path (wl_path_prefix s) previous_index previous_term [] in
    let '(e, result) := if ok result then cmeta_fs_unlink e path else (e, result) in
    (e, result, if failed result then s <| wl_faulted := true |> else s)
  else (e, result, s).

(** The file of the snapshot, its transaction and the reclamation, once the
    snapshot has been found to fit the log. *)
Definition persist_admitted (s : tr_raft_wal_storage) (leader_term snapshot_index
    snapshot_term committed_index retained_last_index : Z) (configuration : list Z)
    (source : tr_raft_snapshot_source os) (e : os) : os * status * tr_raft_wal_storage :=
  let checkpoint_compaction := retained_last_index =? snapshot_index in
  let previous_index := wl_snapshot_index s in
  let previous_term := wl_snapshot_term s in
  let previous_first := wl_first_live_segment s in
  let '(e, result, s, checksum) :=
    tr_wal_write_snapshot_source_file s snapshot_index snapshot_term source e in
  if failed result then (e, result, s)
  else
    let '(e, result, s, created) :=
      if checkpoint_compaction && negb (wl_current_offset s =? TR_WAL_SEGMENT_HEADER_SIZE)
      then checkpoint_rotate s e else (e, SALTS_OK, s, false) in
    if failed result then (e, result, s)
    else
      let payload :=
        snapshot_payload leader_term snapshot_index snapshot_term (src_size source) checksum
          committed_index (if wl_term s <? leader_term then 0 else wl_voted_for s)
          configuration (src_digest source) in
      let '(e, result, s) :=
        commit_snapshot s leader_term committed_index retained_last_index payload e in
      let '(e, result, s) :=
        if ok result then
          reclaim (s <| wl_snapshot_index := snapshot_index |>
                     <| wl_snapshot_term := snapshot_term |>)
            checkpoint_compaction previous_first previous_index previous_term e
        else (e, result, s) in
      (e, result,
       if failed result && created && negb (wl_first_live_segment s =? wl_current_segment s)
       then s <| wl_faulted := true |> else s).

Definition tr_wal_persist_snapshot_source (s : tr_raft_wal_storage) (leader_term snapshot_index
    snapshot_term : Z) (configuration : tr_raft_conf) (source : tr_raft_snapshot_source os)
    (remote_install : bool) (e : os) : os * status * tr_raft_wal_storage :=
  if is_null (src_read_at source) || (leader_term =? 0) || (snapshot_index =? 0) ||
     (snapshot_term =? 0) || (leader_term <? snapshot_term)
  then (e, SALTS_EINVAL, s)
  else if wl_faulted s then (e, SALTS_EIO, s)
  else if wl_transaction_active s then (e, SALTS_EBUSY, s)
  else if wl_max_snapshot_bytes s <? src_size source then (e, SALTS_ERANGE, s)
  else
    match tr_raft_wal_storage_load s e with
    | (e, SALTS_OK, Some p) =>
        let r := rp_recovery p in
        let recovered_last_index := last_recovered_index r in
        if (leader_term <? rc_term r) || (snapshot_index <=? rc_snapshot_index r) ||
           (remote_install && (snapshot_index <? rc_commit_index r)) ||
           (negb remote_install && (rc_commit_index r <? snapshot_index))
        then (e, SALTS_EPROTO, s)
        else
          let matching_entry :=
            (rc_snapshot_index r <? snapshot_index) && (snapshot_index <=? recovered_last_index) &&
            (entry_term (nth (Z.to_nat (snapshot_index -64 rc_snapshot_index r -64 1))
                           (rc_entries r) zero_entry) =? snapshot_term) in
          if negb remote_install && negb matching_entry then (e, SALTS_EPROTO, s)
          else
            let committed_index := if remote_install then snapshot_index else rc_commit_index r in
            let retained_last_index :=
              if matching_entry then recovered_last_index else snapshot_index in
            match tr_raft_conf_encode configuration TR_RAFT_CONF_MAX_ENCODED_SIZE with
            | (SALTS_OK, _, Some encoded) =>
                persist_admitted s leader_term snapshot_index snapshot_term committed_index
                  retained_last_index encoded source e
            | (result, _, _) => (e, result, s)
            end
    | (e, result, _) => (e, result, s)
    end.

Definition tr_raft_wal_storage_store_snapshot_source (s : tr_raft_wal_storage)
    (last_included_index last_included_term : Z) (configuration : tr_raft_conf)
    (source : tr_raft_snapshot_source os) (e : os) : os * status * tr_raft_wal_storage :=
  tr_wal_persist_snapshot_source s (wl_term s) last_included_index last_included_term
    configuration source false e.

Definition tr_raft_wal_storage_install_snapshot_source (s : tr_raft_wal_storage)
    (leader_term last_included_index last_included_term : Z) (configuration : tr_raft_conf)
    (source : tr_raft_snapshot_source os) (e : os) : os * status * tr_raft_wal_storage :=
  tr_wal_persist_snapshot_source s leader_term last_included_index last_included_term
    configuration source true e.

(** A source that reads bytes in memory. *)
Definition memory_snapshot_source (data digest : list Z) : tr_raft_snapshot_source os :=
  SnapshotSource (Z.of_nat (length data)) digest
    (Some (fun e offset capacity =>
             let '(result, bytes) := tr_wal_memory_snapshot_read data offset capacity in
             (e, result, bytes)))
    None.

Definition tr_raft_wal_storage_store_snapshot (s : tr_raft_wal_storage)
    (last_included_index last_included_term : Z) (configuration : tr_raft_conf)
    (data : list Z) (e : os) : os * status * tr_raft_wal_storage :=
  match cmeta_sha256 data with
  | (SALTS_OK, digest) =>
      tr_raft_wal_storage_store_snapshot_source s last_included_index last_included_term
        configuration (memory_snapshot_source data digest) e
  | (result, _) => (e, result, s)
  end.

Definition tr_raft_wal_storage_install_snapshot (s : tr_raft_wal_storage)
    (leader_term last_included_index last_included_term : Z) (configuration : tr_raft_conf)
    (data : list Z) (e : os) : os * status * tr_raft_wal_storage :=
  match cmeta_sha256 data with
  | (SALTS_OK, digest) =>
      tr_raft_wal_storage_install_snapshot_source s leader_term last_included_index
        last_included_term configuration (memory_snapshot_source data digest) e
  | (result, _) => (e, result, s)
  end.

End Wal.
