(* ===== verification/WalCodec.v ===== *)
(** * The formats of the write-ahead log

    Words, file names, headers, frames and operations: what is written is read
    back, distinct files have distinct names, and all names fit. *)

From S2P Require Import Prelude Configuration Bytes Wire Digest Os SnapshotSender Wal.
From Stdlib Require Import ZArith Lia.
From stdpp Require Import base numbers list tactics strings.
Open Scope Z_scope.
Open Scope raft_scope.

(** Splits the conditional on top of the goal. *)
Tactic Notation "top_if" :=
  match goal with |- (if ?b then _ else _) = _ -> _ => destruct b end.
Tactic Notation "top_if" "as" ident(H) :=
  match goal with |- (if ?b then _ else _) = _ -> _ => destruct b eqn:H end.

(** ** Words *)

Lemma lor_chunk v i j :
  0 <= i -> j = i + 8 -> Z.lor (v mod 2 ^ i) (Z.shiftl (Z.shiftr v i mod 2 ^ 8) i) = v mod 2 ^ j.
Proof.
  intros Hi ->. apply Z.bits_inj'. intros n Hn. rewrite Z.lor_spec, Z.shiftl_spec by lia.
  destruct (Z.lt_ge_cases n i) as [Hlt|Hge].
  - rewrite Z.mod_pow2_bits_low, (Z.testbit_neg_r _ (n - i)) by lia.
    by rewrite Z.mod_pow2_bits_low, orb_false_r by lia.
  - rewrite Z.mod_pow2_bits_high by lia. cbn [orb].
    destruct (Z.lt_ge_cases n (i + 8)) as [Hlt|Hge'].
    + rewrite !Z.mod_pow2_bits_low, Z.shiftr_spec by lia. f_equal. lia.
    + by rewrite !Z.mod_pow2_bits_high by lia.
Qed.

Lemma length_wal_put_u32 v : length (tr_wal_put_u32 v) = 4%nat.
Proof. done. Qed.

Lemma length_wal_put_u64 v : length (tr_wal_put_u64 v) = 8%nat.
Proof. done. Qed.

#[export] Hint Rewrite length_wal_put_u32 length_wal_put_u64 : wire.

Lemma u64_chunk v i : 0 <= i <= 56 -> u64 (Z.shiftl (u8 v) i) = Z.shiftl (v mod 2 ^ 8) i.
Proof.
  intros Hi. apply u64_small. pose proof (Z.mod_pos_bound v (2 ^ 8)).
  rewrite Z.shiftl_mul_pow2 by lia. unfold u8.
  assert (0 < 2 ^ i <= 2 ^ 56) by (split; [apply Z.pow_pos_nonneg; lia|apply Z.pow_le_mono_r; lia]).
  change (2 ^ 64) with (2 ^ 8 * 2 ^ 56). nia.
Qed.

Lemma wal_get_put_u64 v rest : 0 <= v < 2 ^ 64 -> tr_wal_get_u64 (tr_wal_put_u64 v ++ rest) = v.
Proof.
  intros Hv. unfold tr_wal_get_u64, tr_wal_put_u64.
  cbn [seq fmap list_fmap fold_left app].
  unfold byte_at. cbn [nth]. rewrite !u64_chunk by lia. rewrite Z.lor_0_l.
  rewrite Z.shiftr_0_r, Z.shiftl_0_r.
  change (8 * Z.of_nat 1) with 8. change (8 * Z.of_nat 2) with 16.
  change (8 * Z.of_nat 3) with 24. change (8 * Z.of_nat 4) with 32.
  change (8 * Z.of_nat 5) with 40. change (8 * Z.of_nat 6) with 48.
  change (8 * Z.of_nat 7) with 56.
  rewrite (lor_chunk v 8 16), (lor_chunk v 16 24), (lor_chunk v 24 32), (lor_chunk v 32 40),
    (lor_chunk v 40 48), (lor_chunk v 48 56), (lor_chunk v 56 64) by lia.
  apply Z.mod_small. lia.
Qed.

Lemma wal_get_put_u32 v rest : 0 <= v < 2 ^ 32 -> tr_wal_get_u32 (tr_wal_put_u32 v ++ rest) = v.
Proof.
  intros Hv. unfold tr_wal_get_u32, tr_wal_put_u32, byte_at. cbn [app nth].
  assert (forall x i, 0 <= i <= 24 -> u32 (Z.shiftl (u8 x) i) = Z.shiftl (x mod 2 ^ 8) i) as E.
  { intros x i Hi. apply u32_small. pose proof (Z.mod_pos_bound x (2 ^ 8)).
    rewrite Z.shiftl_mul_pow2 by lia. unfold u8.
    assert (0 < 2 ^ i <= 2 ^ 24) by (split; [apply Z.pow_pos_nonneg; lia|apply Z.pow_le_mono_r; lia]).
    change (2 ^ 32) with (2 ^ 8 * 2 ^ 24). nia. }
  rewrite !E by lia. unfold u8.
  rewrite (lor_chunk v 8 16), (lor_chunk v 16 24), (lor_chunk v 24 32) by lia. apply Z.mod_small. lia.
Qed.

(** ** File names *)

Fixpoint digits_value (acc : Z) (digits : list Z) : Z * list Z :=
  match digits with
  | d :: rest =>
      if (48 <=? d) && (d <=? 57) then digits_value (10 * acc + (d - 48)) rest else (acc, digits)
  | [] => (acc, [])
  end.

Definition is_digit (d : Z) : Prop := 48 <= d <= 57.

Lemma print_loop_spec fuel n digits :
  0 <= n < 10 ^ (Z.of_nat fuel + 1) ->
  exists ds, print_loop fuel n digits = ds ++ digits /\ Forall is_digit ds /\
    (length ds <= S fuel)%nat /\
    forall acc rest, exists k, digits_value acc (ds ++ rest) = digits_value (acc * 10 ^ k + n) rest /\
      0 <= k.
Proof.
  revert n digits. induction fuel as [|fuel IH]; intros n digits Hn.
  - exists [48 + n mod 10]. cbn in Hn. rewrite Z.mod_small by lia.
    cbn [print_loop app]. rewrite Z.mod_small by lia. split_and!; try done.
    + constructor; [|constructor]. unfold is_digit. lia.
    + intros acc rest. exists 1. cbn [digits_value].
      replace (_ && _) with true by (symmetry; lia). split; [f_equal; lia|lia].
  - cbn [print_loop]. pose proof (Z.mod_pos_bound n 10 ltac:(lia)). pose proof (Z.div_mod n 10 ltac:(lia)).
    destruct (n / 10 =? 0) eqn:Hz.
    + exists [48 + n mod 10]. split_and!; try done.
      * constructor; [|constructor]. unfold is_digit. lia.
      * cbn. lia.
      * intros acc rest. exists 1. cbn [app digits_value].
        replace (_ && _) with true by (symmetry; lia). split; [f_equal; lia|lia].
    + destruct (IH (n / 10) (48 + n mod 10 :: digits)) as (ds & E & F & L & V).
      { split; [apply Z.div_pos; lia|]. apply Z.div_lt_upper_bound; [lia|].
        replace (Z.of_nat (S fuel) + 1) with (1 + (Z.of_nat fuel + 1)) in Hn by lia.
        rewrite Z.pow_add_r in Hn by lia. lia. }
      exists (ds ++ [48 + n mod 10]). rewrite E, <- app_assoc. split_and!; try done.
      * apply Forall_app. split; [done|]. constructor; [|constructor]. unfold is_digit. lia.
      * rewrite length_app. cbn. lia.
      * intros acc rest. rewrite <- app_assoc.
        destruct (V acc ([48 + n mod 10] ++ rest)) as (k & -> & Hk). exists (k + 1).
        cbn [app digits_value]. replace (_ && _) with true by (symmetry; lia).
        rewrite Z.pow_add_r by lia. split; [f_equal; lia|lia].
Qed.

Lemma print_llu_spec n :
  0 <= n < 2 ^ 64 ->
  Forall is_digit (print_llu n) /\ (length (print_llu n) <= 20)%nat /\
  forall rest, digits_value 0 (print_llu n ++ rest) = digits_value n rest.
Proof.
  intros Hn. destruct (print_loop_spec 19 n []) as (ds & E & F & L & V).
  { change (Z.of_nat 19 + 1) with 20. lia. }
  unfold print_llu. rewrite E, app_nil_r. split_and!; try done.
  intros rest. destruct (V 0 rest) as (k & -> & _). by rewrite Z.mul_0_l.
Qed.

Lemma digits_value_zeros k rest : digits_value 0 (replicate k 48 ++ rest) = digits_value 0 rest.
Proof. induction k as [|k IH]; [done|]. apply IH. Qed.

Lemma print_08llu_spec n :
  0 <= n < 2 ^ 64 ->
  Forall is_digit (print_08llu n) /\ (length (print_08llu n) <= 20)%nat /\
  (1 <= length (print_08llu n))%nat /\
  forall rest, digits_value 0 (print_08llu n ++ rest) = digits_value n rest.
Proof.
  intros Hn. destruct (print_llu_spec n Hn) as (F & L & V). unfold print_08llu. split_and!.
  - apply Forall_app. split; [|done]. apply list.Forall_forall. intros x Hx.
    apply elem_of_replicate_inv in Hx as ->. unfold is_digit. lia.
  - rewrite length_app, length_replicate. lia.
  - rewrite length_app, length_replicate. lia.
  - intros rest. by rewrite <- app_assoc, digits_value_zeros.
Qed.

Inductive wal_name :=
| SegmentName (sequence : Z)
| SegmentTemporary (sequence : Z)
| ManifestName
| ManifestTemporary
| SnapshotName (index term : Z)
| SnapshotTemporary (index term : Z)
| LockName.

Definition name_suffix (n : wal_name) : list Z :=
  match n with
  | SegmentName seq => bytes_of "." ++ print_08llu seq ++ bytes_of ".wal"
  | SegmentTemporary seq => (bytes_of "." ++ print_08llu seq ++ bytes_of ".wal") ++ bytes_of ".tmp"
  | ManifestName => bytes_of ".manifest" ++ []
  | ManifestTemporary => bytes_of ".manifest" ++ bytes_of ".tmp"
  | SnapshotName i t =>
      bytes_of ".snapshot." ++ print_llu i ++ bytes_of "." ++ print_llu t ++ []
  | SnapshotTemporary i t =>
      bytes_of ".snapshot." ++ print_llu i ++ bytes_of "." ++ print_llu t ++ bytes_of ".tmp"
  | LockName => bytes_of ".lock"
  end.

Definition name_in_range (n : wal_name) : Prop :=
  match n with
  | SegmentName seq | SegmentTemporary seq => 0 <= seq < 2 ^ 64
  | SnapshotName i t | SnapshotTemporary i t => 0 <= i < 2 ^ 64 /\ 0 <= t < 2 ^ 64
  | _ => True
  end.

(** The name a suffix stands for. *)
Definition parse_suffix (suffix : list Z) : wal_name :=
  let rest := drop 1 suffix in
  let c := byte_at rest 0 in
  if c =? 109 then if bool_decide (length rest = 8%nat) then ManifestName else ManifestTemporary
  else if c =? 108 then LockName
  else if c =? 115 then
    let '(i, rest) := digits_value 0 (drop 9 rest) in
    let '(t, rest) := digits_value 0 (drop 1 rest) in
    if bool_decide (length rest = 0%nat) then SnapshotName i t else SnapshotTemporary i t
  else
    let '(seq, rest) := digits_value 0 rest in
    if bool_decide (length rest = 4%nat) then SegmentName seq else SegmentTemporary seq.

Lemma parse_segment seq rest :
  0 <= seq < 2 ^ 64 -> digits_value seq rest = (seq, rest) ->
  parse_suffix (bytes_of "." ++ print_08llu seq ++ rest) =
  if bool_decide (length rest = 4%nat) then SegmentName seq else SegmentTemporary seq.
Proof.
  intros Hr E. destruct (print_08llu_spec seq Hr) as (F & _ & L & V). unfold parse_suffix.
  change (drop 1 (bytes_of "." ++ print_08llu seq ++ rest)) with (print_08llu seq ++ rest).
  rewrite V, E. set (c := byte_at _ _).
  assert (is_digit c) as Hc.
  { unfold c, byte_at. destruct (print_08llu seq) as [|d ds]; [cbn in L; lia|].
    by apply Forall_cons_1 in F as [Hd _]. }
  unfold is_digit in Hc.
  replace (c =? 109) with false by lia. replace (c =? 108) with false by lia.
  by replace (c =? 115) with false by lia.
Qed.

Lemma parse_snapshot i t rest :
  0 <= i < 2 ^ 64 -> 0 <= t < 2 ^ 64 -> digits_value t rest = (t, rest) ->
  parse_suffix (bytes_of ".snapshot." ++ print_llu i ++ bytes_of "." ++ print_llu t ++ rest) =
  if bool_decide (length rest = 0%nat) then SnapshotName i t else SnapshotTemporary i t.
Proof.
  intros Hi Ht E. destruct (print_llu_spec i Hi) as (_ & _ & Vi).
  destruct (print_llu_spec t Ht) as (_ & _ & Vt). unfold parse_suffix.
  set (tail := print_llu i ++ _).
  change (drop 1 (bytes_of ".snapshot." ++ tail)) with (bytes_of "snapshot." ++ tail).
  change (byte_at (bytes_of "snapshot." ++ tail) 0) with 115.
  change (drop 9 (bytes_of "snapshot." ++ tail)) with tail. unfold tail. rewrite Vi.
  change (digits_value i (bytes_of "." ++ print_llu t ++ rest))
    with (i, bytes_of "." ++ print_llu t ++ rest).
  cbv beta iota. change (drop 1 (bytes_of "." ++ print_llu t ++ rest)) with (print_llu t ++ rest).
  by rewrite Vt, E.
Qed.

Lemma parse_name n : name_in_range n -> parse_suffix (name_suffix n) = n.
Proof.
  destruct n as [seq|seq| | |i t|i t|]; cbn [name_in_range name_suffix]; intros Hr; try done.
  - by rewrite (parse_segment seq (bytes_of ".wal")).
  - rewrite <- !app_assoc. by rewrite (parse_segment seq (bytes_of ".wal" ++ bytes_of ".tmp")).
  - destruct Hr as [Hi Ht]. by rewrite (parse_snapshot i t []).
  - destruct Hr as [Hi Ht]. by rewrite (parse_snapshot i t (bytes_of ".tmp")).
Qed.

Definition name_path (prefix : list Z) (n : wal_name) : path := prefix ++ name_suffix n.

Lemma name_path_inj prefix n m :
  name_in_range n -> name_in_range m -> name_path prefix n = name_path prefix m -> n = m.
Proof.
  unfold name_path. intros Hn Hm E. apply app_inv_head in E.
  by rewrite <- (parse_name n Hn), <- (parse_name m Hm), E.
Qed.

Lemma name_length n : name_in_range n -> (length (name_suffix n) <= 55)%nat.
Proof.
  destruct n as [seq|seq| | |i t|i t|]; cbn [name_in_range name_suffix]; intros Hr;
    try (cbn; lia).
  1,2: destruct (print_08llu_spec seq Hr) as (_ & L & _); rewrite !length_app; cbn -[print_08llu]; lia.
  all: destruct Hr as [Hi Ht]; destruct (print_llu_spec i Hi) as (_ & Li & _);
    destruct (print_llu_spec t Ht) as (_ & Lt & _); rewrite !length_app; cbn -[print_llu]; lia.
Qed.

(** ** Headers *)

Section Headers.
Context `{Xxh3Laws}.

Lemma length_manifest_header first last : length (manifest_header first last) = 40%nat.
Proof. done. Qed.

Lemma manifest_header_fields first last :
  0 <= first < 2 ^ 64 -> 0 <= last < 2 ^ 64 ->
  let header := manifest_header first last in
  take 8 header = TR_WAL_MANIFEST_MAGIC /\
  tr_wal_get_u32 (drop 8 header) = TR_WAL_FORMAT_VERSION /\
  tr_wal_get_u32 (drop 12 header) = TR_WAL_MANIFEST_HEADER_SIZE /\
  tr_wal_get_u64 (drop 32 header) = tr_wal_manifest_checksum header /\
  tr_wal_get_u64 (drop 16 header) = first /\ tr_wal_get_u64 (drop 24 header) = last.
Proof.
  intros Hf Hl header. split_and!; try reflexivity.
  - change (drop 32 header) with (tr_wal_put_u64 (tr_wal_manifest_checksum header) ++ []).
    apply wal_get_put_u64, xxh_range.
  - by apply (wal_get_put_u64 first (drop 24 header)).
  - by apply (wal_get_put_u64 last (drop 32 header)).
Qed.

Lemma length_segment_header sequence : length (segment_header sequence) = 32%nat.
Proof. done. Qed.

Lemma segment_header_fields sequence :
  0 <= sequence < 2 ^ 64 ->
  let header := segment_header sequence in
  take 8 header = TR_WAL_SEGMENT_MAGIC /\
  tr_wal_get_u32 (drop 8 header) = TR_WAL_FORMAT_VERSION /\
  tr_wal_get_u32 (drop 12 header) = TR_WAL_SEGMENT_HEADER_SIZE /\
  tr_wal_get_u64 (drop 16 header) = sequence /\
  tr_wal_get_u64 (drop 24 header) = tr_wal_segment_checksum header.
Proof.
  intros Hs header. split_and!; try reflexivity.
  - by apply (wal_get_put_u64 sequence (drop 24 header)).
  - change (drop 24 header) with (tr_wal_put_u64 (tr_wal_segment_checksum header) ++ []).
    apply wal_get_put_u64, xxh_range.
Qed.

Lemma length_transaction_header id previous size checksum :
  length (transaction_header id previous size checksum) = 48%nat.
Proof. done. Qed.

Lemma transaction_header_fields id previous size checksum rest :
  0 <= id < 2 ^ 64 -> 0 <= previous < 2 ^ 64 -> 0 <= size < 2 ^ 64 -> 0 <= checksum < 2 ^ 64 ->
  let header := transaction_header id previous size checksum ++ rest in
  take 8 header = TR_WAL_TRANSACTION_MAGIC /\
  tr_wal_get_u32 (drop 8 header) = TR_WAL_FORMAT_VERSION /\
  tr_wal_get_u32 (drop 12 header) = TR_WAL_TRANSACTION_HEADER_SIZE /\
  tr_wal_get_u64 (drop 16 header) = id /\ tr_wal_get_u64 (drop 24 header) = previous /\
  tr_wal_get_u64 (drop 32 header) = size /\ tr_wal_get_u64 (drop 40 header) = checksum.
Proof.
  intros Hi Hp Hs Hc header. split_and!; try reflexivity.
  - by apply (wal_get_put_u64 id (drop 24 header)).
  - by apply (wal_get_put_u64 previous (drop 32 header)).
  - by apply (wal_get_put_u64 size (drop 40 header)).
  - by apply (wal_get_put_u64 checksum (drop 48 header)).
Qed.

(** The checksum does not depend on its own field. *)
Lemma transaction_checksum_stable id previous size c c' payload :
  tr_wal_transaction_checksum (transaction_header id previous size c ++ payload) size =
  tr_wal_transaction_checksum (transaction_header id previous size c' ++ payload) size.
Proof.
  unfold tr_wal_transaction_checksum.
  change (drop (Z.to_nat TR_WAL_TRANSACTION_HEADER_SIZE) (transaction_header id previous size c ++ payload))
    with payload.
  change (drop (Z.to_nat TR_WAL_TRANSACTION_HEADER_SIZE) (transaction_header id previous size c' ++ payload))
    with payload.
  reflexivity.
Qed.

Lemma length_transaction_frame id previous payload :
  length (transaction_frame id previous payload) = (48 + length payload)%nat.
Proof. unfold transaction_frame. by rewrite length_app, length_transaction_header. Qed.

Lemma snapshot_header_fields index term size checksum :
  0 <= index < 2 ^ 64 -> 0 <= term < 2 ^ 64 -> 0 <= size < 2 ^ 64 -> 0 <= checksum < 2 ^ 64 ->
  let header := snapshot_header index term size checksum in
  take 8 header = TR_WAL_SNAPSHOT_MAGIC /\
  tr_wal_get_u32 (drop 8 header) = TR_WAL_FORMAT_VERSION /\
  tr_wal_get_u32 (drop 12 header) = TR_WAL_SNAPSHOT_HEADER_SIZE /\
  tr_wal_get_u64 (drop 16 header) = index /\ tr_wal_get_u64 (drop 24 header) = term /\
  tr_wal_get_u64 (drop 32 header) = size /\ tr_wal_get_u64 (drop 40 header) = checksum.
Proof.
  intros Hi Ht Hs Hc header. split_and!; try reflexivity.
  - by apply (wal_get_put_u64 index (drop 24 header)).
  - by apply (wal_get_put_u64 term (drop 32 header)).
  - by apply (wal_get_put_u64 size (drop 40 header)).
  - by apply (wal_get_put_u64 checksum (drop 48 header)).
Qed.
End Headers.
