(* ===== verification/WalRead.v ===== *)
(** * Reading the write-ahead log

    On a system whose reading calls do not fail, the files the log writes are
    read back: the manifest, a snapshot file, a segment header and a frame. *)

From S2P Require Import Prelude Configuration Bytes Wire Digest Os SnapshotSender Wal WalCodec.
From Stdlib Require Import ZArith Lia.
From stdpp Require Import base numbers list tactics strings.
Open Scope Z_scope.
Open Scope raft_scope.

Section Read.
Context `{OsReadable} `{!Sha256Total} `{Xxh3Total}.
Implicit Types s : tr_raft_wal_storage.

(** Calls that read leave the view as it is. *)
Abbreviation same_view e e' := (same (os_view e) (os_view e')).

(** ** Limits *)

(** What the storage is opened with, and never changes. *)
Record wal_limits := WalLimits {
  lm_prefix : list Z;
  lm_capacity : Z;
  lm_segment_bytes : Z;
  lm_live_segments : Z;
  lm_log_entries : Z;
  lm_snapshot_bytes : Z
}.

Definition limits (s : tr_raft_wal_storage) : wal_limits :=
  WalLimits (wl_path_prefix s) (wl_transaction_capacity s) (wl_segment_bytes s)
    (wl_max_live_segments s) (wl_max_log_entries s) (wl_max_snapshot_bytes s).

Record limits_ok (l : wal_limits) : Prop := {
  lo_capacity : 48 <= lm_capacity l <= lm_segment_bytes l - 32;
  lo_segment : lm_segment_bytes l <= INT_MAX;
  lo_live : 1 <= lm_live_segments l <= TR_RAFT_WAL_MAX_LIVE_SEGMENTS;
  lo_prefix : Z.of_nat (length (lm_prefix l)) + 64 < SALTS_FS_MAX_PATH;
  lo_entries : 1 <= lm_log_entries l < 2 ^ 64;
  lo_snapshot : 0 <= lm_snapshot_bytes l < 2 ^ 63
}.

Lemma name_fits l n :
  limits_ok l -> name_in_range n ->
  fitting_path (name_path (lm_prefix l) n) = (SALTS_OK, name_path (lm_prefix l) n).
Proof.
  intros Hl Hn. unfold fitting_path, name_path. rewrite length_app.
  pose proof (name_length n Hn). pose proof (lo_prefix l Hl). by rewrite (proj2 (Z.leb_gt _ _)) by lia.
Qed.

(** ** Bytes of an open file *)

Lemma read_loop_spec fuel e f offset size used p pos c :
  v_handle (os_view e) f = Some (p, pos) -> v_now (os_view e) p = Some c ->
  0 <= offset -> 0 <= size -> offset + size <= Zlength_ c ->
  used = take (length used) (drop (Z.to_nat offset) c) -> Zlength_ used <= size ->
  size - Zlength_ used <= Z.of_nat fuel ->
  exists e', same_view e e' /\
    read_loop fuel e f offset size used =
    (e', SALTS_OK, take (Z.to_nat size) (drop (Z.to_nat offset) c)).
Proof.
  revert e used. induction fuel as [|fuel IH]; intros e used Hh Hc Ho Hs Hb Hu Hul Hf.
  - exists e. split; [reflexivity|]. cbn [read_loop]. rewrite (proj2 (Z.leb_le _ _)) by lia.
    by rewrite Hu at 1; replace (length used) with (Z.to_nat size) by lia.
  - cbn [read_loop]. destruct (size <=? Zlength_ used) eqn:Hd.
    { exists e. split; [reflexivity|]. rewrite Hu at 1.
      by replace (length used) with (Z.to_nat size) by lia. }
    destruct (readable_pread e f p pos c (size - Zlength_ used) (offset + Zlength_ used))
      as (e1 & b & bytes & Hp); [done|done|lia|lia|]. rewrite Hp.
    destruct (law_pread _ _ _ _ _ _ Hp) as [Hsame Hbytes].
    destruct (Hbytes _ p pos c eq_refl Hh Hc ltac:(lia) ltac:(lia)) as (k & Hk & Hbk).
    destruct (IH e1 (used ++ b :: bytes)) as (e' & Hs' & ->); try done.
    + by rewrite (same_handle _ _ f Hsame).
    + by rewrite (same_now _ _ p Hsame).
    + rewrite length_app. rewrite Hbk at 1. rewrite Hu at 1.
      replace (Z.to_nat (offset + Zlength_ used)) with (Z.to_nat offset + length used)%nat by lia.
      rewrite <- drop_drop. set (d := drop (Z.to_nat offset) c).
      assert (length (b :: bytes) = Nat.min k (length (drop (length used) d))) as ->.
      { rewrite Hbk, length_take. do 2 f_equal. unfold d. rewrite drop_drop. f_equal. lia. }
      rewrite <- (take_take_drop d). f_equal.
      destruct (Nat.le_ge_cases k (length (drop (length used) d))).
      * by rewrite Nat.min_l by lia.
      * rewrite Nat.min_r by lia. by rewrite !take_ge by lia.
    + rewrite length_app, Hbk, length_take. lia.
    + rewrite length_app. cbn [length]. lia.
    + exists e'. split; [by etrans|done].
Qed.

Lemma read_exact_spec e f offset size p pos c :
  v_handle (os_view e) f = Some (p, pos) -> v_now (os_view e) p = Some c ->
  0 <= offset -> 0 <= size -> offset + size <= Zlength_ c ->
  exists e', same_view e e' /\
    tr_wal_read_exact e f offset size =
    (e', SALTS_OK, take (Z.to_nat size) (drop (Z.to_nat offset) c)).
Proof. intros. unfold tr_wal_read_exact. eapply read_loop_spec; try done; cbn; lia. Qed.

(** The files, whatever handles are open. *)
Definition same_files_view e e' : Prop := files_kept nothing (os_view e) (os_view e').

#[export] Instance same_files_view_preorder : PreOrder same_files_view.
Proof. split; [intros e; apply files_kept_refl|intros e1 e2 e3; apply files_kept_trans]. Qed.

Lemma same_view_files e e' : same_view e e' -> same_files_view e e'.
Proof. by intros []. Qed.

Lemma same_files_now e e' p : same_files_view e e' -> v_now (os_view e') p = v_now (os_view e) p.
Proof. intros Hf. apply Hf. by intros []. Qed.

Lemma close_after_ok e f :
  exists e', close_after e f SALTS_OK = (e', SALTS_OK) /\ same_files_view e e' /\
    handles_kept (eq f) (os_view e) (os_view e').
Proof.
  unfold close_after. destruct (cmeta_fs_close e f) as [e' r] eqn:E.
  destruct (law_close _ _ _ _ E) as [Hf Hh]. pose proof (readable_close e f) as Hr.
  rewrite E in Hr. cbn in Hr. subst r. by exists e'.
Qed.

(** Opening a file that is there, for reading. *)
Lemma open_readable e p c :
  v_now (os_view e) p = Some c ->
  exists e' f, cmeta_fs_open e p RDONLY = (e', Some f) /\ same_files_view e e' /\
    v_handle (os_view e) f = None /\ v_handle (os_view e') f = Some (p, 0) /\
    handles_kept (eq f) (os_view e) (os_view e') /\ v_now (os_view e') p = Some c.
Proof.
  intros Hc. destruct (cmeta_fs_open e p RDONLY) as [e' r] eqn:E.
  pose proof (readable_open e p RDONLY eq_refl) as Ho. rewrite E, Hc in Ho.
  destruct r as [f|]; [|by destruct (Ho ltac:(done))].
  destruct (law_open _ _ _ _ _ E) as ((G1 & G2 & G3) & Hf & _ & _).
  assert (same_files_view e e') as Hs.
  { eapply files_kept_weaken; [exact Hf|]. by intros q [[=] _]. }
  exists e', f. split_and!; try done. by rewrite (same_files_now _ _ _ Hs).
Qed.

(** A file opened, read and closed leaves the view as it was, but for the
    handle that was not in use. *)
Definition quiet e e' : Prop :=
  same_files_view e e' /\ forall f h, v_handle (os_view e) f = Some h ->
    v_handle (os_view e') f = Some h.

#[export] Instance quiet_preorder : PreOrder quiet.
Proof.
  split.
  - intros e. split; [reflexivity|done].
  - intros e1 e2 e3 [F1 G1] [F2 G2]. split; [by etrans|auto].
Qed.

Lemma same_quiet e e' : same_view e e' -> quiet e e'.
Proof.
  intros Hs. split; [by apply same_view_files|]. intros f h Hf. by rewrite (same_handle _ _ f Hs).
Qed.

Lemma quiet_now e e' p : quiet e e' -> v_now (os_view e') p = v_now (os_view e) p.
Proof. intros [Hf _]. by apply same_files_now. Qed.

(** What an opened file is used for keeps its handle until it is closed. *)
Lemma opened_quiet e e1 e2 e3 f p :
  v_handle (os_view e) f = None -> handles_kept (eq f) (os_view e) (os_view e1) ->
  same_files_view e e1 -> v_handle (os_view e1) f = Some (p, 0) -> quiet e1 e2 ->
  same_files_view e2 e3 -> handles_kept (eq f) (os_view e2) (os_view e3) -> quiet e e3.
Proof.
  intros Hn Hk Hs Hf [F12 G12] F23 G23. split; [by do 2 (etrans; [done|])|].
  intros g h Hg. assert (f <> g) by congruence. rewrite (G23 g) by done.
  apply G12. by rewrite (Hk g).
Qed.

(** A file read through a handle of its own. *)
Lemma read_file e p c offset size :
  v_now (os_view e) p = Some c -> 0 <= offset -> 0 <= size -> offset + size <= Zlength_ c ->
  exists e1 f e2 e3, cmeta_fs_open e p RDONLY = (e1, Some f) /\
    tr_wal_read_exact e1 f offset size =
      (e2, SALTS_OK, take (Z.to_nat size) (drop (Z.to_nat offset) c)) /\
    close_after e2 f SALTS_OK = (e3, SALTS_OK) /\ quiet e e3.
Proof.
  intros Hc Ho Hs Hb. destruct (open_readable e p c Hc) as (e1 & f & E1 & S1 & N1 & G1 & K1 & C1).
  destruct (read_exact_spec e1 f offset size p 0 c) as (e2 & S2 & E2); try done.
  destruct (close_after_ok e2 f) as (e3 & E3 & S3 & K3).
  exists e1, f, e2, e3. split_and!; try done. eapply (opened_quiet e e1 e2); try done.
  by apply same_quiet.
Qed.

Lemma stat_readable e p c :
  v_now (os_view e) p = Some c ->
  exists e', cmeta_fs_stat e p = (e', SALTS_OK, FsStat true (Zlength_ c)) /\ quiet e e'.
Proof.
  intros Hc. destruct (readable_stat e p c Hc) as (e' & st & E & Hf).
  destruct (law_stat _ _ _ _ _ E) as [Hs Hst]. destruct (Hst eq_refl Hf) as (c' & Hc' & Hl).
  exists e'. split; [|by apply same_quiet]. rewrite Hc in Hc'. injection Hc' as <-.
  destruct st as [isf sz]. cbn in Hf, Hl. by subst.
Qed.

Lemma access_readable e p c :
  v_now (os_view e) p = Some c ->
  exists e', cmeta_fs_access e p = (e', SALTS_OK) /\ quiet e e'.
Proof.
  intros Hc. destruct (cmeta_fs_access e p) as [e' r] eqn:E.
  destruct (law_access _ _ _ _ E) as [Hs [_ Hr]]. exists e'. rewrite Hr by congruence.
  split; [done|]. by apply same_quiet.
Qed.

Lemma malloc_readable e : exists e', os_malloc e = (e', true) /\ quiet e e'.
Proof.
  destruct (os_malloc e) as [e' r] eqn:E. pose proof (readable_malloc e) as Hm.
  rewrite E in Hm. cbn in Hm. subst r. exists e'. split; [done|]. by eapply same_quiet, law_malloc.
Qed.

(** ** The manifest *)

Definition range_ok (l : wal_limits) (first last : Z) : Prop :=
  1 <= first <= last /\ last < 2 ^ 64 /\ last - first < lm_live_segments l.

Lemma live_range_valid_iff s first last :
  limits_ok (limits s) -> 0 <= first < 2 ^ 64 -> 0 <= last < 2 ^ 64 ->
  tr_wal_live_range_valid s first last = true <-> range_ok (limits s) first last.
Proof.
  intros Hl Hf Hla. unfold tr_wal_live_range_valid, range_ok, limits. cbn [lm_live_segments].
  pose proof (lo_live _ Hl) as Hs. unfold limits in Hs. cbn [lm_live_segments] in Hs.
  destruct (first =? 0) eqn:E1, (last <? first) eqn:E2, (wl_max_live_segments s =? 0) eqn:E3;
    cbn [orb]; try (split; [discriminate|lia]).
  rewrite u64_small by lia. lia.
Qed.

Lemma read_manifest_spec s e first last :
  limits_ok (limits s) -> range_ok (limits s) first last ->
  v_now (os_view e) (name_path (wl_path_prefix s) ManifestName) =
    Some (manifest_header first last) ->
  exists e', tr_wal_read_manifest s e = (e', SALTS_OK, Some (first, last)) /\ quiet e e'.
Proof.
  intros Hl Hr Hm. unfold tr_wal_read_manifest, tr_wal_manifest_path.
  change (fitting_path _) with (fitting_path (name_path (lm_prefix (limits s)) ManifestName)).
  rewrite (name_fits _ ManifestName) by done. cbn [failed].
  set (p := name_path _ _) in *.
  destruct (access_readable e p _ Hm) as (e1 & -> & Q1). cbn [failed].
  rewrite <- (quiet_now _ _ _ Q1) in Hm.
  destruct (stat_readable e1 p _ Hm) as (e2 & -> & Q2). cbn [failed orb negb fs_is_file fs_size].
  rewrite length_manifest_header. change (Z.of_nat 40 =? TR_WAL_MANIFEST_HEADER_SIZE) with true.
  cbn [negb]. rewrite <- (quiet_now _ _ _ Q2) in Hm.
  destruct (read_file e2 p _ 0 TR_WAL_MANIFEST_HEADER_SIZE Hm) as (e3 & f & e4 & e5 & -> & R & C & Q3);
    [done|done|by rewrite length_manifest_header|].
  rewrite R, C. cbn [failed].
  destruct Hr as (Hf & Hla & Hlive).
  destruct (manifest_header_fields first last) as (M1 & M2 & M3 & M4 & M5 & M6); [lia|lia|].
  change (Z.to_nat 0) with 0%nat. rewrite drop_0, (take_ge (manifest_header first last)) by done.
  rewrite M1, M2, M3, M4, M5, M6, bool_decide_eq_true_2, !Z.eqb_refl by done. cbn [negb orb].
  rewrite (proj2 (live_range_valid_iff s first last Hl ltac:(lia) ltac:(lia))) by (split; lia).
  exists e5. split; [done|]. by do 2 (etrans; [done|]).
Qed.
End Read.
