(* ===== verification/WalRecovery.v ===== *)
(** * What replay returns

    Whatever the files hold, a recovery that replay returns is well formed:
    the entries continue the snapshot, and none is larger than the storage was
    opened for. *)

From S2P Require Import Prelude Configuration Bytes Wire Digest Os SnapshotSender Wal WalCodec WalRead.
From Stdlib Require Import ZArith Lia.
From stdpp Require Import base numbers list tactics strings.
Open Scope Z_scope.
Open Scope raft_scope.

Lemma lor_lt_pow2 a b n :
  0 <= n -> 0 <= a < 2 ^ n -> 0 <= b < 2 ^ n -> 0 <= Z.lor a b < 2 ^ n.
Proof.
  intros Hn Ha Hb. assert (0 <= Z.lor a b) as H0 by (apply Z.lor_nonneg; lia). split; [done|].
  destruct (Z.eq_dec (Z.lor a b) 0) as [->|Hne]; [lia|].
  apply Z.log2_lt_pow2; [lia|]. rewrite Z.log2_lor by lia.
  assert (0 < n).
  { destruct (Z.eq_dec n 0) as [->|]; [|lia]. cbn in Ha, Hb.
    replace a with 0 in Hne by lia. replace b with 0 in Hne by lia. done. }
  apply Z.max_lub_lt.
  - destruct (Z.eq_dec a 0) as [->|]; [cbn; lia|]. apply Z.log2_lt_pow2; lia.
  - destruct (Z.eq_dec b 0) as [->|]; [cbn; lia|]. apply Z.log2_lt_pow2; lia.
Qed.

Lemma wal_get_u64_range input : 0 <= tr_wal_get_u64 input < 2 ^ 64.
Proof.
  unfold tr_wal_get_u64. assert (forall indices v, 0 <= v < 2 ^ 64 ->
    0 <= fold_left (fun value index =>
      Z.lor value (u64 (Z.shiftl (byte_at input index) (8 * Z.of_nat index)))) indices v < 2 ^ 64) as Hf.
  { induction indices as [|i indices IH]; intros v Hv; [done|]. cbn [fold_left]. apply IH.
    apply lor_lt_pow2; [lia|done|apply u64_range]. }
  apply Hf. lia.
Qed.

Section Recovery.
Context `{Os} `{Xxh3}.
Implicit Types s : tr_raft_wal_storage.
Implicit Types r : tr_raft_wal_recovery.
Implicit Types l : wal_limits.

(** The [k]th entry after a snapshot at [base]. *)
Record recovered_entry (base : Z) (k : nat) (entry : tr_raft_entry) : Prop := {
  re_index : entry_index entry = u64 (base + Z.of_nat k + 1);
  re_term : entry_term entry <> 0;
  re_length : entry_data_length entry = Z.of_nat (length (entry_data entry));
  re_bound : entry_data_length entry <= TR_RAFT_MAX_ENTRY_BYTES
}.

Record recovery_wf l r : Prop := {
  rw_entries k entry : rc_entries r !! k = Some entry ->
    recovered_entry (rc_snapshot_index r) k entry;
  rw_count : rc_entry_count r <= lm_log_entries l;
  rw_index : 0 <= rc_snapshot_index r < 2 ^ 64;
  rw_commit : rc_snapshot_index r <= rc_commit_index r < 2 ^ 64;
  rw_term : 0 <= rc_snapshot_term r <= rc_term r;
  rw_size : rc_snapshot_size r <= lm_snapshot_bytes l;
  rw_snapshot : rc_snapshot_index r <> 0 ->
    rc_snapshot_term r <> 0 /\ rc_has_snapshot_configuration r = true /\
    tr_raft_conf_validate (rc_snapshot_configuration r) = SALTS_OK
}.

Lemma zero_recovery_wf l :
  0 <= lm_log_entries l -> 0 <= lm_snapshot_bytes l -> recovery_wf l zero_recovery.
Proof. intros He Hs. split; cbn; try done; lia. Qed.

Lemma apply_hard_state_wf l r data r' :
  recovery_wf l r -> apply_hard_state r data = (SALTS_OK, r') -> recovery_wf l r'.
Proof.
  intros [E C I K T S N]. unfold apply_hard_state. destruct (negb _); [done|].
  destruct (_ <? rc_term r) eqn:Ht; [done|]. intros [= <-]. split; try done. cbn. lia.
Qed.

Lemma apply_truncate_wf l r data r' :
  recovery_wf l r -> apply_truncate r data = (SALTS_OK, r') -> recovery_wf l r'.
Proof.
  intros [E C I K T S N]. unfold apply_truncate. destruct (negb _); [done|].
  destruct (_ || _); [done|]. intros [= <-]. split; try done.
  - cbn. intros k entry Hk. apply lookup_take_Some in Hk as [Hk _]. by apply E.
  - unfold rc_entry_count in *. cbn. rewrite length_take. lia.
Qed.

Lemma apply_entry_wf l r data r' :
  recovery_wf l r -> apply_entry (lm_log_entries l) r data = (SALTS_OK, r') -> recovery_wf l r'.
Proof.
  intros [E C I K T S N]. unfold apply_entry. destruct (_ <? 32) eqn:H32; [done|].
  set (data_length := tr_wal_get_u32 (drop 24 data)).
  destruct (_ || _) eqn:Hg; [done|]. rewrite !orb_false_iff, negb_false_iff in Hg.
  destruct Hg as [[[_ Hmax] Hsize%negb_false_iff] Hcount].
  set (entry := Entry _ _ _ _ _). destruct (negb (entry_index entry =? _) || _) eqn:Hi; [done|].
  apply orb_false_iff in Hi as [Hi%negb_false_iff Ht]. apply Z.eqb_eq in Hi.
  intros [= <-]. split; try done.
  - cbn. intros k en Hk. apply lookup_app_Some in Hk as [Hk|[Hle Hk]]; [by apply E|].
    apply list_lookup_singleton_Some in Hk as [Hk <-].
    assert (k = length (rc_entries r)) as -> by lia. split.
    + rewrite Hi. unfold next_log_index, rc_entry_count. apply u64_add_idemp.
    + cbn in Ht |- *. lia.
    + cbn. rewrite length_take, length_drop. lia.
    + cbn. lia.
  - unfold rc_entry_count in *. cbn. rewrite length_app. cbn [length]. lia.
Qed.

Lemma apply_commit_index_wf l r data r' :
  recovery_wf l r -> apply_commit_index r data = (SALTS_OK, r') -> recovery_wf l r'.
Proof.
  intros [E C I K T S N]. unfold apply_commit_index. destruct (negb _); [done|].
  destruct (_ || _) eqn:Hg; [done|]. apply orb_false_iff in Hg as [Hg _].
  intros [= <-]. split; try done. cbn. pose proof (wal_get_u64_range data). lia.
Qed.

(** Reading the file of a snapshot sets the source of the recovery only. *)
Lemma read_snapshot_file_source s r checksum digest e e' r' :
  tr_wal_read_snapshot_file s r checksum digest e = (e', SALTS_OK, r') ->
  exists source, r' = r <| rc_snapshot_source := source |>.
Proof.
  unfold tr_wal_read_snapshot_file. intros Hr. repeat case_match; simplify_eq; by eexists.
Qed.

Lemma snapshot_suffix_entries r index term k entry :
  (forall k entry, rc_entries r !! k = Some entry -> recovered_entry (rc_snapshot_index r) k entry) ->
  0 <= rc_snapshot_index r -> index < 2 ^ 64 ->
  snapshot_suffix r index term !! k = Some entry -> recovered_entry index k entry.
Proof.
  intros Hold H0' Hi. unfold snapshot_suffix. destruct (_ && _) eqn:Hb; [|done].
  apply andb_true_iff in Hb as [Hlo _]. destruct (_ =? term); [|done].
  rewrite (u64_small (index - rc_snapshot_index r)), u64_small by lia.
  rewrite lookup_drop. intros [A B C D]%Hold. split; try done. rewrite A. f_equal. lia.
Qed.

Lemma snapshot_suffix_count r index term :
  (length (snapshot_suffix r index term) <= length (rc_entries r))%nat.
Proof.
  unfold snapshot_suffix. repeat case_match; cbn [length]; try lia. rewrite length_drop. lia.
Qed.

Lemma apply_snapshot_wf s r data e e' r' :
  recovery_wf (limits s) r -> apply_snapshot s r data e = (e', SALTS_OK, r') ->
  recovery_wf (limits s) r'.
Proof.
  intros [E C I K T S N]. unfold apply_snapshot. destruct (_ <? 64); [done|].
  set (leader_term := tr_wal_get_u64 data).
  set (index := tr_wal_get_u64 (drop 8 data)). set (term := tr_wal_get_u64 (drop 16 data)).
  set (size := tr_wal_get_u64 (drop 24 data)). set (commit := tr_wal_get_u64 (drop 40 data)).
  destruct (_ || _) eqn:Hg; [done|]. rewrite !orb_false_iff in Hg.
  destruct Hg as [[[[[[[[[[[[_ _] _] _] Hlt] Hi0] Ht0] Hlst] Hlrt] Hnew] Hsz] Hcs] _].
  destruct (tr_raft_conf_decode _) as [[|] configuration] eqn:Hd; [|done].
  assert (tr_raft_conf_validate configuration = SALTS_OK) as Hv.
  { revert Hd. unfold tr_raft_conf_decode. set (c := Conf _ _ _). do 3 (case_match; [done|]).
    destruct (tr_raft_conf_validate c) eqn:Hc; cbn [failed ok negb]; [|done]. by intros [= <-]. }
  intros (source & ->)%read_snapshot_file_source.
  pose proof (wal_get_u64_range (drop 8 data)). pose proof (wal_get_u64_range (drop 16 data)).
  pose proof (wal_get_u64_range (drop 40 data)).
  split; cbn; fold index term commit size leader_term; try lia.
  - intros k entry Hk. eapply snapshot_suffix_entries; [exact E|lia| |exact Hk]. unfold index. lia.
  - unfold rc_entry_count in *. cbn in C |- *. fold index term.
    pose proof (snapshot_suffix_count r index term). lia.
  - intros _. split_and!; [lia|done|done].
Qed.

Lemma apply_operation_wf s r type data e e' r' :
  recovery_wf (limits s) r -> apply_operation s r type data e = (e', SALTS_OK, r') ->
  recovery_wf (limits s) r'.
Proof.
  intros Hw. unfold apply_operation. repeat case_match; intros [= <- -> <-] || intros Hs.
  - by eapply apply_hard_state_wf.
  - by eapply apply_truncate_wf.
  - by eapply (apply_entry_wf (limits s)).
  - by eapply apply_commit_index_wf.
  - by eapply apply_snapshot_wf.
Qed.

Lemma apply_loop_wf fuel s r payload e e' r' :
  recovery_wf (limits s) r -> apply_loop fuel s r payload e = (e', SALTS_OK, r') ->
  recovery_wf (limits s) r'.
Proof.
  revert r payload e. induction fuel as [|fuel IH]; intros r payload e Hw; cbn [apply_loop].
  { by destruct payload; [intros [= <- <-]|]. }
  destruct payload as [|b payload]; [by intros [= <- <-]|].
  destruct (_ <? TR_WAL_OPERATION_HEADER_SIZE); [done|]. destruct (_ || _); [done|].
  destruct (_ <? _); [done|].
  destruct (apply_operation _ _ _ _ _) as [[e1 res] r1] eqn:Ho.
  destruct res; cbn [failed]; [|done]. apply IH. by eapply apply_operation_wf.
Qed.

Lemma replay_frame_wf s is_first is_last f size rs e e' rs' next :
  recovery_wf (limits s) (rs_recovery rs) ->
  replay_frame s is_first is_last f size rs e = (e', SALTS_OK, rs', next) ->
  recovery_wf (limits s) (rs_recovery rs').
Proof.
  intros Hw. unfold replay_frame. destruct (_ <? TR_WAL_TRANSACTION_HEADER_SIZE).
  { by intros [= <- _ <- <-]. }
  destruct (tr_wal_read_exact _ _ _ _) as [[e1 [|]] header]; cbn [failed ok negb]; [|done].
  top_if; [done|]. cbv zeta. top_if; [done|]. top_if. { by intros [= <- _ <- <-]. }
  destruct (tr_wal_read_exact _ _ _ _) as [[e2 [|]] payload]; cbn [failed ok negb]; [|done].
  top_if; [done|].
  destruct (tr_wal_apply_payload _ _ _ _) as [[e3 [|]] r3] eqn:Ha; cbn [failed ok negb]; [|done].
  top_if; [done|]. intros [= <- <- <-]. by eapply apply_loop_wf.
Qed.

Lemma replay_loop_wf fuel s is_first is_last f size rs e e' rs' :
  recovery_wf (limits s) (rs_recovery rs) ->
  replay_loop fuel s is_first is_last f size rs e = (e', SALTS_OK, rs') ->
  recovery_wf (limits s) (rs_recovery rs').
Proof.
  revert rs e. induction fuel as [|fuel IH]; intros rs e Hw; cbn [replay_loop];
    destruct (size <=? _); try (by intros [= <- <-]); try done.
  destruct (replay_frame _ _ _ _ _ _ _) as [[[e1 res] rs1] [|]] eqn:Hf.
  - assert (res = SALTS_OK) as ->.
    { revert Hf. unfold replay_frame. repeat case_match; by intros [= <- <- <-]. }
    apply IH. by eapply replay_frame_wf.
  - intros [= -> -> ->]. by eapply replay_frame_wf.
Qed.

Lemma replay_segment_wf s sequence is_first is_last rs e e' rs' :
  recovery_wf (limits s) (rs_recovery rs) ->
  tr_wal_replay_segment s sequence is_first is_last rs e = (e', SALTS_OK, rs') ->
  recovery_wf (limits s) (rs_recovery rs').
Proof.
  intros Hw. unfold tr_wal_replay_segment. destruct (tr_wal_segment_path _ _) as [[|] p];
    cbn [failed ok negb]; [|done].
  destruct (cmeta_fs_stat e p) as [[e1 res1] st]. destruct (_ || _); [done|].
  destruct (cmeta_fs_open e1 p RDONLY) as [e2 [f|]]; [|done].
  destruct (tr_wal_read_exact _ _ _ _) as [[e3 res3] header]. set (res := if (_ : bool) then SALTS_EPROTO else res3).
  destruct (ok res) eqn:Hres.
  - destruct (replay_loop _ _ _ _ _ _ _ _) as [[e4 res4] rs4] eqn:Hl.
    destruct (cmeta_fs_close e4 f) as [e5 rc]. intros [= <- -> <-].
    eapply replay_loop_wf; [|exact Hl]. done.
  - destruct (cmeta_fs_close e3 f) as [e5 rc]. intros [= <- Hok <-]. by rewrite Hok in Hres.
Qed.

Lemma replay_segments_wf s first count sequence rs e e' rs' :
  recovery_wf (limits s) (rs_recovery rs) ->
  replay_segments s first count sequence rs e = (e', SALTS_OK, rs') ->
  recovery_wf (limits s) (rs_recovery rs').
Proof.
  revert sequence rs e. induction count as [|count IH]; intros sequence rs e Hw; cbn [replay_segments].
  { by intros [= <- <-]. }
  destruct (tr_wal_segment_path _ _) as [res p].
  destruct (if ok res then _ else _) as [e1 access]. destruct (failed access); [done|].
  destruct (tr_wal_replay_segment _ _ _ _ _ _) as [[e2 [|]] rs2] eqn:Hs; cbn [failed ok negb]; [|done].
  apply IH. by eapply replay_segment_wf.
Qed.

End Recovery.
