(* ===== verification/WalReplay.v ===== *)
(** * Replaying the write-ahead log

    What the files of a log hold ([disk]): a manifest that names a range of
    segments, complete frames with consecutive identifiers whose operations
    lead from the empty recovery to [r], and after the last of them perhaps
    the beginning of one more. On a system whose reading calls do not fail,
    replay returns [r]. *)

From S2P Require Import Prelude Configuration Bytes Wire Digest Os SnapshotSender Wal WalCodec WalRead.
From Stdlib Require Import ZArith Lia.
From stdpp Require Import base numbers list tactics strings.
Open Scope Z_scope.
Open Scope raft_scope.

Section Replay.
Context `{OsReadable} `{!Sha256Total} `{Xxh3Total}.
Implicit Types s : tr_raft_wal_storage.
Implicit Types r : tr_raft_wal_recovery.
Implicit Types l : wal_limits.

(** ** Operations *)

(** The snapshot files a log refers to. *)
Definition present (snaps : path -> option (list Z)) (e : os) : Prop :=
  forall p c, snaps p = Some c -> v_now (os_view e) p = Some c.

Lemma present_quiet snaps e e' : present snaps e -> quiet e e' -> present snaps e'.
Proof. intros Hp Hq p c Hc. rewrite (quiet_now _ _ _ Hq). by apply Hp. Qed.

(** The operations of a payload lead from [r] to [r'] when those files are
    there. *)
Definition applies l (snaps : path -> option (list Z)) (payload : list Z) r r' : Prop :=
  forall s e, limits s = l -> present snaps e ->
    exists e', tr_wal_apply_payload s payload r e = (e', SALTS_OK, r') /\ quiet e e'.

Inductive runs l (snaps : path -> option (list Z)) :
    list (list Z) -> tr_raft_wal_recovery -> tr_raft_wal_recovery -> Prop :=
| runs_nil r : runs l snaps [] r r
| runs_cons payload payloads r r1 r2 :
    applies l snaps payload r r1 -> runs l snaps payloads r1 r2 ->
    runs l snaps (payload :: payloads) r r2.

Lemma runs_app l snaps ps qs r r1 r2 :
  runs l snaps ps r r1 -> runs l snaps qs r1 r2 -> runs l snaps (ps ++ qs) r r2.
Proof. induction 1; intros; [done|]. cbn. econstructor; eauto. Qed.

Lemma runs_app_inv l snaps ps qs r r2 :
  runs l snaps (ps ++ qs) r r2 -> exists r1, runs l snaps ps r r1 /\ runs l snaps qs r1 r2.
Proof.
  revert r. induction ps as [|p ps IH]; intros r Hr.
  - exists r. split; [constructor|done].
  - inversion Hr as [|? ? ? r1 ? Ha Hrest]; subst. destruct (IH r1 Hrest) as (r' & H1' & H2').
    exists r'. split; [by econstructor|done].
Qed.

(** ** Frames *)

(** Frames with consecutive identifiers after [id]. *)
Fixpoint frames_from (id : Z) (payloads : list (list Z)) : list Z :=
  match payloads with
  | [] => []
  | payload :: payloads =>
      transaction_frame (id +64 1) id payload ++ frames_from (id +64 1) payloads
  end.

Definition id_after (id : Z) (payloads : list (list Z)) : Z :=
  fold_left (fun id _ => id +64 1) payloads id.

Lemma frames_from_app id ps qs :
  frames_from id (ps ++ qs) = frames_from id ps ++ frames_from (id_after id ps) qs.
Proof.
  revert id. induction ps as [|p ps IH]; intros id; [done|].
  cbn. by rewrite IH, app_assoc.
Qed.

Lemma id_after_app id ps qs : id_after id (ps ++ qs) = id_after (id_after id ps) qs.
Proof. apply fold_left_app. Qed.

Lemma id_after_range id ps : 0 <= id < 2 ^ 64 -> 0 <= id_after id ps < 2 ^ 64.
Proof.
  revert id. induction ps as [|p ps IH]; intros id Hid; [done|]. apply IH. apply u64_range.
Qed.

Definition payload_ok l (payload : list Z) : Prop :=
  Zlength_ payload <= lm_capacity l - TR_WAL_TRANSACTION_HEADER_SIZE.

(** What a frame that was not written to its end leaves. *)
Definition torn_frame l (id : Z) (torn : list Z) : Prop :=
  exists payload k, payload_ok l payload /\
    (k < length (transaction_frame (id +64 1) id payload))%nat /\
    torn = take k (transaction_frame (id +64 1) id payload).

Lemma torn_nil l id : limits_ok l -> torn_frame l id [].
Proof.
  intros Hl. exists [], 0%nat. split_and!; [|rewrite length_transaction_frame; cbn; lia|done].
  unfold payload_ok. pose proof (lo_capacity l Hl). cbn. unfold TR_WAL_TRANSACTION_HEADER_SIZE. lia.
Qed.

(** The identifier replay has reached before the frame after [id]. *)
Definition reached (at_start : bool) (last_id id : Z) : Prop :=
  last_id = id \/ at_start = true /\ last_id = 0 /\ id <> 0.

Lemma reached_id at_start last_id id :
  reached at_start last_id id ->
  (if at_start && (last_id =? 0) && negb (id =? 0) then id else last_id) = id.
Proof.
  intros [->|(-> & -> & Hid)].
  - destruct at_start; cbn [andb]; [|done]. by destruct (id =? 0) eqn:E.
  - cbn. by rewrite (proj2 (Z.eqb_neq _ _)) by done.
Qed.

Definition frame_start (is_first : bool) (offset : Z) : bool :=
  is_first && (offset =? TR_WAL_SEGMENT_HEADER_SIZE).

Definition frame_checksum (id : Z) (payload : list Z) : Z :=
  tr_wal_transaction_checksum
    (transaction_header (id +64 1) id (Zlength_ payload) 0 ++ payload) (Zlength_ payload).

Definition frame_header (id : Z) (payload : list Z) : list Z :=
  transaction_header (id +64 1) id (Zlength_ payload) (frame_checksum id payload).

Lemma frame_split id payload :
  transaction_frame (id +64 1) id payload = frame_header id payload ++ payload.
Proof. done. Qed.

Lemma length_frame_header id payload : length (frame_header id payload) = 48%nat.
Proof. done. Qed.

Lemma frame_header_fields l id payload :
  limits_ok l -> 0 <= id < 2 ^ 64 -> payload_ok l payload ->
  let header := frame_header id payload in
  take 8 header = TR_WAL_TRANSACTION_MAGIC /\
  tr_wal_get_u32 (drop 8 header) = TR_WAL_FORMAT_VERSION /\
  tr_wal_get_u32 (drop 12 header) = TR_WAL_TRANSACTION_HEADER_SIZE /\
  tr_wal_get_u64 (drop 16 header) = id +64 1 /\ tr_wal_get_u64 (drop 24 header) = id /\
  tr_wal_get_u64 (drop 32 header) = Zlength_ payload /\
  tr_wal_get_u64 (drop 40 header) = tr_wal_transaction_checksum (header ++ payload) (Zlength_ payload).
Proof.
  intros Hl Hid Hp header. pose proof (lo_capacity l Hl). pose proof (lo_segment l Hl).
  unfold payload_ok, TR_WAL_TRANSACTION_HEADER_SIZE, INT_MAX in *.
  destruct (transaction_header_fields (id +64 1) id (Zlength_ payload) (frame_checksum id payload) [])
    as (F1 & F2 & F3 & F4 & F5 & F6 & F7); [apply u64_range|done|lia| |].
  { apply xxh_seed_range. }
  rewrite app_nil_r in *. refine (conj F1 (conj F2 (conj F3 (conj F4 (conj F5 (conj F6 _)))))).
  etrans; [exact F7|]. apply transaction_checksum_stable.
Qed.

Lemma at_file (pre : list Z) rest : drop (Z.to_nat (Zlength_ pre)) (pre ++ rest) = rest.
Proof. by rewrite Nat2Z.id, drop_app_length. Qed.

(** A complete frame is applied, and replay goes on. *)
Lemma replay_frame_spec s is_first is_last f e p pos pre payload rest id last_id r r' snaps :
  limits_ok (limits s) -> 0 <= id < 2 ^ 64 -> payload_ok (limits s) payload ->
  v_handle (os_view e) f = Some (p, pos) ->
  v_now (os_view e) p = Some (pre ++ transaction_frame (id +64 1) id payload ++ rest) ->
  present snaps e -> applies (limits s) snaps payload r r' ->
  reached (frame_start is_first (Zlength_ pre)) last_id id ->
  (frame_start is_first (Zlength_ pre) = true -> id <> 0 -> rc_snapshot_index r' <> 0) ->
  exists e', quiet e e' /\
    replay_frame s is_first is_last f (Zlength_ (pre ++ transaction_frame (id +64 1) id payload ++ rest))
      (ReplayState r last_id (Zlength_ pre)) e =
    (e', SALTS_OK, ReplayState r' (id +64 1)
       (Zlength_ (pre ++ transaction_frame (id +64 1) id payload)), true).
Proof.
  intros Hl Hid Hp Hh Hc Hsnap Happ Hid' Hstart. unfold replay_frame.
  cbn [rs_valid_size rs_recovery rs_last_id].
  set (c := pre ++ _ ++ rest) in *.
  assert (Zlength_ c = Zlength_ pre + 48 + Zlength_ payload + Zlength_ rest) as Hlen.
  { unfold c. rewrite !length_app, length_transaction_frame. lia. }
  rewrite Hlen. unfold TR_WAL_TRANSACTION_HEADER_SIZE.
  rewrite (proj2 (Z.ltb_ge _ _)) by lia.
  destruct (read_exact_spec e f (Zlength_ pre) 48 p pos c) as (e1 & S1 & ->); [done..|lia|lia|lia|].
  cbn [failed]. unfold c. rewrite at_file, frame_split, <- app_assoc.
  change (take (Z.to_nat 48) (frame_header id payload ++ payload ++ rest)) with (frame_header id payload).
  destruct (frame_header_fields (limits s) id payload) as (F1 & F2 & F3 & F4 & F5 & F6 & F7); [done..|].
  rewrite F1, F2, F3, F4, F5, F6, bool_decide_eq_true_2, !Z.eqb_refl by done. cbn [negb orb].
  change (is_first && (Zlength_ pre =? TR_WAL_SEGMENT_HEADER_SIZE))
    with (frame_start is_first (Zlength_ pre)).
  set (at_start := frame_start _ _) in *. rewrite (reached_id _ _ _ Hid'), !Z.eqb_refl. cbn [negb orb].
  unfold payload_ok, limits, TR_WAL_TRANSACTION_HEADER_SIZE in Hp. cbn [lm_capacity] in Hp.
  rewrite (proj2 (Z.ltb_ge _ _)) by lia. rewrite (proj2 (Z.ltb_ge _ _)) by lia.
  destruct (read_exact_spec e1 f (Zlength_ pre + 48) (Zlength_ payload) p pos c) as (e2 & S2 & ->);
    [by rewrite (same_handle _ _ f S1)|by rewrite (same_now _ _ p S1)|lia|lia|lia|].
  cbn [failed].
  assert (take (Z.to_nat (Zlength_ payload)) (drop (Z.to_nat (Zlength_ pre + 48)) c) = payload) as ->.
  { unfold c. rewrite frame_split, <- app_assoc, app_assoc.
    replace (Zlength_ pre + 48) with (Zlength_ (pre ++ frame_header id payload))
      by (rewrite length_app, length_frame_header; lia).
    by rewrite at_file, Nat2Z.id, take_app_length. }
  rewrite F7, Z.eqb_refl. cbn [negb].
  pose proof (same_quiet _ _ S1) as Q1. pose proof (same_quiet _ _ S2) as Q2.
  destruct (Happ s e2 eq_refl) as (e3 & -> & Q3).
  { eapply present_quiet; [|exact Q2]. by eapply present_quiet. }
  cbn [failed].
  replace (at_start && negb (id =? 0) && (rc_snapshot_index r' =? 0)) with false.
  2: { destruct at_start, (id =? 0) eqn:E0, (rc_snapshot_index r' =? 0) eqn:E1; try done.
       destruct (Hstart eq_refl); lia. }
  exists e3. split; [by do 2 (etrans; [done|])|].
  do 3 f_equal. rewrite !length_app, length_frame_header. lia.
Qed.

(** A frame that was not written to its end is left out. *)
Lemma replay_frame_torn s is_first f e p pos pre torn id r :
  limits_ok (limits s) -> 0 <= id < 2 ^ 64 -> torn_frame (limits s) id torn ->
  v_handle (os_view e) f = Some (p, pos) -> v_now (os_view e) p = Some (pre ++ torn) ->
  exists e', quiet e e' /\
    replay_frame s is_first true f (Zlength_ (pre ++ torn)) (ReplayState r id (Zlength_ pre)) e =
    (e', SALTS_OK, ReplayState r id (Zlength_ pre), false).
Proof.
  intros Hl Hid (payload & k & Hp & Hk & ->) Hh Hc. rewrite length_transaction_frame in Hk.
  unfold replay_frame. cbn [rs_valid_size rs_recovery rs_last_id].
  set (torn := take k _) in *. assert (length torn = k) as Ht.
  { unfold torn. rewrite length_take, length_transaction_frame. lia. }
  rewrite length_app, Ht. unfold TR_WAL_TRANSACTION_HEADER_SIZE.
  destruct (Nat.lt_ge_cases k 48) as [Hlt|Hge].
  { rewrite (proj2 (Z.ltb_lt _ _)) by lia. exists e. split; [reflexivity|done]. }
  rewrite (proj2 (Z.ltb_ge _ _)) by lia.
  destruct (read_exact_spec e f (Zlength_ pre) 48 p pos (pre ++ torn)) as (e1 & S1 & ->);
    [done..|lia|lia|rewrite length_app; lia|].
  cbn [failed]. rewrite at_file.
  assert (take (Z.to_nat 48) torn = frame_header id payload) as ->.
  { unfold torn. rewrite take_take, frame_split. replace (Z.to_nat 48 `min` k)%nat with 48%nat by lia.
    by rewrite <- (length_frame_header id payload), take_app_length. }
  destruct (frame_header_fields (limits s) id payload) as (F1 & F2 & F3 & F4 & F5 & F6 & F7); [done..|].
  rewrite F1, F2, F3, F4, F5, F6, bool_decide_eq_true_2, !Z.eqb_refl by done. cbn [negb orb].
  rewrite (reached_id _ id id) by (by left). rewrite !Z.eqb_refl. cbn [negb orb].
  unfold payload_ok, limits, TR_WAL_TRANSACTION_HEADER_SIZE in Hp. cbn [lm_capacity] in Hp.
  rewrite (proj2 (Z.ltb_ge _ _)) by lia. rewrite (proj2 (Z.ltb_lt _ _)) by lia.
  exists e1. split; [by apply same_quiet|done].
Qed.

(** All the frames of a segment. *)
Lemma replay_loop_spec s is_first is_last f p pos snaps payloads fuel pre torn id last_id r r' e :
  limits_ok (limits s) -> 0 <= id < 2 ^ 64 -> Forall (payload_ok (limits s)) payloads ->
  v_handle (os_view e) f = Some (p, pos) ->
  v_now (os_view e) p = Some (pre ++ frames_from id payloads ++ torn) ->
  present snaps e -> runs (limits s) snaps payloads r r' ->
  32 <= Zlength_ pre ->
  (payloads <> [] -> reached (frame_start is_first (Zlength_ pre)) last_id id) ->
  (frame_start is_first (Zlength_ pre) = true -> id <> 0 -> forall payload rest r1,
     payloads = payload :: rest -> applies (limits s) snaps payload r r1 -> rc_snapshot_index r1 <> 0) ->
  (payloads = [] -> torn = [] \/ last_id = id) ->
  torn = [] \/ is_last = true /\ torn_frame (limits s) (id_after id payloads) torn ->
  (length (frames_from id payloads ++ torn) <= fuel)%nat ->
  exists e', quiet e e' /\
    replay_loop fuel s is_first is_last f (Zlength_ (pre ++ frames_from id payloads ++ torn))
      (ReplayState r last_id (Zlength_ pre)) e =
    (e', SALTS_OK, ReplayState r' (match payloads with [] => last_id | _ => id_after id payloads end)
       (Zlength_ (pre ++ frames_from id payloads))).
Proof.
  revert fuel pre id last_id r e. induction payloads as [|payload payloads IH];
    intros fuel pre id last_id r e Hl Hid Hps Hh Hc Hsn Hruns Hpre Hre Hst Hlast Htorn Hfuel.
  - inversion Hruns; subst. cbn [frames_from app] in *. rewrite (app_nil_r pre).
    destruct Htorn as [->|[-> Htorn]].
    { rewrite app_nil_r. exists e. split; [reflexivity|]. destruct fuel; cbn [replay_loop rs_valid_size];
        by rewrite Z.leb_refl. }
    destruct (Hlast eq_refl) as [->| ->].
    { rewrite app_nil_r. exists e. split; [reflexivity|]. destruct fuel; cbn [replay_loop rs_valid_size];
        by rewrite Z.leb_refl. }
    destruct torn as [|b torn'] eqn:Et.
    { rewrite app_nil_r. exists e. split; [reflexivity|]. destruct fuel; cbn [replay_loop rs_valid_size];
        by rewrite Z.leb_refl. }
    rewrite <- Et in *. destruct fuel as [|fuel]; [subst torn; cbn in Hfuel; lia|].
    cbn [replay_loop rs_valid_size].
    rewrite (proj2 (Z.leb_gt _ _)) by (rewrite length_app, Et; cbn [length]; lia).
    destruct (replay_frame_torn s is_first f e p pos pre torn id r') as (e1 & Q1 & ->); try done.
    by exists e1.
  - inversion Hruns as [|? ? ? r1 ? Happ Hrest]; subst. apply Forall_cons_1 in Hps as [Hp Hps].
    cbn [frames_from] in *. rewrite <- app_assoc in *.
    rewrite length_app, length_transaction_frame in Hfuel.
    destruct fuel as [|fuel]; [lia|]. cbn [replay_loop rs_valid_size].
    rewrite (proj2 (Z.leb_gt _ _)).
    2: { rewrite !length_app, length_transaction_frame. lia. }
    destruct (replay_frame_spec s is_first is_last f e p pos pre payload
      (frames_from (id +64 1) payloads ++ torn) id last_id r r1 snaps) as (e1 & Q1 & ->); try done.
    { by apply Hre. }
    { intros Hb Hne. by eapply Hst. }
    rewrite app_assoc in Hc |- *. set (pre' := pre ++ transaction_frame _ _ _) in *.
    assert (frame_start is_first (Zlength_ pre') = false) as Hns.
    { unfold frame_start, pre'. rewrite length_app, length_transaction_frame.
      unfold TR_WAL_SEGMENT_HEADER_SIZE. destruct is_first; [|done]. apply Z.eqb_neq. lia. }
    destruct (IH fuel pre' (id +64 1) (id +64 1) r1 e1) as (e' & Q' & ->); try done.
    + apply u64_range.
    + by apply Q1.
    + by rewrite (quiet_now _ _ _ Q1).
    + by eapply present_quiet.
    + unfold pre'. rewrite length_app. lia.
    + intros _. by left.
    + by rewrite Hns.
    + intros _. by right.
    + lia.
    + exists e'. split; [by etrans|]. do 2 f_equal.
      destruct payloads; [done|]. f_equal. unfold pre'. by rewrite <- app_assoc.
Qed.

(** ** Segments *)

Definition segment_at l (sequence : Z) : path := name_path (lm_prefix l) (SegmentName sequence).

Definition segment_content (sequence id : Z) (payloads : list (list Z)) : list Z :=
  segment_header sequence ++ frames_from id payloads.

Lemma segment_path_fits s sequence :
  limits_ok (limits s) -> 0 <= sequence < 2 ^ 64 ->
  tr_wal_segment_path (wl_path_prefix s) sequence = (SALTS_OK, segment_at (limits s) sequence).
Proof.
  intros Hl Hs. unfold tr_wal_segment_path.
  change (fitting_path _) with (fitting_path (segment_at (limits s) sequence)).
  by apply (name_fits _ (SegmentName sequence)).
Qed.

(** Before the frames of a segment: the first frame of the first segment may
    follow any identifier, if it holds a snapshot. *)
Record enters l (snaps : path -> option (list Z)) (is_first : bool) (last_id id : Z)
    (payloads : list (list Z)) (torn : list Z) r : Prop := {
  en_reached : payloads <> [] -> reached is_first last_id id;
  en_snapshot : is_first = true -> id <> 0 -> forall payload rest r1,
    payloads = payload :: rest -> applies l snaps payload r r1 -> rc_snapshot_index r1 <> 0;
  en_torn : payloads = [] -> torn = [] \/ last_id = id
}.

Definition id_reached (last_id id : Z) (payloads : list (list Z)) : Z :=
  match payloads with [] => last_id | _ => id_after id payloads end.

Lemma replay_segment_spec s is_first is_last snaps sequence payloads torn id last_id v r r' e :
  limits_ok (limits s) -> 0 <= sequence < 2 ^ 64 -> 0 <= id < 2 ^ 64 ->
  Forall (payload_ok (limits s)) payloads ->
  v_now (os_view e) (segment_at (limits s) sequence) =
    Some (segment_content sequence id payloads ++ torn) ->
  Zlength_ (segment_content sequence id payloads ++ torn) <= lm_segment_bytes (limits s) ->
  present snaps e -> runs (limits s) snaps payloads r r' ->
  enters (limits s) snaps is_first last_id id payloads torn r ->
  torn = [] \/ is_last = true /\ torn_frame (limits s) (id_after id payloads) torn ->
  exists e', quiet e e' /\
    tr_wal_replay_segment s sequence is_first is_last (ReplayState r last_id v) e =
    (e', SALTS_OK, ReplayState r' (id_reached last_id id payloads)
       (Zlength_ (segment_content sequence id payloads))).
Proof.
  intros Hl Hsq Hid Hps Hc Hsize Hsn Hruns [Hre Hst Hlast] Htorn. unfold tr_wal_replay_segment.
  rewrite segment_path_fits by done. cbn [failed]. set (p := segment_at _ _) in *.
  unfold segment_content in *. rewrite <- app_assoc in *.
  set (c := segment_header sequence ++ _) in Hc, Hsize.
  assert (32 <= Zlength_ c) as H32.
  { unfold c. rewrite length_app, length_segment_header. lia. }
  destruct (stat_readable e p _ Hc) as (e1 & -> & Q1). cbn [failed orb negb fs_is_file fs_size].
  unfold limits in Hsize. cbn [lm_segment_bytes] in Hsize.
  rewrite (proj2 (Z.ltb_ge (Zlength_ c) _)) by (unfold TR_WAL_SEGMENT_HEADER_SIZE; lia).
  rewrite (proj2 (Z.ltb_ge _ _)) by lia. cbn [orb].
  rewrite <- (quiet_now _ _ _ Q1) in Hc.
  destruct (open_readable e1 p c Hc) as (e2 & f & -> & S2 & N2 & G2 & K2 & C2).
  destruct (read_exact_spec e2 f 0 TR_WAL_SEGMENT_HEADER_SIZE p 0 c) as (e3 & S3 & ->); try done.
  change (take (Z.to_nat TR_WAL_SEGMENT_HEADER_SIZE) (drop (Z.to_nat 0) c)) with (segment_header sequence).
  destruct (segment_header_fields sequence Hsq) as (F1 & F2 & F3 & F4 & F5).
  rewrite F1, F2, F3, F4, F5, bool_decide_eq_true_2, !Z.eqb_refl by done.
  cbn [negb orb andb ok rs_recovery rs_last_id]. pose proof (same_quiet _ _ S3) as Q3.
  destruct (replay_loop_spec s is_first is_last f p 0 snaps payloads (Z.to_nat (Zlength_ c))
    (segment_header sequence) torn id last_id r r' e3) as (e4 & Q4 & E4); try done.
  - by apply Q3.
  - by rewrite (quiet_now _ _ _ Q3).
  - eapply present_quiet; [|exact Q3]. intros q x Hq. rewrite (same_files_now _ _ _ S2).
    rewrite (quiet_now _ _ _ Q1). by apply Hsn.
  - unfold frame_start. by rewrite length_segment_header, andb_true_r.
  - unfold frame_start. by rewrite length_segment_header, andb_true_r.
  - unfold c. rewrite Nat2Z.id, (length_app (segment_header _)). lia.
  - change (Zlength_ (segment_header sequence)) with TR_WAL_SEGMENT_HEADER_SIZE in E4.
    fold c in E4. rewrite E4. destruct (cmeta_fs_close e4 f) as [e5 rc] eqn:E5.
    destruct (law_close _ _ _ _ E5) as [S5 K5]. exists e5. split; [|done].
    etrans; [exact Q1|]. eapply (opened_quiet e1 e2 e4 e5); try done. by etrans.
Qed.

(** ** The whole log *)

(** Segments before the last one hold complete frames only. *)
Fixpoint closed_hold l (holds : path -> list Z -> Prop) (sequence id : Z)
    (segments : list (list (list Z))) : Prop :=
  match segments with
  | [] => True
  | payloads :: segments =>
      holds (segment_at l sequence) (segment_content sequence id payloads) /\
      Zlength_ (segment_content sequence id payloads) <= lm_segment_bytes l /\
      closed_hold l holds (sequence + 1) (id_after id payloads) segments
  end.

Definition first_payloads (closed : list (list (list Z))) (current : list (list Z))
    : list (list Z) :=
  match closed with [] => current | payloads :: _ => payloads end.

(** The live range starts with the first transaction, or with a snapshot. *)
Definition starts l snaps (id : Z) (payloads : list (list Z)) r : Prop :=
  id = 0 \/ exists payload rest, payloads = payload :: rest /\
    forall r1, applies l snaps payload r r1 -> rc_snapshot_index r1 <> 0.

Record disk l (files snaps : path -> option (list Z)) (first id : Z)
    (closed : list (list (list Z))) (current : list (list Z)) (torn : list Z) r : Prop := {
  dk_range : range_ok l first (first + Z.of_nat (length closed));
  dk_id : 0 <= id < 2 ^ 64;
  dk_manifest : files (name_path (lm_prefix l) ManifestName) =
    Some (manifest_header first (first + Z.of_nat (length closed)));
  dk_closed : closed_hold l (fun p c => files p = Some c) first id closed;
  dk_current : files (segment_at l (first + Z.of_nat (length closed))) =
    Some (segment_content (first + Z.of_nat (length closed)) (id_after id (concat closed)) current ++
          torn);
  dk_size : Zlength_ (segment_content (first + Z.of_nat (length closed))
                        (id_after id (concat closed)) current ++ torn) <= lm_segment_bytes l;
  dk_payloads : Forall (payload_ok l) (concat closed ++ current);
  dk_torn : torn_frame l (id_after id (concat closed ++ current)) torn;
  dk_runs : runs l snaps (concat closed ++ current) zero_recovery r;
  dk_snaps p c : snaps p = Some c -> files p = Some c;
  dk_names p : snaps p <> None ->
    exists i t, name_in_range (SnapshotName i t) /\ p = name_path (lm_prefix l) (SnapshotName i t);
  dk_start : starts l snaps id (first_payloads closed current) zero_recovery
}.

Lemma closed_hold_impl l (holds holds' : path -> list Z -> Prop) sequence id segments :
  closed_hold l holds sequence id segments ->
  (forall i c, sequence <= i < sequence + Z.of_nat (length segments) ->
     holds (segment_at l i) c -> holds' (segment_at l i) c) ->
  closed_hold l holds' sequence id segments.
Proof.
  revert sequence id. induction segments as [|ps segments IH]; intros sequence id; [done|].
  cbn [closed_hold length]. intros (Hf & Hs & Hr) Himpl. split_and!; [|done|].
  - apply Himpl; [lia|done].
  - apply IH; [done|]. intros i c Hi. apply Himpl. lia.
Qed.

Lemma closed_hold_snoc l holds sequence id segments payloads :
  closed_hold l holds sequence id segments ->
  holds (segment_at l (sequence + Z.of_nat (length segments)))
    (segment_content (sequence + Z.of_nat (length segments)) (id_after id (concat segments)) payloads) ->
  Zlength_ (segment_content (sequence + Z.of_nat (length segments)) (id_after id (concat segments)) payloads)
    <= lm_segment_bytes l ->
  closed_hold l holds sequence id (segments ++ [payloads]).
Proof.
  revert sequence id. induction segments as [|ps segments IH]; intros sequence id;
    cbn [closed_hold length concat app].
  - rewrite Z.add_0_r. done.
  - replace (sequence + Z.of_nat (S (length segments)))
      with (sequence + 1 + Z.of_nat (length segments)) by lia.
    rewrite id_after_app. intros (Hf & Hs & Hr) Hh Hl. split_and!; [done..|]. by apply IH.
Qed.

(** Before a segment that is not the first to be replayed, or is and starts
    with a snapshot. *)
Definition enters_at l snaps (first sequence last_id id : Z) (payloads : list (list Z)) r : Prop :=
  last_id = id /\ (sequence = first -> starts l snaps id payloads r) \/
  sequence = first /\ last_id = 0 /\ starts l snaps id payloads r.

Lemma enters_at_enters l snaps first sequence last_id id payloads torn r :
  enters_at l snaps first sequence last_id id payloads r ->
  enters l snaps (sequence =? first) last_id id payloads torn r.
Proof.
  assert (sequence = first -> starts l snaps id payloads r -> id <> 0 -> forall payload rest r1,
    payloads = payload :: rest -> applies l snaps payload r r1 -> rc_snapshot_index r1 <> 0) as Hsnap.
  { intros _ [?|(p & ps & -> & Hp)] Hid payload rest r1; [done|]. intros [= <- <-]. apply Hp. }
  intros [[-> Hs]|(-> & -> & Hs)].
  - split; [by left| |by right]. intros Hf%Z.eqb_eq. by apply Hsnap; [|apply Hs].
  - rewrite Z.eqb_refl. destruct (decide (id = 0)) as [->|Hid].
    + split; [by left|done|by right].
    + split; [by right|intros _; by apply Hsnap|]. intros ->. destruct Hs as [?|(? & ? & [=] & _)]. done.
Qed.

Lemma enters_at_reached l snaps first sequence last_id id payloads r :
  enters_at l snaps first sequence last_id id payloads r ->
  id_reached last_id id payloads = id_after id payloads.
Proof.
  intros [[-> _]|(_ & -> & Hs)]; [by destruct payloads|].
  destruct Hs as [->|(p & ps & -> & _)]; [by destruct payloads|done].
Qed.

Lemma replay_segments_spec s snaps first closed current torn sequence id last_id v r r' e :
  limits_ok (limits s) -> 0 <= first <= sequence ->
  sequence + Z.of_nat (length closed) < 2 ^ 64 -> 0 <= id < 2 ^ 64 ->
  closed_hold (limits s) (fun p c => v_now (os_view e) p = Some c) sequence id closed ->
  v_now (os_view e) (segment_at (limits s) (sequence + Z.of_nat (length closed))) =
    Some (segment_content (sequence + Z.of_nat (length closed)) (id_after id (concat closed)) current ++
          torn) ->
  Zlength_ (segment_content (sequence + Z.of_nat (length closed)) (id_after id (concat closed)) current ++
    torn) <= lm_segment_bytes (limits s) ->
  Forall (payload_ok (limits s)) (concat closed ++ current) ->
  torn_frame (limits s) (id_after id (concat closed ++ current)) torn ->
  present snaps e -> runs (limits s) snaps (concat closed ++ current) r r' ->
  enters_at (limits s) snaps first sequence last_id id (first_payloads closed current) r ->
  exists e', quiet e e' /\
    replay_segments s first (S (length closed)) sequence (ReplayState r last_id v) e =
    (e', SALTS_OK, ReplayState r' (id_after id (concat closed ++ current))
       (Zlength_ (segment_content (sequence + Z.of_nat (length closed))
                    (id_after id (concat closed)) current))).
Proof.
  revert sequence id last_id v r e. induction closed as [|ps closed IH];
    intros sequence id last_id v r e Hl Hseq Hmax Hid Hclosed Hcur Hsize Hps Htorn Hsn Hruns Hent;
    cbn [length concat app first_payloads] in *.
  - rewrite Z.add_0_r in *. cbn [replay_segments]. rewrite segment_path_fits by (done || lia).
    cbn [ok]. destruct (access_readable e _ _ Hcur) as (e1 & -> & Q1). cbn [failed].
    destruct (replay_segment_spec s (sequence =? first) true snaps sequence current torn id last_id v
      r r' e1) as (e2 & Q2 & ->); try done; [lia|by rewrite (quiet_now _ _ _ Q1)
      |by eapply present_quiet|by apply enters_at_enters|by right|].
    cbn [failed]. rewrite (enters_at_reached _ _ _ _ _ _ _ _ Hent).
    exists e2. split; [by etrans|done].
  - destruct Hclosed as (Hf & Hs & Hclosed). rewrite <- app_assoc in *.
    apply Forall_app in Hps as [Hps Hrest]. apply runs_app_inv in Hruns as (r1 & Hruns & Hruns').
    cbn [replay_segments]. rewrite segment_path_fits by (done || lia). cbn [ok].
    destruct (access_readable e _ _ Hf) as (e1 & -> & Q1). cbn [failed].
    destruct (replay_segment_spec s (sequence =? first) false snaps sequence ps [] id last_id v
      r r1 e1) as (e2 & Q2 & ->); try done; [lia|by rewrite (quiet_now _ _ _ Q1), app_nil_r
      |by rewrite app_nil_r|by eapply present_quiet|by apply enters_at_enters|by left|].
    cbn [failed]. rewrite (enters_at_reached _ _ _ _ _ _ _ _ Hent).
    assert (quiet e e2) as Q by (by etrans).
    replace (sequence + Z.of_nat (S (length closed)))
      with (sequence + 1 + Z.of_nat (length closed)) in * by lia.
    rewrite !id_after_app in *.
    destruct (IH (sequence + 1) (id_after id ps) (id_after id ps)
      (Zlength_ (segment_content sequence id ps)) r1 e2) as (e3 & Q3 & E3); try done.
    + lia.
    + by apply id_after_range.
    + eapply closed_hold_impl; [done|]. intros i c _. by rewrite (quiet_now _ _ _ Q).
    + by rewrite (quiet_now _ _ _ Q).
    + by rewrite id_after_app.
    + by eapply present_quiet.
    + left. split; [done|lia].
    + exists e3. split; [by etrans|]. rewrite id_after_app in E3. exact E3.
Qed.

(** What the files hold is what replay returns. *)
Lemma replay_disk s e snaps first id closed current torn r :
  limits_ok (limits s) ->
  disk (limits s) (v_now (os_view e)) snaps first id closed current torn r ->
  exists e', quiet e e' /\
    tr_wal_replay s e =
    (e', SALTS_OK, Some (ReplayResult r first (first + Z.of_nat (length closed))
       (Zlength_ (segment_content (first + Z.of_nat (length closed))
                    (id_after id (concat closed)) current))
       (id_after id (concat closed ++ current)) true)).
Proof.
  intros Hl Hd. unfold tr_wal_replay. destruct (malloc_readable e) as (e1 & -> & Q1). cbn [negb].
  pose proof (dk_range _ _ _ _ _ _ _ _ _ Hd) as Hr.
  destruct (read_manifest_spec s e1 first (first + Z.of_nat (length closed)) Hl Hr) as (e2 & -> & Q2).
  { rewrite (quiet_now _ _ _ Q1). apply Hd. }
  cbn [failed is_null negb]. destruct Hr as (Hr1 & Hr2 & Hr3).
  rewrite (proj2 (Z.eqb_neq first 0)) by lia.
  rewrite (proj2 (live_range_valid_iff s first (first + Z.of_nat (length closed)) Hl
    ltac:(lia) ltac:(lia))) by (split; lia). cbn [negb].
  replace (Z.to_nat _) with (S (length closed)) by lia.
  assert (quiet e e2) as Q by (by etrans).
  destruct (replay_segments_spec s snaps first closed current torn first id 0 0 zero_recovery r e2)
    as (e3 & Q3 & ->); try done; try (by apply Hd); try lia.
  - eapply closed_hold_impl; [apply Hd|]. intros i c _. by rewrite (quiet_now _ _ _ Q).
  - rewrite (quiet_now _ _ _ Q). apply Hd.
  - eapply present_quiet; [|done]. exact (dk_snaps _ _ _ _ _ _ _ _ _ Hd).
  - right. split_and!; [done..|]. apply Hd.
  - exists e3. split; [by etrans|done].
Qed.
End Replay.
