(* ===== verification/WalWrite.v ===== *)
(** * Writing the write-ahead log

    What the calls that write leave, whatever fails: bytes appended to a
    segment, and files written beside their place and moved into it. *)

From S2P Require Import Prelude Configuration Bytes Wire Digest Os SnapshotSender Wal WalCodec.
From Stdlib Require Import ZArith Lia.
From stdpp Require Import base numbers list tactics strings.
Open Scope Z_scope.
Open Scope raft_scope.

Section Write.
Context `{OsLaws} `{Xxh3Laws}.
Implicit Types s : tr_raft_wal_storage.

(** A file that holds [c], also after a loss of power. *)
Definition fixed (e : os) (p : path) (c : list Z) : Prop :=
  v_now (os_view e) p = Some c /\ forall x, v_after (os_view e) p x -> x = Some c.

Lemma fixed_kept t e e' p c :
  fixed e p c -> files_kept t (os_view e) (os_view e') -> ~ t p -> fixed e' p c.
Proof.
  intros [Hn Ha] Hk Ht. destruct (Hk p Ht) as [E A]. split; [by rewrite E|]. auto.
Qed.

Lemma kept_handle {F : Type} (v v' : view F) f :
  handles_kept nothing v v' -> v_handle v' f = v_handle v f.
Proof. intros Hk. apply Hk. by intros []. Qed.

(** ** Appending *)

Lemma appended_nothing e f p c data :
  v_handle (os_view e) f = Some (p, Zlength_ c) -> v_now (os_view e) p = Some c ->
  appended (os_view e) (os_view e) f p c data 0.
Proof.
  intros Hf Hc. split; [lia| | | |apply files_kept_refl|apply handles_kept_refl].
  - by rewrite Hc, take_0, app_nil_r.
  - rewrite Hf. do 2 f_equal. lia.
  - by left.
Qed.

Lemma appended_trans {F : Type} (v1 v2 v3 : view F) f p c data k j :
  appended v1 v2 f p c data k ->
  appended v2 v3 f p (c ++ take k data) (drop k data) j ->
  appended v1 v3 f p c data (k + j).
Proof.
  assert (forall i, (c ++ take k data) ++ take i (drop k data) = c ++ take (k + i) data) as E.
  { intros i. by rewrite <- app_assoc, take_take_drop. }
  intros [Ck Nk Hk Ak Fk Kk] [Cj Nj Hj Aj Fj Kj].
  rewrite length_drop in Cj. split.
  - lia.
  - by rewrite Nj, E.
  - rewrite Hj, length_app, length_take. do 2 f_equal. lia.
  - intros x Hx. destruct (Aj x Hx) as [Hx'|(i & Hi & ->)].
    + destruct (Ak x Hx') as [?|(i & Hi & ->)]; [by left|right; exists i; split; [lia|done]].
    + right. exists (k + i)%nat. split; [lia|]. by rewrite E.
  - by eapply files_kept_trans.
  - by eapply handles_kept_trans.
Qed.

Lemma write_loop_spec fuel e f data e' res p c :
  write_loop fuel e f data = (e', res) -> (length data <= fuel)%nat ->
  v_handle (os_view e) f = Some (p, Zlength_ c) -> v_now (os_view e) p = Some c ->
  exists k, appended (os_view e) (os_view e') f p c data k /\ (res = SALTS_OK -> k = length data).
Proof.
  revert e data c. induction fuel as [|fuel IH]; intros e data c; cbn [write_loop].
  { destruct data as [|b data]; [|cbn [length]; lia]. intros [= <- <-] _ Hf Hc.
    exists 0%nat. split; [by apply appended_nothing|done]. }
  destruct data as [|b rest] eqn:Ed.
  { intros [= <- <-] _ Hf Hc. exists 0%nat. split; [by apply appended_nothing|done]. }
  rewrite <- Ed in *. destruct (cmeta_fs_write e f data) as [e1 [written|error]] eqn:Ew;
    intros Hw Hl Hf Hc; destruct (law_write _ _ _ _ _ p c Ew Hf Hc) as (k & Ha & Hk).
  - specialize (Hk written eq_refl). subst written. destruct (Z.of_nat k <=? 0) eqn:Hpos.
    { injection Hw as <- <-. exists k. split; [done|]. discriminate. }
    rewrite Nat2Z.id in Hw. pose proof (ap_count _ _ _ _ _ _ _ Ha) as Hcount.
    destruct (IH e1 (drop k data) (c ++ take k data) Hw) as (j & Hj & Hres).
    + rewrite length_drop. lia.
    + rewrite (ap_handle _ _ _ _ _ _ _ Ha), length_app, length_take. do 2 f_equal. lia.
    + apply (ap_now _ _ _ _ _ _ _ Ha).
    + exists (k + j)%nat. split; [by eapply appended_trans|]. intros Hok.
      rewrite (Hres Hok), length_drop. lia.
  - injection Hw as <- <-. exists k. split; [done|]. discriminate.
Qed.

Lemma write_all_spec e f data e' res p c :
  tr_wal_write_all e f data = (e', res) ->
  v_handle (os_view e) f = Some (p, Zlength_ c) -> v_now (os_view e) p = Some c ->
  exists k, appended (os_view e) (os_view e') f p c data k /\ (res = SALTS_OK -> k = length data).
Proof. intros Hw. by eapply write_loop_spec. Qed.

(** ** Files written beside their place *)

(** What is left once a staged file has been moved into place, or not. *)
Record staged e e' (temporary final : path) (c : list Z) (res : status) : Prop := {
  st_files : files_kept (fun q => q = temporary \/ q = final) (os_view e) (os_view e');
  st_ok : res = SALTS_OK -> fixed e' final c;
  st_after x : v_after (os_view e') final x -> v_after (os_view e) final x \/ x = Some c;
  st_handles f h : v_handle (os_view e) f = Some h -> v_handle (os_view e') f = Some h
}.

(** The storage changes at most by being faulted. *)
Definition maybe_faulted s s' : Prop := s' = s \/ s' = s <| wl_faulted := true |>.

Lemma publish_spec s e temporary final res e' res' s' c :
  publish s e temporary final res = (e', res', s') -> temporary <> final ->
  v_now (os_view e) temporary <> None ->
  (res = SALTS_OK -> v_now (os_view e) temporary = Some c) ->
  staged e e' temporary final c res' /\ maybe_faulted s s' /\ (res' = SALTS_OK -> s' = s).
Proof.
  intros Hp Hne Hsome Hc. unfold publish in Hp.
  assert (forall e1 res1 state, res1 <> SALTS_OK ->
    (match state with
     | REPLACE_NOT_PUBLISHED => let '(e, _) := cmeta_fs_unlink e1 temporary in (e, res1, s)
     | _ => (e1, res1, s <| wl_faulted := true |>)
     end) = (e', res', s') ->
    files_kept (fun q => q = temporary \/ q = final) (os_view e) (os_view e1) ->
    handles_kept nothing (os_view e) (os_view e1) ->
    (forall x, v_after (os_view e1) final x -> v_after (os_view e) final x \/ x = Some c) ->
    staged e e' temporary final c res' /\ maybe_faulted s s' /\ (res' = SALTS_OK -> s' = s)) as Hfail.
  { intros e1 res1 state Hr Hm Hfk Hhk Ha.
    assert (e' = e1 /\ res' = res1 /\ s' = s <| wl_faulted := true |> \/
      exists r, cmeta_fs_unlink e1 temporary = (e', r) /\ res' = res1 /\ s' = s) as Hcase.
    { destruct state; [destruct (cmeta_fs_unlink e1 temporary) as [e2 r] eqn:Eu| |];
        injection Hm as <- <- <-; [right; by exists r|by left|by left]. }
    destruct Hcase as [(-> & -> & ->)|(r & Eu & -> & ->)].
    - split_and!; [|by right|done]. split; [done|done|done|]. intros f h Hf. by rewrite (kept_handle _ _ f Hhk).
    - destruct (law_unlink _ _ _ _ Eu) as (Fu & Hu & _).
      split_and!; [|by left|done]. split; [|done| |].
      + eapply files_kept_trans; [done|]. eapply files_kept_weaken; [done|]. by left.
      + intros x Hx. apply Ha. by apply (Fu final).
      + intros f h Hf. by rewrite (kept_handle _ _ f Hu), (kept_handle _ _ f Hhk). }
  destruct res; cbn [ok] in Hp.
  - destruct (cmeta_fs_replace_durable e temporary final) as [[e1 res1] state] eqn:Er.
    destruct (law_replace _ _ _ _ _ _ Er Hne Hsome) as (Fr & Kr & Cr).
    specialize (Hc eq_refl). rewrite Hc in Cr. destruct res1; cbn [ok] in Hp.
    + injection Hp as <- <- <-. split_and!; [|by left|done]. destruct Cr as [Cn Ca].
      split; [done|done|by right; auto|]. intros f h Hf. by rewrite (kept_handle _ _ f Kr).
    + eapply Hfail; [|exact Hp|done|done|]; [done|]. intros x Hx.
      destruct state, Cr as [_ Ca]; auto.
  - by eapply (Hfail e _ REPLACE_NOT_PUBLISHED); [|exact Hp|apply files_kept_refl
      |apply handles_kept_refl|left].
Qed.

Lemma close_after_spec e f res e' res' :
  close_after e f res = (e', res') ->
  files_kept nothing (os_view e) (os_view e') /\ handles_kept (eq f) (os_view e) (os_view e') /\
  (res' = SALTS_OK -> res = SALTS_OK).
Proof.
  unfold close_after. destruct (cmeta_fs_close e f) as [e1 r] eqn:E.
  destruct (law_close _ _ _ _ E) as [Hf Hh]. intros [= <- <-]. split_and!; [done..|].
  by destruct res.
Qed.

(** A file opened beside its place. *)
Lemma open_staging e p e' f :
  cmeta_fs_open e p RDWR_CREAT_TRUNC = (e', Some f) ->
  v_handle (os_view e) f = None /\ v_handle (os_view e') f = Some (p, 0) /\
  handles_kept (eq f) (os_view e) (os_view e') /\ v_now (os_view e') p = Some [] /\
  files_kept (eq p) (os_view e) (os_view e').
Proof.
  intros Ho. destruct (law_open _ _ _ _ _ Ho) as ((A & B & C) & F & T & _).
  split_and!; [done..|by apply T|]. intros q Hq. apply F. intros [_ ->]. done.
Qed.

Lemma open_staging_failed e p e' :
  cmeta_fs_open e p RDWR_CREAT_TRUNC = (e', None) ->
  handles_kept nothing (os_view e) (os_view e') /\ files_kept (eq p) (os_view e) (os_view e').
Proof.
  intros Ho. destruct (law_open _ _ _ _ _ Ho) as (A & F & _ & _). split; [done|].
  intros q Hq. apply F. intros [_ ->]. done.
Qed.

Lemma staged_failed e e' temporary final c res :
  handles_kept nothing (os_view e) (os_view e') -> files_kept (eq temporary) (os_view e) (os_view e') ->
  temporary <> final -> res <> SALTS_OK -> staged e e' temporary final c res.
Proof.
  intros Hk Hf Hne Hr. split; [|done| |].
  - eapply files_kept_weaken; [done|]. by left.
  - intros x Hx. left. by apply (Hf final).
  - intros f h Hfh. by rewrite (kept_handle _ _ f Hk).
Qed.

(** The bytes written to a staging file, which is closed and moved. *)
Lemma stage_spec s e temporary final data e1 f e2 res2 e3 res3 e4 res4 s4 :
  temporary <> final ->
  cmeta_fs_open e temporary RDWR_CREAT_TRUNC = (e1, Some f) ->
  tr_wal_write_all e1 f data = (e2, res2) -> close_after e2 f res2 = (e3, res3) ->
  publish s e3 temporary final res3 = (e4, res4, s4) ->
  staged e e4 temporary final data res4 /\ maybe_faulted s s4 /\ (res4 = SALTS_OK -> s4 = s).
Proof.
  intros Hne Ho Hw Hc Hp. destruct (open_staging _ _ _ _ Ho) as (A & B & C & D & E).
  destruct (write_all_spec _ _ _ _ _ temporary [] Hw B D) as (k & Ha & Hk).
  destruct (close_after_spec _ _ _ _ _ Hc) as (Fc & Kc & Hres).
  assert (v_now (os_view e3) temporary = Some (take k data)) as Hnow.
  { destruct (Fc temporary) as [-> _]; [by intros []|]. apply (ap_now _ _ _ _ _ _ _ Ha). }
  assert (files_kept (eq temporary) (os_view e) (os_view e3)) as F13.
  { eapply files_kept_trans; [exact E|]. eapply files_kept_trans; [apply Ha|].
    eapply files_kept_weaken; [exact Fc|]. by intros q []. }
  destruct (publish_spec s e3 temporary final res3 e4 res4 s4 data Hp Hne) as ([F O Af K] & Hs & Hs').
  { by rewrite Hnow. }
  { intros Hok. rewrite Hnow, Hk, take_ge by auto. done. }
  split_and!; [|done..]. split.
  - eapply files_kept_trans; [|exact F]. eapply files_kept_weaken; [exact F13|]. by left.
  - done.
  - intros x Hx. destruct (Af x Hx) as [Hx'|?]; [left|by right]. by apply (F13 final).
  - intros g h Hg. assert (f <> g) by congruence. apply K. rewrite (Kc g) by done.
    rewrite (ap_handles _ _ _ _ _ _ _ Ha g) by done. by rewrite (C g).
Qed.
End Write.
