(* ===== verification/WalCommit.v ===== *)
(** * Committing to the write-ahead log

    [live] relates an open storage to what its files hold now and may hold
    after a loss of power. A commit that succeeds leads to the state after
    the transaction; whatever fails, a loss of power leaves the state before or
    after it. *)

From S2P Require Import Prelude Configuration Bytes Wire Digest Os SnapshotSender Wal WalCodec.
From S2P Require Import WalRead WalReplay WalWrite.
From Stdlib Require Import ZArith Lia.
From stdpp Require Import base numbers list tactics strings.
Open Scope Z_scope.
Open Scope raft_scope.

Section Commit.
Context `{OsLaws} `{Xxh3Laws}.
Implicit Types s : tr_raft_wal_storage.
Implicit Types r : tr_raft_wal_recovery.
Implicit Types l : wal_limits.
Implicit Types closed : list (list (list Z)).
Implicit Types current : list (list Z).

Abbreviation named l n := (name_path (lm_prefix l) n).

Lemma named_ne l n m :
  name_in_range n -> name_in_range m -> n <> m -> named l n <> named l m.
Proof. intros Hn Hm Hne E. by apply Hne, (name_path_inj (lm_prefix l)). Qed.

(** ** A new segment *)

Definition new_segment l (sequence : Z) (q : path) : Prop :=
  q = named l (SegmentTemporary sequence) \/ q = named l (SegmentName sequence).

Lemma create_segment_spec s sequence e e' res s' :
  limits_ok (limits s) -> 0 <= sequence < 2 ^ 64 ->
  tr_wal_create_segment s sequence e = (e', res, s') ->
  files_kept (new_segment (limits s) sequence) (os_view e) (os_view e') /\
  limits s' = limits s /\
  (res = SALTS_OK -> fixed e' (segment_at (limits s) sequence) (segment_header sequence) /\
     exists f, v_handle (os_view e') f = Some (segment_at (limits s) sequence, 32) /\
       s' = s <| wl_current_path := segment_at (limits s) sequence |>
              <| wl_current_file := Some f |> <| wl_current_segment := sequence |>
              <| wl_current_offset := 32 |>).
Proof.
  intros Hl Hs. unfold tr_wal_create_segment. rewrite segment_path_fits by done. cbn [failed].
  set (final := segment_at (limits s) sequence). set (s1 := s <| wl_current_path := final |>).
  assert (final ++ bytes_of ".tmp" = named (limits s) (SegmentTemporary sequence)) as ->.
  { unfold final, segment_at, name_path. cbn [name_suffix]. by rewrite <- !app_assoc. }
  rewrite (name_fits _ (SegmentTemporary sequence)) by done. cbn [failed].
  set (temporary := name_path _ (SegmentTemporary sequence)).
  assert (temporary <> final) as Hne by (by apply named_ne).
  destruct (cmeta_fs_open e temporary RDWR_CREAT_TRUNC) as [e1 [f|]] eqn:Eo; cycle 1.
  { intros [= <- <- <-]. destruct (open_staging_failed _ _ _ Eo) as [_ Hf]. split_and!; [|done|done].
    eapply files_kept_weaken; [exact Hf|]. by left. }
  destruct (tr_wal_write_all e1 f (segment_header sequence)) as [e2 res2] eqn:Ew.
  destruct (close_after e2 f res2) as [e3 res3] eqn:Ec.
  destruct (publish s1 e3 temporary final res3) as [[e4 res4] s4] eqn:Ep.
  destruct (stage_spec _ _ _ _ _ _ _ _ _ _ _ _ _ _ Hne Eo Ew Ec Ep) as ([F O Af K] & Hs4 & Hok).
  assert (limits s4 = limits s) as Hlim by (by destruct Hs4 as [-> | ->]).
  destruct res4; cbn [failed]; cycle 1.
  { intros [= <- <- <-]. done. }
  specialize (Hok eq_refl). specialize (O eq_refl). subst s4.
  destruct (cmeta_fs_open e4 final RDWR) as [e5 [g|]] eqn:Eo2;
    destruct (law_open _ _ _ _ _ Eo2) as (Hop & Fo & _ & _);
    (assert (files_kept nothing (os_view e4) (os_view e5)) as Fo'
      by (eapply files_kept_weaken; [exact Fo|]; by intros q [[=] _])); cycle 1.
  { intros [= <- <- <-]. split_and!; [|done|done]. eapply files_kept_trans; [exact F|].
    eapply files_kept_weaken; [exact Fo'|]. by intros q []. }
  destruct Hop as (N5 & G5 & K5).
  destruct (cmeta_fs_seek e5 g TR_WAL_SEGMENT_HEADER_SIZE) as [e6 sought] eqn:Es.
  destruct (law_seek _ _ _ _ _ _ _ Es G5) as (F6 & K6 & P6).
  assert (files_kept (new_segment (limits s) sequence) (os_view e) (os_view e6)) as F06.
  { eapply files_kept_trans; [exact F|]. eapply files_kept_trans;
      (eapply files_kept_weaken; [eassumption|]; by intros q []). }
  destruct sought; cbn [negb].
  - intros [= <- <- <-]. split_and!; [done..|]. intros _. split.
    + eapply fixed_kept; [|exact F6|by intros []]. by eapply fixed_kept; [exact O|exact Fo'|intros []].
    + exists g. split; [by apply P6|done].
  - destruct (cmeta_fs_close e6 g) as [e7 rc] eqn:E7. destruct (law_close _ _ _ _ E7) as [F7 _].
    intros [= <- <- <-]. split_and!; [|done|done]. eapply files_kept_trans; [exact F06|].
    eapply files_kept_weaken; [exact F7|]. by intros q [].
Qed.

(** ** The manifest *)

Definition new_manifest l (q : path) : Prop :=
  q = named l ManifestTemporary \/ q = named l ManifestName.

Lemma write_manifest_spec s first last e e' res s' :
  limits_ok (limits s) -> tr_wal_write_manifest s first last e = (e', res, s') ->
  staged e e' (named (limits s) ManifestTemporary) (named (limits s) ManifestName)
    (manifest_header first last) res /\
  maybe_faulted s s' /\ (res = SALTS_OK -> s' = s).
Proof.
  intros Hl. unfold tr_wal_write_manifest, tr_wal_manifest_path.
  change (fitting_path (wl_path_prefix s ++ bytes_of ".manifest" ++ []))
    with (fitting_path (name_path (lm_prefix (limits s)) ManifestName)).
  change (fitting_path (wl_path_prefix s ++ bytes_of ".manifest" ++ bytes_of ".tmp"))
    with (fitting_path (name_path (lm_prefix (limits s)) ManifestTemporary)).
  rewrite !name_fits by done. cbn [ok failed].
  assert (named (limits s) ManifestTemporary <> named (limits s) ManifestName) as Hne
    by (by apply named_ne).
  destruct (negb (tr_wal_live_range_valid s first last)).
  { intros [= <- <- <-]. split_and!; [|by left|done].
    apply staged_failed; [apply handles_kept_refl|apply files_kept_refl|done..]. }
  destruct (cmeta_fs_open e _ RDWR_CREAT_TRUNC) as [e1 [f|]] eqn:Eo; cycle 1.
  { intros [= <- <- <-]. destruct (open_staging_failed _ _ _ Eo) as [Hk Hf]. split_and!; [|by left|done].
    by apply staged_failed. }
  destruct (tr_wal_write_all e1 f _) as [e2 res2] eqn:Ew.
  destruct (close_after e2 f res2) as [e3 res3] eqn:Ec. intros Ep.
  exact (stage_spec _ _ _ _ _ _ _ _ _ _ _ _ _ _ Hne Eo Ew Ec Ep).
Qed.

(** ** A frame *)

Lemma write_frame_spec e f frame e' res p c :
  write_frame e f frame = (e', res) ->
  v_handle (os_view e) f = Some (p, Zlength_ c) -> v_now (os_view e) p = Some c ->
  files_kept (eq p) (os_view e) (os_view e') /\
  (forall x, v_after (os_view e') p x ->
     v_after (os_view e) p x \/ exists j, (j <= length frame)%nat /\ x = Some (c ++ take j frame)) /\
  (res = SALTS_OK -> fixed e' p (c ++ frame) /\
     v_handle (os_view e') f = Some (p, Zlength_ (c ++ frame))).
Proof.
  intros Hw Hf Hc. unfold write_frame in Hw. destruct (tr_wal_write_all e f frame) as [e1 res1] eqn:Ew.
  destruct (write_all_spec _ _ _ _ _ p c Ew Hf Hc) as (k & [Ck Nk Hk Ak Fk Kk] & Hlen).
  assert (forall x, v_after (os_view e1) p x -> v_after (os_view e) p x \/
    exists j, (j <= length frame)%nat /\ x = Some (c ++ take j frame)) as Ha.
  { intros x Hx. destruct (Ak x Hx) as [?|(j & Hj & ->)]; [by left|right].
    exists j. split; [lia|done]. }
  destruct res1; cbn [ok] in Hw; cycle 1.
  { injection Hw as <- <-. split_and!; done. }
  destruct (law_fsync _ _ _ _ _ _ Hw Hk) as (Ff & Kf & Hs).
  specialize (Hlen eq_refl). rewrite Hlen, (take_ge frame) in Nk by done.
  destruct (Ff p) as [Enow Eafter]; [by intros []|]. split_and!.
  - eapply files_kept_trans; [exact Fk|]. eapply files_kept_weaken; [exact Ff|]. by intros q [].
  - intros x Hx. auto.
  - intros ->. split.
    + split; [by rewrite Enow|]. intros x Hx. by rewrite (Hs eq_refl x Hx).
    + rewrite (kept_handle _ _ f Kf), Hk, length_app. do 2 f_equal. lia.
Qed.

(** ** What is durable *)

Record base l (e : os) (snaps : path -> option (list Z)) (first id : Z)
    (closed : list (list (list Z))) : Prop := {
  bs_closed : closed_hold l (fixed e) first id closed;
  bs_snaps p c : snaps p = Some c -> fixed e p c;
  bs_names p : snaps p <> None ->
    exists i t, name_in_range (SnapshotName i t) /\ p = named l (SnapshotName i t)
}.

Record history l (snaps : path -> option (list Z)) (id : Z) (closed : list (list (list Z)))
    (current : list (list Z)) r : Prop := {
  hs_payloads : Forall (payload_ok l) (concat closed ++ current);
  hs_runs : runs l snaps (concat closed ++ current) zero_recovery r;
  hs_start : starts l snaps id (first_payloads closed current) zero_recovery
}.

(** The names of what [base] talks about. *)
Definition needed (first count : Z) (n : wal_name) : Prop :=
  match n with
  | SegmentName i => first <= i < first + count
  | SnapshotName _ _ => True
  | _ => False
  end.

Lemma base_kept l e e' t snaps first id closed :
  base l e snaps first id closed -> files_kept t (os_view e) (os_view e') ->
  0 <= first -> first + Z.of_nat (length closed) < 2 ^ 64 ->
  (forall n, name_in_range n -> needed first (Z.of_nat (length closed)) n -> ~ t (named l n)) ->
  base l e' snaps first id closed.
Proof.
  intros [Bc Bs Bn] Hk H0' Hmax Ht. split; [| |done].
  - eapply closed_hold_impl; [exact Bc|]. intros i c Hi Hf. eapply fixed_kept; [done|done|].
    apply (Ht (SegmentName i)); cbn; lia.
  - intros p c Hp. eapply fixed_kept; [by apply Bs|done|].
    destruct (Bn p) as (i & t' & Hr & ->); [congruence|]. by apply Ht.
Qed.

(** What the files hold when everything durable is there. *)
Lemma base_disk l e snaps first id closed current torn r (files : path -> option (list Z)) :
  base l e snaps first id closed -> history l snaps id closed current r ->
  (forall p c, fixed e p c -> files p = Some c) ->
  range_ok l first (first + Z.of_nat (length closed)) -> 0 <= id < 2 ^ 64 ->
  files (named l ManifestName) = Some (manifest_header first (first + Z.of_nat (length closed))) ->
  files (segment_at l (first + Z.of_nat (length closed))) =
    Some (segment_content (first + Z.of_nat (length closed)) (id_after id (concat closed)) current ++ torn) ->
  Zlength_ (segment_content (first + Z.of_nat (length closed)) (id_after id (concat closed)) current ++ torn)
    <= lm_segment_bytes l ->
  torn_frame l (id_after id (concat closed ++ current)) torn ->
  disk l files snaps first id closed current torn r.
Proof.
  intros [Bc Bs Bn] [Hp Hr Hst] Hfix Hrange Hid Hm Hc Hsize Ht. split; try done.
  - eapply closed_hold_impl; [exact Bc|]. intros i c _. apply Hfix.
  - intros p c Hp'. by apply Hfix, Bs.
Qed.

Lemma crashed_fixed e (v : view os_file) p c :
  crashed (os_view e) v -> fixed e p c -> v_now v p = Some c.
Proof. intros Hc [_ Ha]. apply Ha. by apply Hc. Qed.

(** After a loss of power the files hold a state that satisfies [R]. *)
Definition crash_safe l (e : os) (R : tr_raft_wal_recovery -> Prop) : Prop :=
  forall v, crashed (os_view e) v ->
    exists snaps first id closed current torn r, R r /\
      disk l (v_now v) snaps first id closed current torn r.

Lemma crash_safe_impl l e (R R' : tr_raft_wal_recovery -> Prop) :
  crash_safe l e R -> (forall r, R r -> R' r) -> crash_safe l e R'.
Proof.
  intros Hc Hi v Hv. destruct (Hc v Hv) as (snaps & first & id & closed & current & torn & r & Hr & Hd).
  exists snaps, first, id, closed, current, torn, r. auto.
Qed.

(** ** An open storage *)

Definition last_sequence (first : Z) (closed : list (list (list Z))) : Z :=
  first + Z.of_nat (length closed).

Definition last_content (first id : Z) (closed : list (list (list Z))) (current : list (list Z))
    : list Z :=
  segment_content (last_sequence first closed) (id_after id (concat closed)) current.

(** What the last segment may hold after a loss of power. *)
Definition maybe_torn l (content : list Z) (id : Z) (x : option (list Z)) : Prop :=
  exists torn, torn_frame l id torn /\ x = Some (content ++ torn) /\
    Zlength_ (content ++ torn) <= lm_segment_bytes l.

(** What the files hold after a loss of power. *)
Record durable l (e : os) (snaps : path -> option (list Z)) (first id : Z)
    (closed : list (list (list Z))) (current : list (list Z)) r : Prop := {
  du_range : range_ok l first (last_sequence first closed);
  du_id : 0 <= id < 2 ^ 64;
  du_manifest : fixed e (named l ManifestName) (manifest_header first (last_sequence first closed));
  du_base : base l e snaps first id closed;
  du_history : history l snaps id closed current r;
  du_after x : v_after (os_view e) (segment_at l (last_sequence first closed)) x ->
    maybe_torn l (last_content first id closed current) (id_after id (concat closed ++ current)) x
}.

(** What they hold now. *)
Record stored l (e : os) (snaps : path -> option (list Z)) (first id : Z)
    (closed : list (list (list Z))) (current : list (list Z)) r : Prop := {
  so_durable :> durable l e snaps first id closed current r;
  so_limits : limits_ok l;
  so_now : v_now (os_view e) (segment_at l (last_sequence first closed)) =
    Some (last_content first id closed current);
  so_size : Zlength_ (last_content first id closed current) <= lm_segment_bytes l
}.

(** Nothing is pending for the last segment. *)
Definition settled l (e : os) (first id : Z) (closed : list (list (list Z)))
    (current : list (list Z)) : Prop :=
  fixed e (segment_at l (last_sequence first closed)) (last_content first id closed current).

(** The storage writes at the end of what its files hold. *)
Record attached s (e : os) (snaps : path -> option (list Z)) (first id : Z)
    (closed : list (list (list Z))) (current : list (list Z)) r : Prop := {
  at_stored : stored (limits s) e snaps first id closed current r;
  at_file : exists f, wl_current_file s = Some f /\
    v_handle (os_view e) f = Some (segment_at (limits s) (last_sequence first closed),
                                   Zlength_ (last_content first id closed current));
  at_offset : wl_current_offset s = Zlength_ (last_content first id closed current);
  at_segment : wl_current_segment s = last_sequence first closed;
  at_first : wl_first_live_segment s = first;
  at_last_id : wl_last_transaction_id s = id_after id (concat closed ++ current);
  at_sound : wl_faulted s = false
}.

Lemma durable_crash_safe l e snaps first id closed current r :
  durable l e snaps first id closed current r -> crash_safe l e (eq r).
Proof.
  intros Ha v Hv. destruct (Hv (segment_at l (last_sequence first closed))) as [Hc _].
  destruct (du_after _ _ _ _ _ _ _ _ Ha _ Hc) as (torn & Ht & Hx & Hs).
  exists snaps, first, id, closed, current, torn, r. split; [done|].
  apply (base_disk _ e); [apply Ha|apply Ha| |apply Ha|apply Ha| |exact Hx|exact Hs|exact Ht].
  - intros p c. by apply crashed_fixed.
  - eapply crashed_fixed; [done|]. exact (du_manifest _ _ _ _ _ _ _ _ Ha).
Qed.

Lemma durable_kept l e e' t snaps first id closed current r :
  durable l e snaps first id closed current r -> files_kept t (os_view e) (os_view e') ->
  (forall n, name_in_range n ->
     n = ManifestName \/ needed first (Z.of_nat (S (length closed))) n -> ~ t (named l n)) ->
  durable l e' snaps first id closed current r.
Proof.
  intros [R I M B Hh A] Hk Ht. pose proof R as (R1 & R2 & R3). unfold last_sequence in *.
  destruct (Hk (segment_at l (first + Z.of_nat (length closed)))) as [En Ea].
  { apply (Ht (SegmentName _)); cbn; lia. }
  split; try done.
  - eapply fixed_kept; [exact M|exact Hk|]. apply Ht; [done|by left].
  - eapply base_kept; [exact B|exact Hk|lia|lia|]. intros n Hn Hd. apply Ht; [done|right].
    destruct n; cbn in *; try done. lia.
  - unfold last_sequence. intros x Hx. by apply A, Ea.
Qed.

Lemma stored_kept l e e' t snaps first id closed current r :
  stored l e snaps first id closed current r -> files_kept t (os_view e) (os_view e') ->
  (forall n, name_in_range n ->
     n = ManifestName \/ needed first (Z.of_nat (S (length closed))) n -> ~ t (named l n)) ->
  stored l e' snaps first id closed current r.
Proof.
  intros [D L N S] Hk Ht. split; [by eapply durable_kept|done| |done].
  destruct (du_range _ _ _ _ _ _ _ _ D) as (R1 & R2 & R3). unfold last_sequence in *.
  destruct (Hk (segment_at l (first + Z.of_nat (length closed)))) as [-> _]; [|done].
  apply (Ht (SegmentName _)); cbn; lia.
Qed.

Lemma segment_content_snoc sequence id payloads payload :
  segment_content sequence id (payloads ++ [payload]) =
  segment_content sequence id payloads ++
  transaction_frame (id_after id payloads +64 1) (id_after id payloads) payload.
Proof.
  unfold segment_content. rewrite frames_from_app, <- app_assoc. cbn [frames_from]. by rewrite app_nil_r.
Qed.

Lemma starts_app l snaps id payloads more r :
  starts l snaps id payloads r -> starts l snaps id (payloads ++ more) r.
Proof.
  intros [->|(p & rest & -> & Hp)]; [by left|]. right. by exists p, (rest ++ more).
Qed.

Lemma history_snoc l snaps id closed current r payload r' :
  history l snaps id closed current r -> payload_ok l payload -> applies l snaps payload r r' ->
  history l snaps id closed (current ++ [payload]) r'.
Proof.
  intros [Hp Hr Hs] Hok Happ. split.
  - rewrite app_assoc. apply Forall_app. split; [done|by constructor].
  - rewrite app_assoc. eapply runs_app; [exact Hr|]. econstructor; [exact Happ|constructor].
  - destruct closed; [by apply starts_app|done].
Qed.

(** The last segment closed, and a frame in a new one. *)
Lemma history_rotate l snaps id closed current r payload r' :
  history l snaps id closed current r -> payload_ok l payload -> applies l snaps payload r r' ->
  history l snaps id (closed ++ [current]) [payload] r'.
Proof.
  intros [Hp Hr Hs] Hok Happ. split; rewrite ?concat_app; cbn [concat]; rewrite ?app_nil_r.
  - apply Forall_app. split; [done|by constructor].
  - eapply runs_app; [exact Hr|]. econstructor; [exact Happ|constructor].
  - by destruct closed.
Qed.

Lemma last_content_snoc first id closed current payload :
  last_content first id closed (current ++ [payload]) =
  last_content first id closed current ++
  transaction_frame (id_after id (concat closed ++ current) +64 1)
    (id_after id (concat closed ++ current)) payload.
Proof. unfold last_content. by rewrite segment_content_snoc, <- id_after_app. Qed.

(** A part of a frame is a torn frame. *)
Lemma torn_part l id payload j :
  payload_ok l payload -> (j <= length (transaction_frame (id +64 1) id payload))%nat ->
  torn_frame l id (take j (transaction_frame (id +64 1) id payload)) \/
  take j (transaction_frame (id +64 1) id payload) = transaction_frame (id +64 1) id payload.
Proof.
  intros Hp Hj. destruct (decide (j = length (transaction_frame (id +64 1) id payload))) as [->|Hne].
  - right. by rewrite take_ge.
  - left. exists payload, j. split_and!; [done|lia|done].
Qed.

(** A frame appended to the last segment. *)
Lemma append_spec l e snaps first id closed current r payload r' f e' res :
  let frame := transaction_frame (id_after id (concat closed ++ current) +64 1)
                 (id_after id (concat closed ++ current)) payload in
  stored l e snaps first id closed current r -> payload_ok l payload ->
  applies l snaps payload r r' ->
  v_handle (os_view e) f = Some (segment_at l (last_sequence first closed),
                                 Zlength_ (last_content first id closed current)) ->
  Zlength_ (last_content first id closed current ++ frame) <= lm_segment_bytes l ->
  write_frame e f frame = (e', res) ->
  crash_safe l e' (fun x => x = r \/ x = r') /\
  (res = SALTS_OK -> stored l e' snaps first id closed (current ++ [payload]) r' /\
     settled l e' first id closed (current ++ [payload]) /\
     v_handle (os_view e') f = Some (segment_at l (last_sequence first closed),
                                     Zlength_ (last_content first id closed (current ++ [payload])))).
Proof.
  intros frame Hs Hp Happ Hf Hfit Hw. pose proof Hs as [[R I M B Hh A] L N S].
  pose proof R as (R1 & R2 & R3). unfold last_sequence in R1, R2, R3.
  destruct (write_frame_spec _ _ _ _ _ _ _ Hw Hf N) as (Fw & Aw & Ow).
  set (p := segment_at l (last_sequence first closed)) in *.
  set (content := last_content first id closed current) in *.
  assert (fixed e' (named l ManifestName) (manifest_header first (last_sequence first closed))) as M'.
  { eapply fixed_kept; [exact M|exact Fw|]. apply (named_ne l (SegmentName _)); [|done|done].
    unfold last_sequence. cbn. lia. }
  assert (base l e' snaps first id closed) as B'.
  { eapply base_kept; [exact B|exact Fw|lia|lia|]. intros n Hn Hd.
    apply (named_ne l (SegmentName _)); [unfold last_sequence; cbn; lia|done|].
    intros <-. unfold last_sequence in Hd. cbn in Hd. lia. }
  assert (history l snaps id closed (current ++ [payload]) r') as Hh' by (by eapply history_snoc).
  assert (forall x, v_after (os_view e') p x -> maybe_torn l content (id_after id (concat closed ++ current)) x
    \/ x = Some (content ++ frame)) as A'.
  { intros x Hx. destruct (Aw x Hx) as [Hx'|(j & Hj & ->)]; [left; by apply A|].
    destruct (torn_part l (id_after id (concat closed ++ current)) payload j Hp Hj) as [Ht| E].
    - left. exists (take j frame). split_and!; [done|done|]. rewrite length_app in Hfit |- *.
      rewrite length_take. lia.
    - right. by unfold frame; rewrite E. }
  split.
  - intros v Hv. destruct (Hv p) as [Hc _]. destruct (A' _ Hc) as [(torn & Ht & Hx & Hsz)|Hx].
    + exists snaps, first, id, closed, current, torn, r. split; [by left|].
      apply (base_disk _ e'); [exact B'|exact Hh| |exact R|exact I| |exact Hx|exact Hsz|exact Ht].
      * intros q c. by apply crashed_fixed.
      * by eapply crashed_fixed.
    + exists snaps, first, id, closed, (current ++ [payload]), [], r'. split; [by right|].
      apply (base_disk _ e'); [exact B'|exact Hh'| |exact R|exact I| | | |].
      * intros q c. by apply crashed_fixed.
      * by eapply crashed_fixed.
      * rewrite app_nil_r. change (v_now v p = Some (last_content first id closed (current ++ [payload]))).
        by rewrite last_content_snoc, Hx.
      * rewrite app_nil_r. change (Zlength_ (last_content first id closed (current ++ [payload])) <= lm_segment_bytes l).
        by rewrite last_content_snoc.
      * by apply torn_nil.
  - intros Hok. destruct (Ow Hok) as [Hfix Hf']. unfold settled. rewrite last_content_snoc.
    split_and!; [|done|done]. split; [split| | |]; try done; rewrite ?last_content_snoc; cycle 1.
    + exact (proj1 Hfix).
    + done.
    + intros x Hx. exists []. split_and!; [by apply torn_nil| |by rewrite app_nil_r].
      rewrite app_nil_r. exact (proj2 Hfix x Hx).
Qed.

Lemma last_sequence_snoc first closed current :
  last_sequence first (closed ++ [current]) = last_sequence first closed + 1.
Proof. unfold last_sequence. rewrite length_app. cbn [length]. lia. Qed.

Lemma last_content_rotate first id closed current payload :
  last_content first id (closed ++ [current]) [payload] =
  segment_header (last_sequence first closed + 1) ++
  transaction_frame (id_after id (concat closed ++ current) +64 1)
    (id_after id (concat closed ++ current)) payload.
Proof.
  unfold last_content. rewrite last_sequence_snoc, concat_app. cbn [concat].
  unfold segment_content. cbn [frames_from]. by rewrite !app_nil_r.
Qed.

(** The names a new segment uses are not needed. *)
Lemma new_segment_apart l first closed sequence n :
  0 <= sequence < 2 ^ 64 -> name_in_range n -> first + Z.of_nat (length closed) < sequence ->
  n = ManifestName \/ needed first (Z.of_nat (S (length closed))) n ->
  ~ new_segment l sequence (named l n).
Proof.
  intros Hs Hn Hlt Hd [E|E]; apply name_path_inj in E; try done; subst n;
    destruct Hd as [[=]|Hd]; cbn in Hd; try done. lia.
Qed.

Lemma new_manifest_apart l first count n :
  name_in_range n -> needed first count n ->
  named l n <> named l ManifestTemporary /\ named l n <> named l ManifestName.
Proof. intros Hn Hd. split; apply named_ne; try done; by intros ->. Qed.

(** A frame in a new segment, before the manifest names it. *)
Lemma rotated_stored l e e1 e2 snaps first id closed current r f frame res :
  stored l e snaps first id closed current r ->
  last_sequence first closed + 1 < 2 ^ 64 ->
  files_kept (new_segment l (last_sequence first closed + 1)) (os_view e) (os_view e1) ->
  fixed e1 (segment_at l (last_sequence first closed + 1))
    (segment_header (last_sequence first closed + 1)) ->
  v_handle (os_view e1) f = Some (segment_at l (last_sequence first closed + 1), 32) ->
  write_frame e1 f frame = (e2, res) ->
  stored l e2 snaps first id closed current r /\
  (settled l e first id closed current -> settled l e2 first id closed current) /\
  (res = SALTS_OK ->
     fixed e2 (segment_at l (last_sequence first closed + 1))
       (segment_header (last_sequence first closed + 1) ++ frame) /\
     v_handle (os_view e2) f = Some (segment_at l (last_sequence first closed + 1),
       Zlength_ (segment_header (last_sequence first closed + 1) ++ frame))).
Proof.
  intros Hs Hmax Fk [Hnew _] Hf Hw. pose proof (du_range _ _ _ _ _ _ _ _ (so_durable _ _ _ _ _ _ _ _ Hs)) as (R1 & R2 & R3).
  set (sq := last_sequence first closed + 1) in *.
  assert (0 <= sq < 2 ^ 64) as Hsq by (unfold sq; lia).
  destruct (write_frame_spec _ _ _ _ _ _ (segment_header sq) Hw Hf Hnew) as (Fw & _ & Ow).
  assert (files_kept (new_segment l sq) (os_view e) (os_view e2)) as F02.
  { eapply files_kept_trans; [exact Fk|]. eapply files_kept_weaken; [exact Fw|]. by right. }
  assert (forall n, name_in_range n -> n = ManifestName \/ needed first (Z.of_nat (S (length closed))) n ->
    ~ new_segment l sq (named l n)) as Hap.
  { intros n Hn Hd. eapply new_segment_apart; try done. unfold sq, last_sequence. lia. }
  split_and!; [by eapply stored_kept| |done].
  intros Hset. eapply fixed_kept; [exact Hset|exact F02|]. apply (Hap (SegmentName _)).
  - cbn. unfold last_sequence in *. lia.
  - right. cbn. unfold last_sequence. lia.
Qed.

(** The base of the log once its last segment is closed. *)
Lemma base_rotate l e snaps first id closed current :
  base l e snaps first id closed -> settled l e first id closed current ->
  Zlength_ (last_content first id closed current) <= lm_segment_bytes l ->
  base l e snaps first id (closed ++ [current]).
Proof. intros [Bc Bs Bn] Hset Hs. split; [|done|done]. by apply closed_hold_snoc. Qed.

Lemma maybe_torn_whole l content id x :
  limits_ok l -> x = Some content -> Zlength_ content <= lm_segment_bytes l ->
  maybe_torn l content id x.
Proof. intros Hl -> Hs. exists []. rewrite app_nil_r. split_and!; [by apply torn_nil|done|done]. Qed.

(** The manifest that names the new segment. *)
Lemma switch_spec l s e snaps first id closed current r payload r' e' res s' :
  let frame := transaction_frame (id_after id (concat closed ++ current) +64 1)
                 (id_after id (concat closed ++ current)) payload in
  let sequence := last_sequence first closed + 1 in
  limits s = l -> stored l e snaps first id closed current r -> settled l e first id closed current ->
  fixed e (segment_at l sequence) (segment_header sequence ++ frame) ->
  payload_ok l payload -> applies l snaps payload r r' -> range_ok l first sequence ->
  Zlength_ (segment_header sequence ++ frame) <= lm_segment_bytes l ->
  tr_wal_write_manifest s first sequence e = (e', res, s') ->
  crash_safe l e' (fun x => x = r \/ x = r') /\
  (res = SALTS_OK -> stored l e' snaps first id (closed ++ [current]) [payload] r' /\
     settled l e' first id (closed ++ [current]) [payload]).
Proof.
  intros frame sequence <- Hs Hset Hnew Hp Happ Hrange Hsize Hm.
  pose proof Hs as [[R I M B Hh A] L N Sz]. set (l := limits s) in *.
  pose proof R as (R1 & R2 & R3). pose proof Hrange as (Q1 & Q2 & Q3).
  destruct (write_manifest_spec _ _ _ _ _ _ _ L Hm) as ([F O Af K] & _ & _). fold l in F, O, Af.
  assert (forall n, name_in_range n -> needed first (Z.of_nat (S (S (length closed)))) n ->
    forall c, fixed e (named l n) c -> fixed e' (named l n) c) as Hkeep.
  { intros n Hn Hd c Hc. eapply fixed_kept; [exact Hc|exact F|].
    destruct (new_manifest_apart l first _ n Hn Hd). tauto. }
  assert (settled l e' first id closed current) as Hset'.
  { apply (Hkeep (SegmentName _)); [| |exact Hset]; unfold last_sequence in *; cbn; lia. }
  assert (fixed e' (segment_at l sequence) (segment_header sequence ++ frame)) as Hnew'.
  { apply (Hkeep (SegmentName _)); [| |exact Hnew]; unfold sequence, last_sequence in *; cbn; lia. }
  assert (base l e' snaps first id closed) as B'.
  { eapply base_kept; [exact B|exact F|lia|unfold last_sequence in *; lia|]. intros n Hn Hd.
    destruct (new_manifest_apart l first _ n Hn Hd). tauto. }
  assert (base l e' snaps first id (closed ++ [current])) as B2 by (by apply base_rotate).
  assert (history l snaps id (closed ++ [current]) [payload] r') as H2' by (by eapply history_rotate).
  assert (last_sequence first (closed ++ [current]) = sequence) as Es by apply last_sequence_snoc.
  assert (last_content first id (closed ++ [current]) [payload] = segment_header sequence ++ frame) as Ec
    by apply last_content_rotate.
  split.
  - intros v Hv. destruct (Hv (named l ManifestName)) as [Hc _].
    destruct (Af _ Hc) as [Hx|Hx].
    + apply (proj2 M) in Hx. exists snaps, first, id, closed, current, [], r. split; [by left|].
      apply (base_disk _ e'); rewrite ?app_nil_r; [exact B'|exact Hh| |exact R|exact I|exact Hx| |exact Sz|by apply torn_nil].
      * intros q c. by apply crashed_fixed.
      * by eapply crashed_fixed.
    + exists snaps, first, id, (closed ++ [current]), [payload], [], r'. split; [by right|].
      apply (base_disk _ e'); rewrite ?app_nil_r; [exact B2|exact H2'| | |exact I| | | |by apply torn_nil].
      * intros q c. by apply crashed_fixed.
      * fold (last_sequence first (closed ++ [current])). by rewrite Es.
      * fold (last_sequence first (closed ++ [current])). by rewrite Es, Hx.
      * fold (last_sequence first (closed ++ [current])).
        fold (last_content first id (closed ++ [current]) [payload]). rewrite Es, Ec.
        by eapply crashed_fixed.
      * fold (last_sequence first (closed ++ [current])).
        fold (last_content first id (closed ++ [current]) [payload]). by rewrite Ec.
  - intros Hok. unfold settled. rewrite Es, Ec. split; [|exact Hnew'].
    split; [split| | |]; rewrite ?Es, ?Ec; try done; [by apply O| |exact (proj1 Hnew')].
    intros x Hx. apply maybe_torn_whole; [done|exact (proj2 Hnew' x Hx)|done].
Qed.

(** ** The commit *)

Definition rotates s : bool := wl_segment_bytes s - wl_current_offset s <? transaction_used s.

(** What is pending has become current. *)
Record committed s s' : Prop := {
  cm_limits : limits s' = limits s;
  cm_term : wl_term s' = wl_pending_term s;
  cm_voted_for : wl_voted_for s' = wl_pending_voted_for s;
  cm_commit_index : wl_commit_index s' = wl_pending_commit_index s;
  cm_last_log_index : wl_last_log_index s' = wl_pending_last_log_index s;
  cm_snapshot_index : wl_snapshot_index s' = wl_snapshot_index s;
  cm_snapshot_term : wl_snapshot_term s' = wl_snapshot_term s;
  cm_active : wl_transaction_active s' = false
}.

(** What is left of a failed commit. *)
Definition commit_failed s e (e' : os) s' r r' : Prop :=
  (e' = e /\ s' = s) \/
  (wl_faulted s' = true /\ crash_safe (limits s) e' (fun x => x = r \/ x = r')).

Lemma frame_length s id previous :
  Zlength_ (transaction_frame id previous (wl_payload s)) = transaction_used s.
Proof.
  rewrite length_transaction_frame. unfold transaction_used, TR_WAL_TRANSACTION_HEADER_SIZE. lia.
Qed.

(** The frame fits into the current segment. *)
Lemma commit_in_place s e snaps first id closed current r r' e' res s' :
  attached s e snaps first id closed current r -> payload_ok (limits s) (wl_payload s) ->
  applies (limits s) snaps (wl_payload s) r r' -> rotates s = false ->
  commit_frame s false (wl_last_transaction_id s +64 1) (transaction_used s)
    (transaction_frame (wl_last_transaction_id s +64 1) (wl_last_transaction_id s) (wl_payload s)) e =
    (e', res, s') ->
  match res with
  | SALTS_OK =>
      attached s' e' snaps first id closed (current ++ [wl_payload s]) r' /\
      settled (limits s) e' first id closed (current ++ [wl_payload s]) /\ committed s s'
  | _ => commit_failed s e e' s' r r'
  end.
Proof.
  intros [Hs (f & Hfile & Hh) Ho Hseg Hfirst Hid Hfl] Hp Happ Hrot. unfold commit_frame.
  rewrite Hfile. unfold rotates in Hrot. rewrite Ho in Hrot. apply Z.ltb_ge in Hrot.
  rewrite Hid. set (frame := transaction_frame _ _ _).
  assert (Zlength_ frame = transaction_used s) as Hlen by apply frame_length.
  assert (Zlength_ (last_content first id closed current ++ frame) <= lm_segment_bytes (limits s)) as Hfit.
  { rewrite length_app. unfold limits. cbn [lm_segment_bytes]. lia. }
  destruct (write_frame e f frame) as [e1 res1] eqn:Ew.
  destruct (append_spec _ _ _ _ _ _ _ _ _ _ _ _ _ Hs Hp Happ Hh Hfit Ew) as [Hcrash Hok].
  destruct res1; cbn [failed]; intros [= <- <- <-]; [|by right].
  destruct (Hok eq_refl) as (Hst & Hset & Hh'). split_and!; [|done|done].
  pose proof (lo_segment _ (so_limits _ _ _ _ _ _ _ _ Hs)) as Hmax. unfold INT_MAX in Hmax.
  split; try done.
  - by exists f.
  - change (wl_current_offset s +64 transaction_used s =
      Zlength_ (last_content first id closed (current ++ [wl_payload s]))).
    rewrite Ho, last_content_snoc. fold frame. rewrite length_app in Hfit |- *. rewrite u64_small; lia.
  - change (id_after id (concat closed ++ current) +64 1 =
      id_after id (concat closed ++ current ++ [wl_payload s])).
    by rewrite app_assoc, (id_after_app id (concat closed ++ current)).
Qed.

(** A new segment, when the live range has room for one. *)
Lemma rotate_spec s e snaps first id closed current r e1 res s1 rotated :
  let sequence := last_sequence first closed + 1 in
  attached s e snaps first id closed current r -> rotates s = true ->
  rotate_segment s (transaction_used s) e = (e1, res, s1, rotated) ->
  match res with
  | SALTS_OK =>
      rotated = true /\ range_ok (limits s) first sequence /\
      files_kept (new_segment (limits s) sequence) (os_view e) (os_view e1) /\
      fixed e1 (segment_at (limits s) sequence) (segment_header sequence) /\
      exists f, v_handle (os_view e1) f = Some (segment_at (limits s) sequence, 32) /\
        s1 = s <| wl_current_file := None |>
               <| wl_current_path := segment_at (limits s) sequence |>
               <| wl_current_file := Some f |> <| wl_current_segment := sequence |>
               <| wl_current_offset := 32 |>
  | _ => (e1 = e /\ s1 = s) \/ (wl_faulted s1 = true /\ crash_safe (limits s) e1 (eq r))
  end.
Proof.
  intros sequence Ha Hrot. unfold rotate_segment. unfold rotates in Hrot. rewrite Hrot.
  destruct Ha as [Hs (f & Hfile & Hh) Ho Hseg Hfirst Hid Hfl]. rewrite Hseg, Hfirst.
  pose proof (du_range _ _ _ _ _ _ _ _ (so_durable _ _ _ _ _ _ _ _ Hs)) as Hr. pose proof Hr as (R1 & R2 & R3).
  pose proof (so_limits _ _ _ _ _ _ _ _ Hs) as Hl. unfold limits in R3. cbn [lm_live_segments] in R3.
  destruct ((last_sequence first closed =? UINT64_MAX) || _ || _) eqn:Hspace.
  { intros [= <- <- <- <-]. by left. }
  apply orb_false_iff in Hspace as [[Hmax _]%orb_false_iff Hlive]. unfold UINT64_MAX in Hmax.
  rewrite u64_small in Hlive by lia.
  change (wl_current_segment (s <| wl_current_file := None |>)) with (wl_current_segment s).
  rewrite Hseg, (u64_small (last_sequence first closed + 1)), Hfile by lia. fold sequence.
  assert (0 <= sequence < 2 ^ 64) as Hsq by (unfold sequence; lia).
  assert (forall n, name_in_range n -> n = ManifestName \/ needed first (Z.of_nat (S (length closed))) n ->
    ~ new_segment (limits s) sequence (named (limits s) n)) as Hap.
  { intros n Hn Hd. eapply new_segment_apart; try done. unfold sequence, last_sequence. lia. }
  destruct (cmeta_fs_close e f) as [e0 rc] eqn:Ec. destruct (law_close _ _ _ _ Ec) as [Fc _].
  assert (files_kept (new_segment (limits s) sequence) (os_view e) (os_view e0)) as F0.
  { eapply files_kept_weaken; [exact Fc|]. by intros q []. }
  destruct rc; cbn [ok]; cycle 1.
  { cbn [failed]. intros [= <- <- <- <-]. right. split; [done|].
    eapply durable_crash_safe, stored_kept; [exact Hs|exact F0|exact Hap]. }
  set (s0 := s <| wl_current_file := None |>).
  destruct (tr_wal_create_segment s0 sequence e0) as [[e2 res2] s2] eqn:Es.
  destruct (create_segment_spec _ _ _ _ _ _ (so_limits _ _ _ _ _ _ _ _ Hs : limits_ok (limits s0)) Hsq Es)
    as (F2 & L2 & O2).
  assert (files_kept (new_segment (limits s) sequence) (os_view e) (os_view e2)) as F02
    by (eapply files_kept_trans; [exact F0|exact F2]).
  destruct res2; cbn [failed]; intros [= <- <- <- <-]; cycle 1.
  { right. split; [done|]. eapply durable_crash_safe, stored_kept; [exact Hs|exact F02|exact Hap]. }
  destruct (O2 eq_refl) as (Hfix & g & Hg & ->). split_and!; [done| |done|done|].
  - unfold range_ok, limits, sequence. cbn [lm_live_segments]. lia.
  - by exists g.
Qed.

(** The frame goes into the new segment, which the manifest then names. *)
Lemma commit_rotating s e snaps first id closed current r r' e1 g e' res s' :
  let sequence := last_sequence first closed + 1 in
  let s1 := s <| wl_current_file := None |>
              <| wl_current_path := segment_at (limits s) sequence |>
              <| wl_current_file := Some g |> <| wl_current_segment := sequence |>
              <| wl_current_offset := 32 |> in
  attached s e snaps first id closed current r -> settled (limits s) e first id closed current ->
  payload_ok (limits s) (wl_payload s) -> applies (limits s) snaps (wl_payload s) r r' ->
  transaction_used s <= wl_segment_bytes s - TR_WAL_SEGMENT_HEADER_SIZE ->
  range_ok (limits s) first sequence ->
  files_kept (new_segment (limits s) sequence) (os_view e) (os_view e1) ->
  fixed e1 (segment_at (limits s) sequence) (segment_header sequence) ->
  v_handle (os_view e1) g = Some (segment_at (limits s) sequence, 32) ->
  commit_frame s1 true (wl_last_transaction_id s +64 1) (transaction_used s)
    (transaction_frame (wl_last_transaction_id s +64 1) (wl_last_transaction_id s) (wl_payload s)) e1 =
    (e', res, s') ->
  match res with
  | SALTS_OK =>
      attached s' e' snaps first id (closed ++ [current]) [wl_payload s] r' /\
      settled (limits s) e' first id (closed ++ [current]) [wl_payload s] /\ committed s s'
  | _ => commit_failed s e e' s' r r'
  end.
Proof.
  intros sequence s1 Ha Hset Hp Happ Hfits Hrange F1 Hfix Hg.
  destruct Ha as [Hs (f & Hfile & Hh) Ho Hseg Hfirst Hid Hfl].
  unfold commit_frame. change (wl_current_file s1) with (Some g). rewrite Hid.
  set (frame := transaction_frame _ _ _).
  assert (Zlength_ frame = transaction_used s) as Hlen by apply frame_length.
  pose proof Hrange as (Q1 & Q2 & Q3).
  destruct (write_frame e1 g frame) as [e2 res2] eqn:Ew.
  destruct (rotated_stored _ _ _ _ _ _ _ _ _ _ _ _ _ Hs Q2 F1 Hfix Hg Ew) as (Hs2 & Hset2 & Ok2).
  destruct res2; cbn [failed]; cycle 1.
  { intros [= <- <- <-]. right. split; [done|]. eapply crash_safe_impl; [eapply durable_crash_safe, Hs2|].
    intros x <-. by left. }
  destruct (Ok2 eq_refl) as [Hnew2 Hg2].
  change (wl_first_live_segment s1) with (wl_first_live_segment s). rewrite Hfirst.
  change (wl_current_segment s1) with sequence.
  destruct (tr_wal_write_manifest s1 first sequence e2) as [[e3 res3] s3] eqn:Em.
  assert (Zlength_ (segment_header sequence ++ frame) <= lm_segment_bytes (limits s)) as Hsize.
  { rewrite length_app, length_segment_header. unfold limits, TR_WAL_SEGMENT_HEADER_SIZE in *.
    cbn [lm_segment_bytes]. lia. }
  destruct (switch_spec (limits s) s1 e2 _ _ _ _ _ _ _ _ _ _ _ eq_refl Hs2 (Hset2 Hset) Hnew2
    Hp Happ Hrange Hsize Em) as [Hcrash Ok3].
  destruct (write_manifest_spec s1 _ _ _ _ _ _ (so_limits _ _ _ _ _ _ _ _ Hs) Em) as (Hst & _ & Hs3).
  destruct res3; cbn [failed]; intros [= <- <- <-]; [|by right].
  specialize (Hs3 eq_refl). subst s3. destruct (Ok3 eq_refl) as [Hs4 Hset4].
  split_and!; [|done|done].
  pose proof (lo_segment _ (so_limits _ _ _ _ _ _ _ _ Hs)) as Hmax. unfold INT_MAX in Hmax.
  split; rewrite ?last_sequence_snoc, ?last_content_rotate; try done.
  - exists g. split; [done|]. by apply (st_handles _ _ _ _ _ _ Hst).
  - change (32 +64 transaction_used s1 = Zlength_ (segment_header sequence ++ frame)).
    change (transaction_used s1) with (transaction_used s). rewrite length_app, length_segment_header in *.
    rewrite u64_small; lia.
  - change (id_after id (concat closed ++ current) +64 1 =
      id_after id (concat (closed ++ [current]) ++ [wl_payload s])).
    rewrite concat_app. cbn [concat]. by rewrite app_nil_r, (id_after_app id (concat closed ++ current)).
Qed.

Lemma commit_spec s e snaps first id closed current r r' e' res s' :
  attached s e snaps first id closed current r -> wl_transaction_active s = true ->
  payload_ok (limits s) (wl_payload s) -> applies (limits s) snaps (wl_payload s) r r' ->
  (rotates s = true -> settled (limits s) e first id closed current) ->
  tr_wal_commit s e = (e', res, s') ->
  match res with
  | SALTS_OK => exists closed' current', attached s' e' snaps first id closed' current' r' /\
      settled (limits s) e' first id closed' current' /\ committed s s'
  | _ => commit_failed s e e' s' r r'
  end.
Proof.
  intros Ha Hact Hp Happ Hset. pose proof Ha as [Hs (f & Hfile & Hh) Ho Hseg Hfirst Hid Hfl].
  unfold tr_wal_commit. rewrite Hact, Hfl. cbn [negb].
  destruct (_ <? transaction_used s) eqn:Hfits; [intros [= <- <- <-]; by left|].
  apply Z.ltb_ge in Hfits. destruct (rotates s) eqn:Hrot; cycle 1.
  { assert (rotate_segment s (transaction_used s) e = (e, SALTS_OK, s, false)) as ->.
    { unfold rotate_segment. unfold rotates in Hrot. by rewrite Hrot. }
    cbn [failed]. intros Hc. pose proof (commit_in_place _ _ _ _ _ _ _ _ _ _ _ _ Ha Hp Happ Hrot Hc) as Hr.
    destruct res; [|done]. by exists closed, (current ++ [wl_payload s]). }
  destruct (rotate_segment s (transaction_used s) e) as [[[e1 res1] s1] rotated] eqn:Er.
  pose proof (rotate_spec _ _ _ _ _ _ _ _ _ _ _ _ Ha Hrot Er) as Hr.
  destruct res1; cbn [failed]; cycle 1.
  { intros [= <- <- <-]. destruct Hr as [[-> ->]|[Hf Hc]]; [by left|right]. split; [done|].
    eapply crash_safe_impl; [exact Hc|]. intros x <-. by left. }
  destruct Hr as (-> & Hrange & F1 & Hfix & g & Hg & ->).
  set (sequence := last_sequence first closed + 1) in *.
  intros Hc. pose proof (commit_rotating _ _ _ _ _ _ _ _ _ _ _ _ _ _ Ha (Hset eq_refl) Hp Happ Hfits
    Hrange F1 Hfix Hg Hc) as Hres.
  destruct res; [|done]. by exists (closed ++ [current]), [wl_payload s].
Qed.
End Commit.
