(* ===== verification/WalLog.v ===== *)
(** * The operations of a transaction

    Every operation that [tr_wal_begin] and the writers after it accept is one
    that replay applies, with the effect the writers keep in the pending
    fields. *)

From S2P Require Import Prelude Configuration Bytes Wire Digest Os SnapshotSender Wal WalCodec.
From S2P Require Import WalRead WalRecovery WalReplay WalWrite WalCommit.
From Stdlib Require Import ZArith Lia.
From stdpp Require Import base numbers list tactics strings.
Open Scope Z_scope.
Open Scope raft_scope.

Section Log.
Context `{OsLaws} `{Xxh3Laws}.
Implicit Types s : tr_raft_wal_storage.
Implicit Types r : tr_raft_wal_recovery.
Implicit Types l : wal_limits.

(** ** One more operation *)

Lemma byte_at_app_l (p q : list Z) i : (i < length p)%nat -> byte_at (p ++ q) i = byte_at p i.
Proof. intros Hi. unfold byte_at. by rewrite app_nth1. Qed.

Lemma wal_get_u32_app (p q : list Z) :
  (4 <= length p)%nat -> tr_wal_get_u32 (p ++ q) = tr_wal_get_u32 p.
Proof. intros Hp. unfold tr_wal_get_u32. by rewrite !byte_at_app_l by lia. Qed.

Lemma apply_loop_app fuel fuel' s r p q e e' r1 :
  apply_loop fuel s r p e = (e', SALTS_OK, r1) -> (length (p ++ q) <= fuel')%nat ->
  exists fuel1, (length q <= fuel1)%nat /\ apply_loop fuel' s r (p ++ q) e = apply_loop fuel1 s r1 q e'.
Proof.
  revert fuel' r p e. induction fuel as [|fuel IH]; intros fuel' r p e.
  { destruct p; [|done]. intros [= <- <-] Hl. exists fuel'. by split. }
  cbn [apply_loop]. destruct p as [|b p0] eqn:Ep; [intros [= <- <-] Hl; exists fuel'; by split|].
  rewrite <- Ep. destruct (Z.of_nat (length p) <? TR_WAL_OPERATION_HEADER_SIZE) eqn:Hhead; [done|].
  unfold TR_WAL_OPERATION_HEADER_SIZE in *. change (Z.to_nat 8) with 8%nat in *.
  assert (8 <= length p)%nat as H8 by lia.
  destruct (_ || _) eqn:Hzero; [done|]. destruct (_ <? tr_wal_get_u32 _) eqn:Hsize; [done|].
  destruct (apply_operation _ _ _ _ _) as [[e1 [|]] r2] eqn:Hop; cbn [failed ok negb]; [|done].
  intros Hrest Hl. destruct fuel' as [|fuel'].
  { rewrite length_app in Hl. lia. }
  set (size := tr_wal_get_u32 (drop 4 p)) in *. rewrite length_drop in Hsize.
  assert (apply_loop (S fuel') s r (p ++ q) e =
    apply_loop fuel' s r2 (drop (Z.to_nat size) (drop 8 p) ++ q) e1) as ->.
  { cbn [apply_loop]. destruct (p ++ q) as [|b' pq] eqn:Epq.
    { apply (f_equal length) in Epq. rewrite length_app in Epq. cbn in Epq. lia. }
    rewrite <- Epq. unfold TR_WAL_OPERATION_HEADER_SIZE. change (Z.to_nat 8) with 8%nat.
    replace (Z.of_nat (length (p ++ q)) <? 8) with false
      by (symmetry; apply Z.ltb_ge; rewrite length_app; lia).
    rewrite !(byte_at_app_l p q) by lia. rewrite Hzero.
    rewrite (drop_app_le p q 4), wal_get_u32_app by (rewrite ?length_drop; lia). fold size.
    rewrite (drop_app_le p q 8), length_app, length_drop by lia.
    apply Z.ltb_ge in Hsize.
    replace (Z.of_nat (length p - 8 + length q) <? size) with false by (symmetry; apply Z.ltb_ge; lia).
    rewrite take_app_le, drop_app_le by (rewrite length_drop; lia).
    rewrite Hop. cbn [failed ok negb]. done. }
  apply (IH fuel' r2 _ e1 Hrest). revert Hl. rewrite !length_app, !length_drop. lia.
Qed.

(** An operation that replay applies. *)
Definition applies_op l (snaps : path -> option (list Z)) (type : Z) (data : list Z) r r' : Prop :=
  forall s e, limits s = l -> present snaps e ->
    exists e', apply_operation s r type data e = (e', SALTS_OK, r') /\ quiet e e'.

Lemma applies_nil l snaps r : applies l snaps [] r r.
Proof. intros s e _ _. exists e. split; [done|reflexivity]. Qed.

Lemma applies_snoc l snaps payload type data r r1 r2 :
  applies l snaps payload r r1 -> applies_op l snaps type data r1 r2 ->
  Z.of_nat (length data) < 2 ^ 32 ->
  applies l snaps (payload ++ operation_bytes type data) r r2.
Proof.
  intros Happ Hop Hlen s e Hl Hp. destruct (Happ s e Hl Hp) as (e1 & E1 & Q1).
  unfold tr_wal_apply_payload in *.
  destruct (apply_loop_app _ (length (payload ++ operation_bytes type data)) s r payload
    (operation_bytes type data) e e1 r1 E1 ltac:(lia)) as (fuel & Hf & ->).
  destruct (Hop s e1 Hl (present_quiet _ _ _ Hp Q1)) as (e2 & E2 & Q2).
  assert (length (operation_bytes type data) = (8 + length data)%nat) as Hlb.
  { unfold operation_bytes. rewrite !length_app, length_wal_put_u32. done. }
  destruct fuel as [|fuel]; [lia|]. exists e2. split; [|by etrans]. cbn [apply_loop].
  destruct (operation_bytes type data) as [|b bytes] eqn:Eb; [done|]. rewrite <- Eb in Hlb |- *. rewrite Hlb.
  unfold TR_WAL_OPERATION_HEADER_SIZE. rewrite (proj2 (Z.ltb_ge _ _)) by lia.
  change (byte_at (operation_bytes type data) 1) with 0.
  change (byte_at (operation_bytes type data) 2) with 0.
  change (byte_at (operation_bytes type data) 3) with 0. cbn [Z.eqb negb orb].
  change (drop 4 (operation_bytes type data)) with (tr_wal_put_u32 (Z.of_nat (length data)) ++ data).
  rewrite wal_get_put_u32 by lia.
  change (drop (Z.to_nat 8) (operation_bytes type data)) with data.
  rewrite Z.ltb_irrefl, Nat2Z.id, take_ge, drop_ge by done.
  change (byte_at (operation_bytes type data) 0) with type. rewrite E2. cbn [failed ok negb].
  by destruct fuel.
Qed.

(** ** Calls *)

(** The calls between [begin] and [commit]. *)
Inductive wal_call :=
| WriteHardState (term voted_for : Z)
| TruncateLog (from_index : Z)
| AppendLog (entries : list tr_raft_entry)
| WriteCommitIndex (commit_index : Z).

Definition perform s (c : wal_call) : status * tr_raft_wal_storage :=
  match c with
  | WriteHardState term voted_for => tr_wal_write_hard_state s term voted_for
  | TruncateLog from_index => tr_wal_truncate_log s from_index
  | AppendLog entries => tr_wal_append_log s entries
  | WriteCommitIndex commit_index => tr_wal_write_commit_index s commit_index
  end.

(** The bytes of an entry are the first [data_length] ones. *)
Definition stored_entry (e : tr_raft_entry) : tr_raft_entry :=
  Entry (entry_index e) (entry_term e) (entry_command_id e) (entry_data_length e)
    (take (Z.to_nat (entry_data_length e)) (entry_data e)).

(** What a call means for the state. *)
Definition effect r (c : wal_call) : tr_raft_wal_recovery :=
  match c with
  | WriteHardState term voted_for => r <| rc_term := term |> <| rc_voted_for := voted_for |>
  | TruncateLog from_index =>
      r <| rc_entries := take (Z.to_nat (from_index - rc_snapshot_index r - 1)) (rc_entries r) |>
  | AppendLog entries => r <| rc_entries := rc_entries r ++ (stored_entry <$> entries) |>
  | WriteCommitIndex commit_index => r <| rc_commit_index := commit_index |>
  end.

Definition word (v : Z) : Prop := 0 <= v < 2 ^ 64.

Record entry_in_range (e : tr_raft_entry) : Prop := {
  er_index : word (entry_index e);
  er_term : word (entry_term e);
  er_command : word (entry_command_id e);
  er_length : 0 <= entry_data_length e <= Z.of_nat (length (entry_data e))
}.

Definition call_in_range (c : wal_call) : Prop :=
  match c with
  | WriteHardState term voted_for => word term /\ word voted_for
  | TruncateLog from_index => word from_index
  | AppendLog entries => Forall entry_in_range entries
  | WriteCommitIndex commit_index => word commit_index
  end.

(** ** What replay makes of them *)

Lemma replays_hard_state r term voted_for :
  word term -> word voted_for -> rc_term r <= term ->
  apply_hard_state r (hard_state_payload term voted_for) =
    (SALTS_OK, effect r (WriteHardState term voted_for)).
Proof.
  intros Ht Hv Hle. unfold apply_hard_state, hard_state_payload.
  change (length _) with 16%nat. cbn [Z.of_nat Z.eqb negb].
  rewrite wal_get_put_u64, (proj2 (Z.ltb_ge _ _)) by done.
  change (drop 8 _) with (tr_wal_put_u64 voted_for ++ []). by rewrite wal_get_put_u64.
Qed.

(** The index after the last entry does not wrap around when a position of the
    log is below it. *)
Lemma position_below l r i :
  limits_ok l -> recovery_wf l r -> rc_snapshot_index r < i -> i <= next_log_index r ->
  i <= rc_snapshot_index r + rc_entry_count r + 1 /\
  i - 1 = u64 (rc_snapshot_index r + Z.min (rc_entry_count r) (i - rc_snapshot_index r - 1)).
Proof.
  intros Hl Hw Hlo Hhi. pose proof (rw_count _ _ Hw). pose proof (rw_index _ _ Hw).
  pose proof (lo_entries _ Hl). unfold next_log_index in Hhi. rewrite u64_add_idemp in Hhi.
  assert (0 <= rc_entry_count r) by (unfold rc_entry_count; lia).
  assert (rc_snapshot_index r + rc_entry_count r + 1 < 2 ^ 64) as Hb.
  { destruct (Z.lt_ge_cases (rc_snapshot_index r + rc_entry_count r + 1) (2 ^ 64)) as [?|Hge]; [done|].
    exfalso. assert (u64 (rc_snapshot_index r + rc_entry_count r + 1) <=
      rc_snapshot_index r + rc_entry_count r + 1 - 2 ^ 64); [|lia].
    unfold u64. replace (rc_snapshot_index r + rc_entry_count r + 1) with
      (rc_snapshot_index r + rc_entry_count r + 1 - 2 ^ 64 + 1 * 2 ^ 64) at 1 by lia.
    rewrite Z.mod_add by lia. apply Z.mod_le; lia. }
  rewrite u64_small in Hhi by lia. split; [done|]. rewrite u64_small; lia.
Qed.

Lemma replays_truncate l r from_index :
  limits_ok l -> recovery_wf l r -> word from_index -> from_index <> 0 ->
  rc_commit_index r < from_index -> rc_snapshot_index r < from_index ->
  from_index <= next_log_index r ->
  apply_truncate r (tr_wal_put_u64 from_index) = (SALTS_OK, effect r (TruncateLog from_index)) /\
  last_recovered_index (effect r (TruncateLog from_index)) = from_index - 1.
Proof.
  intros Hl Hw Hi Hnz Hc Hs Hn. pose proof (rw_index _ _ Hw). unfold word in Hi.
  destruct (position_below l r from_index Hl Hw Hs Hn) as [Hle Hlast].
  assert (tr_wal_get_u64 (tr_wal_put_u64 from_index) = from_index) as E.
  { rewrite <- (app_nil_r (tr_wal_put_u64 from_index)). by apply wal_get_put_u64. }
  split.
  - unfold apply_truncate. change (length _) with 8%nat. cbn [Z.of_nat Z.eqb negb]. rewrite E.
    replace (_ || _) with false by (symmetry; rewrite !orb_false_iff; lia).
    rewrite (u64_small (from_index - rc_snapshot_index r)) by lia. by rewrite u64_small by lia.
  - rewrite Hlast. unfold last_recovered_index, rc_entry_count. cbn [effect].
    change (rc_snapshot_index (r <| rc_entries := _ |>)) with (rc_snapshot_index r).
    f_equal. f_equal. cbn. rewrite length_take. lia.
Qed.

Lemma replays_commit_index r commit_index :
  word commit_index -> rc_commit_index r <= commit_index -> commit_index <= last_recovered_index r ->
  apply_commit_index r (tr_wal_put_u64 commit_index) =
    (SALTS_OK, effect r (WriteCommitIndex commit_index)).
Proof.
  intros Hi Hlo Hhi. unfold apply_commit_index. change (length _) with 8%nat.
  cbn [Z.of_nat Z.eqb negb]. rewrite <- (app_nil_r (tr_wal_put_u64 commit_index)).
  rewrite wal_get_put_u64 by done.
  by replace (_ || _) with false by (symmetry; rewrite !orb_false_iff; lia).
Qed.

Lemma length_entry_operation e :
  entry_in_range e -> Z.of_nat (length (entry_operation e)) = 32 + entry_data_length e.
Proof.
  intros He. pose proof (er_length _ He). unfold entry_operation.
  rewrite !length_app, !length_wal_put_u64, !length_wal_put_u32, length_take. lia.
Qed.

Lemma replays_entry max r e :
  entry_in_range e -> entry_index e = next_log_index r -> entry_term e <> 0 ->
  entry_data_length e <= TR_RAFT_MAX_ENTRY_BYTES -> rc_entry_count r < max ->
  apply_entry max r (entry_operation e) = (SALTS_OK, effect r (AppendLog [e])).
Proof.
  intros He Hi Ht Hlen Hmax. unfold apply_entry. rewrite (length_entry_operation e He).
  pose proof He as [Wi Wt Wc Wl]. unfold word, TR_RAFT_MAX_ENTRY_BYTES in *.
  rewrite (proj2 (Z.ltb_ge _ _)) by lia. unfold entry_operation.
  set (bytes := take (Z.to_nat (entry_data_length e)) (entry_data e)).
  set (payload := tr_wal_put_u64 (entry_index e) ++ _).
  change (drop 24 payload) with (tr_wal_put_u32 (entry_data_length e) ++ tr_wal_put_u32 0 ++ bytes).
  change (drop 28 payload) with (tr_wal_put_u32 0 ++ bytes). change (drop 32 payload) with bytes.
  rewrite !wal_get_put_u32 by lia.
  replace (_ || _) with false by (symmetry; rewrite !orb_false_iff; lia).
  assert (tr_wal_get_u64 payload = entry_index e) as -> by (by apply wal_get_put_u64).
  assert (tr_wal_get_u64 (drop 8 payload) = entry_term e) as -> by (by apply (wal_get_put_u64 (entry_term e) (drop 16 payload))).
  assert (tr_wal_get_u64 (drop 16 payload) = entry_command_id e) as ->
    by (by apply (wal_get_put_u64 (entry_command_id e) (drop 24 payload))).
  cbn [entry_index entry_term]. replace (_ || _) with false by (symmetry; rewrite !orb_false_iff; lia).
  unfold bytes. by rewrite take_take, Nat.min_id.
Qed.

(** ** The transaction *)

(** The state is the one the storage keeps. *)
Record current_state s r : Prop := {
  cs_term : wl_term s = rc_term r;
  cs_voted_for : wl_voted_for s = rc_voted_for r;
  cs_commit_index : wl_commit_index s = rc_commit_index r;
  cs_last_log_index : wl_last_log_index s = last_recovered_index r;
  cs_snapshot_index : wl_snapshot_index s = rc_snapshot_index r;
  cs_snapshot_term : wl_snapshot_term s = rc_snapshot_term r
}.

(** The payload leads from [r] to [r'], the state that is pending. *)
Record pending s (snaps : path -> option (list Z)) r r' : Prop := {
  pd_active : wl_transaction_active s = true;
  pd_sound : wl_faulted s = false;
  pd_payload : payload_ok (limits s) (wl_payload s);
  pd_applies : applies (limits s) snaps (wl_payload s) r r';
  pd_wf : recovery_wf (limits s) r';
  pd_term : wl_pending_term s = rc_term r';
  pd_voted_for : wl_pending_voted_for s = rc_voted_for r';
  pd_commit_index : wl_pending_commit_index s = rc_commit_index r';
  pd_last_log_index : wl_pending_last_log_index s = last_recovered_index r';
  pd_snapshot_index : wl_snapshot_index s = rc_snapshot_index r';
  pd_snapshot_term : wl_snapshot_term s = rc_snapshot_term r'
}.

Lemma wal_begin_spec s snaps r res s' :
  limits_ok (limits s) -> recovery_wf (limits s) r -> current_state s r ->
  tr_wal_begin s = (res, s') ->
  match res with SALTS_OK => pending s' snaps r r | _ => s' = s end.
Proof.
  intros Hl Hw [T V C L Si St]. unfold tr_wal_begin. destruct (wl_faulted s) eqn:Hf; [by intros [= <- <-]|].
  destruct (wl_transaction_active s) eqn:Ha; [by intros [= <- <-]|]. intros [= <- <-].
  split; try done. 2: apply applies_nil.
  change (payload_ok (limits s) []). unfold payload_ok, TR_WAL_TRANSACTION_HEADER_SIZE.
  pose proof (lo_capacity _ Hl). cbn [length Z.of_nat]. lia.
Qed.

Lemma append_operation_spec s snaps r r1 r2 type data res s' :
  pending s snaps r r1 -> applies_op (limits s) snaps type data r1 r2 ->
  tr_wal_append_operation s type data = (res, s') ->
  match res with
  | SALTS_OK => s' = s <| wl_payload := wl_payload s ++ operation_bytes type data |> /\
      payload_ok (limits s) (wl_payload s ++ operation_bytes type data) /\
      applies (limits s) snaps (wl_payload s ++ operation_bytes type data) r r2
  | _ => s' = s
  end.
Proof.
  intros Hp Hop. unfold tr_wal_append_operation. rewrite (pd_active _ _ _ _ Hp), (pd_sound _ _ _ _ Hp).
  cbn [negb orb]. destruct (_ || _) eqn:Hg; [by intros [= <- <-]|]. rewrite !orb_false_iff in Hg.
  destruct Hg as [[[Hmax _] Hroom] Hfit]. intros [= <- <-]. split_and!; [done| |].
  - unfold payload_ok, limits, transaction_used, TR_WAL_TRANSACTION_HEADER_SIZE, TR_WAL_OPERATION_HEADER_SIZE in *.
    cbn [lm_capacity]. unfold operation_bytes. rewrite !length_app, length_wal_put_u32. cbn [length]. lia.
  - eapply applies_snoc; [apply Hp|exact Hop|]. unfold UINT32_MAX in Hmax. lia.
Qed.

(** An operation replay applies without a look at the files. *)
Lemma applies_op_pure l snaps type data r r' :
  (forall s e, limits s = l -> apply_operation s r type data e = (e, SALTS_OK, r')) ->
  applies_op l snaps type data r r'.
Proof. intros Ha s e Hl _. exists e. split; [by apply Ha|reflexivity]. Qed.

Lemma write_hard_state_spec s snaps r r1 term voted_for res s' :
  pending s snaps r r1 -> word term -> word voted_for ->
  tr_wal_write_hard_state s term voted_for = (res, s') ->
  match res with
  | SALTS_OK => pending s' snaps r (effect r1 (WriteHardState term voted_for)) /\ limits s' = limits s
  | _ => s' = s
  end.
Proof.
  intros Hp Ht Hv. unfold tr_wal_write_hard_state. rewrite (pd_term _ _ _ _ Hp).
  destruct (term <? rc_term r1) eqn:Hlt; [by intros [= <- <-]|]. apply Z.ltb_ge in Hlt.
  pose proof (replays_hard_state r1 term voted_for Ht Hv Hlt) as Happ.
  destruct (tr_wal_append_operation _ _ _) as [res1 s1] eqn:Ea.
  assert (applies_op (limits s) snaps TR_WAL_OP_HARD_STATE (hard_state_payload term voted_for) r1
    (effect r1 (WriteHardState term voted_for))) as Hop.
  { apply applies_op_pure. intros s0 e _. unfold apply_operation. cbn [Z.eqb Pos.eqb]. 
    change (TR_WAL_OP_HARD_STATE =? TR_WAL_OP_HARD_STATE) with true. by rewrite Happ. }
  pose proof (append_operation_spec _ _ _ _ _ _ _ _ _ Hp Hop Ea) as Hres.
  destruct res1; intros [= <- <-]; [|done]. destruct Hres as (-> & Hok & Ha).
  split; [|done]. destruct Hp as [A F P Ap W T V C L Si St]. split; try done.
  by eapply apply_hard_state_wf.
Qed.

Lemma truncate_log_spec s snaps r r1 from_index res s' :
  limits_ok (limits s) -> pending s snaps r r1 -> word from_index ->
  tr_wal_truncate_log s from_index = (res, s') ->
  match res with
  | SALTS_OK => pending s' snaps r (effect r1 (TruncateLog from_index)) /\ limits s' = limits s
  | _ => s' = s
  end.
Proof.
  intros Hl Hp Hi. unfold tr_wal_truncate_log.
  rewrite (pd_last_log_index _ _ _ _ Hp), (pd_commit_index _ _ _ _ Hp), (pd_snapshot_index _ _ _ _ Hp).
  destruct (_ || _) eqn:Hg; [by intros [= <- <-]|]. rewrite !orb_false_iff in Hg.
  destruct Hg as [[[Hz Hn] Hc] Hs].
  destruct (replays_truncate (limits s) r1 from_index) as [Happ Hlast];
    [done|apply Hp|done|lia|lia|lia|unfold next_log_index; fold (last_recovered_index r1); lia|].
  destruct (tr_wal_append_operation _ _ _) as [res1 s1] eqn:Ea.
  assert (applies_op (limits s) snaps TR_WAL_OP_TRUNCATE (tr_wal_put_u64 from_index) r1
    (effect r1 (TruncateLog from_index))) as Hop.
  { apply applies_op_pure. intros s0 e _. unfold apply_operation.
    change (TR_WAL_OP_TRUNCATE =? TR_WAL_OP_HARD_STATE) with false.
    change (TR_WAL_OP_TRUNCATE =? TR_WAL_OP_TRUNCATE) with true. by rewrite Happ. }
  pose proof (append_operation_spec _ _ _ _ _ _ _ _ _ Hp Hop Ea) as Hres.
  destruct res1; intros [= <- <-]; [|done]. destruct Hres as (-> & Hok & Ha).
  split; [|done]. destruct Hp as [A F P Ap W T V C L Si St]. split; try done.
  - by eapply apply_truncate_wf.
  - rewrite Hlast. change (from_index -64 1 = from_index - 1). unfold word in Hi. apply u64_small. lia.
Qed.

Lemma write_commit_index_spec s snaps r r1 commit_index res s' :
  pending s snaps r r1 -> word commit_index ->
  tr_wal_write_commit_index s commit_index = (res, s') ->
  match res with
  | SALTS_OK => pending s' snaps r (effect r1 (WriteCommitIndex commit_index)) /\ limits s' = limits s
  | _ => s' = s
  end.
Proof.
  intros Hp Hi. unfold tr_wal_write_commit_index.
  rewrite (pd_last_log_index _ _ _ _ Hp), (pd_commit_index _ _ _ _ Hp).
  destruct (_ || _) eqn:Hg; [by intros [= <- <-]|]. rewrite !orb_false_iff in Hg. destruct Hg as [Hlo Hhi].
  pose proof (replays_commit_index r1 commit_index Hi ltac:(lia) ltac:(lia)) as Happ.
  destruct (tr_wal_append_operation _ _ _) as [res1 s1] eqn:Ea.
  assert (applies_op (limits s) snaps TR_WAL_OP_COMMIT_INDEX (tr_wal_put_u64 commit_index) r1
    (effect r1 (WriteCommitIndex commit_index))) as Hop.
  { apply applies_op_pure. intros s0 e _. unfold apply_operation.
    change (TR_WAL_OP_COMMIT_INDEX =? TR_WAL_OP_HARD_STATE) with false.
    change (TR_WAL_OP_COMMIT_INDEX =? TR_WAL_OP_TRUNCATE) with false.
    change (TR_WAL_OP_COMMIT_INDEX =? TR_WAL_OP_ENTRY) with false.
    change (TR_WAL_OP_COMMIT_INDEX =? TR_WAL_OP_COMMIT_INDEX) with true. by rewrite Happ. }
  pose proof (append_operation_spec _ _ _ _ _ _ _ _ _ Hp Hop Ea) as Hres.
  destruct res1; intros [= <- <-]; [|done]. destruct Hres as (-> & Hok & Ha).
  split; [|done]. destruct Hp as [A F P Ap W T V C L Si St]. split; try done.
  by eapply apply_commit_index_wf.
Qed.

Lemma effect_append_cons r e es :
  effect (effect r (AppendLog [e])) (AppendLog es) = effect r (AppendLog (e :: es)).
Proof. unfold effect. cbn. by rewrite <- app_assoc. Qed.

Lemma append_log_spec entries s snaps r r1 res s' :
  limits_ok (limits s) -> pending s snaps r r1 -> Forall entry_in_range entries ->
  tr_wal_append_log s entries = (res, s') ->
  limits s' = limits s /\
  match res with
  | SALTS_OK => pending s' snaps r (effect r1 (AppendLog entries))
  | _ => exists r', pending s' snaps r r'
  end.
Proof.
  revert s r1. induction entries as [|entry entries IH]; intros s r1 Hl Hp Hr; cbn [tr_wal_append_log].
  { intros [= <- <-]. split; [done|]. unfold effect. cbn. rewrite app_nil_r. by destruct r1. }
  apply Forall_cons_1 in Hr as [He Hr].
  rewrite (pd_last_log_index _ _ _ _ Hp), (pd_snapshot_index _ _ _ _ Hp).
  destruct (_ || _) eqn:Hg; [intros [= <- <-]; split; [done|by exists r1]|].
  rewrite !orb_false_iff, !negb_false_iff in Hg. destruct Hg as [[[Hi Ht] Hlen] Hmax].
  pose proof (pd_wf _ _ _ _ Hp) as Hw. pose proof (rw_count _ _ Hw). pose proof (lo_entries _ Hl).
  assert (0 <= rc_entry_count r1) by (unfold rc_entry_count; lia).
  assert (rc_entry_count r1 < lm_log_entries (limits s)) as Hroom.
  { unfold last_recovered_index in Hmax. rewrite u64_sub_idemp in Hmax.
    replace (rc_snapshot_index r1 + rc_entry_count r1 - rc_snapshot_index r1) with (rc_entry_count r1)
      in Hmax by lia. rewrite u64_small in Hmax by lia. unfold limits. cbn [lm_log_entries]. lia. }
  pose proof (replays_entry (lm_log_entries (limits s)) r1 entry He ltac:(apply Z.eqb_eq; exact Hi)
    ltac:(lia) ltac:(lia) Hroom) as Happ.
  destruct (tr_wal_append_operation _ _ _) as [res1 s1] eqn:Ea.
  assert (applies_op (limits s) snaps TR_WAL_OP_ENTRY (entry_operation entry) r1
    (effect r1 (AppendLog [entry]))) as Hop.
  { apply applies_op_pure. intros s0 e Hs0. unfold apply_operation.
    change (TR_WAL_OP_ENTRY =? TR_WAL_OP_HARD_STATE) with false.
    change (TR_WAL_OP_ENTRY =? TR_WAL_OP_TRUNCATE) with false.
    change (TR_WAL_OP_ENTRY =? TR_WAL_OP_ENTRY) with true.
    change (wl_max_log_entries s0) with (lm_log_entries (limits s0)). by rewrite Hs0, Happ. }
  pose proof (append_operation_spec _ _ _ _ _ _ _ _ _ Hp Hop Ea) as Hres.
  destruct res1; [|intros [= <- <-]; subst s1; split; [done|by exists r1]].
  destruct Hres as (-> & Hok & Ha). rewrite <- effect_append_cons.
  set (s2 := s <| wl_payload := _ |> <| wl_pending_last_log_index := _ |>).
  assert (pending s2 snaps r (effect r1 (AppendLog [entry]))) as Hp2; [|exact (IH s2 _ Hl Hp2 Hr)].
  destruct Hp as [A F P Ap W T V C L Si St]. split; try done.
  - by eapply apply_entry_wf.
  - change (entry_index entry = last_recovered_index (effect r1 (AppendLog [entry]))).
    apply Z.eqb_eq in Hi. rewrite Hi. unfold last_recovered_index, rc_entry_count.
    rewrite u64_add_idemp. cbn. rewrite length_app. cbn [length]. f_equal. lia.
Qed.

(** A call that succeeds has its effect on the pending state. *)
Lemma perform_spec c s snaps r r1 res s' :
  limits_ok (limits s) -> pending s snaps r r1 -> call_in_range c -> perform s c = (res, s') ->
  limits s' = limits s /\
  match res with
  | SALTS_OK => pending s' snaps r (effect r1 c)
  | _ => exists r', pending s' snaps r r'
  end.
Proof.
  intros Hl Hp Hc Hf. destruct c as [term vote|from|entries|index]; cbn [perform] in Hf.
  - pose proof (write_hard_state_spec _ _ _ _ _ _ _ _ Hp (proj1 Hc) (proj2 Hc) Hf) as Hr.
    destruct res; [destruct Hr; by split|subst s'; split; [done|by exists r1]].
  - pose proof (truncate_log_spec _ _ _ _ _ _ _ Hl Hp Hc Hf) as Hr.
    destruct res; [destruct Hr; by split|subst s'; split; [done|by exists r1]].
  - by eapply append_log_spec.
  - pose proof (write_commit_index_spec _ _ _ _ _ _ _ Hp Hc Hf) as Hr.
    destruct res; [destruct Hr; by split|subst s'; split; [done|by exists r1]].
Qed.
End Log.
