(* ===== verification/WalTransaction.v ===== *)
(** * Transactions on the write-ahead log

    [holds s e r]: the open storage [s] holds the state [r]. A transaction,
    from [begin] to [commit] or [rollback], leads to the state its calls
    describe, or leaves the state as it is, or faults the storage, and then a
    loss of power leaves one of the two. *)

From S2P Require Import Prelude Configuration Bytes Wire Digest Os SnapshotSender Wal WalCodec.
From S2P Require Import WalRead WalRecovery WalReplay WalWrite WalCommit WalLog.
From Stdlib Require Import ZArith Lia.
From stdpp Require Import base numbers list tactics strings.
Open Scope Z_scope.
Open Scope raft_scope.

Section Transaction.
Context `{OsLaws} `{Xxh3Laws}.
Implicit Types s : tr_raft_wal_storage.
Implicit Types r : tr_raft_wal_recovery.
Implicit Types l : wal_limits.

(** The calls of a transaction, up to the first that fails. *)
Fixpoint perform_all s (cs : list wal_call) : status * tr_raft_wal_storage :=
  match cs with
  | [] => (SALTS_OK, s)
  | c :: cs =>
      match perform s c with
      | (SALTS_OK, s) => perform_all s cs
      | (result, s) => (result, s)
      end
  end.

Definition effects r (cs : list wal_call) : tr_raft_wal_recovery := fold_left effect cs r.

(** A transaction the way the runtime drives it: whatever fails after [begin]
    is rolled back. *)
Definition transact s (cs : list wal_call) (e : os) : os * status * tr_raft_wal_storage :=
  match tr_wal_begin s with
  | (SALTS_OK, s) =>
      match perform_all s cs with
      | (SALTS_OK, s) =>
          match tr_wal_commit s e with
          | (e, SALTS_OK, s) => (e, SALTS_OK, s)
          | (e, result, s) => (e, result, snd (tr_wal_rollback s))
          end
      | (result, s) => (e, result, snd (tr_wal_rollback s))
      end
  | (result, s) => (e, result, s)
  end.

(** Whether committing these calls needs a new segment. *)
Definition needs_segment s (cs : list wal_call) : bool :=
  rotates (snd (perform_all (snd (tr_wal_begin s)) cs)).

(** An open storage that holds [r]; [clean] when nothing is pending for its
    last segment. *)
Definition holds (clean : bool) s (e : os) r : Prop :=
  wl_transaction_active s = false /\ recovery_wf (limits s) r /\ current_state s r /\
  exists snaps first id closed current, attached s e snaps first id closed current r /\
    (clean = true -> settled (limits s) e first id closed current).

Lemma perform_all_spec cs s snaps r r1 res s' :
  limits_ok (limits s) -> pending s snaps r r1 -> Forall call_in_range cs ->
  perform_all s cs = (res, s') ->
  limits s' = limits s /\
  match res with
  | SALTS_OK => pending s' snaps r (effects r1 cs)
  | _ => exists r', pending s' snaps r r'
  end.
Proof.
  revert s r1. induction cs as [|c cs IH]; intros s r1 Hl Hp Hr; cbn [perform_all].
  { by intros [= <- <-]. }
  apply Forall_cons_1 in Hr as [Hc Hr]. destruct (perform s c) as [res1 s1] eqn:Ef.
  destruct (perform_spec _ _ _ _ _ _ _ Hl Hp Hc Ef) as [El Hres].
  destruct res1; [|by intros [= <- <-]]. intros Hrun. rewrite <- El.
  apply (IH s1 (effect r1 c)); [by rewrite El|done..].
Qed.

(** ** What calls leave alone *)

Record same_cursor s s' : Prop := {
  sc_limits : limits s' = limits s;
  sc_file : wl_current_file s' = wl_current_file s;
  sc_offset : wl_current_offset s' = wl_current_offset s;
  sc_segment : wl_current_segment s' = wl_current_segment s;
  sc_first : wl_first_live_segment s' = wl_first_live_segment s;
  sc_last_id : wl_last_transaction_id s' = wl_last_transaction_id s;
  sc_faulted : wl_faulted s' = wl_faulted s;
  sc_term : wl_term s' = wl_term s;
  sc_voted_for : wl_voted_for s' = wl_voted_for s;
  sc_commit_index : wl_commit_index s' = wl_commit_index s;
  sc_last_log_index : wl_last_log_index s' = wl_last_log_index s;
  sc_snapshot_index : wl_snapshot_index s' = wl_snapshot_index s;
  sc_snapshot_term : wl_snapshot_term s' = wl_snapshot_term s
}.

#[export] Instance same_cursor_preorder : PreOrder same_cursor.
Proof.
  split; [by intros s|]. intros s1 s2 s3 [] []. split; congruence.
Qed.

Lemma same_cursor_append s type data res s' :
  tr_wal_append_operation s type data = (res, s') -> same_cursor s s'.
Proof. unfold tr_wal_append_operation. repeat case_match; by intros [= <- <-]. Qed.

Lemma same_cursor_begin s res s' : tr_wal_begin s = (res, s') -> same_cursor s s'.
Proof. unfold tr_wal_begin. repeat case_match; by intros [= <- <-]. Qed.

Lemma same_cursor_rollback s : same_cursor s (snd (tr_wal_rollback s)).
Proof. done. Qed.

Lemma same_cursor_append_log entries s res s' :
  tr_wal_append_log s entries = (res, s') -> same_cursor s s'.
Proof.
  revert s. induction entries as [|entry entries IH]; intros s; cbn [tr_wal_append_log].
  { by intros [= <- <-]. }
  destruct (_ || _); [by intros [= <- <-]|].
  destruct (tr_wal_append_operation _ _ _) as [[|] s1] eqn:Ea;
    pose proof (same_cursor_append _ _ _ _ _ Ea) as Hs.
  - intros Hrun. etrans; [exact Hs|]. apply IH in Hrun as []. by split.
  - by intros [= <- <-].
Qed.

Lemma same_cursor_perform s c res s' : perform s c = (res, s') -> same_cursor s s'.
Proof.
  destruct c as [term vote|from|entries|index]; cbn [perform];
    [unfold tr_wal_write_hard_state|unfold tr_wal_truncate_log|apply same_cursor_append_log
    |unfold tr_wal_write_commit_index].
  all: match goal with |- (if ?b then _ else _) = _ -> _ => destruct b end; [by intros [= <- <-]|].
  all: destruct (tr_wal_append_operation _ _ _) as [[|] s1] eqn:Ea; intros [= <- <-];
    pose proof (same_cursor_append _ _ _ _ _ Ea) as Hs; [|done].
  all: etrans; [exact Hs|]; by split.
Qed.

Lemma same_cursor_perform_all cs s res s' : perform_all s cs = (res, s') -> same_cursor s s'.
Proof.
  revert s. induction cs as [|c cs IH]; intros s; cbn [perform_all]; [by intros [= <- <-]|].
  destruct (perform s c) as [[|] s1] eqn:Ef; pose proof (same_cursor_perform _ _ _ _ Ef) as Hs.
  - intros Hrun. etrans; [exact Hs|]. by apply IH in Hrun.
  - by intros [= <- <-].
Qed.

Lemma attached_cursor s s' e snaps first id closed current r :
  attached s e snaps first id closed current r -> same_cursor s s' ->
  attached s' e snaps first id closed current r.
Proof.
  intros [S (f & F & Hh) O G I L N] [C1 C2 C3 C4 C5 C6 C7 _ _ _ _ _ _].
  split; rewrite ?C1; try congruence. exists f. split; [congruence|done].
Qed.

Lemma current_state_cursor s s' r : current_state s r -> same_cursor s s' -> current_state s' r.
Proof. intros [] []. split; congruence. Qed.

Lemma holds_cursor clean s s' e r :
  holds clean s e r -> same_cursor s s' -> wl_transaction_active s' = false -> holds clean s' e r.
Proof.
  intros (Ha & Hw & Hc & snaps & first & id & closed & current & Hat & Hset) Hs Hact.
  pose proof (sc_limits _ _ Hs) as El. split_and!; [done|by rewrite El|by eapply current_state_cursor|].
  exists snaps, first, id, closed, current. rewrite El. split; [by eapply attached_cursor|done].
Qed.

(** ** Outcomes *)

(** A faulted storage, whose files hold one of two states after a loss of
    power. *)
Definition broken l (e : os) s r r' : Prop :=
  wl_faulted s = true /\ crash_safe l e (fun x => x = r \/ x = r').

Lemma transact_spec clean s cs e r e' res s' :
  holds clean s e r -> Forall call_in_range cs -> clean = true \/ needs_segment s cs = false ->
  transact s cs e = (e', res, s') ->
  match res with
  | SALTS_OK => limits s' = limits s /\ holds true s' e' (effects r cs)
  | _ => e' = e /\ limits s' = limits s /\ holds clean s' e r \/ broken (limits s) e' s' r (effects r cs)
  end.
Proof.
  intros Hh Hr Hclean. pose proof Hh as (Ha & Hw & Hc & snaps & first & id & closed & current & Hat & Hset).
  pose proof (so_limits _ _ _ _ _ _ _ _ (at_stored _ _ _ _ _ _ _ _ Hat)) as Hl.
  unfold transact, needs_segment in *. destruct (tr_wal_begin s) as [res1 s1] eqn:Eb.
  pose proof (same_cursor_begin _ _ _ Eb) as C1.
  pose proof (wal_begin_spec s snaps r _ _ Hl Hw Hc Eb) as Hb.
  destruct res1; cycle 1.
  { subst s1. intros [= <- <- <-]. by left. }
  cbn [snd] in Hclean. destruct (perform_all s1 cs) as [res2 s2] eqn:Ef. cbn [snd] in Hclean.
  assert (same_cursor s s2) as C2 by (etrans; [exact C1|by eapply same_cursor_perform_all]).
  assert (limits_ok (limits s1)) as Hl1 by (by rewrite (sc_limits _ _ C1)).
  destruct (perform_all_spec _ _ _ _ _ _ _ Hl1 Hb Hr Ef) as [El2 Hp].
  destruct res2; cycle 1.
  { intros [= <- <- <-]. left. split_and!; [done|apply C2|]. eapply holds_cursor; [exact Hh| |done].
    etrans; [exact C2|apply same_cursor_rollback]. }
  assert (limits s2 = limits s) as El by apply C2.
  assert (attached s2 e snaps first id closed current r) as Hat2 by (by eapply attached_cursor).
  destruct (tr_wal_commit s2 e) as [[e3 res3] s3] eqn:Ec.
  pose proof (commit_spec s2 e snaps first id closed current r (effects r cs) e3 res3 s3 Hat2
    (pd_active _ _ _ _ Hp) (pd_payload _ _ _ _ Hp) (pd_applies _ _ _ _ Hp)) as Hcommit.
  destruct res3; intros [= <- <- <-].
  - destruct Hcommit as (closed' & current' & Hat3 & Hset3 & Hcm); [|done|].
    { intros Hrot. rewrite El. apply Hset. destruct Hclean as [?|?]; [done|congruence]. }
    destruct Hp as [A F P Ap W T V C L Si St]. destruct Hcm as [M1 M2 M3 M4 M5 M6 M7 M8].
    split; [congruence|]. split_and!; [done|by rewrite M1|split; congruence|].
    exists snaps, first, id, closed', current'. rewrite M1. by split.
  - destruct Hcommit as [[-> ->]|[Hf Hcr]]; [|done| |].
    { intros Hrot. rewrite El. apply Hset. destruct Hclean as [?|?]; [done|congruence]. }
    + left. split_and!; [done|apply C2|]. eapply holds_cursor; [exact Hh| |done].
      etrans; [exact C2|apply same_cursor_rollback].
    + right. split; [done|]. by rewrite <- El.
Qed.
End Transaction.
