(* ===== verification/WalOpen.v ===== *)
(** * Opening the write-ahead log

    Opening a log after a loss of power yields a storage that holds the state
    its files hold; opening where there is no log creates one that holds the
    empty state. *)

From S2P Require Import Prelude Configuration Bytes Wire Digest Os SnapshotSender Wal WalCodec.
From S2P Require Import WalRead WalRecovery WalReplay WalWrite WalCommit WalLog WalTransaction.
From Stdlib Require Import ZArith Lia.
From stdpp Require Import base numbers list tactics strings.
Open Scope Z_scope.
Open Scope raft_scope.

Section Open.
Context `{OsReadable} `{!Sha256Total} `{Xxh3Total}.
Implicit Types s : tr_raft_wal_storage.
Implicit Types r : tr_raft_wal_recovery.
Implicit Types l : wal_limits.

(** The limits a storage is opened with. *)
Definition config_limits (c : tr_raft_wal_storage_config) : wal_limits :=
  WalLimits (wc_path_prefix c)
    (if wc_max_transaction_bytes c =? 0 then TR_RAFT_WAL_DEFAULT_TRANSACTION_BYTES
     else wc_max_transaction_bytes c)
    (if wc_segment_bytes c =? 0 then TR_RAFT_WAL_DEFAULT_SEGMENT_BYTES else wc_segment_bytes c)
    (wc_max_live_segments c) (wc_max_log_entries c)
    (if wc_max_snapshot_bytes c =? 0 then TR_RAFT_WAL_DEFAULT_MAX_SNAPSHOT_BYTES
     else wc_max_snapshot_bytes c).

(** The fields of the configuration are words. *)
Record config_in_range (c : tr_raft_wal_storage_config) : Prop := {
  cr_live : 0 <= wc_max_live_segments c < 2 ^ 32;
  cr_entries : 0 <= wc_max_log_entries c < 2 ^ 64;
  cr_snapshot : 0 <= wc_max_snapshot_bytes c < 2 ^ 63
}.

(** Nothing is pending: what the files hold is what they hold after a loss of
    power. *)
Definition at_rest (e : os) : Prop :=
  forall p x, v_after (os_view e) p x -> x = v_now (os_view e) p.

Lemma at_rest_fixed e p c : at_rest e -> v_now (os_view e) p = Some c -> fixed e p c.
Proof. intros Hr Hc. split; [done|]. intros x Hx. by rewrite (Hr p x Hx). Qed.

Lemma crashed_at_rest e e' : crashed (os_view e) (os_view e') -> at_rest e'.
Proof. intros Hc p x Hx. by apply (proj2 (Hc p)). Qed.

(** A log that nobody has open. *)
Record resting l (e : os) (snaps : path -> option (list Z)) (first id : Z)
    (closed : list (list (list Z))) (current : list (list Z)) (torn : list Z) r : Prop := {
  rt_range : range_ok l first (last_sequence first closed);
  rt_id : 0 <= id < 2 ^ 64;
  rt_manifest : fixed e (name_path (lm_prefix l) ManifestName)
    (manifest_header first (last_sequence first closed));
  rt_base : base l e snaps first id closed;
  rt_history : history l snaps id closed current r;
  rt_last : fixed e (segment_at l (last_sequence first closed))
    (last_content first id closed current ++ torn);
  rt_torn : torn_frame l (id_after id (concat closed ++ current)) torn;
  rt_size : Zlength_ (last_content first id closed current ++ torn) <= lm_segment_bytes l
}.

Lemma disk_resting l e snaps first id closed current torn r :
  at_rest e -> disk l (v_now (os_view e)) snaps first id closed current torn r ->
  resting l e snaps first id closed current torn r.
Proof.
  intros Hr [R I M C Cur Sz P T Ru Sn Nm St]. split; try done.
  - by apply at_rest_fixed.
  - split; [|intros p c Hp; apply at_rest_fixed; auto|done].
    eapply closed_hold_impl; [exact C|]. intros i c _. by apply at_rest_fixed.
  - by apply at_rest_fixed.
Qed.

Lemma resting_disk l e snaps first id closed current torn r :
  resting l e snaps first id closed current torn r ->
  disk l (v_now (os_view e)) snaps first id closed current torn r.
Proof.
  intros [R I M B Hh L T S]. apply (base_disk _ e); try done; [|by destruct M|by destruct L].
  by intros p c [].
Qed.

Lemma torn_frame_nil l id torn : torn_frame l id torn -> torn_frame l id [].
Proof. intros (payload & k & Hp & Hk & _). exists payload, 0%nat. split_and!; [done|lia|done]. Qed.

Lemma resting_kept l e e' t snaps first id closed current torn r :
  resting l e snaps first id closed current torn r -> files_kept t (os_view e) (os_view e') ->
  (forall n, name_in_range n ->
     n = ManifestName \/ needed first (Z.of_nat (S (length closed))) n ->
     ~ t (name_path (lm_prefix l) n)) ->
  resting l e' snaps first id closed current torn r.
Proof.
  intros [R I M B Hh L T S'] Hk Ht. pose proof R as (R1 & R2 & R3). unfold last_sequence in *.
  split; try done.
  - eapply fixed_kept; [exact M|exact Hk|]. apply Ht; [done|by left].
  - eapply base_kept; [exact B|exact Hk|lia|lia|]. intros n Hn Hd. apply Ht; [done|right].
    destruct n; cbn in *; try done. lia.
  - eapply fixed_kept; [exact L|exact Hk|]. apply (Ht (SegmentName _)); [|right]; cbn; unfold last_sequence; lia.
Qed.

(** Cutting the torn end off leaves the state as it is. *)
Lemma resting_cut l e e' snaps first id closed current torn r :
  resting l e snaps first id closed current torn r ->
  files_kept (eq (segment_at l (last_sequence first closed))) (os_view e) (os_view e') ->
  (forall x, v_after (os_view e') (segment_at l (last_sequence first closed)) x ->
     x = Some (last_content first id closed current ++ torn) \/
     x = Some (last_content first id closed current)) ->
  durable l e' snaps first id closed current r.
Proof.
  intros [R I M B Hh L T S'] Hk Ha. pose proof R as (R1 & R2 & R3). unfold last_sequence in R1, R2, R3.
  assert (name_in_range (SegmentName (last_sequence first closed))) as Hr by (unfold last_sequence; cbn; lia).
  split; try done.
  - eapply fixed_kept; [exact M|exact Hk|]. by apply (named_ne l (SegmentName _)).
  - eapply base_kept; [exact B|exact Hk|lia|lia|]. intros n Hn Hd.
    apply (named_ne l (SegmentName _)); [done|done|]. intros <-. unfold last_sequence in Hd. cbn in Hd. lia.
  - intros x Hx. destruct (Ha x Hx) as [->| ->]; [by exists torn|].
    exists []. rewrite app_nil_r in *. split_and!; [by eapply torn_frame_nil|done|].
    rewrite length_app in S'. lia.
Qed.

Lemma resting_durable l e snaps first id closed current torn r :
  resting l e snaps first id closed current torn r -> durable l e snaps first id closed current r.
Proof.
  intros Hr. eapply resting_cut; [exact Hr|apply files_kept_refl|]. intros x Hx. left.
  exact (proj2 (rt_last _ _ _ _ _ _ _ _ _ Hr) x Hx).
Qed.

(** The runs of a log start with a well-formed recovery and keep it so. *)
Lemma runs_wf s e snaps payloads r r' :
  present snaps e -> recovery_wf (limits s) r -> runs (limits s) snaps payloads r r' ->
  recovery_wf (limits s) r'.
Proof.
  intros Hp Hw Hr. induction Hr as [|payload payloads r r1 r2 Happ _ IH]; [done|]. apply IH.
  destruct (Happ s e eq_refl Hp) as (e' & Ha & _). by eapply apply_loop_wf.
Qed.

(** ** The last segment *)

Lemma cut_last_spec s path content torn e e' res s' :
  fixed e path (content ++ torn) -> cut_last s path (Zlength_ content) e = (e', res, s') ->
  files_kept (eq path) (os_view e) (os_view e') /\
  (forall x, v_after (os_view e') path x -> x = Some (content ++ torn) \/ x = Some content) /\
  (res = SALTS_OK -> v_now (os_view e') path = Some content /\
     exists f, v_handle (os_view e') f = Some (path, Zlength_ content) /\
       s' = s <| wl_current_file := Some f |>).
Proof.
  intros [Hn Ha]. unfold cut_last. destruct (cmeta_fs_open e path RDWR) as [e1 [f|]] eqn:Eo;
    destruct (law_open _ _ _ _ _ Eo) as (Hop & Fo & _ & _);
    (assert (files_kept nothing (os_view e) (os_view e1)) as F1
      by (eapply files_kept_weaken; [exact Fo|]; by intros q [[=] _]));
    destruct (F1 path (fun x => x)) as [N1 A1]; cycle 1.
  { intros [= <- <- <-]. split_and!; [|by left; apply Ha, A1|done].
    eapply files_kept_weaken; [exact F1|]. by intros q []. }
  destruct Hop as (_ & G1 & _).
  destruct (cmeta_fs_ftruncate e1 f (Zlength_ content)) as [e2 res2] eqn:Et.
  rewrite <- N1 in Hn. assert (0 <= Zlength_ content <= Zlength_ (content ++ torn)) as Hlen.
  { rewrite length_app. lia. }
  destruct (law_ftruncate _ _ _ _ _ _ _ _ Et G1 Hn Hlen) as (F2 & K2 & N2 & A2).
  rewrite Nat2Z.id, take_app_length in N2, A2.
  assert (files_kept (eq path) (os_view e) (os_view e2)) as F02.
  { eapply files_kept_trans; [|exact F2]. eapply files_kept_weaken; [exact F1|]. by intros q []. }
  assert (forall x, v_after (os_view e2) path x -> x = Some (content ++ torn) \/ x = Some content) as A02.
  { intros x Hx. destruct (A2 x Hx) as [Hx'|?]; [left; by apply Ha, A1|by right]. }
  destruct res2; cbn [failed ok negb]; [|by intros [= <- <- <-]].
  destruct (cmeta_fs_seek e2 f (Zlength_ content)) as [e3 sought] eqn:Es.
  assert (v_handle (os_view e2) f = Some (path, 0)) as G2 by (by rewrite (kept_handle _ _ f K2)).
  destruct (law_seek _ _ _ _ _ _ _ Es G2) as (F3 & K3 & P3).
  destruct (F3 path (fun x => x)) as [N3 A3]. intros [= <- <- <-]. split_and!.
  - eapply files_kept_trans; [exact F02|]. eapply files_kept_weaken; [exact F3|]. by intros q [].
  - intros x Hx. by apply A02, A3.
  - destruct sought; [|done]. intros _. split; [rewrite N3; by apply N2|]. exists f. by split; [apply P3|].
Qed.

Lemma close_files s locks e e' locks' res :
  tr_raft_wal_storage_close s locks e = (e', locks', res) ->
  files_kept nothing (os_view e) (os_view e').
Proof.
  unfold tr_raft_wal_storage_close.
  destruct (match wl_current_file s with Some f => _ | None => _ end) as [e1 res1] eqn:E1.
  assert (files_kept nothing (os_view e) (os_view e1)) as F1.
  { destruct (wl_current_file s); [by apply law_close in E1 as []|]. injection E1 as <- <-.
    apply files_kept_refl. }
  destruct (match wl_lock_file s with Some f => _ | None => _ end) as [e2 res2] eqn:E2.
  intros [= <- <- <-]. eapply files_kept_trans; [exact F1|].
  destruct (wl_lock_file s) as [f|]; [|injection E2 as <- <-; apply files_kept_refl].
  destruct (cmeta_fs_unlock e1 f) as [e3 r3] eqn:E3. destruct (cmeta_fs_close e3 f) as [e4 r4] eqn:E4.
  injection E2 as <- <-. eapply files_kept_trans; [by apply law_unlock in E3 as []|].
  by apply law_close in E4 as [].
Qed.

(** ** Before the log is read *)

Definition lock_name l (q : path) : Prop := q = name_path (lm_prefix l) LockName.

Lemma lock_apart l first count n :
  name_in_range n -> n = ManifestName \/ needed first count n ->
  ~ lock_name l (name_path (lm_prefix l) n).
Proof.
  intros Hn Hd E. apply name_path_inj in E; [|done|done]. subst n. by destruct Hd as [[=]|].
Qed.

(** ** The log *)

(** What replay has found. *)
Record found (p : replay_result) (first id : Z) (closed : list (list (list Z)))
    (current : list (list Z)) r : Prop := {
  fo_recovery : rp_recovery p = r;
  fo_first : rp_first_segment p = first;
  fo_last : rp_last_segment p = last_sequence first closed;
  fo_size : rp_valid_size p = Zlength_ (last_content first id closed current);
  fo_id : rp_last_transaction_id p = id_after id (concat closed ++ current);
  fo_present : rp_manifest_present p = true
}.

Lemma open_last_cut s p e first id closed current r :
  limits_ok (limits s) -> range_ok (limits s) first (last_sequence first closed) ->
  found p first id closed current r ->
  open_last s p e =
  cut_last (s <| wl_first_live_segment := first |>
              <| wl_current_path := segment_at (limits s) (last_sequence first closed) |>
              <| wl_current_segment := last_sequence first closed |>
              <| wl_current_offset := Zlength_ (last_content first id closed current) |>)
    (segment_at (limits s) (last_sequence first closed))
    (Zlength_ (last_content first id closed current)) e.
Proof.
  intros Hl (R1 & R2 & R3) [_ F La Sz _ P]. unfold open_last. rewrite F, La, Sz, P. cbn [negb failed ok].
  by rewrite segment_path_fits by (done || lia).
Qed.

Lemma resting_wf s e snaps first id closed current torn r :
  limits_ok (limits s) -> resting (limits s) e snaps first id closed current torn r ->
  recovery_wf (limits s) r.
Proof.
  intros Hl Hr. pose proof (resting_disk _ _ _ _ _ _ _ _ _ Hr) as Hd.
  eapply (runs_wf s e snaps); [exact (dk_snaps _ _ _ _ _ _ _ _ _ Hd)| |apply Hr].
  apply zero_recovery_wf; [pose proof (lo_entries _ Hl); lia|pose proof (lo_snapshot _ Hl); lia].
Qed.

Lemma open_log_spec config s e e' res s' snaps first id closed current torn r :
  limits_ok (limits s) -> wl_transaction_active s = false -> wl_faulted s = false ->
  resting (limits s) e snaps first id closed current torn r ->
  open_log config s e = (e', res, s') ->
  durable (limits s) e' snaps first id closed current r /\
  (res = SALTS_OK -> limits s' = limits s /\ holds (bool_decide (torn = [])) s' e' r).
Proof.
  intros Hl Hact Hf Hr. unfold open_log. pose proof (resting_disk _ _ _ _ _ _ _ _ _ Hr) as Hd.
  destruct (replay_disk s e snaps first id closed current torn r Hl Hd) as (e1 & [Q1 _] & ->).
  set (p := ReplayResult _ _ _ _ _ _).
  assert (found p first id closed current r) as Hfound by (by split). clearbody p.
  pose proof (rt_range _ _ _ _ _ _ _ _ _ Hr) as Hrange. pose proof Hrange as (R1 & R2 & R3).
  rewrite (fo_last _ _ _ _ _ _ Hfound), (proj2 (Z.eqb_neq (last_sequence first closed) 0)) by lia.
  rewrite (open_last_cut (recovered_storage s p) p e1 first id closed current r Hl Hrange Hfound).
  change (limits (recovered_storage s p)) with (limits s).
  set (s2 := _ <| wl_current_offset := _ |>).
  assert (resting (limits s) e1 snaps first id closed current torn r) as Hr1.
  { eapply resting_kept; [exact Hr|exact Q1|]. by intros n _ _ []. }
  pose proof (rt_last _ _ _ _ _ _ _ _ _ Hr1) as Hlast. intros Hc.
  destruct (cut_last_spec _ _ _ _ _ _ _ _ Hlast Hc) as (F2 & A2 & Ok2).
  pose proof (resting_cut _ _ _ _ _ _ _ _ _ _ Hr1 F2 A2) as Hdur. split; [done|].
  intros Hok. destruct (Ok2 Hok) as (N2 & f & Hh & ->). split; [done|].
  split_and!; [done|by eapply resting_wf| |].
  - destruct Hfound as [<- _ _ _ _ _]. by split.
  - exists snaps, first, id, closed, current. split.
    + split; try done; [|by exists f|exact (fo_id _ _ _ _ _ _ Hfound)].
      split; [exact Hdur|done|exact N2|]. pose proof (rt_size _ _ _ _ _ _ _ _ _ Hr) as Hs.
      rewrite length_app in Hs. change (lm_segment_bytes (limits (s2 <| wl_current_file := Some f |>)))
        with (lm_segment_bytes (limits s)). lia.
    + intros Ht. apply bool_decide_eq_true in Ht. subst torn. split; [exact N2|].
      intros x Hx. rewrite app_nil_r in A2. by destruct (A2 x Hx) as [->| ->].
Qed.

Lemma open_limits_ok config :
  config_in_range config ->
  Z.of_nat (length (wc_path_prefix config)) + 64 < SALTS_FS_MAX_PATH ->
  wc_max_log_entries config <> 0 -> wc_max_live_segments config <> 0 ->
  wc_max_live_segments config <= TR_RAFT_WAL_MAX_LIVE_SEGMENTS ->
  let l := config_limits config in
  lm_segment_bytes l <= INT_MAX -> TR_WAL_TRANSACTION_HEADER_SIZE <= lm_capacity l ->
  lm_capacity l <= lm_segment_bytes l - TR_WAL_SEGMENT_HEADER_SIZE -> limits_ok l.
Proof.
  intros [Cl Ce Cs] Hp He Hlv Hmax l Hseg Htx Hcap. split; try done.
  - unfold l. cbn [config_limits lm_live_segments]. lia.
  - unfold l. cbn [config_limits lm_log_entries]. lia.
  - unfold l. cbn [config_limits lm_snapshot_bytes]. destruct (_ =? 0); [|lia]. done.
Qed.

(** ** Opening *)

(** What has happened to the files before the log is read: at most the lock
    file. *)
Lemma lock_acquire_files prefix locks e e' locks' res :
  tr_wal_process_lock_acquire prefix locks e = (e', locks', res) ->
  files_kept nothing (os_view e) (os_view e').
Proof.
  unfold tr_wal_process_lock_acquire. destruct (_ <=? _); [intros [= <- <- <-]; apply files_kept_refl|].
  destruct (os_malloc e) as [e1 b] eqn:E. apply law_malloc in E as [F _].
  destruct b; cbn [negb]; [|by intros [= <- <- <-]]. by destruct (bool_decide _); intros [= <- <- <-].
Qed.

Definition storage_before (config : tr_raft_wal_storage_config) : tr_raft_wal_storage :=
  blank_storage config (lm_segment_bytes (config_limits config)) (lm_capacity (config_limits config)).

(** Opening fails before the log is read, and at most the lock file is touched;
    or it goes on with the log. *)
Lemma open_cases config locks e e' locks' res so :
  config_in_range config -> tr_raft_wal_storage_open config locks e = (e', locks', res, so) ->
  (so = None /\ files_kept (lock_name (config_limits config)) (os_view e) (os_view e')) \/
  limits_ok (config_limits config) /\
  exists e1 locks1 f e2 res2 s2,
    let s1 := (storage_before config) <| wl_process_lock_registered := true |>
                                    <| wl_lock_file := Some f |> in
    files_kept (lock_name (config_limits config)) (os_view e) (os_view e1) /\
    open_log config s1 e1 = (e2, res2, s2) /\
    if failed res2
    then so = None /\ files_kept nothing (os_view e2) (os_view e')
    else so = Some s2 /\ res = SALTS_OK /\ e' = e2 /\ locks' = locks1.
Proof.
  intros Hrange. unfold tr_raft_wal_storage_open.
  set (l := config_limits config). fold (lm_segment_bytes l). fold (lm_capacity l).
  top_if as C1; [intros [= <- <- <- <-]; left; split; [done|apply files_kept_refl]|].
  change (if wc_segment_bytes config =? 0 then TR_RAFT_WAL_DEFAULT_SEGMENT_BYTES
          else wc_segment_bytes config) with (lm_segment_bytes l).
  change (if wc_max_transaction_bytes config =? 0 then TR_RAFT_WAL_DEFAULT_TRANSACTION_BYTES
          else wc_max_transaction_bytes config) with (lm_capacity l).
  top_if as C2; [intros [= <- <- <- <-]; left; split; [done|apply files_kept_refl]|].
  top_if as C3; [intros [= <- <- <- <-]; left; split; [done|apply files_kept_refl]|].
  rewrite !orb_false_iff in C1, C2.
  assert (limits_ok l) as Hl.
  { apply open_limits_ok; try done; unfold l in *; lia. }
  destruct (os_malloc e) as [e1 b1] eqn:E1. apply law_malloc in E1 as [F1 _].
  assert (forall v v' : view os_file, files_kept nothing v v' -> files_kept (lock_name l) v v') as Hweak.
  { intros v v' Hf. eapply files_kept_weaken; [exact Hf|]. by intros q []. }
  destruct b1; cbn [negb]; [|by intros [= <- <- <- <-]; left; split; [|apply Hweak]].
  destruct (os_malloc e1) as [e2 b2] eqn:E2. apply law_malloc in E2 as [F2 _].
  pose proof (files_kept_trans _ _ _ _ F1 F2) as F02.
  destruct b2; cbn [negb]; [|by intros [= <- <- <- <-]; left; split; [|apply Hweak]].
  destruct (tr_wal_process_lock_acquire _ _ _) as [[e3 locks3] res3] eqn:E3.
  pose proof (files_kept_trans _ _ _ _ F02 (lock_acquire_files _ _ _ _ _ _ E3)) as F03.
  destruct res3; cbn [failed ok negb]; [|by intros [= <- <- <- <-]; left; split; [|apply Hweak]].
  fold (storage_before config).
  destruct (cmeta_fs_open e3 _ RDWR_CREAT) as [e4 lock_file] eqn:E4.
  assert (files_kept (lock_name l) (os_view e) (os_view e4)) as F04.
  { eapply files_kept_trans; [by apply Hweak|]. destruct (law_open _ _ _ _ _ E4) as (_ & Fo & _).
    eapply files_kept_weaken; [exact Fo|]. by intros q [_ ->]. }
  destruct lock_file as [f|]; cycle 1.
  { cbn [failed ok negb]. destruct (tr_raft_wal_storage_close _ _ _) as [[e5 l5] r5] eqn:E5.
    intros [= <- <- <- <-]. left. split; [done|]. eapply files_kept_trans; [exact F04|].
    by eapply Hweak, close_files. }
  destruct (cmeta_fs_lock e4 f) as [e5 res5] eqn:E5. apply law_lock in E5 as [F5 _].
  pose proof (files_kept_trans _ _ _ _ F04 (Hweak _ _ F5)) as F05.
  destruct res5; cbn [failed ok negb]; cycle 1.
  { destruct (tr_raft_wal_storage_close _ _ _) as [[e6 l6] r6] eqn:E6.
    intros [= <- <- <- <-]. left. split; [done|]. eapply files_kept_trans; [exact F05|].
    by eapply Hweak, close_files. }
  set (s1 := _ <| wl_lock_file := _ |>).
  destruct (open_log config s1 e5) as [[e6 res6] s6] eqn:E6.
  intros Hrest. right. split; [done|]. exists e5, locks3, f, e6, res6, s6. split_and!; [done|done|].
  destruct res6; cbn [failed ok negb] in Hrest |- *; [by injection Hrest as <- <- <- <-|].
  destruct (tr_raft_wal_storage_close _ _ _) as [[e7 l7] r7] eqn:E7.
  injection Hrest as <- <- <- <-. split; [done|]. by eapply close_files.
Qed.

Lemma open_existing config locks e e' locks' res so snaps first id closed current torn r :
  config_in_range config ->
  resting (config_limits config) e snaps first id closed current torn r ->
  tr_raft_wal_storage_open config locks e = (e', locks', res, so) ->
  match so with
  | Some s => limits s = config_limits config /\ holds (bool_decide (torn = [])) s e' r
  | None => crash_safe (config_limits config) e' (eq r)
  end.
Proof.
  intros Hc Hr Ho. assert (forall e1, files_kept (lock_name (config_limits config)) (os_view e) (os_view e1) ->
    resting (config_limits config) e1 snaps first id closed current torn r) as Hkeep.
  { intros e1 Hk. eapply resting_kept; [exact Hr|exact Hk|]. intros n Hn Hd. by eapply lock_apart. }
  destruct (open_cases _ _ _ _ _ _ _ Hc Ho) as [[-> Hk]|(Hl & e1 & locks1 & f & e2 & res2 & s2 & Hk & E & Hres)].
  { eapply durable_crash_safe, resting_durable, Hkeep, Hk. }
  set (s1 := (storage_before config) <| wl_process_lock_registered := _ |> <| wl_lock_file := _ |>) in E.
  destruct (open_log_spec config s1 e1 e2 res2 s2 snaps first id closed current torn r Hl eq_refl eq_refl
    (Hkeep e1 Hk) E) as [Hdur Hok].
  destruct res2; cbn [failed ok negb] in Hres.
  - destruct Hres as (-> & -> & -> & ->). by apply Hok.
  - destruct Hres as [-> Hk']. eapply durable_crash_safe, durable_kept; [exact Hdur|exact Hk'|].
    by intros n _ _ [].
Qed.

(** ** Creation *)

(** There is no log with this prefix. *)
Definition absent l (e : os) : Prop :=
  v_now (os_view e) (name_path (lm_prefix l) ManifestName) = None /\
  forall i, 1 <= i <= lm_live_segments l -> v_now (os_view e) (segment_at l i) = None.

Lemma access_absent e p e' res :
  cmeta_fs_access e p = (e', res) -> v_now (os_view e) p = None -> failed res = true /\ quiet e e'.
Proof.
  intros Ha Hn. destruct (law_access _ _ _ _ Ha) as [Hs [Hr _]]. split; [|by apply same_quiet].
  destruct res; [|done]. by destruct (Hr eq_refl).
Qed.

Lemma scan_first_absent s count sequence e :
  limits_ok (limits s) -> 0 <= sequence -> sequence + Z.of_nat count <= 2 ^ 64 ->
  (forall i, sequence <= i < sequence + Z.of_nat count ->
     v_now (os_view e) (segment_at (limits s) i) = None) ->
  exists e', scan_first s count sequence e = (e', SALTS_OK, 0) /\ quiet e e'.
Proof.
  revert sequence e. induction count as [|count IH]; intros sequence e Hl H0' Hmax Hn; cbn [scan_first].
  { exists e. split; [done|reflexivity]. }
  rewrite segment_path_fits by (done || lia). cbn [failed ok negb].
  destruct (cmeta_fs_access e _) as [e1 res] eqn:Ea.
  destruct (access_absent _ _ _ _ Ea (Hn sequence ltac:(lia))) as [Hf Q1].
  assert (ok res = false) as -> by (by destruct res).
  destruct (IH (sequence + 1) e1 Hl) as (e2 & -> & Q2); [lia|lia| |].
  - intros i Hi. rewrite (quiet_now _ _ _ Q1). apply Hn. lia.
  - exists e2. split; [done|by etrans].
Qed.

Lemma replay_absent s e :
  limits_ok (limits s) -> absent (limits s) e ->
  exists e', tr_wal_replay s e = (e', SALTS_OK, Some (ReplayResult zero_recovery 0 0 0 0 false)) /\
    quiet e e'.
Proof.
  intros Hl [Hm Hs]. unfold tr_wal_replay. destruct (malloc_readable e) as (e1 & -> & Q1). cbn [negb].
  unfold tr_wal_read_manifest, tr_wal_manifest_path.
  change (fitting_path _) with (fitting_path (name_path (lm_prefix (limits s)) ManifestName)).
  rewrite (name_fits _ ManifestName) by done. cbn [failed ok negb].
  rewrite <- (quiet_now _ _ _ Q1) in Hm. destruct (cmeta_fs_access e1 _) as [e2 res] eqn:Ea.
  destruct (access_absent _ _ _ _ Ea Hm) as [-> Q2]. cbn [failed ok negb is_null].
  unfold scan_segments. pose proof (lo_live _ Hl) as Hlive. unfold TR_RAFT_WAL_MAX_LIVE_SEGMENTS in Hlive.
  change (lm_live_segments (limits s)) with (wl_max_live_segments s) in Hlive, Hs.
  destruct (scan_first_absent s (Z.to_nat (wl_max_live_segments s)) 1 e2 Hl) as (e3 & -> & Q3); [lia|lia| |].
  - intros i Hi. rewrite (quiet_now _ _ _ Q2), (quiet_now _ _ _ Q1). apply Hs. lia.
  - cbn [failed ok negb Z.eqb]. exists e3. split; [done|]. by do 2 (etrans; [done|]).
Qed.

Lemma open_fresh_spec s e e' res s' :
  limits_ok (limits s) -> wl_faulted s = false -> wl_last_transaction_id s = 0 ->
  open_fresh s e = (e', res, s') -> res = SALTS_OK ->
  limits s' = limits s /\ settled (limits s) e' 1 0 [] [] /\
  attached s' e' (fun _ => None) 1 0 [] [] zero_recovery /\
  exists path f, s' = s <| wl_current_path := path |> <| wl_current_file := Some f |>
    <| wl_current_segment := 1 |> <| wl_current_offset := 32 |> <| wl_first_live_segment := 1 |>.
Proof.
  intros Hl Hf Hid. unfold open_fresh.
  destruct (tr_wal_create_segment s 1 e) as [[e1 res1] s1] eqn:E1.
  destruct (create_segment_spec s 1 e e1 res1 s1 Hl ltac:(lia) E1) as (F1 & L1 & O1).
  destruct res1; cbn [failed ok negb]; [|by intros [= <- <- <-]].
  destruct (O1 eq_refl) as (Hfix & f & Hh & ->). set (s1 := _ <| wl_current_offset := 32 |>) in *.
  destruct (tr_wal_write_manifest s1 1 1 e1) as [[e2 res2] s2] eqn:E2.
  destruct (write_manifest_spec s1 1 1 e1 e2 res2 s2 Hl E2) as (Hst & _ & Hs2).
  intros [= <- <- <-] ->. cbn [ok]. specialize (Hs2 eq_refl). subst s2.
  assert (settled (limits s) e2 1 0 [] []) as Hset.
  { eapply fixed_kept; [exact Hfix|apply Hst|].
    destruct (new_manifest_apart (limits s) 1 1 (SegmentName 1)); [cbn; lia..|]. tauto. }
  split_and!; [done|done| |by exists (segment_at (limits s) 1), f].
  pose proof (lo_live _ Hl). pose proof (lo_capacity _ Hl).
  split; try done; [|exists f; split; [done|by apply (st_handles _ _ _ _ _ _ Hst)]].
  split; [split| | |]; try done.
  - change (range_ok (limits s) 1 1). unfold range_ok. lia.
  - exact (st_ok _ _ _ _ _ _ Hst eq_refl).
  - split; [constructor|constructor|by left].
  - intros x Hx. apply maybe_torn_whole; [done|exact (proj2 Hset x Hx)|].
    change (32 <= lm_segment_bytes (limits s)). lia.
  - exact (proj1 Hset).
  - change (32 <= lm_segment_bytes (limits s)). lia.
Qed.

Lemma open_creates config locks e e' locks' res s :
  config_in_range config -> absent (config_limits config) e ->
  tr_raft_wal_storage_open config locks e = (e', locks', res, Some s) ->
  limits s = config_limits config /\ holds true s e' zero_recovery.
Proof.
  intros Hc [Hm Hs] Ho.
  destruct (open_cases _ _ _ _ _ _ _ Hc Ho) as [[[=] _]|(Hl & e1 & locks1 & f & e2 & res2 & s2 & Hk & E & Hres)].
  set (s1 := (storage_before config) <| wl_process_lock_registered := _ |> <| wl_lock_file := _ |>) in E.
  assert (absent (config_limits config) e1) as Habs.
  { pose proof (lo_live _ Hl) as Hlive. unfold TR_RAFT_WAL_MAX_LIVE_SEGMENTS in Hlive. split.
    - destruct (Hk (name_path (lm_prefix (config_limits config)) ManifestName)) as [-> _]; [|done].
      by apply (lock_apart _ 0 0); [|left].
    - intros i Hi. destruct (Hk (segment_at (config_limits config) i)) as [-> _]; [|by apply Hs].
      apply (lock_apart _ i 1 (SegmentName i)); [|right]; cbn; lia. }
  unfold open_log in E. destruct (replay_absent s1 e1 Hl Habs) as (e3 & Er & Q3). rewrite Er in E.
  cbn [rp_last_segment Z.eqb] in E. destruct (wc_create_if_missing config); cbn [negb] in E; cycle 1.
  { injection E as <- <- <-. cbn [failed ok negb] in Hres. by destruct Hres. }
  destruct res2; cbn [failed ok negb] in Hres; [|by destruct Hres].
  destruct Hres as ([= ->] & -> & -> & ->).
  destruct (open_fresh_spec (recovered_storage s1 (ReplayResult zero_recovery 0 0 0 0 false))
    e3 e2 SALTS_OK s2 Hl eq_refl eq_refl E eq_refl)
    as (Hlim & Hset & Hat & path & g & Hs2).
  change (limits (recovered_storage s1 _)) with (config_limits config) in Hlim, Hset.
  split; [exact Hlim|]. unfold holds. rewrite Hlim. split_and!.
  - by rewrite Hs2.
  - apply zero_recovery_wf; [pose proof (lo_entries _ Hl); lia|pose proof (lo_snapshot _ Hl); lia].
  - rewrite Hs2. by split.
  - exists (fun _ => None), 1, 0, [], []. split; [exact Hat|intros _; exact Hset].
Qed.
End Open.
