(* ===== verification/WalTheorems.v ===== *)
(** * The write-ahead log is durable

    The life of a log is a sequence of openings, transactions and losses of
    power, in which every call that writes may fail. However it goes on, what
    is recovered is the effect of the transactions that were acknowledged, and
    perhaps of one that failed. *)

From S2P Require Import Prelude Configuration Bytes Wire Digest Os SnapshotSender Wal WalCodec.
From S2P Require Import WalRead WalRecovery WalReplay WalWrite WalCommit WalLog WalTransaction WalOpen.
From Stdlib Require Import ZArith Lia.
From stdpp Require Import base numbers list tactics strings.
Open Scope Z_scope.
Open Scope raft_scope.

Section Theorems.
Context `{OsReadable} `{!Sha256Total} `{Xxh3Total}.
Implicit Types s : tr_raft_wal_storage.
Implicit Types r : tr_raft_wal_recovery.
Implicit Types l : wal_limits.

Lemma holds_load clean s e r :
  holds clean s e r ->
  exists e' p, tr_raft_wal_storage_load s e = (e', SALTS_OK, Some p) /\ rp_recovery p = r /\ quiet e e'.
Proof.
  intros (Ha & _ & _ & snaps & first & id & closed & current & Hat & _).
  pose proof (at_stored _ _ _ _ _ _ _ _ Hat) as Hs. pose proof (so_limits _ _ _ _ _ _ _ _ Hs) as Hl.
  unfold tr_raft_wal_storage_load. rewrite Ha.
  destruct (replay_disk s e snaps first id closed current [] r Hl) as (e' & Q & ->).
  - destruct Hs as [[R I M B Hh A] _ N Sz]. apply (base_disk _ e); rewrite ?app_nil_r; try done.
    + by intros p c [].
    + by destruct M.
    + by apply torn_nil.
  - by eexists e', _.
Qed.

Lemma quiet_holds clean s e e' r : holds clean s e r -> quiet e e' -> holds clean s e' r.
Proof.
  intros (Ha & Hw & Hc & snaps & first & id & closed & current & [Hs (f & Hf & Hh) O G F I N] & Hset) [Qf Qh].
  split_and!; [done..|]. exists snaps, first, id, closed, current. split.
  - split; try done; [|by exists f; split; [|apply Qh]].
    eapply stored_kept; [exact Hs|exact Qf|]. by intros n _ _ [].
  - intros Hc'. eapply fixed_kept; [by apply Hset|exact Qf|by intros []].
Qed.

(** ** The life of a log *)

Inductive wal_phase :=
| Up (clean : bool) (s : tr_raft_wal_storage)
| Broken
| Down.

(** [life config e phase logs]: the calls that have had their effect are those
    of one of the lists of [logs]. *)
Inductive life (config : tr_raft_wal_storage_config) : os -> wal_phase -> list (list wal_call) -> Prop :=
| life_create locks e e' locks' res s :
    absent (config_limits config) e ->
    tr_raft_wal_storage_open config locks e = (e', locks', res, Some s) ->
    life config e' (Up true s) [[]]
| life_commit e clean s log cs e' s' :
    life config e (Up clean s) [log] -> Forall call_in_range cs ->
    clean = true \/ needs_segment s cs = false ->
    transact s cs e = (e', SALTS_OK, s') ->
    life config e' (Up true s') [log ++ cs]
| life_refused e clean s log cs e' error s' :
    life config e (Up clean s) [log] -> Forall call_in_range cs ->
    clean = true \/ needs_segment s cs = false ->
    transact s cs e = (e', SALTS_ERR error, s') -> wl_faulted s' = false ->
    life config e' (Up clean s') [log]
| life_fault e clean s log cs e' error s' :
    life config e (Up clean s) [log] -> Forall call_in_range cs ->
    clean = true \/ needs_segment s cs = false ->
    transact s cs e = (e', SALTS_ERR error, s') -> wl_faulted s' = true ->
    life config e' Broken [log; log ++ cs]
| life_power e phase logs e' :
    life config e phase logs -> crashed (os_view e) (os_view e') ->
    life config e' Down logs
| life_open e logs locks e' locks' res s e'' p log :
    life config e Down logs ->
    tr_raft_wal_storage_open config locks e = (e', locks', res, Some s) ->
    tr_raft_wal_storage_load s e' = (e'', SALTS_OK, Some p) ->
    log ∈ logs -> rp_recovery p = effects zero_recovery log ->
    life config e'' (Up false s) [log]
| life_open_failed e logs locks e' locks' res :
    life config e Down logs ->
    tr_raft_wal_storage_open config locks e = (e', locks', res, None) ->
    life config e' Broken logs.

Definition one_of (logs : list (list wal_call)) r : Prop :=
  exists log, log ∈ logs /\ r = effects zero_recovery log.

Lemma effects_app r cs ds : effects r (cs ++ ds) = effects (effects r cs) ds.
Proof. apply fold_left_app. Qed.

(** What a phase says of the files. *)
Definition phase_ok config (e : os) (phase : wal_phase) (logs : list (list wal_call)) : Prop :=
  match phase with
  | Up clean s => limits s = config_limits config /\
      exists log, logs = [log] /\ holds clean s e (effects zero_recovery log)
  | Broken => crash_safe (config_limits config) e (one_of logs)
  | Down => exists snaps first id closed current torn r, one_of logs r /\
      resting (config_limits config) e snaps first id closed current torn r
  end.

Lemma holds_crash_safe clean s e r : holds clean s e r -> crash_safe (limits s) e (eq r).
Proof.
  intros (_ & _ & _ & snaps & first & id & closed & current & Hat & _).
  eapply durable_crash_safe, at_stored, Hat.
Qed.

Lemma phase_crash_safe config e phase logs :
  phase_ok config e phase logs -> crash_safe (config_limits config) e (one_of logs).
Proof.
  destruct phase as [clean s| |]; cbn [phase_ok].
  - intros (<- & log & -> & Hh). eapply crash_safe_impl; [by eapply holds_crash_safe|].
    intros r <-. exists log. split; [by apply list_elem_of_singleton|done].
  - done.
  - intros (snaps & first & id & closed & current & torn & r & Hr & Hrest).
    eapply crash_safe_impl; [by eapply durable_crash_safe, resting_durable|]. by intros r' <-.
Qed.

Lemma holds_weaken s e r clean : holds clean s e r -> holds false s e r.
Proof.
  intros (Ha & Hw & Hc & snaps & first & id & closed & current & Hat & _).
  split_and!; [done..|]. by exists snaps, first, id, closed, current.
Qed.

(** The state a storage holds is the one it loads. *)
Lemma holds_unique clean s e r e' p :
  holds clean s e r -> tr_raft_wal_storage_load s e = (e', SALTS_OK, Some p) ->
  rp_recovery p = r /\ quiet e e'.
Proof.
  intros Hh Hl. destruct (holds_load _ _ _ _ Hh) as (e1 & p1 & E & Hp & Q). rewrite E in Hl.
  by injection Hl as <- <-.
Qed.

Lemma transact_ok config e clean s log cs e' res s' :
  phase_ok config e (Up clean s) [log] -> Forall call_in_range cs ->
  clean = true \/ needs_segment s cs = false -> transact s cs e = (e', res, s') ->
  match res with
  | SALTS_OK => phase_ok config e' (Up true s') [log ++ cs]
  | _ => if wl_faulted s' then phase_ok config e' Broken [log; log ++ cs]
         else phase_ok config e' (Up clean s') [log]
  end.
Proof.
  intros (Hl & log' & [= <-] & Hh) Hr Hc Ht.
  pose proof (transact_spec _ _ _ _ _ _ _ _ Hh Hr Hc Ht) as Hres. destruct res as [|error].
  - destruct Hres as [El Hh']. split; [congruence|]. exists (log ++ cs). by rewrite effects_app.
  - destruct Hres as [(-> & El & Hh')|[Hf Hcr]].
    + assert (wl_faulted s' = false) as ->.
      { destruct Hh' as (_ & _ & _ & ? & ? & ? & ? & ? & Hat & _). apply Hat. }
      split; [congruence|]. by exists log.
    + rewrite Hf. cbn [phase_ok]. rewrite <- Hl. eapply crash_safe_impl; [exact Hcr|].
      intros x [->| ->]; [exists log|exists (log ++ cs)]; rewrite ?effects_app; split; try done;
        rewrite elem_of_cons, list_elem_of_singleton; auto.
Qed.

Lemma phase_power config e phase logs e' :
  phase_ok config e phase logs -> crashed (os_view e) (os_view e') -> phase_ok config e' Down logs.
Proof.
  intros Hp Hc. destruct (phase_crash_safe _ _ _ _ Hp _ Hc)
    as (snaps & first & id & closed & current & torn & r & Hr & Hd).
  exists snaps, first, id, closed, current, torn, r. split; [done|].
  eapply disk_resting; [by eapply crashed_at_rest|done].
Qed.

(** Opening a log that nobody has open. *)
Lemma phase_open config e logs locks e' locks' res so :
  config_in_range config -> phase_ok config e Down logs ->
  tr_raft_wal_storage_open config locks e = (e', locks', res, so) ->
  match so with
  | Some s => limits s = config_limits config /\ exists clean r, one_of logs r /\ holds clean s e' r
  | None => phase_ok config e' Broken logs
  end.
Proof.
  intros Hc (snaps & first & id & closed & current & torn & r & Hr & Hrest) Ho.
  pose proof (open_existing _ _ _ _ _ _ _ _ _ _ _ _ _ _ Hc Hrest Ho) as Hres. destruct so as [s|].
  - destruct Hres as [Hl Hh]. split; [done|]. by eexists _, r.
  - eapply crash_safe_impl; [exact Hres|]. by intros x <-.
Qed.

Lemma life_ok config e phase logs :
  config_in_range config -> life config e phase logs -> phase_ok config e phase logs.
Proof.
  intros Hc Hlife. induction Hlife as
    [locks e e' locks' res s Ha Ho|e clean s log cs e' s' _ IH Hr Hn Ht|e clean s log cs e' error s' _ IH Hr Hn Ht Hf
    |e clean s log cs e' error s' _ IH Hr Hn Ht Hf|e phase logs e' _ IH Hcr
    |e logs locks e' locks' res s e'' p log _ IH Ho Hload Hin Hp|e logs locks e' locks' res _ IH Ho].
  - destruct (open_creates _ _ _ _ _ _ _ Hc Ha Ho) as [Hl Hh]. split; [done|]. by exists [].
  - exact (transact_ok _ _ _ _ _ _ _ _ _ IH Hr Hn Ht).
  - pose proof (transact_ok _ _ _ _ _ _ _ _ _ IH Hr Hn Ht) as Hres. by rewrite Hf in Hres.
  - pose proof (transact_ok _ _ _ _ _ _ _ _ _ IH Hr Hn Ht) as Hres. by rewrite Hf in Hres.
  - by eapply phase_power.
  - destruct (phase_open _ _ _ _ _ _ _ _ Hc IH Ho) as (Hl & clean & r & _ & Hh).
    split; [done|]. exists log. split; [done|].
    destruct (holds_unique _ _ _ _ _ _ Hh Hload) as [<- Q]. rewrite <- Hp.
    by eapply holds_weaken, quiet_holds.
  - exact (phase_open _ _ _ _ _ _ _ _ Hc IH Ho).
Qed.

(** C11. Whatever has happened to a log since it was created - transactions
    that succeeded, were refused or failed at any call of the system, losses of
    power, openings that succeeded or failed - after one more loss of power the
    storage opens with the effect of all transactions that were acknowledged,
    and perhaps of the one that failed. A transaction that needs a new segment
    may not be the first one after an opening. *)
Theorem wal_life_durable config (e e1 e2 : os) phase logs locks locks' res s
    (Hconfig : config_in_range config) (Hlife : life config e phase logs)
    (Hpower : crashed (os_view e) (os_view e1))
    (Hopen : tr_raft_wal_storage_open config locks e1 = (e2, locks', res, Some s)) :
  exists e3 p log, tr_raft_wal_storage_load s e2 = (e3, SALTS_OK, Some p) /\
    log ∈ logs /\ rp_recovery p = effects zero_recovery log.
Proof.
  pose proof (phase_power _ _ _ _ _ (life_ok _ _ _ _ Hconfig Hlife) Hpower) as Hdown.
  destruct (phase_open _ _ _ _ _ _ _ _ Hconfig Hdown Hopen) as (_ & clean & r & (log & Hin & ->) & Hh).
  destruct (holds_load _ _ _ _ Hh) as (e3 & p & Hl & Hp & _). by exists e3, p, log.
Qed.

(** While a log is open, what it loads is the effect of exactly the
    transactions that were acknowledged. *)
Theorem wal_loads_committed config (e : os) clean s log
    (Hconfig : config_in_range config) (Hlife : life config e (Up clean s) [log]) :
  exists e' p, tr_raft_wal_storage_load s e = (e', SALTS_OK, Some p) /\
    rp_recovery p = effects zero_recovery log.
Proof.
  destruct (life_ok _ _ _ _ Hconfig Hlife) as (_ & log' & [= <-] & Hh).
  destruct (holds_load _ _ _ _ Hh) as (e' & p & Hl & Hp & _). by exists e', p.
Qed.

(** C13. A transaction succeeds, and the storage holds the state its calls
    describe; or it fails and the storage holds the state it held before; or
    it fails, the storage refuses all further transactions, and after a loss of
    power the files hold one of the two states. *)
Theorem wal_transaction_atomic clean s (e e' : os) r cs res s'
    (Hholds : holds clean s e r) (Hrange : Forall call_in_range cs)
    (Hroom : clean = true \/ needs_segment s cs = false)
    (Htransact : transact s cs e = (e', res, s')) :
  match res with
  | SALTS_OK => holds true s' e' (effects r cs)
  | SALTS_ERR _ =>
      e' = e /\ holds clean s' e' r \/
      (forall ds e'', transact s' ds e'' = (e'', SALTS_EIO, s')) /\
      crash_safe (limits s) e' (fun x => x = r \/ x = effects r cs)
  end.
Proof.
  pose proof (transact_spec _ _ _ _ _ _ _ _ Hholds Hrange Hroom Htransact) as Hres.
  destruct res as [|error]; [apply Hres|]. destruct Hres as [(-> & _ & Hh)|[Hf Hcr]]; [by left|right].
  split; [|done]. intros ds e''. unfold transact, tr_wal_begin. by rewrite Hf.
Qed.
End Theorems.
