(* ===== verification/WalReopen.v ===== *)
(** * A log can always be opened again

    On a system whose calls do not fail, a log that has lost power is opened
    whatever the loss has left of its files: recovery never refuses what the
    storage itself has written. *)

From S2P Require Import Prelude Configuration Bytes Wire Digest Os SnapshotSender Wal WalCodec.
From S2P Require Import WalRead WalRecovery WalReplay WalWrite WalCommit WalLog WalTransaction WalOpen.
From S2P Require Import WalTheorems.
From Stdlib Require Import ZArith Lia.
From stdpp Require Import base numbers list tactics strings.
Open Scope Z_scope.
Open Scope raft_scope.

Section Reopen.
Context `{OsSteady} `{!Sha256Total} `{Xxh3Total}.
Implicit Types s : tr_raft_wal_storage.
Implicit Types r : tr_raft_wal_recovery.

Lemma cut_last_succeeds s path content torn (e : os) :
  v_now (os_view e) path = Some (content ++ torn) ->
  snd (fst (cut_last s path (Zlength_ content) e)) = SALTS_OK.
Proof.
  intros Hn. unfold cut_last. assert (snd (cmeta_fs_open e path RDWR) <> None) as Ho.
  { apply readable_open; [done|]. by rewrite Hn. }
  destruct (cmeta_fs_open e path RDWR) as [e1 [f|]] eqn:Eo; [|done].
  destruct (law_open _ _ _ _ _ Eo) as ((_ & G1 & _) & Fo & _).
  assert (v_now (os_view e1) path = Some (content ++ torn)) as N1.
  { destruct (Fo path) as [-> _]; [by intros [[=] _]|done]. }
  assert (0 <= Zlength_ content <= Zlength_ (content ++ torn)) as Hlen.
  { rewrite length_app. lia. }
  pose proof (steady_ftruncate e1 f (Zlength_ content) _ _ _ G1 N1 Hlen) as Ht.
  destruct (cmeta_fs_ftruncate e1 f (Zlength_ content)) as [e2 res2] eqn:Et. cbn in Ht. subst res2.
  destruct (law_ftruncate _ _ _ _ _ _ _ _ Et G1 N1 Hlen) as (_ & K2 & _). cbn [failed ok negb].
  assert (v_handle (os_view e2) f = Some (path, 0)) as G2 by (by rewrite (kept_handle _ _ f K2)).
  pose proof (steady_seek e2 f (Zlength_ content) _ _ G2) as Hs.
  by destruct (cmeta_fs_seek e2 f (Zlength_ content)) as [e3 [|]].
Qed.

Lemma open_log_succeeds config s (e : os) snaps first id closed current torn r :
  limits_ok (limits s) -> resting (limits s) e snaps first id closed current torn r ->
  snd (fst (open_log config s e)) = SALTS_OK.
Proof.
  intros Hl Hr. unfold open_log. pose proof (resting_disk _ _ _ _ _ _ _ _ _ Hr) as Hd.
  destruct (replay_disk s e snaps first id closed current torn r Hl Hd) as (e1 & [Q1 _] & ->).
  set (p := ReplayResult _ _ _ _ _ _).
  assert (found p first id closed current r) as Hfound by (by split). clearbody p.
  pose proof (rt_range _ _ _ _ _ _ _ _ _ Hr) as Hrange. pose proof Hrange as (R1 & R2 & R3).
  rewrite (fo_last _ _ _ _ _ _ Hfound), (proj2 (Z.eqb_neq (last_sequence first closed) 0)) by lia.
  rewrite (open_last_cut (recovered_storage s p) p e1 first id closed current r Hl Hrange Hfound).
  change (limits (recovered_storage s p)) with (limits s).
  assert (resting (limits s) e1 snaps first id closed current torn r) as Hr1.
  { eapply resting_kept; [exact Hr|exact Q1|]. by intros n _ _ []. }
  destruct (rt_last _ _ _ _ _ _ _ _ _ Hr1) as [Hn _]. exact (cut_last_succeeds _ _ _ _ _ Hn).
Qed.

(** What the configuration of a storage satisfies once it has been opened. *)
Definition config_accepted (config : tr_raft_wal_storage_config) : Prop :=
  exists locks (e e' : os) locks' res s,
    tr_raft_wal_storage_open config locks e = (e', locks', res, Some s).

Lemma life_accepted config (e : os) phase logs :
  life config e phase logs -> config_accepted config.
Proof. induction 1; try done. by eexists _, _, _, _, _, _. Qed.

Lemma malloc_succeeds (e : os) : exists e', os_malloc e = (e', true) /\ files_kept nothing (os_view e) (os_view e').
Proof.
  pose proof (readable_malloc e) as Hm. destruct (os_malloc e) as [e' b] eqn:E. cbn in Hm. subst b.
  exists e'. split; [done|]. by apply law_malloc in E as [].
Qed.

Lemma lock_acquire_succeeds prefix locks (e : os) :
  Z.of_nat (length prefix) < SALTS_FS_MAX_PATH -> prefix ∉ locks ->
  exists e', tr_wal_process_lock_acquire prefix locks e = (e', prefix :: locks, SALTS_OK) /\
    files_kept nothing (os_view e) (os_view e').
Proof.
  intros Hp Hn. unfold tr_wal_process_lock_acquire. rewrite (proj2 (Z.leb_gt _ _)) by lia.
  destruct (malloc_succeeds e) as (e' & -> & F). cbn [negb]. rewrite bool_decide_eq_false_2 by done.
  by exists e'.
Qed.

Lemma lock_file_succeeds path (e : os) :
  exists e1 f e2, cmeta_fs_open e path RDWR_CREAT = (e1, Some f) /\
    cmeta_fs_lock e1 f = (e2, SALTS_OK) /\ files_kept (eq path) (os_view e) (os_view e2).
Proof.
  pose proof (steady_create e path) as Hc.
  destruct (cmeta_fs_open e path RDWR_CREAT) as [e1 [f|]] eqn:Eo; [|done].
  destruct (law_open _ _ _ _ _ Eo) as ((_ & G1 & _) & Fo & _).
  pose proof (steady_lock e1 f _ _ G1) as Hl. destruct (cmeta_fs_lock e1 f) as [e2 res] eqn:El.
  cbn in Hl. subst res. exists e1, f, e2. split_and!; [done|done|].
  apply (files_kept_trans _ _ (os_view e1)).
  - eapply files_kept_weaken; [exact Fo|]. by intros q [_ ->].
  - eapply same_files, law_lock, El.
Qed.

(** Opening a log at rest succeeds. *)
Lemma open_succeeds config locks (e : os) snaps first id closed current torn r :
  config_in_range config -> config_accepted config -> wc_path_prefix config ∉ locks ->
  resting (config_limits config) e snaps first id closed current torn r ->
  exists e' locks' s, tr_raft_wal_storage_open config locks e = (e', locks', SALTS_OK, Some s).
Proof.
  intros Hc (locks0 & e0 & e0' & locks0' & res0 & s0 & Hacc) Hn Hr.
  assert (limits_ok (config_limits config)) as Hl.
  { by destruct (open_cases _ _ _ _ _ _ _ Hc Hacc) as [[[=] _]|[? _]]. }
  revert Hacc. unfold tr_raft_wal_storage_open. set (l := config_limits config) in *.
  change (if wc_segment_bytes config =? 0 then TR_RAFT_WAL_DEFAULT_SEGMENT_BYTES
          else wc_segment_bytes config) with (lm_segment_bytes l).
  change (if wc_max_transaction_bytes config =? 0 then TR_RAFT_WAL_DEFAULT_TRANSACTION_BYTES
          else wc_max_transaction_bytes config) with (lm_capacity l).
  top_if as C1; [done|]. top_if as C2; [done|]. top_if as C3; [done|]. intros _.
  destruct (malloc_succeeds e) as (e1 & -> & F1). cbn [negb].
  destruct (malloc_succeeds e1) as (e2 & -> & F2). cbn [negb].
  change (blank_storage config (lm_segment_bytes l) (lm_capacity l)) with (storage_before config).
  change (wl_path_prefix (storage_before config)) with (wc_path_prefix config).
  destruct (lock_acquire_succeeds (wc_path_prefix config) locks e2) as (e3 & -> & F3); [lia|done|].
  cbn [failed ok negb]. destruct (lock_file_succeeds (lock_path (wc_path_prefix config)) e3)
    as (e4 & f & e5 & E4 & E5 & F5).
  change (wl_path_prefix _) with (wc_path_prefix config). rewrite E4, E5. cbn [failed ok negb].
  assert (files_kept (lock_name l) (os_view e) (os_view e5)) as F.
  { apply (files_kept_trans _ _ (os_view e3)).
    - eapply files_kept_weaken; [exact (files_kept_trans _ _ _ _ F1 (files_kept_trans _ _ _ _ F2 F3))|].
      by intros q [].
    - eapply files_kept_weaken; [exact F5|]. by intros q <-. }
  set (s1 := _ <| wl_lock_file := _ |>).
  assert (snd (fst (open_log config s1 e5)) = SALTS_OK) as Hok.
  { eapply open_log_succeeds; [exact Hl|]. eapply resting_kept; [exact Hr|exact F|].
    intros n Hname Hd. by eapply lock_apart. }
  destruct (open_log config s1 e5) as [[e6 res6] s6]. cbn in Hok. subst res6. by eexists _, _, _.
Qed.

End Reopen.
