(* ===== verification/WalExamples.v ===== *)
(** * Runs of the write-ahead log

    Concrete runs on the files of [Ram]: a log that is created, written to,
    loses power in the middle of a frame and is opened again. *)

From S2P Require Import Prelude Configuration Bytes Wire Digest Os Ram SnapshotSender Wal WalCodec.
From S2P Require Import WalRead WalRecovery WalReplay WalWrite WalCommit WalLog WalTransaction WalOpen.
From S2P Require Import WalTheorems WalReopen.
From Stdlib Require Import ZArith Lia.
From stdpp Require Import base numbers list gmap tactics strings.
Open Scope Z_scope.
Open Scope raft_scope.

Definition sample_config : tr_raft_wal_storage_config :=
  WalConfig (bytes_of "db") 65536 65504 4 200 1000 true.

Definition sample_entry (index : Z) : tr_raft_entry := Entry index 1 (100 + index) 2 [index; 7].

Definition sample_calls (first : Z) : list wal_call :=
  [WriteHardState 1 2; AppendLog [sample_entry first; sample_entry (first + 1)];
   WriteCommitIndex first].

(** A system on which [budget] writing calls succeed. *)
Definition blank_system (budget : nat) : os := Ram ∅ ∅ [] budget 16.

(** More bytes than a segment has. *)
Definition whole_frame : nat := Z.to_nat 65536.

(** ** Results of runs *)

Section Runs.
Context `{Os}.

Definition no_storage : tr_raft_wal_storage := blank_storage sample_config 0 0.

(** A run that has opened a storage. *)
Lemma opened_run (run : os * list (list Z) * status * option tr_raft_wal_storage) :
  negb (is_null (snd run)) = true ->
  run = (fst (fst (fst run)), snd (fst (fst run)), snd (fst run), Some (default no_storage (snd run))).
Proof. by destruct run as [[[e locks] res] [s|]]. Qed.

(** A run with this result. *)
Lemma transact_run (run : os * status * tr_raft_wal_storage) res :
  bool_decide (snd (fst run) = res) = true -> run = (fst (fst run), res, snd run).
Proof. intros Hr%bool_decide_eq_true. destruct run as [[e res'] s]. cbn in Hr. by subst. Qed.

End Runs.

(** ** A torn frame *)

Definition created := tr_raft_wal_storage_open sample_config [] (blank_system 26).
Definition created_system : os := fst (fst (fst created)).
Definition created_storage : tr_raft_wal_storage := default no_storage (snd created).

Definition first_run := transact created_storage (sample_calls 1) created_system.
Definition first_system : os := fst (fst first_run).
Definition first_storage : tr_raft_wal_storage := snd first_run.

(** The budget ends in the middle of the second frame. *)
Definition second_run := transact first_storage (sample_calls 3) first_system.
Definition second_system : os := fst (fst second_run).
Definition second_storage : tr_raft_wal_storage := snd second_run.

Definition sample_segment : path := bytes_of "db.00000001.wal".

(** Forty-eight bytes of that frame have reached the disk. *)
Definition torn_content : list Z :=
  default [] (ra_files first_system !! sample_segment) ++
  take 48 (drop 204 (default [] (ra_files second_system !! sample_segment))).

Definition lost_system : os := power_loss second_system sample_segment torn_content 100 whole_frame.

Definition reopened := tr_raft_wal_storage_open sample_config [] lost_system.
Definition reopened_system : os := fst (fst (fst reopened)).
Definition reopened_storage : tr_raft_wal_storage := default no_storage (snd reopened).

Lemma sample_config_in_range : config_in_range sample_config.
Proof. split; cbn; lia. Qed.

Lemma sample_calls_in_range i : 0 <= i < 200 -> Forall call_in_range (sample_calls i).
Proof.
  intros Hi. repeat constructor; cbn; unfold word; lia.
Qed.

Lemma created_life : life sample_config created_system (Up true created_storage) [[]].
Proof.
  eapply (life_create sample_config [] (blank_system 26)); [by split|].
  apply (opened_run created). vm_compute. reflexivity.
Qed.

Lemma first_life : life sample_config first_system (Up true first_storage) [sample_calls 1].
Proof.
  eapply (life_commit _ _ _ _ []); [apply created_life|by apply sample_calls_in_range|by left|].
  apply (transact_run first_run). vm_compute. reflexivity.
Qed.

Lemma second_life :
  life sample_config second_system Broken [sample_calls 1; sample_calls 1 ++ sample_calls 3].
Proof.
  eapply (life_fault _ _ _ _ _ _ _ EIO second_storage);
    [apply first_life|by apply sample_calls_in_range|by left| |].
  - apply (transact_run second_run). vm_compute. reflexivity.
  - vm_compute. reflexivity.
Qed.

Lemma lost_crashed : crashed (os_view second_system) (os_view lost_system).
Proof.
  apply power_loss_crashed. right. apply (bool_decide_unpack _). vm_compute. exact I.
Qed.

Lemma reopened_run :
  tr_raft_wal_storage_open sample_config [] lost_system =
    (reopened_system, snd (fst (fst reopened)), snd (fst reopened), Some reopened_storage).
Proof. apply (opened_run reopened). vm_compute. reflexivity. Qed.

Lemma wal_life_durable_witness :
  exists e3 p log, tr_raft_wal_storage_load reopened_storage reopened_system = (e3, SALTS_OK, Some p) /\
    log ∈ [sample_calls 1; sample_calls 1 ++ sample_calls 3] /\
    rp_recovery p = effects zero_recovery log.
Proof.
  exact (wal_life_durable sample_config second_system lost_system reopened_system Broken
    [sample_calls 1; sample_calls 1 ++ sample_calls 3] [] (snd (fst (fst reopened)))
    (snd (fst reopened)) reopened_storage sample_config_in_range second_life lost_crashed reopened_run).
Defined.

Lemma wal_loads_committed_witness :
  exists e' p, tr_raft_wal_storage_load first_storage first_system = (e', SALTS_OK, Some p) /\
    rp_recovery p = effects zero_recovery (sample_calls 1).
Proof.
  exact (wal_loads_committed sample_config first_system true first_storage (sample_calls 1)
    sample_config_in_range first_life).
Defined.

Lemma created_holds : holds true created_storage created_system zero_recovery.
Proof.
  destruct (life_ok _ _ _ _ sample_config_in_range created_life) as (_ & log & [= <-] & Hh). exact Hh.
Qed.

Lemma first_transact :
  transact created_storage (sample_calls 1) created_system = (first_system, SALTS_OK, first_storage).
Proof. apply (transact_run first_run). vm_compute. reflexivity. Qed.

Lemma wal_transaction_atomic_witness :
  holds true first_storage first_system (effects zero_recovery (sample_calls 1)).
Proof.
  exact (wal_transaction_atomic true created_storage created_system first_system zero_recovery
    (sample_calls 1) SALTS_OK first_storage created_holds
    (sample_calls_in_range 1 ltac:(lia)) (or_introl eq_refl) first_transact).
Defined.

Lemma first_load :
  tr_raft_wal_storage_load first_storage first_system =
  (fst (fst (tr_raft_wal_storage_load first_storage first_system)), SALTS_OK,
   Some (default (ReplayResult zero_recovery 0 0 0 0 false)
           (snd (tr_raft_wal_storage_load first_storage first_system)))).
Proof.
  set (run := tr_raft_wal_storage_load first_storage first_system).
  assert (bool_decide (snd (fst run) = SALTS_OK) && negb (is_null (snd run)) = true) as Hr
    by (vm_compute; reflexivity).
  destruct run as [[e res] [p|]]; cbn in Hr |- *; [|by rewrite andb_false_r in Hr].
  rewrite andb_true_r in Hr. apply bool_decide_eq_true in Hr. by subst.
Qed.


(** ** A system that does not fail *)

Section Steady.
#[local] Existing Instance steady_os.
#[local] Existing Instance steady_laws.
#[local] Existing Instance steady_readable.
#[local] Existing Instance steady_steady.

Definition steady_blank : os := Ram ∅ ∅ [] 0 16.
Definition steady_created := tr_raft_wal_storage_open sample_config [] steady_blank.
Definition steady_system : os := fst (fst (fst steady_created)).
Definition steady_storage : tr_raft_wal_storage := default no_storage (snd steady_created).
Definition steady_run := transact steady_storage (sample_calls 1) steady_system.

Lemma steady_life :
  life sample_config (fst (fst steady_run)) (Up true (snd steady_run)) [sample_calls 1].
Proof.
  eapply (life_commit _ _ _ _ []);
    [|by apply sample_calls_in_range|by left|
     by apply (transact_run steady_run); vm_compute; reflexivity].
  eapply (life_create sample_config [] steady_blank); [by split|].
  apply (opened_run steady_created). vm_compute. reflexivity.
Qed.

(** Everything written is durable. *)
Definition steady_lost : os := power_loss (fst (fst steady_run)) sample_segment
  (default [] (ra_files (fst (fst steady_run)) !! sample_segment)) 0 whole_frame.

Lemma steady_crashed : crashed (os_view (fst (fst steady_run))) (os_view steady_lost).
Proof. apply power_loss_crashed. left. apply (bool_decide_unpack _). vm_compute. exact I. Qed.

End Steady.

(** ** What goes wrong *)

Definition large_entry (index size : Z) : tr_raft_entry :=
  Entry index 1 index size (replicate (Z.to_nat size) 5).

(** More than what the segment of [reopened_storage] has room for. *)
Definition large_calls : list wal_call :=
  [AppendLog (((fun i => large_entry (3 + Z.of_nat i) 512) <$> seq 0 118) ++ [large_entry 121 130])].

Definition large_run := transact reopened_storage large_calls reopened_system.

(** The end of the segment that was cut off is there again. *)
Definition lost_again : os :=
  power_loss (fst (fst large_run)) sample_segment torn_content 100 whole_frame.

Lemma lost_again_crashed : crashed (os_view (fst (fst large_run))) (os_view lost_again).
Proof. apply power_loss_crashed. right. apply (bool_decide_unpack _). vm_compute. exact I. Qed.

(** C37. [tr_raft_wal_storage_open] cuts a torn frame off the last segment but
    does not flush the file. When the next transaction needs a new segment, its
    commit succeeds and closes the cut segment; after a loss of power that
    restores the torn frame the log cannot be opened any more. *)
Theorem cut_not_durable :
  wl_current_segment reopened_storage = 1 /\ snd (fst large_run) = SALTS_OK /\
  crashed (os_view (fst (fst large_run))) (os_view lost_again) /\
  snd (fst (tr_raft_wal_storage_open sample_config [] lost_again)) = SALTS_EPROTO.
Proof.
  split_and!; [|apply (bool_decide_unpack _)|exact lost_again_crashed|apply (bool_decide_unpack _)];
    vm_compute; done.
Qed.

(** The flush of the second frame fails. *)
Definition unflushed :=
  match tr_raft_wal_storage_open sample_config [] (blank_system 33) with
  | (e, _, _, Some s) =>
      let '(e, _, s) := transact s (sample_calls 1) e in transact s (sample_calls 3) e
  | (e, _, result, None) => (e, result, no_storage)
  end.

Definition kept_system : os :=
  power_loss (fst (fst unflushed)) sample_segment
    (default [] (ra_files (fst (fst unflushed)) !! sample_segment)) 100 whole_frame.

Definition recovered_indices (e : os) : list Z :=
  match tr_raft_wal_storage_open sample_config [] e with
  | (e, _, _, Some s) =>
      match tr_raft_wal_storage_load s e with
      | (_, _, Some p) => entry_index <$> rc_entries (rp_recovery p)
      | _ => []
      end
  | _ => []
  end.

(** C38. A commit that fails may have become durable: the flush of the second
    frame fails, the loss of power leaves the frame whole, and the storage is
    opened with its entries. *)
Theorem failed_commit_may_persist :
  snd (fst unflushed) = SALTS_EIO /\ wl_faulted (snd unflushed) = true /\
  crashed (os_view (fst (fst unflushed))) (os_view kept_system) /\
  recovered_indices kept_system = [1; 2; 3; 4].
Proof.
  split_and!; [apply (bool_decide_unpack _)| | |]; [vm_compute; done..| |vm_compute; done].
  apply power_loss_crashed. left. apply (bool_decide_unpack _). vm_compute. exact I.
Qed.

(** Five entries, four of them committed. *)
Definition five_calls : list wal_call :=
  [WriteHardState 1 2; AppendLog (sample_entry <$> [1; 2; 3; 4; 5]); WriteCommitIndex 4].

(** Two snapshots, each of a part of the log. *)
Definition two_snapshots : list status * os * tr_raft_wal_storage :=
  match tr_raft_wal_storage_open sample_config [] (Ram ∅ ∅ [] 100 whole_frame) with
  | (e, _, opened, Some s) =>
      let '(e, committed, s) := transact s five_calls e in
      let '(e, first, s) := tr_raft_wal_storage_store_snapshot s 2 1 example_conf [1; 2; 3] e in
      let '(e, second, s) := tr_raft_wal_storage_store_snapshot s 3 1 example_conf [1; 2; 3; 4] e in
      ([opened; committed; first; second], e, s)
  | (e, _, opened, None) => ([opened], e, no_storage)
  end.

(** C36. Two snapshots of a part of the log in a row: both calls succeed, but
    the second removes the file of the first while the segments still hold the
    transaction that refers to it; from then on the log can neither be loaded
    nor opened. *)
Theorem second_snapshot_unreadable :
  let '(results, e, s) := two_snapshots in
  results = [SALTS_OK; SALTS_OK; SALTS_OK; SALTS_OK] /\
  snd (fst (tr_raft_wal_storage_load s e)) = SALTS_EPROTO /\
  let '(e, _, closed) := tr_raft_wal_storage_close s [wl_path_prefix s] e in
  closed = SALTS_OK /\ snd (fst (tr_raft_wal_storage_open sample_config [] e)) = SALTS_EPROTO.
Proof.
  assert ((let '(results, e, s) := two_snapshots in
    bool_decide (results = [SALTS_OK; SALTS_OK; SALTS_OK; SALTS_OK]) &&
    bool_decide (snd (fst (tr_raft_wal_storage_load s e)) = SALTS_EPROTO) &&
    let '(e, _, closed) := tr_raft_wal_storage_close s [wl_path_prefix s] e in
    bool_decide (closed = SALTS_OK) &&
    bool_decide (snd (fst (tr_raft_wal_storage_open sample_config [] e)) = SALTS_EPROTO)) = true) as Hrun
    by (vm_compute; reflexivity).
  destruct two_snapshots as [[results e] s].
  destruct (tr_raft_wal_storage_close _ _ _) as [[e' locks] closed].
  rewrite !andb_true_iff, !bool_decide_eq_true in Hrun. tauto.
Qed.

Section Room.
Context `{Os} `{Xxh3}.

(** When the log has no room for the transaction of a snapshot, the
    transaction stays open: the storage refuses to begin another one and to
    load. *)
Theorem snapshot_without_room_blocks (s : tr_raft_wal_storage) (e : os)
    leader_term committed_index retained_last_index payload
    (Hidle : wl_transaction_active s = false) (Hsound : wl_faulted s = false)
    (Hlength : Z.of_nat (length payload) < 2 ^ 32)
    (Hfits : 56 + Z.of_nat (length payload) <= wl_transaction_capacity s)
    (Hcapacity : wl_transaction_capacity s <= wl_segment_bytes s - 32)
    (Hfull : wl_segment_bytes s - wl_current_offset s < 56 + Z.of_nat (length payload))
    (Hlive : wl_current_segment s -64 wl_first_live_segment s = wl_max_live_segments s - 1) :
  exists s', commit_snapshot s leader_term committed_index retained_last_index payload e =
      (e, SALTS_ENOSPC, s') /\
    tr_wal_begin s' = (SALTS_EBUSY, s') /\
    tr_raft_wal_storage_load s' e = (e, SALTS_EBUSY, None).
Proof.
  unfold commit_snapshot. destruct (tr_wal_begin s) as [res s1] eqn:Hb.
  unfold tr_wal_begin in Hb. rewrite Hsound, Hidle in Hb. injection Hb as <- <-. cbn [ok].
  set (s1 := s <| wl_payload := [] |> <| wl_pending_term := _ |> <| wl_pending_voted_for := _ |>
               <| wl_pending_commit_index := _ |> <| wl_pending_last_log_index := _ |>
               <| wl_transaction_active := true |>).
  assert (tr_wal_append_operation s1 TR_WAL_OP_SNAPSHOT payload =
    (SALTS_OK, s1 <| wl_payload := operation_bytes TR_WAL_OP_SNAPSHOT payload |>)) as ->.
  { unfold tr_wal_append_operation. change (wl_transaction_active s1) with true.
    change (wl_faulted s1) with (wl_faulted s). rewrite Hsound. cbn [negb orb].
    change (wl_transaction_capacity s1) with (wl_transaction_capacity s).
    change (transaction_used s1) with 48. unfold TR_WAL_OPERATION_HEADER_SIZE, UINT32_MAX, UINT64_MAX.
    by replace (_ || _) with false by (symmetry; rewrite !orb_false_iff; lia). }
  cbn [ok]. set (s2 := s1 <| wl_payload := _ |>). set (s3 := s2 <| wl_pending_term := _ |>).
  set (s4 := if _ <? _ then _ else _). set (s5 := s4 <| wl_pending_commit_index := _ |> <| wl_pending_last_log_index := _ |>).
  assert (transaction_used s5 = 56 + Z.of_nat (length payload)) as Hused.
  { assert (wl_payload s5 = operation_bytes TR_WAL_OP_SNAPSHOT payload) as E
      by (unfold s5, s4; by destruct (_ <? _)).
    unfold transaction_used. rewrite E. unfold operation_bytes, TR_WAL_TRANSACTION_HEADER_SIZE.
    rewrite !length_app, length_wal_put_u32. cbn [length]. lia. }
  assert (tr_wal_commit s5 e = (e, SALTS_ENOSPC, s5)) as ->.
  { unfold tr_wal_commit. rewrite Hused.
    assert (wl_transaction_active s5 = true /\ wl_faulted s5 = false /\ wl_segment_bytes s5 = wl_segment_bytes s /\
      wl_current_offset s5 = wl_current_offset s /\ wl_current_segment s5 = wl_current_segment s /\
      wl_first_live_segment s5 = wl_first_live_segment s /\
      wl_max_live_segments s5 = wl_max_live_segments s) as (-> & -> & E1 & E2 & E3 & E4 & E5)
      by (unfold s5, s4; by destruct (_ <? _)).
    cbn [negb]. rewrite E1. unfold TR_WAL_SEGMENT_HEADER_SIZE. rewrite (proj2 (Z.ltb_ge _ _)) by lia.
    unfold rotate_segment. rewrite E1, E2, E3, E4, E5. rewrite (proj2 (Z.ltb_lt _ _)) by lia.
    rewrite Hlive, Z.leb_refl, orb_true_r. done. }
  exists s5. split; [done|].
  assert (wl_transaction_active s5 = true /\ wl_faulted s5 = false) as [Ha Hf]
    by (unfold s5, s4; by destruct (_ <? _)).
  unfold tr_wal_begin, tr_raft_wal_storage_load. by rewrite Ha, Hf.
Qed.
End Room.

(** A log of one segment, which is full. *)
Definition full_storage : tr_raft_wal_storage :=
  (blank_storage (WalConfig (bytes_of "db") 65536 4096 1 200 1000 true) 65536 4096)
    <| wl_first_live_segment := 1 |> <| wl_current_segment := 1 |> <| wl_current_offset := 65536 |>.

Lemma snapshot_without_room_blocks_witness :
  exists s', commit_snapshot full_storage 1 4 4 [7; 7] (blank_system 0) =
      (blank_system 0, SALTS_ENOSPC, s') /\
    tr_wal_begin s' = (SALTS_EBUSY, s') /\
    tr_raft_wal_storage_load s' (blank_system 0) = (blank_system 0, SALTS_EBUSY, None).
Proof.
  apply (snapshot_without_room_blocks full_storage (blank_system 0) 1 4 4 [7; 7]);
    vm_compute; congruence.
Defined.
