(* ===== verification/SnapshotReceive.v ===== *)
(** * What a receiver installs

    Whatever chunks arrive, a snapshot is installed only when it has been
    assembled from chunks of one transfer that follow each other from the first
    byte to the last and have the digest they announce. *)

From S2P Require Import Prelude Configuration Bytes Wire Digest SnapshotSender SnapshotReceiver.
From Stdlib Require Import ZArith Lia.
From stdpp Require Import base numbers list tactics.
Open Scope Z_scope.
Open Scope raft_scope.

(** ** What the callbacks do

    A snapshot as the callbacks see it. *)
Record snapshot_item := Item {
  it_leader_term : Z;
  it_index : Z;
  it_term : Z;
  it_configuration : tr_raft_conf;
  it_data : list Z
}.

Definition item_append (it : snapshot_item) (data : list Z) : snapshot_item :=
  Item (it_leader_term it) (it_index it) (it_term it) (it_configuration it)
    (it_data it ++ data).

(** The contract of the callbacks in [raft_snapshot_receiver.h] and
    [raft_snapshot_stream.h]: [installed] are the snapshots made visible so far
    and [staged] the one a sink has begun. Every callback may fail. A sink is
    begun when nothing is staged, written at the end of what is staged,
    committed when something is staged; nothing is said of other calls. *)
Class SnapshotWorld {W : Type} (config : tr_raft_snapshot_receiver_config W) := {
  installed : W -> list snapshot_item;
  staged : W -> option snapshot_item;
  install_law install w term index snapshot_term conf data w' result :
    rg_install config = Some install ->
    install w term index snapshot_term conf data = (w', result) ->
    staged w' = staged w /\
    installed w' = installed w ++
      (if ok result then [Item term index snapshot_term conf data] else []);
  begin_law begin w term index snapshot_term conf size w' result :
    sk_begin (rg_stream config) = Some begin -> staged w = None ->
    begin w term index snapshot_term conf size = (w', result) ->
    installed w' = installed w /\
    staged w' = if ok result then Some (Item term index snapshot_term conf []) else None;
  write_law write w it data w' result :
    sk_write (rg_stream config) = Some write -> staged w = Some it ->
    write w (Z.of_nat (length (it_data it))) data = (w', result) ->
    installed w' = installed w /\ (result = SALTS_OK -> staged w' = Some (item_append it data));
  commit_law commit w it w' result :
    sk_commit (rg_stream config) = Some commit -> staged w = Some it ->
    commit w = (w', result) ->
    installed w' = installed w ++ (if ok result then [it] else []) /\
    (result = SALTS_OK -> staged w' = None);
  abort_law abort w :
    sk_abort (rg_stream config) = Some abort ->
    installed (abort w) = installed w /\ staged (abort w) = None
}.

(** ** Assembly *)

(** What all chunks of a transfer have in common. *)
Definition chunk_id (c : tr_raft_snapshot_chunk) : Z * Z * Z * Z * Z * list Z :=
  (sc_from c, sc_term c, sc_snapshot_index c, sc_snapshot_term c, sc_snapshot_size c,
   sc_snapshot_digest c).

Definition chunks_bytes (cs : list tr_raft_snapshot_chunk) : list Z :=
  concat (sc_data <$> cs).

(** Each chunk starts where the one before it ends. *)
Fixpoint consecutive (offset : Z) (cs : list tr_raft_snapshot_chunk) : Prop :=
  match cs with
  | [] => True
  | c :: cs => sc_snapshot_offset c = offset /\ consecutive (offset + sc_data_length c) cs
  end.

(** [it] is assembled from the chunks [cs], the first of which is [c]. *)
Record assembled `{Sha256} (it : snapshot_item) (c : tr_raft_snapshot_chunk)
    (cs : list tr_raft_snapshot_chunk) : Prop := {
  as_first : head cs = Some c;
  as_ids : Forall (fun c' => chunk_id c' = chunk_id c) cs;
  as_offsets : consecutive 0 cs;
  as_data : it_data it = chunks_bytes cs;
  as_size : Z.of_nat (length (it_data it)) = sc_snapshot_size c;
  as_digest : sha256 (it_data it) = sc_snapshot_digest c;
  as_meta : it_leader_term it = sc_term c /\ it_index it = sc_snapshot_index c /\
            it_term it = sc_snapshot_term c /\ it_configuration it = sc_configuration c;
  as_configuration : tr_raft_conf_validate (it_configuration it) = SALTS_OK
}.

Lemma chunks_bytes_snoc cs c : chunks_bytes (cs ++ [c]) = chunks_bytes cs ++ sc_data c.
Proof. unfold chunks_bytes. rewrite fmap_app, concat_app. cbn. by rewrite app_nil_r. Qed.

Lemma consecutive_snoc offset cs c :
  consecutive offset cs ->
  sc_snapshot_offset c = offset + Z.of_nat (length (chunks_bytes cs)) ->
  consecutive offset (cs ++ [c]).
Proof.
  revert offset. induction cs as [|c0 cs IH]; intros offset; cbn.
  - intros _ ->. split; [unfold chunks_bytes; cbn; lia|done].
  - intros [-> Hcs] Hc. split; [done|]. apply IH; [done|]. rewrite Hc.
    unfold chunks_bytes, sc_data_length. cbn. rewrite length_app. lia.
Qed.

Lemma members_match_eq ms ns :
  length ms = length ns -> members_match ms ns = true -> ms = ns.
Proof.
  revert ns. induction ms as [|[a b] ms IH]; intros [|[a' b'] ns]; cbn; try done.
  intros Hlen Hm. rewrite !andb_true_iff in Hm. destruct Hm as [[H1 H2] H3].
  apply Z.eqb_eq in H1 as ->. apply Z.eqb_eq in H2 as ->. f_equal. apply IH; [lia|done].
Qed.

Section Receive.
Context {W : Type} `{Sha256Laws} (malloc : Z -> option (list Z)).
Context (config : tr_raft_snapshot_receiver_config W) `{!SnapshotWorld config}.
Context (Hmalloc : forall n block, malloc n = Some block -> length block = Z.to_nat n).

(** What creation has checked of the callbacks. *)
Definition callbacks_ok : Prop :=
  match sk_begin (rg_stream config) with
  | None => is_Some (rg_install config)
  | Some _ => is_Some (sk_write (rg_stream config)) /\ is_Some (sk_commit (rg_stream config)) /\
              is_Some (sk_abort (rg_stream config))
  end.
Context (Hcallbacks : callbacks_ok).

Definition streaming : bool := negb (is_null (sk_begin (rg_stream config))).

Definition receiver_id (r : tr_raft_snapshot_receiver W) : Z * Z * Z * Z * Z * list Z :=
  (rv_leader_id r, rv_leader_term r, rv_snapshot_index r, rv_snapshot_term r,
   rv_snapshot_size r, rv_digest r).

Definition receiver_item (r : tr_raft_snapshot_receiver W) (data : list Z) : snapshot_item :=
  Item (rv_leader_term r) (rv_snapshot_index r) (rv_snapshot_term r) (rv_configuration r) data.

(** A transfer in progress, [cs] its chunks so far. *)
Record assembling (r : tr_raft_snapshot_receiver W) (w : W)
    (cs : list tr_raft_snapshot_chunk) : Prop := {
  ag_config : rv_config r = config;
  ag_active : rv_active r = true;
  ag_completed : rv_completed r = false;
  ag_started : rv_stream_started r = streaming;
  ag_ids : Forall (fun c => chunk_id c = receiver_id r) cs;
  ag_first : forall c, head cs = Some c -> sc_configuration c = rv_configuration r;
  ag_conf : tr_raft_conf_validate (rv_configuration r) = SALTS_OK;
  ag_offsets : consecutive 0 cs;
  ag_next : rv_next_offset r = Z.of_nat (length (chunks_bytes cs));
  ag_size : rv_next_offset r <= rv_snapshot_size r < 2 ^ 64;
  ag_sha : sha_holds (rv_sha256 r) (chunks_bytes cs);
  ag_staged : staged w = if streaming then Some (receiver_item r (chunks_bytes cs)) else None;
  ag_data : streaming = false ->
    Z.of_nat (length (default [] (rv_data r))) = rv_snapshot_size r /\
    take (length (chunks_bytes cs)) (default [] (rv_data r)) = chunks_bytes cs
}.

(** No transfer in progress. *)
Record idle (r : tr_raft_snapshot_receiver W) (w : W) : Prop := {
  id_config : rv_config r = config;
  id_started : rv_stream_started r = false;
  id_staged : staged w = None;
  id_state : rv_active r = false \/ rv_completed r = true
}.

(** The state of a receiver that has been handed the chunks [history]. *)
Definition receiver_ok (r : tr_raft_snapshot_receiver W) (w : W)
    (history : list tr_raft_snapshot_chunk) : Prop :=
  idle r w \/ exists cs, sublist cs history /\ assembling r w cs.

(** [clear_transfer] can be called. *)
Definition clearable (r : tr_raft_snapshot_receiver W) (w : W) : Prop :=
  rv_config r = config /\
  (rv_stream_started r = true -> streaming = true) /\
  (rv_stream_started r = false -> staged w = None).

Lemma clear_ok r w :
  clearable r w ->
  let '(r', w') := tr_snapshot_receiver_clear_transfer r w in
  idle r' w' /\ rv_active r' = false /\ rv_sha256 r' = rv_sha256 r /\
  rv_next_offset r' = 0 /\ rv_completed r' = false /\ installed w' = installed w.
Proof.
  intros (Hc & Hs & Hn). unfold tr_snapshot_receiver_clear_transfer, sink_abort.
  destruct (rv_stream_started r) eqn:Hst; cbn [rv_sha256 set_field]; split_and!; try done.
  all: cbn; rewrite ?Hst, ?Hc.
  all: try (split; cbn; try done; auto).
  all: specialize (Hs eq_refl); unfold streaming, callbacks_ok in *;
    destruct (sk_begin (rg_stream config)); [|done];
    destruct Hcallbacks as (_ & _ & [abort Habort]); rewrite Habort; by apply abort_law.
Qed.

Lemma assembling_clearable r w cs : assembling r w cs -> clearable r w.
Proof.
  intros Ha. pose proof (ag_started _ _ _ Ha) as Hs. split_and!.
  - apply (ag_config _ _ _ Ha).
  - by intros <-.
  - rewrite (ag_staged _ _ _ Ha), Hs. by intros ->.
Qed.

Lemma idle_clearable r w : idle r w -> clearable r w.
Proof. intros [? Hs ? ?]. split_and!; [done| |done]. by rewrite Hs. Qed.

(** The chunk continues the transfer. *)
Record continues (r : tr_raft_snapshot_receiver W) (c : tr_raft_snapshot_chunk) : Prop := {
  ct_id : chunk_id c = receiver_id r;
  ct_first : sc_snapshot_offset c = 0 -> sc_configuration c = rv_configuration r;
  ct_next : sc_snapshot_offset c = rv_next_offset r;
  ct_fits : rv_next_offset r + sc_data_length c <= rv_snapshot_size r
}.

(** The state after the bytes of a chunk, but for the offset. *)
Definition advanced (r : tr_raft_snapshot_receiver W) (c : tr_raft_snapshot_chunk)
    : tr_raft_snapshot_receiver W :=
  r <| rv_next_offset := rv_next_offset r +64 sc_data_length c |>.

Lemma assembling_snoc r w cs c r1 w1 :
  assembling r w cs -> continues r c ->
  rv_config r1 = config -> rv_active r1 = true -> rv_completed r1 = false ->
  rv_stream_started r1 = streaming -> receiver_id r1 = receiver_id r ->
  rv_configuration r1 = rv_configuration r -> rv_next_offset r1 = rv_next_offset r ->
  sha_holds (rv_sha256 r1) (chunks_bytes (cs ++ [c])) ->
  staged w1 = (if streaming then Some (receiver_item r (chunks_bytes (cs ++ [c]))) else None) ->
  (streaming = false ->
   Z.of_nat (length (default [] (rv_data r1))) = rv_snapshot_size r /\
   take (length (chunks_bytes (cs ++ [c]))) (default [] (rv_data r1)) =
   chunks_bytes (cs ++ [c])) ->
  assembling (advanced r1 c) w1 (cs ++ [c]).
Proof.
  intros Ha Hc H1 H2 H3 H4 H5 H6 H7 H8 H9 H10. unfold receiver_id in H5.
  injection H5 as E1 E2 E3 E4 E5 E6.
  pose proof (ag_next _ _ _ Ha) as Hn. pose proof (ag_size _ _ _ Ha) as Hsz.
  pose proof (ct_fits _ _ Hc) as Hf.
  assert (0 <= sc_data_length c) by (unfold sc_data_length; lia).
  split; cbn; try done.
  - apply Forall_app. split.
    + eapply list.Forall_impl; [apply (ag_ids _ _ _ Ha)|]. intros x ->.
      unfold receiver_id. cbn. congruence.
    + constructor; [|done]. rewrite (ct_id _ _ Hc). unfold receiver_id. cbn. congruence.
  - intros c0. rewrite H6. destruct cs as [|c1 cs]; cbn; intros [= <-].
    + apply (ct_first _ _ Hc). rewrite (ct_next _ _ Hc), Hn. done.
    + by apply (ag_first _ _ _ Ha).
  - rewrite H6. apply (ag_conf _ _ _ Ha).
  - apply consecutive_snoc; [apply (ag_offsets _ _ _ Ha)|]. rewrite (ct_next _ _ Hc). lia.
  - rewrite H7, u64_small by lia. rewrite chunks_bytes_snoc, length_app. unfold sc_data_length. lia.
  - rewrite H7, E5, u64_small by lia. lia.
  - rewrite H9. unfold receiver_item. cbn. by rewrite E2, E3, E4, H6.
  - rewrite E5. done.
Qed.

Lemma store_at_prefix (n : nat) (bytes block : list Z) :
  (n + length bytes <= length block)%nat ->
  length (store n bytes block) = length block /\
  take (n + length bytes) (store n bytes block) = take n block ++ bytes.
Proof.
  intros Hn. unfold store. split.
  - rewrite !length_app, length_take, length_drop. lia.
  - rewrite app_assoc, take_app_le by (rewrite length_app, length_take; lia).
    apply take_ge. rewrite length_app, length_take. lia.
Qed.

Lemma absorb_ok r w cs c :
  assembling r w cs -> continues r c ->
  let '(result, r1, w1) := absorb r c w in
  installed w1 = installed w /\
  (result = SALTS_OK -> assembling (advanced r1 c) w1 (cs ++ [c])) /\
  clearable r1 w1 /\ rv_next_offset r1 = rv_next_offset r /\ receiver_id r1 = receiver_id r.
Proof.
  intros Ha Hc. pose proof (assembling_clearable _ _ _ Ha) as (Hcf & Hs1 & Hs2).
  pose proof (ag_started _ _ _ Ha) as Hst.
  unfold absorb. destruct (sc_data_length c =? 0) eqn:Hz; cbn [negb].
  { assert (sc_data c = []) as Hd.
    { apply Z.eqb_eq in Hz. unfold sc_data_length in Hz. by destruct (sc_data c). }
    split_and!; try done. intros _.
    apply (assembling_snoc r w cs); try done; try apply Ha;
      rewrite chunks_bytes_snoc, Hd, app_nil_r; apply Ha. }
  destruct (cmeta_sha256_stream_update _ _) as [u sha] eqn:Hu.
  destruct u as [|e]; [|by split_and!].
  pose proof (sha_update_holds _ _ _ _ (ag_sha _ _ _ Ha) Hu) as Hsha.
  rewrite <- chunks_bytes_snoc in Hsha.
  change (rv_stream_started (r <| rv_sha256 := sha |>)) with (rv_stream_started r).
  rewrite Hst. destruct streaming eqn:Hstr.
  - assert (is_Some (sk_write (rg_stream config))) as [write Hwrite].
    { unfold streaming, callbacks_ok in *. destruct (sk_begin _); [|done]. apply Hcallbacks. }
    unfold sink_write. cbn [rv_config set_field set_rv_sha256].
    change (rv_config (r <| rv_sha256 := sha |>)) with (rv_config r).
    change (rv_next_offset (r <| rv_sha256 := sha |>)) with (rv_next_offset r).
    rewrite Hcf, Hwrite. pose proof (ag_staged _ _ _ Ha) as Hsg. rewrite Hstr in Hsg.
    destruct (write w (rv_next_offset r) (sc_data c)) as [w1 result] eqn:Hw.
    rewrite (ag_next _ _ _ Ha) in Hw.
    change (chunks_bytes cs) with (it_data (receiver_item r (chunks_bytes cs))) in Hw.
    destruct (write_law _ _ _ _ _ _ Hwrite Hsg Hw) as [W1 W2].
    split_and!; try done.
    + intros ->. apply (assembling_snoc r w cs); try done; try apply Ha; [|congruence].
      rewrite W2, Hstr by done. unfold item_append. cbn. by rewrite chunks_bytes_snoc.
    + split_and!; try done. cbn. congruence.
  - split_and!; try done; [intros _|].
    2: { split_and!; [done|by cbn; rewrite Hst|done]. }
    destruct (ag_data _ _ _ Ha Hstr) as [D1 D2].
    pose proof (ag_next _ _ _ Ha) as Hn. pose proof (ct_fits _ _ Hc) as Hf.
    unfold sc_data_length in Hf.
    destruct (store_at_prefix (length (chunks_bytes cs)) (sc_data c) (default [] (rv_data r)))
      as [S1 S2]; [lia|].
    apply (assembling_snoc r w cs); try done; try apply Ha.
    { rewrite (ag_staged _ _ _ Ha). by rewrite Hstr. }
    intros _. cbn [default rv_data set_field]. cbn. rewrite Hn, Nat2Z.id.
    split; [lia|]. rewrite chunks_bytes_snoc, length_app, S2. by rewrite D2.
Qed.

(** What a call promises of the state before it, with the chunks handed over
    so far. *)
Definition outcome (w : W) (history : list tr_raft_snapshot_chunk) (res : receive_result) : Prop :=
  let '(result, r', w', ack, inst) := res in
  receiver_ok r' w' history /\
  sa_accepted ack = ok result /\
  (sa_accepted ack = true -> sa_next_offset ack = rv_next_offset r') /\
  if inst : bool
  then exists it c cs, installed w' = installed w ++ [it] /\ sublist cs history /\
                       assembled it c cs
  else installed w' = installed w.

Lemma rejected_outcome r w history result (ack : tr_raft_snapshot_receiver W -> _) :
  clearable r w -> result <> SALTS_OK -> (forall r', sa_accepted (ack r') = false) ->
  outcome w history
    (let '(r', w') := tr_snapshot_receiver_clear_transfer r w in
     (result, r', w', ack r', false)).
Proof.
  intros Hc Hr Hack. pose proof (clear_ok r w Hc) as Hclear.
  destruct (tr_snapshot_receiver_clear_transfer r w) as [r' w'].
  destruct Hclear as (Hi & _ & _ & _ & _ & Hw). cbn. rewrite Hack.
  split_and!; try done; [by left|]. by destruct result.
Qed.

Lemma outcome_from w w1 history res :
  installed w1 = installed w -> outcome w1 history res -> outcome w history res.
Proof. unfold outcome. destruct res as [[[[? ?] ?] ?] ?]. by intros ->. Qed.

Lemma assembled_complete r w c cs :
  assembling r w (cs ++ [c]) -> rv_next_offset r = rv_snapshot_size r ->
  sha256 (chunks_bytes (cs ++ [c])) = rv_digest r ->
  exists c0, assembled (receiver_item r (chunks_bytes (cs ++ [c]))) c0 (cs ++ [c]).
Proof.
  intros Ha Hn Hd. destruct (cs ++ [c]) as [|c0 rest] eqn:Hcs; [by destruct cs|]. exists c0.
  pose proof (ag_ids _ _ _ Ha) as Hids. apply Forall_cons_1 in Hids as [Hid Hids].
  pose proof Hid as Hid'. unfold chunk_id, receiver_id in Hid'. injection Hid' as E1 E2 E3 E4 E5 E6.
  split; cbn [it_data receiver_item it_leader_term it_index it_term it_configuration].
  - done.
  - constructor; [done|]. eapply list.Forall_impl; [exact Hids|]. cbn. congruence.
  - apply Ha.
  - done.
  - pose proof (ag_next _ _ _ Ha). congruence.
  - congruence.
  - split_and!; try done. symmetry. by apply (ag_first _ _ _ Ha).
  - apply Ha.
Qed.

Lemma finish_ok r w c cs history :
  assembling r w (cs ++ [c]) -> sublist (cs ++ [c]) history ->
  rv_next_offset r = rv_snapshot_size r ->
  outcome w history (finish_transfer r c w).
Proof.
  intros Ha Hsub Hn. unfold finish_transfer.
  destruct (cmeta_sha256_stream_finish (rv_sha256 r)) as [[result sha] digest] eqn:Hf.
  pose proof (assembling_clearable _ _ _ Ha) as Hclear.
  destruct (failed result || _) eqn:Hbad; [by apply (rejected_outcome _ _ _ _ (fun r' => tr_snapshot_receiver_prepare_ack r' c 0 false))|].
  apply orb_false_iff in Hbad as [Hres Hdig]. destruct result as [|e]; [|done].
  rewrite negb_false_iff, bool_decide_eq_true in Hdig. cbn in Hdig.
  rewrite (sha_finish_digest _ _ _ _ (ag_sha _ _ _ Ha) Hf) in Hdig.
  destruct (assembled_complete r w c cs Ha Hn Hdig) as [c0 Hass].
  change (rv_stream_started (r <| rv_sha256 := sha |>)) with (rv_stream_started r).
  pose proof (ag_started _ _ _ Ha) as Hst. pose proof (ag_config _ _ _ Ha) as Hcf.
  pose proof (ag_staged _ _ _ Ha) as Hsg.
  assert (exists w1 result,
    (if rv_stream_started r then sink_commit (r <| rv_sha256 := sha |>) w
     else call_install (r <| rv_sha256 := sha |>) w) = (w1, result) /\
    installed w1 = installed w ++
      (if ok result then [receiver_item r (chunks_bytes (cs ++ [c]))] else []) /\
    (result = SALTS_OK -> staged w1 = None) /\
    (rv_stream_started r = false -> staged w1 = None)) as (w1 & result & Hcall & W1 & W2 & W3).
  { rewrite Hst. unfold callbacks_ok, streaming in *. unfold sink_commit, call_install.
    cbn [rv_config set_field set_rv_sha256].
    change (rv_config (r <| rv_sha256 := sha |>)) with (rv_config r). rewrite Hcf.
    destruct (sk_begin (rg_stream config)) eqn:Hb; cbn [is_null negb] in *.
    - destruct Hcallbacks as (_ & [commit Hcommit] & _). rewrite Hcommit.
      destruct (commit w) as [w1 result] eqn:Hw. exists w1, result.
      destruct (commit_law _ _ _ _ _ Hcommit Hsg Hw) as [? ?]. done.
    - destruct Hcallbacks as [install Hi]. rewrite Hi.
      destruct (ag_data _ _ _ Ha) as [D1 D2]; [unfold streaming; by rewrite Hb|].
      cbn. destruct (install _ _ _ _ _ _) as [w1 result] eqn:Hw. exists w1, result.
      destruct (install_law _ _ _ _ _ _ _ _ _ Hi Hw) as [I1 I2].
      pose proof (ag_next _ _ _ Ha).
      assert (default [] (rv_data r) = chunks_bytes (cs ++ [c])) as Hd.
      { rewrite <- D2. symmetry. apply take_ge. lia. }
      rewrite I1, I2, Hd. done. }
  rewrite Hcall. destruct result as [|e].
  - cbn. split_and!; try done.
    + left. split; cbn; try done; [by apply W2|by right].
    + exists (receiver_item r (chunks_bytes (cs ++ [c]))), c0, (cs ++ [c]). done.
  - pose proof (rejected_outcome (r <| rv_sha256 := sha |>) w1 history (SALTS_ERR e)
      (fun r' => tr_snapshot_receiver_prepare_ack r' c 0 false)) as Hrej.
    unfold outcome in *.
    destruct (tr_snapshot_receiver_clear_transfer (r <| rv_sha256 := sha |>) w1) as [r2 w2] eqn:E.
    cbn in W1. rewrite app_nil_r in W1. rewrite <- W1. apply Hrej; [|done..].
    split_and!; try done. cbn. by rewrite Hst.
Qed.

(** The words of a chunk are in range. *)
Definition chunk_in_range (c : tr_raft_snapshot_chunk) : Prop :=
  0 <= sc_snapshot_offset c /\ 0 <= sc_snapshot_size c < 2 ^ 64.

Record chunk_ok (c : tr_raft_snapshot_chunk) : Prop := {
  ck_range : chunk_in_range c;
  ck_fits : sc_snapshot_offset c + sc_data_length c <= sc_snapshot_size c;
  ck_done : sc_done c = (sc_snapshot_offset c + sc_data_length c =? sc_snapshot_size c);
  ck_first : sc_snapshot_offset c = 0 -> tr_raft_conf_validate (sc_configuration c) = SALTS_OK
}.

Lemma chunk_valid_ok (r : tr_raft_snapshot_receiver W) c :
  chunk_in_range c -> tr_snapshot_receiver_chunk_valid r c = true -> chunk_ok c.
Proof.
  intros [Ho Hs] Hv. unfold tr_snapshot_receiver_chunk_valid in Hv.
  destruct (_ || _) eqn:Hb in Hv; [done|]. rewrite !orb_false_iff in Hb.
  destruct Hb as [[[[[_ H1] H2] H3] H4] _]. apply Z.ltb_ge in H1, H3.
  rewrite u64_small in H3 by lia.
  assert (0 <= sc_data_length c) by (unfold sc_data_length; lia).
  apply andb_true_iff in Hv as [Hd _]. apply Bool.eqb_prop in Hd.
  split; [done|lia| |].
  - by rewrite u64_small in Hd by lia.
  - intros Hz. rewrite Hz in H4. apply orb_false_iff in H4 as [_ H4].
    unfold failed, ok in H4. by destruct (tr_raft_conf_validate _).
Qed.

Lemma identity_matches_ok r c :
  tr_snapshot_receiver_identity_matches r c = true ->
  chunk_id c = receiver_id r /\
  (sc_snapshot_offset c = 0 -> sc_configuration c = rv_configuration r).
Proof.
  unfold tr_snapshot_receiver_identity_matches. destruct (_ && _) eqn:Hb; [done|].
  rewrite !andb_true_iff, !Z.eqb_eq, bool_decide_eq_true.
  intros [[[[[E1 E2] E3] E4] E5] E6]. split.
  - unfold chunk_id, receiver_id. congruence.
  - intros Hz. rewrite Hz in Hb. cbn in Hb. rewrite !orb_false_iff, !negb_false_iff, !Z.eqb_eq in Hb.
    destruct Hb as [[[[_ H1] H2] H3] H4]. unfold conf_member_count in H3.
    apply members_match_eq in H4; [|lia].
    destruct (sc_configuration c), (rv_configuration r). cbn in *. congruence.
Qed.

Lemma receiver_ok_weaken r w history c :
  receiver_ok r w history -> receiver_ok r w (history ++ [c]).
Proof.
  intros [?|(cs & Hs & ?)]; [by left|]. right. exists cs. split; [|done].
  by apply sublist_inserts_r.
Qed.

Lemma receiver_ok_clearable r w history : receiver_ok r w history -> clearable r w.
Proof.
  intros [?|(cs & _ & ?)]; [by apply idle_clearable|by eapply assembling_clearable].
Qed.

Lemma start_buffer_ok r c data :
  rv_config r = config -> chunk_in_range c -> start_buffer malloc r c = (SALTS_OK, data) ->
  streaming = false -> Z.of_nat (length (default [] data)) = sc_snapshot_size c.
Proof.
  intros Hc [_ Hs] Hb Hn. unfold start_buffer, streaming in *. rewrite Hc in Hb.
  apply negb_false_iff in Hn. rewrite Hn in Hb. cbn [andb] in Hb.
  destruct (sc_snapshot_size c =? 0) eqn:Hz; cbn [negb] in Hb.
  { injection Hb as <-. apply Z.eqb_eq in Hz. by rewrite Hz. }
  destruct (_ || _); [done|]. destruct (malloc (sc_snapshot_size c)) eqn:Hm; [|done].
  injection Hb as <-. apply Hmalloc in Hm. cbn. rewrite Hm. lia.
Qed.

Lemma start_ok r w c history :
  receiver_ok r w history -> chunk_in_range c ->
  tr_raft_conf_validate (sc_configuration c) = SALTS_OK ->
  let '(result, r', w') := tr_snapshot_receiver_start malloc r c w in
  installed w' = installed w /\
  if ok result
  then assembling r' w' [] /\ receiver_id r' = chunk_id c /\
       rv_configuration r' = sc_configuration c /\ rv_next_offset r' = 0
  else receiver_ok r' w' history.
Proof.
  intros Hr Hrange Hconf. unfold tr_snapshot_receiver_start.
  destruct (start_buffer malloc r c) as [[|e] data] eqn:Hbuf; [|done].
  pose proof (receiver_ok_clearable _ _ _ Hr) as Hcl.
  pose proof (start_buffer_ok r c data (proj1 Hcl) Hrange Hbuf) as Hdata.
  pose proof (clear_ok r w Hcl) as Hclear.
  destruct (tr_snapshot_receiver_clear_transfer r w) as [r1 w1].
  destruct Hclear as ([I1 I2 I3 I4] & C1 & C2 & C3 & C4 & C5).
  set (r2 := r1 <| rv_leader_id := _ |> <| rv_leader_term := _ |> <| rv_snapshot_index := _ |>
    <| rv_snapshot_term := _ |> <| rv_configuration := _ |> <| rv_snapshot_size := _ |>
    <| rv_digest := _ |> <| rv_data := _ |> <| rv_active := _ |> <| rv_completed := _ |>).
  destruct (cmeta_sha256_stream_reset (rv_sha256 r2)) as [result sha] eqn:Hreset.
  assert (clearable (r2 <| rv_sha256 := sha |>) w1) as Hcl2.
  { split_and!; [done| |done]. cbn. by rewrite I2. }
  destruct result as [|e].
  2: { pose proof (clear_ok _ _ Hcl2) as Hclear.
       destruct (tr_snapshot_receiver_clear_transfer _ w1) as [r3 w3].
       destruct Hclear as (Hi & _ & _ & _ & _ & Hw). split; [congruence|by left]. }
  pose proof (sha_reset_holds _ _ Hreset) as Hsha.
  change (rv_config (r2 <| rv_sha256 := sha |>)) with (rv_config r1). rewrite I1.
  destruct Hrange as [_ Hsize].
  destruct (sk_begin (rg_stream config)) as [begin|] eqn:Hb.
  - assert (streaming = true) as Hstr by (unfold streaming; by rewrite Hb).
    cbn -[tr_snapshot_receiver_clear_transfer].
    destruct (begin w1 (sc_term c) (sc_snapshot_index c) (sc_snapshot_term c)
                (sc_configuration c) (sc_snapshot_size c)) as [w2 result] eqn:Hw.
    destruct (begin_law _ _ _ _ _ _ _ _ _ Hb I3 Hw) as [B1 B2].
    destruct result as [|e].
    + split; [congruence|]. cbn -[chunk_id] in B2 |- *. split_and!; try done.
      split; cbn; try done.
      * rewrite C3. lia.
      * rewrite B2, Hstr. done.
      * by rewrite Hstr.
    + cbn in B2. assert (clearable (r2 <| rv_sha256 := sha |>) w2) as Hcl3.
      { split_and!; [done| |done]. cbn. by rewrite I2. }
      pose proof (clear_ok _ _ Hcl3) as Hclear. subst r2. cbn -[tr_snapshot_receiver_clear_transfer] in Hclear.
      destruct (tr_snapshot_receiver_clear_transfer _ w2) as [r3 w3].
      destruct Hclear as (Hi & _ & _ & _ & _ & Hw3). split; [congruence|by left].
  - assert (streaming = false) as Hstr by (unfold streaming; by rewrite Hb).
    split; [done|]. cbn -[chunk_id]. split_and!; try done.
    split; cbn; try done.
    + by rewrite Hstr.
    + rewrite C3. lia.
    + by rewrite Hstr.
    + intros _. split; [by apply Hdata|done].
Qed.

Lemma receive_ok r w c cs history :
  assembling r w cs -> sublist cs history -> chunk_ok c -> chunk_id c = receiver_id r ->
  (sc_snapshot_offset c = 0 -> sc_configuration c = rv_configuration r) ->
  outcome w (history ++ [c]) (receive r c w).
Proof.
  intros Ha Hsub Hck Hid Hfirst.
  assert (receiver_ok r w (history ++ [c])) as Hr.
  { apply receiver_ok_weaken. right. by exists cs. }
  unfold receive. rewrite (ag_completed _ _ _ Ha).
  destruct (sc_snapshot_offset c <? rv_next_offset r) eqn:Hlt; [by cbn|].
  destruct (sc_snapshot_offset c =? rv_next_offset r) eqn:Heq; cbn [negb]; [|by cbn].
  apply Z.eqb_eq in Heq. pose proof Hid as Hid'. unfold chunk_id, receiver_id in Hid'.
  injection Hid' as _ _ _ _ E5 _.
  assert (continues r c) as Hc.
  { split; try done. pose proof (ck_fits _ Hck). lia. }
  pose proof (absorb_ok r w cs c Ha Hc) as Habs.
  destruct (absorb r c w) as [[result r1] w1]. destruct Habs as (A1 & A2 & A3 & A4 & A5).
  assert (sublist (cs ++ [c]) (history ++ [c])) as Hsub' by (by apply sublist_app).
  destruct result as [|e].
  - specialize (A2 eq_refl). apply (outcome_from w w1); [done|]. change (_ <| rv_next_offset := _ |>) with (advanced r1 c).
    destruct (sc_done c) eqn:Hdone; cbn [negb].
    + apply (finish_ok _ _ c cs); [done..|].
      pose proof (ck_done _ Hck) as Hd. rewrite Hdone in Hd. symmetry in Hd. apply Z.eqb_eq in Hd.
      pose proof (ag_size _ _ _ A2). unfold receiver_id in A5. injection A5 as _ _ _ _ F5 _.
      pose proof (ck_range _ Hck) as [_ ?]. cbn. rewrite A4, u64_small by lia. lia.
    + cbn. split_and!; try done. right. by exists (cs ++ [c]).
  - apply (outcome_from w w1); [done|].
    by apply (rejected_outcome r1 w1 _ (SALTS_ERR e)
                (fun _ => tr_snapshot_receiver_prepare_ack r c 0 false)).
Qed.

Lemma handle_ok r w c history :
  receiver_ok r w history -> chunk_in_range c ->
  outcome w (history ++ [c]) (tr_raft_snapshot_receiver_handle malloc r c w).
Proof.
  intros Hr Hrange. pose proof (receiver_ok_weaken _ _ _ c Hr) as Hr'.
  unfold tr_raft_snapshot_receiver_handle.
  destruct (tr_snapshot_receiver_chunk_valid r c) eqn:Hv; cbn [negb]; [|by cbn].
  pose proof (chunk_valid_ok r c Hrange Hv) as Hck.
  assert (sc_snapshot_offset c = 0 ->
    outcome w (history ++ [c])
      match tr_snapshot_receiver_start malloc r c w with
      | (SALTS_OK, r1, w1) => receive r1 c w1
      | (SALTS_ERR _ as result, r1, w1) =>
          (result, r1, w1, tr_snapshot_receiver_prepare_ack r c 0 false, false)
      end) as Hstart.
  { intros Hz. pose proof (start_ok r w c history Hr Hrange (ck_first _ Hck Hz)) as Hs.
    destruct (tr_snapshot_receiver_start malloc r c w) as [[[|e] r1] w1];
      destruct Hs as [Hw Hs]; apply (outcome_from w w1); try done.
    - destruct Hs as (Ha & Hid & Hcf & _). apply (receive_ok _ _ c []); try done.
      apply sublist_nil_l.
    - cbn. split_and!; try done. by apply receiver_ok_weaken. }
  destruct (rv_active r) eqn:Hact; cbn [negb].
  2: { destruct (sc_snapshot_offset c =? 0) eqn:Hz; cbn [negb]; [|by cbn].
       apply Hstart. by apply Z.eqb_eq. }
  destruct (tr_snapshot_receiver_identity_matches r c) eqn:Hm; cbn [negb].
  - apply identity_matches_ok in Hm as [Hid Hcf]. destruct Hr as [Hi|(cs & Hsub & Ha)].
    + destruct (id_state _ _ Hi) as [Hx|Hcomp]; [congruence|]. unfold receive. rewrite Hcomp. by cbn.
    + by apply (receive_ok _ _ c cs).
  - destruct (_ || _ || _) eqn:Hb; [by cbn|]. rewrite !orb_false_iff in Hb.
    destruct Hb as [[Hz _] _]. apply negb_false_iff, Z.eqb_eq in Hz. by apply Hstart.
Qed.

(** ** Runs *)

Inductive receiver_op :=
| Handle (c : tr_raft_snapshot_chunk)
| Reset.

Definition op_chunks (ops : list receiver_op) : list tr_raft_snapshot_chunk :=
  omap (fun op => match op with Handle c => Some c | Reset => None end) ops.

Fixpoint receiver_run (r : tr_raft_snapshot_receiver W) (w : W) (ops : list receiver_op)
    : tr_raft_snapshot_receiver W * W :=
  match ops with
  | [] => (r, w)
  | Handle c :: ops =>
      let '(_, r, w, _, _) := tr_raft_snapshot_receiver_handle malloc r c w in
      receiver_run r w ops
  | Reset :: ops =>
      let '(r, w) := tr_raft_snapshot_receiver_reset r w in receiver_run r w ops
  end.

Lemma receiver_run_ok r w history ops :
  receiver_ok r w history -> Forall chunk_in_range (op_chunks ops) ->
  let '(r', w') := receiver_run r w ops in
  receiver_ok r' w' (history ++ op_chunks ops) /\
  exists items, installed w' = installed w ++ items /\
    Forall (fun it => exists c cs, sublist cs (history ++ op_chunks ops) /\ assembled it c cs) items.
Proof.
  revert r w history. induction ops as [|op ops IH]; intros r w history Hr Hops.
  { cbn. rewrite app_nil_r. split; [done|]. exists []. by rewrite app_nil_r. }
  destruct op as [c|].
  - cbn [op_chunks omap list_omap] in Hops |- *. apply Forall_cons_1 in Hops as [Hc Hops].
    cbn [receiver_run]. pose proof (handle_ok r w c history Hr Hc) as Ho.
    destruct (tr_raft_snapshot_receiver_handle malloc r c w) as [[[[result r1] w1] ack] inst].
    destruct Ho as (Hr1 & _ & _ & Hinst). specialize (IH r1 w1 (history ++ [c]) Hr1 Hops).
    destruct (receiver_run r1 w1 ops) as [r' w']. rewrite <- app_assoc in IH.
    destruct IH as (? & items & E & F). split; [done|]. destruct inst.
    + destruct Hinst as (it & c0 & cs & E1 & Hs & Has). exists (it :: items).
      rewrite E, E1, <- app_assoc. split; [done|]. constructor; [|done]. exists c0, cs.
      split; [|done]. change (history ++ c :: ?l) with (history ++ [c] ++ l).
      rewrite app_assoc. by apply sublist_inserts_r.
    + exists items. by rewrite E, Hinst.
  - cbn [receiver_run]. unfold tr_raft_snapshot_receiver_reset.
    pose proof (clear_ok r w (receiver_ok_clearable _ _ _ Hr)) as Hclear.
    destruct (tr_snapshot_receiver_clear_transfer r w) as [r1 w1].
    destruct Hclear as (Hi & _ & _ & _ & _ & Hw). specialize (IH r1 w1 history (or_introl Hi) Hops).
    destruct (receiver_run r1 w1 ops) as [r' w']. by rewrite <- Hw.
Qed.
End Receive.

Lemma create_idle {W : Type} `{Sha256Laws} (config : tr_raft_snapshot_receiver_config W)
    `{!SnapshotWorld config} allocated sha r w :
  tr_raft_snapshot_receiver_create config allocated sha = (SALTS_OK, Some r) ->
  staged w = None -> callbacks_ok config /\ idle config r w /\ rv_active r = false.
Proof.
  intros Hc Hw. unfold tr_raft_snapshot_receiver_create in Hc.
  destruct (_ || _) in Hc; [done|]. destruct (Bool.eqb _ _) eqn:Heq in Hc; [done|].
  destruct (_ && _) in Hc; [done|]. destruct (_ && _) eqn:Hs in Hc; [done|].
  destruct allocated; [|done]. destruct sha as [[|e] sha]; [|done]. injection Hc as <-.
  split; [|by split; [split; cbn; auto|]]. unfold callbacks_ok.
  destruct (sk_begin (rg_stream config)).
  - cbn in Hs. rewrite !orb_false_iff in Hs. destruct Hs as [[[_ H1] H2] H3].
    by destruct (sk_write _), (sk_commit _), (sk_abort _).
  - by destruct (rg_install config).
Qed.

Lemma create_ok {W : Type} `{Sha256Laws} (config : tr_raft_snapshot_receiver_config W)
    `{!SnapshotWorld config} allocated sha r w history :
  tr_raft_snapshot_receiver_create config allocated sha = (SALTS_OK, Some r) ->
  staged w = None -> callbacks_ok config /\ receiver_ok config r w history.
Proof.
  intros Hc Hw. destruct (create_idle config allocated sha r w Hc Hw) as (? & ? & _).
  split; [done|by left].
Qed.

(** C17. Whatever chunks a receiver is handed since its creation, in whatever
    order, from whichever nodes, with resets between them and with callbacks
    and allocations that may fail: every snapshot made visible is the
    concatenation of chunks that were handed over in this order, all of one
    transfer, each starting where the one before it ends, from the first byte
    to the announced size; the SHA-256 digest of its bytes is the announced
    one, and its terms, its index and its valid configuration are those of the
    first chunk. *)
Theorem receiver_sound {W : Type} `{Sha256Laws} (malloc : Z -> option (list Z))
    (config : tr_raft_snapshot_receiver_config W) `{!SnapshotWorld config}
    (allocated : bool) (sha : status * sha_stream) (r r' : tr_raft_snapshot_receiver W)
    (w w' : W) (ops : list receiver_op) :
  (forall n block, malloc n = Some block -> length block = Z.to_nat n) ->
  tr_raft_snapshot_receiver_create config allocated sha = (SALTS_OK, Some r) ->
  staged w = None -> Forall chunk_in_range (op_chunks ops) ->
  receiver_run malloc r w ops = (r', w') ->
  exists items, installed w' = installed w ++ items /\
    Forall (fun it => exists c cs, sublist cs (op_chunks ops) /\ assembled it c cs) items.
Proof.
  intros Hm Hc Hw Hops Hrun. destruct (create_ok config allocated sha r w [] Hc Hw) as [Hcb Hr].
  pose proof (receiver_run_ok malloc config Hm Hcb r w [] ops Hr Hops) as H'.
  rewrite Hrun in H'. apply H'.
Qed.

(** ** A sink in memory *)

(** The installed snapshots and the staged one. *)
Definition shelf : Type := list snapshot_item * option snapshot_item.

Definition shelf_sink : tr_raft_snapshot_stream_sink shelf :=
  StreamSink
    (Some (fun w term index snapshot_term conf _ =>
             ((fst w, Some (Item term index snapshot_term conf [])), SALTS_OK)))
    (Some (fun w _ data => ((fst w, (fun it => item_append it data) <$> snd w), SALTS_OK)))
    (Some (fun w => ((fst w ++ option_list (snd w), None), SALTS_OK)))
    (Some (fun w => (fst w, None))).

Definition shelf_config : tr_raft_snapshot_receiver_config shelf :=
  ReceiverConfig 2 1000 0 None shelf_sink.

#[global] Instance shelf_world : SnapshotWorld shelf_config.
Proof.
  refine {| installed := fst; staged := snd |}; cbn.
  - done.
  - by intros ????????? [= <-] _ [= <- <-].
  - intros ?????? [= <-] Hw [= <- <-]. cbn. by rewrite Hw.
  - intros ????? [= <-] Hw [= <- <-]. cbn. by rewrite Hw.
  - by intros ?? [= <-].
Defined.

Definition chunk_2 (offset : Z) (has : bool) (data : list Z) (done : bool)
    : tr_raft_snapshot_chunk :=
  SnapshotChunk 1 2 4 9 3 offset 5 (checksum_of [1; 2; 3; 4; 5]) has
    (if has then example_conf else zero_conf) data done.

(** Two chunks, the first of them twice, after a stray one. *)
Definition ops_2 : list receiver_op :=
  [Handle (chunk_2 3 false [4; 5] true); Handle (chunk_2 0 true [1; 2; 3] false);
   Handle (chunk_2 0 true [1; 2; 3] false); Handle (chunk_2 3 false [4; 5] true)].

Definition receiver_2 : tr_raft_snapshot_receiver shelf :=
  SnapshotReceiver shelf_config 0 0 0 0 zero_conf 0 0 zero_digest None [] false false false.

Lemma receiver_sound_witness :
  fst (snd (receiver_run (fun n => Some (replicate (Z.to_nat n) 0)) receiver_2 ([], None) ops_2)) =
    [Item 4 9 3 example_conf [1; 2; 3; 4; 5]] /\
  exists items,
    [Item 4 9 3 example_conf [1; 2; 3; 4; 5]] = [] ++ items /\
    Forall (fun it => exists c cs, sublist cs (op_chunks ops_2) /\ assembled it c cs) items.
Proof.
  split; [vm_compute; reflexivity|].
  refine (receiver_sound (fun n => Some (replicate (Z.to_nat n) 0)) shelf_config true
            (SALTS_OK, []) receiver_2
            (fst (receiver_run (fun n => Some (replicate (Z.to_nat n) 0)) receiver_2 ([], None) ops_2))
            ([], None) ([Item 4 9 3 example_conf [1; 2; 3; 4; 5]], None) ops_2 _ _ _ _ _).
  - intros n block [= <-]. by rewrite length_replicate.
  - reflexivity.
  - reflexivity.
  - repeat constructor; cbn; lia.
  - etransitivity; [apply surjective_pairing|]. by f_equal.
Defined.

(** ** A transfer that another leader takes over *)

(** A receiver that has started on a snapshot, whether it has installed it or
    not, stays with the leader and the term it started with: chunks of another
    term, the first chunk of the same snapshot included, are refused and leave
    it as it is until a snapshot with a higher index arrives. *)
Theorem other_term_refused {W : Type} `{Sha256} (malloc : Z -> option (list Z))
    (r : tr_raft_snapshot_receiver W) (w : W) (cs : list tr_raft_snapshot_chunk) :
  rv_active r = true ->
  Forall (fun c => sc_snapshot_index c <= rv_snapshot_index r /\ sc_term c <> rv_leader_term r) cs ->
  receiver_run malloc r w (Handle <$> cs) = (r, w) /\
  Forall (fun c => fst (fst (fst (fst (tr_raft_snapshot_receiver_handle malloc r c w)))) =
                   SALTS_EPROTO) cs.
Proof.
  intros Hact Hcs.
  assert (Forall (fun c => exists ack,
    tr_raft_snapshot_receiver_handle malloc r c w = (SALTS_EPROTO, r, w, ack, false)) cs) as Hall.
  { eapply list.Forall_impl; [exact Hcs|]. intros c [Hi Ht].
    unfold tr_raft_snapshot_receiver_handle.
    destruct (tr_snapshot_receiver_chunk_valid r c); cbn [negb]; [|by eexists].
    rewrite Hact. cbn [negb].
    assert (tr_snapshot_receiver_identity_matches r c = false) as ->.
    { apply not_true_iff_false. intros [Hid _]%identity_matches_ok.
      unfold chunk_id, receiver_id in Hid. congruence. }
    cbn [negb]. replace (sc_snapshot_index c <=? rv_snapshot_index r) with true by blia.
    rewrite orb_true_r. by eexists. }
  split.
  - clear Hcs. induction Hall as [|c cs (ack & Hc) _ IH]; [done|].
    rewrite fmap_cons. cbn [receiver_run]. by rewrite Hc.
  - eapply list.Forall_impl; [exact Hall|]. by intros c (ack & ->).
Qed.

Definition malloc_0 (n : Z) : option (list Z) := Some (replicate (Z.to_nat n) 0).

Lemma other_term_refused_witness :
  let r := fst (receiver_run malloc_0 receiver_2 ([], None) (take 2 ops_2)) in
  let c := chunk_2 0 true [1; 2; 3] false in
  let c' := SnapshotChunk 3 2 5 9 3 0 5 (sc_snapshot_digest c) true example_conf [1; 2; 3] false in
  tr_snapshot_receiver_chunk_valid r c' = true /\
  receiver_run malloc_0 r ([], None) (Handle <$> [c']) = (r, ([], None)) /\
  Forall (fun c => fst (fst (fst (fst (tr_raft_snapshot_receiver_handle malloc_0 r c ([], None))))) =
                   SALTS_EPROTO) [c'].
Proof.
  split; [by vm_compute|]. apply other_term_refused; [done|].
  constructor; [|constructor]. vm_compute. split; [by intros ?|done].
Defined.
