(* ===== verification/SnapshotSend.v ===== *)
(** * What a sender sends

    Every chunk a sender hands out is the part of the snapshot at its offset,
    however acknowledgements, cancellations and resumptions interleave, and
    every source it has taken is released exactly once. *)

From S2P Require Import Prelude Configuration Bytes Wire Digest SnapshotSender.
From S2P Require Import SnapshotReceiver SnapshotReceive.
From Stdlib Require Import ZArith Lia.
From stdpp Require Import base numbers list tactics.
Open Scope Z_scope.
Open Scope raft_scope.

(** ** Parts of a list *)

Definition slice (data : list Z) (offset length : Z) : list Z :=
  take (Z.to_nat length) (drop (Z.to_nat offset) data).

Lemma length_slice data offset n :
  0 <= offset -> 0 <= n -> offset + n <= Z.of_nat (length data) ->
  Z.of_nat (length (slice data offset n)) = n.
Proof. intros. unfold slice. rewrite length_take, length_drop. lia. Qed.

Lemma slice_all data : slice data 0 (Z.of_nat (length data)) = data.
Proof. unfold slice. rewrite Nat2Z.id. cbn. by apply take_ge. Qed.

Lemma slice_app data offset m n :
  0 <= offset -> 0 <= m -> 0 <= n ->
  slice data offset m ++ slice data (offset + m) n = slice data offset (m + n).
Proof.
  intros. unfold slice. rewrite Z2Nat.inj_add by lia. rewrite <- drop_drop.
  rewrite Z2Nat.inj_add by lia. rewrite <- take_take_drop. done.
Qed.

Lemma store_slice (n : nat) (bytes block : list Z) :
  (n + length bytes <= length block)%nat ->
  take (length bytes) (drop n (store n bytes block)) = bytes.
Proof.
  intros Hn. unfold store. rewrite drop_app_length' by (rewrite length_take; lia).
  apply take_app_length.
Qed.

Lemma lookup_store (n : nat) (bytes block : list Z) (i : nat) :
  (n + length bytes <= length block)%nat -> (i < n \/ n + length bytes <= i)%nat ->
  store n bytes block !! i = block !! i.
Proof.
  intros Hn [Hi|Hi]; unfold store.
  - rewrite lookup_app_l by (rewrite length_take; lia). by apply lookup_take_lt.
  - rewrite lookup_app_r by (rewrite length_take; lia). rewrite length_take.
    rewrite lookup_app_r by lia. rewrite lookup_drop. f_equal. lia.
Qed.

Lemma store_slice_ne (n m k : nat) (bytes block : list Z) :
  (n + length bytes <= length block)%nat -> (m + k <= n \/ n + length bytes <= m)%nat ->
  take k (drop m (store n bytes block)) = take k (drop m block).
Proof.
  intros Hn Hm. apply list_eq. intros i. destruct (decide (i < k)%nat) as [Hi|Hi].
  - rewrite !lookup_take_lt, !lookup_drop by lia. apply lookup_store; lia.
  - by rewrite !lookup_take_ge by lia.
Qed.

Lemma length_store (n : nat) (bytes block : list Z) :
  (n + length bytes <= length block)%nat -> length (store n bytes block) = length block.
Proof. intros. by apply store_at_prefix. Qed.

(** ** The transfer of one snapshot *)

Section Send.
Context {W : Type}.
Context (config : tr_raft_snapshot_sender_config) (it : snapshot_item) (digest : list Z).

Abbreviation chunk_size := (sg_chunk_size config).
Abbreviation window := (sg_max_inflight_chunks config).
Abbreviation size := (Z.of_nat (length (it_data it))).

(** The chunk at an offset. *)
Definition chunk_length (offset : Z) : Z := Z.min chunk_size (size - offset).

Definition chunk_of (offset : Z) : tr_raft_snapshot_chunk :=
  SnapshotChunk (sg_self_id config) (sg_peer_id config) (it_leader_term it) (it_index it)
    (it_term it) offset size digest (offset =? 0)
    (if offset =? 0 then it_configuration it else zero_conf)
    (slice (it_data it) offset (chunk_length offset))
    (offset + chunk_length offset =? size).

(** The offsets at which chunks start. *)
Definition chunk_offset (offset : Z) : Prop :=
  0 <= offset /\ (chunk_size | offset) /\ (offset < size \/ size = 0 /\ offset = 0).

(** A source of the bytes: a read that succeeds writes the bytes asked for, and
    no read writes more. *)
Record source_of (src : tr_raft_snapshot_source W) : Prop := {
  so_size : src_size src = size;
  so_digest : src_digest src = digest;
  so_bound read_at w offset n w' result bytes :
    src_read_at src = Some read_at -> read_at w offset n = (w', result, bytes) ->
    0 <= n -> Z.of_nat (length bytes) <= n;
  so_read read_at w offset n w' bytes :
    src_read_at src = Some read_at -> read_at w offset n = (w', SALTS_OK, bytes) ->
    0 <= offset -> 0 < n -> offset + n <= size -> Z.of_nat (length bytes) = n ->
    bytes = slice (it_data it) offset n
}.

(** The claims cover the snapshot from one offset to another. *)
Fixpoint chain (from : Z) (claims : list tr_snapshot_claim) (to : Z) : Prop :=
  match claims with
  | [] => from = to
  | claim :: claims =>
      cl_offset claim = from /\ chunk_offset from /\ cl_length claim = chunk_length from /\
      chain (from + cl_length claim) claims to
  end.

(** What creation has checked. *)
Record sender_config_ok : Prop := {
  sk_ids : sg_self_id config <> 0 /\ sg_peer_id config <> 0 /\
           sg_self_id config <> sg_peer_id config;
  sk_chunk : 0 < chunk_size <= TR_RAFT_WIRE_MAX_SNAPSHOT_CHUNK_BYTES;
  sk_window : 0 < window <= TR_RAFT_SNAPSHOT_MAX_INFLIGHT_CHUNKS;
  sk_max : sg_max_snapshot_bytes config < 2 ^ 64
}.

(** A claim whose bytes are in its slot. *)
Definition claim_ok (s : tr_raft_snapshot_sender W) (claim : tr_snapshot_claim) : Prop :=
  0 <= cl_slot claim < window /\
  slot_bytes s (cl_slot claim) (cl_length claim) =
  slice (it_data it) (cl_offset claim) (cl_length claim).

(** A transfer in progress. *)
Record sending (s : tr_raft_snapshot_sender W) : Prop := {
  sd_config : sn_config s = config /\ sn_chunk_size s = chunk_size /\
              sn_max_inflight_chunks s = window;
  sd_id : sn_size s = size /\ sn_digest s = digest /\ sn_leader_term s = it_leader_term it /\
          sn_snapshot_index s = it_index it /\ sn_snapshot_term s = it_term it /\
          sn_configuration s = it_configuration it;
  sd_state : sn_active s = true /\ sn_complete s = false;
  sd_source : source_of (sn_source s);
  sd_storage : Z.of_nat (length (sn_chunk_storage s)) = chunk_size * window;
  sd_acknowledged : chunk_offset (sn_acknowledged_offset s);
  sd_chain : chain (sn_acknowledged_offset s) (sn_claims s) (sn_next_offset s);
  sd_claims : Forall (claim_ok s) (sn_claims s);
  sd_slots : NoDup (cl_slot <$> sn_claims s);
  sd_count : sn_claim_count s <= window
}.

(** Nothing is being sent. *)
Definition silent (s : tr_raft_snapshot_sender W) : Prop :=
  (sn_active s = false \/ sn_complete s = true) /\ sn_claims s = [].

Context (Hconfig : sender_config_ok) (Hsize : size < 2 ^ 64).

Lemma chunk_length_range offset :
  chunk_offset offset -> 0 <= chunk_length offset /\ offset + chunk_length offset <= size.
Proof.
  intros (H1 & _ & H2). pose proof (sk_chunk Hconfig). unfold chunk_length. lia.
Qed.

(** A chunk ends at the start of another or at the end of the snapshot. *)
Lemma chunk_offset_next offset :
  chunk_offset offset ->
  chunk_offset (offset + chunk_length offset) \/ offset + chunk_length offset = size.
Proof.
  intros (H1 & H2 & H3). pose proof (sk_chunk Hconfig). unfold chunk_length.
  destruct (Z.le_gt_cases (size - offset) chunk_size); [right; lia|].
  left. rewrite Z.min_l by lia. split_and!; [lia| |lia]. apply Z.divide_add_r; [done|apply Z.divide_refl].
Qed.

(** Where a chunk starts or the snapshot ends. *)
Definition position (offset : Z) : Prop := chunk_offset offset \/ offset = size.

Lemma position_range offset : position offset -> 0 <= offset <= size.
Proof. intros [(? & ? & ?)| ->]; lia. Qed.

Lemma position_next offset : chunk_offset offset -> position (offset + chunk_length offset).
Proof. apply chunk_offset_next. Qed.

Lemma chain_end from claims to :
  position from -> chain from claims to -> from <= to /\ position to.
Proof.
  revert from. induction claims as [|c claims IH]; cbn; intros from Hf.
  - intros <-. split; [lia|done].
  - intros (Ho & Hp & Hl & Hc). rewrite Hl in Hc. pose proof (chunk_length_range _ Hp).
    destruct (IH _ (position_next _ Hp) Hc). split; [lia|done].
Qed.

Lemma claims_snoc from claims to slot :
  chain from claims to -> chunk_offset to ->
  chain from (claims ++ [Claim to (chunk_length to) slot]) (to + chunk_length to).
Proof.
  revert from. induction claims as [|c claims IH]; cbn; intros from.
  - by intros <- Hp.
  - intros (? & ? & ? & ?) ?. split_and!; auto.
Qed.

Lemma chain_unsnoc from claims claim to :
  chain from (claims ++ [claim]) to ->
  chain from claims (cl_offset claim) /\ chunk_offset (cl_offset claim).
Proof.
  revert from. induction claims as [|c claims IH]; cbn; intros from.
  - by intros (-> & ? & _).
  - intros (? & ? & ? & Hc). destruct (IH _ Hc). done.
Qed.

Lemma claim_end_chain from claim rest to :
  chain from (claim :: rest) to -> claim_end claim = from + cl_length claim.
Proof.
  intros (Ho & Hp & Hl & _). unfold claim_end. rewrite Ho, Hl. destruct (Hp) as (? & _).
  pose proof (chunk_length_range _ Hp). apply u64_small. lia.
Qed.

Lemma chain_ends from claims to claim :
  chain from claims to -> claim ∈ claims -> from <= claim_end claim <= to.
Proof.
  revert from. induction claims as [|c claims IH]; intros from Hc Hin.
  { by apply elem_of_nil in Hin. }
  pose proof (claim_end_chain _ _ _ _ Hc) as He. destruct Hc as (Ho & Hp & Hl & Hc).
  pose proof (chunk_length_range _ Hp). rewrite <- Hl in *.
  assert (position (from + cl_length c)) as Hpos by (rewrite Hl; by apply position_next).
  destruct (chain_end _ _ _ Hpos Hc).
  apply elem_of_cons in Hin as [->|Hin]; [lia|]. specialize (IH _ Hc Hin). lia.
Qed.

(** Releasing the claims up to the end of one of them. *)
Lemma chain_release from claims to next :
  chain from claims to ->
  next = from \/ (exists claim, claim ∈ claims /\ claim_end claim = next) ->
  chain next (drop (released_claims next claims) claims) to.
Proof.
  revert from. induction claims as [|c claims IH]; intros from Hc Hn.
  { destruct Hn as [->|(? & Hin & _)]; [done|by apply elem_of_nil in Hin]. }
  pose proof (claim_end_chain _ _ _ _ Hc) as He. pose proof Hc as (Ho & Hp & Hl & Hc').
  pose proof (chunk_length_range _ Hp) as Hr. rewrite <- Hl in Hr. cbn [released_claims].
  assert (position (from + cl_length c)) as Hpos by (rewrite Hl; by apply position_next).
  destruct Hn as [->|(claim & Hin & Hend)].
  - destruct (claim_end c <=? from) eqn:Hle; [|done]. apply Z.leb_le in Hle.
    cbn [drop]. apply (IH (from + cl_length c)); [done|]. left. lia.
  - apply elem_of_cons in Hin as [->|Hin].
    + replace (claim_end c <=? next) with true by blia. cbn [drop].
      apply (IH (from + cl_length c)); [done|]. left. lia.
    + pose proof (chain_ends _ _ _ _ Hc' Hin). replace (claim_end c <=? next) with true by blia.
      cbn [drop]. apply (IH (from + cl_length c)); [done|]. right. by exists claim.
Qed.

(** ** Slots *)

Lemma find_free_slot_some s slot n free :
  find_free_slot (W := W) s slot n = Some free ->
  slot <= free < slot + Z.of_nat n /\ free ∉ (cl_slot <$> sn_claims s).
Proof.
  revert slot. induction n as [|n IH]; intros slot; cbn [find_free_slot]; [done|].
  destruct (tr_raft_snapshot_sender_slot_in_use s slot) eqn:Hu; cbn [negb].
  - intros Hf. destruct (IH _ Hf). split; [lia|done].
  - intros [= <-]. split; [lia|]. intros (claim & -> & Hin)%list_elem_of_fmap.
    unfold tr_raft_snapshot_sender_slot_in_use in Hu.
    rewrite <- not_true_iff_false, existsb_exists in Hu. apply Hu. exists claim.
    split; [by apply list_elem_of_In|apply Z.eqb_refl].
Qed.

Lemma find_free_slot_none s slot n :
  find_free_slot (W := W) s slot n = None ->
  forall k, slot <= k < slot + Z.of_nat n -> k ∈ (cl_slot <$> sn_claims s).
Proof.
  revert slot. induction n as [|n IH]; intros slot; cbn [find_free_slot]; [lia|].
  destruct (tr_raft_snapshot_sender_slot_in_use s slot) eqn:Hu; cbn [negb]; [|done].
  intros Hf k Hk. destruct (decide (k = slot)) as [->|Hne]; [|apply (IH _ Hf); lia].
  apply existsb_exists in Hu as (claim & Hin & Hs). apply Z.eqb_eq in Hs as <-.
  apply list_elem_of_fmap. exists claim. split; [done|by apply list_elem_of_In].
Qed.

(** A window that is not full has a free slot. *)
Lemma find_free_slot_total s :
  sn_claim_count s < window -> sn_max_inflight_chunks s = window ->
  exists slot, tr_raft_snapshot_sender_find_free_slot (W := W) s = (SALTS_OK, slot) /\
    0 <= slot < window /\ slot ∉ (cl_slot <$> sn_claims s).
Proof.
  intros Hc Hw. unfold tr_raft_snapshot_sender_find_free_slot.
  destruct (find_free_slot s 0 _) as [slot|] eqn:Hf.
  - exists slot. apply find_free_slot_some in Hf as [? ?]. rewrite Hw in *.
    pose proof (sk_window Hconfig). split_and!; [done|lia..|done].
  - exfalso. pose proof (find_free_slot_none _ _ _ Hf) as Hall. rewrite Hw in Hall.
    assert (seqZ 0 window ⊆+ (cl_slot <$> sn_claims s)) as Hsub.
    { apply NoDup_submseteq; [apply NoDup_seqZ|]. intros x Hx%elem_of_seqZ. apply Hall.
      pose proof (sk_window Hconfig). lia. }
    apply submseteq_length in Hsub. rewrite length_seqZ, length_fmap in Hsub.
    unfold sn_claim_count in Hc. lia.
Qed.

(** Bytes written to a free slot leave the other slots alone. *)
Lemma claim_ok_store s s' slot bytes claim :
  claim_ok s claim -> slot <> cl_slot claim -> 0 <= slot < window ->
  cl_length claim <= chunk_size -> 0 <= cl_length claim ->
  sn_chunk_size s = chunk_size -> sn_chunk_size s' = chunk_size ->
  Z.of_nat (length (sn_chunk_storage s)) = chunk_size * window ->
  Z.of_nat (length bytes) <= chunk_size ->
  sn_chunk_storage s' = store (Z.to_nat (slot * chunk_size)) bytes (sn_chunk_storage s) ->
  claim_ok s' claim.
Proof.
  intros [Hs Hb] Hne Hslot Hl1 Hl2 Hc Hc' Hst Hlen E. split; [done|].
  rewrite <- Hb. unfold slot_bytes. rewrite Hc, Hc', E.
  pose proof (sk_chunk Hconfig) as Hcs.
  assert (0 <= slot * chunk_size /\ slot * chunk_size + chunk_size <= chunk_size * window) by nia.
  assert (0 <= cl_slot claim * chunk_size) by nia.
  apply store_slice_ne; [lia|].
  destruct (Z.lt_ge_cases slot (cl_slot claim)); [right|left].
  - assert (slot * chunk_size + chunk_size <= cl_slot claim * chunk_size) by nia. lia.
  - assert (cl_slot claim * chunk_size + chunk_size <= slot * chunk_size) by nia. lia.
Qed.

(** ** Operations *)

Lemma chain_claims from claims to :
  chain from claims to ->
  Forall (fun claim => chunk_offset (cl_offset claim) /\
                       cl_length claim = chunk_length (cl_offset claim)) claims.
Proof.
  revert from. induction claims as [|c claims IH]; cbn; intros from; [done|].
  intros (Ho & ? & ? & ?). constructor; [by rewrite Ho|eauto].
Qed.

Lemma fill_chunk_of s claim :
  sending s -> claim_ok s claim -> chunk_offset (cl_offset claim) ->
  cl_length claim = chunk_length (cl_offset claim) ->
  tr_raft_snapshot_sender_fill_chunk s claim = chunk_of (cl_offset claim).
Proof.
  intros Hs [_ Hb] Ho Hl. destruct (sd_config _ Hs) as (C1 & C2 & C3).
  destruct (sd_id _ Hs) as (I1 & I2 & I3 & I4 & I5 & I6).
  pose proof (chunk_length_range _ Ho). destruct (Ho) as (? & _).
  unfold tr_raft_snapshot_sender_fill_chunk, chunk_of.
  rewrite C1, I1, I2, I3, I4, I5, I6, Hb, Hl. by rewrite u64_small by lia.
Qed.

(** The storage may change outside the slots of the claims. *)
Lemma sending_storage s slot bytes :
  sending s -> 0 <= slot < window -> slot ∉ (cl_slot <$> sn_claims s) ->
  Z.of_nat (length bytes) <= chunk_size ->
  sending (s <| sn_chunk_storage :=
                store (Z.to_nat (slot * sn_chunk_size s)) bytes (sn_chunk_storage s) |>).
Proof.
  intros Hs Hslot Hfree Hlen. pose proof (sk_chunk Hconfig).
  destruct (sd_config _ Hs) as (C1 & C2 & C3). pose proof (sd_storage _ Hs) as Hst.
  split; try apply Hs; cbn.
  - rewrite length_store; [done|]. rewrite C2.
    assert (0 <= slot * chunk_size /\ slot * chunk_size + chunk_size <= chunk_size * window) by nia.
    lia.
  - pose proof (sd_claims _ Hs) as Hcl. pose proof (chain_claims _ _ _ (sd_chain _ Hs)) as Hch.
    rewrite Forall_lookup in Hcl, Hch |- *. intros i claim Hi.
    destruct (Hch i claim Hi) as [Ho Hl]. pose proof (chunk_length_range _ Ho).
    apply (claim_ok_store s _ slot bytes); try done; cbn; rewrite ?C2; try done.
    + by apply Hcl in Hi.
    + intros ->. apply Hfree. apply list_elem_of_fmap. exists claim. split; [done|].
      by apply list_elem_of_lookup_2 in Hi.
    + rewrite Hl. unfold chunk_length. lia.
    + lia.
Qed.

(** The state after a claim. *)
Definition claimed (s : tr_raft_snapshot_sender W) (slot : Z) : tr_raft_snapshot_sender W :=
  s <| sn_claims := sn_claims s ++ [Claim (sn_next_offset s) (chunk_length (sn_next_offset s)) slot] |>
    <| sn_next_offset := sn_next_offset s +64 chunk_length (sn_next_offset s) |>.

Lemma claim_step s slot :
  sending s -> 0 <= slot < window -> slot ∉ (cl_slot <$> sn_claims s) ->
  sn_claim_count s < window -> chunk_offset (sn_next_offset s) ->
  slot_bytes s slot (chunk_length (sn_next_offset s)) =
    slice (it_data it) (sn_next_offset s) (chunk_length (sn_next_offset s)) ->
  sending (claimed s slot) /\
  tr_raft_snapshot_sender_fill_chunk (claimed s slot)
    (Claim (sn_next_offset s) (chunk_length (sn_next_offset s)) slot) =
  chunk_of (sn_next_offset s).
Proof.
  intros Hs Hslot Hfree Hcount Ho Hb. pose proof (chunk_length_range _ Ho).
  destruct (Ho) as (? & _).
  assert (sending (claimed s slot)) as Hs'.
  { split; try apply Hs; cbn.
    - rewrite u64_small by lia. apply claims_snoc; [apply Hs|done].
    - apply Forall_app. split; [apply Hs|]. constructor; [|done]. by split.
    - rewrite fmap_app. apply list.NoDup_app. split; [apply Hs|]. split; [|apply NoDup_singleton].
      intros x Hx Hx'. apply list_elem_of_singleton in Hx' as ->. done.
    - unfold sn_claim_count in *. cbn. rewrite length_app. cbn. lia. }
  split; [done|]. by apply (fill_chunk_of (claimed s slot) (Claim _ _ _)).
Qed.

Lemma next_chunk_length s :
  sending s -> position (sn_next_offset s) ->
  (if sn_size s -64 sn_next_offset s <? sn_chunk_size s then sn_size s -64 sn_next_offset s
   else sn_chunk_size s) = chunk_length (sn_next_offset s).
Proof.
  intros Hs Hp. destruct (sd_config _ Hs) as (_ & -> & _). destruct (sd_id _ Hs) as (-> & _).
  apply position_range in Hp. rewrite u64_small by lia. unfold chunk_length.
  destruct (_ <? _) eqn:E; lia.
Qed.

Lemma sending_next s : sending s -> position (sn_next_offset s).
Proof.
  intros Hs. eapply chain_end; [|apply Hs]. left. apply Hs.
Qed.

Lemma claim_allowed s :
  sending s -> (sn_next_offset s =? sn_size s) && negb (sn_claim_count s =? 0) = false ->
  chunk_offset (sn_next_offset s).
Proof.
  intros Hs Hb. destruct (sending_next s Hs) as [?|Hn]; [done|].
  destruct (sd_id _ Hs) as (Hsz & _). rewrite Hsz, Hn, Z.eqb_refl in Hb. cbn [andb] in Hb.
  apply negb_false_iff, Z.eqb_eq in Hb. pose proof (sd_chain _ Hs) as Hc.
  unfold sn_claim_count in Hb. destruct (sn_claims s); [|done]. cbn in Hc. rewrite <- Hc.
  apply Hs.
Qed.

(** What [next_chunk] does: it refuses, or repeats the only chunk of a window
    of one, or reads and claims the chunk at the next offset. *)
Inductive next_outcome (s : tr_raft_snapshot_sender W) :
    status * tr_raft_snapshot_sender W * W * option tr_raft_snapshot_chunk -> Prop :=
| next_busy w :
    window <= sn_claim_count s \/ (sn_next_offset s = size /\ sn_claim_count s <> 0) ->
    next_outcome s (SALTS_EBUSY, s, w, None)
| next_repeat w claim :
    window = 1 -> sn_claims s = [claim] ->
    next_outcome s (SALTS_OK, s, w, Some (chunk_of (cl_offset claim)))
| next_failed w s' e :
    sending s' -> sn_acknowledged_offset s' = sn_acknowledged_offset s ->
    sn_claims s' = sn_claims s -> sn_next_offset s' = sn_next_offset s ->
    next_outcome s (SALTS_ERR e, s', w, None)
| next_claimed w s' slot :
    sending s' -> chunk_offset (sn_next_offset s) -> sn_claim_count s < window ->
    sn_acknowledged_offset s' = sn_acknowledged_offset s ->
    sn_claims s' =
      sn_claims s ++ [Claim (sn_next_offset s) (chunk_length (sn_next_offset s)) slot] ->
    sn_next_offset s' = sn_next_offset s + chunk_length (sn_next_offset s) ->
    next_outcome s (SALTS_OK, s', w, Some (chunk_of (sn_next_offset s))).

Lemma next_chunk_outcome s w :
  sending s -> next_outcome s (tr_raft_snapshot_sender_next_chunk s w).
Proof.
  intros Hs. destruct (sd_config _ Hs) as (C1 & C2 & C3). destruct (sd_state _ Hs) as (A1 & A2).
  pose proof (sk_window Hconfig) as Hw.
  unfold tr_raft_snapshot_sender_next_chunk. rewrite A1, A2, C3. cbn [negb orb].
  destruct (window <=? sn_claim_count s) eqn:Hfull.
  { apply Z.leb_le in Hfull. destruct (window =? 1) eqn:Hone; cbn [negb].
    - apply Z.eqb_eq in Hone. pose proof (sd_count _ Hs). unfold sn_claim_count in *.
      destruct (sn_claims s) as [|claim [|? ?]] eqn:Hcl; cbn [length] in *; try lia.
      pose proof (chain_claims _ _ _ (sd_chain _ Hs)) as Hch. pose proof (sd_claims _ Hs) as Hok.
      rewrite Hcl in Hch, Hok. apply Forall_cons_1 in Hch as [[Ho Hl] _].
      apply Forall_cons_1 in Hok as [Hok _]. change (array_get zero_claim [claim] 0) with claim.
      rewrite (fill_chunk_of s claim) by done. by apply next_repeat.
    - apply next_busy. by left. }
  apply Z.leb_gt in Hfull.
  destruct (_ && _) eqn:Hend.
  { apply next_busy. right. apply andb_true_iff in Hend as [He Hne]. apply Z.eqb_eq in He.
    apply negb_true_iff, Z.eqb_neq in Hne. destruct (sd_id _ Hs) as (Hsz & _).
    split; [congruence|done]. }
  pose proof (claim_allowed s Hs Hend) as Ho. pose proof (chunk_length_range _ Ho) as Hl.
  destruct (Ho) as (Ho0 & _ & _).
  rewrite (next_chunk_length s Hs (sending_next s Hs)).
  destruct (find_free_slot_total s Hfull C3) as (slot & -> & Hslot & Hfree).
  set (n := chunk_length (sn_next_offset s)) in *.
  assert (n <= chunk_size) as Hn by (unfold n, chunk_length; lia).
  destruct (n =? 0) eqn:Hz; cbn [negb].
  - apply Z.eqb_eq in Hz.
    destruct (claim_step s slot Hs Hslot Hfree Hfull Ho) as [Hs' Hf].
    { fold n. rewrite Hz. by unfold slot_bytes, slice. }
    change (s <| sn_claims := _ |> <| sn_next_offset := _ |>) with (claimed s slot).
    fold n in Hf. rewrite Hf. apply next_claimed with slot; try done.
    cbn. fold n. by rewrite u64_small by lia.
  - unfold source_read. apply Z.eqb_neq in Hz.
    destruct (src_read_at (sn_source s)) as [read_at|] eqn:Hr.
    2: { apply next_failed; try done.
         apply (sending_storage s slot []); [done..|cbn; lia]. }
    destruct (read_at w (sn_next_offset s) n) as [[w1 result] bytes] eqn:Hread.
    pose proof (so_bound _ (sd_source _ Hs) _ _ _ _ _ _ _ Hr Hread ltac:(lia)) as Hb.
    pose proof (sending_storage s slot bytes Hs Hslot Hfree ltac:(lia)) as Hs1.
    destruct result as [|e]; [|by apply next_failed].
    destruct (Z.of_nat (length bytes) =? n) eqn:Hlen; cbn [negb]; [|by apply next_failed].
    apply Z.eqb_eq in Hlen.
    pose proof (so_read _ (sd_source _ Hs) _ _ _ _ _ _ Hr Hread Ho0 ltac:(lia) ltac:(lia) Hlen)
      as Hbytes.
    set (s1 := s <| sn_chunk_storage := _ |>) in *.
    destruct (claim_step s1 slot Hs1 Hslot Hfree Hfull Ho) as [Hs' Hf].
    { change (sn_next_offset s1) with (sn_next_offset s). fold n. rewrite <- Hbytes.
      unfold slot_bytes. cbn. rewrite C2. replace (Z.to_nat n) with (length bytes) by lia.
      apply store_slice. pose proof (sd_storage _ Hs). pose proof (sk_chunk Hconfig).
      assert (0 <= slot * chunk_size /\ slot * chunk_size + chunk_size <= chunk_size * window)
        by nia. lia. }
    change (s1 <| sn_claims := _ |> <| sn_next_offset := _ |>) with (claimed s1 slot).
    change (sn_next_offset s1) with (sn_next_offset s) in *. fold n in Hf. rewrite Hf.
    apply next_claimed with slot; try done.
    cbn. fold n. by rewrite u64_small by lia.
Qed.

Lemma cancel_ok s offset :
  sending s -> sending (snd (tr_raft_snapshot_sender_cancel_chunk s offset)).
Proof.
  intros Hs. unfold tr_raft_snapshot_sender_cancel_chunk.
  destruct (sn_claim_count s =? 0) eqn:Hz; [done|]. apply Z.eqb_neq in Hz.
  unfold sn_claim_count in *. destruct (sn_claims s) as [|c cs _] eqn:Hcl using rev_ind; [done|].
  assert (array_get zero_claim (cs ++ [c]) (Z.of_nat (length (cs ++ [c])) - 1) = c) as ->.
  { rewrite length_app. cbn [length].
    replace (Z.of_nat (length cs + 1) - 1) with (Z.of_nat (length cs)) by lia.
    rewrite array_get_nat. rewrite app_nth2 by lia. by rewrite Nat.sub_diag. }
  destruct (negb _); [done|]. cbn [snd].
  replace (take (length (cs ++ [c]) - 1) (cs ++ [c])) with cs.
  2: { rewrite length_app. cbn [length]. rewrite Nat.add_sub. symmetry. apply take_app_length. }
  pose proof (sd_chain _ Hs) as Hch. rewrite Hcl in Hch. apply chain_unsnoc in Hch as [Hch Ho].
  pose proof (sd_claims _ Hs) as Hok. pose proof (sd_slots _ Hs) as Hnd.
  pose proof (sd_count _ Hs) as Hcount. unfold sn_claim_count in Hcount. rewrite Hcl in Hok, Hnd, Hcount.
  split; try apply Hs; cbn; try done.
  - by apply Forall_app in Hok as [? _].
  - rewrite fmap_app in Hnd. by apply list.NoDup_app in Hnd as [? _].
  - unfold sn_claim_count. cbn. rewrite length_app in Hcount. cbn in Hcount. lia.
Qed.

(** The state after the claims are dropped and sending restarts at an offset. *)
Definition restarted (s : tr_raft_snapshot_sender W) (offset : Z) : tr_raft_snapshot_sender W :=
  s <| sn_acknowledged_offset := offset |> <| sn_next_offset := offset |> <| sn_claims := [] |>.

Lemma restarted_ok s offset : sending s -> chunk_offset offset -> sending (restarted s offset).
Proof.
  intros Hs Ho. pose proof (sk_window Hconfig). split; try apply Hs; cbn; try done.
  - constructor.
  - unfold sn_claim_count. cbn. lia.
Qed.

Lemma resume_ok s :
  sending s ->
  tr_raft_snapshot_sender_prepare_resume s =
    (SALTS_OK, restarted s (sn_acknowledged_offset s)).
Proof.
  intros Hs. unfold tr_raft_snapshot_sender_prepare_resume.
  destruct (sd_state _ Hs) as [-> ->]. cbn. by destruct s.
Qed.

Lemma released_all next claims :
  Forall (fun claim => claim_end claim <= next) claims ->
  drop (released_claims next claims) claims = [].
Proof.
  induction 1 as [|c claims Hc _ IH]; [done|]. cbn [released_claims].
  by replace (claim_end c <=? next) with true by blia.
Qed.

Lemma claim_end_position from claims to claim :
  chain from claims to -> claim ∈ claims -> position (claim_end claim).
Proof.
  intros Hc Hin. pose proof (chain_claims _ _ _ Hc) as Hf. rewrite list.Forall_forall in Hf.
  destruct (Hf claim Hin) as [Ho Hl]. unfold claim_end. rewrite Hl.
  pose proof (chunk_length_range _ Ho). destruct (Ho) as (? & _). rewrite u64_small by lia.
  by apply position_next.
Qed.

(** What an acknowledgement does: it is refused, or moves the transfer back, or
    forward, or ends it. *)
Inductive ack_outcome (s : tr_raft_snapshot_sender W) (ack : tr_raft_snapshot_ack) :
    status * tr_raft_snapshot_sender W * W -> Prop :=
| ack_refused w : ack_outcome s ack (SALTS_EPROTO, s, w)
| ack_back w :
    sa_accepted ack = false -> sending (restarted s (sa_next_offset ack)) ->
    ack_outcome s ack (SALTS_OK, restarted s (sa_next_offset ack), w)
| ack_forward w s' :
    sa_accepted ack = true -> sending s' -> sa_next_offset ack <> size ->
    sn_acknowledged_offset s <= sa_next_offset ack ->
    sn_acknowledged_offset s' = sa_next_offset ack -> sn_next_offset s' = sn_next_offset s ->
    sn_claims s' = drop (released_claims (sa_next_offset ack) (sn_claims s)) (sn_claims s) ->
    ack_outcome s ack (SALTS_OK, s', w)
| ack_complete w s' :
    sa_accepted ack = true -> ack_matches s ack = true -> sa_next_offset ack = size ->
    silent s' -> sn_active s' = true -> sn_complete s' = true ->
    ack_outcome s ack (SALTS_OK, s', w).

Lemma boundary_spec s ack :
  (sa_next_offset ack =? sn_acknowledged_offset s) ||
  existsb (fun claim => claim_end claim =? sa_next_offset ack) (sn_claims (W := W) s) = true ->
  sa_next_offset ack = sn_acknowledged_offset s \/
  exists claim, claim ∈ sn_claims s /\ claim_end claim = sa_next_offset ack.
Proof.
  intros [Hb|Hb]%orb_true_iff; [left; lia|right].
  apply existsb_exists in Hb as (claim & Hin & He). exists claim.
  split; [by apply list_elem_of_In|lia].
Qed.

Lemma acknowledge_outcome s ack w :
  sending s -> 0 <= sa_next_offset ack ->
  ack_outcome s ack (tr_raft_snapshot_sender_acknowledge s ack w).
Proof.
  intros Hs Hn0. destruct (sd_config _ Hs) as (C1 & C2 & C3). destruct (sd_state _ Hs) as (A1 & A2).
  destruct (sd_id _ Hs) as (I1 & _). pose proof (sd_acknowledged _ Hs) as (K1 & K2 & K3).
  unfold tr_raft_snapshot_sender_acknowledge. rewrite A1, A2, C2, I1. cbn [negb].
  destruct (ack_matches s ack) eqn:Hm; cbn [negb]; [|apply ack_refused].
  destruct (_ || _) eqn:Hr; [apply ack_refused|]. apply orb_false_iff in Hr as [Hr1 Hr2].
  apply Z.ltb_ge in Hr1. pose proof (sk_chunk Hconfig) as Hcs.
  destruct (sa_accepted ack) eqn:Hacc; cbn [negb].
  2: { destruct (_ <? _) eqn:Hlt; [apply ack_refused|]. apply Z.ltb_ge in Hlt.
       apply ack_back; [done|]. apply restarted_ok; [done|].
       split_and!; [done| |lia]. apply andb_false_iff in Hr2.
       rewrite !negb_false_iff, !Z.eqb_eq in Hr2. destruct Hr2 as [Hr2|Hr2].
       - replace (sa_next_offset ack) with 0 by lia. apply Z.divide_0_r.
       - apply Z.mod_divide; lia. }
  destruct (_ <? _) eqn:Hlt; [apply ack_refused|]. apply Z.ltb_ge in Hlt.
  destruct (negb (_ || _)) eqn:Hb; [apply ack_refused|].
  apply negb_false_iff in Hb. apply boundary_spec in Hb.
  cbn [sn_complete set_field set_sn_complete].
  destruct (sa_next_offset ack =? size) eqn:Hsz; cbn [sn_complete set_field].
  - apply Z.eqb_eq in Hsz. cbn.
    apply ack_complete; try done. split; [by right|]. cbn. apply released_all.
    apply list.Forall_forall. intros claim Hin.
    pose proof (chain_ends _ _ _ _ (sd_chain _ Hs) Hin).
    pose proof (position_range _ (sending_next s Hs)). lia.
  - cbn. apply Z.eqb_neq in Hsz.
    assert (chunk_offset (sa_next_offset ack)) as Ho.
    { destruct Hb as [->|(claim & Hin & He)]; [apply Hs|].
      destruct (claim_end_position _ _ _ _ (sd_chain _ Hs) Hin); congruence. }
    apply ack_forward; try done. split; try apply Hs; cbn; try done.
    + by apply (chain_release (sn_acknowledged_offset s)); [apply Hs|].
    + apply Forall_drop. apply Hs.
    + rewrite fmap_drop. eapply sublist_NoDup; [apply Hs|]. apply sublist_drop.
    + unfold sn_claim_count. cbn. rewrite length_drop. pose proof (sd_count _ Hs) as Hct.
      unfold sn_claim_count in Hct. lia.
Qed.
End Send.

(** ** Runs *)

Inductive sender_op :=
| NextChunk
| CancelChunk (offset : Z)
| PrepareResume
| Acknowledge (ack : tr_raft_snapshot_ack)
| ResetSender.

Section Run.
Context {W : Type}.

Definition sender_step (s : tr_raft_snapshot_sender W) (w : W) (op : sender_op)
    : tr_raft_snapshot_sender W * W * list tr_raft_snapshot_chunk :=
  match op with
  | NextChunk =>
      let '(_, s, w, chunk) := tr_raft_snapshot_sender_next_chunk s w in
      (s, w, option_list chunk)
  | CancelChunk offset => (snd (tr_raft_snapshot_sender_cancel_chunk s offset), w, [])
  | PrepareResume => (snd (tr_raft_snapshot_sender_prepare_resume s), w, [])
  | Acknowledge ack =>
      let '(_, s, w) := tr_raft_snapshot_sender_acknowledge s ack w in (s, w, [])
  | ResetSender => let '(s, w) := tr_raft_snapshot_sender_reset s w in (s, w, [])
  end.

(** The state at the end and the chunks handed out. *)
Fixpoint sender_run (s : tr_raft_snapshot_sender W) (w : W) (ops : list sender_op)
    : tr_raft_snapshot_sender W * W * list tr_raft_snapshot_chunk :=
  match ops with
  | [] => (s, w, [])
  | op :: ops =>
      let '(s, w, cs) := sender_step s w op in
      let '(s, w, cs') := sender_run s w ops in (s, w, cs ++ cs')
  end.

Definition op_ack_in_range (op : sender_op) : Prop :=
  match op with Acknowledge ack => 0 <= sa_next_offset ack | _ => True end.

Context (config : tr_raft_snapshot_sender_config) (it : snapshot_item) (digest : list Z).
Context (Hconfig : sender_config_ok config) (Hsize : Z.of_nat (length (it_data it)) < 2 ^ 64).

Definition chunk_of_transfer (c : tr_raft_snapshot_chunk) : Prop :=
  exists offset, chunk_offset config it offset /\ c = chunk_of config it digest offset.

(** The acknowledgement of the whole snapshot. *)
Definition final_ack (ack : tr_raft_snapshot_ack) : Prop :=
  sa_from ack = sg_peer_id config /\ sa_to ack = sg_self_id config /\
  sa_term ack = it_leader_term it /\ sa_snapshot_index ack = it_index it /\
  sa_snapshot_digest ack = digest /\ sa_accepted ack = true /\
  sa_snapshot_size ack = Z.of_nat (length (it_data it)) /\
  sa_next_offset ack = Z.of_nat (length (it_data it)).

(** The transfer is in progress, or over after its last acknowledgement, or
    abandoned. *)
Definition sender_state (s : tr_raft_snapshot_sender W) (acks : list tr_raft_snapshot_ack)
    : Prop :=
  sending config it digest s \/
  (silent s /\ (sn_complete s = true -> Exists final_ack acks)).

Lemma ack_matches_final (s : tr_raft_snapshot_sender W) ack :
  sending config it digest s -> ack_matches s ack = true -> sa_accepted ack = true ->
  sa_next_offset ack = Z.of_nat (length (it_data it)) -> final_ack ack.
Proof.
  intros Hs Hm Ha Hn. destruct (sd_config _ _ _ _ Hs) as (C1 & _).
  destruct (sd_id _ _ _ _ Hs) as (I1 & I2 & I3 & I4 & _).
  unfold ack_matches in Hm. rewrite C1, I1, I2, I3, I4 in Hm.
  rewrite !andb_true_iff, !Z.eqb_eq, bool_decide_eq_true in Hm. unfold final_ack. naive_solver.
Qed.

Definition op_acks (op : sender_op) : list tr_raft_snapshot_ack :=
  match op with Acknowledge ack => [ack] | _ => [] end.

Lemma silent_step s w op :
  silent s ->
  let '(s', _, cs) := sender_step s w op in
  silent s' /\ cs = [] /\ (sn_complete s' = true -> sn_complete s = true).
Proof.
  intros Hsil. pose proof Hsil as [Hs Hc]. destruct op; cbn.
  - unfold tr_raft_snapshot_sender_next_chunk.
    replace (negb (sn_active s) || sn_complete s) with true; [done|].
    destruct Hs as [-> | ->]; [done|by rewrite orb_true_r].
  - unfold tr_raft_snapshot_sender_cancel_chunk, sn_claim_count. rewrite Hc. done.
  - unfold tr_raft_snapshot_sender_prepare_resume.
    replace (negb (sn_active s) || sn_complete s) with true; [done|].
    destruct Hs as [-> | ->]; [done|by rewrite orb_true_r].
  - unfold tr_raft_snapshot_sender_acknowledge. destruct (sn_active s) eqn:Ha; cbn [negb]; [|done].
    destruct (negb (ack_matches s ack)); [done|]. destruct Hs as [?| ->]; done.
  - split_and!; try done. by split; [left|].
Qed.

Lemma sender_step_ok s w acks op :
  sender_state s acks -> op_ack_in_range op ->
  let '(s', _, cs) := sender_step s w op in
  sender_state s' (acks ++ op_acks op) /\ Forall chunk_of_transfer cs.
Proof.
  intros [Hs|[Hs Hf]] Hop.
  2: { pose proof (silent_step s w op Hs) as Hstep.
       destruct (sender_step s w op) as [[s' w'] cs]. destruct Hstep as (H1 & -> & H2).
       split; [|done]. right. split; [done|]. intros Hc. apply Exists_app. left. auto. }
  destruct op; cbn [sender_step op_acks]; rewrite ?app_nil_r.
  - destruct (next_chunk_outcome config it digest Hconfig Hsize s w Hs) as
      [? ?|? claim ? Hcl|?????|?? slot].
    + split; [by left|done].
    + split; [by left|]. constructor; [|done]. exists (cl_offset claim). split; [|done].
      pose proof (chain_claims _ _ _ _ _ (sd_chain _ _ _ _ Hs)) as Hch. rewrite Hcl in Hch.
      by apply Forall_cons_1 in Hch as [[? _] _].
    + split; [by left|done].
    + split; [by left|]. constructor; [|done]. by eexists.
  - split; [|done]. left. by apply cancel_ok.
  - rewrite (resume_ok config it digest) by done. split; [|done]. left.
    apply restarted_ok; [done..|apply Hs].
  - destruct (acknowledge_outcome config it digest Hconfig Hsize s ack w Hs Hop).
    + split; [by left|done].
    + split; [by left|done].
    + split; [by left|done].
    + split; [|done]. right. split; [done|]. intros _. apply Exists_app. right.
      constructor. by eapply ack_matches_final.
  - cbn. split; [|done]. right. split; [by split; [left|]|done].
Qed.

Lemma sender_run_ok s w acks ops :
  sender_state s acks -> Forall op_ack_in_range ops ->
  let '(s', _, cs) := sender_run s w ops in
  sender_state s' (acks ++ concat (op_acks <$> ops)) /\ Forall chunk_of_transfer cs.
Proof.
  revert s w acks. induction ops as [|op ops IH]; intros s w acks Hs Hops; cbn [sender_run].
  { cbn. by rewrite app_nil_r. }
  apply Forall_cons_1 in Hops as [Hop Hops].
  pose proof (sender_step_ok s w acks op Hs Hop) as H1.
  destruct (sender_step s w op) as [[s1 w1] cs]. destruct H1 as [Hs1 Hcs].
  specialize (IH s1 w1 _ Hs1 Hops). destruct (sender_run s1 w1 ops) as [[s' w'] cs'].
  destruct IH as [Hs' Hcs']. rewrite fmap_cons. cbn [concat]. rewrite app_assoc.
  split; [done|]. by apply Forall_app.
Qed.
End Run.

(** ** The start of a transfer *)

Section Begin.
Context {W : Type} (config : tr_raft_snapshot_sender_config).

(** A sender between transfers. *)
Record sender_ready (s : tr_raft_snapshot_sender W) : Prop := {
  sr_config : sn_config s = config /\ sn_chunk_size s = sg_chunk_size config /\
              sn_max_inflight_chunks s = sg_max_inflight_chunks config;
  sr_storage : Z.of_nat (length (sn_chunk_storage s)) =
               sg_chunk_size config * sg_max_inflight_chunks config
}.

Definition config_in_range : Prop :=
  0 <= sg_chunk_size config /\ 0 <= sg_max_inflight_chunks config /\
  0 <= sg_max_snapshot_bytes config < 2 ^ 64.

Lemma create_ready allocated storage (s : tr_raft_snapshot_sender W) :
  config_in_range ->
  tr_raft_snapshot_sender_create config allocated storage = (SALTS_OK, Some s) ->
  (forall block, storage = Some block ->
     Z.of_nat (length block) = sg_chunk_size config * sg_max_inflight_chunks config) ->
  sender_config_ok config /\ sender_ready s.
Proof.
  intros (R1 & R2 & R3) Hc Hst. unfold tr_raft_snapshot_sender_create in Hc.
  destruct (_ || _) eqn:H1 in Hc; [done|]. destruct (_ || _) eqn:H2 in Hc; [done|].
  destruct allocated; [|done]. destruct storage as [block|]; [|done]. injection Hc as <-.
  rewrite !orb_false_iff, !Z.eqb_neq in H1. rewrite !orb_false_iff, !Z.eqb_neq, !Z.ltb_ge in H2.
  split; [split; naive_solver lia|]. split; [done|]. by apply Hst.
Qed.

Lemma begin_sending s t index st conf data digest src w s' w' :
  sender_config_ok config -> sender_ready s -> source_of (Item t index st conf data) digest src ->
  tr_raft_snapshot_sender_begin_source s t index st conf src w = (SALTS_OK, s', w') ->
  sending config (Item t index st conf data) digest s' /\
  Z.of_nat (length data) <= sg_max_snapshot_bytes config /\
  tr_raft_conf_validate conf = SALTS_OK /\ t <> 0 /\ index <> 0 /\ st <> 0 /\ st <= t /\
  sn_acknowledged_offset s' = 0 /\ sn_claims s' = [].
Proof.
  intros Hconfig [[R1 [R2 R3]] R4] Hsrc Hb. unfold tr_raft_snapshot_sender_begin_source in Hb.
  destruct (_ || _) eqn:H1 in Hb; [done|]. destruct (_ && _) in Hb; [done|].
  cbn -[failed] in Hb. injection Hb as <- _.
  rewrite !orb_false_iff, !Z.eqb_neq, !Z.ltb_ge in H1. rewrite R1, (so_size _ _ _ Hsrc) in H1.
  cbn [it_data] in H1. destruct H1 as [[[[[[_ H1] H2] H3] H4] H5] H6].
  pose proof (sk_window _ Hconfig) as Hw. split_and!; try done.
  2: { unfold failed, ok in H1. by destruct (tr_raft_conf_validate conf). }
  split; cbn; try done.
  - rewrite (so_size _ _ _ Hsrc), (so_digest _ _ _ Hsrc). done.
  - split; [lia|]. split; [apply Z.divide_0_r|]. cbn. lia.
  - constructor.
  - unfold sn_claim_count. cbn. lia.
Qed.

Lemma chunk_of_valid (it : snapshot_item) digest offset :
  sender_config_ok config -> Z.of_nat (length (it_data it)) < 2 ^ 64 ->
  tr_raft_conf_validate (it_configuration it) = SALTS_OK ->
  it_leader_term it <> 0 -> it_index it <> 0 -> it_term it <> 0 ->
  it_term it <= it_leader_term it -> chunk_offset config it offset ->
  tr_snapshot_chunk_valid (chunk_of config it digest offset) = true.
Proof.
  intros Hc Hs Hv H1 H2 H3 H4 Ho. pose proof (chunk_length_range config it Hc _ Ho) as Hl.
  pose proof (sk_chunk _ Hc). destruct (sk_ids _ Hc) as (I1 & I2 & _).
  destruct (Ho) as (Ho0 & _ & Hlt).
  unfold tr_snapshot_chunk_valid, sc_data_length. cbn [sc_from sc_to sc_term sc_snapshot_index
    sc_snapshot_term sc_snapshot_size sc_snapshot_offset sc_data sc_has_configuration
    sc_configuration sc_done chunk_of].
  rewrite (length_slice (it_data it)) by lia. rewrite !u64_small by lia.
  assert (chunk_length config it offset <= sg_chunk_size config) by (unfold chunk_length; lia).
  replace (_ || _ || _ || _ || _ || _ || _ || _ || _) with false.
  2: { symmetry. rewrite !orb_false_iff, !Z.eqb_neq, !Z.ltb_ge. lia. }
  destruct (offset =? 0) eqn:Hz; cbn [negb andb orb failed ok].
  - rewrite Hv. cbn. rewrite Bool.eqb_reflx. cbn.
    destruct (_ =? Z.of_nat _) eqn:He; [done|]. cbn. unfold chunk_length in *.
    replace (_ =? 0) with false by blia. done.
  - rewrite Bool.eqb_reflx. cbn [andb orb].
    destruct (_ =? Z.of_nat _) eqn:He; [done|]. cbn. unfold chunk_length in *.
    replace (_ =? 0) with false by blia. done.
Qed.
End Begin.

(** C30. From the start of a transfer, whatever chunks are requested, cancelled,
    acknowledged or refused and however often the transfer is resumed, with
    reads that may fail: every chunk handed out is valid, starts at a multiple
    of the chunk size and carries the bytes of the snapshot at its offset; and
    the sender reports the transfer as complete only after an acknowledgement
    of the peer for the whole of this snapshot. *)
Theorem sender_chunks_exact {W : Type} (config : tr_raft_snapshot_sender_config)
    (allocated : bool) (storage : option (list Z)) (t index st : Z) (conf : tr_raft_conf)
    (data digest : list Z) (src : tr_raft_snapshot_source W)
    (s0 s s' : tr_raft_snapshot_sender W) (w0 w w' : W) (ops : list sender_op)
    (cs : list tr_raft_snapshot_chunk) :
  config_in_range config ->
  (forall block, storage = Some block ->
     Z.of_nat (length block) = sg_chunk_size config * sg_max_inflight_chunks config) ->
  tr_raft_snapshot_sender_create config allocated storage = (SALTS_OK, Some s0) ->
  source_of (Item t index st conf data) digest src ->
  tr_raft_snapshot_sender_begin_source s0 t index st conf src w0 = (SALTS_OK, s, w) ->
  Forall op_ack_in_range ops -> sender_run s w ops = (s', w', cs) ->
  Forall (fun c => tr_snapshot_chunk_valid c = true /\
                   chunk_of_transfer config (Item t index st conf data) digest c) cs /\
  (sn_complete s' = true ->
   Exists (final_ack config (Item t index st conf data) digest) (concat (op_acks <$> ops))).
Proof.
  intros Hr Hst Hc Hsrc Hb Hops Hrun.
  destruct (create_ready config _ _ _ Hr Hc Hst) as [Hok Hready].
  destruct (begin_sending config _ _ _ _ _ _ _ _ _ _ _ Hok Hready Hsrc Hb)
    as (Hs & Hsz & Hv & H1 & H2 & H3 & H4 & _).
  assert (Z.of_nat (length data) < 2 ^ 64) as Hlt by (destruct Hr; lia).
  pose proof (sender_run_ok config (Item t index st conf data) digest Hok Hlt s w [] ops
                (or_introl Hs) Hops) as H. rewrite Hrun in H. destruct H as [Hs' Hcs]. split.
  - eapply list.Forall_impl; [exact Hcs|]. intros c (offset & Ho & ->). split; [|by exists offset].
    by apply chunk_of_valid.
  - intros Hcomp. destruct Hs' as [Hs'|[_ Hf]]; [|by apply Hf].
    destruct (sd_state _ _ _ _ Hs'). congruence.
Qed.

(** The copy in memory is a source of its bytes. *)
Lemma memory_source_of {W : Type} t index st conf data digest :
  Z.of_nat (length data) < 2 ^ 64 ->
  source_of (W := W) (Item t index st conf data) digest (memory_source digest data).
Proof.
  intros Hlen. assert (forall offset n r bytes,
    tr_snapshot_memory_read_at data offset n = (r, bytes) ->
    (r <> SALTS_OK /\ bytes = []) \/ (r = SALTS_OK /\ bytes = slice data offset n)) as Hread.
  { intros offset n r bytes. unfold tr_snapshot_memory_read_at.
    destruct (_ || _); intros [= <- <-]; auto. }
  split; cbn; try done.
  - intros read_at w offset n w' r bytes [= <-].
    destruct (tr_snapshot_memory_read_at data offset n) as [r' bytes'] eqn:E.
    intros [= <- <- <-] Hn. destruct (Hread _ _ _ _ E) as [[_ ->]|[_ ->]]; [cbn; lia|].
    unfold slice. rewrite length_take. lia.
  - intros read_at w offset n w' bytes [= <-].
    destruct (tr_snapshot_memory_read_at data offset n) as [r' bytes'] eqn:E.
    intros [= <- -> <-] _ _ _ _. destruct (Hread _ _ _ _ E) as [[? _]|[_ ->]]; done.
Qed.

(** ** Ownership of sources *)

Inductive owner_op {W : Type} :=
| BeginSource (leader_term index term : Z) (conf : tr_raft_conf) (src : tr_raft_snapshot_source W)
| SenderOp (op : sender_op).

Section Ownership.
Context {W : Type} (released : W -> Z).

(** The sources count their releases; reading does not release. *)
Definition counted_source (src : tr_raft_snapshot_source W) : Prop :=
  (forall read_at w offset n, src_read_at src = Some read_at ->
     released (fst (fst (read_at w offset n))) = released w) /\
  exists release, src_release src = Some release /\
    forall w, released (release w) = released w + 1.

(** The state, and how many sources the sender has taken. *)
Fixpoint owner_run (s : tr_raft_snapshot_sender W) (w : W) (ops : list (@owner_op W))
    : tr_raft_snapshot_sender W * W * Z :=
  match ops with
  | [] => (s, w, 0)
  | BeginSource t index st conf src :: ops =>
      let '(r, s, w) := tr_raft_snapshot_sender_begin_source s t index st conf src w in
      let '(s, w, taken) := owner_run s w ops in
      (s, w, (if ok r then 1 else 0) + taken)
  | SenderOp op :: ops =>
      let '(s, w, _) := sender_step s w op in owner_run s w ops
  end.

Definition op_counted (op : @owner_op W) : Prop :=
  match op with BeginSource _ _ _ _ src => counted_source src | SenderOp _ => True end.

Definition held (s : tr_raft_snapshot_sender W) : Z := if sn_source_owned s then 1 else 0.

Definition holds_counted (s : tr_raft_snapshot_sender W) : Prop :=
  if sn_source_owned s then counted_source (sn_source s)
  else src_read_at (sn_source s) = None.

Lemma release_balance s w :
  holds_counted s ->
  let '(s', w') := tr_raft_snapshot_sender_release_source s w in
  held s' = 0 /\ holds_counted s' /\ released w' = released w + held s.
Proof.
  unfold holds_counted, held. intros Hs. cbn. split_and!; try done.
  destruct (sn_source_owned s); [|lia]. destruct Hs as (_ & release & -> & Hr). apply Hr.
Qed.

Lemma next_chunk_balance s w :
  holds_counted s ->
  let '(_, s', w', _) := tr_raft_snapshot_sender_next_chunk s w in
  held s' = held s /\ holds_counted s' /\ released w' = released w.
Proof.
  intros Hs. unfold tr_raft_snapshot_sender_next_chunk.
  destruct (negb _ || _); [done|]. destruct (_ <=? _); [by destruct (negb _)|].
  destruct (_ && _); [done|].
  destruct (tr_raft_snapshot_sender_find_free_slot s) as [[|e] slot]; [|done].
  set (n := if _ <? _ then _ else _). destruct (negb (n =? 0)); [|done].
  destruct (source_read (sn_source s) (sn_next_offset s) n w) as [[w1 r] bytes] eqn:E.
  assert (released w1 = released w) as Hw.
  { unfold source_read in E. unfold holds_counted in Hs.
    destruct (src_read_at (sn_source s)) as [read_at|] eqn:Hr; [|by injection E as <- _ _].
    destruct (sn_source_owned s); [|done]. destruct Hs as [Hs _].
    by rewrite <- (Hs read_at w (sn_next_offset s) n Hr), E. }
  destruct r; [|done]. by destruct (negb _).
Qed.

Lemma sender_step_balance s w op :
  holds_counted s ->
  let '(s', w', _) := sender_step s w op in
  holds_counted s' /\ released w' + held s' = released w + held s.
Proof.
  intros Hs. destruct op; cbn [sender_step].
  - pose proof (next_chunk_balance s w Hs) as H.
    destruct (tr_raft_snapshot_sender_next_chunk s w) as [[[? ?] ?] ?]. destruct H as (-> & ? & ->).
    done.
  - unfold tr_raft_snapshot_sender_cancel_chunk. destruct (_ =? 0); [done|]. by destruct (negb _).
  - unfold tr_raft_snapshot_sender_prepare_resume. by destruct (_ || _).
  - unfold tr_raft_snapshot_sender_acknowledge.
    destruct (negb (sn_active s)); [done|]. destruct (negb (ack_matches s ack)); [done|].
    destruct (sn_complete s); [done|]. destruct (_ || _); [done|].
    destruct (negb (sa_accepted ack)); [by destruct (_ <? _)|].
    destruct (_ <? _); [done|]. destruct (negb _); [done|].
    set (s1 := s <| sn_acknowledged_offset := _ |> <| sn_claims := _ |> <| sn_complete := _ |>).
    destruct (sn_complete s1); [|done].
    pose proof (release_balance s1 w Hs) as H.
    destruct (tr_raft_snapshot_sender_release_source s1 w) as [s2 w2].
    destruct H as (-> & ? & ->). split; [done|]. change (held s1) with (held s). lia.
  - unfold tr_raft_snapshot_sender_reset, tr_raft_snapshot_sender_clear_transfer.
    pose proof (release_balance s w Hs) as H.
    destruct (tr_raft_snapshot_sender_release_source s w) as [s2 w2].
    destruct H as (Hh & Hc & ->). unfold held, holds_counted in *. cbn. split; [done|].
    rewrite Hh. lia.
Qed.

Lemma begin_balance s w t index st conf src :
  holds_counted s -> counted_source src ->
  let '(r, s', w') := tr_raft_snapshot_sender_begin_source s t index st conf src w in
  holds_counted s' /\ released w' + held s' = released w + held s + (if ok r then 1 else 0).
Proof.
  intros Hs Hsrc. unfold tr_raft_snapshot_sender_begin_source.
  destruct (_ || _); [split; [done|cbn; lia]|]. destruct (_ && _); [split; [done|cbn; lia]|].
  unfold tr_raft_snapshot_sender_clear_transfer. pose proof (release_balance s w Hs) as H.
  destruct (tr_raft_snapshot_sender_release_source s w) as [s2 w2].
  destruct H as (_ & _ & ->). unfold held, holds_counted. cbn. split; [done|lia].
Qed.

Lemma owner_run_balance s w ops :
  holds_counted s -> Forall op_counted ops ->
  let '(s', w', taken) := owner_run s w ops in
  holds_counted s' /\ released w' + held s' = released w + held s + taken.
Proof.
  revert s w. induction ops as [|op ops IH]; intros s w Hs Hops; cbn [owner_run].
  { split; [done|lia]. }
  apply Forall_cons_1 in Hops as [Hop Hops]. destruct op as [t index st conf src|op].
  - pose proof (begin_balance s w t index st conf src Hs Hop) as H.
    destruct (tr_raft_snapshot_sender_begin_source s t index st conf src w) as [[r s1] w1].
    destruct H as [H1 H2]. specialize (IH s1 w1 H1 Hops).
    destruct (owner_run s1 w1 ops) as [[s' w'] taken]. destruct IH. split; [done|lia].
  - pose proof (sender_step_balance s w op Hs) as H.
    destruct (sender_step s w op) as [[s1 w1] ?]. destruct H as [H1 H2].
    specialize (IH s1 w1 H1 Hops). destruct (owner_run s1 w1 ops) as [[s' w'] taken].
    destruct IH. split; [done|lia].
Qed.
End Ownership.

(** Whatever is done with a sender between its creation and its
    destruction, every source it has taken is released exactly once: the number
    of releases is the number of transfers started. *)
Theorem sources_released_once {W : Type} (released : W -> Z)
    (config : tr_raft_snapshot_sender_config) (allocated : bool) (storage : option (list Z))
    (s s' : tr_raft_snapshot_sender W) (w w' : W) (ops : list (@owner_op W)) (taken : Z) :
  tr_raft_snapshot_sender_create config allocated storage = (SALTS_OK, Some s) ->
  Forall (op_counted released) ops -> owner_run s w ops = (s', w', taken) ->
  released (tr_raft_snapshot_sender_destroy s' w') = released w + taken.
Proof.
  intros Hc Hops Hrun. assert (sn_source_owned s = false /\ src_read_at (sn_source s) = None) as [H1 H2].
  { unfold tr_raft_snapshot_sender_create in Hc. destruct (_ || _) in Hc; [done|].
    destruct (_ || _) in Hc; [done|]. destruct allocated; [|done].
    by destruct storage; [injection Hc as <-|]. }
  pose proof (owner_run_balance released s w ops) as H. rewrite Hrun in H.
  destruct H as [Hh Hb]; [by unfold holds_counted; rewrite H1|done|].
  unfold tr_raft_snapshot_sender_destroy, tr_raft_snapshot_sender_clear_transfer.
  pose proof (release_balance released s' w' Hh) as Hr.
  destruct (tr_raft_snapshot_sender_release_source s' w') as [s2 w2]. cbn.
  destruct Hr as (_ & _ & ->). unfold held at 2 in Hb. rewrite H1 in Hb. lia.
Qed.

(** ** Examples *)

Definition sender_config_2 : tr_raft_snapshot_sender_config := SenderConfig 1 2 1000 3 2.

Definition data_2 : list Z := [1; 2; 3; 4; 5; 6; 7; 8].

(** The sender when it has been created. *)
Definition fresh_sender {W : Type} : tr_raft_snapshot_sender W :=
  SnapshotSender sender_config_2 zero_source (replicate 6 0) 0 3 2 zero_digest 0 0 0 zero_conf
    0 0 [] false false false.

Definition source_2 {W : Type} : tr_raft_snapshot_source W :=
  memory_source (checksum_of data_2) data_2.

Definition started_sender : tr_raft_snapshot_sender unit :=
  fresh_sender <| sn_source := source_2 |> <| sn_size := 8 |>
    <| sn_digest := checksum_of data_2 |> <| sn_leader_term := 4 |> <| sn_snapshot_index := 9 |>
    <| sn_snapshot_term := 3 |> <| sn_configuration := example_conf |>
    <| sn_source_owned := true |> <| sn_active := true |>.

Definition ack_2 (next : Z) : tr_raft_snapshot_ack :=
  SnapshotAck 2 1 4 9 8 next (checksum_of data_2) true.

(** Two chunks and a refusal, an acknowledgement, the last chunk twice. *)
Definition sends_2 : list sender_op :=
  [NextChunk; NextChunk; NextChunk; Acknowledge (ack_2 3); PrepareResume; NextChunk; NextChunk;
   CancelChunk 6; NextChunk; Acknowledge (ack_2 8)].

Lemma sender_chunks_exact_witness :
  let '(s', _, cs) := sender_run started_sender tt sends_2 in
  sc_data <$> cs = [[1; 2; 3]; [4; 5; 6]; [4; 5; 6]; [7; 8]; [7; 8]] /\ sn_complete s' = true /\
  Forall (fun c => tr_snapshot_chunk_valid c = true /\
            chunk_of_transfer sender_config_2 (Item 4 9 3 example_conf data_2)
              (checksum_of data_2) c) cs /\
  (sn_complete s' = true ->
   Exists (final_ack sender_config_2 (Item 4 9 3 example_conf data_2) (checksum_of data_2))
     (concat (op_acks <$> sends_2))).
Proof.
  destruct (sender_run started_sender tt sends_2) as [[s' w'] cs] eqn:Hrun.
  split; [change cs with (snd (s', w', cs)); rewrite <- Hrun; vm_compute; reflexivity|].
  split; [change s' with (fst (fst (s', w', cs))); rewrite <- Hrun; vm_compute; reflexivity|].
  refine (sender_chunks_exact sender_config_2 true (Some (replicate 6 0)) 4 9 3 example_conf data_2
            (checksum_of data_2) source_2 fresh_sender started_sender s' tt tt w' sends_2 cs
            _ _ _ _ _ _ Hrun).
  - split_and!; cbn; lia.
  - by intros block [= <-].
  - reflexivity.
  - apply memory_source_of. cbn. lia.
  - reflexivity.
  - repeat constructor; cbn; lia.
Defined.

(** A source that counts its releases. *)
Definition counting_source : tr_raft_snapshot_source Z :=
  SnapshotSource 8 (checksum_of data_2)
    (Some (fun w offset capacity =>
             let '(r, bytes) := tr_snapshot_memory_read_at data_2 offset capacity in
             (w, r, bytes)))
    (Some (fun w => w + 1)).

(** The second transfer replaces the first one; the third is refused. *)
Definition owns_2 : list (@owner_op Z) :=
  [BeginSource 4 9 3 example_conf counting_source; SenderOp NextChunk; SenderOp ResetSender;
   BeginSource 4 9 3 example_conf counting_source; SenderOp NextChunk;
   BeginSource 0 9 3 example_conf counting_source].

Lemma sources_released_once_witness :
  let '(s', w', taken) := owner_run fresh_sender 0 owns_2 in
  taken = 2 /\ id (tr_raft_snapshot_sender_destroy s' w') = 0 + taken.
Proof.
  destruct (owner_run fresh_sender 0 owns_2) as [[s' w'] taken] eqn:Hrun.
  split; [change taken with (snd (s', w', taken)); rewrite <- Hrun; vm_compute; reflexivity|].
  refine (sources_released_once id sender_config_2 true (Some (replicate 6 0)) fresh_sender s' 0 w'
            owns_2 taken _ _ Hrun).
  - reflexivity.
  - assert (counted_source id counting_source) as Hc.
    { split; [|by eexists]. intros read_at w offset n [= <-].
      by destruct (tr_snapshot_memory_read_at data_2 offset n). }
    repeat (constructor; [done|]). constructor.
Defined.
