(* ===== verification/CoreEmit.v ===== *)
(** * Ready effects and replication: [src/core/raft_core.c]

    The frame of a call (begin, capacity, finish), the emission of messages and
    snapshot requests, and the filling of append windows. *)

From S2P Require Import Prelude Configuration Membership PeerSet Transition Window Vec.
From S2P Require Import Log CoreState.
From Stdlib Require Import ZArith Lia.
From stdpp Require Import base numbers list tactics.
Open Scope Z_scope.
Open Scope raft_scope.

Section Core.
Context {V : Type} `{VecOps V}.
Implicit Types (c : tr_raft_core V) (r : tr_raft_ready).

(** ** The frame of a call *)

(** The last component is [before], which callers use on success only. *)
Definition tr_begin c r : status * tr_raft_core V * tr_raft_ready * tr_raft_before :=
  let before := Before (c_role c) (c_term c) (c_voted_for c) in
  if negb (r_message_capacity r =? 0) && negb (r_has_buffer r)
  then (SALTS_EINVAL, c, r, before)
  else if c_in_call c || c_ready_outstanding c then (SALTS_EPROTO, c, r, before)
  else (SALTS_OK, c <| c_in_call := true |>, tr_reset_ready r, before).

Definition tr_require_capacity c r (required : Z)
    : status * tr_raft_core V * tr_raft_ready :=
  if required <=? r_message_capacity r then (SALTS_OK, c, r)
  else (SALTS_ENOSPC, c <| c_in_call := false |>, tr_reset_ready r).

(** The entries a pointer into the log reaches: those from [first] on. *)
Definition log_slice (log : tr_raft_log V) (first : Z) (count : nat)
    : list tr_raft_entry := omap id (log_range log first count).

Definition tr_finish c r (before : tr_raft_before)
    : status * tr_raft_core V * tr_raft_ready :=
  let '(c, r) :=
    if c_apply_admitted_index c <? c_commit_index c then
      let first_index := c_apply_admitted_index c +64 1 in
      let count := c_commit_index c -64 c_apply_admitted_index c in
      (c <| c_pending_apply_index := c_commit_index c |>,
       r <| r_committed_entries := log_slice (c_log c) first_index (Z.to_nat count) |>
         <| r_committed_entry_count := count |>)
    else (c, r) in
  let r := r <| r_hard_state_changed :=
                  negb (before_term before =? c_term c) ||
                  negb (before_voted_for before =? c_voted_for c) |>
             <| r_term := c_term c |> <| r_voted_for := c_voted_for c |>
             <| r_role_changed := negb (role_eqb (before_role before) (c_role c)) |>
             <| r_role := c_role c |> in
  let c := c <| c_ready_outstanding :=
                  negb (r_message_count r =? 0) || r_hard_state_changed r ||
                  r_role_changed r || r_log_changed r || r_commit_changed r ||
                  negb (r_committed_entry_count r =? 0) ||
                  negb (Z.of_nat (length (r_read_states r)) =? 0) ||
                  negb (r_snapshot_request_count r =? 0) |>
             <| c_in_call := false |> in
  (SALTS_OK, c, r).

(** ** Emission *)

Definition tr_emit c r (type : tr_raft_message_type) (to : Z) (granted : bool)
    : bool * tr_raft_ready :=
  if tr_peer_paused c to then (false, r)
  else
    let m := zero_message <| m_type := type |> <| m_from := c_self_id c |>
               <| m_to := to |> <| m_term := c_term c |>
               <| m_campaign_term := c_campaign_term c |>
               <| m_last_log_index := tr_raft_log_last_index (c_log c) |>
               <| m_last_log_term := tr_raft_log_last_term (c_log c) |>
               <| m_granted := granted |> in
    (true, r <| r_messages := r_messages r ++ [m] |>).

Definition tr_emit_snapshot_request c r (peer_index : Z) : tr_raft_ready :=
  let peer_id := tr_peer_id c peer_index in
  if tr_peer_index_paused c peer_index then r
  else if existsb (fun s => sr_peer_id s =? peer_id) (r_snapshot_requests r) then r
  else r <| r_snapshot_requests :=
              r_snapshot_requests r ++
              [SnapshotRequest peer_id (c_term c) (log_base_index (c_log c))
                 (log_base_term (c_log c))] |>.

Definition is_remote_voter c (node_id : Z) : bool :=
  negb (node_id =? c_self_id c) &&
  tr_raft_membership_is_voter (tr_core_membership c) node_id.

Definition tr_broadcast c r (type : tr_raft_message_type) : tr_raft_ready :=
  fold_left
    (fun r index =>
       let node_id := tr_peer_id c index in
       if is_remote_voter c node_id then snd (tr_emit c r type node_id false) else r)
    (peer_indices c) r.

Definition tr_broadcast_read_index c r (context_id : Z) : tr_raft_ready :=
  fold_left
    (fun r index =>
       let node_id := tr_peer_id c index in
       if is_remote_voter c node_id then
         match tr_emit c r TR_RAFT_MSG_READ_INDEX_REQUEST node_id false with
         | (true, r) => update_last (fun m => m <| m_context_id := context_id |>) r
         | (false, r) => r
         end
       else r)
    (peer_indices c) r.

(** ** Replication *)

(** The entries of an append request: a null entry would be dereferenced. *)
Definition append_entries (log : tr_raft_log V) (next_index entry_count : Z)
    : list tr_raft_entry :=
  (fun k => default zero_entry (tr_raft_log_get log (next_index +64 Z.of_nat k)))
  <$> seq 0 (Z.to_nat entry_count).

Definition previous_term (log : tr_raft_log V) (next_index : Z) : Z :=
  if next_index -64 1 =? log_base_index log then log_base_term log
  else term_at (tr_raft_log_get log (next_index -64 1)).

Definition window_limit c (w : tr_raft_append_window) : Z :=
  if w_probe w then TR_RAFT_DEFAULT_MAX_INFLIGHT_APPEND_REQUESTS
  else c_max_inflight_append_requests c.

(** The entries to send and the message type, or [None] when nothing is sent
    now. *)
Definition replication_plan c r (peer_index : Z) (allow_heartbeat : bool)
    : option (tr_raft_message_type * Z) :=
  let w := window_at c peer_index in
  let next_index := next_at c peer_index in
  let last_index := tr_raft_log_last_index (c_log c) in
  if next_index <=? last_index then
    if (window_limit c w <=? w_count w) || (r_message_capacity r <=? r_message_count r)
    then None
    else
      let entry_count := last_index -64 next_index +64 1 in
      Some (TR_RAFT_MSG_APPEND_REQUEST,
            if TR_RAFT_MAX_APPEND_ENTRIES <? entry_count
            then TR_RAFT_MAX_APPEND_ENTRIES else entry_count)
  else if negb allow_heartbeat || (r_message_capacity r <=? r_message_count r)
  then None
  else Some (TR_RAFT_MSG_HEARTBEAT_REQUEST, 0).

Definition tr_emit_replication c r (peer_index : Z) (allow_heartbeat : bool)
    : bool * tr_raft_core V * tr_raft_ready :=
  let next_index := next_at c peer_index in
  if tr_peer_index_paused c peer_index then (false, c, r)
  else if next_index <=? log_base_index (c_log c) then
    let c := set_window c peer_index (tr_append_window_reset true) in
    (true, c, tr_emit_snapshot_request c r peer_index)
  else
    match replication_plan c r peer_index allow_heartbeat with
    | None => (false, c, r)
    | Some (type, entry_count) =>
        match tr_emit c r type (tr_peer_id c peer_index) false with
        | (false, r) => (false, c, r)
        | (true, r) =>
            let r := update_last
                       (fun m => m <| m_previous_log_index := next_index -64 1 |>
                                   <| m_previous_log_term :=
                                        previous_term (c_log c) next_index |>
                                   <| m_leader_commit := c_commit_index c |>
                                   <| m_entries :=
                                        append_entries (c_log c) next_index entry_count |>)
                       r in
            if negb (entry_count =? 0) then
              match tr_append_window_push (window_at c peer_index) (next_index -64 1)
                      (next_index +64 entry_count -64 1) with
              | (false, _) =>
                  (false, c, r <| r_messages := removelast (r_messages r) |>)
              | (true, w) =>
                  let c := set_window c peer_index w in
                  (true, set_next c peer_index (next_index +64 entry_count), r)
              end
            else (true, c, r)
        end
    end.

Definition tr_broadcast_replication c r : tr_raft_core V * tr_raft_ready :=
  fold_left
    (fun '(c, r) index =>
       if negb (tr_peer_id c index =? c_self_id c) then
         let '(_, c, r) := tr_emit_replication c r index true in (c, r)
       else (c, r))
    (peer_indices c) (c, r).

(** The peers that need a snapshot first. *)
Definition fill_snapshots c r : tr_raft_core V * tr_raft_ready :=
  fold_left
    (fun '(c, r) index =>
       if negb (tr_peer_id c index =? c_self_id c) &&
          (next_at c index <=? log_base_index (c_log c)) then
         let '(_, c, r) := tr_emit_replication c r index false in (c, r)
       else (c, r))
    (peer_indices c) (c, r).

(** One round over the peers from the first of [indices] on; it stops when the
    message buffer is full. *)
Fixpoint fill_round (indices : list Z) (emitted : bool) c r
    : bool * tr_raft_core V * tr_raft_ready :=
  match indices with
  | [] => (emitted, c, r)
  | index :: rest =>
      if r_message_count r <? r_message_capacity r then
        if (tr_peer_id c index =? c_self_id c) ||
           (next_at c index <=? log_base_index (c_log c)) ||
           (tr_raft_log_last_index (c_log c) <? next_at c index)
        then fill_round rest emitted c r
        else
          let '(sent, c, r) := tr_emit_replication c r index false in
          fill_round rest (sent || emitted) c r
      else (emitted, c, r)
  end.

(** The rounds of [tr_fill_replication_windows]. A round that emits adds a
    message, so the free slots of the buffer bound their number
    ([fill_rounds_enough]). *)
Fixpoint fill_rounds (fuel : nat) c r : tr_raft_core V * tr_raft_ready :=
  match fuel with
  | O => (c, r)
  | S fuel' =>
      let '(emitted, c, r) := fill_round (peer_indices c) false c r in
      if emitted && (r_message_count r <? r_message_capacity r)
      then fill_rounds fuel' c r else (c, r)
  end.

Definition free_slots r : nat := Z.to_nat (r_message_capacity r - r_message_count r).

Definition tr_fill_replication_windows c r : tr_raft_core V * tr_raft_ready :=
  if negb (role_eqb (c_role c) TR_RAFT_LEADER) then (c, r)
  else
    let '(c, r) := fill_snapshots c r in
    fill_rounds (S (free_slots r)) c r.

Fixpoint fill_peer_loop (fuel : nat) (peer_index : Z) c r
    : tr_raft_core V * tr_raft_ready :=
  match fuel with
  | O => (c, r)
  | S fuel' =>
      if (r_message_count r <? r_message_capacity r) &&
         (next_at c peer_index <=? tr_raft_log_last_index (c_log c))
      then
        match tr_emit_replication c r peer_index false with
        | (true, c, r) => fill_peer_loop fuel' peer_index c r
        | (false, c, r) => (c, r)
        end
      else (c, r)
  end.

Definition tr_fill_peer_replication_window c r (peer_index : Z)
    : tr_raft_core V * tr_raft_ready :=
  if next_at c peer_index <=? log_base_index (c_log c) then
    let '(_, c, r) := tr_emit_replication c r peer_index false in (c, r)
  else fill_peer_loop (S (free_slots r)) peer_index c r.

End Core.
