(* ===== verification/CoreElection.v ===== *)
(** * Elections and reads: [src/core/raft_core.c]

    Read barriers, the transitions to candidate and leader, and the handlers of
    the vote, timeout and read-index messages. *)

From S2P Require Import Prelude Configuration Membership PeerSet Transition Window Vec.
From S2P Require Import Log CoreState CoreEmit.
From Stdlib Require Import ZArith Lia.
From stdpp Require Import base numbers list tactics.
Open Scope Z_scope.
Open Scope raft_scope.

Section Core.
Context {V : Type} `{VecOps V}.
Implicit Types (c : tr_raft_core V) (r : tr_raft_ready) (m : tr_raft_message).

(** ** Read barriers *)

Definition tr_read_emit_active c r : tr_raft_core V * tr_raft_ready :=
  let states := (fun context_id => ReadState context_id (c_pending_read_index c))
                <$> c_pending_read_contexts c in
  let r := r <| r_read_states := states |> in
  let r := match states with
           | first :: _ => r <| r_read_state_ready := true |> <| r_read_state := first |>
           | [] => r
           end in
  (tr_read_clear_active c, r).

Definition tr_read_move_waiting_to_active c : tr_raft_core V :=
  c <| c_pending_read_contexts := c_waiting_read_contexts c |>
    <| c_waiting_read_contexts := [] |>.

Definition tr_read_start_active_barrier c r : tr_raft_core V * tr_raft_ready :=
  let self_index := tr_voter_index c (c_self_id c) in
  let c := c <| c_pending_read_context_id := nth 0 (c_pending_read_contexts c) 0 |>
             <| c_pending_read_index := c_commit_index c |>
             <| c_pending_read_acks := bit32 self_index |> in
  if tr_core_has_quorum c (c_pending_read_acks c) then tr_read_emit_active c r
  else (c, tr_broadcast_read_index c r (c_pending_read_context_id c)).

(** ** Campaigns *)

Definition become_leader_peer (next_index index : Z) c : tr_raft_core V :=
  let c := set_window c index (tr_append_window_reset true) in
  let c := set_next c index next_index in
  set_match c index 0.

Definition tr_become_leader c r : tr_raft_core V * tr_raft_ready :=
  let next_index := tr_raft_log_last_index (c_log c) +64 1 in
  let self_index := tr_voter_index c (c_self_id c) in
  let c := c <| c_role := TR_RAFT_LEADER |> <| c_leader_id := c_self_id c |>
             <| c_campaign_term := 0 |> <| c_pre_votes := 0 |> <| c_votes := 0 |>
             <| c_election_elapsed_ticks := 0 |> <| c_heartbeat_elapsed_ticks := 0 |>
             <| c_check_quorum_elapsed_ticks := 0 |>
             <| c_recent_active := bit32 self_index |>
             <| c_leadership_transfer_target := 0 |>
             <| c_leadership_transfer_elapsed_ticks := 0 |>
             <| c_leadership_transfer_sent := false |> in
  let c := tr_read_reset_all c in
  let c := fold_left (fun c index => become_leader_peer next_index index c)
             (peer_indices c) c in
  let c := set_match c self_index (next_index -64 1) in
  let w := window_at c self_index in
  let c := set_window c self_index (Window (w_items w) (w_head w) (w_count w) false) in
  tr_broadcast_replication c r.

Definition tr_start_election c r : tr_raft_core V * tr_raft_ready :=
  let self_index := tr_voter_index c (c_self_id c) in
  let c := c <| c_term := c_campaign_term c |> <| c_campaign_term := 0 |>
             <| c_role := TR_RAFT_CANDIDATE |> <| c_leader_id := 0 |>
             <| c_voted_for := c_self_id c |> <| c_pre_votes := 0 |>
             <| c_votes := bit32 self_index |> in
  if tr_core_has_quorum c (c_votes c) then tr_become_leader c r
  else (c, tr_broadcast c r TR_RAFT_MSG_VOTE_REQUEST).

Definition tr_start_pre_vote c r : tr_raft_core V * tr_raft_ready :=
  let self_index := tr_voter_index c (c_self_id c) in
  let c := c <| c_role := TR_RAFT_PRE_CANDIDATE |> <| c_leader_id := 0 |>
             <| c_campaign_term := c_term c +64 1 |>
             <| c_pre_votes := bit32 self_index |> <| c_votes := 0 |> in
  if tr_core_has_quorum c (c_pre_votes c) then tr_start_election c r
  else (c, tr_broadcast c r TR_RAFT_MSG_PRE_VOTE_REQUEST).

Definition tr_will_pre_vote_win c m (voter_index : Z) : bool :=
  let bit := bit32 voter_index in
  role_eqb (c_role c) TR_RAFT_PRE_CANDIDATE && (m_term m <=? c_term c) &&
  (m_campaign_term m =? c_campaign_term c) && m_granted m &&
  (Z.land (c_pre_votes c) bit =? 0) &&
  tr_core_has_quorum c (Z.lor (c_pre_votes c) bit).

Definition tr_will_vote_win c m (voter_index : Z) : bool :=
  let bit := bit32 voter_index in
  role_eqb (c_role c) TR_RAFT_CANDIDATE && (m_term m =? c_term c) && m_granted m &&
  (Z.land (c_votes c) bit =? 0) && tr_core_has_quorum c (Z.lor (c_votes c) bit).

(** ** Vote messages *)

Definition tr_step_pre_vote_request c m r : tr_raft_core V * tr_raft_ready :=
  let term_available := negb (c_term c =? UINT64_MAX) &&
                        (c_term c +64 1 <=? m_campaign_term m) in
  let granted := c_self_is_voter c && term_available && tr_log_is_up_to_date c m in
  let c := c <| c_campaign_term := m_campaign_term m |> in
  let r := snd (tr_emit c r TR_RAFT_MSG_PRE_VOTE_RESPONSE (m_from m) granted) in
  (c <| c_campaign_term := 0 |>, r).

Definition tr_step_pre_vote_response c m r (voter_index : Z)
    : tr_raft_core V * tr_raft_ready :=
  let bit := bit32 voter_index in
  if c_term c <? m_term m then (tr_become_follower c (m_term m), r)
  else if negb (role_eqb (c_role c) TR_RAFT_PRE_CANDIDATE) ||
          negb (m_campaign_term m =? c_campaign_term c) || negb (m_granted m) ||
          negb (Z.land (c_pre_votes c) bit =? 0)
  then (c, r)
  else
    let c := c <| c_pre_votes := Z.lor (c_pre_votes c) bit |> in
    if tr_core_has_quorum c (c_pre_votes c) then tr_start_election c r else (c, r).

Definition tr_step_vote_request c m r : tr_raft_core V * tr_raft_ready :=
  let c := if c_term c <? m_term m then tr_become_follower c (m_term m) else c in
  if c_self_is_voter c && (m_term m =? c_term c) &&
     ((c_voted_for c =? 0) || (c_voted_for c =? m_from m)) && tr_log_is_up_to_date c m
  then
    let c := c <| c_voted_for := m_from m |> <| c_election_elapsed_ticks := 0 |> in
    (c, snd (tr_emit c r TR_RAFT_MSG_VOTE_RESPONSE (m_from m) true))
  else (c, snd (tr_emit c r TR_RAFT_MSG_VOTE_RESPONSE (m_from m) false)).

Definition tr_step_vote_response c m r (voter_index : Z)
    : tr_raft_core V * tr_raft_ready :=
  let bit := bit32 voter_index in
  if c_term c <? m_term m then (tr_become_follower c (m_term m), r)
  else if negb (role_eqb (c_role c) TR_RAFT_CANDIDATE) ||
          negb (m_term m =? c_term c) || negb (m_granted m) ||
          negb (Z.land (c_votes c) bit =? 0)
  then (c, r)
  else
    let c := c <| c_votes := Z.lor (c_votes c) bit |> in
    if tr_core_has_quorum c (c_votes c) then tr_become_leader c r else (c, r).

(** ** Leadership transfer and reads *)

Definition tr_step_timeout_now c m r : tr_raft_core V * tr_raft_ready :=
  if negb (c_self_is_voter c) || negb (role_eqb (c_role c) TR_RAFT_FOLLOWER) ||
     negb (m_term m =? c_term c) || negb (c_leader_id c =? m_from m) ||
     (c_term c =? UINT64_MAX)
  then (c, r)
  else
    tr_start_election (c <| c_campaign_term := c_term c +64 1 |>
                         <| c_election_elapsed_ticks := 0 |>) r.

Definition tr_step_read_index_request c m r : tr_raft_core V * tr_raft_ready :=
  if negb (c_self_is_voter c) || (m_context_id m =? 0) ||
     negb (role_eqb (c_role c) TR_RAFT_FOLLOWER) ||
     negb (m_term m =? c_term c) || negb (c_leader_id c =? m_from m)
  then (c, r)
  else
    match tr_emit c r TR_RAFT_MSG_READ_INDEX_RESPONSE (m_from m) false with
    | (true, r) =>
        (c, update_last (fun x => x <| m_context_id := m_context_id m |>) r)
    | (false, r) => (c, r)
    end.

Definition tr_step_read_index_response c m r (voter_index : Z)
    : tr_raft_core V * tr_raft_ready :=
  let bit := bit32 voter_index in
  if c_term c <? m_term m then (tr_become_follower c (m_term m), r)
  else if negb (role_eqb (c_role c) TR_RAFT_LEADER) || negb (m_term m =? c_term c) ||
          (m_context_id m =? 0) ||
          negb (m_context_id m =? c_pending_read_context_id c) ||
          (c_pending_read_count c =? 0) ||
          negb (Z.land (c_pending_read_acks c) bit =? 0)
  then (c, r)
  else
    let c := c <| c_pending_read_acks := Z.lor (c_pending_read_acks c) bit |> in
    if tr_core_has_quorum c (c_pending_read_acks c) then
      let required := tr_unpaused_remote_voter_count c in
      let '(c, r) := tr_read_emit_active c r in
      if negb (c_waiting_read_count c =? 0) &&
         (required <=? r_message_capacity r -64 r_message_count r)
      then tr_read_start_active_barrier (tr_read_move_waiting_to_active c) r
      else (c, r)
    else (c, r).

Definition tr_has_committed_current_term c : bool :=
  if c_commit_index c =? 0 then false
  else if c_commit_index c =? log_base_index (c_log c)
  then log_base_term (c_log c) =? c_term c
  else match tr_raft_log_get (c_log c) (c_commit_index c) with
       | Some e => entry_term e =? c_term c
       | None => false
       end.

End Core.
