(* ===== verification/CoreSteps.v ===== *)
(** * Log replication: [src/core/raft_core.c]

    Commitment on the leader, configuration entries, and the handlers of
    heartbeats, append requests and their responses. *)

From S2P Require Import Prelude Configuration Membership PeerSet Transition Window Vec.
From S2P Require Import Log CoreState CoreEmit CoreElection.
From Stdlib Require Import ZArith Lia.
From stdpp Require Import base numbers list tactics.
Open Scope Z_scope.
Open Scope raft_scope.

Section Core.
Context {V : Type} `{VecOps V}.
Implicit Types (c : tr_raft_core V) (r : tr_raft_ready) (m : tr_raft_message).

(** ** Commitment on the leader *)

(** The search downwards from [candidate]; [candidate - commit_index]
    iterations are enough ([update_commit_loop_spec]). *)
Fixpoint update_commit_loop (fuel : nat) c (candidate : Z) : option Z :=
  match fuel with
  | O => None
  | S fuel' =>
      if c_commit_index c <? candidate then
        if negb (term_at (tr_raft_log_get (c_log c) candidate) =? c_term c)
        then update_commit_loop fuel' c (candidate -64 1)
        else if tr_core_match_quorum c candidate then Some candidate
        else update_commit_loop fuel' c (candidate -64 1)
      else None
  end.

Definition tr_update_commit c r : status * tr_raft_core V * tr_raft_ready :=
  let candidate :=
    tr_raft_membership_transition_commit_limit (c_membership_transition c)
      (tr_raft_log_last_index (c_log c)) in
  match update_commit_loop (S (Z.to_nat (candidate - c_commit_index c))) c candidate with
  | Some candidate =>
      let c := c <| c_commit_index := candidate |> in
      let '(result, t) :=
        tr_raft_membership_transition_apply (c_membership_transition c) candidate in
      let c := c <| c_membership_transition := t |> in
      match result with
      | SALTS_OK =>
          match tr_core_sync_membership c with
          | (SALTS_OK, c) =>
              (SALTS_OK, c,
               r <| r_commit_changed := true |> <| r_commit_index := candidate |>)
          | (result, c) => (result, c, r)
          end
      | result => (result, c, r)
      end
  | None => (SALTS_OK, c, r)
  end.

(** ** Configuration entries *)

Definition tr_core_append_configuration c (configuration : tr_raft_conf) r
    : status * tr_raft_core V * tr_raft_ready :=
  let next_index := tr_raft_log_last_index (c_log c) +64 1 in
  match tr_raft_membership_transition_stage (c_membership_transition c)
          configuration next_index with
  | (SALTS_OK, staged) =>
      match tr_core_build_peer_set staged with
      | (SALTS_OK, peers) =>
          match tr_require_capacity c r (tr_peer_set_unpaused_remote_count c peers) with
          | (SALTS_OK, c, r) =>
              match tr_raft_log_append_configuration (c_log c) (c_term c) configuration with
              | (SALTS_OK, log, entry) =>
                  let e := default zero_entry entry in
                  let c := c <| c_log := log |> <| c_membership_transition := staged |> in
                  let c := tr_core_refresh_peers c peers in
                  let self_index := tr_peer_index c (c_self_id c) in
                  let c := set_match c self_index (entry_index e) in
                  let c := set_next c self_index (entry_index e +64 1) in
                  let r := r <| r_log_changed := true |> <| r_log_entries := [e] |>
                             <| r_log_entry_count := 1 |> in
                  match tr_update_commit c r with
                  | (SALTS_OK, c, r) =>
                      let '(c, r) := tr_broadcast_replication c r in (SALTS_OK, c, r)
                  | (result, c, r) => (result, c, r)
                  end
              | (result, log, _) => (result, c <| c_log := log |>, r)
              end
          | (result, c, r) => (result, c, r)
          end
      | (result, _) => (result, c, r)
      end
  | (result, _) => (result, c, r)
  end.

(** ** Append requests and heartbeats *)

Definition is_append m : bool := type_eqb (m_type m) TR_RAFT_MSG_APPEND_REQUEST.

(** Everything after [become_follower]: the membership of the accepted log, the
    commit index, and the effects. *)
Definition follower_commit c m : status * tr_raft_core V :=
  if c_commit_index c <? m_leader_commit m then
    let last_index := tr_raft_log_last_index (c_log c) in
    let candidate := if m_leader_commit m <? last_index
                     then m_leader_commit m else last_index in
    let c := c <| c_commit_index :=
                    tr_raft_membership_transition_commit_limit
                      (c_membership_transition c) candidate |> in
    let '(result, t) :=
      tr_raft_membership_transition_apply (c_membership_transition c)
        (c_commit_index c) in
    let c := c <| c_membership_transition := t |> in
    match result with
    | SALTS_OK => tr_core_sync_membership c
    | result => (result, c)
    end
  else (SALTS_OK, c).

(** The membership and commit index after a reconciliation. *)
Definition follower_adopt c m (matched : bool) (rebuilt : tr_raft_membership_transition)
    : status * tr_raft_core V :=
  if matched then
    let c := c <| c_membership_transition := rebuilt |> in
    match tr_core_build_peer_set (c_membership_transition c) with
    | (SALTS_OK, peers) => follower_commit (tr_core_refresh_peers c peers) m
    | (_, _) => (SALTS_EPROTO, c)
    end
  else (SALTS_OK, c).

Definition tr_step_heartbeat_request c m r
    : status * tr_raft_core V * tr_raft_ready :=
  let response_type := if is_append m then TR_RAFT_MSG_APPEND_RESPONSE
                       else TR_RAFT_MSG_HEARTBEAT_RESPONSE in
  let old_commit := c_commit_index c in
  if m_term m <? c_term c then
    match tr_emit c r response_type (m_from m) false with
    | (true, r) =>
        let hint := tr_raft_log_last_index (c_log c) +64 1 in
        (SALTS_OK, c, update_last (fun x => x <| m_reject_hint := hint |>) r)
    | (false, r) => (SALTS_OK, c, r)
    end
  else
    let previous_matches :=
      tr_raft_log_matches (c_log c) (m_previous_log_index m) (m_previous_log_term m) in
    match (if previous_matches
           then tr_core_rebuild_pending_transition c (m_previous_log_index m) (m_entries m)
           else (SALTS_OK, c_membership_transition c)) with
    | (SALTS_OK, rebuilt) =>
        match tr_raft_log_reconcile (c_log c) (m_previous_log_index m)
                (m_previous_log_term m) (m_entries m) (c_commit_index c) with
        | (SALTS_OK, log, reconcile) =>
            let c := tr_become_follower (c <| c_log := log |>) (m_term m) in
            let c := c <| c_leader_id := m_from m |> <| c_election_elapsed_ticks := 0 |> in
            match follower_adopt c m (rc_matched reconcile) rebuilt with
            | (SALTS_OK, c) =>
                let r := if rc_changed reconcile then
                           r <| r_log_changed := true |>
                             <| r_log_truncate_from := rc_truncate_from reconcile |>
                             <| r_log_entries :=
                                  log_slice (c_log c) (rc_append_from reconcile)
                                    (Z.to_nat (rc_append_count reconcile)) |>
                             <| r_log_entry_count := rc_append_count reconcile |>
                         else r in
                let r := if negb (c_commit_index c =? old_commit) then
                           r <| r_commit_changed := true |>
                             <| r_commit_index := c_commit_index c |>
                         else r in
                match tr_emit c r response_type (m_from m) (rc_matched reconcile) with
                | (true, r) =>
                    let match_index :=
                      if rc_matched reconcile
                      then m_previous_log_index m +64 Z.of_nat (length (m_entries m))
                      else 0 in
                    (SALTS_OK, c,
                     update_last
                       (fun x => x <| m_match_index := match_index |>
                                   <| m_reject_hint := rc_reject_hint reconcile |>
                                   <| m_previous_log_index := m_previous_log_index m |>) r)
                | (false, r) => (SALTS_OK, c, r)
                end
            | (result, c) => (result, c, r)
            end
        | (result, log, _) => (result, c <| c_log := log |>, r)
        end
    | (result, _) => (result, c, r)
    end.

(** ** Responses *)

(** The next index after a rejection. *)
Definition rejected_next c m (peer_index inflight_index : Z) : Z :=
  let next :=
    if 0 <=? inflight_index
    then inf_previous_index (tr_append_window_at_const (window_at c peer_index) inflight_index)
    else
      let next := next_at c peer_index in
      if log_base_index (c_log c) +64 1 <? next then next -64 1 else next in
  let next := if negb (m_reject_hint m =? 0) && (m_reject_hint m <? next)
              then m_reject_hint m else next in
  if next <? match_at c peer_index +64 1 then match_at c peer_index +64 1 else next.

(** The window, the progress and the commit index after an acknowledgement. *)
Definition acknowledge c m r (peer_index : Z)
    : status * tr_raft_core V * tr_raft_ready :=
  let w := tr_append_window_release_through (window_at c peer_index) (m_match_index m) in
  let c := set_window c peer_index (Window (w_items w) (w_head w) (w_count w) false) in
  if match_at c peer_index <? m_match_index m then
    let c := set_match c peer_index (m_match_index m) in
    let c := if next_at c peer_index <? m_match_index m +64 1
             then set_next c peer_index (m_match_index m +64 1) else c in
    tr_update_commit c r
  else (SALTS_OK, c, r).

(** The last step of the handler: hand over leadership or send more. *)
Definition respond c m r (peer_index last_index : Z)
    : status * tr_raft_core V * tr_raft_ready :=
  if m_granted m && negb (c_leadership_transfer_sent c) &&
     (c_leadership_transfer_target c =? m_from m) &&
     (last_index <=? match_at c peer_index)
  then
    let '(sent, r) := tr_emit c r TR_RAFT_MSG_TIMEOUT_NOW (m_from m) false in
    (SALTS_OK, c <| c_leadership_transfer_sent := sent |>, r)
  else if (next_at c peer_index <=? last_index) || negb (m_granted m)
  then let '(c, r) := tr_fill_peer_replication_window c r peer_index in (SALTS_OK, c, r)
  else (SALTS_OK, c, r).

Definition tr_step_heartbeat_response c m r (peer_index : Z)
    : status * tr_raft_core V * tr_raft_ready :=
  let last_index := tr_raft_log_last_index (c_log c) in
  if c_term c <? m_term m then (SALTS_OK, tr_become_follower c (m_term m), r)
  else if negb (role_eqb (c_role c) TR_RAFT_LEADER) || negb (m_term m =? c_term c)
  then (SALTS_OK, c, r)
  else if m_granted m && (last_index <? m_match_index m) then (SALTS_OK, c, r)
  else
    let is_append_response := type_eqb (m_type m) TR_RAFT_MSG_APPEND_RESPONSE in
    let inflight_index :=
      if is_append_response
      then tr_append_window_find (window_at c peer_index) (m_previous_log_index m)
      else -1 in
    if is_append_response && (inflight_index <? 0) then (SALTS_OK, c, r)
    else if is_append_response && m_granted m &&
            negb (m_match_index m =?
                  inf_last_index (tr_append_window_at_const (window_at c peer_index)
                                    inflight_index))
    then (SALTS_OK, c, r)
    else
      let c := if tr_raft_membership_is_voter (tr_core_membership c) (m_from m)
               then c <| c_recent_active := Z.lor (c_recent_active c) (bit32 peer_index) |>
               else c in
      if m_granted m then
        match acknowledge c m r peer_index with
        | (SALTS_OK, c, r) => respond c m r peer_index last_index
        | (result, c, r) => (result, c, r)
        end
      else
        let next := rejected_next c m peer_index inflight_index in
        let c := set_window c peer_index (tr_append_window_reset true) in
        let c := set_next c peer_index next in
        respond c m r peer_index last_index.

End Core.
