(* ===== verification/CoreApi.v ===== *)
(** * The interface of the core: [src/core/raft_core.c] and
    [include/turboraft/raft_core.h]

    One definition per function of the header, from creation to diagnostics. *)

From S2P Require Import Prelude Configuration Membership PeerSet Transition Window Vec.
From S2P Require Import Log CoreState CoreEmit CoreElection CoreSteps.
From Stdlib Require Import ZArith Lia.
From stdpp Require Import base numbers list tactics.
Open Scope Z_scope.
Open Scope raft_scope.

(** Pointers that may be null are options; [cfg_initial_log_entries] is read up
    to its count. *)
Record tr_raft_core_config := CoreConfig {
  cfg_self_id : Z;
  cfg_voters : option (list Z);
  cfg_voter_count : Z;
  cfg_learners : option (list Z);
  cfg_learner_count : Z;
  cfg_initial_configuration : option tr_raft_conf;
  cfg_heartbeat_ticks : Z;
  cfg_election_min_ticks : Z;
  cfg_election_max_ticks : Z;
  cfg_initial_election_timeout_ticks : Z;
  cfg_initial_term : Z;
  cfg_initial_vote : Z;
  cfg_initial_last_log_index : Z;
  cfg_initial_last_log_term : Z;
  cfg_initial_log_entries : option (list tr_raft_entry);
  cfg_initial_log_entry_count : Z;
  cfg_initial_commit_index : Z;
  cfg_initial_applied_index : Z;
  cfg_max_log_entries : Z;
  cfg_max_pending_reads : Z;
  cfg_max_inflight_append_requests : Z
}.

Record tr_raft_membership_change := MembershipChange {
  mc_transition_id : Z;
  mc_voters : option (list Z);
  mc_voter_count : Z;
  mc_learners : option (list Z);
  mc_learner_count : Z
}.

Record tr_raft_tick := Tick {
  tick_elapsed_ticks : Z;
  tick_next_election_timeout_ticks : Z
}.

Record tr_raft_snapshot_point := SnapshotPoint {
  sp_index : Z;
  sp_term : Z;
  sp_configuration : tr_raft_conf
}.

Record tr_raft_status := CoreStatus {
  st_self_id : Z;
  st_leader_id : Z;
  st_role : tr_raft_role;
  st_term : Z;
  st_voted_for : Z;
  st_last_log_index : Z;
  st_last_log_term : Z;
  st_log_base_index : Z;
  st_log_base_term : Z;
  st_log_entry_count : Z;
  st_commit_index : Z;
  st_applied_index : Z;
  st_election_elapsed_ticks : Z;
  st_election_timeout_ticks : Z;
  st_heartbeat_elapsed_ticks : Z;
  st_ready_outstanding : bool;
  st_leadership_transfer_target : Z;
  st_leadership_transfer_elapsed_ticks : Z;
  st_pending_read_context_id : Z;
  st_pending_read_count : Z;
  st_waiting_read_count : Z;
  st_max_pending_reads : Z;
  st_inflight_append_count : Z;
  st_self_is_voter : bool;
  st_voter_count : Z;
  st_learner_count : Z;
  st_joint_configuration : bool;
  st_membership_transition_id : Z;
  st_pending_configuration_count : Z;
  st_peer_count : Z;
  st_snapshot_required_peer_count : Z
}.

Record tr_raft_peer_progress := PeerProgress {
  pp_node_id : Z;
  pp_match_index : Z;
  pp_next_index : Z;
  pp_append_inflight_elapsed_ticks : Z;
  pp_inflight_append_count : Z;
  pp_max_inflight_append_requests : Z;
  pp_recent_active : bool;
  pp_append_inflight : bool;
  pp_append_probe : bool;
  pp_snapshot_required : bool
}.

Inductive tr_raft_operation_state :=
| TR_RAFT_OPERATION_PENDING
| TR_RAFT_OPERATION_COMMITTED
| TR_RAFT_OPERATION_APPLIED
| TR_RAFT_OPERATION_LOST
| TR_RAFT_OPERATION_EXPIRED.

Record tr_raft_operation_status := OperationStatus {
  os_state : tr_raft_operation_state;
  os_term : Z;
  os_index : Z;
  os_commit_index : Z;
  os_applied_index : Z
}.

(** ** Creation: the checks of the configuration *)

Definition config_valid (cfg : tr_raft_core_config) : bool :=
  negb ((cfg_self_id cfg =? 0) || is_null (cfg_voters cfg) ||
        (cfg_voter_count cfg =? 0) || (TR_RAFT_MAX_VOTERS <? cfg_voter_count cfg) ||
        (TR_RAFT_MAX_MEMBERS <? cfg_learner_count cfg) ||
        (TR_RAFT_MAX_MEMBERS <? cfg_voter_count cfg +64 cfg_learner_count cfg) ||
        (negb (cfg_learner_count cfg =? 0) && is_null (cfg_learners cfg)) ||
        ((cfg_learner_count cfg =? 0) && negb (is_null (cfg_learners cfg))) ||
        (cfg_heartbeat_ticks cfg =? 0) ||
        (cfg_election_min_ticks cfg <=? cfg_heartbeat_ticks cfg) ||
        (cfg_election_max_ticks cfg <? cfg_election_min_ticks cfg) ||
        (cfg_initial_election_timeout_ticks cfg <? cfg_election_min_ticks cfg) ||
        (cfg_election_max_ticks cfg <? cfg_initial_election_timeout_ticks cfg) ||
        (TR_RAFT_MAX_INFLIGHT_APPEND_REQUESTS <? cfg_max_inflight_append_requests cfg) ||
        (TR_RAFT_MAX_PENDING_READS <? cfg_max_pending_reads cfg)).

Definition config_voters (cfg : tr_raft_core_config) : list Z :=
  array_elems (cfg_voters cfg) (cfg_voter_count cfg).
Definition config_learners (cfg : tr_raft_core_config) : list Z :=
  array_elems (cfg_learners cfg) (cfg_learner_count cfg).

(** The loops over voters and learners: ascending, non-zero, disjoint. *)
Definition config_sets_valid (cfg : tr_raft_core_config) : bool :=
  ids_ascending_from None (config_voters cfg) &&
  ids_ascending_from None (config_learners cfg) &&
  forallb (fun l => negb (existsb (Z.eqb l) (config_voters cfg))) (config_learners cfg).

Definition member_is_voter (m : tr_raft_conf_member) : bool :=
  has_role (member_roles m) voter_roles.

(** How often the node itself occurs. *)
Definition config_self_count (cfg : tr_raft_core_config) : Z :=
  match cfg_initial_configuration cfg with
  | Some configuration =>
      countb (fun m => member_node_id m =? cfg_self_id cfg) (conf_members configuration)
  | None =>
      countb (Z.eqb (cfg_self_id cfg)) (config_voters cfg) +
      countb (Z.eqb (cfg_self_id cfg)) (config_learners cfg)
  end.

(** Whether [id] is a voter of the initial membership. *)
Definition config_is_voter (cfg : tr_raft_core_config) (id : Z) : bool :=
  match cfg_initial_configuration cfg with
  | Some configuration =>
      existsb (fun m => (member_node_id m =? id) && member_is_voter m)
        (conf_members configuration)
  | None => existsb (Z.eqb id) (config_voters cfg)
  end.

Definition config_check (cfg : tr_raft_core_config) : bool :=
  config_valid cfg && config_sets_valid cfg &&
  match cfg_initial_configuration cfg with
  | Some configuration => ok (tr_raft_conf_validate configuration)
  | None => true
  end &&
  (config_self_count cfg =? 1) &&
  ((cfg_initial_vote cfg =? 0) || config_is_voter cfg (cfg_initial_vote cfg)) &&
  ((cfg_initial_vote cfg =? 0) || config_is_voter cfg (cfg_self_id cfg)).

Section Core.
Context {V : Type} `{VecOps V}.
Implicit Types (c : tr_raft_core V) (r : tr_raft_ready) (m : tr_raft_message).

(** The zeroed memory of [calloc]. *)
Definition core_zero : tr_raft_core V :=
  Core 0 zero_transition [] false TR_RAFT_FOLLOWER 0 0 0 log_zero 0 0 0 0 0 0 0 0 0 0 0 0
    0 0 0 0 false 0 [] 0 0 [] 0 0 0 (replicate max_voters 0) (replicate max_voters 0)
    (replicate max_voters zero_window) 0 false false.

Definition create_transition (cfg : tr_raft_core_config)
    : status * tr_raft_membership_transition :=
  match cfg_initial_configuration cfg with
  | Some configuration =>
      match tr_raft_membership_transition_init_configuration configuration with
      | (result, t) => (result, default zero_transition t)
      end
  | None =>
      tr_raft_membership_transition_init (cfg_voters cfg) (cfg_voter_count cfg)
        (cfg_learners cfg) (cfg_learner_count cfg)
  end.

(** The recovered log above the snapshot. *)
Definition create_log (cfg : tr_raft_core_config) : status * tr_raft_log V :=
  let max_log_entries := if cfg_max_log_entries cfg =? 0
                         then TR_RAFT_DEFAULT_MAX_LOG_ENTRIES
                         else cfg_max_log_entries cfg in
  match tr_raft_log_init max_log_entries (cfg_initial_last_log_index cfg)
          (cfg_initial_last_log_term cfg) with
  | (SALTS_OK, log) =>
      if negb (cfg_initial_log_entry_count cfg =? 0) then
        if is_null (cfg_initial_log_entries cfg) then (SALTS_EINVAL, log)
        else
          match tr_raft_log_reconcile log (cfg_initial_last_log_index cfg)
                  (cfg_initial_last_log_term cfg)
                  (array_elems (cfg_initial_log_entries cfg)
                     (cfg_initial_log_entry_count cfg)) 0 with
          | (SALTS_OK, log, reconcile) =>
              (if rc_matched reconcile then SALTS_OK else SALTS_EPROTO, log)
          | (result, log, _) => (result, log)
          end
      else if is_null (cfg_initial_log_entries cfg) then (SALTS_OK, log)
      else (SALTS_EINVAL, log)
  | (result, log) => (result, log)
  end.

(** The commit and applied index, when they are consistent. *)
Definition create_indices (cfg : tr_raft_core_config) (log : tr_raft_log V)
    : option (Z * Z) :=
  let base := cfg_initial_last_log_index cfg in
  let from_base i := if negb (base =? 0) && (i =? 0) then base else i in
  let commit := from_base (cfg_initial_commit_index cfg) in
  let applied := from_base (cfg_initial_applied_index cfg) in
  if (applied <? base) || (commit <? applied) || (tr_raft_log_last_index log <? commit)
  then None else Some (commit, applied).

Definition create_timers (cfg : tr_raft_core_config) c : tr_raft_core V :=
  c <| c_heartbeat_ticks := cfg_heartbeat_ticks cfg |>
    <| c_election_min_ticks := cfg_election_min_ticks cfg |>
    <| c_election_max_ticks := cfg_election_max_ticks cfg |>
    <| c_election_timeout_ticks := cfg_initial_election_timeout_ticks cfg |>
    <| c_max_inflight_append_requests :=
         if cfg_max_inflight_append_requests cfg =? 0
         then TR_RAFT_DEFAULT_MAX_INFLIGHT_APPEND_REQUESTS
         else cfg_max_inflight_append_requests cfg |>
    <| c_max_pending_reads :=
         if cfg_max_pending_reads cfg =? 0 then TR_RAFT_DEFAULT_MAX_PENDING_READS
         else cfg_max_pending_reads cfg |>
    <| c_append_windows :=
         (fun w => Window (w_items w) (w_head w) (w_count w) true)
         <$> c_append_windows c |>.

(** [calloc_ok] tells whether the allocation of the core succeeds. *)
Definition tr_raft_core_create (calloc_ok : bool) (cfg : tr_raft_core_config)
    : status * option (tr_raft_core V) :=
  if negb (config_check cfg) then (SALTS_EINVAL, None)
  else if negb calloc_ok then (SALTS_ENOMEM, None)
  else
    let c := core_zero <| c_self_id := cfg_self_id cfg |> in
    match create_transition cfg with
    | (SALTS_OK, t) =>
        let c := c <| c_membership_transition := t |> in
        match tr_raft_peer_set_build [tr_core_membership c] with
        | (SALTS_OK, peers) =>
            let c := c <| c_peers := peers |> in
            let c := c <| c_self_is_voter := 0 <=? tr_voter_index c (cfg_self_id cfg) |>
                       <| c_role := TR_RAFT_FOLLOWER |>
                       <| c_term := cfg_initial_term cfg |>
                       <| c_voted_for := cfg_initial_vote cfg |> in
            match create_log cfg with
            | (SALTS_OK, log) =>
                match create_indices cfg log with
                | Some (commit, applied) =>
                    let c := c <| c_log := log |> <| c_commit_index := commit |>
                               <| c_applied_index := applied |>
                               <| c_apply_admitted_index := applied |> in
                    match tr_core_replay_membership_log c with
                    | (SALTS_OK, c) => (SALTS_OK, Some (create_timers cfg c))
                    | (result, _) => (result, None)
                    end
                | None => (SALTS_EINVAL, None)
                end
            | (result, _) => (result, None)
            end
        | (result, _) => (result, None)
        end
    | (result, _) => (result, None)
    end.

(** The core is freed: nothing of it is left. *)
Definition tr_raft_core_destroy c : tr_raft_log V := tr_raft_log_destroy (c_log c).

(** A call that fails after [tr_begin]: [core->in_call = false; return result]. *)
Definition fail_call (result : status) c r : status * tr_raft_core V * tr_raft_ready :=
  (result, c <| c_in_call := false |>, r).

(** The same with [tr_reset_ready]. *)
Definition fail_reset (result : status) c r : status * tr_raft_core V * tr_raft_ready :=
  (result, c <| c_in_call := false |>, tr_reset_ready r).

(** ** Time *)

(** [UINT32_MAX - elapsed < ticks || elapsed + ticks >= limit] *)
Definition timer_expired (elapsed ticks limit : Z) : bool :=
  (UINT32_MAX - elapsed <? ticks) || (limit <=? elapsed +32 ticks).

(** The loop over the requests in flight to one peer: the clocks advance until
    one runs out. *)
Fixpoint tick_inflight (n : nat) (index : Z) (w : tr_raft_append_window)
    (ticks limit : Z) : bool * tr_raft_append_window :=
  match n with
  | O => (false, w)
  | S n' =>
      let item := tr_append_window_at_const w index in
      if timer_expired (inf_elapsed_ticks item) ticks limit then (true, w)
      else
        tick_inflight n' (index + 1)
          (tr_append_window_at_set w index
             (Inflight (inf_previous_index item) (inf_last_index item)
                (inf_elapsed_ticks item +32 ticks)))
          ticks limit
  end.

Definition tick_window (ticks : Z) c (index : Z) : tr_raft_core V :=
  let w := window_at c index in
  if (w_count w =? 0) || tr_peer_index_paused c index then c
  else
    let '(timed_out, w) :=
      tick_inflight (Z.to_nat (w_count w)) 0 w ticks (c_heartbeat_ticks c) in
    let c := set_window c index w in
    if timed_out then
      let c := set_next c index (match_at c index +64 1) in
      set_window c index (tr_append_window_reset true)
    else c.

(** The quorum check of a leader; [None] when it must step down. *)
Definition tick_check_quorum (ticks : Z) c : option (tr_raft_core V) :=
  if timer_expired (c_check_quorum_elapsed_ticks c) ticks (c_election_timeout_ticks c)
  then
    if negb (tr_core_has_quorum c (c_recent_active c)) then None
    else Some (c <| c_check_quorum_elapsed_ticks := 0 |>
                 <| c_recent_active := bit32 (tr_voter_index c (c_self_id c)) |>)
  else Some (c <| c_check_quorum_elapsed_ticks :=
                    c_check_quorum_elapsed_ticks c +32 ticks |>).

Definition tick_transfer (ticks : Z) c : tr_raft_core V :=
  if negb (c_leadership_transfer_target c =? 0) then
    if timer_expired (c_leadership_transfer_elapsed_ticks c) ticks
         (c_election_timeout_ticks c)
    then c <| c_leadership_transfer_target := 0 |>
           <| c_leadership_transfer_elapsed_ticks := 0 |>
           <| c_leadership_transfer_sent := false |>
    else c <| c_leadership_transfer_elapsed_ticks :=
                c_leadership_transfer_elapsed_ticks c +32 ticks |>
  else c.

Definition tick_leader (ticks peer_count : Z) c r (before : tr_raft_before)
    : status * tr_raft_core V * tr_raft_ready :=
  match tick_check_quorum ticks c with
  | None => tr_finish (tr_become_follower c (c_term c)) r before
  | Some c =>
      let c := tick_transfer ticks c in
      let c := fold_left (tick_window ticks) (peer_indices c) c in
      if timer_expired (c_heartbeat_elapsed_ticks c) ticks (c_heartbeat_ticks c) then
        match tr_require_capacity c r peer_count with
        | (SALTS_OK, c, r) =>
            let c := c <| c_heartbeat_elapsed_ticks := 0 |> in
            let '(c, r) := tr_broadcast_replication c r in
            tr_finish c r before
        | failure => failure
        end
      else
        tr_finish (c <| c_heartbeat_elapsed_ticks :=
                          c_heartbeat_elapsed_ticks c +32 ticks |>) r before
  end.

Definition tr_raft_core_tick c (tick : tr_raft_tick) r
    : status * tr_raft_core V * tr_raft_ready :=
  let ticks := tick_elapsed_ticks tick in
  if ticks =? 0 then (SALTS_EINVAL, c, r)
  else
    match tr_begin c r with
    | (SALTS_OK, c, r, before) =>
        if negb (tr_timeout_valid c (tick_next_election_timeout_ticks tick))
        then fail_call SALTS_EINVAL c r
        else if role_eqb (c_role c) TR_RAFT_LEADER &&
                tr_raft_membership_transition_needs_final (c_membership_transition c)
        then
          match tr_raft_membership_transition_final (c_membership_transition c) with
          | (SALTS_OK, final_membership) =>
              match tr_core_append_configuration c (default zero_conf final_membership) r with
              | (SALTS_OK, c, r) => tr_finish c r before
              | (result, c, r) => fail_reset result c r
              end
          | (result, _) => fail_reset result c r
          end
        else
          let peer_count := tr_unpaused_remote_peer_count c in
          if role_eqb (c_role c) TR_RAFT_LEADER
          then tick_leader ticks peer_count c r before
          else
            let expired := timer_expired (c_election_elapsed_ticks c) ticks
                             (c_election_timeout_ticks c) in
            let next_timeout := tick_next_election_timeout_ticks tick in
            if negb (c_self_is_voter c) then
              tr_finish
                (if expired
                 then c <| c_election_elapsed_ticks := 0 |>
                        <| c_election_timeout_ticks := next_timeout |>
                 else c <| c_election_elapsed_ticks :=
                             c_election_elapsed_ticks c +32 ticks |>) r before
            else if expired then
              if c_term c =? UINT64_MAX then fail_call SALTS_EPROTO c r
              else
                match tr_require_capacity c r peer_count with
                | (SALTS_OK, c, r) =>
                    let c := c <| c_election_elapsed_ticks := 0 |>
                               <| c_election_timeout_ticks := next_timeout |> in
                    let '(c, r) := tr_start_pre_vote c r in
                    tr_finish c r before
                | failure => failure
                end
            else
              tr_finish (c <| c_election_elapsed_ticks :=
                                c_election_elapsed_ticks c +32 ticks |>) r before
    | (result, c, r, _) => (result, c, r)
    end.

(** ** Messages *)

(** The messages a handler may emit without checking the buffer; [None] for an
    unknown type. *)
Definition step_required c m (voter_index : Z) : option Z :=
  let response := if tr_peer_paused c (m_from m) then 0 else 1 in
  match m_type m with
  | TR_RAFT_MSG_PRE_VOTE_REQUEST | TR_RAFT_MSG_VOTE_REQUEST
  | TR_RAFT_MSG_HEARTBEAT_REQUEST | TR_RAFT_MSG_APPEND_REQUEST => Some response
  | TR_RAFT_MSG_PRE_VOTE_RESPONSE =>
      Some (if tr_will_pre_vote_win c m voter_index
            then tr_unpaused_remote_peer_count c else 0)
  | TR_RAFT_MSG_VOTE_RESPONSE =>
      Some (if tr_will_vote_win c m voter_index
            then tr_unpaused_remote_peer_count c else 0)
  | TR_RAFT_MSG_HEARTBEAT_RESPONSE | TR_RAFT_MSG_APPEND_RESPONSE =>
      Some (if role_eqb (c_role c) TR_RAFT_LEADER && (m_term m =? c_term c) &&
               m_granted m && negb (c_leadership_transfer_sent c) &&
               (c_leadership_transfer_target c =? m_from m) &&
               (m_match_index m =? tr_raft_log_last_index (c_log c))
            then 1 else 0)
  | TR_RAFT_MSG_TIMEOUT_NOW =>
      Some (if c_self_is_voter c && role_eqb (c_role c) TR_RAFT_FOLLOWER &&
               (m_term m =? c_term c) && (c_leader_id c =? m_from m) &&
               negb (c_term c =? UINT64_MAX)
            then tr_unpaused_remote_voter_count c else 0)
  | TR_RAFT_MSG_READ_INDEX_REQUEST =>
      Some (if c_self_is_voter c && negb (m_context_id m =? 0) &&
               role_eqb (c_role c) TR_RAFT_FOLLOWER && (m_term m =? c_term c) &&
               (c_leader_id c =? m_from m)
            then response else 0)
  | TR_RAFT_MSG_READ_INDEX_RESPONSE => Some 0
  | TR_RAFT_MSG_INVALID => None
  end.

(** The second switch: the handler of the message. *)
Definition step_dispatch c m r (peer_index voter_index : Z)
    : status * tr_raft_core V * tr_raft_ready :=
  let total '(c, r) := (SALTS_OK, c, r) in
  match m_type m with
  | TR_RAFT_MSG_PRE_VOTE_REQUEST => total (tr_step_pre_vote_request c m r)
  | TR_RAFT_MSG_PRE_VOTE_RESPONSE => total (tr_step_pre_vote_response c m r voter_index)
  | TR_RAFT_MSG_VOTE_REQUEST => total (tr_step_vote_request c m r)
  | TR_RAFT_MSG_VOTE_RESPONSE => total (tr_step_vote_response c m r voter_index)
  | TR_RAFT_MSG_HEARTBEAT_REQUEST | TR_RAFT_MSG_APPEND_REQUEST =>
      if (TR_RAFT_MAX_APPEND_ENTRIES <? Z.of_nat (length (m_entries m))) ||
         (type_eqb (m_type m) TR_RAFT_MSG_HEARTBEAT_REQUEST &&
          negb (Z.of_nat (length (m_entries m)) =? 0))
      then fail_call SALTS_EINVAL c r
      else match tr_step_heartbeat_request c m r with
           | (SALTS_OK, c, r) => (SALTS_OK, c, r)
           | (result, c, r) => fail_reset result c r
           end
  | TR_RAFT_MSG_HEARTBEAT_RESPONSE | TR_RAFT_MSG_APPEND_RESPONSE =>
      match tr_step_heartbeat_response c m r peer_index with
      | (SALTS_OK, c, r) => (SALTS_OK, c, r)
      | (result, c, r) => fail_reset result c r
      end
  | TR_RAFT_MSG_TIMEOUT_NOW => total (tr_step_timeout_now c m r)
  | TR_RAFT_MSG_READ_INDEX_REQUEST => total (tr_step_read_index_request c m r)
  | TR_RAFT_MSG_READ_INDEX_RESPONSE =>
      total (tr_step_read_index_response c m r voter_index)
  | TR_RAFT_MSG_INVALID => fail_call SALTS_EINVAL c r
  end.

Definition is_response m : bool :=
  type_eqb (m_type m) TR_RAFT_MSG_HEARTBEAT_RESPONSE ||
  type_eqb (m_type m) TR_RAFT_MSG_APPEND_RESPONSE.

Definition tr_raft_core_step c m r : status * tr_raft_core V * tr_raft_ready :=
  if negb (m_to m =? c_self_id c) || (m_from m =? c_self_id c)
  then (SALTS_EINVAL, c, r)
  else
    let peer_index := tr_peer_index c (m_from m) in
    if peer_index <? 0 then (SALTS_EINVAL, c, r)
    else
      let voter_index := tr_voter_index c (m_from m) in
      if (voter_index <? 0) && negb (is_response m) then (SALTS_EINVAL, c, r)
      else
        match tr_begin c r with
        | (SALTS_OK, c, r, before) =>
            match step_required c m voter_index with
            | None => fail_call SALTS_EINVAL c r
            | Some required =>
                match tr_require_capacity c r required with
                | (SALTS_OK, c, r) =>
                    match step_dispatch c m r peer_index voter_index with
                    | (SALTS_OK, c, r) => tr_finish c r before
                    | failure => failure
                    end
                | failure => failure
                end
            end
        | (result, c, r, _) => (result, c, r)
        end.

(** ** Proposals *)

Definition tr_raft_core_propose_batch c (proposals : list tr_raft_proposal) r
    : status * tr_raft_core V * tr_raft_ready :=
  let proposal_count := Z.of_nat (length proposals) in
  if (proposal_count =? 0) || (TR_RAFT_MAX_PROPOSAL_BATCH <? proposal_count)
  then (SALTS_EINVAL, c, r)
  else if negb (forallb proposal_valid proposals) then (SALTS_EINVAL, c, r)
  else
    match tr_begin c r with
    | (SALTS_OK, c, r, before) =>
        if negb (role_eqb (c_role c) TR_RAFT_LEADER) then fail_call SALTS_EPROTO c r
        else if negb (c_leadership_transfer_target c =? 0) then fail_call SALTS_EBUSY c r
        else
          match tr_require_capacity c r (tr_unpaused_remote_peer_count c) with
          | (SALTS_OK, c, r) =>
              match tr_raft_log_append_local_batch (c_log c) (c_term c) proposals with
              | (SALTS_OK, log, slot) =>
                  let c := c <| c_log := log |> in
                  let first := default 0 slot in
                  let entries :=
                    (fun k => default zero_entry
                                (vec_at_const (log_entries log) (first + Z.of_nat k)))
                    <$> seq 0 (length proposals) in
                  let last_entry := nth (length proposals - 1) entries zero_entry in
                  let self_index := tr_voter_index c (c_self_id c) in
                  let c := set_match c self_index (entry_index last_entry) in
                  let c := set_next c self_index (entry_index last_entry +64 1) in
                  let r := r <| r_log_changed := true |> <| r_log_entries := entries |>
                             <| r_log_entry_count := proposal_count |> in
                  match tr_update_commit c r with
                  | (SALTS_OK, c, r) =>
                      let '(c, r) := tr_broadcast_replication c r in
                      tr_finish c r before
                  | (result, c, r) => fail_reset result c r
                  end
              | (result, log, _) => fail_reset result (c <| c_log := log |>) r
              end
          | failure => failure
          end
    | (result, c, r, _) => (result, c, r)
    end.

Definition tr_raft_core_propose c (proposal : tr_raft_proposal) r
    : status * tr_raft_core V * tr_raft_ready :=
  tr_raft_core_propose_batch c [proposal] r.

Definition tr_raft_core_change_membership c (change : tr_raft_membership_change) r
    : status * tr_raft_core V * tr_raft_ready :=
  if mc_transition_id change =? 0 then (SALTS_EINVAL, c, r)
  else
    match tr_begin c r with
    | (SALTS_OK, c, r, before) =>
        if negb (role_eqb (c_role c) TR_RAFT_LEADER) then fail_call SALTS_EPERM c r
        else if negb (c_leadership_transfer_target c =? 0) ||
                negb (tr_read_total_count c =? 0)
        then fail_call SALTS_EBUSY c r
        else
          match tr_raft_membership_transition_propose (c_membership_transition c)
                  (mc_voters change) (mc_voter_count change) (mc_learners change)
                  (mc_learner_count change) (mc_transition_id change) with
          | (SALTS_OK, joint) =>
              match tr_core_append_configuration c (default zero_conf joint) r with
              | (SALTS_OK, c, r) => tr_finish c r before
              | (result, c, r) => fail_reset result c r
              end
          | (result, _) => fail_reset result c r
          end
    | (result, c, r, _) => (result, c, r)
    end.

Definition tr_raft_core_transfer_leadership c (transferee_id : Z) r
    : status * tr_raft_core V * tr_raft_ready :=
  if (transferee_id =? 0) || (transferee_id =? c_self_id c) then (SALTS_EINVAL, c, r)
  else
    let transferee_index := tr_voter_index c transferee_id in
    if transferee_index <? 0 then (SALTS_EINVAL, c, r)
    else
      match tr_begin c r with
      | (SALTS_OK, c, r, before) =>
          if negb (role_eqb (c_role c) TR_RAFT_LEADER) then fail_call SALTS_EPROTO c r
          else if negb (c_leadership_transfer_target c =? 0) ||
                  negb (tr_read_total_count c =? 0) ||
                  tr_peer_index_paused c transferee_index
          then fail_call SALTS_EBUSY c r
          else
            match tr_require_capacity c r 1 with
            | (SALTS_OK, c, r) =>
                let c := c <| c_leadership_transfer_target := transferee_id |>
                           <| c_leadership_transfer_elapsed_ticks := 0 |> in
                let last_index := tr_raft_log_last_index (c_log c) in
                if last_index <=? match_at c transferee_index then
                  let '(sent, r) := tr_emit c r TR_RAFT_MSG_TIMEOUT_NOW transferee_id false in
                  tr_finish (c <| c_leadership_transfer_sent := sent |>) r before
                else
                  let '(_, c, r) := tr_emit_replication c r transferee_index false in
                  tr_finish (c <| c_leadership_transfer_sent := false |>) r before
            | failure => failure
            end
      | (result, c, r, _) => (result, c, r)
      end.

(** ** Linearizable reads *)

Definition tr_raft_core_read_index c (context_id : Z) r
    : status * tr_raft_core V * tr_raft_ready :=
  if context_id =? 0 then (SALTS_EINVAL, c, r)
  else
    match tr_begin c r with
    | (SALTS_OK, c, r, before) =>
        if negb (role_eqb (c_role c) TR_RAFT_LEADER) then fail_call SALTS_EPROTO c r
        else if negb (c_leadership_transfer_target c =? 0) ||
                negb (tr_has_committed_current_term c)
        then fail_call SALTS_EBUSY c r
        else if tr_read_context_exists c context_id then fail_call SALTS_EALREADY c r
        else if c_max_pending_reads c <=? tr_read_total_count c
        then fail_call SALTS_ENOSPC c r
        else if negb (c_pending_read_count c =? 0) then
          let c := if c_commit_index c =? c_pending_read_index c
                   then c <| c_pending_read_contexts :=
                               c_pending_read_contexts c ++ [context_id] |>
                   else c <| c_waiting_read_contexts :=
                               c_waiting_read_contexts c ++ [context_id] |> in
          tr_finish c r before
        else
          match tr_require_capacity c r (tr_unpaused_remote_voter_count c) with
          | (SALTS_OK, c, r) =>
              let c := c <| c_waiting_read_contexts :=
                              c_waiting_read_contexts c ++ [context_id] |> in
              let '(c, r) :=
                tr_read_start_active_barrier (tr_read_move_waiting_to_active c) r in
              tr_finish c r before
          | failure => failure
          end
    | (result, c, r, _) => (result, c, r)
    end.

Definition tr_raft_core_poll c r : status * tr_raft_core V * tr_raft_ready :=
  match tr_begin c r with
  | (SALTS_OK, c, r, before) =>
      match
        (if role_eqb (c_role c) TR_RAFT_LEADER && (c_pending_read_count c =? 0) &&
            negb (c_waiting_read_count c =? 0)
         then
           match tr_require_capacity c r (tr_unpaused_remote_voter_count c) with
           | (SALTS_OK, c, r) =>
               let '(c, r) :=
                 tr_read_start_active_barrier (tr_read_move_waiting_to_active c) r in
               (SALTS_OK, c, r)
           | failure => failure
           end
         else (SALTS_OK, c, r))
      with
      | (SALTS_OK, c, r) =>
          let '(c, r) := tr_fill_replication_windows c r in tr_finish c r before
      | failure => failure
      end
  | (result, c, r, _) => (result, c, r)
  end.

(** ** Acknowledgements *)

Definition tr_raft_core_ack_ready c (admitted_entry_count : Z) : status * tr_raft_core V :=
  if c_in_call c || negb (c_ready_outstanding c) then (SALTS_EPROTO, c)
  else if negb (c_pending_apply_index c =? 0) &&
          (c_pending_apply_index c <? c_apply_admitted_index c)
  then (SALTS_EPROTO, c)
  else
    let pending_count := if negb (c_pending_apply_index c =? 0)
                         then c_pending_apply_index c -64 c_apply_admitted_index c
                         else 0 in
    if pending_count <? admitted_entry_count then (SALTS_EINVAL, c)
    else (SALTS_OK,
          c <| c_apply_admitted_index := c_apply_admitted_index c +64 admitted_entry_count |>
            <| c_pending_apply_index := 0 |> <| c_ready_outstanding := false |>).

Definition tr_raft_core_ack_applied c (index : Z) : status * tr_raft_core V :=
  if index =? 0 then (SALTS_EINVAL, c)
  else if c_in_call c then (SALTS_EPROTO, c)
  else if index <=? c_applied_index c then (SALTS_EALREADY, c)
  else if (c_applied_index c =? UINT64_MAX) || negb (index =? c_applied_index c +64 1)
  then (SALTS_EPROTO, c)
  else if c_apply_admitted_index c <? index then (SALTS_EBUSY, c)
  else (SALTS_OK, c <| c_applied_index := index |>).

Definition tr_raft_core_advance c : status * tr_raft_core V :=
  if c_in_call c || negb (c_ready_outstanding c) then (SALTS_EPROTO, c)
  else if negb (c_pending_apply_index c =? 0) then
    if negb (c_apply_admitted_index c =? c_applied_index c) ||
       (c_pending_apply_index c <? c_apply_admitted_index c)
    then (SALTS_EBUSY, c)
    else (SALTS_OK,
          c <| c_apply_admitted_index := c_pending_apply_index c |>
            <| c_applied_index := c_pending_apply_index c |>
            <| c_pending_apply_index := 0 |> <| c_ready_outstanding := false |>)
  else (SALTS_OK, c <| c_ready_outstanding := false |>).

(** ** Snapshots *)

Definition tr_raft_core_snapshot_point c : status * option tr_raft_snapshot_point :=
  if c_in_call c || c_ready_outstanding c ||
     negb (c_applied_index c =? c_commit_index c)
  then (SALTS_EBUSY, None)
  else if c_applied_index c <=? log_base_index (c_log c) then (SALTS_ENOENT, None)
  else match tr_raft_log_get (c_log c) (c_applied_index c) with
       | None => (SALTS_EPROTO, None)
       | Some e =>
           (SALTS_OK,
            Some (SnapshotPoint (c_applied_index c) (entry_term e) (tr_core_membership c)))
       end.

Definition tr_snapshot_configuration_equal (left right : tr_raft_conf) : bool :=
  if negb (conf_phase left =? conf_phase right) ||
     negb (conf_transition_id left =? conf_transition_id right) ||
     negb (conf_member_count left =? conf_member_count right)
  then false
  else members_equal (conf_members left) (conf_members right).

Definition tr_raft_core_compact c (point : tr_raft_snapshot_point)
    : status * tr_raft_core V :=
  match tr_raft_core_snapshot_point c with
  | (SALTS_OK, Some current) =>
      if negb (sp_index point =? sp_index current) ||
         negb (sp_term point =? sp_term current) ||
         negb (tr_snapshot_configuration_equal (sp_configuration point)
                 (sp_configuration current))
      then (SALTS_EPROTO, c)
      else
        let '(result, log) := tr_raft_log_compact (c_log c) (sp_index point) (sp_term point) in
        (result, c <| c_log := log |>)
  | (result, _) => (result, c)
  end.

Definition tr_raft_core_snapshot_completed c (peer_id snapshot_index : Z) r
    : status * tr_raft_core V * tr_raft_ready :=
  if (peer_id =? 0) || (peer_id =? c_self_id c) || (snapshot_index =? 0)
  then (SALTS_EINVAL, c, r)
  else
    let peer_index := tr_peer_index c peer_id in
    if (peer_index <? 0) || (log_base_index (c_log c) <? snapshot_index)
    then (SALTS_EINVAL, c, r)
    else
      match tr_begin c r with
      | (SALTS_OK, c, r, before) =>
          if negb (role_eqb (c_role c) TR_RAFT_LEADER) then fail_call SALTS_EBUSY c r
          else
            match tr_require_capacity c r
                    (if tr_peer_index_paused c peer_index then 0 else 1) with
            | (SALTS_OK, c, r) =>
                let c := if match_at c peer_index <? snapshot_index
                         then set_match c peer_index snapshot_index else c in
                let c := set_next c peer_index (snapshot_index +64 1) in
                let c := set_window c peer_index (tr_append_window_reset true) in
                let '(c, r) := tr_fill_peer_replication_window c r peer_index in
                tr_finish c r before
            | failure => failure
            end
      | (result, c, r, _) => (result, c, r)
      end.

(** ** Pauses *)

Definition tr_raft_core_set_peer_paused c (peer_id : Z) (paused : bool)
    : status * tr_raft_core V :=
  if (peer_id =? 0) || (peer_id =? c_self_id c) then (SALTS_EINVAL, c)
  else if c_in_call c then (SALTS_EBUSY, c)
  else
    let peer_index := tr_peer_index c peer_id in
    if peer_index <? 0 then (SALTS_ENOENT, c)
    else
      let bit := bit32 peer_index in
      (SALTS_OK,
       c <| c_paused_peers := if paused then Z.lor (c_paused_peers c) bit
                              else Z.land (c_paused_peers c) (u32 (Z.lnot bit)) |>).

Definition tr_raft_core_peer_paused c (peer_id : Z) : status * option bool :=
  if (peer_id =? 0) || (peer_id =? c_self_id c) then (SALTS_EINVAL, None)
  else
    let peer_index := tr_peer_index c peer_id in
    if peer_index <? 0 then (SALTS_ENOENT, None)
    else (SALTS_OK, Some (tr_peer_index_paused c peer_index)).

(** ** Diagnostics *)

Definition tr_raft_core_status c : status * tr_raft_status :=
  let log := c_log c in
  let membership := tr_core_membership c in
  (SALTS_OK,
   {| st_self_id := c_self_id c;
      st_leader_id := c_leader_id c;
      st_role := c_role c;
      st_term := c_term c;
      st_voted_for := c_voted_for c;
      st_last_log_index := tr_raft_log_last_index log;
      st_last_log_term := tr_raft_log_last_term log;
      st_log_base_index := log_base_index log;
      st_log_base_term := log_base_term log;
      st_log_entry_count := tr_raft_log_count log;
      st_commit_index := c_commit_index c;
      st_applied_index := c_applied_index c;
      st_election_elapsed_ticks := c_election_elapsed_ticks c;
      st_election_timeout_ticks := c_election_timeout_ticks c;
      st_heartbeat_elapsed_ticks := c_heartbeat_elapsed_ticks c;
      st_ready_outstanding := c_ready_outstanding c;
      st_leadership_transfer_target := c_leadership_transfer_target c;
      st_leadership_transfer_elapsed_ticks := c_leadership_transfer_elapsed_ticks c;
      st_pending_read_context_id := c_pending_read_context_id c;
      st_pending_read_count := tr_read_total_count c;
      st_waiting_read_count := c_waiting_read_count c;
      st_max_pending_reads := c_max_pending_reads c;
      st_inflight_append_count :=
        fold_left (fun n index => n + w_count (window_at c index)) (peer_indices c) 0;
      st_self_is_voter := c_self_is_voter c;
      st_voter_count := tr_core_voter_count c;
      st_learner_count := tr_core_learner_count c;
      st_joint_configuration := conf_phase membership =? TR_RAFT_CONF_JOINT;
      st_membership_transition_id := conf_transition_id membership;
      st_pending_configuration_count := mt_pending_count (c_membership_transition c);
      st_peer_count := tr_peer_count c;
      st_snapshot_required_peer_count :=
        if role_eqb (c_role c) TR_RAFT_LEADER
        then countb (fun index => negb (tr_peer_id c index =? c_self_id c) &&
                                  (next_at c index <=? log_base_index log))
               (peer_indices c)
        else 0 |}).

Definition tr_raft_core_configuration c : status * tr_raft_conf :=
  (SALTS_OK, tr_core_membership c).

Definition peer_progress c (index : Z) : tr_raft_peer_progress :=
  let w := window_at c index in
  {| pp_node_id := tr_peer_id c index;
     pp_match_index := match_at c index;
     pp_next_index := next_at c index;
     pp_append_inflight_elapsed_ticks := tr_append_window_oldest_elapsed w;
     pp_inflight_append_count := w_count w;
     pp_max_inflight_append_requests := c_max_inflight_append_requests c;
     pp_recent_active := (tr_peer_id c index =? c_self_id c) ||
                         has_bit (c_recent_active c) index;
     pp_append_inflight := negb (w_count w =? 0);
     pp_append_probe := w_probe w;
     pp_snapshot_required := role_eqb (c_role c) TR_RAFT_LEADER &&
                             negb (tr_peer_id c index =? c_self_id c) &&
                             (next_at c index <=? log_base_index (c_log c)) |}.

Definition tr_raft_core_progress c : status * list tr_raft_peer_progress :=
  (SALTS_OK, peer_progress c <$> peer_indices c).

(** [None] when the output is left with no state. *)
Definition tr_raft_core_operation_status c (term index : Z)
    : status * option tr_raft_operation_status :=
  if (term =? 0) || (index =? 0) then (SALTS_EINVAL, None)
  else
    let report state :=
      (SALTS_OK, Some (OperationStatus state term index (c_commit_index c)
                         (c_applied_index c))) in
    let last_index := tr_raft_log_last_index (c_log c) in
    let base := log_base_index (c_log c) in
    if index <? base then report TR_RAFT_OPERATION_EXPIRED
    else if index =? base then
      report (if term =? log_base_term (c_log c) then TR_RAFT_OPERATION_APPLIED
              else TR_RAFT_OPERATION_LOST)
    else if last_index <? index then
      if c_term c <? term then (SALTS_EINVAL, None) else report TR_RAFT_OPERATION_LOST
    else
      match tr_raft_log_get (c_log c) index with
      | None => (SALTS_EPROTO, None)
      | Some e =>
          report (if negb (entry_term e =? term) then TR_RAFT_OPERATION_LOST
                  else if index <=? c_applied_index c then TR_RAFT_OPERATION_APPLIED
                  else if index <=? c_commit_index c then TR_RAFT_OPERATION_COMMITTED
                  else TR_RAFT_OPERATION_PENDING)
      end.

End Core.
