(* ===== verification/SnapshotManager.v ===== *)
(** * Snapshot transfers to the peers: [src/service/raft_snapshot_coordinator.c],
      [src/service/raft_snapshot_peer.c] and [src/service/raft_snapshot_manager.c]

    A coordinator keeps the window of a sender full: it emits the chunks the
    sender claims and cancels a claim the transport refuses. A peer wraps the
    chunks for its group; the manager holds a peer per follower, obtains the
    snapshot a leader asks for and reports each transfer that has completed.
    The callbacks act on a state [W]; [None] is a null pointer. A coordinator,
    a peer and a manager are not null, and whether the allocations succeed is
    an argument of the constructors. *)

From S2P Require Import Prelude Configuration Bytes Wire CoreState Transport CoreApi.
From S2P Require Import Digest SnapshotSender.
From Stdlib Require Import ZArith Lia.
From stdpp Require Import base numbers list tactics.
Open Scope Z_scope.
Open Scope raft_scope.

Section Coordinator.
Context {W : Type} `{Sha256}.

(** ** The coordinator *)

Record tr_raft_snapshot_coordinator := Coordinator {
  co_sender : tr_raft_snapshot_sender W;
  co_emit : W -> tr_raft_snapshot_chunk -> W * status
}.

Definition with_sender (co : tr_raft_snapshot_coordinator) (s : tr_raft_snapshot_sender W)
    : tr_raft_snapshot_coordinator := Coordinator s (co_emit co).

(** The loop; every iteration that goes on has claimed a chunk, so the size of
    the window bounds it. *)
Fixpoint fill_loop (fuel : nat) (co : tr_raft_snapshot_coordinator) (w : W)
    : status * tr_raft_snapshot_coordinator * W :=
  match fuel with
  | O => (SALTS_OK, co, w)
  | S fuel =>
      match tr_raft_snapshot_sender_next_chunk (co_sender co) w with
      | (SALTS_EBUSY, s, w, _) => (SALTS_OK, with_sender co s, w)
      | (SALTS_OK, s, w, Some chunk) =>
          match co_emit co w chunk with
          | (w, SALTS_OK) =>
              let status := tr_raft_snapshot_sender_get_status s in
              if ss_max_inflight_chunks status <=? ss_inflight_chunks status
              then (SALTS_OK, with_sender co s, w)
              else fill_loop fuel (with_sender co s) w
          | (w, result) =>
              let '(cancel_result, s) :=
                tr_raft_snapshot_sender_cancel_chunk s (sc_snapshot_offset chunk) in
              (if ok cancel_result then result else cancel_result, with_sender co s, w)
          end
      | (result, s, w, _) => (result, with_sender co s, w)
      end
  end.

Definition fill_fuel (co : tr_raft_snapshot_coordinator) : nat :=
  S (Z.to_nat (sn_max_inflight_chunks (co_sender co))).

Definition tr_snapshot_coordinator_fill_window (co : tr_raft_snapshot_coordinator) (w : W)
    : status * tr_raft_snapshot_coordinator * W :=
  fill_loop (fill_fuel co) co w.

(** [allocated] are the two [calloc] calls and [storage] is the [malloc] call
    of the sender. *)
Definition tr_raft_snapshot_coordinator_create (config : tr_raft_snapshot_sender_config)
    (emit : option (W -> tr_raft_snapshot_chunk -> W * status))
    (allocated : bool * bool) (storage : option (list Z))
    : status * option tr_raft_snapshot_coordinator :=
  match emit with
  | None => (SALTS_EINVAL, None)
  | Some emit =>
      if negb (fst allocated) then (SALTS_ENOMEM, None)
      else
        match tr_raft_snapshot_sender_create config (snd allocated) storage with
        | (SALTS_OK, Some s) => (SALTS_OK, Some (Coordinator s emit))
        | (result, _) => (result, None)
        end
  end.

Definition tr_raft_snapshot_coordinator_destroy (co : tr_raft_snapshot_coordinator) (w : W) : W :=
  tr_raft_snapshot_sender_destroy (co_sender co) w.

Definition tr_raft_snapshot_coordinator_begin (co : tr_raft_snapshot_coordinator)
    (leader_term snapshot_index snapshot_term : Z) (configuration : tr_raft_conf)
    (data : list Z) (allocated : bool) (w : W)
    : status * tr_raft_snapshot_coordinator * W :=
  match tr_raft_snapshot_sender_begin cmeta_sha256 (co_sender co) leader_term snapshot_index
          snapshot_term configuration data allocated w with
  | (SALTS_OK, s, w) => tr_snapshot_coordinator_fill_window (with_sender co s) w
  | (result, s, w) => (result, with_sender co s, w)
  end.

Definition tr_raft_snapshot_coordinator_begin_source (co : tr_raft_snapshot_coordinator)
    (leader_term snapshot_index snapshot_term : Z) (configuration : tr_raft_conf)
    (source : tr_raft_snapshot_source W) (w : W)
    : status * tr_raft_snapshot_coordinator * W :=
  match tr_raft_snapshot_sender_begin_source (co_sender co) leader_term snapshot_index
          snapshot_term configuration source w with
  | (SALTS_OK, s, w) => tr_snapshot_coordinator_fill_window (with_sender co s) w
  | (result, s, w) =>
      (result, with_sender co s,
       match src_release source with Some release => release w | None => w end)
  end.

Definition tr_raft_snapshot_coordinator_handle_ack (co : tr_raft_snapshot_coordinator)
    (ack : tr_raft_snapshot_ack) (w : W) : status * tr_raft_snapshot_coordinator * W :=
  match tr_raft_snapshot_sender_acknowledge (co_sender co) ack w with
  | (SALTS_OK, s, w) =>
      if ss_complete (tr_raft_snapshot_sender_get_status s)
      then (SALTS_OK, with_sender co s, w)
      else tr_snapshot_coordinator_fill_window (with_sender co s) w
  | (result, s, w) => (result, with_sender co s, w)
  end.

Definition tr_raft_snapshot_coordinator_resume (co : tr_raft_snapshot_coordinator) (w : W)
    : status * tr_raft_snapshot_coordinator * W :=
  match tr_raft_snapshot_sender_prepare_resume (co_sender co) with
  | (SALTS_OK, s) => tr_snapshot_coordinator_fill_window (with_sender co s) w
  | (result, s) => (result, with_sender co s, w)
  end.

Definition tr_raft_snapshot_coordinator_get_status (co : tr_raft_snapshot_coordinator)
    : tr_raft_snapshot_sender_status :=
  tr_raft_snapshot_sender_get_status (co_sender co).

(** ** The peer *)

Record tr_raft_snapshot_peer := SnapshotPeer {
  pe_coordinator : tr_raft_snapshot_coordinator;
  pe_group_id : Z
}.

Definition with_coordinator (p : tr_raft_snapshot_peer) (co : tr_raft_snapshot_coordinator)
    : tr_raft_snapshot_peer := SnapshotPeer co (pe_group_id p).

(** [tr_snapshot_peer_emit], the [emit] callback of the coordinator. *)
Definition tr_snapshot_peer_emit (group_id : Z)
    (enqueue : W -> tr_raft_transport_payload -> W * status) (w : W)
    (chunk : tr_raft_snapshot_chunk) : W * status :=
  enqueue w (Payload group_id (Payload_snapshot_chunk chunk)).

Definition tr_raft_snapshot_peer_create (config : tr_raft_snapshot_sender_config) (group_id : Z)
    (enqueue : option (W -> tr_raft_transport_payload -> W * status))
    (allocated : bool * (bool * bool)) (storage : option (list Z))
    : status * option tr_raft_snapshot_peer :=
  match enqueue with
  | None => (SALTS_EINVAL, None)
  | Some enqueue =>
      if group_id =? 0 then (SALTS_EINVAL, None)
      else if negb (fst allocated) then (SALTS_ENOMEM, None)
      else
        match tr_raft_snapshot_coordinator_create config
                (Some (tr_snapshot_peer_emit group_id enqueue)) (snd allocated) storage with
        | (SALTS_OK, Some co) => (SALTS_OK, Some (SnapshotPeer co group_id))
        | (result, _) => (result, None)
        end
  end.

Definition tr_raft_snapshot_peer_destroy (p : tr_raft_snapshot_peer) (w : W) : W :=
  tr_raft_snapshot_coordinator_destroy (pe_coordinator p) w.

Definition tr_raft_snapshot_peer_begin (p : tr_raft_snapshot_peer)
    (leader_term snapshot_index snapshot_term : Z) (configuration : tr_raft_conf)
    (data : list Z) (allocated : bool) (w : W) : status * tr_raft_snapshot_peer * W :=
  let '(result, co, w) :=
    tr_raft_snapshot_coordinator_begin (pe_coordinator p) leader_term snapshot_index
      snapshot_term configuration data allocated w in
  (result, with_coordinator p co, w).

Definition tr_raft_snapshot_peer_begin_source (p : tr_raft_snapshot_peer)
    (leader_term snapshot_index snapshot_term : Z) (configuration : tr_raft_conf)
    (source : tr_raft_snapshot_source W) (w : W) : status * tr_raft_snapshot_peer * W :=
  let '(result, co, w) :=
    tr_raft_snapshot_coordinator_begin_source (pe_coordinator p) leader_term snapshot_index
      snapshot_term configuration source w in
  (result, with_coordinator p co, w).

Definition tr_raft_snapshot_peer_handle_payload (p : tr_raft_snapshot_peer)
    (payload : tr_raft_transport_payload) (w : W) : status * tr_raft_snapshot_peer * W :=
  match pl_data payload with
  | Payload_snapshot_ack ack =>
      if negb (pl_group_id payload =? pe_group_id p) then (SALTS_EPROTO, p, w)
      else
        let '(result, co, w) :=
          tr_raft_snapshot_coordinator_handle_ack (pe_coordinator p) ack w in
        (result, with_coordinator p co, w)
  | _ => (SALTS_EPROTO, p, w)
  end.

Definition tr_raft_snapshot_peer_resume (p : tr_raft_snapshot_peer) (w : W)
    : status * tr_raft_snapshot_peer * W :=
  let '(result, co, w) := tr_raft_snapshot_coordinator_resume (pe_coordinator p) w in
  (result, with_coordinator p co, w).

Definition tr_raft_snapshot_peer_get_status (p : tr_raft_snapshot_peer)
    : tr_raft_snapshot_sender_status :=
  tr_raft_snapshot_coordinator_get_status (pe_coordinator p).

End Coordinator.

Arguments tr_raft_snapshot_coordinator W : clear implicits.
Arguments tr_raft_snapshot_peer W : clear implicits.

(** ** The manager *)

Section Manager.
Context {W : Type} `{Sha256}.

(** A provider returns the point of the snapshot and its source, or its bytes
    in the buffer of the manager. *)
Definition tr_raft_snapshot_source_provider_fn : Type :=
  W -> Z -> Z -> W * status * tr_raft_snapshot_point * tr_raft_snapshot_source W.
Definition tr_raft_snapshot_provider_fn : Type :=
  W -> Z -> Z -> Z -> W * status * tr_raft_snapshot_point * list Z.

Record tr_raft_snapshot_manager_config := ManagerConfig {
  mc_self_id : Z;
  mc_group_id : Z;
  mc_peer_node_ids : list Z;
  mc_max_snapshot_bytes : Z;
  mc_max_buffered_snapshot_bytes : Z;
  mc_snapshot_chunk_size : Z;
  mc_snapshot_max_inflight_chunks : Z;
  mc_enqueue : option (W -> tr_raft_transport_payload -> W * status);
  mc_source_provider : option tr_raft_snapshot_source_provider_fn;
  mc_provider : option tr_raft_snapshot_provider_fn;
  mc_complete : option (W -> Z -> Z -> W * status)
}.

(** The fields copied from the configuration are [mg_config]. *)
Record tr_raft_snapshot_manager := SnapshotManager {
  mg_config : tr_raft_snapshot_manager_config;
  mg_peers : list (tr_raft_snapshot_peer W);
  mg_completion_notified : list bool
}.

Definition eta_manager (m : tr_raft_snapshot_manager) : tr_raft_snapshot_manager :=
  SnapshotManager (mg_config m) (mg_peers m) (mg_completion_notified m).
#[export] Instance set_mg_peers : Setter mg_peers := ltac:(setter eta_manager mg_peers).
#[export] Instance set_mg_notified : Setter mg_completion_notified :=
  ltac:(setter eta_manager mg_completion_notified).

(** The index of the peer, [None] for [SIZE_MAX]. *)
Fixpoint find_peer (ids : list Z) (peer_id : Z) (index : nat) : option nat :=
  match ids with
  | [] => None
  | id :: ids => if id =? peer_id then Some index else find_peer ids peer_id (S index)
  end.

Definition tr_snapshot_manager_find_peer (m : tr_raft_snapshot_manager) (peer_id : Z)
    : option nat :=
  find_peer (mc_peer_node_ids (mg_config m)) peer_id 0.

(** [manager->peers[index]]; creation fills the array. *)
Definition with_peer {A : Type} (m : tr_raft_snapshot_manager) (index : nat) (out_of_range : A)
    (f : tr_raft_snapshot_peer W -> A) : A :=
  match mg_peers m !! index with Some p => f p | None => out_of_range end.

Definition set_peer (m : tr_raft_snapshot_manager) (index : nat) (p : tr_raft_snapshot_peer W)
    : tr_raft_snapshot_manager := m <| mg_peers := <[index := p]> (mg_peers m) |>.

Definition tr_snapshot_manager_enqueue (config : tr_raft_snapshot_manager_config) (w : W)
    (payload : tr_raft_transport_payload) : W * status :=
  match mc_enqueue config with
  | None => (w, SALTS_ENOTCONN)
  | Some enqueue => enqueue w payload
  end.

Definition tr_snapshot_manager_note_started (m : tr_raft_snapshot_manager) (index : nat)
    (snapshot_index : Z) : tr_raft_snapshot_manager :=
  with_peer m index m (fun p =>
    let status := tr_raft_snapshot_peer_get_status p in
    if ss_active status && (ss_snapshot_index status =? snapshot_index)
    then m <| mg_completion_notified := <[index := false]> (mg_completion_notified m) |>
    else m).

(** The identifiers are not zero, not the manager's own and ascending. *)
Fixpoint peer_ids_valid (self_id : Z) (previous : option Z) (ids : list Z) : bool :=
  match ids with
  | [] => true
  | id :: ids =>
      negb ((id =? 0) || (id =? self_id) ||
            match previous with Some p => id <=? p | None => false end) &&
      peer_ids_valid self_id (Some id) ids
  end.

Definition manager_config_valid (c : tr_raft_snapshot_manager_config) : bool :=
  let count := Z.of_nat (length (mc_peer_node_ids c)) in
  negb ((mc_self_id c =? 0) || (mc_group_id c =? 0) || (count =? 0) ||
        (TR_RAFT_MAX_VOTERS - 1 <? count) || (mc_max_snapshot_bytes c =? 0) ||
        (negb (is_null (mc_source_provider c)) && negb (is_null (mc_provider c))) ||
        (negb (is_null (mc_source_provider c)) &&
         negb (mc_max_buffered_snapshot_bytes c =? 0)) ||
        (negb (is_null (mc_provider c)) &&
         ((mc_max_buffered_snapshot_bytes c =? 0) ||
          (mc_max_snapshot_bytes c <? mc_max_buffered_snapshot_bytes c) ||
          (UINT64_MAX <? mc_max_buffered_snapshot_bytes c)))) &&
  peer_ids_valid (mc_self_id c) None (mc_peer_node_ids c).

(** What the allocators return for a peer. *)
Definition peer_memory : Type := (bool * (bool * bool)) * option (list Z).

(** The loop that creates the peers; a failure destroys those before it. *)
Fixpoint create_peers (c : tr_raft_snapshot_manager_config) (ids : list Z)
    (memory : list peer_memory) : status * list (tr_raft_snapshot_peer W) :=
  match ids with
  | [] => (SALTS_OK, [])
  | id :: ids =>
      let '(allocated, storage) := default ((false, (false, false)), None) (head memory) in
      match tr_raft_snapshot_peer_create
              (SenderConfig (mc_self_id c) id (mc_max_snapshot_bytes c)
                 (mc_snapshot_chunk_size c) (mc_snapshot_max_inflight_chunks c))
              (mc_group_id c) (Some (tr_snapshot_manager_enqueue c)) allocated storage with
      | (SALTS_OK, Some p) =>
          let '(result, ps) := create_peers c ids (tail memory) in (result, p :: ps)
      | (result, _) => (result, [])
      end
  end.

(** [allocated] are the allocations of the manager and of its buffer. *)
Definition tr_raft_snapshot_manager_create (c : tr_raft_snapshot_manager_config)
    (allocated : bool * bool) (memory : list peer_memory)
    : status * option tr_raft_snapshot_manager :=
  if negb (manager_config_valid c) then (SALTS_EINVAL, None)
  else if negb (fst allocated) then (SALTS_ENOMEM, None)
  else if negb (is_null (mc_provider c)) && negb (snd allocated) then (SALTS_ENOMEM, None)
  else
    match create_peers c (mc_peer_node_ids c) memory with
    | (SALTS_OK, ps) =>
        (SALTS_OK,
         Some (SnapshotManager c ps (replicate (Z.to_nat (TR_RAFT_MAX_VOTERS - 1)) false)))
    | (result, _) => (result, None)
    end.

Definition tr_raft_snapshot_manager_destroy (m : tr_raft_snapshot_manager) (w : W) : W :=
  fold_left (fun w p => tr_raft_snapshot_peer_destroy p w) (mg_peers m) w.

(** A transfer started on a peer, noted by the manager. *)
Definition started (m : tr_raft_snapshot_manager) (index : nat) (snapshot_index : Z)
    (outcome : status * tr_raft_snapshot_peer W * W)
    : status * tr_raft_snapshot_manager * W :=
  let '(result, p, w) := outcome in
  (result, tr_snapshot_manager_note_started (set_peer m index p) index snapshot_index, w).

Definition tr_raft_snapshot_manager_begin (m : tr_raft_snapshot_manager)
    (peer_id leader_term snapshot_index snapshot_term : Z) (configuration : tr_raft_conf)
    (data : list Z) (allocated : bool) (w : W) : status * tr_raft_snapshot_manager * W :=
  if is_null (mc_enqueue (mg_config m)) then (SALTS_ENOTCONN, m, w)
  else
    match tr_snapshot_manager_find_peer m peer_id with
    | None => (SALTS_EPROTO, m, w)
    | Some index =>
        with_peer m index (SALTS_EPROTO, m, w) (fun p =>
          started m index snapshot_index
            (tr_raft_snapshot_peer_begin p leader_term snapshot_index snapshot_term
               configuration data allocated w))
    end.

(** The two ways to obtain the snapshot of a request. *)
Definition request_source (m : tr_raft_snapshot_manager) (index : nat)
    (p : tr_raft_snapshot_peer W) (request : tr_raft_snapshot_request)
    (provider : tr_raft_snapshot_source_provider_fn) (w : W)
    : status * tr_raft_snapshot_manager * W :=
  let '(w, result, point, source) :=
    provider w (sr_snapshot_index request) (sr_snapshot_term request) in
  match result with
  | SALTS_OK =>
      if negb (sp_index point =? sr_snapshot_index request) ||
         negb (sp_term point =? sr_snapshot_term request) ||
         failed (tr_raft_conf_validate (sp_configuration point)) ||
         is_null (src_read_at source) ||
         (mc_max_snapshot_bytes (mg_config m) <? src_size source)
      then
        (SALTS_EPROTO, m,
         match src_release source with Some release => release w | None => w end)
      else
        started m index (sp_index point)
          (tr_raft_snapshot_peer_begin_source p (sr_leader_term request) (sp_index point)
             (sp_term point) (sp_configuration point) source w)
  | _ => (result, m, w)
  end.

Definition request_buffer (m : tr_raft_snapshot_manager) (index : nat)
    (p : tr_raft_snapshot_peer W) (request : tr_raft_snapshot_request)
    (provider : tr_raft_snapshot_provider_fn) (allocated : bool) (w : W)
    : status * tr_raft_snapshot_manager * W :=
  let '(w, result, point, data) :=
    provider w (sr_snapshot_index request) (sr_snapshot_term request)
      (mc_max_buffered_snapshot_bytes (mg_config m)) in
  match result with
  | SALTS_OK =>
      if negb (sp_index point =? sr_snapshot_index request) ||
         negb (sp_term point =? sr_snapshot_term request) ||
         failed (tr_raft_conf_validate (sp_configuration point)) ||
         (mc_max_buffered_snapshot_bytes (mg_config m) <? Z.of_nat (length data))
      then (SALTS_EPROTO, m, w)
      else
        started m index (sp_index point)
          (tr_raft_snapshot_peer_begin p (sr_leader_term request) (sp_index point)
             (sp_term point) (sp_configuration point) data allocated w)
  | _ => (result, m, w)
  end.

Definition tr_raft_snapshot_manager_enqueue_request (m : tr_raft_snapshot_manager)
    (request : tr_raft_snapshot_request) (allocated : bool) (w : W)
    : status * tr_raft_snapshot_manager * W :=
  if (sr_peer_id request =? 0) || (sr_leader_term request =? 0) ||
     (sr_snapshot_index request =? 0) || (sr_snapshot_term request =? 0)
  then (SALTS_EINVAL, m, w)
  else if is_null (mc_source_provider (mg_config m)) && is_null (mc_provider (mg_config m))
  then (SALTS_EINVAL, m, w)
  else
    match tr_snapshot_manager_find_peer m (sr_peer_id request) with
    | None => (SALTS_EPROTO, m, w)
    | Some index =>
        with_peer m index (SALTS_EPROTO, m, w) (fun p =>
          let status := tr_raft_snapshot_peer_get_status p in
          if ss_active status && negb (ss_complete status) then
            (if ss_snapshot_index status =? sr_snapshot_index request
             then SALTS_OK else SALTS_EBUSY, m, w)
          else
            match mc_source_provider (mg_config m), mc_provider (mg_config m) with
            | Some provider, _ => request_source m index p request provider w
            | None, Some provider => request_buffer m index p request provider allocated w
            | None, None => (SALTS_EINVAL, m, w)
            end)
    end.

Definition tr_raft_snapshot_manager_handle_payload (m : tr_raft_snapshot_manager)
    (payload : tr_raft_transport_payload) (w : W)
    : status * tr_raft_snapshot_manager * W :=
  match pl_data payload with
  | Payload_snapshot_ack ack =>
      if negb (pl_group_id payload =? mc_group_id (mg_config m)) ||
         negb (sa_to ack =? mc_self_id (mg_config m))
      then (SALTS_EPROTO, m, w)
      else
        match tr_snapshot_manager_find_peer m (sa_from ack) with
        | None => (SALTS_EPROTO, m, w)
        | Some index =>
            with_peer m index (SALTS_EPROTO, m, w) (fun p =>
              let '(result, p, w) := tr_raft_snapshot_peer_handle_payload p payload w in
              let m := set_peer m index p in
              match result with
              | SALTS_OK =>
                  let status := tr_raft_snapshot_peer_get_status p in
                  if negb (ss_complete status) ||
                     default false (mg_completion_notified m !! index)
                  then (SALTS_OK, m, w)
                  else
                    let '(w, result) :=
                      match mc_complete (mg_config m) with
                      | Some complete => complete w (sa_from ack) (ss_snapshot_index status)
                      | None => (w, SALTS_OK)
                      end in
                    match result with
                    | SALTS_OK =>
                        (SALTS_OK,
                         m <| mg_completion_notified :=
                              <[index := true]> (mg_completion_notified m) |>, w)
                    | _ => (result, m, w)
                    end
              | _ => (result, m, w)
              end)
        end
  | _ => (SALTS_EPROTO, m, w)
  end.

Definition tr_raft_snapshot_manager_resume (m : tr_raft_snapshot_manager) (peer_id : Z) (w : W)
    : status * tr_raft_snapshot_manager * W :=
  if is_null (mc_enqueue (mg_config m)) then (SALTS_ENOTCONN, m, w)
  else
    match tr_snapshot_manager_find_peer m peer_id with
    | None => (SALTS_EPROTO, m, w)
    | Some index =>
        with_peer m index (SALTS_EPROTO, m, w) (fun p =>
          let '(result, p, w) := tr_raft_snapshot_peer_resume p w in
          (result, set_peer m index p, w))
    end.

Definition tr_raft_snapshot_manager_get_status (m : tr_raft_snapshot_manager) (peer_id : Z)
    : status * option tr_raft_snapshot_sender_status :=
  match tr_snapshot_manager_find_peer m peer_id with
  | None => (SALTS_EPROTO, None)
  | Some index =>
      with_peer m index (SALTS_EPROTO, None) (fun p =>
        (SALTS_OK, Some (tr_raft_snapshot_peer_get_status p)))
  end.

End Manager.

Arguments tr_raft_snapshot_manager_config W : clear implicits.
Arguments tr_raft_snapshot_manager W : clear implicits.
