(* ===== verification/SnapshotTransfer.v ===== *)
(** * A snapshot from one node to another

    The loop that fills the window of a coordinator ends, and whatever the
    network does with the chunks, the receiver installs nothing but the snapshot
    the sender was given. *)

From S2P Require Import Prelude Configuration Bytes Wire CoreState Transport CoreApi.
From S2P Require Import Digest SnapshotSender SnapshotReceiver SnapshotReceive SnapshotSend.
From S2P Require Import SnapshotManager.
From Stdlib Require Import ZArith Lia.
From stdpp Require Import base numbers list tactics.
Open Scope Z_scope.
Open Scope raft_scope.

(** ** The loop of the coordinator ends *)

Lemma next_chunk_count {W : Type} (s : tr_raft_snapshot_sender W) w s' w' c :
  tr_raft_snapshot_sender_next_chunk s w = (SALTS_OK, s', w', c) ->
  sn_max_inflight_chunks s' = sn_max_inflight_chunks s /\
  (sn_claim_count s' = sn_claim_count s + 1 \/
   s' = s /\ sn_max_inflight_chunks s <= sn_claim_count s).
Proof.
  unfold tr_raft_snapshot_sender_next_chunk.
  destruct (negb _ || _); [done|]. destruct (_ <=? _) eqn:Hfull.
  { apply Z.leb_le in Hfull. destruct (negb _); [done|]. intros [= <- <- _]. auto. }
  destruct (_ && _); [done|].
  destruct (tr_raft_snapshot_sender_find_free_slot s) as [[|e] slot]; [|done].
  set (n := if _ <? _ then _ else _). unfold sn_claim_count. destruct (negb (n =? 0)).
  - destruct (source_read _ _ _ _) as [[w1 r] bytes]. destruct r; [|done].
    destruct (negb _); [done|]. intros [= <- <- _]. cbn. rewrite length_app. cbn. split; [done|lia].
  - intros [= <- <- _]. cbn. rewrite length_app. cbn. split; [done|lia].
Qed.

Definition fill_measure {W : Type} (co : tr_raft_snapshot_coordinator W) : nat :=
  S (Z.to_nat (sn_max_inflight_chunks (co_sender co) - sn_claim_count (co_sender co))).

Lemma fill_loop_fuel {W : Type} (fuel fuel' : nat) (co : tr_raft_snapshot_coordinator W) w :
  (fill_measure co <= fuel)%nat -> (fill_measure co <= fuel')%nat ->
  fill_loop fuel co w = fill_loop fuel' co w.
Proof.
  revert fuel' co w. induction fuel as [|fuel IH]; intros fuel' co w H1 H2;
    unfold fill_measure in *; [lia|]. destruct fuel' as [|fuel']; [lia|]. cbn [fill_loop].
  destruct (tr_raft_snapshot_sender_next_chunk (co_sender co) w) as [[[result s] w1] c] eqn:Hn.
  destruct result as [|[]]; try done. destruct c as [c|]; [|done].
  destruct (co_emit co w1 c) as [w2 [|e]]; [|done].
  unfold tr_raft_snapshot_sender_get_status. cbn [ss_max_inflight_chunks ss_inflight_chunks].
  destruct (_ <=? _) eqn:Hle; [done|]. apply Z.leb_gt in Hle.
  destruct (next_chunk_count _ _ _ _ _ Hn) as [E1 [E2|[-> E2]]]; [|lia].
  apply IH; cbn [co_sender with_sender]; lia.
Qed.

(** The loop that fills the window ends within the size of the window: more
    fuel changes nothing. *)
Theorem fill_window_terminates {W : Type} (co : tr_raft_snapshot_coordinator W) (w : W)
    (extra : nat) :
  fill_loop (fill_fuel co + extra) co w = tr_snapshot_coordinator_fill_window co w.
Proof.
  unfold tr_snapshot_coordinator_fill_window. apply fill_loop_fuel; unfold fill_measure, fill_fuel;
    unfold sn_claim_count; lia.
Qed.

(** ** Safety *)

(** Parts of a snapshot that follow each other make it up. *)
Lemma consecutive_parts config it digest offset cs :
  sender_config_ok config ->
  0 <= offset -> consecutive offset cs -> Forall (chunk_of_transfer config it digest) cs ->
  chunks_bytes cs = slice (it_data it) offset (Z.of_nat (length (chunks_bytes cs))) /\
  (cs <> [] -> offset + Z.of_nat (length (chunks_bytes cs)) <= Z.of_nat (length (it_data it))).
Proof.
  intros Hc. revert offset. induction cs as [|c cs IH]; intros offset Ho Hcs Hall.
  { split; [|done]. unfold slice. done. }
  destruct Hcs as [Hoff Hcs]. apply Forall_cons_1 in Hall as [(off & Hco & ->) Hall].
  cbn in Hoff. subst off. pose proof (chunk_length_range config it Hc _ Hco) as [Hl1 Hl2].
  set (n := chunk_length config it offset) in *.
  assert (Z.of_nat (length (slice (it_data it) offset n)) = n) as Hlen by (by apply length_slice).
  unfold sc_data_length in Hcs. cbn [sc_data chunk_of] in Hcs. fold n in Hcs. rewrite Hlen in Hcs.
  destruct (IH (offset + n) ltac:(lia) Hcs Hall) as [E F].
  unfold chunks_bytes in *. rewrite fmap_cons. cbn [concat sc_data chunk_of]. fold n.
  rewrite length_app, Nat2Z.inj_add, Hlen. split.
  - rewrite <- (slice_app (it_data it) offset n) by lia. by rewrite <- E.
  - intros _. destruct cs as [|c cs]; [cbn; lia|]. specialize (F ltac:(done)). lia.
Qed.

Lemma assembled_from_transfer `{Sha256} config it digest it' c cs :
  sender_config_ok config -> assembled it' c cs ->
  Forall (chunk_of_transfer config it digest) cs -> it' = it.
Proof.
  intros Hc Ha Hall. destruct (as_meta _ _ _ Ha) as (M1 & M2 & M3 & M4).
  pose proof (as_first _ _ _ Ha) as Hhd. destruct cs as [|c0 cs]; [done|].
  injection Hhd as ->. pose proof Hall as Hall'.
  apply Forall_cons_1 in Hall' as [(off & Hco & ->) _].
  pose proof (as_offsets _ _ _ Ha) as Hcons. pose proof Hcons as [Hoff _].
  cbn in Hoff, M1, M2, M3, M4. subst off. cbn in M4.
  destruct (consecutive_parts config it digest 0 _ Hc ltac:(lia) Hcons Hall) as [E _].
  rewrite <- (as_data _ _ _ Ha), (as_size _ _ _ Ha) in E. cbn [sc_snapshot_size chunk_of] in E.
  rewrite slice_all in E. destruct it', it. cbn in *. congruence.
Qed.

(** C15. End to end: a sender is given one snapshot; the chunks it hands out are
    delivered to a receiver in any order, any number of times or not at all,
    while acknowledgements, real or not, drive the sender in any way. Every
    snapshot the receiver makes visible is the one the sender was given: the
    same bytes, terms, index and configuration. *)
Theorem snapshot_transfer_safe {W V : Type} `{Sha256Laws} (malloc : Z -> option (list Z))
    (config : tr_raft_snapshot_sender_config) (allocated : bool) (storage : option (list Z))
    (t index st : Z) (conf : tr_raft_conf) (data digest : list Z)
    (src : tr_raft_snapshot_source W) (s0 s s' : tr_raft_snapshot_sender W) (w0 w w' : W)
    (sends : list sender_op) (cs : list tr_raft_snapshot_chunk)
    (rconfig : tr_raft_snapshot_receiver_config V) `{!SnapshotWorld rconfig}
    (rallocated : bool) (sha : status * sha_stream) (r r' : tr_raft_snapshot_receiver V)
    (v v' : V) (receives : list receiver_op) :
  config_in_range config ->
  (forall block, storage = Some block ->
     Z.of_nat (length block) = sg_chunk_size config * sg_max_inflight_chunks config) ->
  (forall n block, malloc n = Some block -> length block = Z.to_nat n) ->
  tr_raft_snapshot_sender_create config allocated storage = (SALTS_OK, Some s0) ->
  source_of (Item t index st conf data) digest src ->
  tr_raft_snapshot_sender_begin_source s0 t index st conf src w0 = (SALTS_OK, s, w) ->
  Forall op_ack_in_range sends -> sender_run s w sends = (s', w', cs) ->
  tr_raft_snapshot_receiver_create rconfig rallocated sha = (SALTS_OK, Some r) ->
  staged v = None -> op_chunks receives ⊆ cs ->
  receiver_run malloc r v receives = (r', v') ->
  exists items, installed v' = installed v ++ items /\
    Forall (fun it => it = Item t index st conf data) items.
Proof.
  intros Hr Hst Hm Hc Hsrc Hb Hops Hrun Hrc Hv Hsub Hrecv.
  destruct (create_ready config _ _ _ Hr Hc Hst) as [Hok Hready].
  destruct (begin_sending config _ _ _ _ _ _ _ _ _ _ _ Hok Hready Hsrc Hb) as (Hs & Hsz & _).
  assert (Z.of_nat (length data) < 2 ^ 64) as Hlt by (destruct Hr; lia).
  pose proof (sender_run_ok config (Item t index st conf data) digest Hok Hlt s w [] sends
                (or_introl Hs) Hops) as Hcs. rewrite Hrun in Hcs. destruct Hcs as [_ Hcs].
  rewrite list.Forall_forall in Hcs.
  destruct (create_ok rconfig rallocated sha r v [] Hrc Hv) as [Hcb Hrok].
  pose proof (receiver_run_ok malloc rconfig Hm Hcb r v [] receives Hrok) as Hrecv'.
  rewrite Hrecv in Hrecv'. cbn [app] in Hrecv'.
  destruct Hrecv' as (_ & items & E & F).
  { apply list.Forall_forall. intros c Hin. destruct (Hcs c (Hsub c Hin)) as (off & (Ho & _) & ->).
    split; cbn; lia. }
  exists items. split; [done|]. eapply list.Forall_impl; [exact F|].
  intros it (c & cs' & Hsl & Ha). eapply assembled_from_transfer; [exact Hok|exact Ha|].
  apply list.Forall_forall. intros x Hx. apply Hcs, Hsub. eapply elem_of_submseteq; [exact Hx|].
  by apply sublist_submseteq.
Qed.

(** ** Example *)

(** The first chunk arrives twice, and after the others. *)
Definition deliveries_2 (cs : list tr_raft_snapshot_chunk) : list receiver_op :=
  Handle <$> (rev cs ++ cs ++ cs).

Lemma snapshot_transfer_safe_witness :
  let '(s', w', cs) := sender_run started_sender tt sends_2 in
  let '(r', v') := receiver_run (fun n => Some (replicate (Z.to_nat n) 0)) receiver_2 ([], None)
                     (deliveries_2 cs) in
  fst v' = [Item 4 9 3 example_conf data_2] /\
  exists items, fst v' = [] ++ items /\
    Forall (fun it => it = Item 4 9 3 example_conf data_2) items.
Proof.
  destruct (sender_run started_sender tt sends_2) as [[s' w'] cs] eqn:Hrun.
  destruct (receiver_run _ receiver_2 ([], None) (deliveries_2 cs)) as [r' v'] eqn:Hrecv.
  split.
  { change v' with (snd (r', v')). rewrite <- Hrecv. change cs with (snd (s', w', cs)).
    rewrite <- Hrun. vm_compute. reflexivity. }
  refine (snapshot_transfer_safe (fun n => Some (replicate (Z.to_nat n) 0)) sender_config_2 true
            (Some (replicate 6 0)) 4 9 3 example_conf data_2 (checksum_of data_2) source_2
            fresh_sender started_sender s' tt tt w' sends_2 cs shelf_config true (SALTS_OK, [])
            receiver_2 r' ([], None) v' (deliveries_2 cs) _ _ _ _ _ _ _ Hrun _ _ _ Hrecv).
  - split_and!; cbn; lia.
  - by intros block [= <-].
  - intros n block [= <-]. by rewrite length_replicate.
  - reflexivity.
  - apply memory_source_of. cbn. lia.
  - reflexivity.
  - repeat constructor; cbn; lia.
  - reflexivity.
  - reflexivity.
  - intros c (op & Hop & Hc)%list_elem_of_omap.
    apply list_elem_of_fmap in Hop as (x & -> & Hx). injection Hc as <-.
    rewrite !elem_of_app, !list_elem_of_In, <- in_rev in Hx. rewrite list_elem_of_In. tauto.
Defined.
