(* ===== verification/SnapshotProgress.v ===== *)
(** * A transfer completes

    Over a link that loses nothing, with callbacks that succeed, the chunks of
    the coordinator take the receiver to the end of the snapshot and its
    acknowledgements take the coordinator to the end of the transfer. *)

From S2P Require Import Prelude Configuration Bytes Wire CoreState Transport CoreApi.
From S2P Require Import Digest SnapshotSender SnapshotReceiver SnapshotReceive SnapshotSend.
From S2P Require Import SnapshotManager SnapshotTransfer.
From Stdlib Require Import ZArith Lia.
From stdpp Require Import base numbers list tactics.
Open Scope Z_scope.
Open Scope raft_scope.

(** The callbacks of a receiver and the allocator do not fail. *)
Record receiver_total {V : Type} (malloc : Z -> option (list Z))
    (rconfig : tr_raft_snapshot_receiver_config V) : Prop := {
  rt_install install v t index st conf data :
    rg_install rconfig = Some install -> snd (install v t index st conf data) = SALTS_OK;
  rt_begin begin v t index st conf size :
    sk_begin (rg_stream rconfig) = Some begin -> snd (begin v t index st conf size) = SALTS_OK;
  rt_write write v offset data :
    sk_write (rg_stream rconfig) = Some write -> snd (write v offset data) = SALTS_OK;
  rt_commit commit v :
    sk_commit (rg_stream rconfig) = Some commit -> snd (commit v) = SALTS_OK;
  rt_malloc n : 0 < n -> exists block, malloc n = Some block /\ length block = Z.to_nat n
}.

(** The snapshot is one the receiver accepts. *)
Record acceptable {V : Type} `{Sha256} (config : tr_raft_snapshot_sender_config)
    (rconfig : tr_raft_snapshot_receiver_config V) (it : snapshot_item) : Prop := {
  ac_peer : rg_self_id rconfig = sg_peer_id config;
  ac_size : Z.of_nat (length (it_data it)) < 2 ^ 64;
  ac_max : Z.of_nat (length (it_data it)) <= rg_max_snapshot_bytes rconfig;
  ac_buffer : sk_begin (rg_stream rconfig) = None ->
    Z.of_nat (length (it_data it)) <= rg_max_buffered_snapshot_bytes rconfig;
  ac_conf : tr_raft_conf_validate (it_configuration it) = SALTS_OK;
  ac_terms : it_leader_term it <> 0 /\ it_index it <> 0 /\ it_term it <> 0 /\
             it_term it <= it_leader_term it
}.

Section Receive.
Context {V : Type} `{Sha256Total} (malloc : Z -> option (list Z)).
Context (rconfig : tr_raft_snapshot_receiver_config V) `{!SnapshotWorld rconfig}.
Context (config : tr_raft_snapshot_sender_config) (it : snapshot_item).
Context (Hmalloc : forall n block, malloc n = Some block -> length block = Z.to_nat n).
Context (Hcb : callbacks_ok rconfig) (Htotal : receiver_total malloc rconfig).
Context (Hconfig : sender_config_ok config) (Hacc : acceptable config rconfig it).

Abbreviation size := (Z.of_nat (length (it_data it))).
Abbreviation part := (chunk_of config it (sha256 (it_data it))).

Lemma receiver_accepts_part (r : tr_raft_snapshot_receiver V) offset :
  rv_config r = rconfig -> chunk_offset config it offset ->
  tr_snapshot_receiver_chunk_valid r (part offset) = true.
Proof.
  intros Hr Ho. destruct (ac_terms _ _ _ Hacc) as (T1 & T2 & T3 & T4).
  pose proof (chunk_of_valid config it (sha256 (it_data it)) offset Hconfig (ac_size _ _ _ Hacc)
                (ac_conf _ _ _ Hacc) T1 T2 T3 T4 Ho) as Hv.
  unfold tr_snapshot_chunk_valid in Hv. destruct (_ || _) eqn:B1 in Hv; [done|].
  destruct (_ || _) eqn:B2 in Hv; [done|].
  unfold tr_snapshot_receiver_chunk_valid. rewrite Hr.
  rewrite !orb_false_iff in B1. apply orb_false_iff in B2 as [B2 B3].
  destruct B1 as [[[[[[[[-> _] ->] ->] ->] ->] ->] ->] ->]. rewrite B2, B3.
  cbn [sc_to sc_snapshot_size chunk_of]. rewrite (ac_peer _ _ _ Hacc), Z.eqb_refl.
  pose proof (ac_max _ _ _ Hacc). by replace (_ <? size) with false by blia.
Qed.

Lemma members_match_refl ms : members_match ms ms = true.
Proof. induction ms as [|m ms IH]; [done|]. cbn. by rewrite !Z.eqb_refl, IH. Qed.

Lemma identity_part (r : tr_raft_snapshot_receiver V) offset :
  receiver_id r = chunk_id (part 0) -> rv_configuration r = it_configuration it ->
  tr_snapshot_receiver_identity_matches r (part offset) = true.
Proof.
  unfold receiver_id, chunk_id. cbn. intros [= E1 E2 E3 E4 E5 E6] Hc.
  unfold tr_snapshot_receiver_identity_matches.
  cbn [sc_from sc_term sc_snapshot_index sc_snapshot_term sc_snapshot_size sc_snapshot_digest
       sc_snapshot_offset sc_has_configuration sc_configuration chunk_of].
  rewrite Hc, E1, E2, E3, E4, E5, E6, !Z.eqb_refl, bool_decide_true by done.
  destruct (offset =? 0); [|done]. by rewrite !Z.eqb_refl, members_match_refl.
Qed.

(** How far a receiver is: how many bytes it holds and whether it has installed
    the snapshot. *)
Inductive rx : Z -> bool -> tr_raft_snapshot_receiver V -> V -> Prop :=
| rx_fresh r v : idle rconfig r v -> rv_active r = false -> rx 0 false r v
| rx_mid p r v cs :
    assembling rconfig r v cs -> receiver_id r = chunk_id (part 0) ->
    rv_configuration r = it_configuration it -> chunks_bytes cs = slice (it_data it) 0 p ->
    chunk_offset config it p -> 0 < p -> rx p false r v
| rx_done r v :
    idle rconfig r v -> rv_active r = true -> rv_completed r = true ->
    receiver_id r = chunk_id (part 0) -> rv_configuration r = it_configuration it ->
    rv_next_offset r = size -> rx size true r v.

Lemma start_total r v offset :
  rv_config r = rconfig ->
  fst (fst (tr_snapshot_receiver_start malloc r (part offset) v)) = SALTS_OK.
Proof.
  intros Hr. unfold tr_snapshot_receiver_start.
  assert (exists data, start_buffer malloc r (part offset) = (SALTS_OK, data)) as [data ->].
  { unfold start_buffer. rewrite Hr. cbn [sc_snapshot_size chunk_of].
    destruct (is_null (sk_begin (rg_stream rconfig))) eqn:Hn; cbn [andb]; [|by eexists].
    destruct (size =? 0) eqn:Hz; cbn [negb]; [by eexists|]. apply Z.eqb_neq in Hz.
    assert (sk_begin (rg_stream rconfig) = None) as Hb by (by destruct (sk_begin _)).
    pose proof (ac_buffer _ _ _ Hacc Hb). pose proof (ac_size _ _ _ Hacc).
    replace (_ || _) with false by (unfold UINT64_MAX; blia).
    destruct (rt_malloc _ _ Htotal size) as (block & -> & _); [lia|]. by eexists. }
  destruct (tr_snapshot_receiver_clear_transfer r v) as [r1 v1] eqn:Hclear.
  assert (rv_config r1 = rconfig) as Hr1.
  { unfold tr_snapshot_receiver_clear_transfer in Hclear.
    destruct (rv_stream_started r); injection Hclear as <- _; done. }
  set (r2 := r1 <| rv_leader_id := _ |> <| rv_leader_term := _ |> <| rv_snapshot_index := _ |>
    <| rv_snapshot_term := _ |> <| rv_configuration := _ |> <| rv_snapshot_size := _ |>
    <| rv_digest := _ |> <| rv_data := _ |> <| rv_active := _ |> <| rv_completed := _ |>).
  pose proof (sha_reset_total (rv_sha256 r2)) as Hsha.
  destruct (cmeta_sha256_stream_reset (rv_sha256 r2)) as [res sha]. cbn in Hsha. subst res.
  change (rv_config (r2 <| rv_sha256 := sha |>)) with (rv_config r1). rewrite Hr1.
  destruct (sk_begin (rg_stream rconfig)) as [begin|] eqn:Hb; [|done].
  set (r3 := r2 <| rv_sha256 := sha |>).
  pose proof (rt_begin _ _ Htotal begin v1 (rv_leader_term r3) (rv_snapshot_index r3)
                (rv_snapshot_term r3) (rv_configuration r3) (rv_snapshot_size r3) Hb) as Hbg.
  destruct (begin v1 _ _ _ _ _) as [v2 res]. cbn in Hbg. by subst res.
Qed.

Lemma absorb_total r v c :
  rv_config r = rconfig -> rv_stream_started r = streaming rconfig ->
  fst (fst (absorb r c v)) = SALTS_OK.
Proof.
  intros Hr Hs. unfold absorb. destruct (negb _); [|done].
  pose proof (sha_update_total (rv_sha256 r) (sc_data c)) as Hu.
  destruct (cmeta_sha256_stream_update _ _) as [res sha]. cbn in Hu. subst res.
  change (rv_stream_started (r <| rv_sha256 := sha |>)) with (rv_stream_started r). rewrite Hs.
  unfold streaming, callbacks_ok in *. destruct (sk_begin (rg_stream rconfig)); [|done].
  cbn [is_null negb]. unfold sink_write.
  change (rv_config (r <| rv_sha256 := sha |>)) with (rv_config r). rewrite Hr.
  destruct Hcb as ([write Hw] & _ & _). rewrite Hw.
  pose proof (rt_write _ _ Htotal write v (rv_next_offset (r <| rv_sha256 := sha |>))
                (sc_data c) Hw) as Hok.
  by destruct (write v _ (sc_data c)) as [v1 res].
Qed.

(** The end of the snapshot. *)
Lemma finish_part r v c cs :
  assembling rconfig r v cs -> receiver_id r = chunk_id (part 0) ->
  rv_configuration r = it_configuration it -> chunks_bytes cs = it_data it ->
  exists r' v',
    finish_transfer r c v =
      (SALTS_OK, r', v', tr_snapshot_receiver_prepare_ack r c size true, true) /\
    rx size true r' v' /\ installed v' = installed v ++ [it].
Proof.
  intros Ha Hid Hconf Hbytes. unfold finish_transfer.
  pose proof (sha_finish_total (rv_sha256 r)) as Hok.
  destruct (cmeta_sha256_stream_finish (rv_sha256 r)) as [[res sha] digest] eqn:Hf.
  cbn in Hok. subst res.
  pose proof (sha_finish_digest _ _ _ _ (ag_sha _ _ _ _ Ha) Hf) as ->. rewrite Hbytes.
  pose proof (ag_next _ _ _ _ Ha) as Hn. rewrite Hbytes in Hn.
  pose proof (ag_config _ _ _ _ Ha) as Hr. pose proof (ag_started _ _ _ _ Ha) as Hs.
  pose proof (ag_staged _ _ _ _ Ha) as Hsg. rewrite Hbytes in Hsg.
  pose proof Hid as Hid'. unfold receiver_id, chunk_id in Hid'. cbn in Hid'.
  injection Hid' as E1 E2 E3 E4 E5 E6.
  assert (receiver_item r (it_data it) = it) as Hit.
  { unfold receiver_item. rewrite E2, E3, E4, Hconf. by destruct it. }
  rewrite Hit in Hsg. cbn [failed ok negb orb].
  change (rv_digest (r <| rv_sha256 := sha |>)) with (rv_digest r).
  rewrite E6, bool_decide_true by done. cbn [negb].
  change (rv_stream_started (r <| rv_sha256 := sha |>)) with (rv_stream_started r).
  assert (exists v1,
    (if rv_stream_started r then sink_commit (r <| rv_sha256 := sha |>) v
     else call_install (r <| rv_sha256 := sha |>) v) = (v1, SALTS_OK) /\
    installed v1 = installed v ++ [it] /\ staged v1 = None) as (v1 & -> & W1 & W2).
  { rewrite Hs. pose proof (ag_data _ _ _ _ Ha) as Hd. unfold callbacks_ok, streaming in *.
    unfold sink_commit, call_install.
    change (rv_config (r <| rv_sha256 := sha |>)) with (rv_config r). rewrite Hr.
    destruct (sk_begin (rg_stream rconfig)) eqn:Hb; cbn [is_null negb] in *.
    - destruct Hcb as (_ & [commit Hcommit] & _). rewrite Hcommit.
      pose proof (rt_commit _ _ Htotal commit v Hcommit) as Hok.
      destruct (commit v) as [v1 res] eqn:Hv. cbn in Hok. subst res. exists v1.
      destruct (commit_law _ _ _ _ _ Hcommit Hsg Hv) as [? ?]. auto.
    - destruct Hcb as [install Hi]. rewrite Hi. destruct (Hd eq_refl) as [D1 D2].
      rewrite Hbytes, take_ge in D2 by lia. cbn. rewrite D2.
      pose proof (rt_install _ _ Htotal install v (rv_leader_term r) (rv_snapshot_index r)
                    (rv_snapshot_term r) (rv_configuration r) (it_data it) Hi) as Hok.
      destruct (install v _ _ _ _ _) as [v1 res] eqn:Hv. cbn in Hok. subst res. exists v1.
      destruct (install_law _ _ _ _ _ _ _ _ _ Hi Hv) as [I1 I2]. cbn in I2.
      change (Item _ _ _ _ _) with (receiver_item r (it_data it)) in I2. rewrite Hit in I2.
      rewrite I1. done. }
  eexists _, v1. split; [|split; [|done]].
  - unfold tr_snapshot_receiver_prepare_ack. cbn. rewrite Hn. done.
  - apply rx_done; cbn; try done; [|apply (ag_active _ _ _ _ Ha)].
    split; cbn; try done. by right.
Qed.

Lemma slice_step offset n :
  0 <= offset -> 0 <= n ->
  slice (it_data it) 0 offset ++ slice (it_data it) offset n = slice (it_data it) 0 (offset + n).
Proof. intros. rewrite <- (slice_app (it_data it) 0 offset n) by lia. done. Qed.

(** The chunk the receiver waits for. *)
Lemma receive_part r v cs p :
  assembling rconfig r v cs -> receiver_id r = chunk_id (part 0) ->
  rv_configuration r = it_configuration it -> chunks_bytes cs = slice (it_data it) 0 p ->
  chunk_offset config it p ->
  let p' := p + chunk_length config it p in
  exists r' v' inst,
    receive r (part p) v =
      (SALTS_OK, r', v', tr_snapshot_receiver_prepare_ack r (part p) p' true, inst) /\
    rx p' (p' =? size) r' v' /\
    installed v' = installed v ++ (if p' =? size then [it] else []).
Proof.
  intros Ha Hid Hconf Hbytes Hp p'. pose proof (chunk_length_range config it Hconfig _ Hp) as [L1 L2].
  destruct (Hp) as (Hp0 & Hpd & Hps). pose proof (ac_size _ _ _ Hacc) as Hsz.
  assert (Z.of_nat (length (slice (it_data it) 0 p)) = p) as Hlen by (apply length_slice; lia).
  pose proof (ag_next _ _ _ _ Ha) as Hn. rewrite Hbytes, Hlen in Hn.
  assert (sc_data_length (part p) = chunk_length config it p) as Hdl.
  { unfold sc_data_length. cbn. by apply length_slice. }
  pose proof Hid as Hid'. unfold receiver_id, chunk_id in Hid'. cbn in Hid'.
  injection Hid' as E1 E2 E3 E4 E5 E6.
  assert (continues r (part p)) as Hc.
  { split; cbn [sc_snapshot_offset sc_configuration chunk_of]; try done.
    - intros ->. done.
    - rewrite Hdl. lia. }
  unfold receive. rewrite (ag_completed _ _ _ _ Ha), Hn.
  cbn [sc_snapshot_offset sc_done chunk_of]. rewrite Z.ltb_irrefl, Z.eqb_refl. cbn [negb].
  pose proof (absorb_ok rconfig Hcb r v cs (part p) Ha Hc) as Habs.
  pose proof (absorb_total r v (part p) (ag_config _ _ _ _ Ha) (ag_started _ _ _ _ Ha)) as Hok.
  destruct (absorb r (part p) v) as [[res r1] v1]. cbn in Hok. subst res.
  destruct Habs as (A1 & A2 & _ & A4 & A5). specialize (A2 eq_refl).
  change (_ <| rv_next_offset := _ |>) with (advanced r1 (part p)).
  assert (receiver_id (advanced r1 (part p)) = chunk_id (part 0)) as Hid1
    by (transitivity (receiver_id r1); [done|congruence]).
  assert (rv_configuration (advanced r1 (part p)) = it_configuration it) as Hconf1.
  { rewrite <- (ag_first _ _ _ _ A2 (default (part p) (head cs))).
    - destruct cs as [|c0 cs]; cbn [default head].
      + rewrite <- Hbytes in Hlen. cbn in Hlen. by subst p.
      + etransitivity; [apply (ag_first _ _ _ _ Ha c0 eq_refl)|done].
    - by destruct cs. }
  assert (chunks_bytes (cs ++ [part p]) = slice (it_data it) 0 p') as Hbytes'.
  { rewrite chunks_bytes_snoc, Hbytes. cbn [sc_data chunk_of]. by apply slice_step. }
  assert (rv_next_offset (advanced r1 (part p)) = p') as Hnext.
  { rewrite (ag_next _ _ _ _ A2), Hbytes'. apply length_slice; lia. }
  fold p'. destruct (p' =? size) eqn:Hfin; cbn [negb].
  - apply Z.eqb_eq in Hfin. rewrite Hfin in *. rewrite slice_all in Hbytes'.
    destruct (finish_part (advanced r1 (part p)) v1 (part p) _ A2 Hid1 Hconf1 Hbytes')
      as (r' & v' & -> & Hrx & Hi).
    exists r', v', true. rewrite Hi, A1. split_and!; try done.
    unfold tr_snapshot_receiver_prepare_ack.
    by rewrite (ag_config _ _ _ _ A2), (ag_config _ _ _ _ Ha).
  - exists (advanced r1 (part p)), v1, false. rewrite app_nil_r, Hnext. split_and!; try done.
    apply Z.eqb_neq in Hfin. apply (rx_mid p' _ _ (cs ++ [part p])); try done.
    + destruct (position_next config it Hconfig p Hp); [done|unfold p' in *; lia].
    + unfold p', chunk_length in *. pose proof (sk_chunk _ Hconfig). lia.
Qed.

(** Where a receiver is after a chunk. *)
Definition rx_next (p : Z) (fin : bool) (offset : Z) : Z :=
  if negb fin && (offset =? p) then p + chunk_length config it p else p.

Definition rx_fin (p : Z) (fin : bool) (offset : Z) : bool :=
  fin || ((offset =? p) && (rx_next p fin offset =? size)).

(** A chunk the receiver waits for, or has had already. *)
Lemma deliver p fin r v offset :
  rx p fin r v -> chunk_offset config it offset -> offset <= p ->
  exists r' v' ack inst,
    tr_raft_snapshot_receiver_handle malloc r (part offset) v = (SALTS_OK, r', v', ack, inst) /\
    ack = SnapshotAck (sg_peer_id config) (sg_self_id config) (it_leader_term it) (it_index it)
            size (rx_next p fin offset) (sha256 (it_data it)) true /\
    rx (rx_next p fin offset) (rx_fin p fin offset) r' v' /\
    installed v' = installed v ++ (if negb fin && rx_fin p fin offset then [it] else []).
Proof.
  intros Hrx Ho Hle.
  assert (forall r0 n, rv_config r0 = rconfig ->
    tr_snapshot_receiver_prepare_ack r0 (part offset) n true =
    SnapshotAck (sg_peer_id config) (sg_self_id config) (it_leader_term it) (it_index it)
      size n (sha256 (it_data it)) true) as Hack.
  { intros r0 n Hr0. unfold tr_snapshot_receiver_prepare_ack. by rewrite Hr0, (ac_peer _ _ _ Hacc). }
  unfold tr_raft_snapshot_receiver_handle, rx_fin, rx_next.
  destruct Hrx as [r v Hi Hact|p r v cs Ha Hid Hconf Hb Hp Hp0|r v Hi Hact Hcomp Hid Hconf Hn];
    cbn [negb andb orb].
  - assert (offset = 0) as -> by (destruct (Ho); lia). rewrite Z.eqb_refl. cbn [andb].
    pose proof (id_config _ _ _ Hi) as Hr. rewrite receiver_accepts_part by done. cbn [negb].
    rewrite Hact. cbn [negb sc_snapshot_offset chunk_of Z.eqb].
    pose proof (start_ok malloc rconfig Hmalloc Hcb r v (part 0) []) as Hs.
    pose proof (start_total r v 0 Hr) as Hok.
    destruct (tr_snapshot_receiver_start malloc r (part 0) v) as [[res r1] v1].
    cbn in Hok. subst res. destruct Hs as (Hv & Ha & Hid & Hconf & _).
    { by left. } { split; cbn; pose proof (ac_size _ _ _ Hacc); lia. } { apply (ac_conf _ _ _ Hacc). }
    destruct (receive_part r1 v1 [] 0 Ha Hid Hconf eq_refl Ho) as (r' & v' & inst & -> & Hrx & Hin).
    eexists r', v', _, inst. split; [done|]. split; [by apply Hack, (ag_config _ _ _ _ Ha)|].
    split; [done|]. by rewrite Hin, Hv.
  - pose proof (ag_config _ _ _ _ Ha) as Hr. rewrite receiver_accepts_part by done.
    rewrite (ag_active _ _ _ _ Ha), identity_part by done. cbn [negb].
    destruct (offset =? p) eqn:Heq; cbn [andb].
    + apply Z.eqb_eq in Heq. subst offset.
      destruct (receive_part r v cs p Ha Hid Hconf Hb Hp) as (r' & v' & inst & -> & Hrx & Hin).
      eexists r', v', _, inst. split; [done|]. split; [by apply Hack|]. done.
    + apply Z.eqb_neq in Heq. unfold receive. rewrite (ag_completed _ _ _ _ Ha).
      destruct (Hp) as (? & ? & ?).
      assert (rv_next_offset r = p) as Hn.
      { rewrite (ag_next _ _ _ _ Ha), Hb. apply length_slice; lia. }
      rewrite Hn. cbn [sc_snapshot_offset chunk_of]. replace (offset <? p) with true by blia.
      eexists r, v, _, false. split; [done|]. split; [by apply Hack|].
      split; [by eapply rx_mid|by rewrite app_nil_r].
  - pose proof (id_config _ _ _ Hi) as Hr. rewrite receiver_accepts_part by done.
    rewrite Hact, identity_part by done. cbn [negb]. unfold receive. rewrite Hcomp, Hn.
    eexists r, v, _, false. split; [done|]. split; [by apply Hack|].
    split; [by apply rx_done|by rewrite app_nil_r].
Qed.
End Receive.

(** ** The sending side *)

Section Link.
Context {W : Type} (outbox : W -> list tr_raft_snapshot_chunk).
Context (emit : W -> tr_raft_snapshot_chunk -> W * status).
Context (config : tr_raft_snapshot_sender_config) (it : snapshot_item) (digest : list Z).
Context (Hconfig : sender_config_ok config) (Hsize : Z.of_nat (length (it_data it)) < 2 ^ 64).

Abbreviation size := (Z.of_nat (length (it_data it))).
Abbreviation window := (sg_max_inflight_chunks config).
Abbreviation part := (chunk_of config it digest).

(** The transport takes every chunk. *)
Definition emits : Prop :=
  forall w c, exists w', emit w c = (w', SALTS_OK) /\ outbox w' = outbox w ++ [c].

(** Reads do not fail, and the source leaves the transport alone. *)
Record source_total (src : tr_raft_snapshot_source W) : Prop := {
  st_read : exists read_at, src_read_at src = Some read_at /\
    forall w offset n, 0 <= offset -> 0 < n -> offset + n <= size ->
      exists w', read_at w offset n = (w', SALTS_OK, slice (it_data it) offset n) /\
                 outbox w' = outbox w;
  st_release release w : src_release src = Some release -> outbox (release w) = outbox w
}.
Context (Hemit : emits).

(** The offsets of the chunks from one position to another. *)
Fixpoint spans (from : Z) (offsets : list Z) (to : Z) : Prop :=
  match offsets with
  | [] => from = to
  | offset :: offsets =>
      offset = from /\ chunk_offset config it from /\
      spans (from + chunk_length config it from) offsets to
  end.

Lemma spans_app a l1 b l2 c : spans a l1 b -> spans b l2 c -> spans a (l1 ++ l2) c.
Proof.
  revert a. induction l1 as [|o l1 IH]; cbn; intros a; [by intros ->|].
  intros (? & ? & ?) ?. auto.
Qed.

(** Nothing more can be claimed. *)
Definition full (s : tr_raft_snapshot_sender W) : Prop :=
  window <= sn_claim_count s \/ (sn_next_offset s = size /\ sn_claim_count s <> 0).

Lemma next_chunk_total s w :
  sending config it digest s -> source_total (sn_source s) -> sn_claim_count s < window ->
  (sn_next_offset s =? sn_size s) && negb (sn_claim_count s =? 0) = false ->
  exists s' w' c, tr_raft_snapshot_sender_next_chunk s w = (SALTS_OK, s', w', c) /\
    outbox w' = outbox w.
Proof.
  intros Hs Hsrc Hcount Hend. destruct (sd_config _ _ _ _ Hs) as (C1 & C2 & C3).
  destruct (sd_state _ _ _ _ Hs) as (A1 & A2).
  pose proof (claim_allowed config it digest Hconfig s Hs Hend) as Ho.
  pose proof (chunk_length_range config it Hconfig _ Ho) as Hl. destruct (Ho) as (Ho0 & _ & _).
  unfold tr_raft_snapshot_sender_next_chunk. rewrite A1, A2, C3, Hend. cbn [negb orb].
  replace (window <=? sn_claim_count s) with false by blia.
  rewrite (next_chunk_length config it digest Hsize s Hs) by (by eapply sending_next).
  destruct (find_free_slot_total config it Hconfig s Hcount C3) as (slot & -> & _ & _).
  destruct (chunk_length config it (sn_next_offset s) =? 0) eqn:Hz; cbn [negb].
  { by eexists _, w, _. }
  apply Z.eqb_neq in Hz. unfold source_read.
  destruct (st_read _ Hsrc) as (read_at & -> & Hread).
  destruct (Hread w (sn_next_offset s) (chunk_length config it (sn_next_offset s)))
    as (w' & -> & Hw); [lia..|].
  rewrite (length_slice (it_data it)), Z.eqb_refl by lia. cbn [negb]. by eexists _, w', _.
Qed.

Lemma next_chunk_source (s : tr_raft_snapshot_sender W) w res s' w' c :
  tr_raft_snapshot_sender_next_chunk s w = (res, s', w', c) -> sn_source s' = sn_source s.
Proof.
  unfold tr_raft_snapshot_sender_next_chunk.
  destruct (negb _ || _); [by intros [= _ <- _ _]|].
  destruct (_ <=? _); [by destruct (negb _); intros [= _ <- _ _]|].
  destruct (_ && _); [by intros [= _ <- _ _]|].
  destruct (tr_raft_snapshot_sender_find_free_slot s) as [[|e] slot]; [|by intros [= _ <- _ _]].
  set (n := if _ <? _ then _ else _). destruct (negb (n =? 0)); [|by intros [= _ <- _ _]].
  destruct (source_read _ _ _ _) as [[w1 r] bytes]. destruct r; [|by intros [= _ <- _ _]].
  by destruct (negb _); intros [= _ <- _ _].
Qed.

Lemma next_chunk_full s w :
  sending config it digest s -> full s -> sn_claim_count s < window \/ window <> 1 ->
  tr_raft_snapshot_sender_next_chunk s w = (SALTS_EBUSY, s, w, None).
Proof.
  intros Hs Hf Hone. destruct (sd_config _ _ _ _ Hs) as (C1 & C2 & C3).
  destruct (sd_state _ _ _ _ Hs) as (A1 & A2). destruct (sd_id _ _ _ _ Hs) as (I1 & _).
  unfold tr_raft_snapshot_sender_next_chunk. rewrite A1, A2, C3, I1. cbn [negb orb].
  destruct (window <=? sn_claim_count s) eqn:Hw.
  - apply Z.leb_le in Hw. by replace (window =? 1) with false by blia.
  - apply Z.leb_gt in Hw. destruct Hf as [Hf|[-> Hf]]; [lia|].
    rewrite Z.eqb_refl. by replace (sn_claim_count s =? 0) with false by blia.
Qed.

(** Filling the window sends the chunks from the next offset on until it is
    full. *)
Lemma fill_loop_full fuel s w :
  (fill_measure (Coordinator s emit) <= fuel)%nat ->
  sending config it digest s -> source_total (sn_source s) ->
  sn_claim_count s < window \/ window <> 1 ->
  exists s' w' offsets,
    fill_loop fuel (Coordinator s emit) w = (SALTS_OK, Coordinator s' emit, w') /\
    sending config it digest s' /\ source_total (sn_source s') /\ full s' /\
    sn_acknowledged_offset s' = sn_acknowledged_offset s /\
    spans (sn_next_offset s) offsets (sn_next_offset s') /\
    outbox w' = outbox w ++ (part <$> offsets) /\ (full s \/ offsets <> []).
Proof.
  revert s w. induction fuel as [|fuel IH]; intros s w Hfuel Hs Hsrc Hone;
    unfold fill_measure in Hfuel; [lia|]. cbn [co_sender] in Hfuel.
  destruct (sd_config _ _ _ _ Hs) as (_ & _ & C3). rewrite C3 in Hfuel.
  cbn [fill_loop co_sender co_emit].
  destruct (sd_id _ _ _ _ Hs) as (I1 & _).
  assert (full s \/ (sn_claim_count s < window /\
            (sn_next_offset s =? sn_size s) && negb (sn_claim_count s =? 0) = false))
    as [Hfull|[Hw Hend]].
  { unfold full. rewrite I1. destruct (Z.le_gt_cases window (sn_claim_count s)); [by left; left|].
    destruct (Z.eq_dec (sn_next_offset s) size), (Z.eq_dec (sn_claim_count s) 0);
      [right; split; [done|blia]|left; by right|right; split; [done|blia]..]. }
  - rewrite (next_chunk_full s w Hs Hfull Hone). exists s, w, [].
    rewrite app_nil_r. split_and!; try done. by left.
  - destruct (next_chunk_total s w Hs Hsrc Hw Hend) as (s1 & w1 & oc & Hn & Hw1).
    pose proof (next_chunk_outcome config it digest Hconfig Hsize s w Hs) as Hout.
    pose proof (next_chunk_source _ _ _ _ _ _ Hn) as Hsrc1. rewrite Hn in Hout |- *.
    inversion Hout as [|? claim Hw' Hcl|?|? ? slot Hs1 Ho1 _ Hk Hcl Hnx]; subst.
    { unfold sn_claim_count in *. rewrite Hcl in *. cbn in *. lia. }
    destruct (Hemit w1 (part (sn_next_offset s))) as (w2 & -> & Hw2).
    cbn [ss_max_inflight_chunks ss_inflight_chunks tr_raft_snapshot_sender_get_status].
    destruct (sd_config _ _ _ _ Hs1) as (_ & _ & D3). rewrite D3.
    rewrite <- Hsrc1 in Hsrc.
    assert (outbox w2 = outbox w ++ [part (sn_next_offset s)]) as Hbox by congruence.
    destruct (window <=? sn_claim_count s1) eqn:Hfull.
    + apply Z.leb_le in Hfull. exists s1, w2, [sn_next_offset s]. split_and!; try done.
      * by left.
      * by right.
    + apply Z.leb_gt in Hfull.
      destruct (IH s1 w2) as (s' & w' & offsets & E & F1 & F2 & F3 & F4 & F5 & F6 & _).
      { unfold fill_measure. cbn [co_sender]. rewrite D3. unfold sn_claim_count in *.
        rewrite Hcl, length_app in *. cbn [length] in *. lia. }
      { done. } { done. } { by left. }
      exists s', w', (sn_next_offset s :: offsets). split_and!; try done.
      * congruence.
      * cbn. by rewrite <- Hnx.
      * rewrite F6, Hbox, <- app_assoc. done.
      * by right.
Qed.

(** A position between two ends of a chain is the end of a claim. *)
Lemma chain_boundary from claims to next :
  chain config it from claims to -> position config it next -> from < next <= to ->
  exists claim, claim ∈ claims /\ claim_end claim = next.
Proof.
  revert from. induction claims as [|c claims IH]; intros from Hc Hn Hr.
  { cbn in Hc. lia. }
  pose proof (claim_end_chain config it Hconfig Hsize _ _ _ _ Hc) as He.
  destruct Hc as (Ho & Hp & Hl & Hc). pose proof (chunk_length_range config it Hconfig _ Hp).
  destruct (Z.eq_dec next (claim_end c)) as [->|Hne].
  { exists c. split; [apply list_elem_of_here|done]. }
  assert (claim_end c < next) as Hlt.
  { rewrite He, Hl in *. unfold chunk_length in *. destruct Hp as (H1 & [x Hx] & H2).
    pose proof (sk_chunk _ Hconfig). destruct Hn as [(H3 & [y Hy] & H4)|Hn]; [|lia].
    assert (x < y) by nia. assert (from + sg_chunk_size config <= next) by nia. lia. }
  destruct (IH _ Hc Hn) as (claim & Hin & Hend); [lia|]. exists claim. split; [|done].
  by apply list_elem_of_further.
Qed.

(** The acknowledgement of a receiver at a position. *)
Definition ack_at (next : Z) : tr_raft_snapshot_ack :=
  SnapshotAck (sg_peer_id config) (sg_self_id config) (it_leader_term it) (it_index it)
    size next digest true.

Lemma ack_at_matches s next : sending config it digest s -> ack_matches (W := W) s (ack_at next) = true.
Proof.
  intros Hs. destruct (sd_config _ _ _ _ Hs) as (C1 & _).
  destruct (sd_id _ _ _ _ Hs) as (I1 & I2 & I3 & I4 & _). unfold ack_matches.
  rewrite C1, I1, I2, I3, I4. cbn. by rewrite !Z.eqb_refl, bool_decide_true.
Qed.

Lemma ack_advances s w next :
  sending config it digest s -> source_total (sn_source s) -> position config it next ->
  sn_acknowledged_offset s <= next <= sn_next_offset s ->
  exists s' w', tr_raft_snapshot_sender_acknowledge s (ack_at next) w = (SALTS_OK, s', w') /\
    outbox w' = outbox w /\ (next <> size -> source_total (sn_source s')).
Proof.
  intros Hs Hsrc Hp Hr. destruct (sd_config _ _ _ _ Hs) as (_ & C2 & _).
  destruct (sd_state _ _ _ _ Hs) as (A1 & A2). destruct (sd_id _ _ _ _ Hs) as (I1 & _).
  unfold tr_raft_snapshot_sender_acknowledge.
  rewrite A1, A2, C2, I1, ack_at_matches by done. cbn [negb sa_next_offset sa_accepted ack_at].
  replace (sn_next_offset s <? next) with false by blia.
  assert (negb (next =? size) && negb (next mod sg_chunk_size config =? 0) = false) as ->.
  { pose proof (sk_chunk _ Hconfig). destruct Hp as [(_ & Hd & _)| ->]; [|by rewrite Z.eqb_refl].
    apply Z.mod_divide in Hd; [|lia]. rewrite Hd. cbn. by rewrite andb_false_r. }
  cbn [orb]. replace (next <? sn_acknowledged_offset s) with false by blia.
  assert ((next =? sn_acknowledged_offset s) ||
          existsb (fun claim => claim_end claim =? next) (sn_claims s) = true) as ->.
  { destruct (Z.eq_dec next (sn_acknowledged_offset s)) as [->|Hne]; [by rewrite Z.eqb_refl|].
    destruct (chain_boundary _ _ _ next (sd_chain _ _ _ _ Hs) Hp) as (claim & Hin & He); [lia|].
    apply orb_true_iff. right. apply existsb_exists. exists claim.
    split; [by apply list_elem_of_In|by apply Z.eqb_eq]. }
  cbn [negb]. cbn. destruct (next =? size) eqn:Hsz.
  - apply Z.eqb_eq in Hsz. cbn. eexists _, _. split; [done|]. split; [|done].
    destruct (sn_source_owned s); [|done]. destruct (src_release (sn_source s)) eqn:Hrel; [|done].
    by apply (st_release _ Hsrc).
  - by eexists _, _.
Qed.

(** A window of one is empty after the acknowledgement of its chunk. *)
Lemma window_of_one (s : tr_raft_snapshot_sender W) next :
  sending config it digest s -> window = 1 -> position config it next ->
  sn_acknowledged_offset s < next <= sn_next_offset s ->
  drop (released_claims next (sn_claims s)) (sn_claims s) = [].
Proof.
  intros Hs Hone Hp Hr.
  destruct (chain_boundary _ _ _ next (sd_chain _ _ _ _ Hs) Hp) as (claim & Hin & He); [lia|].
  pose proof (sd_count _ _ _ _ Hs) as Hc. unfold sn_claim_count in Hc. rewrite Hone in Hc.
  destruct (sn_claims s) as [|c [|? ?]]; cbn in Hc; [done| |lia].
  apply list_elem_of_singleton in Hin as ->. cbn. by replace (claim_end c <=? next) with true by blia.
Qed.
End Link.

(** ** The link

    The chunks the transport has taken are delivered to the receiver one after
    the other, and each acknowledgement is handed to the coordinator before the
    next chunk is delivered. *)

Section Pump.
Context {W V : Type} `{Sha256Total} (outbox : W -> list tr_raft_snapshot_chunk).
Context (malloc : Z -> option (list Z)).

(** [k] is the number of chunks delivered so far. *)
Fixpoint pump (n k : nat) (co : tr_raft_snapshot_coordinator W) (w : W)
    (r : tr_raft_snapshot_receiver V) (v : V)
    : tr_raft_snapshot_coordinator W * W * tr_raft_snapshot_receiver V * V :=
  match n with
  | O => (co, w, r, v)
  | S n =>
      match outbox w !! k with
      | None => (co, w, r, v)
      | Some c =>
          let '(_, r, v, ack, _) := tr_raft_snapshot_receiver_handle malloc r c v in
          let '(_, co, w) := tr_raft_snapshot_coordinator_handle_ack co ack w in
          pump n (S k) co w r v
      end
  end.

Context (emit : W -> tr_raft_snapshot_chunk -> W * status).
Context (rconfig : tr_raft_snapshot_receiver_config V) `{!SnapshotWorld rconfig}.
Context (config : tr_raft_snapshot_sender_config) (it : snapshot_item).
Context (Hmalloc : forall n block, malloc n = Some block -> length block = Z.to_nat n).
Context (Hcb : callbacks_ok rconfig) (Htotal : receiver_total malloc rconfig).
Context (Hconfig : sender_config_ok config) (Hacc : acceptable config rconfig it).
Context (Hemit : emits outbox emit).

Abbreviation size := (Z.of_nat (length (it_data it))).
Abbreviation window := (sg_max_inflight_chunks config).
Abbreviation digest := (sha256 (it_data it)).
Abbreviation part := (chunk_of config it digest).

Let Hsize : size < 2 ^ 64 := ac_size _ _ _ Hacc.

(** A transfer under way: the chunks from offset [a] on are still to be
    delivered, and the receiver is at [p]. *)
Record pumping (k : nat) (s : tr_raft_snapshot_sender W) (w : W)
    (r : tr_raft_snapshot_receiver V) (v : V) (a p : Z) (fin : bool) : Prop := {
  pu_sending : sending config it digest s;
  pu_source : source_total outbox it (sn_source s);
  pu_full : full config it s;
  pu_pending : exists offsets, drop k (outbox w) = part <$> offsets /\
    spans config it a offsets (sn_next_offset s) /\ offsets <> [];
  pu_rx : rx rconfig config it p fin r v;
  pu_order : sn_acknowledged_offset s <= p <= sn_next_offset s /\ a <= p;
  pu_sync : (sn_acknowledged_offset s = p /\ fin = false) \/ a = sn_acknowledged_offset s;
  pu_one : window = 1 -> a = sn_acknowledged_offset s
}.

(** A transfer that is over; chunks delivered twice may still arrive. *)
Record finished (k : nat) (s : tr_raft_snapshot_sender W) (w : W)
    (r : tr_raft_snapshot_receiver V) (v : V) : Prop := {
  fd_state : sn_active s = true /\ sn_complete s = true;
  fd_rx : rx rconfig config it size true r v;
  fd_pending : exists offsets, drop k (outbox w) = part <$> offsets /\
    Forall (chunk_offset config it) offsets
}.

Lemma spans_offsets a offsets b :
  spans config it a offsets b -> Forall (chunk_offset config it) offsets.
Proof.
  revert a. induction offsets as [|o offsets IH]; cbn; intros a; [done|].
  intros (-> & ? & ?). constructor; eauto.
Qed.

Lemma finished_step n k s w r v :
  finished k s w r v ->
  exists s' w' r' v',
    pump n k (Coordinator s emit) w r v = (Coordinator s' emit, w', r', v') /\
    (exists k', finished k' s' w' r' v') /\ installed v' = installed v.
Proof.
  revert k r v. induction n as [|n IH]; intros k r v Hf; cbn [pump].
  { exists s, w, r, v. split_and!; try done. by exists k. }
  destruct (fd_pending _ _ _ _ _ Hf) as (offsets & Hd & Ho).
  destruct (outbox w !! k) as [c|] eqn:Hk.
  2: { exists s, w, r, v. split_and!; try done. by exists k. }
  apply drop_S in Hk. rewrite Hk in Hd. destruct offsets as [|o offsets]; [done|].
  injection Hd as -> Hd. apply Forall_cons_1 in Ho as [Ho Hos].
  destruct (deliver malloc rconfig config it Hmalloc Hcb Htotal Hconfig Hacc size true r v o
              (fd_rx _ _ _ _ _ Hf) Ho) as (r' & v' & ack & inst & -> & -> & Hrx & Hi).
  { destruct Ho as (? & ? & ?). lia. }
  destruct (fd_state _ _ _ _ _ Hf) as [A1 A2].
  unfold tr_raft_snapshot_coordinator_handle_ack, tr_raft_snapshot_sender_acknowledge.
  cbn [co_sender]. rewrite A1, A2. cbn [negb].
  assert (finished (S k) s w r' v') as Hf'.
  { split; [done|done|]. by exists offsets. }
  cbn in Hi. rewrite app_nil_r in Hi.
  destruct (IH (S k) r' v' Hf') as (s2 & w2 & r2 & v2 & E & F & G).
  exists s2, w2, r2, v2. rewrite <- Hi, <- G.
  destruct (negb (ack_matches s _)); [done|].
  destruct (_ && _); [|done].
  cbn [ss_complete tr_raft_snapshot_sender_get_status]. rewrite A2. done.
Qed.

Lemma rx_position p fin r v :
  rx rconfig config it p fin r v ->
  position config it p /\ (fin = true -> p = size) /\ (fin = false -> chunk_offset config it p).
Proof.
  intros [?|?|?].
  - assert (chunk_offset config it 0) as Ho.
    { split_and!; [lia|apply Z.divide_0_r|lia]. }
    split_and!; [by left|done|done].
  - split_and!; [by left|done|done].
  - split_and!; [by right|done|done].
Qed.

Lemma position_gap a p :
  chunk_offset config it a -> position config it p -> a < p -> a + chunk_length config it a <= p.
Proof.
  intros (A1 & [x Hx] & A2) Hp Hlt. unfold chunk_length. pose proof (sk_chunk _ Hconfig).
  destruct Hp as [(P1 & [y Hy] & P2)| ->]; [|lia].
  assert (x < y) by nia. assert (a + sg_chunk_size config <= p) by nia. lia.
Qed.

Lemma spans_le a offsets b : position config it a -> spans config it a offsets b -> a <= b.
Proof.
  revert a. induction offsets as [|o offsets IH]; cbn; intros a Ha; [lia|].
  intros (_ & Ho & Hs). pose proof (chunk_length_range config it Hconfig _ Ho).
  specialize (IH _ (position_next config it Hconfig _ Ho) Hs). lia.
Qed.

(** A full window has something in flight. *)
Lemma full_in_flight (s : tr_raft_snapshot_sender W) :
  sending config it digest s -> full config it s -> sn_acknowledged_offset s <> size ->
  sn_acknowledged_offset s < sn_next_offset s.
Proof.
  intros Hs Hf Hne. pose proof (sk_window _ Hconfig). pose proof (sd_chain _ _ _ _ Hs) as Hc.
  unfold full, sn_claim_count in Hf. destruct (sn_claims s) as [|c claims]; cbn [length] in *; [lia|].
  destruct Hc as (_ & Ho & Hl & Hc). rewrite Hl in Hc.
  destruct (chain_end config it Hconfig _ _ _ (position_next config it Hconfig _ Ho) Hc).
  pose proof (sk_chunk _ Hconfig). destruct (Ho) as (? & ? & ?). unfold chunk_length in *. lia.
Qed.

Lemma window_of_one_end (s : tr_raft_snapshot_sender W) :
  sending config it digest s -> window = 1 ->
  sn_next_offset s <= sn_acknowledged_offset s + chunk_length config it (sn_acknowledged_offset s).
Proof.
  intros Hs Hone. pose proof (sd_count _ _ _ _ Hs) as Hc. unfold sn_claim_count in Hc.
  pose proof (sd_chain _ _ _ _ Hs) as Hch.
  pose proof (chunk_length_range config it Hconfig _ (sd_acknowledged _ _ _ _ Hs)).
  destruct (sn_claims s) as [|c [|? ?]]; cbn in Hc, Hch; lia.
Qed.

(** What a step of the link does to the two sides. *)
Definition pump_outcome (k : nat) (w' : W) (a : Z) (s' : tr_raft_snapshot_sender W)
    (r' : tr_raft_snapshot_receiver V) (v v' : V) (fin : bool) : Prop :=
  (finished (S k) s' w' r' v' /\ installed v' = installed v ++ (if fin then [] else [it])) \/
  (exists p', pumping (S k) s' w' r' v' (a + sg_chunk_size config) p' false /\
     a + sg_chunk_size config < size /\ fin = false /\ installed v' = installed v).

Lemma rx_advance p fin r v a b offsets :
  rx rconfig config it p fin r v -> spans config it a (a :: offsets) b -> a <= p <= b ->
  position config it (rx_next config it p fin a) /\ p <= rx_next config it p fin a <= b /\
  a + chunk_length config it a <= rx_next config it p fin a /\
  (rx_next config it p fin a = size -> rx_fin config it p fin a = true) /\
  (rx_next config it p fin a <> size -> fin = false /\ rx_fin config it p fin a = false).
Proof.
  intros Hrx (_ & Ho & Hs) Hp. destruct (rx_position _ _ _ _ Hrx) as (R1 & R2 & R3).
  pose proof (chunk_length_range config it Hconfig _ Ho) as Hl.
  pose proof (spans_le _ _ _ (position_next config it Hconfig _ Ho) Hs) as Hle.
  unfold rx_fin, rx_next. destruct fin; cbn [negb andb orb].
  - specialize (R2 eq_refl). split_and!; try done; lia.
  - specialize (R3 eq_refl). destruct (a =? p) eqn:Heq; cbn [andb].
    + apply Z.eqb_eq in Heq. subst p. split_and!; try lia.
      by apply position_next.
    + apply Z.eqb_neq in Heq. pose proof (position_gap a p Ho R1 ltac:(lia)).
      split_and!; try done; try lia. intros ->. destruct R3 as (? & ? & ?), Ho as (? & _). lia.
Qed.

(** The coordinator takes the acknowledgement of a receiver that is not at the
    end. *)
Lemma handle_ack_forward s w next :
  sending config it digest s -> source_total outbox it (sn_source s) ->
  position config it next -> sn_acknowledged_offset s <= next <= sn_next_offset s ->
  next <> size -> (window = 1 -> sn_acknowledged_offset s < next) ->
  exists s' w' offsets,
    tr_raft_snapshot_coordinator_handle_ack (Coordinator s emit) (ack_at config it digest next) w =
      (SALTS_OK, Coordinator s' emit, w') /\
    sending config it digest s' /\ source_total outbox it (sn_source s') /\ full config it s' /\
    sn_acknowledged_offset s' = next /\
    spans config it (sn_next_offset s) offsets (sn_next_offset s') /\
    outbox w' = outbox w ++ (part <$> offsets).
Proof.
  intros Hs Hsrc Hp Hr Hne Hone.
  destruct (ack_advances outbox config it digest Hconfig Hsize s w next Hs Hsrc Hp Hr)
    as (s1 & w1 & Hack & Hw1 & Hsrc1). specialize (Hsrc1 Hne).
  pose proof (acknowledge_outcome config it digest Hconfig Hsize s (ack_at config it digest next)
                w Hs) as Hout. cbn [sa_next_offset ack_at] in Hout.
  destruct (position_range config it next Hp) as [Hn0 _]. specialize (Hout Hn0).
  unfold tr_raft_snapshot_coordinator_handle_ack. cbn [co_sender]. rewrite Hack in Hout |- *.
  inversion Hout as [|? Hx|? ? _ Hs1 _ _ F1 F2 F3|? ? _ _ Hx]; subst; cbn in *; [done| |done].
  destruct (sd_state _ _ _ _ Hs1) as [_ ->].
  destruct (fill_loop_full outbox emit config it digest Hconfig Hsize Hemit
              (fill_fuel (Coordinator s1 emit)) s1 w1) as
    (s' & w' & offsets & E & G1 & G2 & G3 & G4 & G5 & G6 & _); try done.
  { unfold fill_measure, fill_fuel. cbn [co_sender]. unfold sn_claim_count. lia. }
  { destruct (Z.eq_dec window 1) as [Hw|]; [left|by right]. unfold sn_claim_count.
    rewrite F3, (window_of_one config it digest Hconfig Hsize s next Hs Hw Hp); cbn; [lia|].
    specialize (Hone Hw). lia. }
  exists s', w', offsets. split_and!; try done; try congruence.
Qed.

Lemma handle_ack_final s w :
  sending config it digest s -> source_total outbox it (sn_source s) -> sn_next_offset s = size ->
  exists s' w',
    tr_raft_snapshot_coordinator_handle_ack (Coordinator s emit) (ack_at config it digest size) w =
      (SALTS_OK, Coordinator s' emit, w') /\
    sn_active s' = true /\ sn_complete s' = true /\ outbox w' = outbox w.
Proof.
  intros Hs Hsrc Hn.
  assert (sn_acknowledged_offset s <= size <= sn_next_offset s) as Hr.
  { pose proof (sd_acknowledged _ _ _ _ Hs) as (? & ? & ?). lia. }
  destruct (ack_advances outbox config it digest Hconfig Hsize s w size Hs Hsrc (or_intror eq_refl) Hr)
    as (s1 & w1 & Hack & Hw1 & _).
  pose proof (acknowledge_outcome config it digest Hconfig Hsize s (ack_at config it digest size)
                w Hs) as Hout. cbn [sa_next_offset ack_at] in Hout. specialize (Hout ltac:(lia)).
  unfold tr_raft_snapshot_coordinator_handle_ack. cbn [co_sender]. rewrite Hack in Hout |- *.
  inversion Hout as [|? Hx|? ? _ _ Hx|? ? _ _ _ _ F1 F2]; subst; cbn in *; [done|done|].
  rewrite F2. by exists s1, w1.
Qed.

Lemma pump_step k s w r v a p fin :
  pumping k s w r v a p fin ->
  exists c s' w' r' v' ack inst res,
    outbox w !! k = Some c /\
    tr_raft_snapshot_receiver_handle malloc r c v = (SALTS_OK, r', v', ack, inst) /\
    tr_raft_snapshot_coordinator_handle_ack (Coordinator s emit) ack w =
      (res, Coordinator s' emit, w') /\
    pump_outcome k w' a s' r' v v' fin.
Proof.
  intros Hp. destruct (pu_pending _ _ _ _ _ _ _ _ Hp) as (offsets & Hd & Hsp & Hne).
  destruct offsets as [|o offsets]; [done|]. assert (o = a) as -> by apply Hsp.
  assert (outbox w !! k = Some (part a)) as Hk.
  { rewrite <- (Nat.add_0_r k), <- lookup_drop, Hd. done. }
  assert (drop (S k) (outbox w) = part <$> offsets) as Hd'.
  { apply drop_S in Hk. rewrite Hk in Hd. by injection Hd. }
  pose proof (pu_sending _ _ _ _ _ _ _ _ Hp) as Hs. pose proof (pu_source _ _ _ _ _ _ _ _ Hp) as Hsrc.
  destruct (pu_order _ _ _ _ _ _ _ _ Hp) as [Hord Hap].
  pose proof (pu_rx _ _ _ _ _ _ _ _ Hp) as Hrx. pose proof Hsp as (_ & Ho & Hsp').
  destruct (rx_advance _ _ _ _ _ _ _ Hrx Hsp) as (R1 & R2 & R3 & R4 & R5); [lia|].
  destruct (deliver malloc rconfig config it Hmalloc Hcb Htotal Hconfig Hacc p fin r v a Hrx Ho Hap)
    as (r' & v' & ack & inst & Hh & -> & Hrx' & Hi).
  set (p' := rx_next config it p fin a) in *.
  change (SnapshotAck _ _ _ _ _ p' _ _) with (ack_at config it digest p') in Hh.
  destruct (Z.eq_dec p' size) as [Hfin|Hfin].
  - specialize (R4 Hfin). rewrite Hfin in Hh, Hrx', R2. rewrite R4 in Hrx', Hi.
    pose proof (position_range config it _ (sending_next config it digest Hconfig s Hs)).
    destruct (handle_ack_final s w Hs Hsrc) as (s' & w' & Ha & F1 & F2 & F3); [lia|].
    exists (part a), s', w', r', v', (ack_at config it digest size), inst, SALTS_OK.
    split_and!; try done. left. split.
    + split; [done|done|]. exists offsets. rewrite F3. split; [done|]. by eapply spans_offsets.
    + rewrite Hi. by destruct fin.
  - destruct (R5 Hfin) as [-> Hrf]. rewrite Hrf in Hrx', Hi.
    pose proof (position_range config it _ R1) as Hp'.
    assert (chunk_length config it a = sg_chunk_size config) as Hlen.
    { unfold chunk_length in *. lia. }
    assert (window = 1 -> a + chunk_length config it a = p' /\ sn_acknowledged_offset s < p') as Hone.
    { intros Hw. rewrite (pu_one _ _ _ _ _ _ _ _ Hp Hw) in *.
      pose proof (window_of_one_end s Hs Hw). pose proof (sk_chunk _ Hconfig). lia. }
    destruct (handle_ack_forward s w p' Hs Hsrc R1) as
      (s' & w' & new & Ha & F1 & F2 & F3 & F4 & F5 & F6); [lia|done|intros Hw; by apply Hone|].
    exists (part a), s', w', r', v', (ack_at config it digest p'), inst, SALTS_OK.
    split_and!; try done. right. exists p'. rewrite Hi, app_nil_r, <- Hlen.
    pose proof (spans_le _ _ _ (sending_next config it digest Hconfig s Hs) F5).
    pose proof (full_in_flight s' F1 F3) as Hfl. rewrite F4 in Hfl. specialize (Hfl Hfin).
    split; [|split_and!; try done; lia].
    split; try done.
    + exists (offsets ++ new). split_and!.
      * rewrite F6, drop_app_le, Hd', fmap_app; [done|]. by apply lookup_lt_Some in Hk.
      * by eapply spans_app.
      * intros [-> ->]%app_nil. cbn in Hsp', F5. lia.
    + rewrite F4. lia.
    + left. by rewrite F4.
    + intros Hw. rewrite F4. by apply Hone.
Qed.

Lemma pump_completes n k s w r v a p fin :
  pumping k s w r v a p fin -> (1 <= n)%nat -> size - a <= Z.of_nat n * sg_chunk_size config ->
  exists s' w' r' v',
    pump n k (Coordinator s emit) w r v = (Coordinator s' emit, w', r', v') /\
    sn_complete s' = true /\ rx rconfig config it size true r' v' /\
    installed v' = installed v ++ (if fin then [] else [it]).
Proof.
  revert k s w r v a p fin. induction n as [|n IH]; intros k s w r v a p fin Hp Hn Hm; [lia|].
  destruct (pump_step k s w r v a p fin Hp) as
    (c & s1 & w1 & r1 & v1 & ack & inst & res & Hk & Hh & Ha & Hout).
  cbn [pump]. rewrite Hk, Hh, Ha. destruct Hout as [[Hf Hi]|(p' & Hp' & Hlt & -> & Hi)].
  - destruct (finished_step n (S k) s1 w1 r1 v1 Hf) as (s' & w' & r' & v' & E & (k' & Hf') & G).
    exists s', w', r', v'. rewrite E, G, Hi. split_and!; try done; [apply (fd_state _ _ _ _ _ Hf')|].
    apply (fd_rx _ _ _ _ _ Hf').
  - pose proof (sk_chunk _ Hconfig).
    destruct (IH (S k) s1 w1 r1 v1 _ p' false Hp') as (s' & w' & r' & v' & E & F & G & I); [nia..|].
    exists s', w', r', v'. rewrite E, I, Hi. done.
Qed.

(** The end of a chain of that many claims. *)
Lemma chain_count from claims to :
  chunk_offset config it from -> chain config it from claims to -> claims <> [] ->
  to = size \/ to = from + Z.of_nat (length claims) * sg_chunk_size config.
Proof.
  revert from. induction claims as [|c claims IH]; intros from Ho Hc Hne; [done|].
  pose proof Hc as Hall. destruct Hc as (_ & _ & Hl & Hc). rewrite Hl in Hc.
  destruct claims as [|c1 claims]; cbn in Hc.
  { subst to. unfold chunk_length. cbn [length]. lia. }
  pose proof Hc as (_ & Ho1 & _). destruct (IH _ Ho1 Hc) as [E|E]; [done|by left|].
  pose proof (sk_chunk _ Hconfig). destruct Ho1 as (? & ? & [Hlt|[Hz _]]).
  - right. assert (chunk_length config it from = sg_chunk_size config) as Hcl
      by (unfold chunk_length in *; lia). rewrite Hcl in E.
    change (length (c :: c1 :: claims)) with (S (length (c1 :: claims))).
    rewrite Nat2Z.inj_succ. lia.
  - left. destruct (chain_end config it Hconfig from (c :: c1 :: claims) to) as [_ Hpos].
    + by left.
    + done.
    + destruct Hpos as [(? & ? & ?)|?]; lia.
Qed.

Lemma full_end (s : tr_raft_snapshot_sender W) p :
  sending config it digest s -> full config it s -> p <= size ->
  p <= sn_acknowledged_offset s + window * sg_chunk_size config -> p <= sn_next_offset s.
Proof.
  intros Hs Hf Hp Hle. pose proof (sk_window _ Hconfig). pose proof (sk_chunk _ Hconfig).
  unfold full, sn_claim_count in Hf.
  destruct (chain_count _ _ _ (sd_acknowledged _ _ _ _ Hs) (sd_chain _ _ _ _ Hs)) as [E|E].
  - intros Hnil. rewrite Hnil in Hf. cbn in Hf. lia.
  - lia.
  - destruct Hf as [Hf|[Hf _]]; [|lia]. nia.
Qed.

(** From a window that has just been filled. *)
Lemma pump_from w s' w' offsets r v p fin :
  sending config it digest s' -> source_total outbox it (sn_source s') -> full config it s' ->
  spans config it (sn_acknowledged_offset s') offsets (sn_next_offset s') -> offsets <> [] ->
  outbox w' = outbox w ++ (part <$> offsets) -> rx rconfig config it p fin r v ->
  sn_acknowledged_offset s' <= p <=
    sn_acknowledged_offset s' + window * sg_chunk_size config ->
  pumping (length (outbox w)) s' w' r v (sn_acknowledged_offset s') p fin.
Proof.
  intros Hs Hsrc Hf Hsp Hne Hbox Hrx Hp. destruct (rx_position _ _ _ _ Hrx) as (R1 & _ & _).
  apply position_range in R1. pose proof (full_end s' p Hs Hf ltac:(lia) ltac:(lia)).
  split; try done; [|lia|by right]. exists offsets. split_and!; try done.
  by rewrite Hbox, drop_app_length.
Qed.

Lemma chain_span from claims to :
  chain config it from claims to ->
  to <= from + Z.of_nat (length claims) * sg_chunk_size config.
Proof.
  revert from. induction claims as [|c claims IH]; intros from; cbn [chain]; [cbn; lia|].
  intros (_ & _ & Hl & Hc). specialize (IH _ Hc).
  change (length (c :: claims)) with (S (length claims)).
  unfold chunk_length in Hl. lia.
Qed.

(** However many chunks are delivered. *)
Lemma pump_any n k s w r v a p fin :
  pumping k s w r v a p fin ->
  exists s' w' r' v',
    pump n k (Coordinator s emit) w r v = (Coordinator s' emit, w', r', v') /\
    ((exists k', finished k' s' w' r' v') /\
       installed v' = installed v ++ (if fin then [] else [it]) \/
     (exists k' a' p' fin', pumping k' s' w' r' v' a' p' fin' /\ (fin' = true -> fin = true)) /\
       installed v' = installed v).
Proof.
  revert k s w r v a p fin. induction n as [|n IH]; intros k s w r v a p fin Hp.
  { cbn. exists s, w, r, v. split; [done|]. right. split; [|done]. by exists k, a, p, fin. }
  destruct (pump_step k s w r v a p fin Hp) as
    (c & s1 & w1 & r1 & v1 & ack & inst & res & Hk & Hh & Ha & Hout).
  cbn [pump]. rewrite Hk, Hh, Ha. destruct Hout as [[Hf Hi]|(p' & Hp' & Hlt & -> & Hi)].
  - destruct (finished_step n (S k) s1 w1 r1 v1 Hf) as (s' & w' & r' & v' & E & Hf' & G).
    exists s', w', r', v'. split; [done|]. left. by rewrite G.
  - destruct (IH (S k) s1 w1 r1 v1 _ p' false Hp') as (s' & w' & r' & v' & E & G).
    exists s', w', r', v'. rewrite <- Hi. done.
Qed.

(** Filling the window of a sender with nothing in flight. *)
Lemma fill_fresh s w r v p fin :
  sending config it digest s -> source_total outbox it (sn_source s) -> sn_claims s = [] ->
  rx rconfig config it p fin r v ->
  sn_acknowledged_offset s <= p <=
    sn_acknowledged_offset s + window * sg_chunk_size config ->
  exists s' w',
    tr_snapshot_coordinator_fill_window (Coordinator s emit) w =
      (SALTS_OK, Coordinator s' emit, w') /\
    pumping (length (outbox w)) s' w' r v (sn_acknowledged_offset s) p fin.
Proof.
  intros Hs Hsrc Hcl Hrx Hp. pose proof (sk_window _ Hconfig) as Hw.
  assert (sn_claim_count s = 0) as Hc0 by (unfold sn_claim_count; by rewrite Hcl).
  pose proof (sd_chain _ _ _ _ Hs) as Hch. rewrite Hcl in Hch. cbn in Hch.
  destruct (fill_loop_full outbox emit config it digest Hconfig Hsize Hemit
              (fill_fuel (Coordinator s emit)) s w) as
    (s' & w' & offsets & E & G1 & G2 & G3 & G4 & G5 & G6 & G7); try done.
  { unfold fill_measure, fill_fuel. cbn [co_sender]. lia. }
  { left. lia. }
  exists s', w'. split; [done|]. rewrite <- G4. rewrite <- Hch, <- G4 in G5.
  eapply pump_from; try done; [|by rewrite G4].
  destruct G7 as [[Hx|[_ Hx]]|?]; [lia|done|done].
Qed.

(** A lost connection: what is in flight does not arrive, and the coordinator
    resumes. *)
Lemma resume_pumping k s w r v a p fin :
  pumping k s w r v a p fin ->
  exists s' w',
    tr_raft_snapshot_coordinator_resume (Coordinator s emit) w =
      (SALTS_OK, Coordinator s' emit, w') /\
    pumping (length (outbox w)) s' w' r v (sn_acknowledged_offset s) p fin.
Proof.
  intros Hp. pose proof (pu_sending _ _ _ _ _ _ _ _ Hp) as Hs.
  unfold tr_raft_snapshot_coordinator_resume. cbn [co_sender]. rewrite (resume_ok config it digest) by done.
  unfold with_sender. cbn [co_emit].
  apply (fill_fresh (restarted s (sn_acknowledged_offset s))); cbn; try apply Hp; try done.
  - apply restarted_ok; [done..|apply Hs].
  - destruct (pu_order _ _ _ _ _ _ _ _ Hp) as [? _]. split; [lia|].
    pose proof (chain_span _ _ _ (sd_chain _ _ _ _ Hs)). pose proof (sd_count _ _ _ _ Hs) as Hct.
    unfold sn_claim_count in Hct. pose proof (sk_chunk _ Hconfig). nia.
Qed.
End Pump.

(** How many chunks a snapshot has. *)
Definition chunk_count (config : tr_raft_snapshot_sender_config) (data : list Z) : nat :=
  Z.to_nat (Z.max 1 ((Z.of_nat (length data) + sg_chunk_size config - 1) / sg_chunk_size config)).

Lemma chunk_count_enough config data :
  sender_config_ok config ->
  (1 <= chunk_count config data)%nat /\
  Z.of_nat (length data) <= Z.of_nat (chunk_count config data) * sg_chunk_size config.
Proof.
  intros Hc. pose proof (sk_chunk _ Hc) as Hcs. unfold chunk_count. split; [lia|].
  rewrite Z2Nat.id by lia. set (n := Z.of_nat (length data)).
  pose proof (Z.div_mod (n + sg_chunk_size config - 1) (sg_chunk_size config) ltac:(lia)).
  pose proof (Z.mod_pos_bound (n + sg_chunk_size config - 1) (sg_chunk_size config) ltac:(lia)).
  nia.
Qed.

(** The state of a coordinator that has begun a transfer. *)
Lemma coordinator_begin_pumping {W V : Type} `{Sha256Total}
    (outbox : W -> list tr_raft_snapshot_chunk)
    (emit : W -> tr_raft_snapshot_chunk -> W * status)
    (config : tr_raft_snapshot_sender_config) allocated storage it
    (src : tr_raft_snapshot_source W) co0 co (w0 w : W)
    (rconfig : tr_raft_snapshot_receiver_config V) `{!SnapshotWorld rconfig} r (v : V) :
  config_in_range config ->
  (forall block, storage = Some block ->
     Z.of_nat (length block) = sg_chunk_size config * sg_max_inflight_chunks config) ->
  emits outbox emit -> source_of it (sha256 (it_data it)) src -> source_total outbox it src ->
  tr_raft_snapshot_coordinator_create config (Some emit) allocated storage = (SALTS_OK, Some co0) ->
  tr_raft_snapshot_coordinator_begin_source co0 (it_leader_term it) (it_index it) (it_term it)
    (it_configuration it) src w0 = (SALTS_OK, co, w) ->
  idle rconfig r v -> rv_active r = false -> rg_self_id rconfig = sg_peer_id config ->
  Z.of_nat (length (it_data it)) <= rg_max_snapshot_bytes rconfig ->
  (sk_begin (rg_stream rconfig) = None ->
   Z.of_nat (length (it_data it)) <= rg_max_buffered_snapshot_bytes rconfig) ->
  sender_config_ok config /\ acceptable config rconfig it /\
  exists s, co = Coordinator s emit /\
    pumping outbox rconfig config it (length (outbox w0)) s w r v 0 0 false.
Proof.
  intros Hr Hst Hemit Hsrc Htot Hc Hb Hi Hact Hpeer Hmax Hbuf.
  unfold tr_raft_snapshot_coordinator_create in Hc. destruct (negb (fst allocated)); [done|].
  destruct (tr_raft_snapshot_sender_create config _ storage) as [[|e] [s0|]] eqn:Hs0; try done.
  injection Hc as <-. destruct (create_ready config _ _ _ Hr Hs0 Hst) as [Hok Hready].
  unfold tr_raft_snapshot_coordinator_begin_source in Hb. cbn [co_sender] in Hb.
  destruct (tr_raft_snapshot_sender_begin_source s0 _ _ _ _ src w0) as [[[|e] s1] w1] eqn:Hs1;
    [|done].
  destruct it as [t index st conf data]. cbn [it_leader_term it_index it_term it_configuration it_data] in *.
  destruct (begin_sending config _ _ _ _ _ _ _ _ _ _ _ Hok Hready Hsrc Hs1)
    as (Hs & Hsz & Hv & T1 & T2 & T3 & T4 & Ha & Hcl).
  assert (acceptable config rconfig (Item t index st conf data)) as Hacc.
  { split; cbn; try done. destruct Hr as (_ & _ & ?). lia. }
  split; [done|]. split; [done|].
  assert (w1 = w0 /\ sn_source s1 = src) as [-> Hs1src].
  { assert (sn_source_owned s0 = false) as Ho.
    { unfold tr_raft_snapshot_sender_create in Hs0. destruct (_ || _) in Hs0; [done|].
      destruct (_ || _) in Hs0; [done|]. destruct (snd allocated); [|done].
      by destruct storage; [injection Hs0 as <-|]. }
    unfold tr_raft_snapshot_sender_begin_source in Hs1. destruct (_ || _) in Hs1; [done|].
    destruct (_ && _) in Hs1; [done|]. cbn in Hs1. rewrite Ho in Hs1. by injection Hs1 as <- <-. }
  pose proof (sk_window _ Hok). pose proof (sk_chunk _ Hok).
  destruct (fill_fresh outbox emit rconfig config (Item t index st conf data) Hok Hacc Hemit s1 w0 r v
              0 false) as (s & w' & E & Hp); try done.
  - by rewrite Hs1src.
  - by apply rx_fresh.
  - rewrite Ha. nia.
  - rewrite Ha in Hp. unfold with_sender in Hb. cbn [co_emit] in Hb. rewrite E in Hb.
    injection Hb as <- <-. by exists s.
Qed.

(** The transfer is complete and has installed the snapshot once. *)
Definition transferred {W V : Type} `{Sha256} {rconfig : tr_raft_snapshot_receiver_config V}
    `{!SnapshotWorld rconfig} (it : snapshot_item) (v : V)
    (state : tr_raft_snapshot_coordinator W * W * tr_raft_snapshot_receiver V * V) : Prop :=
  let '(co', _, _, v') := state in
  ss_complete (tr_raft_snapshot_coordinator_get_status co') = true /\
  installed v' = installed v ++ [it].

(** The link breaks after [lost] deliveries, nothing of what is in flight
    arrives, the coordinator resumes and [n] chunks are delivered. *)
Definition pump_resumed {W V : Type} `{Sha256} (outbox : W -> list tr_raft_snapshot_chunk)
    (malloc : Z -> option (list Z)) (lost n k : nat) (co : tr_raft_snapshot_coordinator W) (w : W)
    (r : tr_raft_snapshot_receiver V) (v : V)
    : tr_raft_snapshot_coordinator W * W * tr_raft_snapshot_receiver V * V :=
  let '(co, w, r, v) := pump outbox malloc lost k co w r v in
  let '(_, co, w') := tr_raft_snapshot_coordinator_resume co w in
  pump outbox malloc n (length (outbox w)) co w' r v.


(** ** Example *)

Definition record_chunk (w : list tr_raft_snapshot_chunk) (c : tr_raft_snapshot_chunk)
    : list tr_raft_snapshot_chunk * status := (w ++ [c], SALTS_OK).

Definition item_2 : snapshot_item := Item 4 9 3 example_conf data_2.

Definition coordinator_2 : tr_raft_snapshot_coordinator (list tr_raft_snapshot_chunk) :=
  Coordinator fresh_sender record_chunk.

Definition malloc_2 (n : Z) : option (list Z) := Some (replicate (Z.to_nat n) 0).

Lemma source_2_total : source_total id item_2 source_2.
Proof.
  split; [|by intros release w [= <-]]. eexists. split; [done|]. intros w offset n H1 H2 H3.
  exists w. split; [|done]. unfold tr_snapshot_memory_read_at. cbn in H3.
  rewrite u64_small by (cbn; lia).
  replace (_ || _) with false; [done|]. symmetry. rewrite !orb_false_iff, !Z.ltb_ge.
  cbn. lia.
Qed.

Lemma begun_2_ok :
  fst (fst (tr_raft_snapshot_coordinator_begin_source coordinator_2 (it_leader_term item_2)
    (it_index item_2) (it_term item_2) (it_configuration item_2) source_2 [])) = SALTS_OK.
Proof. reflexivity. Qed.

Lemma shelf_total : receiver_total malloc_2 shelf_config.
Proof.
  split.
  - intros install v t index st conf data [=].
  - by intros begin v t index st conf size [= <-].
  - by intros write v offset data [= <-].
  - by intros commit v [= <-].
  - intros n Hn. eexists. split; [done|]. by rewrite length_replicate.
Qed.

Lemma source_2_of {W : Type} :
  source_of item_2 (sha256 (it_data item_2)) (source_2 : tr_raft_snapshot_source W).
Proof. apply (memory_source_of 4 9 3 example_conf data_2 (checksum_of data_2)). cbn. lia. Qed.

Lemma created_2 :
  tr_raft_snapshot_coordinator_create sender_config_2 (Some record_chunk) (true, true)
    (Some (replicate 6 0)) = (SALTS_OK, Some coordinator_2).
Proof. reflexivity. Qed.

Lemma created_3 :
  tr_raft_snapshot_receiver_create shelf_config true (SALTS_OK, []) = (SALTS_OK, Some receiver_2).
Proof. reflexivity. Qed.

Lemma record_chunk_emits : emits id record_chunk.
Proof. intros w c. by eexists. Qed.

