(* ===== verification/CoreFrame.v ===== *)
(** * What the helpers of the core change

    [key] is the part of the core the safety of Raft depends on; the rest is
    timers, progress, windows, pauses and reads. [quiet] relates states with
    the same key, [fits] bounds the messages of a ready by its buffer. *)

From S2P Require Import Prelude Configuration Membership PeerSet Transition Window Vec.
From S2P Require Import Log CoreState CoreEmit CoreElection CoreSteps CoreApi.
From Stdlib Require Import ZArith Lia.
From stdpp Require Import base numbers list tactics.
Open Scope Z_scope.
Open Scope raft_scope.

Create HintDb quiet discriminated.

Section Frame.
Context {V : Type} `{VecOps V}.
Implicit Types (c : tr_raft_core V) (r : tr_raft_ready) (m : tr_raft_message).

Definition key c :=
  (c_self_id c, c_membership_transition c, c_peers c, c_self_is_voter c, c_role c,
   c_term c, c_voted_for c, c_log c, c_commit_index c, c_applied_index c,
   c_apply_admitted_index c, c_pending_apply_index c, c_campaign_term c,
   c_ready_outstanding c).

(** The arrays have their lengths, the windows are rings, and the reads fit. *)
Record aux_wf c : Prop := {
  aw_next : length (c_next_index c) = max_voters;
  aw_match : length (c_match_index c) = max_voters;
  aw_windows : length (c_append_windows c) = max_voters;
  aw_window : Forall window_wf (c_append_windows c);
  aw_reads : tr_read_total_count c <= c_max_pending_reads c;
  aw_max_reads : c_max_pending_reads c <= TR_RAFT_MAX_PENDING_READS
}.

Definition quiet c c' : Prop := key c' = key c /\ (aux_wf c -> aux_wf c').

#[export] Instance quiet_preorder : PreOrder quiet.
Proof.
  split.
  - by intros c.
  - intros c1 c2 c3 [H12 A12] [H23 A23]. split; [congruence|auto].
Qed.

Section Fields.
Context {c c' : tr_raft_core V} (Hq : quiet c c').

Lemma quiet_same_key : key c' = key c.
Proof. apply Hq. Qed.

Lemma same_self_id : c_self_id c' = c_self_id c.
Proof. by injection quiet_same_key. Qed.
Lemma same_transition : c_membership_transition c' = c_membership_transition c.
Proof. by injection quiet_same_key. Qed.
Lemma same_peers : c_peers c' = c_peers c.
Proof. by injection quiet_same_key. Qed.
Lemma same_self_is_voter : c_self_is_voter c' = c_self_is_voter c.
Proof. by injection quiet_same_key. Qed.
Lemma same_role : c_role c' = c_role c.
Proof. by injection quiet_same_key. Qed.
Lemma same_term : c_term c' = c_term c.
Proof. by injection quiet_same_key. Qed.
Lemma same_log : c_log c' = c_log c.
Proof. by injection quiet_same_key. Qed.
Lemma same_commit : c_commit_index c' = c_commit_index c.
Proof. by injection quiet_same_key. Qed.
Lemma same_outstanding : c_ready_outstanding c' = c_ready_outstanding c.
Proof. by injection quiet_same_key. Qed.
End Fields.

(** Quorums depend on the membership and the peers only. *)
Lemma membership_mask_ext c c' acks index members mask :
  c_peers c' = c_peers c ->
  membership_mask c' acks index members mask = membership_mask c acks index members mask.
Proof.
  intros Hp. revert index mask. induction members as [|x members IH]; intros index mask;
    cbn [membership_mask]; [done|]. rewrite IH. unfold tr_peer_index. by rewrite Hp.
Qed.

Lemma has_quorum_ext c c' acks :
  c_peers c' = c_peers c -> c_membership_transition c' = c_membership_transition c ->
  tr_core_has_quorum c' acks = tr_core_has_quorum c acks.
Proof.
  intros Hp Ht. unfold tr_core_has_quorum, tr_core_membership. rewrite Ht.
  by rewrite (membership_mask_ext c c').
Qed.

(** ** Setters *)

Lemma window_wf_array (ws : list tr_raft_append_window) i :
  Forall window_wf ws -> window_wf (array_get zero_window ws i).
Proof.
  intros Hws. unfold array_get. case_match; [apply window_wf_reset|].
  rewrite nth_lookup. destruct (ws !! Z.to_nat i) eqn:E; [|apply window_wf_reset].
  rewrite Forall_lookup in Hws. by eapply Hws.
Qed.

Lemma Forall_array_set {A : Type} (P : A -> Prop) (l : list A) i x :
  Forall P l -> P x -> Forall P (array_set l i x).
Proof. intros Hl Hx. unfold array_set. case_match; [done|]. by apply Forall_insert. Qed.

Lemma quiet_set_next c i x : quiet c (set_next c i x).
Proof.
  split; [done|]. intros []. constructor; try done.
  unfold set_next. record_simpl. by rewrite length_array_set.
Qed.

Lemma quiet_set_match c i x : quiet c (set_match c i x).
Proof.
  split; [done|]. intros []. constructor; try done.
  unfold set_match. record_simpl. by rewrite length_array_set.
Qed.

Lemma quiet_set_window c i w :
  (Forall window_wf (c_append_windows c) -> window_wf w) -> quiet c (set_window c i w).
Proof.
  intros Hw. split; [done|]. intros []. constructor; try done; unfold set_window; record_simpl.
  - by rewrite length_array_set.
  - apply Forall_array_set; auto.
Qed.

Lemma window_wf_probe w b :
  window_wf w -> window_wf (Window (w_items w) (w_head w) (w_count w) b).
Proof. by intros []. Qed.

Lemma window_at_wf c i : Forall window_wf (c_append_windows c) -> window_wf (window_at c i).
Proof. apply window_wf_array. Qed.

(** Fields that neither the key nor the shape of the core depends on. *)
Ltac quiet_field := split; [done|]; by intros [].

Lemma quiet_leader_id c v : quiet c (c <| c_leader_id := v |>).
Proof. quiet_field. Qed.
Lemma quiet_election_timeout_ticks c v : quiet c (c <| c_election_timeout_ticks := v |>).
Proof. quiet_field. Qed.
Lemma quiet_election_elapsed_ticks c v : quiet c (c <| c_election_elapsed_ticks := v |>).
Proof. quiet_field. Qed.
Lemma quiet_heartbeat_elapsed_ticks c v : quiet c (c <| c_heartbeat_elapsed_ticks := v |>).
Proof. quiet_field. Qed.
Lemma quiet_check_quorum_elapsed_ticks c v : quiet c (c <| c_check_quorum_elapsed_ticks := v |>).
Proof. quiet_field. Qed.
Lemma quiet_recent_active c v : quiet c (c <| c_recent_active := v |>).
Proof. quiet_field. Qed.
Lemma quiet_paused_peers c v : quiet c (c <| c_paused_peers := v |>).
Proof. quiet_field. Qed.
Lemma quiet_leadership_transfer_target c v : quiet c (c <| c_leadership_transfer_target := v |>).
Proof. quiet_field. Qed.
Lemma quiet_leadership_transfer_elapsed_ticks c v : quiet c (c <| c_leadership_transfer_elapsed_ticks := v |>).
Proof. quiet_field. Qed.
Lemma quiet_leadership_transfer_sent c v : quiet c (c <| c_leadership_transfer_sent := v |>).
Proof. quiet_field. Qed.
Lemma quiet_pending_read_context_id c v : quiet c (c <| c_pending_read_context_id := v |>).
Proof. quiet_field. Qed.
Lemma quiet_pending_read_index c v : quiet c (c <| c_pending_read_index := v |>).
Proof. quiet_field. Qed.
Lemma quiet_pending_read_acks c v : quiet c (c <| c_pending_read_acks := v |>).
Proof. quiet_field. Qed.
Lemma quiet_pre_votes c v : quiet c (c <| c_pre_votes := v |>).
Proof. quiet_field. Qed.
Lemma quiet_votes c v : quiet c (c <| c_votes := v |>).
Proof. quiet_field. Qed.
Lemma quiet_in_call c v : quiet c (c <| c_in_call := v |>).
Proof. quiet_field. Qed.

#[local] Hint Resolve quiet_leader_id quiet_election_timeout_ticks
  quiet_election_elapsed_ticks quiet_heartbeat_elapsed_ticks
  quiet_check_quorum_elapsed_ticks quiet_recent_active quiet_paused_peers
  quiet_leadership_transfer_target quiet_leadership_transfer_elapsed_ticks
  quiet_leadership_transfer_sent quiet_pending_read_context_id
  quiet_pending_read_index quiet_pending_read_acks quiet_pre_votes quiet_votes
  quiet_in_call : quiet.

Lemma quiet_append_windows c ws :
  length ws = max_voters -> Forall window_wf ws ->
  quiet c (c <| c_append_windows := ws |>).
Proof. intros Hl Hw. split; [done|]. by intros []. Qed.

Lemma quiet_fold (f : tr_raft_core V -> Z -> tr_raft_core V) l c :
  (forall c i, quiet c (f c i)) -> quiet c (fold_left f l c).
Proof.
  intros Hf. revert c. induction l as [|i l IH]; intros c; cbn; [done|].
  etrans; [apply Hf|apply IH].
Qed.

(** ** Emission *)

Definition fits r : Prop := r_message_count r <= r_message_capacity r.

(** The buffer is the same and at most [n] messages were added. *)
Definition adds (n : Z) r r' : Prop :=
  r_message_capacity r' = r_message_capacity r /\ r_has_buffer r' = r_has_buffer r /\
  r_message_count r' <= r_message_count r + n.

(** The buffer is the same and is not overfull if it was not. *)
Definition keeps_fit r r' : Prop :=
  r_message_capacity r' = r_message_capacity r /\ r_has_buffer r' = r_has_buffer r /\
  (fits r -> fits r').

#[export] Instance keeps_fit_preorder : PreOrder keeps_fit.
Proof.
  split; [done|]. intros r1 r2 r3 (? & ? & H12) (? & ? & H23). split; [congruence|].
  split; [congruence|auto].
Qed.

Lemma adds_trans n1 n2 r1 r2 r3 :
  adds n1 r1 r2 -> adds n2 r2 r3 -> adds (n1 + n2) r1 r3.
Proof.
  intros (Hc & Hb & Hn) (Hc' & Hb' & Hn'). split; [congruence|]. split; [congruence|lia].
Qed.

Lemma length_update_last f r : r_message_count (update_last f r) = r_message_count r.
Proof.
  unfold update_last, r_message_count. record_simpl. by rewrite length_alter.
Qed.

Lemma emit_adds c r type to granted :
  let '(sent, r') := tr_emit c r type to granted in
  sent = negb (tr_peer_paused c to) /\
  adds (if sent then 1 else 0) r r'.
Proof.
  unfold tr_emit. destruct (tr_peer_paused c to); cbn [negb].
  - split; [done|]. split; [done|]. split; [done|]. lia.
  - split; [done|]. split; [done|]. split; [done|].
    unfold r_message_count. record_simpl. rewrite length_app. cbn. lia.
Qed.

Lemma update_last_adds f r : adds 0 r (update_last f r).
Proof. split; [done|]. split; [done|]. rewrite length_update_last. lia. Qed.

Lemma adds_keeps_fit n r r' :
  adds n r r' -> (fits r -> r_message_count r + n <= r_message_capacity r) ->
  keeps_fit r r'.
Proof.
  intros (Hc & Hb & Hn) Hroom. split; [done|]. split; [done|]. unfold fits in *. lia.
Qed.

Lemma emit_snapshot_request_fit c r i : keeps_fit r (tr_emit_snapshot_request c r i).
Proof. unfold tr_emit_snapshot_request. by repeat case_match. Qed.

Lemma replication_plan_room c r i b type n :
  replication_plan c r i b = Some (type, n) ->
  r_message_count r < r_message_capacity r.
Proof.
  unfold replication_plan. repeat case_match; try done; intros _;
    match goal with E : (_ || _) = false |- _ => apply orb_false_iff in E as [_ E] end; lia.
Qed.

Lemma emit_replication_frame c r i b :
  let '(_, c', r') := tr_emit_replication c r i b in quiet c c' /\ keeps_fit r r'.
Proof.
  unfold tr_emit_replication. destruct (tr_peer_index_paused c i); [done|].
  destruct (next_at c i <=? log_base_index (c_log c)).
  { split; [|apply emit_snapshot_request_fit].
    apply quiet_set_window. intros _. apply window_wf_reset. }
  destruct (replication_plan c r i b) as [[type n]|] eqn:Hp; [|done].
  apply replication_plan_room in Hp.
  pose proof (emit_adds c r type (tr_peer_id c i) false) as He.
  destruct (tr_emit c r type (tr_peer_id c i) false) as [[] r1]; cbn [negb] in He;
    destruct He as [_ He].
  2: { split; [done|]. eapply adds_keeps_fit; [done|]. unfold fits. lia. }
  set (r2 := update_last _ r1).
  assert (keeps_fit r r2) as Hfit.
  { eapply adds_keeps_fit; [eapply adds_trans; [apply He|apply update_last_adds]|].
    unfold fits. lia. }
  destruct (negb (n =? 0)); [|done].
  pose proof (window_push_spec (window_at c i) (next_at c i -64 1)
    (next_at c i +64 n -64 1)) as Hpush.
  destruct (tr_append_window_push _ _ _) as [[] w].
  - split; [|done]. etrans; [|apply quiet_set_next]. apply quiet_set_window.
    intros Hws. by apply Hpush, window_at_wf.
  - split; [done|]. etrans; [apply Hfit|]. split; [done|]. split; [done|].
    unfold fits, r_message_count. record_simpl. intros Hf.
    assert (length (removelast (r_messages r2)) <= length (r_messages r2))%nat; [|lia].
    destruct (r_messages r2) as [|x l _] using rev_ind; [done|].
    rewrite removelast_last, length_app. lia.
Qed.

(** ** Loops over the peers *)

(** A loop whose body is quiet and keeps the buffer from overflowing. *)
Definition frames (cr cr' : tr_raft_core V * tr_raft_ready) : Prop :=
  quiet (fst cr) (fst cr') /\ keeps_fit (snd cr) (snd cr').

#[export] Instance frames_preorder : PreOrder frames.
Proof.
  split; [done|]. intros x y z [Hq1 Hf1] [Hq2 Hf2]. split; [by etrans|].
  etrans; [apply Hf1|apply Hf2].
Qed.

Lemma emit_replication_frames c r i b :
  frames (c, r) (let '(_, c, r) := tr_emit_replication c r i b in (c, r)).
Proof.
  pose proof (emit_replication_frame c r i b) as Hf.
  by destruct (tr_emit_replication c r i b) as [[? ?] ?].
Qed.

Lemma frames_fold (f : tr_raft_core V * tr_raft_ready -> Z -> tr_raft_core V * tr_raft_ready)
    l cr :
  (forall cr i, frames cr (f cr i)) -> frames cr (fold_left f l cr).
Proof.
  intros Hf. revert cr. induction l as [|i l IH]; intros cr; cbn; [done|].
  etrans; [apply Hf|apply IH].
Qed.

Lemma broadcast_replication_frames c r : frames (c, r) (tr_broadcast_replication c r).
Proof.
  apply frames_fold. intros [c' r'] i. case_match; [|done].
  apply emit_replication_frames.
Qed.

Lemma fill_snapshots_frames c r : frames (c, r) (fill_snapshots c r).
Proof.
  apply frames_fold. intros [c' r'] i. case_match; [|done].
  apply emit_replication_frames.
Qed.

Lemma fill_round_frames l emitted c r :
  let '(_, c', r') := fill_round l emitted c r in frames (c, r) (c', r').
Proof.
  revert emitted c r. induction l as [|i l IH]; intros emitted c r; cbn [fill_round];
    [done|].
  destruct (r_message_count r <? r_message_capacity r); [|done].
  destruct (_ || _); [apply IH|].
  pose proof (emit_replication_frames c r i false) as Hf.
  destruct (tr_emit_replication c r i false) as [[sent c1] r1].
  specialize (IH (sent || emitted) c1 r1).
  destruct (fill_round l (sent || emitted) c1 r1) as [[? c2] r2]. by etrans.
Qed.

Lemma fill_rounds_frames fuel c r : frames (c, r) (fill_rounds fuel c r).
Proof.
  revert c r. induction fuel as [|fuel IH]; intros c r; cbn [fill_rounds]; [done|].
  pose proof (fill_round_frames (peer_indices c) false c r) as Hf.
  destruct (fill_round _ _ _ _) as [[emitted c1] r1].
  destruct (emitted && _); [|done]. etrans; [apply Hf|apply IH].
Qed.

Lemma fill_replication_windows_frames c r :
  frames (c, r) (tr_fill_replication_windows c r).
Proof.
  unfold tr_fill_replication_windows. case_match; [done|].
  pose proof (fill_snapshots_frames c r) as Hf.
  destruct (fill_snapshots c r) as [c1 r1]. etrans; [apply Hf|apply fill_rounds_frames].
Qed.

Lemma fill_peer_loop_frames fuel i c r : frames (c, r) (fill_peer_loop fuel i c r).
Proof.
  revert c r. induction fuel as [|fuel IH]; intros c r; cbn [fill_peer_loop]; [done|].
  destruct (_ && _); [|done].
  pose proof (emit_replication_frames c r i false) as Hf.
  destruct (tr_emit_replication c r i false) as [[[] c1] r1]; [|done].
  etrans; [apply Hf|apply IH].
Qed.

Lemma fill_peer_window_frames c r i :
  frames (c, r) (tr_fill_peer_replication_window c r i).
Proof.
  unfold tr_fill_peer_replication_window. case_match; [|apply fill_peer_loop_frames].
  apply emit_replication_frames.
Qed.

(** ** Broadcasts *)

Lemma elem_of_peer_indices c i :
  i ∈ peer_indices c <-> 0 <= i < tr_peer_count c.
Proof.
  unfold peer_indices, tr_peer_count. rewrite list_elem_of_fmap. split.
  - intros (k & -> & Hk). apply elem_of_seq in Hk. lia.
  - intros Hi. exists (Z.to_nat i). rewrite elem_of_seq. lia.
Qed.

Lemma peer_id_lookup c i :
  0 <= i < tr_peer_count c -> c_peers c !! Z.to_nat i = Some (tr_peer_id c i).
Proof.
  intros Hi. unfold tr_peer_id, array_get, tr_peer_count in *.
  replace (_ <? 0) with false by blia. rewrite nth_lookup.
  destruct (c_peers c !! Z.to_nat i) eqn:E; [done|].
  apply lookup_ge_None in E. lia.
Qed.

Lemma peer_index_lookup c k id :
  ids_wf (c_peers c) -> c_peers c !! k = Some id -> tr_peer_index c id = Z.of_nat k.
Proof.
  intros [Hz Hs] Hk. unfold tr_peer_index, tr_raft_peer_set_index.
  rewrite list.Forall_forall in Hz. assert (id <> 0) as Hne.
  { apply Hz. by eapply list_elem_of_lookup_2. }
  replace (id =? 0) with false by lia. by apply find_id_lookup.
Qed.

Lemma peer_index_id c i :
  ids_wf (c_peers c) -> 0 <= i < tr_peer_count c -> tr_peer_index c (tr_peer_id c i) = i.
Proof.
  intros Hwf Hi. rewrite (peer_index_lookup c (Z.to_nat i)); [lia|done|].
  by apply peer_id_lookup.
Qed.

Lemma peer_paused_index c i :
  ids_wf (c_peers c) -> 0 <= i < tr_peer_count c ->
  tr_peer_paused c (tr_peer_id c i) = tr_peer_index_paused c i.
Proof.
  intros Hwf Hi. unfold tr_peer_paused. rewrite peer_index_id by done.
  by replace (0 <=? i) with true by blia.
Qed.

Lemma adds_fold (f : tr_raft_ready -> Z -> tr_raft_ready) (g : Z -> bool) l r :
  (forall r i, i ∈ l -> adds (if g i then 1 else 0) r (f r i)) ->
  adds (countb g l) r (fold_left f l r).
Proof.
  revert r. induction l as [|i l IH]; intros r Hf; cbn [fold_left countb].
  { split; [done|]. split; [done|]. lia. }
  eapply adds_trans; [apply Hf; left|]. apply IH. intros r' j Hj. apply Hf. by right.
Qed.

Lemma adds_refl r : adds 0 r r.
Proof. split; [done|]. split; [done|]. lia. Qed.

Lemma broadcast_adds c r type :
  ids_wf (c_peers c) ->
  adds (tr_unpaused_remote_voter_count c) r (tr_broadcast c r type).
Proof.
  intros Hwf. apply adds_fold. intros r' i Hi%elem_of_peer_indices.
  cbv beta zeta. fold (is_remote_voter c (tr_peer_id c i)).
  destruct (is_remote_voter c (tr_peer_id c i)); cbn [andb]; [|apply adds_refl].
  pose proof (emit_adds c r' type (tr_peer_id c i) false) as He.
  destruct (tr_emit c r' type (tr_peer_id c i) false) as [sent r1].
  rewrite peer_paused_index in He by done. by destruct He as [-> He].
Qed.

Lemma broadcast_read_index_adds c r ctx :
  ids_wf (c_peers c) ->
  adds (tr_unpaused_remote_voter_count c) r (tr_broadcast_read_index c r ctx).
Proof.
  intros Hwf. apply adds_fold. intros r' i Hi%elem_of_peer_indices.
  cbv beta zeta. fold (is_remote_voter c (tr_peer_id c i)).
  destruct (is_remote_voter c (tr_peer_id c i)); cbn [andb]; [|apply adds_refl].
  pose proof (emit_adds c r' TR_RAFT_MSG_READ_INDEX_REQUEST (tr_peer_id c i) false) as He.
  destruct (tr_emit c r' _ (tr_peer_id c i) false) as [sent r1].
  rewrite peer_paused_index in He by done. destruct He as [-> He].
  destruct (tr_peer_index_paused c i); [done|]. cbn [negb] in He |- *.
  rewrite <- (Z.add_0_r 1). eapply adds_trans; [done|apply update_last_adds].
Qed.

Lemma unpaused_voters_nonneg c : 0 <= tr_unpaused_remote_voter_count c.
Proof. apply countb_nonneg. Qed.

Lemma unpaused_voters_le_peers c :
  tr_unpaused_remote_voter_count c <= tr_unpaused_remote_peer_count c.
Proof.
  apply countb_mono. intros i _. rewrite !andb_true_iff. tauto.
Qed.

(** ** Reads *)

Lemma read_clear_active_quiet c : quiet c (tr_read_clear_active c).
Proof.
  split; [done|]. intros [? ? ? ? Hr ?]. constructor; try done.
  unfold tr_read_total_count, c_pending_read_count, c_waiting_read_count in *.
  unfold tr_read_clear_active. record_simpl. cbn [length]. lia.
Qed.

Lemma read_reset_all_quiet c : quiet c (tr_read_reset_all c).
Proof.
  split; [done|]. intros [? ? ? ? Hr ?]. constructor; try done.
  unfold tr_read_total_count, c_pending_read_count, c_waiting_read_count in *.
  unfold tr_read_reset_all, tr_read_clear_active. record_simpl. cbn [length]. lia.
Qed.

Lemma read_emit_active_frames c r : frames (c, r) (tr_read_emit_active c r).
Proof.
  split; [apply read_clear_active_quiet|]. unfold tr_read_emit_active.
  by destruct (_ <$> _).
Qed.

Lemma read_move_waiting_quiet c :
  c_pending_read_contexts c = [] -> quiet c (tr_read_move_waiting_to_active c).
Proof.
  intros Hp. split; [done|]. intros [? ? ? ? Hr ?]. constructor; try done.
  unfold tr_read_total_count, c_pending_read_count, c_waiting_read_count in *.
  unfold tr_read_move_waiting_to_active. record_simpl. rewrite Hp in Hr.
  cbn [length] in *. lia.
Qed.

(** A barrier broadcasts to the voters when it has no quorum yet. *)
Lemma read_start_barrier_spec c r :
  ids_wf (c_peers c) ->
  let '(c', r') := tr_read_start_active_barrier c r in
  quiet c c' /\ (r_message_capacity r' = r_message_capacity r /\
    r_has_buffer r' = r_has_buffer r /\
    r_message_count r' <= r_message_count r + tr_unpaused_remote_voter_count c).
Proof.
  intros Hwf. unfold tr_read_start_active_barrier.
  set (c1 := c <| c_pending_read_context_id := _ |> <| c_pending_read_index := _ |>
    <| c_pending_read_acks := _ |>).
  assert (quiet c c1) as Hq by (split; [done|]; by intros []).
  destruct (tr_core_has_quorum c1 _).
  - pose proof (read_emit_active_frames c1 r) as [Hq1 (Hc & Hb & _)].
    destruct (tr_read_emit_active c1 r) as [c2 r2] eqn:E. cbn [fst snd] in *.
    split; [by etrans|]. split; [done|]. split; [done|].
    assert (r_message_count r2 = r_message_count r) as ->.
    { unfold tr_read_emit_active in E. injection E as _ <-. by destruct (_ <$> _). }
    pose proof (unpaused_voters_nonneg c). lia.
  - split; [done|]. by apply (broadcast_read_index_adds c1 r (c_pending_read_context_id c1)).
Qed.

(** ** Changes of peers and of role *)

Lemma refresh_peer_quiet old_peers old_match ora opp last index c :
  quiet c (refresh_peer old_peers old_match ora opp last index c).
Proof.
  unfold refresh_peer. set (c1 := set_next c index _).
  set (c2 := set_window c1 index _).
  assert (quiet c c2) as Hq.
  { etrans; [apply quiet_set_next|]. apply quiet_set_window. intros Hw.
    apply window_wf_probe. by apply window_at_wf. }
  case_match; [done|].
  set (c3 := set_match c2 _ _). set (c4 := set_next c3 _ _).
  assert (quiet c c4) as Hq4.
  { etrans; [done|]. etrans; [apply quiet_set_match|apply quiet_set_next]. }
  destruct (has_bit ora _), (has_bit opp _); try done.
  - etrans; [done|]. etrans; [apply quiet_recent_active|apply quiet_paused_peers].
  - etrans; [done|apply quiet_recent_active].
  - etrans; [done|apply quiet_paused_peers].
Qed.

Lemma set_peers_id c : c <| c_peers := c_peers c |> = c.
Proof. by destruct c. Qed.

Lemma refresh_peers_quiet c np :
  quiet (c <| c_peers := np |>) (tr_core_refresh_peers c np).
Proof.
  unfold tr_core_refresh_peers. case_bool_decide as Heq.
  { subst np. by rewrite set_peers_id. }
  set (c1 := c <| c_next_index := _ |> <| c_match_index := _ |> <| c_append_windows := _ |>
    <| c_recent_active := _ |> <| c_paused_peers := _ |> <| c_peers := _ |>).
  assert (quiet (c <| c_peers := np |>) c1) as Hq1.
  { split; [done|]. intros []. constructor; try done. apply Forall_replicate.
    apply window_wf_reset. }
  set (c2 := fold_left _ _ c1).
  assert (quiet c1 c2) as Hq2.
  { apply quiet_fold. intros x i. apply refresh_peer_quiet. }
  assert (quiet (c <| c_peers := np |>) c2) as Hq by by etrans.
  case_match; [|done]. case_match; [|done].
  etrans; [done|]. etrans; [apply quiet_set_match|]. etrans; [apply quiet_set_next|].
  etrans; [apply quiet_set_window; intros _; apply window_wf_reset|].
  apply quiet_recent_active.
Qed.

(** What [tr_become_follower] does to the key. *)
Definition step_down c (term : Z) : tr_raft_core V :=
  (if c_term c <? term then c <| c_term := term |> <| c_voted_for := 0 |> else c)
  <| c_role := TR_RAFT_FOLLOWER |> <| c_campaign_term := 0 |>.

Lemma become_follower_quiet c term :
  quiet (step_down c term) (tr_become_follower c term).
Proof.
  unfold tr_become_follower, step_down. set (c0 := if _ <? _ then _ else _).
  set (c1 := c0 <| c_role := _ |> <| c_leader_id := _ |> <| c_campaign_term := _ |>
    <| c_pre_votes := _ |> <| c_votes := _ |> <| c_election_elapsed_ticks := _ |>
    <| c_heartbeat_elapsed_ticks := _ |> <| c_check_quorum_elapsed_ticks := _ |>
    <| c_recent_active := _ |> <| c_leadership_transfer_target := _ |>
    <| c_leadership_transfer_elapsed_ticks := _ |> <| c_leadership_transfer_sent := _ |>).
  etrans; [|etrans; [apply (read_reset_all_quiet c1)|]].
  - split; [done|]. by intros [].
  - apply quiet_append_windows; [done|]. apply Forall_replicate, window_wf_reset.
Qed.

Lemma adds_0_keeps_fit r r' : adds 0 r r' -> keeps_fit r r'.
Proof. intros Ha. eapply adds_keeps_fit; [done|]. unfold fits. lia. Qed.

(** ** Campaigns *)

Lemma become_leader_peer_quiet next i c : quiet c (become_leader_peer next i c).
Proof.
  unfold become_leader_peer. etrans; [|apply quiet_set_match].
  etrans; [|apply quiet_set_next]. apply quiet_set_window. intros _.
  apply window_wf_reset.
Qed.

Lemma become_leader_frames c r :
  frames (c <| c_role := TR_RAFT_LEADER |> <| c_campaign_term := 0 |>, r)
    (tr_become_leader c r).
Proof.
  unfold tr_become_leader.
  set (c1 := c <| c_role := _ |> <| c_leader_id := _ |> <| c_campaign_term := _ |>
    <| c_pre_votes := _ |> <| c_votes := _ |> <| c_election_elapsed_ticks := _ |>
    <| c_heartbeat_elapsed_ticks := _ |> <| c_check_quorum_elapsed_ticks := _ |>
    <| c_recent_active := _ |> <| c_leadership_transfer_target := _ |>
    <| c_leadership_transfer_elapsed_ticks := _ |> <| c_leadership_transfer_sent := _ |>).
  assert (quiet (c <| c_role := TR_RAFT_LEADER |> <| c_campaign_term := 0 |>) c1) as Hq1.
  { split; [done|]. by intros []. }
  set (c2 := tr_read_reset_all c1). set (c3 := fold_left _ _ c2).
  assert (quiet c1 c3) as Hq3.
  { etrans; [apply read_reset_all_quiet|]. apply quiet_fold. intros x i.
    apply become_leader_peer_quiet. }
  clearbody c3. clear c2. set (c4 := set_match c3 _ _).
  set (c5 := set_window c4 _ _).
  assert (quiet c3 c5) as Hq5.
  { etrans; [apply quiet_set_match|]. apply quiet_set_window. intros Hw.
    by apply window_wf_probe, window_at_wf. }
  etrans; [|apply broadcast_replication_frames]. split; [|done]. cbn [fst].
  etrans; [apply Hq1|]. etrans; [apply Hq3|apply Hq5].
Qed.

(** The key after an election was started: [role] is candidate or leader. *)
Definition elected c (role : tr_raft_role) : tr_raft_core V :=
  c <| c_term := c_campaign_term c |> <| c_voted_for := c_self_id c |>
    <| c_campaign_term := 0 |> <| c_role := role |>.

Definition campaign_role (role : tr_raft_role) : Prop :=
  role = TR_RAFT_CANDIDATE \/ role = TR_RAFT_LEADER.

(** [n] more messages fit. *)
Definition room (n : Z) r : Prop := r_message_count r + n <= r_message_capacity r.

Lemma adds_room n r r' : adds n r r' -> room n r -> keeps_fit r r'.
Proof. intros Ha Hr. eapply adds_keeps_fit; [done|]. done. Qed.

Lemma start_election_spec c r c' r' :
  ids_wf (c_peers c) -> tr_start_election c r = (c', r') ->
  (exists role, campaign_role role /\ quiet (elected c role) c') /\
  (room (tr_unpaused_remote_voter_count c) r -> keeps_fit r r').
Proof.
  intros Hwf. unfold tr_start_election.
  set (c1 := c <| c_term := _ |> <| c_campaign_term := _ |> <| c_role := _ |>
    <| c_leader_id := _ |> <| c_voted_for := _ |> <| c_pre_votes := _ |> <| c_votes := _ |>).
  destruct (tr_core_has_quorum c1 (c_votes c1)).
  - pose proof (become_leader_frames c1 r) as [Hq Hf]. intros E. rewrite E in Hq, Hf.
    split; [|done]. exists TR_RAFT_LEADER. split; [by right|]. cbn [fst] in Hq.
    etrans; [|apply Hq]. split; [done|]. by intros [].
  - intros [= <- <-]. split.
    + exists TR_RAFT_CANDIDATE. split; [by left|]. split; [done|]. by intros [].
    + apply adds_room. by apply (broadcast_adds c1).
Qed.

Lemma start_pre_vote_spec c r c' r' :
  ids_wf (c_peers c) -> tr_start_pre_vote c r = (c', r') ->
  (quiet (c <| c_role := TR_RAFT_PRE_CANDIDATE |>
            <| c_campaign_term := c_term c +64 1 |>) c' \/
   exists role, campaign_role role /\
     quiet (elected (c <| c_campaign_term := c_term c +64 1 |>) role) c') /\
  (room (tr_unpaused_remote_voter_count c) r -> keeps_fit r r').
Proof.
  intros Hwf. unfold tr_start_pre_vote.
  set (c1 := c <| c_role := _ |> <| c_leader_id := _ |> <| c_campaign_term := _ |>
    <| c_pre_votes := _ |> <| c_votes := _ |>).
  destruct (tr_core_has_quorum c1 (c_pre_votes c1)).
  - intros E. apply start_election_spec in E as [(role & Hr & Hq) Hf]; [|done].
    split; [|done]. right. exists role. split; [done|].
    etrans; [|apply Hq]. split; [done|]. by intros [].
  - intros [= <- <-]. split.
    + left. split; [done|]. by intros [].
    + apply adds_room. by apply (broadcast_adds c1).
Qed.

End Frame.
