(* ===== verification/CoreInvariant.v ===== *)
(** * The invariant of the core

    [core_inv] is what every call of the interface preserves, and [core_le]
    what a node never takes back: its term, its vote within a term, its commit
    index and the committed entries. Within a call the ready protocol is
    untouched until the effects are handed out. *)

From S2P Require Import Prelude Configuration Membership PeerSet Transition Window Vec.
From S2P Require Import Log CoreState CoreEmit CoreElection CoreSteps CoreApi CoreFrame.
From Stdlib Require Import ZArith Lia Sorting.Sorted.
From stdpp Require Import base numbers list tactics.
Open Scope Z_scope.
Open Scope raft_scope.

Section Invariant.
Context {V : Type} `{VecLaws V}.
Implicit Types (c : tr_raft_core V) (r : tr_raft_ready) (m : tr_raft_message).

(** ** Definitions *)

(** A configuration entry holds values of the widths of the code. *)
Definition entry_range (e : tr_raft_entry) : Prop :=
  entry_command_id e = 0 -> conf_in_range (snd (tr_raft_conf_entry_decode e)).

(** The log holds the pending configuration [p] at its index. *)
Definition logged (log : tr_raft_log V) (p : tr_raft_conf * Z) : Prop :=
  exists e, log_at log (snd p) = Some e /\
    tr_raft_conf_entry_decode e = (SALTS_OK, fst p).

Record key_inv c : Prop := {
  ki_self : c_self_id c <> 0;
  ki_log : log_wf (c_log c);
  ki_transition : transition_wf (c_membership_transition c);
  ki_range : conf_in_range (tr_core_membership c) /\
    Forall entry_range (elems (c_log c));
  ki_pending : Forall (fun p => c_commit_index c < snd p /\ logged (c_log c) p)
    (mt_pending (c_membership_transition c));
  ki_peers : tr_core_build_peer_set (c_membership_transition c) = (SALTS_OK, c_peers c);
  ki_voter : c_self_is_voter c =
    tr_raft_membership_is_voter (tr_core_membership c) (c_self_id c);
  ki_role : c_role c <> TR_RAFT_FOLLOWER -> c_self_is_voter c = true;
  ki_term : 0 <= c_term c <= UINT64_MAX;
  ki_vote : c_role c = TR_RAFT_CANDIDATE \/ c_role c = TR_RAFT_LEADER ->
    c_voted_for c = c_self_id c /\ 0 < c_term c;
  ki_campaign : c_role c = TR_RAFT_PRE_CANDIDATE ->
    c_campaign_term c = 0 \/
    (c_campaign_term c = c_term c + 1 /\ c_campaign_term c <= UINT64_MAX);
  ki_applied : log_base_index (c_log c) <= c_applied_index c /\
    c_applied_index c <= c_apply_admitted_index c;
  ki_admitted : c_apply_admitted_index c <= c_commit_index c;
  ki_commit : c_commit_index c <= log_last (c_log c);
  ki_pending_apply : c_pending_apply_index c = 0 \/
    (c_ready_outstanding c = true /\
     c_apply_admitted_index c <= c_pending_apply_index c <= c_commit_index c)
}.

Definition core_inv c : Prop := key_inv c /\ aux_wf c.

(** The committed entries of [c] that [c'] still holds are unchanged. *)
Definition committed_kept c c' : Prop :=
  forall i, i <= c_commit_index c -> log_base_index (c_log c') < i ->
    log_at (c_log c') i = log_at (c_log c) i.

Record core_le c c' : Prop := {
  cl_self : c_self_id c' = c_self_id c;
  cl_term : c_term c <= c_term c';
  cl_vote : c_term c' = c_term c -> c_voted_for c <> 0 ->
    c_voted_for c' = c_voted_for c;
  cl_commit : c_commit_index c <= c_commit_index c';
  cl_base : log_base_index (c_log c') = log_base_index (c_log c) /\
    log_base_term (c_log c') = log_base_term (c_log c);
  cl_committed : committed_kept c c';
  cl_outstanding : c_ready_outstanding c' = c_ready_outstanding c;
  cl_apply : c_applied_index c' = c_applied_index c /\
    c_apply_admitted_index c' = c_apply_admitted_index c /\
    c_pending_apply_index c' = c_pending_apply_index c
}.

#[export] Instance core_le_preorder : PreOrder core_le.
Proof.
  split.
  - intros c. by constructor.
  - intros c1 c2 c3 [Hs Ht Hv Hc Hb Hk Ho Ha] [Hs' Ht' Hv' Hc' Hb' Hk' Ho' Ha'].
    constructor; try lia; [|congruence].
    intros i Hi Hbi. rewrite Hk' by lia. apply Hk; lia.
Qed.

(** ** Quiet changes *)

Lemma key_inv_key c c' : key c' = key c -> key_inv c -> key_inv c'.
Proof.
  intros Hk []. injection Hk as E1 E2 E3 E4 E5 E6 E7 E8 E9 E10 E11 E12 E13 E14.
  constructor; unfold tr_core_membership in *;
    rewrite ?E1, ?E2, ?E3, ?E4, ?E5, ?E6, ?E7, ?E8, ?E9, ?E10, ?E11, ?E12, ?E13, ?E14;
    assumption.
Qed.

Lemma core_le_key c c' : key c' = key c -> core_le c c'.
Proof.
  intros Hk. injection Hk as E1 E2 E3 E4 E5 E6 E7 E8 E9 E10 E11 E12 E13 E14.
  constructor; rewrite ?E1, ?E6, ?E7, ?E8, ?E9, ?E10, ?E11, ?E12, ?E14; try done.
  intros i _ _. by rewrite E8.
Qed.

Lemma core_inv_quiet c c' : quiet c c' -> core_inv c -> core_inv c'.
Proof. intros [Hk Ha] [Hi Hw]. split; [by eapply key_inv_key|auto]. Qed.

(** A change that keeps the invariant and takes nothing back. *)
Definition safe c c' : Prop := core_inv c -> core_inv c' /\ core_le c c'.

#[export] Instance safe_preorder : PreOrder safe.
Proof.
  split; [done|]. intros c1 c2 c3 H12 H23 H1.
  destruct (H12 H1) as [H2 L12]. destruct (H23 H2) as [H3 L23]. split; [done|by etrans].
Qed.

Lemma safe_quiet c c' : quiet c c' -> safe c c'.
Proof. intros Hq Hi. split; [by eapply core_inv_quiet|apply core_le_key, Hq]. Qed.

(** ** Changes of term and role *)

Lemma peers_wf c : key_inv c -> ids_wf (c_peers c).
Proof.
  intros Hi. pose proof (ki_peers c Hi) as Hp. apply peer_set_build_ok in Hp
    as ([Hs Hu] & _ & Hv). split; [|done].
  apply list.Forall_forall. intros id Hid. apply Hu in Hid as [(s & Hs' & Hid) _].
  apply list_elem_of_fmap in Hs' as (x & -> & Hx). rewrite list.Forall_forall in Hv.
  apply Hv, peer_set_membership_valid_spec in Hx as [[Hz _] _].
  rewrite list.Forall_forall in Hz. by apply Hz.
Qed.

Lemma step_down_safe c term :
  0 <= term <= UINT64_MAX -> safe c (step_down c term).
Proof.
  intros Ht [[] Ha]. unfold step_down. destruct (Z.ltb_spec (c_term c) term); split.
  - split; [|by destruct Ha]. constructor; record_simpl; try done. all: by intros [].
  - constructor; record_simpl; try done; lia.
  - split; [|by destruct Ha]. constructor; record_simpl; try done. all: by intros [].
  - by constructor; record_simpl.
Qed.

Lemma become_follower_safe c term :
  0 <= term <= UINT64_MAX -> safe c (tr_become_follower c term).
Proof.
  intros Ht. etrans; [by apply step_down_safe|]. apply safe_quiet, become_follower_quiet.
Qed.

Lemma elected_safe c role :
  campaign_role role -> c_self_is_voter c = true ->
  c_term c < c_campaign_term c <= UINT64_MAX -> safe c (elected c role).
Proof.
  intros Hr Hv Ht [[] Ha]. unfold elected. split; [split; [|by destruct Ha]|].
  - constructor; record_simpl; try done; try lia.
  - constructor; record_simpl; try done; lia.
Qed.

Lemma start_election_safe c r c' r' :
  c_self_is_voter c = true -> c_term c < c_campaign_term c <= UINT64_MAX ->
  tr_start_election c r = (c', r') -> safe c c'.
Proof.
  intros Hv Ht Heq Hi. pose proof (peers_wf c (proj1 Hi)) as Hp.
  apply start_election_spec in Heq as [(role & Hr & Hq) _]; [|done].
  revert Hi. change (safe c c'). etrans; [by apply elected_safe|by apply safe_quiet].
Qed.

Lemma pre_candidate_safe c :
  c_self_is_voter c = true -> c_term c < UINT64_MAX ->
  safe c (c <| c_role := TR_RAFT_PRE_CANDIDATE |> <| c_campaign_term := c_term c +64 1 |>).
Proof.
  intros Hv Ht [[] Ha]. split; [split; [|by destruct Ha]|].
  - constructor; record_simpl; try done; [by intros []|]. intros _. right.
    word_simpl. lia.
  - by constructor.
Qed.

(** A campaign term outside a pre-vote is of no consequence. *)
Lemma campaign_term_safe c t :
  c_role c <> TR_RAFT_PRE_CANDIDATE -> safe c (c <| c_campaign_term := t |>).
Proof.
  intros Hr [[] Ha]. split; [split; [|by destruct Ha]|].
  - by constructor.
  - by constructor.
Qed.

Lemma start_pre_vote_safe c r c' r' :
  c_self_is_voter c = true -> c_term c < UINT64_MAX ->
  tr_start_pre_vote c r = (c', r') -> safe c c'.
Proof.
  intros Hv Ht Heq Hi. pose proof (peers_wf c (proj1 Hi)) as Hp.
  pose proof (ki_term c (proj1 Hi)) as Hterm.
  apply start_pre_vote_spec in Heq as [[Hq|(role & Hr & Hq)] _]; [| |done]; revert Hi.
  - change (safe c c'). etrans; [by apply pre_candidate_safe|by apply safe_quiet].
  - change (safe c c').
    etrans; [by apply pre_candidate_safe|]. etrans; [|apply safe_quiet, Hq].
    change (elected (c <| c_campaign_term := c_term c +64 1 |>) role) with
      (elected (c <| c_role := TR_RAFT_PRE_CANDIDATE |>
                  <| c_campaign_term := c_term c +64 1 |>) role).
    apply elected_safe; try done. record_simpl. word_simpl. lia.
Qed.

Lemma become_leader_safe c r c' r' :
  c_role c = TR_RAFT_CANDIDATE -> tr_become_leader c r = (c', r') -> safe c c'.
Proof.
  intros Hr Heq. pose proof (become_leader_frames c r) as [Hq _]. rewrite Heq in Hq.
  etrans; [|apply safe_quiet, Hq]. cbn [fst]. intros [[] Ha].
  assert (c_self_is_voter c = true) as Hv by (apply ki_role0; by rewrite Hr).
  split; [split; [|by destruct Ha]|].
  - constructor; record_simpl; try done. intros _. apply ki_vote0. by left.
  - by constructor.
Qed.

(** ** Vote messages *)

(** What the wire and the sending code guarantee of a message: the widths of
    its fields, entries that continue its previous index, and a campaign term in
    a granted pre-vote response, which echoes the one of the request. *)
Record message_ok m : Prop := {
  mo_term : 0 <= m_term m <= UINT64_MAX;
  mo_previous : 0 <= m_previous_log_index m;
  mo_entries : entries_follow (m_previous_log_index m) (m_entries m);
  mo_bytes : Forall (fun e => Forall is_byte (entry_data e)) (m_entries m);
  mo_campaign : m_type m = TR_RAFT_MSG_PRE_VOTE_RESPONSE -> m_granted m = true ->
    m_campaign_term m <> 0
}.

Lemma role_eqb_eq (x y : tr_raft_role) : role_eqb x y = true <-> x = y.
Proof. apply bool_decide_eq_true. Qed.

Lemma campaign_zero_safe c : safe c (c <| c_campaign_term := 0 |>).
Proof.
  intros [[] Ha]. split; [split; [|by destruct Ha]|].
  - constructor; try done. intros _. by left.
  - by constructor.
Qed.

Lemma step_pre_vote_request_safe c m r c' r' :
  tr_step_pre_vote_request c m r = (c', r') -> safe c c'.
Proof. unfold tr_step_pre_vote_request. intros [= <- _]. apply (campaign_zero_safe c). Qed.

Lemma step_pre_vote_response_safe c m r i c' r' :
  message_ok m -> m_type m = TR_RAFT_MSG_PRE_VOTE_RESPONSE ->
  tr_step_pre_vote_response c m r i = (c', r') -> safe c c'.
Proof.
  intros Hm Hty. unfold tr_step_pre_vote_response.
  destruct (c_term c <? m_term m).
  { intros [= <- _]. apply become_follower_safe, Hm. }
  destruct (_ || _) eqn:Hg; [by intros [= <- _]|].
  rewrite !orb_false_iff, !negb_false_iff, role_eqb_eq in Hg.
  destruct Hg as [[[Hr Hc] Hgr] _]. apply Z.eqb_eq in Hc.
  destruct (tr_core_has_quorum _ _).
  2: { intros [= <- _]. apply safe_quiet, quiet_pre_votes. }
  intros Heq Hi. pose proof Hi as [[] _]. revert Hi. change (safe c c').
  etrans; [apply safe_quiet, quiet_pre_votes|].
  pose proof (mo_campaign m Hm Hty Hgr). apply start_election_safe in Heq; [done| |].
  - apply ki_role0. by rewrite Hr.
  - record_simpl. destruct (ki_campaign0 Hr) as [|[]]; lia.
Qed.

Lemma vote_safe c id :
  c_voted_for c = 0 \/ c_voted_for c = id -> safe c (c <| c_voted_for := id |>).
Proof.
  intros Hv [[] Ha]. split; [split; [|by destruct Ha]|].
  - constructor; try done. record_simpl. intros Hr.
    destruct (ki_vote0 Hr) as [? ?]. split; [|done]. destruct Hv; congruence.
  - constructor; try done. record_simpl. intros _ ?. by destruct Hv.
Qed.

Lemma step_vote_request_safe c m r c' r' :
  message_ok m -> tr_step_vote_request c m r = (c', r') -> safe c c'.
Proof.
  intros Hm. unfold tr_step_vote_request. set (c0 := if _ <? _ then _ else _).
  assert (safe c c0) as Hs.
  { subst c0. case_match; [|done]. apply become_follower_safe, Hm. }
  clearbody c0. destruct (_ && _) eqn:Hg; intros [= <- _]; [|done].
  rewrite !andb_true_iff, orb_true_iff, !Z.eqb_eq in Hg.
  etrans; [done|]. etrans; [apply (vote_safe _ (m_from m)); tauto|].
  apply safe_quiet, quiet_election_elapsed_ticks.
Qed.

Lemma step_vote_response_safe c m r i c' r' :
  message_ok m -> tr_step_vote_response c m r i = (c', r') -> safe c c'.
Proof.
  intros Hm. unfold tr_step_vote_response.
  destruct (c_term c <? m_term m).
  { intros [= <- _]. apply become_follower_safe, Hm. }
  destruct (_ || _) eqn:Hg; [by intros [= <- _]|].
  rewrite !orb_false_iff, !negb_false_iff, role_eqb_eq in Hg.
  destruct Hg as [[[Hr _] _] _]. intros Heq.
  etrans; [apply safe_quiet, (quiet_votes c (Z.lor (c_votes c) (bit32 i)))|].
  destruct (tr_core_has_quorum _ _); [by apply become_leader_safe in Heq|].
  by injection Heq as <- _.
Qed.

Lemma step_timeout_now_safe c m r c' r' :
  tr_step_timeout_now c m r = (c', r') -> safe c c'.
Proof.
  unfold tr_step_timeout_now. destruct (_ || _) eqn:Hg; [by intros [= <- _]|].
  rewrite !orb_false_iff, !negb_false_iff, role_eqb_eq in Hg.
  destruct Hg as [[[[Hv Hr] _] _] Ht]. intros Heq Hi.
  pose proof (ki_term c (proj1 Hi)) as Hterm. revert Hi. change (safe c c').
  etrans; [apply (campaign_term_safe c (c_term c +64 1)); by rewrite Hr|].
  etrans; [apply safe_quiet, quiet_election_elapsed_ticks|].
  apply start_election_safe in Heq; [done|done|]. record_simpl. word_simpl. lia.
Qed.

End Invariant.
