(* ===== verification/CoreSafety.v ===== *)
(** * Safety of the handlers

    Commitment, membership and the handlers of replication messages keep the
    invariant and never take back a term, a vote or a committed entry. *)

From S2P Require Import Prelude Configuration Membership PeerSet Transition Window Vec.
From S2P Require Import Log CoreState CoreEmit CoreElection CoreSteps CoreApi CoreFrame.
From S2P Require Import CoreInvariant.
From Stdlib Require Import ZArith Lia Sorting.Sorted.
From stdpp Require Import base numbers list tactics sets sorting.
Open Scope Z_scope.
Open Scope raft_scope.

Section Safety.
Context {V : Type} `{VecLaws V}.
Implicit Types (c : tr_raft_core V) (r : tr_raft_ready) (m : tr_raft_message).

(** ** Reads *)

Lemma step_read_index_request_safe c m r c' r' :
  tr_step_read_index_request c m r = (c', r') -> c' = c.
Proof.
  unfold tr_step_read_index_request. destruct (_ || _); [by intros [= <- _]|].
  destruct (tr_emit _ _ _ _ _) as [[] r1]; by intros [= <- _].
Qed.

Lemma step_read_index_response_safe c m r i c' r' :
  message_ok m -> tr_step_read_index_response c m r i = (c', r') -> safe c c'.
Proof.
  intros Hm. unfold tr_step_read_index_response.
  destruct (c_term c <? m_term m).
  { intros [= <- _]. apply become_follower_safe, Hm. }
  destruct (_ || _); [by intros [= <- _]|].
  set (c1 := c <| c_pending_read_acks := _ |>).
  assert (quiet c c1) as Hq1 by apply quiet_pending_read_acks. clearbody c1.
  destruct (tr_core_has_quorum _ _); [|intros [= <- _]; by apply safe_quiet].
  pose proof (read_emit_active_frames c1 r) as [Hq2 _].
  assert (c_pending_read_contexts (fst (tr_read_emit_active c1 r)) = []) as Hnil by done.
  destruct (tr_read_emit_active c1 r) as [c2 r2]. cbn [fst] in Hq2, Hnil.
  destruct (_ && _); [|intros [= <- _]; apply safe_quiet; by etrans].
  intros Heq Hi. assert (core_inv c2) as Hi2.
  { eapply core_inv_quiet; [|apply Hi]. by etrans. }
  pose proof (read_start_barrier_spec (tr_read_move_waiting_to_active c2) r2
    (peers_wf c2 (proj1 Hi2))) as Hb. rewrite Heq in Hb. destruct Hb as [Hq3 _].
  revert Hi. apply safe_quiet. etrans; [done|]. etrans; [done|].
  etrans; [by apply read_move_waiting_quiet|done].
Qed.

(** ** Membership *)

Lemma apply_pending t commit t' :
  transition_wf t -> tr_raft_membership_transition_apply t commit = (SALTS_OK, t') ->
  Forall (fun p => commit < snd p) (mt_pending t') /\
  mt_pending t' ⊆ mt_pending t /\
  (mt_committed t' = mt_committed t \/ mt_committed t' ∈ (fst <$> mt_pending t)).
Proof.
  intros Hwf [= <-].
  destruct (apply_loop_split (mt_committed t) (mt_pending t) commit)
    as (d & rest & Hp & _ & Hhead & ->). cbn [mt_pending mt_committed].
  pose proof (tw_indices t Hwf) as [_ Hs]. rewrite Hp in Hs |- *. split; [|split].
  - rewrite fmap_app in Hs. apply StronglySorted_app in Hs as (_ & _ & Hs).
    destruct rest as [|p rest]; [constructor|]. specialize (Hhead p eq_refl).
    constructor; [done|]. cbn in Hs. apply StronglySorted_inv in Hs as [_ Hs].
    rewrite Forall_fmap in Hs. apply (list.Forall_impl _ _ _ Hs). cbn. lia.
  - set_solver.
  - destruct d as [|p d _] using rev_ind; [by left|]. right.
    rewrite !fmap_app. change (fst <$> [p]) with [fst p]. rewrite last_snoc. cbn [default].
    set_solver.
Qed.

(** The transition [t] suits the log of [c] and commit index [commit]. *)
Definition transition_fits c (commit : Z) (t : tr_raft_membership_transition) : Prop :=
  transition_wf t /\ conf_in_range (mt_committed t) /\
  Forall (fun p => commit < snd p /\ logged (c_log c) p) (mt_pending t).

Lemma logged_range (log : tr_raft_log V) p :
  Forall entry_range (elems log) -> logged log p -> conf_in_range (fst p).
Proof.
  intros Hr (e & Hat & Hd). unfold log_at in Hat.
  destruct (_ <? _); [|done]. rewrite Forall_lookup in Hr. apply Hr in Hat.
  unfold entry_range in Hat. rewrite Hd in Hat. apply Hat.
  unfold tr_raft_conf_entry_decode, tr_raft_conf_entry_is_configuration in Hd.
  destruct (Z.eqb_spec (entry_command_id e) 0); done.
Qed.

Lemma apply_fits c commit t' :
  key_inv c ->
  tr_raft_membership_transition_apply (c_membership_transition c) commit = (SALTS_OK, t') ->
  transition_fits c commit t'.
Proof.
  intros [] Heq. apply apply_pending in Heq as Hp; [|done]. destruct Hp as (Hc & Hsub & Hin).
  destruct ki_range as [Hr1 Hr2]. rewrite list.Forall_forall in ki_pending.
  split; [by eapply transition_wf_apply|]. split.
  - destruct Hin as [->|Hin]; [done|]. apply list_elem_of_fmap in Hin as (p & -> & Hp).
    eapply logged_range; [done|]. by apply ki_pending.
  - rewrite list.Forall_forall in Hc |- *. intros p Hp. split; [by apply Hc|].
    apply ki_pending. by apply Hsub.
Qed.

(** The core with another transition and the peers and voter status of it. *)
Definition with_members c (commit : Z) (t : tr_raft_membership_transition)
    (peers : tr_raft_peer_set) : tr_raft_core V :=
  c <| c_commit_index := commit |> <| c_membership_transition := t |>
    <| c_peers := peers |>
    <| c_self_is_voter := tr_raft_membership_is_voter (mt_committed t) (c_self_id c) |>.

Lemma fits_build c commit t :
  transition_fits c commit t -> exists peers, tr_core_build_peer_set t = (SALTS_OK, peers).
Proof.
  intros [Hwf _]. pose proof (tw_peers t Hwf) as Hp.
  change (fst (tr_core_build_peer_set t) = SALTS_OK) in Hp.
  destruct (tr_core_build_peer_set t) as [s peers]. cbn in Hp. subst s. by exists peers.
Qed.

Lemma with_members_inv c commit t peers :
  core_inv c -> transition_fits c commit t ->
  c_commit_index c <= commit <= log_last (c_log c) ->
  tr_core_build_peer_set t = (SALTS_OK, peers) ->
  (c_role c <> TR_RAFT_FOLLOWER ->
   tr_raft_membership_is_voter (mt_committed t) (c_self_id c) = true) ->
  core_inv (with_members c commit t peers) /\ core_le c (with_members c commit t peers).
Proof.
  intros [[] Ha] (Hwf & Hr & Hp) Hc Hb Hv. split.
  - split; [|by destruct Ha]. constructor; unfold with_members; record_simpl; try done.
    + split; [done|apply ki_range].
    + lia.
    + lia.
    + destruct ki_pending_apply; [by left|]. right. intuition lia.
  - constructor; unfold with_members; record_simpl; try done. lia.
Qed.

Lemma quiet_self_is_voter c c' v :
  quiet c c' -> quiet (c <| c_self_is_voter := v |>) (c' <| c_self_is_voter := v |>).
Proof.
  intros [Hk Ha]. split.
  - injection Hk as E1 E2 E3 E4 E5 E6 E7 E8 E9 E10 E11 E12 E13 E14.
    unfold key. record_simpl. congruence.
  - intros [? ? ? ? ? ?]. destruct Ha; by constructor.
Qed.

Lemma quiet_step_down c c' :
  quiet c c' -> quiet (step_down c (c_term c)) (step_down c' (c_term c')).
Proof.
  intros [Hk Ha]. unfold step_down. rewrite !Z.ltb_irrefl. split.
  - injection Hk as E1 E2 E3 E4 E5 E6 E7 E8 E9 E10 E11 E12 E13 E14.
    unfold key. record_simpl. congruence.
  - intros [? ? ? ? ? ?]. destruct Ha; by constructor.
Qed.

Lemma refresh_peers_members c commit t peers :
  let c1 := tr_core_refresh_peers
    (c <| c_commit_index := commit |> <| c_membership_transition := t |>) peers in
  quiet (with_members c commit t peers)
    (c1 <| c_self_is_voter :=
             tr_raft_membership_is_voter (tr_core_membership c1) (c_self_id c1) |>) /\
  c_role c1 = c_role c.
Proof.
  intros c1.
  pose proof (refresh_peers_quiet
    (c <| c_commit_index := commit |> <| c_membership_transition := t |>) peers) as Hq.
  fold c1 in Hq. split; [|apply (same_role Hq)]. unfold tr_core_membership.
  rewrite (same_self_id Hq), (same_transition Hq). apply (quiet_self_is_voter _ _ _ Hq).
Qed.

Lemma sync_membership_spec c commit t :
  core_inv c -> transition_fits c commit t ->
  c_commit_index c <= commit <= log_last (c_log c) ->
  c_role c = TR_RAFT_LEADER \/ c_role c = TR_RAFT_FOLLOWER ->
  exists c', tr_core_sync_membership
      (c <| c_commit_index := commit |> <| c_membership_transition := t |>) =
      (SALTS_OK, c') /\ core_inv c' /\ core_le c c' /\
    c_commit_index c' = commit /\ c_log c' = c_log c /\ c_term c' = c_term c.
Proof.
  intros Hi Hf Hc Hrole. destruct (fits_build c commit t Hf) as [peers Hb].
  unfold tr_core_sync_membership.
  set (c0 := c <| c_commit_index := commit |> <| c_membership_transition := t |>).
  change (c_membership_transition c0) with t. rewrite Hb.
  pose proof (refresh_peers_members c commit t peers) as [Hq Hr]. cbv zeta in Hq, Hr.
  fold c0 in Hq, Hr. clearbody c0. set (c1 := tr_core_refresh_peers c0 peers) in *.
  clearbody c1.
  set (c2 := c1 <| c_self_is_voter := _ |>) in *.
  change (c_role c1) with (c_role c2) in Hr. clearbody c2. clear c1.
  assert (c_self_is_voter c2 =
    tr_raft_membership_is_voter (mt_committed t) (c_self_id c)) as Hv.
  { apply (same_self_is_voter Hq). }
  eexists. split; [done|].
  destruct (negb (c_self_is_voter c2) && role_eqb (c_role c2) TR_RAFT_LEADER) eqn:Hg.
  - destruct (step_down_safe c (c_term c) (ki_term c (proj1 Hi)) Hi) as [Hi1 Hl1].
    destruct (with_members_inv (step_down c (c_term c)) commit t peers) as [Hi2 Hl2];
      try done; [unfold step_down; rewrite Z.ltb_irrefl; done..|].
    assert (quiet (with_members (step_down c (c_term c)) commit t peers)
      (tr_become_follower c2 (c_term c2))) as Hq2.
    { etrans; [|apply become_follower_quiet]. apply quiet_step_down in Hq.
      unfold step_down, with_members in *. rewrite Z.ltb_irrefl in *. apply Hq. }
    destruct (safe_quiet _ _ Hq2 Hi2). split; [done|]. split; [etrans; [apply Hl1|by etrans]|].
    rewrite (same_commit Hq2), (same_log Hq2), (same_term Hq2).
    unfold step_down. by rewrite Z.ltb_irrefl.
  - destruct (with_members_inv c commit t peers) as [Hi2 Hl2]; try done.
    { intros Hne. rewrite <- Hv. apply andb_false_iff in Hg as [Hg|Hg].
      - by apply negb_false_iff in Hg.
      - rewrite Hr in Hg. destruct Hrole as [E|E]; [by rewrite E in Hg|done]. }
    destruct (safe_quiet _ _ Hq Hi2). split; [done|]. split; [by etrans|].
    by rewrite (same_commit Hq), (same_log Hq), (same_term Hq).
Qed.

(** ** Commitment on the leader *)

(** The largest index the loop may accept: above the commit index, of the
    current term and on a quorum. *)
Definition committable c (i : Z) : bool :=
  (c_commit_index c <? i) &&
  (term_at (tr_raft_log_get (c_log c) i) =? c_term c) && tr_core_match_quorum c i.

Lemma update_commit_loop_spec fuel c candidate :
  0 <= c_commit_index c -> candidate <= UINT64_MAX ->
  (Z.to_nat (candidate - c_commit_index c) < fuel)%nat ->
  match update_commit_loop fuel c candidate with
  | Some i => committable c i = true /\ i <= candidate /\
      (forall j, i < j <= candidate -> committable c j = false)
  | None => forall j, j <= candidate -> committable c j = false
  end.
Proof.
  intros Hc. revert candidate. induction fuel as [|fuel IH]; intros candidate Hmax Hf; [lia|].
  cbn [update_commit_loop]. destruct (Z.ltb_spec (c_commit_index c) candidate) as [Hlt|Hge].
  2: { intros j Hj. unfold committable. by replace (_ <? j) with false by blia. }
  assert (candidate -64 1 = candidate - 1) as Hsub by (word_simpl; lia).
  rewrite Hsub. specialize (IH (candidate - 1) ltac:(lia) ltac:(lia)).
  assert (committable c candidate = false ->
    match update_commit_loop fuel c (candidate - 1) with
    | Some i => committable c i = true /\ i <= candidate /\
        (forall j, i < j <= candidate -> committable c j = false)
    | None => forall j, j <= candidate -> committable c j = false
    end) as Hstep.
  { intros Hno. destruct (update_commit_loop fuel c (candidate - 1)) as [i|].
    - destruct IH as (Hi & Hle & Hj). split; [done|]. split; [lia|]. intros j Hj'.
      destruct (decide (j = candidate)) as [->|]; [done|]. apply Hj. lia.
    - intros j Hj. destruct (decide (j = candidate)) as [->|]; [done|]. apply IH. lia. }
  destruct (term_at _ =? c_term c) eqn:Ht; cbn [negb].
  - destruct (tr_core_match_quorum c candidate) eqn:Hq.
    + unfold committable at 1. rewrite Ht, Hq. split; [blia|]. split; [lia|]. lia.
    + apply Hstep. unfold committable. rewrite Hq. by rewrite andb_false_r.
  - apply Hstep. unfold committable. rewrite Ht. by rewrite andb_false_r.
Qed.

Lemma commit_limit_le t i : tr_raft_membership_transition_commit_limit t i <= i.
Proof.
  unfold tr_raft_membership_transition_commit_limit.
  destruct (mt_pending t) as [|[d j] ?]; [lia|]. case_match; lia.
Qed.

Lemma key_inv_bounds c :
  key_inv c ->
  0 <= log_base_index (c_log c) <= c_commit_index c /\
  c_commit_index c <= log_last (c_log c) <= UINT64_MAX.
Proof. intros []. pose proof (log_last_bounds _ ki_log). lia. Qed.

(** The commit limit of [tr_update_commit]. *)
Definition commit_limit c : Z :=
  tr_raft_membership_transition_commit_limit (c_membership_transition c)
    (log_last (c_log c)).

Lemma update_commit_spec c r :
  core_inv c -> c_role c = TR_RAFT_LEADER \/ c_role c = TR_RAFT_FOLLOWER ->
  exists c' r', tr_update_commit c r = (SALTS_OK, c', r') /\
    core_inv c' /\ core_le c c' /\ adds 0 r r' /\
    c_log c' = c_log c /\ c_term c' = c_term c /\
    ((forall j, j <= commit_limit c -> committable c j = false) /\ c' = c /\ r' = r \/
     committable c (c_commit_index c') = true /\ c_commit_index c' <= commit_limit c /\
     (forall j, c_commit_index c' < j <= commit_limit c -> committable c j = false) /\
     r' = r <| r_commit_changed := true |> <| r_commit_index := c_commit_index c' |>).
Proof.
  intros Hi Hrole. pose proof (key_inv_bounds c (proj1 Hi)) as Hb.
  unfold tr_update_commit. rewrite log_last_index_spec by apply Hi.
  fold (commit_limit c). pose proof (commit_limit_le (c_membership_transition c)
    (log_last (c_log c))) as Hlim. fold (commit_limit c) in Hlim.
  pose proof (update_commit_loop_spec (S (Z.to_nat (commit_limit c - c_commit_index c)))
    c (commit_limit c) ltac:(lia) ltac:(lia) ltac:(lia)) as Hl.
  destruct (update_commit_loop _ c (commit_limit c)) as [i|].
  2: { exists c, r. do 3 (split; [done|]). split; [apply adds_refl|].
       do 2 (split; [done|]). by left. }
  destruct Hl as (Hi' & Hle & Hmax).
  assert (c_commit_index c < i) by (unfold committable in Hi'; lia).
  set (t := transition_apply_loop (mt_committed (c_membership_transition c))
    (mt_pending (c_membership_transition c)) i).
  destruct (sync_membership_spec c i t) as (c' & Hsync & Hci & Hcl & Hcc & Hlog & Hterm);
    try done; [apply apply_fits; [apply Hi|done]|lia|].
  cbv zeta. change (tr_raft_membership_transition_apply _ i) with (SALTS_OK, t).
  cbv beta iota. rewrite Hsync.
  eexists c', _. do 3 (split; [done|]). split; [exact (adds_refl r)|].
  do 2 (split; [done|]). right. by rewrite Hcc.
Qed.

(** ** Appending on the leader *)

Lemma extend_log_inv c v es :
  core_inv c -> log_wf (log_with_entries (c_log c) v) ->
  elems (log_with_entries (c_log c) v) = elems (c_log c) ++ es ->
  Forall entry_range es ->
  core_inv (c <| c_log := log_with_entries (c_log c) v |>) /\
  core_le c (c <| c_log := log_with_entries (c_log c) v |>).
Proof.
  intros [[] Ha] Hwf Hel Hr. pose proof (log_last_with_entries _ _ _ Hel) as Hlast.
  set (log := log_with_entries (c_log c) v) in *.
  assert (forall i, i <= log_last (c_log c) -> log_at log i = log_at (c_log c) i) as Hat.
  { intros i Hi. by apply (log_at_app _ _ es). }
  split; [split; [|by destruct Ha]|].
  - constructor; record_simpl; try done; [| |lia].
    + rewrite Hel. split; [apply ki_range|]. apply Forall_app. split; [apply ki_range|done].
    + apply (list.Forall_impl _ _ _ ki_pending). intros p [Hp (e & He & Hd)].
      split; [done|]. exists e. split; [|done]. rewrite Hat; [done|].
      assert (is_Some (log_at (c_log c) (snd p))) as Hs by eauto.
      apply log_at_is_Some in Hs. lia.
  - constructor; record_simpl; try done. intros i Hi _. record_simpl. apply Hat. lia.
Qed.

(** Staged configurations become pending without a change of the voters. *)
Lemma adopt_transition_inv c t peers :
  core_inv c -> transition_fits c (c_commit_index c) t ->
  mt_committed t = mt_committed (c_membership_transition c) ->
  tr_core_build_peer_set t = (SALTS_OK, peers) ->
  let c' := tr_core_refresh_peers (c <| c_membership_transition := t |>) peers in
  core_inv c' /\ core_le c c' /\ c_role c' = c_role c /\ c_log c' = c_log c /\
  c_commit_index c' = c_commit_index c /\ c_term c' = c_term c /\
  c_membership_transition c' = t /\ c_self_id c' = c_self_id c.
Proof.
  intros Hi Hf Hc Hb c'. pose proof (key_inv_bounds c (proj1 Hi)) as Hbounds.
  assert (quiet (c <| c_membership_transition := t |> <| c_peers := peers |>) c') as Hq
    by apply refresh_peers_quiet.
  assert (tr_raft_membership_is_voter (mt_committed t) (c_self_id c) = c_self_is_voter c)
    as Hv.
  { rewrite Hc. symmetry. apply Hi. }
  destruct (with_members_inv c (c_commit_index c) t peers) as [Hi' Hl']; try done; [lia| |].
  { rewrite Hv. apply Hi. }
  assert (quiet (with_members c (c_commit_index c) t peers)
    (c <| c_membership_transition := t |> <| c_peers := peers |>)) as Hq'.
  { split; [|by intros []]. unfold key, with_members. record_simpl. by rewrite Hv. }
  assert (quiet (with_members c (c_commit_index c) t peers) c') as Hq2 by by etrans.
  destruct (safe_quiet _ _ Hq2 Hi') as [Hi2 Hl2]. split; [done|].
  split; [by etrans|].
  by rewrite (same_role Hq), (same_log Hq), (same_commit Hq), (same_term Hq),
    (same_transition Hq), (same_self_id Hq).
Qed.

Lemma append_configuration_full (log : tr_raft_log V) t conf :
  log_max_entries log <= Z.of_nat (length (elems log)) -> t <> 0 ->
  tr_raft_log_append_configuration log t conf = (SALTS_ENOSPC, log, None).
Proof.
  intros Hm Ht. unfold tr_raft_log_append_configuration. rewrite log_count_spec.
  replace (t =? 0) with false by blia. by replace (_ <=? _) with true by blia.
Qed.

Lemma staged_fits c v conf e t :
  core_inv c -> conf_in_range conf ->
  tr_raft_membership_transition_stage (c_membership_transition c) conf
    (log_last (c_log c) + 1) = (SALTS_OK, t) ->
  elems (log_with_entries (c_log c) v) = elems (c_log c) ++ [e] ->
  tr_raft_conf_entry_decode e = (SALTS_OK, conf) ->
  mt_committed t = mt_committed (c_membership_transition c) /\
  forall c', core_inv c' -> c_log c' = log_with_entries (c_log c) v ->
    c_commit_index c' = c_commit_index c ->
    c_membership_transition c' = c_membership_transition c ->
    transition_fits c' (c_commit_index c') t.
Proof.
  intros Hi Hr Hst Hel Hd. pose proof (ki_transition c (proj1 Hi)) as Hwf.
  pose proof (key_inv_bounds c (proj1 Hi)) as Hb.
  pose proof (transition_wf_stage _ _ _ _ _ Hwf Hst) as Hwf'.
  assert (forall c', core_inv c' -> c_log c' = log_with_entries (c_log c) v ->
    c_commit_index c' = c_commit_index c ->
    c_commit_index c' < log_last (c_log c) + 1 /\
    logged (c_log c') (conf, log_last (c_log c) + 1)) as Hnew.
  { intros c' _ El Ec. split; [lia|]. exists e. split; [|done]. rewrite El.
    by apply log_at_snoc. }
  apply stage_inv in Hst as [[? _]|[(_ & Hin & ->)|(_ & _ & _ & _ & _ & _ & ->)]];
    [done| | |done].
  - split; [done|]. intros c' Hi' El Ec Et. split; [done|]. rewrite <- Et.
    split; [apply Hi'|apply Hi'].
  - split; [done|]. intros c' Hi' El Ec Et. split; [done|]. cbn [mt_committed mt_pending].
    rewrite <- Et. split; [apply Hi'|]. apply Forall_app. split; [apply Hi'|].
    constructor; [|constructor]. by apply Hnew.
Qed.

Lemma stage_ok_wf t conf i t' :
  transition_wf t -> tr_raft_membership_transition_stage t conf i = (SALTS_OK, t') ->
  conf_wf conf.
Proof.
  intros Hwf Hst.
  apply stage_inv in Hst as [[? _]|[(_ & Hin & _)|(_ & _ & _ & _ & [Hc _] & _)]]; try done.
  pose proof (chain_wf _ _ (tw_chain t Hwf)) as Hc. rewrite list.Forall_forall in Hc.
  apply Hc. by apply (list_elem_of_fmap_2 fst _ (conf, i)).
Qed.

(** The leader writes the entry, adopts the peers and commits what it can. *)
Lemma configuration_appended c conf t peers :
  core_inv c -> c_role c = TR_RAFT_LEADER -> conf_in_range conf ->
  log_last (c_log c) < UINT64_MAX ->
  Z.of_nat (length (elems (c_log c))) < log_max_entries (c_log c) ->
  tr_raft_membership_transition_stage (c_membership_transition c) conf
    (log_last (c_log c) + 1) = (SALTS_OK, t) ->
  tr_core_build_peer_set t = (SALTS_OK, peers) ->
  exists e v, tr_raft_log_append_configuration (c_log c) (c_term c) conf =
      (SALTS_OK, log_with_entries (c_log c) v, Some e) /\
    let c' := tr_core_refresh_peers
      (c <| c_log := log_with_entries (c_log c) v |>
         <| c_membership_transition := t |>) peers in
    core_inv c' /\ core_le c c' /\ c_role c' = TR_RAFT_LEADER.
Proof.
  intros Hi Hr Hrange Hw Hmax Hst Hb. pose proof (ki_log c (proj1 Hi)) as Hlog.
  destruct (append_configuration_spec (c_log c) (c_term c) conf)
    as (e & v & Heq & Hel & Hwf & _ & _ & Hcmd & Hd); try done.
  { destruct (ki_vote c (proj1 Hi)) as [_ ?]; [by right|lia]. }
  { eapply stage_ok_wf; [apply Hi|done]. }
  exists e, v. split; [done|].
  destruct (extend_log_inv c v [e] Hi Hwf Hel) as [Hi1 Hl1].
  { constructor; [|constructor]. intros _. by rewrite Hd. }
  destruct (staged_fits c v conf e t Hi Hrange Hst Hel Hd) as [Hc Hfit].
  set (c1 := c <| c_log := _ |>) in *.
  destruct (adopt_transition_inv c1 t peers Hi1 (Hfit c1 Hi1 eq_refl eq_refl eq_refl) Hc Hb)
    as (Hi2 & Hl2 & Hr2 & _).
  split; [done|]. split; [by etrans|]. by rewrite Hr2.
Qed.

Lemma core_append_configuration_safe c conf r result c' r' :
  core_inv c -> c_role c = TR_RAFT_LEADER -> conf_in_range conf ->
  log_last (c_log c) < UINT64_MAX ->
  tr_core_append_configuration c conf r = (result, c', r') ->
  core_inv c' /\ core_le c c' /\ r_message_capacity r' = r_message_capacity r /\
  (result = SALTS_OK -> keeps_fit r r').
Proof.
  intros Hi Hr Hrange Hw. pose proof (key_inv_bounds c (proj1 Hi)) as Hb.
  unfold tr_core_append_configuration. rewrite log_last_index_spec by apply Hi.
  assert (log_last (c_log c) +64 1 = log_last (c_log c) + 1) as -> by (word_simpl; lia).
  assert (forall res c1 r1, (res, c, r) = (res, c1, r1) -> res <> SALTS_OK ->
    core_inv c1 /\ core_le c c1 /\ r_message_capacity r1 = r_message_capacity r /\
    (res = SALTS_OK -> keeps_fit r r1)) as Hsame.
  { intros res c1 r1 [= <- <-]. done. }
  destruct (tr_raft_membership_transition_stage _ _ _) as [res t] eqn:Hst.
  destruct (ok res) eqn:Hok; [|destruct res; try done; intros [= <- <- <-]; by apply Hsame].
  destruct res; try done.
  destruct (tr_core_build_peer_set t) as [res peers] eqn:Hp.
  destruct (ok res) eqn:Hok'; [|destruct res; try done; intros [= <- <- <-]; by apply Hsame].
  destruct res; try done.
  unfold tr_require_capacity. destruct (_ <=? _).
  2: { intros [= <- <- <-].
       destruct (safe_quiet _ _ (quiet_in_call c false) Hi). split; [done|]. done. }
  destruct (decide (Z.of_nat (length (elems (c_log c))) < log_max_entries (c_log c)))
    as [Hlt|Hge].
  2: { rewrite append_configuration_full; [|lia|].
       2: { destruct (ki_vote c (proj1 Hi)) as [_ ?]; [by right|lia]. }
       intros [= <- <- <-]. assert (c <| c_log := c_log c |> = c) as -> by by destruct c.
       done. }
  destruct (configuration_appended c conf t peers) as (e & v & -> & Hi1 & Hl1 & Hr1);
    try done. cbv beta iota zeta. cbn [default].
  set (c1 := tr_core_refresh_peers _ peers) in *. clearbody c1.
  set (c2 := set_next _ _ _).
  assert (quiet c1 c2) as Hq by (etrans; [apply quiet_set_match|apply quiet_set_next]).
  set (r1 := r <| r_log_changed := _ |> <| r_log_entries := _ |> <| r_log_entry_count := _ |>).
  clearbody c2. destruct (safe_quiet _ _ Hq Hi1) as [Hi2 Hl2].
  destruct (update_commit_spec c2 r1 Hi2) as (c3 & r3 & -> & Hi3 & Hl3 & Hf3 & _).
  { left. by rewrite (same_role Hq). }
  pose proof (broadcast_replication_frames c3 r3) as [Hq4 Hf4].
  destruct (tr_broadcast_replication c3 r3) as [c4 r4]. cbn [fst snd] in *.
  intros [= <- <- <-]. destruct (safe_quiet _ _ Hq4 Hi3) as [Hi4 Hl4].
  split; [done|]. split; [etrans; [apply Hl1|]; etrans; [apply Hl2|]; by etrans|].
  assert (keeps_fit r1 r4) as Hf by (etrans; [by apply adds_0_keeps_fit|done]).
  split; [apply Hf|]. by intros _.
Qed.

End Safety.
