(* ===== verification/CoreFollower.v ===== *)
(** * Safety of the follower

    Reconciliation, the rebuilt membership and the commit index of a follower,
    and the handlers of append requests, heartbeats and their responses. *)

From S2P Require Import Prelude Configuration Membership PeerSet Transition Window Vec.
From S2P Require Import Log CoreState CoreEmit CoreElection CoreSteps CoreApi CoreFrame.
From S2P Require Import CoreInvariant CoreSafety.
From Stdlib Require Import ZArith Lia Sorting.Sorted.
From stdpp Require Import base numbers list tactics sets.
Open Scope Z_scope.
Open Scope raft_scope.

Section Follower.
Context {V : Type} `{VecLaws V}.
Implicit Types (c : tr_raft_core V) (r : tr_raft_ready) (m : tr_raft_message).

(** ** Configuration entries of received entries *)

Lemma bytes_range e : Forall is_byte (entry_data e) -> entry_range e.
Proof.
  intros Hb _. assert (conf_in_range zero_conf) as Hz by (by repeat constructor).
  unfold tr_raft_conf_entry_decode. case_match; [done|]. case_match; [done|].
  destruct (tr_raft_conf_decode _) as [s x] eqn:Hd. cbn [snd].
  destruct (decide (s = SALTS_OK)) as [->|Hne].
  - apply conf_decode_ok in Hd as (_ & ? & _); [done|]. by apply Forall_take.
  - unfold tr_raft_conf_decode in Hd. repeat case_match; by simplify_eq.
Qed.

Lemma entry_eqv_decode e1 e2 :
  entry_eqv e1 e2 -> tr_raft_conf_entry_decode e1 = tr_raft_conf_entry_decode e2.
Proof.
  unfold entry_eqv, tr_raft_log_entry_equal.
  rewrite !andb_true_iff, !Z.eqb_eq, bool_decide_eq_true.
  intros ((((E1 & E2) & E3) & E4) & E5).
  unfold tr_raft_conf_entry_decode, tr_raft_conf_entry_is_configuration.
  by rewrite E1, E2, E3, E5, E4.
Qed.

(** Staging adds only configurations decoded from the entries. *)
Lemma stage_entries_spec t es result t' :
  transition_wf t -> stage_entries t es = (result, t') ->
  transition_wf t' /\ mt_committed t' = mt_committed t /\
  forall p, p ∈ mt_pending t' -> p ∈ mt_pending t \/
    exists e, Some e ∈ es /\ entry_index e = snd p /\
      tr_raft_conf_entry_decode e = (SALTS_OK, fst p).
Proof.
  revert t. induction es as [|[e|] es IH]; intros t Hwf; cbn [stage_entries].
  { intros [= _ <-]. auto. }
  2: { intros Heq. destruct (IH t Hwf Heq) as (? & ? & Hp). split; [done|]. split; [done|].
       intros p Hin. destruct (Hp p Hin) as [?|(e & He & ?)]; [by left|]. right.
       exists e. split; [by right|done]. }
  destruct (tr_raft_conf_entry_is_configuration e).
  2: { intros Heq. destruct (IH t Hwf Heq) as (? & ? & Hp). split; [done|]. split; [done|].
       intros p Hin. destruct (Hp p Hin) as [?|(x & He & ?)]; [by left|]. right.
       exists x. split; [by right|done]. }
  destruct (tr_raft_membership_transition_stage_entry t e) as [res t1] eqn:Hst.
  assert (transition_wf t1 /\ mt_committed t1 = mt_committed t /\
    forall p, p ∈ mt_pending t1 -> p ∈ mt_pending t \/
      entry_index e = snd p /\ tr_raft_conf_entry_decode e = (SALTS_OK, fst p))
    as (Hwf1 & Hc1 & Hp1).
  { split; [by eapply transition_wf_stage_entry|].
    unfold tr_raft_membership_transition_stage_entry in Hst.
    destruct (tr_raft_conf_entry_decode e) as [[] x]; try (injection Hst as _ <-; auto).
    apply stage_inv in Hst as [[_ ->]|[(_ & _ & ->)|(_ & _ & _ & _ & _ & _ & ->)]];
      auto.
    split; [done|]. intros p [Hp|Hp]%elem_of_app; [by left|]. right.
    by apply list_elem_of_singleton in Hp as ->. }
  assert (forall p, p ∈ mt_pending t1 -> p ∈ mt_pending t \/
    exists x, Some x ∈ Some e :: es /\ entry_index x = snd p /\
      tr_raft_conf_entry_decode x = (SALTS_OK, fst p)) as Hp2.
  { intros p Hin. destruct (Hp1 p Hin) as [?|[? ?]]; [by left|]. right.
    exists e. split; [left|done]. }
  destruct res; try (by intros [= _ <-]).
  intros Heq. destruct (IH t1 Hwf1 Heq) as (? & Hc & Hp). split; [done|].
  split; [congruence|]. intros p Hin.
  destruct (Hp p Hin) as [Hin1|(x & Hx & ?)]; [by apply Hp2|].
  right. exists x. split; [by right|done].
Qed.

Lemma log_range_lookup (log : tr_raft_log V) first n e :
  log_wf log -> Some e ∈ log_range log first n ->
  first <= entry_index e < first + Z.of_nat n /\ log_at log (entry_index e) = Some e.
Proof.
  intros Hwf Hin. unfold log_range in Hin.
  apply list_elem_of_fmap in Hin as (k & He & Hk). apply elem_of_seq in Hk.
  rewrite log_get_spec in He by done. symmetry in He.
  pose proof (log_at_Some_index _ _ _ Hwf He) as [Hidx _]. rewrite Hidx. split; [lia|done].
Qed.

(** ** The rebuilt membership *)

Lemma rebuild_spec c prev es t log' rc :
  key_inv c -> entries_follow prev es ->
  reconciled (c_log c) prev es (c_commit_index c) log' rc ->
  log_base_index (c_log c) <= prev <= log_last (c_log c) ->
  tr_core_rebuild_pending_transition c prev es = (SALTS_OK, t) ->
  transition_wf t /\ mt_committed t = mt_committed (c_membership_transition c) /\
  Forall (fun p => c_commit_index c < snd p /\ logged log' p) (mt_pending t).
Proof.
  intros Hi Hf Hrc Hb. unfold tr_core_rebuild_pending_transition.
  pose proof (ki_log c Hi) as Hlog. rewrite log_last_index_spec by done.
  set (range := log_range _ _ _).
  destruct (stage_entries _ range) as [res t1] eqn:H1.
  apply stage_entries_spec in H1 as (Hwf1 & Hc1 & Hp1).
  2: { apply transition_wf_init. apply (tw_committed _ (ki_transition c Hi)). }
  destruct (ok res) eqn:Hok; [|by destruct res]. destruct res; try done.
  intros H2. apply stage_entries_spec in H2 as (Hwf2 & Hc2 & Hp2); [|done].
  split; [done|]. split; [by rewrite Hc2, Hc1|].
  apply list.Forall_forall. intros p Hp. apply Hp2 in Hp as [Hp|(e & He & Hidx & Hd)].
  - apply Hp1 in Hp as [Hp|(e & He & Hidx & Hd)]; [by apply elem_of_nil in Hp|].
    apply log_range_lookup in He as [Hr Hat]; [|done]. split; [lia|]. exists e.
    split; [|done]. rewrite <- Hidx.
    rewrite (reconciled_keeps (c_log c) prev es (c_commit_index c) log' rc); try done; lia.
  - apply list_elem_of_fmap in He as (x & [= <-] & He).
    apply list_elem_of_In, filter_In in He as [He%list_elem_of_In Hlt].
    apply list_elem_of_lookup in He as [k Hk]. split; [lia|].
    destruct (reconciled_holds (c_log c) prev es (c_commit_index c) log' rc) with k e
      as (l & Hl & Heq); try done; [by eapply lookup_lt_Some|].
    destruct (Hf k e Hk) as [Hei _]. exists l. rewrite <- Hidx, Hei. split; [done|].
    by rewrite (entry_eqv_decode l e).
Qed.

Lemma reconciled_elems (log : tr_raft_log V) prev es protected log' rc e :
  reconciled log prev es protected log' rc -> e ∈ elems log' -> e ∈ elems log \/ e ∈ es.
Proof.
  intros [Ha|n tr v _ _ Hel]; [by left|]. rewrite Hel. intros [Hin|Hin]%elem_of_app.
  - left. by eapply elem_of_subseteq, Hin; apply subseteq_take.
  - right. by eapply elem_of_subseteq, Hin; apply subseteq_drop.
Qed.

(** ** Reconciliation *)

(** The core with the reconciled log, the membership rebuilt from it and its
    peers. *)
Definition with_log c (log : tr_raft_log V) (t : tr_raft_membership_transition)
    (peers : tr_raft_peer_set) : tr_raft_core V :=
  c <| c_log := log |> <| c_membership_transition := t |> <| c_peers := peers |>.

Lemma reconcile_inv c prev es t log' rc peers :
  core_inv c -> entries_follow prev es ->
  Forall (fun e => Forall is_byte (entry_data e)) es ->
  log_wf log' -> reconciled (c_log c) prev es (c_commit_index c) log' rc ->
  log_base_index (c_log c) <= prev <= log_last (c_log c) ->
  tr_core_rebuild_pending_transition c prev es = (SALTS_OK, t) ->
  tr_core_build_peer_set t = (SALTS_OK, peers) ->
  core_inv (with_log c log' t peers) /\ core_le c (with_log c log' t peers).
Proof.
  intros [Hk Ha] Hf Hbytes Hwf Hrc Hb Hre Hp.
  pose proof (rebuild_spec c prev es t log' rc Hk Hf Hrc Hb Hre) as (Htw & Hc & Hpend).
  destruct (reconciled_base _ _ _ _ _ _ Hrc) as (Hbase & Hbt & _).
  pose proof (key_inv_bounds c Hk) as Hbounds. destruct Hk.
  split; [split; [|by destruct Ha]|].
  - constructor; unfold with_log, tr_core_membership in *; record_simpl; try done.
    + unfold tr_raft_membership_transition_committed in *. rewrite Hc.
      split; [apply ki_range|]. apply list.Forall_forall. intros e He.
      destruct ki_range as [_ Hr]. rewrite list.Forall_forall in Hr, Hbytes.
      destruct (reconciled_elems _ _ _ _ _ _ _ Hrc He); [by apply Hr|].
      by apply bytes_range, Hbytes.
    + unfold tr_raft_membership_transition_committed in *. by rewrite Hc.
    + by rewrite Hbase.
    + eapply reconciled_protected; [|done|done|]; [done|lia].
  - constructor; unfold with_log; record_simpl; try done.
    intros i Hi _. record_simpl.
    eapply reconciled_keeps; try done; [by right|]. lia.
Qed.

(** ** The commit index of a follower *)

Lemma commit_limit_ge t i commit :
  Forall (fun p => commit < snd p) (mt_pending t) -> commit <= i ->
  commit <= tr_raft_membership_transition_commit_limit t i.
Proof.
  intros Hp Hi. unfold tr_raft_membership_transition_commit_limit.
  destruct (mt_pending t) as [|[d j] ?]; [done|].
  apply list.Forall_cons in Hp as [Hj _]. cbn in Hj. case_match; lia.
Qed.

Lemma follower_commit_safe c m :
  core_inv c -> c_role c = TR_RAFT_FOLLOWER ->
  exists c', follower_commit c m = (SALTS_OK, c') /\ core_inv c' /\ core_le c c' /\
    c_log c' = c_log c /\ c_term c' = c_term c /\
    c_commit_index c' = Z.max (c_commit_index c)
      (tr_raft_membership_transition_commit_limit (c_membership_transition c)
         (Z.min (m_leader_commit m) (log_last (c_log c)))).
Proof.
  intros Hi Hr. unfold follower_commit. rewrite log_last_index_spec by apply Hi.
  pose proof (key_inv_bounds c (proj1 Hi)) as Hb.
  destruct (Z.ltb_spec (c_commit_index c) (m_leader_commit m)) as [Hlt|Hge].
  2: { exists c. do 5 (split; [done|]).
       pose proof (commit_limit_le (c_membership_transition c)
         (Z.min (m_leader_commit m) (log_last (c_log c)))). lia. }
  assert ((if m_leader_commit m <? log_last (c_log c) then m_leader_commit m
    else log_last (c_log c)) = Z.min (m_leader_commit m) (log_last (c_log c))) as ->.
  { case_match; lia. }
  set (i := Z.min _ _).
  pose proof (commit_limit_le (c_membership_transition c) i) as Hle.
  pose proof (commit_limit_ge (c_membership_transition c) i (c_commit_index c)) as Hge.
  set (i' := tr_raft_membership_transition_commit_limit _ i) in *.
  assert (c_commit_index c <= i').
  { apply Hge; [|lia]. apply (list.Forall_impl _ _ _ (ki_pending c (proj1 Hi))). tauto. }
  set (t := transition_apply_loop (mt_committed (c_membership_transition c))
    (mt_pending (c_membership_transition c)) i').
  destruct (sync_membership_spec c i' t) as (c' & Hsync & Hci & Hcl & Hcc & Hlog & Hterm);
    try done; [apply apply_fits; [apply Hi|done]|lia|by right|].
  change (tr_raft_membership_transition_apply _ _) with (SALTS_OK, t).
  cbv beta iota zeta. rewrite Hsync. exists c'. do 5 (split; [done|]). lia.
Qed.

Lemma quiet_with_members c c' t peers :
  quiet c c' ->
  quiet (c <| c_membership_transition := t |> <| c_peers := peers |>)
    (c' <| c_membership_transition := t |> <| c_peers := peers |>).
Proof.
  intros [Hk Ha]. split.
  - injection Hk as E1 E2 E3 E4 E5 E6 E7 E8 E9 E10 E11 E12 E13 E14.
    unfold key. record_simpl. congruence.
  - intros [? ? ? ? ? ?]. destruct Ha; by constructor.
Qed.

Lemma step_down_fields c term :
  c_role (step_down c term) = TR_RAFT_FOLLOWER /\
  c_log (step_down c term) = c_log c /\
  c_term (step_down c term) = Z.max (c_term c) term /\
  c_commit_index (step_down c term) = c_commit_index c /\
  c_membership_transition (step_down c term) = c_membership_transition c.
Proof.
  unfold step_down. destruct (Z.ltb_spec (c_term c) term); record_simpl;
    do 2 (split; [done|]); split; done || lia.
Qed.

(** What a follower is after [tr_become_follower] with the reconciled log. *)
Definition follow c (log : tr_raft_log V) m : tr_raft_core V :=
  (tr_become_follower (c <| c_log := log |>) (m_term m))
    <| c_leader_id := m_from m |> <| c_election_elapsed_ticks := 0 |>.

Lemma follow_quiet c (log : tr_raft_log V) m :
  quiet (step_down (c <| c_log := log |>) (m_term m)) (follow c log m).
Proof.
  unfold follow. etrans; [apply become_follower_quiet|].
  set (x := tr_become_follower _ _). clearbody x.
  etrans; [apply quiet_leader_id|apply quiet_election_elapsed_ticks].
Qed.

Lemma follow_unmatched_safe c m :
  message_ok m -> safe c (follow c (c_log c) m).
Proof.
  intros Hm. etrans; [|apply safe_quiet, follow_quiet].
  assert (c <| c_log := c_log c |> = c) as -> by by destruct c.
  apply step_down_safe, Hm.
Qed.

(** The membership of the accepted log is adopted before the commit index
    moves. *)
Lemma follower_adopt_safe c m t log' rc :
  core_inv c -> message_ok m -> log_wf log' ->
  reconciled (c_log c) (m_previous_log_index m) (m_entries m) (c_commit_index c) log' rc ->
  log_base_index (c_log c) <= m_previous_log_index m <= log_last (c_log c) ->
  tr_core_rebuild_pending_transition c (m_previous_log_index m) (m_entries m) =
    (SALTS_OK, t) ->
  exists c', follower_adopt (follow c log' m) m true t = (SALTS_OK, c') /\
    core_inv c' /\ core_le c c' /\ c_log c' = log' /\
    c_term c' = Z.max (c_term c) (m_term m) /\
    c_commit_index c' = Z.max (c_commit_index c)
      (tr_raft_membership_transition_commit_limit t
         (Z.min (m_leader_commit m) (log_last log'))).
Proof.
  intros Hi Hm Hwf Hrc Hb Hre.
  pose proof (rebuild_spec c _ _ t log' rc (proj1 Hi) (mo_entries m Hm) Hrc Hb Hre)
    as (Htw & _ & _).
  assert (exists peers, tr_core_build_peer_set t = (SALTS_OK, peers)) as [peers Hp].
  { pose proof (tw_peers t Htw) as Hp.
    change (fst (tr_core_build_peer_set t) = SALTS_OK) in Hp.
    destruct (tr_core_build_peer_set t) as [x peers]. cbn in Hp. subst x. by exists peers. }
  destruct (reconcile_inv c _ _ t log' rc peers Hi (mo_entries m Hm) (mo_bytes m Hm)
    Hwf Hrc Hb Hre Hp) as [Hi1 Hl1].
  unfold follower_adopt. set (x := follow c log' m).
  assert (quiet (step_down (with_log c log' t peers) (m_term m))
    (tr_core_refresh_peers (x <| c_membership_transition := t |>) peers)) as Hq.
  { etrans; [|apply refresh_peers_quiet].
    pose proof (quiet_with_members _ _ t peers (follow_quiet c log' m)) as Hq.
    fold x in Hq. clearbody x. unfold step_down, with_log in *. revert Hq.
    record_simpl. by destruct (c_term c <? m_term m). }
  clearbody x. change (c_membership_transition _) with t. rewrite Hp.
  set (y := tr_core_refresh_peers _ peers) in *. clearbody y.
  destruct (step_down_safe _ (m_term m) (mo_term m Hm) Hi1) as [Hi2 Hl2].
  destruct (safe_quiet _ _ Hq Hi2) as [Hi3 Hl3].
  destruct (follower_commit_safe y m Hi3) as (c' & -> & Hi4 & Hl4 & Hlog & Hterm & Hc).
  { rewrite (same_role Hq). apply step_down_fields. }
  exists c'. split; [done|]. split; [done|].
  split; [etrans; [apply Hl1|]; etrans; [apply Hl2|]; by etrans|].
  rewrite Hlog, Hterm, Hc, (same_log Hq), (same_term Hq), (same_commit Hq),
    (same_transition Hq).
  destruct (step_down_fields (with_log c log' t peers) (m_term m))
    as (_ & -> & -> & -> & ->). done.
Qed.

(** ** Append requests and heartbeats *)

Lemma emit_then_adds c r type to granted f r' :
  (let '(sent, r1) := tr_emit c r type to granted in
   if sent then update_last f r1 else r1) = r' ->
  adds (if tr_peer_paused c to then 0 else 1) r r'.
Proof.
  intros <-. pose proof (emit_adds c r type to granted) as He.
  destruct (tr_emit c r type to granted) as [[] r1]; destruct He as [Hs He];
    destruct (tr_peer_paused c to); try done.
  rewrite <- (Z.add_0_r 1). eapply adds_trans; [done|apply update_last_adds].
Qed.

(** What the accepted request does to the core. *)
Lemma follower_adopted c m t log' rc matched :
  core_inv c -> message_ok m ->
  (if tr_raft_log_matches (c_log c) (m_previous_log_index m) (m_previous_log_term m)
   then tr_core_rebuild_pending_transition c (m_previous_log_index m) (m_entries m)
   else (SALTS_OK, c_membership_transition c)) = (SALTS_OK, t) ->
  tr_raft_log_reconcile (c_log c) (m_previous_log_index m) (m_previous_log_term m)
    (m_entries m) (c_commit_index c) = (SALTS_OK, log', rc) ->
  rc_matched rc = matched ->
  exists c', follower_adopt (follow c log' m) m matched t = (SALTS_OK, c') /\
    core_inv c' /\ core_le c c'.
Proof.
  intros Hi Hm Hre Hrc <-. pose proof (ki_log c (proj1 Hi)) as Hlog.
  apply reconcile_spec in Hrc as [Hwf Hrc]; [|done|apply Hm|apply Hm].
  rewrite decide_True in Hrc by done. destruct Hrc as [(Hne & -> & ->)|[Ht Hrc]].
  - cbn [rc_matched follower_adopt]. eexists. split; [done|].
    by apply follow_unmatched_safe.
  - assert (rc_matched rc = true) as -> by by destruct Hrc.
    pose proof (proj2 (log_matches_spec _ _ _ Hlog) Ht) as Hmt. rewrite Hmt in Hre.
    apply log_term_bounds in Ht.
    destruct (follower_adopt_safe c m t log' rc Hi Hm Hwf Hrc Ht Hre)
      as (c' & Heq & Hi' & Hl' & _). by exists c'.
Qed.

Lemma reconcile_failed (log : tr_raft_log V) prev pt es protected res log' rc :
  log_wf log -> 0 <= prev -> entries_follow prev es ->
  tr_raft_log_reconcile log prev pt es protected = (res, log', rc) ->
  res <> SALTS_OK -> log' = log.
Proof.
  intros Hwf Hp Hf Heq Hr. apply reconcile_spec in Heq as [_ Heq]; try done.
  rewrite decide_False in Heq by done. by destruct Heq.
Qed.

Lemma step_heartbeat_request_safe c m r result c' r' :
  core_inv c -> message_ok m ->
  tr_step_heartbeat_request c m r = (result, c', r') ->
  core_inv c' /\ core_le c c' /\ r_message_capacity r' = r_message_capacity r /\
  (result = SALTS_OK -> adds 1 r r').
Proof.
  intros Hi Hm. unfold tr_step_heartbeat_request.
  set (type := if is_append m then _ else _). clearbody type.
  assert (forall x r0 granted f rr,
    (let '(sent, r1) := tr_emit x r0 type (m_from m) granted in
     if sent then update_last f r1 else r1) = rr -> adds 1 r0 rr) as Hemit.
  { intros x r0 granted f rr Heq. apply (emit_then_adds x) in Heq as (? & ? & Hn).
    split; [done|]. split; [done|]. by destruct (tr_peer_paused x (m_from m)); lia. }
  destruct (m_term m <? c_term c).
  { match goal with |- context [update_last ?f _] => pose proof (Hemit c r false f) as He end.
    destruct (tr_emit c r type (m_from m) false) as [[] r1]; intros [= <- <- <-];
      (split; [done|]; split; [done|]; destruct (He _ eq_refl) as (? & ? & ?); done). }
  destruct (if tr_raft_log_matches _ _ _ then _ else _) as [res t] eqn:Hre.
  destruct (ok res) eqn:Hok; [|destruct res; try done; by intros [= <- <- <-]].
  destruct res; try done.
  destruct (tr_raft_log_reconcile _ _ _ _ _) as [[res log'] rc] eqn:Hrc.
  destruct (decide (res = SALTS_OK)) as [->|Hne].
  2: { apply reconcile_failed in Hrc as ->; try done; try apply Hm; [|apply Hi].
       assert (c <| c_log := c_log c |> = c) as -> by by destruct c.
       destruct res; try done; by intros [= <- <- <-]. }
  fold (follow c log' m).
  destruct (follower_adopted c m t log' rc (rc_matched rc) Hi Hm Hre Hrc eq_refl)
    as (c2 & -> & Hi2 & Hl2).
  set (r1 := if rc_changed rc then _ else r).
  set (r2 := if negb _ then _ else r1).
  assert (adds 0 r r2) as Ha.
  { subst r2 r1. destruct (negb _), (rc_changed rc); exact (adds_refl r). }
  clearbody r2. match goal with |- context [update_last ?f _] =>
    pose proof (Hemit c2 r2 (rc_matched rc) f) as He end.
  destruct (tr_emit c2 r2 type (m_from m) (rc_matched rc)) as [[] r3]; intros [= <- <- <-];
    (split; [done|]; split; [done|]; pose proof (adds_trans 0 1 _ _ _ Ha (He _ eq_refl)) as Ha3;
     split; [apply Ha3|by intros _]).
Qed.

(** ** Responses *)

Lemma acknowledge_safe c m r i :
  core_inv c -> c_role c = TR_RAFT_LEADER ->
  exists c' r', acknowledge c m r i = (SALTS_OK, c', r') /\
    core_inv c' /\ core_le c c' /\ adds 0 r r'.
Proof.
  intros Hi Hr. unfold acknowledge.
  set (w := tr_append_window_release_through _ _).
  set (c1 := set_window c i _).
  assert (quiet c c1) as Hq.
  { apply quiet_set_window. intros Hw. apply window_wf_probe.
    by apply (window_release_spec (window_at c i)), window_at_wf. }
  clearbody c1. destruct (safe_quiet _ _ Hq Hi) as [Hi1 Hl1].
  destruct (match_at c1 i <? m_match_index m).
  2: { exists c1, r. do 3 (split; [done|]). apply adds_refl. }
  set (c2 := set_match c1 i _). set (c3 := if _ <? _ then _ else c2).
  assert (quiet c1 c3) as Hq3.
  { assert (quiet c1 c2) as Hq2 by apply quiet_set_match. clearbody c2.
    etrans; [done|]. subst c3. case_match; [apply quiet_set_next|done]. }
  clearbody c3. destruct (safe_quiet _ _ Hq3 Hi1) as [Hi3 Hl3].
  destruct (update_commit_spec c3 r Hi3) as (c' & r' & -> & Hi4 & Hl4 & Hf & _).
  { left. by rewrite (same_role Hq3), (same_role Hq). }
  exists c', r'. split; [done|]. split; [done|]. split; [|done].
  etrans; [apply Hl1|]. by etrans.
Qed.

Lemma respond_frame c m r i last result c' r' :
  respond c m r i last = (result, c', r') ->
  result = SALTS_OK /\ quiet c c' /\
  (keeps_fit r r' \/ adds 1 r r').
Proof.
  unfold respond.
  destruct (m_granted m && negb (c_leadership_transfer_sent c) &&
    (c_leadership_transfer_target c =? m_from m) && (last <=? match_at c i)).
  { pose proof (emit_adds c r TR_RAFT_MSG_TIMEOUT_NOW (m_from m) false) as He.
    destruct (tr_emit _ _ _ _ _) as [sent r1]. intros [= <- <- <-].
    split; [done|]. split; [apply quiet_leadership_transfer_sent|]. right.
    destruct He as [_ (? & ? & ?)]. split; [done|]. split; [done|].
    by destruct sent; lia. }
  destruct (_ || _).
  - pose proof (fill_peer_window_frames c r i) as [Hq Hf].
    destruct (tr_fill_peer_replication_window c r i) as [c1 r1]. intros [= <- <- <-].
    auto.
  - intros [= <- <- <-]. split; [done|]. split; [done|]. by left.
Qed.

Lemma respond_safe c m r i last result c' r' c0 r0 :
  core_inv c -> core_le c0 c -> adds 0 r0 r ->
  respond c m r i last = (result, c', r') ->
  result = SALTS_OK /\ core_inv c' /\ core_le c0 c' /\
  (keeps_fit r0 r' \/ adds 1 r0 r').
Proof.
  intros Hi Hl Ha Heq. apply respond_frame in Heq as (-> & Hq & Hf).
  destruct (safe_quiet _ _ Hq Hi) as [Hi' Hl']. split; [done|]. split; [done|].
  split; [by etrans|]. destruct Hf as [Hf|Hf].
  - left. etrans; [by apply adds_0_keeps_fit|done].
  - right. change 1 with (0 + 1). by eapply adds_trans.
Qed.

Lemma step_heartbeat_response_safe c m r i result c' r' :
  core_inv c -> message_ok m ->
  tr_step_heartbeat_response c m r i = (result, c', r') ->
  result = SALTS_OK /\ core_inv c' /\ core_le c c' /\ (keeps_fit r r' \/ adds 1 r r').
Proof.
  intros Hi Hm. unfold tr_step_heartbeat_response.
  assert (forall res, (SALTS_OK, c, r) = (res, c', r') ->
    res = SALTS_OK /\ core_inv c' /\ core_le c c' /\ (keeps_fit r r' \/ adds 1 r r'))
    as Hsame.
  { intros res [= <- <- <-]. do 3 (split; [done|]). by left. }
  destruct (c_term c <? m_term m).
  { intros [= <- <- <-]. split; [done|].
    destruct (become_follower_safe c (m_term m) (mo_term m Hm) Hi).
    do 2 (split; [done|]). by left. }
  destruct (negb _ || negb _) eqn:Hg; [by apply Hsame|].
  rewrite orb_false_iff, !negb_false_iff, role_eqb_eq in Hg. destruct Hg as [Hr _].
  destruct (m_granted m && _); [by apply Hsame|].
  set (inflight := if type_eqb _ _ then _ else _).
  destruct (_ && (inflight <? 0)); [by apply Hsame|].
  destruct (_ && negb _); [by apply Hsame|].
  set (c1 := if tr_raft_membership_is_voter _ _ then _ else c).
  assert (quiet c c1) as Hq.
  { subst c1. case_match; [apply quiet_recent_active|done]. }
  clearbody c1. destruct (safe_quiet _ _ Hq Hi) as [Hi1 Hl1].
  destruct (m_granted m).
  - destruct (acknowledge_safe c1 m r i Hi1) as (c2 & r2 & -> & Hi2 & Hl2 & Ha2).
    { by rewrite (same_role Hq). }
    apply respond_safe; [done|by etrans|done].
  - set (next := rejected_next _ _ _ _). clearbody next. set (c2 := set_next _ _ _).
    assert (quiet c1 c2) as Hq2.
    { etrans; [|apply quiet_set_next]. apply quiet_set_window. intros _.
      apply window_wf_reset. }
    clearbody c2. destruct (safe_quiet _ _ Hq2 Hi1) as [Hi2 Hl2].
    apply respond_safe; [done|by etrans|apply adds_refl].
Qed.

End Follower.
