(* ===== verification/CoreCalls.v ===== *)
(** * The calls of the interface keep the invariant

    [call_post] is what every call that produces a ready promises: the core
    invariant, no regress, the release of the core, the bound of the message
    buffer and the report of the hard state. *)

From S2P Require Import Prelude Configuration Membership PeerSet Transition Window Vec.
From S2P Require Import Log CoreState CoreEmit CoreElection CoreSteps CoreApi CoreFrame.
From S2P Require Import CoreInvariant CoreSafety CoreFollower.
From Stdlib Require Import ZArith Lia.
From stdpp Require Import base numbers list tactics.
Open Scope Z_scope.
Open Scope raft_scope.

Section Calls.
Context {V : Type} `{VecLaws V}.
Implicit Types (c : tr_raft_core V) (r : tr_raft_ready) (m : tr_raft_message).

(** ** What a call promises *)

(** What a node never takes back. *)
Record grows c c' : Prop := {
  gr_self : c_self_id c' = c_self_id c;
  gr_term : c_term c <= c_term c';
  gr_vote : c_term c' = c_term c -> c_voted_for c <> 0 ->
    c_voted_for c' = c_voted_for c;
  gr_commit : c_commit_index c <= c_commit_index c';
  gr_applied : c_applied_index c <= c_applied_index c' /\
    c_apply_admitted_index c <= c_apply_admitted_index c';
  gr_base : log_base_index (c_log c) <= log_base_index (c_log c');
  gr_committed : committed_kept c c';
  gr_terms : forall i, i <= c_commit_index c -> log_base_index (c_log c') <= i ->
    log_term (c_log c') i = log_term (c_log c) i
}.

#[export] Instance grows_preorder : PreOrder grows.
Proof.
  split.
  - intros c. by constructor.
  - intros c1 c2 c3 [Hs Ht Hv Hc Ha Hb Hk Hl] [Hs' Ht' Hv' Hc' Ha' Hb' Hk' Hl'].
    constructor; try lia; intros i Hi Hbi.
    + rewrite Hk' by lia. apply Hk; lia.
    + rewrite Hl' by lia. apply Hl; lia.
Qed.

Lemma core_le_grows c c' : core_le c c' -> grows c c'.
Proof.
  intros [? ? ? ? [Hb Hbt] Hk ? ?]. constructor; try done; [lia|lia|].
  intros i Hi Hi'. unfold log_term. rewrite Hb, Hbt.
  destruct (Z.eqb_spec i (log_base_index (c_log c))) as [|Hne]; [done|].
  rewrite Hk; [done|done|lia].
Qed.

(** The hard state of [c'] is in the ready, with a flag when it is new. *)
Definition hard_state_reported c c' r' : Prop :=
  r_term r' = c_term c' /\ r_voted_for r' = c_voted_for c' /\
  (r_hard_state_changed r' = true <->
   (c_term c', c_voted_for c') <> (c_term c, c_voted_for c)).

(** Whether a ready asks for anything. *)
Definition ready_effects r : bool :=
  negb (r_message_count r =? 0) || r_hard_state_changed r || r_role_changed r ||
  r_log_changed r || r_commit_changed r || negb (r_committed_entry_count r =? 0) ||
  negb (Z.of_nat (length (r_read_states r)) =? 0) || negb (r_snapshot_request_count r =? 0).

(** The committed entries that were not admitted yet are in the ready, in
    order, and are what the core waits for. *)
Definition committed_delivered c' r' : Prop :=
  c_apply_admitted_index c' < c_commit_index c' ->
  c_ready_outstanding c' = true /\ c_pending_apply_index c' = c_commit_index c' /\
  r_committed_entry_count r' = c_commit_index c' - c_apply_admitted_index c' /\
  length (r_committed_entries r') = Z.to_nat (r_committed_entry_count r') /\
  forall k e, r_committed_entries r' !! k = Some e ->
    log_at (c_log c') (c_apply_admitted_index c' + 1 + Z.of_nat k) = Some e.

Record call_post c r (result : status) c' r' : Prop := {
  cp_inv : core_inv c';
  cp_grows : grows c c';
  cp_released : c_in_call c = false -> c_in_call c' = false;
  cp_capacity : r_message_capacity r' = r_message_capacity r;
  cp_fits : 1 <= r_message_capacity r -> fits r -> fits r';
  cp_reported : result = SALTS_OK -> hard_state_reported c c' r';
  cp_delivered : result = SALTS_OK -> committed_delivered c' r';
  cp_protocol : result = SALTS_OK -> c_ready_outstanding c = false;
  cp_apply : c_applied_index c' = c_applied_index c /\
    c_apply_admitted_index c' = c_apply_admitted_index c;
  cp_refused : result <> SALTS_OK -> c_ready_outstanding c' = c_ready_outstanding c /\
    c_pending_apply_index c' = c_pending_apply_index c;
  cp_effects : result = SALTS_OK -> c_ready_outstanding c' = ready_effects r'
}.

(** ** Slices of the log *)

Lemma log_range_elems (log : tr_raft_log V) first n :
  log_wf log -> log_base_index log < first ->
  first + Z.of_nat n <= log_last log + 1 ->
  log_range log first n =
  Some <$> take n (drop (Z.to_nat (first - log_base_index log - 1)) (elems log)).
Proof.
  intros Hwf Hf Hn. apply list_eq. intros k. unfold log_range.
  rewrite !list_lookup_fmap. destruct (decide (k < n)%nat) as [Hk|Hk].
  - rewrite lookup_seq_lt by done. rewrite lookup_take_lt, lookup_drop by done.
    cbn [fmap option_fmap option_map]. rewrite log_get_spec by done.
    assert (is_Some (log_at log (first + Z.of_nat k))) as [e He]
      by (apply log_at_is_Some; lia).
    cbn [Nat.add]. rewrite He. unfold log_at in He.
    replace (_ <? _) with true in He by blia.
    replace (Z.to_nat (first - log_base_index log - 1) + k)%nat
      with (Z.to_nat (first + Z.of_nat k - log_base_index log - 1)) by lia.
    by rewrite He.
  - rewrite lookup_seq_ge by lia. rewrite lookup_take_ge by lia. done.
Qed.

Lemma log_slice_elems (log : tr_raft_log V) first n :
  log_wf log -> log_base_index log < first ->
  first + Z.of_nat n <= log_last log + 1 ->
  log_slice log first n =
  take n (drop (Z.to_nat (first - log_base_index log - 1)) (elems log)).
Proof.
  intros Hwf Hf Hn. unfold log_slice. rewrite log_range_elems by done.
  generalize (take n (drop (Z.to_nat (first - log_base_index log - 1)) (elems log))).
  induction l as [|x l IH]; [done|]. cbn. f_equal. apply IH.
Qed.

Lemma log_slice_lookup (log : tr_raft_log V) first n k e :
  log_wf log -> log_base_index log < first ->
  first + Z.of_nat n <= log_last log + 1 ->
  length (log_slice log first n) = n /\
  (log_slice log first n !! k = Some e -> log_at log (first + Z.of_nat k) = Some e).
Proof.
  intros Hwf Hf Hn. rewrite log_slice_elems by done. split.
  - rewrite length_take, length_drop. unfold log_last in Hn. lia.
  - intros Hk. apply lookup_take_Some in Hk as [Hk _]. rewrite lookup_drop in Hk.
    unfold log_at. replace (_ <? _) with true by blia. rewrite <- Hk. f_equal. lia.
Qed.

(** ** The frame of a call *)

(** The state of a call that was opened on [c] and [r]. *)
Record ongoing c r c1 r1 : Prop := {
  og_closed : c_ready_outstanding c = false;
  og_inv : core_inv c1;
  og_le : core_le c c1;
  og_capacity : r_message_capacity r1 = r_message_capacity r;
  og_fits : 1 <= r_message_capacity r -> fits r1
}.

Definition before_of c : tr_raft_before := Before (c_role c) (c_term c) (c_voted_for c).

Lemma begin_spec c r result c1 r1 before :
  core_inv c -> tr_begin c r = (result, c1, r1, before) ->
  (result = SALTS_OK /\ ongoing c r c1 r1 /\ before = before_of c /\
   r_message_count r1 = 0 /\ c1 = c <| c_in_call := true |>) \/
  (result <> SALTS_OK /\ c1 = c /\ r1 = r).
Proof.
  intros Hi. unfold tr_begin. destruct (_ && _); [intros [= <- <- <- _]; by right|].
  destruct (_ || _) eqn:Hg; [intros [= <- <- <- _]; by right|].
  apply orb_false_iff in Hg as [_ Ho]. intros [= <- <- <- <-]. left.
  destruct (safe_quiet _ _ (quiet_in_call c true) Hi) as [Hi' Hl'].
  split; [done|]. split; [|done].
  constructor; try done. unfold fits, r_message_count, tr_reset_ready. record_simpl. cbn. lia.
Qed.

Lemma ongoing_begin_failed c r result :
  core_inv c -> result <> SALTS_OK -> call_post c r result c r.
Proof. intros Hi Hr. by constructor. Qed.

Section Ongoing.
Context (c : tr_raft_core V) (r : tr_raft_ready).

Lemma ongoing_safe c1 r1 c2 r2 :
  ongoing c r c1 r1 -> safe c1 c2 -> keeps_fit r1 r2 -> ongoing c r c2 r2.
Proof.
  intros [Ho Hi Hl Hc Hf] Hs (Hc' & _ & Hf'). destruct (Hs Hi) as [Hi' Hl'].
  constructor; try done; [by etrans|congruence|auto].
Qed.

Lemma ongoing_quiet c1 r1 c2 : ongoing c r c1 r1 -> quiet c1 c2 -> ongoing c r c2 r1.
Proof. intros Ho Hq. eapply ongoing_safe; [done|by apply safe_quiet|done]. Qed.

Lemma ongoing_frames c1 r1 cr :
  ongoing c r c1 r1 -> frames (c1, r1) cr -> ongoing c r (fst cr) (snd cr).
Proof. intros Ho [Hq Hf]. eapply ongoing_safe; [done|by apply safe_quiet|done]. Qed.

(** A handler that adds at most one message to an empty buffer. *)
Lemma ongoing_adds c1 r1 c2 r2 n :
  ongoing c r c1 r1 -> core_inv c2 -> core_le c1 c2 -> adds n r1 r2 ->
  r_message_count r1 = 0 -> n <= 1 -> ongoing c r c2 r2.
Proof.
  intros [Ho Hi Hl Hc Hf] Hi2 Hl2 (Hc' & _ & Hn) H0' Hle.
  constructor; try done; [by etrans|congruence|]. unfold fits. lia.
Qed.

(** A handler that was granted the capacity of its messages. *)
Lemma ongoing_room c1 r1 c2 r2 n :
  ongoing c r c1 r1 -> safe c1 c2 -> adds n r1 r2 -> r_message_count r1 = 0 ->
  n <= r_message_capacity r1 -> ongoing c r c2 r2.
Proof.
  intros Ho Hs Ha H0' Hle. eapply ongoing_safe; [done|done|].
  eapply adds_room; [done|]. unfold room. lia.
Qed.

Lemma fail_call_post result c1 r1 :
  ongoing c r c1 r1 -> result <> SALTS_OK ->
  call_post c r result (c1 <| c_in_call := false |>) r1.
Proof.
  intros [Ho Hi Hl Hc Hf] Hr.
  destruct (safe_quiet _ _ (quiet_in_call c1 false) Hi) as [Hi' Hl'].
  assert (core_le c (c1 <| c_in_call := false |>)) as Hle by by etrans.
  constructor; try done; [by apply core_le_grows|auto| |]; destruct Hle; tauto.
Qed.

Lemma fail_reset_post result c1 r1 :
  ongoing c r c1 r1 -> result <> SALTS_OK ->
  call_post c r result (c1 <| c_in_call := false |>) (tr_reset_ready r1).
Proof.
  intros [Ho Hi Hl Hc Hf] Hr. apply fail_call_post; [|done]. constructor; try done.
  intros ?. unfold fits, r_message_count, tr_reset_ready. record_simpl. cbn.
  rewrite Hc. lia.
Qed.

Lemma require_capacity_spec c1 r1 required result c2 r2 :
  ongoing c r c1 r1 -> tr_require_capacity c1 r1 required = (result, c2, r2) ->
  (result = SALTS_OK /\ c2 = c1 /\ r2 = r1 /\ required <= r_message_capacity r1) \/
  (result <> SALTS_OK /\ call_post c r result c2 r2).
Proof.
  intros Ho. unfold tr_require_capacity. destruct (Z.leb_spec required (r_message_capacity r1)).
  - intros [= <- <- <-]. by left.
  - intros [= <- <- <-]. right. split; [done|]. by apply fail_reset_post.
Qed.

Lemma no_pending c1 r1 : ongoing c r c1 r1 -> c_pending_apply_index c1 = 0.
Proof.
  intros [Ho [[] _] [] _ _]. destruct ki_pending_apply as [|[E _]]; [done|]. congruence.
Qed.

(** Handing out the effects. *)
Lemma finish_inv c1 pending outstanding :
  core_inv c1 ->
  pending = 0 \/ (outstanding = true /\
    c_apply_admitted_index c1 <= pending <= c_commit_index c1) ->
  core_inv (c1 <| c_pending_apply_index := pending |>
    <| c_ready_outstanding := outstanding |> <| c_in_call := false |>).
Proof.
  intros [[] Ha] Hp. split; [|by destruct Ha]. by constructor.
Qed.

Lemma finish_grows c1 pending outstanding :
  core_le c c1 ->
  grows c (c1 <| c_pending_apply_index := pending |>
    <| c_ready_outstanding := outstanding |> <| c_in_call := false |>).
Proof. intros Hl. apply core_le_grows in Hl as []. by constructor. Qed.

Lemma finish_post c1 r1 result c' r' :
  ongoing c r c1 r1 -> tr_finish c1 r1 (before_of c) = (result, c', r') ->
  result = SALTS_OK /\ call_post c r result c' r'.
Proof.
  intros Ho. pose proof Ho as [Hc Hi Hl Hcap Hfit].
  pose proof (no_pending c1 r1 Ho) as Hp. pose proof Hi as [[] _].
  pose proof (key_inv_bounds c1 (proj1 Hi)) as Hb. unfold tr_finish.
  set (b := c_apply_admitted_index c1 <? c_commit_index c1).
  set (cr := if b then _ else _).
  assert (exists r2, cr = (c1 <| c_pending_apply_index :=
    if b then c_commit_index c1 else 0 |>, r2) /\
    r_messages r2 = r_messages r1 /\ r_message_capacity r2 = r_message_capacity r1 /\
    (b = true -> r_committed_entry_count r2 = c_commit_index c1 - c_apply_admitted_index c1 /\
     r_committed_entries r2 = log_slice (c_log c1) (c_apply_admitted_index c1 + 1)
       (Z.to_nat (c_commit_index c1 - c_apply_admitted_index c1))))
    as (r2 & -> & Em & Ec & En).
  { subst cr b. destruct (Z.ltb_spec (c_apply_admitted_index c1) (c_commit_index c1)).
    - eexists. do 3 (split; [done|]). intros _. record_simpl. word_simpl. done.
    - exists r1. split; [|done]. rewrite <- Hp. by destruct c1. }
  cbv beta iota zeta. set (r3 := r2 <| r_hard_state_changed := _ |> <| r_term := _ |>
    <| r_voted_for := _ |> <| r_role_changed := _ |> <| r_role := _ |>).
  set (o := negb (r_message_count r3 =? 0) || _ || _ || _ || _ || _ || _ || _).
  assert (b = true -> o = true) as Hout.
  { intros Hb'. destruct (En Hb') as [En' _]. subst o.
    change (r_committed_entry_count r3) with (r_committed_entry_count r2).
    unfold b in Hb'. replace (r_committed_entry_count r2 =? 0) with false by blia.
    by rewrite !orb_true_r. }
  assert (o = ready_effects r3) as Heffects by done.
  clearbody o. intros [= <- <- <-]. split; [done|]. constructor; try done.
  - apply (finish_inv c1 _ o Hi). destruct b eqn:E; [|by left]. right.
    split; [auto|]. unfold b in E. lia.
  - by apply (finish_grows c1 (if b then c_commit_index c1 else 0) o).
  - change (r_message_capacity r2 = r_message_capacity r). congruence.
  - intros Hone _. unfold fits, r_message_count in *.
    change (Z.of_nat (length (r_messages r2)) <= r_message_capacity r2).
    rewrite Em, Ec. auto.
  - intros _. split; [done|]. split; [done|]. subst r3. record_simpl.
    unfold before_of. cbn [before_term before_voted_for].
    rewrite orb_true_iff, !negb_true_iff, !Z.eqb_neq. clear.
    split; [intros [?|?] [= ? ?]; congruence|]. intros Hne.
    destruct (decide (c_term c = c_term c1)) as [E|]; [right|by left].
    intros E'. apply Hne. by rewrite E, E'.
  - intros _ Hlt. revert Hlt. record_simpl. intros Hlt.
    assert (b = true) as Hb' by (unfold b; blia). destruct (En Hb') as [En1 En2].
    rewrite Hb' in *. split; [by apply Hout|]. split; [done|].
    change (r_committed_entry_count r3) with (r_committed_entry_count r2).
    change (r_committed_entries r3) with (r_committed_entries r2). rewrite En1, En2.
    split; [done|]. split; [apply (log_slice_lookup _ _ _ 0%nat zero_entry); [done|lia|lia]|].
    intros k e. apply log_slice_lookup; [done|lia|lia].
  - destruct Hl as []. record_simpl. tauto.
Qed.

End Ongoing.

End Calls.

(** Opens a call: the case of a failed [tr_begin] is closed. *)
Ltac open_call Hi :=
  let res := fresh "res" in
  let before := fresh "before" in
  let Hb := fresh "Hb" in
  let Hne := fresh "Hne" in
  match goal with |- context [tr_begin ?c ?r] =>
    destruct (tr_begin c r) as [[[res c1] r1] before] eqn:Hb;
    apply (begin_spec c r _ _ _ _ Hi) in Hb
      as [(-> & Ho & -> & Hzero & Hc1)|(Hne & -> & ->)];
    [|destruct res; try done; intros [= <- <- <-]; by apply ongoing_begin_failed]
  end.

(** A guard that returns an error is closed, [H] is its negation. *)
Ltac refuse H :=
  match goal with |- (if ?b then _ else _) = _ -> _ =>
    destruct b eqn:H;
    [intros [= <- <- <-];
     first [by apply ongoing_begin_failed | by apply fail_call_post | by apply fail_reset_post]
    |]
  end.

(** Asks for capacity: the failure is closed. *)
Ltac ask_capacity Ho :=
  let res := fresh "res" in
  let Hb := fresh "Hb" in
  let Hne := fresh "Hne" in
  let Hp := fresh "Hp" in
  let c2 := fresh "c2" in
  let r2 := fresh "r2" in
  match goal with |- context [tr_require_capacity ?c ?r ?n] =>
    destruct (tr_require_capacity c r n) as [[res c2] r2] eqn:Hb;
    apply (require_capacity_spec _ _ _ _ _ _ _ _ Ho) in Hb
      as [(-> & -> & -> & Hroom)|(Hne & Hp)];
    [|destruct res; try done; intros [= <- <- <-]; exact Hp]
  end.

Section Operations.
Context {V : Type} `{VecLaws V}.
Implicit Types (c : tr_raft_core V) (r : tr_raft_ready).

(** ** Proposals *)

Lemma proposal_entries_range index term ps :
  forallb proposal_valid ps = true -> Forall entry_range (proposal_entries index term ps).
Proof.
  intros Hv. apply Forall_lookup. intros k e He. unfold proposal_entries in He.
  rewrite list_lookup_imap in He. destruct (ps !! k) as [p|] eqn:Hk; [|done].
  injection He as <-. intros Hz. exfalso. cbn in Hz.
  rewrite forallb_forall in Hv. specialize (Hv p).
  assert (In p ps) as Hin by (apply list_elem_of_In; by eapply list_elem_of_lookup_2).
  apply Hv in Hin. unfold proposal_valid in Hin. rewrite Hz in Hin. done.
Qed.

Lemma propose_batch_post c ps r result c' r' :
  core_inv c -> log_last (c_log c) + Z.of_nat (length ps) <= UINT64_MAX ->
  tr_raft_core_propose_batch c ps r = (result, c', r') -> call_post c r result c' r'.
Proof.
  intros Hi Hw. unfold tr_raft_core_propose_batch, fail_call, fail_reset.
  refuse Hg. refuse Hg2. open_call Hi.
  refuse Hr. apply negb_false_iff, role_eqb_eq in Hr. refuse Ht.
  ask_capacity Ho.
  destruct (tr_raft_log_append_local_batch _ _ _) as [[res log] slot] eqn:Hlog.
  pose proof (og_inv _ _ _ _ Ho) as Hi1.
  apply append_batch_spec in Hlog; [|apply Hi1|by rewrite Hc1].
  destruct (batch_fits _ _ _) eqn:Hfits.
  2: { destruct Hlog as (Hne & -> & ->).
       assert (c1 <| c_log := c_log c1 |> = c1) as -> by by destruct c1.
       destruct res; try done; intros [= <- <- <-]; by apply fail_reset_post. }
  destruct Hlog as (-> & -> & Hwf & [v ->] & Hel).
  destruct (extend_log_inv c1 v _ Hi1 Hwf Hel) as [Hi2 Hl2].
  { apply proposal_entries_range. unfold batch_fits in Hfits.
    by apply andb_true_iff in Hfits as [_ ?]. }
  cbv zeta. set (c2 := c1 <| c_log := _ |>) in *. set (es := _ <$> seq 0 _).
  set (c3 := set_next _ _ _).
  assert (quiet c2 c3) as Hq by (etrans; [apply quiet_set_match|apply quiet_set_next]).
  assert (c_role c2 = TR_RAFT_LEADER) as Hr2 by done.
  assert (safe c1 c2) as Hs2 by done. clearbody c3 c2 es.
  set (r2 := r1 <| r_log_changed := _ |> <| r_log_entries := _ |> <| r_log_entry_count := _ |>).
  destruct (safe_quiet _ _ Hq Hi2) as [Hi3 Hl3].
  destruct (update_commit_spec c3 r2 Hi3) as (c4 & r4 & -> & Hi4 & Hl4 & Ha4 & _).
  { left. by rewrite (same_role Hq). }
  assert (ongoing c r c4 r4) as Ho4.
  { eapply ongoing_safe; [exact Ho| |].
    - intros _. split; [done|]. etrans; [apply Hl2|]. by etrans.
    - transitivity r2; [done|]. by apply adds_0_keeps_fit. }
  pose proof (ongoing_frames _ _ _ _ _ Ho4 (broadcast_replication_frames c4 r4)) as Ho5.
  destruct (tr_broadcast_replication c4 r4) as [c5 r5]. cbn [fst snd] in Ho5.
  intros Hfin. by eapply finish_post in Hfin as [_ ?].
Qed.

(** ** Membership *)

(** The target of a membership change has the widths of the code. *)
Definition change_ok (change : tr_raft_membership_change) : Prop :=
  0 <= mc_transition_id change < 2 ^ 64 /\
  ids_nonneg (array_elems (mc_voters change) (mc_voter_count change)) /\
  ids_nonneg (array_elems (mc_learners change) (mc_learner_count change)).

(** A call that ends with a configuration entry. *)
Lemma configuration_post c r c1 r1 conf result c' r' :
  ongoing c r c1 r1 -> c_role c1 = TR_RAFT_LEADER -> conf_in_range conf ->
  log_last (c_log c1) < UINT64_MAX ->
  match tr_core_append_configuration c1 conf r1 with
  | (SALTS_OK, c2, r2) => tr_finish c2 r2 (before_of c)
  | (res, c2, r2) => (res, c2 <| c_in_call := false |>, tr_reset_ready r2)
  end = (result, c', r') -> call_post c r result c' r'.
Proof.
  intros Ho Hr Hrange Hw.
  destruct (tr_core_append_configuration c1 conf r1) as [[res c2] r2] eqn:Happ.
  apply core_append_configuration_safe in Happ as (Hi2 & Hl2 & Hcap & Hf2); try done;
    [|apply Ho].
  destruct (decide (res = SALTS_OK)) as [->|Hne].
  - assert (ongoing c r c2 r2) as Ho2.
    { eapply ongoing_safe; [done|by intros _|by apply Hf2]. }
    intros Hfin. by eapply finish_post in Hfin as [_ ?].
  - assert (ongoing c r c2 (tr_reset_ready r2)) as Ho2.
    { destruct Ho. constructor; try done; [by etrans| |].
      - cbn. congruence.
      - intros ?. unfold fits, r_message_count. cbn. lia. }
    destruct res; try done; intros [= <- <- <-]; by apply (fail_call_post c r).
Qed.

(** A proposed configuration is in range. *)
Lemma transition_propose_range c change joint :
  core_inv c -> change_ok change ->
  tr_raft_membership_transition_propose (c_membership_transition c)
    (mc_voters change) (mc_voter_count change) (mc_learners change)
    (mc_learner_count change) (mc_transition_id change) = (SALTS_OK, joint) ->
  exists j, joint = Some j /\ conf_in_range j.
Proof.
  intros Hi (Hid & Hv & Hl) Hprop. unfold tr_raft_membership_transition_propose in Hprop.
  case_match; [done|]. destruct joint as [j|].
  - exists j. split; [done|]. apply joint_in_range in Hprop as [? _]; try done. apply Hi.
  - unfold tr_raft_membership_joint in Hprop. by repeat case_match.
Qed.

Lemma change_membership_post c change r result c' r' :
  core_inv c -> log_last (c_log c) < UINT64_MAX -> change_ok change ->
  tr_raft_core_change_membership c change r = (result, c', r') ->
  call_post c r result c' r'.
Proof.
  intros Hi Hw Hok. unfold tr_raft_core_change_membership, fail_call, fail_reset.
  refuse Hg. open_call Hi. refuse Hr. apply negb_false_iff, role_eqb_eq in Hr. refuse Hg2.
  destruct (tr_raft_membership_transition_propose _ _ _ _ _ _) as [res joint] eqn:Hprop.
  destruct (decide (res = SALTS_OK)) as [->|Hne].
  2: { destruct res; try done; intros [= <- <- <-]; by apply fail_reset_post. }
  pose proof (og_inv _ _ _ _ Ho) as Hi1.
  apply transition_propose_range in Hprop as (j & -> & Hj); [|done..].
  apply configuration_post; try done. by rewrite Hc1.
Qed.

(** ** Leadership transfer *)

Lemma transfer_leadership_post c id r result c' r' :
  core_inv c -> tr_raft_core_transfer_leadership c id r = (result, c', r') ->
  call_post c r result c' r'.
Proof.
  intros Hi. unfold tr_raft_core_transfer_leadership, fail_call.
  refuse Hg. cbv zeta. refuse Hg2. open_call Hi. refuse Hr. refuse Hb.
  ask_capacity Ho. set (c2 := c1 <| c_leadership_transfer_target := _ |>
    <| c_leadership_transfer_elapsed_ticks := _ |>).
  assert (quiet c1 c2) as Hq.
  { etrans; [apply quiet_leadership_transfer_target|].
    apply quiet_leadership_transfer_elapsed_ticks. }
  clearbody c2. pose proof (ongoing_quiet _ _ _ _ _ Ho Hq) as Ho2.
  destruct (_ <=? match_at c2 _).
  - pose proof (emit_adds c2 r1 TR_RAFT_MSG_TIMEOUT_NOW id false) as He.
    destruct (tr_emit _ _ _ _ _) as [sent r2]. destruct He as [_ He].
    intros Hfin. eapply finish_post in Hfin as [_ ?]; [done|].
    eapply ongoing_room; [exact Ho2|apply safe_quiet, quiet_leadership_transfer_sent|done..|].
    destruct sent; lia.
  - pose proof (emit_replication_frames c2 r1 (tr_voter_index c id) false) as Hf.
    destruct (tr_emit_replication _ _ _ _) as [[sent c3] r3].
    apply (ongoing_frames _ _ _ _ _ Ho2) in Hf.
    intros Hfin. eapply finish_post in Hfin as [_ ?]; [done|].
    eapply ongoing_quiet; [exact Hf|apply quiet_leadership_transfer_sent].
Qed.

(** ** Reads *)

Lemma read_pending_quiet c x :
  tr_read_total_count c < c_max_pending_reads c ->
  quiet c (c <| c_pending_read_contexts := c_pending_read_contexts c ++ [x] |>).
Proof.
  intros Hlt. split; [done|]. intros []. constructor; try done.
  unfold tr_read_total_count, c_pending_read_count, c_waiting_read_count in *.
  record_simpl. rewrite length_app. cbn [length]. lia.
Qed.

Lemma read_waiting_quiet c x :
  tr_read_total_count c < c_max_pending_reads c ->
  quiet c (c <| c_waiting_read_contexts := c_waiting_read_contexts c ++ [x] |>).
Proof.
  intros Hlt. split; [done|]. intros []. constructor; try done.
  unfold tr_read_total_count, c_pending_read_count, c_waiting_read_count in *.
  record_simpl. rewrite length_app. cbn [length]. lia.
Qed.

Lemma no_pending_reads c : c_pending_read_count c = 0 -> c_pending_read_contexts c = [].
Proof. unfold c_pending_read_count. intros. apply nil_length_inv. lia. Qed.

(** The barrier of the waiting reads, with the capacity of its broadcast. *)
Lemma barrier_ongoing c r c1 r1 c0 :
  ongoing c r c1 r1 -> quiet c1 c0 -> c_pending_read_contexts c0 = [] ->
  r_message_count r1 = 0 ->
  tr_unpaused_remote_voter_count c0 <= r_message_capacity r1 ->
  let '(c2, r2) := tr_read_start_active_barrier (tr_read_move_waiting_to_active c0) r1 in
  ongoing c r c2 r2.
Proof.
  intros Ho Hq Hp Hz Hroom. pose proof (ongoing_quiet _ _ _ _ _ Ho Hq) as Ho0.
  pose proof (read_start_barrier_spec (tr_read_move_waiting_to_active c0) r1
    (peers_wf c0 (proj1 (og_inv _ _ _ _ Ho0)))) as Hb.
  destruct (tr_read_start_active_barrier _ r1) as [c2 r2]. destruct Hb as [Hq2 Ha].
  eapply ongoing_room; [exact Ho0| |exact Ha|done|done].
  apply safe_quiet. etrans; [by apply read_move_waiting_quiet|done].
Qed.

Lemma read_index_post c id r result c' r' :
  core_inv c -> tr_raft_core_read_index c id r = (result, c', r') ->
  call_post c r result c' r'.
Proof.
  intros Hi. unfold tr_raft_core_read_index, fail_call. refuse Hg. open_call Hi.
  refuse Hr. refuse Hb. refuse He. refuse Hm. apply Z.leb_gt in Hm.
  destruct (negb (c_pending_read_count c1 =? 0)) eqn:Hp.
  - intros Hfin. eapply finish_post in Hfin as [_ ?]; [done|].
    eapply ongoing_quiet; [exact Ho|].
    case_match; [by apply read_pending_quiet|by apply read_waiting_quiet].
  - apply negb_false_iff, Z.eqb_eq in Hp. ask_capacity Ho.
    pose proof (barrier_ongoing c r c1 r1 _ Ho (read_waiting_quiet c1 id Hm)
      (no_pending_reads c1 Hp) Hzero Hroom) as Ho2.
    destruct (tr_read_start_active_barrier _ r1) as [c2 r2].
    intros Hfin. by eapply finish_post in Hfin as [_ ?].
Qed.

Lemma poll_post c r result c' r' :
  core_inv c -> tr_raft_core_poll c r = (result, c', r') -> call_post c r result c' r'.
Proof.
  intros Hi. unfold tr_raft_core_poll. open_call Hi.
  destruct (role_eqb _ _ && _ && _) eqn:Hg.
  - rewrite !andb_true_iff, Z.eqb_eq in Hg. destruct Hg as [[_ Hp] _].
    destruct (tr_require_capacity c1 r1 _) as [[res c2] r2] eqn:Hb.
    apply (require_capacity_spec _ _ _ _ _ _ _ _ Ho) in Hb
      as [(-> & -> & -> & Hroom)|(Hne & Hpost)].
    2: { destruct res; try done; by intros [= <- <- <-]. }
    pose proof (barrier_ongoing c r c1 r1 c1 Ho (reflexivity c1)
      (no_pending_reads c1 Hp) Hzero Hroom) as Ho2.
    destruct (tr_read_start_active_barrier _ r1) as [c2 r2].
    pose proof (ongoing_frames _ _ _ _ _ Ho2 (fill_replication_windows_frames c2 r2)) as Ho3.
    destruct (tr_fill_replication_windows c2 r2) as [c3 r3].
    intros Hfin. by eapply finish_post in Hfin as [_ ?].
  - pose proof (ongoing_frames _ _ _ _ _ Ho (fill_replication_windows_frames c1 r1)) as Ho3.
    destruct (tr_fill_replication_windows c1 r1) as [c3 r3].
    intros Hfin. by eapply finish_post in Hfin as [_ ?].
Qed.

End Operations.
