(* ===== verification/CoreTime.v ===== *)
(** * Time, messages and snapshots

    The calls [tr_raft_core_tick], [tr_raft_core_step] and
    [tr_raft_core_snapshot_completed] keep the promises of [call_post]. *)

From S2P Require Import Prelude Configuration Membership PeerSet Transition Window Vec.
From S2P Require Import Log CoreState CoreEmit CoreElection CoreSteps CoreApi CoreFrame.
From S2P Require Import CoreInvariant CoreSafety CoreFollower CoreCalls.
From Stdlib Require Import ZArith Lia.
From stdpp Require Import base numbers list tactics.
Open Scope Z_scope.
Open Scope raft_scope.

Section Time.
Context {V : Type} `{VecLaws V}.
Implicit Types (c : tr_raft_core V) (r : tr_raft_ready) (m : tr_raft_message).

(** ** Time *)

Lemma tick_inflight_wf n i w ticks limit :
  window_wf w -> window_wf (snd (tick_inflight n i w ticks limit)).
Proof.
  revert i w. induction n as [|n IH]; intros i w Hw; cbn [tick_inflight]; [done|].
  case_match; [done|]. apply IH. destruct Hw. constructor; try done.
  cbn. by rewrite length_array_set.
Qed.

Lemma tick_window_quiet ticks c i : quiet c (tick_window ticks c i).
Proof.
  unfold tick_window. destruct (_ || _); [done|].
  pose proof (tick_inflight_wf (Z.to_nat (w_count (window_at c i))) 0 (window_at c i)
    ticks (c_heartbeat_ticks c)) as Hw.
  destruct (tick_inflight _ _ _ _ _) as [timed_out w]. cbn [snd] in Hw.
  set (c1 := set_window c i w).
  assert (quiet c c1) as Hq.
  { apply quiet_set_window. intros Hws. by apply Hw, window_at_wf. }
  clearbody c1. destruct timed_out; [|done]. etrans; [done|].
  etrans; [apply quiet_set_next|]. apply quiet_set_window. intros _. apply window_wf_reset.
Qed.

Lemma tick_transfer_quiet ticks c : quiet c (tick_transfer ticks c).
Proof.
  unfold tick_transfer. destruct (negb _); [|done].
  destruct (timer_expired _ _ _).
  - etrans; [apply quiet_leadership_transfer_target|].
    etrans; [apply quiet_leadership_transfer_elapsed_ticks|].
    apply quiet_leadership_transfer_sent.
  - apply quiet_leadership_transfer_elapsed_ticks.
Qed.

Lemma tick_check_quorum_quiet ticks c c' :
  tick_check_quorum ticks c = Some c' -> quiet c c'.
Proof.
  unfold tick_check_quorum. destruct (timer_expired _ _ _).
  - destruct (negb _); [done|]. intros [= <-].
    etrans; [apply quiet_check_quorum_elapsed_ticks|apply quiet_recent_active].
  - intros [= <-]. apply quiet_check_quorum_elapsed_ticks.
Qed.

Lemma tick_leader_post c r c1 r1 ticks n result c' r' :
  ongoing c r c1 r1 ->
  tick_leader ticks n c1 r1 (before_of c) = (result, c', r') -> call_post c r result c' r'.
Proof.
  intros Ho. unfold tick_leader.
  destruct (tick_check_quorum ticks c1) as [c2|] eqn:Hcq.
  2: { intros Hfin. eapply finish_post in Hfin as [_ ?]; [done|].
       eapply ongoing_safe; [exact Ho| |done]. apply become_follower_safe.
       apply (ki_term c1). apply Ho. }
  apply tick_check_quorum_quiet in Hcq.
  set (c3 := fold_left _ _ _).
  assert (quiet c1 c3) as Hq.
  { etrans; [exact Hcq|]. etrans; [apply tick_transfer_quiet|]. apply quiet_fold.
    intros x i. apply tick_window_quiet. }
  clearbody c3. pose proof (ongoing_quiet _ _ _ _ _ Ho Hq) as Ho3.
  destruct (timer_expired _ _ _).
  - destruct (tr_require_capacity c3 r1 n) as [[res c4] r4] eqn:Hb.
    apply (require_capacity_spec _ _ _ _ _ _ _ _ Ho3) in Hb
      as [(-> & -> & -> & Hroom)|(Hne & Hp)].
    2: { destruct res; try done; by intros [= <- <- <-]. }
    pose proof (ongoing_quiet _ _ _ _ _ Ho3 (quiet_heartbeat_elapsed_ticks c3 0)) as Ho4.
    set (c4 := c3 <| c_heartbeat_elapsed_ticks := 0 |>) in *. clearbody c4.
    pose proof (ongoing_frames _ _ _ _ _ Ho4 (broadcast_replication_frames c4 r1)) as Ho5.
    destruct (tr_broadcast_replication c4 r1) as [c5 r5].
    intros Hfin. by eapply finish_post in Hfin as [_ ?].
  - intros Hfin. eapply finish_post in Hfin as [_ ?]; [done|].
    eapply ongoing_quiet; [exact Ho3|apply quiet_heartbeat_elapsed_ticks].
Qed.

Lemma transition_final_range c final :
  core_inv c ->
  tr_raft_membership_transition_final (c_membership_transition c) = (SALTS_OK, final) ->
  exists f, final = Some f /\ conf_in_range f.
Proof.
  intros Hi. unfold tr_raft_membership_transition_final. case_match; [done|].
  intros Hf. destruct final as [f|].
  - exists f. split; [done|]. eapply final_in_range; [|exact Hf]. apply Hi.
  - unfold tr_raft_membership_final in Hf. by case_match.
Qed.

Lemma tick_post c tick r result c' r' :
  core_inv c -> log_last (c_log c) < UINT64_MAX ->
  tr_raft_core_tick c tick r = (result, c', r') -> call_post c r result c' r'.
Proof.
  intros Hi Hw. unfold tr_raft_core_tick, fail_call, fail_reset. cbv zeta.
  refuse Hg. open_call Hi. refuse Hv.
  destruct (role_eqb (c_role c1) TR_RAFT_LEADER) eqn:Hr; cbn [andb].
  - apply role_eqb_eq in Hr.
    destruct (tr_raft_membership_transition_needs_final _); [|by apply tick_leader_post].
    destruct (tr_raft_membership_transition_final _) as [res final] eqn:Hf.
    destruct (decide (res = SALTS_OK)) as [->|Hne].
    2: { destruct res; try done; intros [= <- <- <-]; by apply fail_reset_post. }
    apply transition_final_range in Hf as (f & -> & Hrange); [|apply Ho].
    apply configuration_post; try done. by rewrite Hc1.
  - destruct (negb (c_self_is_voter c1)) eqn:Hvoter.
    { intros Hfin. eapply finish_post in Hfin as [_ ?]; [done|].
      eapply ongoing_quiet; [exact Ho|]. case_match; [|apply quiet_election_elapsed_ticks].
      etrans; [apply quiet_election_elapsed_ticks|apply quiet_election_timeout_ticks]. }
    apply negb_false_iff in Hvoter.
    destruct (timer_expired _ _ _).
    2: { intros Hfin. eapply finish_post in Hfin as [_ ?]; [done|].
         eapply ongoing_quiet; [exact Ho|apply quiet_election_elapsed_ticks]. }
    refuse Ht. ask_capacity Ho. set (c2 := c1 <| c_election_elapsed_ticks := _ |>
      <| c_election_timeout_ticks := _ |>).
    assert (quiet c1 c2) as Hq.
    { etrans; [apply quiet_election_elapsed_ticks|apply quiet_election_timeout_ticks]. }
    assert (tr_unpaused_remote_voter_count c2 <= r_message_capacity r1) as Hroom2.
    { etrans; [apply unpaused_voters_le_peers|done]. }
    clearbody c2. pose proof (ongoing_quiet _ _ _ _ _ Ho Hq) as Ho2.
    destruct (tr_start_pre_vote c2 r1) as [c3 r3] eqn:Hpv.
    pose proof (og_inv _ _ _ _ Ho2) as Hi2.
    intros Hfin. eapply finish_post in Hfin as [_ ?]; [done|].
    eapply ongoing_safe; [exact Ho2| |].
    + eapply start_pre_vote_safe; [by rewrite (same_self_is_voter Hq)| |exact Hpv].
      pose proof (ki_term c1 (proj1 (og_inv _ _ _ _ Ho))). rewrite (same_term Hq). lia.
    + apply start_pre_vote_spec in Hpv as [_ Hfit]; [|apply peers_wf, Hi2].
      apply Hfit. unfold room. lia.
Qed.

(** ** Snapshots *)

Lemma snapshot_completed_post c id i r result c' r' :
  core_inv c -> tr_raft_core_snapshot_completed c id i r = (result, c', r') ->
  call_post c r result c' r'.
Proof.
  intros Hi. unfold tr_raft_core_snapshot_completed, fail_call. cbv zeta.
  refuse Hg. refuse Hg2. open_call Hi. refuse Hr. ask_capacity Ho.
  set (c2 := if _ <? i then _ else c1).
  assert (quiet c1 c2) as Hq2.
  { subst c2. destruct (match_at c1 _ <? i); [apply quiet_set_match|done]. }
  clearbody c2. set (c3 := set_next _ _ _). set (c4 := set_window c3 _ _).
  assert (quiet c1 c4) as Hq.
  { etrans; [done|]. etrans; [apply quiet_set_next|]. apply quiet_set_window.
    intros _. apply window_wf_reset. }
  clearbody c4. pose proof (ongoing_quiet _ _ _ _ _ Ho Hq) as Ho4.
  pose proof (ongoing_frames _ _ _ _ _ Ho4
    (fill_peer_window_frames c4 r1 (tr_peer_index c id))) as Ho5.
  destruct (tr_fill_peer_replication_window c4 r1 _) as [c5 r5].
  intros Hfin. by eapply finish_post in Hfin as [_ ?].
Qed.

(** ** Messages *)

Lemma pre_vote_response_fit c m i r c' r' :
  core_inv c -> tr_step_pre_vote_response c m r i = (c', r') ->
  r_message_count r = 0 ->
  (if tr_will_pre_vote_win c m i then tr_unpaused_remote_peer_count c else 0)
    <= r_message_capacity r ->
  keeps_fit r r'.
Proof.
  intros Hi. unfold tr_step_pre_vote_response, tr_will_pre_vote_win.
  destruct (Z.ltb_spec (c_term c) (m_term m)); [by intros [= _ <-]|].
  destruct (_ || _) eqn:Hg; [by intros [= _ <-]|].
  rewrite !orb_false_iff, !negb_false_iff in Hg. destruct Hg as [[[-> ->] ->] ->].
  replace (m_term m <=? c_term c) with true by blia. cbn [andb].
  set (c1 := c <| c_pre_votes := _ |>).
  rewrite <- (has_quorum_ext c c1) by done.
  change (Z.lor (c_pre_votes c) (bit32 i)) with (c_pre_votes c1).
  destruct (tr_core_has_quorum c1 (c_pre_votes c1)); [|by intros [= _ <-]].
  intros Heq Hz Hroom. apply start_election_spec in Heq as [_ Hf]; [|exact (peers_wf c (proj1 Hi))].
  apply Hf. unfold room. pose proof (unpaused_voters_le_peers c).
  change (tr_unpaused_remote_voter_count c1) with (tr_unpaused_remote_voter_count c). lia.
Qed.

Lemma step_vote_response_fit c m i r c' r' :
  tr_step_vote_response c m r i = (c', r') -> keeps_fit r r'.
Proof.
  unfold tr_step_vote_response. destruct (_ <? _); [by intros [= _ <-]|].
  destruct (_ || _); [by intros [= _ <-]|]. set (c1 := c <| c_votes := _ |>).
  destruct (tr_core_has_quorum _ _); [|by intros [= _ <-]].
  pose proof (become_leader_frames c1 r) as [_ Hf]. intros Heq. by rewrite Heq in Hf.
Qed.

Lemma step_timeout_now_fit c m r c' r' :
  core_inv c -> tr_step_timeout_now c m r = (c', r') ->
  r_message_count r = 0 -> 
  (if c_self_is_voter c && role_eqb (c_role c) TR_RAFT_FOLLOWER &&
      (m_term m =? c_term c) && (c_leader_id c =? m_from m) &&
      negb (c_term c =? UINT64_MAX)
   then tr_unpaused_remote_voter_count c else 0) <= r_message_capacity r ->
  keeps_fit r r'.
Proof.
  intros Hi. unfold tr_step_timeout_now. destruct (_ || _) eqn:Hg; [by intros [= _ <-]|].
  rewrite !orb_false_iff, !negb_false_iff in Hg. destruct Hg as [[[[-> ->] ->] ->] ->].
  cbn [andb negb]. set (c1 := c <| c_campaign_term := _ |> <| c_election_elapsed_ticks := _ |>).
  intros Heq Hz Hroom. apply start_election_spec in Heq as [_ Hf]; [|exact (peers_wf c (proj1 Hi))].
  apply Hf. unfold room.
  change (tr_unpaused_remote_voter_count c1) with (tr_unpaused_remote_voter_count c). lia.
Qed.

Lemma step_vote_request_adds c m r c' r' :
  tr_step_vote_request c m r = (c', r') -> adds 1 r r'.
Proof.
  unfold tr_step_vote_request. set (c0 := if _ <? _ then _ else c). clearbody c0.
  assert (forall x g, adds 1 r (snd (tr_emit x r TR_RAFT_MSG_VOTE_RESPONSE (m_from m) g)))
    as He.
  { intros x g. pose proof (emit_adds x r TR_RAFT_MSG_VOTE_RESPONSE (m_from m) g) as He.
    destruct (tr_emit _ _ _ _ _) as [[] r1]; destruct He as [_ (? & ? & ?)]; cbn [snd];
      (split; [done|]; split; [done|]; lia). }
  destruct (_ && _); intros [= _ <-]; apply He.
Qed.

Lemma step_pre_vote_request_adds c m r c' r' :
  tr_step_pre_vote_request c m r = (c', r') -> adds 1 r r'.
Proof.
  unfold tr_step_pre_vote_request. intros [= _ <-]. set (x := c <| c_campaign_term := _ |>).
  set (g := _ && _ && _). clearbody x g.
  pose proof (emit_adds x r TR_RAFT_MSG_PRE_VOTE_RESPONSE (m_from m) g) as He.
  destruct (tr_emit _ _ _ _ _) as [[] r1]; destruct He as [_ (? & ? & ?)]; cbn [snd];
    (split; [done|]; split; [done|]; lia).
Qed.

Lemma step_read_index_request_adds c m r c' r' :
  tr_step_read_index_request c m r = (c', r') -> adds 1 r r'.
Proof.
  unfold tr_step_read_index_request.
  assert (adds 1 r r) by (split; [done|]; split; [done|]; lia).
  destruct (_ || _); [by intros [= _ <-]|].
  match goal with |- context [update_last ?f _] =>
    pose proof (emit_then_adds c r TR_RAFT_MSG_READ_INDEX_RESPONSE (m_from m) false f) as He
  end.
  destruct (tr_emit _ _ _ _ _) as [[] r1]; intros [= _ <-];
    destruct (He _ eq_refl) as (? & ? & ?);
    (split; [done|]; split; [done|]; destruct (tr_peer_paused _ _); lia).
Qed.

Lemma u64_le x : 0 <= x -> u64 x <= x.
Proof. intros. unfold u64. by apply Z.mod_le. Qed.

Lemma step_read_index_response_fit c m i r c' r' :
  core_inv c -> tr_step_read_index_response c m r i = (c', r') ->
  r_message_count r = 0 ->
  r_message_capacity r' = r_message_capacity r /\ (1 <= r_message_capacity r -> fits r').
Proof.
  intros Hi Heq Hz. revert Heq. unfold tr_step_read_index_response.
  assert (forall x, (x, r) = (c', r') ->
    r_message_capacity r' = r_message_capacity r /\ (1 <= r_message_capacity r -> fits r'))
    as Hsame.
  { intros x [= _ <-]. split; [done|]. unfold fits. lia. }
  destruct (_ <? _); [by apply Hsame|]. destruct (_ || _); [by apply Hsame|].
  set (c1 := c <| c_pending_read_acks := _ |>).
  assert (ids_wf (c_peers c1)) as Hp by exact (peers_wf c (proj1 Hi)). clearbody c1.
  destruct (tr_core_has_quorum _ _); [|by apply Hsame].
  assert (exists c2 r2, tr_read_emit_active c1 r = (c2, r2) /\
    tr_unpaused_remote_voter_count c2 = tr_unpaused_remote_voter_count c1 /\
    c_peers c2 = c_peers c1 /\ r_message_count r2 = 0 /\
    r_message_capacity r2 = r_message_capacity r) as (c2 & r2 & -> & Hv & Hp2 & Hz2 & Hc2).
  { eexists _, _. split; [done|]. split; [done|]. split; [done|].
    by destruct (_ <$> _). }
  rewrite Hz2, Hc2. destruct (_ && _) eqn:Hg.
  - apply andb_true_iff in Hg as [_ Hg].
    pose proof (read_start_barrier_spec (tr_read_move_waiting_to_active c2) r2) as Hb.
    change (c_peers (tr_read_move_waiting_to_active c2)) with (c_peers c2) in Hb.
    rewrite Hp2 in Hb. specialize (Hb Hp).
    change (tr_unpaused_remote_voter_count (tr_read_move_waiting_to_active c2))
      with (tr_unpaused_remote_voter_count c2) in Hb.
    intros Heq. rewrite Heq in Hb. destruct Hb as (_ & Hc & _ & Hn). rewrite Hc, Hc2.
    split; [done|]. intros H1. unfold fits. rewrite Hc, Hc2.
    pose proof (u64_le (r_message_capacity r) ltac:(lia)). rewrite Z.sub_0_r in Hg. lia.
  - intros [= _ <-]. split; [done|]. unfold fits. lia.
Qed.

(** How a handler ends: it goes on to [tr_finish], or it has failed. *)
Definition handled c r (result : status) c' r' : Prop :=
  if decide (result = SALTS_OK) then ongoing c r c' r' else call_post c r result c' r'.

Section Dispatch.
Context (c : tr_raft_core V) (r : tr_raft_ready) (c1 : tr_raft_core V) (r1 : tr_raft_ready)
  (m : tr_raft_message).
Context (Ho : ongoing c r c1 r1) (Hm : message_ok m) (Hz : r_message_count r1 = 0).

Lemma handled_ok x rx result c2 r2 :
  (SALTS_OK, x, rx) = (result, c2, r2) -> ongoing c r x rx -> handled c r result c2 r2.
Proof. intros [= <- <- <-] Hx. unfold handled. by rewrite decide_True. Qed.

Lemma handled_failed result c2 r2 :
  result <> SALTS_OK -> call_post c r result c2 r2 -> handled c r result c2 r2.
Proof. intros Hne Hp. unfold handled. by rewrite decide_False. Qed.

Lemma one_message x rx : safe c1 x -> adds 1 r1 rx -> ongoing c r x rx.
Proof. intros Hs Ha. destruct (Hs (og_inv _ _ _ _ Ho)). by eapply ongoing_adds. Qed.

Lemma heartbeat_request_handled result c2 r2 :
  match tr_step_heartbeat_request c1 m r1 with
  | (SALTS_OK, c, r) => (SALTS_OK, c, r)
  | (res, c, r) => (res, c <| c_in_call := false |>, tr_reset_ready r)
  end = (result, c2, r2) -> handled c r result c2 r2.
Proof.
  destruct (tr_step_heartbeat_request c1 m r1) as [[res x] rx] eqn:E.
  apply step_heartbeat_request_safe in E as (Hx & Hl & Hcap & Ha); [|apply Ho|done].
  destruct (decide (res = SALTS_OK)) as [->|Hne].
  - intros Heq. apply (handled_ok _ _ _ _ _ Heq). apply one_message; [done|auto].
  - assert (ongoing c r x (tr_reset_ready rx)) as Hx'.
    { destruct Ho. constructor; try done; [by etrans| |].
      - cbn. congruence.
      - intros ?. unfold fits, r_message_count. cbn. lia. }
    destruct res; try done; intros [= <- <- <-];
      (apply handled_failed; [done|by apply (fail_call_post c r)]).
Qed.

Lemma heartbeat_response_handled pi result c2 r2 :
  match tr_step_heartbeat_response c1 m r1 pi with
  | (SALTS_OK, c, r) => (SALTS_OK, c, r)
  | (res, c, r) => (res, c <| c_in_call := false |>, tr_reset_ready r)
  end = (result, c2, r2) -> handled c r result c2 r2.
Proof.
  destruct (tr_step_heartbeat_response c1 m r1 pi) as [[res x] rx] eqn:E.
  apply step_heartbeat_response_safe in E as (-> & Hx & Hl & Ha); [|apply Ho|done].
  intros Heq. apply (handled_ok _ _ _ _ _ Heq). destruct Ha as [Ha|Ha].
  - eapply ongoing_safe; [exact Ho|done|done].
  - by apply one_message.
Qed.

Lemma read_index_response_handled vi result c2 r2 :
  (let '(x, rx) := tr_step_read_index_response c1 m r1 vi in (SALTS_OK, x, rx)) =
    (result, c2, r2) -> handled c r result c2 r2.
Proof.
  destruct (tr_step_read_index_response c1 m r1 vi) as [x rx] eqn:E.
  intros Heq. apply (handled_ok _ _ _ _ _ Heq).
  pose proof (og_inv _ _ _ _ Ho) as Hi1.
  destruct (step_read_index_response_fit c1 m vi r1 x rx Hi1 E Hz) as [Hcap Hfit].
  destruct (step_read_index_response_safe c1 m r1 vi x rx Hm E Hi1) as [Hx Hl].
  destruct Ho. constructor; try done; [by etrans|congruence|].
  intros ?. apply Hfit. by rewrite og_capacity.
Qed.

Lemma dispatch_post pi vi n result c2 r2 :
  step_required c1 m vi = Some n -> n <= r_message_capacity r1 -> 
  step_dispatch c1 m r1 pi vi = (result, c2, r2) -> handled c r result c2 r2.
Proof.
  intros Hn Hroom. pose proof (og_inv _ _ _ _ Ho) as Hi1.
  unfold step_dispatch, step_required, fail_call, fail_reset in *.
  destruct (m_type m) eqn:Ht; try done; injection Hn as Hn.
  - destruct (tr_step_pre_vote_request c1 m r1) as [x rx] eqn:E. intros Heq.
    apply (handled_ok _ _ _ _ _ Heq), one_message;
      [by eapply step_pre_vote_request_safe|by eapply step_pre_vote_request_adds].
  - destruct (tr_step_pre_vote_response c1 m r1 vi) as [x rx] eqn:E. intros Heq.
    apply (handled_ok _ _ _ _ _ Heq). eapply ongoing_safe; [exact Ho| |].
    + by eapply step_pre_vote_response_safe.
    + subst n. by eapply pre_vote_response_fit.
  - destruct (tr_step_vote_request c1 m r1) as [x rx] eqn:E. intros Heq.
    apply (handled_ok _ _ _ _ _ Heq), one_message;
      [by eapply step_vote_request_safe|by eapply step_vote_request_adds].
  - destruct (tr_step_vote_response c1 m r1 vi) as [x rx] eqn:E. intros Heq.
    apply (handled_ok _ _ _ _ _ Heq). eapply ongoing_safe; [exact Ho| |];
      [by eapply step_vote_response_safe|by eapply step_vote_response_fit].
  - clear Hn. destruct (_ || _); [|apply heartbeat_request_handled]. intros [= <- <- <-].
    apply handled_failed; [done|by apply fail_call_post].
  - apply heartbeat_response_handled.
  - clear Hn. destruct (_ || _); [|apply heartbeat_request_handled]. intros [= <- <- <-].
    apply handled_failed; [done|by apply fail_call_post].
  - apply heartbeat_response_handled.
  - destruct (tr_step_timeout_now c1 m r1) as [x rx] eqn:E. intros Heq.
    apply (handled_ok _ _ _ _ _ Heq). eapply ongoing_safe; [exact Ho| |].
    + by eapply step_timeout_now_safe.
    + subst n. by eapply step_timeout_now_fit.
  - destruct (tr_step_read_index_request c1 m r1) as [x rx] eqn:E. intros Heq.
    apply (handled_ok _ _ _ _ _ Heq), one_message.
    + by apply step_read_index_request_safe in E as ->.
    + by eapply step_read_index_request_adds.
  - apply read_index_response_handled.
Qed.

End Dispatch.

Lemma step_post c m r result c' r' :
  core_inv c -> message_ok m ->
  tr_raft_core_step c m r = (result, c', r') -> call_post c r result c' r'.
Proof.
  intros Hi Hm. unfold tr_raft_core_step, fail_call. cbv zeta.
  refuse Hg. refuse Hg2. refuse Hg3. open_call Hi.
  destruct (step_required c1 m _) as [n|] eqn:Hn;
    [|intros [= <- <- <-]; by apply fail_call_post].
  ask_capacity Ho.
  destruct (step_dispatch c1 m r1 _ _) as [[res c2] r2] eqn:Hd.
  eapply dispatch_post in Hd; [|exact Ho|done|done|exact Hn|done]. unfold handled in Hd.
  destruct (decide (res = SALTS_OK)) as [->|Hne].
  - intros Hfin. by eapply finish_post in Hfin as [_ ?].
  - destruct res; try done; by intros [= <- <- <-].
Qed.

End Time.
