(* ===== verification/CoreReach.v ===== *)
(** * Creation, acknowledgement and runs of the core

    [tr_raft_core_create] establishes the invariant, the calls without a ready
    keep it, and [core_call] is any call of the interface: a run of the core is
    a sequence of them. *)

From S2P Require Import Prelude Configuration Membership PeerSet Transition Window Vec.
From S2P Require Import Log CoreState CoreEmit CoreElection CoreSteps CoreApi CoreFrame.
From S2P Require Import CoreInvariant CoreSafety CoreFollower CoreCalls CoreTime.
From Stdlib Require Import ZArith Lia.
From stdpp Require Import base numbers list tactics relations.
Open Scope Z_scope.
Open Scope raft_scope.

Section Acknowledge.
Context {V : Type} `{VecLaws V}.
Implicit Types (c : tr_raft_core V).

(** What the calls without a ready promise. *)
Definition quiet_post c c' : Prop :=
  core_inv c' /\ grows c c' /\ (c_in_call c = false -> c_in_call c' = false).

Lemma quiet_post_refl c : core_inv c -> quiet_post c c.
Proof. intros Hi. by split. Qed.

(** ** Acknowledgements *)

(** The indices of a core after an acknowledgement. *)
Lemma acknowledged c applied admitted pending outstanding :
  core_inv c ->
  c_applied_index c <= applied <= admitted ->
  c_apply_admitted_index c <= admitted <= c_commit_index c ->
  pending = 0 \/ (outstanding = true /\ admitted <= pending <= c_commit_index c) ->
  quiet_post c (c <| c_apply_admitted_index := admitted |> <| c_applied_index := applied |>
                  <| c_pending_apply_index := pending |>
                  <| c_ready_outstanding := outstanding |>).
Proof.
  intros [[] Ha] H1 H2 Hp. split; [|split; [|done]].
  - split; [|by destruct Ha]. constructor; record_simpl; try done; lia.
  - constructor; record_simpl; try done; lia.
Qed.

Lemma ack_ready_post c n result c' :
  core_inv c -> 0 <= n -> tr_raft_core_ack_ready c n = (result, c') -> quiet_post c c'.
Proof.
  intros Hi Hn. unfold tr_raft_core_ack_ready.
  destruct (_ || _); [intros [= _ <-]; by apply quiet_post_refl|].
  destruct (_ && _); [intros [= _ <-]; by apply quiet_post_refl|].
  set (count := if negb _ then _ else 0). destruct (Z.ltb_spec count n) as [|Hle];
    [intros [= _ <-]; by apply quiet_post_refl|].
  intros [= _ <-]. pose proof (key_inv_bounds c (proj1 Hi)) as Hb.
  pose proof Hi as [[] _].
  assert (c_apply_admitted_index c + n <= c_commit_index c) as Hadm.
  { subst count. destruct (Z.eqb_spec (c_pending_apply_index c) 0); cbn [negb] in Hle;
      [lia|]. destruct ki_pending_apply as [|[_ ?]]; [lia|].
    rewrite u64_small in Hle by (unfold UINT64_MAX in *; lia). lia. }
  rewrite u64_small by (unfold UINT64_MAX in *; lia).
  assert (c <| c_apply_admitted_index := c_apply_admitted_index c + n |>
            <| c_pending_apply_index := 0 |> <| c_ready_outstanding := false |> =
          c <| c_apply_admitted_index := c_apply_admitted_index c + n |>
            <| c_applied_index := c_applied_index c |>
            <| c_pending_apply_index := 0 |> <| c_ready_outstanding := false |>) as ->
    by by destruct c.
  apply acknowledged; [done|lia|lia|by left].
Qed.

Lemma ack_applied_post c i result c' :
  core_inv c -> tr_raft_core_ack_applied c i = (result, c') -> quiet_post c c'.
Proof.
  intros Hi. unfold tr_raft_core_ack_applied. pose proof (key_inv_bounds c (proj1 Hi)) as Hb.
  pose proof Hi as [[] Ha].
  destruct (i =? 0); [intros [= _ <-]; by apply quiet_post_refl|].
  destruct (c_in_call c); [intros [= _ <-]; by apply quiet_post_refl|].
  destruct (Z.leb_spec i (c_applied_index c)); [intros [= _ <-]; by apply quiet_post_refl|].
  destruct (_ || _); [intros [= _ <-]; by apply quiet_post_refl|].
  destruct (Z.ltb_spec (c_apply_admitted_index c) i) as [|Hle];
    [intros [= _ <-]; by apply quiet_post_refl|].
  intros [= _ <-]. split; [|split; [|done]].
  - split; [|by destruct Ha]. constructor; record_simpl; try done; lia.
  - constructor; record_simpl; try done; lia.
Qed.

Lemma advance_post c result c' :
  core_inv c -> tr_raft_core_advance c = (result, c') -> quiet_post c c'.
Proof.
  intros Hi. unfold tr_raft_core_advance. pose proof Hi as [[] Ha].
  destruct (_ || _); [intros [= _ <-]; by apply quiet_post_refl|].
  destruct (negb (c_pending_apply_index c =? 0)) eqn:Hp.
  - destruct (_ || _) eqn:Hg; [intros [= _ <-]; by apply quiet_post_refl|].
    intros [= _ <-]. rewrite orb_false_iff, negb_false_iff in Hg.
    destruct ki_pending_apply as [|[_ ?]]; [lia|]. apply acknowledged; [done|lia|lia|by left].
  - intros [= _ <-]. split; [|split; [|done]].
    + split; [|by destruct Ha]. constructor; record_simpl; try done; lia.
    + by constructor.
Qed.

(** ** Pauses *)

Lemma set_peer_paused_post c id paused result c' :
  core_inv c -> tr_raft_core_set_peer_paused c id paused = (result, c') -> quiet_post c c'.
Proof.
  intros Hi. unfold tr_raft_core_set_peer_paused.
  destruct (_ || _); [intros [= _ <-]; by apply quiet_post_refl|].
  destruct (c_in_call c); [intros [= _ <-]; by apply quiet_post_refl|].
  destruct (_ <? 0); [intros [= _ <-]; by apply quiet_post_refl|]. intros [= _ <-].
  set (v := if paused then _ else _). clearbody v.
  destruct (safe_quiet _ _ (quiet_paused_peers c v) Hi) as [Hi' Hl'].
  split; [done|]. split; [by apply core_le_grows|done].
Qed.

(** ** Compaction *)

Lemma compact_post c point result c' :
  core_inv c -> tr_raft_core_compact c point = (result, c') -> quiet_post c c'.
Proof.
  intros Hi. unfold tr_raft_core_compact, tr_raft_core_snapshot_point.
  destruct (c_in_call c || c_ready_outstanding c || _) eqn:Hg;
    [intros [= _ <-]; by apply quiet_post_refl|].
  destruct (_ <=? log_base_index _); [intros [= _ <-]; by apply quiet_post_refl|].
  destruct (tr_raft_log_get _ _) as [e|]; [|intros [= _ <-]; by apply quiet_post_refl].
  cbn [sp_index sp_term sp_configuration].
  destruct (negb (sp_index point =? c_applied_index c) || _ || _) eqn:Hg2;
    [intros [= _ <-]; by apply quiet_post_refl|].
  rewrite !orb_false_iff, !negb_false_iff, Z.eqb_eq in Hg, Hg2.
  destruct Hg as [_ Hac], Hg2 as [[Hidx _] _].
  destruct (compact_spec (c_log c) (sp_index point) (sp_term point)) as (log' & -> & Hlog');
    [apply Hi|].
  assert (c <| c_log := c_log c |> = c) as Hsame by by destruct c.
  destruct (_ || _) eqn:Hg3; [intros [= _ <-]; rewrite Hsame; by apply quiet_post_refl|].
  case_bool_decide as Hterm; intros [= _ <-]; [|rewrite Hsame; by apply quiet_post_refl].
  destruct Hlog' as (Hwf & Hbase & Hbt & _ & Hel); [lia|lia|].
  rewrite Hidx in *. clear Hsame. pose proof Hi as [[] Ha].
  assert (log_last log' = log_last (c_log c)) as Hlast.
  { unfold log_last in *. rewrite Hbase, Hel, length_drop. lia. }
  assert (forall i, c_applied_index c < i -> log_at log' i = log_at (c_log c) i) as Hat.
  { intros i Hlt. unfold log_at. rewrite Hbase, Hel, lookup_drop.
    replace (_ <? _) with true by blia. replace (_ <? _) with true by blia. f_equal. lia. }
  split; [|split; [|done]].
  - split; [|by destruct Ha]. constructor; record_simpl; try done; try lia.
    + split; [apply ki_range|]. rewrite Hel. apply Forall_drop, ki_range.
    + apply (list.Forall_impl _ _ _ ki_pending). intros p [Hp (x & Hx & Hd)].
      split; [done|]. exists x. split; [|done]. rewrite Hat; [done|lia].
  - constructor; record_simpl; try done; try lia.
    + intros i Hi' Hb'. record_simpl. apply Hat. revert Hb'. record_simpl. lia.
    + intros i Hi' Hb'. assert (i = c_applied_index c) as -> by lia.
      rewrite Hterm. unfold log_term. by rewrite Hbase, Hbt, Z.eqb_refl.
Qed.

End Acknowledge.

(** ** Creation *)

Section Create.
Context {V : Type} `{VecLaws V}.
Implicit Types (c : tr_raft_core V) (cfg : tr_raft_core_config).

(** What the caller of [tr_raft_core_create] provides: arrays of the announced
    length, values of the widths of the code, and a recovered log that
    continues its base. The identifier [UINT64_MAX] is not supported. *)
Record config_ok cfg : Prop := {
  co_self : cfg_self_id cfg < UINT64_MAX;
  co_counts : 0 <= cfg_voter_count cfg /\ 0 <= cfg_learner_count cfg;
  co_voters : Z.of_nat (length (config_voters cfg)) = cfg_voter_count cfg;
  co_voter_ids : Forall (fun id => 0 <= id < 2 ^ 64) (config_voters cfg);
  co_learner_ids : Forall (fun id => 0 <= id < 2 ^ 64) (config_learners cfg);
  co_configuration : forall conf, cfg_initial_configuration cfg = Some conf ->
    conf_in_range conf;
  co_term : 0 <= cfg_initial_term cfg <= UINT64_MAX;
  co_base : 0 <= cfg_initial_last_log_index cfg;
  co_max : 0 <= cfg_max_log_entries cfg;
  co_reads : 0 <= cfg_max_pending_reads cfg;
  co_entries : entries_follow (cfg_initial_last_log_index cfg)
    (array_elems (cfg_initial_log_entries cfg) (cfg_initial_log_entry_count cfg));
  co_bytes : Forall (fun e => Forall is_byte (entry_data e))
    (array_elems (cfg_initial_log_entries cfg) (cfg_initial_log_entry_count cfg))
}.

Lemma create_transition_wf cfg t :
  config_ok cfg -> config_check cfg = true -> create_transition cfg = (SALTS_OK, t) ->
  transition_wf t /\ conf_in_range (mt_committed t) /\ mt_pending t = [].
Proof.
  intros Hok Hck. unfold create_transition.
  destruct (cfg_initial_configuration cfg) as [conf|] eqn:E.
  - destruct (tr_raft_membership_transition_init_configuration conf) as [res o] eqn:Hi.
    intros [= -> <-]. pose proof Hi as Hi'. revert Hi'.
    unfold tr_raft_membership_transition_init_configuration. case_match; [done|].
    intros [= <-]. apply transition_wf_init_configuration in Hi. split; [done|].
    split; [|done]. by apply (co_configuration cfg Hok).
  - intros Hi. destruct (co_counts cfg Hok) as [Hvc Hlc].
    assert (array_elems (cfg_voters cfg) (cfg_voter_count cfg) <> []) as Hne.
    { pose proof (co_voters cfg Hok) as Hl. unfold config_voters in Hl. intros Hnil.
      rewrite Hnil in Hl. unfold config_check, config_valid in Hck.
      rewrite !andb_true_iff, negb_true_iff, !orb_false_iff in Hck. cbn in Hl. lia. }
    pose proof (transition_wf_init_voters _ _ _ _ _ Hne Hvc Hlc Hi) as Hwf.
    split; [done|]. unfold tr_raft_membership_transition_init in Hi.
    destruct (tr_raft_membership_stable _ _ _ _) as [[] [conf|]] eqn:Hst; try done.
    + injection Hi as <-. split; [|done]. eapply stable_in_range; [| |exact Hst].
      * apply (co_voter_ids cfg Hok).
      * apply (co_learner_ids cfg Hok).
    + unfold tr_raft_membership_stable in Hst. by case_match.
Qed.

Lemma create_log_wf cfg (log : tr_raft_log V) :
  config_ok cfg -> create_log cfg = (SALTS_OK, log) ->
  log_wf log /\ Forall entry_range (elems log) /\
  log_base_index log = cfg_initial_last_log_index cfg.
Proof.
  intros Hok. unfold create_log. set (max := if _ =? 0 then _ else _).
  assert (0 <= max) as Hmax.
  { subst max. pose proof (co_max cfg Hok). case_match; [done|lia]. }
  clearbody max. destruct (tr_raft_log_init _ _ _) as [res log0] eqn:Hi.
  destruct (decide (res = SALTS_OK)) as [->|Hne]; [|by destruct res].
  apply log_init_spec in Hi as (Hwf0 & Hnil & _ & Hbase & _); [|done|apply Hok].
  destruct (negb _).
  2: { case_match; [|done]. intros [= <-]. rewrite Hnil. by split. }
  case_match; [done|].
  destruct (tr_raft_log_reconcile _ _ _ _ _) as [[res log'] rc] eqn:Hrc.
  destruct (decide (res = SALTS_OK)) as [->|Hne]; [|by destruct res].
  apply reconcile_spec in Hrc as [Hwf Hrc]; [|done|apply Hok|apply Hok].
  rewrite decide_True in Hrc by done. intros [= Hm <-].
  destruct Hrc as [(_ & _ & ->)|[_ Hrc]]; [done|]. split; [done|].
  destruct (reconciled_base _ _ _ _ _ _ Hrc) as (-> & _). split; [|done].
  apply list.Forall_forall. intros e He.
  apply (reconciled_elems _ _ _ _ _ _ _ Hrc) in He as [He|He].
  - rewrite Hnil in He. by apply elem_of_nil in He.
  - pose proof (co_bytes cfg Hok) as Hb. rewrite list.Forall_forall in Hb.
    by apply bytes_range, Hb.
Qed.

(** The reads and the guard of the calls are left alone when peers change. *)
Lemma refresh_peers_reads c peers :
  c_pending_read_contexts (tr_core_refresh_peers c peers) = c_pending_read_contexts c /\
  c_waiting_read_contexts (tr_core_refresh_peers c peers) = c_waiting_read_contexts c /\
  c_in_call (tr_core_refresh_peers c peers) = c_in_call c.
Proof.
  set (reads (x : tr_raft_core V) :=
    (c_pending_read_contexts x, c_waiting_read_contexts x, c_in_call x)).
  assert (forall op om ora opp last l x, reads (fold_left
    (fun c index => refresh_peer op om ora opp last index c) l x) = reads x) as Hfold.
  { intros op om ora opp last l. induction l as [|i l IH]; intros x; [done|].
    cbn [fold_left]. rewrite IH. unfold refresh_peer. destruct (_ <? 0); [done|].
    by destruct (has_bit ora _), (has_bit opp _). }
  assert (reads (tr_core_refresh_peers c peers) = reads c) as Hr.
  2: { unfold reads in Hr. by injection Hr. }
  unfold tr_core_refresh_peers. case_bool_decide; [done|].
  set (c1 := c <| c_next_index := _ |> <| c_match_index := _ |> <| c_append_windows := _ |>
    <| c_recent_active := _ |> <| c_paused_peers := _ |> <| c_peers := _ |>).
  set (c2 := fold_left _ _ c1). assert (reads c2 = reads c) as <- by exact (Hfold _ _ _ _ _ _ c1).
  clearbody c2. destruct (role_eqb _ _); [|done]. by destruct (0 <=? _).
Qed.

Lemma sync_follower_reads c c' :
  c_role c = TR_RAFT_FOLLOWER -> tr_core_sync_membership c = (SALTS_OK, c') ->
  c_role c' = TR_RAFT_FOLLOWER /\
  c_pending_read_contexts c' = c_pending_read_contexts c /\
  c_waiting_read_contexts c' = c_waiting_read_contexts c /\
  c_in_call c' = c_in_call c.
Proof.
  intros Hr. unfold tr_core_sync_membership.
  destruct (tr_core_build_peer_set _) as [res peers].
  destruct (decide (res = SALTS_OK)) as [->|Hne]; [|by destruct res].
  pose proof (refresh_peers_reads c peers) as Hreads.
  pose proof (same_role (refresh_peers_quiet c peers)) as Hrole.
  change (c_role (c <| c_peers := peers |>)) with (c_role c) in Hrole.
  set (x := tr_core_refresh_peers c peers) in *. clearbody x.
  set (y := x <| c_self_is_voter := _ |>).
  assert (role_eqb (c_role y) TR_RAFT_LEADER = false) as -> by by rewrite Hr in Hrole;
    subst y; record_simpl; rewrite Hrole.
  rewrite andb_false_r. intros [= <-]. subst y. record_simpl. by rewrite Hrole.
Qed.

(** What a core keeps of what it is created from. *)
Definition books c :=
  (c_term c, c_voted_for c, c_log c, c_commit_index c, c_applied_index c,
   c_apply_admitted_index c, c_pending_apply_index c, c_ready_outstanding c).

Lemma sync_follower_books c c' :
  c_role c = TR_RAFT_FOLLOWER -> tr_core_sync_membership c = (SALTS_OK, c') -> books c' = books c.
Proof.
  intros Hr. unfold tr_core_sync_membership.
  destruct (tr_core_build_peer_set _) as [res peers].
  destruct (decide (res = SALTS_OK)) as [->|Hne]; [|by destruct res].
  destruct (refresh_peers_quiet c peers) as [Hk _].
  set (x := tr_core_refresh_peers c peers) in *. clearbody x. set (y := x <| c_self_is_voter := _ |>).
  assert (books y = books c /\ c_role y = TR_RAFT_FOLLOWER) as [Hb Hry].
  { unfold books, y. record_simpl. injection Hk as _ _ _ _ -> -> -> -> -> -> -> -> _ ->. done. }
  rewrite Hry, andb_false_r. by intros [= <-].
Qed.

(** The index of a voter below [UINT64_MAX] is found among the peers. *)
Lemma voter_index_nonneg c id :
  conf_wf (tr_core_membership c) ->
  tr_raft_peer_set_build [tr_core_membership c] = (SALTS_OK, c_peers c) ->
  id < UINT64_MAX ->
  (0 <=? tr_voter_index c id) = tr_raft_membership_is_voter (tr_core_membership c) id.
Proof.
  intros Hwf Hb Hid. unfold tr_voter_index.
  destruct (tr_raft_membership_is_voter _ id) eqn:Hv; [|by rewrite andb_false_r].
  apply is_voter_spec in Hv as (x & Hx & Hxid & _); [|apply Hwf].
  apply peer_set_build_ok in Hb as ([Hs Hu] & _ & _).
  assert (id ∈ c_peers c) as Hin.
  { apply Hu. split; [|done]. exists (conf_ids (tr_core_membership c)).
    split; [by apply list_elem_of_singleton|].
    rewrite <- Hxid. by apply list_elem_of_fmap_2. }
  apply list_elem_of_lookup in Hin as [k Hk].
  assert (id <> 0) as Hne.
  { pose proof (wf_ids _ Hwf) as [Hz _]. rewrite list.Forall_forall in Hz.
    apply Hz. rewrite <- Hxid. by apply list_elem_of_fmap_2. }
  unfold tr_raft_peer_set_index. replace (id =? 0) with false by lia.
  rewrite (find_id_lookup _ k) by done. rewrite andb_true_r.
  assert ((0 <=? Z.of_nat k) = true) as E by blia. by rewrite E, E.
Qed.

(** The core before the replay of the log. *)
Definition fresh_core cfg (t : tr_raft_membership_transition) (peers : tr_raft_peer_set)
    (log : tr_raft_log V) (commit applied : Z) : tr_raft_core V :=
  core_zero <| c_self_id := cfg_self_id cfg |> <| c_membership_transition := t |>
    <| c_peers := peers |>
    <| c_self_is_voter := tr_raft_membership_is_voter (mt_committed t) (cfg_self_id cfg) |>
    <| c_role := TR_RAFT_FOLLOWER |> <| c_term := cfg_initial_term cfg |>
    <| c_voted_for := cfg_initial_vote cfg |> <| c_log := log |>
    <| c_commit_index := commit |> <| c_applied_index := applied |>
    <| c_apply_admitted_index := applied |>.

Lemma fresh_core_inv cfg t peers (log : tr_raft_log V) commit applied :
  config_ok cfg -> config_check cfg = true -> create_transition cfg = (SALTS_OK, t) ->
  tr_raft_peer_set_build [mt_committed t] = (SALTS_OK, peers) ->
  create_log cfg = (SALTS_OK, log) ->
  create_indices cfg log = Some (commit, applied) ->
  core_inv (fresh_core cfg t peers log commit applied).
Proof.
  intros Hok Hck Ht Hp Hl Hidx. unfold fresh_core.
  destruct (create_transition_wf cfg t Hok Hck Ht) as (Hwf & Hr & Hnil).
  destruct (create_log_wf cfg log Hok Hl) as (Hlog & Hlr & Hbase).
  unfold create_indices in Hidx. rewrite log_last_index_spec in Hidx by done.
  case_match eqn:Hg; [done|]. injection Hidx as <- <-.
  rewrite !orb_false_iff in Hg.
  assert (cfg_self_id cfg <> 0).
  { unfold config_check, config_valid in Hck.
    rewrite !andb_true_iff, negb_true_iff, !orb_false_iff in Hck. lia. }
  split.
  - constructor; record_simpl; try done.
    + rewrite Hnil. constructor.
    + unfold tr_core_build_peer_set. by rewrite Hnil.
    + apply Hok.
    + by intros [].
    + lia.
    + lia.
    + lia.
    + by left.
  - constructor; try done. apply Forall_replicate, window_wf_reset.
Qed.

Lemma create_timers_inv cfg c :
  config_ok cfg -> config_check cfg = true -> core_inv c ->
  c_pending_read_contexts c = [] -> c_waiting_read_contexts c = [] ->
  core_inv (create_timers cfg c).
Proof.
  intros Hok Hck [Hk Ha] Hp Hw. split.
  - eapply key_inv_key; [|exact Hk]. done.
  - destruct Ha. unfold create_timers. constructor; record_simpl; try done.
    + by rewrite length_fmap.
    + apply Forall_fmap. apply (list.Forall_impl _ _ _ aw_window).
      intros w. apply window_wf_probe.
    + unfold tr_read_total_count, c_pending_read_count, c_waiting_read_count.
      record_simpl. rewrite Hp, Hw. pose proof (co_reads cfg Hok). cbn.
      case_match; [done|lia].
    + unfold config_check, config_valid in Hck.
      rewrite !andb_true_iff, negb_true_iff, !orb_false_iff in Hck.
      destruct (cfg_max_pending_reads cfg =? 0); [done|lia].
Qed.

(** The replay stages the configuration entries of the whole log. *)
Lemma replay_inv c c' :
  core_inv c -> c_role c = TR_RAFT_FOLLOWER ->
  mt_pending (c_membership_transition c) = [] ->
  tr_core_replay_membership_log c = (SALTS_OK, c') ->
  core_inv c' /\ c_pending_read_contexts c' = c_pending_read_contexts c /\
  c_waiting_read_contexts c' = c_waiting_read_contexts c /\ c_in_call c' = c_in_call c.
Proof.
  intros Hi Hr Hnil. pose proof (key_inv_bounds c (proj1 Hi)) as Hb.
  pose proof Hi as [[] _]. unfold tr_core_replay_membership_log.
  set (range := log_range _ _ _).
  destruct (stage_entries _ range) as [res t] eqn:Hst.
  apply stage_entries_spec in Hst as (Hwf & Hc & Hp); [|done].
  destruct (decide (res = SALTS_OK)) as [->|Hne]; [|by destruct res].
  set (t' := transition_apply_loop (mt_committed t) (mt_pending t) (c_commit_index c)).
  change (tr_raft_membership_transition_apply t _) with (SALTS_OK, t'). cbv beta iota.
  assert (forall p, p ∈ mt_pending t -> logged (c_log c) p) as Hlogged.
  { intros p Hin. apply Hp in Hin as [Hin|(e & He & Hidx & Hd)].
    - rewrite Hnil in Hin. by apply elem_of_nil in Hin.
    - apply log_range_lookup in He as [_ Hat]; [|done]. exists e. by rewrite <- Hidx. }
  destruct (apply_pending t (c_commit_index c) t' Hwf eq_refl) as (Hgt & Hsub & Hin).
  assert (transition_fits c (c_commit_index c) t') as Hfit.
  { split; [by eapply transition_wf_apply|]. split.
    - destruct Hin as [->|Hin]; [rewrite Hc; apply ki_range|].
      apply list_elem_of_fmap in Hin as (p & -> & Hin).
      eapply logged_range; [apply ki_range|by apply Hlogged].
    - rewrite list.Forall_forall in Hgt |- *. intros p Hin'. split; [by apply Hgt|].
      by apply Hlogged, Hsub. }
  destruct (sync_membership_spec c (c_commit_index c) t' Hi Hfit) as (x & Hx & Hix & _);
    [lia|by right|].
  assert (c <| c_commit_index := c_commit_index c |> = c) as E by by destruct c.
  rewrite E in Hx. rewrite Hx. intros [= <-]. split; [done|].
  apply sync_follower_reads in Hx as (_ & ? & ? & ?); done.
Qed.

Lemma create_inv calloc_ok cfg c :
  config_ok cfg -> tr_raft_core_create calloc_ok cfg = (SALTS_OK, Some c) ->
  core_inv c /\ c_in_call c = false.
Proof.
  intros Hok. unfold tr_raft_core_create.
  destruct (config_check cfg) eqn:Hck; [|done]. cbn [negb].
  destruct calloc_ok; [|done]. cbn [negb].
  destruct (create_transition cfg) as [res t] eqn:Ht.
  destruct (decide (res = SALTS_OK)) as [->|Hne]; [|by destruct res].
  cbv zeta. set (ca := core_zero <| c_self_id := _ |> <| c_membership_transition := t |>).
  change (tr_core_membership ca) with (mt_committed t).
  destruct (tr_raft_peer_set_build _) as [res peers] eqn:Hp.
  destruct (decide (res = SALTS_OK)) as [->|Hne]; [|by destruct res].
  destruct (create_log cfg) as [res log] eqn:Hl.
  destruct (decide (res = SALTS_OK)) as [->|Hne]; [|by destruct res].
  destruct (create_indices cfg log) as [[commit applied]|] eqn:Hidx; [|done].
  destruct (create_transition_wf cfg t Hok Hck Ht) as (Hwf & _ & Hnil).
  pose proof (voter_index_nonneg (ca <| c_peers := peers |>) (cfg_self_id cfg)
    (tw_committed t Hwf) Hp (co_self cfg Hok)) as ->.
  change (tr_core_membership (ca <| c_peers := peers |>)) with (mt_committed t).
  pose proof (fresh_core_inv cfg t peers log commit applied Hok Hck Ht Hp Hl Hidx) as Hi.
  subst ca. fold (fresh_core cfg t peers log commit applied).
  set (x := fresh_core cfg t peers log commit applied) in *.
  assert (c_pending_read_contexts x = [] /\ c_waiting_read_contexts x = [] /\
    c_role x = TR_RAFT_FOLLOWER /\ c_membership_transition x = t /\ c_in_call x = false)
    as (E1 & E2 & E3 & E4 & E0) by done.
  clearbody x. destruct (tr_core_replay_membership_log x) as [res y] eqn:Hrep.
  destruct (decide (res = SALTS_OK)) as [->|Hne]; [|by destruct res].
  intros [= <-]. apply replay_inv in Hrep as (Hiy & E5 & E6 & E7); [|done|done|by rewrite E4].
  split; [|record_simpl; unfold create_timers; record_simpl; congruence].
  apply create_timers_inv; [done|done|done|congruence|congruence].
Qed.

(** What the configuration starts the core with. *)
Lemma create_books calloc_ok cfg c :
  tr_raft_core_create calloc_ok cfg = (SALTS_OK, Some c) ->
  exists log commit applied, create_log cfg = (SALTS_OK, log) /\
    create_indices cfg log = Some (commit, applied) /\
    books c = (cfg_initial_term cfg, cfg_initial_vote cfg, log, commit, applied, applied, 0, false).
Proof.
  unfold tr_raft_core_create.
  destruct (config_check cfg) eqn:Hck; [|done]. destruct calloc_ok; [|done]. cbn [negb].
  destruct (create_transition cfg) as [[] t] eqn:Ht; [|done]. cbv zeta.
  destruct (tr_raft_peer_set_build _) as [[] peers] eqn:Hp; [|done].
  destruct (create_log cfg) as [[] log] eqn:Hl; [|done].
  destruct (create_indices cfg log) as [[commit applied]|] eqn:Hidx; [|done].
  match goal with |- context [tr_core_replay_membership_log ?x] => set (core := x) end.
  assert (books core = (cfg_initial_term cfg, cfg_initial_vote cfg, log, commit, applied, applied,
    0, false) /\ c_role core = TR_RAFT_FOLLOWER) as [Hb Hr] by done. clearbody core.
  unfold tr_core_replay_membership_log.
  destruct (stage_entries _ _) as [[] t1]; [|done].
  destruct (tr_raft_membership_transition_apply _ _) as [[] t2]; [|done].
  destruct (tr_core_sync_membership _) as [[] c1] eqn:Hs; [|done].
  apply sync_follower_books in Hs; [|done]. intros [= <-].
  exists log, commit, applied. split_and!; [done|done|]. rewrite <- Hb. exact Hs.
Qed.

End Create.

(** ** Runs *)

Section Run.
Context {V : Type} `{VecLaws V}.
Implicit Types (c : tr_raft_core V) (r : tr_raft_ready).

(** The calls that produce a ready, with arguments of the widths of the code,
    messages as [message_ok] describes them, and room for the indices of the
    log. *)
Inductive ready_call c r : status -> tr_raft_core V -> tr_raft_ready -> Prop :=
| call_tick tick result c' r' :
    log_last (c_log c) < UINT64_MAX ->
    tr_raft_core_tick c tick r = (result, c', r') -> ready_call c r result c' r'
| call_step m result c' r' :
    message_ok m ->
    tr_raft_core_step c m r = (result, c', r') -> ready_call c r result c' r'
| call_propose_batch ps result c' r' :
    log_last (c_log c) + Z.of_nat (length ps) <= UINT64_MAX ->
    tr_raft_core_propose_batch c ps r = (result, c', r') -> ready_call c r result c' r'
| call_change_membership change result c' r' :
    log_last (c_log c) < UINT64_MAX -> change_ok change ->
    tr_raft_core_change_membership c change r = (result, c', r') ->
    ready_call c r result c' r'
| call_transfer_leadership id result c' r' :
    tr_raft_core_transfer_leadership c id r = (result, c', r') ->
    ready_call c r result c' r'
| call_read_index id result c' r' :
    tr_raft_core_read_index c id r = (result, c', r') -> ready_call c r result c' r'
| call_poll result c' r' :
    tr_raft_core_poll c r = (result, c', r') -> ready_call c r result c' r'
| call_snapshot_completed id index result c' r' :
    tr_raft_core_snapshot_completed c id index r = (result, c', r') ->
    ready_call c r result c' r'.

Inductive core_call : tr_raft_core V -> tr_raft_core V -> Prop :=
| call_ready c r result c' r' : ready_call c r result c' r' -> core_call c c'
| call_ack_ready c n result c' :
    0 <= n -> tr_raft_core_ack_ready c n = (result, c') -> core_call c c'
| call_ack_applied c index result c' :
    tr_raft_core_ack_applied c index = (result, c') -> core_call c c'
| call_advance c result c' : tr_raft_core_advance c = (result, c') -> core_call c c'
| call_compact c point result c' :
    tr_raft_core_compact c point = (result, c') -> core_call c c'
| call_set_peer_paused c id paused result c' :
    tr_raft_core_set_peer_paused c id paused = (result, c') -> core_call c c'.

(** The states of a core from its creation on. *)
Inductive core_reachable : tr_raft_core V -> Prop :=
| reach_create calloc_ok cfg c :
    config_ok cfg -> tr_raft_core_create calloc_ok cfg = (SALTS_OK, Some c) ->
    core_reachable c
| reach_call c c' : core_reachable c -> core_call c c' -> core_reachable c'.

Lemma ready_call_post c r result c' r' :
  core_inv c -> ready_call c r result c' r' -> call_post c r result c' r'.
Proof.
  intros Hi. destruct 1; eauto using tick_post, step_post, propose_batch_post,
    change_membership_post, transfer_leadership_post, read_index_post, poll_post,
    snapshot_completed_post.
Qed.

Lemma core_call_post c c' : core_inv c -> core_call c c' -> quiet_post c c'.
Proof.
  intros Hi. destruct 1; eauto using ack_ready_post, ack_applied_post, advance_post,
    compact_post, set_peer_paused_post.
  eapply ready_call_post in Hi as []; [|done]. by split.
Qed.

Lemma reachable_inv c : core_reachable c -> core_inv c /\ c_in_call c = false.
Proof.
  induction 1 as [calloc_ok cfg c Hok Hc|c c' _ [Hi Hcall] Hstep].
  - by eapply create_inv.
  - apply core_call_post in Hstep as (? & _ & ?); auto.
Qed.

Lemma run_grows c c' : core_inv c -> rtc core_call c c' -> core_inv c' /\ grows c c'.
Proof.
  intros Hi Hrun. revert Hi. induction Hrun as [c|c c1 c' Hstep _ IH]; intros Hi; [done|].
  apply core_call_post in Hstep as (Hi1 & Hg & _); [|done].
  destruct (IH Hi1). split; [done|by etrans].
Qed.

End Run.
