(* ===== verification/CoreFlow.v ===== *)
(** * Termination of the replication loops

    The loops that fill the append windows end: every iteration that goes on
    has put a message into the buffer, so the free slots bound them. *)

From S2P Require Import Prelude Configuration Membership PeerSet Transition Window Vec.
From S2P Require Import Log CoreState CoreEmit CoreElection CoreSteps CoreApi CoreFrame.
From Stdlib Require Import ZArith Lia.
From stdpp Require Import base numbers list tactics.
Open Scope Z_scope.
Open Scope raft_scope.

Section Flow.
Context {V : Type} `{VecLaws V}.
Implicit Types (c : tr_raft_core V) (r : tr_raft_ready).

(** Entries are sent to the peer at [i], not a snapshot. *)
Definition has_entries c (i : Z) : Prop :=
  log_base_index (c_log c) < next_at c i <= log_last (c_log c).

Lemma replication_plan_count c r i type n :
  log_wf (c_log c) -> has_entries c i -> replication_plan c r i false = Some (type, n) ->
  1 <= n /\ next_at c i + n <= log_last (c_log c) + 1.
Proof.
  intros Hwf [Hb Hl]. pose proof (log_last_bounds _ Hwf) as Hbounds.
  unfold replication_plan. rewrite log_last_index_spec by done.
  replace (next_at c i <=? log_last (c_log c)) with true by blia.
  destruct (_ || _); [done|].
  assert (log_last (c_log c) -64 next_at c i +64 1 = log_last (c_log c) - next_at c i + 1)
    as -> by (word_simpl; lia).
  intros [= _ <-]. unfold TR_RAFT_MAX_APPEND_ENTRIES. case_match; lia.
Qed.

(** An append request that was sent is in the buffer. *)
Lemma emit_replication_sent c r i c' r' :
  log_wf (c_log c) -> has_entries c i ->
  tr_emit_replication c r i false = (true, c', r') ->
  r_message_count r' = r_message_count r + 1 /\
  r_message_capacity r' = r_message_capacity r /\
  exists w n, c' = set_next (set_window c i w) i (next_at c i +64 n) /\
    1 <= n /\ next_at c i + n <= log_last (c_log c) + 1.
Proof.
  intros Hwf He. pose proof He as [Hb Hl]. unfold tr_emit_replication.
  destruct (tr_peer_index_paused c i); [done|].
  replace (next_at c i <=? log_base_index (c_log c)) with false by blia.
  destruct (replication_plan c r i false) as [[type n]|] eqn:Hp; [|done].
  apply replication_plan_count in Hp; [|done|done].
  unfold tr_emit. destruct (tr_peer_paused c _); [done|].
  replace (n =? 0) with false by blia. cbn [negb].
  destruct (tr_append_window_push _ _ _) as [[] w]; [|done]. intros [= <- <-].
  rewrite length_update_last. split; [|split; [done|by exists w, n]].
  unfold r_message_count. record_simpl. rewrite length_app. cbn. lia.
Qed.

Lemma length_removelast {A : Type} (l : list A) : length (removelast l) = pred (length l).
Proof.
  destruct l as [|x l _] using rev_ind; [done|]. rewrite removelast_last, length_app.
  cbn. lia.
Qed.

(** What is not sent does not change the buffer. *)
Lemma emit_replication_unsent c r i c' r' :
  tr_emit_replication c r i false = (false, c', r') ->
  c' = c /\ r_message_count r' = r_message_count r /\
  r_message_capacity r' = r_message_capacity r.
Proof.
  unfold tr_emit_replication. destruct (tr_peer_index_paused c i); [by intros [= <- <-]|].
  destruct (_ <=? _); [done|].
  destruct (replication_plan c r i false) as [[type n]|]; [|by intros [= <- <-]].
  unfold tr_emit. destruct (tr_peer_paused c _); [by intros [= <- <-]|].
  destruct (negb (n =? 0)); [|done].
  destruct (tr_append_window_push _ _ _) as [[] w]; [done|]. intros [= <- <-].
  split; [done|]. split; [|done]. unfold r_message_count. record_simpl.
  unfold update_last. record_simpl. rewrite length_removelast, length_alter, length_app.
  cbn. lia.
Qed.

(** ** Rounds over the peers *)

Lemma fill_round_counts l emitted c r emitted' c' r' :
  log_wf (c_log c) -> fill_round l emitted c r = (emitted', c', r') ->
  r_message_count r <= r_message_count r' /\
  r_message_capacity r' = r_message_capacity r /\ c_log c' = c_log c /\
  (emitted' = true -> emitted = true \/ r_message_count r < r_message_count r').
Proof.
  revert emitted c r. induction l as [|i l IH]; intros emitted c r Hwf; cbn [fill_round].
  { intros [= <- <- <-]. split; [lia|]. do 2 (split; [done|]). by left. }
  destruct (_ <? r_message_capacity r).
  2: { intros [= <- <- <-]. split; [lia|]. do 2 (split; [done|]). by left. }
  destruct (_ || _) eqn:Hg; [by apply IH|].
  rewrite log_last_index_spec in Hg by done.
  assert (has_entries c i) as He by (unfold has_entries; lia).
  destruct (tr_emit_replication c r i false) as [[sent c1] r1] eqn:Hemit.
  intros Hround. destruct sent; cbn [orb] in Hround.
  - apply emit_replication_sent in Hemit as (Hn & Hc & w & n & -> & _); [|done|done].
    apply IH in Hround as (? & ? & ? & _); [|done]. split; [lia|].
    split; [congruence|]. split; [done|]. intros _. right. lia.
  - apply emit_replication_unsent in Hemit as (-> & Hn & Hc).
    apply IH in Hround as (? & ? & ? & Hs); [|done]. rewrite Hn, Hc in *. auto.
Qed.

(** A complete run of the do-while loop of [tr_fill_replication_windows], with
    no bound on its rounds. *)
Inductive rounds_run : tr_raft_core V -> tr_raft_ready ->
    tr_raft_core V -> tr_raft_ready -> Prop :=
| rounds_exit c r emitted c' r' :
    fill_round (peer_indices c) false c r = (emitted, c', r') ->
    emitted && (r_message_count r' <? r_message_capacity r') = false ->
    rounds_run c r c' r'
| rounds_again c r c1 r1 c' r' :
    fill_round (peer_indices c) false c r = (true, c1, r1) ->
    (r_message_count r1 <? r_message_capacity r1) = true ->
    rounds_run c1 r1 c' r' -> rounds_run c r c' r'.

(** A complete run of the while loop of [tr_fill_peer_replication_window]. *)
Inductive peer_run (i : Z) : tr_raft_core V -> tr_raft_ready ->
    tr_raft_core V -> tr_raft_ready -> Prop :=
| peer_exit c r :
    (r_message_count r <? r_message_capacity r) &&
    (next_at c i <=? tr_raft_log_last_index (c_log c)) = false ->
    peer_run i c r c r
| peer_blocked c r c' r' :
    (r_message_count r <? r_message_capacity r) &&
    (next_at c i <=? tr_raft_log_last_index (c_log c)) = true ->
    tr_emit_replication c r i false = (false, c', r') -> peer_run i c r c' r'
| peer_again c r c1 r1 c' r' :
    (r_message_count r <? r_message_capacity r) &&
    (next_at c i <=? tr_raft_log_last_index (c_log c)) = true ->
    tr_emit_replication c r i false = (true, c1, r1) ->
    peer_run i c1 r1 c' r' -> peer_run i c r c' r'.

(** The free slots of the buffer are enough rounds. *)
Lemma fill_rounds_enough fuel c r :
  log_wf (c_log c) -> (free_slots r < fuel)%nat ->
  rounds_run c r (fill_rounds fuel c r).1 (fill_rounds fuel c r).2.
Proof.
  revert c r. induction fuel as [|fuel IH]; intros c r Hwf Hf; [lia|]. cbn [fill_rounds].
  destruct (fill_round (peer_indices c) false c r) as [[emitted c1] r1] eqn:Hround.
  pose proof Hround as (Hn & Hc & Hl & He)%fill_round_counts; [|done].
  destruct (emitted && (r_message_count r1 <? r_message_capacity r1)) eqn:Hgo.
  - apply andb_true_iff in Hgo as [-> Hroom].
    destruct (He eq_refl) as [|Hlt]; [done|].
    eapply rounds_again; [done|done|]. apply IH; [by rewrite Hl|].
    unfold free_slots in *. lia.
  - by eapply rounds_exit.
Qed.

(** ** One peer *)

Lemma next_at_in_range c i : 0 <= log_base_index (c_log c) -> has_entries c i ->
  0 <= i < Z.of_nat (length (c_next_index c)).
Proof.
  unfold has_entries, next_at, array_get. intros Hb.
  destruct (Z.ltb_spec i 0); [lia|]. intros [Hlt _].
  destruct (decide (i < Z.of_nat (length (c_next_index c)))) as [|Hge]; [lia|].
  rewrite nth_overflow in Hlt by lia. lia.
Qed.

Lemma fill_peer_loop_enough fuel i c r :
  log_wf (c_log c) -> log_last (c_log c) < UINT64_MAX ->
  log_base_index (c_log c) < next_at c i -> (free_slots r < fuel)%nat ->
  peer_run i c r (fill_peer_loop fuel i c r).1 (fill_peer_loop fuel i c r).2.
Proof.
  revert c r. induction fuel as [|fuel IH]; intros c r Hwf Hw Hb Hf; [lia|].
  cbn [fill_peer_loop].
  destruct ((r_message_count r <? r_message_capacity r) && _) eqn:Hg;
    [|by apply peer_exit].
  pose proof Hg as Hg'. rewrite log_last_index_spec in Hg' by done.
  assert (has_entries c i) as He by (unfold has_entries; lia).
  pose proof (log_last_bounds _ Hwf) as Hbounds.
  pose proof (next_at_in_range c i ltac:(lia) He) as Hi.
  destruct (tr_emit_replication c r i false) as [[[] c1] r1] eqn:Hemit;
    [|by apply peer_blocked].
  eapply peer_again; [done|done|].
  apply emit_replication_sent in Hemit as (Hn & Hc & w & n & -> & Hn1 & Hn2); [|done|done].
  apply IH; [done|done| |unfold free_slots in *; lia].
  change (c_log (set_next _ _ _)) with (c_log c).
  unfold next_at, set_next. record_simpl. rewrite array_get_set_eq by done.
  change (array_get 0 (c_next_index c) i) with (next_at c i). word_simpl. lia.
Qed.

Lemma fill_snapshots_log c r : c_log (fill_snapshots c r).1 = c_log c.
Proof.
  pose proof (fill_snapshots_frames c r) as [Hq _]. by apply (same_log Hq).
Qed.

(** C32. The replication loops of [tr_raft_core_poll] and of the
    acknowledgements terminate: from a well-formed log the do-while loop over
    the peers and the while loop over one peer have complete runs, and the
    fuelled definitions compute their results. *)
Theorem replication_loops_terminate c r i
    (Hwf : log_wf (c_log c)) (Hw : log_last (c_log c) < UINT64_MAX) :
  (c_role c = TR_RAFT_LEADER ->
   let '(c1, r1) := fill_snapshots c r in
   let '(c', r') := tr_fill_replication_windows c r in
   rounds_run c1 r1 c' r') /\
  (log_base_index (c_log c) < next_at c i ->
   let '(c', r') := tr_fill_peer_replication_window c r i in
   peer_run i c r c' r').
Proof.
  split.
  - intros Hrole. unfold tr_fill_replication_windows, role_eqb.
    rewrite Hrole. cbn [negb bool_decide]. pose proof (fill_snapshots_log c r) as Hlog.
    destruct (fill_snapshots c r) as [c1 r1]. cbn [fst] in Hlog.
    rewrite bool_decide_true by done. cbn [negb].
    pose proof (fill_rounds_enough (S (free_slots r1)) c1 r1) as Hrun.
    destruct (fill_rounds _ c1 r1) as [c' r']. apply Hrun; [by rewrite Hlog|lia].
  - intros Hb. unfold tr_fill_peer_replication_window.
    replace (_ <=? _) with false by blia.
    pose proof (fill_peer_loop_enough (S (free_slots r)) i c r) as Hrun.
    destruct (fill_peer_loop _ i c r) as [c' r']. apply Hrun; (done || lia).
Qed.

End Flow.
