(* ===== verification/CoreReport.v ===== *)
(** * The ready of a core reports what has changed

    A call that succeeds leaves in the ready what the storage has to do: the
    log after the call is the log before it, cut where the ready says and
    followed by the entries of the ready, and the commit index is the one the
    ready announces. *)

From S2P Require Import Prelude Configuration Membership Transition Window Vec Log CoreState CoreEmit.
From S2P Require Import CoreElection CoreSteps CoreApi CoreFrame CoreInvariant CoreSafety.
From S2P Require Import CoreFollower CoreCalls CoreTime CoreReach.
From Stdlib Require Import ZArith Lia.
From stdpp Require Import base numbers list tactics.
Open Scope Z_scope.
Open Scope raft_scope.

Section Report.
Context {V : Type} `{VecLaws V}.
Implicit Types (c : tr_raft_core V) (r : tr_raft_ready).

(** ** What most functions leave alone *)

(** What the storage and the state machine see of a core, and of a ready. *)
Definition ledger c :=
  (c_log c, c_commit_index c, c_apply_admitted_index c, c_pending_apply_index c).

Definition orders r :=
  (r_log_changed r, r_log_truncate_from r, r_log_entries r, r_log_entry_count r,
   r_commit_changed r, r_commit_index r, r_committed_entries r, r_committed_entry_count r).

Definition still (cr cr' : tr_raft_core V * tr_raft_ready) : Prop :=
  ledger (fst cr') = ledger (fst cr) /\ orders (snd cr') = orders (snd cr).

#[export] Instance still_preorder : PreOrder still.
Proof. split; [done|]. intros x y z [] []. split; congruence. Qed.

Lemma quiet_ledger c c' : quiet c c' -> ledger c' = ledger c.
Proof.
  intros [Hk _]. unfold ledger. by injection Hk as _ _ _ _ _ _ _ -> -> _ -> -> _ _.
Qed.

Lemma orders_update_last f r : orders (update_last f r) = orders r.
Proof. unfold update_last. by repeat case_match. Qed.

Lemma orders_emit c r type to granted : orders (snd (tr_emit c r type to granted)) = orders r.
Proof. unfold tr_emit. by case_match. Qed.

Lemma orders_emit_eq c r type to granted sent r' :
  tr_emit c r type to granted = (sent, r') -> orders r' = orders r.
Proof. intros He. rewrite <- (orders_emit c r type to granted). by rewrite He. Qed.

Lemma orders_snapshot_request c r i : orders (tr_emit_snapshot_request c r i) = orders r.
Proof. unfold tr_emit_snapshot_request. by repeat case_match. Qed.

Lemma fold_orders {A : Type} (f : tr_raft_ready -> A -> tr_raft_ready) l r :
  (forall r x, orders (f r x) = orders r) -> orders (fold_left f l r) = orders r.
Proof.
  intros Hf. revert r. induction l as [|x l IH]; intros r; cbn; [done|]. by rewrite IH, Hf.
Qed.

Lemma orders_broadcast c r type : orders (tr_broadcast c r type) = orders r.
Proof. apply fold_orders. intros r' i. cbv zeta. case_match; [apply orders_emit|done]. Qed.

Lemma orders_broadcast_read_index c r id : orders (tr_broadcast_read_index c r id) = orders r.
Proof.
  apply fold_orders. intros r' i. cbv zeta. case_match; [|done].
  destruct (tr_emit _ _ _ _ _) as [[] r1] eqn:He; apply orders_emit_eq in He;
    by rewrite ?orders_update_last.
Qed.

Lemma emit_replication_still c r i b sent c' r' :
  tr_emit_replication c r i b = (sent, c', r') -> still (c, r) (c', r').
Proof.
  unfold tr_emit_replication. destruct (tr_peer_index_paused c i); [by intros [= <- <- <-]|].
  destruct (_ <=? _).
  { intros [= <- <- <-]. split; [done|]. apply orders_snapshot_request. }
  destruct (replication_plan c r i b) as [[type n]|]; [|by intros [= <- <- <-]].
  destruct (tr_emit c r type (tr_peer_id c i) false) as [[] r1] eqn:He; apply orders_emit_eq in He;
    [|intros [= <- <- <-]; by split].
  destruct (negb (n =? 0)).
  - destruct (tr_append_window_push _ _ _) as [[] w]; intros [= <- <- <-];
      (split; [done|]); cbn [snd]; [by rewrite orders_update_last|].
    change (orders (update_last (fun m => m <| m_previous_log_index := next_at c i -64 1 |>
      <| m_previous_log_term := previous_term (c_log c) (next_at c i) |>
      <| m_leader_commit := c_commit_index c |>
      <| m_entries := append_entries (c_log c) (next_at c i) n |>) r1) = orders r).
    by rewrite orders_update_last.
  - intros [= <- <- <-]. split; [done|]. cbn [snd]. by rewrite orders_update_last.
Qed.

Lemma still_fold (f : tr_raft_core V * tr_raft_ready -> Z -> tr_raft_core V * tr_raft_ready) l cr :
  (forall cr i, still cr (f cr i)) -> still cr (fold_left f l cr).
Proof.
  intros Hf. revert cr. induction l as [|i l IH]; intros cr; cbn; [done|].
  etrans; [apply Hf|apply IH].
Qed.

(** A step of one of the loops over the peers. *)
Lemma emit_if_still (b : bool) c r i allow :
  still (c, r) (if b then let '(_, c, r) := tr_emit_replication c r i allow in (c, r) else (c, r)).
Proof.
  destruct b; [|done]. destruct (tr_emit_replication c r i allow) as [[s c1] r1] eqn:He.
  by eapply emit_replication_still.
Qed.

Lemma broadcast_replication_still c r : still (c, r) (tr_broadcast_replication c r).
Proof. apply still_fold. intros [c1 r1] i. apply emit_if_still. Qed.

Lemma fill_snapshots_still c r : still (c, r) (fill_snapshots c r).
Proof. apply still_fold. intros [c1 r1] i. apply emit_if_still. Qed.

Lemma fill_round_still l emitted c r e' c' r' :
  fill_round l emitted c r = (e', c', r') -> still (c, r) (c', r').
Proof.
  revert emitted c r. induction l as [|i l IH]; intros emitted c r; cbn; [by intros [= <- <- <-]|].
  destruct (_ <? _); [|by intros [= <- <- <-]]. destruct (_ || _ || _); [apply IH|].
  destruct (tr_emit_replication c r i false) as [[s c1] r1] eqn:He. intros Hr.
  etrans; [by eapply emit_replication_still|by eapply IH].
Qed.

Lemma fill_rounds_still fuel c r : still (c, r) (fill_rounds fuel c r).
Proof.
  revert c r. induction fuel as [|fuel IH]; intros c r; cbn; [done|].
  destruct (fill_round _ _ _ _) as [[e c1] r1] eqn:Hr. apply fill_round_still in Hr.
  destruct (_ && _); [etrans; [exact Hr|apply IH]|done].
Qed.

Lemma fill_replication_windows_still c r : still (c, r) (tr_fill_replication_windows c r).
Proof.
  unfold tr_fill_replication_windows. case_match; [done|].
  pose proof (fill_snapshots_still c r) as Hs. destruct (fill_snapshots c r) as [c1 r1].
  etrans; [exact Hs|apply fill_rounds_still].
Qed.

Lemma fill_peer_loop_still fuel i c r : still (c, r) (fill_peer_loop fuel i c r).
Proof.
  revert c r. induction fuel as [|fuel IH]; intros c r; cbn; [done|]. destruct (_ && _); [|done].
  destruct (tr_emit_replication c r i false) as [[[] c1] r1] eqn:He;
    apply emit_replication_still in He; [etrans; [exact He|apply IH]|done].
Qed.

Lemma fill_peer_window_still c r i : still (c, r) (tr_fill_peer_replication_window c r i).
Proof.
  unfold tr_fill_peer_replication_window. case_match; [|apply fill_peer_loop_still].
  destruct (tr_emit_replication c r i false) as [[s c1] r1] eqn:He.
  by eapply emit_replication_still.
Qed.

(** ** Campaigns, votes and reads *)

Lemma become_follower_ledger c term : ledger (tr_become_follower c term) = ledger c.
Proof.
  rewrite (quiet_ledger _ _ (become_follower_quiet c term)). unfold step_down. by case_match.
Qed.

Lemma become_leader_still c r : still (c, r) (tr_become_leader c r).
Proof.
  split.
  - destruct (become_leader_frames c r) as [Hq _]. by rewrite (quiet_ledger _ _ Hq).
  - unfold tr_become_leader. cbv zeta.
    match goal with |- context [tr_broadcast_replication ?x r] =>
      exact (proj2 (broadcast_replication_still x r)) end.
Qed.

Lemma start_election_still c r : still (c, r) (tr_start_election c r).
Proof.
  unfold tr_start_election. cbv zeta. case_match.
  - match goal with |- still _ (tr_become_leader ?x r) =>
      exact (become_leader_still x r) end.
  - split; [done|apply orders_broadcast].
Qed.

Lemma start_pre_vote_still c r : still (c, r) (tr_start_pre_vote c r).
Proof.
  unfold tr_start_pre_vote. cbv zeta. case_match.
  - match goal with |- still _ (tr_start_election ?x r) =>
      exact (start_election_still x r) end.
  - split; [done|apply orders_broadcast].
Qed.

Lemma read_emit_active_still c r : still (c, r) (tr_read_emit_active c r).
Proof. unfold tr_read_emit_active. split; [done|]. by destruct (_ <$> _). Qed.

Lemma read_start_barrier_still c r : still (c, r) (tr_read_start_active_barrier c r).
Proof.
  unfold tr_read_start_active_barrier. cbv zeta. case_match.
  - match goal with |- still _ (tr_read_emit_active ?x r) =>
      exact (read_emit_active_still x r) end.
  - split; [done|apply orders_broadcast_read_index].
Qed.

Lemma step_pre_vote_request_still c m r : still (c, r) (tr_step_pre_vote_request c m r).
Proof. split; [done|apply orders_emit]. Qed.

Lemma step_pre_vote_response_still c m r i : still (c, r) (tr_step_pre_vote_response c m r i).
Proof.
  unfold tr_step_pre_vote_response. case_match; [split; [apply become_follower_ledger|done]|].
  case_match; [done|]. cbv zeta. case_match; [|done].
  match goal with |- still _ (tr_start_election ?x r) => exact (start_election_still x r) end.
Qed.

Lemma step_vote_request_still c m r : still (c, r) (tr_step_vote_request c m r).
Proof.
  unfold tr_step_vote_request. cbv zeta. set (c1 := if _ <? _ then _ else c).
  assert (ledger c1 = ledger c) as Hl.
  { unfold c1. case_match; [apply become_follower_ledger|done]. }
  clearbody c1. case_match; (split; [exact Hl|apply orders_emit]).
Qed.

Lemma step_vote_response_still c m r i : still (c, r) (tr_step_vote_response c m r i).
Proof.
  unfold tr_step_vote_response. case_match; [split; [apply become_follower_ledger|done]|].
  case_match; [done|]. cbv zeta. case_match; [|done].
  match goal with |- still _ (tr_become_leader ?x r) => exact (become_leader_still x r) end.
Qed.

Lemma step_timeout_now_still c m r : still (c, r) (tr_step_timeout_now c m r).
Proof.
  unfold tr_step_timeout_now. case_match; [done|].
  match goal with |- still _ (tr_start_election ?x r) => exact (start_election_still x r) end.
Qed.

Lemma step_read_index_request_still c m r : still (c, r) (tr_step_read_index_request c m r).
Proof.
  unfold tr_step_read_index_request. case_match; [done|].
  destruct (tr_emit _ _ _ _ _) as [[] r1] eqn:He; apply orders_emit_eq in He;
    (split; [done|]); cbn [snd]; by rewrite ?orders_update_last.
Qed.

Lemma step_read_index_response_still c m r i : still (c, r) (tr_step_read_index_response c m r i).
Proof.
  unfold tr_step_read_index_response. case_match; [split; [apply become_follower_ledger|done]|].
  case_match; [done|]. cbv zeta. set (c1 := c <| c_pending_read_acks := _ |>).
  assert (ledger c1 = ledger c) as Hl by done. clearbody c1. case_match; [|by split].
  pose proof (read_emit_active_still c1 r) as [Hl1 Ho1].
  destruct (tr_read_emit_active c1 r) as [c2 r2]. cbn [fst snd] in *.
  assert (still (c, r) (c2, r2)) as Hs by (split; cbn [fst snd]; congruence).
  case_match; [|done]. etrans; [exact Hs|].
  etrans; [|apply read_start_barrier_still]. by split.
Qed.

(** ** What a ready reports *)

(** The log of [c] as far as [r] leaves it. *)
Definition kept_log c r : list tr_raft_entry :=
  if r_log_truncate_from r =? 0 then elems (c_log c)
  else take (Z.to_nat (r_log_truncate_from r - log_base_index (c_log c) - 1)) (elems (c_log c)).

(** The log and the commit index of [c'] are those of [c] with the orders of
    [r'] carried out. *)
Record reported c c' r' : Prop := {
  re_base : log_base_index (c_log c') = log_base_index (c_log c) /\
    log_base_term (c_log c') = log_base_term (c_log c);
  re_log : elems (c_log c') =
    if r_log_changed r' then kept_log c r' ++ r_log_entries r' else elems (c_log c);
  re_cut : r_log_truncate_from r' = 0 \/
    (log_base_index (c_log c) < r_log_truncate_from r' /\
     c_commit_index c < r_log_truncate_from r' <= log_last (c_log c));
  re_count : r_log_entry_count r' = Z.of_nat (length (r_log_entries r'));
  re_commit : c_commit_index c' =
    if r_commit_changed r' then r_commit_index r' else c_commit_index c;
  re_admitted : c_apply_admitted_index c' = c_apply_admitted_index c
}.

(** The same within a call, before the committed entries are handed out. *)
Definition reporting c c1 r1 : Prop :=
  reported c c1 r1 /\ r_committed_entries r1 = [] /\ r_committed_entry_count r1 = 0 /\
  c_pending_apply_index c1 = c_pending_apply_index c.

Lemma reporting_still c c1 r1 c2 r2 :
  reporting c c1 r1 -> still (c1, r1) (c2, r2) -> reporting c c2 r2.
Proof.
  intros [[B L C N K A] (P1 & P2 & P3)] [Hl Ho]. cbn [fst snd] in *.
  injection Hl as E1 E2 E3 E4. injection Ho as O1 O2 O3 O4 O5 O6 O7 O8.
  split_and!; [|congruence..].
  split; unfold kept_log in *; rewrite ?E1, ?E2, ?E3, ?O1, ?O2, ?O3, ?O4, ?O5, ?O6; done.
Qed.

Lemma sync_membership_ledger c res c' :
  tr_core_sync_membership c = (res, c') -> ledger c' = ledger c.
Proof.
  unfold tr_core_sync_membership. destruct (tr_core_build_peer_set _) as [[|] peers];
    [|by intros [= <- <-]].
  pose proof (quiet_ledger _ _ (refresh_peers_quiet c peers)) as Hl.
  intros [= <- <-]. case_match; [rewrite become_follower_ledger|]; exact Hl.
Qed.

Lemma update_commit_reporting c c1 r1 c2 r2 :
  reporting c c1 r1 -> tr_update_commit c1 r1 = (SALTS_OK, c2, r2) -> reporting c c2 r2.
Proof.
  intros Hr. unfold tr_update_commit. cbv zeta.
  destruct (update_commit_loop _ _ _) as [candidate|]; [|by intros [= <- <-]].
  destruct (tr_raft_membership_transition_apply _ _) as [[|] t]; [|done].
  set (c3 := c1 <| c_commit_index := _ |> <| c_membership_transition := _ |>).
  destruct (tr_core_sync_membership c3) as [[|] c4] eqn:Hs; [|done]. intros [= <- <-].
  apply sync_membership_ledger in Hs. injection Hs as E1 E2 E3 E4.
  destruct Hr as [[B L C N K A] (P1 & P2 & P3)]. split_and!; try done; [|by rewrite E4].
  split; rewrite ?E1, ?E2, ?E3; done.
Qed.

(** New entries at the end of the log. *)
Lemma extend_reporting c c1 r1 log es :
  reporting c c1 r1 -> r_log_changed r1 = false -> r_log_truncate_from r1 = 0 ->
  log_base_index log = log_base_index (c_log c1) -> log_base_term log = log_base_term (c_log c1) ->
  elems log = elems (c_log c1) ++ es ->
  reporting c (c1 <| c_log := log |>)
    (r1 <| r_log_changed := true |> <| r_log_entries := es |>
        <| r_log_entry_count := Z.of_nat (length es) |>).
Proof.
  intros [[[B1 B2] L C N K A] P] Hc Ht E1 E2 E3. rewrite Hc in L. split; [|done].
  split; record_simpl; try done; [split; congruence|].
  unfold kept_log. record_simpl. rewrite Ht. cbn. by rewrite E3, L.
Qed.

Lemma append_configuration_reporting c c1 r1 conf c2 r2 :
  core_inv c1 -> c_role c1 = TR_RAFT_LEADER -> conf_in_range conf ->
  log_last (c_log c1) < UINT64_MAX -> reporting c c1 r1 -> r_log_changed r1 = false ->
  r_log_truncate_from r1 = 0 ->
  tr_core_append_configuration c1 conf r1 = (SALTS_OK, c2, r2) -> reporting c c2 r2.
Proof.
  intros Hi Hr Hrange Hw Hrep Hc Ht. unfold tr_core_append_configuration. cbv zeta.
  destruct (tr_raft_membership_transition_stage _ _ _) as [[|] t] eqn:Hst; [|done].
  destruct (tr_core_build_peer_set t) as [[|] peers]; [|done].
  unfold tr_require_capacity. destruct (_ <=? _); [|done].
  destruct (decide (Z.of_nat (length (elems (c_log c1))) < log_max_entries (c_log c1)))
    as [Hlt|Hge]; cycle 1.
  { rewrite append_configuration_full; [done|lia|].
    destruct (ki_vote c1 (proj1 Hi)) as [_ ?]; [by right|lia]. }
  destruct (append_configuration_spec (c_log c1) (c_term c1) conf)
    as (e & v & -> & Hel & _); try done; [apply Hi| |by eapply stage_ok_wf; [apply Hi|]|].
  { destruct (ki_vote c1 (proj1 Hi)) as [_ ?]; [by right|lia]. }
  cbn [default]. set (c3 := c1 <| c_log := _ |> <| c_membership_transition := _ |>).
  set (c4 := set_next _ _ _).
  set (r3 := r1 <| r_log_changed := _ |> <| r_log_entries := _ |> <| r_log_entry_count := _ |>).
  assert (reporting c c4 r3) as Hrep3.
  { eapply reporting_still;
      [by apply (extend_reporting c c1 r1 (log_with_entries (c_log c1) v) [e])|].
    split; [|done]. cbn [fst]. transitivity (ledger (tr_core_refresh_peers c3 peers)); [done|].
    by rewrite (quiet_ledger _ _ (refresh_peers_quiet c3 peers)). }
  clearbody c4 r3. destruct (tr_update_commit c4 r3) as [[[|] c5] r5] eqn:Hu; [|done].
  apply (update_commit_reporting _ _ _ _ _ Hrep3) in Hu.
  pose proof (broadcast_replication_still c5 r5) as Hs.
  destruct (tr_broadcast_replication c5 r5) as [c6 r6]. intros [= <- <-].
  by eapply reporting_still.
Qed.

(** ** Following a leader *)

(** Nothing has happened yet in a call. *)
Definition fresh c c1 r1 : Prop := ledger c1 = ledger c /\ orders r1 = orders (tr_reset_ready r1).

Lemma fresh_reporting c c1 r1 : fresh c c1 r1 -> reporting c c1 r1.
Proof.
  intros [Hl Ho]. apply (reporting_still c c (tr_reset_ready r1)); [|by split].
  split; [|done]. split; try done. by left.
Qed.

Lemma follower_adopt_log c m matched t res c' :
  follower_adopt c m matched t = (res, c') ->
  c_log c' = c_log c /\ c_apply_admitted_index c' = c_apply_admitted_index c /\
  c_pending_apply_index c' = c_pending_apply_index c.
Proof.
  unfold follower_adopt. destruct matched; [|by intros [= <- <-]].
  destruct (tr_core_build_peer_set _) as [[|] peers]; [|by intros [= <- <-]].
  set (c0 := c <| c_membership_transition := t |>). set (c1 := tr_core_refresh_peers c0 peers).
  assert (ledger c1 = ledger c0) as [= E1 E2 E3 E4].
  { unfold c1. by rewrite (quiet_ledger _ _ (refresh_peers_quiet c0 peers)). }
  rewrite <- E1, <- E3, <- E4.
  clearbody c1. unfold follower_commit. destruct (_ <? _); [|by intros [= <- <-]]. cbv zeta.
  destruct (tr_raft_membership_transition_apply _ _) as [[|] t']; [|by intros [= <- <-]].
  set (c2 := c1 <| c_commit_index := _ |> <| c_membership_transition := _ |>).
  intros Hs. apply sync_membership_ledger in Hs. by injection Hs as -> _ -> ->.
Qed.

(** The orders of a reconciliation. *)
Definition with_reconcile (rc : tr_raft_log_reconcile_result) (log : tr_raft_log V) r
    : tr_raft_ready :=
  if rc_changed rc then
    r <| r_log_changed := true |> <| r_log_truncate_from := rc_truncate_from rc |>
      <| r_log_entries := log_slice log (rc_append_from rc) (Z.to_nat (rc_append_count rc)) |>
      <| r_log_entry_count := rc_append_count rc |>
  else r.

Lemma reconcile_change_reported c r log' prev es n truncates v :
  log_wf (c_log c) -> log_base_index (c_log c) <= prev ->
  log' = log_with_entries (c_log c) v -> log_wf log' -> differs_at (c_log c) prev es n truncates ->
  (truncates = true -> c_commit_index c < prev + Z.of_nat n + 1) -> prev + Z.of_nat n <= log_last (c_log c) ->
  elems log' = take (Z.to_nat (prev + Z.of_nat n - log_base_index (c_log c))) (elems (c_log c)) ++ drop n es ->
  orders r = orders (tr_reset_ready r) ->
  reported c (c <| c_log := log' |>)
    (with_reconcile (Reconcile true true 0 (if truncates then prev + Z.of_nat n + 1 else 0)
      (prev + Z.of_nat n + 1) (Z.of_nat (length es) - Z.of_nat n)) log' r).
Proof.
  intros Hwf Hp Hlog Hwf' [_ (e & He & _ & Hat)] Hprot Hlast Hel Ho.
  injection Ho as O1 O2 O3 O4 O5 O6 O7 O8. apply lookup_lt_Some in He.
  pose proof (log_last_bounds _ Hwf) as Hbounds.
  assert (log_base_index log' = log_base_index (c_log c)) as Hb by by rewrite Hlog.
  set (k := Z.to_nat (prev + Z.of_nat n - log_base_index (c_log c))) in *.
  assert (k <= length (elems (c_log c)))%nat as Hk by (unfold k, log_last in *; lia).
  assert (log_slice log' (prev + Z.of_nat n + 1) (Z.to_nat (Z.of_nat (length es) - Z.of_nat n)) =
    drop n es) as Hslice.
  { assert (log_last log' = log_base_index (c_log c) + Z.of_nat (k + (length es - n))) as Hl'.
    { unfold log_last. rewrite Hb, Hel, length_app, length_take, length_drop. lia. }
    rewrite log_slice_elems; [|done|lia|unfold k in Hl'; lia].
    rewrite Hb, Hel. replace (Z.to_nat (prev + Z.of_nat n + 1 - log_base_index (c_log c) - 1)) with k
      by (unfold k; lia).
    rewrite drop_app_ge by (rewrite length_take; lia). rewrite length_take.
    replace (k - _)%nat with 0%nat by lia. rewrite drop_0, take_ge; [done|]. rewrite length_drop. lia. }
  unfold with_reconcile. cbn [rc_changed rc_truncate_from rc_append_from rc_append_count].
  rewrite Hslice. split; record_simpl; unfold kept_log; record_simpl; try done.
  - by rewrite Hlog.
  - rewrite Hel. f_equal. destruct truncates.
    + rewrite (proj2 (Z.eqb_neq _ _)) by lia. f_equal. unfold k. lia.
    + cbn. apply take_ge. unfold log_at in Hat.
      replace (log_base_index (c_log c) <? prev + Z.of_nat n + 1) with true in Hat by blia.
      apply lookup_ge_None_1 in Hat. unfold k. lia.
  - destruct truncates; [right|by left]. destruct Hat as (l & Hat & _).
    apply mk_is_Some, log_at_is_Some in Hat. specialize (Hprot eq_refl). lia.
  - rewrite length_drop. lia.
  - by rewrite O5.
Qed.

Lemma reconcile_reported c r prev pt es log' rc :
  log_wf (c_log c) -> 0 <= prev -> entries_follow prev es ->
  tr_raft_log_reconcile (c_log c) prev pt es (c_commit_index c) = (SALTS_OK, log', rc) ->
  orders r = orders (tr_reset_ready r) ->
  reported c (c <| c_log := log' |>) (with_reconcile rc log' r).
Proof.
  intros Hwf Hp Hf Hrc Ho. assert (reported c c r) as Hsame.
  { apply (fresh_reporting c c r). by split. }
  apply reconcile_spec in Hrc as [Hwf' Hrc]; [|done..]. rewrite decide_True in Hrc by done.
  assert (c <| c_log := c_log c |> = c) as Hid by by destruct c.
  destruct Hrc as [(_ & -> & ->)|[Ht Hrc]]; [by rewrite Hid|].
  apply log_term_bounds in Ht as Hb.
  destruct Hrc as [Hag|n truncates v Hd Hprot Hel]; [by rewrite Hid|].
  destruct Hd as [Ha Hd].
  apply (reconcile_change_reported c r _ prev es n truncates v); try done; [lia|].
  destruct Hd as (e & He & _). apply lookup_lt_Some in He. eapply agrees_last; [|exact Ha|]; lia.
Qed.

Lemma reported_from c c1 x r : ledger c1 = ledger c -> reported c1 x r -> reported c x r.
Proof.
  intros [= E1 E2 E3 E4] [B L C N K A].
  split; unfold kept_log in *; rewrite <- ?E1, <- ?E2, <- ?E3; done.
Qed.

(** The commit index of a follower. *)
Lemma commit_reported c c1 c2 r2 :
  reported c c1 r2 -> r_commit_changed r2 = false -> c_commit_index c1 = c_commit_index c ->
  c_log c2 = c_log c1 -> c_apply_admitted_index c2 = c_apply_admitted_index c1 ->
  reported c c2 (if negb (c_commit_index c2 =? c_commit_index c)
                 then r2 <| r_commit_changed := true |> <| r_commit_index := c_commit_index c2 |>
                 else r2).
Proof.
  intros [B L C N K A] Hc Hcc El Ea. rewrite Hc in K.
  destruct (Z.eqb_spec (c_commit_index c2) (c_commit_index c)) as [E|E]; cbn [negb];
    split; record_simpl; rewrite ?El, ?Ea, ?Hc; try done.
Qed.

Lemma step_heartbeat_request_reporting c c1 r1 m c2 r2 :
  fresh c c1 r1 -> core_inv c1 -> message_ok m ->
  tr_step_heartbeat_request c1 m r1 = (SALTS_OK, c2, r2) -> reporting c c2 r2.
Proof.
  intros Hfresh Hi Hm. pose proof Hfresh as [Hl Ho]. pose proof (fresh_reporting _ _ _ Hfresh) as Hrep.
  unfold tr_step_heartbeat_request. cbv zeta. set (type := if is_append m then _ else _). clearbody type.
  destruct (m_term m <? c_term c1).
  { destruct (tr_emit _ _ _ _ _) as [[] r3] eqn:He; apply orders_emit_eq in He;
      intros [= <- <-]; (eapply reporting_still; [exact Hrep|]); (split; [done|]); cbn [snd];
      by rewrite ?orders_update_last. }
  destruct (if tr_raft_log_matches _ _ _ then _ else _) as [[|] t]; [|done].
  destruct (tr_raft_log_reconcile _ _ _ _ _) as [[[|] log'] rc] eqn:Hrc; [|done].
  apply (reconcile_reported _ r1) in Hrc; [|apply Hi|apply Hm|apply Hm|done].
  fold (follow c1 log' m).
  assert (ledger (follow c1 log' m) = ledger (c1 <| c_log := log' |>)) as Hf.
  { rewrite (quiet_ledger _ _ (follow_quiet c1 log' m)). unfold step_down. by case_match. }
  set (cf := follow c1 log' m) in *. clearbody cf.
  destruct (follower_adopt cf m (rc_matched rc) t) as [[|] c3] eqn:Had; [|done].
  apply follower_adopt_log in Had as (E1 & E2 & E3). injection Hf as F1 F2 F3 F4.
  rewrite F1 in E1. rewrite F3 in E2. rewrite F4 in E3. rewrite E1.
  fold (with_reconcile rc log' r1).
  assert (r_commit_changed (with_reconcile rc log' r1) = false /\
    r_committed_entries (with_reconcile rc log' r1) = [] /\
    r_committed_entry_count (with_reconcile rc log' r1) = 0) as (W1 & W2 & W3).
  { injection Ho as O1 O2 O3 O4 O5 O6 O7 O8. unfold with_reconcile. by case_match. }
  set (r3 := with_reconcile rc log' r1) in *. clearbody r3.
  set (r4 := if negb _ then _ else r3).
  assert (reporting c c3 r4) as Hrep4.
  { split; [eapply reported_from; [exact Hl|]; by apply (commit_reported _ (c1 <| c_log := log' |>))|].
    unfold r4. injection Hl as _ _ _ <-. by case_match. }
  clearbody r4. destruct (tr_emit _ _ _ _ _) as [[] r5] eqn:He; apply orders_emit_eq in He;
    intros [= <- <-]; (eapply reporting_still; [exact Hrep4|]); (split; [done|]); cbn [snd];
    by rewrite ?orders_update_last.
Qed.

(** ** Responses *)

Lemma respond_still c m r i last res c' r' :
  respond c m r i last = (res, c', r') -> still (c, r) (c', r').
Proof.
  unfold respond. destruct (_ && _ && _ && _).
  { destruct (tr_emit _ _ _ _ _) as [sent r1] eqn:He. apply orders_emit_eq in He.
    intros [= _ <- <-]. by split. }
  destruct (_ || _); [|by intros [= _ <- <-]].
  pose proof (fill_peer_window_still c r i) as Hs.
  destruct (tr_fill_peer_replication_window c r i) as [c1 r1]. by intros [= _ <- <-].
Qed.

Lemma acknowledge_reporting c c1 r1 m i c2 r2 :
  reporting c c1 r1 -> acknowledge c1 m r1 i = (SALTS_OK, c2, r2) -> reporting c c2 r2.
Proof.
  intros Hr. unfold acknowledge. cbv zeta. set (c3 := set_window _ _ _).
  assert (still (c1, r1) (c3, r1)) as Hs by done. clearbody c3.
  pose proof (reporting_still _ _ _ _ _ Hr Hs) as Hr3.
  destruct (_ <? m_match_index m); [|by intros [= <- <-]].
  set (c4 := if _ <? _ then _ else _).
  assert (still (c3, r1) (c4, r1)) as Hs4 by (unfold c4; by case_match). clearbody c4.
  apply update_commit_reporting. by eapply reporting_still.
Qed.

Lemma step_heartbeat_response_reporting c c1 r1 m i c2 r2 :
  reporting c c1 r1 -> tr_step_heartbeat_response c1 m r1 i = (SALTS_OK, c2, r2) ->
  reporting c c2 r2.
Proof.
  intros Hr. unfold tr_step_heartbeat_response. cbv zeta.
  destruct (c_term c1 <? m_term m).
  { intros [= <- <-]. eapply reporting_still; [exact Hr|]. split; [apply become_follower_ledger|done]. }
  destruct (negb _ || negb _); [by intros [= <- <-]|].
  destruct (m_granted m && _); [by intros [= <- <-]|].
  set (inflight := if type_eqb _ _ then _ else _). clearbody inflight.
  destruct (_ && (inflight <? 0)); [by intros [= <- <-]|].
  destruct (_ && negb _); [by intros [= <- <-]|].
  set (c3 := if tr_raft_membership_is_voter _ _ then _ else c1).
  assert (reporting c c3 r1) as Hr3.
  { eapply reporting_still; [exact Hr|]. unfold c3. by case_match. }
  clearbody c3. destruct (m_granted m).
  - destruct (acknowledge c3 m r1 i) as [[[|] c4] r4] eqn:Ha; [|done].
    apply (acknowledge_reporting _ _ _ _ _ _ _ Hr3) in Ha. intros Hres.
    eapply reporting_still; [exact Ha|by eapply respond_still].
  - intros Hres. eapply reporting_still; [exact Hr3|].
    match type of Hres with respond ?x _ _ _ _ = _ => transitivity (x, r1); [done|] end.
    by eapply respond_still.
Qed.

(** ** The end of a call *)

(** What the caller of a call that has succeeded knows. *)
Definition accounted c c' r' : Prop :=
  reported c c' r' /\
  (c_commit_index c' <= c_apply_admitted_index c' ->
   r_committed_entries r' = [] /\ r_committed_entry_count r' = 0 /\
   c_pending_apply_index c' = c_pending_apply_index c).

Lemma finish_accounted c c1 r1 before c' r' :
  reporting c c1 r1 -> tr_finish c1 r1 before = (SALTS_OK, c', r') -> accounted c c' r'.
Proof.
  intros [[B L C N K A] P]. unfold tr_finish.
  destruct (Z.ltb_spec (c_apply_admitted_index c1) (c_commit_index c1)) as [Hlt|Hge];
    intros [= <- <-]; (split; [by split|]); record_simpl; [lia|done].
Qed.

Lemma begin_fresh c r c1 r1 before :
  core_inv c -> tr_begin c r = (SALTS_OK, c1, r1, before) ->
  fresh c c1 r1 /\ core_inv c1 /\ c1 = c <| c_in_call := true |>.
Proof.
  intros Hi. unfold tr_begin. repeat case_match; try done. intros [= <- <- _].
  split_and!; [done| |done]. by eapply core_inv_quiet, Hi; apply quiet_in_call.
Qed.

Lemma require_capacity_ok c r n c' r' :
  tr_require_capacity c r n = (SALTS_OK, c', r') -> c' = c /\ r' = r.
Proof. unfold tr_require_capacity. case_match; [|done]. by intros [= <- <-]. Qed.

Lemma finish_still c c1 r1 c2 r2 before c' r' :
  reporting c c1 r1 -> still (c1, r1) (c2, r2) ->
  tr_finish c2 r2 before = (SALTS_OK, c', r') -> accounted c c' r'.
Proof. intros Hr Hs. apply finish_accounted. by eapply reporting_still. Qed.
End Report.

(** Opens a call; [Hr] says that nothing has happened, [Hi1] that the core is
    sound. *)
Ltac open_report Hi :=
  let before := fresh "before" in
  let Hb := fresh "Hb" in
  match goal with |- context [tr_begin ?c ?r] =>
    destruct (tr_begin c r) as [[[[|] c1] r1] before] eqn:Hb; [|done];
    apply (begin_fresh c r _ _ _ Hi) in Hb as (Hfresh & Hi1 & Hc1);
    pose proof (fresh_reporting _ _ _ Hfresh) as Hr
  end.

(** A refusal does not succeed. *)
Ltac pass := match goal with |- (if ?b then _ else _) = _ -> _ => destruct b; [done|] end.

Ltac grant :=
  let Hb := fresh "Hb" in
  match goal with |- context [tr_require_capacity ?c ?r ?n] =>
    destruct (tr_require_capacity c r n) as [[[|] ?] ?] eqn:Hb; [|done];
    apply require_capacity_ok in Hb as [-> ->]
  end.

Section Accounts.
Context {V : Type} `{VecLaws V}.
Implicit Types (c : tr_raft_core V) (r : tr_raft_ready).

Lemma configuration_accounted c c1 r1 conf before c' r' :
  fresh c c1 r1 -> core_inv c1 -> c_role c1 = TR_RAFT_LEADER -> conf_in_range conf ->
  log_last (c_log c1) < UINT64_MAX ->
  match tr_core_append_configuration c1 conf r1 with
  | (SALTS_OK, c2, r2) => tr_finish c2 r2 before
  | (res, c2, r2) => fail_reset res c2 r2
  end = (SALTS_OK, c', r') -> accounted c c' r'.
Proof.
  intros Hf Hi Hrole Hrange Hw. pose proof (fresh_reporting _ _ _ Hf) as Hr.
  destruct Hf as [_ [= O1 O2 _ _ _ _ _ _]].
  destruct (tr_core_append_configuration c1 conf r1) as [[[|] c2] r2] eqn:Ha; [|done].
  apply (append_configuration_reporting c) in Ha; try done. by apply finish_accounted.
Qed.

(** The entries [tr_raft_core_propose_batch] reads back are those it appended. *)
Lemma batch_readback (log : tr_raft_log V) (old : list tr_raft_entry) index term ps :
  elems log = old ++ proposal_entries index term ps ->
  (fun k => default zero_entry
              (vec_at_const (log_entries log) (Z.of_nat (length old) + Z.of_nat k)))
    <$> seq 0 (length ps) = proposal_entries index term ps.
Proof.
  intros Hel. apply list_eq. intros k. rewrite list_lookup_fmap.
  destruct (decide (k < length ps)%nat) as [Hk|Hk].
  - rewrite lookup_seq_lt by done. cbn [fmap option_fmap option_map Nat.add].
    rewrite vec_at_const_elems. fold (elems log). replace (_ <? 0) with false by blia.
    rewrite Hel, lookup_app_r by lia.
    replace (Z.to_nat _ - length old)%nat with k by lia.
    destruct (lookup_lt_is_Some_2 (proposal_entries index term ps) k) as [e ->]; [|done].
    unfold proposal_entries. by rewrite length_imap.
  - rewrite lookup_seq_ge by lia. symmetry. apply lookup_ge_None_2.
    unfold proposal_entries. rewrite length_imap. lia.
Qed.

Lemma propose_batch_accounted c ps r c' r' :
  core_inv c -> log_last (c_log c) + Z.of_nat (length ps) <= UINT64_MAX ->
  tr_raft_core_propose_batch c ps r = (SALTS_OK, c', r') -> accounted c c' r'.
Proof.
  intros Hi Hw. unfold tr_raft_core_propose_batch. cbv zeta. do 2 pass. open_report Hi.
  do 2 pass. grant.
  destruct (tr_raft_log_append_local_batch _ _ _) as [[[|] log] slot] eqn:Hlog; [|done].
  apply append_batch_spec in Hlog; [|apply Hi1|by rewrite Hc1].
  destruct (batch_fits _ _ _); [|by destruct Hlog as [? _]].
  destruct Hlog as (_ & -> & Hwf & [v ->] & Hel). cbn [default].
  set (es := (fun k => _) <$> seq 0 _).
  assert (es = proposal_entries (log_last (c_log c1) + 1) (c_term c1) ps) as Hes.
  { apply batch_readback. by rewrite Hel. }
  assert (length es = length ps) as Hlen by (unfold es; by rewrite length_fmap, length_seq).
  clearbody es. set (c2 := set_next _ _ _).
  assert (reporting c c2 (r1 <| r_log_changed := true |> <| r_log_entries := es |>
    <| r_log_entry_count := Z.of_nat (length ps) |>)) as Hr2.
  { destruct Hfresh as [_ [= O1 O2 _ _ _ _ _ _]].
    rewrite <- Hlen. eapply reporting_still; [apply (extend_reporting c c1 r1 (log_with_entries (c_log c1) v) es Hr O1 O2); [done|done|]|done].
    by rewrite Hes. }
  clearbody c2. set (r2 := r1 <| r_log_changed := _ |> <| r_log_entries := _ |>
    <| r_log_entry_count := _ |>) in *. clearbody r2.
  destruct (tr_update_commit c2 r2) as [[[|] c3] r3] eqn:Hu; [|done].
  apply (update_commit_reporting _ _ _ _ _ Hr2) in Hu.
  pose proof (broadcast_replication_still c3 r3) as Hs.
  destruct (tr_broadcast_replication c3 r3) as [c4 r4]. by eapply finish_still.
Qed.

Lemma change_membership_accounted c change r c' r' :
  core_inv c -> log_last (c_log c) < UINT64_MAX -> change_ok change ->
  tr_raft_core_change_membership c change r = (SALTS_OK, c', r') -> accounted c c' r'.
Proof.
  intros Hi Hw Hok. unfold tr_raft_core_change_membership. pass. open_report Hi.
  destruct (role_eqb (c_role c1) TR_RAFT_LEADER) eqn:Hrole; cbn [negb]; [|done].
  apply role_eqb_eq in Hrole. pass.
  destruct (tr_raft_membership_transition_propose _ _ _ _ _ _) as [[|] joint] eqn:Hprop; [|done].
  apply transition_propose_range in Hprop as (j & -> & Hj); [|done..].
  apply configuration_accounted; try done. by rewrite Hc1.
Qed.

Lemma transfer_leadership_accounted c id r c' r' :
  core_inv c -> tr_raft_core_transfer_leadership c id r = (SALTS_OK, c', r') -> accounted c c' r'.
Proof.
  intros Hi. unfold tr_raft_core_transfer_leadership. cbv zeta. do 2 pass. open_report Hi.
  do 2 pass. grant. destruct (_ <=? match_at _ _).
  - destruct (tr_emit _ _ _ _ _) as [sent r2] eqn:He. apply orders_emit_eq in He.
    eapply finish_still; [exact Hr|by split].
  - destruct (tr_emit_replication _ _ _ _) as [[sent c2] r2] eqn:He.
    apply emit_replication_still in He. eapply finish_still; [exact Hr|exact He].
Qed.

Lemma read_index_accounted c id r c' r' :
  core_inv c -> tr_raft_core_read_index c id r = (SALTS_OK, c', r') -> accounted c c' r'.
Proof.
  intros Hi. unfold tr_raft_core_read_index. cbv zeta. pass. open_report Hi. do 4 pass.
  destruct (negb (c_pending_read_count c1 =? 0)).
  - eapply finish_still; [exact Hr|]. by case_match.
  - grant. match goal with |- context [tr_read_start_active_barrier ?x ?y] =>
      pose proof (read_start_barrier_still x y) as Hs;
      destruct (tr_read_start_active_barrier x y) as [c2 r2] end.
    eapply finish_still; [exact Hr|]. etrans; [|exact Hs]. done.
Qed.

Lemma poll_accounted c r c' r' :
  core_inv c -> tr_raft_core_poll c r = (SALTS_OK, c', r') -> accounted c c' r'.
Proof.
  intros Hi. unfold tr_raft_core_poll. open_report Hi.
  assert (forall c2 r2, still (c1, r1) (c2, r2) ->
    (let '(c, r) := tr_fill_replication_windows c2 r2 in tr_finish c r before) =
      (SALTS_OK, c', r') -> accounted c c' r') as Hfill.
  { intros c2 r2 Hs. pose proof (fill_replication_windows_still c2 r2) as Hf.
    destruct (tr_fill_replication_windows c2 r2) as [c3 r3].
    eapply finish_still; [exact Hr|]. by etrans. }
  destruct (_ && _ && _); [|by apply Hfill].
  grant. match goal with |- context [tr_read_start_active_barrier ?x ?y] =>
    pose proof (read_start_barrier_still x y) as Hs;
    destruct (tr_read_start_active_barrier x y) as [c2 r2] end.
  apply Hfill. etrans; [|exact Hs]. done.
Qed.

Lemma snapshot_completed_accounted c id i r c' r' :
  core_inv c -> tr_raft_core_snapshot_completed c id i r = (SALTS_OK, c', r') ->
  accounted c c' r'.
Proof.
  intros Hi. unfold tr_raft_core_snapshot_completed. cbv zeta. do 2 pass. open_report Hi.
  pass. grant. match goal with |- context [tr_fill_peer_replication_window ?x ?y ?z] =>
    pose proof (fill_peer_window_still x y z) as Hs;
    assert (still (c1, r1) (x, y)) as Hx by (by case_match);
    destruct (tr_fill_peer_replication_window x y z) as [c2 r2] end.
  eapply finish_still; [exact Hr|]. by etrans.
Qed.

(** ** Time *)

Lemma tick_leader_accounted c c1 r1 ticks n before c' r' :
  reporting c c1 r1 -> tick_leader ticks n c1 r1 before = (SALTS_OK, c', r') ->
  accounted c c' r'.
Proof.
  intros Hr. unfold tick_leader. destruct (tick_check_quorum ticks c1) as [c2|] eqn:Hcq; cycle 1.
  { eapply finish_still; [exact Hr|]. split; [apply become_follower_ledger|done]. }
  apply tick_check_quorum_quiet in Hcq. cbv zeta. set (c3 := fold_left _ _ _).
  assert (still (c1, r1) (c3, r1)) as Hs.
  { split; [|done]. apply quiet_ledger. etrans; [exact Hcq|]. etrans; [apply tick_transfer_quiet|].
    apply quiet_fold. intros x i. apply tick_window_quiet. }
  clearbody c3. pose proof (reporting_still _ _ _ _ _ Hr Hs) as Hr3.
  destruct (timer_expired _ _ _); [|by eapply finish_still].
  grant. match goal with |- context [tr_broadcast_replication ?x ?y] =>
    pose proof (broadcast_replication_still x y) as Hb;
    destruct (tr_broadcast_replication x y) as [c4 r4] end.
  by eapply finish_still.
Qed.

Lemma tick_accounted c tick r c' r' :
  core_inv c -> log_last (c_log c) < UINT64_MAX ->
  tr_raft_core_tick c tick r = (SALTS_OK, c', r') -> accounted c c' r'.
Proof.
  intros Hi Hw. unfold tr_raft_core_tick. cbv zeta. pass. open_report Hi. pass.
  destruct (role_eqb (c_role c1) TR_RAFT_LEADER) eqn:Hrole; cbn [andb].
  - destruct (tr_raft_membership_transition_needs_final _); [|by apply tick_leader_accounted].
    destruct (tr_raft_membership_transition_final _) as [[|] final] eqn:Hf; [|done].
    apply transition_final_range in Hf as (f & -> & Hrange); [|done].
    apply role_eqb_eq in Hrole. apply configuration_accounted; try done. by rewrite Hc1.
  - destruct (negb (c_self_is_voter c1)).
    { eapply finish_still; [exact Hr|]. by case_match. }
    destruct (timer_expired _ _ _); [|by eapply finish_still].
    pass. grant. match goal with |- context [tr_start_pre_vote ?x ?y] =>
      pose proof (start_pre_vote_still x y) as Hs; destruct (tr_start_pre_vote x y) as [c2 r2] end.
    eapply finish_still; [exact Hr|]. etrans; [|exact Hs]. done.
Qed.

(** ** Messages *)

Lemma step_dispatch_reporting c c1 r1 m i j c2 r2 :
  fresh c c1 r1 -> core_inv c1 -> message_ok m ->
  step_dispatch c1 m r1 i j = (SALTS_OK, c2, r2) -> reporting c c2 r2.
Proof.
  intros Hf Hi Hm. pose proof (fresh_reporting _ _ _ Hf) as Hr. unfold step_dispatch.
  assert (forall cr, still (c1, r1) cr ->
    (let '(c, r) := cr in (SALTS_OK, c, r)) = (SALTS_OK, c2, r2) -> reporting c c2 r2) as Htotal.
  { intros [c3 r3] Hs [= <- <-]. by eapply reporting_still. }
  destruct (m_type m); try done.
  - apply Htotal, step_pre_vote_request_still.
  - apply Htotal, step_pre_vote_response_still.
  - apply Htotal, step_vote_request_still.
  - apply Htotal, step_vote_response_still.
  - pass. destruct (tr_step_heartbeat_request c1 m r1) as [[[|] c3] r3] eqn:He; [|done].
    intros [= <- <-]. by eapply step_heartbeat_request_reporting.
  - destruct (tr_step_heartbeat_response c1 m r1 i) as [[[|] c3] r3] eqn:He; [|done].
    intros [= <- <-]. by eapply step_heartbeat_response_reporting.
  - pass. destruct (tr_step_heartbeat_request c1 m r1) as [[[|] c3] r3] eqn:He; [|done].
    intros [= <- <-]. by eapply step_heartbeat_request_reporting.
  - destruct (tr_step_heartbeat_response c1 m r1 i) as [[[|] c3] r3] eqn:He; [|done].
    intros [= <- <-]. by eapply step_heartbeat_response_reporting.
  - apply Htotal, step_timeout_now_still.
  - apply Htotal, step_read_index_request_still.
  - apply Htotal, step_read_index_response_still.
Qed.

Lemma step_accounted c m r c' r' :
  core_inv c -> message_ok m -> tr_raft_core_step c m r = (SALTS_OK, c', r') -> accounted c c' r'.
Proof.
  intros Hi Hm. unfold tr_raft_core_step. cbv zeta. do 3 pass. open_report Hi.
  destruct (step_required _ _ _) as [n|]; [|done]. grant.
  destruct (step_dispatch _ _ _ _ _) as [[[|] c2] r2] eqn:Hd; [|done].
  apply (step_dispatch_reporting c) in Hd; try done. by apply finish_accounted.
Qed.

Lemma ready_call_accounted c r c' r' :
  core_inv c -> ready_call c r SALTS_OK c' r' -> accounted c c' r'.
Proof.
  intros Hi Hcall. inversion Hcall; subst.
  - by eapply tick_accounted.
  - by eapply step_accounted.
  - by eapply propose_batch_accounted.
  - by eapply change_membership_accounted.
  - by eapply transfer_leadership_accounted.
  - by eapply read_index_accounted.
  - by eapply poll_accounted.
  - by eapply snapshot_completed_accounted.
Qed.
End Accounts.
