(* ===== verification/CoreRefused.v ===== *)
(** * A call that is refused

    A call of the core that fails leaves what the core has told its owner as it
    was: the term and the vote, the log, the commit index and the indices of
    the state machine. Nothing has to be persisted after it. *)

From S2P Require Import Prelude Configuration Membership Transition Window Vec Log CoreState CoreEmit.
From S2P Require Import CoreElection CoreSteps CoreApi CoreFrame CoreInvariant CoreSafety.
From S2P Require Import CoreFollower CoreCalls CoreTime CoreReach.
From Stdlib Require Import ZArith Lia.
From stdpp Require Import base numbers list tactics.
Open Scope Z_scope.
Open Scope raft_scope.

Section Refused.
Context {V : Type} `{VecLaws V}.
Implicit Types (c : tr_raft_core V) (r : tr_raft_ready).

(** The outcome of a call or a handler started in [c]. *)
Definition outcome_keeps c (x : status * tr_raft_core V * tr_raft_ready) : Prop :=
  fst (fst x) <> SALTS_OK -> books (snd (fst x)) = books c.

Lemma ok_keeps c c1 r1 : outcome_keeps c (SALTS_OK, c1, r1).
Proof. by intros []. Qed.

Lemma finish_keeps c c1 r1 before : outcome_keeps c (tr_finish c1 r1 before).
Proof.
  intros Hne. destruct Hne. unfold tr_finish. by repeat case_match.
Qed.

Lemma require_capacity_result c r n res c1 r1 :
  tr_require_capacity c r n = (res, c1, r1) ->
  match res with SALTS_OK => c1 = c /\ r1 = r | _ => books c1 = books c end.
Proof. unfold tr_require_capacity. case_match; by intros [= <- <- <-]. Qed.

Lemma quiet_books c c' : quiet c c' -> books c' = books c.
Proof. intros [Hk _]. unfold books. by injection Hk as _ _ _ _ _ -> -> -> -> -> -> -> _ ->. Qed.

Lemma begin_result c r res c1 r1 before :
  core_inv c -> tr_begin c r = (res, c1, r1, before) ->
  match res with
  | SALTS_OK => books c1 = books c /\ core_inv c1 /\ c_log c1 = c_log c /\ c1 = c <| c_in_call := true |>
  | _ => c1 = c
  end.
Proof.
  intros Hi Hb. destruct (begin_spec _ _ _ _ _ _ Hi Hb) as [(-> & Ho & _ & _ & ->)|(Hne & -> & _)].
  - split_and!; [done|by destruct Ho|done|done].
  - by destruct res.
Qed.

(** ** The parts of a call *)

(** A call whose body keeps the books of the core it was opened on. *)
Lemma call_keeps c r (body : tr_raft_core V -> tr_raft_ready -> tr_raft_before ->
    status * tr_raft_core V * tr_raft_ready) :
  core_inv c ->
  (forall r1 before, let c1 := c <| c_in_call := true |> in
   core_inv c1 -> outcome_keeps c1 (body c1 r1 before)) ->
  outcome_keeps c (match tr_begin c r with
    | (SALTS_OK, c, r, before) => body c r before
    | (result, c, r, _) => (result, c, r)
    end).
Proof.
  intros Hi Hbody. destruct (tr_begin c r) as [[[res c1] r1] before] eqn:Hb.
  apply begin_result in Hb; [|done]. destruct res; [|by subst c1].
  destruct Hb as (Hbooks & Hi1 & _ & ->). intros Hne. rewrite <- Hbooks. by apply Hbody.
Qed.

Lemma fail_call_keeps c res c1 r : books c1 = books c -> outcome_keeps c (fail_call res c1 r).
Proof. by intros Hb _. Qed.

Lemma fail_reset_keeps c res c1 r : books c1 = books c -> outcome_keeps c (fail_reset res c1 r).
Proof. by intros Hb _. Qed.

Lemma capacity_keeps c c1 r n (body : tr_raft_core V -> tr_raft_ready ->
    status * tr_raft_core V * tr_raft_ready) :
  books c1 = books c -> (forall r1, outcome_keeps c (body c1 r1)) ->
  outcome_keeps c (match tr_require_capacity c1 r n with
    | (SALTS_OK, c, r) => body c r
    | failure => failure
    end).
Proof.
  intros Hb Hbody. destruct (tr_require_capacity c1 r n) as [[res c2] r2] eqn:Hc.
  apply require_capacity_result in Hc. destruct res; [destruct Hc as [-> ->]; apply Hbody|].
  intros _. cbn. congruence.
Qed.

(** ** Configurations *)

Lemma append_configuration_keeps c conf r :
  core_inv c -> conf_in_range conf -> c_role c = TR_RAFT_LEADER ->
  log_last (c_log c) < UINT64_MAX -> outcome_keeps c (tr_core_append_configuration c conf r).
Proof.
  intros Hi Hr Hrole Hw. unfold tr_core_append_configuration. cbv zeta.
  pose proof (key_inv_bounds c (proj1 Hi)) as Hbounds. rewrite log_last_index_spec by apply Hi.
  assert (log_last (c_log c) +64 1 = log_last (c_log c) + 1) as -> by (word_simpl; lia).
  destruct (tr_raft_membership_transition_stage _ conf _) as [[|] t] eqn:Hst; [|done].
  destruct (tr_core_build_peer_set t) as [[|] peers] eqn:Hb; [|done].
  destruct (tr_require_capacity c r _) as [[res c2] r2] eqn:Hc.
  apply require_capacity_result in Hc. destruct res; [destruct Hc as [-> ->]|by intros _].
  destruct (decide (Z.of_nat (length (elems (c_log c))) < log_max_entries (c_log c))) as [Hroom|].
  2: { rewrite append_configuration_full; [by intros _|lia|].
       destruct (ki_vote c (proj1 Hi)) as [_ ?]; [by right|lia]. }
  destruct (configuration_appended c conf t peers) as (e & v & -> & Hi1 & Hl1 & Hr1); try done.
  cbv beta iota zeta. cbn [default].
  set (c1 := tr_core_refresh_peers _ peers) in *. clearbody c1. set (c2 := set_next _ _ _).
  assert (quiet c1 c2) as Hq by (etrans; [apply quiet_set_match|apply quiet_set_next]).
  set (r1 := r <| r_log_changed := _ |> <| r_log_entries := _ |> <| r_log_entry_count := _ |>).
  clearbody c2. destruct (safe_quiet _ _ Hq Hi1) as [Hi2 Hl2].
  destruct (update_commit_spec c2 r1 Hi2) as (c3 & r3 & -> & Hi3 & Hl3 & Hf3 & _).
  { left. by rewrite (same_role Hq). }
  destruct (tr_broadcast_replication c3 r3) as [c4 r4]. apply ok_keeps.
Qed.

(** The two calls that append a configuration end alike. *)
Lemma configuration_call_keeps c conf r before :
  core_inv c -> conf_in_range conf -> c_role c = TR_RAFT_LEADER ->
  log_last (c_log c) < UINT64_MAX ->
  outcome_keeps c (match tr_core_append_configuration c conf r with
    | (SALTS_OK, c, r) => tr_finish c r before
    | (result, c, r) => fail_reset result c r
    end).
Proof.
  intros Hi Hr Hrole Hw. pose proof (append_configuration_keeps c conf r Hi Hr Hrole Hw) as Hk.
  destruct (tr_core_append_configuration c conf r) as [[[|error] c1] r1]; [apply finish_keeps|].
  apply fail_reset_keeps. by apply Hk.
Qed.

Lemma change_membership_keeps c change r :
  core_inv c -> log_last (c_log c) < UINT64_MAX -> change_ok change ->
  outcome_keeps c (tr_raft_core_change_membership c change r).
Proof.
  intros Hi Hw Hok. unfold tr_raft_core_change_membership. case_match; [done|].
  apply call_keeps; [done|]. intros r1 before c1 Hi1.
  destruct (role_eqb (c_role c1) TR_RAFT_LEADER) eqn:Hrole; [|by apply fail_call_keeps]. cbn [negb].
  case_match; [by apply fail_call_keeps|]. apply role_eqb_eq in Hrole.
  destruct (tr_raft_membership_transition_propose _ _ _ _ _ _) as [[|] joint] eqn:Hp;
    [|by apply fail_reset_keeps].
  apply transition_propose_range in Hp as (conf & -> & Hr); [|done..].
  by apply configuration_call_keeps.
Qed.

(** ** Proposals, leadership, reads *)

Lemma propose_batch_keeps c ps r :
  core_inv c -> log_last (c_log c) + Z.of_nat (length ps) <= UINT64_MAX ->
  outcome_keeps c (tr_raft_core_propose_batch c ps r).
Proof.
  intros Hi Hw. unfold tr_raft_core_propose_batch. cbv zeta. case_match; [done|]. case_match; [done|].
  apply call_keeps; [done|]. intros r1 before c1 Hi1.
  destruct (role_eqb (c_role c1) TR_RAFT_LEADER) eqn:Hrole; [|by apply fail_call_keeps]. cbn [negb].
  case_match; [by apply fail_call_keeps|]. apply role_eqb_eq in Hrole.
  assert (log_last (c_log c1) + Z.of_nat (length ps) <= UINT64_MAX) as Hw1 by done. clearbody c1.
  apply capacity_keeps; [done|]. intros r2.
  destruct (tr_raft_log_append_local_batch _ _ _) as [[res log] slot] eqn:Hlog.
  apply append_batch_spec in Hlog; [|apply Hi1|done].
  destruct (batch_fits _ _ _) eqn:Hfits.
  2: { destruct Hlog as (Hne & -> & ->). destruct res; [done|]. apply fail_reset_keeps.
       by destruct c1. }
  destruct Hlog as (-> & -> & Hwf & [v ->] & Hel).
  destruct (extend_log_inv c1 v _ Hi1 Hwf Hel) as [Hi2 Hl2].
  { apply proposal_entries_range. unfold batch_fits in Hfits.
    by apply andb_true_iff in Hfits as [_ ?]. }
  set (c2 := c1 <| c_log := _ |>) in *. set (es := _ <$> seq 0 _). set (c3 := set_next _ _ _).
  assert (quiet c2 c3) as Hq by (etrans; [apply quiet_set_match|apply quiet_set_next]).
  assert (c_role c2 = TR_RAFT_LEADER) as Hr2 by done. clearbody c3 c2 es.
  set (r3 := r2 <| r_log_changed := _ |> <| r_log_entries := _ |> <| r_log_entry_count := _ |>).
  destruct (safe_quiet _ _ Hq Hi2) as [Hi3 _].
  destruct (update_commit_spec c3 r3 Hi3) as (c4 & r4 & -> & _).
  { left. by rewrite (same_role Hq). }
  destruct (tr_broadcast_replication c4 r4) as [c5 r5]. apply finish_keeps.
Qed.

Lemma transfer_leadership_keeps c id r :
  core_inv c -> outcome_keeps c (tr_raft_core_transfer_leadership c id r).
Proof.
  intros Hi. unfold tr_raft_core_transfer_leadership. cbv zeta. case_match; [done|]. case_match; [done|].
  apply call_keeps; [done|]. intros r1 before c1 Hi1.
  case_match; [by apply fail_call_keeps|]. case_match; [by apply fail_call_keeps|].
  apply capacity_keeps; [done|]. intros r2. case_match.
  - destruct (tr_emit _ _ _ _ _) as [sent r3]. apply finish_keeps.
  - destruct (tr_emit_replication _ _ _ _) as [[sent c3] r3]. apply finish_keeps.
Qed.

Lemma read_index_keeps c id r : core_inv c -> outcome_keeps c (tr_raft_core_read_index c id r).
Proof.
  intros Hi. unfold tr_raft_core_read_index. case_match; [done|].
  apply call_keeps; [done|]. intros r1 before c1 Hi1.
  do 4 (case_match; [by apply fail_call_keeps|]). case_match; [apply finish_keeps|].
  apply capacity_keeps; [done|]. intros r2. cbv zeta.
  destruct (tr_read_start_active_barrier _ _) as [c3 r3]. apply finish_keeps.
Qed.

Lemma poll_keeps c r : core_inv c -> outcome_keeps c (tr_raft_core_poll c r).
Proof.
  intros Hi. unfold tr_raft_core_poll. apply call_keeps; [done|]. intros r1 before c1 Hi1.
  destruct (role_eqb _ _ && _ && _).
  - destruct (tr_require_capacity c1 r1 _) as [[res c2] r2] eqn:Hc.
    apply require_capacity_result in Hc. destruct res; [|by intros _].
    destruct (tr_read_start_active_barrier _ _) as [c3 r3].
    destruct (tr_fill_replication_windows c3 r3) as [c4 r4]. apply finish_keeps.
  - destruct (tr_fill_replication_windows c1 r1) as [c4 r4]. apply finish_keeps.
Qed.

Lemma snapshot_completed_keeps c id index r :
  core_inv c -> outcome_keeps c (tr_raft_core_snapshot_completed c id index r).
Proof.
  intros Hi. unfold tr_raft_core_snapshot_completed. cbv zeta. case_match; [done|]. case_match; [done|].
  apply call_keeps; [done|]. intros r1 before c1 Hi1.
  case_match; [by apply fail_call_keeps|]. apply capacity_keeps; [done|]. intros r2.
  match goal with |- context [tr_fill_peer_replication_window ?x ?y ?z] =>
    destruct (tr_fill_peer_replication_window x y z) as [c3 r3] end. apply finish_keeps.
Qed.

(** ** Time *)

Lemma tick_leader_keeps c ticks n r before : outcome_keeps c (tick_leader ticks n c r before).
Proof.
  unfold tick_leader. destruct (tick_check_quorum ticks c) as [c1|] eqn:Hq; [|apply finish_keeps].
  cbv zeta. set (c2 := fold_left _ _ _). assert (books c2 = books c) as Hb.
  { apply quiet_books. etrans; [by eapply tick_check_quorum_quiet|].
    etrans; [apply tick_transfer_quiet|]. apply quiet_fold. intros x i. apply tick_window_quiet. }
  clearbody c2. case_match; [|apply finish_keeps]. apply capacity_keeps; [done|]. intros r2.
  destruct (tr_broadcast_replication _ _) as [c3 r3]. apply finish_keeps.
Qed.

Lemma tick_keeps c tick r :
  core_inv c -> log_last (c_log c) < UINT64_MAX -> outcome_keeps c (tr_raft_core_tick c tick r).
Proof.
  intros Hi Hw. unfold tr_raft_core_tick. cbv zeta. case_match; [done|].
  apply call_keeps; [done|]. intros r1 before c1 Hi1. case_match; [by apply fail_call_keeps|].
  destruct (role_eqb (c_role c1) TR_RAFT_LEADER) eqn:Hrole; cbn [andb].
  - destruct (tr_raft_membership_transition_needs_final _); [|apply tick_leader_keeps].
    destruct (tr_raft_membership_transition_final _) as [[|] final] eqn:Hf; [|by apply fail_reset_keeps].
    apply transition_final_range in Hf as (f & -> & Hrange); [|done].
    apply role_eqb_eq in Hrole. by apply configuration_call_keeps.
  - case_match; [apply finish_keeps|]. case_match; [|apply finish_keeps].
    case_match; [by apply fail_call_keeps|]. apply capacity_keeps; [done|]. intros r2.
    destruct (tr_start_pre_vote _ _) as [c3 r3]. apply finish_keeps.
Qed.

(** ** Messages *)

Lemma heartbeat_request_keeps c m r :
  core_inv c -> message_ok m -> outcome_keeps c (tr_step_heartbeat_request c m r).
Proof.
  intros Hi Hm. unfold tr_step_heartbeat_request. cbv zeta. case_match.
  { destruct (tr_emit _ _ _ _ _) as [[] r1]; apply ok_keeps. }
  destruct (if tr_raft_log_matches _ _ _ then _ else _) as [[|] t] eqn:Hre; [|by intros _].
  destruct (tr_raft_log_reconcile _ _ _ _ _) as [[[|error] log'] rc] eqn:Hrc.
  2: { apply reconcile_failed in Hrc as ->; [|apply Hi|apply Hm|apply Hm|done].
       intros _. by destruct c. }
  fold (follow c log' m).
  destruct (follower_adopted c m t log' rc (rc_matched rc) Hi Hm Hre Hrc eq_refl) as (c2 & -> & _).
  destruct (tr_emit _ _ _ _ _) as [[] r3]; apply ok_keeps.
Qed.

Lemma dispatch_keeps c m r i j :
  core_inv c -> message_ok m -> outcome_keeps c (step_dispatch c m r i j).
Proof.
  intros Hi Hm. unfold step_dispatch. cbv zeta.
  destruct (m_type m) eqn:Ht;
    try (match goal with |- outcome_keeps _ (let '(c, r) := ?x in _) => destruct x end; apply ok_keeps).
  all: try by apply fail_call_keeps.
  1, 3: case_match; [by apply fail_call_keeps|]; pose proof (heartbeat_request_keeps c m r Hi Hm) as Hk;
    destruct (tr_step_heartbeat_request c m r) as [[[|error] c1] r1]; [apply ok_keeps|];
    apply fail_reset_keeps; by apply Hk.
  all: destruct (tr_step_heartbeat_response c m r i) as [[res c1] r1] eqn:E;
    apply step_heartbeat_response_safe in E as (-> & _); [|done|done]; apply ok_keeps.
Qed.

Lemma step_keeps c m r : core_inv c -> message_ok m -> outcome_keeps c (tr_raft_core_step c m r).
Proof.
  intros Hi Hm. unfold tr_raft_core_step. cbv zeta. do 3 (case_match; [done|]).
  apply call_keeps; [done|]. intros r1 before c1 Hi1.
  destruct (step_required _ _ _) as [n|]; [|by apply fail_call_keeps].
  apply capacity_keeps; [done|]. intros r2.
  pose proof (dispatch_keeps c1 m r2 (tr_peer_index c (m_from m)) (tr_voter_index c (m_from m)) Hi1 Hm) as Hk.
  destruct (step_dispatch _ _ _ _ _) as [[[|error] c3] r3]; [apply finish_keeps|exact Hk].
Qed.

Lemma ready_call_keeps c r result c' r' :
  core_inv c -> ready_call c r result c' r' -> result <> SALTS_OK -> books c' = books c.
Proof.
  intros Hi Hcall. enough (outcome_keeps c (result, c', r')) as Hk by apply Hk.
  destruct Hcall as [????? Heq|????? Heq|????? Heq|?????? Heq|???? Heq|???? Heq|??? Heq|????? Heq];
    rewrite <- Heq.
  - by apply tick_keeps.
  - by apply step_keeps.
  - by apply propose_batch_keeps.
  - by apply change_membership_keeps.
  - by apply transfer_leadership_keeps.
  - by apply read_index_keeps.
  - by apply poll_keeps.
  - by apply snapshot_completed_keeps.
Qed.

(** C33. A call of the core that is refused, for whatever reason, leaves the term
    and the vote, the log, the commit index, the indices of the state machine
    and the outstanding ready as they were. *)
Theorem refused_call_keeps_state c r result c' r' :
  core_reachable c -> ready_call c r result c' r' -> result <> SALTS_OK ->
  c_term c' = c_term c /\ c_voted_for c' = c_voted_for c /\ c_log c' = c_log c /\
  c_commit_index c' = c_commit_index c /\ c_applied_index c' = c_applied_index c /\
  c_apply_admitted_index c' = c_apply_admitted_index c /\
  c_pending_apply_index c' = c_pending_apply_index c /\
  c_ready_outstanding c' = c_ready_outstanding c.
Proof.
  intros Hr%reachable_inv Hcall Hne. destruct Hr as [Hi _].
  pose proof (ready_call_keeps _ _ _ _ _ Hi Hcall Hne) as Hb. by injection Hb as -> -> -> -> -> -> -> ->.
Qed.
End Refused.
