(* ===== verification/CoreTheorems.v ===== *)
(** * What the core promises

    The theorems about the calls of the core and its handlers, each with a
    witness on a concrete core. *)

From S2P Require Import Prelude Configuration Membership PeerSet Transition Window Vec.
From S2P Require Import Log CoreState CoreEmit CoreElection CoreSteps CoreApi CoreFrame.
From S2P Require Import CoreInvariant CoreSafety CoreFollower CoreCalls CoreTime.
From S2P Require Import CoreReach CoreFlow.
From Stdlib Require Import ZArith Lia.
From stdpp Require Import base numbers list tactics relations.
Open Scope Z_scope.
Open Scope raft_scope.

Section Promises.
Context {V : Type} `{VecLaws V}.
Implicit Types (c : tr_raft_core V) (r : tr_raft_ready) (m : tr_raft_message).

(** ** Messages that were emitted *)

Lemma last_update_last f r :
  list.last (r_messages (update_last f r)) = f <$> list.last (r_messages r).
Proof.
  unfold update_last. record_simpl. rewrite !last_lookup, length_alter.
  apply list_lookup_alter_eq.
Qed.

Lemma emit_last c r type to granted :
  tr_peer_paused c to = false ->
  exists r1 x, tr_emit c r type to granted = (true, r1) /\
    r_messages r1 = r_messages r ++ [x] /\ m_type x = type /\ m_from x = c_self_id c /\
    m_to x = to /\ m_term x = c_term c /\ m_campaign_term x = c_campaign_term c /\
    m_granted x = granted /\
    m_last_log_index x = tr_raft_log_last_index (c_log c) /\
    m_last_log_term x = tr_raft_log_last_term (c_log c).
Proof. intros Hp. unfold tr_emit. rewrite Hp. eexists _, _. by repeat split. Qed.

Lemma become_follower_paused c term to :
  tr_peer_paused (tr_become_follower c term) to = tr_peer_paused c to.
Proof. unfold tr_become_follower. by destruct (_ <? term). Qed.

Lemma become_follower_log c term :
  c_log (tr_become_follower c term) = c_log c /\
  c_self_is_voter (tr_become_follower c term) = c_self_is_voter c /\
  c_self_id (tr_become_follower c term) = c_self_id c /\
  c_term (tr_become_follower c term) = Z.max (c_term c) term.
Proof.
  pose proof (become_follower_quiet c term) as Hq.
  rewrite (same_log Hq), (same_self_is_voter Hq), (same_self_id Hq), (same_term Hq).
  destruct (step_down_fields c term) as (_ & -> & -> & _).
  unfold step_down. by destruct (_ <? _).
Qed.

(** ** Votes *)

(** C2. A vote request is answered with one response, in the term of the voter.
    A vote is granted only to a candidate of the current term whose log is up to
    date, only by a voter, and only when no other candidate had the vote of this
    term; then the candidate is the vote on record. *)
Theorem vote_granted_once c m r c' r'
    (Hinv : core_inv c) (Hm : message_ok m)
    (Hpaused : tr_peer_paused c (m_from m) = false)
    (Hstep : tr_step_vote_request c m r = (c', r')) :
  exists x, r_messages r' = r_messages r ++ [x] /\
    m_type x = TR_RAFT_MSG_VOTE_RESPONSE /\ m_to x = m_from m /\ m_term x = c_term c' /\
    c_term c' = Z.max (c_term c) (m_term m) /\
    (m_granted x = true <->
     m_term m = c_term c' /\ c_self_is_voter c = true /\ tr_log_is_up_to_date c m = true /\
     (c_term c < m_term m \/ c_voted_for c = 0 \/ c_voted_for c = m_from m)) /\
    (m_granted x = true -> c_voted_for c' = m_from m) /\
    (m_granted x = false -> c_term c' = c_term c -> c_voted_for c' = c_voted_for c).
Proof.
  unfold tr_step_vote_request in Hstep.
  set (c0 := if c_term c <? m_term m then _ else c) in Hstep.
  assert (tr_peer_paused c0 (m_from m) = false /\ c_log c0 = c_log c /\
    c_self_is_voter c0 = c_self_is_voter c /\ c_term c0 = Z.max (c_term c) (m_term m) /\
    c_voted_for c0 = (if c_term c <? m_term m then 0 else c_voted_for c))
    as (Hp & Hlog & Hsv & Ht & Hv).
  { subst c0. destruct (Z.ltb_spec (c_term c) (m_term m)) as [Hlt|Hge].
    - rewrite become_follower_paused.
      destruct (become_follower_log c (m_term m)) as (-> & -> & _ & ->).
      do 4 (split; [done|]). unfold tr_become_follower.
      by replace (c_term c <? m_term m) with true by blia.
    - do 3 (split; [done|]). split; [lia|done]. }
  clearbody c0.
  assert (tr_log_is_up_to_date c0 m = tr_log_is_up_to_date c m) as Hup
    by (unfold tr_log_is_up_to_date; by rewrite Hlog).
  destruct (c_self_is_voter c0 && _ && _ && tr_log_is_up_to_date c0 m) eqn:Hg;
    rewrite Hup in Hg; set (up := tr_log_is_up_to_date c m) in *; clearbody up.
  - rewrite !andb_true_iff, orb_true_iff, !Z.eqb_eq in Hg. destruct Hg as [[[Hg1 Hg2] Hg3] Hg4].
    cbv zeta in Hstep. match type of Hstep with context [tr_emit ?y _ ?t _ ?g] =>
      destruct (emit_last y r t (m_from m) g Hp)
        as (r1 & x & He & Hx & Hty & _ & Hto & Hterm & _ & Hgr & _) end.
    rewrite He in Hstep. cbn [snd] in Hstep. injection Hstep as <- <-. exists x. record_simpl.
    rewrite Hgr, Hty, Hto, Hterm. do 4 (split; [done|]). split; [done|].
    split; [|done]. split; [|done]. intros _. split; [done|]. split; [congruence|].
    split; [done|]. rewrite Hv in Hg3.
    destruct (Z.ltb_spec (c_term c) (m_term m)); [by left|]. right. tauto.
  - destruct (emit_last c0 r TR_RAFT_MSG_VOTE_RESPONSE (m_from m) false Hp)
      as (r1 & x & He & Hx & Hty & _ & Hto & Hterm & _ & Hgr & _).
    rewrite He in Hstep. cbn [snd] in Hstep. injection Hstep as <- <-. exists x.
    rewrite Hgr, Hty, Hto, Hterm. do 4 (split; [done|]). split; [done|].
    split; [|split; [done|]].
    + split; [done|]. intros (E1 & E2 & -> & E4). exfalso.
      rewrite Hsv, E2, E1, Z.eqb_refl, Hv in Hg. cbn [andb] in Hg.
      rewrite andb_true_r, orb_false_iff, !Z.eqb_neq in Hg.
      destruct (Z.ltb_spec (c_term c) (m_term m)); lia.
    + intros _ Heq. rewrite Hv. replace (_ <? _) with false by blia. done.
Qed.

(** A pre-vote binds nobody: the request is answered with one response that
    echoes its campaign term, and neither the term nor the vote, the role, the
    log or the timers of the node change. It is granted by a voter exactly when
    the campaign term is newer than its term and the log is up to date. *)
Theorem pre_vote_binds_nobody c m r c' r'
    (Hpaused : tr_peer_paused c (m_from m) = false)
    (Hstep : tr_step_pre_vote_request c m r = (c', r')) :
  c' = c <| c_campaign_term := 0 |> /\
  exists x, r_messages r' = r_messages r ++ [x] /\
    m_type x = TR_RAFT_MSG_PRE_VOTE_RESPONSE /\ m_to x = m_from m /\
    m_term x = c_term c /\ m_campaign_term x = m_campaign_term m /\
    (m_granted x = true <->
     c_self_is_voter c = true /\ c_term c <> UINT64_MAX /\
     c_term c +64 1 <= m_campaign_term m /\ tr_log_is_up_to_date c m = true).
Proof.
  unfold tr_step_pre_vote_request in Hstep. cbv zeta in Hstep.
  match type of Hstep with context [tr_emit ?y _ ?t _ ?g] =>
    destruct (emit_last y r t (m_from m) g Hpaused)
      as (r1 & x & He & Hx & Hty & _ & Hto & Hterm & Hc & Hgr & _) end.
  rewrite He in Hstep. cbn [snd] in Hstep. injection Hstep as <- <-. split; [done|].
  exists x. rewrite Hgr, !andb_true_iff, negb_true_iff, Z.eqb_neq, Z.leb_le.
  do 5 (split; [done|]). tauto.
Qed.

(** ** Commitment *)

(** C3. The commit rule of a leader. [tr_update_commit] finds the largest index
    above the commit index, below the next pending configuration, whose entry is
    of the current term and which the match indices of a quorum have reached;
    it commits that index, or nothing when there is none, and it never fails. *)
Theorem leader_commit_rule c r
    (Hinv : core_inv c) (Hrole : c_role c = TR_RAFT_LEADER) :
  exists c' r', tr_update_commit c r = (SALTS_OK, c', r') /\
    c_log c' = c_log c /\ c_term c' = c_term c /\
    let allowed i :=
      c_commit_index c < i <= commit_limit c /\
      term_at (tr_raft_log_get (c_log c) i) = c_term c /\
      tr_core_match_quorum c i = true in
    (c_commit_index c' = c_commit_index c /\ c' = c /\ r' = r /\
     forall i, ~ allowed i) \/
    (allowed (c_commit_index c') /\ r_commit_changed r' = true /\
     r_commit_index r' = c_commit_index c' /\
     forall i, allowed i -> i <= c_commit_index c').
Proof.
  destruct (update_commit_spec c r Hinv (or_introl Hrole))
    as (c' & r' & Heq & _ & _ & _ & Hlog & Hterm & Hcases).
  assert (forall i, c_commit_index c < i <= commit_limit c /\
      term_at (tr_raft_log_get (c_log c) i) = c_term c /\
      tr_core_match_quorum c i = true <->
    committable c i = true /\ i <= commit_limit c) as Hal.
  { intros i. unfold committable. rewrite !andb_true_iff, Z.ltb_lt, Z.eqb_eq. tauto. }
  exists c', r'. split; [done|]. split; [done|]. split; [done|]. cbv zeta.
  destruct Hcases as [(Hno & -> & ->)|(Hyes & Hle & Hmax & ->)].
  - left. do 3 (split; [done|]). intros i [Hi Hl]%Hal. by rewrite Hno in Hi.
  - right. split; [by apply Hal|]. do 2 (split; [done|]). intros i [Hi Hl]%Hal.
    destruct (decide (i <= c_commit_index c')) as [|Hgt]; [done|].
    rewrite Hmax in Hi; [done|lia].
Qed.

(** C6. An append request that matches the log of the follower is accepted as a
    whole: afterwards the log holds every entry of the request, the term is the
    one of the leader, no committed entry has changed, and the commit index has
    moved to the leader's, bounded by the log and by the next configuration. *)
Theorem append_request_accepted c m r c' r'
    (Hinv : core_inv c) (Hm : message_ok m) (Hterm : c_term c <= m_term m)
    (Hmatch : log_term (c_log c) (m_previous_log_index m) = Some (m_previous_log_term m))
    (Hstep : tr_step_heartbeat_request c m r = (SALTS_OK, c', r')) :
  agrees (c_log c') (m_previous_log_index m) (m_entries m) (length (m_entries m)) /\
  c_term c' = m_term m /\
  (forall i, i <= c_commit_index c ->
     tr_raft_log_get (c_log c') i = tr_raft_log_get (c_log c) i) /\
  exists t,
    tr_core_rebuild_pending_transition c (m_previous_log_index m) (m_entries m) =
      (SALTS_OK, t) /\
    c_commit_index c' = Z.max (c_commit_index c)
      (tr_raft_membership_transition_commit_limit t
         (Z.min (m_leader_commit m) (tr_raft_log_last_index (c_log c')))).
Proof.
  pose proof (ki_log c (proj1 Hinv)) as Hlog. pose proof Hmatch as Hb.
  apply log_term_bounds in Hb.
  unfold tr_step_heartbeat_request in Hstep.
  replace (m_term m <? c_term c) with false in Hstep by blia.
  rewrite (proj2 (log_matches_spec _ _ _ Hlog) Hmatch) in Hstep.
  destruct (tr_core_rebuild_pending_transition _ _ _) as [res t] eqn:Hre.
  destruct (decide (res = SALTS_OK)) as [->|Hne]; [|by destruct res].
  destruct (tr_raft_log_reconcile _ _ _ _ _) as [[res log'] rc] eqn:Hrc.
  destruct (decide (res = SALTS_OK)) as [->|Hne]; [|by destruct res].
  apply reconcile_spec in Hrc as [Hwf Hrc]; [|done|apply Hm|apply Hm].
  rewrite decide_True in Hrc by done. destruct Hrc as [(? & _)|[_ Hrc]]; [done|].
  assert (rc_matched rc = true) as Hmt by by destruct Hrc.
  fold (follow c log' m) in Hstep. rewrite Hmt in Hstep.
  destruct (follower_adopt_safe c m t log' rc Hinv Hm Hwf Hrc Hb Hre)
    as (x & Hx & Hix & Hlx & Elog & Eterm & Ecommit).
  rewrite Hx in Hstep.
  assert (c' = x) as ->.
  { destruct (tr_emit _ _ _ _ _) as [[] ?] in Hstep; by injection Hstep. }
  rewrite log_last_index_spec by apply Hix. rewrite Elog.
  split; [by eapply reconciled_holds|]. split; [lia|]. split.
  - intros i Hi. rewrite !log_get_spec by done.
    destruct (decide (log_base_index log' < i)) as [Hlt|Hge].
    + pose proof (cl_committed _ _ Hlx i Hi) as Hk. rewrite Elog in Hk. auto.
    + unfold log_at. destruct (reconciled_base _ _ _ _ _ _ Hrc) as (Eb & _).
      rewrite Eb in *. by replace (_ <? _) with false by blia.
  - exists t. by rewrite Ecommit.
Qed.

(** ** Runs of the core *)

(** C5. Every state a core reaches from its creation through the calls of the
    interface satisfies the invariant, and no call leaves the core locked. *)
Theorem core_reachable_invariant c (Hreach : core_reachable c) :
  core_inv c /\ c_in_call c = false.
Proof. by apply reachable_inv. Qed.

(** C1. A node takes nothing back. Along any sequence of calls, failed ones
    included, the term never decreases, the vote given in a term stays, commit
    and applied index never decrease, and every committed entry still in the log
    is the same entry with the same term. *)
Theorem core_run_safety c c'
    (Hreach : core_reachable c) (Hrun : rtc core_call c c') :
  c_self_id c' = c_self_id c /\ c_term c <= c_term c' /\
  (c_term c' = c_term c -> c_voted_for c <> 0 -> c_voted_for c' = c_voted_for c) /\
  c_commit_index c <= c_commit_index c' /\ c_applied_index c <= c_applied_index c' /\
  (forall i, i <= c_commit_index c -> log_base_index (c_log c') < i ->
     tr_raft_log_get (c_log c') i = tr_raft_log_get (c_log c) i) /\
  (forall i, i <= c_commit_index c -> log_base_index (c_log c') <= i ->
     log_term (c_log c') i = log_term (c_log c) i).
Proof.
  destruct (reachable_inv c Hreach) as [Hi _].
  destruct (run_grows c c' Hi Hrun) as [Hi' []].
  do 4 (split; [done|]). split; [lia|]. split; [|done].
  intros i Hle Hb. rewrite !log_get_spec by (apply Hi || apply Hi'). by apply gr_committed.
Qed.

(** C24. The messages of a call never exceed the buffer of the caller, and the
    buffer keeps its size, when the buffer has at least one slot. *)
Theorem ready_buffer_bound c r result c' r'
    (Hreach : core_reachable c) (Hcall : ready_call c r result c' r')
    (Hcap : 1 <= r_message_capacity r) (Hfit : r_message_count r <= r_message_capacity r) :
  r_message_capacity r' = r_message_capacity r /\
  r_message_count r' <= r_message_capacity r'.
Proof.
  destruct (reachable_inv c Hreach) as [Hi _].
  apply ready_call_post in Hcall as []; [|done]. split; [done|]. by apply cp_fits.
Qed.

(** C25. The hard state is never lost: a call that succeeds reports the term and
    the vote of the core, and the flag that asks to persist them is set exactly
    when one of them has changed. *)
Theorem hard_state_always_reported c r c' r'
    (Hreach : core_reachable c) (Hcall : ready_call c r SALTS_OK c' r') :
  r_term r' = c_term c' /\ r_voted_for r' = c_voted_for c' /\
  (r_hard_state_changed r' = true <->
   (c_term c', c_voted_for c') <> (c_term c, c_voted_for c)).
Proof.
  destruct (reachable_inv c Hreach) as [Hi _].
  apply ready_call_post in Hcall as []; [|done]. by apply cp_reported.
Qed.

(** The committed entries are delivered in order and without a gap: when a
    call succeeds and entries are committed that the application has not
    admitted, the ready holds exactly these entries of the log, from the first
    one not admitted to the commit index, and it stays outstanding. *)
Theorem committed_entries_delivered c r c' r'
    (Hreach : core_reachable c) (Hcall : ready_call c r SALTS_OK c' r')
    (Hnew : c_apply_admitted_index c' < c_commit_index c') :
  c_ready_outstanding c' = true /\ c_pending_apply_index c' = c_commit_index c' /\
  Z.of_nat (length (r_committed_entries r')) =
    c_commit_index c' - c_apply_admitted_index c' /\
  forall k e, r_committed_entries r' !! k = Some e ->
    entry_index e = c_apply_admitted_index c' + 1 + Z.of_nat k /\
    tr_raft_log_get (c_log c') (entry_index e) = Some e.
Proof.
  destruct (reachable_inv c Hreach) as [Hi _].
  apply ready_call_post in Hcall as []; [|done].
  destruct (cp_delivered eq_refl Hnew) as (Ho & Hp & Hn & Hl & Hk).
  split; [done|]. split; [done|]. split; [lia|]. intros k e He. apply Hk in He.
  pose proof (ki_log c' (proj1 cp_inv)) as Hlog.
  destruct (log_at_Some_index _ _ _ Hlog He) as [-> _]. split; [done|].
  by rewrite log_get_spec.
Qed.

Lemma begin_refused c r :
  c_in_call c = true \/ c_ready_outstanding c = true ->
  exists result before, tr_begin c r = (result, c, r, before) /\ result <> SALTS_OK.
Proof.
  intros Ho. unfold tr_begin. destruct (_ && _); [by eexists _, _|].
  replace (c_in_call c || c_ready_outstanding c) with true; [by eexists _, _|].
  destruct Ho as [-> | ->]; [done|by rewrite orb_true_r].
Qed.

(** One ready at a time: while a ready is outstanding, or from within a
    call, every call that would produce a ready is refused and changes neither
    the core nor the ready. *)
Theorem ready_protocol_enforced c r result c' r'
    (Hcall : ready_call c r result c' r')
    (Hbusy : c_in_call c = true \/ c_ready_outstanding c = true) :
  result <> SALTS_OK /\ c' = c /\ r' = r.
Proof.
  destruct (begin_refused c r Hbusy) as (res & before & Hb & Hne).
  assert (forall x rx, (res, x, rx) = (result, c', r') -> x = c -> rx = r ->
    result <> SALTS_OK /\ c' = c /\ r' = r) as Hdone by by intros x rx [= <- <- <-].
  assert (forall s, (s, c, r) = (result, c', r') -> s <> SALTS_OK ->
    result <> SALTS_OK /\ c' = c /\ r' = r) as Hearly by by intros s [= <- <- <-].
  destruct Hcall as [tick ? ? ? _ Heq|m ? ? ? _ Heq|ps ? ? ? _ Heq|ch ? ? ? _ _ Heq
    |id ? ? ? Heq|id ? ? ? Heq|? ? ? Heq|id i ? ? ? Heq]; revert Heq;
    unfold tr_raft_core_tick, tr_raft_core_step, tr_raft_core_propose_batch,
      tr_raft_core_change_membership, tr_raft_core_transfer_leadership,
      tr_raft_core_read_index, tr_raft_core_poll, tr_raft_core_snapshot_completed;
    rewrite Hb; cbv zeta;
    repeat match goal with
    | |- (if ?b then (?s, c, r) else _) = _ -> _ =>
        destruct b; [intros Heq; by apply (Hearly s)|]
    end;
    clear Hb; destruct res; try done; intros Heq; by eapply Hdone.
Qed.

(** ** Operations *)

(** The operation proposed as entry [index] of [term] is decided. *)
Definition settled c (term index : Z) : Prop :=
  term <> 0 /\ index <> 0 /\ log_base_index (c_log c) <= index <= c_commit_index c /\
  log_term (c_log c) index = Some term.

Definition reports c (term index : Z) (state : tr_raft_operation_state) : Prop :=
  exists s, tr_raft_core_operation_status c term index = (SALTS_OK, Some s) /\
    os_state s = state.

Lemma settled_reported c term index :
  core_inv c -> settled c term index ->
  reports c term index TR_RAFT_OPERATION_COMMITTED \/
  reports c term index TR_RAFT_OPERATION_APPLIED.
Proof.
  intros Hi (Ht & Hx & Hr & Hterm). pose proof (key_inv_bounds c (proj1 Hi)) as Hb.
  unfold reports, tr_raft_core_operation_status.
  rewrite log_last_index_spec, log_get_spec by apply Hi.
  replace (term =? 0) with false by blia. replace (index =? 0) with false by blia.
  cbn [orb]. replace (index <? log_base_index (c_log c)) with false by blia.
  unfold log_term in Hterm. destruct (Z.eqb_spec index (log_base_index (c_log c))).
  - injection Hterm as ->. rewrite Z.eqb_refl. right. by eexists.
  - destruct (log_at (c_log c) index) as [e|]; [|done]. injection Hterm as <-.
    replace (log_last (c_log c) <? index) with false by blia. rewrite Z.eqb_refl.
    cbn [negb]. replace (index <=? c_commit_index c) with true by blia.
    destruct (index <=? c_applied_index c); [right|left]; by eexists.
Qed.

Lemma reported_settled c term index state :
  core_inv c -> reports c term index state ->
  state = TR_RAFT_OPERATION_COMMITTED \/ state = TR_RAFT_OPERATION_APPLIED ->
  settled c term index.
Proof.
  intros Hi (s & Hs & <-) Hst. pose proof (key_inv_bounds c (proj1 Hi)) as Hb.
  pose proof Hi as [[] _]. unfold tr_raft_core_operation_status in Hs.
  rewrite log_last_index_spec, log_get_spec in Hs by apply Hi.
  destruct (_ || _) eqn:Hz; [done|].
  destruct (Z.ltb_spec index (log_base_index (c_log c))).
  { injection Hs as <-. by destruct Hst. }
  destruct (Z.eqb_spec index (log_base_index (c_log c))) as [->|Hne].
  { injection Hs as <-. destruct (Z.eqb_spec term (log_base_term (c_log c))) as [->|];
      [|by destruct Hst].
    split; [lia|]. split; [lia|]. split; [lia|]. unfold log_term. by rewrite Z.eqb_refl. }
  destruct (_ <? index). { destruct (_ <? term); [done|]. injection Hs as <-. by destruct Hst. }
  destruct (log_at (c_log c) index) as [e|] eqn:He; [|done]. injection Hs as <-.
  cbn [os_state] in Hst. destruct (Z.eqb_spec (entry_term e) term) as [Ht|]; cbn [negb] in Hst;
    [|by destruct Hst].
  assert (index <= c_commit_index c).
  { destruct (Z.leb_spec index (c_applied_index c)); [lia|].
    destruct (Z.leb_spec index (c_commit_index c)); [done|by destruct Hst]. }
  split; [lia|]. split; [lia|]. split; [lia|]. unfold log_term.
  replace (_ =? _) with false by blia. rewrite He. cbn. by rewrite Ht.
Qed.

(** C26. An operation reported as committed or applied is never lost: whatever
    calls follow, it is reported as committed, as applied, or as expired once its
    entry was compacted, and never as pending or lost. *)
Theorem operation_never_lost c c' term index state
    (Hreach : core_reachable c) (Hrun : rtc core_call c c')
    (Hrep : reports c term index state)
    (Hstate : state = TR_RAFT_OPERATION_COMMITTED \/ state = TR_RAFT_OPERATION_APPLIED) :
  reports c' term index TR_RAFT_OPERATION_COMMITTED \/
  reports c' term index TR_RAFT_OPERATION_APPLIED \/
  (index < log_base_index (c_log c') /\
   reports c' term index TR_RAFT_OPERATION_EXPIRED).
Proof.
  destruct (reachable_inv c Hreach) as [Hi _].
  destruct (run_grows c c' Hi Hrun) as [Hi' []].
  destruct (reported_settled c term index state Hi Hrep Hstate) as (Ht & Hx & Hr & Hterm).
  destruct (decide (index < log_base_index (c_log c'))) as [Hlt|Hge].
  - right. right. split; [done|]. unfold reports, tr_raft_core_operation_status.
    replace (term =? 0) with false by blia. replace (index =? 0) with false by blia.
    replace (index <? log_base_index (c_log c')) with true by blia. by eexists.
  - destruct (settled_reported c' term index Hi'); [|by left|by right; left].
    split; [done|]. split; [done|]. split; [lia|]. rewrite gr_terms by lia. done.
Qed.

End Promises.
