(* ===== verification/Cluster.v ===== *)
(** * Clusters of cores

    An executable cluster: nodes that run the calls of the core and a network
    that holds every message sent so far, which it may deliver late, twice or
    never. It is the setting of the examples and of the traces that show what
    the code does in rare interleavings. *)

From S2P Require Import Prelude Configuration Membership PeerSet Transition Window Vec.
From S2P Require Import Log CoreState CoreEmit CoreElection CoreSteps CoreApi.
From Stdlib Require Import ZArith Lia.
From stdpp Require Import base numbers list tactics.
Open Scope Z_scope.
Open Scope raft_scope.

Section Cluster.
Context {V : Type} `{VecOps V}.

Record cluster := Cluster {
  nodes : list (tr_raft_core V);
  network : list tr_raft_message
}.

Inductive event :=
| Etick (node : nat) (ticks : Z)
| Edeliver (message : nat)
| Epropose (node : nat) (proposals : list tr_raft_proposal)
| Echange (node : nat) (change : tr_raft_membership_change)
| Etransfer (node : nat) (target : Z)
| Eread (node : nat) (context : Z)
| Epoll (node : nat)
| Epause (node : nat) (target : Z) (paused : bool).

(** A buffer of [capacity] messages. *)
Definition buffer (capacity : Z) : tr_raft_ready :=
  tr_reset_ready (Ready true [] capacity false 0 0 false TR_RAFT_FOLLOWER false 0 [] 0
    false 0 [] 0 false (ReadState 0 0) [] []).

(** The host of a node: it persists and sends what the call reported, applies
    the committed entries and advances. A refused call has no effect. *)
Definition host (s : cluster) (i : nat)
    (call : tr_raft_core V -> tr_raft_ready -> status * tr_raft_core V * tr_raft_ready)
    : option cluster :=
  match nodes s !! i with
  | None => None
  | Some c =>
      match call c (buffer 32) with
      | (SALTS_OK, c, r) =>
          Some (Cluster (<[i := snd (tr_raft_core_advance c)]> (nodes s))
                  (network s ++ r_messages r))
      | (_, c, _) => Some (Cluster (<[i := c]> (nodes s)) (network s))
      end
  end.

(** The position of the node with identifier [id]. *)
Definition node_of (s : cluster) (id : Z) : nat :=
  Z.to_nat (find_id 0 (c_self_id <$> nodes s) id).

Definition happens (s : cluster) (e : event) : option cluster :=
  match e with
  | Etick i ticks => host s i (fun c r => tr_raft_core_tick c (Tick ticks 15) r)
  | Edeliver k =>
      match network s !! k with
      | None => None
      | Some m => host s (node_of s (m_to m)) (fun c r => tr_raft_core_step c m r)
      end
  | Epropose i ps => host s i (fun c r => tr_raft_core_propose_batch c ps r)
  | Echange i change => host s i (fun c r => tr_raft_core_change_membership c change r)
  | Etransfer i id => host s i (fun c r => tr_raft_core_transfer_leadership c id r)
  | Eread i id => host s i (fun c r => tr_raft_core_read_index c id r)
  | Epoll i => host s i (fun c r => tr_raft_core_poll c r)
  | Epause i id paused =>
      match nodes s !! i with
      | None => None
      | Some c => Some (Cluster (<[i := snd (tr_raft_core_set_peer_paused c id paused)]>
                                   (nodes s)) (network s))
      end
  end.

Fixpoint run (s : cluster) (events : list event) : option cluster :=
  match events with
  | [] => Some s
  | e :: rest => match happens s e with Some s => run s rest | None => None end
  end.

(** The cluster of freshly created nodes. *)
Definition start (cfgs : list tr_raft_core_config) : cluster :=
  Cluster (omap (fun cfg => snd (tr_raft_core_create true cfg)) cfgs) [].

End Cluster.

Arguments cluster : clear implicits.
