(* ===== verification/CoreTraces.v ===== *)
(** * Examples and traces

    Concrete nodes and clusters on which the theorems about the core are
    applied, and runs that show where the code departs from what it promises. *)

From S2P Require Import Prelude Configuration Membership PeerSet Transition Window Vec.
From S2P Require Import Log CoreState CoreEmit CoreElection CoreSteps CoreApi CoreFrame.
From S2P Require Import CoreInvariant CoreSafety CoreFollower CoreCalls CoreTime.
From S2P Require Import CoreReach CoreFlow CoreRefused CoreTheorems Cluster.
From Stdlib Require Import ZArith Lia.
From stdpp Require Import base numbers list tactics relations.
Open Scope Z_scope.
Open Scope raft_scope.

(** ** Nodes *)

(** Node [id] of a cluster of [voters] with empty logs. *)
Definition example_config (voters : list Z) (id : Z) : tr_raft_core_config :=
  CoreConfig id (Some voters) (Z.of_nat (length voters)) None 0 None 2 10 20 (10 + id)
    0 0 0 0 None 0 0 0 64 0 0.

Definition example_node (voters : list Z) (id : Z) : tr_raft_core list_vec :=
  default core_zero (snd (tr_raft_core_create true (example_config voters id))).

Lemma example_config_ok voters id :
  0 < id < UINT64_MAX -> Forall (fun v => 0 <= v < 2 ^ 64) voters ->
  config_ok (example_config voters id).
Proof.
  intros Hid Hv.
  assert (config_voters (example_config voters id) = voters) as E.
  { unfold config_voters, array_elems. cbn. rewrite Nat2Z.id. by apply take_ge. }
  constructor; rewrite ?E; try done; cbn; try lia.
Qed.

Definition follower : tr_raft_core list_vec := example_node [1; 2; 3] 2.

Lemma follower_reachable : core_reachable follower.
Proof.
  apply (reach_create true (example_config [1; 2; 3] 2)); [|vm_compute; reflexivity].
  apply example_config_ok; [done|]. by repeat constructor.
Qed.

(** A cluster of one node: it elects itself and commits a proposal. *)
Definition alone : tr_raft_core list_vec := example_node [1] 1.
Definition proposal : tr_raft_proposal := Proposal 5 None 0.

Definition core_of (x : status * tr_raft_core list_vec * tr_raft_ready)
    : tr_raft_core list_vec := let '(_, c, _) := x in c.
Definition ready_of (x : status * tr_raft_core list_vec * tr_raft_ready)
    : tr_raft_ready := let '(_, _, r) := x in r.

Definition elected_call := tr_raft_core_tick alone (Tick 11 15) (buffer 4).
Definition leader : tr_raft_core list_vec :=
  snd (tr_raft_core_advance (core_of elected_call)).
Definition proposed_call := tr_raft_core_propose_batch leader [proposal] (buffer 4).
Definition leader_applied : tr_raft_core list_vec :=
  snd (tr_raft_core_advance (core_of proposed_call)).

Lemma alone_reachable : core_reachable alone.
Proof.
  apply (reach_create true (example_config [1] 1)); [|vm_compute; reflexivity].
  apply example_config_ok; [done|]. by repeat constructor.
Qed.

Lemma elected_ready_call :
  ready_call alone (buffer 4) SALTS_OK (core_of elected_call) (ready_of elected_call).
Proof. by apply (call_tick _ _ (Tick 11 15)); vm_compute. Qed.

Lemma leader_reachable : core_reachable leader.
Proof.
  eapply reach_call; [eapply reach_call; [apply alone_reachable|]|].
  - eapply call_ready, elected_ready_call.
  - by apply (call_advance _ SALTS_OK); vm_compute.
Qed.

Lemma proposed_ready_call :
  ready_call leader (buffer 4) SALTS_OK (core_of proposed_call) (ready_of proposed_call).
Proof. by apply (call_propose_batch _ _ [proposal]); vm_compute. Qed.

Lemma leader_applied_run : rtc core_call leader leader_applied.
Proof.
  eapply rtc_l; [eapply call_ready, proposed_ready_call|]. apply rtc_once.
  by apply (call_advance _ SALTS_OK); vm_compute.
Qed.

Lemma leader_applied_reachable : core_reachable leader_applied.
Proof.
  eapply reach_call; [eapply reach_call; [apply leader_reachable|]|].
  - eapply call_ready, proposed_ready_call.
  - by apply (call_advance _ SALTS_OK); vm_compute.
Qed.

(** ** Witnesses *)

Lemma core_reachable_invariant_witness :
  core_inv leader_applied /\ c_in_call leader_applied = false.
Proof. apply (core_reachable_invariant leader_applied), leader_applied_reachable. Defined.

Lemma core_run_safety_witness :
  c_commit_index leader = 0 /\ c_commit_index leader_applied = 1 /\
  c_term leader <= c_term leader_applied.
Proof.
  split; [by vm_compute|]. split; [by vm_compute|].
  apply (core_run_safety leader leader_applied leader_reachable leader_applied_run).
Defined.

Lemma leader_commit_rule_witness :
  exists c' r', tr_update_commit leader_applied (buffer 4) = (SALTS_OK, c', r') /\
    c_term c' = c_term leader_applied.
Proof.
  destruct (leader_commit_rule leader_applied (buffer 4)) as (c' & r' & Heq & _ & Ht & _).
  - apply (reachable_inv leader_applied leader_applied_reachable).
  - by vm_compute.
  - exists c', r'. split; [exact Heq|exact Ht].
Defined.

Lemma ready_buffer_bound_witness :
  r_message_count (ready_of elected_call) <= r_message_capacity (ready_of elected_call).
Proof.
  apply (ready_buffer_bound alone (buffer 4) SALTS_OK (core_of elected_call)
    (ready_of elected_call) alone_reachable elected_ready_call); by vm_compute.
Defined.

Lemma hard_state_always_reported_witness :
  r_hard_state_changed (ready_of elected_call) = true.
Proof.
  apply (hard_state_always_reported alone (buffer 4) (core_of elected_call)
    (ready_of elected_call) alone_reachable elected_ready_call). by vm_compute.
Defined.

Lemma committed_entries_delivered_witness :
  Z.of_nat (length (r_committed_entries (ready_of proposed_call))) = 1.
Proof.
  destruct (committed_entries_delivered leader (buffer 4) (core_of proposed_call)
    (ready_of proposed_call) leader_reachable proposed_ready_call) as (_ & _ & -> & _);
    by vm_compute.
Defined.

Lemma ready_protocol_enforced_witness :
  exists result, result <> SALTS_OK /\
    tr_raft_core_poll (core_of elected_call) (buffer 4) =
      (result, core_of elected_call, buffer 4).
Proof.
  destruct (tr_raft_core_poll (core_of elected_call) (buffer 4)) as [[s c'] r'] eqn:E.
  destruct (ready_protocol_enforced (core_of elected_call) (buffer 4) s c' r')
    as (Hs & -> & ->).
  - apply call_poll. exact E.
  - right. by vm_compute.
  - exists s. split; [exact Hs|reflexivity].
Defined.

Lemma operation_never_lost_witness :
  reports (core_of (tr_raft_core_poll leader_applied (buffer 4))) 1 1
    TR_RAFT_OPERATION_APPLIED.
Proof.
  destruct (operation_never_lost leader_applied
    (core_of (tr_raft_core_poll leader_applied (buffer 4))) 1 1 TR_RAFT_OPERATION_APPLIED
    leader_applied_reachable) as [H|[H|[H _]]].
  - apply rtc_once, (call_ready _ (buffer 4) SALTS_OK _
      (ready_of (tr_raft_core_poll leader_applied (buffer 4)))). by apply call_poll; vm_compute.
  - eexists. by split; vm_compute.
  - by right.
  - destruct H as (s & E & Hs). vm_compute in E. injection E as <-. done.
  - done.
  - by vm_compute in H.
Defined.

Lemma replication_loops_terminate_witness :
  let '(c1, r1) := fill_snapshots leader_applied (buffer 32) in
  let '(c', r') := tr_fill_replication_windows leader_applied (buffer 32) in
  rounds_run c1 r1 c' r'.
Proof.
  assert (log_wf (c_log leader_applied)) as Hwf
    by exact (ki_log _ (proj1 (proj1 (reachable_inv _ leader_applied_reachable)))).
  assert (log_last (c_log leader_applied) < UINT64_MAX) as Hw
    by (vm_compute; reflexivity).
  assert (c_role leader_applied = TR_RAFT_LEADER) as Hrole by (vm_compute; reflexivity).
  exact (proj1 (replication_loops_terminate leader_applied (buffer 32) 0 Hwf Hw) Hrole).
Defined.

(** A message from node 1 to node 2. *)
Definition request (type : tr_raft_message_type) (term campaign_term : Z)
    (es : list tr_raft_entry) (leader_commit : Z) : tr_raft_message :=
  Message type 1 2 term campaign_term 0 0 leader_commit 0 0 0 0 es false 0.

Definition first_entry : tr_raft_entry := Entry 1 1 5 0 [].

Lemma request_ok type term campaign_term leader_commit :
  0 <= term <= UINT64_MAX ->
  message_ok (request type term campaign_term [first_entry] leader_commit) /\
  message_ok (request type term campaign_term [] leader_commit).
Proof.
  intros Ht. split; constructor; cbn; try done; try (by repeat constructor).
  intros [|k] e; [|done]. intros [= <-]. split; [done|]. by constructor.
Qed.

Lemma follower_inv : core_inv follower.
Proof. apply (reachable_inv follower follower_reachable). Qed.

Definition vote_request := request TR_RAFT_MSG_VOTE_REQUEST 1 0 [] 0.

Lemma vote_granted_once_witness :
  exists x, r_messages (snd (tr_step_vote_request follower vote_request (buffer 4))) = [x] /\
    m_granted x = true.
Proof.
  destruct (vote_granted_once follower vote_request (buffer 4)
    (fst (tr_step_vote_request follower vote_request (buffer 4)))
    (snd (tr_step_vote_request follower vote_request (buffer 4))))
    as (x & Hx & _ & _ & _ & _ & Hg & _).
  - exact follower_inv.
  - by apply request_ok.
  - by vm_compute.
  - by vm_compute.
  - exists x. split; [exact Hx|]. apply Hg. split; [by vm_compute|].
    split; [by vm_compute|]. split; [by vm_compute|]. left. by vm_compute.
Defined.

(** A vote that cannot be answered is not given. *)
Definition refused_call := tr_raft_core_step follower vote_request (buffer 0).

Lemma refused_call_keeps_state_witness :
  c_term (core_of refused_call) = 0 /\ c_voted_for (core_of refused_call) = 0.
Proof.
  destruct (refused_call_keeps_state follower (buffer 0) SALTS_ENOSPC (core_of refused_call)
    (ready_of refused_call) follower_reachable) as (-> & -> & _).
  - by apply (call_step _ _ vote_request); [apply request_ok|vm_compute].
  - discriminate.
  - by vm_compute.
Defined.

Definition pre_vote_request := request TR_RAFT_MSG_PRE_VOTE_REQUEST 0 1 [] 0.

Lemma pre_vote_binds_nobody_witness :
  c_term (fst (tr_step_pre_vote_request follower pre_vote_request (buffer 4))) = 0.
Proof.
  destruct (pre_vote_binds_nobody follower pre_vote_request (buffer 4)
    (fst (tr_step_pre_vote_request follower pre_vote_request (buffer 4)))
    (snd (tr_step_pre_vote_request follower pre_vote_request (buffer 4)))) as [-> _];
    by vm_compute.
Defined.

Definition append_request := request TR_RAFT_MSG_APPEND_REQUEST 1 0 [first_entry] 1.
Definition append_call := tr_step_heartbeat_request follower append_request (buffer 4).

Lemma append_request_accepted_witness :
  agrees (c_log (core_of append_call)) 0 [first_entry] 1 /\
  c_commit_index (core_of append_call) = 1.
Proof.
  destruct (append_request_accepted follower append_request (buffer 4)
    (core_of append_call) (ready_of append_call)) as (Hag & _ & _ & _).
  - exact follower_inv.
  - by apply request_ok.
  - by vm_compute.
  - by vm_compute.
  - by vm_compute.
  - split; [exact Hag|by vm_compute].
Defined.

(** ** Where the code departs from Raft *)

(** Evaluates the facts of a trace one after the other. *)
Ltac evaluate := repeat (split; [vm_compute; reflexivity|]); vm_compute; reflexivity.

Definition three_nodes : cluster list_vec :=
  start (example_config [1; 2; 3] <$> [1; 2; 3]).

(** Node 3 is elected, replicates eight entries and commits them everywhere. *)
Definition first_term : list event :=
  [Etick 2 13; Edeliver 0; Edeliver 2; Edeliver 3; Edeliver 5;
   Edeliver 6; Edeliver 7; Edeliver 8; Edeliver 9;
   Epropose 2 (replicate 8 proposal); Edeliver 10; Edeliver 11; Edeliver 12; Edeliver 13;
   Etick 2 2; Edeliver 14; Edeliver 15].

(** It proposes one more entry, which reaches nobody. Node 1 is elected with
    the vote of node 2, its ninth entry reaches node 2 and is committed, and
    its request to node 3 times out. The retry starts from the first entry and
    carries eight entries and the commit index 9. *)
Definition second_term : list event :=
  [Epropose 2 [proposal];
   Etick 0 11; Edeliver 20; Edeliver 22; Edeliver 23; Edeliver 25;
   Epropose 0 [proposal]; Edeliver 28; Edeliver 30; Etick 0 2; Edeliver 32].

(** C34. State machine safety fails: in a cluster of three nodes, from empty
    logs and with messages that are only delayed or lost, two nodes commit
    different entries at the same index. The follower commits up to the end of
    its own log when the leader's commit index is past the entries of the
    request, and commits an entry the leader never sent. *)
Theorem committed_entries_diverge :
  exists s c1 c3 e1 e3,
    run three_nodes (first_term ++ second_term) = Some s /\
    nodes s !! 0%nat = Some c1 /\ nodes s !! 2%nat = Some c3 /\
    c_commit_index c1 = 9 /\ c_commit_index c3 = 9 /\
    tr_raft_log_get (c_log c1) 9 = Some e1 /\ tr_raft_log_get (c_log c3) 9 = Some e3 /\
    entry_term e1 = 2 /\ entry_term e3 = 1.
Proof. eexists _, _, _, _, _. evaluate. Qed.

(** C35. A pre-vote of a node is lost when it answers the pre-vote request of
    another: its campaign term is cleared, and every response to its own request
    is ignored until the next timeout. *)
Theorem pre_vote_round_lost {V : Type} `{VecOps V} (c c' : tr_raft_core V) m r r'
    response r0 voter_index
    (Hstep : tr_step_pre_vote_request c m r = (c', r'))
    (Hresponse : m_campaign_term response = c_campaign_term c)
    (Hcampaign : c_campaign_term c <> 0) (Hterm : m_term response <= c_term c) :
  tr_step_pre_vote_response c' response r0 voter_index = (c', r0).
Proof.
  unfold tr_step_pre_vote_request in Hstep. injection Hstep as <- _.
  unfold tr_step_pre_vote_response. record_simpl. rewrite Hresponse.
  replace (c_term c <? m_term response) with false by blia.
  replace (c_campaign_term c =? 0) with false by blia. cbn [negb].
  by rewrite orb_true_r.
Qed.

(** The leader transfers leadership to node 1, which is paused when it catches
    up: the hand-over stays unsent. *)
Definition unsent_transfer : list event :=
  [Epropose 2 [proposal]; Etransfer 2 1; Edeliver 18; Epause 2 1 true; Edeliver 20;
   Epause 2 1 false].

(** C39. A ready without room for messages receives one: a duplicate of an old
    response makes the leader emit the hand-over, while the check of the
    capacity looks at the match index of the response only. *)
Theorem hand_over_overflows :
  exists s c m c' r',
    run three_nodes (first_term ++ unsent_transfer) = Some s /\
    nodes s !! 2%nat = Some c /\ network s !! 16%nat = Some m /\
    tr_raft_core_step c m (buffer 0) = (SALTS_OK, c', r') /\
    r_message_capacity r' = 0 /\ r_message_count r' = 1.
Proof. eexists _, _, _, _, _. evaluate. Qed.

(** A tick of a leader that is refused for lack of room has changed the
    core: the clock of the quorum check has advanced. *)
Theorem refused_tick_changes_core :
  exists s c c' r',
    run three_nodes first_term = Some s /\ nodes s !! 2%nat = Some c /\
    tr_raft_core_tick c (Tick 2 15) (buffer 0) = (SALTS_ENOSPC, c', r') /\
    c_check_quorum_elapsed_ticks c' = c_check_quorum_elapsed_ticks c + 2.
Proof. eexists _, _, _, _. evaluate. Qed.

Lemma pre_vote_round_lost_witness :
  let c := core_of (tr_raft_core_tick follower (Tick 13 15) (buffer 4)) in
  let c' := fst (tr_step_pre_vote_request c pre_vote_request (buffer 4)) in
  c_role c = TR_RAFT_PRE_CANDIDATE /\
  tr_step_pre_vote_response c'
    (Message TR_RAFT_MSG_PRE_VOTE_RESPONSE 1 2 0 1 0 0 0 0 0 0 0 [] true 0) (buffer 4) 0 =
    (c', buffer 4).
Proof.
  intros c c'. split; [by vm_compute|].
  apply (pre_vote_round_lost c c' pre_vote_request (buffer 4)
    (snd (tr_step_pre_vote_request c pre_vote_request (buffer 4)))); by vm_compute.
Defined.
