(* ===== verification/Runtime.v ===== *)
(** * The runtime: [src/runtime/raft_runtime.c]

    The runtime consumes the ready of a core: it makes the hard state, the log
    and the commit index durable, hands the messages to the transport and the
    committed entries to the state machine, and acknowledges the core. The
    callbacks act on a state [W] of their contexts. Those of the storage and of
    the state machine do not reach the core; those of the transport may. A null
    pointer is [None].

    [blocked_entries] points into the log of the core. It is the list of the
    entries here; [RuntimeApply] shows that the log holds these entries as long
    as the pointer is used. *)

From S2P Require Import Prelude Configuration Log CoreState CoreApi Vec.
From Stdlib Require Import ZArith Lia.
From stdpp Require Import base numbers list tactics.
Open Scope Z_scope.
Open Scope raft_scope.

(** ** Types *)

Inductive tr_raft_runtime_stage :=
| TR_RAFT_RUNTIME_IDLE
| TR_RAFT_RUNTIME_STORAGE_BEGIN
| TR_RAFT_RUNTIME_STORAGE_HARD_STATE
| TR_RAFT_RUNTIME_STORAGE_TRUNCATE
| TR_RAFT_RUNTIME_STORAGE_APPEND
| TR_RAFT_RUNTIME_STORAGE_COMMIT_INDEX
| TR_RAFT_RUNTIME_STORAGE_COMMIT
| TR_RAFT_RUNTIME_TRANSPORT_SEND
| TR_RAFT_RUNTIME_STATE_MACHINE_APPLY
| TR_RAFT_RUNTIME_CORE_ADVANCE
| TR_RAFT_RUNTIME_COMPLETE.

Record tr_raft_storage (W : Type) := StorageCalls {
  st_begin : option (W -> W * status);
  st_write_hard_state : option (W -> Z -> Z -> W * status);
  st_truncate_log : option (W -> Z -> W * status);
  st_append_log : option (W -> list tr_raft_entry -> W * status);
  st_write_commit_index : option (W -> Z -> W * status);
  st_commit : option (W -> W * status);
  st_rollback : option (W -> W * status)
}.
Arguments StorageCalls {W} _ _ _ _ _ _ _.
Arguments st_begin {W} _.
Arguments st_write_hard_state {W} _.
Arguments st_truncate_log {W} _.
Arguments st_append_log {W} _.
Arguments st_write_commit_index {W} _.
Arguments st_commit {W} _.
Arguments st_rollback {W} _.

(** A transport may reach the core, as the one of the service does to pause a
    peer. *)
Record tr_raft_transport (W V : Type) := TransportCalls {
  tp_enqueue : option (W -> tr_raft_core V -> tr_raft_message -> W * tr_raft_core V * status);
  tp_enqueue_snapshot :
    option (W -> tr_raft_core V -> tr_raft_snapshot_request -> W * tr_raft_core V * status)
}.
Arguments TransportCalls {W V} _ _.
Arguments tp_enqueue {W V} _.
Arguments tp_enqueue_snapshot {W V} _.

Record tr_raft_state_machine (W : Type) := StateMachine {
  sm_apply_batch : option (W -> list tr_raft_entry -> W * status)
}.
Arguments StateMachine {W} _.
Arguments sm_apply_batch {W} _.

(** [tr_raft_runtime_config_t]; the core is passed to every call. *)
Record tr_raft_runtime_config (W V : Type) := RuntimeConfig {
  nc_storage : tr_raft_storage W;
  nc_transport : tr_raft_transport W V;
  nc_state_machine : tr_raft_state_machine W
}.
Arguments RuntimeConfig {W V} _ _ _.
Arguments nc_storage {W V} _.
Arguments nc_transport {W V} _.
Arguments nc_state_machine {W V} _.

Record tr_raft_runtime_result := RuntimeResult {
  rr_stage : tr_raft_runtime_stage;
  rr_cause : status;
  rr_rollback_error : status;
  rr_messages_enqueued : Z;
  rr_snapshots_requested : Z;
  rr_applied_through : Z;
  rr_durable : bool;
  rr_read_state_ready : bool;
  rr_read_state : tr_raft_read_state
}.

Definition eta_result (r : tr_raft_runtime_result) : tr_raft_runtime_result :=
  RuntimeResult (rr_stage r) (rr_cause r) (rr_rollback_error r) (rr_messages_enqueued r)
    (rr_snapshots_requested r) (rr_applied_through r) (rr_durable r) (rr_read_state_ready r)
    (rr_read_state r).

#[export] Instance set_rr_stage : Setter rr_stage := ltac:(setter eta_result rr_stage).
#[export] Instance set_rr_cause : Setter rr_cause := ltac:(setter eta_result rr_cause).
#[export] Instance set_rr_rollback_error : Setter rr_rollback_error :=
  ltac:(setter eta_result rr_rollback_error).
#[export] Instance set_rr_messages_enqueued : Setter rr_messages_enqueued :=
  ltac:(setter eta_result rr_messages_enqueued).
#[export] Instance set_rr_snapshots_requested : Setter rr_snapshots_requested :=
  ltac:(setter eta_result rr_snapshots_requested).
#[export] Instance set_rr_applied_through : Setter rr_applied_through :=
  ltac:(setter eta_result rr_applied_through).
#[export] Instance set_rr_durable : Setter rr_durable := ltac:(setter eta_result rr_durable).
#[export] Instance set_rr_read_state_ready : Setter rr_read_state_ready :=
  ltac:(setter eta_result rr_read_state_ready).
#[export] Instance set_rr_read_state : Setter rr_read_state :=
  ltac:(setter eta_result rr_read_state).

(** A result with all bytes zero. *)
Definition blank_result : tr_raft_runtime_result :=
  RuntimeResult TR_RAFT_RUNTIME_IDLE SALTS_OK SALTS_OK 0 0 0 false false (ReadState 0 0).

Record tr_raft_runtime (W V : Type) := RuntimeState {
  rt_storage : tr_raft_storage W;
  rt_transport : tr_raft_transport W V;
  rt_state_machine : tr_raft_state_machine W;
  rt_blocked_entries : list tr_raft_entry;
  rt_blocked_apply_begin : nat;
  rt_apply_blocked : bool;
  rt_faulted : bool
}.
Arguments RuntimeState {W V} _ _ _ _ _ _ _.
Arguments rt_storage {W V} _.
Arguments rt_transport {W V} _.
Arguments rt_state_machine {W V} _.
Arguments rt_blocked_entries {W V} _.
Arguments rt_blocked_apply_begin {W V} _.
Arguments rt_apply_blocked {W V} _.
Arguments rt_faulted {W V} _.

Section Calls.
Context {W V : Type} `{VecOps V}.
Implicit Types (rt : tr_raft_runtime W V) (c : tr_raft_core V) (w : W).
Implicit Types (res : tr_raft_runtime_result) (ready : tr_raft_ready).

(** What a call of the runtime acts on: the runtime, the core it points to,
    the contexts of the callbacks and the result it fills in. *)
Record drive := Drive {
  dr_runtime : tr_raft_runtime W V;
  dr_core : tr_raft_core V;
  dr_world : W;
  dr_result : tr_raft_runtime_result
}.

Definition set_faulted rt : tr_raft_runtime W V :=
  RuntimeState (rt_storage rt) (rt_transport rt) (rt_state_machine rt) (rt_blocked_entries rt)
    (rt_blocked_apply_begin rt) (rt_apply_blocked rt) true.

Definition with_core (d : drive) c : drive :=
  Drive (dr_runtime d) c (dr_world d) (dr_result d).

Definition with_world (d : drive) w : drive :=
  Drive (dr_runtime d) (dr_core d) w (dr_result d).

Definition with_result (d : drive) res : drive :=
  Drive (dr_runtime d) (dr_core d) (dr_world d) res.

Definition at_stage (d : drive) (stage : tr_raft_runtime_stage) : drive :=
  with_result d ((dr_result d) <| rr_stage := stage |>).

Definition tr_ready_needs_storage ready : bool :=
  r_hard_state_changed ready || r_log_changed ready || r_commit_changed ready.

Definition tr_runtime_fail (d : drive) (stage : tr_raft_runtime_stage) (cause : status)
    : status * drive :=
  (cause, Drive (set_faulted (dr_runtime d)) (dr_core d) (dr_world d)
            ((dr_result d) <| rr_stage := stage |> <| rr_cause := cause |>)).

Definition tr_runtime_clear_apply_block (d : drive) : drive :=
  let rt := dr_runtime d in
  Drive (RuntimeState (rt_storage rt) (rt_transport rt) (rt_state_machine rt) [] 0%nat false
           (rt_faulted rt)) (dr_core d) (dr_world d) (dr_result d).

(** ** Applying *)

Fixpoint tr_runtime_ack_applied_range (d : drive) (entries : list tr_raft_entry)
    : status * drive :=
  match entries with
  | [] => (SALTS_OK, d)
  | e :: entries =>
      match tr_raft_core_ack_applied (dr_core d) (entry_index e) with
      | (SALTS_OK, c) =>
          let d := with_core d c in
          tr_runtime_ack_applied_range
            (with_result d ((dr_result d) <| rr_applied_through := entry_index e |>)) entries
      | (ack_result, c) =>
          tr_runtime_fail (with_core d c) TR_RAFT_RUNTIME_CORE_ADVANCE ack_result
      end
  end.

(** The entries from [from] on, up to and without [upto]. *)
Definition entry_range_list (entries : list tr_raft_entry) (from upto : nat)
    : list tr_raft_entry := take (upto - from) (drop from entries).

Definition ack_applied_range (d : drive) (entries : list tr_raft_entry) (from upto : nat)
    : status * drive :=
  tr_runtime_ack_applied_range (at_stage d TR_RAFT_RUNTIME_CORE_ADVANCE)
    (entry_range_list entries from upto).

Definition tr_runtime_ack_ready_prefix (d : drive) (entries : list tr_raft_entry)
    (applied_prefix_end : nat) : status * drive :=
  let d := at_stage d TR_RAFT_RUNTIME_CORE_ADVANCE in
  match tr_raft_core_ack_ready (dr_core d) (Z.of_nat (length entries)) with
  | (SALTS_OK, c) => ack_applied_range (with_core d c) entries 0 applied_prefix_end
  | (ack_result, c) =>
      tr_runtime_fail (with_core d c) TR_RAFT_RUNTIME_CORE_ADVANCE ack_result
  end.

(** How many entries at the start are no configurations. *)
Fixpoint run_length (entries : list tr_raft_entry) : nat :=
  match entries with
  | e :: entries => if tr_raft_conf_entry_is_configuration e then 0 else S (run_length entries)
  | [] => 0
  end.

Definition block_apply (d : drive) (entries : list tr_raft_entry) (from : nat) : drive :=
  let rt := dr_runtime d in
  Drive (RuntimeState (rt_storage rt) (rt_transport rt) (rt_state_machine rt) entries from true
           (rt_faulted rt)) (dr_core d) (dr_world d)
    ((dr_result d) <| rr_stage := TR_RAFT_RUNTIME_STATE_MACHINE_APPLY |>
                 <| rr_cause := SALTS_EBUSY |>).

(** The state machine has returned [apply_error]. *)
Definition apply_refused (d : drive) (entries : list tr_raft_entry) (from : nat)
    (ready_acknowledged : bool) (apply_error : status) : status * drive :=
  let '(result, d) :=
    if ready_acknowledged then (SALTS_OK, d) else tr_runtime_ack_ready_prefix d entries from in
  if failed result then (result, tr_runtime_clear_apply_block d)
  else if bool_decide (apply_error = SALTS_EBUSY)
  then (SALTS_EBUSY, block_apply d entries from)
  else tr_runtime_fail (tr_runtime_clear_apply_block d) TR_RAFT_RUNTIME_STATE_MACHINE_APPLY
         apply_error.

(** Entries [from .. upto) are applied. *)
Definition acknowledge_range (d : drive) (entries : list tr_raft_entry) (from upto : nat)
    (ready_acknowledged : bool) : status * drive :=
  if ready_acknowledged then
    match ack_applied_range d entries from upto with
    | (SALTS_OK, d) => (SALTS_OK, at_stage d TR_RAFT_RUNTIME_STATE_MACHINE_APPLY)
    | (result, d) => (result, tr_runtime_clear_apply_block d)
    end
  else (SALTS_OK, d).

(** Every iteration advances [from], so as many as there are entries are
    enough. *)
Fixpoint runtime_apply_loop (fuel : nat) (d : drive) (entries : list tr_raft_entry) (from : nat)
    (ready_acknowledged : bool) : status * drive :=
  match fuel, drop from entries with
  | S fuel, e :: _ =>
      if tr_raft_conf_entry_is_configuration e then
        match acknowledge_range d entries from (S from) ready_acknowledged with
        | (SALTS_OK, d) => runtime_apply_loop fuel d entries (S from) ready_acknowledged
        | failure => failure
        end
      else
        let upto := (from + run_length (drop from entries))%nat in
        match sm_apply_batch (rt_state_machine (dr_runtime d)) with
        | None => tr_runtime_fail d TR_RAFT_RUNTIME_STATE_MACHINE_APPLY SALTS_EINVAL
        | Some apply_batch =>
            match apply_batch (dr_world d) (entry_range_list entries from upto) with
            | (w, SALTS_OK) =>
                match acknowledge_range (with_world d w) entries from upto ready_acknowledged with
                | (SALTS_OK, d) => runtime_apply_loop fuel d entries upto ready_acknowledged
                | failure => failure
                end
            | (w, apply_error) =>
                apply_refused (with_world d w) entries from ready_acknowledged apply_error
            end
        end
  | _, _ =>
      let d :=
        match entries !! (length entries - 1)%nat with
        | Some e => if ready_acknowledged then d
                    else with_result d ((dr_result d) <| rr_applied_through := entry_index e |>)
        | None => d
        end in
      (SALTS_OK, tr_runtime_clear_apply_block d)
  end.

Definition tr_runtime_apply_from (d : drive) (entries : list tr_raft_entry) (from : nat)
    (ready_acknowledged : bool) : status * drive :=
  runtime_apply_loop (length entries)
    (at_stage d TR_RAFT_RUNTIME_STATE_MACHINE_APPLY) entries from ready_acknowledged.

Definition tr_runtime_advance_after_apply (d : drive) : status * drive :=
  let d := at_stage d TR_RAFT_RUNTIME_CORE_ADVANCE in
  match tr_raft_core_advance (dr_core d) with
  | (SALTS_OK, c) => (SALTS_OK, at_stage (with_core d c) TR_RAFT_RUNTIME_COMPLETE)
  | (result, c) => tr_runtime_fail (with_core d c) TR_RAFT_RUNTIME_CORE_ADVANCE result
  end.

(** ** Persisting *)

Definition tr_storage_complete (storage : tr_raft_storage W) : bool :=
  negb (is_null (st_begin storage) || is_null (st_write_hard_state storage) ||
        is_null (st_truncate_log storage) || is_null (st_append_log storage) ||
        is_null (st_write_commit_index storage) || is_null (st_commit storage) ||
        is_null (st_rollback storage)).

(** A callback of the storage on the context in [d]. [tr_runtime_persist] is
    called when no callback is null. *)
Definition call_storage (d : drive) (stage : tr_raft_runtime_stage)
    (callback : option (W -> W * status)) : status * drive :=
  let d := at_stage d stage in
  match callback with
  | Some f => let '(w, result) := f (dr_world d) in (result, with_world d w)
  | None => (SALTS_EINVAL, d)
  end.

Definition tr_runtime_rollback (d : drive) (stage : tr_raft_runtime_stage) (cause : status)
    : status * drive :=
  let '(w, rollback_error) :=
    match st_rollback (rt_storage (dr_runtime d)) with
    | Some rollback => rollback (dr_world d)
    | None => (dr_world d, SALTS_EINVAL)
    end in
  let d := with_world d w in
  tr_runtime_fail (with_result d ((dr_result d) <| rr_rollback_error := rollback_error |>))
    stage cause.

(** One of the calls of a transaction: when [needed], and rolled back when it
    fails; [next] is the rest of the transaction. *)
Definition transaction_step (needed : bool) (stage : tr_raft_runtime_stage)
    (callback : option (W -> W * status)) (d : drive)
    (next : drive -> status * drive) : status * drive :=
  if needed then
    match call_storage d stage callback with
    | (SALTS_OK, d) => next d
    | (result, d) => tr_runtime_rollback d stage result
    end
  else next d.

Definition tr_runtime_persist (d : drive) ready : status * drive :=
  let storage := rt_storage (dr_runtime d) in
  match call_storage d TR_RAFT_RUNTIME_STORAGE_BEGIN (st_begin storage) with
  | (SALTS_OK, d) =>
      transaction_step (r_hard_state_changed ready) TR_RAFT_RUNTIME_STORAGE_HARD_STATE
        (option_map (fun f w => f w (r_term ready) (r_voted_for ready))
           (st_write_hard_state storage)) d (fun d =>
      transaction_step (r_log_changed ready && negb (r_log_truncate_from ready =? 0))
        TR_RAFT_RUNTIME_STORAGE_TRUNCATE
        (option_map (fun f w => f w (r_log_truncate_from ready)) (st_truncate_log storage))
        d (fun d =>
      transaction_step (r_log_changed ready && negb (r_log_entry_count ready =? 0))
        TR_RAFT_RUNTIME_STORAGE_APPEND
        (option_map (fun f w => f w (r_log_entries ready)) (st_append_log storage))
        d (fun d =>
      transaction_step (r_commit_changed ready) TR_RAFT_RUNTIME_STORAGE_COMMIT_INDEX
        (option_map (fun f w => f w (r_commit_index ready)) (st_write_commit_index storage))
        d (fun d =>
      transaction_step true TR_RAFT_RUNTIME_STORAGE_COMMIT (st_commit storage) d (fun d =>
      (SALTS_OK, with_result d ((dr_result d) <| rr_durable := true |>)))))))
  | (result, d) => tr_runtime_fail d TR_RAFT_RUNTIME_STORAGE_BEGIN result
  end.

(** ** Sending *)

Fixpoint send_messages (d : drive) (messages : list tr_raft_message) : status * drive :=
  match messages with
  | [] => (SALTS_OK, d)
  | m :: messages =>
      match tp_enqueue (rt_transport (dr_runtime d)) with
      | None => tr_runtime_fail d TR_RAFT_RUNTIME_TRANSPORT_SEND SALTS_EINVAL
      | Some enqueue =>
          match enqueue (dr_world d) (dr_core d) m with
          | (w, c, SALTS_OK) =>
              let d := with_core (with_world d w) c in
              send_messages
                (with_result d
                   ((dr_result d) <| rr_messages_enqueued := rr_messages_enqueued (dr_result d) + 1 |>))
                messages
          | (w, c, result) =>
              tr_runtime_fail (with_core (with_world d w) c) TR_RAFT_RUNTIME_TRANSPORT_SEND result
          end
      end
  end.

Fixpoint request_snapshots (d : drive) (requests : list tr_raft_snapshot_request)
    : status * drive :=
  match requests with
  | [] => (SALTS_OK, d)
  | q :: requests =>
      match tp_enqueue_snapshot (rt_transport (dr_runtime d)) with
      | None => tr_runtime_fail d TR_RAFT_RUNTIME_TRANSPORT_SEND SALTS_EINVAL
      | Some enqueue_snapshot =>
          match enqueue_snapshot (dr_world d) (dr_core d) q with
          | (w, c, SALTS_OK) =>
              let d := with_core (with_world d w) c in
              request_snapshots
                (with_result d
                   ((dr_result d)
                      <| rr_snapshots_requested := rr_snapshots_requested (dr_result d) + 1 |>))
                requests
          | (w, c, result) =>
              tr_runtime_fail (with_core (with_world d w) c) TR_RAFT_RUNTIME_TRANSPORT_SEND result
          end
      end
  end.

(** ** The calls *)

Definition tr_raft_runtime_create (config : tr_raft_runtime_config W V) (allocated : bool)
    : status * option (tr_raft_runtime W V) :=
  if negb allocated then (SALTS_ENOMEM, None)
  else (SALTS_OK,
        Some (RuntimeState (nc_storage config) (nc_transport config) (nc_state_machine config)
                [] 0%nat false false)).

(** The part of a ready that the storage gets. *)
Definition store_ready (d : drive) ready : status * drive :=
  if tr_ready_needs_storage ready then
    if negb (tr_storage_complete (rt_storage (dr_runtime d)))
    then tr_runtime_fail d TR_RAFT_RUNTIME_STORAGE_BEGIN SALTS_EINVAL
    else tr_runtime_persist d ready
  else (SALTS_OK, d).

(** The effects of a ready, each after the ones before it. *)
Definition process_ready (d : drive) ready : status * drive :=
  let '(result, d) := store_ready d ready in
  if failed result then (result, d)
  else
    let '(result, d) :=
      send_messages (at_stage d TR_RAFT_RUNTIME_TRANSPORT_SEND) (r_messages ready) in
    if failed result then (result, d)
    else
      let '(result, d) := request_snapshots d (r_snapshot_requests ready) in
      if failed result then (result, d)
      else
        let '(result, d) :=
          if negb (r_committed_entry_count ready =? 0)
          then tr_runtime_apply_from d (r_committed_entries ready) 0 false
          else (SALTS_OK, d) in
        if failed result then (result, d) else tr_runtime_advance_after_apply d.

Definition tr_raft_runtime_process rt c ready w : status * drive :=
  let d := Drive rt c w blank_result in
  if rt_faulted rt then tr_runtime_fail d TR_RAFT_RUNTIME_IDLE SALTS_EPROTO
  else if rt_apply_blocked rt then
    (SALTS_EBUSY,
     with_result d (blank_result <| rr_stage := TR_RAFT_RUNTIME_STATE_MACHINE_APPLY |>
                                <| rr_cause := SALTS_EBUSY |>))
  else
    process_ready
      (with_result d (blank_result <| rr_read_state_ready := r_read_state_ready ready |>
                                  <| rr_read_state := r_read_state ready |>)) ready.

Definition tr_raft_runtime_is_faulted rt : bool := rt_faulted rt.

Definition tr_raft_runtime_apply_blocked rt : bool := rt_apply_blocked rt.

Definition tr_raft_runtime_retry_apply rt c w : status * drive :=
  let d := Drive rt c w blank_result in
  if rt_faulted rt then tr_runtime_fail d TR_RAFT_RUNTIME_IDLE SALTS_EPROTO
  else if negb (rt_apply_blocked rt) ||
          (length (rt_blocked_entries rt) <=? rt_blocked_apply_begin rt)%nat
  then (SALTS_ENOENT, d)
  else
    match tr_runtime_apply_from d (rt_blocked_entries rt) (rt_blocked_apply_begin rt) true with
    | (SALTS_OK, d) => (SALTS_OK, at_stage d TR_RAFT_RUNTIME_COMPLETE)
    | failure => failure
    end.
End Calls.

Arguments drive W V : clear implicits.
