(* ===== verification/Service.v ===== *)
(** * The service: [src/service/raft_service.c]

    A service owns a core and a runtime. It drives every call of the core
    through the runtime, keeps the messages of a peer whose transport is full,
    queues the completed reads, and takes snapshots of the state machine.

    The callbacks act on a state [W] of their contexts. The transport that the
    service gives to its runtime works on the deliveries of the service, so
    they are part of that state: [Staging] tells where. A null callback is
    [None], and a flag tells whether a context pointer is not null. *)

From S2P Require Import Prelude Configuration Log CoreState CoreApi Vec SnapshotSender Runtime Ring.
From Stdlib Require Import ZArith Lia.
From stdpp Require Import base numbers list tactics.
Open Scope Z_scope.
Open Scope raft_scope.

(** ** Types *)

Record tr_raft_service_peer_delivery := PeerDelivery {
  pd_node_id : Z;
  pd_paused : bool;
  pd_messages : option (list tr_raft_message);
  pd_message_head : Z;
  pd_message_count : Z;
  pd_snapshot_pending : bool;
  pd_snapshot : tr_raft_snapshot_request;
  pd_capacity_rejection_count : Z;
  pd_paused_ticks : Z;
  pd_last_error : status
}.

Definition eta_delivery (d : tr_raft_service_peer_delivery) : tr_raft_service_peer_delivery :=
  PeerDelivery (pd_node_id d) (pd_paused d) (pd_messages d) (pd_message_head d)
    (pd_message_count d) (pd_snapshot_pending d) (pd_snapshot d)
    (pd_capacity_rejection_count d) (pd_paused_ticks d) (pd_last_error d).

#[export] Instance set_pd_node_id : Setter pd_node_id := ltac:(setter eta_delivery pd_node_id).
#[export] Instance set_pd_paused : Setter pd_paused := ltac:(setter eta_delivery pd_paused).
#[export] Instance set_pd_messages : Setter pd_messages := ltac:(setter eta_delivery pd_messages).
#[export] Instance set_pd_message_head : Setter pd_message_head :=
  ltac:(setter eta_delivery pd_message_head).
#[export] Instance set_pd_message_count : Setter pd_message_count :=
  ltac:(setter eta_delivery pd_message_count).
#[export] Instance set_pd_snapshot_pending : Setter pd_snapshot_pending :=
  ltac:(setter eta_delivery pd_snapshot_pending).
#[export] Instance set_pd_snapshot : Setter pd_snapshot := ltac:(setter eta_delivery pd_snapshot).
#[export] Instance set_pd_capacity_rejection_count : Setter pd_capacity_rejection_count :=
  ltac:(setter eta_delivery pd_capacity_rejection_count).
#[export] Instance set_pd_paused_ticks : Setter pd_paused_ticks :=
  ltac:(setter eta_delivery pd_paused_ticks).
#[export] Instance set_pd_last_error : Setter pd_last_error :=
  ltac:(setter eta_delivery pd_last_error).

Definition zero_request : tr_raft_snapshot_request := SnapshotRequest 0 0 0 0.

(** A delivery with all bytes zero. *)
Definition zero_delivery : tr_raft_service_peer_delivery :=
  PeerDelivery 0 false None 0 0 false zero_request 0 0 SALTS_OK.

(** Where the deliveries are, and the allocator of the staged messages. *)
Class Staging (W : Type) := {
  deliveries : W -> list tr_raft_service_peer_delivery;
  set_deliveries : list tr_raft_service_peer_delivery -> W -> W;
  stage_allocate : W -> W * bool;
  stage_deallocate : W -> W
}.

Record tr_raft_snapshot_policy (W : Type) := SnapshotPolicy {
  py_applied_entry_threshold : Z;
  py_max_snapshot_bytes : Z;
  py_max_buffered_snapshot_bytes : Z;
  py_source_create : option (W -> Z -> W * status * @tr_raft_snapshot_source W);
  py_source_create_context : bool;
  py_source_store :
    option (W -> Z -> Z -> tr_raft_conf -> @tr_raft_snapshot_source W -> W * status);
  py_source_store_context : bool;
  py_create : option (W -> Z -> list Z -> W * status * list Z * Z);
  py_create_context : bool;
  py_store : option (W -> Z -> Z -> tr_raft_conf -> list Z -> Z -> W * status);
  py_store_context : bool;
  py_journal_compact : option (W -> Z -> Z -> W * status);
  py_journal_compact_context : bool
}.
Arguments SnapshotPolicy {W} _ _ _ _ _ _ _ _ _ _ _ _ _.
Arguments py_applied_entry_threshold {W} _.
Arguments py_max_snapshot_bytes {W} _.
Arguments py_max_buffered_snapshot_bytes {W} _.
Arguments py_source_create {W} _.
Arguments py_source_create_context {W} _.
Arguments py_source_store {W} _.
Arguments py_source_store_context {W} _.
Arguments py_create {W} _.
Arguments py_create_context {W} _.
Arguments py_store {W} _.
Arguments py_store_context {W} _.
Arguments py_journal_compact {W} _.
Arguments py_journal_compact_context {W} _.

Record tr_raft_service_config (W V : Type) := ServiceConfig {
  sc_core : tr_raft_core_config;
  sc_storage : tr_raft_storage W;
  sc_transport : tr_raft_transport W V;
  sc_state_machine : tr_raft_state_machine W;
  sc_snapshot_policy : tr_raft_snapshot_policy W
}.
Arguments ServiceConfig {W V} _ _ _ _ _.
Arguments sc_core {W V} _.
Arguments sc_storage {W V} _.
Arguments sc_transport {W V} _.
Arguments sc_state_machine {W V} _.
Arguments sc_snapshot_policy {W V} _.

(** [struct tr_raft_service], with the contexts its callbacks act on and
    without the message buffer of its readies. *)
Record tr_raft_service (W V : Type) := Service {
  sv_core : tr_raft_core V;
  sv_runtime : tr_raft_runtime W V;
  sv_storage : tr_raft_storage W;
  sv_transport : tr_raft_transport W V;
  sv_state_machine : tr_raft_state_machine W;
  sv_snapshot_policy : tr_raft_snapshot_policy W;
  sv_snapshot_buffer : list Z;
  sv_pending_snapshot : tr_raft_snapshot_point;
  sv_journal_compaction_pending : bool;
  sv_backup_prepared : bool;
  sv_last_runtime_result : tr_raft_runtime_result;
  sv_read_states : list tr_raft_read_state;
  sv_read_state_head : Z;
  sv_read_state_count : Z;
  sv_max_completed_reads : Z;
  sv_faulted : bool;
  sv_cause : status;
  sv_world : W
}.
Arguments Service {W V} _ _ _ _ _ _ _ _ _ _ _ _ _ _ _ _ _ _.
Arguments sv_core {W V} _.
Arguments sv_runtime {W V} _.
Arguments sv_storage {W V} _.
Arguments sv_transport {W V} _.
Arguments sv_state_machine {W V} _.
Arguments sv_snapshot_policy {W V} _.
Arguments sv_snapshot_buffer {W V} _.
Arguments sv_pending_snapshot {W V} _.
Arguments sv_journal_compaction_pending {W V} _.
Arguments sv_backup_prepared {W V} _.
Arguments sv_last_runtime_result {W V} _.
Arguments sv_read_states {W V} _.
Arguments sv_read_state_head {W V} _.
Arguments sv_read_state_count {W V} _.
Arguments sv_max_completed_reads {W V} _.
Arguments sv_faulted {W V} _.
Arguments sv_cause {W V} _.
Arguments sv_world {W V} _.

Definition eta_service {W V : Type} (s : tr_raft_service W V) : tr_raft_service W V :=
  Service (sv_core s) (sv_runtime s) (sv_storage s) (sv_transport s) (sv_state_machine s)
    (sv_snapshot_policy s) (sv_snapshot_buffer s) (sv_pending_snapshot s)
    (sv_journal_compaction_pending s) (sv_backup_prepared s) (sv_last_runtime_result s)
    (sv_read_states s) (sv_read_state_head s) (sv_read_state_count s)
    (sv_max_completed_reads s) (sv_faulted s) (sv_cause s) (sv_world s).

Section Setters.
Context {W V : Type}.
#[export] Instance set_sv_core : Setter (@sv_core W V) := ltac:(setter (@eta_service W V) (@sv_core W V)).
#[export] Instance set_sv_runtime : Setter (@sv_runtime W V) :=
  ltac:(setter (@eta_service W V) (@sv_runtime W V)).
#[export] Instance set_sv_storage : Setter (@sv_storage W V) :=
  ltac:(setter (@eta_service W V) (@sv_storage W V)).
#[export] Instance set_sv_snapshot_buffer : Setter (@sv_snapshot_buffer W V) :=
  ltac:(setter (@eta_service W V) (@sv_snapshot_buffer W V)).
#[export] Instance set_sv_pending_snapshot : Setter (@sv_pending_snapshot W V) :=
  ltac:(setter (@eta_service W V) (@sv_pending_snapshot W V)).
#[export] Instance set_sv_journal_compaction_pending : Setter (@sv_journal_compaction_pending W V) :=
  ltac:(setter (@eta_service W V) (@sv_journal_compaction_pending W V)).
#[export] Instance set_sv_backup_prepared : Setter (@sv_backup_prepared W V) :=
  ltac:(setter (@eta_service W V) (@sv_backup_prepared W V)).
#[export] Instance set_sv_last_runtime_result : Setter (@sv_last_runtime_result W V) :=
  ltac:(setter (@eta_service W V) (@sv_last_runtime_result W V)).
#[export] Instance set_sv_read_states : Setter (@sv_read_states W V) :=
  ltac:(setter (@eta_service W V) (@sv_read_states W V)).
#[export] Instance set_sv_read_state_head : Setter (@sv_read_state_head W V) :=
  ltac:(setter (@eta_service W V) (@sv_read_state_head W V)).
#[export] Instance set_sv_read_state_count : Setter (@sv_read_state_count W V) :=
  ltac:(setter (@eta_service W V) (@sv_read_state_count W V)).
#[export] Instance set_sv_faulted : Setter (@sv_faulted W V) :=
  ltac:(setter (@eta_service W V) (@sv_faulted W V)).
#[export] Instance set_sv_cause : Setter (@sv_cause W V) :=
  ltac:(setter (@eta_service W V) (@sv_cause W V)).
#[export] Instance set_sv_world : Setter (@sv_world W V) :=
  ltac:(setter (@eta_service W V) (@sv_world W V)).
End Setters.

(** ** Deliveries *)

Section Deliveries.
Context {W V : Type} `{Staging W} `{VecOps V}.
Implicit Types (w : W) (c : tr_raft_core V) (i : nat) (transport : tr_raft_transport W V).

(** The delivery at index [i], and an assignment to it. *)
Definition delivery_at w i : tr_raft_service_peer_delivery := nth i (deliveries w) zero_delivery.

Definition update_delivery w i
    (f : tr_raft_service_peer_delivery -> tr_raft_service_peer_delivery) : W :=
  set_deliveries (alter f i (deliveries w)) w.

Definition tr_service_delivery_empty (d : tr_raft_service_peer_delivery) : bool :=
  (pd_message_count d =? 0) && negb (pd_snapshot_pending d).

Definition tr_service_release_delivery_messages w i : W :=
  match pd_messages (delivery_at w i) with
  | None => w
  | Some _ => update_delivery (stage_deallocate w) i (fun d => d <| pd_messages := None |>)
  end.

(** The loop of [tr_service_find_delivery] from index [i] on: the delivery, or
    the first free and the first reusable one. *)
Fixpoint find_delivery_slot c (peer_id : Z) (create : bool) (ds : list tr_raft_service_peer_delivery) i
    (free_slot reusable : option nat) : nat + option nat * option nat :=
  match ds with
  | [] => inr (free_slot, reusable)
  | d :: ds =>
      if pd_node_id d =? peer_id then inl i
      else if (pd_node_id d =? 0) && is_null free_slot
      then find_delivery_slot c peer_id create ds (S i) (Some i) reusable
      else if create && is_null reusable && negb (pd_paused d) && tr_service_delivery_empty d &&
              bool_decide (fst (tr_raft_core_peer_paused c (pd_node_id d)) = SALTS_ENOENT)
      then find_delivery_slot c peer_id create ds (S i) free_slot (Some i)
      else find_delivery_slot c peer_id create ds (S i) free_slot reusable
  end.

Definition tr_service_find_delivery w c (peer_id : Z) (create : bool) : W * option nat :=
  match find_delivery_slot c peer_id create (deliveries w) 0 None None with
  | inl i => (w, Some i)
  | inr (free_slot, reusable) =>
      if negb create then (w, None)
      else
        match (if is_null free_slot then reusable else free_slot) with
        | None => (w, None)
        | Some i =>
            let w := tr_service_release_delivery_messages w i in
            (update_delivery w i (fun _ =>
               zero_delivery <| pd_node_id := peer_id |> <| pd_last_error := SALTS_OK |>), Some i)
        end
  end.

Fixpoint find_delivery_from (peer_id : Z) (ds : list tr_raft_service_peer_delivery)
    : option tr_raft_service_peer_delivery :=
  match ds with
  | [] => None
  | d :: ds => if pd_node_id d =? peer_id then Some d else find_delivery_from peer_id ds
  end.

Definition tr_service_find_delivery_const w (peer_id : Z) : option tr_raft_service_peer_delivery :=
  find_delivery_from peer_id (deliveries w).

Definition tr_service_has_pending_transport w : bool :=
  existsb (fun d => pd_paused d || negb (tr_service_delivery_empty d)) (deliveries w).

Definition tr_service_clear_pending_transport w : W :=
  let w := fold_left tr_service_release_delivery_messages
             (seq 0 (Z.to_nat TR_RAFT_MAX_MEMBERS)) w in
  set_deliveries (replicate (Z.to_nat TR_RAFT_MAX_MEMBERS) zero_delivery) w.

(** One more message that the transport had no room for. *)
Definition reject_capacity (d : tr_raft_service_peer_delivery) : tr_raft_service_peer_delivery :=
  d <| pd_capacity_rejection_count := pd_capacity_rejection_count d +64 1 |>
    <| pd_last_error := SALTS_ENOSPC |>.

Definition tr_service_pause_delivery w c i : W * tr_raft_core V * status :=
  if pd_paused (delivery_at w i) then (update_delivery w i reject_capacity, c, SALTS_OK)
  else
    match tr_raft_core_set_peer_paused c (pd_node_id (delivery_at w i)) true with
    | (SALTS_OK, c) =>
        (update_delivery w i (fun d =>
           reject_capacity (d <| pd_paused := true |> <| pd_paused_ticks := 0 |>)), c, SALTS_OK)
    | (result, c) => (w, c, result)
    end.

Definition empty_messages : list tr_raft_message :=
  replicate (Z.to_nat TR_RAFT_MAX_VOTERS) zero_message.

(** The slot after the last staged message is written. *)
Definition push_message (m : tr_raft_message) (d : tr_raft_service_peer_delivery)
    : tr_raft_service_peer_delivery :=
  let slot := (pd_message_head d + pd_message_count d) mod TR_RAFT_MAX_VOTERS in
  d <| pd_messages := option_map (fun a => array_set a slot m) (pd_messages d) |>
    <| pd_message_count := pd_message_count d + 1 |>.

Definition tr_service_stage_message w i (m : tr_raft_message) : W * status :=
  let '(w, allocated) :=
    match pd_messages (delivery_at w i) with
    | Some _ => (w, true)
    | None =>
        match stage_allocate w with
        | (w, true) =>
            (update_delivery w i (fun d => d <| pd_messages := Some empty_messages |>), true)
        | (w, false) => (w, false)
        end
    end in
  if negb allocated then (w, SALTS_ENOMEM)
  else if pd_message_count (delivery_at w i) =? TR_RAFT_MAX_VOTERS then (w, SALTS_EPROTO)
  else (update_delivery w i (push_message m), SALTS_OK).

Definition tr_service_stage_snapshot w i (request : tr_raft_snapshot_request) : W * status :=
  if pd_snapshot_pending (delivery_at w i) then (w, SALTS_EPROTO)
  else (update_delivery w i (fun d =>
          d <| pd_snapshot := request |> <| pd_snapshot_pending := true |>), SALTS_OK).

(** [delivery->last_error = result] when there is a delivery. *)
Definition note_result w (delivery : option nat) (result : status) : W :=
  match delivery with
  | Some i => update_delivery w i (fun d => d <| pd_last_error := result |>)
  | None => w
  end.

(** The transport has no room for the peer: it is paused, and [stage] keeps
    what could not be sent. *)
Definition pause_and_stage w c (peer_id : Z) (stage : W -> nat -> W * status)
    : W * tr_raft_core V * status :=
  match tr_service_find_delivery w c peer_id true with
  | (w, None) => (w, c, SALTS_ENOSPC)
  | (w, Some i) =>
      match tr_service_pause_delivery w c i with
      | (w, c, SALTS_OK) => let '(w, result) := stage w i in (w, c, result)
      | failure => failure
      end
  end.

(** What [tr_service_enqueue_message] and [tr_service_enqueue_snapshot] share:
    the peer, the callback of the transport on what is sent, and how that is
    staged. *)
Definition enqueue_or_stage w c (peer_id : Z)
    (enqueue : W -> tr_raft_core V -> W * tr_raft_core V * status)
    (stage : W -> nat -> W * status) : W * tr_raft_core V * status :=
  let '(w, delivery) := tr_service_find_delivery w c peer_id false in
  let paused := match delivery with
                | Some i => if pd_paused (delivery_at w i) then Some i else None
                | None => None
                end in
  match paused with
  | Some i => let '(w, result) := stage w i in (w, c, result)
  | None =>
      match enqueue w c with
      | (w, c, SALTS_ENOSPC) => pause_and_stage w c peer_id stage
      | (w, c, result) => (note_result w delivery result, c, result)
      end
  end.

Definition tr_service_enqueue_message transport w c (m : tr_raft_message)
    : W * tr_raft_core V * status :=
  match tp_enqueue transport with
  | None => (w, c, SALTS_EINVAL)
  | Some enqueue =>
      enqueue_or_stage w c (m_to m) (fun w c => enqueue w c m)
        (fun w i => tr_service_stage_message w i m)
  end.

Definition tr_service_enqueue_snapshot transport w c (request : tr_raft_snapshot_request)
    : W * tr_raft_core V * status :=
  match tp_enqueue_snapshot transport with
  | None => (w, c, SALTS_EINVAL)
  | Some enqueue_snapshot =>
      enqueue_or_stage w c (sr_peer_id request) (fun w c => enqueue_snapshot w c request)
        (fun w i => tr_service_stage_snapshot w i request)
  end.

(** The loop that sends the staged messages, until one is refused: every
    iteration sends one of them. The transport has a callback when something
    is staged. *)
Fixpoint drain_messages (n : nat) transport w c i : W * tr_raft_core V * status :=
  match n with
  | O => (w, c, SALTS_OK)
  | S n =>
      let d := delivery_at w i in
      let m := array_get zero_message (default [] (pd_messages d)) (pd_message_head d) in
      match tp_enqueue transport with
      | None => (w, c, SALTS_EINVAL)
      | Some enqueue =>
          match enqueue w c m with
          | (w, c, SALTS_OK) =>
              drain_messages n transport
                (update_delivery w i (fun d =>
                   d <| pd_message_head := (pd_message_head d + 1) mod TR_RAFT_MAX_VOTERS |>
                     <| pd_message_count := pd_message_count d - 1 |>)) c i
          | failure => failure
          end
      end
  end.

Definition drain_snapshot transport w c i : W * tr_raft_core V * status :=
  let d := delivery_at w i in
  if negb (pd_snapshot_pending d) then (w, c, SALTS_OK)
  else
    match tp_enqueue_snapshot transport with
    | None => (w, c, SALTS_EINVAL)
    | Some enqueue_snapshot =>
        match enqueue_snapshot w c (pd_snapshot d) with
        | (w, c, SALTS_OK) =>
            (update_delivery w i (fun d =>
               d <| pd_snapshot := zero_request |> <| pd_snapshot_pending := false |>), c, SALTS_OK)
        | failure => failure
        end
    end.

Definition add_ticks (elapsed_ticks : Z) (d : tr_raft_service_peer_delivery)
    : tr_raft_service_peer_delivery :=
  if negb (pd_paused d) then d
  else if UINT64_MAX - pd_paused_ticks d <? elapsed_ticks
  then d <| pd_paused_ticks := UINT64_MAX |>
  else d <| pd_paused_ticks := pd_paused_ticks d +64 elapsed_ticks |>.

Definition tr_service_add_paused_ticks w (elapsed_ticks : Z) : W :=
  set_deliveries (add_ticks elapsed_ticks <$> deliveries w) w.
End Deliveries.

(** ** The service *)

Section Service.
Context {W V : Type} `{Staging W} `{VecOps V}.
Abbreviation service := (tr_raft_service W V).
Implicit Types (s : service) (w : W) (c : tr_raft_core V) (ready : tr_raft_ready).

Definition tr_service_prepare_ready : tr_raft_ready :=
  Ready true [] TR_RAFT_MAX_VOTERS false 0 0 false TR_RAFT_FOLLOWER false 0 [] 0 false 0 [] 0
    false (ReadState 0 0) [] [].

Definition tr_service_ready_has_effects ready : bool :=
  negb (r_message_count ready =? 0) || r_hard_state_changed ready || r_role_changed ready ||
  r_log_changed ready || r_commit_changed ready || negb (r_committed_entry_count ready =? 0) ||
  negb (Z.of_nat (length (r_read_states ready)) =? 0) ||
  negb (r_snapshot_request_count ready =? 0).

Definition tr_service_fault s (cause : status) : status * service :=
  (cause, s <| sv_faulted := true |> <| sv_cause := cause |>).

(** What a callback leaves of the contexts and the core. *)
Definition put_world s w c : service := s <| sv_world := w |> <| sv_core := c |>.

Definition put_delivery s (i : nat)
    (f : tr_raft_service_peer_delivery -> tr_raft_service_peer_delivery) : service :=
  s <| sv_world := update_delivery (sv_world s) i f |>.

(** The transport has refused what was staged. *)
Definition drain_refused s (i : nat) (result : status) : status * service :=
  if bool_decide (result = SALTS_ENOSPC) then (SALTS_OK, put_delivery s i reject_capacity)
  else tr_service_fault (put_delivery s i (fun d => d <| pd_last_error := result |>)) result.

(** Everything is sent: the peer may be served again. *)
Definition drain_done s (i : nat) : status * service :=
  let d := delivery_at (sv_world s) i in
  if pd_paused d && tr_service_delivery_empty d then
    let '(result, c) := tr_raft_core_set_peer_paused (sv_core s) (pd_node_id d) false in
    let s := s <| sv_core := c |> in
    if failed result && negb (bool_decide (result = SALTS_ENOENT)) then tr_service_fault s result
    else
      let s := put_delivery s i (fun d => d <| pd_paused := false |> <| pd_last_error := SALTS_OK |>) in
      (SALTS_OK, s <| sv_world := tr_service_release_delivery_messages (sv_world s) i |>)
  else (SALTS_OK, s).

Definition tr_service_drain_delivery s (i : nat) : status * service :=
  let d := delivery_at (sv_world s) i in
  match tr_raft_core_peer_paused (sv_core s) (pd_node_id d) with
  | (SALTS_ENOENT, _) =>
      let w := tr_service_release_delivery_messages (sv_world s) i in
      (SALTS_OK, s <| sv_world := update_delivery w i (fun _ => zero_delivery) |>)
  | (SALTS_OK, _) =>
      match drain_messages (Z.to_nat (pd_message_count d)) (sv_transport s) (sv_world s)
              (sv_core s) i with
      | (w, c, SALTS_OK) =>
          let s := put_delivery (put_world s w c) i (fun d => d <| pd_message_head := 0 |>) in
          match drain_snapshot (sv_transport s) (sv_world s) (sv_core s) i with
          | (w, c, SALTS_OK) => drain_done (put_world s w c) i
          | (w, c, result) => drain_refused (put_world s w c) i result
          end
      | (w, c, result) => drain_refused (put_world s w c) i result
      end
  | (result, _) => tr_service_fault s result
  end.

Fixpoint drain_from s (indices : list nat) : status * service :=
  match indices with
  | [] => (SALTS_OK, s)
  | i :: indices =>
      let d := delivery_at (sv_world s) i in
      if (pd_node_id d =? 0) || (negb (pd_paused d) && tr_service_delivery_empty d)
      then drain_from s indices
      else
        match tr_service_drain_delivery s i with
        | (SALTS_OK, s) => drain_from s indices
        | failure => failure
        end
  end.

Definition tr_service_drain_transport s : status * service :=
  drain_from s (seq 0 (Z.to_nat TR_RAFT_MAX_MEMBERS)).

(** What [tr_service_mutation_guard] and [tr_raft_service_poll] do first. *)
Definition service_open s : status * service :=
  if sv_faulted s then (SALTS_EPROTO, s)
  else if sv_backup_prepared s then (SALTS_EBUSY, s)
  else if tr_service_has_pending_transport (sv_world s) then tr_service_drain_transport s
  else (SALTS_OK, s).

Definition tr_service_mutation_guard s : status * service :=
  match service_open s with
  | (SALTS_OK, s) =>
      (if tr_raft_runtime_apply_blocked (sv_runtime s) then SALTS_EBUSY else SALTS_OK, s)
  | failure => failure
  end.

Definition tr_service_storage_complete (storage : tr_raft_storage W) : bool :=
  negb (is_null (st_begin storage)) && negb (is_null (st_write_hard_state storage)) &&
  negb (is_null (st_truncate_log storage)) && negb (is_null (st_append_log storage)) &&
  negb (is_null (st_write_commit_index storage)) && negb (is_null (st_commit storage)) &&
  negb (is_null (st_rollback storage)).

(** ** Snapshots *)

Definition tr_service_snapshot_policy_disabled (policy : tr_raft_snapshot_policy W) : bool :=
  (py_applied_entry_threshold policy =? 0) && (py_max_snapshot_bytes policy =? 0) &&
  (py_max_buffered_snapshot_bytes policy =? 0) && is_null (py_source_create policy) &&
  negb (py_source_create_context policy) && is_null (py_source_store policy) &&
  negb (py_source_store_context policy) && is_null (py_create policy) &&
  negb (py_create_context policy) && is_null (py_store policy) &&
  negb (py_store_context policy) && is_null (py_journal_compact policy) &&
  negb (py_journal_compact_context policy).

Definition tr_service_snapshot_policy_streaming (policy : tr_raft_snapshot_policy W) : bool :=
  negb (is_null (py_source_create policy)) || negb (is_null (py_source_store policy)) ||
  py_source_create_context policy || py_source_store_context policy.

Definition tr_service_snapshot_policy_buffered (policy : tr_raft_snapshot_policy W) : bool :=
  negb (is_null (py_create policy)) || negb (is_null (py_store policy)) ||
  py_create_context policy || py_store_context policy.

Definition tr_service_snapshot_source_release (source : @tr_raft_snapshot_source W) w : W :=
  match src_release source with Some release => release w | None => w end.

Definition tr_service_snapshot_policy_validate (config : tr_raft_service_config W V) : status :=
  let policy := sc_snapshot_policy config in
  let max_log_entries :=
    if cfg_max_log_entries (sc_core config) =? 0 then TR_RAFT_DEFAULT_MAX_LOG_ENTRIES
    else cfg_max_log_entries (sc_core config) in
  if tr_service_snapshot_policy_disabled policy then SALTS_OK
  else if (py_applied_entry_threshold policy =? 0) ||
          (max_log_entries <? py_applied_entry_threshold policy) ||
          (py_max_snapshot_bytes policy =? 0) ||
          (is_null (py_journal_compact policy) && py_journal_compact_context policy)
  then SALTS_EINVAL
  else if tr_service_snapshot_policy_streaming policy then
    if tr_service_snapshot_policy_buffered policy || is_null (py_source_create policy) ||
       is_null (py_source_store policy) || negb (py_max_buffered_snapshot_bytes policy =? 0)
    then SALTS_EINVAL else SALTS_OK
  else if negb (tr_service_snapshot_policy_buffered policy) || is_null (py_create policy) ||
          is_null (py_store policy) || (py_max_buffered_snapshot_bytes policy =? 0) ||
          (py_max_snapshot_bytes policy <? py_max_buffered_snapshot_bytes policy) ||
          (UINT64_MAX <? py_max_buffered_snapshot_bytes policy)
  then SALTS_EINVAL
  else SALTS_OK.

Definition zero_point : tr_raft_snapshot_point := SnapshotPoint 0 0 zero_conf.

(** The log of the core is compacted up to [point]. *)
Definition compact_core s (point : tr_raft_snapshot_point) : status * service :=
  let '(result, c) := tr_raft_core_compact (sv_core s) point in (result, s <| sv_core := c |>).

Definition tr_service_finish_journal_compaction s : status * service :=
  let point := sv_pending_snapshot s in
  match py_journal_compact (sv_snapshot_policy s) with
  | None => (SALTS_EINVAL, s)
  | Some journal_compact =>
      match journal_compact (sv_world s) (sp_index point) (sp_term point) with
      | (w, SALTS_OK) =>
          match compact_core (s <| sv_world := w |>) point with
          | (SALTS_OK, s) =>
              (SALTS_OK, s <| sv_pending_snapshot := zero_point |>
                           <| sv_journal_compaction_pending := false |>)
          | (result, s) => tr_service_fault s result
          end
      | (w, SALTS_EIO) => (SALTS_EIO, s <| sv_world := w |>)
      | (w, result) => tr_service_fault (s <| sv_world := w |>) result
      end
  end.

(** A snapshot read from a source: it is created, stored and released. *)
Definition stream_snapshot s (point : tr_raft_snapshot_point) : status * service :=
  match py_source_create (sv_snapshot_policy s), py_source_store (sv_snapshot_policy s) with
  | Some source_create, Some source_store =>
      match source_create (sv_world s) (sp_index point) with
      | (w, SALTS_OK, source) =>
          if is_null (src_read_at source) ||
             (py_max_snapshot_bytes (sv_snapshot_policy s) <? src_size source)
          then tr_service_fault (s <| sv_world := tr_service_snapshot_source_release source w |>)
                 SALTS_EPROTO
          else
            let '(w, result) :=
              source_store w (sp_index point) (sp_term point) (sp_configuration point) source in
            let s := s <| sv_world := tr_service_snapshot_source_release source w |> in
            if failed result then tr_service_fault s result else (SALTS_OK, s)
      | (w, result, _) => tr_service_fault (s <| sv_world := w |>) result
      end
  | _, _ => (SALTS_EINVAL, s)
  end.

(** A snapshot in the buffer of the service. *)
Definition buffer_snapshot s (point : tr_raft_snapshot_point) : status * service :=
  match py_create (sv_snapshot_policy s), py_store (sv_snapshot_policy s) with
  | Some create, Some store =>
      let '(w, result, buffer, snapshot_size) :=
        create (sv_world s) (sp_index point) (sv_snapshot_buffer s) in
      let s := s <| sv_world := w |> <| sv_snapshot_buffer := buffer |> in
      if failed result then tr_service_fault s result
      else if py_max_buffered_snapshot_bytes (sv_snapshot_policy s) <? snapshot_size
      then tr_service_fault s SALTS_ENOSPC
      else
        let '(w, result) :=
          store (sv_world s) (sp_index point) (sp_term point) (sp_configuration point)
            buffer snapshot_size in
        let s := s <| sv_world := w |> in
        if failed result then tr_service_fault s result else (SALTS_OK, s)
  | _, _ => (SALTS_EINVAL, s)
  end.

(** The snapshot is stored: the journal and the log are compacted. *)
Definition compact_stored s (point : tr_raft_snapshot_point) : status * service :=
  if negb (is_null (py_journal_compact (sv_snapshot_policy s))) then
    tr_service_finish_journal_compaction
      (s <| sv_pending_snapshot := point |> <| sv_journal_compaction_pending := true |>)
  else
    match compact_core s point with
    | (SALTS_OK, s) => (SALTS_OK, s)
    | (result, s) => tr_service_fault s result
    end.

Definition tr_service_snapshot s (force : bool) : status * service :=
  let policy := sv_snapshot_policy s in
  if py_applied_entry_threshold policy =? 0
  then (if force then SALTS_EPROTONOSUPPORT else SALTS_OK, s)
  else if sv_journal_compaction_pending s then tr_service_finish_journal_compaction s
  else
    let '(result, status) := tr_raft_core_status (sv_core s) in
    if failed result then tr_service_fault s result
    else if st_applied_index status =? st_log_base_index status
    then (if force then SALTS_ENOENT else SALTS_OK, s)
    else if negb force &&
            (st_applied_index status -64 st_log_base_index status <?
             py_applied_entry_threshold policy)
    then (SALTS_OK, s)
    else
      match tr_raft_core_snapshot_point (sv_core s) with
      | (SALTS_OK, Some point) =>
          match (if negb (is_null (py_source_create policy)) then stream_snapshot s point
                 else buffer_snapshot s point) with
          | (SALTS_OK, s) => compact_stored s point
          | failure => failure
          end
      | (result, _) => tr_service_fault s result
      end.

(** ** Completed reads *)

Definition tr_service_read_queue_empty s : bool := sv_read_state_count s =? 0.

Definition zero_read_state : tr_raft_read_state := ReadState 0 0.

Definition tr_service_completed_read_context_exists s (context_id : Z) : bool :=
  existsb (fun state => rs_context_id state =? context_id)
    (ring_items zero_read_state (sv_read_states s) (sv_max_completed_reads s)
       (sv_read_state_head s) (sv_read_state_count s)).

Definition push_read_state s (state : tr_raft_read_state) : service :=
  let slot := (sv_read_state_head s + sv_read_state_count s) mod sv_max_completed_reads s in
  s <| sv_read_states := array_set (sv_read_states s) slot state |>
    <| sv_read_state_count := sv_read_state_count s + 1 |>.

Definition tr_service_enqueue_read_states s ready : status * service :=
  let count := Z.of_nat (length (r_read_states ready)) in
  if count =? 0 then (SALTS_OK, s)
  else if sv_max_completed_reads s -64 sv_read_state_count s <? count then (SALTS_EPROTO, s)
  else (SALTS_OK, fold_left push_read_state (r_read_states ready) s).

(** ** A ready *)

(** What the runtime leaves. *)
Definition take_drive s (d : drive W V) : service :=
  s <| sv_runtime := dr_runtime d |> <| sv_core := dr_core d |> <| sv_world := dr_world d |>
    <| sv_last_runtime_result := dr_result d |>.

Definition tr_service_process_ready s ready : status * service :=
  if negb (tr_service_ready_has_effects ready) then
    if sv_journal_compaction_pending s then tr_service_snapshot s false else (SALTS_OK, s)
  else
    let '(result, d) := tr_raft_runtime_process (sv_runtime s) (sv_core s) ready (sv_world s) in
    let s := take_drive s d in
    if bool_decide (result = SALTS_EBUSY) && tr_raft_runtime_apply_blocked (sv_runtime s) then
      match tr_service_enqueue_read_states s ready with
      | (SALTS_OK, s) => (SALTS_EBUSY, s)
      | (result, s) => tr_service_fault s result
      end
    else if failed result then
      tr_service_fault (s <| sv_world := tr_service_clear_pending_transport (sv_world s) |>) result
    else
      match tr_service_enqueue_read_states s ready with
      | (SALTS_OK, s) => tr_service_snapshot s false
      | (result, s) => tr_service_fault s result
      end.

(** ** Creation *)

Definition tr_service_runtime_create (allocated : bool) (storage : tr_raft_storage W)
    (transport : tr_raft_transport W V) (state_machine : tr_raft_state_machine W)
    : status * option (tr_raft_runtime W V) :=
  tr_raft_runtime_create
    (RuntimeConfig storage
       (TransportCalls (Some (tr_service_enqueue_message transport))
          (Some (tr_service_enqueue_snapshot transport)))
       state_machine) allocated.

(** Whether the allocations succeed: of the service, of the snapshot buffer,
    of the core and of the runtime. *)
Record allocations := Allocations {
  al_service : bool;
  al_buffer : bool;
  al_core : bool;
  al_runtime : bool
}.

Definition tr_raft_service_create (al : allocations) (config : tr_raft_service_config W V) w
    : status * option service :=
  match tr_service_snapshot_policy_validate config with
  | SALTS_OK =>
      let policy := sc_snapshot_policy config in
      let buffered :=
        negb (py_applied_entry_threshold policy =? 0) && negb (is_null (py_create policy)) in
      if negb (al_service al) then (SALTS_ENOMEM, None)
      else if buffered && negb (al_buffer al) then (SALTS_ENOMEM, None)
      else
        match tr_raft_core_create (al_core al) (sc_core config) with
        | (SALTS_OK, Some core) =>
            match tr_service_runtime_create (al_runtime al) (sc_storage config)
                    (sc_transport config) (sc_state_machine config) with
            | (SALTS_OK, Some runtime) =>
                (SALTS_OK,
                 Some (Service core runtime (sc_storage config) (sc_transport config)
                   (sc_state_machine config) policy
                   (if buffered
                    then replicate (Z.to_nat (py_max_buffered_snapshot_bytes policy)) 0 else [])
                   zero_point false false blank_result
                   (replicate (Z.to_nat TR_RAFT_MAX_PENDING_READS) zero_read_state) 0 0
                   (if cfg_max_pending_reads (sc_core config) =? 0
                    then TR_RAFT_DEFAULT_MAX_PENDING_READS
                    else cfg_max_pending_reads (sc_core config))
                   false SALTS_OK
                   (set_deliveries (replicate (Z.to_nat TR_RAFT_MAX_MEMBERS) zero_delivery) w)))
            | (result, _) => (result, None)
            end
        | (result, _) => (result, None)
        end
  | result => (result, None)
  end.

(** The contexts are left. *)
Definition tr_raft_service_destroy s : W := tr_service_clear_pending_transport (sv_world s).

(** ** Backups *)

Definition tr_raft_service_prepare_backup s : status * service :=
  match tr_service_mutation_guard s with
  | (SALTS_OK, s) =>
      if sv_journal_compaction_pending s || negb (tr_service_read_queue_empty s) ||
         tr_service_has_pending_transport (sv_world s)
      then (SALTS_EBUSY, s)
      else
        let '(result, status) := tr_raft_core_status (sv_core s) in
        if failed result then tr_service_fault s result
        else if st_ready_outstanding status then (SALTS_EBUSY, s)
        else (SALTS_OK, s <| sv_backup_prepared := true |>)
  | failure => failure
  end.

Definition tr_raft_service_resume_backup (allocated : bool) s (storage : tr_raft_storage W)
    : status * service :=
  if negb (sv_backup_prepared s) || negb (tr_service_storage_complete storage)
  then (SALTS_EINVAL, s)
  else
    match tr_service_runtime_create allocated storage (sv_transport s) (sv_state_machine s) with
    | (SALTS_OK, Some replacement_runtime) =>
        (SALTS_OK, s <| sv_storage := storage |> <| sv_runtime := replacement_runtime |>
                     <| sv_backup_prepared := false |>)
    | (result, _) => (result, s)
    end.

(** ** Calls of the core *)

(** A call of the core on a fresh ready, which the runtime consumes. *)
Definition call_core s
    (call : tr_raft_core V -> tr_raft_ready -> status * tr_raft_core V * tr_raft_ready)
    : status * service :=
  let '(result, c, ready) := call (sv_core s) tr_service_prepare_ready in
  let s := s <| sv_core := c |> in
  if failed result then (result, s) else tr_service_process_ready s ready.

Definition tr_raft_service_tick s (tick : tr_raft_tick) : status * service :=
  match tr_service_mutation_guard s with
  | (SALTS_OK, s) =>
      let w := tr_service_add_paused_ticks (sv_world s) (tick_elapsed_ticks tick) in
      call_core (s <| sv_world := w |>) (fun c r => tr_raft_core_tick c tick r)
  | failure => failure
  end.

Definition tr_raft_service_step s (message : tr_raft_message) : status * service :=
  match tr_service_mutation_guard s with
  | (SALTS_OK, s) => call_core s (fun c r => tr_raft_core_step c message r)
  | failure => failure
  end.

Definition tr_raft_service_propose_batch s (proposals : list tr_raft_proposal)
    : status * service :=
  let proposal_count := Z.of_nat (length proposals) in
  if (proposal_count =? 0) || (TR_RAFT_MAX_PROPOSAL_BATCH <? proposal_count)
  then (SALTS_EINVAL, s)
  else
    match tr_service_mutation_guard s with
    | (SALTS_OK, s) => call_core s (fun c r => tr_raft_core_propose_batch c proposals r)
    | failure => failure
    end.

Definition tr_raft_service_propose s (proposal : tr_raft_proposal) : status * service :=
  tr_raft_service_propose_batch s [proposal].

(** The receipts of the [n] entries from [index] on; those after a failure are
    not written. *)
Fixpoint receipts c (term index : Z) (n : nat) : status * list tr_raft_operation_status :=
  match n with
  | O => (SALTS_OK, [])
  | S n =>
      match tr_raft_core_operation_status c term index with
      | (SALTS_OK, Some receipt) =>
          let '(result, rest) := receipts c term (index +64 1) n in (result, receipt :: rest)
      | (result, _) => (result, [])
      end
  end.

Definition tr_raft_service_propose_batch_with_receipts s (proposals : list tr_raft_proposal)
    (receipt_capacity : Z) : status * service * list tr_raft_operation_status :=
  let proposal_count := Z.of_nat (length proposals) in
  if (proposal_count =? 0) || (TR_RAFT_MAX_PROPOSAL_BATCH <? proposal_count)
  then (SALTS_EINVAL, s, [])
  else if receipt_capacity <? proposal_count then (SALTS_ENOSPC, s, [])
  else
    match tr_raft_service_propose_batch s proposals with
    | (SALTS_OK, s) =>
        let '(result, status) := tr_raft_core_status (sv_core s) in
        if failed result then (result, s, [])
        else if st_last_log_index status <? proposal_count
        then (tr_service_fault s SALTS_EPROTO, [])
        else
          let first_index := st_last_log_index status -64 proposal_count +64 1 in
          let '(result, written) :=
            receipts (sv_core s) (st_term status) first_index (length proposals) in
          (result, s, written)
    | failure => (failure, [])
    end.

Definition tr_raft_service_propose_with_receipt s (proposal : tr_raft_proposal)
    : status * service * list tr_raft_operation_status :=
  tr_raft_service_propose_batch_with_receipts s [proposal] 1.

Definition tr_raft_service_transfer_leadership s (transferee_id : Z) : status * service :=
  if transferee_id =? 0 then (SALTS_EINVAL, s)
  else
    match tr_service_mutation_guard s with
    | (SALTS_OK, s) => call_core s (fun c r => tr_raft_core_transfer_leadership c transferee_id r)
    | failure => failure
    end.

Definition tr_raft_service_change_membership s (change : tr_raft_membership_change)
    : status * service :=
  match tr_service_mutation_guard s with
  | (SALTS_OK, s) => call_core s (fun c r => tr_raft_core_change_membership c change r)
  | failure => failure
  end.

Definition tr_raft_service_change_membership_with_receipt s (change : tr_raft_membership_change)
    : status * service * option tr_raft_operation_status :=
  match tr_raft_service_change_membership s change with
  | (SALTS_OK, s) =>
      let '(result, status) := tr_raft_core_status (sv_core s) in
      if failed result then (result, s, None)
      else
        let '(result, receipt) :=
          tr_raft_core_operation_status (sv_core s) (st_term status) (st_last_log_index status) in
        (result, s, receipt)
  | failure => (failure, None)
  end.

(** ** Reads *)

Definition tr_raft_service_read_index s (context_id : Z) : status * service :=
  if context_id =? 0 then (SALTS_EINVAL, s)
  else
    match tr_service_mutation_guard s with
    | (SALTS_OK, s) =>
        if tr_service_completed_read_context_exists s context_id then (SALTS_EALREADY, s)
        else
          let '(result, status) := tr_raft_core_status (sv_core s) in
          if failed result then tr_service_fault s result
          else if sv_max_completed_reads s <=? sv_read_state_count s + st_pending_read_count status
          then (SALTS_ENOSPC, s)
          else call_core s (fun c r => tr_raft_core_read_index c context_id r)
    | failure => failure
    end.

(** The oldest completed read is removed. *)
Definition pop_read_state s : service :=
  let count := sv_read_state_count s - 1 in
  s <| sv_read_states := array_set (sv_read_states s) (sv_read_state_head s) zero_read_state |>
    <| sv_read_state_head :=
         if count =? 0 then 0 else (sv_read_state_head s + 1) mod sv_max_completed_reads s |>
    <| sv_read_state_count := count |>.

Definition tr_raft_service_take_read_state s : status * service * option tr_raft_read_state :=
  match tr_service_mutation_guard s with
  | (SALTS_OK, s) =>
      if tr_service_read_queue_empty s then (SALTS_ENOENT, s, None)
      else
        let '(result, status) := tr_raft_core_status (sv_core s) in
        if failed result then (tr_service_fault s result, None)
        else
          let state := array_get zero_read_state (sv_read_states s) (sv_read_state_head s) in
          if st_applied_index status <? rs_index state then (SALTS_EBUSY, s, None)
          else (SALTS_OK, pop_read_state s, Some state)
  | failure => (failure, None)
  end.

(** ** Polling and snapshots *)

Definition tr_raft_service_poll s : status * service :=
  match service_open s with
  | (SALTS_OK, s) =>
      if tr_raft_runtime_apply_blocked (sv_runtime s) then
        let '(result, d) := tr_raft_runtime_retry_apply (sv_runtime s) (sv_core s) (sv_world s) in
        let s := take_drive s d in
        if bool_decide (result = SALTS_EBUSY) then (SALTS_EBUSY, s)
        else if failed result then tr_service_fault s result
        else tr_service_snapshot s false
      else call_core s tr_raft_core_poll
  | failure => failure
  end.

Definition tr_raft_service_trigger_snapshot s : status * service :=
  match tr_service_mutation_guard s with
  | (SALTS_OK, s) => tr_service_snapshot s true
  | failure => failure
  end.

(** Also [tr_raft_service_snapshot_complete_callback]. *)
Definition tr_raft_service_snapshot_completed s (peer_id snapshot_index : Z) : status * service :=
  if (peer_id =? 0) || (snapshot_index =? 0) then (SALTS_EINVAL, s)
  else
    match tr_service_mutation_guard s with
    | (SALTS_OK, s) =>
        call_core s (fun c r => tr_raft_core_snapshot_completed c peer_id snapshot_index r)
    | failure => failure
    end.

(** ** Reloading *)

(** A core and a runtime replace those of the service. *)
Definition replace_core s (replacement : tr_raft_core V)
    (replacement_runtime : tr_raft_runtime W V) : service :=
  s <| sv_core := replacement |> <| sv_runtime := replacement_runtime |>
    <| sv_last_runtime_result := blank_result |>
    <| sv_read_states := replicate (Z.to_nat TR_RAFT_MAX_PENDING_READS) zero_read_state |>
    <| sv_read_state_head := 0 |> <| sv_read_state_count := 0 |>
    <| sv_world := tr_service_clear_pending_transport (sv_world s) |>
    <| sv_faulted := false |> <| sv_cause := SALTS_OK |>.

Definition tr_raft_service_reload (al : allocations) s (recovery_config : tr_raft_core_config)
    : status * service :=
  if sv_backup_prepared s then (SALTS_EBUSY, s)
  else
    let '(result, current) := tr_raft_core_status (sv_core s) in
    if failed result then tr_service_fault s result
    else if negb (sv_faulted s) && st_ready_outstanding current then (SALTS_EBUSY, s)
    else
      match tr_raft_core_create (al_core al) recovery_config with
      | (SALTS_OK, Some replacement) =>
          match tr_service_runtime_create (al_runtime al) (sv_storage s) (sv_transport s)
                  (sv_state_machine s) with
          | (SALTS_OK, Some replacement_runtime) =>
              (SALTS_OK, replace_core s replacement replacement_runtime)
          | (result, _) => tr_service_fault s result
          end
      | (result, _) => tr_service_fault s result
      end.

(** ** Diagnostics *)

Record tr_raft_service_status := ServiceStatus {
  ss_faulted : bool;
  ss_cause : status;
  ss_backup_prepared : bool;
  ss_read_state_available : bool;
  ss_completed_read_count : Z;
  ss_max_completed_reads : Z;
  ss_journal_compaction_pending : bool;
  ss_runtime : tr_raft_runtime_result;
  ss_core : tr_raft_status
}.

Definition service_status s : status * tr_raft_service_status :=
  let '(result, core) := tr_raft_core_status (sv_core s) in
  (result,
   ServiceStatus (sv_faulted s) (sv_cause s) (sv_backup_prepared s)
     (negb (sv_read_state_count s =? 0)) (sv_read_state_count s) (sv_max_completed_reads s)
     (sv_journal_compaction_pending s) (sv_last_runtime_result s) core).

Record tr_raft_service_peer_delivery_status := PeerDeliveryStatus {
  ds_peer_id : Z;
  ds_paused : bool;
  ds_staged_message_count : Z;
  ds_staged_message_bytes : Z;
  ds_snapshot_staged : bool;
  ds_capacity_rejection_count : Z;
  ds_paused_ticks : Z;
  ds_last_error : status
}.

(** [message_size] is [sizeof(tr_raft_message_t)]. *)
Definition tr_raft_service_get_peer_delivery_status (message_size : Z) s (peer_id : Z)
    : status * option tr_raft_service_peer_delivery_status :=
  if peer_id =? 0 then (SALTS_EINVAL, None)
  else
    match tr_raft_core_peer_paused (sv_core s) peer_id with
    | (SALTS_OK, Some paused) =>
        (SALTS_OK, Some
          match tr_service_find_delivery_const (sv_world s) peer_id with
          | Some d =>
              PeerDeliveryStatus peer_id paused (pd_message_count d)
                (pd_message_count d * message_size) (pd_snapshot_pending d)
                (pd_capacity_rejection_count d) (pd_paused_ticks d) (pd_last_error d)
          | None => PeerDeliveryStatus peer_id paused 0 0 false 0 0 SALTS_OK
          end)
    | (result, _) => (result, None)
    end.

Definition tr_raft_service_configuration s : status * tr_raft_conf :=
  tr_raft_core_configuration (sv_core s).

Definition tr_raft_service_progress s : status * list tr_raft_peer_progress :=
  tr_raft_core_progress (sv_core s).

Definition tr_raft_service_operation_status s (term index : Z)
    : status * option tr_raft_operation_status :=
  tr_raft_core_operation_status (sv_core s) term index.
End Service.
