(* ===== verification/RuntimeApply.v ===== *)
(** * What the runtime applies

    The entries a runtime hands to the state machine are the committed entries
    of the core that are no configurations, each once and in order, whatever
    callbacks fail or ask to be called again later. *)

From S2P Require Import Prelude Configuration Vec Log CoreState CoreApi CoreFrame CoreInvariant.
From S2P Require Import CoreSafety CoreCalls CoreReach Runtime.
From Stdlib Require Import ZArith Lia.
From stdpp Require Import base numbers list tactics relations.
Open Scope Z_scope.
Open Scope raft_scope.

(** The entries for the state machine. *)
Definition commands (entries : list tr_raft_entry) : list tr_raft_entry :=
  List.filter (fun e => negb (tr_raft_conf_entry_is_configuration e)) entries.

Lemma commands_app es fs : commands (es ++ fs) = commands es ++ commands fs.
Proof. apply List.filter_app. Qed.

Lemma run_length_le es : (run_length es <= length es)%nat.
Proof. induction es as [|e es IH]; cbn; [done|]. destruct (tr_raft_conf_entry_is_configuration e); lia. Qed.

Lemma commands_run es : commands (take (run_length es) es) = take (run_length es) es.
Proof.
  induction es as [|e es IH]; [done|]. cbn [run_length].
  destruct (tr_raft_conf_entry_is_configuration e) eqn:E; [done|].
  cbn [take commands List.filter]. rewrite E. cbn [negb]. by f_equal.
Qed.

(** ** The callbacks of the contexts *)

(** What can be seen of the contexts: the commands the state machine has
    applied, the messages the transport has accepted for every node, and the
    state of the storage. [world_ok] is an invariant of the contexts. *)
Class Contexts (W D : Type) := {
  applied : W -> list tr_raft_entry;
  sent : W -> Z -> list tr_raft_message;
  disk : W -> D;
  world_ok : W -> Prop
}.

(** One message more. *)
Definition hand (m : tr_raft_message) (f : Z -> list tr_raft_message) (p : Z)
    : list tr_raft_message := if m_to m =? p then f p ++ [m] else f p.

Definition hand_all (ms : list tr_raft_message) (f : Z -> list tr_raft_message)
    : Z -> list tr_raft_message := fold_left (fun f m => hand m f) ms f.

Definition keeps_contexts `{Contexts W D} (w w' : W) : Prop :=
  applied w' = applied w /\ sent w' = sent w /\ disk w' = disk w /\ (world_ok w -> world_ok w').

(** What a transport may do to the core. *)
Definition pauses `{VecOps V} : tr_raft_core V -> tr_raft_core V -> Prop :=
  rtc (fun c c' => exists id paused result,
    tr_raft_core_set_peer_paused c id paused = (result, c')).

(** A batch is applied as a whole or not at all, and so is a message accepted;
    the contexts are separate. *)
Record callbacks_ok `{Contexts W D} `{VecOps V} (transport : tr_raft_transport W V)
    (machine : tr_raft_state_machine W) : Prop := {
  co_apply f w es w' res :
    sm_apply_batch machine = Some f -> f w es = (w', res) ->
    applied w' = (if ok res then applied w ++ es else applied w) /\
    sent w' = sent w /\ disk w' = disk w /\ (world_ok w -> world_ok w');
  co_enqueue f w c m w' c' res :
    tp_enqueue transport = Some f -> world_ok w -> f w c m = (w', c', res) ->
    world_ok w' /\ sent w' = (if ok res then hand m (sent w) else sent w) /\
    applied w' = applied w /\ disk w' = disk w /\ pauses c c';
  co_snapshot f w c q w' c' res :
    tp_enqueue_snapshot transport = Some f -> world_ok w -> f w c q = (w', c', res) ->
    keeps_contexts w w' /\ pauses c c'
}.

Section Apply.
Context {W D V : Type} `{Contexts W D} `{VecLaws V}.
Implicit Types (c : tr_raft_core V) (d : drive W V) (es : list tr_raft_entry).

(** ** Acknowledging *)

(** The entries from [from] on are those after the applied index, and have
    been admitted. *)
Record window c es (from : nat) : Prop := {
  wi_free : c_in_call c = false;
  wi_index k e : es !! k = Some e ->
    entry_index e = c_applied_index c + 1 + Z.of_nat k - Z.of_nat from;
  wi_from : (from <= length es)%nat;
  wi_admitted : c_apply_admitted_index c =
    c_applied_index c + Z.of_nat (length es) - Z.of_nat from;
  wi_bounds : 0 <= c_applied_index c /\ c_apply_admitted_index c <= UINT64_MAX
}.

Definition apply_more c (n : nat) : tr_raft_core V :=
  c <| c_applied_index := c_applied_index c + Z.of_nat n |>.

Lemma apply_more_0 c : apply_more c 0 = c.
Proof. unfold apply_more. replace (c_applied_index c + Z.of_nat 0) with (c_applied_index c) by lia. by destruct c. Qed.

Lemma apply_more_add c m n : apply_more (apply_more c m) n = apply_more c (m + n).
Proof. unfold apply_more. record_simpl. by replace (c_applied_index c + Z.of_nat m + Z.of_nat n) with (c_applied_index c + Z.of_nat (m + n)) by lia. Qed.

Lemma window_more c es from n :
  window c es from -> (from + n <= length es)%nat -> window (apply_more c n) es (from + n).
Proof.
  intros [F I L A B] Hn. unfold apply_more. split; record_simpl; [done| |lia|lia|lia].
  intros k e Hk. rewrite (I k e Hk). lia.
Qed.

Lemma ack_applied_next c es from e :
  window c es from -> es !! from = Some e ->
  tr_raft_core_ack_applied c (entry_index e) = (SALTS_OK, apply_more c 1) /\
  entry_index e = c_applied_index c + 1.
Proof.
  intros [F I L A B] He. pose proof (lookup_lt_Some _ _ _ He) as Hlt.
  pose proof (I _ _ He) as ->. replace (_ + 1 + _ - _) with (c_applied_index c + 1) by lia.
  split; [|done]. unfold tr_raft_core_ack_applied. rewrite F.
  replace (c_applied_index c + 1 =? 0) with false by blia.
  replace (c_applied_index c + 1 <=? c_applied_index c) with false by blia.
  word_simpl. replace (c_applied_index c =? _) with false by blia. rewrite Z.eqb_refl.
  cbn [negb orb]. replace (c_apply_admitted_index c <? _) with false by blia. done.
Qed.

(** Acknowledging entries of the window succeeds; only the result is changed
    otherwise. *)
Definition same_but_result d d' : Prop :=
  dr_runtime d' = dr_runtime d /\ dr_world d' = dr_world d.

Lemma ack_range_spec n d es from :
  window (dr_core d) es from -> (from + n <= length es)%nat ->
  exists d', tr_runtime_ack_applied_range d (take n (drop from es)) = (SALTS_OK, d') /\
    same_but_result d d' /\ dr_core d' = apply_more (dr_core d) n.
Proof.
  revert d from. induction n as [|n IH]; intros d from Hw Hn.
  { exists d. by rewrite apply_more_0. }
  assert (is_Some (es !! from)) as [e He] by (apply lookup_lt_is_Some; lia).
  rewrite (drop_S _ _ _ He). cbn [take tr_runtime_ack_applied_range].
  destruct (ack_applied_next _ _ _ _ Hw He) as [-> _].
  set (d1 := with_result _ _). destruct (IH d1 (S from)) as (d' & Hd & [E1 E2] & E3); [|lia|].
  - replace (S from) with (from + 1)%nat by lia. apply window_more; [done|lia].
  - exists d'. split; [done|]. split; [done|]. rewrite E3. cbn. by rewrite apply_more_add.
Qed.

Lemma acknowledge_spec d es from upto acked :
  (acked = true -> window (dr_core d) es from) -> (from <= upto <= length es)%nat ->
  exists d', acknowledge_range d es from upto acked = (SALTS_OK, d') /\ same_but_result d d' /\
    dr_core d' = if acked then apply_more (dr_core d) (upto - from) else dr_core d.
Proof.
  intros Hw Hu. unfold acknowledge_range. destruct acked; [|by exists d].
  unfold ack_applied_range, entry_range_list.
  destruct (ack_range_spec (upto - from) (at_stage d TR_RAFT_RUNTIME_CORE_ADVANCE) es from)
    as (d' & -> & Hs & Hc); [by apply Hw|lia|]. by eexists.
Qed.

(** ** The loop *)

(** What the loop has done when it stops before entry [mid]. *)
Record progressed d es (from mid : nat) (acked : bool) d1 : Prop := {
  pg_range : (from <= mid <= length es)%nat;
  pg_runtime : dr_runtime d1 = dr_runtime d;
  pg_core : dr_core d1 = if acked then apply_more (dr_core d) (mid - from) else dr_core d;
  pg_applied : applied (dr_world d1) =
    applied (dr_world d) ++ commands (take (mid - from) (drop from es));
  pg_sent : sent (dr_world d1) = sent (dr_world d);
  pg_disk : disk (dr_world d1) = disk (dr_world d);
  pg_world : world_ok (dr_world d) -> world_ok (dr_world d1);
  pg_machine : sm_apply_batch (rt_state_machine (dr_runtime d)) = None ->
    commands (take (mid - from) (drop from es)) = []
}.

Lemma progressed_refl d es from acked :
  (from <= length es)%nat -> progressed d es from from acked d.
Proof.
  intros Hf. split; try done; rewrite ?Nat.sub_diag, ?take_0, ?app_nil_r, ?apply_more_0; try done.
  by destruct acked.
Qed.

Lemma take_range {A : Type} (l : list A) (a b c : nat) :
  (a <= b <= c)%nat -> take (c - a) (drop a l) = take (b - a) (drop a l) ++ take (c - b) (drop b l).
Proof.
  intros Hab. replace (c - a)%nat with ((b - a) + (c - b))%nat by lia.
  rewrite <- take_take_drop, drop_drop. by replace (a + (b - a))%nat with b by lia.
Qed.

Lemma progressed_trans d d1 d2 es from mid upto acked :
  progressed d es from mid acked d1 -> progressed d1 es mid upto acked d2 ->
  progressed d es from upto acked d2.
Proof.
  intros [R1 E1 C1 A1 S1 D1 W1 M1] [R2 E2 C2 A2 S2 D2 W2 M2]. split; try congruence; [lia| | |auto|].
  - rewrite C2, C1. destruct acked; [|done]. rewrite apply_more_add. f_equal. lia.
  - rewrite A2, A1, <- app_assoc, <- commands_app. do 2 f_equal. symmetry. apply take_range. lia.
  - intros Hm. rewrite (take_range es from mid upto), commands_app, M1, M2 by (congruence || lia). done.
Qed.

(** One iteration: the entries up to [upto] are applied by the state machine
    when they are commands, and acknowledged. *)
Lemma iteration_progress d es from upto acked w :
  (acked = true -> window (dr_core d) es from) -> (from <= upto <= length es)%nat ->
  applied w = applied (dr_world d) ++ commands (take (upto - from) (drop from es)) ->
  sent w = sent (dr_world d) -> disk w = disk (dr_world d) ->
  (world_ok (dr_world d) -> world_ok w) ->
  (sm_apply_batch (rt_state_machine (dr_runtime d)) = None ->
   commands (take (upto - from) (drop from es)) = []) ->
  exists d', acknowledge_range (with_world d w) es from upto acked = (SALTS_OK, d') /\
    progressed d es from upto acked d' /\ (acked = true -> window (dr_core d') es upto).
Proof.
  intros Hw Hu Ha Hs Hd Hok Hm.
  destruct (acknowledge_spec (with_world d w) es from upto acked Hw Hu) as (d' & -> & [E1 E2] & E3).
  exists d'. split; [done|]. split.
  - split; rewrite ?E1, ?E2, ?E3; done.
  - intros ->. rewrite E3. replace upto with (from + (upto - from))%nat at 2 by lia.
    apply window_more; [by apply Hw|lia].
Qed.

Definition no_machine d : Prop := sm_apply_batch (rt_state_machine (dr_runtime d)) = None.

(** How the loop ends. *)
Inductive loop_end (es : list tr_raft_entry) (acked : bool) d1 : nat -> status -> drive W V -> Prop :=
| loop_complete d' :
    dr_runtime d' = dr_runtime (tr_runtime_clear_apply_block d1) -> dr_core d' = dr_core d1 ->
    dr_world d' = dr_world d1 -> loop_end es acked d1 (length es) SALTS_OK d'
| loop_refused mid e d2 error result d' :
    es !! mid = Some e -> tr_raft_conf_entry_is_configuration e = false -> error <> SALTS_OK ->
    dr_runtime d2 = dr_runtime d1 -> dr_core d2 = dr_core d1 ->
    keeps_contexts (dr_world d1) (dr_world d2) ->
    apply_refused d2 es mid acked error = (result, d') -> loop_end es acked d1 mid result d'
| loop_no_machine mid d' :
    (mid < length es)%nat -> no_machine d1 ->
    tr_runtime_fail d1 TR_RAFT_RUNTIME_STATE_MACHINE_APPLY SALTS_EINVAL = (SALTS_EINVAL, d') ->
    loop_end es acked d1 mid SALTS_EINVAL d'.

Lemma apply_loop_spec fuel transport d es from acked result d' :
  callbacks_ok transport (rt_state_machine (dr_runtime d)) ->
  (length es - from <= fuel)%nat -> (from <= length es)%nat ->
  (acked = true -> window (dr_core d) es from) ->
  runtime_apply_loop fuel d es from acked = (result, d') ->
  exists mid d1, progressed d es from mid acked d1 /\ loop_end es acked d1 mid result d'.
Proof.
  revert d from. induction fuel as [|fuel IH]; intros d from Hcb Hfuel Hfrom Hw;
    cbn [runtime_apply_loop].
  { assert (from = length es) as -> by lia. intros [= <- <-]. exists (length es), d.
    split; [by apply progressed_refl|]. by destruct (es !! _), acked; apply loop_complete. }
  destruct (drop from es) as [|e rest] eqn:Hdrop.
  { assert (from = length es) as ->.
    { apply (f_equal length) in Hdrop. rewrite length_drop in Hdrop. cbn in Hdrop. lia. }
    intros [= <- <-]. exists (length es), d.
    split; [by apply progressed_refl|]. by destruct (es !! _), acked; apply loop_complete. }
  assert (es !! from = Some e) as He.
  { rewrite <- (Nat.add_0_r from), <- lookup_drop, Hdrop. done. }
  pose proof (lookup_lt_Some _ _ _ He) as Hlt.
  assert (forall upto d1, (from < upto <= length es)%nat -> progressed d es from upto acked d1 ->
    (acked = true -> window (dr_core d1) es upto) ->
    runtime_apply_loop fuel d1 es upto acked = (result, d') ->
    exists mid d1, progressed d es from mid acked d1 /\ loop_end es acked d1 mid result d') as Hnext.
  { intros upto d1 Hu Hp Hw1 Hrun. destruct (IH d1 upto) as (mid & d2 & Hp2 & He2);
      [by rewrite (pg_runtime _ _ _ _ _ _ Hp)|lia|lia|done|done|].
    exists mid, d2. split; [|done]. by eapply progressed_trans. }
  destruct (tr_raft_conf_entry_is_configuration e) eqn:Hconf.
  - destruct (iteration_progress d es from (S from) acked (dr_world d)) as (d1 & Ea & Hp & Hw1);
      [done|lia| |done|done|done| |].
    1, 2: replace (S from - from)%nat with 1%nat by lia; rewrite Hdrop; cbn; rewrite Hconf; cbn;
      by rewrite ?app_nil_r.
    assert (with_world d (dr_world d) = d) as E by by destruct d. rewrite E in Ea. rewrite Ea.
    apply Hnext; [lia|done|done].
  - rewrite <- Hdrop. set (upto := (from + run_length (drop from es))%nat).
    assert (from < upto <= length es)%nat as Hu.
    { unfold upto. pose proof (run_length_le (drop from es)) as Hle. rewrite length_drop in Hle.
      split; [|lia]. rewrite Hdrop. cbn [run_length]. rewrite Hconf. lia. }
    destruct (sm_apply_batch (rt_state_machine (dr_runtime d))) as [f|] eqn:Hf; cycle 1.
    { intros [= <- <-]. exists from, d. split; [by apply progressed_refl|].
      by apply loop_no_machine. }
    destruct (f (dr_world d) (entry_range_list es from upto)) as [w res] eqn:Ef.
    destruct (co_apply _ _ Hcb _ _ _ _ _ Hf Ef) as (Ha & Hs & Hd & Hok).
    destruct res as [|error]; cbn [ok] in Ha.
    + destruct (iteration_progress d es from upto acked w) as (d1 & -> & Hp & Hw1);
        [done|lia| |done|done|done|by rewrite Hf|by apply Hnext].
      unfold entry_range_list in Ha. rewrite Ha. f_equal. symmetry.
      replace (upto - from)%nat with (run_length (drop from es)) by (unfold upto; lia).
      apply commands_run.
    + intros Hr. exists from, d. split; [by apply progressed_refl|].
      by apply (loop_refused _ _ _ _ e (with_world d w) (SALTS_ERR error)).
Qed.

Lemma apply_from_spec transport d es from acked result d' :
  callbacks_ok transport (rt_state_machine (dr_runtime d)) -> (from <= length es)%nat ->
  (acked = true -> window (dr_core d) es from) ->
  tr_runtime_apply_from d es from acked = (result, d') ->
  exists mid d1, progressed d es from mid acked d1 /\ loop_end es acked d1 mid result d'.
Proof.
  intros Hcb Hf Hw Hrun. unfold tr_runtime_apply_from in Hrun.
  apply (apply_loop_spec _ transport) in Hrun as (mid & d1 & [] & He); [|done|lia|done|done].
  by exists mid, d1.
Qed.

(** ** Handing over a ready *)

(** The committed entries of a ready that the core waits for. *)
Record awaiting c es : Prop := {
  aw_free : c_in_call c = false;
  aw_outstanding : c_ready_outstanding c = true;
  aw_some : es <> [];
  aw_pending : c_pending_apply_index c = c_apply_admitted_index c + Z.of_nat (length es);
  aw_applied : c_applied_index c = c_apply_admitted_index c;
  aw_index k e : es !! k = Some e -> entry_index e = c_apply_admitted_index c + 1 + Z.of_nat k;
  aw_bounds : 0 <= c_applied_index c /\ c_pending_apply_index c <= UINT64_MAX
}.

Definition admit_all c (n : nat) : tr_raft_core V :=
  c <| c_apply_admitted_index := c_apply_admitted_index c + Z.of_nat n |>
    <| c_pending_apply_index := 0 |> <| c_ready_outstanding := false |>.

Lemma ack_ready_spec c es :
  awaiting c es ->
  tr_raft_core_ack_ready c (Z.of_nat (length es)) = (SALTS_OK, admit_all c (length es)) /\
  window (admit_all c (length es)) es 0.
Proof.
  intros [F O N P A I B]. assert (0 < Z.of_nat (length es)) as Hpos by (destruct es; cbn in *; [done|lia]).
  split.
  - unfold tr_raft_core_ack_ready. rewrite F, O. cbn [negb orb].
    replace (c_pending_apply_index c =? 0) with false by blia. cbn [negb andb].
    replace (_ <? c_apply_admitted_index c) with false by blia.
    replace (c_pending_apply_index c -64 c_apply_admitted_index c) with (Z.of_nat (length es)) by word.
    rewrite Z.ltb_irrefl. unfold admit_all. do 3 f_equal. f_equal. word.
  - unfold admit_all. split; record_simpl; [done| |lia|lia|lia].
    intros k e Hk. rewrite (I k e Hk). lia.
Qed.

Lemma ack_prefix_spec d es mid :
  awaiting (dr_core d) es -> (mid <= length es)%nat ->
  exists d', tr_runtime_ack_ready_prefix d es mid = (SALTS_OK, d') /\ same_but_result d d' /\
    dr_core d' = apply_more (admit_all (dr_core d) (length es)) mid.
Proof.
  intros Ha Hm. destruct (ack_ready_spec _ _ Ha) as [Hack Hw].
  unfold tr_runtime_ack_ready_prefix. cbn [dr_core at_stage with_result]. rewrite Hack.
  unfold ack_applied_range, entry_range_list. rewrite Nat.sub_0_r.
  match goal with |- context [tr_runtime_ack_applied_range ?x _] =>
    destruct (ack_range_spec mid x es 0) as (d' & -> & Hs & Hc); [exact Hw|lia|] end.
  exists d'. split; [done|]. split; [exact Hs|]. exact Hc.
Qed.

(** The state machine has refused the entries from [mid] on: those before are
    acknowledged, and the runtime waits or has failed. *)
Lemma apply_refused_spec d es (mid : nat) (acked : bool) error result d' :
  error <> SALTS_OK -> (mid < length es)%nat ->
  (if acked then True else awaiting (dr_core d) es) ->
  apply_refused d es mid acked error = (result, d') ->
  dr_world d' = dr_world d /\ result = error /\
  dr_core d' = (if acked then dr_core d else apply_more (admit_all (dr_core d) (length es)) mid) /\
  rt_faulted (dr_runtime d') =
    (if bool_decide (error = SALTS_EBUSY) then rt_faulted (dr_runtime d) else true) /\
  (bool_decide (error = SALTS_EBUSY) = true ->
   rt_apply_blocked (dr_runtime d') = true /\ rt_blocked_entries (dr_runtime d') = es /\
   rt_blocked_apply_begin (dr_runtime d') = mid) /\
  rt_storage (dr_runtime d') = rt_storage (dr_runtime d) /\
  rt_transport (dr_runtime d') = rt_transport (dr_runtime d) /\
  rt_state_machine (dr_runtime d') = rt_state_machine (dr_runtime d).
Proof.
  intros He Hm Ha. unfold apply_refused.
  assert (exists d1, (if acked then (SALTS_OK, d) else tr_runtime_ack_ready_prefix d es mid) =
    (SALTS_OK, d1) /\ same_but_result d d1 /\
    dr_core d1 = if acked then dr_core d else apply_more (admit_all (dr_core d) (length es)) mid)
    as (d1 & -> & [Hr Hw] & Hc).
  { destruct acked; [by exists d|]. apply ack_prefix_spec; [done|lia]. }
  cbn [failed ok negb]. case_bool_decide as Hb.
  - intros [= <- <-]. cbn. rewrite Hr, Hw, Hc. split_and!; done.
  - intros [= <- <-]. cbn. rewrite Hr, Hw, Hc. split_and!; done.
Qed.
End Apply.
