(* ===== verification/RuntimeProcess.v ===== *)
(** * A ready through the runtime

    [tr_raft_runtime_process] and [tr_raft_runtime_retry_apply] on every path:
    what the storage, the transport and the state machine have got when the
    call returns, and where the core and the runtime are. *)

From S2P Require Import Prelude Configuration Vec Log CoreState CoreApi CoreFrame CoreInvariant.
From S2P Require Import CoreSafety CoreCalls CoreReach CoreReport Runtime RuntimeApply.
From Stdlib Require Import ZArith Lia.
From stdpp Require Import base numbers list tactics relations.
Open Scope Z_scope.
Open Scope raft_scope.

(** The storage has a context of its own. *)
Definition aside `{Contexts W D} (w w' : W) : Prop :=
  applied w' = applied w /\ sent w' = sent w /\ (world_ok w -> world_ok w').

Record storage_aside `{Contexts W D} (storage : tr_raft_storage W) : Prop := {
  sa_begin f w : st_begin storage = Some f -> aside w (fst (f w));
  sa_hard_state f w term vote :
    st_write_hard_state storage = Some f -> aside w (fst (f w term vote));
  sa_truncate f w i : st_truncate_log storage = Some f -> aside w (fst (f w i));
  sa_append f w es : st_append_log storage = Some f -> aside w (fst (f w es));
  sa_commit_index f w i : st_write_commit_index storage = Some f -> aside w (fst (f w i));
  sa_commit f w : st_commit storage = Some f -> aside w (fst (f w));
  sa_rollback f w : st_rollback storage = Some f -> aside w (fst (f w))
}.

Section Process.
Context {W D V : Type} `{Contexts W D} `{VecLaws V}.
Implicit Types (c : tr_raft_core V) (d : drive W V) (rt : tr_raft_runtime W V) (w : W).

(** The callbacks of a runtime. *)
Definition same_callbacks rt rt' : Prop :=
  rt_storage rt' = rt_storage rt /\ rt_transport rt' = rt_transport rt /\
  rt_state_machine rt' = rt_state_machine rt.

(** A stage that succeeds or fails the runtime, and does no more to the core
    than pause peers. *)
Record staged_call (P : W -> W -> Prop) d (result : status) d' : Prop := {
  sg_core : pauses (dr_core d) (dr_core d');
  sg_world : P (dr_world d) (dr_world d');
  sg_runtime : if ok result then dr_runtime d' = dr_runtime d
               else dr_runtime d' = set_faulted (dr_runtime d)
}.

#[local] Instance aside_preorder : PreOrder (aside (W := W)).
Proof. split; [done|]. intros w1 w2 w3 (?&?&?) (?&?&?). split_and!; [congruence|congruence|auto]. Qed.

(** ** Persisting *)

Lemma call_storage_spec d stage callback result d' :
  (forall f w, callback = Some f -> aside w (fst (f w))) ->
  call_storage d stage callback = (result, d') ->
  dr_core d' = dr_core d /\ dr_runtime d' = dr_runtime d /\ aside (dr_world d) (dr_world d').
Proof.
  intros Hc. unfold call_storage. destruct callback as [f|]; [|by intros [= <- <-]].
  specialize (Hc f (dr_world d) eq_refl). cbn in *. destruct (f (dr_world d)) as [w res].
  by intros [= <- <-].
Qed.

Lemma rollback_spec d stage cause result d' :
  storage_aside (rt_storage (dr_runtime d)) -> cause <> SALTS_OK ->
  tr_runtime_rollback d stage cause = (result, d') -> staged_call aside d result d'.
Proof.
  intros Hs Hne. unfold tr_runtime_rollback.
  destruct (match st_rollback _ with Some _ => _ | None => _ end) as [w error] eqn:E.
  assert (aside (dr_world d) w) as Ha.
  { destruct (st_rollback (rt_storage (dr_runtime d))) as [f|] eqn:Ef.
    - pose proof (sa_rollback _ Hs f (dr_world d) Ef) as Hr. by rewrite E in Hr.
    - by injection E as <- _. }
  intros [= <- <-]. split; [apply rtc_refl|done|]. by destruct cause.
Qed.

Lemma transaction_step_spec needed stage callback d0 d (next : drive W V -> status * drive W V)
    result d' :
  storage_aside (rt_storage (dr_runtime d0)) ->
  (forall f w, callback = Some f -> aside w (fst (f w))) ->
  dr_core d = dr_core d0 -> dr_runtime d = dr_runtime d0 -> aside (dr_world d0) (dr_world d) ->
  (forall d1, dr_core d1 = dr_core d0 -> dr_runtime d1 = dr_runtime d0 ->
   aside (dr_world d0) (dr_world d1) -> next d1 = (result, d') -> staged_call aside d0 result d') ->
  transaction_step needed stage callback d next = (result, d') -> staged_call aside d0 result d'.
Proof.
  intros Hs Hc Ec Er Ha Hnext. unfold transaction_step. destruct needed; [|by apply Hnext].
  destruct (call_storage d stage callback) as [res d1] eqn:E.
  destruct (call_storage_spec _ _ _ _ _ Hc E) as (E1 & E2 & E3). rewrite Ec in E1. rewrite Er in E2.
  destruct res as [|error]; [apply Hnext; [done|done|by etrans]|].
  intros Hr. apply rollback_spec in Hr; [|by rewrite E2|done]. destruct Hr as [C1 W1 R1].
  rewrite E2 in R1. rewrite E1 in C1. split; [done|do 2 (etrans; [eassumption|]); done|done].
Qed.

Lemma option_map_aside {A : Type} (P : W -> W -> Prop) (g : A -> W -> W * status) (o : option A) :
  (forall f w, o = Some f -> P w (fst (g f w))) ->
  forall f w, option_map g o = Some f -> P w (fst (f w)).
Proof. intros Ho f w Hf. destruct o as [a|]; [|done]. injection Hf as <-. by apply Ho. Qed.

Lemma persist_spec d ready result d' :
  storage_aside (rt_storage (dr_runtime d)) ->
  tr_runtime_persist d ready = (result, d') -> staged_call aside d result d'.
Proof.
  intros Hs. unfold tr_runtime_persist.
  destruct (call_storage d _ _) as [res d1] eqn:E.
  destruct (call_storage_spec _ _ _ _ _ (sa_begin _ Hs) E) as (E1 & E2 & E3).
  destruct res as [|error];
    [|intros [= <- <-]; split; [cbn; rewrite E1; apply rtc_refl|done|cbn; by rewrite E2]].
  eapply transaction_step_spec; [done|apply option_map_aside; intros f w; apply (sa_hard_state _ Hs)|done..|].
  intros d2 C2 R2 A2.
  eapply transaction_step_spec; [done|apply option_map_aside; intros f w; apply (sa_truncate _ Hs)|done..|].
  intros d3 C3 R3 A3.
  eapply transaction_step_spec; [done|apply option_map_aside; intros f w; apply (sa_append _ Hs)|done..|].
  intros d4 C4 R4 A4.
  eapply transaction_step_spec; [done|apply option_map_aside; intros f w; apply (sa_commit_index _ Hs)|done..|].
  intros d5 C5 R5 A5. eapply transaction_step_spec; [done|apply (sa_commit _ Hs)|done..|].
  intros d6 C6 R6 A6 [= <- <-]. split; [cbn; rewrite C6; apply rtc_refl|done|done].
Qed.

(** ** Sending *)

(** Messages have been sent in order, all of them when [all]. *)
Definition sends (ms : list tr_raft_message) (all : bool) w w' : Prop :=
  applied w' = applied w /\ disk w' = disk w /\ world_ok w' /\
  exists n, sent w' = hand_all (take n ms) (sent w) /\ (all = true -> n = length ms).

Lemma sends_nothing ms w : world_ok w -> sends ms false w w.
Proof. intros Hok. split_and!; [done|done|done|]. by exists 0%nat. Qed.

Lemma send_spec machine d ms result d' :
  callbacks_ok (rt_transport (dr_runtime d)) machine -> world_ok (dr_world d) ->
  send_messages d ms = (result, d') ->
  staged_call (sends ms (ok result)) d result d'.
Proof.
  revert d. induction ms as [|m ms IH]; intros d Hcb Hok; cbn [send_messages].
  { intros [= <- <-]. split; [apply rtc_refl| |done]. split_and!; [done..|].
    by exists 0%nat. }
  destruct (tp_enqueue (rt_transport (dr_runtime d))) as [f|] eqn:Ef; cycle 1.
  { intros [= <- <-]. split; [apply rtc_refl|by apply sends_nothing|done]. }
  destruct (f (dr_world d) (dr_core d) m) as [[w c] res] eqn:Er.
  destruct (co_enqueue _ _ Hcb _ _ _ _ _ _ _ Ef Hok Er) as (Hok' & Es & Ea & Ed & Hp). destruct res as [|error].
  - intros Hr. apply IH in Hr as [C1 (A1 & D1 & O1 & n & N1 & L1) R1]; [|done|done].
    split; [by etrans| |done]. cbn in A1, D1, N1. split_and!; [congruence|congruence|done|].
    exists (S n). split; [|intros ?; cbn; f_equal; auto].
    by rewrite N1, Es.
  - intros [= <- <-]. split; [done| |done]. split_and!; [done..|].
    by exists 0%nat.
Qed.

Lemma request_spec machine d qs result d' :
  callbacks_ok (rt_transport (dr_runtime d)) machine -> world_ok (dr_world d) ->
  request_snapshots d qs = (result, d') ->
  staged_call keeps_contexts d result d'.
Proof.
  revert d. induction qs as [|q qs IH]; intros d Hcb Hok; cbn [request_snapshots].
  { intros [= <- <-]. by split; [apply rtc_refl|..]. }
  destruct (tp_enqueue_snapshot (rt_transport (dr_runtime d))) as [f|] eqn:Ef; cycle 1.
  { intros [= <- <-]. by split; [apply rtc_refl|..]. }
  destruct (f (dr_world d) (dr_core d) q) as [[w c] res] eqn:Er.
  pose proof (co_snapshot _ _ Hcb _ _ _ _ _ _ _ Ef Hok Er) as [(Ea & Es & Ed & Eo) Hp]. destruct res as [|error].
  - intros Hr. apply IH in Hr as [C1 (A1 & S1 & D1 & O1) R1]; [|done|by apply Eo].
    split; [by etrans| |done]. cbn in *. split_and!; [congruence..|auto].
  - by intros [= <- <-].
Qed.

(** ** Applying *)

Lemma apply_more_post c es (from n : nat) :
  core_inv c -> window c es from -> (from + n <= length es)%nat -> quiet_post c (apply_more c n).
Proof.
  intros Hi Hw Hn. induction n as [|n IH].
  { rewrite apply_more_0. by apply quiet_post_refl. }
  destruct IH as (Hi' & Hg' & Hf'); [lia|].
  assert (window (apply_more c n) es (from + n)) as Hw' by (apply window_more; [done|lia]).
  assert (is_Some (es !! (from + n)%nat)) as [e He] by (apply lookup_lt_is_Some; lia).
  destruct (ack_applied_next _ _ _ _ Hw' He) as [Hack _].
  apply ack_applied_post in Hack as (Hi2 & Hg2 & Hf2); [|done].
  rewrite apply_more_add in *. replace (n + 1)%nat with (S n) in * by lia.
  split_and!; [done|by etrans|auto].
Qed.

Lemma admit_post c es : core_inv c -> awaiting c es -> quiet_post c (admit_all c (length es)).
Proof.
  intros Hi Ha. destruct (ack_ready_spec _ _ Ha) as [Hack _].
  by apply ack_ready_post in Hack; [|done|lia].
Qed.

(** Where the runtime is after it has applied entries up to [mid]. *)
Definition waits rt (es : list tr_raft_entry) (mid : nat) : Prop :=
  rt_apply_blocked rt = true /\ rt_blocked_entries rt = es /\ rt_blocked_apply_begin rt = mid.

(** The runtime after a batch was refused at [mid]. *)
Definition refusal (was_faulted : bool) rt' (es : list tr_raft_entry) (mid : nat) (error : status)
    : Prop :=
  if bool_decide (error = SALTS_EBUSY) then rt_faulted rt' = was_faulted /\ waits rt' es mid
  else rt_faulted rt' = true.

Lemma refusal_waits was_faulted rt' es mid error :
  refusal was_faulted rt' es mid error -> rt_faulted rt' = false -> waits rt' es mid.
Proof. unfold refusal. case_bool_decide; [by intros []|congruence]. Qed.

Record applies es (from mid : nat) d d' : Prop := {
  as_range : (from <= mid <= length es)%nat;
  as_callbacks : same_callbacks (dr_runtime d) (dr_runtime d');
  as_applied : applied (dr_world d') =
    applied (dr_world d) ++ commands (take (mid - from) (drop from es));
  as_sent : sent (dr_world d') = sent (dr_world d);
  as_disk : disk (dr_world d') = disk (dr_world d);
  as_world : world_ok (dr_world d) -> world_ok (dr_world d')
}.

(** How the entries of a ready are applied: all of them, and the ready is still
    to be acknowledged; or those before [mid], and the ready is acknowledged;
    or none, without a state machine. *)
Inductive first_application es d d' : nat -> status -> Prop :=
| first_complete :
    dr_runtime d' = dr_runtime (tr_runtime_clear_apply_block d) -> dr_core d' = dr_core d ->
    first_application es d d' (length es) SALTS_OK
| first_refused mid error :
    (mid < length es)%nat -> dr_core d' = apply_more (admit_all (dr_core d) (length es)) mid ->
    refusal (rt_faulted (dr_runtime d)) (dr_runtime d') es mid (SALTS_ERR error) ->
    first_application es d d' mid (SALTS_ERR error)
| first_failed error :
    dr_core d' = dr_core d -> rt_faulted (dr_runtime d') = true ->
    rt_apply_blocked (dr_runtime d') = rt_apply_blocked (dr_runtime d) ->
    first_application es d d' 0 (SALTS_ERR error).

Lemma refused_refusal d2 d d' es mid (error result : status) :
  result = error -> dr_runtime d2 = dr_runtime d ->
  rt_faulted (dr_runtime d') =
    (if bool_decide (error = SALTS_EBUSY) then rt_faulted (dr_runtime d2) else true) ->
  (bool_decide (error = SALTS_EBUSY) = true -> waits (dr_runtime d') es mid) ->
  refusal (rt_faulted (dr_runtime d)) (dr_runtime d') es mid result.
Proof. intros -> E Hf Hw. unfold refusal. rewrite <- E. case_bool_decide; auto. Qed.

Lemma first_application_spec transport d es result d' :
  callbacks_ok transport (rt_state_machine (dr_runtime d)) -> awaiting (dr_core d) es ->
  tr_runtime_apply_from d es 0 false = (result, d') ->
  exists mid, applies es 0 mid d d' /\ first_application es d d' mid result.
Proof.
  intros Hcb Ha Hrun.
  apply (apply_from_spec transport) in Hrun as (mid & d1 & [R1 E1 C1 A1 S1 D1 W1 M1] & Hend);
    [|done|lia|done].
  destruct Hend as [d' Er Ec Ew|mid e d2 error result d' He Hc Hne Er2 Ec2 (Ea & Es & Ed & Eo) Hr|mid d' Hm Hno Hf].
  - exists (length es). split; [|apply first_complete; [cbn; by rewrite Er, <- E1|congruence]].
    split; rewrite ?Ew; try done. rewrite Er. cbn. by rewrite E1.
  - pose proof (lookup_lt_Some _ _ _ He) as Hlt.
    apply apply_refused_spec in Hr as (Ew & Hres & Ec & Hf & Hw & K1 & K2 & K3); [|done|done|].
    + exists mid. split.
      * split; rewrite ?Ew; try congruence; [split_and!; congruence|auto].
      * destruct result as [|error']; [done|].
        apply first_refused; [done|cbn in *; by rewrite Ec, Ec2, C1|].
        by apply (refused_refusal d2 _ _ _ _ error); [|congruence|..].
    + by rewrite Ec2, C1.
  - injection Hf as <-. exists 0%nat. split; [|apply first_failed; [done|done|cbn; by rewrite E1]].
    split; cbn; try done; [lia|by rewrite E1|]. rewrite A1, M1; [done|]. by rewrite <- E1.
Qed.

(** A batch tried again. *)
Inductive next_application es d d' (from mid : nat) : status -> Prop :=
| next_complete :
    mid = length es -> dr_runtime d' = dr_runtime (tr_runtime_clear_apply_block d) ->
    next_application es d d' from mid SALTS_OK
| next_refused error :
    (mid < length es)%nat ->
    refusal (rt_faulted (dr_runtime d)) (dr_runtime d') es mid (SALTS_ERR error) ->
    next_application es d d' from mid (SALTS_ERR error).

Lemma next_application_spec transport d es from result d' :
  callbacks_ok transport (rt_state_machine (dr_runtime d)) -> window (dr_core d) es from ->
  tr_runtime_apply_from d es from true = (result, d') ->
  exists mid, applies es from mid d d' /\ dr_core d' = apply_more (dr_core d) (mid - from) /\
    next_application es d d' from mid result.
Proof.
  intros Hcb Hw Hrun.
  apply (apply_from_spec transport) in Hrun as (mid & d1 & [R1 E1 C1 A1 S1 D1 W1 M1] & Hend);
    [|done|apply Hw|done].
  destruct Hend as [d' Er Ec Ew|mid e d2 error result d' He Hc Hne Er2 Ec2 (Ea & Es & Ed & Eo) Hr|mid d' Hm Hno Hf].
  - exists (length es). split_and!; [|congruence|apply next_complete; [done|cbn; by rewrite Er, <- E1]].
    split; rewrite ?Ew; try done. rewrite Er. cbn. by rewrite E1.
  - pose proof (lookup_lt_Some _ _ _ He) as Hlt.
    apply apply_refused_spec in Hr as (Ew & Hres & Ec & Hf & Hw' & K1 & K2 & K3); [|done..].
    exists mid. split_and!; [|congruence|].
    + split; rewrite ?Ew; try congruence; [split_and!; congruence|auto].
    + destruct result as [|error']; [done|]. apply next_refused; [done|].
      by apply (refused_refusal d2 _ _ _ _ error); [|congruence|..].
  - injection Hf as <-. exists mid. split_and!; [|done|by apply next_refused].
    split; cbn; try done. by rewrite E1.
Qed.

(** ** A ready *)

(** The core waits for the ready [r], whose committed entries are those of the
    log. *)
Record ready_for c (r : tr_raft_ready) : Prop := {
  rf_free : c_in_call c = false;
  rf_outstanding : c_ready_outstanding c = true;
  rf_count : r_committed_entry_count r = Z.of_nat (length (r_committed_entries r));
  rf_entries k e : r_committed_entries r !! k = Some e ->
    log_at (c_log c) (c_apply_admitted_index c + 1 + Z.of_nat k) = Some e;
  rf_pending : c_pending_apply_index c =
    if r_committed_entry_count r =? 0 then 0
    else c_apply_admitted_index c + r_committed_entry_count r
}.

(** ** Calls that acknowledge nothing *)

(** A call that hands out no ready and acknowledges nothing. *)
Record settled c c' : Prop := {
  se_post : quiet_post c c';
  se_applied : c_applied_index c' = c_applied_index c;
  se_admitted : c_apply_admitted_index c' = c_apply_admitted_index c;
  se_pending : c_pending_apply_index c' = c_pending_apply_index c;
  se_outstanding : c_ready_outstanding c' = c_ready_outstanding c
}.

Lemma settled_refl c : core_inv c -> settled c c.
Proof. intros Hi. split; [by apply quiet_post_refl|done..]. Qed.

Lemma settled_trans c1 c2 c3 : settled c1 c2 -> settled c2 c3 -> settled c1 c3.
Proof.
  intros [(I1 & G1 & F1) ? ? ? ?] [(I2 & G2 & F2) ? ? ? ?].
  split; [split_and!; [done|by etrans|auto]|congruence..].
Qed.

(** Entries after the applied index stay where they are. *)
Lemma unapplied_kept c c' i e :
  core_inv c -> core_inv c' -> grows c c' -> c_applied_index c' = c_applied_index c ->
  c_applied_index c < i <= c_commit_index c -> log_at (c_log c) i = Some e ->
  log_at (c_log c') i = Some e.
Proof.
  intros Hi [Hk' _] [] E Hr He. destruct Hk'. rewrite gr_committed; [done|lia|lia].
Qed.

Lemma ready_settled c c' r : core_inv c -> ready_for c r -> settled c c' -> ready_for c' r.
Proof.
  intros Hi [F O C E P] [(Hi' & Hg & Hf) Ea Em Ep Eo].
  split; rewrite ?Em, ?Ep, ?Eo; auto. intros k e Hk.
  pose proof (lookup_lt_Some _ _ _ Hk) as Hlt. pose proof (key_inv_bounds c (proj1 Hi)).
  pose proof (proj1 Hi) as []. replace (_ =? 0) with false in P by blia.
  apply (unapplied_kept c c'); try done; [lia|by apply E].
Qed.

Lemma pause_settled c id paused result c' :
  core_inv c -> tr_raft_core_set_peer_paused c id paused = (result, c') -> settled c c'.
Proof.
  intros Hi Hc. pose proof (set_peer_paused_post _ _ _ _ _ Hi Hc) as Hq. revert Hc.
  unfold tr_raft_core_set_peer_paused. cbv zeta. repeat case_match; intros [= <- <-]; by split.
Qed.

Lemma pauses_settled c c' : core_inv c -> pauses c c' -> settled c c'.
Proof.
  intros Hi Hp. induction Hp as [c|c c1 c' (id & b & res & Hc) _ IH]; [by apply settled_refl|].
  apply pause_settled in Hc; [|done]. eapply settled_trans; [exact Hc|]. apply IH, Hc.
Qed.

(** ** The core after a ready *)

Lemma ready_awaiting c r :
  core_inv c -> ready_for c r -> c_applied_index c = c_apply_admitted_index c ->
  r_committed_entry_count r <> 0 -> awaiting c (r_committed_entries r).
Proof.
  intros Hi [F O C E P] Ha Hn. pose proof (key_inv_bounds c (proj1 Hi)) as Hb.
  pose proof (ki_pending_apply _ (proj1 Hi)) as Hp. pose proof (ki_commit _ (proj1 Hi)).
  replace (_ =? 0) with false in P by blia. pose proof (ki_applied _ (proj1 Hi)).
  split; [done|done| |lia|done| |lia].
  - intros E0. by rewrite E0 in C.
  - intros k e Hk. apply E in Hk. by apply log_at_Some_index in Hk as [-> _]; [|apply Hi].
Qed.

(** The core after a ready without refusals. *)
Definition advanced c (r : tr_raft_ready) : tr_raft_core V :=
  c <| c_apply_admitted_index := c_apply_admitted_index c + r_committed_entry_count r |>
    <| c_applied_index := c_applied_index c + r_committed_entry_count r |>
    <| c_pending_apply_index := 0 |> <| c_ready_outstanding := false |>.

Lemma advance_ready c r :
  core_inv c -> ready_for c r -> c_applied_index c = c_apply_admitted_index c ->
  tr_raft_core_advance c = (SALTS_OK, advanced c r).
Proof.
  intros Hi [F O C E P] Ha. unfold tr_raft_core_advance, advanced. rewrite F, O. cbn [negb orb].
  rewrite P, Ha. destruct (Z.eqb_spec (r_committed_entry_count r) 0) as [E0|E0].
  - rewrite E0, !Z.add_0_r. cbn [negb]. do 2 f_equal. rewrite <- Ha at 2.
    destruct c; cbn in *. by subst.
  - pose proof (key_inv_bounds c (proj1 Hi)). pose proof (ki_applied _ (proj1 Hi)).
    replace (_ + r_committed_entry_count r =? 0) with false by blia. cbn [negb].
    rewrite Z.eqb_refl. cbn [negb orb]. by replace (_ <? _) with false by blia.
Qed.

Lemma advanced_post c r :
  core_inv c -> ready_for c r -> c_applied_index c = c_apply_admitted_index c ->
  quiet_post c (advanced c r).
Proof. intros Hi Hr Ha. apply (advance_post c SALTS_OK); [done|]. by apply advance_ready. Qed.

(** ** The call *)

(** Where a call with the ready [r] leaves the core and the runtime, when
    [mid] committed entries have been applied: a stage has failed; or the
    state machine has refused; or all is done. *)
Inductive processed c r d' : nat -> status -> Prop :=
| processed_failed error :
    dr_core d' = c -> rt_faulted (dr_runtime d') = true -> rt_apply_blocked (dr_runtime d') = false ->
    processed c r d' 0 (SALTS_ERR error)
| processed_refused mid error :
    (mid < length (r_committed_entries r))%nat -> awaiting c (r_committed_entries r) ->
    dr_core d' = apply_more (admit_all c (length (r_committed_entries r))) mid ->
    refusal false (dr_runtime d') (r_committed_entries r) mid (SALTS_ERR error) ->
    processed c r d' mid (SALTS_ERR error)
| processed_done :
    dr_core d' = advanced c r -> rt_faulted (dr_runtime d') = false ->
    rt_apply_blocked (dr_runtime d') = false ->
    processed c r d' (length (r_committed_entries r)) SALTS_OK.

Record process_effects d r d' (mid : nat) (stored : status) d1 : Prop := {
  pe_callbacks : same_callbacks (dr_runtime d) (dr_runtime d');
  pe_applied : applied (dr_world d') =
    applied (dr_world d) ++ commands (take mid (r_committed_entries r));
  pe_disk : disk (dr_world d') = disk (dr_world d1);
  pe_sent : exists n, sent (dr_world d') = hand_all (take n (r_messages r)) (sent (dr_world d)) /\
    (ok stored = false -> n = 0%nat) /\
    (rt_faulted (dr_runtime d') = false -> n = length (r_messages r));
  pe_world : world_ok (dr_world d');
  pe_failed : ok stored = false -> rt_faulted (dr_runtime d') = true
}.

Lemma store_ready_spec d r result d' :
  storage_aside (rt_storage (dr_runtime d)) ->
  store_ready d r = (result, d') -> staged_call aside d result d'.
Proof.
  intros Hs. unfold store_ready. destruct (tr_ready_needs_storage r); [|by intros [= <- <-]].
  destruct (negb _); [by intros [= <- <-]|]. by apply persist_spec.
Qed.

(** The last two stages: applying and advancing. *)
Definition apply_stage d r : status * drive W V :=
  let '(result, d) :=
    if negb (r_committed_entry_count r =? 0)
    then tr_runtime_apply_from d (r_committed_entries r) 0 false
    else (SALTS_OK, d) in
  if failed result then (result, d) else tr_runtime_advance_after_apply d.

Definition unblocked rt : Prop := rt_faulted rt = false /\ rt_apply_blocked rt = false.

Lemma apply_stage_spec transport d r result d' :
  callbacks_ok transport (rt_state_machine (dr_runtime d)) -> unblocked (dr_runtime d) ->
  core_inv (dr_core d) -> ready_for (dr_core d) r ->
  c_applied_index (dr_core d) = c_apply_admitted_index (dr_core d) ->
  apply_stage d r = (result, d') ->
  exists mid, processed (dr_core d) r d' mid result /\ applies (r_committed_entries r) 0 mid d d'.
Proof.
  intros Hcb [Hf Hb] Hi Hr Ha. unfold apply_stage, tr_runtime_advance_after_apply.
  destruct (Z.eqb_spec (r_committed_entry_count r) 0) as [E0|E0]; cbn [negb].
  - cbn [failed ok negb at_stage with_result dr_core].
    rewrite (advance_ready _ r) by done. intros [= <- <-].
    exists (length (r_committed_entries r)). split; [by apply processed_done|].
    assert (r_committed_entries r = []) as ->.
    { apply length_zero_iff_nil. pose proof (rf_count _ _ Hr). lia. }
    split; cbn; rewrite ?app_nil_r; done.
  - pose proof (ready_awaiting _ _ Hi Hr Ha E0) as Hw.
    destruct (tr_runtime_apply_from d (r_committed_entries r) 0 false) as [res d1] eqn:Hrun.
    apply (first_application_spec transport) in Hrun as (mid & Hs & Hend); [|done|done].
    destruct Hend as [Er Ec|mid error Hm Ec Hwait|error Ec Hfault Hblock]; cbn [failed ok negb].
    + cbn [at_stage with_result dr_core]. rewrite Ec, (advance_ready _ r) by done.
      intros [= <- <-]. exists (length (r_committed_entries r)).
      split; [apply processed_done; cbn; [done|by rewrite Er|by rewrite Er]|].
      by destruct Hs.
    + intros [= <- <-]. exists mid. rewrite Hf in Hwait. split; [by apply processed_refused|done].
    + intros [= <- <-]. exists 0%nat. rewrite Hb in Hblock. split; [by apply processed_failed|done].
Qed.

Lemma process_ready_spec d r result d' :
  callbacks_ok (rt_transport (dr_runtime d)) (rt_state_machine (dr_runtime d)) ->
  storage_aside (rt_storage (dr_runtime d)) -> unblocked (dr_runtime d) ->
  core_inv (dr_core d) -> ready_for (dr_core d) r ->
  c_applied_index (dr_core d) = c_apply_admitted_index (dr_core d) -> world_ok (dr_world d) ->
  process_ready d r = (result, d') ->
  exists c1 mid, pauses (dr_core d) c1 /\ processed c1 r d' mid result /\
    process_effects d r d' mid (fst (store_ready d r)) (snd (store_ready d r)).
Proof.
  intros Hcb Hs Hu Hi Hr Ha Hok. unfold process_ready.
  destruct (store_ready d r) as [res1 d1] eqn:E1. cbn [fst snd].
  apply store_ready_spec in E1 as [C1 (A1 & S1 & O1) R1]; [|done].
  specialize (O1 Hok). destruct res1 as [|error]; cbn [failed ok negb] in *; cycle 1.
  { intros [= <- <-]. exists (dr_core d1), 0%nat. split; [done|].
    split; [apply processed_failed; [done|rewrite R1; done|rewrite R1; apply Hu]|].
    split; [by rewrite R1|by rewrite app_nil_r|done| |done|by rewrite R1].
    exists 0%nat. by rewrite R1. }
  destruct (send_messages _ _) as [res2 d2] eqn:E2.
  apply (send_spec (rt_state_machine (dr_runtime d))) in E2
    as [C2 (A2 & D2 & O2 & n & S2 & N2) R2]; [|cbn; by rewrite R1|done].
  cbn in C2, A2, D2, S2, R2. rewrite S1 in S2.
  assert (pauses (dr_core d) (dr_core d2)) as P2 by by etrans.
  destruct res2 as [|error]; cbn [failed ok negb] in *; cycle 1.
  { intros [= <- <-]. exists (dr_core d2), 0%nat. split; [done|].
    split; [apply processed_failed; [done|rewrite R2; done|rewrite R2, R1; apply Hu]|].
    split; [rewrite R2, R1; done|rewrite app_nil_r; congruence|done| |done|done].
    exists n. by rewrite R2. }
  destruct (request_snapshots _ _) as [res3 d3] eqn:E3.
  apply (request_spec (rt_state_machine (dr_runtime d))) in E3
    as [C3 (A3 & S3 & D3 & O3) R3]; [|by rewrite R2, R1|done].
  specialize (O3 O2).
  assert (pauses (dr_core d) (dr_core d3)) as P3 by by etrans.
  destruct res3 as [|error]; cbn [failed ok negb] in *; cycle 1.
  { intros [= <- <-]. exists (dr_core d3), 0%nat. split; [done|].
    split; [apply processed_failed; [done|rewrite R3; done|rewrite R3, R2, R1; apply Hu]|].
    split; [rewrite R3, R2, R1; done|rewrite app_nil_r; congruence|congruence| |done|done].
    exists n. by rewrite S3, R3. }
  assert (dr_runtime d3 = dr_runtime d) as R by congruence.
  pose proof (pauses_settled _ _ Hi P3) as Hset. pose proof Hset as [(Hi3 & _) Eap Ead _ _].
  fold (apply_stage d3 r). intros Hrun.
  apply (apply_stage_spec (rt_transport (dr_runtime d))) in Hrun as (mid & Hp & [Hm K A S Di O]);
    [|by rewrite ?R|by rewrite ?R|done|by apply (ready_settled (dr_core d))|by rewrite Eap, Ead].
  exists (dr_core d3), mid. split; [done|]. split; [done|]. rewrite Nat.sub_0_r, drop_0 in A.
  split; [by rewrite <- R|congruence|congruence| |by apply O|done].
  exists n. rewrite S, S3. split_and!; [done|done|auto].
Qed.
End Process.
