(* ===== verification/Node.v ===== *)
(** * A node: a core with its runtime

    The runs of a node: calls of the core, readies handed to the runtime, and
    batches tried again. Over every run the state machine gets each committed
    command once, in the order of the log. *)

From S2P Require Import Prelude Configuration Vec Log CoreState CoreApi CoreFrame CoreInvariant.
From S2P Require Import CoreSafety CoreCalls CoreReach CoreReport Runtime RuntimeApply RuntimeProcess.
From Stdlib Require Import ZArith Lia.
From stdpp Require Import base numbers list tactics relations.
Open Scope Z_scope.
Open Scope raft_scope.

Section Node.
Context {W D V : Type} `{Contexts W D} `{VecLaws V}.
Implicit Types (c : tr_raft_core V) (rt : tr_raft_runtime W V) (w : W) (r : tr_raft_ready).

(** The ready is the one the core waits for, if it waits for one. *)
Record node := Node {
  nd_runtime : tr_raft_runtime W V;
  nd_core : tr_raft_core V;
  nd_world : W;
  nd_ready : option tr_raft_ready
}.

Definition driven (d : drive W V) (ready : option tr_raft_ready) : node :=
  Node (dr_runtime d) (dr_core d) (dr_world d)
    (if c_ready_outstanding (dr_core d) then ready else None).

(** What the owner of a node does with it. A call of the core that is refused
    leaves no ready; a ready is handed to the runtime as long as the core waits
    for it. *)
Inductive node_step : node -> node -> Prop :=
| node_call rt c w ready r result c' r' :
    ready_call c r result c' r' ->
    node_step (Node rt c w ready)
      (Node rt c' w (if ok result then if c_ready_outstanding c' then Some r' else None else ready))
| node_compact rt c w ready point result c' :
    tr_raft_core_compact c point = (result, c') ->
    node_step (Node rt c w ready) (Node rt c' w ready)
| node_pause rt c w ready id paused result c' :
    tr_raft_core_set_peer_paused c id paused = (result, c') ->
    node_step (Node rt c w ready) (Node rt c' w ready)
| node_process rt c w r result d :
    tr_raft_runtime_process rt c r w = (result, d) ->
    node_step (Node rt c w (Some r)) (driven d (Some r))
| node_retry rt c w ready result d :
    tr_raft_runtime_retry_apply rt c w = (result, d) ->
    node_step (Node rt c w ready) (driven d ready).

Lemma node_processed rt c w r :
  node_step (Node rt c w (Some r)) (driven (snd (tr_raft_runtime_process rt c r w)) (Some r)).
Proof. eapply node_process, surjective_pairing. Qed.

(** ** The invariant *)

(** The entries from [from] on that wait for the state machine are in the log. *)
Definition pending_in_log c (es : list tr_raft_entry) (from : nat) : Prop :=
  forall k e, es !! (from + k)%nat = Some e ->
    log_at (c_log c) (c_applied_index c + 1 + Z.of_nat k) = Some e.

Record blocked c rt : Prop := {
  bl_window : window c (rt_blocked_entries rt) (rt_blocked_apply_begin rt);
  bl_some : (rt_blocked_apply_begin rt < length (rt_blocked_entries rt))%nat;
  bl_log : pending_in_log c (rt_blocked_entries rt) (rt_blocked_apply_begin rt)
}.

Definition callbacks_of rt : Prop :=
  callbacks_ok (rt_transport rt) (rt_state_machine rt) /\ storage_aside (rt_storage rt).

Record node_inv (n : node) : Prop := {
  ni_callbacks : callbacks_of (nd_runtime n);
  ni_core : core_inv (nd_core n);
  ni_free : c_in_call (nd_core n) = false;
  ni_ready : match nd_ready n with
             | Some r => ready_for (nd_core n) r
             | None => c_ready_outstanding (nd_core n) = false
             end;
  ni_applied : rt_faulted (nd_runtime n) = false ->
    if rt_apply_blocked (nd_runtime n) then blocked (nd_core n) (nd_runtime n)
    else c_applied_index (nd_core n) = c_apply_admitted_index (nd_core n);
  ni_world : world_ok (nd_world n)
}.

(** ** What a step delivers *)

(** The entries [es] follow the applied index of [c], and are those of the log
    of [c'] where it still has them. *)
Record delivered c c' (es : list tr_raft_entry) : Prop := {
  dl_count : c_applied_index c' = c_applied_index c + Z.of_nat (length es);
  dl_index k e : es !! k = Some e -> entry_index e = c_applied_index c + 1 + Z.of_nat k;
  dl_log k e : es !! k = Some e ->
    log_base_index (c_log c') < c_applied_index c + 1 + Z.of_nat k ->
    log_at (c_log c') (c_applied_index c + 1 + Z.of_nat k) = Some e
}.

Definition delivers (n n' : node) : Prop :=
  grows (nd_core n) (nd_core n') /\ core_inv (nd_core n') /\
  exists es, delivered (nd_core n) (nd_core n') es /\
    applied (nd_world n') = applied (nd_world n) ++ commands es.

Lemma delivered_nil c c' : c_applied_index c' = c_applied_index c -> delivered c c' [].
Proof. intros E. split; [cbn; lia|done|done]. Qed.

Lemma delivered_app c c1 c2 es fs :
  grows c1 c2 -> core_inv c1 -> delivered c c1 es -> delivered c1 c2 fs ->
  delivered c c2 (es ++ fs).
Proof.
  intros Hg Hi [N1 I1 L1] [N2 I2 L2].
  assert (forall k e, (es ++ fs) !! k = Some e -> es !! k = Some e \/
    exists j, fs !! j = Some e /\ Z.of_nat k = Z.of_nat (length es) + Z.of_nat j) as Hsplit.
  { intros k e Hk. apply lookup_app_Some in Hk as [|[Hl Hk]]; [by left|right].
    exists (k - length es)%nat. split; [done|lia]. }
  split.
  - rewrite length_app. lia.
  - intros k e [Hk|(j & Hj & Ek)]%Hsplit; [by apply I1|]. rewrite (I2 _ _ Hj). lia.
  - intros k e [Hk|(j & Hj & Ek)]%Hsplit Hb.
    + pose proof (lookup_lt_Some _ _ _ Hk) as Hlt. destruct Hg. pose proof (proj1 Hi) as [].
      rewrite gr_committed; [|lia|done]. apply L1; [done|lia].
    + replace (c_applied_index c + 1 + Z.of_nat k) with (c_applied_index c1 + 1 + Z.of_nat j) in * by lia.
      by apply L2.
Qed.

Lemma delivers_none n n' :
  core_inv (nd_core n) -> nd_core n' = nd_core n -> applied (nd_world n') = applied (nd_world n) ->
  delivers n n'.
Proof.
  intros Hi Ec Ew. unfold delivers. rewrite Ec, Ew. split_and!; [done|done|]. exists [].
  split; [by apply delivered_nil|]. by rewrite app_nil_r.
Qed.

Lemma delivers_refl n : core_inv (nd_core n) -> delivers n n.
Proof. intros Hi. by apply delivers_none. Qed.

Lemma delivers_trans n n1 n2 : delivers n n1 -> delivers n1 n2 -> delivers n n2.
Proof.
  intros (G1 & I1 & es & D1 & A1) (G2 & I2 & fs & D2 & A2). split_and!; [by etrans|done|].
  exists (es ++ fs). split; [by eapply delivered_app|].
  by rewrite A2, A1, commands_app, app_assoc.
Qed.

(** ** Calls of the core *)

Lemma window_settled c c' es from :
  c_in_call c' = false -> c_applied_index c' = c_applied_index c ->
  c_apply_admitted_index c' = c_apply_admitted_index c ->
  window c es from -> window c' es from.
Proof. intros Hf Ea Em [F I L A B]. split; rewrite ?Ea, ?Em; done. Qed.

Lemma blocked_kept c c' rt :
  core_inv c -> core_inv c' -> grows c c' -> c_in_call c' = false ->
  c_applied_index c' = c_applied_index c -> c_apply_admitted_index c' = c_apply_admitted_index c ->
  blocked c rt -> blocked c' rt.
Proof.
  intros Hi Hi' Hg Hf Ea Em [Hw Hs Hl]. split; [by eapply window_settled|done|].
  intros k e Hk. rewrite Ea. pose proof (lookup_lt_Some _ _ _ Hk) as Hlt.
  pose proof (proj1 Hi) as []. destruct Hw.
  apply (unapplied_kept c c'); try done; [lia|by apply Hl].
Qed.

(** The runtime's part of the invariant does not depend on the core's other
    fields. *)
Lemma applied_kept c c' rt :
  core_inv c -> core_inv c' -> grows c c' -> c_in_call c' = false ->
  c_applied_index c' = c_applied_index c -> c_apply_admitted_index c' = c_apply_admitted_index c ->
  (rt_faulted rt = false -> if rt_apply_blocked rt then blocked c rt
   else c_applied_index c = c_apply_admitted_index c) ->
  (rt_faulted rt = false -> if rt_apply_blocked rt then blocked c' rt
   else c_applied_index c' = c_apply_admitted_index c').
Proof.
  intros Hi Hi' Hg Hf Ea Em Ha Hno. specialize (Ha Hno).
  destruct (rt_apply_blocked rt); [by apply (blocked_kept c)|congruence].
Qed.

Lemma settled_step rt c c' w ready :
  node_inv (Node rt c w ready) -> settled c c' ->
  node_inv (Node rt c' w ready) /\ delivers (Node rt c w ready) (Node rt c' w ready).
Proof.
  intros [K Hi Hf Hr Ha] Hs. pose proof Hs as [(Hi' & Hg & Hf') Ea Em Ep Eo]. cbn in *. split.
  - split; cbn; auto.
    + destruct ready; [by apply (ready_settled c)|congruence].
    + apply (applied_kept c); auto.
  - split_and!; [done|done|]. exists []. split; [by apply delivered_nil|]. by rewrite app_nil_r.
Qed.

Lemma compact_settled c point result c' :
  core_inv c -> tr_raft_core_compact c point = (result, c') -> settled c c'.
Proof.
  intros Hi Hc. pose proof (compact_post _ _ _ _ Hi Hc) as Hq. revert Hc.
  unfold tr_raft_core_compact. destruct (tr_raft_core_snapshot_point c) as [[] [p|]];
    try (by intros [= <- <-]; split).
  case_match; [by intros [= <- <-]; split|].
  destruct (tr_raft_log_compact _ _ _) as [res log]. by intros [= <- <-]; split.
Qed.

Lemma refused_settled c r result c' r' :
  core_inv c -> ready_call c r result c' r' -> result <> SALTS_OK -> settled c c'.
Proof.
  intros Hi Hcall Hne. apply ready_call_post in Hcall as []; [|done].
  destruct (cp_refused Hne), cp_apply. by split.
Qed.

(** A ready call that succeeds hands out the ready the core waits for. *)
Lemma ready_call_ready c r c' r' :
  core_inv c -> c_in_call c = false -> ready_call c r SALTS_OK c' r' ->
  c_ready_outstanding c' = true -> ready_for c' r'.
Proof.
  intros Hi Hf Hcall Ho. pose proof (ready_call_accounted _ _ _ _ Hi Hcall) as [_ Hno].
  pose proof (ready_call_post _ _ _ _ _ Hi Hcall) as Hp.
  pose proof (cp_protocol _ _ _ _ _ Hp eq_refl) as Hidle.
  pose proof (ki_pending_apply _ (proj1 Hi)) as Hpend.
  destruct Hp as [Hi' Hg Hf' _ _ _ Hd _ _ _ _]. specialize (Hd eq_refl).
  destruct (decide (c_apply_admitted_index c' < c_commit_index c')) as [Hlt|Hge].
  - destruct (Hd Hlt) as (_ & Ep & En & El & Ee). split; auto; [lia|].
    rewrite Ep, En. replace (_ =? 0) with false by blia. lia.
  - destruct Hno as (E1 & E2 & E3); [lia|]. split; rewrite ?E1, ?E2, ?E3; auto; [done|].
    rewrite Z.eqb_refl. destruct Hpend as [|[]]; congruence.
Qed.

Lemma call_step_inv rt c w ready r result c' r' :
  node_inv (Node rt c w ready) -> ready_call c r result c' r' ->
  let n' := Node rt c' w
    (if ok result then if c_ready_outstanding c' then Some r' else None else ready) in
  node_inv n' /\ delivers (Node rt c w ready) n'.
Proof.
  intros Hn Hcall. pose proof Hn as [K Hi Hf Hr Ha]. cbn in K, Hi, Hf, Hr, Ha.
  destruct result as [|error]; cbn [ok]; cycle 1.
  { apply settled_step; [done|]. by eapply refused_settled. }
  pose proof (ready_call_post _ _ _ _ _ Hi Hcall) as [Hi' Hg Hf' _ _ _ _ _ [E1 E2] _ _]. split.
  - split; cbn; auto.
    + destruct (c_ready_outstanding c') eqn:Ho; [by apply (ready_call_ready c r)|done].
    + apply (applied_kept c); auto.
  - split_and!; [done|done|]. exists []. split; [by apply delivered_nil|]. by rewrite app_nil_r.
Qed.

(** ** Calls of the runtime *)

Lemma callbacks_kept rt rt' : callbacks_of rt -> same_callbacks rt rt' -> callbacks_of rt'.
Proof. unfold callbacks_of. by intros [] (-> & -> & ->). Qed.

(** The entries of a ready that have been applied. *)
Lemma prefix_delivered c c' r mid :
  core_inv c -> ready_for c r -> c_applied_index c = c_apply_admitted_index c ->
  quiet_post c c' -> (mid <= length (r_committed_entries r))%nat ->
  c_applied_index c' = c_applied_index c + Z.of_nat mid ->
  delivered c c' (take mid (r_committed_entries r)).
Proof.
  intros Hi Hr Ha (Hi' & Hg & _) Hm Ec.
  assert (forall k e, take mid (r_committed_entries r) !! k = Some e ->
    (k < mid)%nat /\ log_at (c_log c) (c_applied_index c + 1 + Z.of_nat k) = Some e) as Hk.
  { intros k e [Hk Hlt]%lookup_take_Some. split; [done|]. rewrite Ha. by apply Hr. }
  split; [rewrite length_take; lia| |].
  - intros k e [_ He]%Hk. by apply log_at_Some_index in He as [-> _]; [|apply Hi].
  - intros k e [Hlt He]%Hk Hb. destruct Hg. pose proof (proj1 Hi') as []. pose proof (proj1 Hi) as [].
    rewrite gr_committed; [done| |done].
    pose proof (log_at_is_Some (c_log c) (c_applied_index c + 1 + Z.of_nat k)) as Hsome.
    pose proof (rf_pending _ _ Hr) as P. pose proof (rf_count _ _ Hr).
    pose proof (key_inv_bounds c (proj1 Hi)).
    replace (_ =? 0) with false in P by blia. lia.
Qed.

(** The core after a refusal, with the entries that wait. *)
Lemma refusal_blocked c r mid rt' :
  core_inv c -> ready_for c r -> awaiting c (r_committed_entries r) ->
  (mid < length (r_committed_entries r))%nat -> waits rt' (r_committed_entries r) mid ->
  blocked (apply_more (admit_all c (length (r_committed_entries r))) mid) rt'.
Proof.
  intros Hi Hr Ha Hm (_ & E1 & E2). destruct (ack_ready_spec _ _ Ha) as [_ Hw].
  split; rewrite E1, E2; [by apply (window_more _ _ 0 mid Hw); lia|done|].
  intros k e Hk. apply (rf_entries _ _ Hr) in Hk. rewrite <- Hk. unfold apply_more, admit_all.
  record_simpl. f_equal. rewrite (aw_applied _ _ Ha). lia.
Qed.

(** The last stage has left a core that has applied [mid] entries more. *)
Lemma processed_post c r (d' : drive W V) mid result :
  core_inv c -> ready_for c r -> c_applied_index c = c_apply_admitted_index c ->
  processed c r d' mid result ->
  quiet_post c (dr_core d') /\ c_applied_index (dr_core d') = c_applied_index c + Z.of_nat mid /\
  (mid <= length (r_committed_entries r))%nat.
Proof.
  intros Hi Hr Ha Hp. destruct Hp as [error Ec _ _|mid error Hm Hw Ec _|Ec _ _]; rewrite Ec.
  - split_and!; [by apply quiet_post_refl|lia|lia].
  - destruct (admit_post c _ Hi Hw) as (Hi1 & Hg1 & Hf1).
    destruct (ack_ready_spec _ _ Hw) as [_ Hwin].
    destruct (apply_more_post _ _ 0 mid Hi1 Hwin) as (Hi2 & Hg2 & Hf2); [lia|].
    split; [|done || (split; [done|lia])]. split_and!; [done|by etrans|auto].
  - pose proof (rf_count _ _ Hr). split_and!; [by apply advanced_post| |lia].
    unfold advanced. record_simpl. lia.
Qed.

Lemma processed_inv rt c w r (d' : drive W V) mid result :
  node_inv (Node rt c w (Some r)) -> unblocked rt -> same_callbacks rt (dr_runtime d') ->
  processed c r d' mid result -> world_ok (dr_world d') -> node_inv (driven d' (Some r)).
Proof.
  intros [K Hi Hf Hr Ha _] [Hno Hnb] Hk Hp Hok. cbn in *. specialize (Ha Hno). rewrite Hnb in Ha.
  pose proof (processed_post _ _ _ _ _ Hi Hr Ha Hp) as ((Hi' & Hg & Hf') & _).
  split; cbn; auto; [by eapply callbacks_kept| |].
  - destruct Hp as [error Ec _ _|mid error Hm Hw Ec _|Ec _ _]; rewrite Ec; [|done|done].
    by rewrite (rf_outstanding _ _ Hr).
  - intros Hno'. destruct Hp as [error Ec Hfault _|mid error Hm Hw Ec Hwait|Ec _ Hb]; [congruence| |].
    + apply refusal_waits in Hwait; [|done]. pose proof Hwait as (-> & _). rewrite Ec. by apply refusal_blocked.
    + rewrite Hb, Ec. unfold advanced. record_simpl. lia.
Qed.

Lemma process_step_inv rt c w r result d :
  node_inv (Node rt c w (Some r)) -> tr_raft_runtime_process rt c r w = (result, d) ->
  node_inv (driven d (Some r)) /\ delivers (Node rt c w (Some r)) (driven d (Some r)).
Proof.
  intros Hn. pose proof Hn as [[K1 K2] Hi Hf Hr Ha Hw]. cbn in K1, K2, Hi, Hf, Hr, Ha, Hw.
  unfold tr_raft_runtime_process. destruct (rt_faulted rt) eqn:Hfault.
  { intros [= <- <-]. unfold driven. cbn. rewrite (rf_outstanding _ _ Hr).
    split; [by split|by apply (delivers_refl (Node rt c w (Some r)))]. }
  destruct (rt_apply_blocked rt) eqn:Hb.
  { intros [= <- <-]. unfold driven. cbn. rewrite (rf_outstanding _ _ Hr).
    split; [exact Hn|by apply (delivers_refl (Node rt c w (Some r)))]. }
  specialize (Ha eq_refl). intros Hrun.
  apply process_ready_spec in Hrun as (c1 & mid & Hpause & Hp & [Hk Happ _ _ Hok _]); [|done..].
  cbn in Hpause, Hp, Hk, Happ. apply pauses_settled in Hpause as Hset; [|done].
  destruct (settled_step rt c c1 w (Some r) Hn Hset) as [Hn1 Hd1].
  pose proof Hn1 as [_ Hi1 _ Hr1 Ha1 _]. cbn in Hi1, Hr1, Ha1. specialize (Ha1 Hfault). rewrite Hb in Ha1.
  pose proof (processed_post _ _ _ _ _ Hi1 Hr1 Ha1 Hp) as (Hq & Hc & Hm).
  split; [by eapply processed_inv|]. eapply delivers_trans; [exact Hd1|].
  split_and!; [apply Hq|apply Hq|]. eexists. split; [by apply prefix_delivered|exact Happ].
Qed.

(** The entries of a batch that have been applied when it was tried again. *)
Lemma range_delivered c es (from mid : nat) :
  core_inv c -> window c es from -> pending_in_log c es from -> (from <= mid <= length es)%nat ->
  delivered c (apply_more c (mid - from)) (take (mid - from) (drop from es)).
Proof.
  intros Hi Hw Hl Hm.
  assert (forall k e, take (mid - from) (drop from es) !! k = Some e ->
    log_at (c_log c) (c_applied_index c + 1 + Z.of_nat k) = Some e) as Hk.
  { intros k e [Hk Hlt]%lookup_take_Some. rewrite lookup_drop in Hk. by apply Hl. }
  split; [|intros k e He%Hk|intros k e He%Hk _; done].
  - unfold apply_more. record_simpl. rewrite length_take, length_drop. lia.
  - by apply log_at_Some_index in He as [-> _]; [|apply Hi].
Qed.

Lemma refused_again_blocked c rt rt' mid :
  blocked c rt ->
  (rt_blocked_apply_begin rt <= mid < length (rt_blocked_entries rt))%nat ->
  waits rt' (rt_blocked_entries rt) mid ->
  blocked (apply_more c (mid - rt_blocked_apply_begin rt)) rt'.
Proof.
  intros [Hw _ Hl] Hm (_ & E1 & E2). split; rewrite E1, E2; [|lia|].
  - replace mid with (rt_blocked_apply_begin rt + (mid - rt_blocked_apply_begin rt))%nat at 2 by lia.
    apply window_more; [done|lia].
  - intros k e Hk. unfold apply_more. record_simpl.
    replace (c_applied_index c + Z.of_nat (mid - rt_blocked_apply_begin rt) + 1 + Z.of_nat k)
      with (c_applied_index c + 1 + Z.of_nat (mid - rt_blocked_apply_begin rt + k)) by lia.
    apply Hl. rewrite <- Hk. f_equal. lia.
Qed.

(** A batch has been tried again: up to [mid] of its entries are applied. *)
Lemma retried_inv rt c w ready (d : drive W V) mid result :
  node_inv (Node rt c w ready) -> blocked c rt -> rt_faulted rt = false ->
  (rt_blocked_apply_begin rt <= mid <= length (rt_blocked_entries rt))%nat ->
  same_callbacks rt (dr_runtime d) ->
  dr_core d = apply_more c (mid - rt_blocked_apply_begin rt) ->
  next_application (rt_blocked_entries rt) (Drive rt c w blank_result) d
    (rt_blocked_apply_begin rt) mid result ->
  (world_ok w -> world_ok (dr_world d)) ->
  node_inv (Node (dr_runtime d) (dr_core d) (dr_world d) ready).
Proof.
  intros [K Hi Hf Hr _ Hw0] Hb Hno Hm Hk Hc Hend Hok. cbn in Hw0, K, Hi, Hf, Hr. pose proof Hb as [Hw _ _].
  destruct (apply_more_post c _ _ (mid - rt_blocked_apply_begin rt) Hi Hw) as (Hi' & Hg & Hf');
    [lia|]. split; cbn; rewrite ?Hc; auto; [by eapply callbacks_kept| |].
  - destruct ready; [|done]. by destruct Hr.
  - intros Hno'. destruct Hend as [Em Er|error Hlt Hwait].
    + rewrite Er. cbn. unfold apply_more. record_simpl. destruct Hw. lia.
    + apply refusal_waits in Hwait; [|done]. pose proof Hwait as (-> & _). by apply refused_again_blocked; [|lia|].
Qed.

(** What a call that tries a batch again does: nothing, or it goes on with the
    blocked entries. *)
Inductive retried rt c w (d : drive W V) (result : status) : Prop :=
| retried_nothing :
    dr_core d = c -> dr_world d = w -> dr_runtime d = rt \/
    (rt_faulted rt = true /\ dr_runtime d = set_faulted rt) ->
    result = SALTS_EPROTO \/ result = SALTS_ENOENT -> retried rt c w d result
| retried_entries mid d1 :
    rt_faulted rt = false -> blocked c rt ->
    applies (rt_blocked_entries rt) (rt_blocked_apply_begin rt) mid (Drive rt c w blank_result) d1 ->
    dr_core d1 = apply_more c (mid - rt_blocked_apply_begin rt) ->
    next_application (rt_blocked_entries rt) (Drive rt c w blank_result) d1
      (rt_blocked_apply_begin rt) mid result ->
    dr_core d = dr_core d1 -> dr_world d = dr_world d1 -> dr_runtime d = dr_runtime d1 ->
    retried rt c w d result.

Lemma retry_spec rt c w ready result d :
  node_inv (Node rt c w ready) -> tr_raft_runtime_retry_apply rt c w = (result, d) ->
  retried rt c w d result.
Proof.
  intros [[K1 K2] Hi Hf Hr Ha _]. cbn in *.
  unfold tr_raft_runtime_retry_apply. destruct (rt_faulted rt) eqn:Hfault.
  { intros [= <- <-]. apply retried_nothing; auto. }
  destruct (negb (rt_apply_blocked rt) || _) eqn:Hb.
  { intros [= <- <-]. apply retried_nothing; auto. }
  apply orb_false_iff in Hb as [Hb%negb_false_iff Hlt]. specialize (Ha eq_refl). rewrite Hb in Ha.
  destruct (tr_runtime_apply_from _ _ _ true) as [res d1] eqn:Hrun.
  apply (next_application_spec (rt_transport rt)) in Hrun as (mid & Has & Hc & Hend);
    [|done|apply Ha]. intros Hres. assert (res = result) as -> by (by destruct res; injection Hres).
    eapply (retried_entries _ _ _ _ _ mid d1); try done; by destruct result; injection Hres as <-.
Qed.

(** The ready of a node stays with it. *)
Lemma driven_same n (d : drive W V) :
  node_inv n -> c_ready_outstanding (dr_core d) = c_ready_outstanding (nd_core n) ->
  driven d (nd_ready n) = Node (dr_runtime d) (dr_core d) (dr_world d) (nd_ready n).
Proof.
  intros [_ _ _ Hr _ _] E. unfold driven. rewrite E. f_equal.
  destruct (nd_ready n) as [r|]; [by rewrite (rf_outstanding _ _ Hr)|by destruct (c_ready_outstanding (nd_core n))].
Qed.

Lemma retry_step_inv rt c w ready result d :
  node_inv (Node rt c w ready) -> tr_raft_runtime_retry_apply rt c w = (result, d) ->
  node_inv (driven d ready) /\ delivers (Node rt c w ready) (driven d ready).
Proof.
  intros Hn Hrun. pose proof (retry_spec _ _ _ _ _ _ Hn Hrun) as Hd.
  destruct Hd as [Ec Ew Er _|mid d1 Hfault Hb [Hm Hk Happ _ _ Hok] Hc Hend Ec Ew Er].
  - rewrite (driven_same (Node rt c w ready)) by (done || by rewrite Ec). rewrite Ec, Ew.
    split; [|apply (delivers_refl (Node rt c w ready)), Hn].
    destruct Er as [->|[Hf ->]]; [done|]. destruct Hn. by split.
  - rewrite (driven_same (Node rt c w ready)) by (done || by rewrite Ec, Hc).
    rewrite Ec, Ew, Er. cbn. split; [by eapply retried_inv|].
    pose proof Hb as [Hw _ Hlog]. pose proof (ni_core _ Hn) as Hi. cbn in Hi, Happ.
    destruct (apply_more_post c _ _ (mid - rt_blocked_apply_begin rt) Hi Hw) as (Hi' & Hg & _);
      [lia|]. split_and!; cbn; rewrite ?Hc; [done|done|]. eexists.
    split; [by apply range_delivered|exact Happ].
Qed.

(** ** Runs *)

Lemma step_inv n n' : node_inv n -> node_step n n' -> node_inv n' /\ delivers n n'.
Proof.
  intros Hn Hs. destruct Hs.
  - by eapply call_step_inv.
  - apply settled_step; [done|]. eapply compact_settled; [apply Hn|done].
  - apply settled_step; [done|]. eapply pause_settled; [apply Hn|done].
  - by eapply process_step_inv.
  - by eapply retry_step_inv.
Qed.

(** What the owner does between the calls: it may change the contexts, but not
    what has been applied, and replace a runtime that is not blocked. *)
Inductive owner_step : node -> node -> Prop :=
| owner_contexts rt c w w' ready :
    applied w' = applied w -> world_ok w' -> owner_step (Node rt c w ready) (Node rt c w' ready)
| owner_runtime rt c w ready config rt' :
    unblocked rt -> callbacks_of rt' ->
    tr_raft_runtime_create config true = (SALTS_OK, Some rt') ->
    owner_step (Node rt c w ready) (Node rt' c w ready).

Definition run_step (n n' : node) : Prop := node_step n n' \/ owner_step n n'.

Lemma owner_step_inv n n' : node_inv n -> owner_step n n' -> node_inv n' /\ delivers n n'.
Proof.
  intros Hn Hs. destruct Hs as [rt c w w' ready Hw Hok|rt c w ready config rt' [Hno Hnb] K' [= Hrt]];
    destruct Hn as [K Hi Hf Hr Ha Hw0]; cbn in *.
  - split; [by constructor|by apply delivers_none].
  - split; [|by apply delivers_none]. constructor; cbn; try done.
    intros _. rewrite <- Hrt. cbn. specialize (Ha Hno). by rewrite Hnb in Ha.
Qed.

Lemma run_inv n n' : node_inv n -> rtc run_step n n' -> node_inv n' /\ delivers n n'.
Proof.
  intros Hn Hrun. induction Hrun as [n|n n1 n' Hstep Hrun IH].
  - split; [done|]. by apply delivers_refl, Hn.
  - assert (node_inv n1 /\ delivers n n1) as [Hn1 Hd1]
      by (destruct Hstep; [by apply step_inv|by apply owner_step_inv]).
    destruct (IH Hn1) as [Hn' Hd2]. split; [done|by eapply delivers_trans].
Qed.

(** A node that has just been put together. *)
Record node_start (n : node) : Prop := {
  ns_callbacks : callbacks_of (nd_runtime n);
  ns_core : exists calloc_ok cfg, config_ok cfg /\
    tr_raft_core_create calloc_ok cfg = (SALTS_OK, Some (nd_core n));
  ns_runtime : exists config,
    tr_raft_runtime_create config true = (SALTS_OK, Some (nd_runtime n));
  ns_ready : nd_ready n = None;
  ns_world : world_ok (nd_world n)
}.

Lemma start_inv n : node_start n -> node_inv n.
Proof.
  intros [K (a & cfg & Hok & Hc) (config & [= Hrt]) Hr Hw]. destruct (create_inv _ _ _ Hok Hc) as [Hi Hf].
  apply create_books in Hc as (log & commit & applied & _ & _ & [= E1 E2 E3 E4 E5 E6 E7 E8]).
  split; [done|done|done|by rewrite Hr| |done]. rewrite <- Hrt. cbn. congruence.
Qed.

(** C7. Over a run of a node from its start, with calls of the core, readies
    processed, refused batches tried again and runtimes replaced in any order, and with any
    failures of the callbacks, the state machine has got the commands among the
    entries from the first index after the one the core started with up to the
    applied index: each entry once, in the order of the log, and each one the
    committed entry of the log where the log still has it. *)
Theorem applied_exactly_once n n' :
  node_start n -> rtc run_step n n' ->
  exists es, applied (nd_world n') = applied (nd_world n) ++ commands es /\
    c_applied_index (nd_core n') = c_applied_index (nd_core n) + Z.of_nat (length es) /\
    c_applied_index (nd_core n') <= c_commit_index (nd_core n') /\
    forall k e, es !! k = Some e ->
      let i := c_applied_index (nd_core n) + 1 + Z.of_nat k in
      entry_index e = i /\
      (log_base_index (c_log (nd_core n')) < i -> log_at (c_log (nd_core n')) i = Some e).
Proof.
  intros Hs%start_inv Hrun. destruct (run_inv _ _ Hs Hrun) as [Hn' (_ & Hi & es & [N I L] & Ha)].
  exists es. pose proof (proj1 Hi) as []. split_and!; [done|done|lia|].
  intros k e Hk. split; [by apply I|by apply L].
Qed.
End Node.
