(* ===== verification/NodeExamples.v ===== *)
(** * A node at work

    A cluster of one node over callbacks that keep what they are given: it
    elects itself, commits a proposal, and the state machine refuses the command
    once before it applies it. *)

From S2P Require Import Prelude Configuration Vec Log CoreState CoreApi CoreFrame CoreInvariant.
From S2P Require Import CoreReach Cluster CoreTraces Runtime RuntimeApply RuntimeProcess Node.
From Stdlib Require Import ZArith Lia.
From stdpp Require Import base numbers list tactics relations.
Open Scope Z_scope.
Open Scope raft_scope.

(** ** The callbacks *)

(** A state machine that refuses as many batches as [me_busy] says. *)
Record memory := Memory {
  me_applied : list tr_raft_entry;
  me_sent : Z -> list tr_raft_message;
  me_commits : nat;
  me_busy : nat
}.

#[export] Instance memory_contexts : Contexts memory nat := {|
  applied := me_applied; sent := me_sent; disk := me_commits; world_ok _ := True
|}.

Definition memory_apply (w : memory) (es : list tr_raft_entry) : memory * status :=
  match me_busy w with
  | S n => (Memory (me_applied w) (me_sent w) (me_commits w) n, SALTS_EBUSY)
  | O => (Memory (me_applied w ++ es) (me_sent w) (me_commits w) 0, SALTS_OK)
  end.

Definition memory_enqueue (w : memory) (c : tr_raft_core list_vec) (m : tr_raft_message)
    : memory * tr_raft_core list_vec * status :=
  (Memory (me_applied w) (hand m (me_sent w)) (me_commits w) (me_busy w), c, SALTS_OK).

Definition memory_commit (w : memory) : memory * status :=
  (Memory (me_applied w) (me_sent w) (S (me_commits w)) (me_busy w), SALTS_OK).

Definition memory_config : tr_raft_runtime_config memory list_vec :=
  RuntimeConfig
    (StorageCalls (Some (fun w => (w, SALTS_OK))) (Some (fun w _ _ => (w, SALTS_OK)))
       (Some (fun w _ => (w, SALTS_OK))) (Some (fun w _ => (w, SALTS_OK)))
       (Some (fun w _ => (w, SALTS_OK))) (Some memory_commit) (Some (fun w => (w, SALTS_OK))))
    (TransportCalls (Some memory_enqueue) (Some (fun w c _ => (w, c, SALTS_OK))))
    (StateMachine (Some memory_apply)).

Definition memory_runtime : tr_raft_runtime memory list_vec :=
  RuntimeState (nc_storage memory_config) (nc_transport memory_config)
    (nc_state_machine memory_config) [] 0 false false.

Lemma memory_callbacks : callbacks_of memory_runtime.
Proof.
  split.
  - split; cbn.
    + intros f w es w' res [= <-]. unfold memory_apply. destruct (me_busy w); by intros [= <- <-].
    + intros f w c m w' c' res [= <-] _ [= <- <- <-]. done.
    + intros f w c q w' c' res [= <-] _ [= <- <- <-]. done.
  - split; cbn; intros; simplify_eq; done.
Qed.

(** ** The run *)

Definition node_alone : node := Node memory_runtime alone (Memory [] (fun _ => []) 0 1) None.

Lemma node_alone_start : node_start node_alone.
Proof.
  split; [apply memory_callbacks| |by exists memory_config|done|done].
  exists true, (example_config [1] 1). split; [|by vm_compute].
  apply example_config_ok; [done|]. by repeat constructor.
Qed.

Definition process_node (n : node (W := memory) (V := list_vec)) : node :=
  match nd_ready n with
  | Some r => driven (snd (tr_raft_runtime_process (nd_runtime n) (nd_core n) r (nd_world n))) (Some r)
  | None => n
  end.

Definition retry_node (n : node (W := memory) (V := list_vec)) : node :=
  driven (snd (tr_raft_runtime_retry_apply (nd_runtime n) (nd_core n) (nd_world n))) (nd_ready n).

Definition call_node (n : node (W := memory) (V := list_vec))
    (x : status * tr_raft_core list_vec * tr_raft_ready) : node :=
  Node (nd_runtime n) (core_of x) (nd_world n)
    (if c_ready_outstanding (core_of x) then Some (ready_of x) else None).

Definition node_elected : node := process_node (call_node node_alone elected_call).
Definition node_proposed : node :=
  call_node node_elected (tr_raft_core_propose_batch (nd_core node_elected) [proposal] (buffer 4)).
Definition node_refused : node := process_node node_proposed.
Definition node_applied : node := retry_node node_refused.

Lemma process_node_step n : node_step n (process_node n) \/ process_node n = n.
Proof.
  destruct n as [rt c w [r|]]; [left|by right]. unfold process_node. cbn.
  destruct (tr_raft_runtime_process rt c r w) as [res d] eqn:E. by eapply node_process.
Qed.

Lemma process_node_run n n' : rtc node_step n n' -> rtc node_step n (process_node n').
Proof.
  intros Hr. destruct (process_node_step n') as [Hs| ->]; [|done]. by eapply rtc_r.
Qed.

Lemma node_applied_run : rtc node_step node_alone node_applied.
Proof.
  assert (rtc node_step node_alone node_elected) as H1.
  { apply process_node_run, rtc_once, (node_call _ _ _ None (buffer 4) SALTS_OK),
      elected_ready_call. }
  assert (rtc node_step node_alone node_refused) as H2.
  { apply process_node_run. eapply rtc_r; [exact H1|].
    unfold node_proposed, call_node. destruct node_elected as [rt c w ready] eqn:E. cbn.
    destruct (tr_raft_core_propose_batch c [proposal] (buffer 4)) as [[res c'] r'] eqn:Ep.
    assert (c = nd_core node_elected) as Ec by by rewrite E. 
    assert (res = SALTS_OK) as ->.
    { rewrite Ec in Ep. vm_compute in Ep. by injection Ep. }
    apply (node_call rt c w ready (buffer 4) SALTS_OK). apply (call_propose_batch _ _ [proposal]); [|done].
    rewrite Ec. by vm_compute. }
  eapply rtc_r; [exact H2|]. unfold node_applied, retry_node.
  destruct node_refused as [rt c w ready]. cbn.
  destruct (tr_raft_runtime_retry_apply rt c w) as [res d] eqn:E. by eapply node_retry.
Qed.

Lemma node_applied_steps : rtc run_step node_alone node_applied.
Proof. eapply rtc_subrel; [|apply node_applied_run]. by left. Qed.

Lemma applied_exactly_once_witness :
  rt_apply_blocked (nd_runtime node_refused) = true /\
  length (applied (nd_world node_applied)) = 1%nat /\
  exists es, applied (nd_world node_applied) = commands es /\ length es = 1%nat.
Proof.
  split; [by vm_compute|]. split; [by vm_compute|].
  destruct (applied_exactly_once node_alone node_applied node_alone_start node_applied_steps)
    as (es & Ha & Hc & _). exists es. split; [exact Ha|].
  assert (c_applied_index (nd_core node_applied) = 1) as E1 by by vm_compute.
  assert (c_applied_index (nd_core node_alone) = 0) as E2 by by vm_compute. lia.
Defined.
