(* ===== verification/NodeLog.v ===== *)
(** * The runtime over the write-ahead log

    [tr_raft_wal_storage_bind] and the transactions the runtime makes of
    readies. [mirrors c r]: the state [r] of the log is the hard state, the log
    and the commit index of the core [c]. *)

From S2P Require Import Prelude Configuration Vec Log CoreState CoreApi CoreFrame CoreInvariant.
From S2P Require Import CoreSafety CoreCalls CoreReach CoreReport CoreRefused.
From S2P Require Import Bytes Wire Digest Os SnapshotSender Wal WalCodec.
From S2P Require Import WalRead WalRecovery WalReplay WalWrite WalCommit WalLog WalTransaction.
From S2P Require Import Runtime RuntimeApply RuntimeProcess.
From Stdlib Require Import ZArith Lia.
From stdpp Require Import base numbers list tactics strings.
Open Scope Z_scope.
Open Scope raft_scope.

(** The contexts of the transport and the state machine. *)
Class Peers (X : Type) := {
  rest_applied : X -> list tr_raft_entry;
  rest_sent : X -> Z -> list tr_raft_message;
  rest_ok : X -> Prop
}.

Section Bind.
Context `{OsLaws} `{Xxh3Laws} {X V : Type} `{Peers X} `{VecLaws V}.
Implicit Types (c : tr_raft_core V) (ready : tr_raft_ready).
Implicit Types s : tr_raft_wal_storage.
Implicit Types r : tr_raft_wal_recovery.

(** The system with the storage that is open on it, and the other contexts. *)
Record log_world := LogWorld {
  lw_os : os;
  lw_storage : tr_raft_wal_storage;
  lw_rest : X
}.

#[export] Instance log_contexts : Contexts log_world (os * tr_raft_wal_storage) := {|
  applied w := rest_applied (lw_rest w);
  sent w := rest_sent (lw_rest w);
  disk w := (lw_os w, lw_storage w);
  world_ok w := rest_ok (lw_rest w)
|}.

Definition on_storage (f : tr_raft_wal_storage -> status * tr_raft_wal_storage) (w : log_world)
    : log_world * status :=
  let '(result, s) := f (lw_storage w) in (LogWorld (lw_os w) s (lw_rest w), result).

Definition tr_raft_wal_storage_bind : tr_raft_storage log_world :=
  StorageCalls (Some (on_storage tr_wal_begin))
    (Some (fun w term voted_for => on_storage (fun s => tr_wal_write_hard_state s term voted_for) w))
    (Some (fun w from_index => on_storage (fun s => tr_wal_truncate_log s from_index) w))
    (Some (fun w entries => on_storage (fun s => tr_wal_append_log s entries) w))
    (Some (fun w commit_index => on_storage (fun s => tr_wal_write_commit_index s commit_index) w))
    (Some (fun w => let '(e, result, s) := tr_wal_commit (lw_storage w) (lw_os w) in
                    (LogWorld e s (lw_rest w), result)))
    (Some (on_storage tr_wal_rollback)).

Lemma on_storage_aside f w : aside w (fst (on_storage f w)).
Proof. unfold on_storage. by destruct (f (lw_storage w)). Qed.

Lemma bind_aside : storage_aside tr_raft_wal_storage_bind.
Proof.
  split; cbn; intros; simplify_eq; try apply on_storage_aside.
  by destruct (tr_wal_commit (lw_storage w) (lw_os w)) as [[] ].
Qed.

(** ** The transaction of a ready *)

Definition calls_of ready : list wal_call :=
  (if r_hard_state_changed ready then [WriteHardState (r_term ready) (r_voted_for ready)] else []) ++
  (if r_log_changed ready && negb (r_log_truncate_from ready =? 0)
   then [TruncateLog (r_log_truncate_from ready)] else []) ++
  (if r_log_changed ready && negb (r_log_entry_count ready =? 0)
   then [AppendLog (r_log_entries ready)] else []) ++
  (if r_commit_changed ready then [WriteCommitIndex (r_commit_index ready)] else []).

Lemma perform_all_app s cs ds :
  perform_all s (cs ++ ds) =
  match perform_all s cs with
  | (SALTS_OK, s) => perform_all s ds
  | failure => failure
  end.
Proof.
  revert s. induction cs as [|c cs IH]; intros s; cbn [app perform_all]; [by destruct (perform_all s ds) as [[] ]|].
  destruct (perform s c) as [[|] s1]; [apply IH|done].
Qed.

(** The world with another storage. *)
Definition with_storage (w : log_world) s : log_world := LogWorld (lw_os w) s (lw_rest w).

Abbreviation drive := (drive log_world V).

(** The rest of a transaction: these calls, and the commit. *)
Definition rest_of s (cs : list wal_call) (e : os) : os * status * tr_raft_wal_storage :=
  match perform_all s cs with
  | (SALTS_OK, s) =>
      match tr_wal_commit s e with
      | (e, SALTS_OK, s) => (e, SALTS_OK, s)
      | (e, result, s) => (e, result, snd (tr_wal_rollback s))
      end
  | (result, s) => (e, result, snd (tr_wal_rollback s))
  end.

Definition finishes (d : drive) (cs : list wal_call) result (d' : drive) : Prop :=
  rest_of (lw_storage (dr_world d)) cs (lw_os (dr_world d)) =
    (lw_os (dr_world d'), result, lw_storage (dr_world d')).

Lemma step_finishes (needed : bool) stage callback call cs (d : drive)
    (next : drive -> status * drive) result (d' : drive) :
  callback = Some (on_storage (fun s => perform s call)) ->
  rt_storage (dr_runtime d) = tr_raft_wal_storage_bind ->
  (forall d1, dr_runtime d1 = dr_runtime d -> next d1 = (result, d') -> finishes d1 cs result d') ->
  transaction_step needed stage callback d next = (result, d') ->
  finishes d ((if needed then [call] else []) ++ cs) result d'.
Proof.
  intros -> Hb Hnext. unfold transaction_step, finishes, rest_of. destruct needed; [|by apply Hnext].
  unfold call_storage, on_storage. cbn.
  destruct (perform (lw_storage (dr_world d)) call) as [[|error] s].
  - intros Hn. by apply Hnext in Hn.
  - unfold tr_runtime_rollback. cbn. rewrite Hb. cbn. unfold on_storage. by intros [= <- <-].
Qed.

Lemma commit_finishes stage (d : drive) (next : drive -> status * drive) result (d' : drive) :
  rt_storage (dr_runtime d) = tr_raft_wal_storage_bind ->
  (forall d1, fst (next d1) = SALTS_OK /\ dr_world (snd (next d1)) = dr_world d1) ->
  transaction_step true stage (st_commit (rt_storage (dr_runtime d))) d next = (result, d') ->
  finishes d [] result d'.
Proof.
  intros Hb Hnext. unfold transaction_step, finishes, rest_of. rewrite Hb. cbn.
  unfold call_storage. cbn. destruct (tr_wal_commit _ _) as [[e [|error]] s].
  - intros Hn. match type of Hn with next ?x = _ => destruct (Hnext x) as [E1 E2] end.
    rewrite Hn in E1, E2. cbn in E1, E2. by rewrite E1, E2.
  - unfold tr_runtime_rollback. cbn. rewrite Hb. cbn. unfold on_storage. by intros [= <- <-].
Qed.

(** Persisting a ready is a transaction with its calls. *)
Lemma persist_transact (d : drive) ready result (d' : drive) :
  rt_storage (dr_runtime d) = tr_raft_wal_storage_bind ->
  tr_runtime_persist d ready = (result, d') ->
  transact (lw_storage (dr_world d)) (calls_of ready) (lw_os (dr_world d)) =
    (lw_os (dr_world d'), result, lw_storage (dr_world d')).
Proof.
  intros Hb. unfold tr_runtime_persist, transact, calls_of. rewrite Hb.
  destruct (call_storage d _ _) as [res d0] eqn:E0. unfold call_storage in E0. cbn in E0.
  unfold on_storage in E0. cbn in E0.
  destruct (tr_wal_begin (lw_storage (dr_world d))) as [res0 s0]. injection E0 as <- <-.
  destruct res0 as [|error]; [|by intros [= <- <-]]. set (d0 := with_world _ _).
  intros Hrun. enough (finishes d0 (calls_of ready) result d') as Hf by exact Hf.
  assert (dr_runtime d0 = dr_runtime d) as R0 by done. clearbody d0. unfold calls_of.
  revert Hrun. apply step_finishes; [done|by rewrite R0|]. intros d1 R1.
  apply step_finishes; [done|by rewrite R1, R0|]. intros d2 R2.
  apply step_finishes; [done|by rewrite R2, R1, R0|]. intros d3 R3.
  rewrite <- (app_nil_r (if r_commit_changed ready then _ else _)).
  apply step_finishes; [done|by rewrite R3, R2, R1, R0|]. intros d4 R4.
  assert (rt_storage (dr_runtime d4) = tr_raft_wal_storage_bind) as Hb4 by by rewrite R4, R3, R2, R1, R0.
  intros Hrun. eapply commit_finishes; [done| |by rewrite Hb4]. done.
Qed.

(** ** The state of the log and the core *)

Record mirrors c r : Prop := {
  mi_term : rc_term r = c_term c;
  mi_vote : rc_voted_for r = c_voted_for c;
  mi_commit : rc_commit_index r = c_commit_index c;
  mi_entries : exists old, rc_entries r = old ++ (stored_entry <$> elems (c_log c)) /\
    rc_snapshot_index r + Z.of_nat (length old) = log_base_index (c_log c)
}.

Lemma mirrors_books c c' r : books c' = books c -> mirrors c r -> mirrors c' r.
Proof. intros [= E1 E2 E3 E4 _ _ _ _] [T Vo C E]. split; rewrite ?E1, ?E2, ?E3, ?E4; done. Qed.

(** The state after the calls of a ready. *)
Lemma effects_calls r ready :
  let r' := effects r (calls_of ready) in
  rc_snapshot_index r' = rc_snapshot_index r /\
  (rc_term r', rc_voted_for r') =
    (if r_hard_state_changed ready then (r_term ready, r_voted_for ready)
     else (rc_term r, rc_voted_for r)) /\
  rc_commit_index r' = (if r_commit_changed ready then r_commit_index ready else rc_commit_index r) /\
  rc_entries r' =
    if r_log_changed ready then
      (if r_log_truncate_from ready =? 0 then rc_entries r
       else take (Z.to_nat (r_log_truncate_from ready - rc_snapshot_index r - 1)) (rc_entries r)) ++
      (if r_log_entry_count ready =? 0 then [] else stored_entry <$> r_log_entries ready)
    else rc_entries r.
Proof.
  cbv zeta. unfold calls_of, effects.
  destruct (r_hard_state_changed ready), (r_log_changed ready), (r_log_truncate_from ready =? 0),
    (r_log_entry_count ready =? 0), (r_commit_changed ready); cbn; rewrite ?app_nil_r; done.
Qed.

Lemma mirrors_effects c c' ready r :
  core_inv c -> reported c c' ready -> hard_state_reported c c' ready -> mirrors c r ->
  mirrors c' (effects r (calls_of ready)).
Proof.
  intros Hi [[B _] L C N K _] (Ht & Hv & Hh) [Mt Mv Mc (old & Me & Ml)].
  pose proof (effects_calls r ready) as He. cbv zeta in He. destruct He as (Es & Eh & Ec & Ee).
  assert ((rc_term (effects r (calls_of ready)), rc_voted_for (effects r (calls_of ready))) =
    (c_term c', c_voted_for c')) as E.
  { rewrite Eh. destruct (r_hard_state_changed ready); [congruence|].
    rewrite Mt, Mv. destruct (decide ((c_term c', c_voted_for c') = (c_term c, c_voted_for c))) as [|Hne];
      [done|]. by apply Hh in Hne. }
  split; [exact (f_equal fst E)|exact (f_equal snd E)|by rewrite Ec, K, Mc|].
  rewrite Es, Ee, L, B. unfold kept_log. destruct (r_log_changed ready); [|by exists old].
  exists old. split; [|done]. rewrite fmap_app, app_assoc. f_equal.
  - rewrite Me. destruct (Z.eqb_spec (r_log_truncate_from ready) 0) as [|Hne]; [done|].
    destruct C as [|C]; [done|]. rewrite take_app_ge by lia. rewrite fmap_take. do 2 f_equal. lia.
  - destruct (Z.eqb_spec (r_log_entry_count ready) 0) as [E0|]; [|done].
    rewrite N in E0. by destruct (r_log_entries ready).
Qed.

Lemma mirrors_compact c point result c' r :
  core_inv c -> tr_raft_core_compact c point = (result, c') -> mirrors c r -> mirrors c' r.
Proof.
  intros Hi Hc Hm. revert Hc. unfold tr_raft_core_compact.
  destruct (tr_raft_core_snapshot_point c) as [[] [p|]]; try (by intros [= <- <-]).
  case_match eqn:Hp; [by intros [= <- <-]|]. clear Hp.
  destruct (compact_spec (c_log c) (sp_index point) (sp_term point)) as (log' & -> & Hlog'); [apply Hi|].
  assert (c <| c_log := c_log c |> = c) as Hsame by by destruct c.
  destruct (_ || _) eqn:Hg; [intros [= <- <-]; by rewrite Hsame|].
  case_bool_decide as Hterm; intros [= <- <-]; [|by rewrite Hsame].
  destruct Hlog' as (_ & Hbase & _ & _ & Hel); [lia|lia|].
  destruct Hm as [Mt Mv Mc (old & Me & Ml)]. split; record_simpl; try done.
  exists (old ++ (stored_entry <$> take (Z.to_nat (sp_index point - log_base_index (c_log c))) (elems (c_log c)))).
  rewrite <- app_assoc, <- fmap_app, Hel, take_drop. split; [done|].
  unfold log_last in *. rewrite length_app, length_fmap, length_take. lia.
Qed.
End Bind.
