(* ===== verification/NodeDurable.v ===== *)
(** * What a node has told others survives a loss of power

    A node whose runtime persists into the write-ahead log. Messages are sent
    only after the state they tell of is durable: after a loss of power at any
    point of a run, what the log recovers is the state of the core at a moment
    that is not before the last one it told others about. *)

From S2P Require Import Prelude Configuration Vec Log CoreState CoreApi CoreFrame CoreInvariant.
From S2P Require Import CoreSafety CoreCalls CoreReach CoreReport CoreRefused.
From S2P Require Import Bytes Wire Digest Os SnapshotSender Wal WalCodec.
From S2P Require Import WalRead WalRecovery WalReplay WalWrite WalCommit WalLog WalTransaction WalOpen.
From S2P Require Import WalTheorems Runtime RuntimeApply RuntimeProcess Node NodeLog.
From Stdlib Require Import ZArith Lia.
From stdpp Require Import base numbers list tactics strings relations.
Open Scope Z_scope.
Open Scope raft_scope.

Section Calls.
Context {W D V : Type} `{Contexts W D} `{VecLaws V}.
Implicit Types (c : tr_raft_core V) (r : tr_raft_ready).

(** ** The calls the runtime makes *)

Lemma apply_more_calls c es (from n : nat) :
  window c es from -> (from + n <= length es)%nat -> rtc core_call c (apply_more c n).
Proof.
  intros Hw Hn. induction n as [|n IH]; [by rewrite apply_more_0|].
  assert (window (apply_more c n) es (from + n)) as Hw' by (apply window_more; [done|lia]).
  assert (is_Some (es !! (from + n)%nat)) as [e He] by (apply lookup_lt_is_Some; lia).
  destruct (ack_applied_next _ _ _ _ Hw' He) as [Hack _]. eapply rtc_r; [apply IH; lia|].
  rewrite apply_more_add in Hack. replace (n + 1)%nat with (S n) in Hack by lia.
  by eapply call_ack_applied.
Qed.

Lemma processed_calls c r (d' : drive W V) mid result :
  core_inv c -> ready_for c r -> c_applied_index c = c_apply_admitted_index c ->
  processed c r d' mid result -> rtc core_call c (dr_core d').
Proof.
  intros Hi Hr Ha Hp. destruct Hp as [error Ec _ _|mid error Hm Hw Ec _|Ec _ _]; rewrite Ec.
  - done.
  - destruct (ack_ready_spec _ _ Hw) as [Hack Hwin].
    eapply rtc_l; [eapply (call_ack_ready _ _ SALTS_OK); [|exact Hack]; lia|].
    apply (apply_more_calls _ _ 0 mid Hwin). lia.
  - eapply rtc_once, call_advance. by apply advance_ready.
Qed.

(** What the storage keeps of a core. *)
Definition record c := (c_term c, c_voted_for c, c_log c, c_commit_index c).

Lemma books_record c c' : books c' = books c -> record c' = record c.
Proof. by intros [= E1 E2 E3 E4 _ _ _ _]; unfold record; rewrite E1, E2, E3, E4. Qed.

Lemma processed_record c r (d' : drive W V) mid result :
  processed c r d' mid result -> record (dr_core d') = record c.
Proof. by intros [error Ec _ _|mid' error Hm Hw Ec _|Ec _ _]; rewrite Ec. Qed.

Lemma pause_books c id paused result c' :
  tr_raft_core_set_peer_paused c id paused = (result, c') -> books c' = books c.
Proof.
  unfold tr_raft_core_set_peer_paused. cbv zeta. repeat case_match; by intros [= <- <-].
Qed.

Lemma pauses_calls c c' : pauses c c' -> rtc core_call c c' /\ record c' = record c.
Proof.
  intros Hp. induction Hp as [c|c c1 c' (id & b & res & Hc) _ [IH1 IH2]]; [done|]. split.
  - eapply rtc_l; [by eapply call_set_peer_paused|done].
  - rewrite IH2. by eapply books_record, pause_books.
Qed.

Lemma compact_outstanding c point result c' :
  c_ready_outstanding c = true -> tr_raft_core_compact c point = (result, c') -> c' = c.
Proof.
  intros Ho. unfold tr_raft_core_compact, tr_raft_core_snapshot_point. rewrite Ho, orb_true_r.
  by intros [= <- <-].
Qed.
End Calls.

Section Durable.
Context `{OsReadable} `{!Sha256Total} `{Xxh3Total} {X V : Type} `{Peers X} `{VecLaws V}.
Context (config : tr_raft_wal_storage_config).
Abbreviation world := (log_world (X := X)).
Implicit Types (c : tr_raft_core V) (ready : option tr_raft_ready) (w : world).
Implicit Types s : tr_raft_wal_storage.
Implicit Types rec : tr_raft_wal_recovery.

Abbreviation node := (node (W := world) (V := V)).
Implicit Types n : node.

Lemma mirrors_record c c' rec : record c' = record c -> mirrors c rec -> mirrors c' rec.
Proof. intros [= E1 E2 E3 E4] [T Vo C E]. split; rewrite ?E1, ?E2, ?E3, ?E4; done. Qed.

(** The fields of the outstanding ready are in the ranges of their types. *)
Definition ready_in_range n : Prop :=
  forall r, nd_ready n = Some r -> Forall call_in_range (calls_of r).

(** Runs over a log, with the core at the time of the last messages. *)
Inductive log_run : node -> tr_raft_core V -> Prop :=
| log_run_start n rec :
    node_start n -> rt_storage (nd_runtime n) = tr_raft_wal_storage_bind ->
    limits (lw_storage (nd_world n)) = config_limits config ->
    holds true (lw_storage (nd_world n)) (lw_os (nd_world n)) rec ->
    mirrors (nd_core n) rec -> log_run n (nd_core n)
| log_run_silent n told n' :
    log_run n told -> ready_in_range n -> node_step n n' ->
    sent (nd_world n') = sent (nd_world n) -> log_run n' told
| log_run_told n told n' :
    log_run n told -> ready_in_range n -> node_step n n' ->
    sent (nd_world n') <> sent (nd_world n) -> log_run n' (nd_core n)
| log_run_owner rt c w w' ready told :
    log_run (Node rt c w ready) told -> applied w' = applied w -> disk w' = disk w -> world_ok w' ->
    log_run (Node rt c w' ready) told.

(** ** The invariant *)

(** [rec] is the state of the core at a moment between [told] and [c]. *)
Definition recoverable (told c : tr_raft_core V) rec : Prop :=
  exists c0, rtc core_call told c0 /\ rtc core_call c0 c /\ mirrors c0 rec.

Definition disk_ok (told : tr_raft_core V) n : Prop :=
  if rt_faulted (nd_runtime n) then
    crash_safe (config_limits config) (lw_os (nd_world n)) (recoverable told (nd_core n))
  else
    limits (lw_storage (nd_world n)) = config_limits config /\
    exists rec, holds true (lw_storage (nd_world n)) (lw_os (nd_world n)) rec /\
      recoverable told (nd_core n) rec /\
      match nd_ready n with
      | Some r => mirrors (nd_core n) (effects rec (calls_of r))
      | None => mirrors (nd_core n) rec
      end.

Record log_inv (told : tr_raft_core V) n : Prop := {
  li_node : node_inv n;
  li_bound : rt_storage (nd_runtime n) = tr_raft_wal_storage_bind;
  li_told : rtc core_call told (nd_core n);
  li_disk : disk_ok told n
}.

Lemma recoverable_later told c c' rec :
  rtc core_call c c' -> recoverable told c rec -> recoverable told c' rec.
Proof. intros Hc (c0 & H1' & H2' & Hm). exists c0. split_and!; [done|by etrans|done]. Qed.

Lemma recoverable_earlier told told' c rec :
  rtc core_call told told' -> recoverable told' c rec -> recoverable told c rec.
Proof. intros Hc (c0 & H1' & H2' & Hm). exists c0. split_and!; [by etrans|done|done]. Qed.

Lemma recoverable_now told c rec : rtc core_call told c -> mirrors c rec -> recoverable told c rec.
Proof. intros Ht Hm. by exists c. Qed.

Lemma log_inv_earlier told told' n :
  rtc core_call told told' -> log_inv told' n -> log_inv told n.
Proof.
  intros Ht [Hn Hb Hc Hd]. split; [done|done|by etrans|]. unfold disk_ok in *.
  destruct (rt_faulted (nd_runtime n)).
  - eapply crash_safe_impl; [exact Hd|]. intros x. by apply recoverable_earlier.
  - destruct Hd as (Hl & rec & Hh & Hr & Hm). split; [done|]. exists rec.
    split_and!; [done|by eapply recoverable_earlier|done].
Qed.

(** ** Calls of the core *)

(** A call that leaves the runtime and the contexts alone. *)
Lemma core_step_inv told rt c c' w ready ready' :
  log_inv told (Node rt c w ready) -> core_call c c' -> node_inv (Node rt c' w ready') ->
  (forall rec, rt_faulted rt = false ->
   match ready with
   | Some r => mirrors c (effects rec (calls_of r))
   | None => mirrors c rec
   end ->
   match ready' with
   | Some r => mirrors c' (effects rec (calls_of r))
   | None => mirrors c' rec
   end) -> log_inv told (Node rt c' w ready').
Proof.
  intros [Hn Hb Ht Hd] Hc Hn' Hm. cbn in *. assert (rtc core_call c c') as Hcc by by apply rtc_once.
  split; [done|done|by etrans|]. unfold disk_ok in *. cbn in *. destruct (rt_faulted rt).
  - eapply crash_safe_impl; [exact Hd|]. intros x. by apply recoverable_later.
  - destruct Hd as (Hl & rec & Hh & Hr & Hmir). split; [done|]. exists rec.
    split_and!; [done|by eapply recoverable_later|by apply Hm].
Qed.

Lemma call_log_inv told rt c w ready r result c' r' :
  log_inv told (Node rt c w ready) -> ready_call c r result c' r' ->
  log_inv told (Node rt c' w
    (if ok result then if c_ready_outstanding c' then Some r' else None else ready)).
Proof.
  intros Hl Hcall. pose proof (li_node _ _ Hl) as Hn. pose proof Hn as [_ Hi _ Hr _]. cbn in Hi, Hr.
  destruct (call_step_inv _ _ _ _ _ _ _ _ Hn Hcall) as [Hn' _].
  eapply core_step_inv; [exact Hl|by eapply call_ready|exact Hn'|]. intros rec _ Hm.
  destruct result as [|error]; cbn [ok]; cycle 1.
  { pose proof (ready_call_keeps _ _ _ _ _ Hi Hcall ltac:(done)) as Hb%books_record.
    destruct ready; by eapply mirrors_record. }
  pose proof (ready_call_post _ _ _ _ _ Hi Hcall) as Hp.
  pose proof (cp_protocol _ _ _ _ _ Hp eq_refl) as Hidle.
  assert (ready = None) as ->.
  { destruct ready as [r0|]; [|done]. pose proof (rf_outstanding _ _ Hr). congruence. }
  assert (mirrors c' (effects rec (calls_of r'))) as Hmir.
  { apply (mirrors_effects c); [done| | |done].
    - by eapply ready_call_accounted.
    - by apply (cp_reported _ _ _ _ _ Hp). }
  destruct (c_ready_outstanding c') eqn:Ho; [done|].
  pose proof (cp_effects _ _ _ _ _ Hp eq_refl) as E. rewrite Ho in E. symmetry in E.
  unfold ready_effects in E. rewrite !orb_false_iff in E. destruct E as [[[[[[[_ E1] _] E2] E3] _] _] _].
  unfold calls_of in Hmir. by rewrite E1, E2, E3 in Hmir.
Qed.

Lemma compact_log_inv told rt c w ready point result c' :
  log_inv told (Node rt c w ready) -> tr_raft_core_compact c point = (result, c') ->
  log_inv told (Node rt c' w ready).
Proof.
  intros Hl Hc. pose proof (li_node _ _ Hl) as Hn. pose proof Hn as [_ Hi _ Hr _]. cbn in Hi, Hr.
  destruct (settled_step rt c c' w ready Hn) as [Hn' _]; [by eapply compact_settled|].
  eapply core_step_inv; [exact Hl|by eapply call_compact|exact Hn'|]. intros rec _ Hm.
  destruct ready as [r0|].
  - pose proof (rf_outstanding _ _ Hr) as Ho. by apply compact_outstanding in Hc as ->.
  - by eapply mirrors_compact.
Qed.

Lemma pause_log_inv told rt c w ready id paused result c' :
  log_inv told (Node rt c w ready) -> tr_raft_core_set_peer_paused c id paused = (result, c') ->
  log_inv told (Node rt c' w ready).
Proof.
  intros Hl Hc. pose proof (li_node _ _ Hl) as Hn.
  destruct (settled_step rt c c' w ready Hn) as [Hn' _]; [eapply pause_settled; [apply Hn|done]|].
  eapply core_step_inv; [exact Hl|by eapply call_set_peer_paused|exact Hn'|]. intros rec _ Hm.
  apply pause_books, books_record in Hc. destruct ready; by eapply mirrors_record.
Qed.

(** ** Calls of the runtime *)

Lemma transact_stores s (e e' : os) rec cs res s' :
  holds true s e rec -> Forall call_in_range cs -> transact s cs e = (e', res, s') ->
  if ok res then limits s' = limits s /\ holds true s' e' (effects rec cs)
  else crash_safe (limits s) e' (fun x => x = rec \/ x = effects rec cs).
Proof.
  intros Hh Hr Ht. pose proof (transact_spec _ _ _ _ _ _ _ _ Hh Hr (or_introl eq_refl) Ht) as Hres.
  destruct res as [|error]; [done|]. cbn [ok].
  destruct Hres as [(-> & El & Hh')|[_ Hcr]]; [|done].
  rewrite <- El. eapply crash_safe_impl; [by eapply holds_crash_safe|]. intros x <-. by left.
Qed.

(** What storing a ready leaves in the log. *)
Lemma store_ready_log (d : drive world V) r rec res (d1 : drive world V) :
  rt_storage (dr_runtime d) = tr_raft_wal_storage_bind ->
  holds true (lw_storage (dr_world d)) (lw_os (dr_world d)) rec ->
  Forall call_in_range (calls_of r) -> store_ready d r = (res, d1) ->
  if ok res then limits (lw_storage (dr_world d1)) = limits (lw_storage (dr_world d)) /\
    holds true (lw_storage (dr_world d1)) (lw_os (dr_world d1)) (effects rec (calls_of r))
  else crash_safe (limits (lw_storage (dr_world d))) (lw_os (dr_world d1))
    (fun x => x = rec \/ x = effects rec (calls_of r)).
Proof.
  intros Hb Hh Hr. unfold store_ready. destruct (tr_ready_needs_storage r) eqn:Hneed.
  - rewrite Hb. cbn [negb tr_storage_complete]. intros Hp%persist_transact; [|done].
    by eapply transact_stores.
  - intros [= <- <-]. cbn [ok]. split; [done|].
    unfold tr_ready_needs_storage in Hneed. rewrite !orb_false_iff in Hneed.
    destruct Hneed as [[E1 E2] E3]. unfold calls_of. by rewrite E1, E2, E3.
Qed.

(** The ready is stored: whatever follows, the log has the state of the core. *)
Lemma stored_log_inv (rt : tr_raft_runtime world V) c c1 w r (d d1 : drive world V) rec mid result :
  node_inv (Node rt c1 w (Some r)) -> node_inv (driven d (Some r)) -> unblocked rt ->
  pauses c c1 -> processed c1 r d mid result ->
  rt_storage (dr_runtime d) = tr_raft_wal_storage_bind ->
  disk (dr_world d) = disk (dr_world d1) ->
  limits (lw_storage (dr_world d1)) = config_limits config ->
  holds true (lw_storage (dr_world d1)) (lw_os (dr_world d1)) rec -> mirrors c rec ->
  log_inv c (driven d (Some r)).
Proof.
  intros [_ Hi _ Hr Ha] Hn' [Hf Hb] [Hcalls Hsame]%pauses_calls Hp Hbound [= E1 E2] Hl Hh Hm.
  cbn in Hi, Hr, Ha. specialize (Ha Hf). rewrite Hb in Ha.
  pose proof (processed_calls _ _ _ _ _ Hi Hr Ha Hp) as Hc.
  assert (rtc core_call c (dr_core d)) as Hcd by by etrans.
  assert (record (dr_core d) = record c) as Hrec by by rewrite (processed_record _ _ _ _ _ Hp).
  split; [done|done|done|].
  assert (recoverable c (dr_core d) rec) as Hrecov by by exists c.
  unfold disk_ok, driven. cbn. rewrite E1, E2, <- Hl. destruct (rt_faulted (dr_runtime d)) eqn:Hfault.
  - eapply crash_safe_impl; [by eapply holds_crash_safe|]. by intros x <-.
  - split; [done|]. exists rec. split_and!; [done|done|].
    assert (c_ready_outstanding (dr_core d) = false) as ->; [|by eapply mirrors_record].
    destruct Hp as [error Ec Hf'|mid error _ _ Ec _|Ec _ _]; [congruence|by rewrite Ec|by rewrite Ec].
Qed.

Lemma process_log_inv told (rt : tr_raft_runtime world V) c w r result d :
  log_inv told (Node rt c w (Some r)) -> Forall call_in_range (calls_of r) ->
  tr_raft_runtime_process rt c r w = (result, d) ->
  log_inv told (driven d (Some r)) /\
  (sent (dr_world d) <> sent w -> log_inv c (driven d (Some r))).
Proof.
  intros Hl Hrange Hrun. pose proof Hl as [Hn Hbound Ht Hd].
  destruct (process_step_inv _ _ _ _ _ _ Hn Hrun) as [Hn' _].
  pose proof Hn as [[K1 K2] Hi Hf Hr Ha Hw]. cbn in K1, K2, Hi, Hf, Hr, Ha, Hw, Hbound, Ht.
  revert Hrun. unfold tr_raft_runtime_process. destruct (rt_faulted rt) eqn:Hfault.
  { intros [= <- <-]. split; [|done]. split; [done|done|done|]. unfold disk_ok, driven in *.
    cbn in *. by rewrite Hfault in Hd. }
  destruct (rt_apply_blocked rt) eqn:Hb.
  { intros [= <- <-]. split; [|done]. revert Hl. unfold driven. cbn. by rewrite (rf_outstanding _ _ Hr). }
  specialize (Ha eq_refl). intros Hrun.
  apply process_ready_spec in Hrun as (c1 & mid & Hpause & Hp & [Hk _ Hdisk (n & Hsent & Hzero & _) _ Hfail]);
    [|done..]. cbn in Hpause, Hp, Hk, Hsent.
  destruct (settled_step rt c c1 w (Some r) Hn) as [Hn1 _]; [by apply pauses_settled|].
  match type of Hdisk with context [store_ready ?x r] => set (d0 := x) in * end.
  destruct (store_ready d0 r) as [res d1] eqn:Hst. cbn [fst snd] in *.
  unfold disk_ok in Hd. cbn in Hd. rewrite Hfault in Hd. destruct Hd as (Hlim & rec & Hh & Hrec & Hm).
  pose proof (store_ready_log d0 r rec res d1 Hbound Hh Hrange Hst) as Hlog.
  assert (rt_storage (dr_runtime d) = tr_raft_wal_storage_bind) as Hbound'.
  { destruct Hk as (-> & _). done. }
  destruct res as [|error]; cbn [ok] in *.
  - destruct Hlog as [Hlim1 Hh1]. assert (log_inv c (driven d (Some r))) as Hinv.
    { eapply (stored_log_inv rt c c1); try done. rewrite Hlim1. done. }
    split; [|done]. by eapply log_inv_earlier.
  - rewrite Hzero in Hsent by done. split; [|by intros []].
    assert (rtc core_call c (dr_core d)) as Hc.
    { etrans; [by apply pauses_calls|]. pose proof Hn1 as [_ Hi1 _ Hr1 Ha1 _]. cbn in Hi1, Hr1, Ha1.
      specialize (Ha1 Hfault). rewrite Hb in Ha1. by eapply processed_calls. }
    split; [done|done|by etrans|]. unfold disk_ok, driven. cbn. rewrite Hfail by done.
    injection Hdisk as -> _. cbn in Hlim, Hlog. rewrite <- Hlim. eapply crash_safe_impl; [exact Hlog|].
    intros x [->| ->]; eapply recoverable_later; try exact Hc; [done|by apply recoverable_now].
Qed.

(** A call that changes neither the log nor what has been sent. *)
Lemma retry_log_inv told (rt : tr_raft_runtime world V) c w ready result d :
  log_inv told (Node rt c w ready) -> tr_raft_runtime_retry_apply rt c w = (result, d) ->
  log_inv told (driven d ready) /\ sent (dr_world d) = sent w.
Proof.
  intros Hl Hrun. pose proof Hl as [Hn Hbound Ht Hd].
  destruct (retry_step_inv _ _ _ _ _ _ Hn Hrun) as [Hn' _].
  destruct (retry_spec _ _ _ _ _ _ Hn Hrun) as
    [Ec Ew Er _|mid d1 Hf Hb [Hm (Hk & _) _ Hs Hdisk _] Hc _ Ec Ew Er].
  - split; [|by rewrite Ew]. revert Hn'. rewrite (driven_same (Node rt c w ready)) by (done || by rewrite Ec).
    rewrite Ec, Ew. cbn. intros Hn'. destruct Er as [->|[Hf Er]]; [done|].
    split; [done|by rewrite Er|done|]. unfold disk_ok in *. cbn in *. rewrite Er. by rewrite Hf in Hd.
  - split; [|by rewrite Ew]. revert Hn'.
    rewrite (driven_same (Node rt c w ready)) by (done || by rewrite Ec, Hc).
    rewrite Ec, Ew, Er. cbn. intros Hn'. injection Hdisk as E1 E2. cbn in E1, E2, Hk, Ht.
    assert (rtc core_call c (dr_core d1)) as Hcalls.
    { rewrite Hc. eapply apply_more_calls; [apply Hb|]. lia. }
    split; [done|by cbn; rewrite Hk|by etrans|]. unfold disk_ok in *. cbn in *. rewrite Hf in Hd.
    destruct Hd as (Hlim & rec & Hh & Hrec & Hmir). rewrite E1, E2.
    destruct (rt_faulted (dr_runtime d1)).
    + rewrite <- Hlim. eapply crash_safe_impl; [by eapply holds_crash_safe|].
      intros x <-. by eapply recoverable_later.
    + split; [done|]. exists rec. split_and!; [done|by eapply recoverable_later|].
      destruct ready; eapply mirrors_record; try exact Hmir; by rewrite Hc.
Qed.

(** ** Runs *)

Lemma step_log_inv told n n' :
  log_inv told n -> ready_in_range n -> node_step n n' ->
  log_inv told n' /\ (sent (nd_world n') <> sent (nd_world n) -> log_inv (nd_core n) n').
Proof.
  intros Hl Hr Hs. destruct Hs; cbn [nd_world nd_core] in *.
  - split; [by eapply call_log_inv|done].
  - split; [by eapply compact_log_inv|done].
  - split; [by eapply pause_log_inv|done].
  - eapply process_log_inv; [done| |done]. by apply Hr.
  - match goal with Hrun : tr_raft_runtime_retry_apply _ _ _ = _ |- _ =>
      destruct (retry_log_inv _ _ _ _ _ _ _ Hl Hrun) as [Hl' Hsent] end. by split.
Qed.

Lemma log_run_inv n told : log_run n told -> log_inv told n.
Proof.
  induction 1 as [n rec Hs Hb Hlim Hh Hm|n told n' _ IH Hr Hs _|n told n' _ IH Hr Hs Hne
    |rt c w w' ready told _ [Hn Hb Ht Hd] Ha [= E1 E2] Hok].
  - split; [by apply start_inv|done|done|]. unfold disk_ok.
    pose proof (ns_runtime _ Hs) as (cfg & [= Hrt]).
    assert (rt_faulted (nd_runtime n) = false) as -> by by rewrite <- Hrt.
    rewrite (ns_ready _ Hs). split; [done|]. exists rec. split_and!; [done|by apply recoverable_now|done].
  - by eapply step_log_inv.
  - by eapply step_log_inv.
  - destruct (owner_step_inv _ (Node rt c w' ready) Hn (owner_contexts rt c w w' ready Ha Hok)) as [Hn' _].
    split; [done|done|done|]. unfold disk_ok in *. cbn in *. by rewrite E1, E2.
Qed.

Lemma log_run_told_inv n told : log_run n told -> core_inv told.
Proof.
  induction 1 as [n rec Hs _ _ _ _|n told n' _ IH _ _ _|n told n' Hrun _ _ _ _|]; [|done| |done].
  - by apply start_inv in Hs as [].
  - by apply log_run_inv, li_node in Hrun as [].
Qed.

(** What a loss of power leaves of the log, whatever its state. *)
Lemma log_crash_safe told n :
  log_inv told n ->
  crash_safe (config_limits config) (lw_os (nd_world n)) (recoverable told (nd_core n)).
Proof.
  intros [_ _ _ Hd]. unfold disk_ok in Hd. destruct (rt_faulted (nd_runtime n)); [done|].
  destruct Hd as (<- & rec & Hh & Hr & _).
  eapply crash_safe_impl; [by eapply holds_crash_safe|]. by intros x <-.
Qed.

(** A log that was crash safe is opened with one of the states. *)
Lemma reopened (e e1 e2 : os) (P : tr_raft_wal_recovery -> Prop) locks locks' res s :
  config_in_range config -> crash_safe (config_limits config) e P ->
  crashed (os_view e) (os_view e1) ->
  tr_raft_wal_storage_open config locks e1 = (e2, locks', res, Some s) ->
  exists e3 p, tr_raft_wal_storage_load s e2 = (e3, SALTS_OK, Some p) /\ P (rp_recovery p).
Proof.
  intros Hc Hsafe Hcr Ho.
  destruct (Hsafe _ Hcr) as (snaps & first & id & closed & current & torn & r & Hr & Hd).
  assert (resting (config_limits config) e1 snaps first id closed current torn r) as Hrest.
  { eapply disk_resting; [by eapply crashed_at_rest|done]. }
  destruct (open_existing _ _ _ _ _ _ _ _ _ _ _ _ _ _ Hc Hrest Ho) as [_ Hh].
  destruct (holds_load _ _ _ _ Hh) as (e3 & p & Hl & Hp & _). exists e3, p. by rewrite Hp.
Qed.

(** C8. A node over the write-ahead log loses power at any moment of any run,
    in which any callback and any call of the system may have failed. When the
    log opens again, it loads the state of the core at a moment [c0] that lies
    between the one at which it last sent messages, [told], and the last one:
    its term, vote and commit index, and its entries. So it takes back neither
    the term nor the vote nor the commit index it has told others. *)
Theorem told_is_durable n told (e1 e2 : os) locks locks' res s
    (Hconfig : config_in_range config) (Hrun : log_run n told)
    (Hpower : crashed (os_view (lw_os (nd_world n))) (os_view e1))
    (Hopen : tr_raft_wal_storage_open config locks e1 = (e2, locks', res, Some s)) :
  exists e3 p c0, tr_raft_wal_storage_load s e2 = (e3, SALTS_OK, Some p) /\
    rtc core_call told c0 /\ rtc core_call c0 (nd_core n) /\ mirrors c0 (rp_recovery p) /\
    c_term told <= rc_term (rp_recovery p) /\
    (rc_term (rp_recovery p) = c_term told -> c_voted_for told <> 0 ->
     rc_voted_for (rp_recovery p) = c_voted_for told) /\
    c_commit_index told <= rc_commit_index (rp_recovery p).
Proof.
  pose proof (log_run_inv _ _ Hrun) as Hl.
  destruct (reopened _ _ _ _ _ _ _ _ Hconfig (log_crash_safe _ _ Hl) Hpower Hopen)
    as (e3 & p & Hload & c0 & Hc1 & Hc2 & Hm). exists e3, p, c0.
  assert (core_inv told) as Hi by by eapply log_run_told_inv.
  destruct (run_grows _ _ Hi Hc1) as [_ []]. pose proof Hm as [-> -> -> _].
  split_and!; auto.
Qed.
End Durable.
