(* ===== verification/NodeLogExamples.v ===== *)
(** * A vote that survives a loss of power

    A node over the files of [Ram] grants its vote, loses power after the
    response has been sent, and finds the vote in its log. *)

From S2P Require Import Prelude Configuration Vec Log CoreState CoreApi CoreFrame CoreInvariant.
From S2P Require Import CoreSafety CoreCalls CoreReach CoreReport CoreRefused Cluster CoreTraces.
From S2P Require Import Bytes Wire Digest Os Ram SnapshotSender Wal WalCodec.
From S2P Require Import WalRead WalRecovery WalReplay WalWrite WalCommit WalLog WalTransaction WalOpen.
From S2P Require Import WalTheorems WalExamples Runtime RuntimeApply RuntimeProcess.
From S2P Require Import Node NodeLog NodeDurable.
From Stdlib Require Import ZArith Lia.
From stdpp Require Import base numbers list gmap tactics strings relations.
Open Scope Z_scope.
Open Scope raft_scope.

(** ** The node *)

(** Messages that have been sent and commands that have been applied. *)
Record tally := Tally { ta_applied : list tr_raft_entry; ta_sent : Z -> list tr_raft_message }.

#[export] Instance tally_peers : Peers tally := {|
  rest_applied := ta_applied; rest_sent := ta_sent; rest_ok _ := True
|}.

Abbreviation world := (log_world (X := tally)).

Definition tally_transport : tr_raft_transport world list_vec :=
  TransportCalls
    (Some (fun w c m => (LogWorld (lw_os w) (lw_storage w)
       (Tally (ta_applied (lw_rest w)) (hand m (ta_sent (lw_rest w)))), c, SALTS_OK)))
    (Some (fun w c _ => (w, c, SALTS_OK))).

Definition tally_machine : tr_raft_state_machine world :=
  StateMachine
    (Some (fun w es => (LogWorld (lw_os w) (lw_storage w)
       (Tally (ta_applied (lw_rest w) ++ es) (ta_sent (lw_rest w))), SALTS_OK))).

Definition voter_config : tr_raft_runtime_config world list_vec :=
  RuntimeConfig tr_raft_wal_storage_bind tally_transport tally_machine.

Definition voter_runtime : tr_raft_runtime world list_vec :=
  RuntimeState tr_raft_wal_storage_bind tally_transport tally_machine [] 0 false false.

Lemma voter_callbacks : callbacks_of voter_runtime.
Proof.
  split; [|apply bind_aside].
  split; cbn; [intros f w x w' res [= <-] [= <- <-]; done|..];
    intros f w c x w' c' res [= <-] _ [= <- <- <-]; done.
Qed.

(** ** The run *)

Definition voter_start : node :=
  Node voter_runtime follower (LogWorld created_system created_storage (Tally [] (fun _ => []))) None.

Definition vote_call := tr_raft_core_step follower vote_request (buffer 4).

Definition voter_asked : node :=
  Node voter_runtime (core_of vote_call) (nd_world voter_start) (Some (ready_of vote_call)).

Definition vote_processed : status * drive world list_vec :=
  tr_raft_runtime_process voter_runtime (core_of vote_call) (ready_of vote_call)
    (nd_world voter_asked).

Definition voter_told : node := driven (snd vote_processed) (Some (ready_of vote_call)).

Lemma voter_start_run : log_run sample_config voter_start (nd_core voter_start).
Proof.
  apply (log_run_start sample_config voter_start zero_recovery).
  - split; [apply voter_callbacks| |by exists voter_config|done|done].
    exists true, (example_config [1; 2; 3] 2). split; [|by vm_compute].
    apply example_config_ok; [done|]. by repeat constructor.
  - done.
  - by vm_compute.
  - apply created_holds.
  - split; [by vm_compute..|]. exists []. by vm_compute.
Qed.

Lemma vote_ready_call :
  ready_call follower (buffer 4) SALTS_OK (core_of vote_call) (ready_of vote_call).
Proof. by apply (call_step _ _ vote_request); [apply request_ok|vm_compute]. Qed.

Lemma voter_asked_run : log_run sample_config voter_asked (nd_core voter_start).
Proof.
  eapply log_run_silent; [apply voter_start_run|done| |done].
  exact (node_call voter_runtime follower _ None (buffer 4) SALTS_OK _ _ vote_ready_call).
Qed.

Lemma vote_calls : calls_of (ready_of vote_call) = [WriteHardState 1 1].
Proof. by vm_compute. Qed.

Lemma voter_told_run : log_run sample_config voter_told (nd_core voter_asked).
Proof.
  eapply (log_run_told _ voter_asked); [apply voter_asked_run| | |].
  - intros r E. change (Some (ready_of vote_call) = Some r) in E. apply (inj Some) in E.
    rewrite <- E, vote_calls. repeat constructor; unfold word; lia.
  - exact (node_processed voter_runtime (core_of vote_call) (nd_world voter_asked) (ready_of vote_call)).
  - intros E%(f_equal (fun f => length (f 1))). vm_compute in E. discriminate.
Qed.

(** Everything written is durable. *)
Definition voter_lost : os :=
  power_loss (lw_os (nd_world voter_told)) sample_segment
    (default [] (ra_files (lw_os (nd_world voter_told)) !! sample_segment)) 100 whole_frame.

Lemma voter_crashed : crashed (os_view (lw_os (nd_world voter_told))) (os_view voter_lost).
Proof. apply power_loss_crashed. left. apply (bool_decide_unpack _). vm_compute. exact I. Qed.

Abbreviation voter_opened := (tr_raft_wal_storage_open sample_config [] voter_lost).

Lemma voter_opened_run :
  voter_opened = (fst (fst (fst voter_opened)), snd (fst (fst voter_opened)), snd (fst voter_opened),
    Some (default no_storage (snd voter_opened))).
Proof. apply opened_run. by vm_compute. Qed.

Lemma voter_asked_vote : c_term (nd_core voter_asked) = 1 /\ c_voted_for (nd_core voter_asked) = 1.
Proof. by vm_compute. Qed.

Lemma told_is_durable_witness :
  length (sent (nd_world voter_told) 1) = 1%nat /\
  exists e3 p, tr_raft_wal_storage_load (default no_storage (snd voter_opened))
      (fst (fst (fst voter_opened))) = (e3, SALTS_OK, Some p) /\
    1 <= rc_term (rp_recovery p) /\
    (rc_term (rp_recovery p) = 1 -> rc_voted_for (rp_recovery p) = 1).
Proof.
  split; [by vm_compute|].
  destruct (told_is_durable sample_config voter_told (nd_core voter_asked) voter_lost
    (fst (fst (fst voter_opened))) [] (snd (fst (fst voter_opened))) (snd (fst voter_opened))
    (default no_storage (snd voter_opened)) sample_config_in_range voter_told_run voter_crashed
    voter_opened_run) as (e3 & p & c0 & Hload & _ & _ & _ & Hterm & Hvote & _).
  destruct voter_asked_vote as [Et Ev]. rewrite Et, Ev in *. exists e3, p. auto.
Defined.
