(* ===== verification/ServiceDelivery.v ===== *)
(** * What the service keeps for its peers

    The messages of a peer are those the transport of the owner has accepted,
    followed by those the service has staged. The transport that the service
    gives to its runtime accepts a message by appending it there, whether the
    peer is paused or not, so a peer gets its messages in order. *)

From S2P Require Import Prelude Configuration Vec Log CoreState CoreApi SnapshotSender Ring.
From S2P Require Import Runtime RuntimeApply RuntimeProcess Service.
From Stdlib Require Import ZArith Lia FunctionalExtensionality.
From stdpp Require Import base numbers list tactics relations.
Open Scope Z_scope.
Open Scope raft_scope.

(** ** Deliveries *)

Abbreviation delivery := tr_raft_service_peer_delivery.
Implicit Types (d e : delivery) (ds : list delivery).

Definition staged_messages d : list tr_raft_message :=
  match pd_messages d with
  | Some a => ring_items zero_message a TR_RAFT_MAX_VOTERS (pd_message_head d) (pd_message_count d)
  | None => []
  end.

(** What delivery [d] holds for node [p]. *)
Definition share (p : Z) d : list tr_raft_message :=
  if pd_node_id d =? p then staged_messages d else [].

Definition staged ds (p : Z) : list tr_raft_message := foldr (fun d l => share p d ++ l) [] ds.

(** A delivery that is not paused is empty, and a staged message is for the
    node of the delivery, in a ring that has been allocated. *)
Record delivery_ok d : Prop := {
  de_empty : pd_paused d = false -> tr_service_delivery_empty d = true;
  de_free : pd_node_id d = 0 -> pd_paused d = false;
  de_ring : ring_ok (default empty_messages (pd_messages d)) TR_RAFT_MAX_VOTERS
              (pd_message_head d) (pd_message_count d);
  de_none : pd_messages d = None -> pd_message_count d = 0;
  de_to : Forall (fun m => m_to m = pd_node_id d) (staged_messages d)
}.

Record deliveries_ok ds : Prop := {
  do_length : length ds = Z.to_nat TR_RAFT_MAX_MEMBERS;
  do_each i d : ds !! i = Some d -> delivery_ok d;
  do_unique i j d e : ds !! i = Some d -> ds !! j = Some e ->
    pd_node_id d = pd_node_id e -> pd_node_id d <> 0 -> i = j
}.

Lemma zero_delivery_ok p : delivery_ok (zero_delivery <| pd_node_id := p |>).
Proof. by split. Qed.

Lemma zero_deliveries_ok : deliveries_ok (replicate (Z.to_nat TR_RAFT_MAX_MEMBERS) zero_delivery).
Proof.
  split; [done| |].
  - intros i d [-> _]%lookup_replicate. apply (zero_delivery_ok 0).
  - by intros i j d e [-> _]%lookup_replicate.
Qed.

Lemma empty_staged d : tr_service_delivery_empty d = true -> staged_messages d = [].
Proof.
  unfold tr_service_delivery_empty, staged_messages. intros [->%Z.eqb_eq _]%andb_true_iff.
  by destruct (pd_messages d).
Qed.

Lemma staged_zero n p : staged (replicate n zero_delivery) p = [].
Proof.
  unfold staged. induction n as [|n IH]; [done|]. cbn. rewrite IH. unfold share.
  by case_match.
Qed.

Lemma staged_alter i f ds d p :
  ds !! i = Some d -> share p (f d) = share p d -> staged (alter f i ds) p = staged ds p.
Proof.
  unfold staged. revert i. induction ds as [|e ds IH]; intros i Hi Hs; [done|].
  destruct i as [|i]; cbn in *; [simplify_eq; by rewrite Hs|]. by rewrite IH.
Qed.

Lemma staged_none ds p :
  (forall j e, ds !! j = Some e -> pd_node_id e <> p) -> staged ds p = [].
Proof.
  unfold staged. induction ds as [|e ds IH]; intros Hl; [done|]. cbn.
  rewrite IH by (intros j; apply (Hl (S j))). unfold share.
  specialize (Hl 0%nat e eq_refl). by replace (_ =? _) with false by blia.
Qed.

(** The only delivery of a node holds everything that is staged for it. *)
Lemma staged_at i ds d :
  deliveries_ok ds -> ds !! i = Some d -> staged ds (pd_node_id d) = staged_messages d.
Proof.
  intros [Hlen Heach Huniq] Hi.
  destruct (decide (pd_node_id d = 0)) as [E0|Hne].
  { rewrite (empty_staged d) by (destruct (Heach _ _ Hi); auto).
    unfold staged. rewrite E0. clear Hlen Huniq Hi. 
    induction ds as [|e ds IH]; [done|]. cbn. rewrite IH; [|intros j; apply (Heach (S j))].
    rewrite app_nil_r. unfold share. case_match; [|done]. apply empty_staged.
    destruct (Heach 0%nat e eq_refl). apply de_empty0, de_free0. lia. }
  unfold staged. clear Hlen Heach. revert i Hi Huniq.
  induction ds as [|e ds IH]; intros i Hi Huniq; [done|]. destruct i as [|i]; cbn in *.
  - simplify_eq. fold (staged ds (pd_node_id d)). rewrite staged_none, app_nil_r;
      [unfold share; by rewrite Z.eqb_refl|].
    intros j e Hj Ee. by specialize (Huniq 0%nat (S j) d e eq_refl Hj (eq_sym Ee) Hne).
  - rewrite (IH i) by (done || (intros; by eapply (inj S), Huniq)).
    assert (pd_node_id e <> pd_node_id d) as He.
    { intros E. specialize (Huniq (S i) 0%nat d e Hi eq_refl (eq_sym E) Hne). done. }
    unfold share. by replace (_ =? _) with false by blia.
Qed.

(** An assignment that keeps the node of the delivery, or takes one that has
    no delivery yet. *)
Lemma alter_ok i f ds d :
  deliveries_ok ds -> ds !! i = Some d -> delivery_ok (f d) ->
  (pd_node_id (f d) = pd_node_id d \/ pd_node_id (f d) = 0 \/
   forall j e, ds !! j = Some e -> pd_node_id e <> pd_node_id (f d)) ->
  deliveries_ok (alter f i ds).
Proof.
  intros [Hlen Heach Huniq] Hi Hok Hid.
  assert (forall j e, alter f i ds !! j = Some e -> (j = i /\ e = f d) \/ (j <> i /\ ds !! j = Some e)) as Hl.
  { intros j e. rewrite list_lookup_alter. case_decide as Hj; [subst j|by right].
    rewrite Hi. intros [= <-]. by left. }
  split; [by rewrite length_alter| |].
  - intros j e [[_ ->]|[_ Hj]]%Hl; eauto.
  - intros j k a b [[-> ->]|[Hj Ha]]%Hl [[-> ->]|[Hk Hb]]%Hl E Hne; [done| | |by eapply Huniq].
    + destruct Hid as [E1|[E1|E1]]; [|done|by destruct (E1 _ _ Hb)].
      by eapply Huniq; try done; congruence.
    + destruct Hid as [E1|[E1|E1]]; [|congruence|by destruct (E1 _ _ Ha)].
      by eapply Huniq; try done; congruence.
Qed.

(** What a search finds: a delivery of the node, or two that are empty. *)
Definition slot_at ds (i : nat) (P : delivery -> Prop) (k : nat) : Prop :=
  (i <= k)%nat /\ exists d, ds !! (k - i)%nat = Some d /\ P d.

Lemma slot_at_S d ds i P k : slot_at ds (S i) P k -> slot_at (d :: ds) i P k.
Proof.
  intros (Hk & e & He & HP). split; [lia|]. exists e. split; [|done].
  by replace (k - i)%nat with (S (k - S i)) by lia.
Qed.

Lemma slot_at_0 d ds i (P : delivery -> Prop) : P d -> slot_at (d :: ds) i P i.
Proof. intros HP. split; [done|]. exists d. by rewrite Nat.sub_diag. Qed.

Definition idle_delivery d : Prop := pd_paused d = false /\ tr_service_delivery_empty d = true.

Lemma find_delivery_slot_spec `{VecOps V} (c : tr_raft_core V) p create ds i free reusable :
  match find_delivery_slot c p create ds i free reusable with
  | inl k => slot_at ds i (fun d => pd_node_id d = p) k
  | inr (free', reusable') =>
      (forall j e, ds !! j = Some e -> pd_node_id e <> p) /\
      (forall k, free' = Some k -> free = Some k \/ slot_at ds i (fun d => pd_node_id d = 0) k) /\
      (forall k, reusable' = Some k -> reusable = Some k \/ slot_at ds i idle_delivery k)
  end.
Proof.
  revert i free reusable. induction ds as [|d ds IH]; intros i free reusable; cbn [find_delivery_slot].
  { split_and!; auto. }
  destruct (Z.eqb_spec (pd_node_id d) p) as [E|E]; [by apply slot_at_0|].
  assert (forall free1 reusable1,
    (forall k, free1 = Some k -> free = Some k \/ slot_at (d :: ds) i (fun d => pd_node_id d = 0) k) ->
    (forall k, reusable1 = Some k -> reusable = Some k \/ slot_at (d :: ds) i idle_delivery k) ->
    match find_delivery_slot c p create ds (S i) free1 reusable1 with
    | inl k => slot_at (d :: ds) i (fun d => pd_node_id d = p) k
    | inr (free', reusable') =>
        (forall j e, (d :: ds) !! j = Some e -> pd_node_id e <> p) /\
        (forall k, free' = Some k -> free = Some k \/ slot_at (d :: ds) i (fun d => pd_node_id d = 0) k) /\
        (forall k, reusable' = Some k -> reusable = Some k \/ slot_at (d :: ds) i idle_delivery k)
    end) as Hnext.
  { intros free1 reusable1 Hf Hr. specialize (IH (S i) free1 reusable1).
    destruct (find_delivery_slot c p create ds (S i) free1 reusable1) as [k|[free' reusable']];
      [by apply slot_at_S|]. destruct IH as (H1 & H2 & H3). split_and!.
    - intros [|j] e He; cbn in He; [by simplify_eq|by eapply H1].
    - intros k [Hk|Hk]%H2; [auto|right; by apply slot_at_S].
    - intros k [Hk|Hk]%H3; [auto|right; by apply slot_at_S]. }
  destruct ((pd_node_id d =? 0) && is_null free) eqn:E1.
  { apply andb_true_iff in E1 as [E1%Z.eqb_eq _]. apply Hnext; [|auto].
    intros k [= <-]. right. by apply slot_at_0. }
  destruct (create && is_null reusable && negb (pd_paused d) && tr_service_delivery_empty d &&
            _) eqn:E2; [|by apply Hnext; auto].
  rewrite !andb_true_iff, negb_true_iff in E2. apply Hnext; [auto|].
  intros k [= <-]. right. apply slot_at_0. by split; apply E2.
Qed.

(** ** The contexts *)

(** The contexts of the callbacks of the owner. *)
Class Outside (W D : Type) := {
  out_applied : W -> list tr_raft_entry;
  out_sent : W -> Z -> list tr_raft_message;
  out_disk : W -> D
}.

Definition outside `{Outside W D} (w : W) := (out_applied w, out_sent w, out_disk w).

(** The deliveries and the memory of the service are apart from them. *)
Class StagingLaws (W D : Type) `{Staging W} `{Outside W D} : Prop := {
  deliveries_set ds (w : W) : deliveries (set_deliveries ds w) = ds;
  outside_set ds (w : W) : outside (set_deliveries ds w) = outside w;
  deliveries_allocate (w : W) : deliveries (fst (stage_allocate w)) = deliveries w;
  outside_allocate (w : W) : outside (fst (stage_allocate w)) = outside w;
  deliveries_deallocate (w : W) : deliveries (stage_deallocate w) = deliveries w;
  outside_deallocate (w : W) : outside (stage_deallocate w) = outside w
}.

(** What the runtime of a service sees. *)
#[export] Instance service_contexts `{Staging W} `{Outside W D} : Contexts W D := {|
  applied := out_applied;
  sent w p := out_sent w p ++ staged (deliveries w) p;
  disk := out_disk;
  world_ok w := deliveries_ok (deliveries w)
|}.

(** The callbacks of the owner, on contexts of their own. *)
Record outer_ok `{Staging W} `{Outside W D} {V : Type} (transport : tr_raft_transport W V)
    (machine : tr_raft_state_machine W) : Prop := {
  oo_apply f w es w' res :
    sm_apply_batch machine = Some f -> f w es = (w', res) ->
    outside w' = (if ok res then out_applied w ++ es else out_applied w, out_sent w, out_disk w) /\
    deliveries w' = deliveries w;
  oo_enqueue f w c m w' c' res :
    tp_enqueue transport = Some f -> f w c m = (w', c', res) ->
    outside w' = (out_applied w, if ok res then hand m (out_sent w) else out_sent w, out_disk w) /\
    deliveries w' = deliveries w /\ c' = c;
  oo_snapshot f w c q w' c' res :
    tp_enqueue_snapshot transport = Some f -> f w c q = (w', c', res) ->
    outside w' = outside w /\ deliveries w' = deliveries w /\ c' = c
}.

Section Delivery.
Context {W D V : Type} `{StagingLaws W D} `{VecLaws V}.
Implicit Types (w : W) (c : tr_raft_core V) (i : nat).

(** A step of the service that neither sends nor loses a message. *)
Record moved w w' : Prop := {
  mv_outside : outside w' = outside w;
  mv_staged p : staged (deliveries w') p = staged (deliveries w) p;
  mv_ok : deliveries_ok (deliveries w')
}.

Lemma moved_refl w : deliveries_ok (deliveries w) -> moved w w.
Proof. by split. Qed.

Lemma moved_trans w1 w2 w3 : moved w1 w2 -> moved w2 w3 -> moved w1 w3.
Proof. intros [O1 S1 K1] [O2 S2 K2]. split; [congruence| |done]. intros p. by rewrite S2. Qed.

Lemma moved_same w1 w2 w' :
  deliveries w1 = deliveries w2 -> outside w1 = outside w2 -> moved w1 w' -> moved w2 w'.
Proof. intros Ed Eo [O S K]. split; [congruence| |done]. intros p. by rewrite <- Ed. Qed.

Lemma moved_sent w w' : moved w w' -> sent w' = sent w.
Proof.
  intros [[= _ E _] S _]. apply functional_extensionality. intros p. cbn. by rewrite E, S.
Qed.

Lemma delivery_at_Some w i d : deliveries w !! i = Some d -> delivery_at w i = d.
Proof. intros Hi. unfold delivery_at. by apply nth_lookup_Some. Qed.

Lemma update_lookup w i f d :
  deliveries w !! i = Some d -> deliveries (update_delivery w i f) !! i = Some (f d).
Proof.
  intros Hi. unfold update_delivery. rewrite deliveries_set, list_lookup_alter, decide_True by done.
  by rewrite Hi.
Qed.

Lemma update_moved w i f d :
  deliveries_ok (deliveries w) -> deliveries w !! i = Some d -> delivery_ok (f d) ->
  pd_node_id (f d) = pd_node_id d -> staged_messages (f d) = staged_messages d ->
  moved w (update_delivery w i f).
Proof.
  intros Hok Hi Hd En Es. unfold update_delivery.
  split; [apply outside_set|intros p|]; rewrite deliveries_set.
  - apply (staged_alter _ _ _ d); [done|]. unfold share. by rewrite En, Es.
  - apply (alter_ok _ _ _ d); auto.
Qed.

Lemma release_spec w i d :
  deliveries w !! i = Some d ->
  let w' := tr_service_release_delivery_messages w i in
  outside w' = outside w /\
  deliveries w' = alter (fun d => d <| pd_messages := None |>) i (deliveries w).
Proof.
  intros Hi. unfold tr_service_release_delivery_messages. rewrite (delivery_at_Some _ _ _ Hi).
  destruct (pd_messages d) eqn:E; cbn.
  - unfold update_delivery. rewrite outside_set, outside_deallocate, deliveries_set.
    by rewrite deliveries_deallocate.
  - split; [done|]. rewrite (list_alter_ext _ id _ (deliveries w)), list_alter_id; try done.
    intros x Hx. rewrite Hi in Hx. injection Hx as <-. destruct d; cbn in *. by subst.
Qed.

(** The messages of an empty delivery are released. *)
Lemma release_moved w i d :
  deliveries_ok (deliveries w) -> deliveries w !! i = Some d -> tr_service_delivery_empty d = true ->
  moved w (tr_service_release_delivery_messages w i).
Proof.
  intros Hok Hi He. destruct (release_spec w i d Hi) as [Eo Ed].
  pose proof (do_each _ Hok _ _ Hi) as [].
  pose proof He as [Ec _]%andb_true_iff. apply Z.eqb_eq in Ec.
  split; [done|intros p|]; rewrite Ed.
  - apply (staged_alter _ _ _ d); [done|]. unfold share. by rewrite (empty_staged d He).
  - apply (alter_ok _ _ _ d); auto. split; cbn; auto.
    rewrite Ec in *. destruct de_ring0. by split.
Qed.

(** A slot is given to a node that has none. *)
Lemma claim_moved w i d p :
  deliveries_ok (deliveries w) -> deliveries w !! i = Some d -> tr_service_delivery_empty d = true ->
  (forall j e, deliveries w !! j = Some e -> pd_node_id e <> p) ->
  moved w (update_delivery (tr_service_release_delivery_messages w i) i (fun _ =>
    zero_delivery <| pd_node_id := p |> <| pd_last_error := SALTS_OK |>)).
Proof.
  intros Hok Hi He Hfresh. destruct (release_spec w i d Hi) as [Eo Ed].
  unfold update_delivery. rewrite Ed.
  assert (forall f, alter (fun _ => f) i (alter (fun d => d <| pd_messages := None |>) i (deliveries w)) =
    alter (fun _ => f) i (deliveries w)) as E.
  { intros f. rewrite list_alter_alter_eq. done. }
  rewrite E. split; [by rewrite outside_set|intros q|]; rewrite deliveries_set.
  - apply (staged_alter _ _ _ d); [done|]. unfold share. rewrite (empty_staged d He).
    by repeat case_match.
  - apply (alter_ok _ _ _ d); auto. apply zero_delivery_ok.
Qed.

Lemma find_delivery_spec w c p create w' found :
  deliveries_ok (deliveries w) -> tr_service_find_delivery w c p create = (w', found) ->
  moved w w' /\ (create = false -> w' = w) /\
  (forall i, found = Some i -> exists d, deliveries w' !! i = Some d /\ pd_node_id d = p) /\
  (found = None -> create = false -> forall j e, deliveries w !! j = Some e -> pd_node_id e <> p).
Proof.
  intros Hok. unfold tr_service_find_delivery.
  pose proof (find_delivery_slot_spec c p create (deliveries w) 0 None None) as Hs.
  destruct (find_delivery_slot _ _ _ _ _ _ _) as [k|[free reusable]].
  { intros [= <- <-]. split; [by apply moved_refl|]. split_and!; [done| |done]. intros i [= <-].
    destruct Hs as (_ & d & Hd & Hp). rewrite Nat.sub_0_r in Hd. eauto. }
  destruct Hs as (Hfresh & Hfree & Hre).
  destruct create; cbn [negb]; [|intros [= <- <-]; split; [by apply moved_refl|by split_and!]].
  destruct (if is_null free then reusable else free) as [i|] eqn:Ei; cycle 1.
  { intros [= <- <-]. split; [by apply moved_refl|done]. }
  assert (exists d, deliveries w !! i = Some d /\ tr_service_delivery_empty d = true) as (d & Hi & He).
  { destruct free as [k|]; cbn in Ei; simplify_eq.
    - destruct (Hfree i eq_refl) as [?|(_ & d & Hd & Hzero)]; [done|]. rewrite Nat.sub_0_r in Hd.
      exists d. split; [done|]. destruct (do_each _ Hok _ _ Hd). auto.
    - destruct (Hre i eq_refl) as [?|(_ & d & Hd & _ & Hd2)]; [done|].
      rewrite Nat.sub_0_r in Hd. eauto. }
  intros [= <- <-]. split; [by eapply claim_moved|]. split_and!; [done| |done]. intros j [= <-].
  destruct (release_spec w i d Hi) as [_ Ed].
  assert (deliveries (tr_service_release_delivery_messages w i) !! i = Some (d <| pd_messages := None |>)) as Hi'.
  { rewrite Ed, list_lookup_alter, decide_True by done. by rewrite Hi. }
  eexists. split; [by eapply update_lookup|done].
Qed.

Lemma paused_node d : delivery_ok d -> pd_paused d = true -> pd_node_id d <> 0.
Proof. intros [] Hp E. by rewrite de_free0 in Hp. Qed.

(** What the invariant asks of a paused delivery. *)
Lemma paused_ok d d' :
  delivery_ok d -> pd_node_id d <> 0 -> pd_node_id d' = pd_node_id d -> pd_paused d' = true ->
  pd_messages d' = pd_messages d ->
  pd_message_head d' = pd_message_head d -> pd_message_count d' = pd_message_count d ->
  delivery_ok d'.
Proof.
  intros [_ _ Hr Hn Ht] Hne En Hp E1 E2 E3.
  split; [by rewrite Hp|congruence|by rewrite E1, E2, E3|by rewrite E1, E3|].
  unfold staged_messages in *. by rewrite E1, E2, E3, En.
Qed.

Lemma pause_spec w c i d w' c' res :
  deliveries_ok (deliveries w) -> deliveries w !! i = Some d ->
  tr_service_pause_delivery w c i = (w', c', res) ->
  moved w w' /\ pauses c c' /\
  (res = SALTS_OK -> exists d', deliveries w' !! i = Some d' /\ pd_paused d' = true /\
    pd_node_id d' = pd_node_id d).
Proof.
  intros Hok Hi. pose proof (do_each _ Hok _ _ Hi) as Hd.
  unfold tr_service_pause_delivery. rewrite (delivery_at_Some _ _ _ Hi).
  destruct (pd_paused d) eqn:Hp.
  { intros [= <- <- <-]. split; [|split; [apply rtc_refl|]].
    - apply (update_moved _ _ _ d); try done. apply (paused_ok d); try done. by apply paused_node.
    - intros _. eexists. by split; [by apply update_lookup|]. }
  destruct (tr_raft_core_set_peer_paused c (pd_node_id d) true) as [result c1] eqn:Ec.
  assert (pauses c c1) as Hpause by (apply rtc_once; eauto).
  destruct result as [|error]; intros [= <- <- <-]; [|by split; [apply moved_refl|]].
  assert (pd_node_id d <> 0) as Hne.
  { intros E. rewrite E in Ec. done. }
  split; [|split; [done|]].
  - apply (update_moved _ _ _ d); try done. by apply (paused_ok d).
  - intros _. eexists. by split; [by apply update_lookup|].
Qed.

(** The ring of a delivery after [push_message]. *)
Lemma push_staged d m a :
  delivery_ok d -> pd_paused d = true -> pd_messages d = Some a -> m_to m = pd_node_id d ->
  pd_message_count d <> TR_RAFT_MAX_VOTERS ->
  delivery_ok (push_message m d) /\ staged_messages (push_message m d) = staged_messages d ++ [m].
Proof.
  intros Hd Hp Ea Hto Hc. pose proof (paused_node _ Hd Hp) as Hne. destruct Hd as [_ _ Hr _ Ht].
  rewrite Ea in Hr. cbn in Hr. pose proof (rg_count _ _ _ _ Hr).
  destruct (ring_items_push zero_message a TR_RAFT_MAX_VOTERS (pd_message_head d) (pd_message_count d) m)
    as [Ei Hr']; [done|lia|].
  assert (staged_messages (push_message m d) = staged_messages d ++ [m]) as Es
    by (unfold staged_messages, push_message; cbn; rewrite Ea; exact Ei).
  split; [|done]. split; [| | | |rewrite Es; by apply Forall_app_2, Forall_singleton];
    unfold push_message; cbn; rewrite ?Ea, ?Hp; done.
Qed.

Lemma stage_message_spec w i d m w' res :
  deliveries_ok (deliveries w) -> deliveries w !! i = Some d -> pd_paused d = true ->
  m_to m = pd_node_id d -> tr_service_stage_message w i m = (w', res) ->
  deliveries_ok (deliveries w') /\ outside w' = outside w /\
  forall p, staged (deliveries w') p = if ok res then hand m (staged (deliveries w)) p
                                       else staged (deliveries w) p.
Proof.
  intros Hok Hi Hp Hto. unfold tr_service_stage_message.
  destruct (match pd_messages (delivery_at w i) with Some _ => _ | None => _ end)
    as [w1 allocated] eqn:E1.
  assert (moved w w1 /\ (allocated = true -> exists d1 a, deliveries w1 !! i = Some d1 /\
    pd_paused d1 = true /\ pd_node_id d1 = pd_node_id d /\ pd_messages d1 = Some a)) as [Hm Ha].
  { revert E1. rewrite (delivery_at_Some _ _ _ Hi). destruct (pd_messages d) as [a|] eqn:Ea.
    { intros [= <- <-]. split; [by apply moved_refl|]. intros _. by exists d, a. }
    pose proof (deliveries_allocate w) as Ed. pose proof (outside_allocate w) as Eo.
    destruct (stage_allocate w) as [w2 got]. cbn in Ed, Eo.
    destruct got; intros [= <- <-]; cycle 1.
    { split; [|done]. split; [done|intros p; by rewrite Ed|by rewrite Ed]. }
    rewrite <- Ed in Hi, Hok. split.
    - apply (moved_same w2); [done..|]. pose proof (do_each _ Hok _ _ Hi) as [].
      apply (update_moved _ _ _ d); try done.
      + split; cbn; auto; [by rewrite Ea in de_ring0|]. unfold staged_messages. cbn.
        rewrite de_none0 by done. constructor.
      + unfold staged_messages. cbn. rewrite Ea, de_none0 by done. done.
    - intros _. eexists _, empty_messages. by split; [by apply update_lookup|]. }
  destruct Hm as [Ho Hs Hok1]. destruct allocated; cbn [negb]; [|intros [= <- <-]; by split_and!].
  destruct (Ha eq_refl) as (d1 & a & Hi1 & Hp1 & En & Ea). clear Ha.
  rewrite (delivery_at_Some _ _ _ Hi1).
  destruct (Z.eqb_spec (pd_message_count d1) TR_RAFT_MAX_VOTERS) as [Hc|Hc];
    [intros [= <- <-]; by split_and!|]. intros [= <- <-]. cbn [ok].
  destruct (push_staged d1 m a) as [Hd2 Es2]; [by apply (do_each _ Hok1 i)|congruence..|].
  assert (deliveries_ok (alter (push_message m) i (deliveries w1))) as Hok2
    by (apply (alter_ok _ _ _ d1); auto).
  unfold update_delivery. rewrite outside_set, deliveries_set. split_and!; [done|done|]. intros p.
  unfold hand. rewrite <- Hs. destruct (Z.eqb_spec (m_to m) p) as [<-|Hne].
  - rewrite Hto, <- En, (staged_at i (deliveries w1) d1) by done.
    rewrite <- Es2. change (pd_node_id d1) with (pd_node_id (push_message m d1)).
    apply (staged_at i); [done|]. rewrite list_lookup_alter, decide_True by done.
    by rewrite Hi1.
  - apply (staged_alter _ _ _ d1); [done|]. unfold share. cbn. rewrite En, <- Hto.
    by replace (m_to m =? p) with false by blia.
Qed.

Lemma stage_snapshot_spec w i d q w' res :
  deliveries_ok (deliveries w) -> deliveries w !! i = Some d -> pd_paused d = true ->
  tr_service_stage_snapshot w i q = (w', res) -> moved w w'.
Proof.
  intros Hok Hi Hp. pose proof (do_each _ Hok _ _ Hi) as Hd. unfold tr_service_stage_snapshot.
  rewrite (delivery_at_Some _ _ _ Hi). case_match; intros [= <- <-]; [by apply moved_refl|].
  apply (update_moved _ _ _ d); try done. apply (paused_ok d); try done. by apply paused_node.
Qed.

Lemma note_moved w found res :
  deliveries_ok (deliveries w) ->
  (forall i, found = Some i -> exists d, deliveries w !! i = Some d) -> moved w (note_result w found res).
Proof.
  intros Hok Hf. destruct found as [i|]; cbn; [|by apply moved_refl].
  destruct (Hf i eq_refl) as [d Hi]. pose proof (do_each _ Hok _ _ Hi) as [].
  apply (update_moved _ _ _ d); try done.
Qed.

(** ** The transport of the service *)

(** What is asked of [enqueue] and [stage]: each does [post] when it returns
    [SALTS_OK], and no more than move messages otherwise. *)
Definition delivers_by (post : W -> W -> Prop) w w' (res : status) : Prop :=
  if ok res then post w w' else moved w w'.

Lemma pause_and_stage_spec post w c p stage w' c' res :
  (forall w1 w2 w3, moved w1 w2 -> post w2 w3 -> post w1 w3) ->
  (forall w i d w' res, deliveries_ok (deliveries w) -> deliveries w !! i = Some d ->
   pd_paused d = true -> pd_node_id d = p -> stage w i = (w', res) -> delivers_by post w w' res) ->
  deliveries_ok (deliveries w) -> pause_and_stage w c p stage = (w', c', res) ->
  delivers_by post w w' res /\ pauses c c'.
Proof.
  intros Hmove Hstage Hok. unfold pause_and_stage.
  destruct (tr_service_find_delivery w c p true) as [w1 found] eqn:Ef.
  apply find_delivery_spec in Ef as (Hm1 & _ & Hfound & _); [|done].
  destruct found as [i|]; cycle 1.
  { intros [= <- <- <-]. split; [exact Hm1|apply rtc_refl]. }
  destruct (Hfound i eq_refl) as (d & Hi & Hp). pose proof (mv_ok _ _ Hm1) as Hok1.
  destruct (tr_service_pause_delivery w1 c i) as [[w2 c2] res2] eqn:Ep.
  apply (pause_spec _ _ _ d) in Ep as (Hm2 & Hc & Hd2); [|done|done].
  pose proof (moved_trans _ _ _ Hm1 Hm2) as Hm.
  destruct res2 as [|error]; [|by intros [= <- <- <-]].
  destruct (Hd2 eq_refl) as (d2 & Hi2 & Hp2 & En2).
  destruct (stage w2 i) as [w3 res3] eqn:Es. intros [= <- <- <-]. split; [|done].
  apply (Hstage _ _ d2) in Es; [|apply Hm2|done|done|congruence].
  unfold delivers_by in *. destruct (ok res3); [by eapply Hmove|by eapply moved_trans].
Qed.

Lemma enqueue_or_stage_spec post w c p enqueue stage w' c' res :
  (forall w1 w2 w3, moved w1 w2 -> post w2 w3 -> post w1 w3) ->
  (forall w1 w2 w3, post w1 w2 -> moved w2 w3 -> post w1 w3) ->
  (forall w2 c2 res, enqueue w c = (w2, c2, res) -> staged (deliveries w) p = [] ->
   delivers_by post w w2 res /\ deliveries w2 = deliveries w /\ c2 = c) ->
  (forall w i d w' res, deliveries_ok (deliveries w) -> deliveries w !! i = Some d ->
   pd_paused d = true -> pd_node_id d = p -> stage w i = (w', res) -> delivers_by post w w' res) ->
  deliveries_ok (deliveries w) -> enqueue_or_stage w c p enqueue stage = (w', c', res) ->
  delivers_by post w w' res /\ pauses c c'.
Proof.
  intros Hmove1 Hmove2 Henq Hstage Hok. unfold enqueue_or_stage.
  destruct (tr_service_find_delivery w c p false) as [w1 found] eqn:Ef.
  apply find_delivery_spec in Ef as (_ & Hw1 & Hfound & Hnone); [|done].
  specialize (Hw1 eq_refl) as ->. cbv zeta.
  destruct (match found with Some i => if pd_paused (delivery_at w i) then Some i else None | None => None end)
    as [i|] eqn:Epaused.
  { destruct found as [j|]; [|done]. destruct (Hfound j eq_refl) as (d & Hi & Hp).
    rewrite (delivery_at_Some _ _ _ Hi) in Epaused. destruct (pd_paused d) eqn:Hpd; simplify_eq.
    destruct (stage w i) as [w2 res2] eqn:Es. intros [= <- <- <-].
    split; [by eapply Hstage|apply rtc_refl]. }
  destruct (enqueue w c) as [[w2 c2] res2] eqn:Ee.
  assert (staged (deliveries w) p = []) as Hempty.
  { destruct found as [j|]; [|by apply staged_none, Hnone].
    destruct (Hfound j eq_refl) as (d & Hi & <-). rewrite (delivery_at_Some _ _ _ Hi) in Epaused.
    rewrite (staged_at j) by done. apply empty_staged, (do_each _ Hok _ _ Hi).
    by destruct (pd_paused d). }
  destruct (Henq _ _ _ eq_refl Hempty) as (Hpost & Ed & ->).
  assert (deliveries_ok (deliveries w2)) as Hok2 by by rewrite Ed.
  assert (moved w2 (note_result w2 found res2)) as Hnote.
  { apply note_moved; [done|]. intros i Hi. destruct (Hfound i Hi) as (d & Hd & _).
    exists d. by rewrite Ed. }
  assert (delivers_by post w (note_result w2 found res2) res2) as Hdone.
  { unfold delivers_by in *. destruct (ok res2); [by eapply Hmove2|by eapply moved_trans]. }
  destruct res2 as [|error]; [intros [= <- <- <-]; split; [done|apply rtc_refl]|].
  destruct (decide (error = ENOSPC)) as [->|Hne].
  - intros Hrun. eapply (pause_and_stage_spec post) in Hrun as [Hby Hc]; [|done..].
    split; [|done]. cbn in Hpost. unfold delivers_by in *.
    destruct (ok res); [by eapply Hmove1|by eapply moved_trans].
  - intros Hrun. assert ((note_result w2 found (SALTS_ERR error), c, SALTS_ERR error) = (w', c', res))
      as [= <- <- <-] by (by destruct error). split; [done|apply rtc_refl].
Qed.

(** A message more for its node. *)
Definition posted (m : tr_raft_message) w w' : Prop :=
  deliveries_ok (deliveries w') /\ out_applied w' = out_applied w /\ out_disk w' = out_disk w /\
  forall p, sent w' p = hand m (sent w) p.

Lemma hand_ext m (f g : Z -> list tr_raft_message) p : f p = g p -> hand m f p = hand m g p.
Proof. unfold hand. by intros ->. Qed.

Lemma moved_posted m w1 w2 w3 : moved w1 w2 -> posted m w2 w3 -> posted m w1 w3.
Proof.
  intros Hm (K & A & D' & S). pose proof Hm as [[= E1 E2 E3] _ _].
  split_and!; [done|congruence|congruence|]. intros p. rewrite S. apply hand_ext.
  by rewrite (moved_sent _ _ Hm).
Qed.

Lemma posted_moved m w1 w2 w3 : posted m w1 w2 -> moved w2 w3 -> posted m w1 w3.
Proof.
  intros (K & A & D' & S) Hm. pose proof Hm as [[= E1 E2 E3] _ K3].
  split_and!; [done|congruence|congruence|]. intros p. by rewrite (moved_sent _ _ Hm).
Qed.

Lemma enqueue_message_spec transport machine w c m w' c' res :
  outer_ok transport machine -> deliveries_ok (deliveries w) ->
  tr_service_enqueue_message transport w c m = (w', c', res) ->
  delivers_by (posted m) w w' res /\ pauses c c'.
Proof.
  intros Hout Hok. unfold tr_service_enqueue_message.
  destruct (tp_enqueue transport) as [f|] eqn:Ef; cycle 1.
  { intros [= <- <- <-]. split; [by apply moved_refl|apply rtc_refl]. }
  apply enqueue_or_stage_spec; [apply moved_posted|apply posted_moved| | |done].
  - intros w2 c2 res2 Hf Hempty. destruct (oo_enqueue _ _ Hout _ _ _ _ _ _ _ Ef Hf) as (Eo & Ed & ->).
    split_and!; [|done|done]. unfold delivers_by. destruct (ok res2).
    + injection Eo as E1 E2 E3. split_and!; [by rewrite Ed|done|done|]. intros p. cbn.
      rewrite E2, Ed. unfold hand. destruct (Z.eqb_spec (m_to m) p) as [<-|]; [|done].
      by rewrite Hempty, !app_nil_r.
    + split; [done|intros p; by rewrite Ed|by rewrite Ed].
  - intros w1 i d w2 res2 Hok1 Hi Hp En Hs.
    apply (stage_message_spec _ _ d) in Hs as (K & [= E1 E2 E3] & S); [|done..].
    unfold delivers_by. destruct (ok res2).
    + split_and!; [done..|]. intros p. cbn. rewrite E2, S. unfold hand.
      case_match; [by rewrite app_assoc|done].
    + split; [by unfold outside; rewrite E1, E2, E3|done|done].
Qed.

Lemma enqueue_snapshot_spec transport machine w c q w' c' res :
  outer_ok transport machine -> deliveries_ok (deliveries w) ->
  tr_service_enqueue_snapshot transport w c q = (w', c', res) -> moved w w' /\ pauses c c'.
Proof.
  intros Hout Hok. unfold tr_service_enqueue_snapshot.
  destruct (tp_enqueue_snapshot transport) as [f|] eqn:Ef; cycle 1.
  { intros [= <- <- <-]. split; [by apply moved_refl|apply rtc_refl]. }
  assert (forall w w' res, moved w w' -> delivers_by moved w w' res) as Hby
    by (intros ??? Hm; unfold delivers_by; by case_match).
  intros Hrun. apply (enqueue_or_stage_spec moved) in Hrun as [Hm Hc]; [|apply moved_trans..| | |done].
  - split; [|done]. unfold delivers_by in Hm. by destruct (ok res).
  - intros w2 c2 res2 Hf _. destruct (oo_snapshot _ _ Hout _ _ _ _ _ _ _ Ef Hf) as (Eo & Ed & ->).
    split_and!; [|done|done]. apply Hby. split; [done|intros p; by rewrite Ed|by rewrite Ed].
  - intros w1 i d w2 res2 Hok1 Hi Hp En Hs. apply Hby. by eapply stage_snapshot_spec.
Qed.

(** The transport of the service keeps what the runtime asks for. *)
Lemma service_callbacks transport machine :
  outer_ok transport machine ->
  callbacks_ok (TransportCalls (Some (tr_service_enqueue_message transport))
                  (Some (tr_service_enqueue_snapshot transport))) machine.
Proof.
  intros Hout. split; cbn.
  - intros f w es w' res Hf Hrun. destruct (oo_apply _ _ Hout _ _ _ _ _ Hf Hrun) as [[= E1 E2 E3] Ed].
    rewrite E1, E2, E3, Ed. done.
  - intros f w c m w' c' res [= <-] Hok Hrun.
    apply (enqueue_message_spec _ machine) in Hrun as [Hby Hc]; [|done|done].
    unfold delivers_by in Hby. destruct (ok res).
    + destruct Hby as (K & A & D' & S). split_and!; try done.
      apply functional_extensionality. exact S.
    + pose proof Hby as [[= E1 E2 E3] _ K]. split_and!; try done. exact (moved_sent _ _ Hby).
  - intros f w c q w' c' res [= <-] Hok Hrun.
    apply (enqueue_snapshot_spec _ machine) in Hrun as [Hm Hc]; [|done|done].
    pose proof Hm as [[= E1 E2 E3] _ K]. split; [|done]. split_and!; try done.
    exact (moved_sent _ _ Hm).
Qed.
End Delivery.
