(* ===== verification/ServiceDrain.v ===== *)
(** * Sending what has been staged

    When a call of the service finds staged messages, it offers them to the
    transport again. A message the transport accepts leaves the service, so the
    messages of a peer stay in order; only a peer that is no member any more
    loses its messages. *)

From S2P Require Import Prelude Configuration Vec Log CoreState CoreApi SnapshotSender Ring.
From S2P Require Import Runtime RuntimeApply RuntimeProcess Service ServiceDelivery.
From Stdlib Require Import ZArith Lia.
From stdpp Require Import base numbers list tactics relations.
Open Scope Z_scope.
Open Scope raft_scope.

Section Drain.
Context {W D V : Type} `{StagingLaws W D} `{VecLaws V}.
Implicit Types (w : W) (c : tr_raft_core V) (i : nat) (s : tr_raft_service W V).
Implicit Types (d : tr_raft_service_peer_delivery) (transport : tr_raft_transport W V).

(** The messages of every peer are kept, sent or staged. *)
Record kept w w' : Prop := {
  kp_applied : out_applied w' = out_applied w;
  kp_disk : out_disk w' = out_disk w;
  kp_sent p : sent w' p = sent w p;
  kp_ok : deliveries_ok (deliveries w')
}.

Lemma kept_refl w : deliveries_ok (deliveries w) -> kept w w.
Proof. by split. Qed.

Lemma kept_trans w1 w2 w3 : kept w1 w2 -> kept w2 w3 -> kept w1 w3.
Proof. intros [] []. split; [congruence..| |done]. intros p. congruence. Qed.

Lemma moved_kept w w' : moved w w' -> kept w w'.
Proof.
  intros Hm. pose proof Hm as [[= E1 E2 E3] _ Hok]. split; try done.
  intros p. by rewrite (moved_sent _ _ Hm).
Qed.

(** ** Messages *)

Definition pop_message d : tr_raft_service_peer_delivery :=
  d <| pd_message_head := (pd_message_head d + 1) mod TR_RAFT_MAX_VOTERS |>
    <| pd_message_count := pd_message_count d - 1 |>.

Lemma pop_staged d :
  delivery_ok d -> 0 < pd_message_count d ->
  staged_messages d =
    array_get zero_message (default [] (pd_messages d)) (pd_message_head d) ::
    staged_messages (pop_message d) /\ delivery_ok (pop_message d).
Proof.
  intros [He Hf Hr Hn Ht] Hc. destruct (pd_messages d) as [a|] eqn:Ea; [|specialize (Hn eq_refl); lia].
  cbn in Hr. destruct (ring_items_pop zero_message _ _ _ _ Hr Hc) as [Ei Hr'].
  assert (staged_messages d = array_get zero_message a (pd_message_head d) ::
    staged_messages (pop_message d)) as Es by (unfold staged_messages; cbn; rewrite Ea; exact Ei).
  split; [done|]. split; cbn; rewrite ?Ea; try done.
  - intros Hp. specialize (He Hp). apply andb_true_iff in He as [He%Z.eqb_eq _]. lia.
  - rewrite Es in Ht. by inversion Ht.
Qed.

(** The first staged message of a delivery has been accepted. *)
Lemma popped_kept transport machine f w c i d w1 c1 :
  outer_ok transport machine -> tp_enqueue transport = Some f ->
  deliveries_ok (deliveries w) -> deliveries w !! i = Some d -> 0 < pd_message_count d ->
  f w c (array_get zero_message (default [] (pd_messages d)) (pd_message_head d)) = (w1, c1, SALTS_OK) ->
  kept w (update_delivery w1 i pop_message).
Proof.
  intros Hout Ef Hok Hi Hc Hrun. pose proof (do_each _ Hok _ _ Hi) as Hd.
  destruct (pop_staged d Hd Hc) as [Es Hd'].
  destruct (oo_enqueue _ _ Hout _ _ _ _ _ _ _ Ef Hrun) as ([= E1 E2 E3] & Ed & _). cbn [ok] in E2.
  assert (m_to (array_get zero_message (default [] (pd_messages d)) (pd_message_head d)) = pd_node_id d)
    as Hto by (pose proof (de_to _ Hd) as Ht; rewrite Es in Ht; by inversion Ht).
  assert (deliveries_ok (alter pop_message i (deliveries w))) as Hok'
    by (apply (alter_ok _ _ _ d); auto).
  pose proof (outside_set (alter pop_message i (deliveries w1)) w1) as [= O1 O2 O3].
  unfold update_delivery. split; [congruence|congruence| |by rewrite deliveries_set, Ed].
  intros p. cbn. rewrite O2, E2, deliveries_set, Ed. unfold hand. rewrite Hto.
  destruct (Z.eqb_spec (pd_node_id d) p) as [<-|Hne].
  - rewrite (staged_at i (deliveries w) d), Es by done. rewrite <- app_assoc. cbn. do 2 f_equal.
    change (pd_node_id d) with (pd_node_id (pop_message d)). apply (staged_at i); [done|].
    rewrite list_lookup_alter, decide_True by done. by rewrite Hi.
  - f_equal. apply (staged_alter _ _ _ d); [done|]. unfold share. cbn.
    by replace (pd_node_id d =? p) with false by blia.
Qed.

(** What draining leaves of a delivery. *)
Definition same_peer d d' : Prop :=
  pd_node_id d' = pd_node_id d /\ pd_paused d' = pd_paused d /\
  pd_snapshot_pending d' = pd_snapshot_pending d.

Lemma drain_messages_spec n transport machine w c i d w' c' res :
  outer_ok transport machine -> deliveries_ok (deliveries w) -> deliveries w !! i = Some d ->
  Z.of_nat n <= pd_message_count d -> drain_messages n transport w c i = (w', c', res) ->
  c' = c /\ kept w w' /\ exists d', deliveries w' !! i = Some d' /\ same_peer d d' /\
    (res = SALTS_OK -> pd_message_count d' = pd_message_count d - Z.of_nat n).
Proof.
  intros Hout. revert w d. induction n as [|n IH]; intros w d Hok Hi Hn; cbn [drain_messages].
  { intros [= <- <- <-]. split_and!; [done|by apply kept_refl|]. exists d. split_and!; [done..|lia]. }
  rewrite (delivery_at_Some _ _ _ Hi). destruct (tp_enqueue transport) as [f|] eqn:Ef; cycle 1.
  { intros [= <- <- <-]. split_and!; [done|by apply kept_refl|]. by exists d. }
  destruct (f w c _) as [[w1 c1] res1] eqn:Hrun.
  destruct (oo_enqueue _ _ Hout _ _ _ _ _ _ _ Ef Hrun) as ([= E1 E2 E3] & Ed & ->).
  destruct res1 as [|error]; cbn [ok] in E2; cycle 1.
  { intros [= <- <- <-]. split_and!; [done| |exists d; split_and!; [by rewrite Ed|done..]].
    split; [done|done|intros p; cbn; by rewrite E2, Ed|by rewrite Ed]. }
  pose proof (popped_kept _ _ _ _ _ _ _ _ _ Hout Ef Hok Hi ltac:(lia) Hrun) as Hk.
  assert (deliveries (update_delivery w1 i pop_message) !! i = Some (pop_message d)) as Hi1.
  { apply update_lookup. by rewrite Ed. }
  intros Hnext. apply (IH _ (pop_message d)) in Hnext as (-> & Hk' & d' & Hi' & (S1 & S2 & S3) & Hc');
    [|apply Hk|done|cbn; lia].
  split_and!; [done|by eapply kept_trans|]. exists d'. split_and!; [done..|].
  intros Hres. rewrite (Hc' Hres). cbn. lia.
Qed.

Lemma update_kept w i f d :
  deliveries_ok (deliveries w) -> deliveries w !! i = Some d -> delivery_ok (f d) ->
  pd_node_id (f d) = pd_node_id d -> staged_messages (f d) = staged_messages d ->
  kept w (update_delivery w i f).
Proof. intros. by eapply moved_kept, update_moved. Qed.

Lemma drain_snapshot_spec transport machine w c i d w' c' res :
  outer_ok transport machine -> deliveries_ok (deliveries w) -> deliveries w !! i = Some d ->
  pd_paused d = true -> drain_snapshot transport w c i = (w', c', res) ->
  c' = c /\ kept w w' /\ exists d', deliveries w' !! i = Some d' /\
    pd_node_id d' = pd_node_id d /\ pd_paused d' = true.
Proof.
  intros Hout Hok Hi Hp. pose proof (do_each _ Hok _ _ Hi) as Hd. unfold drain_snapshot.
  rewrite (delivery_at_Some _ _ _ Hi). destruct (pd_snapshot_pending d); cbn [negb]; cycle 1.
  { intros [= <- <- <-]. split_and!; [done|by apply kept_refl|]. by exists d. }
  destruct (tp_enqueue_snapshot transport) as [f|] eqn:Ef; cycle 1.
  { intros [= <- <- <-]. split_and!; [done|by apply kept_refl|]. by exists d. }
  destruct (f w c (pd_snapshot d)) as [[w1 c1] res1] eqn:Hrun.
  destruct (oo_snapshot _ _ Hout _ _ _ _ _ _ _ Ef Hrun) as ([= E1 E2 E3] & Ed & ->).
  assert (kept w w1) as Hk by (split; [done|done|intros p; cbn; by rewrite E2, Ed|by rewrite Ed]).
  rewrite <- Ed in Hi. destruct res1 as [|error]; intros [= <- <- <-]; cycle 1.
  { split_and!; [done|done|]. by exists d. }
  split_and!; [done| |eexists; by split_and!; [by apply update_lookup|..]].
  eapply kept_trans; [exact Hk|]. apply (update_kept _ _ _ d); try done; [apply Hk|].
  apply (paused_ok d); try done. by apply paused_node.
Qed.

(** ** Deliveries *)

(** What draining leaves alone of the service. *)
Definition holdings s :=
  (sv_runtime s, sv_storage s, sv_transport s, sv_state_machine s, sv_snapshot_policy s,
   sv_snapshot_buffer s, sv_pending_snapshot s, sv_journal_compaction_pending s,
   sv_backup_prepared s, sv_last_runtime_result s, sv_read_states s, sv_read_state_head s,
   sv_read_state_count s, sv_max_completed_reads s).

(** The messages of a peer are kept in order, and lost only when it is no
    member any more. *)
Definition in_order c w w' : Prop :=
  forall p, exists lost, sent w p = sent w' p ++ lost /\ (lost <> [] -> tr_peer_index c p < 0).

Record drained s (res : status) s' : Prop := {
  dn_holdings : holdings s' = holdings s;
  dn_core : pauses (sv_core s) (sv_core s');
  dn_applied : out_applied (sv_world s') = out_applied (sv_world s);
  dn_disk : out_disk (sv_world s') = out_disk (sv_world s);
  dn_order : in_order (sv_core s) (sv_world s) (sv_world s');
  dn_ok : deliveries_ok (deliveries (sv_world s'));
  dn_faulted : sv_faulted s' = if ok res then sv_faulted s else true
}.

Lemma pauses_peers c c' : pauses c c' -> c_peers c' = c_peers c.
Proof.
  induction 1 as [|c c1 c2 (id & paused & result & Hp) _ IH]; [done|]. rewrite IH. revert Hp.
  unfold tr_raft_core_set_peer_paused. repeat case_match; by intros [= <- <-].
Qed.

Lemma pauses_peer_index c c' p : pauses c c' -> tr_peer_index c' p = tr_peer_index c p.
Proof. intros Hp. unfold tr_peer_index. by rewrite (pauses_peers _ _ Hp). Qed.

Lemma kept_order c w w' : kept w w' -> in_order c w w'.
Proof. intros [_ _ Hs _] p. exists []. split; [by rewrite Hs, app_nil_r|done]. Qed.

Lemma in_order_trans c c' w1 w2 w3 :
  (forall p, tr_peer_index c' p = tr_peer_index c p) ->
  in_order c w1 w2 -> in_order c' w2 w3 -> in_order c w1 w3.
Proof.
  intros Hc H12 H23 p. destruct (H12 p) as (l1 & E1 & L1), (H23 p) as (l2 & E2 & L2).
  exists (l2 ++ l1). split; [by rewrite E1, E2, app_assoc|]. rewrite <- Hc in *.
  destruct l2; [by rewrite app_nil_l|auto].
Qed.

Lemma drained_refl s : deliveries_ok (deliveries (sv_world s)) -> drained s SALTS_OK s.
Proof. intros Hok. split; try done. by apply kept_order, kept_refl. Qed.

Lemma drained_trans s1 s2 res s3 :
  drained s1 SALTS_OK s2 -> drained s2 res s3 -> drained s1 res s3.
Proof.
  intros [R1 C1 A1 D1 O1 K1 F1] [R2 C2 A2 D2 O2 K2 F2]. cbn in F1. rewrite F1 in F2.
  split; try congruence; [by etrans|].
  eapply in_order_trans; [intros p; by apply pauses_peer_index|done|done].
Qed.

(** A step that only changes the contexts, or faults the service. *)
Lemma drained_kept s w c :
  kept (sv_world s) w -> pauses (sv_core s) c -> drained s SALTS_OK (put_world s w c).
Proof.
  intros Hk Hc. split; cbn; try done; [apply Hk|apply Hk|by apply kept_order|apply Hk].
Qed.

Lemma drained_fault s1 s2 cause res s3 :
  cause <> SALTS_OK -> drained s1 SALTS_OK s2 -> tr_service_fault s2 cause = (res, s3) ->
  drained s1 res s3.
Proof.
  intros Hne [R1 C1 A1 D1 O1 K1 F1] [= <- <-]. split; cbn; try done. by destruct cause.
Qed.

Lemma put_delivery_drained s i f d :
  deliveries_ok (deliveries (sv_world s)) -> deliveries (sv_world s) !! i = Some d ->
  delivery_ok (f d) -> pd_node_id (f d) = pd_node_id d -> staged_messages (f d) = staged_messages d ->
  drained s SALTS_OK (put_delivery s i f).
Proof.
  intros Hok Hi Hd En Es. assert (kept (sv_world s) (update_delivery (sv_world s) i f)) as Hk
    by by eapply update_kept.
  split; cbn; try done; [apply Hk|apply Hk|by apply kept_order|apply Hk].
Qed.

Lemma drain_refused_spec s i d result res s' :
  deliveries_ok (deliveries (sv_world s)) -> deliveries (sv_world s) !! i = Some d ->
  pd_paused d = true -> result <> SALTS_OK -> drain_refused s i result = (res, s') ->
  drained s res s'.
Proof.
  intros Hok Hi Hp Hne. pose proof (do_each _ Hok _ _ Hi) as Hd. unfold drain_refused. case_bool_decide.
  - intros [= <- <-]. apply (put_delivery_drained _ _ _ d); try done.
    apply (paused_ok d); try done. by apply paused_node.
  - apply drained_fault; [done|]. apply (put_delivery_drained _ _ _ d); try done.
    apply (paused_ok d); try done. by apply paused_node.
Qed.

Lemma drain_done_spec s i d res s' :
  deliveries_ok (deliveries (sv_world s)) -> deliveries (sv_world s) !! i = Some d ->
  drain_done s i = (res, s') -> drained s res s'.
Proof.
  intros Hok Hi. pose proof (do_each _ Hok _ _ Hi) as Hd. unfold drain_done.
  rewrite (delivery_at_Some _ _ _ Hi).
  destruct (pd_paused d && tr_service_delivery_empty d) eqn:Hpe; cycle 1.
  { intros [= <- <-]. by apply drained_refl. }
  apply andb_true_iff in Hpe as [Hp He].
  destruct (tr_raft_core_set_peer_paused _ _ _) as [result c] eqn:Hc.
  assert (drained s SALTS_OK (s <| sv_core := c |>)) as H1'.
  { apply (drained_kept s (sv_world s) c); [by apply kept_refl|]. apply rtc_once. eauto. }
  destruct (failed result && _) eqn:Hf.
  { apply drained_fault; [|done]. by intros ->. }
  set (s2 := put_delivery _ i _). intros [= <- <-]. eapply drained_trans; [exact H1'|].
  assert (drained (s <| sv_core := c |>) SALTS_OK s2) as H2'.
  { apply (put_delivery_drained _ _ _ d); try done. destruct Hd. by split. }
  eapply drained_trans; [exact H2'|].
  assert (deliveries (sv_world s2) !! i = Some (d <| pd_paused := false |> <| pd_last_error := SALTS_OK |>))
    as Hi2 by exact (update_lookup _ _ _ _ Hi).
  apply (drained_kept s2 (tr_service_release_delivery_messages (sv_world s2) i) (sv_core s2));
    [|apply rtc_refl].
  by eapply moved_kept, release_moved; [apply H2'|..].
Qed.

(** The delivery of a node that is no member any more. *)
Lemma forget_spec s i d :
  deliveries_ok (deliveries (sv_world s)) -> deliveries (sv_world s) !! i = Some d ->
  pd_node_id d <> 0 -> tr_peer_index (sv_core s) (pd_node_id d) < 0 ->
  drained s SALTS_OK (s <| sv_world := update_delivery
    (tr_service_release_delivery_messages (sv_world s) i) i (fun _ => zero_delivery) |>).
Proof.
  intros Hok Hi Hnode Hgone. destruct (release_spec (sv_world s) i d Hi) as [Eo Ed].
  set (w1 := tr_service_release_delivery_messages (sv_world s) i) in *.
  assert (deliveries (update_delivery w1 i (fun _ => zero_delivery)) =
    alter (fun _ => zero_delivery) i (deliveries (sv_world s))) as E.
  { unfold update_delivery. by rewrite deliveries_set, Ed, list_alter_alter_eq. }
  assert (outside (update_delivery w1 i (fun _ => zero_delivery)) = outside (sv_world s)) as [= O1 O2 O3]
    by (unfold update_delivery; by rewrite outside_set, Eo).
  split; cbn; try done.
  - intros p. cbn. rewrite O2, E. destruct (Z.eq_dec (pd_node_id d) p) as [<-|Hne].
    + exists (staged_messages d). split; [|done]. rewrite (staged_at i (deliveries (sv_world s)) d) by done.
      rewrite staged_none; [by rewrite app_nil_r|].
      intros j e. rewrite list_lookup_alter. case_decide as Hj.
      * subst j. rewrite Hi. intros [= <-]. cbn. congruence.
      * intros He Ee. apply Hj. by apply (do_unique _ Hok _ _ d e).
    + exists []. split; [|done]. rewrite app_nil_r. f_equal. symmetry.
      apply (staged_alter _ _ _ d); [done|]. unfold share. cbn.
      rewrite (proj2 (Z.eqb_neq (pd_node_id d) p)) by done. by case_match.
  - rewrite E. apply (alter_ok _ _ _ d); auto. apply (zero_delivery_ok 0).
Qed.

Lemma peer_gone c p : fst (tr_raft_core_peer_paused c p) = SALTS_ENOENT -> tr_peer_index c p < 0.
Proof. unfold tr_raft_core_peer_paused. repeat case_match; try done. intros _. lia. Qed.

Lemma reset_head d :
  delivery_ok d -> pd_message_count d = 0 ->
  delivery_ok (d <| pd_message_head := 0 |>) /\
  staged_messages (d <| pd_message_head := 0 |>) = staged_messages d.
Proof.
  intros Hd Hzero.
  assert (staged_messages d = []) as E by (unfold staged_messages; rewrite Hzero; by case_match).
  assert (staged_messages (d <| pd_message_head := 0 |>) = []) as E'
    by (unfold staged_messages; cbn; rewrite Hzero; by case_match).
  split; [|congruence]. destruct Hd as [F1 F2 [] F4 _]. split; cbn; auto; [by split; try lia|].
  rewrite E'. constructor.
Qed.

Lemma drain_delivery_spec machine s i d res s' :
  outer_ok (sv_transport s) machine -> deliveries_ok (deliveries (sv_world s)) ->
  deliveries (sv_world s) !! i = Some d -> pd_paused d = true ->
  tr_service_drain_delivery s i = (res, s') -> drained s res s'.
Proof.
  intros Hout Hok Hi Hp. pose proof (do_each _ Hok _ _ Hi) as Hd.
  pose proof (paused_node _ Hd Hp) as Hne. unfold tr_service_drain_delivery.
  rewrite (delivery_at_Some _ _ _ Hi).
  destruct (tr_raft_core_peer_paused (sv_core s) (pd_node_id d)) as [result paused] eqn:Hpeer.
  destruct result as [|error]; cycle 1.
  { destruct (decide (error = ENOENT)) as [->|Hother].
    - intros [= <- <-]. apply (forget_spec s i d); try done. apply peer_gone. by rewrite Hpeer.
    - intros Hrun. apply (drained_fault s s (SALTS_ERR error)); [done|by apply drained_refl|].
      by destruct error. }
  destruct (drain_messages _ _ _ _ _) as [[w1 c1] res1] eqn:Hm.
  apply (drain_messages_spec _ _ machine _ _ _ d) in Hm as (-> & Hk1 & d1 & Hi1 & (N1 & P1 & S1) & Hc1);
    [|done|done|done|pose proof (rg_count _ _ _ _ (de_ring _ Hd)); lia].
  assert (drained s SALTS_OK (put_world s w1 (sv_core s))) as D1 by (apply drained_kept; [done|apply rtc_refl]).
  destruct res1 as [|error]; cycle 1.
  { intros Hrun. eapply drained_trans; [exact D1|].
    eapply (drain_refused_spec _ i d1); [apply D1|exact Hi1|congruence| |exact Hrun]. done. }
  specialize (Hc1 eq_refl). set (s1 := put_delivery (put_world s w1 (sv_core s)) i _).
  assert (pd_message_count d1 = 0) as Hzero.
  { rewrite Hc1. pose proof (rg_count _ _ _ _ (de_ring _ Hd)). lia. }
  pose proof (do_each _ (kp_ok _ _ Hk1) _ _ Hi1) as Hd1.
  destruct (reset_head d1 Hd1 Hzero) as [Hd2 Es2].
  assert (drained (put_world s w1 (sv_core s)) SALTS_OK s1) as D2
    by (apply (put_delivery_drained _ _ _ d1); try done; apply Hk1).
  assert (deliveries (sv_world s1) !! i = Some (d1 <| pd_message_head := 0 |>)) as Hi2
    by exact (update_lookup _ _ _ _ Hi1).
  pose proof (drained_trans _ _ _ _ D1 D2) as D3.
  destruct (drain_snapshot _ _ _ _) as [[w2 c2] res2] eqn:Hs.
  apply (drain_snapshot_spec _ machine _ _ _ (d1 <| pd_message_head := 0 |>))
    in Hs as (-> & Hk2 & d2 & Hi3 & N2 & P2); [|done|apply D2|done|cbn; congruence].
  assert (drained s1 SALTS_OK (put_world s1 w2 (sv_core s1))) as D4 by (apply drained_kept; [done|apply rtc_refl]).
  pose proof (drained_trans _ _ _ _ D3 D4) as D5.
  destruct res2 as [|error]; intros Hrun; (eapply drained_trans; [exact D5|]).
  - eapply (drain_done_spec _ i d2); [apply D4|exact Hi3|exact Hrun].
  - eapply (drain_refused_spec _ i d2); [apply D4|exact Hi3|done| |exact Hrun]. done.
Qed.

(** Counting ticks. *)
Lemma add_ticks_same ticks d :
  pd_node_id (add_ticks ticks d) = pd_node_id d /\
  staged_messages (add_ticks ticks d) = staged_messages d /\
  (delivery_ok d -> delivery_ok (add_ticks ticks d)).
Proof. unfold add_ticks. repeat case_match; split_and!; try done; intros []; by split. Qed.

Lemma add_ticks_kept w ticks :
  deliveries_ok (deliveries w) -> kept w (tr_service_add_paused_ticks w ticks).
Proof.
  intros [Hlen Heach Huniq]. unfold tr_service_add_paused_ticks.
  pose proof (outside_set (add_ticks ticks <$> deliveries w) w) as [= O1 O2 O3].
  split; [done|done|intros p; cbn; rewrite O2|]; rewrite deliveries_set.
  - f_equal. clear. induction (deliveries w) as [|d ds IH]; cbn; [done|].
    fold (staged (add_ticks ticks <$> ds) p) (staged ds p). rewrite IH. f_equal. unfold share.
    by destruct (add_ticks_same ticks d) as (-> & -> & _).
  - split; [by rewrite length_fmap| |].
    + intros i d (e & -> & Hi)%list_lookup_fmap_Some. by apply add_ticks_same, (Heach i).
    + intros i j d e (d0 & -> & Hi)%list_lookup_fmap_Some (e0 & -> & Hj)%list_lookup_fmap_Some.
      destruct (add_ticks_same ticks d0) as (-> & _), (add_ticks_same ticks e0) as (-> & _).
      by apply Huniq.
Qed.

(** ** The service *)

Lemma drain_from_spec machine s indices res s' :
  outer_ok (sv_transport s) machine -> deliveries_ok (deliveries (sv_world s)) ->
  drain_from s indices = (res, s') -> drained s res s'.
Proof.
  revert s. induction indices as [|i indices IH]; intros s Hout Hok; cbn [drain_from].
  { intros [= <- <-]. by apply drained_refl. }
  destruct ((pd_node_id (delivery_at (sv_world s) i) =? 0) || _) eqn:Hskip; [by apply IH|].
  apply orb_false_iff in Hskip as [Hid Hskip].
  assert (exists d, deliveries (sv_world s) !! i = Some d /\ pd_paused d = true) as (d & Hi & Hp).
  { unfold delivery_at in *. rewrite nth_lookup in *.
    destruct (deliveries (sv_world s) !! i) as [d|] eqn:Hi; [|done]. cbn in *. exists d.
    split; [done|]. destruct (pd_paused d) eqn:Hp; [done|].
    by rewrite (de_empty _ (do_each _ Hok _ _ Hi) Hp) in Hskip. }
  destruct (tr_service_drain_delivery s i) as [res1 s1] eqn:Hrun.
  apply (drain_delivery_spec machine _ _ d) in Hrun as Hd; [|done..].
  destruct res1 as [|error]; [|by intros [= <- <-]].
  intros Hnext. eapply drained_trans; [exact Hd|]. apply IH; [|apply Hd|done].
  pose proof (dn_holdings _ _ _ Hd) as [= _ _ -> _]. done.
Qed.

(** What a call does before anything else. *)
Lemma open_spec machine s res s' :
  outer_ok (sv_transport s) machine -> deliveries_ok (deliveries (sv_world s)) ->
  service_open s = (res, s') ->
  if sv_faulted s || sv_backup_prepared s then s' = s /\ res <> SALTS_OK
  else drained s res s'.
Proof.
  intros Hout Hok. unfold service_open. destruct (sv_faulted s); [by intros [= <- <-]|].
  destruct (sv_backup_prepared s); [by intros [= <- <-]|]. cbn.
  destruct (tr_service_has_pending_transport _); [by apply (drain_from_spec machine)|].
  intros [= <- <-]. by apply drained_refl.
Qed.
End Drain.
