(* ===== verification/ServiceNode.v ===== *)
(** * The service as a node

    Every call of a service is a run of the node that its core, its runtime and
    the contexts form: the service calls the core only when no ready is left
    over, hands every ready to the runtime, and changes nothing else of the
    node. What holds of the runs of a node so holds of a service. *)

From S2P Require Import Prelude Configuration Vec Log CoreState CoreApi CoreFrame CoreInvariant.
From S2P Require Import CoreSafety CoreCalls CoreReach SnapshotSender Ring Runtime RuntimeApply.
From S2P Require Import RuntimeProcess Node Service ServiceDelivery ServiceDrain.
From Stdlib Require Import ZArith Lia.
From stdpp Require Import base numbers list tactics relations.
Open Scope Z_scope.
Open Scope raft_scope.

(** The snapshots have contexts of their own. *)
Definition apart `{Staging W} `{Outside W D} (w w' : W) : Prop :=
  out_applied w' = out_applied w /\ out_sent w' = out_sent w /\ deliveries w' = deliveries w.

Record policy_ok `{Staging W} `{Outside W D} (policy : tr_raft_snapshot_policy W) : Prop := {
  po_source_create f w i w' res source :
    py_source_create policy = Some f -> f w i = (w', res, source) ->
    apart w w' /\ forall g w, src_release source = Some g -> apart w (g w);
  po_source_store f w i t conf source :
    py_source_store policy = Some f -> apart w (fst (f w i t conf source));
  po_create f w i b w' res b' n :
    py_create policy = Some f -> f w i b = (w', res, b', n) -> apart w w';
  po_store f w i t conf b n : py_store policy = Some f -> apart w (fst (f w i t conf b n));
  po_journal f w i t : py_journal_compact policy = Some f -> apart w (fst (f w i t))
}.

Section Service.
Context {W D V : Type} `{StagingLaws W D} `{VecLaws V}.
Implicit Types (s : tr_raft_service W V) (w : W) (c : tr_raft_core V) (r : tr_raft_ready).
Implicit Types ready : option tr_raft_ready.

Definition node_of s ready : node := Node (sv_runtime s) (sv_core s) (sv_world s) ready.

Definition service_transport (transport : tr_raft_transport W V) : tr_raft_transport W V :=
  TransportCalls (Some (tr_service_enqueue_message transport))
    (Some (tr_service_enqueue_snapshot transport)).

(** The ring of the completed reads. *)
Definition reads_ok s : Prop :=
  ring_ok (sv_read_states s) (sv_max_completed_reads s) (sv_read_state_head s)
    (sv_read_state_count s) /\ sv_max_completed_reads s <= TR_RAFT_MAX_PENDING_READS.

(** The parts of a service belong together. *)
Record service_ok s ready : Prop := {
  so_node : node_inv (node_of s ready);
  so_outer : outer_ok (sv_transport s) (sv_state_machine s);
  so_storage : storage_aside (sv_storage s);
  so_policy : policy_ok (sv_snapshot_policy s);
  so_transport : rt_transport (sv_runtime s) = service_transport (sv_transport s);
  so_machine : rt_state_machine (sv_runtime s) = sv_state_machine s;
  so_reads : reads_ok s
}.

(** Between two calls: a service without a fault has no ready left over. *)
Record service_inv s ready : Prop := {
  si_ok : service_ok s ready;
  si_idle : sv_faulted s = false -> ready = None /\ rt_faulted (sv_runtime s) = false;
  si_backup : sv_backup_prepared s = true -> ready = None /\ unblocked (sv_runtime s)
}.

(** A service whose calls are not refused. *)
Record live s : Prop := {
  lv_ok : service_ok s None;
  lv_faulted : sv_faulted s = false;
  lv_runtime : rt_faulted (sv_runtime s) = false;
  lv_backup : sv_backup_prepared s = false
}.

Lemma live_inv s : live s -> service_inv s None.
Proof. intros []. by split; [..|congruence]. Qed.

Lemma inv_live s ready :
  service_inv s ready -> sv_faulted s = false -> sv_backup_prepared s = false ->
  ready = None /\ live s.
Proof. intros [] Hf Hb. destruct (si_idle0 Hf) as [-> Hr]. by split. Qed.

(** The messages for node [p]. *)
Definition messages_to (p : Z) (ms : list tr_raft_message) : list tr_raft_message :=
  List.filter (fun m => m_to m =? p) ms.

(** Every node has got its messages among [ms]. *)
Definition adds (ms : list tr_raft_message) w w' : Prop :=
  forall p, sent w' p = sent w p ++ messages_to p ms.

(** What is run of the node. A service with a fault has dropped what it had
    staged. *)
Definition serves (ms : list tr_raft_message) s ready s' : Prop :=
  exists ready', rtc run_step (node_of s ready) (node_of s' ready') /\ service_inv s' ready' /\
    (sv_faulted s' = false -> adds ms (sv_world s) (sv_world s')).

(** The same when the service has no fault. *)
Definition continues (ms : list tr_raft_message) s ready s' : Prop :=
  rtc run_step (node_of s ready) (node_of s' None) /\ live s' /\ adds ms (sv_world s) (sv_world s').

Lemma adds_nothing w w' : (forall p, sent w' p = sent w p) -> adds [] w w'.
Proof. intros E p. by rewrite E, app_nil_r. Qed.

Lemma adds_app ms1 ms2 w1 w2 w3 : adds ms1 w1 w2 -> adds ms2 w2 w3 -> adds (ms1 ++ ms2) w1 w3.
Proof.
  intros H12 H23 p. rewrite H23, H12, <- app_assoc. f_equal. symmetry. apply List.filter_app.
Qed.

Lemma continues_serves ms s ready s' : continues ms s ready s' -> serves ms s ready s'.
Proof. intros (Hr & Hl & Ha). exists None. split; [done|]. split; [by apply live_inv|done]. Qed.

Lemma continues_trans ms1 ms2 s1 ready s2 s3 :
  continues ms1 s1 ready s2 -> serves ms2 s2 None s3 -> serves (ms1 ++ ms2) s1 ready s3.
Proof.
  intros (Hr & _ & Ha) (ready' & Hr' & Hi & Ha'). exists ready'. split; [by etrans|].
  split; [done|]. intros Hf. eapply adds_app; eauto.
Qed.

Lemma continues_continues ms1 ms2 s1 ready s2 s3 :
  continues ms1 s1 ready s2 -> continues ms2 s2 None s3 -> continues (ms1 ++ ms2) s1 ready s3.
Proof.
  intros (Hr & _ & Ha) (Hr' & Hl & Ha'). split; [by etrans|]. split; [done|by eapply adds_app].
Qed.

(** After the messages are sent. *)
Lemma continues_then ms s1 ready s2 s3 :
  continues ms s1 ready s2 -> serves [] s2 None s3 -> serves ms s1 ready s3.
Proof. intros Hc Hs. rewrite <- (app_nil_r ms). by eapply continues_trans. Qed.

Lemma continues_next ms s1 ready s2 s3 :
  continues ms s1 ready s2 -> continues [] s2 None s3 -> continues ms s1 ready s3.
Proof. intros Hc Hs. rewrite <- (app_nil_r ms). by eapply continues_continues. Qed.

Lemma continues_refl s : live s -> continues [] s None s.
Proof. intros Hl. split; [done|]. split; [done|by apply adds_nothing]. Qed.

(** Fields that the parts do not depend on. *)
Definition parts s :=
  (sv_runtime s, sv_storage s, sv_transport s, sv_state_machine s, sv_snapshot_policy s).

Lemma run_ok s s' ready ready' :
  service_ok s ready -> parts s' = parts s -> (reads_ok s -> reads_ok s') ->
  rtc run_step (node_of s ready) (node_of s' ready') -> service_ok s' ready'.
Proof.
  intros [] [= E1 E2 E3 E4 E5] Hreads Hr. destruct (run_inv _ _ so_node0 Hr) as [Hn _].
  split; rewrite ?E1, ?E2, ?E3, ?E4, ?E5; auto.
Qed.

Lemma fault_serves ms s ready cause :
  service_ok s ready -> sv_backup_prepared s = false ->
  serves ms s ready (snd (tr_service_fault s cause)).
Proof.
  intros Hok Hb. exists ready. split; [done|]. split; [|done]. split; cbn; [|done|congruence].
  by eapply run_ok; [exact Hok|..].
Qed.

Lemma continues_fault ms s1 ready s2 cause res s3 :
  continues ms s1 ready s2 -> tr_service_fault s2 cause = (res, s3) -> serves ms s1 ready s3.
Proof.
  intros Hc [= <- <-]. eapply continues_then; [exact Hc|].
  destruct Hc as (_ & [] & _). by apply fault_serves.
Qed.

(** ** Steps that only the service sees *)

Lemma continues_run s s' :
  live s -> parts s' = parts s -> (reads_ok s -> reads_ok s') -> sv_faulted s' = sv_faulted s ->
  sv_backup_prepared s' = sv_backup_prepared s ->
  rtc run_step (node_of s None) (node_of s' None) ->
  (forall p, sent (sv_world s') p = sent (sv_world s) p) -> continues [] s None s'.
Proof.
  intros [Hok Hf Hr Hb] Hp Hreads Ef Eb Hrun Hs. split; [done|]. split; [|by apply adds_nothing].
  split; [by apply (run_ok s _ None)|congruence| |congruence]. by injection Hp as ->.
Qed.

(** Fields of the service that are no part of the node. *)
Lemma continues_same s s' :
  live s -> parts s' = parts s -> (reads_ok s -> reads_ok s') -> sv_faulted s' = sv_faulted s ->
  sv_backup_prepared s' = sv_backup_prepared s -> sv_core s' = sv_core s ->
  sv_world s' = sv_world s -> continues [] s None s'.
Proof.
  intros Hl Hp Hreads Ef Eb Ec Ew. apply continues_run; try done; [|by rewrite Ew]. unfold node_of.
  injection Hp as E _ _ _ _. rewrite E, Ec, Ew. done.
Qed.

Lemma contexts_step s w :
  live s -> out_applied w = out_applied (sv_world s) -> deliveries_ok (deliveries w) ->
  (forall p, sent w p = sent (sv_world s) p) -> continues [] s None (s <| sv_world := w |>).
Proof.
  intros Hl Ea Hok Hs. apply continues_run; try done. apply rtc_once. right. by apply owner_contexts.
Qed.

Lemma apart_step s w : live s -> apart (sv_world s) w -> continues [] s None (s <| sv_world := w |>).
Proof.
  intros Hl (Ea & Es & Ed). apply contexts_step; [done|done| |intros p; cbn; by rewrite Es, Ed].
  rewrite Ed. apply (ni_world _ (so_node _ _ (lv_ok _ Hl))).
Qed.

Lemma pauses_run rt c c' w ready :
  pauses c c' -> rtc run_step (Node rt c w ready) (Node rt c' w ready).
Proof.
  induction 1 as [c|c c1 c2 (id & paused & result & Hp) _ IH]; [done|].
  eapply rtc_l; [|exact IH]. left. by eapply node_pause.
Qed.

Lemma drained_run s res s' :
  live s -> drained s res s' -> rtc run_step (node_of s None) (node_of s' None).
Proof.
  intros Hl [[= E _ _ _ _ _ _ _ _ _ _ _ _ _] Hc Ha _ _ Hok _]. unfold node_of. rewrite E.
  etrans; [by apply pauses_run|]. apply rtc_once. right. by apply owner_contexts.
Qed.

(** ** Snapshots *)

Lemma compact_core_spec s point res s' :
  live s -> compact_core s point = (res, s') -> continues [] s None s'.
Proof.
  intros Hl. unfold compact_core. destruct (tr_raft_core_compact (sv_core s) point) as [result c] eqn:E.
  intros [= <- <-]. apply continues_run; try done. apply rtc_once. left. by eapply node_compact.
Qed.

Lemma finish_compaction_spec s res s' :
  live s -> tr_service_finish_journal_compaction s = (res, s') -> serves [] s None s'.
Proof.
  intros Hl. pose proof (so_policy _ _ (lv_ok _ Hl)) as Hp.
  unfold tr_service_finish_journal_compaction.
  destruct (py_journal_compact (sv_snapshot_policy s)) as [f|] eqn:Ef; cycle 1.
  { intros [= <- <-]. by apply continues_serves, continues_refl. }
  pose proof (po_journal _ Hp f (sv_world s) (sp_index (sv_pending_snapshot s))
    (sp_term (sv_pending_snapshot s)) Ef) as Ha.
  destruct (f _ _ _) as [w result]. cbn in Ha. pose proof (apart_step s w Hl Ha) as Hc1.
  pose proof Hc1 as (_ & Hl1 & _). destruct result as [|error].
  - destruct (compact_core _ _) as [result2 s2] eqn:E2.
    pose proof (compact_core_spec _ _ _ _ Hl1 E2) as Hc2.
    pose proof (continues_next _ _ _ _ _ Hc1 Hc2) as Hc3. destruct result2 as [|error].
    + intros [= <- <-]. apply continues_serves. eapply continues_next; [exact Hc3|].
      by apply continues_same; [apply Hc3|..].
    + by apply continues_fault.
  - intros Hrun. destruct (decide (error = EIO)) as [->|Hne].
    + injection Hrun as <- <-. by apply continues_serves.
    + apply (continues_fault [] _ _ (s <| sv_world := w |>) (SALTS_ERR error) res); [done|].
      by destruct error.
Qed.

(** A snapshot is stored: the service goes on, or it is faulted. *)
Definition stores s (res : status) s' : Prop :=
  if ok res then continues [] s None s' else serves [] s None s'.

Lemma stores_fault s1 s2 cause res s3 :
  cause <> SALTS_OK -> continues [] s1 None s2 -> tr_service_fault s2 cause = (res, s3) ->
  stores s1 res s3.
Proof.
  intros Hne Hc Hf. unfold stores. injection Hf as <- <-. destruct cause as [|error]; [done|].
  by eapply continues_fault.
Qed.

Lemma stores_refused s error : live s -> stores s (SALTS_ERR error) s.
Proof. intros Hl. by apply continues_serves, continues_refl. Qed.

(** The callbacks of a source. *)
Lemma release_apart (source : @tr_raft_snapshot_source W) w :
  (forall g w, src_release source = Some g -> apart w (g w)) ->
  apart w (tr_service_snapshot_source_release source w).
Proof. intros Hr. unfold tr_service_snapshot_source_release. case_match; [by apply Hr|done]. Qed.

Lemma apart_trans w1 w2 w3 : apart w1 w2 -> apart w2 w3 -> apart w1 w3.
Proof. intros (?&?&?) (?&?&?). split_and!; congruence. Qed.

Lemma stream_spec s point res s' :
  live s -> stream_snapshot s point = (res, s') -> stores s res s'.
Proof.
  intros Hl. pose proof (so_policy _ _ (lv_ok _ Hl)) as Hp. unfold stream_snapshot.
  destruct (py_source_create _) as [f|] eqn:Ef; [|intros [= <- <-]; by apply stores_refused].
  destruct (py_source_store _) as [g|] eqn:Eg; [|intros [= <- <-]; by apply stores_refused].
  destruct (f _ _) as [[w result] source] eqn:E.
  destruct (po_source_create _ Hp _ _ _ _ _ _ Ef E) as [Ha Hrel].
  destruct result as [|error]; [|apply stores_fault; [done|by apply apart_step]].
  destruct (is_null _ || _).
  { apply stores_fault; [done|]. apply apart_step; [done|].
    eapply apart_trans; [exact Ha|by apply release_apart]. }
  pose proof (po_source_store _ Hp g w (sp_index point) (sp_term point) (sp_configuration point)
    source Eg) as Ha2.
  destruct (g _ _ _ _ _) as [w2 result2]. cbn in Ha2.
  assert (continues [] s None (s <| sv_world := tr_service_snapshot_source_release source w2 |>)) as Hc.
  { apply apart_step; [done|]. do 2 (eapply apart_trans; [eassumption|]). by apply release_apart. }
  destruct result2 as [|error]; cbn [failed ok negb]; [by intros [= <- <-]|by apply stores_fault].
Qed.

Lemma buffer_spec s point res s' :
  live s -> buffer_snapshot s point = (res, s') -> stores s res s'.
Proof.
  intros Hl. pose proof (so_policy _ _ (lv_ok _ Hl)) as Hp. unfold buffer_snapshot.
  destruct (py_create _) as [f|] eqn:Ef; [|intros [= <- <-]; by apply stores_refused].
  destruct (py_store _) as [g|] eqn:Eg; [|intros [= <- <-]; by apply stores_refused].
  destruct (f _ _ _) as [[[w result] b] n] eqn:E. pose proof (po_create _ Hp _ _ _ _ _ _ _ _ Ef E) as Ha.
  cbv zeta. set (s1 := s <| sv_world := w |> <| sv_snapshot_buffer := b |>).
  assert (continues [] s None s1) as Hc1.
  { eapply continues_next; [by apply (apart_step s w)|].
    apply continues_same; try done. by apply (apart_step s w). }
  destruct result as [|error]; cbn [failed ok negb]; [|by apply stores_fault].
  destruct (_ <? n); [by apply stores_fault|].
  pose proof (po_store _ Hp g (sv_world s1) (sp_index point) (sp_term point) (sp_configuration point)
    b n Eg) as Ha2.
  destruct (g _ _ _ _ _ _) as [w2 result2]. cbn in Ha2.
  assert (continues [] s None (s1 <| sv_world := w2 |>)) as Hc2.
  { eapply continues_next; [exact Hc1|]. by apply apart_step; [apply Hc1|]. }
  destruct result2 as [|error]; cbn [failed ok negb]; [by intros [= <- <-]|by apply stores_fault].
Qed.

Lemma compact_stored_spec s point res s' :
  live s -> compact_stored s point = (res, s') -> serves [] s None s'.
Proof.
  intros Hl. unfold compact_stored. destruct (negb _).
  - intros Hrun. set (s1 := s <| sv_pending_snapshot := point |> <| sv_journal_compaction_pending := true |>) in *.
    assert (continues [] s None s1) as Hc by by apply continues_same.
    eapply continues_then; [exact Hc|]. by eapply finish_compaction_spec; [apply Hc|].
  - destruct (compact_core s point) as [result s1] eqn:E.
    pose proof (compact_core_spec _ _ _ _ Hl E) as Hc.
    destruct result as [|error]; [|by apply continues_fault].
    intros [= <- <-]. by apply continues_serves.
Qed.

Lemma snapshot_spec s force res s' :
  live s -> tr_service_snapshot s force = (res, s') -> serves [] s None s'.
Proof.
  intros Hl. pose proof (continues_refl s Hl) as Hc. pose proof (continues_serves _ _ _ _ Hc) as Hs.
  unfold tr_service_snapshot. destruct (_ =? 0); [by intros [= <- <-]|].
  destruct (sv_journal_compaction_pending s); [by apply finish_compaction_spec|].
  destruct (tr_raft_core_status (sv_core s)) as [result status] eqn:Est.
  destruct (failed result); [by apply continues_fault|].
  destruct (_ =? _); [by intros [= <- <-]|].
  destruct (negb force && _); [by intros [= <- <-]|].
  destruct (tr_raft_core_snapshot_point (sv_core s)) as [result2 [point|]] eqn:Ep; cycle 1.
  { intros Hrun. apply (continues_fault [] s None s result2 res); [done|].
    by destruct result2. }
  destruct result2 as [|error]; [|by apply continues_fault].
  destruct (if negb (is_null _) then _ else _) as [result3 s1] eqn:Estore.
  assert (stores s result3 s1) as Hst.
  { revert Estore. destruct (negb _); [by apply stream_spec|by apply buffer_spec]. }
  unfold stores in Hst. destruct result3 as [|error]; cbn in Hst; [|by intros [= <- <-]].
  intros Hrun. eapply continues_then; [exact Hst|]. by eapply compact_stored_spec; [apply Hst|].
Qed.

(** ** A ready *)

(** The completed reads, oldest first. *)
Definition completed s : list tr_raft_read_state :=
  ring_items zero_read_state (sv_read_states s) (sv_max_completed_reads s)
    (sv_read_state_head s) (sv_read_state_count s).

Lemma push_read_states_spec s states :
  reads_ok s -> sv_read_state_count s + Z.of_nat (length states) <= sv_max_completed_reads s ->
  completed (fold_left push_read_state states s) = completed s ++ states /\
  reads_ok (fold_left push_read_state states s).
Proof.
  revert s. induction states as [|x states IH]; intros s Hok Hroom; cbn [fold_left].
  { by rewrite app_nil_r. }
  cbn [length] in Hroom. destruct (ring_items_push zero_read_state _ _ _ _ x (proj1 Hok)) as [E Hok']; [lia|].
  destruct (IH (push_read_state s x)) as [E' Hok'']; [split; [exact Hok'|apply Hok]|cbn; lia|].
  assert (completed (push_read_state s x) = completed s ++ [x]) as E1 by exact E.
  split; [|done]. by rewrite E', E1, <- app_assoc.
Qed.

Lemma pop_read_state_spec s :
  reads_ok s -> sv_read_state_count s <> 0 ->
  completed s = array_get zero_read_state (sv_read_states s) (sv_read_state_head s) ::
    completed (pop_read_state s) /\ reads_ok (pop_read_state s).
Proof.
  intros [Hok Hmax] Hne. pose proof Hok as [Hs Hh Hc].
  destruct (ring_items_pop zero_read_state _ _ _ _ Hok) as [E Hok']; [lia|].
  unfold completed, pop_read_state. cbn. rewrite E. split.
  - f_equal. destruct (Z.eqb_spec (sv_read_state_count s - 1) 0) as [->|]; [done|].
    symmetry. apply ring_items_clear; [done|done|lia].
  - split; [|done]. cbn. destruct Hok' as [Hs' Hh' Hc'].
    split; [by rewrite length_array_set| |done]. by destruct (_ =? 0); [lia|].
Qed.

Lemma push_read_states_same s states :
  let s' := fold_left push_read_state states s in
  parts s' = parts s /\ sv_faulted s' = sv_faulted s /\
  sv_backup_prepared s' = sv_backup_prepared s /\ sv_core s' = sv_core s /\ sv_world s' = sv_world s.
Proof.
  revert s. induction states as [|x states IH]; intros s; cbn [fold_left]; [done|].
  by destruct (IH (push_read_state s x)) as (-> & -> & -> & -> & ->).
Qed.

Lemma enqueue_read_states_spec s r res s' :
  live s -> tr_service_enqueue_read_states s r = (res, s') -> continues [] s None s'.
Proof.
  intros Hl. unfold tr_service_enqueue_read_states. destruct (_ =? 0).
  { intros [= <- <-]. by apply continues_refl. }
  destruct (_ <? _) eqn:Hroom; [intros [= <- <-]; by apply continues_refl|]. intros [= <- <-].
  destruct (push_read_states_same s (r_read_states r)) as (Ep & Ef & Eb & Ec & Ew).
  apply continues_same; try done. intros Hreads. apply push_read_states_spec; [done|].
  pose proof Hreads as [[] Hmax]. unfold TR_RAFT_MAX_PENDING_READS in Hmax. revert Hroom. word_simpl. lia.
Qed.

Lemma clear_pending_ok w :
  outside (tr_service_clear_pending_transport w) = outside w /\
  deliveries (tr_service_clear_pending_transport w) =
    replicate (Z.to_nat TR_RAFT_MAX_MEMBERS) zero_delivery.
Proof.
  unfold tr_service_clear_pending_transport. rewrite outside_set, deliveries_set. split; [|done].
  generalize (seq 0 (Z.to_nat TR_RAFT_MAX_MEMBERS)). intros l. revert w.
  induction l as [|i l IH]; intros w; cbn [fold_left]; [done|]. rewrite IH.
  unfold tr_service_release_delivery_messages. case_match; [|done].
  unfold update_delivery. by rewrite outside_set, outside_deallocate.
Qed.

(** The runtime has failed: what was staged is dropped. *)
Lemma failed_serves ms s ready cause res s' :
  service_ok s ready -> sv_backup_prepared s = false ->
  tr_service_fault (s <| sv_world := tr_service_clear_pending_transport (sv_world s) |>) cause =
    (res, s') ->
  serves ms s ready s'.
Proof.
  intros Hok Hb [= <- <-]. destruct (clear_pending_ok (sv_world s)) as [[= O1 O2 O3] Ed].
  assert (rtc run_step (node_of s ready)
    (node_of (s <| sv_world := tr_service_clear_pending_transport (sv_world s) |>) ready)) as Hrun.
  { apply rtc_once. right. apply owner_contexts; [done|]. cbn. rewrite Ed. apply zero_deliveries_ok. }
  exists ready. split; [exact Hrun|]. split; [|done]. split; cbn; [|done|congruence].
  by apply (run_ok s _ ready).
Qed.

Lemma hand_all_to ms f p : hand_all ms f p = f p ++ messages_to p ms.
Proof.
  unfold hand_all. revert f. induction ms as [|m ms IH]; intros f; cbn; [by rewrite app_nil_r|].
  rewrite IH. unfold hand. case_match; [by rewrite <- app_assoc|done].
Qed.

(** What the runtime has done with a ready. *)
Lemma process_result s r result d :
  service_ok s (Some r) -> unblocked (sv_runtime s) ->
  tr_raft_runtime_process (sv_runtime s) (sv_core s) r (sv_world s) = (result, d) ->
  service_ok (take_drive s d) (if c_ready_outstanding (dr_core d) then Some r else None) /\
  rtc run_step (node_of s (Some r))
    (node_of (take_drive s d) (if c_ready_outstanding (dr_core d) then Some r else None)) /\
  (result = SALTS_OK \/ result = SALTS_EBUSY /\ rt_apply_blocked (dr_runtime d) = true ->
   c_ready_outstanding (dr_core d) = false /\ rt_faulted (dr_runtime d) = false) /\
  (rt_faulted (dr_runtime d) = false -> adds (r_messages r) (sv_world s) (dr_world d)).
Proof.
  intros [Hn Ho Hs Hp Et Em] [Hno Hnb] Hrun.
  assert (rtc run_step (node_of s (Some r))
    (node_of (take_drive s d) (if c_ready_outstanding (dr_core d) then Some r else None))) as Hstep.
  { apply rtc_once. left. by eapply node_process. }
  destruct (run_inv _ _ Hn Hstep) as [Hn' _].
  pose proof Hn as [[K1 K2] Hi Hf Hr Ha Hw]. cbn in K1, K2, Hi, Hf, Hr, Ha, Hw.
  rewrite Hnb in Ha. specialize (Ha Hno). revert Hrun. unfold tr_raft_runtime_process. rewrite Hno, Hnb.
  intros Hrun. apply process_ready_spec in Hrun
    as (c1 & mid & _ & Hproc & [(_ & E2 & E3) _ _ (n & Hsent & _ & Hall) _ _]); [|done..].
  cbn in E2, E3. split; [by split; cbn; rewrite ?E2, ?E3|]. split; [done|]. split.
  - intros Hres. destruct Hproc as [error Ec Hfault Hblock|mid error Hm Hwait Ec Href|Ec Hfault Hblock].
    + destruct Hres as [?|[_ ?]]; congruence.
    + rewrite Ec. split; [done|]. destruct Hres as [?|[E _]]; [done|]. unfold refusal in Href.
      rewrite E, bool_decide_true in Href by done. apply Href.
    + rewrite Ec. done.
  - intros Hfault p. rewrite (Hall Hfault), firstn_all in Hsent. rewrite <- hand_all_to.
    exact (f_equal (fun f => f p) Hsent).
Qed.

Lemma no_effects_no_messages r : tr_service_ready_has_effects r = false -> r_messages r = [].
Proof.
  unfold tr_service_ready_has_effects. rewrite !orb_false_iff. intros [[[[[[[E _] _] _] _] _] _] _].
  apply negb_false_iff, Z.eqb_eq in E. unfold r_message_count in E. apply length_zero_iff_nil. lia.
Qed.

Lemma process_ready_serves s r res s' :
  service_ok s (if c_ready_outstanding (sv_core s) then Some r else None) ->
  c_ready_outstanding (sv_core s) = tr_service_ready_has_effects r ->
  sv_faulted s = false -> sv_backup_prepared s = false -> unblocked (sv_runtime s) ->
  tr_service_process_ready s r = (res, s') ->
  serves (r_messages r) s (if c_ready_outstanding (sv_core s) then Some r else None) s'.
Proof.
  intros Hok E Hf Hb Hu. rewrite E in *. clear E. unfold tr_service_process_ready.
  destruct (tr_service_ready_has_effects r) eqn:Heff; cbn [negb]; cycle 1.
  { rewrite (no_effects_no_messages r Heff).
    assert (live s) as Hl by (split; try done; apply Hu). destruct (sv_journal_compaction_pending s).
    - by apply snapshot_spec.
    - intros [= <- <-]. by apply continues_serves, continues_refl. }
  destruct (tr_raft_runtime_process _ _ _ _) as [result d] eqn:Hrun.
  destruct (process_result _ _ _ _ Hok Hu Hrun) as (Hok1 & Hstep & Hdone & Hadds).
  set (s1 := take_drive s d) in *. cbv zeta.
  assert (c_ready_outstanding (dr_core d) = false /\ rt_faulted (dr_runtime d) = false ->
    continues (r_messages r) s (Some r) s1) as Hcont.
  { intros [E1 E2]. rewrite E1 in Hstep, Hok1. split; [done|]. split; [by split|by apply Hadds]. }
  assert (forall res1 s2, tr_service_enqueue_read_states s1 r = (res1, s2) ->
    continues (r_messages r) s (Some r) s1 -> continues (r_messages r) s (Some r) s2) as Hreads.
  { intros res1 s2 E Hc. eapply continues_next; [exact Hc|].
    eapply enqueue_read_states_spec; [apply Hc|exact E]. }
  destruct (bool_decide (result = SALTS_EBUSY) && _) eqn:Hbusy.
  { apply andb_true_iff in Hbusy as [Hbusy%bool_decide_eq_true Hblock].
    specialize (Hcont (Hdone (or_intror (conj Hbusy Hblock)))).
    destruct (tr_service_enqueue_read_states s1 r) as [res1 s2] eqn:E.
    specialize (Hreads _ _ eq_refl Hcont). destruct res1 as [|error]; [|by apply continues_fault].
    intros [= <- <-]. by apply continues_serves. }
  destruct result as [|error]; cbn [failed ok negb]; cycle 1.
  { intros Hfail. destruct (failed_serves [] _ _ _ _ _ Hok1 Hb Hfail) as (ready' & Hrun2 & Hi & _).
    exists ready'. split; [by etrans|]. split; [done|]. by injection Hfail as _ <-. }
  specialize (Hcont (Hdone (or_introl eq_refl))).
  destruct (tr_service_enqueue_read_states s1 r) as [res1 s2] eqn:E.
  specialize (Hreads _ _ eq_refl Hcont). destruct res1 as [|error]; [|by apply continues_fault].
  intros Hsnap. eapply continues_then; [exact Hreads|]. by eapply snapshot_spec; [apply Hreads|].
Qed.

(** ** The calls *)

(** The messages of a ready of the core, or none. *)
Definition batch c (ms : list tr_raft_message) : Prop :=
  ms = [] \/ exists c1 c2 r, pauses c c1 /\
    ready_call c1 tr_service_prepare_ready SALTS_OK c2 r /\ ms = r_messages r.

(** Every member gets its messages of a batch, after those it had before. *)
Definition emits c w w' : Prop :=
  exists ms, batch c ms /\
    forall p, 0 <= tr_peer_index c p -> sent w' p = sent w p ++ messages_to p ms.

Definition answers s ready s' : Prop :=
  exists ready', rtc run_step (node_of s ready) (node_of s' ready') /\ service_inv s' ready' /\
    (sv_faulted s' = false -> emits (sv_core s) (sv_world s) (sv_world s')).

Lemma answers_refl s ready : service_inv s ready -> answers s ready s.
Proof.
  intros Hi. exists ready. split; [done|]. split; [done|]. intros _. exists []. split; [by left|].
  intros p _. by rewrite app_nil_r.
Qed.

(** The call has been let in. *)
Record let_in s s1 : Prop := {
  li_run : rtc run_step (node_of s None) (node_of s1 None);
  li_live : live s1;
  li_drained : drained s SALTS_OK s1
}.

Lemma in_order_member c w w' p : in_order c w w' -> 0 <= tr_peer_index c p -> sent w' p = sent w p.
Proof.
  intros Ho Hp. destruct (Ho p) as (lost & E & Hl). destruct lost as [|m lost]; [by rewrite E, app_nil_r|].
  specialize (Hl ltac:(done)). lia.
Qed.

Lemma let_in_answers s s1 ms s' :
  let_in s s1 -> batch (sv_core s) ms -> serves ms s1 None s' -> answers s None s'.
Proof.
  intros [Hrun Hl Hd] Hb (ready' & Hrun' & Hi & Ha). exists ready'. split; [by etrans|].
  split; [done|]. intros Hf. exists ms. split; [done|]. intros p Hp. rewrite (Ha Hf p). f_equal.
  by apply (in_order_member (sv_core s)); [apply Hd|].
Qed.

Lemma opened_spec s ready res s1 :
  service_inv s ready -> service_open s = (res, s1) ->
  if ok res then ready = None /\ let_in s s1 else answers s ready s1.
Proof.
  intros Hi Hrun. pose proof (si_ok _ _ Hi) as Hok.
  apply (open_spec (sv_state_machine s)) in Hrun; [|apply Hok|apply (ni_world _ (so_node _ _ Hok))].
  destruct (sv_faulted s || sv_backup_prepared s) eqn:Hclosed.
  { destruct Hrun as [-> Hne]. destruct res as [|error]; [done|]. by apply answers_refl. }
  apply orb_false_iff in Hclosed as [Hf Hb]. destruct (inv_live _ _ Hi Hf Hb) as [-> Hl].
  pose proof (drained_run _ _ _ Hl Hrun) as Hsteps. pose proof Hl as [Hok' _ Hr _].
  pose proof Hrun as [[= E1 E2 E3 E4 E5 _ _ _ E6 _ E7 E8 E9 E10] _ _ _ _ _ Ef].
  assert (parts s1 = parts s) as Hp by (unfold parts; congruence).
  assert (reads_ok s -> reads_ok s1) as Hreads by (unfold reads_ok; congruence).
  pose proof (run_ok s _ _ _ Hok' Hp Hreads Hsteps) as Hok1. destruct (ok res) eqn:Hres.
  - destruct res; [|done]. split; [done|]. split; [done| |done]. split; congruence.
  - exists None. split; [done|]. split; [|congruence]. split; [done|congruence|congruence].
Qed.

Lemma guard_spec s ready res s1 :
  service_inv s ready -> tr_service_mutation_guard s = (res, s1) ->
  if ok res then ready = None /\ let_in s s1 /\ unblocked (sv_runtime s1) else answers s ready s1.
Proof.
  intros Hi. unfold tr_service_mutation_guard. destruct (service_open s) as [res1 s2] eqn:Hrun.
  apply (opened_spec _ ready) in Hrun; [|done]. destruct res1 as [|error]; [|by intros [= <- <-]].
  intros [= <- <-]. destruct Hrun as (-> & Hg). unfold tr_raft_runtime_apply_blocked.
  destruct (rt_apply_blocked (sv_runtime s2)) eqn:Hb.
  - apply (let_in_answers _ s2 []); [done|by left|]. by apply continues_serves, continues_refl, Hg.
  - split; [done|]. split; [done|]. split; [apply (lv_runtime _ (li_live _ _ Hg))|done].
Qed.

Lemma call_core_spec s call res s' :
  live s -> unblocked (sv_runtime s) ->
  (forall result c' r', call (sv_core s) tr_service_prepare_ready = (result, c', r') ->
   ready_call (sv_core s) tr_service_prepare_ready result c' r') ->
  call_core s call = (res, s') -> exists ms, batch (sv_core s) ms /\ serves ms s None s'.
Proof.
  intros Hl Hu Hcall. unfold call_core.
  destruct (call (sv_core s) tr_service_prepare_ready) as [[result c] r] eqn:E.
  specialize (Hcall _ _ _ eq_refl). cbv zeta. set (s1 := s <| sv_core := c |>).
  assert (rtc run_step (node_of s None) (node_of s1
    (if ok result then if c_ready_outstanding c then Some r else None else None))) as Hrun.
  { apply rtc_once. left. by eapply node_call. }
  destruct result as [|error]; cbn [ok failed negb] in *; cycle 1.
  { intros [= <- <-]. exists []. split; [by left|]. by apply continues_serves, continues_run. }
  assert (service_ok s1 (if c_ready_outstanding (sv_core s1) then Some r else None)) as Hok1.
  { apply (run_ok s _ None); [apply Hl|done..]. }
  pose proof (ready_call_post _ _ _ _ _ (ni_core _ (so_node _ _ (lv_ok _ Hl))) Hcall) as Hp.
  intros Hproc. exists (r_messages r). split; [right; by exists (sv_core s), c, r|].
  destruct (process_ready_serves s1 r res s') as (ready' & Hrun' & Hi & Ha); try done.
  - exact (cp_effects _ _ _ _ _ Hp eq_refl).
  - apply Hl.
  - apply Hl.
  - exists ready'. split; [by etrans|done].
Qed.

Lemma batch_pauses c c1 ms : pauses c c1 -> batch c1 ms -> batch c ms.
Proof.
  intros Hp [->|(c2 & c3 & r & Hp2 & Hc & ->)]; [by left|]. right. exists c2, c3, r.
  split; [by etrans|done].
Qed.

(** A call behind the guard. *)
Lemma guarded_spec s ready (k : tr_raft_service W V -> status * tr_raft_service W V) res s' :
  service_inv s ready ->
  (forall s1, live s1 -> unblocked (sv_runtime s1) -> drained s SALTS_OK s1 -> k s1 = (res, s') ->
   exists ms, batch (sv_core s1) ms /\ serves ms s1 None s') ->
  match tr_service_mutation_guard s with (SALTS_OK, s1) => k s1 | failure => failure end = (res, s') ->
  answers s ready s'.
Proof.
  intros Hi Hk. destruct (tr_service_mutation_guard s) as [res1 s1] eqn:Hg.
  apply (guard_spec _ ready) in Hg; [|done]. destruct res1 as [|error]; [|by intros [= <- <-]].
  destruct Hg as (-> & Hin & Hu). intros Hrun.
  destruct (Hk s1) as (ms & Hb & Hs); [apply Hin|done|apply Hin|done|].
  apply (let_in_answers _ s1 ms); [done| |done]. eapply batch_pauses; [apply Hin|done].
Qed.

(** The same for a call that is not one of the core. *)
Lemma quiet_serves s s' : serves [] s None s' -> exists ms, batch (sv_core s) ms /\ serves ms s None s'.
Proof. intros Hs. exists []. split; [by left|done]. Qed.

Lemma drained_log s res s' : drained s res s' -> c_log (sv_core s') = c_log (sv_core s).
Proof.
  intros [_ Hc _ _ _ _ _]. induction Hc as [|c c1 c2 (id & paused & result & Hp) _ IH]; [done|].
  rewrite IH. revert Hp. unfold tr_raft_core_set_peer_paused. repeat case_match; by intros [= <- <-].
Qed.

(** The receipts fault the service when the log is too short. *)
Lemma fault_inv s ready cause :
  service_inv s ready -> service_inv (snd (tr_service_fault s cause)) ready.
Proof.
  intros [Hok Hidle Hb]. split; cbn; [|done|done]. by apply (run_ok s _ ready).
Qed.

(** What a service is asked to do, and what is asked of the caller: messages
    and configurations of a valid form, and room for new indices. *)
Inductive service_call : tr_raft_service W V -> tr_raft_service W V -> Prop :=
| service_tick s tick res s' :
    log_last (c_log (sv_core s)) < UINT64_MAX -> tr_raft_service_tick s tick = (res, s') ->
    service_call s s'
| service_step s m res s' :
    message_ok m -> tr_raft_service_step s m = (res, s') -> service_call s s'
| service_propose s ps res s' :
    log_last (c_log (sv_core s)) + Z.of_nat (length ps) <= UINT64_MAX ->
    tr_raft_service_propose_batch s ps = (res, s') -> service_call s s'
| service_propose_receipts s ps capacity res s' receipts :
    log_last (c_log (sv_core s)) + Z.of_nat (length ps) <= UINT64_MAX ->
    tr_raft_service_propose_batch_with_receipts s ps capacity = (res, s', receipts) ->
    service_call s s'
| service_transfer s id res s' :
    tr_raft_service_transfer_leadership s id = (res, s') -> service_call s s'
| service_change s change res s' :
    log_last (c_log (sv_core s)) < UINT64_MAX -> change_ok change ->
    tr_raft_service_change_membership s change = (res, s') -> service_call s s'
| service_change_receipt s change res s' receipt :
    log_last (c_log (sv_core s)) < UINT64_MAX -> change_ok change ->
    tr_raft_service_change_membership_with_receipt s change = (res, s', receipt) ->
    service_call s s'
| service_read_index s id res s' : tr_raft_service_read_index s id = (res, s') -> service_call s s'
| service_take_read s res s' state :
    tr_raft_service_take_read_state s = (res, s', state) -> service_call s s'
| service_poll s res s' : tr_raft_service_poll s = (res, s') -> service_call s s'
| service_trigger s res s' : tr_raft_service_trigger_snapshot s = (res, s') -> service_call s s'
| service_completed s id index res s' :
    tr_raft_service_snapshot_completed s id index = (res, s') -> service_call s s'
| service_prepare_backup s res s' :
    tr_raft_service_prepare_backup s = (res, s') -> service_call s s'
| service_resume_backup s allocated storage res s' :
    storage_aside storage -> tr_raft_service_resume_backup allocated s storage = (res, s') ->
    service_call s s'.

Lemma tick_answers s ready tick res s' :
  service_inv s ready -> log_last (c_log (sv_core s)) < UINT64_MAX ->
  tr_raft_service_tick s tick = (res, s') -> answers s ready s'.
Proof.
  intros Hi Hroom. apply guarded_spec; [done|]. intros s1 Hl Hu Hd. cbv zeta.
  pose proof (add_ticks_kept (sv_world s1) (tick_elapsed_ticks tick)
    (ni_world _ (so_node _ _ (lv_ok _ Hl)))) as Hk.
  set (s2 := s1 <| sv_world := _ |>). intros Hrun.
  assert (continues [] s1 None s2) as Hc by (apply contexts_step; [done|apply Hk..]).
  apply call_core_spec in Hrun as (ms & Hb & Hs); [|apply Hc|done|].
  - exists ms. split; [done|]. by apply (continues_trans [] ms _ _ s2).
  - intros result c' r'. apply call_tick. cbn. by rewrite (drained_log _ _ _ Hd).
Qed.

Lemma propose_answers s ready ps res s' :
  service_inv s ready -> log_last (c_log (sv_core s)) + Z.of_nat (length ps) <= UINT64_MAX ->
  tr_raft_service_propose_batch s ps = (res, s') -> answers s ready s'.
Proof.
  intros Hi Hroom. unfold tr_raft_service_propose_batch.
  destruct (_ || _); [intros [= <- <-]; by apply answers_refl|]. apply guarded_spec; [done|].
  intros s1 Hl Hu Hd. apply call_core_spec; [done|done|].
  intros result c' r'. apply call_propose_batch. by rewrite (drained_log _ _ _ Hd).
Qed.

Lemma change_answers s ready change res s' :
  service_inv s ready -> log_last (c_log (sv_core s)) < UINT64_MAX -> change_ok change ->
  tr_raft_service_change_membership s change = (res, s') -> answers s ready s'.
Proof.
  intros Hi Hroom Hch. apply guarded_spec; [done|]. intros s1 Hl Hu Hd.
  apply call_core_spec; [done|done|].
  intros result c' r'. apply call_change_membership; [|done]. by rewrite (drained_log _ _ _ Hd).
Qed.

Lemma propose_receipts_answers s ready ps capacity res s' receipts :
  service_inv s ready -> log_last (c_log (sv_core s)) + Z.of_nat (length ps) <= UINT64_MAX ->
  tr_raft_service_propose_batch_with_receipts s ps capacity = (res, s', receipts) ->
  answers s ready s'.
Proof.
  intros Hi Hroom. unfold tr_raft_service_propose_batch_with_receipts.
  destruct (_ || _); [intros [= <- <- <-]; by apply answers_refl|].
  destruct (capacity <? _); [intros [= <- <- <-]; by apply answers_refl|].
  destruct (tr_raft_service_propose_batch s ps) as [res1 s1] eqn:E.
  apply (propose_answers _ ready) in E; [|done|done].
  destruct res1 as [|error]; [|by intros [= <- <- <-]].
  destruct (tr_raft_core_status (sv_core s1)) as [res2 status]. destruct (failed res2); [by intros [= <- <- <-]|].
  destruct (_ <? _); cycle 1.
  { destruct (Service.receipts _ _ _ _). by intros [= <- <- <-]. }
  intros [= <- <- <-]. destruct E as (ready' & Hrun & Hi' & _). exists ready'. split; [done|].
  split; [by apply (fault_inv s1 ready' SALTS_EPROTO)|done].
Qed.

Lemma read_index_answers s ready id res s' :
  service_inv s ready -> tr_raft_service_read_index s id = (res, s') -> answers s ready s'.
Proof.
  intros Hi. unfold tr_raft_service_read_index. destruct (id =? 0); [intros [= <- <-]; by apply answers_refl|].
  apply guarded_spec; [done|]. intros s1 Hl Hu Hd.
  pose proof (continues_refl s1 Hl) as Hc.
  pose proof (quiet_serves _ _ (continues_serves _ _ _ _ Hc)) as Hs.
  destruct (tr_service_completed_read_context_exists s1 id); [by intros [= <- <-]|].
  destruct (tr_raft_core_status (sv_core s1)) as [res2 status].
  destruct (failed res2); [intros Hf; apply quiet_serves; by eapply continues_fault|].
  destruct (_ <=? _); [by intros [= <- <-]|].
  apply call_core_spec; [done|done|]. intros result c' r'. apply call_read_index.
Qed.

Lemma take_read_answers s ready res s' state :
  service_inv s ready -> tr_raft_service_take_read_state s = (res, s', state) -> answers s ready s'.
Proof.
  intros Hi. unfold tr_raft_service_take_read_state.
  destruct (tr_service_mutation_guard s) as [res1 s1] eqn:Hg.
  apply (guard_spec _ ready) in Hg; [|done]. destruct res1 as [|error]; [|by intros [= <- <- <-]].
  destruct Hg as (-> & Hin & Hu). pose proof (li_live _ _ Hin) as Hl.
  assert (forall s2, serves [] s1 None s2 -> answers s None s2) as Hans
    by (intros s2; apply let_in_answers; [done|by left]).
  pose proof (continues_refl s1 Hl) as Hc. pose proof (continues_serves _ _ _ _ Hc) as Hs.
  destruct (tr_service_read_queue_empty s1) eqn:Hempty; [intros [= <- <- <-]; auto|].
  destruct (tr_raft_core_status (sv_core s1)) as [res2 status]. destruct (failed res2).
  { intros [= <- <- <-]. apply Hans. by eapply continues_fault. }
  destruct (_ <? _); [intros [= <- <- <-]; auto|]. intros [= <- <- <-].
  apply Hans, continues_serves. apply continues_same; try done. intros Hreads.
  apply pop_read_state_spec; [done|]. unfold tr_service_read_queue_empty in Hempty. lia.
Qed.

Lemma retry_result s result d :
  live s -> tr_raft_runtime_retry_apply (sv_runtime s) (sv_core s) (sv_world s) = (result, d) ->
  rtc run_step (node_of s None) (node_of (take_drive s d) None) /\
  service_ok (take_drive s d) None /\
  (result = SALTS_OK \/ result = SALTS_EBUSY -> rt_faulted (dr_runtime d) = false) /\
  adds [] (sv_world s) (dr_world d).
Proof.
  intros [[Hn Ho Hs Hp Et Em] Hf Hr Hb] Hrun.
  assert (rtc run_step (node_of s None) (node_of (take_drive s d) None)) as Hstep.
  { apply rtc_once. left. pose proof (node_retry (sv_runtime s) (sv_core s) (sv_world s) None _ _ Hrun) as Hd.
    unfold driven in Hd. by destruct (c_ready_outstanding (dr_core d)). }
  destruct (run_inv _ _ Hn Hstep) as [Hn' _]. split; [done|].
  pose proof (retry_spec _ _ _ _ _ _ Hn Hrun)
    as [Ec Ew Er Hres|mid d1 Hno Hbl [_ (_ & E2 & E3) _ Es _ _] Hc Hend Ec Ew Er].
  - split; [|split; [by intros [->| ->]; destruct Hres|apply adds_nothing; by rewrite Ew]].
    split; cbn; try done; destruct Er as [->|[_ ->]]; done.
  - cbn in E2, E3. split; [split; cbn; rewrite ?Er, ?E2, ?E3; done|]. split; cycle 1.
    { apply adds_nothing. intros p. rewrite Ew. exact (f_equal (fun f => f p) Es). }
    rewrite Er. intros Hres. destruct Hend as [_ E|error _ Href]; [by rewrite E|].
    destruct Hres as [|E]; [done|]. unfold refusal in Href. rewrite E, bool_decide_true in Href by done.
    cbn in Href. rewrite Hr in Href. apply Href.
Qed.

Lemma poll_answers s ready res s' :
  service_inv s ready -> tr_raft_service_poll s = (res, s') -> answers s ready s'.
Proof.
  intros Hi. unfold tr_raft_service_poll. destruct (service_open s) as [res1 s1] eqn:Hg.
  apply (opened_spec _ ready) in Hg; [|done]. destruct res1 as [|error]; [|by intros [= <- <-]].
  destruct Hg as (-> & Hin). pose proof (li_live _ _ Hin) as Hl. unfold tr_raft_runtime_apply_blocked.
  destruct (rt_apply_blocked (sv_runtime s1)) eqn:Hb; cycle 1.
  { intros Hrun. apply call_core_spec in Hrun as (ms & Hbatch & Hs); [|done|by split; [apply Hl|]|].
    - eapply let_in_answers; [done| |done]. eapply batch_pauses; [apply Hin|done].
    - intros result c' r'. apply call_poll. }
  assert (forall s2, serves [] s1 None s2 -> answers s None s2) as Hans
    by (intros s2; apply let_in_answers; [done|by left]).
  destruct (tr_raft_runtime_retry_apply _ _ _) as [result d] eqn:Hretry.
  destruct (retry_result _ _ _ Hl Hretry) as (Hrun & Hok & Hfault & Ha). cbv zeta.
  assert (rt_faulted (dr_runtime d) = false -> continues [] s1 None (take_drive s1 d)) as Hcont.
  { intros Hf. split; [done|]. split; [|done]. split; [done|apply Hl|done|apply Hl]. }
  case_bool_decide as Hbusy; [intros [= <- <-]; apply Hans, continues_serves; auto|].
  destruct result as [|error]; cbn [failed ok negb]; cycle 1.
  { intros Hf. destruct (fault_serves [] (take_drive s1 d) None (SALTS_ERR error)) as (ready' & Hr & Hi' & _);
      [done|apply Hl|]. injection Hf as <- <-. apply Hans. exists ready'. split; [by etrans|done]. }
  intros Hsnap. specialize (Hcont (Hfault (or_introl eq_refl))). apply Hans.
  eapply continues_then; [exact Hcont|]. by eapply snapshot_spec; [apply Hcont|].
Qed.

Lemma prepare_backup_answers s ready res s' :
  service_inv s ready -> tr_raft_service_prepare_backup s = (res, s') -> answers s ready s'.
Proof.
  intros Hi. apply guarded_spec; [done|]. intros s1 Hl Hu Hd Hrun. apply quiet_serves. revert Hrun.
  pose proof (continues_refl s1 Hl) as Hc. pose proof (continues_serves _ _ _ _ Hc) as Hs.
  destruct (_ || _); [by intros [= <- <-]|].
  destruct (tr_raft_core_status (sv_core s1)) as [res2 status].
  destruct (failed res2); [by apply continues_fault|]. destruct (st_ready_outstanding status); [by intros [= <- <-]|].
  intros [= <- <-]. exists None. split; [done|]. split; [|intros _; by apply adds_nothing].
  destruct Hl. split; cbn; [|done|done]. by apply (run_ok s1 _ None).
Qed.

Lemma resume_backup_answers s ready allocated storage res s' :
  service_inv s ready -> storage_aside storage ->
  tr_raft_service_resume_backup allocated s storage = (res, s') -> answers s ready s'.
Proof.
  intros Hi Hst. unfold tr_raft_service_resume_backup.
  destruct (negb (sv_backup_prepared s) || _) eqn:Hb; [intros [= <- <-]; by apply answers_refl|].
  apply orb_false_iff in Hb as [Hb%negb_false_iff _].
  destruct allocated; [|intros [= <- <-]; by apply answers_refl]. cbn.
  intros [= <- <-]. pose proof Hi as [Hok Hidle Hbk]. destruct (Hbk Hb) as [-> Hu].
  set (s1 := s <| sv_storage := storage |> <| sv_runtime := _ |> <| sv_backup_prepared := false |>).
  assert (rtc run_step (node_of s None) (node_of s1 None)) as Hrun.
  { apply rtc_once. right.
    apply (owner_runtime _ _ _ _
      (RuntimeConfig storage (service_transport (sv_transport s)) (sv_state_machine s))); [done| |done].
    split; [|done]. apply service_callbacks, Hok. }
  exists None. split; [done|]. destruct Hok as [Hn Ho Hs Hp Et Em].
  destruct (run_inv _ _ Hn Hrun) as [Hn' _]. split; [split; cbn; [by split|done|done]|].
  intros _. exists []. split; [by left|]. intros p _. by rewrite app_nil_r.
Qed.

Lemma call_answers s s' ready : service_inv s ready -> service_call s s' -> answers s ready s'.
Proof.
  intros Hi Hcall. destruct Hcall as [s tick res s' Hroom Hrun|s m res s' Hm Hrun|s ps res s' Hroom Hrun
    |s ps cap res s' rs Hroom Hrun|s id res s' Hrun|s ch res s' Hroom Hch Hrun
    |s ch res s' rc Hroom Hch Hrun|s id res s' Hrun|s res s' state Hrun|s res s' Hrun|s res s' Hrun
    |s id index res s' Hrun|s res s' Hrun|s a storage res s' Hst Hrun].
  - by eapply tick_answers.
  - revert Hrun. apply guarded_spec; [done|]. intros s1 Hl Hu Hd.
    apply call_core_spec; [done|done|]. intros result c' r'. by apply call_step.
  - by eapply propose_answers.
  - by eapply propose_receipts_answers.
  - revert Hrun. unfold tr_raft_service_transfer_leadership.
    destruct (id =? 0); [intros [= <- <-]; by apply answers_refl|]. apply guarded_spec; [done|].
    intros s1 Hl Hu Hd. apply call_core_spec; [done|done|].
    intros result c' r'. apply call_transfer_leadership.
  - by eapply change_answers.
  - revert Hrun. unfold tr_raft_service_change_membership_with_receipt.
    destruct (tr_raft_service_change_membership s ch) as [res1 s1] eqn:E.
    apply (change_answers _ ready) in E; [|done..]. destruct res1 as [|error]; [|by intros [= <- <- <-]].
    destruct (tr_raft_core_status (sv_core s1)) as [res2 status].
    destruct (failed res2); [by intros [= <- <- <-]|].
    destruct (tr_raft_core_operation_status _ _ _). by intros [= <- <- <-].
  - by eapply read_index_answers.
  - by eapply take_read_answers.
  - by eapply poll_answers.
  - revert Hrun. apply guarded_spec; [done|]. intros s1 Hl Hu Hd Hrun. apply quiet_serves.
    by eapply snapshot_spec.
  - revert Hrun. unfold tr_raft_service_snapshot_completed.
    destruct (_ || _); [intros [= <- <-]; by apply answers_refl|]. apply guarded_spec; [done|].
    intros s1 Hl Hu Hd. apply call_core_spec; [done|done|].
    intros result c' r'. apply call_snapshot_completed.
  - by eapply prepare_backup_answers.
  - by eapply resume_backup_answers.
Qed.

(** ** The lives of a service *)

(** What is asked of a configuration. *)
Record service_config_ok (config : tr_raft_service_config W V) : Prop := {
  sk_core : config_ok (sc_core config);
  sk_outer : outer_ok (sc_transport config) (sc_state_machine config);
  sk_storage : storage_aside (sc_storage config);
  sk_policy : policy_ok (sc_snapshot_policy config)
}.

(** A service, and what it was when it was created or last reloaded. *)
Inductive service_life : tr_raft_service W V -> tr_raft_service W V -> Prop :=
| life_create al config w s :
    service_config_ok config -> tr_raft_service_create al config w = (SALTS_OK, Some s) ->
    service_life s s
| life_call s0 s s' : service_life s0 s -> service_call s s' -> service_life s0 s'
| life_reload s0 s al cfg s' :
    service_life s0 s -> config_ok cfg -> tr_raft_service_reload al s cfg = (SALTS_OK, s') ->
    service_life s' s'
| life_reload_failed s0 s al cfg error s' :
    service_life s0 s -> tr_raft_service_reload al s cfg = (SALTS_ERR error, s') ->
    service_life s0 s'.

Lemma fresh_runtime (storage : tr_raft_storage W) transport (machine : tr_raft_state_machine W) rt :
  outer_ok transport machine -> storage_aside storage ->
  tr_service_runtime_create true storage transport machine = (SALTS_OK, Some rt) ->
  callbacks_of rt /\ rt_transport rt = service_transport transport /\ rt_state_machine rt = machine /\
  rt_faulted rt = false /\
  exists config, tr_raft_runtime_create config true = (SALTS_OK, Some rt).
Proof.
  intros Ho Hs [= <-]. split; [split; [by apply service_callbacks|done]|]. split_and!; [done..|].
  by exists (RuntimeConfig storage (service_transport transport) machine).
Qed.

Lemma runtime_create_allocated allocated storage transport machine rt :
  tr_service_runtime_create (V := V) allocated storage transport machine = (SALTS_OK, Some rt) ->
  allocated = true.
Proof. by destruct allocated. Qed.

Lemma core_create_some calloc_ok cfg : tr_raft_core_create (V := V) calloc_ok cfg <> (SALTS_OK, None).
Proof. unfold tr_raft_core_create. cbv zeta. repeat case_match; congruence. Qed.

(** A service with a new core and a new runtime. *)
Lemma fresh_inv s calloc_ok cfg :
  config_ok cfg -> tr_raft_core_create calloc_ok cfg = (SALTS_OK, Some (sv_core s)) ->
  tr_service_runtime_create true (sv_storage s) (sv_transport s) (sv_state_machine s) =
    (SALTS_OK, Some (sv_runtime s)) ->
  outer_ok (sv_transport s) (sv_state_machine s) -> storage_aside (sv_storage s) ->
  policy_ok (sv_snapshot_policy s) -> deliveries_ok (deliveries (sv_world s)) ->
  sv_backup_prepared s = false -> reads_ok s ->
  node_start (node_of s None) /\ service_inv s None.
Proof.
  intros Hcfg Hcore Hrt Ho Hs Hp Hok Hb Hreads.
  destruct (fresh_runtime _ _ _ _ Ho Hs Hrt) as (K & Et & Em & Hf & Hex).
  assert (node_start (node_of s None)) as Hstart by (split; eauto).
  split; [done|]. pose proof (start_inv _ Hstart). split; [by split|done|congruence].
Qed.

(** A ring without reads. *)
Lemma empty_reads size :
  1 <= size <= TR_RAFT_MAX_PENDING_READS ->
  ring_ok (replicate (Z.to_nat TR_RAFT_MAX_PENDING_READS) zero_read_state) size 0 0 /\
  size <= TR_RAFT_MAX_PENDING_READS.
Proof.
  intros Hs. split; [|lia]. split; [rewrite length_replicate|..]; unfold TR_RAFT_MAX_PENDING_READS in *; lia.
Qed.

Lemma max_reads calloc_ok cfg (c : tr_raft_core V) :
  config_ok cfg -> tr_raft_core_create calloc_ok cfg = (SALTS_OK, Some c) ->
  1 <= (if cfg_max_pending_reads cfg =? 0 then TR_RAFT_DEFAULT_MAX_PENDING_READS
        else cfg_max_pending_reads cfg) <= TR_RAFT_MAX_PENDING_READS.
Proof.
  intros Hok. unfold tr_raft_core_create. destruct (config_check cfg) eqn:Hc; [|done]. intros _.
  unfold config_check in Hc. rewrite !andb_true_iff in Hc. destruct Hc as [[[[[Hc _] _] _] _] _].
  unfold config_valid in Hc. rewrite negb_true_iff, !orb_false_iff in Hc. destruct Hc as [_ Hc].
  pose proof (co_reads _ Hok). destruct (Z.eqb_spec (cfg_max_pending_reads cfg) 0); [done|lia].
Qed.

Lemma create_fresh al config w s :
  service_config_ok config -> tr_raft_service_create al config w = (SALTS_OK, Some s) ->
  node_start (node_of s None) /\ service_inv s None.
Proof.
  intros [Hcfg Ho Hs Hp]. unfold tr_raft_service_create.
  destruct (tr_service_snapshot_policy_validate config); [|done].
  destruct (al_service al); cbn [negb]; [|done]. destruct (_ && negb _); [done|].
  destruct (tr_raft_core_create (al_core al) (sc_core config)) as [[|error] [core|]] eqn:Hcore;
    [|by intros [=]..].
  destruct (tr_service_runtime_create _ _ _ _) as [[|error] [rt|]] eqn:Hrt; [|by intros [=]..].
  pose proof (runtime_create_allocated _ _ _ _ _ Hrt) as E. rewrite E in Hrt.
  intros [= <-]. apply (fresh_inv _ (al_core al) (sc_core config)); try done.
  - cbn. rewrite deliveries_set. apply zero_deliveries_ok.
  - by eapply empty_reads, max_reads.
Qed.

Lemma reload_fresh al s ready cfg s' :
  service_inv s ready -> config_ok cfg -> tr_raft_service_reload al s cfg = (SALTS_OK, s') ->
  node_start (node_of s' None) /\ service_inv s' None.
Proof.
  intros [[Hn Ho Hs Hp Et Em Hreads] _ _] Hcfg. unfold tr_raft_service_reload.
  destruct (sv_backup_prepared s) eqn:Hb; [done|].
  destruct (tr_raft_core_status (sv_core s)) as [res status].
  destruct (failed res) eqn:Hf; [intros [= -> _]; done|]. destruct (_ && _); [done|].
  destruct (tr_raft_core_create (al_core al) cfg) as [[|error] [core|]] eqn:Hcore;
    [|by apply core_create_some in Hcore|by intros [=]..].
  destruct (tr_service_runtime_create _ _ _ _) as [[|error] [rt|]] eqn:Hrt;
    [|by destruct (al_runtime al)|by intros [=]..].
  pose proof (runtime_create_allocated _ _ _ _ _ Hrt) as E. rewrite E in Hrt.
  intros [= <-]. apply (fresh_inv _ (al_core al) cfg); try done.
  - cbn. rewrite (proj2 (clear_pending_ok _)). apply zero_deliveries_ok.
  - apply (empty_reads (sv_max_completed_reads s)). destruct Hreads as [[] ?]. lia.
Qed.

Lemma reload_failed_inv al s ready cfg error s' :
  service_inv s ready -> tr_raft_service_reload al s cfg = (SALTS_ERR error, s') ->
  node_of s' ready = node_of s ready /\ service_inv s' ready.
Proof.
  intros Hi. unfold tr_raft_service_reload.
  assert (forall cause res s', tr_service_fault s cause = (res, s') ->
    node_of s' ready = node_of s ready /\ service_inv s' ready) as Hfault.
  { intros cause res s1 [= <- <-]. split; [done|by apply (fault_inv s ready cause)]. }
  destruct (sv_backup_prepared s); [by intros [= <- <-]|].
  destruct (tr_raft_core_status (sv_core s)) as [res status].
  destruct (failed res); [by apply Hfault|]. destruct (_ && _); [by intros [= <- <-]|].
  destruct (tr_raft_core_create (al_core al) cfg) as [[|e] [core|]]; [|by apply Hfault..].
  destruct (tr_service_runtime_create _ _ _ _) as [[|e] [rt|]]; [by intros [=]|by apply Hfault..].
Qed.

Lemma life_inv s0 s :
  service_life s0 s ->
  node_start (node_of s0 None) /\ exists ready,
    rtc run_step (node_of s0 None) (node_of s ready) /\ service_inv s ready.
Proof.
  induction 1 as [al config w s Hcfg Hc|s0 s s' _ (Hst & ready & Hrun & Hi) Hcall
    |s0 s al cfg s' _ (_ & ready & _ & Hi) Hcfg Hr|s0 s al cfg error s' _ (Hst & ready & Hrun & Hi) Hr].
  - destruct (create_fresh _ _ _ _ Hcfg Hc) as [Hst Hi]. split; [done|]. by exists None.
  - split; [done|]. destruct (call_answers _ _ _ Hi Hcall) as (ready' & Hrun' & Hi' & _).
    exists ready'. split; [by etrans|done].
  - destruct (reload_fresh _ _ _ _ _ Hi Hcfg Hr) as [Hst Hi']. split; [done|]. by exists None.
  - split; [done|]. destruct (reload_failed_inv _ _ _ _ _ _ Hi Hr) as [En Hi'].
    exists ready. by rewrite En.
Qed.

(** C9. Over the life of a service since it was created or last reloaded, in
    any order of its calls and with any failures of the callbacks, the state
    machine of the owner has got the commands among the entries that the core
    has applied since: each entry once, in the order of the log, and each one
    the entry of the log where the log still has it. *)
Theorem service_applies_once s0 s :
  service_life s0 s ->
  exists es, out_applied (sv_world s) = out_applied (sv_world s0) ++ commands es /\
    c_applied_index (sv_core s) = c_applied_index (sv_core s0) + Z.of_nat (length es) /\
    c_applied_index (sv_core s) <= c_commit_index (sv_core s) /\
    forall k e, es !! k = Some e ->
      let i := c_applied_index (sv_core s0) + 1 + Z.of_nat k in
      entry_index e = i /\
      (log_base_index (c_log (sv_core s)) < i -> log_at (c_log (sv_core s)) i = Some e).
Proof.
  intros (Hst & ready & Hrun & _)%life_inv.
  destruct (run_inv _ _ (start_inv _ Hst) Hrun) as [_ (_ & Hi & es & [N I L] & Ha)].
  cbn in Hi, N, I, L, Ha. exists es. pose proof (proj1 Hi) as []. split_and!; [done|done|lia|].
  intros k e Hk. split; [by apply I|by apply L].
Qed.
End Service.
