(* ===== verification/ServiceTheorems.v ===== *)
(** * What a service promises

    The messages of a peer stay in order, completed reads are handed out in
    order and not before their index is applied, a service that is faulted or
    frozen for a backup changes nothing, and the log is compacted only after the
    snapshot is stored. *)

From S2P Require Import Prelude Configuration Vec Log CoreState CoreApi CoreFrame CoreInvariant.
From S2P Require Import CoreSafety CoreCalls CoreReach SnapshotSender Ring Runtime RuntimeApply.
From S2P Require Import RuntimeProcess Node Service ServiceDelivery ServiceDrain ServiceNode.
From Stdlib Require Import ZArith Lia.
From stdpp Require Import base numbers list tactics relations.
Open Scope Z_scope.
Open Scope raft_scope.

Section Service.
Context {W D V : Type} `{StagingLaws W D} `{VecLaws V}.
Implicit Types (s : tr_raft_service W V) (w : W) (c : tr_raft_core V) (r : tr_raft_ready).


(** ** Completed reads *)

Lemma life_reads s0 s : service_life s0 s -> reads_ok s.
Proof. intros (_ & ready & _ & Hi)%life_inv. apply Hi. Qed.

Lemma enqueue_reads_fifo s r res s' :
  reads_ok s -> tr_service_enqueue_read_states s r = (res, s') ->
  if ok res then completed s' = completed s ++ r_read_states r
  else s' = s /\ sv_max_completed_reads s <
         Z.of_nat (length (completed s)) + Z.of_nat (length (r_read_states r)).
Proof.
  intros Hreads. pose proof Hreads as [[] Hmax]. unfold TR_RAFT_MAX_PENDING_READS in Hmax.
  unfold tr_service_enqueue_read_states.
  destruct (Z.eqb_spec (Z.of_nat (length (r_read_states r))) 0) as [E|].
  { intros [= <- <-]. cbn. apply (f_equal Z.to_nat) in E. rewrite Nat2Z.id in E.
    apply length_zero_iff_nil in E. by rewrite E, app_nil_r. }
  word_simpl. destruct (Z.ltb_spec (sv_max_completed_reads s - sv_read_state_count s)
    (Z.of_nat (length (r_read_states r)))).
  - intros [= <- <-]. cbn. split; [done|]. unfold completed. rewrite length_ring_items. lia.
  - intros [= <- <-]. apply push_read_states_spec; [done|lia].
Qed.

Lemma take_read_fifo s ready s' state :
  service_inv s ready -> tr_raft_service_take_read_state s = (SALTS_OK, s', Some state) ->
  completed s = state :: completed s' /\ rs_index state <= c_applied_index (sv_core s').
Proof.
  intros Hi. unfold tr_raft_service_take_read_state.
  destruct (tr_service_mutation_guard s) as [res1 s1] eqn:Hg.
  apply (guard_spec _ ready) in Hg; [|done]. destruct res1 as [|error]; [|done].
  destruct Hg as (-> & Hin & _). destruct (tr_service_read_queue_empty s1) eqn:He; [done|].
  destruct (tr_raft_core_status (sv_core s1)) as [res2 status] eqn:Est. destruct (failed res2); [done|].
  destruct (_ <? _) eqn:Hlt; [done|]. intros [= <- <-]. injection Est as _ <-. cbn in Hlt.
  pose proof (dn_holdings _ _ _ (li_drained _ _ Hin)) as Hh.
  assert (completed s = completed s1) as -> by (unfold completed; by injection Hh as _ _ _ _ _ _ _ _ _ _ -> -> -> ->).
  split; [|cbn; lia]. apply pop_read_state_spec; [apply Hin|].
  unfold tr_service_read_queue_empty in He. lia.
Qed.

(** C28. The completed reads of a service are a queue: those of a ready are
    appended in order when there is room for all of them, and nothing changes
    otherwise; a read that is taken is the oldest one, and the core has applied
    the index it waited for. *)
Theorem completed_reads_fifo s0 s :
  service_life s0 s ->
  (forall r res s', tr_service_enqueue_read_states s r = (res, s') ->
   if ok res then completed s' = completed s ++ r_read_states r
   else s' = s /\ sv_max_completed_reads s <
          Z.of_nat (length (completed s)) + Z.of_nat (length (r_read_states r))) /\
  (forall s' state, tr_raft_service_take_read_state s = (SALTS_OK, s', Some state) ->
   completed s = state :: completed s' /\ rs_index state <= c_applied_index (sv_core s')).
Proof.
  intros Hlife. pose proof Hlife as (_ & ready & _ & Hi)%life_inv. split.
  - intros r res s'. apply enqueue_reads_fifo. apply Hi.
  - intros s' state. by apply (take_read_fifo _ ready).
Qed.

(** ** Faults and backups *)

Lemma closed_guard s :
  sv_faulted s || sv_backup_prepared s = true ->
  exists error, service_open s = (SALTS_ERR error, s) /\
    tr_service_mutation_guard s = (SALTS_ERR error, s).
Proof.
  intros Hc. unfold tr_service_mutation_guard, service_open.
  destruct (sv_faulted s); [by eexists|]. cbn in Hc. rewrite Hc. by eexists.
Qed.

(** What a call may change of a service that is faulted or frozen. *)
Definition untouched s s' : Prop :=
  sv_core s' = sv_core s /\ sv_world s' = sv_world s /\ completed s' = completed s /\
  sv_faulted s' = sv_faulted s.

(** C29. Until a service that is faulted is reloaded, and until one that is
    frozen for a backup is resumed, no call changes its core, the contexts of
    its callbacks, what is staged for its peers or its completed reads. *)
Theorem closed_service_frozen s s' :
  service_call s s' -> sv_faulted s || sv_backup_prepared s = true ->
  sv_core s' = sv_core s /\ sv_world s' = sv_world s /\ completed s' = completed s /\
  sv_faulted s' = sv_faulted s.
Proof.
  change (service_call s s' -> sv_faulted s || sv_backup_prepared s = true -> untouched s s').
  intros Hcall Hc. destruct (closed_guard s Hc) as (error & Ho & Hg).
  destruct Hcall as [s tick res s' _ Hrun|s m res s' _ Hrun|s ps res s' _ Hrun
    |s ps cap res s' rs _ Hrun|s id res s' Hrun|s ch res s' _ _ Hrun
    |s ch res s' rc _ _ Hrun|s id res s' Hrun|s res s' state Hrun|s res s' Hrun|s res s' Hrun
    |s id index res s' Hrun|s res s' Hrun|s a storage res s' _ Hrun]; revert Hrun.
  - unfold tr_raft_service_tick. rewrite Hg. by intros [= <- <-].
  - unfold tr_raft_service_step. rewrite Hg. by intros [= <- <-].
  - unfold tr_raft_service_propose_batch. rewrite Hg. case_match; by intros [= <- <-].
  - unfold tr_raft_service_propose_batch_with_receipts, tr_raft_service_propose_batch. rewrite Hg.
    case_match; [by intros [= <- <- <-]|]. case_match; by intros [= <- <- <-].
  - unfold tr_raft_service_transfer_leadership. rewrite Hg. case_match; by intros [= <- <-].
  - unfold tr_raft_service_change_membership. rewrite Hg. by intros [= <- <-].
  - unfold tr_raft_service_change_membership_with_receipt, tr_raft_service_change_membership.
    rewrite Hg. by intros [= <- <- <-].
  - unfold tr_raft_service_read_index. rewrite Hg. case_match; by intros [= <- <-].
  - unfold tr_raft_service_take_read_state. rewrite Hg. by intros [= <- <- <-].
  - unfold tr_raft_service_poll. rewrite Ho. by intros [= <- <-].
  - unfold tr_raft_service_trigger_snapshot. rewrite Hg. by intros [= <- <-].
  - unfold tr_raft_service_snapshot_completed. rewrite Hg. case_match; by intros [= <- <-].
  - unfold tr_raft_service_prepare_backup. rewrite Hg. by intros [= <- <-].
  - unfold tr_raft_service_resume_backup. case_match; [by intros [= <- <-]|].
    destruct (tr_service_runtime_create _ _ _ _) as [[] []]; by intros [= <- <-].
Qed.
(** ** Snapshots *)

(** The callback that stores snapshots has accepted the one at [point]. *)
Definition store_accepted (policy : tr_raft_snapshot_policy W) (point : tr_raft_snapshot_point) : Prop :=
  (exists store w source w',
     py_source_store policy = Some store /\
     store w (sp_index point) (sp_term point) (sp_configuration point) source = (w', SALTS_OK)) \/
  (exists store w buffer size w',
     py_store policy = Some store /\ size <= py_max_buffered_snapshot_bytes policy /\
     store w (sp_index point) (sp_term point) (sp_configuration point) buffer size = (w', SALTS_OK)).

(** The journal, where there is one, has been compacted up to [point]. *)
Definition journal_compacted (policy : tr_raft_snapshot_policy W) (point : tr_raft_snapshot_point) : Prop :=
  forall journal_compact, py_journal_compact policy = Some journal_compact ->
  exists w w', journal_compact w (sp_index point) (sp_term point) = (w', SALTS_OK).

(** What compacting at a point that is stored may do to a service: nothing,
    keep the point for a retry, or compact the log of the core there. *)
Definition compacts s (point : tr_raft_snapshot_point) s' : Prop :=
  (sv_core s' = sv_core s /\ sv_journal_compaction_pending s' = true /\ sv_pending_snapshot s' = point) \/
  (journal_compacted (sv_snapshot_policy s) point /\
   sv_core s' = snd (tr_raft_core_compact (sv_core s) point) /\
   (sv_faulted s' = true \/ sv_journal_compaction_pending s' = false)).

Lemma finish_compacts s res s' :
  sv_journal_compaction_pending s = true ->
  tr_service_finish_journal_compaction s = (res, s') -> compacts s (sv_pending_snapshot s) s'.
Proof.
  intros Hp. unfold tr_service_finish_journal_compaction.
  destruct (py_journal_compact (sv_snapshot_policy s)) as [f|] eqn:Ef; [|intros [= <- <-]; by left].
  destruct (f _ _ _) as [w result] eqn:E.
  assert (result = SALTS_OK -> journal_compacted (sv_snapshot_policy s) (sv_pending_snapshot s)) as Hj.
  { intros ->. intros g Hg. rewrite Ef in Hg. injection Hg as <-. by eexists _, _. }
  unfold compact_core. cbn.
  destruct (tr_raft_core_compact (sv_core s) (sv_pending_snapshot s)) as [result2 c] eqn:Ec.
  destruct result as [|error].
  - destruct result2 as [|error2]; intros [= <- <-]; right; rewrite Ec; eauto.
  - destruct error; intros [= <- <-]; by left.
Qed.

Lemma stored_compacts s point res s' :
  sv_journal_compaction_pending s = false ->
  compact_stored s point = (res, s') -> compacts s point s'.
Proof.
  intros Hp. unfold compact_stored. destruct (py_journal_compact (sv_snapshot_policy s)) as [f|] eqn:Ef; cbn.
  - intros Hrun%finish_compacts; [|done]. exact Hrun.
  - assert (journal_compacted (sv_snapshot_policy s) point) as Hj by (intros g; by rewrite Ef).
    unfold compact_core. destruct (tr_raft_core_compact (sv_core s) point) as [result c] eqn:Ec.
    destruct result as [|error]; intros [= <- <-]; right; rewrite Ec; eauto.
Qed.

(** What the service keeps while a snapshot is created and stored. *)
Definition same_policy s s' : Prop :=
  sv_core s' = sv_core s /\ sv_snapshot_policy s' = sv_snapshot_policy s /\
  sv_journal_compaction_pending s' = sv_journal_compaction_pending s /\
  sv_pending_snapshot s' = sv_pending_snapshot s.

Lemma stream_stores s point res s' :
  stream_snapshot s point = (res, s') ->
  same_policy s s' /\ (res = SALTS_OK -> store_accepted (sv_snapshot_policy s) point).
Proof.
  unfold stream_snapshot.
  destruct (py_source_create (sv_snapshot_policy s)) as [create|]; [|by intros [= <- <-]].
  destruct (py_source_store (sv_snapshot_policy s)) as [store|] eqn:Es; [|by intros [= <- <-]].
  destruct (create _ _) as [[w result] source].
  destruct result as [|error]; [|by intros [= <- <-]].
  destruct (is_null _ || _); [by intros [= <- <-]|].
  destruct (store _ _ _ _ _) as [w2 result2] eqn:E2.
  destruct result2 as [|error2]; intros [= <- <-]; [|done].
  split; [done|]. intros _. left. by eexists _, _, _, _.
Qed.

Lemma buffer_stores s point res s' :
  buffer_snapshot s point = (res, s') ->
  same_policy s s' /\ (res = SALTS_OK -> store_accepted (sv_snapshot_policy s) point).
Proof.
  unfold buffer_snapshot.
  destruct (py_create (sv_snapshot_policy s)) as [create|]; [|by intros [= <- <-]].
  destruct (py_store (sv_snapshot_policy s)) as [store|] eqn:Es; [|by intros [= <- <-]].
  destruct (create _ _ _) as [[[w result] buffer] size]. cbv zeta.
  destruct result as [|error]; [|by intros [= <- <-]]. cbn -[Z.ltb].
  destruct (Z.ltb_spec (py_max_buffered_snapshot_bytes (sv_snapshot_policy s)) size); [by intros [= <- <-]|].
  destruct (store _ _ _ _ _ _) as [w2 result2] eqn:E2.
  destruct result2 as [|error2]; intros [= <- <-]; [|done].
  split; [done|]. intros _. right. by eexists _, _, _, _, _.
Qed.

(** C27. The service compacts the log of its core only at the point of a
    snapshot that the store callback has accepted for exactly that index, term
    and configuration, and only after the journal, where there is one, has been
    compacted up to it. A snapshot that is stored but whose journal is not yet
    compacted is kept for the next attempt, which uses the same point. *)
Theorem compaction_after_store s force res s' :
  tr_service_snapshot s force = (res, s') ->
  (sv_core s' = sv_core s /\
   sv_journal_compaction_pending s' = sv_journal_compaction_pending s /\
   sv_pending_snapshot s' = sv_pending_snapshot s) \/
  exists point,
    (if sv_journal_compaction_pending s then point = sv_pending_snapshot s
     else tr_raft_core_snapshot_point (sv_core s) = (SALTS_OK, Some point) /\
          store_accepted (sv_snapshot_policy s) point) /\
    ((sv_core s' = sv_core s /\ sv_journal_compaction_pending s' = true /\
      sv_pending_snapshot s' = point) \/
     (journal_compacted (sv_snapshot_policy s) point /\
      sv_core s' = snd (tr_raft_core_compact (sv_core s) point) /\
      (sv_faulted s' = true \/ sv_journal_compaction_pending s' = false))).
Proof.
  unfold tr_service_snapshot. destruct (_ =? 0); [intros [= <- <-]; by left|].
  destruct (sv_journal_compaction_pending s) eqn:Hp.
  { intros Hrun. right. eexists. split; [done|]. by apply (finish_compacts _ res). }
  destruct (tr_raft_core_status (sv_core s)) as [result status].
  destruct (failed result); [intros [= <- <-]; by left|].
  destruct (_ =? _); [intros [= <- <-]; by left|].
  destruct (negb force && _); [intros [= <- <-]; by left|].
  destruct (tr_raft_core_snapshot_point (sv_core s)) as [result2 [point|]] eqn:Epoint;
    (destruct result2; [|intros [= <- <-]; by left]); [|intros [= <- <-]; by left].
  destruct (if negb _ then _ else _) as [result3 s3] eqn:E3.
  assert (same_policy s s3 /\ (result3 = SALTS_OK -> store_accepted (sv_snapshot_policy s) point))
    as ((Hc & Hy & Hp3 & Hs3) & Hst).
  { destruct (negb _); [by apply stream_stores|by apply buffer_stores]. }
  destruct result3 as [|error3]; [|intros [= <- <-]; left; by rewrite Hc, Hp3, Hp].
  intros Hrun%stored_compacts; [|by rewrite Hp3]. right. exists point. split; [auto|].
  unfold compacts in Hrun. by rewrite Hc, Hy in Hrun.
Qed.

(** ** Snapshots that fault the service *)

Lemma compact_elsewhere c (point : tr_raft_snapshot_point) :
  c_applied_index c <> sp_index point ->
  exists error, tr_raft_core_compact c point = (SALTS_ERR error, c).
Proof.
  intros Hne. unfold tr_raft_core_compact.
  destruct (tr_raft_core_snapshot_point c) as [[|error] [current|]] eqn:E; [| |eauto..].
  - exists EPROTO. replace (sp_index point =? sp_index current) with false; [done|].
    symmetry. apply Z.eqb_neq. intros Eq. apply Hne. rewrite Eq. revert E.
    unfold tr_raft_core_snapshot_point. repeat case_match; by intros [= <-].
  - revert E. unfold tr_raft_core_snapshot_point. repeat case_match; by intros [=].
Qed.

(** C40. A retry of a journal compaction that succeeds faults the service when
    the core has applied an entry since the snapshot was stored: the core
    compacts its log only at the index it has applied. A reload keeps the point
    that waits for the retry, so that the service that was reloaded faults in
    the same way. *)
Theorem journal_retry_faults s journal_compact w :
  py_applied_entry_threshold (sv_snapshot_policy s) <> 0 ->
  sv_journal_compaction_pending s = true ->
  py_journal_compact (sv_snapshot_policy s) = Some journal_compact ->
  journal_compact (sv_world s) (sp_index (sv_pending_snapshot s)) (sp_term (sv_pending_snapshot s)) =
    (w, SALTS_OK) ->
  c_applied_index (sv_core s) <> sp_index (sv_pending_snapshot s) ->
  (forall force, exists error s', tr_service_snapshot s force = (SALTS_ERR error, s') /\
    sv_faulted s' = true /\ sv_core s' = sv_core s) /\
  (forall al cfg s', tr_raft_service_reload al s cfg = (SALTS_OK, s') ->
    sv_journal_compaction_pending s' = true /\ sv_pending_snapshot s' = sv_pending_snapshot s).
Proof.
  intros Ht Hp Hj Hw Hne. split.
  - intros force. unfold tr_service_snapshot. replace (_ =? 0) with false by blia. rewrite Hp.
    unfold tr_service_finish_journal_compaction, compact_core. rewrite Hj, Hw. cbn.
    destruct (compact_elsewhere _ _ Hne) as [error ->]. by eexists _, _.
  - intros al cfg s'. unfold tr_raft_service_reload.
    destruct (sv_backup_prepared s); [done|].
    destruct (tr_raft_core_status (sv_core s)) as [[|error] status]; cbn [failed]; [|done].
    destruct (_ && _); [done|].
    destruct (tr_raft_core_create _ _) as [[|error] [core|]] eqn:Ec;
      [|by apply core_create_some in Ec|by intros [=]..].
    destruct (tr_service_runtime_create _ _ _ _) as [[|error] [rt|]]; by intros [= <-].
Qed.

(** A snapshot that is asked for while the core has committed entries that
    are not applied, as after a start from a log, faults the service, although
    nothing has failed. *)
Theorem early_snapshot_faults s :
  py_applied_entry_threshold (sv_snapshot_policy s) <> 0 ->
  sv_journal_compaction_pending s = false ->
  log_base_index (c_log (sv_core s)) <> c_applied_index (sv_core s) ->
  c_applied_index (sv_core s) <> c_commit_index (sv_core s) ->
  exists s', tr_service_snapshot s true = (SALTS_EBUSY, s') /\ sv_faulted s' = true /\
    sv_cause s' = SALTS_EBUSY.
Proof.
  intros Ht Hp Hb Hc. unfold tr_service_snapshot. replace (_ =? 0) with false by blia. rewrite Hp.
  unfold tr_raft_core_status. cbn -[Z.eqb]. replace (_ =? _) with false by blia. cbn -[Z.eqb].
  unfold tr_raft_core_snapshot_point. replace (c_applied_index _ =? c_commit_index _) with false by blia.
  rewrite !orb_true_r. by eexists.
Qed.
End Service.
