(* ===== verification/ServiceExamples.v ===== *)
(** * A service at work

    Two services over callbacks that keep what they are given. One is alone,
    takes a snapshot after every command, and has a journal whose compaction
    fails at first. The other has two peers, and a transport that has no room at
    first. *)

From S2P Require Import Prelude Configuration Vec Log CoreState CoreApi CoreFrame CoreInvariant.
From S2P Require Import CoreReach Cluster CoreTraces SnapshotSender Ring Runtime RuntimeApply.
From S2P Require Import RuntimeProcess Node NodeExamples Service ServiceDelivery ServiceDrain.
From S2P Require Import ServiceNode ServiceTheorems.
From Stdlib Require Import ZArith Lia.
From stdpp Require Import base numbers list tactics relations.
Open Scope Z_scope.
Open Scope raft_scope.

(** ** The callbacks *)

(** A transport that refuses [dt_full] messages, and a journal that fails
    [dt_failures] times. *)
Record desk := Desk {
  dt_applied : list tr_raft_entry;
  dt_sent : Z -> list tr_raft_message;
  dt_commits : nat;
  dt_snapshots : list (Z * Z);
  dt_full : nat;
  dt_failures : nat;
  dt_deliveries : list tr_raft_service_peer_delivery
}.

Definition eta_desk (w : desk) : desk :=
  Desk (dt_applied w) (dt_sent w) (dt_commits w) (dt_snapshots w) (dt_full w) (dt_failures w)
    (dt_deliveries w).

#[export] Instance set_dt_applied : Setter dt_applied := ltac:(setter eta_desk dt_applied).
#[export] Instance set_dt_sent : Setter dt_sent := ltac:(setter eta_desk dt_sent).
#[export] Instance set_dt_commits : Setter dt_commits := ltac:(setter eta_desk dt_commits).
#[export] Instance set_dt_snapshots : Setter dt_snapshots := ltac:(setter eta_desk dt_snapshots).
#[export] Instance set_dt_full : Setter dt_full := ltac:(setter eta_desk dt_full).
#[export] Instance set_dt_failures : Setter dt_failures := ltac:(setter eta_desk dt_failures).
#[export] Instance set_dt_deliveries : Setter dt_deliveries := ltac:(setter eta_desk dt_deliveries).

#[export] Instance desk_staging : Staging desk := {|
  deliveries := dt_deliveries;
  set_deliveries ds w := w <| dt_deliveries := ds |>;
  stage_allocate w := (w, true);
  stage_deallocate w := w
|}.

#[export] Instance desk_outside : Outside desk nat := {|
  out_applied := dt_applied; out_sent := dt_sent; out_disk := dt_commits
|}.

#[export] Instance desk_laws : StagingLaws desk nat.
Proof. by split. Qed.

Definition desk_apply (w : desk) (es : list tr_raft_entry) : desk * status :=
  (w <| dt_applied := dt_applied w ++ es |>, SALTS_OK).

Definition desk_enqueue (w : desk) (c : tr_raft_core list_vec) (m : tr_raft_message)
    : desk * tr_raft_core list_vec * status :=
  match dt_full w with
  | S n => (w <| dt_full := n |>, c, SALTS_ENOSPC)
  | O => (w <| dt_sent := hand m (dt_sent w) |>, c, SALTS_OK)
  end.

Definition desk_store (w : desk) (index term : Z) (conf : tr_raft_conf) (b : list Z) (n : Z)
    : desk * status := (w <| dt_snapshots := (index, term) :: dt_snapshots w |>, SALTS_OK).

Definition desk_journal (w : desk) (index term : Z) : desk * status :=
  match dt_failures w with
  | S n => (w <| dt_failures := n |>, SALTS_EIO)
  | O => (w, SALTS_OK)
  end.

Definition desk_storage : tr_raft_storage desk :=
  StorageCalls (Some (fun w => (w, SALTS_OK))) (Some (fun w _ _ => (w, SALTS_OK)))
    (Some (fun w _ => (w, SALTS_OK))) (Some (fun w _ => (w, SALTS_OK)))
    (Some (fun w _ => (w, SALTS_OK)))
    (Some (fun w => (w <| dt_commits := S (dt_commits w) |>, SALTS_OK)))
    (Some (fun w => (w, SALTS_OK))).

Definition desk_policy : tr_raft_snapshot_policy desk :=
  SnapshotPolicy 1 8 8 None false None false
    (Some (fun w _ b => (w, SALTS_OK, b, 4))) true (Some desk_store) true
    (Some desk_journal) true.

Definition desk_config (core : tr_raft_core_config) : tr_raft_service_config desk list_vec :=
  ServiceConfig core desk_storage
    (TransportCalls (Some desk_enqueue) (Some (fun w c _ => (w, c, SALTS_OK))))
    (StateMachine (Some desk_apply)) desk_policy.

Lemma desk_config_ok core : config_ok core -> service_config_ok (desk_config core).
Proof.
  intros Hcfg. split; [done|..].
  - split; cbn.
    + intros f w es w' res [= <-] [= <- <-]. done.
    + intros f w c m w' c' res [= <-]. unfold desk_enqueue.
      destruct (dt_full w); by intros [= <- <- <-].
    + intros f w c q w' c' res [= <-] [= <- <- <-]. done.
  - split; cbn; intros; simplify_eq; done.
  - split; cbn; intros; simplify_eq; try done. unfold desk_journal. by destruct (dt_failures w).
Qed.

(** ** The runs *)

Lemma pair_fst {A B} (x : A * B) a : fst x = a -> x = (a, snd x).
Proof. by intros <-; destruct x. Qed.

Abbreviation desk_service := (tr_raft_service desk list_vec).

Definition empty_desk (full failures : nat) : desk := Desk [] (fun _ => []) 0 [] full failures [].

Definition plenty : allocations := Allocations true true true true.

Definition new_service (core : tr_raft_core_config) (w : desk) : status * option desk_service :=
  tr_raft_service_create plenty (desk_config core) w.

Definition blank_service : desk_service :=
  Service core_zero
    (RuntimeState desk_storage (TransportCalls None None) (StateMachine None) [] 0 false false)
    desk_storage (TransportCalls None None) (StateMachine None) desk_policy [] zero_point false
    false blank_result [] 0 0 0 false SALTS_OK (empty_desk 0 0).

Definition get_service (x : status * option desk_service) : desk_service :=
  default blank_service (snd x).

Lemma new_service_life core w :
  config_ok core ->
  fst (new_service core w) = SALTS_OK /\ is_null (snd (new_service core w)) = false ->
  service_life (get_service (new_service core w)) (get_service (new_service core w)).
Proof.
  intros Hcfg. unfold get_service. destruct (new_service core w) as [res [s|]] eqn:Hrun; cbn; [|by intros []].
  intros [-> _]. apply (life_create plenty (desk_config core) w); [by apply desk_config_ok|done].
Qed.

Lemma tick_life (s0 s : desk_service) tick :
  service_life s0 s -> log_last (c_log (sv_core s)) < UINT64_MAX ->
  service_life s0 (snd (tr_raft_service_tick s tick)).
Proof. intros Hl Hroom. eapply life_call, service_tick, surjective_pairing; done. Qed.

Lemma propose_life (s0 s : desk_service) ps :
  service_life s0 s -> log_last (c_log (sv_core s)) + Z.of_nat (length ps) <= UINT64_MAX ->
  service_life s0 (snd (tr_raft_service_propose_batch s ps)).
Proof. intros Hl Hroom. eapply life_call, service_propose, surjective_pairing; done. Qed.

Lemma read_life (s0 s : desk_service) id :
  service_life s0 s -> service_life s0 (snd (tr_raft_service_read_index s id)).
Proof. intros Hl. eapply life_call, service_read_index, surjective_pairing; done. Qed.

(** *** Alone *)

Definition solo : desk_service := get_service (new_service (example_config [1] 1) (empty_desk 0 1)).
Definition solo_elected : desk_service := snd (tr_raft_service_tick solo (Tick 11 15)).
(** The snapshot is stored and the journal fails. *)
Definition solo_stored : desk_service := snd (tr_raft_service_propose_batch solo_elected [proposal]).
(** The next command is applied, and the compaction is tried again. *)
Definition solo_retried : desk_service := snd (tr_raft_service_propose_batch solo_stored [proposal]).
(** Without another command, the next attempt succeeds. *)
Definition solo_polled : desk_service := snd (tr_raft_service_poll solo_stored).

Lemma solo_elected_life : service_life solo solo_elected.
Proof.
  apply tick_life; [|by vm_compute]. unfold solo. apply new_service_life; [|by vm_compute].
  apply example_config_ok; [done|by repeat constructor].
Qed.

Lemma solo_stored_life : service_life solo solo_stored.
Proof. apply propose_life; [apply solo_elected_life|by vm_compute]. Qed.

Lemma solo_retried_life : service_life solo solo_retried.
Proof. apply propose_life; [apply solo_stored_life|by vm_compute]. Qed.

Lemma service_applies_once_witness :
  exists es, out_applied (sv_world solo_retried) = commands es /\ length es = 2%nat.
Proof.
  destruct (service_applies_once solo solo_retried solo_retried_life) as (es & Ha & Hn & _).
  exists es. split; [exact Ha|].
  assert (c_applied_index (sv_core solo_retried) = 2) as E1 by by vm_compute.
  assert (c_applied_index (sv_core solo) = 0) as E2 by by vm_compute. lia.
Defined.

Lemma compaction_after_store_witness :
  dt_snapshots (sv_world solo_polled) = [(1, 1)] /\
  log_base_index (c_log (sv_core solo_polled)) = 1 /\
  exists point, point = sv_pending_snapshot solo_stored /\
    sv_core (snd (tr_service_snapshot solo_stored false)) =
      snd (tr_raft_core_compact (sv_core solo_stored) point).
Proof.
  split; [by vm_compute|]. split; [by vm_compute|].
  destruct (compaction_after_store solo_stored false (fst (tr_service_snapshot solo_stored false))
    (snd (tr_service_snapshot solo_stored false)) (surjective_pairing _))
    as [(_ & Hp & _)|(point & Hpoint & [(_ & Hp & _)|(_ & Hc & _)])].
  - exfalso. revert Hp. by vm_compute.
  - exfalso. clear Hpoint. revert Hp. by vm_compute.
  - exists point. split; [|exact Hc].
    assert (sv_journal_compaction_pending solo_stored = true) as E by by vm_compute.
    rewrite E in Hpoint. exact Hpoint.
Defined.

(** What a restart reads back: the snapshot at index 1 and the entry after it. *)
Definition recovery (base commit applied : Z) (es : list tr_raft_entry) : tr_raft_core_config :=
  CoreConfig 1 (Some [1]) 1 None 0 None 2 10 20 11 1 1 base (if base =? 0 then 0 else 1)
    (Some es) (Z.of_nat (length es)) commit applied 64 0 0.

Definition solo_reloaded : status * desk_service :=
  tr_raft_service_reload plenty solo_retried (recovery 1 2 2 [Entry 2 1 5 0 []]).

Lemma journal_retry_faults_witness :
  fst (tr_raft_service_propose_batch solo_stored [proposal]) = SALTS_EPROTO /\
  sv_faulted solo_retried = true /\ sv_faulted solo_polled = false /\
  sv_faulted (snd (tr_raft_service_poll (snd solo_reloaded))) = true /\
  sv_journal_compaction_pending (snd solo_reloaded) = true.
Proof.
  split; [by vm_compute|]. split; [by vm_compute|]. split; [by vm_compute|].
  split; [by vm_compute|].
  destruct (journal_retry_faults solo_retried desk_journal (sv_world solo_retried)) as [_ Hreload];
    [by vm_compute..|].
  destruct (Hreload plenty (recovery 1 2 2 [Entry 2 1 5 0 []]) (snd solo_reloaded))
    as [Hp _]; [|exact Hp].
  unfold solo_reloaded. apply pair_fst. by vm_compute.
Defined.

(** *** Reads *)

(** The read waits for the index that is committed, which is applied. *)
Definition solo_read : desk_service := snd (tr_raft_service_read_index solo_polled 7).

Lemma solo_read_life : service_life solo solo_read.
Proof.
  apply read_life. eapply life_call, service_poll, surjective_pairing. apply solo_stored_life.
Qed.

Lemma completed_reads_fifo_witness :
  completed solo_read = [ReadState 7 1] /\
  exists s : desk_service, completed solo_read = ReadState 7 1 :: completed s /\ c_applied_index (sv_core s) = 1.
Proof.
  split; [by vm_compute|].
  destruct (completed_reads_fifo solo solo_read solo_read_life) as [_ Htake].
  exists (snd (fst (tr_raft_service_take_read_state solo_read))). split; [|by vm_compute].
  apply Htake. assert (fst (fst (tr_raft_service_take_read_state solo_read)) = SALTS_OK) as E1 by by vm_compute.
  assert (snd (tr_raft_service_take_read_state solo_read) = Some (ReadState 7 1)) as E2 by by vm_compute.
  revert E1 E2. destruct (tr_raft_service_take_read_state solo_read) as [[res s] state]. cbn. by intros -> ->.
Defined.

(** A service that is frozen for a backup keeps its core. *)
Definition solo_frozen : desk_service := snd (tr_raft_service_prepare_backup solo_polled).

Lemma closed_service_frozen_witness :
  sv_backup_prepared solo_frozen = true /\
  sv_core (snd (tr_raft_service_propose_batch solo_frozen [proposal])) = sv_core solo_frozen.
Proof.
  split; [by vm_compute|].
  apply (closed_service_frozen solo_frozen (snd (tr_raft_service_propose_batch solo_frozen [proposal])));
    [|by vm_compute].
  eapply service_propose, surjective_pairing. by vm_compute.
Defined.

(** *** After a start from a log *)

Definition restarted : desk_service :=
  get_service (new_service (recovery 0 2 1 [Entry 1 1 5 0 []; Entry 2 1 5 0 []]) (empty_desk 0 0)).

Lemma early_snapshot_faults_witness :
  sv_faulted restarted = false /\
  fst (tr_raft_service_poll restarted) = SALTS_OK /\
  fst (tr_raft_service_trigger_snapshot restarted) = SALTS_EBUSY /\
  sv_faulted (snd (tr_raft_service_trigger_snapshot restarted)) = true /\
  exists s, tr_service_snapshot restarted true = (SALTS_EBUSY, s) /\ sv_faulted s = true.
Proof.
  do 4 (split; [by vm_compute|]).
  destruct (early_snapshot_faults restarted) as (s & Hrun & Hf & _); [by vm_compute..|]. eauto.
Defined.

(** *** With two peers *)

(** The transport refuses the first request for a vote of each peer. *)
Definition trio : desk_service := get_service (new_service (example_config [1; 2; 3] 1) (empty_desk 2 0)).
Definition trio_staged : desk_service := snd (tr_raft_service_tick trio (Tick 11 15)).
(** The requests are sent before those of the next election. *)
Definition trio_sent : desk_service := snd (tr_raft_service_tick trio_staged (Tick 21 15)).

Lemma trio_staged_life : service_life trio trio_staged.
Proof.
  apply tick_life; [|by vm_compute]. unfold trio. apply new_service_life; [|by vm_compute].
  apply example_config_ok; [done|by repeat constructor].
Qed.

